(* ===== verification/_CoqProject ===== *)
-Q . S2P
Prelude.v
BitExp.v
LinearProbe.v
Int64.v
Varint.v
Bitvec.v
RowSet.v
RowSetProofs.v
Ctype.v
Hash.v
HashProofs.v
IntText.v
IntTextProofs.v
MemJournal.v
MemJournalProofs.v
Complete.v
CompleteProofs.v
Utf.v
UtfProofs.v
Like.v
LikeProofs.v
Token.v
TokenProofs.v
CJsonHeap.v
CJsonHeapProofs.v
CJsonText.v
CJsonTextProofs.v
CJsonNum.v
CJsonNumProofs.v
CJson.v
CJsonOps.v
CJsonMinify.v
CJsonRef.v
CJsonParseProofs.v
CJsonPrintProofs.v
CJsonRoundtrip.v
CJsonCopyProofs.v
CJsonCompareProofs.v
CJsonMinifyProofs.v
Mem5.v
Mem5Lists.v
Mem5Proofs.v
Mem5Refine.v
Wal.v
WalProofs.v
WalFrame.v
WalFrameProofs.v
WalRecoverProofs.v
WalIter.v
WalIterProofs.v
WalWrite.v
WalWriteProofs.v
WalCheckpoint.v
WalCheckpointProofs.v
WalCommitProofs.v
Memdb.v
MemdbProofs.v
Double.v
RecordFormat.v
RecordFormatProofs.v
RecordCompare.v
RecordCompareProofs.v
