(* ===== verification/Prelude.v ===== *)
(** * A verified model of core components of SQLite and of cJSON

    The repository compares fuzzers on C and C++ targets.  Its C cores are the SQLite
    library under src/test_targets/sqlite3_full/src/ ("src" below) and the JSON library
    cJSON under src/test_targets/cjson/; some functions of both carry defects that were planted
    for the fuzzers.  This development models components of these libraries in Rocq, each
    as the code is written, and proves what makes them correct, or exactly where they
    go wrong.

    ** How the code is represented

    A C integer is a [Z]; wherever the code converts or lets an unsigned computation
    wrap, the definition says so with [u8] ... [u64], [i32], [i64].  An array is a
    list; reading or writing outside it, and every other undefined behaviour, has no
    result ([None], with [rd] and [wr] below), so a theorem that an operation returns
    [Some _] also says that it is memory-safe.  A pointer into a string is the list of
    the bytes from there on.  Pointers between objects that the code shares or
    relinks are positions in a store (RowSet, Hash, MemJournal, and the heap of cJSON, where
    a block that is freed is gone, so that a use after free or a double free has no
    result).  The allocator is the list of the outcomes of the coming requests ([mem]) or the memory that a
    request returns, so every allocation failure is covered.  Loops are recursive
    functions with fuel; each client passes fuel computed from the size of
    its data, and the theorems state that a result exists, which is termination
    with that fuel.  A loop with a static bound takes it as a [nat].

    ** Parts

    - Prelude.v (this file): machine integers, arrays, allocator, result codes,
      tactics, generic lemmas.
    - BitExp.v: reflection of bit-vector expressions, used by Varint.v.
      LinearProbe.v: open addressing with linear probing, used by Bitvec.v.
    - Varint.v (src/util.c): variable-length integers and big-endian words.
      The decoder is the inverse of the encoder, equals a reference decoder on every
      byte sequence, and reads no more than nine bytes; length and 32-bit variants.
    - Int64.v (src/util.c): overflow-checked and wide integer arithmetic, and
      the logarithmic estimates.  Results are exact; overflow is reported exactly
      when it happens; the estimate is within its stated error.
    - Bitvec.v (src/bitvec.c): the set of page numbers, as bitmap, hash table or tree
      of both.  Refinement of a finite set through every conversion; after a failed
      allocation no member is lost and nothing leaks.
    - RowSet.v, RowSetProofs.v (src/rowset.c): the set of row ids in its two modes of use.
      A store of entries linked in place; the sorted mode delivers the distinct
      ids in order, the test mode refines a set of past batches, the trees are balanced.
    - Ctype.v (src/global.c, src/util.c): character tables, comparison without
      case, hashing, length, dequoting.
    - Hash.v, HashProofs.v (src/hash.c): the hash table with its single list of elements
      and buckets that point into it.  Refinement of a finite map under
      case-insensitive keys, through every resize and allocation failure.
    - IntText.v, IntTextProofs.v (src/util.c): integers to and from decimal and hexadecimal
      text in the three encodings, and blobs from hexadecimal.
    - MemJournal.v, MemJournalProofs.v (src/memjournal.c): the rollback journal in memory, a
      list of chunks that spills to a file.  The class [Vfs] states what it uses of a file
      and [VfsLaws] what it relies on; the journal refines one byte sequence before
      and after the spill, and one that never spills fails only when memory is refused.
    - Complete.v, CompleteProofs.v (src/complete.c): whether a text is a complete sequence of
      statements, against a grammar of tokens and statements.
    - Utf.v, UtfProofs.v (src/utf.c, src/vdbemem.c): code points in UTF-8 and UTF-16, and the
      conversion of the string in a value.  Correct on well-formed text, memory-safe
      on any bytes with the buffer sizes that the code computes.
    - Like.v, LikeProofs.v (src/func.c): LIKE and GLOB.  [patternCompare] decides a declarative
      matching relation and its early-out result is justified.
    - Token.v, TokenProofs.v (src/tokenize.c): the tokenizer and the loop that feeds the
      parser.  Every token is a nonempty part of the text, literals round-trip; which
      identifiers and keywords overflow the two fixed buffers, and that the loop ends on a
      text in which no token is such a one.

    - Mem5.v, Mem5Lists.v, Mem5Proofs.v, Mem5Refine.v (src/mem5.c): the power-of-two allocator, the links of the
      free blocks in the pool itself.  The pool is a partition into aligned blocks, the free lists hold the
      free ones and free buddies are merged; hence an allocation fails only when no aligned run is free.  The allocator
      implements a map from pointers to contents for a client that stores, frees and reallocates.

    The write-ahead log (src/wal.c), for one connection that holds the locks its calls ask for; what other
    connections wrote before is in the shared memory and in the file:
    - Wal.v, WalProofs.v: the pages of the wal-index with their hash tables.  A frame is found by [walFindFrame] when it is the last
      of its page in the snapshot of the reader; appending and cutting keep the tables and the list of frames together
      ([indexed], [represents]).  Pages of the shared memory come from [xShmMap], a parameter.
    - WalFrame.v, WalFrameProofs.v: checksums, frame headers, the two copies of the header of the index.
      WalRecoverProofs.v: recovery finds the committed frames of any log file, with anything behind them.
    - WalIter.v, WalIterProofs.v: the merge sort of the frames of a page of the index and the iterator of a checkpoint.
    - WalWrite.v, WalWriteProofs.v: read marks, transactions, undo, the restart of the log, and [walFrames].  The classes [FileOps] and
      [ShmLocks] are what it uses of a file and of the locks, [FileLaws] what is relied on: a write that succeeds changes
      the bytes of its range, one that fails at most those.  Locks may refuse at will.  WalCommitProofs.v has the theorems on a whole
      call, the first one of its transaction, with the restart of the log that it may start with: a commit is in the file and in
      the index, an error loses no committed frame, and recovery from the bytes of the log file alone, after the shared memory
      is gone, finds the commit.  What the operating system loses of a file in a crash is not modelled.
    - WalCheckpoint.v, WalCheckpointProofs.v: checkpoints.  The latest version of every page and the snapshots of the readers
      that hold locks ([shut_out]) are the same before and after ([page_view]), however it ends.
    Loops over frames have as fuel the number of frames, over the slots of a table their number, over the readers
    [WAL_NREADER], and the retries of [walTryBeginRead] its own limit; the theorems state that a result exists.

    - Memdb.v, MemdbProofs.v (src/memdb.c): in-memory database files.  Any number of files, some sharing a store by name, with any
      sequence of operations on them: the stores refine named sequences of bytes and locks ([spec] over [view] and [locks]), locks
      exclude each other, and a store lives as long as a file on it is open.

    The record format (src/vdbeaux.c and OP_MakeRecord of src/vdbe.c):
    - Double.v: doubles as their 64 bits, and that [sqlite3IntFloatCompare] compares an integer and a double by their exact values.
    - RecordFormat.v, RecordFormatProofs.v: making a record of registers and unpacking it.  [val] is what a register holds and [record]
      the documented format of a list of values; OP_MakeRecord writes it and [sqlite3VdbeRecordUnpack] reads the values back.
    - RecordCompare.v, RecordCompareProofs.v: the comparison of two values is a total preorder on [val] ([val_cmp]); a record and an
      unpacked key compare field by field, with the same result by the general routine and by the fast ones.
    The loop of the comparison has the size of the key as fuel.

    cJSON (src/test_targets/cjson/cJSON.c, cJSON.h):
    - CJsonHeap.v, CJsonHeapProofs.v: the heap of items and strings, construction, cJSON_Delete, and
      the operations on the doubly linked lists of children.  Deleting a forest of items frees what it
      owns and nothing else; the list operations do to the list what their names say.
    - CJsonText.v, CJsonTextProofs.v: strings, read with their escapes and written with them, and the print
      buffer.  [malloc_bytes n] is what a block of [n] bytes holds, at least [n] of them ([sized], all that
      the theorems ask of the allocator): an [exact] block has just these, a [roomy] one a byte to
      spare.  The planted off-by-one overflows every exact block of a string ([overflows]); where it
      does not, strings are read as a reference says and round-trip.
    - CJsonNum.v, CJsonNumProofs.v: doubles (the Standard Library's specification of IEEE 754),
      [strtod] and [sprintf] for the formats used; ints are read back.
    - CJson.v: the recursive parser and printer with their entry points.  [parse_fuel] and
      [print_fuel] bound the nesting by the length of the text and the number of items.
    - CJsonRef.v: the type [json], a parser on lists of bytes, and how the parse buffer follows it.
    - CJsonParseProofs.v: the parser returns a well linked tree of new items for the value
      that the reference finds, or NULL with the heap as it was, unless a string of the text overflows its
      block ([overflowing]); [values] is the abstraction from linked items to [json].
    - CJsonPrintProofs.v: the printer writes [jshow], growing its buffer, on every outcome of the allocator, for
      values without the control characters that overflow ([safe]).
      CJsonRoundtrip.v: printing and then parsing gives a tree for the same value, unless a string overflows.
    - CJsonOps.v: types, members by name, creation, references, duplication and comparison.
      CJsonCopyProofs.v: a duplicate is a separate tree with the same contents, and a failed one leaves
      nothing.  CJsonCompareProofs.v: lookup by name and comparison are what the values say, and
      a duplicate compares equal.
    - CJsonMinify.v, CJsonMinifyProofs.v: [cJSON_Minify] in place stays in its block and follows an
      automaton; it makes unformatted text of formatted text unless a string ends with
      a backslash.

    Ctype.v serves Hash.v, IntText.v, Complete.v, Utf.v, Like.v and Token.v; Like.v reads its
    strings through Utf.v; Token.v's literals are those of IntText.v and Ctype.v.  Files named
    [*Proofs] hold the proofs about the definitions of the file they are named after.

    ** Not modelled

    Code that is only I/O, locking or glue over other modules (os_*.c, mutex*.c,
    threads.c, the SQL functions other than LIKE and GLOB), generated code (the
    parser, the keyword table, which are parameters of Token.v), and the parts
    listed as such in the manifest: the B-tree, the pager, the virtual
    machine and the code generator are state machines over the file system
    and each other that this development does not reach.  Of the write-ahead log are left out: opening and
    closing, [walIndexReadHdr] and the start of a read transaction without [useWal], read-only and
    exclusive connections, snapshots, and changes by other connections between the steps of one call.  Of the records are left out: affinities, the
    trimming of NULLs, collating sequences that need another encoding, and reading single columns (OP_Column).  Floating-point
    conversion of SQLite waits for a model of the 128-bit scaling it is built on.  Of cJSON the hooks
    (cJSON_InitHooks, cJSON_malloc, cJSON_free), cJSON_Version and the accessor of the global error
    pointer are left out: the allocator is a parameter and the error position is part of
    the parser's result. *)
From stdpp Require Export base numbers list gmap sorting.
From Stdlib Require Export ZArith Lia.

#[export] Set Default Goal Selector "!".

Declare Scope c_scope.
Delimit Scope c_scope with C.
Open Scope c_scope.
Open Scope Z_scope.

(** ** Machine integers

    A C integer is a [Z]; a value is stored in a [w]-bit object by the wrapping
    functions below, which are written out at every place where the code
    converts or lets an unsigned computation wrap. *)

Definition u8 (x : Z) : Z := x mod 2 ^ 8.
Definition u16 (x : Z) : Z := x mod 2 ^ 16.
Definition u32 (x : Z) : Z := x mod 2 ^ 32.
Definition u64 (x : Z) : Z := x mod 2 ^ 64.

(** Two's complement reinterpretation, the behaviour of the conversion
    [(i32)x] or [(i64)x] on every supported compiler. *)
Definition sgn (w x : Z) : Z := (x + 2 ^ (w - 1)) mod 2 ^ w - 2 ^ (w - 1).
Definition i8 (x : Z) : Z := sgn 8 x.
Definition i16 (x : Z) : Z := sgn 16 x.
Definition i32 (x : Z) : Z := sgn 32 x.
Definition i64 (x : Z) : Z := sgn 64 x.

Definition LARGEST_INT64 : Z := 2 ^ 63 - 1.
Definition SMALLEST_INT64 : Z := - 2 ^ 63.

(** A list of bytes, each in [0, 255]. *)
Definition bytes (l : list Z) : Prop := Forall (λ b, 0 ≤ b < 256) l.

(** C truth values. *)
Definition b2z (b : bool) : Z := if b then 1 else 0.

(** ** Result codes of sqlite3.h *)
Definition SQLITE_OK : Z := 0.
Definition SQLITE_ERROR : Z := 1.
Definition SQLITE_BUSY : Z := 5.
Definition SQLITE_NOMEM : Z := 7.
Definition SQLITE_READONLY : Z := 8.
Definition SQLITE_CORRUPT : Z := 11.
Definition SQLITE_FULL : Z := 13.
Definition SQLITE_IOERR_SHORT_READ : Z := 522.

(** ** Arrays

    Reading or writing outside an array is undefined behaviour in C; the model
    makes it the result [None], so that a theorem that an operation returns
    [Some _] also says that it stays in bounds. *)

Definition rd {A} (l : list A) (i : Z) : option A :=
  if i <? 0 then None else l !! Z.to_nat i.

Definition wr {A} (l : list A) (i : Z) (x : A) : option (list A) :=
  if (0 <=? i) && (i <? Z.of_nat (length l)) then Some (<[Z.to_nat i := x]> l)
  else None.

Notation "l .[ i ]" := (rd l i) (at level 1, left associativity, format "l .[ i ]") : c_scope.

Abbreviation zlen l := (Z.of_nat (length l)).

(** ** The allocator

    The system allocator is outside the program.  Its only influence on the
    modelled code is whether a request succeeds, so an allocator state is the
    list of outcomes of the coming requests (every request after the list
    succeeds), as in SQLite's own fault simulator, and the number of live
    allocations, which the leak theorems count. *)
Record mem := Mem { oom : list bool; live : Z }.

Definition sqlite3Malloc (m : mem) : bool * mem :=
  match oom m with
  | [] => (true, Mem [] (live m + 1))
  | true :: o => (true, Mem o (live m + 1))
  | false :: o => (false, Mem o (live m))
  end.

Definition sqlite3_free (m : mem) : mem := Mem (oom m) (live m - 1).

(** ** Tactics *)

(** Turn boolean comparisons in the hypotheses into propositions. *)
Ltac b2p :=
  repeat match goal with
  | H : (_ && _) = true |- _ => apply andb_true_iff in H as [? ?]
  | H : (_ || _) = false |- _ => apply orb_false_iff in H as [? ?]
  | H : (_ && _) = false |- _ => apply andb_false_iff in H
  | H : (_ || _) = true |- _ => apply orb_true_iff in H
  | H : negb _ = true |- _ => apply negb_true_iff in H
  | H : negb _ = false |- _ => apply negb_false_iff in H
  | H : (_ =? _) = true |- _ => apply Z.eqb_eq in H
  | H : (_ =? _) = false |- _ => apply Z.eqb_neq in H
  | H : (_ <? _) = true |- _ => apply Z.ltb_lt in H
  | H : (_ <? _) = false |- _ => apply Z.ltb_ge in H
  | H : (_ <=? _) = true |- _ => apply Z.leb_le in H
  | H : (_ <=? _) = false |- _ => apply Z.leb_gt in H
  end.

(** Case analysis on a boolean comparison of the goal. *)
Ltac case_cmp :=
  match goal with
  | |- context [?a =? ?b] => destruct (Z.eqb_spec a b)
  | |- context [?a <? ?b] => destruct (Z.ltb_spec a b)
  | |- context [?a <=? ?b] => destruct (Z.leb_spec a b)
  end.

(** Evaluate reads at literal positions of literal arrays. *)
Ltac red_rd :=
  cbv [rd Z.ltb Z.compare Pos.compare Pos.compare_cont Z.to_nat Pos.to_nat
       Pos.iter_op Nat.add Init.Nat.add lookup list_lookup mbind option_bind].

(** Lengths of concatenations. *)
Ltac len := repeat (progress (rewrite ?length_app; cbn [length app])); lia.
Ltac len_in H := repeat (progress (rewrite ?length_app in H; cbn [length app] in H)).

(** Linear arithmetic with [/] and [mod] by constants. *)
Ltac zdm := Z.div_mod_to_equations; lia.

(** Split an equation about a sequence of fallible steps. *)
Ltac inv_bind :=
  repeat match goal with
  | H : mbind _ _ = Some _ |- _ => apply bind_Some in H as (? & ? & H)
  | H : Some _ = Some _ |- _ => injection H as H
  | H : None = Some _ |- _ => discriminate H
  | H : (_, _) = (_, _) |- _ => injection H as H
  | p : (_ * _)%type |- _ => destruct p
  end.

(** ** Facts about machine integers *)

Lemma u8_range x : 0 ≤ u8 x < 256.
Proof. unfold u8. apply Z.mod_pos_bound. lia. Qed.
Lemma u16_range x : 0 ≤ u16 x < 2 ^ 16.
Proof. apply Z.mod_pos_bound. lia. Qed.
Lemma u32_range x : 0 ≤ u32 x < 2 ^ 32.
Proof. apply Z.mod_pos_bound. lia. Qed.
Lemma u64_range x : 0 ≤ u64 x < 2 ^ 64.
Proof. apply Z.mod_pos_bound. lia. Qed.

Lemma u8_id x : 0 ≤ x < 256 → u8 x = x.
Proof. apply Z.mod_small. Qed.
Lemma u16_id x : 0 ≤ x < 2 ^ 16 → u16 x = x.
Proof. apply Z.mod_small. Qed.
Lemma u32_id x : 0 ≤ x < 2 ^ 32 → u32 x = x.
Proof. apply Z.mod_small. Qed.
Lemma u64_id x : 0 ≤ x < 2 ^ 64 → u64 x = x.
Proof. apply Z.mod_small. Qed.

Lemma sgn_range w x : 0 < w → - 2 ^ (w - 1) ≤ sgn w x < 2 ^ (w - 1).
Proof.
  intros Hw. unfold sgn.
  assert (2 ^ w = 2 * 2 ^ (w - 1)) as E.
  { rewrite <- Z.pow_succ_r by lia. f_equal. lia. }
  assert (0 < 2 ^ (w - 1)) by (apply Z.pow_pos_nonneg; lia).
  pose proof (Z.mod_pos_bound (x + 2 ^ (w - 1)) (2 ^ w)). lia.
Qed.

Lemma sgn_id w x : 0 < w → - 2 ^ (w - 1) ≤ x < 2 ^ (w - 1) → sgn w x = x.
Proof.
  intros Hw Hx. unfold sgn.
  assert (2 ^ w = 2 * 2 ^ (w - 1)) as E.
  { rewrite <- Z.pow_succ_r by lia. f_equal. lia. }
  rewrite Z.mod_small; lia.
Qed.

Lemma i64_id x : SMALLEST_INT64 ≤ x ≤ LARGEST_INT64 → i64 x = x.
Proof. unfold SMALLEST_INT64, LARGEST_INT64. intros. apply sgn_id; lia. Qed.
Lemma i32_id x : - 2 ^ 31 ≤ x < 2 ^ 31 → i32 x = x.
Proof. intros. apply sgn_id; lia. Qed.

(** ** Facts about arrays *)

Section arrays.
Context {A : Type}.
Implicit Types (l : list A) (i j : Z) (x : A).

Lemma rd_nat l (n : nat) : rd l (Z.of_nat n) = l !! n.
Proof. unfold rd. case_cmp; [lia|]. by rewrite Nat2Z.id. Qed.

Lemma rd_lookup l i x : rd l i = Some x ↔ 0 ≤ i ∧ l !! Z.to_nat i = Some x.
Proof. unfold rd. case_cmp; (split; [|intros [? ?]]); [done|lia|done|done]. Qed.

Lemma rd_Some_lt l i x : rd l i = Some x → 0 ≤ i < zlen l.
Proof. intros [? ?%lookup_lt_Some]%rd_lookup. lia. Qed.

Lemma rd_in_bounds l i : 0 ≤ i < zlen l → ∃ x, rd l i = Some x.
Proof.
  intros. destruct (lookup_lt_is_Some_2 l (Z.to_nat i)) as [x Hx]; [lia|].
  exists x. apply rd_lookup. split; [lia|done].
Qed.

Lemma rd_None l i : zlen l ≤ i → rd l i = None.
Proof. intros. unfold rd. case_cmp; [done|]. apply lookup_ge_None. lia. Qed.

Lemma wr_in_bounds l i x :
  0 ≤ i < zlen l → wr l i x = Some (<[Z.to_nat i := x]> l).
Proof. intros. unfold wr. do 2 (case_cmp; [|lia]). done. Qed.

Lemma wr_Some l i x l' :
  wr l i x = Some l' → 0 ≤ i < zlen l ∧ l' = <[Z.to_nat i := x]> l.
Proof.
  unfold wr. destruct (_ && _) eqn:E; [|done]. b2p.
  intros [= <-]. split; [lia|done].
Qed.

Lemma wr_length l i x l' : wr l i x = Some l' → length l' = length l.
Proof. intros [_ ->]%wr_Some. apply length_insert. Qed.

Lemma rd_wr l i x l' j :
  wr l i x = Some l' → rd l' j = if i =? j then Some x else rd l j.
Proof.
  intros [Hi ->]%wr_Some. unfold rd. repeat case_cmp; try lia; try done.
  - subst. apply list_lookup_insert_eq. lia.
  - apply list_lookup_insert_ne. lia.
Qed.

Lemma rd_insert l i x j :
  0 ≤ i < zlen l → rd (<[Z.to_nat i := x]> l) j = if i =? j then Some x else rd l j.
Proof. intros. eapply rd_wr, wr_in_bounds. done. Qed.

Lemma rd_app_l l1 l2 i : i < zlen l1 → rd (l1 ++ l2) i = rd l1 i.
Proof. intros. unfold rd. case_cmp; [done|]. apply lookup_app_l. lia. Qed.

Lemma rd_app_r l1 l2 i :
  zlen l1 ≤ i → rd (l1 ++ l2) i = rd l2 (i - zlen l1).
Proof.
  intros. unfold rd. case_cmp; [lia|]. case_cmp; [lia|].
  rewrite lookup_app_r by lia. f_equal. lia.
Qed.

Lemma rd_app_head l1 l2 x : rd (l1 ++ x :: l2) (zlen l1) = Some x.
Proof. by rewrite rd_app_r, Z.sub_diag by lia. Qed.

Lemma rd_replicate (n : nat) x i : 0 ≤ i < Z.of_nat n → rd (replicate n x) i = Some x.
Proof. intros. apply rd_lookup. split; [lia|]. apply lookup_replicate_2. lia. Qed.
End arrays.

Lemma rd_ext {A} (l1 l2 : list A) :
  (∀ i, 0 ≤ i → rd l1 i = rd l2 i) → l1 = l2.
Proof.
  intros H. apply list_eq. intros n. rewrite <- !rd_nat. apply H. lia.
Qed.

Lemma bytes_rd l i b : bytes l → rd l i = Some b → 0 ≤ b < 256.
Proof. intros Hl [_ H]%rd_lookup. by eapply Forall_lookup_1 in Hl. Qed.

Lemma bytes_cons b l : bytes (b :: l) ↔ 0 ≤ b < 256 ∧ bytes l.
Proof. unfold bytes. by rewrite Forall_cons. Qed.

Lemma bytes_app l1 l2 : bytes (l1 ++ l2) ↔ bytes l1 ∧ bytes l2.
Proof. unfold bytes. by rewrite Forall_app. Qed.

(** ** Facts about bits *)

Lemma testbit_small a n : 0 ≤ a < 2 ^ n → ∀ i, n ≤ i → Z.testbit a i = false.
Proof.
  intros Ha i Hi. destruct (Z.ltb_spec n 0).
  { rewrite Z.pow_neg_r in Ha by lia. lia. }
  rewrite <- (Z.mod_small a (2 ^ n)) by done. apply Z.mod_pow2_bits_high. lia.
Qed.

(** Two naturals below [2^n] are equal when their first [n] bits agree. *)
Lemma bits_inj_below n a b :
  0 ≤ a < 2 ^ n → 0 ≤ b < 2 ^ n →
  (∀ i, 0 ≤ i < n → Z.testbit a i = Z.testbit b i) → a = b.
Proof.
  intros Ha Hb H. apply Z.bits_inj'. intros i Hi.
  destruct (Z.ltb_spec i n); [by apply H|].
  rewrite !(testbit_small _ n); done.
Qed.

Lemma lor_range n a b :
  0 ≤ a < 2 ^ n → 0 ≤ b < 2 ^ n → 0 ≤ Z.lor a b < 2 ^ n.
Proof.
  intros Ha Hb. assert (0 ≤ Z.lor a b) as H0 by (apply Z.lor_nonneg; lia).
  split; [done|].
  assert (0 ≤ n). { destruct (Z.ltb_spec n 0); [|done]. rewrite Z.pow_neg_r in Ha; lia. }
  destruct (Z.eq_dec (Z.lor a b) 0); [lia|].
  apply Z.log2_lt_pow2; [lia|].
  rewrite Z.log2_lor by lia. apply Z.max_lub_lt.
  - destruct (Z.eq_dec a 0) as [->|]; [|apply Z.log2_lt_pow2; lia].
    destruct (Z.eq_dec n 0) as [->|]; [|simpl; lia].
    assert (b = 0) as -> by lia. done.
  - destruct (Z.eq_dec b 0) as [->|]; [|apply Z.log2_lt_pow2; lia].
    destruct (Z.eq_dec n 0) as [->|]; [|simpl; lia].
    assert (a = 0) as -> by lia. done.
Qed.

Lemma land_range n a b : 0 ≤ a < 2 ^ n → 0 ≤ b → 0 ≤ Z.land a b < 2 ^ n.
Proof.
  intros Ha Hb. split; [apply Z.land_nonneg; lia|].
  destruct (Z.eq_dec (Z.land a b) 0); [lia|].
  assert (0 ≤ Z.land a b) by (apply Z.land_nonneg; lia).
  apply Z.log2_lt_cancel. pose proof (Z.log2_land a b ltac:(lia) Hb).
  assert (0 < a). { destruct (Z.eq_dec a 0) as [->|]; [by rewrite Z.land_0_l in *|lia]. }
  destruct (Z.ltb_spec n 0); [rewrite Z.pow_neg_r in Ha by lia; lia|].
  rewrite Z.log2_pow2 by done.
  assert (Z.log2 a < n) by (apply Z.log2_lt_pow2; lia). lia.
Qed.

Lemma shiftl_range n k a :
  0 ≤ k ≤ n → 0 ≤ a < 2 ^ (n - k) → 0 ≤ Z.shiftl a k < 2 ^ n.
Proof.
  intros Hk Ha. rewrite Z.shiftl_mul_pow2 by lia.
  assert (2 ^ n = 2 ^ (n - k) * 2 ^ k) as ->.
  { rewrite <- Z.pow_add_r by lia. f_equal. lia. }
  assert (0 < 2 ^ k) by (apply Z.pow_pos_nonneg; lia). nia.
Qed.

Lemma shiftr_range n k a : 0 ≤ k → 0 ≤ a < 2 ^ n → 0 ≤ Z.shiftr a k < 2 ^ n.
Proof.
  intros Hk Ha. rewrite Z.shiftr_div_pow2 by lia.
  assert (0 < 2 ^ k) by (apply Z.pow_pos_nonneg; lia).
  split; [apply Z.div_pos; lia|].
  apply Z.le_lt_trans with a; [|lia]. apply Z.div_le_upper_bound; nia.
Qed.

Lemma shiftr_range_le n k a :
  0 ≤ k → 0 ≤ n → 0 ≤ a < 2 ^ (n + k) → 0 ≤ Z.shiftr a k < 2 ^ n.
Proof.
  intros Hk Hn Ha. rewrite Z.shiftr_div_pow2 by lia.
  assert (0 < 2 ^ k) by (apply Z.pow_pos_nonneg; lia).
  split; [apply Z.div_pos; lia|]. apply Z.div_lt_upper_bound; [lia|].
  rewrite <- Z.pow_add_r by lia. replace (k + n) with (n + k) by lia. lia.
Qed.

Lemma mod_range n k a : 0 ≤ k ≤ n → 0 ≤ a mod 2 ^ k < 2 ^ n.
Proof.
  intros. pose proof (Z.mod_pos_bound a (2 ^ k) (Z.pow_pos_nonneg 2 k ltac:(lia) ltac:(lia))).
  pose proof (Z.pow_le_mono_r 2 k n). lia.
Qed.

Lemma shiftl_bit a n i :
  0 ≤ n → Z.testbit (Z.shiftl a n) i = (0 <=? i) && (n <=? i) && Z.testbit a (i - n).
Proof.
  intros. case_cmp; simpl; [|by apply Z.testbit_neg_r].
  rewrite Z.shiftl_spec by done. case_cmp; [done|].
  by rewrite Z.testbit_neg_r by lia.
Qed.

Lemma shiftr_bit a n i :
  Z.testbit (Z.shiftr a n) i = (0 <=? i) && Z.testbit a (i + n).
Proof. case_cmp; simpl; [by apply Z.shiftr_spec|by apply Z.testbit_neg_r]. Qed.

(** Words side by side. *)
Lemma lor_add k lo h : 0 ≤ k → 0 ≤ lo < 2 ^ k → Z.lor lo (h * 2 ^ k) = lo + h * 2 ^ k.
Proof.
  intros Hk Hlo. symmetry. apply Z.add_nocarry_lor.
  rewrite <- Z.shiftl_mul_pow2 by done. apply Z.bits_inj'. intros i Hi.
  rewrite Z.land_spec, Z.bits_0, Z.shiftl_spec by done.
  destruct (Z.ltb_spec i k).
  - by rewrite (Z.testbit_neg_r h), andb_false_r by lia.
  - by rewrite (testbit_small lo k) by lia.
Qed.

Create Rewrite HintDb bits.
#[export] Hint Rewrite Z.lor_spec Z.land_spec Z.lxor_spec shiftr_bit : bits.
#[export] Hint Rewrite Z.testbit_mod_pow2 shiftl_bit using lia : bits.

(** Prove [0 <= e < 2^n] for an expression of bit operations over variables
    with range hypotheses. *)
Ltac bit_range :=
  lazymatch goal with
  | |- 0 ≤ Z.lor _ _ < 2 ^ _ => apply lor_range; bit_range
  | |- 0 ≤ Z.land _ _ < 2 ^ _ => apply land_range; [bit_range|lia]
  | |- 0 ≤ Z.shiftl _ _ < 2 ^ _ => apply shiftl_range; [lia|bit_range]
  | |- 0 ≤ Z.shiftr _ _ < 2 ^ _ => apply shiftr_range; [lia|bit_range]
  | |- 0 ≤ _ mod 2 ^ _ < 2 ^ _ => apply mod_range; lia
  | |- 0 ≤ _ < 2 ^ ?n =>
      let m := eval vm_compute in (2 ^ n) in change (2 ^ n) with m; lia
  end.

(** ** Facts about the allocator *)

Lemma sqlite3Malloc_live m ok m' :
  sqlite3Malloc m = (ok, m') → live m' = live m + b2z ok.
Proof.
  unfold sqlite3Malloc. destruct (oom m) as [|[] o]; intros [= <- <-]; simpl; lia.
Qed.

(** An allocator that never fails keeps never failing. *)
Definition always_ok (m : mem) : Prop := Forall (λ b, b = true) (oom m).

Lemma sqlite3Malloc_ok m ok m' :
  always_ok m → sqlite3Malloc m = (ok, m') → ok = true ∧ always_ok m'.
Proof.
  unfold always_ok, sqlite3Malloc. intros H.
  destruct (oom m) as [|[] o]; intros [= <- <-]; simpl; try done.
  - by apply Forall_cons in H as [_ ?].
  - by apply Forall_cons in H as [? _].
Qed.

(** ** Facts about bytes *)

(** A boolean property of a range of integers is decided by trying them all. *)
Lemma range_all (P : Z → bool) a n :
  forallb P (seqZ a n) = true → ∀ c, a ≤ c < a + n → P c = true.
Proof.
  intros H c Hc. rewrite forallb_forall in H. apply H. apply list_elem_of_In.
  by apply elem_of_seqZ.
Qed.

Lemma byte_all (P : Z → bool) :
  forallb P (seqZ 0 256) = true → ∀ c, 0 ≤ c < 256 → P c = true.
Proof. intros H c Hc. by apply (range_all P 0 256). Qed.

Create HintDb cint.
#[export] Hint Resolve u8_range u16_range u32_range u64_range : cint.
Create Rewrite HintDb cwrap.
#[export] Hint Rewrite u8_id u16_id u32_id u64_id using lia : cwrap.
