(* ===== verification/BitExp.v ===== *)
(** * Equations between bit expressions, by reflection

    The decoders of the file format assemble words from bytes with shifts,
    masks and ors, in an order chosen for speed.  An equation between two such
    expressions is decided here: every bit of an expression is a disjunction of
    bits of its variables, and that disjunction is computed. *)
From S2P Require Import Prelude.

Inductive bexp :=
  | BVar (v : nat)
  | BConst (c : Z)
  | BOr (a b : bexp)
  | BAnd (a : bexp) (mask : Z)
  | BShl (a : bexp) (n : Z)
  | BShr (a : bexp) (n : Z)
  | BMod (a : bexp) (n : Z).

Section bexp.
Context (env : list Z) (width : list Z).

Fixpoint denote (e : bexp) : Z :=
  match e with
  | BVar v => nth v env 0
  | BConst c => c
  | BOr a b => Z.lor (denote a) (denote b)
  | BAnd a m => Z.land (denote a) m
  | BShl a n => Z.shiftl (denote a) n
  | BShr a n => Z.shiftr (denote a) n
  | BMod a n => denote a mod 2 ^ n
  end.

(** A bit of an expression: the disjunction of a list of atoms, an atom being
    a bit of a variable, or [None] for the constant true. *)
Fixpoint bit (e : bexp) (i : Z) : list (option (nat * Z)) :=
  match e with
  | BVar v => if (0 <=? i) && (i <? nth v width 0) then [Some (v, i)] else []
  | BConst c => if Z.testbit c i then [None] else []
  | BOr a b => bit a i ++ bit b i
  | BAnd a m => if Z.testbit m i then bit a i else []
  | BShl a n => if (0 <=? i) && (n <=? i) then bit a (i - n) else []
  | BShr a n => if 0 <=? i then bit a (i + n) else []
  | BMod a n => if i <? n then bit a i else []
  end.

Definition atom (a : option (nat * Z)) : bool :=
  match a with
  | None => true
  | Some (v, i) => Z.testbit (nth v env 0) i
  end.

(** Shift counts and constants are not negative. *)
Fixpoint bexp_wf (e : bexp) : bool :=
  match e with
  | BVar v => bool_decide (v < length width)%nat
  | BConst c => 0 <=? c
  | BOr a b => bexp_wf a && bexp_wf b
  | BAnd a m => (0 <=? m) && bexp_wf a
  | BShl a n | BShr a n | BMod a n => (0 <=? n) && bexp_wf a
  end.

(** No bit from this position on is set. *)
Fixpoint size_of (e : bexp) : Z :=
  match e with
  | BVar v => nth v width 0
  | BConst c => Z.log2 c + 1
  | BOr a b => Z.max (size_of a) (size_of b)
  | BAnd a _ | BShr a _ | BMod a _ => size_of a
  | BShl a n => size_of a + n
  end.

Definition covers (l1 l2 : list (option (nat * Z))) : bool :=
  forallb (λ x, bool_decide (x ∈ l2)) l1.

Definition bexp_eqb (e1 e2 : bexp) : bool :=
  bexp_wf e1 && bexp_wf e2 &&
  forallb (λ i, covers (bit e1 i) (bit e2 i) && covers (bit e2 i) (bit e1 i))
    (seqZ 0 (Z.max (size_of e1) (size_of e2))).

Hypothesis env_ok : Forall2 (λ x w, 0 ≤ x < 2 ^ w) env width.

Lemma env_nth v : (v < length width)%nat → 0 ≤ nth v env 0 < 2 ^ nth v width 0.
Proof.
  intros Hv. destruct (lookup_lt_is_Some_2 width v Hv) as [w Hw].
  destruct (Forall2_lookup_r _ _ _ _ _ env_ok Hw) as (x & Hx & ?).
  by rewrite (nth_lookup_Some _ _ _ _ Hx), (nth_lookup_Some _ _ _ _ Hw).
Qed.

Lemma bit_correct e i :
  bexp_wf e = true → Z.testbit (denote e) i = existsb atom (bit e i).
Proof.
  revert i. induction e as [v|c|a IHa b IHb|a IHa m|a IHa n|a IHa n|a IHa n];
    intros i Hwf; simpl in *.
  - apply bool_decide_eq_true_1 in Hwf.
    destruct (Z.leb_spec 0 i); simpl; [|by apply Z.testbit_neg_r].
    case_cmp; simpl; [by rewrite orb_false_r|].
    eapply testbit_small; [by apply env_nth|done].
  - destruct (Z.testbit c i); done.
  - b2p. by rewrite Z.lor_spec, existsb_app, IHa, IHb.
  - b2p. rewrite Z.land_spec, IHa by done.
    destruct (Z.testbit m i); [by rewrite andb_true_r|by rewrite andb_false_r].
  - b2p. rewrite shiftl_bit by done.
    repeat case_cmp; simpl; rewrite ?IHa; done.
  - b2p. rewrite shiftr_bit. repeat case_cmp; simpl; rewrite ?IHa; done.
  - b2p. rewrite Z.testbit_mod_pow2 by done.
    case_cmp; simpl; rewrite ?IHa; done.
Qed.

Lemma bit_beyond e i : bexp_wf e = true → size_of e ≤ i → bit e i = [].
Proof.
  revert i. induction e as [v|c|a IHa b IHb|a IHa m|a IHa n|a IHa n|a IHa n];
    intros i Hwf Hi; simpl in *; b2p.
  - repeat case_cmp; simpl; try done. lia.
  - destruct (Z.testbit c i) eqn:E; [|done]. exfalso.
    destruct (Z.eq_dec c 0) as [->|]; [by rewrite Z.bits_0 in E|].
    rewrite Z.bits_above_log2 in E by lia. done.
  - rewrite IHa, IHb by (done || lia). done.
  - rewrite IHa by done. by destruct (Z.testbit m i).
  - rewrite IHa by (done || lia). by destruct (_ && _).
  - rewrite IHa by (done || lia). by case_cmp.
  - rewrite IHa by done. by case_cmp.
Qed.

Lemma covers_existsb l1 l2 :
  covers l1 l2 = true → existsb atom l1 = true → existsb atom l2 = true.
Proof.
  unfold covers. rewrite forallb_forall, !existsb_exists.
  intros H (x & Hx & ?). exists x. split; [|done].
  apply list_elem_of_In, (bool_decide_eq_true_1 (x ∈ l2)), H. done.
Qed.

Lemma bexp_eqb_sound e1 e2 : bexp_eqb e1 e2 = true → denote e1 = denote e2.
Proof.
  unfold bexp_eqb. intros H. b2p. apply Z.bits_inj'. intros i Hi.
  rewrite !bit_correct by done.
  destruct (Z.ltb_spec i (Z.max (size_of e1) (size_of e2))) as [Hlt|Hge].
  - rewrite forallb_forall in H0. specialize (H0 i).
    rewrite <- list_elem_of_In, elem_of_seqZ in H0.
    assert (0 ≤ i < 0 + Z.max (size_of e1) (size_of e2)) as Hr by lia.
    apply H0 in Hr. b2p. apply eq_true_iff_eq. split; by apply covers_existsb.
  - by rewrite !bit_beyond by (done || lia).
Qed.
End bexp.

(** [bits vs ws] proves an equation between bit expressions over the
    variables [vs], the k-th of which fits in the k-th of [ws] bits. *)
Ltac index_of x l :=
  lazymatch l with
  | x :: _ => constr:(O)
  | _ :: ?l' => let n := index_of x l' in constr:(S n)
  end.

Ltac reify_bexp vs t :=
  lazymatch t with
  | Z.lor ?a ?b =>
      let ea := reify_bexp vs a in let eb := reify_bexp vs b in constr:(BOr ea eb)
  | Z.land ?a ?m => let ea := reify_bexp vs a in constr:(BAnd ea m)
  | Z.shiftl ?a ?n => let ea := reify_bexp vs a in constr:(BShl ea n)
  | Z.shiftr ?a ?n => let ea := reify_bexp vs a in constr:(BShr ea n)
  | u8 ?a => let ea := reify_bexp vs a in constr:(BMod ea 8)
  | u16 ?a => let ea := reify_bexp vs a in constr:(BMod ea 16)
  | u32 ?a => let ea := reify_bexp vs a in constr:(BMod ea 32)
  | u64 ?a => let ea := reify_bexp vs a in constr:(BMod ea 64)
  | ?x => match x with
          | _ => let n := index_of x vs in constr:(BVar n)
          | _ => constr:(BConst x)
          end
  end.

Ltac bits vs ws :=
  lazymatch goal with
  | |- ?a = ?b =>
      let ea := reify_bexp vs a in
      let eb := reify_bexp vs b in
      refine (bexp_eqb_sound vs ws _ ea eb _);
      [ repeat apply List.Forall2_cons; [lia..|apply List.Forall2_nil]
      | vm_compute; reflexivity ]
  end.
