(* ===== verification/LinearProbe.v ===== *)
(** * Open addressing with linear probing

    Facts shared by the hash tables of bitvec.c and of the write-ahead-log
    index: a table is a cyclic array in which 0 marks an empty slot, and a
    search walks forward from a home slot until it meets an empty one. *)
From S2P Require Import Prelude.

Section probe.
Context (N : Z) (N_pos : 0 < N).
Implicit Types (t : list Z) (h d p : Z).

Definition filled t p : Prop := ∃ w, rd t p = Some w ∧ w ≠ 0.
Definition empty_at t p : Prop := rd t p = Some 0.

Lemma slot_range h d : 0 ≤ (h + d) mod N < N.
Proof. apply Z.mod_pos_bound. lia. Qed.

(** Every slot is met within [N] steps. *)
Lemma slot_reached h p : 0 ≤ p < N → (h + (p - h) mod N) mod N = p.
Proof.
  intros. rewrite Z.add_mod_idemp_r by lia.
  replace (h + (p - h)) with p by lia. apply Z.mod_small. lia.
Qed.

Lemma slot_inj h d d' :
  0 ≤ d < N → 0 ≤ d' < N → (h + d) mod N = (h + d') mod N → d = d'.
Proof.
  intros Hd Hd' H.
  rewrite <- (Z.mod_small d N), <- (Z.mod_small d' N) by lia.
  replace d with (h + d - h) by lia. replace d' with (h + d' - h) by lia.
  rewrite (Zminus_mod (h + d)), (Zminus_mod (h + d')), H. done.
Qed.

Lemma slot_succ h d : ((h + d) mod N + 1) mod N = (h + (d + 1)) mod N.
Proof. rewrite Z.add_mod_idemp_l by lia. f_equal. lia. Qed.

(** The distance from the home slot [h] at which a walk stops. *)
Definition stops_at t h d : Prop :=
  0 ≤ d < N ∧ empty_at t ((h + d) mod N) ∧
  ∀ d', 0 ≤ d' < d → filled t ((h + d') mod N).

Lemma filled_or_empty t p : zlen t = N → 0 ≤ p < N → filled t p ∨ empty_at t p.
Proof.
  intros Ht Hp. destruct (rd_in_bounds t p) as [w Hw]; [lia|].
  destruct (Z.eq_dec w 0) as [->|]; [by right|left; by exists w].
Qed.

Lemma filled_not_empty t p : filled t p → ¬ empty_at t p.
Proof. unfold empty_at. intros (w & Hw & Hne) He. congruence. Qed.

(** A walk stops as soon as one slot is empty. *)
Lemma walk_stops t h p :
  zlen t = N → 0 ≤ p < N → empty_at t p → ∃ d, stops_at t h d.
Proof.
  intros Ht Hp He.
  assert (∀ n : nat, (Z.of_nat n ≤ N) →
    (∃ d, stops_at t h d) ∨ ∀ d', 0 ≤ d' < Z.of_nat n → filled t ((h + d') mod N)) as Hn.
  { induction n as [|n IH]; intros Hn; [right; lia|].
    destruct IH as [?|IH]; [lia|by left|].
    destruct (filled_or_empty t ((h + Z.of_nat n) mod N) Ht (slot_range _ _)) as [Hf|He'].
    - right. intros d' Hd'. destruct (Z.eq_dec d' (Z.of_nat n)) as [->|]; [done|].
      apply IH. lia.
    - left. exists (Z.of_nat n). split; [lia|]. split; [done|]. intros; apply IH; lia. }
  destruct (Hn (Z.to_nat N)) as [?|Hall]; [lia|done|].
  exfalso. specialize (Hall ((p - h) mod N)).
  rewrite slot_reached in Hall by done.
  apply (filled_not_empty t p); [|done]. apply Hall.
  pose proof (Z.mod_pos_bound (p - h) N). lia.
Qed.

Lemma stops_at_0 t h d : 0 ≤ h < N → stops_at t h d → empty_at t h → d = 0.
Proof.
  intros Hh (Hd & He & Hf) H0. destruct (Z.eq_dec d 0) as [|]; [done|].
  exfalso. apply (filled_not_empty t h); [|done].
  specialize (Hf 0). rewrite Z.add_0_r, Z.mod_small in Hf by lia. apply Hf. lia.
Qed.

(** One step of a walk over a filled slot. *)
Lemma stops_at_step t h d :
  0 ≤ h < N → stops_at t h d → filled t h →
  0 < d ∧ stops_at t ((h + 1) mod N) (d - 1).
Proof.
  intros Hh (Hd & He & Hf) H0.
  assert (d ≠ 0) as Hd0.
  { intros ->. rewrite Z.add_0_r, Z.mod_small in He by lia.
    by apply (filled_not_empty t h). }
  split; [lia|]. split; [lia|]. split.
  - rewrite Z.add_mod_idemp_l by lia. by replace (h + 1 + (d - 1)) with (h + d) by lia.
  - intros d' Hd'. rewrite Z.add_mod_idemp_l by lia.
    replace (h + 1 + d') with (h + (d' + 1)) by lia. apply Hf. lia.
Qed.

(** ** Tables that hold their own keys *)
Context (home : Z → Z) (home_range : ∀ v, 0 ≤ home v < N).

Definition dist v p : Z := (p - home v) mod N.

Lemma dist_range v p : 0 ≤ dist v p < N.
Proof. apply Z.mod_pos_bound. lia. Qed.

(** The walk from a key's home to its slot crosses no empty slot, and a key
    occurs once. *)
Record table_ok t : Prop := {
  table_length : zlen t = N;
  table_path : ∀ p v, rd t p = Some v → v ≠ 0 →
    ∀ d, 0 ≤ d < dist v p → filled t ((home v + d) mod N);
  table_once : ∀ p q v, rd t p = Some v → rd t q = Some v → v ≠ 0 → p = q;
}.

Definition held t v : Prop := v ≠ 0 ∧ ∃ p, rd t p = Some v.

(** A held key is met before the walk from its home stops. *)
Lemma held_before t v d :
  table_ok t → held t v → stops_at t (home v) d →
  ∃ d', 0 ≤ d' < d ∧ rd t ((home v + d') mod N) = Some v.
Proof.
  intros Ht [Hv [p Hp]] (Hd & He & Hf).
  pose proof (rd_Some_lt _ _ _ Hp) as Hlt. rewrite (table_length t Ht) in Hlt.
  exists (dist v p). assert (rd t ((home v + dist v p) mod N) = Some v) as Hr.
  { unfold dist. by rewrite slot_reached. }
  split; [|done]. split; [apply dist_range|].
  destruct (Z.ltb_spec (dist v p) d) as [|Hge]; [done|]. exfalso.
  destruct (Z.eq_dec d (dist v p)) as [->|Hne].
  - unfold empty_at in He. congruence.
  - apply (filled_not_empty t ((home v + d) mod N)); [|done].
    apply (table_path t Ht p v Hp Hv). lia.
Qed.

(** Storing a new key where its walk stops keeps the table well formed. *)
Lemma table_insert t v d :
  table_ok t → v ≠ 0 → ¬ held t v → stops_at t (home v) d →
  table_ok (<[Z.to_nat ((home v + d) mod N) := v]> t).
Proof.
  intros Ht Hv Hnew (Hd & He & Hf).
  pose proof (slot_range (home v) d) as Hq.
  remember ((home v + d) mod N) as q eqn:Eq.
  pose proof (table_length t Ht) as Hlen.
  assert (∀ p, filled t p → filled (<[Z.to_nat q := v]> t) p) as Hmono.
  { intros p (w & Hw & ?). unfold filled. rewrite rd_insert by lia.
    case_cmp; eauto. }
  split.
  - by rewrite length_insert.
  - intros p w Hp Hw e Hle. rewrite rd_insert in Hp by lia.
    destruct (Z.eqb_spec q p) as [<-|]; apply Hmono.
    + injection Hp as <-. apply Hf.
      assert (dist v q = d) as Hdist; [|lia].
      apply (slot_inj (home v)); [apply dist_range|done|].
      unfold dist. rewrite slot_reached; [done|lia].
    + eapply table_path; eauto.
  - intros p1 p2 w H1 H2 Hw. rewrite !rd_insert in * by lia.
    destruct (Z.eqb_spec q p1) as [<-|]; destruct (Z.eqb_spec q p2) as [<-|].
    + done.
    + injection H1 as <-. exfalso. apply Hnew. split; [done|eauto].
    + injection H2 as <-. exfalso. apply Hnew. split; [done|eauto].
    + eapply table_once; eauto.
Qed.

Lemma held_insert t v q w :
  0 ≤ q < zlen t → empty_at t q → v ≠ 0 →
  held (<[Z.to_nat q := v]> t) w ↔ w = v ∨ held t w.
Proof.
  intros Hq He Hv. split.
  - intros [Hw [p Hp]]. rewrite rd_insert in Hp by lia.
    destruct (Z.eqb_spec q p); [left; congruence|right; split; eauto].
  - intros [->|[Hw [p Hp]]]; (split; [done|]).
    + exists q. rewrite rd_insert by lia. by rewrite Z.eqb_refl.
    + exists p. rewrite rd_insert by lia. case_cmp; [|done].
      subst. unfold empty_at in He. congruence.
Qed.

Lemma table_empty (n : nat) : Z.of_nat n = N → table_ok (replicate n 0).
Proof.
  intros Hn. split.
  - by rewrite length_replicate.
  - intros p v [_ [-> _]%lookup_replicate]%rd_lookup. done.
  - intros p q v [_ [-> _]%lookup_replicate]%rd_lookup. done.
Qed.

Lemma held_empty (n : nat) v : ¬ held (replicate n 0) v.
Proof. intros [Hv [p [_ [-> _]%lookup_replicate]%rd_lookup]]. done. Qed.
End probe.

(** ** Counting the occupied slots *)

Definition occupied (t : list Z) : Z := zlen (filter (λ x, x ≠ 0) t).

Lemma occupied_app t1 t2 : occupied (t1 ++ t2) = occupied t1 + occupied t2.
Proof. unfold occupied. rewrite filter_app, length_app. lia. Qed.

Lemma occupied_nonneg t : 0 ≤ occupied t ≤ zlen t.
Proof. unfold occupied. pose proof (length_filter (λ x, x ≠ 0) t). lia. Qed.

Lemma occupied_insert t q v :
  0 ≤ q → empty_at t q → v ≠ 0 →
  occupied (<[Z.to_nat q := v]> t) = occupied t + 1.
Proof.
  intros Hq [_ He]%rd_lookup Hv.
  rewrite <- (take_drop_middle t (Z.to_nat q) 0 He) at 2.
  rewrite (insert_take_drop t (Z.to_nat q) v) by (by eapply lookup_lt_Some).
  rewrite !occupied_app. unfold occupied at 2 4.
  rewrite filter_cons_True, filter_cons_False by naive_solver.
  unfold occupied. simpl. lia.
Qed.

(** A table that is not full has an empty slot. *)
Lemma occupied_empty_slot t :
  occupied t < zlen t → ∃ p, 0 ≤ p < zlen t ∧ empty_at t p.
Proof.
  unfold occupied. induction t as [|x t IH]; simpl; [lia|]. intros H.
  destruct (decide (x ≠ 0)) as [Hx|Hx].
  - rewrite filter_cons_True in H by done. simpl in H.
    destruct IH as (p & Hp & He); [lia|]. exists (p + 1). split; [lia|].
    unfold empty_at in *. apply rd_lookup in He as [? He]. apply rd_lookup.
    split; [lia|]. by rewrite Z2Nat.inj_add by lia; rewrite Nat.add_comm.
  - exists 0. split; [lia|]. apply dec_stable in Hx. by subst.
Qed.
