(* ===== verification/Int64.v ===== *)
(** * Overflow-checked and multi-word arithmetic, and logarithmic estimates

    The portable branches of the integer functions of util.c.  A signed
    computation that would overflow is undefined behaviour; [chk64] makes it
    [None], so a theorem that a function returns [Some _] also says that no
    intermediate result overflows.  Unsigned computations wrap where [u64] and
    [u32] are written. *)
From S2P Require Import Prelude.

Definition in_i64 (x : Z) : bool := (SMALLEST_INT64 <=? x) && (x <=? LARGEST_INT64).
Definition chk64 (x : Z) : option Z := if in_i64 x then Some x else None.

(** ** Checked addition, subtraction and multiplication

    The result is the return code and the new value of [*pA]. *)

Definition sqlite3AddInt64 (iA iB : Z) : option (Z * Z) :=
  let add := s ← chk64 (iA + iB); Some (0, s) in
  if 0 <=? iB then
    if 0 <? iA then
      d ← chk64 (LARGEST_INT64 - iA);
      if d <? iB then Some (1, iA) else add
    else add
  else
    if iA <? 0 then
      t ← chk64 (iA + LARGEST_INT64);
      n ← chk64 (- t);
      s ← chk64 (iB + 1);
      if s <? n then Some (1, iA) else add
    else add.

Definition sqlite3SubInt64 (iA iB : Z) : option (Z * Z) :=
  if iB =? SMALLEST_INT64 then
    if 0 <=? iA then Some (1, iA)
    else d ← chk64 (iA - iB); Some (0, d)
  else
    n ← chk64 (- iB);
    sqlite3AddInt64 iA n.

Definition sqlite3MulInt64 (iA iB : Z) : option (Z * Z) :=
  let mul := p ← chk64 (iA * iB); Some (0, p) in
  if 0 <? iB then
    if Z.quot LARGEST_INT64 iB <? iA then Some (1, iA)
    else if iA <? Z.quot SMALLEST_INT64 iB then Some (1, iA)
    else mul
  else if iB <? 0 then
    if 0 <? iA then
      if iB <? Z.quot SMALLEST_INT64 iA then Some (1, iA) else mul
    else if iA <? 0 then
      if iB =? SMALLEST_INT64 then Some (1, iA)
      else if iA =? SMALLEST_INT64 then Some (1, iA)
      else
        nA ← chk64 (- iA);
        nB ← chk64 (- iB);
        if Z.quot LARGEST_INT64 nB <? nA then Some (1, iA) else mul
    else mul
  else mul.

Definition sqlite3AbsInt32 (x : Z) : Z :=
  if 0 <=? x then x
  else if x =? i32 0x80000000 then 0x7fffffff
  else - x.

(** ** Wide multiplication: the high word and [*pLo] *)

Definition sqlite3Multiply128 (a b : Z) : Z * Z :=
  let a0 := u32 a in
  let a1 := Z.shiftr a 32 in
  let b0 := u32 b in
  let b1 := Z.shiftr b 32 in
  let a0b0 := u64 (a0 * b0) in
  let a1b1 := u64 (a1 * b1) in
  let a0b1 := u64 (a0 * b1) in
  let a1b0 := u64 (a1 * b0) in
  let t := u64 (Z.shiftr a0b0 32 + u32 a0b1 + u32 a1b0) in
  (u64 (a1b1 + Z.shiftr a0b1 32 + Z.shiftr a1b0 32 + Z.shiftr t 32),
   Z.lor (Z.land a0b0 0xffffffff) (u64 (Z.shiftl t 32))).

Definition sqlite3Multiply160 (a aLo b : Z) : Z * Z :=
  let x2 := Z.shiftr a 32 in
  let x1 := Z.land a 0xffffffff in
  let x0 := aLo in
  let y1 := Z.shiftr b 32 in
  let y0 := Z.land b 0xffffffff in
  let x2y1 := u64 (x2 * y1) in
  let r4 := Z.shiftr x2y1 32 in
  let x2y0 := u64 (x2 * y0) in
  let x1y1 := u64 (x1 * y1) in
  let r3 := u64 (Z.land x2y1 0xffffffff + Z.shiftr x2y0 32 + Z.shiftr x1y1 32) in
  let x1y0 := u64 (x1 * y0) in
  let x0y1 := u64 (x0 * y1) in
  let r2 := u64 (Z.land x2y0 0xffffffff + Z.land x1y1 0xffffffff +
                 Z.shiftr x1y0 32 + Z.shiftr x0y1 32) in
  let x0y0 := u64 (x0 * y0) in
  let r1 := u64 (Z.land x1y0 0xffffffff + Z.land x0y1 0xffffffff + Z.shiftr x0y0 32) in
  let r2 := u64 (r2 + Z.shiftr r1 32) in
  let r3 := u64 (r3 + Z.shiftr r2 32) in
  (u64 (u64 (Z.shiftl r4 32) + r3), Z.land r2 0xffffffff).

Definition countLeadingZeros (m : Z) : Z :=
  let n := 0 in
  let '(n, m) := if m <=? 0x00000000ffffffff then (n + 32, u64 (Z.shiftl m 32)) else (n, m) in
  let '(n, m) := if m <=? 0x0000ffffffffffff then (n + 16, u64 (Z.shiftl m 16)) else (n, m) in
  let '(n, m) := if m <=? 0x00ffffffffffffff then (n + 8, u64 (Z.shiftl m 8)) else (n, m) in
  let '(n, m) := if m <=? 0x0fffffffffffffff then (n + 4, u64 (Z.shiftl m 4)) else (n, m) in
  let '(n, m) := if m <=? 0x3fffffffffffffff then (n + 2, u64 (Z.shiftl m 2)) else (n, m) in
  if m <=? 0x7fffffffffffffff then n + 1 else n.

(** ** Logarithmic estimates *)

Definition logest_add_table : list Z :=
  [10; 10; 9; 9; 8; 8; 7; 7; 7; 6; 6; 6; 5; 5; 5; 4; 4; 4; 4; 3; 3; 3; 3; 3; 3;
   2; 2; 2; 2; 2; 2; 2].

Definition sqlite3LogEstAdd (a b : Z) : option Z :=
  if b <=? a then
    if b + 49 <? a then Some a
    else if b + 31 <? a then Some (i16 (a + 1))
    else x ← logest_add_table.[a - b]; Some (i16 (a + x))
  else
    if a + 49 <? b then Some b
    else if a + 31 <? b then Some (i16 (b + 1))
    else x ← logest_add_table.[b - a]; Some (i16 (b + x)).

(** [while( x<8 )] *)
Fixpoint logest_up (fuel : nat) (x y : Z) : Z * Z :=
  match fuel with
  | O => (x, y)
  | S fuel' => if x <? 8 then logest_up fuel' (u64 (Z.shiftl x 1)) (i16 (y - 10)) else (x, y)
  end.

(** [while( x>255 )] and [while( x>15 )] *)
Fixpoint logest_down (fuel : nat) (lim dy s : Z) (x y : Z) : Z * Z :=
  match fuel with
  | O => (x, y)
  | S fuel' =>
      if lim <? x then logest_down fuel' lim dy s (Z.shiftr x s) (i16 (y + dy)) else (x, y)
  end.

Definition sqlite3LogEst (x : Z) : option Z :=
  let y := 40 in
  let finish x y :=
    a ← [0; 2; 3; 5; 6; 7; 8; 9].[Z.land x 7]; Some (i16 (a + y - 10)) in
  if x <? 8 then
    if x <? 2 then Some 0
    else let '(x, y) := logest_up 3 x y in finish x y
  else
    let '(x, y) := logest_down 16 255 40 4 x y in
    let '(x, y) := logest_down 5 15 10 1 x y in
    finish x y.

(** [%] and [/] truncate, and [n] is unsigned. *)
Definition sqlite3LogEstToInt (x : Z) : Z :=
  let n := u64 (Z.rem x 10) in
  let x := Z.quot x 10 in
  let n := if 5 <=? n then n - 2 else if 1 <=? n then n - 1 else n in
  if 60 <? x then LARGEST_INT64
  else if 3 <=? x then u64 (Z.shiftl (n + 8) (x - 3)) else Z.shiftr (u64 (n + 8)) (3 - x).

Example logest_ex :
  (sqlite3LogEst <$> [0; 1; 2; 3; 4; 10; 100; 1000; 2 ^ 64 - 1]) =
  Some <$> [0; 0; 10; 16; 20; 33; 66; 99; 639].
Proof. vm_compute. reflexivity. Qed.

(** ** Checked arithmetic agrees with the mathematical result *)

(** What the compiler intrinsics of the other branch do: the exact result when it
    fits, and otherwise a failure that leaves the operand alone. *)
Definition exact_or_fail (iA r : Z) : Z * Z := if in_i64 r then (0, r) else (1, iA).

Definition i64_range (x : Z) : Prop := SMALLEST_INT64 ≤ x ≤ LARGEST_INT64.

Lemma in_i64_spec x : reflect (i64_range x) (in_i64 x).
Proof.
  apply iff_reflect. unfold in_i64, i64_range. rewrite andb_true_iff, !Z.leb_le. done.
Qed.

Ltac i64_solve :=
  unfold chk64, exact_or_fail, in_i64, i64_range, SMALLEST_INT64, LARGEST_INT64 in *;
  repeat (case_cmp; cbn [andb mbind option_bind]); (done || lia || f_equal; lia).

Lemma add_exact iA iB :
  i64_range iA → i64_range iB → sqlite3AddInt64 iA iB = Some (exact_or_fail iA (iA + iB)).
Proof. intros HA HB. unfold sqlite3AddInt64. i64_solve. Qed.

Lemma sub_exact iA iB :
  i64_range iA → i64_range iB → sqlite3SubInt64 iA iB = Some (exact_or_fail iA (iA - iB)).
Proof.
  intros HA HB. unfold sqlite3SubInt64. case_cmp; [i64_solve|].
  assert (i64_range (- iB)) as HnB by (unfold i64_range, SMALLEST_INT64, LARGEST_INT64 in *; lia).
  unfold chk64 at 1. destruct (in_i64_spec (- iB)); [|done]. cbn [mbind option_bind].
  rewrite add_exact by done. done.
Qed.

(** Comparisons with a truncated quotient, for the signs that occur. *)
Lemma quot_pos_lt n b a : 0 ≤ n → 0 < b → Z.quot n b < a ↔ n < a * b.
Proof.
  intros Hn Hb. rewrite Z.quot_div_nonneg by lia. split; intros H.
  - pose proof (Z.mul_succ_div_gt n b Hb). nia.
  - apply Z.div_lt_upper_bound; lia.
Qed.

Lemma quot_neg_lt n b a : n ≤ 0 → 0 < b → a < Z.quot n b ↔ a * b < n.
Proof.
  intros Hn Hb. replace n with (- - n) by lia. rewrite Z.quot_opp_l by lia.
  pose proof (quot_pos_lt (- n) b (- a) ltac:(lia) Hb). lia.
Qed.

Lemma mul_exact iA iB :
  i64_range iA → i64_range iB → sqlite3MulInt64 iA iB = Some (exact_or_fail iA (iA * iB)).
Proof.
  unfold i64_range. intros HA HB. unfold sqlite3MulInt64, exact_or_fail.
  assert (0 ≤ LARGEST_INT64 ∧ SMALLEST_INT64 ≤ 0 ∧ SMALLEST_INT64 = - LARGEST_INT64 - 1) as (L1 & L2 & L3)
    by (unfold LARGEST_INT64, SMALLEST_INT64; lia).
  destruct (Z.ltb_spec 0 iB).
  - destruct (Z.ltb_spec (Z.quot LARGEST_INT64 iB) iA) as [H1|H1].
    { rewrite quot_pos_lt in H1 by lia. destruct (in_i64_spec (iA * iB)) as [[? ?]|]; [lia|done]. }
    destruct (Z.ltb_spec iA (Z.quot SMALLEST_INT64 iB)) as [H2|H2].
    { rewrite quot_neg_lt in H2 by lia. destruct (in_i64_spec (iA * iB)) as [[? ?]|]; [lia|done]. }
    unfold chk64. destruct (in_i64_spec (iA * iB)) as [|Hn]; [done|]. exfalso. apply Hn.
    pose proof (quot_pos_lt LARGEST_INT64 iB iA L1 ltac:(lia)).
    pose proof (quot_neg_lt SMALLEST_INT64 iB iA L2 ltac:(lia)). unfold i64_range. lia.
  - destruct (Z.ltb_spec iB 0).
    2: { assert (iB = 0) as -> by lia. rewrite Z.mul_0_r. done. }
    destruct (Z.ltb_spec 0 iA).
    { pose proof (quot_neg_lt SMALLEST_INT64 iA iB L2 ltac:(lia)).
      unfold chk64. destruct (Z.ltb_spec iB (Z.quot SMALLEST_INT64 iA));
        destruct (in_i64_spec (iA * iB)) as [[? ?]|Hn]; try done; [nia|].
      exfalso. apply Hn. unfold i64_range. nia. }
    destruct (Z.ltb_spec iA 0).
    2: { assert (iA = 0) as -> by lia. done. }
    destruct (Z.eqb_spec iB SMALLEST_INT64).
    { destruct (in_i64_spec (iA * iB)) as [[? ?]|]; [nia|done]. }
    destruct (Z.eqb_spec iA SMALLEST_INT64).
    { destruct (in_i64_spec (iA * iB)) as [[? ?]|]; [nia|done]. }
    unfold chk64. destruct (in_i64_spec (- iA)) as [|Hn]; [|exfalso; apply Hn; unfold i64_range; lia].
    destruct (in_i64_spec (- iB)) as [|Hn]; [|exfalso; apply Hn; unfold i64_range; lia].
    cbn [mbind option_bind]. pose proof (quot_pos_lt LARGEST_INT64 (- iB) (- iA) L1 ltac:(lia)).
    destruct (Z.ltb_spec (Z.quot LARGEST_INT64 (- iB)) (- iA));
      destruct (in_i64_spec (iA * iB)) as [[? ?]|Hn]; try done; [lia|].
    exfalso. apply Hn. unfold i64_range. nia.
Qed.

(** ** Wide multiplication *)

Lemma mul32_bound x y : 0 ≤ x < 2 ^ 32 → 0 ≤ y < 2 ^ 32 → 0 ≤ x * y ≤ (2 ^ 32 - 1) * (2 ^ 32 - 1).
Proof. nia. Qed.

Lemma land_mask32 x : Z.land x 0xffffffff = x mod 2 ^ 32.
Proof. change 0xffffffff with (Z.ones 32). by rewrite Z.land_ones by lia. Qed.

Lemma lor_words lo t :
  0 ≤ lo < 2 ^ 32 → Z.lor lo (u64 (Z.shiftl t 32)) = lo + (t mod 2 ^ 32) * 2 ^ 32.
Proof.
  intros Hlo. unfold u64. rewrite Z.shiftl_mul_pow2 by lia.
  replace (t * 2 ^ 32 mod 2 ^ 64) with ((t mod 2 ^ 32) * 2 ^ 32) by
    (change (2 ^ 64) with (2 ^ 32 * 2 ^ 32); by rewrite Z.mul_mod_distr_r by lia).
  by apply lor_add.
Qed.

Lemma words x : x = (x / 2 ^ 32) * 2 ^ 32 + x mod 2 ^ 32.
Proof. zdm. Qed.

Ltac words_of x hi lo :=
  let H := fresh in
  pose proof (words x) as H;
  assert (0 ≤ x mod 2 ^ 32 < 2 ^ 32) by (apply Z.mod_pos_bound; lia);
  set (hi := x / 2 ^ 32) in *; set (lo := x mod 2 ^ 32) in *; clearbody hi lo.

Lemma multiply128_exact a b :
  0 ≤ a < 2 ^ 64 → 0 ≤ b < 2 ^ 64 →
  let '(hi, lo) := sqlite3Multiply128 a b in
  hi * 2 ^ 64 + lo = a * b ∧ 0 ≤ hi < 2 ^ 64 ∧ 0 ≤ lo < 2 ^ 64.
Proof.
  intros Ha Hb. unfold sqlite3Multiply128, u32. cbv zeta.
  rewrite !Z.shiftr_div_pow2, land_mask32 by lia.
  words_of a a1 a0. words_of b b1 b0.
  assert (0 ≤ a1 < 2 ^ 32) by lia. assert (0 ≤ b1 < 2 ^ 32) by lia.
  pose proof (mul32_bound a0 b0 ltac:(lia) ltac:(lia)).
  pose proof (mul32_bound a0 b1 ltac:(lia) ltac:(lia)).
  pose proof (mul32_bound a1 b0 ltac:(lia) ltac:(lia)).
  pose proof (mul32_bound a1 b1 ltac:(lia) ltac:(lia)).
  assert (a * b = a1 * b1 * 2 ^ 64 + (a1 * b0 + a0 * b1) * 2 ^ 32 + a0 * b0) as -> by (subst; ring).
  rewrite lor_words by (apply Z.mod_pos_bound; lia).
  set (P := a0 * b0) in *. set (Q := a0 * b1) in *. set (R := a1 * b0) in *. set (T := a1 * b1) in *.
  clearbody P Q R T. unfold u64. zdm.
Qed.

(** The 160-bit product of a 96-bit and a 64-bit integer, without its low word. *)
Lemma multiply160_exact a aLo b :
  0 ≤ a < 2 ^ 64 → 0 ≤ aLo < 2 ^ 32 → 0 ≤ b < 2 ^ 64 →
  let '(hi, lo) := sqlite3Multiply160 a aLo b in
  hi * 2 ^ 32 + lo = (a * 2 ^ 32 + aLo) * b / 2 ^ 64 ∧ 0 ≤ hi < 2 ^ 64 ∧ 0 ≤ lo < 2 ^ 32.
Proof.
  intros Ha HaLo Hb. unfold sqlite3Multiply160. cbv zeta.
  assert (0 ≤ (a * 2 ^ 32 + aLo) * b < 2 ^ 160) as HX by nia.
  rewrite !land_mask32, !Z.shiftr_div_pow2, Z.shiftl_mul_pow2 by lia.
  words_of a a1 a0. words_of b b1 b0. subst a b.
  assert (0 ≤ a1 < 2 ^ 32) by lia. assert (0 ≤ b1 < 2 ^ 32) by lia.
  pose proof (mul32_bound a0 b0 ltac:(lia) ltac:(lia)).
  pose proof (mul32_bound a0 b1 ltac:(lia) ltac:(lia)).
  pose proof (mul32_bound a1 b0 ltac:(lia) ltac:(lia)).
  pose proof (mul32_bound a1 b1 ltac:(lia) ltac:(lia)).
  pose proof (mul32_bound aLo b0 ltac:(lia) ltac:(lia)).
  pose proof (mul32_bound aLo b1 ltac:(lia) ltac:(lia)).
  replace (((a1 * 2 ^ 32 + a0) * 2 ^ 32 + aLo) * (b1 * 2 ^ 32 + b0)) with
    (a1 * b1 * 2 ^ 96 + (a1 * b0 + a0 * b1) * 2 ^ 64 + (a0 * b0 + aLo * b1) * 2 ^ 32 + aLo * b0) in *
    by ring.
  set (P := a0 * b0) in *. set (Q := a0 * b1) in *. set (R := a1 * b0) in *. set (T := a1 * b1) in *.
  set (U := aLo * b0) in *. set (V := aLo * b1) in *. clearbody P Q R T U V. clear Ha Hb HaLo.
  rewrite !(u64_id P), !(u64_id Q), !(u64_id R), !(u64_id T), !(u64_id U), !(u64_id V) by lia.
  words_of P p1 p0. words_of Q q1 q0. words_of R r1 r0. words_of T t1 t0. words_of U u1 u0.
  words_of V v1 v0. subst P Q R T U V.
  rewrite (u64_id (p0 + v0 + u1)), (u64_id (r0 + q0 + p1 + v1)), (u64_id (t0 + r1 + q1)),
    (u64_id (t1 * 2 ^ 32)) by lia.
  words_of (p0 + v0 + u1) c1 d1.
  rewrite (u64_id (r0 + q0 + p1 + v1 + c1)) by lia.
  words_of (r0 + q0 + p1 + v1 + c1) c2 d2.
  rewrite (u64_id (t0 + r1 + q1 + c2)) by lia.
  match type of HX with 0 ≤ ?x < _ =>
    assert (x / 2 ^ 64 = t1 * 2 ^ 64 + (t0 + r1 + q1 + c2) * 2 ^ 32 + d2) as ->
      by (symmetry; apply (Z.div_unique_pos _ _ _ (d1 * 2 ^ 32 + u0)); lia) end.
  rewrite u64_id by lia. lia.
Qed.

(** ** Leading zeros *)

(** One halving step: [m] has been shifted by [n] so far. *)
Lemma clz_step x n m k :
  0 < k < 64 → 0 ≤ n → m = x * 2 ^ n → 0 < m < 2 ^ 64 → 2 ^ 64 ≤ m * 2 ^ (2 * k) →
  let '(n', m') := if m <=? 2 ^ (64 - k) - 1 then (n + k, u64 (Z.shiftl m k)) else (n, m) in
  0 ≤ n' ∧ n' ≤ n + k ∧ m' = x * 2 ^ n' ∧ 0 < m' < 2 ^ 64 ∧ 2 ^ 64 ≤ m' * 2 ^ k.
Proof.
  intros Hk Hn Hm Hr Hlow.
  assert (2 ^ (64 - k) * 2 ^ k = 2 ^ 64) as E by (rewrite <- Z.pow_add_r by lia; f_equal; lia).
  assert (0 < 2 ^ k) by (apply Z.pow_pos_nonneg; lia).
  case_cmp.
  - rewrite Z.shiftl_mul_pow2 by lia.
    assert (m * 2 ^ k < 2 ^ 64) by nia. rewrite u64_id by nia.
    split; [lia|]. split; [lia|]. split; [rewrite Z.pow_add_r by lia; subst; ring|].
    split; [nia|]. rewrite <- Z.mul_assoc, <- Z.pow_add_r by lia.
    by replace (k + k) with (2 * k) by lia.
  - repeat split; try lia. nia.
Qed.

Lemma clz_correct m :
  0 < m < 2 ^ 64 →
  0 ≤ countLeadingZeros m < 64 ∧ 2 ^ 63 ≤ m * 2 ^ countLeadingZeros m < 2 ^ 64.
Proof.
  intros Hm. unfold countLeadingZeros. cbv zeta.
  pose proof (clz_step m 0 m 32 ltac:(lia) ltac:(lia) ltac:(lia) Hm ltac:(lia)) as H1.
  change (2 ^ (64 - 32) - 1) with 0x00000000ffffffff in H1.
  destruct (if m <=? 0x00000000ffffffff then _ else _) as [n1 m1]. destruct H1 as (N1 & U1 & E1 & R1 & L1).
  pose proof (clz_step m n1 m1 16 ltac:(lia) N1 E1 R1 ltac:(lia)) as H2.
  change (2 ^ (64 - 16) - 1) with 0x0000ffffffffffff in H2.
  destruct (if m1 <=? 0x0000ffffffffffff then _ else _) as [n2 m2]. destruct H2 as (N2 & U2 & E2 & R2 & L2).
  pose proof (clz_step m n2 m2 8 ltac:(lia) N2 E2 R2 ltac:(lia)) as H3.
  change (2 ^ (64 - 8) - 1) with 0x00ffffffffffffff in H3.
  destruct (if m2 <=? 0x00ffffffffffffff then _ else _) as [n3 m3]. destruct H3 as (N3 & U3 & E3 & R3 & L3).
  pose proof (clz_step m n3 m3 4 ltac:(lia) N3 E3 R3 ltac:(lia)) as H4.
  change (2 ^ (64 - 4) - 1) with 0x0fffffffffffffff in H4.
  destruct (if m3 <=? 0x0fffffffffffffff then _ else _) as [n4 m4]. destruct H4 as (N4 & U4 & E4 & R4 & L4).
  pose proof (clz_step m n4 m4 2 ltac:(lia) N4 E4 R4 ltac:(lia)) as H5.
  change (2 ^ (64 - 2) - 1) with 0x3fffffffffffffff in H5.
  destruct (if m4 <=? 0x3fffffffffffffff then _ else _) as [n5 m5]. destruct H5 as (N5 & U5 & E5 & R5 & L5).
  case_cmp; [|split; [lia|rewrite <- E5; lia]].
  rewrite Z.pow_add_r, Z.mul_assoc, <- E5 by lia. lia.
Qed.

(** ** Logarithmic estimates *)

(** The halving loops shift by [s] bits while the value exceeds [2^c - 1]. *)
Lemma logest_down_correct fuel c s x y :
  0 < s ≤ c → 0 ≤ x < 2 ^ (c + s * Z.of_nat fuel) → 0 ≤ y → y + 10 * s * Z.of_nat fuel < 2 ^ 15 →
  ∃ k, 0 ≤ k ≤ s * Z.of_nat fuel ∧
    logest_down fuel (2 ^ c - 1) (10 * s) s x y = (Z.shiftr x k, y + 10 * k) ∧
    Z.shiftr x k < 2 ^ c ∧ (k = 0 ∨ 2 ^ (c - s) ≤ Z.shiftr x k).
Proof.
  revert x y. induction fuel as [|fuel IH]; intros x y Hs Hx Hy Hb; cbn [logest_down].
  - exists 0. rewrite Z.shiftr_0_r. replace (c + s * Z.of_nat 0) with c in Hx by lia.
    split; [lia|]. split; [f_equal; lia|]. split; [lia|by left].
  - case_cmp.
    2: { exists 0. rewrite Z.shiftr_0_r. split; [lia|]. split; [f_equal; lia|]. split; [lia|by left]. }
    assert (2 ^ (c - s) ≤ Z.shiftr x s) as Hlow.
    { rewrite Z.shiftr_div_pow2 by lia. apply Z.div_le_lower_bound; [apply Z.pow_pos_nonneg; lia|].
      rewrite <- Z.pow_add_r by lia. replace (s + (c - s)) with c by lia. lia. }
    assert (i16 (y + 10 * s) = y + 10 * s) as Ey.
    { apply sgn_id; [lia|]. change (2 ^ (16 - 1)) with (2 ^ 15). lia. }
    rewrite Ey. destruct (IH (Z.shiftr x s) (y + 10 * s)) as (k & Hk & -> & Hlt & Hlow'); [done| |lia|lia|].
    { apply shiftr_range_le; [lia|lia|]. split; [lia|].
      replace (c + s * Z.of_nat fuel + s) with (c + s * Z.of_nat (S fuel)) by lia. lia. }
    exists (s + k). rewrite <- Z.shiftr_shiftr in * by lia.
    split; [lia|]. split; [f_equal; lia|]. split; [done|right].
    destruct Hlow' as [->|?]; [by rewrite Z.shiftr_0_r|done].
Qed.

Definition logest_tab : list Z := [0; 2; 3; 5; 6; 7; 8; 9].

(** The closed form: the leading four bits of [x] select the table entry. *)
Lemma logest_closed x :
  8 ≤ x < 2 ^ 64 →
  ∃ e m a, 0 ≤ e ≤ 60 ∧ 8 ≤ m < 16 ∧ m = Z.shiftr x e ∧ logest_tab.[m - 8] = Some a ∧
    sqlite3LogEst x = Some (a + 30 + 10 * e).
Proof.
  intros Hx. unfold sqlite3LogEst. cbv zeta. case_cmp; [lia|].
  destruct (logest_down_correct 16 8 4 x 40) as (k1 & Hk1 & E1 & Hlt1 & Hlow1); try lia.
  change (2 ^ 8 - 1) with 255 in E1. change (10 * 4) with 40 in E1. rewrite E1. clear E1.
  assert (0 ≤ Z.shiftr x k1) by (apply Z.shiftr_nonneg; lia).
  destruct (logest_down_correct 5 4 1 (Z.shiftr x k1) (40 + 10 * k1)) as (k2 & Hk2 & E2 & Hlt2 & Hlow2);
    try lia.
  change (2 ^ 4 - 1) with 15 in E2. change (10 * 1) with 10 in E2. rewrite E2. clear E2.
  rewrite !Z.shiftr_shiftr in * by lia.
  assert (8 ≤ Z.shiftr x (k1 + k2)) as Hlow.
  { destruct Hlow2 as [->|]; [|lia]. rewrite Z.add_0_r.
    destruct Hlow1 as [->|]; [by rewrite Z.shiftr_0_r|lia]. }
  assert (k1 + k2 ≤ 60) as Hk.
  { destruct (Z.leb_spec (k1 + k2) 60); [done|].
    assert (0 ≤ Z.shiftr x (k1 + k2) < 2 ^ 3); [|lia].
    apply shiftr_range_le; [lia|lia|]. split; [lia|].
    apply Z.lt_le_trans with (2 ^ 64); [lia|]. apply Z.pow_le_mono_r; lia. }
  set (m := Z.shiftr x (k1 + k2)) in *.
  exists (k1 + k2), m.
  assert (Z.land m 7 = m - 8) as ->.
  { change 7 with (Z.ones 3). rewrite Z.land_ones by lia. zdm. }
  destruct (rd_in_bounds logest_tab (m - 8)) as [a Ha]; [cbn; lia|].
  exists a. fold logest_tab. rewrite Ha. repeat split; try lia.
  cbn [mbind option_bind]. f_equal.
  assert (0 ≤ a ≤ 9).
  { apply rd_lookup in Ha as [_ Ha]. apply list_elem_of_lookup_2 in Ha.
    unfold logest_tab in Ha. rewrite !elem_of_cons in Ha. set_solver by lia. }
  unfold i16. rewrite sgn_id; lia.
Qed.

(** The values below 8. *)
Definition logest_small_tab : list Z := [0; 0; 10; 16; 20; 23; 26; 28].

Lemma logest_small x : 0 ≤ x < 8 → sqlite3LogEst x = logest_small_tab.[x].
Proof.
  intros Hx.
  assert (forallb (λ x, bool_decide (sqlite3LogEst x = logest_small_tab.[x])) (seqZ 0 8) = true)
    as H by (vm_compute; reflexivity).
  apply (range_all _ 0 8 H x) in Hx. by apply bool_decide_eq_true_1 in Hx.
Qed.

(** Both tables increase. *)
Definition tab_le (tab : list Z) (i j : Z) : bool :=
  (j <? i) || match tab.[i], tab.[j] with Some a, Some b => a <=? b | _, _ => false end.

Lemma tab_mono tab i j a b :
  forallb (λ i, forallb (tab_le tab i) (seqZ 0 8)) (seqZ 0 8) = true →
  0 ≤ i ≤ j → j < 8 → tab.[i] = Some a → tab.[j] = Some b → a ≤ b.
Proof.
  intros H Hi Hj Ha Hb.
  pose proof (range_all _ 0 8 H i ltac:(lia)) as Hr.
  pose proof (range_all _ 0 8 Hr j ltac:(lia)) as Ht. unfold tab_le in Ht.
  rewrite Ha, Hb in Ht. b2p. destruct Ht; b2p; lia.
Qed.

(** The table entry of [m] is within a factor of the tenth power of [m]. *)
Definition logest_entry_ok (m : Z) : bool :=
  match logest_tab.[m - 8] with
  | Some a => (0 <=? a) && (a <=? 9) && (2 ^ (a + 30) <? 2 * m ^ 10)
              && ((m + 1) ^ 10 <? 2 ^ (a + 32))
  | None => false
  end.

Lemma logest_entry m a :
  8 ≤ m < 16 → logest_tab.[m - 8] = Some a →
  0 ≤ a ≤ 9 ∧ 2 ^ (a + 30) < 2 * m ^ 10 ∧ (m + 1) ^ 10 ≤ 2 ^ (a + 32).
Proof.
  intros Hm Ha. assert (logest_entry_ok m = true) as H
    by (apply (range_all logest_entry_ok 8 8); [vm_compute; reflexivity|lia]).
  unfold logest_entry_ok in H. rewrite Ha in H. b2p. lia.
Qed.

Lemma shiftr_bracket x e : 0 ≤ e → Z.shiftr x e * 2 ^ e ≤ x < (Z.shiftr x e + 1) * 2 ^ e.
Proof.
  intros He. rewrite Z.shiftr_div_pow2 by done.
  assert (0 < 2 ^ e) by (apply Z.pow_pos_nonneg; lia).
  pose proof (Z.mul_div_le x (2 ^ e) ltac:(lia)).
  pose proof (Z.mul_succ_div_gt x (2 ^ e) ltac:(lia)). lia.
Qed.

Lemma logest_bracket x y :
  1 ≤ x < 2 ^ 64 → sqlite3LogEst x = Some y → 2 ^ y < 2 * x ^ 10 ∧ x ^ 10 < 2 ^ (y + 2).
Proof.
  intros Hx Hy. destruct (Z.ltb_spec x 8).
  - rewrite logest_small in Hy by lia.
    pose proof (range_all (λ v, match logest_small_tab.[v] with
      | Some z => (2 ^ z <? 2 * v ^ 10) && (v ^ 10 <? 2 ^ (z + 2)) | None => false end)
      1 7 ltac:(vm_compute; reflexivity) x ltac:(lia)) as A.
    cbv beta in A. rewrite Hy in A. b2p. done.
  - destruct (logest_closed x) as (e & m & a & He & Hm & -> & Ha & E); [lia|].
    rewrite E in Hy. injection Hy as <-.
    destruct (logest_entry _ a Hm Ha) as (Ra & Hlo & Hhi).
    destruct (shiftr_bracket x e) as [B1 B2]; [lia|].
    set (m := Z.shiftr x e) in *.
    assert (0 < 2 ^ e) by (apply Z.pow_pos_nonneg; lia).
    assert (2 ^ (10 * e) = (2 ^ e) ^ 10) as Ep by (rewrite <- Z.pow_mul_r by lia; f_equal; lia).
    assert ((m * 2 ^ e) ^ 10 ≤ x ^ 10) as P1 by (apply Z.pow_le_mono_l; nia).
    assert (x ^ 10 < ((m + 1) * 2 ^ e) ^ 10) as P2 by (apply Z.pow_lt_mono_l; nia).
    rewrite Z.pow_mul_l in P1, P2. rewrite <- Ep in P1, P2.
    assert (0 < 2 ^ (10 * e)) by (apply Z.pow_pos_nonneg; lia).
    replace (a + 30 + 10 * e + 2) with (a + 32 + 10 * e) by lia.
    rewrite !(Z.pow_add_r 2 _ (10 * e)) by lia. split; nia.
Qed.

Lemma logest_mono x x' y y' :
  0 ≤ x ≤ x' → x' < 2 ^ 64 → sqlite3LogEst x = Some y → sqlite3LogEst x' = Some y' → y ≤ y'.
Proof.
  intros Hx Hx' Hy Hy'.
  destruct (Z.ltb_spec x' 8) as [H8|H8].
  { rewrite logest_small in Hy, Hy' by lia.
    apply (tab_mono logest_small_tab x x'); [vm_compute; reflexivity|done..]. }
  destruct (logest_closed x') as (e' & m' & a' & He' & Hm' & -> & Ha' & E'); [lia|].
  rewrite E' in Hy'. injection Hy' as <-.
  destruct (logest_entry _ a' Hm' Ha') as (Ra' & _).
  destruct (Z.ltb_spec x 8) as [H8'|H8'].
  { rewrite logest_small in Hy by lia.
    pose proof (range_all (λ v, default 31 (logest_small_tab.[v]) <=? 30) 0 8
      ltac:(vm_compute; reflexivity) x ltac:(lia)) as A.
    cbv beta in A. rewrite Hy in A. cbn in A. b2p. lia. }
  destruct (logest_closed x) as (e & m & a & He & Hm & -> & Ha & E); [lia|].
  rewrite E in Hy. injection Hy as <-.
  destruct (logest_entry _ a Hm Ha) as (Ra & _).
  destruct (shiftr_bracket x e) as [B1 B2]; [lia|].
  destruct (shiftr_bracket x' e') as [B1' B2']; [lia|].
  destruct (Z.lt_trichotomy e e') as [Hlt|[->|Hgt]]; [lia| |].
  - assert (Z.shiftr x e' ≤ Z.shiftr x' e') as Hle.
    { rewrite !Z.shiftr_div_pow2 by lia. apply Z.div_le_mono; [|lia]. apply Z.pow_pos_nonneg; lia. }
    assert (a ≤ a'); [|lia].
    apply (tab_mono logest_tab (Z.shiftr x e' - 8) (Z.shiftr x' e' - 8)); try lia; try done.
  - exfalso. assert (2 * 2 ^ e' ≤ 2 ^ e) as Hp.
    { rewrite <- Z.pow_succ_r by lia. apply Z.pow_le_mono_r; lia. }
    assert (0 < 2 ^ e') by (apply Z.pow_pos_nonneg; lia). nia.
Qed.

(** [sqlite3LogEstToInt] inverts [sqlite3LogEst] up to one unit: the units digits
    1 and 4 have no preimage of their own. *)
Definition logest_round (y : Z) : bool :=
  match sqlite3LogEst (sqlite3LogEstToInt y) with
  | Some z => z =? (if y mod 10 =? 1 then y - 1 else if y mod 10 =? 4 then y + 1 else y)
  | None => false
  end.

Lemma logest_roundtrip y :
  30 ≤ y < 610 →
  sqlite3LogEst (sqlite3LogEstToInt y) =
    Some (if y mod 10 =? 1 then y - 1 else if y mod 10 =? 4 then y + 1 else y).
Proof.
  intros Hy. assert (logest_round y = true) as H
    by (apply (range_all logest_round 30 580); [vm_compute; reflexivity|lia]).
  unfold logest_round in H. destruct (sqlite3LogEst _); [|done]. apply Z.eqb_eq in H. by subst.
Qed.

(** The table of [sqlite3LogEstAdd] never adds more than ten. *)
Lemma logest_add_entry d x : logest_add_table.[d] = Some x → 2 ≤ x ≤ 10.
Proof.
  intros H. pose proof (rd_Some_lt _ _ _ H) as Hd.
  pose proof (range_all (λ d, match logest_add_table.[d] with
    | Some x => (2 <=? x) && (x <=? 10) | None => false end) 0 32
    ltac:(vm_compute; reflexivity) d ltac:(cbn in Hd; lia)) as A.
  cbv beta in A. rewrite H in A. b2p. lia.
Qed.

Lemma logest_add_spec a b :
  - 2 ^ 15 ≤ a < 2 ^ 15 - 10 → - 2 ^ 15 ≤ b < 2 ^ 15 - 10 →
  ∃ r, sqlite3LogEstAdd a b = Some r ∧ sqlite3LogEstAdd b a = Some r ∧
    Z.max a b ≤ r ≤ Z.max a b + 10.
Proof.
  assert (∀ x, - 2 ^ 15 ≤ x < 2 ^ 15 → i16 x = x) as Hid by (intros; apply sgn_id; lia).
  assert (∀ a b, b ≤ a → - 2 ^ 15 ≤ a < 2 ^ 15 - 10 → - 2 ^ 15 ≤ b →
    ∃ r, sqlite3LogEstAdd a b = Some r ∧ sqlite3LogEstAdd b a = Some r ∧ a ≤ r ≤ a + 10) as Hle.
  { clear a b. intros a b Hba Ha Hb. unfold sqlite3LogEstAdd.
    destruct (Z.leb_spec b a); [|lia].
    destruct (Z.ltb_spec (b + 49) a).
    { exists a. split; [done|]. split; [|lia]. repeat case_cmp; try lia; done. }
    destruct (Z.ltb_spec (b + 31) a).
    { exists (a + 1). rewrite Hid by lia. split; [done|]. split; [|lia].
      repeat case_cmp; try lia; done. }
    destruct (rd_in_bounds logest_add_table (a - b)) as [x Hx]; [cbn; lia|].
    pose proof (logest_add_entry _ _ Hx).
    exists (a + x). rewrite Hx. cbn [mbind option_bind]. rewrite Hid by lia.
    split; [done|]. split; [|lia].
    destruct (Z.leb_spec a b); [|done]. assert (b = a) as -> by lia.
    do 2 (case_cmp; [lia|]). rewrite Hx. cbn [mbind option_bind]. by rewrite Hid by lia. }
  intros Ha Hb. destruct (Z.leb_spec b a).
  - rewrite Z.max_l by lia. apply Hle; lia.
  - rewrite Z.max_r by lia. destruct (Hle b a) as (r & H1 & H2 & H3); [lia..|].
    exists r. done.
Qed.

(** ** Theorems *)

(** The overflow-checked operations agree with what the compiler intrinsics
    of the other build do: for all 64-bit signed operands they evaluate no
    overflowing expression (the model would return [None]), store the exact
    result and return 0 when it fits in 64 bits, and otherwise return 1 and
    leave the operand unchanged. *)
Theorem CheckedInt64_exact iA iB :
  i64_range iA → i64_range iB →
  sqlite3AddInt64 iA iB = Some (exact_or_fail iA (iA + iB)) ∧
  sqlite3SubInt64 iA iB = Some (exact_or_fail iA (iA - iB)) ∧
  sqlite3MulInt64 iA iB = Some (exact_or_fail iA (iA * iB)).
Proof. intros. split; [by apply add_exact|]. split; [by apply sub_exact|by apply mul_exact]. Qed.

Lemma CheckedInt64_exact_witness :
  sqlite3AddInt64 LARGEST_INT64 1 = Some (1, LARGEST_INT64) ∧
  sqlite3SubInt64 (-1) SMALLEST_INT64 = Some (0, LARGEST_INT64) ∧
  sqlite3MulInt64 SMALLEST_INT64 (-1) = Some (1, SMALLEST_INT64) ∧
  sqlite3MulInt64 3037000500 3037000500 = Some (1, 3037000500).
Proof.
  split; [|split; [|split]].
  - apply (CheckedInt64_exact LARGEST_INT64 1); unfold i64_range, LARGEST_INT64, SMALLEST_INT64; lia.
  - apply (CheckedInt64_exact (-1) SMALLEST_INT64);
      unfold i64_range, LARGEST_INT64, SMALLEST_INT64; lia.
  - apply (CheckedInt64_exact SMALLEST_INT64 (-1));
      unfold i64_range, LARGEST_INT64, SMALLEST_INT64; lia.
  - apply (CheckedInt64_exact 3037000500 3037000500);
      unfold i64_range, LARGEST_INT64, SMALLEST_INT64; lia.
Defined.

(** The wide multiplications of the portable build are exact.
    [sqlite3Multiply128] returns the high and the low word of the 128-bit
    product, and [sqlite3Multiply160] the upper 96 bits of the product of a
    96-bit and a 64-bit integer, although every intermediate sum is a 64-bit
    word that the carries must not overflow. *)
Theorem Multiply_exact a aLo b :
  0 ≤ a < 2 ^ 64 → 0 ≤ aLo < 2 ^ 32 → 0 ≤ b < 2 ^ 64 →
  sqlite3Multiply128 a b = (a * b / 2 ^ 64, (a * b) mod 2 ^ 64) ∧
  sqlite3Multiply160 a aLo b =
    ((a * 2 ^ 32 + aLo) * b / 2 ^ 96, ((a * 2 ^ 32 + aLo) * b / 2 ^ 64) mod 2 ^ 32).
Proof.
  intros Ha HaLo Hb.
  pose proof (multiply128_exact a b Ha Hb) as H1.
  pose proof (multiply160_exact a aLo b Ha HaLo Hb) as H2.
  destruct (sqlite3Multiply128 a b) as [h l]. destruct (sqlite3Multiply160 a aLo b) as [h' l'].
  destruct H1 as (E1 & ? & ?). destruct H2 as (E2 & ? & ?). split; f_equal.
  - apply (Z.div_unique_pos _ _ _ l); lia.
  - apply (Z.mod_unique_pos _ _ h); lia.
  - change (2 ^ 96) with (2 ^ 64 * 2 ^ 32). rewrite <- Z.div_div by lia.
    rewrite <- E2. apply (Z.div_unique_pos _ _ _ l'); lia.
  - rewrite <- E2. apply (Z.mod_unique_pos _ _ h'); lia.
Qed.

Lemma Multiply_exact_witness :
  sqlite3Multiply128 (2 ^ 64 - 1) (2 ^ 64 - 1) = (2 ^ 64 - 2, 1) ∧
  sqlite3Multiply160 (2 ^ 64 - 1) (2 ^ 32 - 1) (2 ^ 64 - 1) = (2 ^ 64 - 2, 2 ^ 32 - 1).
Proof. apply (Multiply_exact (2 ^ 64 - 1) (2 ^ 32 - 1) (2 ^ 64 - 1)); lia. Defined.

(** [sqlite3LogEst x] approximates [10*log2(x)]: its table lookup is in
    bounds, [2^y < 2*x^10] and [x^10 < 2^(y+2)] (so [y] is less than one above
    and less than two below the exact value), it is monotone, and
    [sqlite3LogEstToInt] inverts it except that the units digits 1 and 4, which
    no integer of four significant bits has, move to the neighbouring estimate. *)
Theorem LogEst_accurate x x' :
  1 ≤ x ≤ x' → x' < 2 ^ 64 →
  ∃ y y', sqlite3LogEst x = Some y ∧ sqlite3LogEst x' = Some y' ∧
    2 ^ y < 2 * x ^ 10 ∧ x ^ 10 < 2 ^ (y + 2) ∧ y ≤ y' ∧
    (30 ≤ y < 610 → (∃ d, -1 ≤ d ≤ 1 ∧ sqlite3LogEst (sqlite3LogEstToInt y) = Some (y + d))).
Proof.
  intros Hx Hx'.
  assert (∀ v, 1 ≤ v < 2 ^ 64 → ∃ y, sqlite3LogEst v = Some y) as Htot.
  { intros v Hv. destruct (Z.ltb_spec v 8).
    - rewrite logest_small by lia. apply rd_in_bounds. cbn. lia.
    - destruct (logest_closed v) as (e & m & a & _ & _ & _ & _ & E); [lia|]. by eexists. }
  destruct (Htot x) as [y Hy]; [lia|]. destruct (Htot x') as [y' Hy']; [lia|].
  exists y, y'. destruct (logest_bracket x y ltac:(lia) Hy).
  repeat split; try done.
  - apply (logest_mono x x'); try done; lia.
  - intros Hr. exists (if y mod 10 =? 1 then -1 else if y mod 10 =? 4 then 1 else 0).
    rewrite logest_roundtrip by done. split; [repeat case_cmp; lia|].
    f_equal. repeat case_cmp; lia.
Qed.

Lemma LogEst_accurate_witness :
  ∃ y y', sqlite3LogEst 1000 = Some y ∧ sqlite3LogEst 1000000 = Some y' ∧
    2 ^ y < 2 * 1000 ^ 10 ∧ 1000 ^ 10 < 2 ^ (y + 2) ∧ y ≤ y' ∧
    (30 ≤ y < 610 → (∃ d, -1 ≤ d ≤ 1 ∧ sqlite3LogEst (sqlite3LogEstToInt y) = Some (y + d))).
Proof. apply (LogEst_accurate 1000 1000000); lia. Defined.
