(* ===== verification/Varint.v ===== *)
(** * Variable-length integers and big-endian words

    The 1-to-9-byte integer encoding of the database file format and the
    four-byte big-endian words, from the end of util.c.  A buffer is the list
    of bytes at the pointer the code receives; a writer returns the bytes it
    stores at [p[0]], [p[1]], ..., and a reader returns the value and the number of
    bytes it consumed, or [None] when it would read past the buffer. *)
From S2P Require Import Prelude BitExp.

(** ** Writers *)

(** The loop [for(i=7; i>=0; i--)] of the nine-byte case: it fills [p[0..7]]
    from the right, seven bits at a time. *)
Fixpoint put9_loop (n : nat) (v : Z) (acc : list Z) : list Z :=
  match n with
  | O => acc
  | S n' => put9_loop n' (Z.shiftr v 7) (u8 (Z.lor (Z.land v 127) 128) :: acc)
  end.

(** The loop [do{ ... }while( v!=0 )] that fills [buf], least significant
    group first; ten rounds empty every 64-bit value. *)
Fixpoint buf_loop (fuel : nat) (v : Z) : list Z :=
  match fuel with
  | O => []
  | S fuel' =>
      let b := u8 (Z.lor (Z.land v 127) 128) in
      let v' := Z.shiftr v 7 in
      b :: (if v' =? 0 then [] else buf_loop fuel' v')
  end.

Definition putVarint64 (v : Z) : list Z :=
  if negb (Z.land v (Z.shiftl 4278190080 32) =? 0) then
    put9_loop 8 (Z.shiftr v 8) [u8 v]
  else
    match buf_loop 10 v with
    | b0 :: buf => reverse (Z.land b0 127 :: buf)
    | [] => []
    end.

Definition sqlite3PutVarint (v : Z) : list Z :=
  if v <=? 127 then [Z.land v 127]
  else if v <=? 16383 then
    [Z.lor (Z.land (Z.shiftr v 7) 127) 128; Z.land v 127]
  else putVarint64 v.

(** ** Readers *)

Definition SLOT_2_0 : Z := 0x001fc07f.
Definition SLOT_4_2_0 : Z := 0xf01fc07f.

(** The test [p[k]>=0] through a pointer to signed char. *)
Definition nonneg8 (b : Z) : bool := 0 <=? i8 b.

(** [*v = ((u64)s)<<32 | a] *)
Definition join64 (s a : Z) : Z := u64 (Z.lor (Z.shiftl s 32) a).

Definition sqlite3GetVarint (p : list Z) : option (Z * Z) :=
  p0 ← p.[0];
  if nonneg8 p0 then Some (p0, 1) else
  p1 ← p.[1];
  if nonneg8 p1 then Some (Z.lor (Z.shiftl (Z.land p0 127) 7) p1, 2) else
  let a := u32 (Z.shiftl p0 14) in
  let b := p1 in
  p2 ← p.[2];
  let a := Z.lor a p2 in
  if Z.land a 128 =? 0 then
    let a := Z.land a SLOT_2_0 in
    let b := u32 (Z.shiftl (Z.land b 127) 7) in
    Some (Z.lor a b, 3)
  else
  let a := Z.land a SLOT_2_0 in
  p3 ← p.[3];
  let b := Z.lor (u32 (Z.shiftl b 14)) p3 in
  if Z.land b 128 =? 0 then
    let b := Z.land b SLOT_2_0 in
    let a := u32 (Z.shiftl a 7) in
    Some (Z.lor a b, 4)
  else
  let b := Z.land b SLOT_2_0 in
  let s := a in
  p4 ← p.[4];
  let a := Z.lor (u32 (Z.shiftl a 14)) p4 in
  if Z.land a 128 =? 0 then
    let b := u32 (Z.shiftl b 7) in
    let a := Z.lor a b in
    let s := Z.shiftr s 18 in
    Some (join64 s a, 5)
  else
  let s := u32 (Z.shiftl s 7) in
  let s := Z.lor s b in
  p5 ← p.[5];
  let b := Z.lor (u32 (Z.shiftl b 14)) p5 in
  if Z.land b 128 =? 0 then
    let a := Z.land a SLOT_2_0 in
    let a := Z.lor (u32 (Z.shiftl a 7)) b in
    let s := Z.shiftr s 18 in
    Some (join64 s a, 6)
  else
  p6 ← p.[6];
  let a := Z.lor (u32 (Z.shiftl a 14)) p6 in
  if Z.land a 128 =? 0 then
    let a := Z.land a SLOT_4_2_0 in
    let b := Z.land b SLOT_2_0 in
    let b := u32 (Z.shiftl b 7) in
    let a := Z.lor a b in
    let s := Z.shiftr s 11 in
    Some (join64 s a, 7)
  else
  let a := Z.land a SLOT_2_0 in
  p7 ← p.[7];
  let b := Z.lor (u32 (Z.shiftl b 14)) p7 in
  if Z.land b 128 =? 0 then
    let b := Z.land b SLOT_4_2_0 in
    let a := u32 (Z.shiftl a 7) in
    let a := Z.lor a b in
    let s := Z.shiftr s 4 in
    Some (join64 s a, 8)
  else
  p8 ← p.[8];
  let a := Z.lor (u32 (Z.shiftl a 15)) p8 in
  let b := Z.land b SLOT_2_0 in
  let b := u32 (Z.shiftl b 8) in
  let a := Z.lor a b in
  let s := u32 (Z.shiftl s 4) in
  let b := Z.land p4 127 in
  let b := Z.shiftr b 3 in
  let s := Z.lor s b in
  Some (join64 s a, 9).

Definition SQLITE_MAX_U32 : Z := 2 ^ 32 - 1.

Definition sqlite3GetVarint32 (p : list Z) : option (Z * Z) :=
  p0 ← p.[0];
  p1 ← p.[1];
  if Z.land p1 128 =? 0 then
    Some (Z.lor (Z.shiftl (Z.land p0 127) 7) p1, 2)
  else
  p2 ← p.[2];
  if Z.land p2 128 =? 0 then
    Some (Z.lor (Z.lor (Z.shiftl (Z.land p0 127) 14)
                       (Z.shiftl (Z.land p1 127) 7)) p2, 3)
  else
  '(v64, n) ← sqlite3GetVarint p;
  if negb (Z.land v64 SQLITE_MAX_U32 =? v64) then Some (0xffffffff, n)
  else Some (u32 v64, n).

(** [for(i=1; (v >>= 7)!=0; i++)]; ten rounds suffice for 64 bits. *)
Fixpoint varintlen_loop (fuel : nat) (v i : Z) : Z :=
  match fuel with
  | O => i
  | S fuel' =>
      let v := Z.shiftr v 7 in
      if v =? 0 then i else varintlen_loop fuel' v (i + 1)
  end.

Definition sqlite3VarintLen (v : Z) : Z := varintlen_loop 10 v 1.

(** ** Four-byte big-endian words *)

Definition sqlite3Get4byte (p : list Z) : option Z :=
  p0 ← p.[0]; p1 ← p.[1]; p2 ← p.[2]; p3 ← p.[3];
  Some (Z.lor (Z.lor (Z.lor (u32 (Z.shiftl p0 24)) (Z.shiftl p1 16))
                     (Z.shiftl p2 8)) p3).

Definition sqlite3Put4byte (v : Z) : list Z :=
  [u8 (Z.shiftr v 24); u8 (Z.shiftr v 16); u8 (Z.shiftr v 8); u8 v].

Example put_get_ex :
  map (λ v, (sqlite3PutVarint v, sqlite3GetVarint (sqlite3PutVarint v ++ [7])))
    [5; 300; 123456789012; 2 ^ 64 - 1]
  = [([5], Some (5, 1)); ([130; 44], Some (300, 2));
     ([131; 203; 244; 228; 180; 20], Some (123456789012, 6));
     (replicate 9 255, Some (2 ^ 64 - 1, 9))].
Proof. vm_compute. reflexivity. Qed.

(** ** Specification

    The decoder the comment of util.c describes: up to eight bytes that carry
    seven bits each and a ninth that carries eight. *)
Fixpoint varint_spec (k : nat) (acc n : Z) (p : list Z) : option (Z * Z) :=
  b ← p.[n];
  match k with
  | O => Some (Z.lor (Z.shiftl acc 8) b, n + 1)
  | S k' =>
      if b <? 128 then Some (Z.lor (Z.shiftl acc 7) b, n + 1)
      else varint_spec k' (Z.lor (Z.shiftl acc 7) (Z.land b 127)) (n + 1) p
  end.


(** ** The unrolled decoder computes the specification *)

Lemma bit7_byte b : 0 ≤ b < 256 → (b <? 128) = negb (Z.testbit b 7).
Proof.
  intros Hb. rewrite Z.testbit_eqb by lia. change (2 ^ 7) with 128.
  repeat case_cmp; try done; exfalso; zdm.
Qed.

Lemma land128 x : (Z.land x 128 =? 0) = negb (Z.testbit x 7).
Proof.
  change 128 with (2 ^ 7). destruct (Z.testbit x 7) eqn:E; simpl.
  - apply Z.eqb_neq. intros H. apply (f_equal (λ z, Z.testbit z 7)) in H.
    rewrite Z.land_spec, E, Z.bits_0 in H. done.
  - apply Z.eqb_eq. apply Z.bits_inj'. intros i Hi.
    rewrite Z.land_spec, Z.bits_0.
    destruct (Z.eq_dec i 7) as [->|]; [by rewrite E|].
    rewrite Z.pow2_bits_false by lia. by rewrite andb_false_r.
Qed.

Lemma nonneg8_byte b : 0 ≤ b < 256 → nonneg8 b = (b <? 128).
Proof.
  intros. unfold nonneg8, i8, sgn. change (2 ^ (8 - 1)) with 128.
  change (2 ^ 8) with 256. repeat case_cmp; try done; exfalso; zdm.
Qed.

(** The continuation bit of an accumulator is that of its last byte. *)
Lemma cont_bit a k b :
  8 ≤ k → 0 ≤ b < 256 → (Z.land (Z.lor (u32 (Z.shiftl a k)) b) 128 =? 0) = (b <? 128).
Proof.
  intros Hk Hb. rewrite land128, bit7_byte by done. unfold u32.
  autorewrite with bits. repeat case_cmp; try lia. done.
Qed.

Lemma cont_bit1 b : 0 ≤ b < 256 → (Z.land b 128 =? 0) = (b <? 128).
Proof. intros. by rewrite land128, bit7_byte. Qed.

Lemma varint_spec_unfold k acc n p :
  varint_spec k acc n p =
    b ← p.[n];
    match k with
    | O => Some (Z.lor (Z.shiftl acc 8) b, n + 1)
    | S k' =>
        if b <? 128 then Some (Z.lor (Z.shiftl acc 7) b, n + 1)
        else varint_spec k' (Z.lor (Z.shiftl acc 7) (Z.land b 127)) (n + 1) p
    end.
Proof. by destruct k. Qed.

(** Move to the next byte of the buffer in both decoders, if there is one. *)
Ltac next_byte Hp b :=
  let E := fresh "E" in
  match goal with
  | |- context [?p.[?k]] =>
      destruct (p.[k]) as [b|] eqn:E; cbn [mbind option_bind]; [|done];
      apply (bytes_rd _ _ _ Hp) in E
  end.

(** The unrolled decoder, step by step. *)
Lemma GetVarint_unrolled p :
  bytes p → sqlite3GetVarint p = varint_spec 8 0 0 p.
Proof.
  intros Hp. unfold sqlite3GetVarint. rewrite varint_spec_unfold.
  next_byte Hp p0. rewrite nonneg8_byte by done.
  case_cmp; [do 2 f_equal; simpl; lia|].
  rewrite varint_spec_unfold. change (0 + 1) with 1. next_byte Hp p1.
  rewrite nonneg8_byte by done.
  case_cmp; [done|].
  rewrite varint_spec_unfold. change (1 + 1) with 2. next_byte Hp p2.
  rewrite cont_bit by lia. unfold SLOT_2_0, SLOT_4_2_0, join64.
  case_cmp; [do 2 f_equal; bits [p0; p1; p2] [8; 8; 7]|].
  rewrite varint_spec_unfold. change (2 + 1) with 3. next_byte Hp p3.
  rewrite cont_bit by lia.
  case_cmp; [do 2 f_equal; bits [p0; p1; p2; p3] [8; 8; 8; 7]|].
  rewrite varint_spec_unfold. change (3 + 1) with 4. next_byte Hp p4.
  rewrite cont_bit by lia.
  case_cmp; [do 2 f_equal; bits [p0; p1; p2; p3; p4] [8; 8; 8; 8; 7]|].
  rewrite varint_spec_unfold. change (4 + 1) with 5. next_byte Hp p5.
  rewrite cont_bit by lia.
  case_cmp; [do 2 f_equal; bits [p0; p1; p2; p3; p4; p5] [8; 8; 8; 8; 8; 7]|].
  rewrite varint_spec_unfold. change (5 + 1) with 6. next_byte Hp p6.
  rewrite cont_bit by lia.
  case_cmp;
    [do 2 f_equal; bits [p0; p1; p2; p3; p4; p5; p6] [8; 8; 8; 8; 8; 8; 7]|].
  rewrite varint_spec_unfold. change (6 + 1) with 7. next_byte Hp p7.
  rewrite cont_bit by lia.
  case_cmp;
    [do 2 f_equal;
     bits [p0; p1; p2; p3; p4; p5; p6; p7] [8; 8; 8; 8; 8; 8; 8; 7]|].
  rewrite varint_spec_unfold. change (7 + 1) with 8. next_byte Hp p8.
  do 2 f_equal.
  bits [p0; p1; p2; p3; p4; p5; p6; p7; p8] [8; 8; 8; 8; 8; 8; 8; 8; 8].
Qed.

(** ** Round trip *)

Definition cont_byte_range (c : Z) : Prop := 128 ≤ c < 256.
Definition cont (acc c : Z) : Z := Z.lor (Z.shiftl acc 7) (Z.land c 127).

(** The decoder steps over bytes that carry the continuation bit. *)
Lemma spec_skip cs k acc pre rest :
  Forall cont_byte_range cs → (length cs ≤ k)%nat →
  varint_spec k acc (zlen pre) (pre ++ cs ++ rest) =
  varint_spec (k - length cs) (foldl cont acc cs) (zlen pre + zlen cs)
    (pre ++ cs ++ rest).
Proof.
  revert k acc pre. induction cs as [|c cs IH]; intros k acc pre Hcs Hk; simpl.
  { f_equal; lia. }
  apply Forall_cons in Hcs as [Hc Hcs]. simpl in Hk.
  destruct k as [|k]; [lia|]. simpl.
  rewrite rd_app_head. unfold cont_byte_range in Hc. simpl. case_cmp; [lia|].
  specialize (IH k (cont acc c) (pre ++ [c]) Hcs ltac:(lia)).
  rewrite length_app in IH. simpl in IH. rewrite <- app_assoc in IH. simpl in IH.
  replace (zlen pre + 1) with (Z.of_nat (length pre + 1)) by lia.
  unfold cont in IH at 1. rewrite IH. f_equal. lia.
Qed.

Lemma cont_byte_ge x : 128 ≤ u8 (Z.lor (Z.land x 127) 128) < 256.
Proof.
  split; [|apply u8_range].
  destruct (Z.ltb_spec (u8 (Z.lor (Z.land x 127) 128)) 128) as [H|H]; [|done].
  apply Z.ltb_lt in H. rewrite bit7_byte in H by apply u8_range.
  unfold u8 in H. rewrite Z.testbit_mod_pow2, Z.lor_spec in H by lia.
  change (Z.testbit 128 7) with true in H. by rewrite orb_true_r in H.
Qed.

Lemma cont_byte_land x : Z.land (u8 (Z.lor (Z.land x 127) 128)) 127 = Z.land x 127.
Proof.
  apply Z.bits_inj'. intros i Hi. unfold u8. autorewrite with bits.
  destruct (Z.ltb_spec i 7) as [Hlt|Hge].
  - replace (Z.testbit 128 i) with false.
    2: { symmetry. change 128 with (2 ^ 7). apply Z.pow2_bits_false. lia. }
    rewrite orb_false_r. replace (i <? 8) with true by lia. simpl.
    rewrite <- andb_assoc, andb_diag. done.
  - rewrite (testbit_small 127 7 ltac:(lia) i Hge), !andb_false_r. done.
Qed.

Lemma cont_shiftr v : cont (Z.shiftr v 7) (Z.land v 127) = v.
Proof.
  unfold cont. change 127 with (Z.ones 7). apply Z.bits_inj'. intros i Hi.
  autorewrite with bits. rewrite Z.testbit_ones_nonneg by lia.
  destruct (Z.ltb_spec i 7).
  - replace (7 <=? i) with false by lia. by rewrite andb_false_r, !andb_true_r.
  - rewrite !andb_false_r, orb_false_r.
    replace (0 <=? i) with true by lia. replace (7 <=? i) with true by lia.
    replace (0 <=? i - 7) with true by lia. simpl. f_equal. lia.
Qed.

Lemma cont_byte acc x : cont acc (u8 (Z.lor (Z.land x 127) 128)) = cont acc (Z.land x 127).
Proof.
  unfold cont. rewrite cont_byte_land. f_equal.
  by rewrite <- Z.land_assoc.
Qed.

Lemma shiftr7_lt v n : 0 ≤ v < 2 ^ (7 * Z.of_nat (S n)) → 0 ≤ Z.shiftr v 7 < 2 ^ (7 * Z.of_nat n).
Proof.
  intros Hv. rewrite Z.shiftr_div_pow2 by lia. split; [apply Z.div_pos; lia|].
  apply Z.div_lt_upper_bound; [lia|].
  rewrite <- Z.pow_add_r by lia.
  replace (7 + 7 * Z.of_nat n) with (7 * Z.of_nat (S n)) by lia. lia.
Qed.

(** The buffer holds the seven-bit groups of the value. *)
Lemma buf_loop_fold fuel v :
  0 ≤ v < 2 ^ (7 * Z.of_nat fuel) → foldl cont 0 (reverse (buf_loop fuel v)) = v.
Proof.
  revert v. induction fuel as [|fuel IH]; intros v Hv; simpl in *; [lia|].
  rewrite reverse_cons, foldl_snoc.
  assert (foldl cont 0 (reverse (if Z.shiftr v 7 =? 0 then []
            else buf_loop fuel (Z.shiftr v 7))) = Z.shiftr v 7) as ->.
  { case_cmp; [done|]. apply IH, shiftr7_lt. done. }
  rewrite cont_byte. apply cont_shiftr.
Qed.

Lemma buf_loop_cont fuel v : Forall cont_byte_range (buf_loop fuel v).
Proof.
  revert v. induction fuel as [|fuel IH]; intros v; simpl; constructor.
  - apply cont_byte_ge.
  - case_cmp; [constructor|apply IH].
Qed.

Lemma buf_loop_length fuel n v :
  (n ≤ fuel)%nat → (0 < n)%nat → 0 ≤ v < 2 ^ (7 * Z.of_nat n) →
  (1 ≤ length (buf_loop fuel v) ≤ n)%nat.
Proof.
  revert n v. induction fuel as [|fuel IH]; intros n v Hn H0 Hv; simpl; [lia|].
  case_cmp; simpl; [lia|]. destruct n as [|n]; [lia|].
  apply shiftr7_lt in Hv.
  destruct n as [|n]. { simpl in Hv. lia. }
  specialize (IH (S n) (Z.shiftr v 7)). lia.
Qed.

Lemma buf_loop_nonempty fuel v : (0 < fuel)%nat → ∃ b l,
  buf_loop fuel v = b :: l ∧ b = u8 (Z.lor (Z.land v 127) 128).
Proof. destruct fuel; [lia|]. simpl. eauto. Qed.

(** The high byte decides between the two forms of [putVarint64]. *)
Lemma high_byte v : 0 ≤ v < 2 ^ 64 →
  (Z.land v (Z.shiftl 4278190080 32) =? 0) = (v <? 2 ^ 56).
Proof.
  intros Hv. change (Z.shiftl 4278190080 32) with (18374686479671623680).
  assert (Z.land v 18374686479671623680 = Z.shiftl (Z.shiftr v 56) 56) as ->.
  { bits [v] [64]. }
  rewrite Z.shiftl_mul_pow2, Z.shiftr_div_pow2 by lia.
  repeat case_cmp; try done; exfalso.
  - pose proof (Z.div_le_lower_bound v (2 ^ 56) 1). lia.
  - rewrite Z.div_small in * by lia. lia.
Qed.

Lemma put9_loop_app n v acc : put9_loop n v acc = put9_loop n v [] ++ acc.
Proof.
  revert v acc. induction n as [|n IH]; intros v acc; simpl; [done|].
  rewrite IH, (IH _ [_]), <- app_assoc. done.
Qed.

Lemma put9_loop_length n v : length (put9_loop n v []) = n.
Proof.
  revert v. induction n as [|n IH]; intros v; simpl; [done|].
  rewrite put9_loop_app, length_app, IH. simpl. lia.
Qed.

Lemma put9_loop_spec n v :
  0 ≤ v < 2 ^ (7 * Z.of_nat n) →
  foldl cont 0 (put9_loop n v []) = v ∧
  Forall cont_byte_range (put9_loop n v []).
Proof.
  revert v. induction n as [|n IH]; intros v Hv; simpl in *; [split; [lia|done]|].
  rewrite put9_loop_app. apply shiftr7_lt in Hv as Hv'.
  destruct (IH _ Hv') as (E1 & E2).
  rewrite foldl_snoc, E1, cont_byte, cont_shiftr. split; [done|].
  apply Forall_app. split; [done|]. constructor; [apply cont_byte_ge|done].
Qed.

(** What the decoder computes on a sequence of continuation bytes and a
    last byte. *)
Lemma spec_run cs b rest :
  Forall cont_byte_range cs → (length cs ≤ 8)%nat → 0 ≤ b < 256 →
  (length cs = 8%nat ∨ b < 128) →
  varint_spec 8 0 0 (cs ++ b :: rest) =
    Some (if bool_decide (length cs = 8%nat)
          then Z.lor (Z.shiftl (foldl cont 0 cs) 8) b
          else Z.lor (Z.shiftl (foldl cont 0 cs) 7) b, zlen cs + 1).
Proof.
  intros Hcs Hlen Hb Hlast.
  change (cs ++ b :: rest) with ([] ++ cs ++ b :: rest).
  change 0 with (zlen (@nil Z)) at 2.
  rewrite (spec_skip cs 8 0 [] (b :: rest) Hcs Hlen).
  rewrite varint_spec_unfold. simpl length. rewrite Z.add_0_l. simpl app.
  rewrite rd_app_head. cbn [mbind option_bind].
  case_bool_decide as Hd.
  - rewrite Hd. done.
  - destruct (8 - length cs)%nat eqn:E; [lia|]. case_cmp; [done|lia].
Qed.

Lemma PutVarint_shape v :
  0 ≤ v < 2 ^ 64 →
  ∃ cs b, sqlite3PutVarint v = cs ++ [b] ∧
    Forall cont_byte_range cs ∧ (length cs ≤ 8)%nat ∧ 0 ≤ b < 256 ∧
    (length cs = 8%nat ∨ b < 128) ∧
    v = (if bool_decide (length cs = 8%nat)
         then Z.lor (Z.shiftl (foldl cont 0 cs) 8) b
         else Z.lor (Z.shiftl (foldl cont 0 cs) 7) b).
Proof.
  intros Hv. unfold sqlite3PutVarint.
  case_cmp; [|case_cmp].
  - exists [], (Z.land v 127). simpl. change 127 with (Z.ones 7).
    rewrite Z.land_ones, Z.mod_small by lia. repeat split; auto; lia.
  - exists [Z.lor (Z.land (Z.shiftr v 7) 127) 128], (Z.land v 127). simpl.
    assert (Z.lor (Z.land (Z.shiftr v 7) 127) 128 = u8 (Z.lor (Z.land (Z.shiftr v 7) 127) 128)) as E.
    { bits [v] [14]. }
    assert (0 ≤ Z.land v 127 < 2 ^ 7).
    { change 127 with (Z.ones 7). rewrite Z.land_ones by lia.
      apply Z.mod_pos_bound. lia. }
    split; [done|]. split.
    { constructor; [|done]. rewrite E. apply cont_byte_ge. }
    split; [lia|]. split; [lia|]. split; [right; lia|].
    unfold cont. bits [v] [14].
  - unfold putVarint64. rewrite high_byte by done. case_cmp; simpl negb; cbv iota.
    + destruct (buf_loop_nonempty 10 v) as (b & l & E & Eb); [lia|].
      pose proof (buf_loop_fold 10 v ltac:(lia)) as Hf.
      pose proof (buf_loop_cont 10 v) as Hc.
      pose proof (buf_loop_length 10 8 v ltac:(lia) ltac:(lia) ltac:(lia)) as Hl.
      rewrite E in *. simpl in Hl. apply Forall_cons in Hc as [_ Hc].
      exists (reverse l), (Z.land b 127). rewrite reverse_cons in *.
      rewrite foldl_snoc in Hf. rewrite length_reverse.
      assert (0 ≤ Z.land b 127 < 128).
      { subst b. rewrite cont_byte_land. change 127 with (Z.ones 7).
        rewrite Z.land_ones by lia. apply (Z.mod_pos_bound v (2 ^ 7)). lia. }
      split; [done|]. split; [by apply Forall_reverse|].
      repeat split; try lia. rewrite bool_decide_eq_false_2 by lia. done.
    + rewrite put9_loop_app. exists (put9_loop 8 (Z.shiftr v 8) []), (u8 v).
      destruct (put9_loop_spec 8 (Z.shiftr v 8)) as (E1 & E2).
      { rewrite Z.shiftr_div_pow2 by lia. split; [apply Z.div_pos; lia|].
        apply Z.div_lt_upper_bound; lia. }
      rewrite E1, put9_loop_length. pose proof (u8_range v).
      repeat split; auto; try lia. simpl. bits [v] [64].
Qed.

Lemma bytes_cont cs b rest :
  Forall cont_byte_range cs → 0 ≤ b < 256 → bytes rest → bytes (cs ++ b :: rest).
Proof.
  intros Hcs Hb Hr. apply bytes_app. split; [|by apply bytes_cons].
  eapply Forall_impl; [done|]. unfold cont_byte_range. intros; lia.
Qed.

(** decoding what sqlite3PutVarint wrote for any 64-bit value, whatever follows it in the
    buffer, returns that value and consumes exactly the bytes that were written. *)
Theorem GetVarint_PutVarint v rest :
  0 ≤ v < 2 ^ 64 → bytes rest →
  sqlite3GetVarint (sqlite3PutVarint v ++ rest) =
    Some (v, zlen (sqlite3PutVarint v)).
Proof.
  intros Hv Hrest.
  destruct (PutVarint_shape v Hv) as (cs & b & E & Hcs & Hlen & Hb & Hlast & Hval).
  rewrite E. rewrite <- app_assoc. simpl.
  rewrite GetVarint_unrolled, spec_run by (done || by apply bytes_cont).
  rewrite <- Hval. do 2 f_equal. rewrite length_app. simpl. lia.
Qed.

(** ** Length *)

Lemma varintlen_loop_buf fuel v i :
  (0 < fuel)%nat → 0 ≤ v < 2 ^ (7 * Z.of_nat fuel) →
  varintlen_loop fuel v i = i - 1 + zlen (buf_loop fuel v).
Proof.
  revert v i. induction fuel as [|fuel IH]; intros v i H0 Hv; simpl; [lia|].
  case_cmp; simpl; [lia|]. apply shiftr7_lt in Hv.
  destruct fuel; [simpl in Hv; lia|]. rewrite IH by lia. lia.
Qed.

(** [n + 1] groups are needed from [2^(7n)] on. *)
Lemma buf_loop_length_ge fuel n v :
  (n < fuel)%nat → 2 ^ (7 * Z.of_nat n) ≤ v → (n < length (buf_loop fuel v))%nat.
Proof.
  revert n v. induction fuel as [|fuel IH]; intros n v Hn Hv; simpl; [lia|].
  destruct n as [|n]; [lia|].
  assert (2 ^ (7 * Z.of_nat n) ≤ Z.shiftr v 7) as Hv'.
  { rewrite Z.shiftr_div_pow2 by lia. apply Z.div_le_lower_bound; [lia|].
    rewrite <- Z.pow_add_r by lia.
    replace (7 + 7 * Z.of_nat n) with (7 * Z.of_nat (S n)) by lia. lia. }
  assert (0 < 2 ^ (7 * Z.of_nat n)) by (apply Z.pow_pos_nonneg; lia).
  case_cmp; [lia|]. specialize (IH n (Z.shiftr v 7)). lia.
Qed.

Lemma PutVarint_length v :
  0 ≤ v < 2 ^ 64 →
  zlen (sqlite3PutVarint v) = Z.min 9 (zlen (buf_loop 10 v)).
Proof.
  intros Hv. unfold sqlite3PutVarint. case_cmp; [|case_cmp].
  - pose proof (buf_loop_length 10 1 v). cbn [length]. lia.
  - pose proof (buf_loop_length 10 2 v). pose proof (buf_loop_length_ge 10 1 v).
    cbn [length]. lia.
  - unfold putVarint64. rewrite high_byte by done. case_cmp; simpl negb; cbv iota.
    + destruct (buf_loop_nonempty 10 v) as (b & l & E & Eb); [lia|].
      pose proof (buf_loop_length 10 8 v). rewrite E in *.
      rewrite length_reverse. cbn [length] in *. lia.
    + rewrite put9_loop_app, length_app, put9_loop_length.
      pose proof (buf_loop_length_ge 10 8 v). cbn [length]. lia.
Qed.

(** below 2^63 sqlite3VarintLen is the number of bytes sqlite3PutVarint writes, between 1
    and 9. *)
Theorem VarintLen_correct v :
  0 ≤ v < 2 ^ 63 →
  sqlite3VarintLen v = zlen (sqlite3PutVarint v) ∧ 1 ≤ sqlite3VarintLen v ≤ 9.
Proof.
  intros Hv. unfold sqlite3VarintLen.
  rewrite varintlen_loop_buf, PutVarint_length by lia.
  pose proof (buf_loop_length 10 9 v). lia.
Qed.

(** For a value with its top bit set sqlite3VarintLen answers 10 although sqlite3PutVarint
    writes 9 bytes. *)
Theorem VarintLen_top_bit v :
  2 ^ 63 ≤ v < 2 ^ 64 →
  sqlite3VarintLen v = 10 ∧ zlen (sqlite3PutVarint v) = 9.
Proof.
  intros Hv. unfold sqlite3VarintLen.
  rewrite varintlen_loop_buf, PutVarint_length by lia.
  pose proof (buf_loop_length_ge 10 9 v). pose proof (buf_loop_length 10 10 v). lia.
Qed.

(** ** The 32-bit reader *)

Lemma varint_spec_range k acc n p v m :
  bytes p → 0 ≤ acc < 2 ^ (7 * (8 - Z.of_nat k)) → (k ≤ 8)%nat →
  varint_spec k acc n p = Some (v, m) → 0 ≤ v < 2 ^ 64.
Proof.
  intros Hp. revert acc n. induction k as [|k IH]; intros acc n Hacc Hk H;
    rewrite varint_spec_unfold in H; apply bind_Some in H as (b & Hb & H);
    apply (bytes_rd _ _ _ Hp) in Hb.
  - injection H as <- <-. apply lor_range; [|lia]. apply shiftl_range; [lia|].
    simpl in Hacc. lia.
  - assert (0 ≤ Z.shiftl acc 7 < 2 ^ (7 * (8 - Z.of_nat k))) as Hs.
    { apply shiftl_range; [lia|].
      by replace (7 * (8 - Z.of_nat k) - 7) with (7 * (8 - Z.of_nat (S k))) by lia. }
    assert (2 ^ 7 ≤ 2 ^ (7 * (8 - Z.of_nat k))) by (apply Z.pow_le_mono_r; lia).
    destruct (Z.ltb_spec b 128).
    + injection H as <- <-.
      assert (0 ≤ Z.lor (Z.shiftl acc 7) b < 2 ^ (7 * (8 - Z.of_nat k))) by (apply lor_range; lia).
      assert (2 ^ (7 * (8 - Z.of_nat k)) ≤ 2 ^ 64) by (apply Z.pow_le_mono_r; lia). lia.
    + eapply IH; [|lia|exact H]. apply lor_range; [done|].
      pose proof (land_range 7 127 b). rewrite Z.land_comm. lia.
Qed.

(** outside the single-byte case sqlite3GetVarint32 returns the value of
    sqlite3GetVarint, clamped to 2^32-1, and the same length. *)
Theorem GetVarint32_clamps p :
  bytes p → (∃ p0, p.[0] = Some p0 ∧ 128 ≤ p0) →
  sqlite3GetVarint32 p =
    '(v, n) ← sqlite3GetVarint p; Some (Z.min v SQLITE_MAX_U32, n).
Proof.
  intros Hp (p0 & E0 & H0). rewrite GetVarint_unrolled by done.
  unfold sqlite3GetVarint32. rewrite GetVarint_unrolled by done.
  pose proof (varint_spec_range 8 0 0 p) as Hr. revert Hr.
  pose proof (bytes_rd _ _ _ Hp E0) as B0.
  rewrite (varint_spec_unfold 8), E0. cbn [mbind option_bind].
  replace (p0 <? 128) with false by lia.
  rewrite (varint_spec_unfold 7). change (0 + 1) with 1.
  destruct (p.[1]) as [p1|] eqn:E1; cbn [mbind option_bind]; [|done].
  pose proof (bytes_rd _ _ _ Hp E1) as B1. rewrite cont_bit1 by done.
  destruct (p1 <? 128) eqn:H1; [|rewrite (varint_spec_unfold 6); change (1 + 1) with 2;
    destruct (p.[2]) as [p2|] eqn:E2; cbn [mbind option_bind]; [|done];
    pose proof (bytes_rd _ _ _ Hp E2) as B2; rewrite cont_bit1 by done;
    destruct (p2 <? 128) eqn:H2]; b2p; intros Hr.
  - cbn [mbind option_bind]. do 2 f_equal. rewrite Z.min_l. { bits [p0; p1] [8; 7]. }
    match goal with |- ?x ≤ _ => assert (0 ≤ x < 2 ^ 32) by bit_range end.
    unfold SQLITE_MAX_U32. lia.
  - cbn [mbind option_bind]. do 2 f_equal. rewrite Z.min_l. { bits [p0; p1; p2] [8; 8; 7]. }
    match goal with |- ?x ≤ _ => assert (0 ≤ x < 2 ^ 32) by bit_range end.
    unfold SQLITE_MAX_U32. lia.
  - destruct (varint_spec _ _ _ _) as [[v n]|]; cbn [mbind option_bind]; [|done].
    specialize (Hr v n Hp ltac:(lia) ltac:(lia) eq_refl).
    unfold SQLITE_MAX_U32. change (2 ^ 32 - 1) with (Z.ones 32).
    rewrite Z.land_ones by lia. destruct (Z.ltb_spec v (2 ^ 32)) as [Hlt|Hge].
    + rewrite Z.mod_small, Z.eqb_refl by lia. simpl negb. cbv iota.
      rewrite u32_id by lia. rewrite Z.min_l by (change (Z.ones 32) with (2 ^ 32 - 1); lia).
      done.
    + pose proof (Z.mod_pos_bound v (2 ^ 32) ltac:(lia)).
      replace (v mod 2 ^ 32 =? v) with false by lia.
      rewrite Z.min_r by (change (Z.ones 32) with (2 ^ 32 - 1); lia). done.
Qed.

(** ** Big-endian words *)

(** sqlite3Get4byte reads back the 32-bit word sqlite3Put4byte wrote. *)
Theorem Get4byte_Put4byte v rest :
  0 ≤ v < 2 ^ 32 → sqlite3Get4byte (sqlite3Put4byte v ++ rest) = Some v.
Proof.
  intros Hv. unfold sqlite3Get4byte, sqlite3Put4byte. cbn [app]. red_rd. f_equal. bits [v] [32].
Qed.

(** writing back the word sqlite3Get4byte read restores the four bytes of the buffer. *)
Theorem Put4byte_Get4byte p0 p1 p2 p3 rest v :
  bytes [p0; p1; p2; p3] →
  sqlite3Get4byte (p0 :: p1 :: p2 :: p3 :: rest) = Some v →
  sqlite3Put4byte v = [p0; p1; p2; p3] ∧ 0 ≤ v < 2 ^ 32.
Proof.
  intros (H0 & (H1 & (H2 & (H3 & _)%bytes_cons)%bytes_cons)%bytes_cons)%bytes_cons.
  unfold sqlite3Get4byte. red_rd. intros [= <-]. split.
  - unfold sqlite3Put4byte. repeat f_equal; bits [p0; p1; p2; p3] [8; 8; 8; 8].
  - unfold u32. bit_range.
Qed.

(** ** The decoder against its specification *)

(** on every buffer the unrolled sqlite3GetVarint computes the decoder of the file format,
    and has a result exactly when the encoding does not run past the buffer. *)
Theorem GetVarint_decodes p :
  bytes p → sqlite3GetVarint p = varint_spec 8 0 0 p.
Proof. apply GetVarint_unrolled. Qed.

(** ** Witnesses *)

Lemma GetVarint_PutVarint_witness :
  sqlite3GetVarint (sqlite3PutVarint 300 ++ [7]) = Some (300, 2).
Proof. apply (GetVarint_PutVarint 300 [7]); [lia|repeat constructor; lia]. Defined.

Lemma GetVarint_decodes_witness :
  sqlite3GetVarint [130; 44; 9] = varint_spec 8 0 0 [130; 44; 9] ∧
  varint_spec 8 0 0 [130; 44; 9] = Some (300, 2).
Proof.
  split; [apply (GetVarint_decodes [130; 44; 9]); repeat constructor; lia|reflexivity].
Defined.

Lemma VarintLen_correct_witness :
  sqlite3VarintLen 16384 = zlen (sqlite3PutVarint 16384) ∧ 1 ≤ sqlite3VarintLen 16384 ≤ 9.
Proof. apply (VarintLen_correct 16384). lia. Defined.

Lemma VarintLen_top_bit_witness :
  sqlite3VarintLen (2 ^ 63) = 10 ∧ zlen (sqlite3PutVarint (2 ^ 63)) = 9.
Proof. apply (VarintLen_top_bit (2 ^ 63)). lia. Defined.

Lemma GetVarint32_clamps_witness :
  sqlite3GetVarint32 [143; 255; 255; 255; 255; 127] =
    '(v, n) ← sqlite3GetVarint [143; 255; 255; 255; 255; 127]; Some (Z.min v SQLITE_MAX_U32, n).
Proof.
  apply (GetVarint32_clamps [143; 255; 255; 255; 255; 127]).
  - repeat constructor; lia.
  - exists 143. split; [reflexivity|lia].
Defined.

Lemma Get4byte_Put4byte_witness :
  sqlite3Get4byte (sqlite3Put4byte 66051 ++ [9]) = Some 66051.
Proof. apply (Get4byte_Put4byte 66051 [9]). lia. Defined.

Lemma Put4byte_Get4byte_witness :
  sqlite3Put4byte 66051 = [0; 1; 2; 3] ∧ 0 ≤ 66051 < 2 ^ 32.
Proof.
  apply (Put4byte_Get4byte 0 1 2 3 [4] 66051); [repeat constructor; lia|reflexivity].
Defined.
