(* ===== verification/Bitvec.v ===== *)
(** * Bitvec: the sparse bitmap of page numbers (bitvec.c)

    A [Bitvec] holds a set of integers between 1 and [iSize] in one of three
    representations: a plain bitmap when [iSize] is small, a hash table of the
    set values while there are few of them, and otherwise an array of
    sub-bitmaps.  The model keeps the three representations, the rehash that
    turns a full hash table into sub-bitmaps, and the behaviour when an
    allocation fails. *)
From S2P Require Import Prelude LinearProbe.

(** ** Sizes, for 8-byte pointers *)
Definition BITVEC_SZ : Z := 512.
Definition BITVEC_USIZE : Z := ((BITVEC_SZ - 3 * 4) / 8) * 8.
Definition BITVEC_SZELEM : Z := 8.
Definition BITVEC_NELEM : Z := BITVEC_USIZE / 1.
Definition BITVEC_NBIT : Z := BITVEC_NELEM * BITVEC_SZELEM.
Definition BITVEC_NINT : Z := BITVEC_USIZE / 4.
Definition BITVEC_MXHASH : Z := BITVEC_NINT / 2.
Definition BITVEC_HASH (x : Z) : Z := (x * 1) mod BITVEC_NINT.
Definition BITVEC_NPTR : Z := BITVEC_USIZE / 8.

(** ** Data

    The union [u] carries the member the code reads it through: [aBitmap] when
    [iSize<=BITVEC_NBIT], else [aHash] while [iDivisor==0], else [apSub]. *)
Inductive Bitvec :=
  mkBitvec (iSize nSet iDivisor : Z) (u : bitvec_u)
with bitvec_u :=
  | aBitmap (a : list Z)
  | aHash (a : list Z)
  | apSub (a : list (option Bitvec)).

Definition iSize (p : Bitvec) : Z := let '(mkBitvec s _ _ _) := p in s.
Definition nSet (p : Bitvec) : Z := let '(mkBitvec _ n _ _) := p in n.
Definition iDivisor (p : Bitvec) : Z := let '(mkBitvec _ _ d _) := p in d.
Definition union (p : Bitvec) : bitvec_u := let '(mkBitvec _ _ _ u) := p in u.
Definition set_union (p : Bitvec) (u : bitvec_u) : Bitvec :=
  mkBitvec (iSize p) (nSet p) (iDivisor p) u.

(** The zeroed union of a new bitmap. *)
Definition zeroed_u (iSize : Z) : bitvec_u :=
  if iSize <=? BITVEC_NBIT then aBitmap (replicate (Z.to_nat BITVEC_NELEM) 0)
  else aHash (replicate (Z.to_nat BITVEC_NINT) 0).

Definition sqlite3BitvecCreate (iSize : Z) (m : mem) : option Bitvec * mem :=
  let '(ok, m) := sqlite3Malloc m in
  if ok then
    (Some (mkBitvec iSize 0 0 (zeroed_u iSize)), m)
  else (None, m).

(** ** Test *)

(** [while( p->u.aHash[h] )] of the lookup. *)
Fixpoint test_hash (fuel : nat) (a : list Z) (h i : Z) : option bool :=
  match fuel with
  | O => None
  | S fuel' =>
      x ← a.[h];
      if x =? 0 then Some false
      else if x =? i then Some true
      else test_hash fuel' a ((h + 1) mod BITVEC_NINT) i
  end.

Definition HASH_FUEL : nat := 124.

(** The body of the lookup after [i--] and the range check; one unit of fuel
    per level of sub-bitmaps. *)
Fixpoint test_level (fuel : nat) (p : Bitvec) (i : Z) : option bool :=
  match fuel with
  | O => None
  | S fuel' =>
      if negb (iDivisor p =? 0) then
        match union p with
        | apSub a =>
            let bin := i / iDivisor p in
            let i := i mod iDivisor p in
            q ← a.[bin];
            match q with None => Some false | Some q => test_level fuel' q i end
        | _ => None
        end
      else if iSize p <=? BITVEC_NBIT then
        match union p with
        | aBitmap a =>
            b ← a.[i / BITVEC_SZELEM];
            Some (negb (Z.land b (Z.shiftl 1 (Z.land i (BITVEC_SZELEM - 1))) =? 0))
        | _ => None
        end
      else
        match union p with
        | aHash a => test_hash HASH_FUEL a (BITVEC_HASH i) (i + 1)
        | _ => None
        end
  end.

(** A bitmap of 2^32 values has at most four levels of sub-bitmaps. *)
Definition BITVEC_DEPTH : nat := 4.

Definition sqlite3BitvecTestNotNull (p : Bitvec) (i : Z) : option bool :=
  let i := u32 (i - 1) in
  if iSize p <=? i then Some false else test_level (S BITVEC_DEPTH) p i.

Definition sqlite3BitvecTest (p : option Bitvec) (i : Z) : option bool :=
  match p with None => Some false | Some p => sqlite3BitvecTestNotNull p i end.

(** ** Set *)

(** The [do ... while] probe after a collision: [Some (true, h)] when the value
    is already there, [Some (false, h)] with the first free slot otherwise. *)
Fixpoint probe_hash (fuel : nat) (a : list Z) (h i : Z) : option (bool * Z) :=
  match fuel with
  | O => None
  | S fuel' =>
      x ← a.[h];
      if x =? i then Some (true, h) else
      let h := h + 1 in
      let h := if BITVEC_NINT <=? h then 0 else h in
      y ← a.[h];
      if y =? 0 then Some (false, h) else probe_hash fuel' a h i
  end.

(** [bitvec_set_end]: store [i] in slot [h]. *)
Definition bitvec_set_end (p : Bitvec) (a : list Z) (h i : Z) : option Bitvec :=
  a ← wr a h i;
  Some (mkBitvec (iSize p) (nSet p + 1) (iDivisor p) (aHash a)).

(** The divisor a bitmap gets when its hash table is subdivided. *)
Definition divisor_of (iSize : Z) : Z :=
  let d := iSize / BITVEC_NPTR in
  let d := if negb (iSize mod BITVEC_NPTR =? 0) then d + 1 else d in
  if d <? BITVEC_NBIT then BITVEC_NBIT else d.

(** [set_level fuel p i m] is the code of [sqlite3BitvecSet] after [i--]: the
    result is the return code, the updated bitmap and the allocator.  Fuel
    bounds the levels descended and the rehashes they start. *)
Fixpoint set_level (fuel : nat) (p : Bitvec) (i : Z) (m : mem)
    : option (Z * Bitvec * mem) :=
  match fuel with
  | O => None
  | S fuel' =>
      if (BITVEC_NBIT <? iSize p) && negb (iDivisor p =? 0) then
        match union p with
        | apSub a =>
            let bin := i / iDivisor p in
            let i := i mod iDivisor p in
            q ← a.[bin];
            let '(q, m) := match q with
                           | Some q => (Some q, m)
                           | None => sqlite3BitvecCreate (iDivisor p) m
                           end in
            match q with
            | None => Some (SQLITE_NOMEM, p, m)
            | Some q =>
                '(rc, q, m) ← set_level fuel' q i m;
                a ← wr a bin (Some q);
                Some (rc, set_union p (apSub a), m)
            end
        | _ => None
        end
      else if iSize p <=? BITVEC_NBIT then
        match union p with
        | aBitmap a =>
            let k := i / BITVEC_SZELEM in
            b ← a.[k];
            a ← wr a k (u8 (Z.lor b (Z.shiftl 1 (Z.land i (BITVEC_SZELEM - 1)))));
            Some (SQLITE_OK, set_union p (aBitmap a), m)
        | _ => None
        end
      else
        match union p with
        | aHash a =>
            let h := BITVEC_HASH i in
            let i := i + 1 in
            let rehash :=
              (* memcpy the values out, clear, and set them one by one *)
              let '(ok, m) := sqlite3Malloc m in
              if negb ok then Some (SQLITE_NOMEM, p, m) else
              let p := mkBitvec (iSize p) (nSet p) (divisor_of (iSize p))
                         (apSub (replicate (Z.to_nat BITVEC_NPTR) None)) in
              '(rc, p, m) ← set_level fuel' p (i - 1) m;
              '(rc, p, m) ←
                foldl (λ acc v,
                  '(rc, p, m) ← acc;
                  if v =? 0 then Some (rc, p, m) else
                  '(rc', p, m) ← set_level fuel' p (v - 1) m;
                  Some (Z.lor rc rc', p, m)) (Some (rc, p, m)) a;
              Some (rc, p, sqlite3_free m) in
            let set_rehash h :=
              if BITVEC_MXHASH <=? nSet p then rehash
              else p ← bitvec_set_end p a h i; Some (SQLITE_OK, p, m) in
            x ← a.[h];
            if x =? 0 then
              if nSet p <? BITVEC_NINT - 1 then
                p ← bitvec_set_end p a h i; Some (SQLITE_OK, p, m)
              else set_rehash h
            else
              '(found, h) ← probe_hash HASH_FUEL a h i;
              if (found : bool) then Some (SQLITE_OK, p, m) else set_rehash h
        | _ => None
        end
  end.

Definition SET_FUEL : nat := S (S (2 * BITVEC_DEPTH)).

Definition sqlite3BitvecSet (p : option Bitvec) (i : Z) (m : mem)
    : option (Z * option Bitvec * mem) :=
  match p with
  | None => Some (SQLITE_OK, None, m)
  | Some p =>
      let i := u32 (i - 1) in
      '(rc, p, m) ← set_level SET_FUEL p i m;
      Some (rc, Some p, m)
  end.

(** ** Clear *)

(** The inner [while( p->u.aHash[h] )] of the rebuild. *)
Fixpoint free_slot (fuel : nat) (a : list Z) (h : Z) : option Z :=
  match fuel with
  | O => None
  | S fuel' =>
      x ← a.[h];
      if x =? 0 then Some h else
      let h := h + 1 in
      free_slot fuel' a (if BITVEC_NINT <=? h then 0 else h)
  end.

(** The rebuild of the hash table without the value [i+1]; the accumulator is
    [nSet] and the new table. *)
Definition rebuild_hash (i : Z) (aiValues : list Z) : option (Z * list Z) :=
  foldl (λ acc v,
    '(n, a) ← acc;
    if negb (v =? 0) && negb (v =? i + 1) then
      h ← free_slot HASH_FUEL a (BITVEC_HASH (v - 1));
      a ← wr a h v;
      Some (n + 1, a)
    else Some (n, a))
  (Some (0, replicate (Z.to_nat BITVEC_NINT) 0)) aiValues.

Fixpoint clear_level (fuel : nat) (p : Bitvec) (i : Z) : option Bitvec :=
  match fuel with
  | O => None
  | S fuel' =>
      if negb (iDivisor p =? 0) then
        match union p with
        | apSub a =>
            let bin := i / iDivisor p in
            let i := i mod iDivisor p in
            q ← a.[bin];
            match q with
            | None => Some p
            | Some q =>
                q ← clear_level fuel' q i;
                a ← wr a bin (Some q);
                Some (set_union p (apSub a))
            end
        | _ => None
        end
      else if iSize p <=? BITVEC_NBIT then
        match union p with
        | aBitmap a =>
            let k := i / BITVEC_SZELEM in
            b ← a.[k];
            a ← wr a k (Z.land b (u8 (Z.lnot (Z.shiftl 1 (Z.land i (BITVEC_SZELEM - 1))))));
            Some (set_union p (aBitmap a))
        | _ => None
        end
      else
        match union p with
        | aHash a =>
            '(n, a) ← rebuild_hash i a;
            Some (mkBitvec (iSize p) n (iDivisor p) (aHash a))
        | _ => None
        end
  end.

Definition sqlite3BitvecClear (p : option Bitvec) (i : Z) : option (option Bitvec) :=
  match p with
  | None => Some None
  | Some p =>
      let i := u32 (i - 1) in
      p ← clear_level (S BITVEC_DEPTH) p i; Some (Some p)
  end.

(** ** Destroy *)
Fixpoint bitvec_destroy (p : Bitvec) (m : mem) {struct p} : mem :=
  match p with
  | mkBitvec _ _ iDivisor u =>
      sqlite3_free
        (if negb (iDivisor =? 0) then
           match u with
           | apSub a =>
               (fix subs (a : list (option Bitvec)) (m : mem) : mem :=
                  match a with
                  | [] => m
                  | q :: a =>
                      subs a (match q with None => m | Some q => bitvec_destroy q m end)
                  end) a m
           | _ => m
           end
         else m)
  end.

Definition sqlite3BitvecDestroy (p : option Bitvec) (m : mem) : mem :=
  match p with None => m | Some p => bitvec_destroy p m end.

Definition sqlite3BitvecSize (p : Bitvec) : Z := iSize p.

(** A run over all three representations: 70 values that collide force the
    hash table of a large bitmap to be subdivided. *)
Definition set_all (l : list Z) (p : option Bitvec) (m : mem) :=
  foldl (λ acc i, '(rc, p, m) ← acc; '(rc', p, m) ← sqlite3BitvecSet p i m;
    Some (Z.lor rc rc', p, m)) (Some (SQLITE_OK, p, m)) l.

Example set_then_test :
  (let '(p, m) := sqlite3BitvecCreate 1000000 (Mem [] 0) in
   '(rc, p, m) ← set_all (map (λ k, 124 * k + 5) (seqZ 0 70)) p m;
   t1 ← sqlite3BitvecTest p (124 * 33 + 5);
   t2 ← sqlite3BitvecTest p (124 * 33 + 6);
   p' ← sqlite3BitvecClear p (124 * 33 + 5);
   t3 ← sqlite3BitvecTest p' (124 * 33 + 5);
   d ← p;
   Some (rc, t1, t2, t3, iDivisor d, live m, live (sqlite3BitvecDestroy p m)))
  = Some (0, true, false, false, 16130, 5, 0).
Proof. vm_compute. reflexivity. Qed.

(** ** What a bitmap represents *)

(** The home slot of the value [v] (the code hashes [v-1]). *)
Definition home (v : Z) : Z := BITVEC_HASH (v - 1).

(** The hash table [a] with [n] entries. *)
Record hash_ok (a : list Z) (n : Z) : Prop := {
  hash_table : table_ok BITVEC_NINT home a;
  hash_count : n = occupied a;
  hash_room : n < BITVEC_NINT;
}.

Definition bit_at (a : list Z) (i : Z) : Prop :=
  ∃ b, rd a (i / 8) = Some b ∧ Z.testbit b (i mod 8) = true.

(** [bv_rep n p s]: the bitmap [p], with at most [n] levels of sub-bitmaps, is
    well formed and holds the set [s]. *)
Fixpoint bv_rep (n : nat) (p : Bitvec) (s : gset Z) : Prop :=
  0 ≤ iSize p ≤ BITVEC_NBIT * BITVEC_NPTR ^ Z.of_nat n ∧
  (∀ x, x ∈ s → 1 ≤ x ≤ iSize p) ∧
  match union p with
  | aBitmap a =>
      iSize p ≤ BITVEC_NBIT ∧ iDivisor p = 0 ∧ zlen a = BITVEC_NELEM ∧ bytes a ∧
      ∀ i, 0 ≤ i < iSize p → (i + 1 ∈ s ↔ bit_at a i)
  | aHash a =>
      BITVEC_NBIT < iSize p ∧ iDivisor p = 0 ∧ hash_ok a (nSet p) ∧
      ∀ x, x ∈ s ↔ held a x
  | apSub a =>
      match n with
      | O => False
      | S n =>
          BITVEC_NBIT < iSize p ∧ iDivisor p = divisor_of (iSize p) ∧
          zlen a = BITVEC_NPTR ∧
          ∃ f : Z → gset Z,
            (∀ k q, rd a k = Some q →
               match q with
               | None => f k = ∅
               | Some q => iSize q = iDivisor p ∧ bv_rep n q (f k)
               end) ∧
            ∀ i, 0 ≤ i < iSize p →
              (i + 1 ∈ s ↔ i mod iDivisor p + 1 ∈ f (i / iDivisor p))
      end
  end.

(** The number of Bitvec objects of a bitmap. *)
Fixpoint nodes (p : Bitvec) : Z :=
  match p with
  | mkBitvec _ _ _ u =>
      1 + match u with
          | apSub a =>
              (fix subs (a : list (option Bitvec)) : Z :=
                 match a with
                 | [] => 0
                 | None :: a => subs a
                 | Some q :: a => nodes q + subs a
                 end) a
          | _ => 0
          end
  end.

(** ** Facts about the sizes *)

Ltac sizes :=
  change BITVEC_NELEM with 496 in *; change BITVEC_NBIT with 3968 in *;
  change BITVEC_NINT with 124 in *; change BITVEC_MXHASH with 62 in *;
  change BITVEC_NPTR with 62 in *.

Lemma home_range v : 0 ≤ home v < BITVEC_NINT.
Proof. unfold home, BITVEC_HASH. sizes. apply Z.mod_pos_bound. lia. Qed.

Lemma divisor_of_spec s :
  BITVEC_NBIT < s →
  0 < divisor_of s < s ∧ s ≤ divisor_of s * BITVEC_NPTR ∧ BITVEC_NBIT ≤ divisor_of s ∧
  ∀ n : nat, s ≤ BITVEC_NBIT * BITVEC_NPTR ^ Z.of_nat (S n) →
    divisor_of s ≤ BITVEC_NBIT * BITVEC_NPTR ^ Z.of_nat n.
Proof.
  unfold divisor_of. sizes. intros Hs.
  assert (∀ n : nat, 1 ≤ 62 ^ Z.of_nat n) as Hpow.
  { intros n. pose proof (Z.pow_pos_nonneg 62 (Z.of_nat n)). lia. }
  repeat split.
  1-4: repeat case_cmp; cbn [negb] in *; zdm.
  intros n Hn. rewrite Nat2Z.inj_succ, Z.pow_succ_r in Hn by lia.
  specialize (Hpow n). remember (62 ^ Z.of_nat n) as w.
  repeat case_cmp; cbn [negb] in *; zdm.
Qed.

(** ** The bitmap representation *)

Lemma bit_index i :
  Z.land i (BITVEC_SZELEM - 1) = i mod 8 ∧ i / BITVEC_SZELEM = i / 8.
Proof.
  split; [|done]. change (BITVEC_SZELEM - 1) with (Z.ones 3).
  rewrite Z.land_ones by lia. done.
Qed.

Lemma test_bit b k :
  0 ≤ k → negb (Z.land b (Z.shiftl 1 k) =? 0) = Z.testbit b k.
Proof.
  intros Hk. rewrite Z.shiftl_1_l. destruct (Z.testbit b k) eqn:E.
  - apply negb_true_iff, Z.eqb_neq. intros H.
    apply (f_equal (λ z, Z.testbit z k)) in H.
    rewrite Z.land_spec, E, Z.pow2_bits_true, Z.bits_0 in H by lia. done.
  - apply negb_false_iff, Z.eqb_eq, Z.bits_inj'. intros i Hi.
    rewrite Z.land_spec, Z.bits_0. destruct (Z.eq_dec i k) as [->|].
    + by rewrite E.
    + rewrite Z.pow2_bits_false by lia. apply andb_false_r.
Qed.

Lemma set_bit_range b k : 0 ≤ b < 256 → 0 ≤ k < 8 → 0 ≤ Z.lor b (Z.shiftl 1 k) < 256.
Proof.
  intros Hb Hk. apply (lor_range 8); [done|].
  rewrite Z.shiftl_1_l. split; [apply Z.pow_nonneg; lia|]. apply Z.pow_lt_mono_r; lia.
Qed.

Lemma set_bit_spec b k j :
  0 ≤ b < 256 → 0 ≤ k < 8 → 0 ≤ j < 8 →
  Z.testbit (u8 (Z.lor b (Z.shiftl 1 k))) j = (k =? j) || Z.testbit b j.
Proof.
  intros Hb Hk Hj. rewrite u8_id by (by apply set_bit_range).
  rewrite Z.lor_spec, Z.shiftl_1_l, Z.pow2_bits_eqb, orb_comm by lia. done.
Qed.

Lemma clear_bit_spec b k j :
  0 ≤ b < 256 → 0 ≤ k < 8 → 0 ≤ j < 8 →
  Z.testbit (Z.land b (u8 (Z.lnot (Z.shiftl 1 k)))) j = negb (k =? j) && Z.testbit b j.
Proof.
  intros Hb Hk Hj. unfold u8. autorewrite with bits.
  rewrite Z.lnot_spec, Z.shiftl_1_l, Z.pow2_bits_eqb by lia.
  replace (j <? 8) with true by lia. simpl. apply andb_comm.
Qed.

(** The effect on the set of updating one byte so that only bit [i] changes. *)
Lemma bitmap_update a a' i b b' :
  zlen a = BITVEC_NELEM → 0 ≤ i < BITVEC_NBIT →
  rd a (i / 8) = Some b → wr a (i / 8) b' = Some a' →
  (∀ j, 0 ≤ j < 8 → j ≠ i mod 8 → Z.testbit b' j = Z.testbit b j) →
  ∀ j, 0 ≤ j → bit_at a' j ↔ if j =? i then Z.testbit b' (i mod 8) = true else bit_at a j.
Proof.
  intros Hlen Hi Hb Hw Hsame j Hj. unfold bit_at.
  rewrite (rd_wr _ _ _ _ _ Hw).
  destruct (Z.eqb_spec j i) as [->|Hne].
  - rewrite Z.eqb_refl. naive_solver.
  - destruct (Z.eqb_spec (i / 8) (j / 8)) as [Hd|]; [|done]. rewrite <- Hd, Hb.
    assert (Z.testbit b' (j mod 8) = Z.testbit b (j mod 8)) by (apply Hsame; zdm).
    split; intros (c & [= <-] & Hc); eexists; (split; [done|congruence]).
Qed.

(** ** The hash representation *)

Abbreviation stops := (stops_at BITVEC_NINT).

Lemma next_slot h :
  0 ≤ h < BITVEC_NINT →
  (if BITVEC_NINT <=? h + 1 then 0 else h + 1) = (h + 1) mod BITVEC_NINT.
Proof. sizes. intros. case_cmp; zdm. Qed.

Lemma NINT_pos : 0 < BITVEC_NINT.
Proof. done. Qed.
#[local] Hint Resolve NINT_pos home_range : core.

Lemma wrap_slot h d : 0 ≤ (h + d) mod BITVEC_NINT < BITVEC_NINT.
Proof. by apply slot_range. Qed.
#[local] Hint Resolve wrap_slot : core.

Definition met (a : list Z) (h d i : Z) : Prop :=
  ∃ d', 0 ≤ d' < d ∧ rd a ((h + d') mod BITVEC_NINT) = Some i.

(** A walk of length [d > 0] meets [i] at its first slot or in the rest. *)
Lemma met_step a h d i x :
  0 ≤ h < BITVEC_NINT → 0 < d → rd a h = Some x →
  met a h d i ↔ x = i ∨ met a ((h + 1) mod BITVEC_NINT) (d - 1) i.
Proof.
  intros Hh Hd Hx. split.
  - intros (d' & Hd' & Hr). destruct (Z.eq_dec d' 0) as [->|].
    + left. rewrite Z.add_0_r, Z.mod_small in Hr by lia. congruence.
    + right. exists (d' - 1). split; [lia|].
      rewrite Z.add_mod_idemp_l by (sizes; lia).
      by replace (h + 1 + (d' - 1)) with (h + d') by lia.
  - intros [->|(d' & Hd' & Hr)].
    + exists 0. split; [lia|]. by rewrite Z.add_0_r, Z.mod_small by lia.
    + exists (d' + 1). split; [lia|].
      rewrite Z.add_mod_idemp_l in Hr by (sizes; lia).
      by replace (h + (d' + 1)) with (h + 1 + d') by lia.
Qed.

Lemma stops_inv a h d :
  0 ≤ h < BITVEC_NINT → stops a h d →
  (rd a h = Some 0 ∧ d = 0) ∨
  (∃ x, rd a h = Some x ∧ x ≠ 0 ∧ 0 < d ∧ stops a ((h + 1) mod BITVEC_NINT) (d - 1)).
Proof.
  intros Hh Hs. pose proof Hs as (Hd & He & Hf).
  destruct (Z.eq_dec d 0) as [->|].
  - left. rewrite Z.add_0_r, Z.mod_small in He by lia. done.
  - right. specialize (Hf 0 ltac:(lia)).
    rewrite Z.add_0_r, Z.mod_small in Hf by lia. pose proof Hf as (x & Hx & ?).
    exists x. apply stops_at_step in Hs as [? ?]; auto.
Qed.

Lemma test_hash_walk fuel a h d i :
  0 ≤ h < BITVEC_NINT → stops a h d → i ≠ 0 → d < Z.of_nat fuel →
  ∃ b, test_hash fuel a h i = Some b ∧ (b = true ↔ met a h d i).
Proof.
  revert h d. induction fuel as [|fuel IH]; intros h d Hh Hs Hi Hf; simpl.
  { destruct Hs as [? _]. lia. }
  destruct (stops_inv _ _ _ Hh Hs) as [[-> ->]|(x & Hx & Hx0 & Hd & Hs')]; simpl.
  - exists false. split; [done|]. split; [done|]. intros (? & ? & _). lia.
  - rewrite Hx. simpl. case_cmp; [done|].
    pose proof (met_step a h d i x Hh Hd Hx) as Hm. case_cmp.
    + exists true. naive_solver.
    + destruct (IH _ _ (wrap_slot h 1) Hs') as (b & -> & Hb); [done|lia|].
      exists b. naive_solver.
Qed.

Lemma probe_hash_walk fuel a h d i :
  0 ≤ h < BITVEC_NINT → stops a h d → 0 < d → i ≠ 0 → d ≤ Z.of_nat fuel →
  ∃ b h', probe_hash fuel a h i = Some (b, h') ∧ (b = true ↔ met a h d i) ∧
    (b = false → h' = (h + d) mod BITVEC_NINT).
Proof.
  revert h d. induction fuel as [|fuel IH]; intros h d Hh Hs Hd Hi Hf; simpl; [lia|].
  destruct (stops_inv _ _ _ Hh Hs) as [[_ ->]|(x & Hx & Hx0 & _ & Hs')]; [lia|].
  rewrite Hx. simpl. pose proof (met_step a h d i x Hh Hd Hx) as Hm. case_cmp.
  { exists true, h. naive_solver. }
  rewrite next_slot by done.
  destruct (stops_inv _ _ _ (wrap_slot h 1) Hs') as [[-> Hd0]|(y & Hy & Hy0 & Hd1 & _)].
  - simpl. exists false, ((h + 1) mod BITVEC_NINT). split; [done|]. split.
    + rewrite Hm. split; [done|]. intros [?|(? & ? & _)]; [done|lia].
    + intros _. by replace d with 1 by lia.
  - rewrite Hy. simpl. case_cmp; [done|].
    destruct (IH _ _ (wrap_slot h 1) Hs') as (b & h' & -> & Hb & Hh'); [lia|done|lia|].
    exists b, h'. split; [done|]. split; [naive_solver|].
    intros ->. rewrite Hh' by done. rewrite Z.add_mod_idemp_l by (sizes; lia).
    f_equal. lia.
Qed.

Lemma free_slot_walk fuel a h d :
  0 ≤ h < BITVEC_NINT → stops a h d → d < Z.of_nat fuel →
  free_slot fuel a h = Some ((h + d) mod BITVEC_NINT).
Proof.
  revert h d. induction fuel as [|fuel IH]; intros h d Hh Hs Hf; simpl.
  { destruct Hs as [? _]. lia. }
  destruct (stops_inv _ _ _ Hh Hs) as [[-> ->]|(x & Hx & Hx0 & Hd & Hs')]; simpl.
  - f_equal. rewrite Z.add_0_r, Z.mod_small by lia. done.
  - rewrite Hx. simpl. case_cmp; [done|].
    rewrite next_slot, (IH _ _ (wrap_slot h 1) Hs') by (done || lia).
    f_equal. rewrite Z.add_mod_idemp_l by (sizes; lia). f_equal. lia.
Qed.

(** In a table with room every walk stops, within the fuel given. *)
Lemma hash_stops a n h : hash_ok a n → ∃ d, stops a h d ∧ d < Z.of_nat HASH_FUEL.
Proof.
  intros [Ht Hc Hr]. pose proof (table_length _ _ _ Ht) as Hl.
  destruct (occupied_empty_slot a) as (p & Hp & He); [lia|].
  destruct (walk_stops BITVEC_NINT NINT_pos a h p Hl) as [d Hd]; [lia|done|].
  exists d. split; [done|]. destruct Hd as [Hd _]. unfold HASH_FUEL. sizes. lia.
Qed.

#[local] Opaque HASH_FUEL.

Lemma hash_met a n v d :
  hash_ok a n → v ≠ 0 → stops a (home v) d → met a (home v) d v ↔ held a v.
Proof.
  intros [Ht _ _] Hv Hs. split.
  - intros (d' & _ & Hr). split; eauto.
  - intros Hh. apply (held_before BITVEC_NINT NINT_pos home a v d Ht Hh Hs).
Qed.

Lemma test_hash_correct a n i :
  hash_ok a n → 0 ≤ i →
  ∃ b, test_hash HASH_FUEL a (BITVEC_HASH i) (i + 1) = Some b ∧ (b = true ↔ held a (i + 1)).
Proof.
  intros Ha Hi. destruct (hash_stops a n (home (i + 1)) Ha) as (d & Hs & Hd).
  assert (home (i + 1) = BITVEC_HASH i) as E by (unfold home; f_equal; lia).
  destruct (test_hash_walk HASH_FUEL a (home (i + 1)) d (i + 1)) as (b & Hb & Hiff);
    [done|done|lia|done|].
  rewrite <- E. exists b. split; [done|]. rewrite Hiff. apply hash_met with n; [done|lia|done].
Qed.

(** Storing a new value in its slot. *)
Lemma hash_store a n v d :
  hash_ok a n → n < BITVEC_NINT - 1 → v ≠ 0 → ¬ held a v → stops a (home v) d →
  ∃ a', wr a ((home v + d) mod BITVEC_NINT) v = Some a' ∧ hash_ok a' (n + 1) ∧
    ∀ w, held a' w ↔ w = v ∨ held a w.
Proof.
  intros [Ht Hc Hr] Hn Hv Hnew Hs. pose proof (table_length _ _ _ Ht) as Hl.
  pose proof (wrap_slot (home v) d) as Hq. pose proof Hs as (_ & He & _).
  exists (<[Z.to_nat ((home v + d) mod BITVEC_NINT) := v]> a).
  split; [apply wr_in_bounds; lia|]. split.
  - split.
    + apply table_insert; auto.
    + rewrite occupied_insert by (done || lia). lia.
    + lia.
  - intros w. apply held_insert; [lia|done|done].
Qed.

(** The values of a table, as a set. *)
Definition values (l : list Z) : gset Z := list_to_set (filter (λ x, x ≠ 0) l).

Lemma elem_of_values l x : x ∈ values l ↔ x ≠ 0 ∧ x ∈ l.
Proof. unfold values. by rewrite elem_of_list_to_set, list_elem_of_filter. Qed.

Lemma held_values a x : held a x ↔ x ∈ values a.
Proof.
  rewrite elem_of_values, list_elem_of_lookup. unfold held. split; intros [Hx [p Hp]].
  - apply rd_lookup in Hp as [_ Hp]. eauto.
  - split; [done|]. exists (Z.of_nat p). by rewrite rd_nat.
Qed.

Lemma table_values_nodup a : table_ok BITVEC_NINT home a → NoDup (filter (λ x, x ≠ 0) a).
Proof.
  intros Ht. assert (∀ i j x, a !! i = Some x → a !! j = Some x → x ≠ 0 → i = j) as H.
  { intros i j x Hi Hj Hx. apply Nat2Z.inj.
    apply (table_once _ _ _ Ht _ _ x); [by rewrite rd_nat..|done]. }
  clear Ht. induction a as [|x a IH]; [constructor|].
  assert (NoDup (filter (λ x, x ≠ 0) a)) as Hnd.
  { apply IH. intros i j y Hi Hj Hy. assert (S i = S j) by (eapply H; eauto). lia. }
  destruct (decide (x ≠ 0)) as [Hx|Hx].
  - rewrite filter_cons_True by done. constructor; [|done].
    rewrite list_elem_of_filter. intros [_ [j Hj]%list_elem_of_lookup].
    assert (0 = S j)%nat as ?; [|done]. apply (H _ _ x); done.
  - rewrite filter_cons_False by done. done.
Qed.

(** ** The rebuild of the hash table in [sqlite3BitvecClear] *)

(** The values the rebuild keeps. *)
Definition kept (i v : Z) : Prop := v ≠ 0 ∧ v ≠ i + 1.

Lemma rebuild_hash_ok i l n a :
  hash_ok a n → n + zlen (filter (λ x, x ≠ 0) l) < BITVEC_NINT →
  NoDup (filter (λ x, x ≠ 0) l) → (∀ v, v ∈ l → held a v → False) →
  ∃ n' a', foldl (λ acc v,
      '(n, a) ← acc;
      if negb (v =? 0) && negb (v =? i + 1) then
        h ← free_slot HASH_FUEL a (BITVEC_HASH (v - 1));
        a ← wr a h v;
        Some (n + 1, a)
      else Some (n, a)) (Some (n, a)) l = Some (n', a') ∧
    hash_ok a' n' ∧ ∀ w, held a' w ↔ held a w ∨ (w ∈ l ∧ kept i w).
Proof.
  revert n a. induction l as [|v l IH]; intros n a Ha Hn Hnd Hdis; simpl.
  { exists n, a. split; [done|]. split; [done|]. intros w.
    split; [by left|]. intros [?|[?%not_elem_of_nil _]]; done. }
  destruct (decide (v = 0)) as [->|Hv].
  { simpl. rewrite filter_cons_False in Hn, Hnd by naive_solver.
    destruct (IH n a Ha Hn Hnd) as (n' & a' & E & Ha' & Hh).
    { intros v' Hv'. apply Hdis. by right. }
    exists n', a'. split; [done|]. split; [done|]. intros w. rewrite Hh, elem_of_cons.
    unfold kept. naive_solver. }
  rewrite filter_cons_True in Hn, Hnd by done. simpl in Hn.
  apply NoDup_cons in Hnd as [Hnotin Hnd].
  replace (v =? 0) with false by (symmetry; by apply Z.eqb_neq). simpl.
  destruct (Z.eqb_spec v (i + 1)) as [->|Hvi]; simpl.
  { destruct (IH n a Ha) as (n' & a' & E & Ha' & Hh); [lia|done| |].
    { intros v' Hv'. apply Hdis. by right. }
    exists n', a'. split; [done|]. split; [done|]. intros w. rewrite Hh, elem_of_cons.
    unfold kept. naive_solver. }
  assert (¬ held a v) as Hnew by (intros ?; eapply Hdis; [by left|done]).
  destruct (hash_stops a n (home v) Ha) as (d & Hs & Hd).
  destruct (hash_store a n v d Ha) as (a1 & Hw & Ha1 & Hh1); [lia|done|done|done|].
  fold (home v). rewrite (free_slot_walk _ _ _ d) by auto. simpl. rewrite Hw. simpl.
  destruct (IH (n + 1) a1 Ha1) as (n' & a' & E & Ha' & Hh); [lia|done| |].
  { intros w Hw' Hheld. apply Hh1 in Hheld as [->|Hheld].
    - apply Hnotin, list_elem_of_filter. done.
    - eapply Hdis; [by right|done]. }
  exists n', a'. split; [done|]. split; [done|]. intros w.
  rewrite Hh, Hh1, elem_of_cons. unfold kept. naive_solver.
Qed.

Lemma occupied_zero (n : nat) : occupied (replicate n 0) = 0.
Proof.
  unfold occupied. induction n as [|n IH]; simpl; [done|].
  by rewrite filter_cons_False by naive_solver.
Qed.

Lemma hash_empty : hash_ok (replicate (Z.to_nat BITVEC_NINT) 0) 0.
Proof.
  split.
  - by apply table_empty.
  - by rewrite occupied_zero.
  - done.
Qed.

Lemma rebuild_hash_correct i a n :
  hash_ok a n →
  ∃ n' a', rebuild_hash i a = Some (n', a') ∧ hash_ok a' n' ∧
    ∀ w, held a' w ↔ held a w ∧ w ≠ i + 1.
Proof.
  intros Ha. pose proof Ha as [Ht Hc Hr].
  destruct (rebuild_hash_ok i a 0 (replicate (Z.to_nat BITVEC_NINT) 0))
    as (n' & a' & E & Ha' & Hh).
  - apply hash_empty.
  - unfold occupied in Hc. lia.
  - by apply table_values_nodup.
  - intros v _ Hv. by apply (held_empty _ _ Hv).
  - exists n', a'. split; [done|]. split; [done|]. intros w. rewrite Hh.
    rewrite (held_values a), elem_of_values. unfold kept.
    split; [|naive_solver]. intros [Hf|?]; [by apply held_empty in Hf|naive_solver].
Qed.

(** ** Basic facts about [bv_rep] *)

Lemma bv_rep_unfold n p s :
  bv_rep n p s ↔
  0 ≤ iSize p ≤ BITVEC_NBIT * BITVEC_NPTR ^ Z.of_nat n ∧
  (∀ x, x ∈ s → 1 ≤ x ≤ iSize p) ∧
  match union p with
  | aBitmap a =>
      iSize p ≤ BITVEC_NBIT ∧ iDivisor p = 0 ∧ zlen a = BITVEC_NELEM ∧ bytes a ∧
      ∀ i, 0 ≤ i < iSize p → (i + 1 ∈ s ↔ bit_at a i)
  | aHash a =>
      BITVEC_NBIT < iSize p ∧ iDivisor p = 0 ∧ hash_ok a (nSet p) ∧
      ∀ x, x ∈ s ↔ held a x
  | apSub a =>
      match n with
      | O => False
      | S n =>
          BITVEC_NBIT < iSize p ∧ iDivisor p = divisor_of (iSize p) ∧
          zlen a = BITVEC_NPTR ∧
          ∃ f : Z → gset Z,
            (∀ k q, rd a k = Some q →
               match q with
               | None => f k = ∅
               | Some q => iSize q = iDivisor p ∧ bv_rep n q (f k)
               end) ∧
            ∀ i, 0 ≤ i < iSize p →
              (i + 1 ∈ s ↔ i mod iDivisor p + 1 ∈ f (i / iDivisor p))
      end
  end.
Proof. by destruct n. Qed.

(** The bin and the index inside the bin of a value. *)
Lemma bin_range sz i :
  BITVEC_NBIT < sz → 0 ≤ i < sz →
  0 ≤ i / divisor_of sz < BITVEC_NPTR ∧ 0 ≤ i mod divisor_of sz < divisor_of sz.
Proof.
  intros Hsz Hi. destruct (divisor_of_spec sz Hsz) as (Hd & Hm & _).
  split; [|apply Z.mod_pos_bound; lia].
  split; [apply Z.div_pos; lia|]. apply Z.div_lt_upper_bound; lia.
Qed.

Lemma create_rep n sz m p m' :
  0 ≤ sz ≤ BITVEC_NBIT * BITVEC_NPTR ^ Z.of_nat n →
  sqlite3BitvecCreate sz m = (Some p, m') →
  bv_rep n p ∅ ∧ iSize p = sz ∧ nodes p = 1.
Proof.
  intros Hsz. unfold sqlite3BitvecCreate. destruct (sqlite3Malloc m) as [[] m1]; [|done].
  intros [= <- <-]. unfold zeroed_u. split; [|split; [done|by case_cmp]].
  apply bv_rep_unfold. cbn [iSize nSet iDivisor union].
  split; [done|]. split; [set_solver|]. case_cmp.
  - split; [done|]. split; [done|]. split; [by rewrite length_replicate|].
    split; [by apply Forall_replicate|]. intros i Hi. split.
    + set_solver.
    + intros (b & Hb & Ht). exfalso.
      apply rd_lookup in Hb as [_ [-> _]%lookup_replicate]. by rewrite Z.bits_0 in Ht.
  - split; [done|]. split; [done|]. split; [apply hash_empty|].
    intros x. split; [set_solver|]. intros Hh. by apply held_empty in Hh.
Qed.

(** ** Test *)

Lemma test_level_correct n fuel p s i :
  (n < fuel)%nat → bv_rep n p s → 0 ≤ i < iSize p →
  ∃ b, test_level fuel p i = Some b ∧ (b = true ↔ i + 1 ∈ s).
Proof.
  revert fuel p s i. induction n as [|n IH]; intros fuel p s i Hfuel Hp Hi;
    (destruct fuel as [|fuel]; [lia|]); apply bv_rep_unfold in Hp as (Hsz & Hs & Hu); cbn [test_level];
    destruct (union p) as [a|a|a] eqn:Eu.
  1,4: destruct Hu as (Hnb & -> & Hlen & Hby & Hbit); simpl;
    replace (iSize p <=? BITVEC_NBIT) with true by lia;
    destruct (bit_index i) as [-> ->];
    destruct (rd_in_bounds a (i / 8)) as [b Hb]; [sizes; zdm|];
    rewrite Hb; simpl; eexists; (split; [done|]);
    rewrite test_bit, Hbit by (done || zdm); unfold bit_at; naive_solver.
  1,3: destruct Hu as (Hnb & -> & Hh & Hheld); simpl;
    replace (iSize p <=? BITVEC_NBIT) with false by lia;
    destruct (test_hash_correct a (nSet p) i Hh) as (b & -> & Hb); [lia|];
    exists b; by rewrite Hheld.
  - done.
  - destruct Hu as (Hnb & Hdiv & Hlen & f & Hf & Hmem).
    destruct (bin_range _ _ Hnb Hi) as [Hbin Hmod]. rewrite Hdiv in *.
    destruct (divisor_of_spec _ Hnb) as (Hd & _).
    replace (divisor_of (iSize p) =? 0) with false by lia. cbn [negb].
    destruct (rd_in_bounds a (i / divisor_of (iSize p))) as [q Hq]; [lia|].
    rewrite Hq. cbn [mbind option_bind]. specialize (Hf _ _ Hq).
    destruct q as [q|].
    + destruct Hf as [Hqs Hq'].
      destruct (IH fuel q _ (i mod divisor_of (iSize p)) ltac:(lia) Hq')
        as (b & -> & Hb); [lia|].
      exists b. by rewrite Hmem.
    + exists false. rewrite Hmem, Hf by done. split; [done|]. split; [done|set_solver].
Qed.

(** ** Counting objects *)

Fixpoint sub_nodes (a : list (option Bitvec)) : Z :=
  match a with
  | [] => 0
  | None :: a => sub_nodes a
  | Some q :: a => nodes q + sub_nodes a
  end.

Definition opt_nodes (q : option Bitvec) : Z :=
  match q with None => 0 | Some q => nodes q end.

Lemma nodes_sub sz k d a : nodes (mkBitvec sz k d (apSub a)) = 1 + sub_nodes a.
Proof. reflexivity. Qed.

Lemma sub_nodes_app a1 a2 : sub_nodes (a1 ++ a2) = sub_nodes a1 + sub_nodes a2.
Proof. induction a1 as [|[q|] a1 IH]; simpl; lia. Qed.

Lemma sub_nodes_update a k q q' a' :
  rd a k = Some q → wr a k (Some q') = Some a' →
  sub_nodes a' = sub_nodes a - opt_nodes q + nodes q'.
Proof.
  intros [Hk Hq]%rd_lookup [_ ->]%wr_Some.
  rewrite <- (take_drop_middle a (Z.to_nat k) q Hq) at 2.
  rewrite (insert_take_drop a (Z.to_nat k)) by (by eapply lookup_lt_Some).
  rewrite !sub_nodes_app. destruct q; simpl; lia.
Qed.

Lemma sub_nodes_empty (n : nat) : sub_nodes (replicate n None) = 0.
Proof. induction n; simpl; lia. Qed.

(** ** Set

    The contract of the code after [i--]: the bit is set unless an allocation
    failed, in which case bits may be lost but none appears; no allocation
    fails when the allocator never fails; and the allocator's count of live
    objects moves with the number of Bitvec objects. *)

Definition is_sub (p : Bitvec) : Prop := ∃ a, union p = apSub a.

(** [s'] is the outcome, with code [rc], of adding [new] to [s]. *)
Definition added (rc : Z) (new s s' : gset Z) : Prop :=
  (rc = SQLITE_OK ∧ s' = new ∪ s) ∨ (rc = SQLITE_NOMEM ∧ s' ⊆ new ∪ s).

Record set_post (n : nat) (p : Bitvec) (s : gset Z) (new : gset Z) (m : mem)
    (rc : Z) (p' : Bitvec) (m' : mem) : Prop := {
  post_size : iSize p' = iSize p;
  post_sub : is_sub p → is_sub p';
  post_rep : ∃ s', bv_rep n p' s' ∧ added rc new s s';
  post_ok : always_ok m → rc = SQLITE_OK ∧ always_ok m';
  post_live : live m' - nodes p' = live m - nodes p;
}.

Definition sets (n fuel : nat) : Prop :=
  ∀ p s i m, bv_rep n p s → 0 ≤ i < iSize p →
  ∃ rc p' m', set_level fuel p i m = Some (rc, p', m') ∧
    set_post n p s {[ i + 1 ]} m rc p' m'.

(** A result that leaves the bitmap alone. *)
Lemma set_post_same n p s i m :
  bv_rep n p s → i ∈ s → set_post n p s {[ i ]} m SQLITE_OK p m.
Proof.
  intros Hp Hi. split; auto; try lia.
  exists s. split; [done|]. left. split; [done|set_solver].
Qed.

Lemma set_post_nomem n p s i m m' :
  bv_rep n p s → sqlite3Malloc m = (false, m') →
  set_post n p s {[ i ]} m SQLITE_NOMEM p m'.
Proof.
  intros Hp Hm. pose proof (sqlite3Malloc_live _ _ _ Hm) as Hl. simpl in Hl.
  split; auto; try lia.
  - exists s. split; [done|]. right. split; [done|set_solver].
  - intros Hok. by destruct (sqlite3Malloc_ok _ _ _ Hok Hm).
Qed.

(** *** The bitmap case *)
Lemma set_bitmap n fuel p s i m a :
  bv_rep n p s → 0 ≤ i < iSize p → union p = aBitmap a →
  ∃ rc p' m', set_level (S fuel) p i m = Some (rc, p', m') ∧
    set_post n p s {[ i + 1 ]} m rc p' m'.
Proof.
  intros Hp Hi Eu. pose proof Hp as (Hsz & Hs & Hu)%bv_rep_unfold. rewrite Eu in Hu.
  destruct Hu as (Hnb & Hd & Hlen & Hby & Hbit). cbn [set_level].
  replace (BITVEC_NBIT <? iSize p) with false by lia. cbn [andb].
  replace (iSize p <=? BITVEC_NBIT) with true by lia. rewrite Eu.
  destruct (bit_index i) as [-> ->].
  assert (0 ≤ i / 8 < zlen a) as Hk by (rewrite Hlen; sizes; zdm).
  destruct (rd_in_bounds a (i / 8)) as [b Hb]; [done|]. rewrite Hb. cbn [mbind option_bind].
  set (b' := u8 (Z.lor b (Z.shiftl 1 (i mod 8)))).
  pose proof (wr_in_bounds a (i / 8) b' Hk) as Hw. rewrite Hw. cbn [mbind option_bind].
  pose proof (bytes_rd _ _ _ Hby Hb) as Hbr.
  assert (∀ j, 0 ≤ j < 8 → Z.testbit b' j = (i mod 8 =? j) || Z.testbit b j) as Hbits.
  { intros j Hj. apply set_bit_spec; [done|zdm|done]. }
  do 3 eexists. split; [done|]. split.
  - done.
  - intros [? ?]. congruence.
  - exists ({[ i + 1 ]} ∪ s). split; [|by left]. apply bv_rep_unfold.
    cbn [iSize nSet iDivisor union set_union].
    split; [done|]. split.
    { intros x [->%elem_of_singleton|Hx]%elem_of_union; [lia|by apply Hs]. }
    split; [done|]. split; [done|]. split; [by rewrite length_insert|]. split.
    { apply Forall_insert; [done|]. apply u8_range. }
    intros j Hj. rewrite elem_of_union, elem_of_singleton, Hbit by done.
    rewrite (bitmap_update a _ i b b' Hlen ltac:(lia) Hb Hw); [|clear j Hj|lia].
    + case_cmp; [|split; [intros [?|?]; [lia|done]|by right]].
      subst j. rewrite Hbits, Z.eqb_refl by zdm. split; [done|by left].
    + intros j Hj Hne. rewrite Hbits by done. by case_cmp.
  - done.
  - destruct p as [? ? ? u]. simpl in Eu. subst u. done.
Qed.

(** *** The sub-bitmap case *)

(** Adding to one bin is adding to the whole. *)
Lemma sub_added D i s s1 (f : Z → gset Z) sz rc :
  0 < D → 0 ≤ i < sz → (∀ x, x ∈ s → 1 ≤ x ≤ sz) →
  (∀ k, 0 ≤ k < sz → (k + 1 ∈ s ↔ k mod D + 1 ∈ f (k / D))) →
  added rc {[ i mod D + 1 ]} (f (i / D)) s1 →
  ∃ s2, added rc {[ i + 1 ]} s s2 ∧ (∀ x, x ∈ s2 → 1 ≤ x ≤ sz) ∧
    ∀ k, 0 ≤ k < sz →
      (k + 1 ∈ s2 ↔ k mod D + 1 ∈ (if k / D =? i / D then s1 else f (k / D))).
Proof.
  intros HD Hi Hs Hmem Hadd.
  assert (s1 ⊆ {[ i mod D + 1 ]} ∪ f (i / D)) as Hsub.
  { destruct Hadd as [[_ ->]|[_ ?]]; done. }
  set (P := λ x, (x - 1) / D = i / D → (x - 1) mod D + 1 ∈ s1).
  exists (filter P ({[ i + 1 ]} ∪ s)).
  assert (∀ x, x ∈ filter P ({[ i + 1 ]} ∪ s) → 1 ≤ x ≤ sz) as Hrange.
  { intros x [_ [->%elem_of_singleton|?]%elem_of_union]%elem_of_filter; [lia|by apply Hs]. }
  split; [|split; [done|]].
  - destruct Hadd as [[-> ->]|[-> _]]; [left|right]; (split; [done|]).
    + apply set_eq. intros x. rewrite elem_of_filter. split; [by intros [_ ?]|].
      intros Hx. split; [|done]. intros Hbin.
      apply elem_of_union in Hx as [->%elem_of_singleton|Hx].
      * replace (i + 1 - 1) with i by lia. set_solver.
      * apply elem_of_union_r. rewrite <- Hbin. apply Hmem; [apply Hs in Hx; lia|].
        by replace (x - 1 + 1) with x by lia.
    + intros x Hx. by apply elem_of_filter in Hx as [_ ?].
  - intros k Hk. rewrite elem_of_filter. subst P. cbn beta.
    replace (k + 1 - 1) with k by lia. destruct (Z.eqb_spec (k / D) (i / D)) as [E|E].
    + split; [naive_solver|]. intros Hin. split; [done|].
      apply Hsub, elem_of_union in Hin as [Hin%elem_of_singleton|Hin].
      * apply elem_of_union_l, elem_of_singleton.
        pose proof (Z.div_mod k D). pose proof (Z.div_mod i D). lia.
      * apply elem_of_union_r. apply Hmem; [done|]. by rewrite E.
    + rewrite <- Hmem, elem_of_union, elem_of_singleton by done.
      split; [|naive_solver]. intros [_ [?|?]]; [|done]. exfalso. apply E. f_equal. lia.
Qed.

Lemma set_sub n fuel p s i m :
  sets n fuel → bv_rep (S n) p s → 0 ≤ i < iSize p → is_sub p →
  ∃ rc p' m', set_level (S fuel) p i m = Some (rc, p', m') ∧
    set_post (S n) p s {[ i + 1 ]} m rc p' m'.
Proof.
  intros IH Hp Hi [a Eu]. pose proof Hp as (Hsz & Hs & Hu)%bv_rep_unfold. rewrite Eu in Hu.
  destruct Hu as (Hnb & Hdiv & Hlen & f & Hf & Hmem). cbn [set_level].
  destruct (divisor_of_spec _ Hnb) as (Hd & Hcap & Hmin & Hnext).
  destruct (bin_range _ _ Hnb Hi) as [Hbin Hmod].
  replace (BITVEC_NBIT <? iSize p) with true by lia. rewrite Hdiv in *.
  replace (divisor_of (iSize p) =? 0) with false by lia. cbn [andb negb]. rewrite Eu.
  set (bin := i / divisor_of (iSize p)) in *. set (j := i mod divisor_of (iSize p)) in *.
  destruct (rd_in_bounds a bin) as [q0 Hq0]; [lia|]. rewrite Hq0. cbn [mbind option_bind].
  (* the sub-bitmap, created if it was missing *)
  assert (∃ q m1,
    (match q0 with Some q => (Some q, m) | None => sqlite3BitvecCreate (divisor_of (iSize p)) m end)
      = (q, m1) ∧
    match q with
    | None => sqlite3Malloc m = (false, m1)
    | Some q => iSize q = divisor_of (iSize p) ∧ bv_rep n q (f bin) ∧
        live m1 - nodes q = live m - opt_nodes q0 ∧ (always_ok m → always_ok m1)
    end) as (q & m1 & -> & Hq).
  { specialize (Hf _ _ Hq0). destruct q0 as [q0|].
    - exists (Some q0), m. split; [done|]. destruct Hf. auto.
    - destruct (sqlite3BitvecCreate (divisor_of (iSize p)) m) as [q m1] eqn:Ec.
      exists q, m1. split; [done|]. pose proof Ec as Ec'. unfold sqlite3BitvecCreate in Ec'.
      destruct (sqlite3Malloc m) as [ok m2] eqn:Em. destruct q as [q|].
      + destruct (create_rep n (divisor_of (iSize p)) m q m1) as (Hr & Hqs & Hqn);
          [split; [lia|apply Hnext, Hsz]|done|].
        rewrite Hf. repeat split; auto.
        * destruct ok; [|done]. injection Ec' as _ <-.
          pose proof (sqlite3Malloc_live _ _ _ Em). simpl in *. lia.
        * intros Hok. destruct ok; [|done]. injection Ec' as _ <-.
          by destruct (sqlite3Malloc_ok _ _ _ Hok Em).
      + destruct ok; [done|]. by injection Ec' as <-. }
  destruct q as [q|].
  2:{ do 3 eexists. split; [done|]. by apply set_post_nomem. }
  destruct Hq as (Hqs & Hq & Hlive & Hok).
  destruct (IH q (f bin) j m1 Hq) as (rc & q' & m' & -> & Hpost); [lia|].
  cbn [mbind option_bind].
  pose proof (wr_in_bounds a bin (Some q') ltac:(lia)) as Hw. rewrite Hw. cbn [mbind option_bind].
  destruct Hpost as [Psize _ (s1 & Hrep1 & Hadd) Pok Plive].
  do 3 eexists. split; [done|]. split.
  - done.
  - intros _. by eexists.
  - destruct (sub_added (divisor_of (iSize p)) i s s1 f (iSize p) rc)
      as (s2 & Hadd2 & Hr2 & Hm2); [lia|done..|].
    exists s2. split; [|done]. apply bv_rep_unfold.
    cbn [iSize nSet iDivisor union set_union]. rewrite Hdiv.
    split; [done|]. split; [done|]. split; [done|]. split; [done|].
    split; [by rewrite length_insert|].
    exists (λ k, if k =? bin then s1 else f k). split; [|done].
    intros k q2 Hk2. rewrite (rd_wr _ _ _ _ _ Hw) in Hk2.
    destruct (Z.eqb_spec bin k) as [<-|Hne].
    + injection Hk2 as <-. rewrite Z.eqb_refl. split; [congruence|done].
    + replace (k =? bin) with false by lia. by apply Hf.
  - intros Hm. apply Pok, Hok, Hm.
  - destruct p as [sz k d u]. simpl in Eu. subst u. unfold set_union. rewrite !nodes_sub.
    rewrite (sub_nodes_update _ _ _ _ _ Hq0 Hw). lia.
Qed.

(** *** The hash case *)

(** Chaining two additions. *)
Lemma added_trans rc1 rc2 new1 new2 s s1 s2 :
  added rc1 new1 s s1 → added rc2 new2 s1 s2 →
  added (Z.lor rc1 rc2) (new2 ∪ new1) s s2.
Proof.
  intros [[-> ->]|[-> H1]] [[-> ->]|[-> H2]]; [left|right..];
    (split; [done|]); set_solver.
Qed.

(** Re-inserting the values of the old hash table, once [p] has been turned
    into sub-bitmaps. *)
Lemma set_values n fuel vs rc p s m :
  sets n fuel → bv_rep (S n) p s → is_sub p →
  (∀ v, v ∈ vs → v ≠ 0 → 1 ≤ v ≤ iSize p) →
  ∃ rc' p' m',
    foldl (λ acc v,
      '(rc, p, m) ← acc;
      if v =? 0 then Some (rc, p, m) else
      '(rc', p, m) ← set_level (S fuel) p (v - 1) m;
      Some (Z.lor rc rc', p, m)) (Some (rc, p, m)) vs = Some (rc', p', m') ∧
    iSize p' = iSize p ∧ is_sub p' ∧
    (∃ s', bv_rep (S n) p' s' ∧ ∀ new s0, added rc new s0 s → added rc' (values vs ∪ new) s0 s') ∧
    (rc = SQLITE_OK → always_ok m → rc' = SQLITE_OK ∧ always_ok m') ∧
    live m' - nodes p' = live m - nodes p.
Proof.
  intros IH. revert rc p s m. induction vs as [|v vs IHvs]; intros rc p s m Hp Hsub Hvs.
  { exists rc, p, m. split; [done|]. split; [done|]. split; [done|]. split; [|auto].
    exists s. split; [done|]. intros new s0. by replace (values [] ∪ new) with new by set_solver. }
  cbn [foldl mbind option_bind]. destruct (Z.eqb_spec v 0) as [->|Hv].
  { destruct (IHvs rc p s m Hp Hsub) as (rc' & p' & m' & E & Hs' & Hsub' & (s' & Hr & Ha) & H).
    { intros w Hw. apply Hvs. by right. }
    exists rc', p', m'. split; [done|]. split; [done|]. split; [done|]. split; [|done].
    exists s'. split; [done|]. intros new s0 Hadd.
    replace (values (0 :: vs)) with (values vs); [by apply Ha|].
    unfold values. by rewrite filter_cons_False by naive_solver. }
  pose proof (Hvs v ltac:(left) Hv) as Hrange.
  destruct (set_sub n fuel p s (v - 1) m IH Hp ltac:(lia) Hsub)
    as (rc1 & p1 & m1 & -> & [P1 P2 (s1 & Hr1 & Ha1) P4 P5]).
  cbn [mbind option_bind]. replace (v - 1 + 1) with v in * by lia.
  destruct (IHvs (Z.lor rc rc1) p1 s1 m1 Hr1 (P2 Hsub))
    as (rc' & p' & m' & E & Hs' & Hsub' & (s' & Hr & Ha) & Hok' & Hlive).
  { intros w Hw. rewrite P1. apply Hvs. by right. }
  exists rc', p', m'. split; [done|]. split; [congruence|]. split; [done|]. split; [|split; [|lia]].
  - exists s'. split; [done|]. intros new s0 Hadd.
    replace (values (v :: vs) ∪ new) with (values vs ∪ ({[ v ]} ∪ new)).
    + apply Ha. by eapply added_trans.
    + unfold values. rewrite filter_cons_True by done. set_solver.
  - intros -> Hm. destruct (P4 Hm) as [-> ?]. by apply Hok'.
Qed.

(** A bitmap whose bins are all missing is empty. *)
Lemma fresh_sub_rep n sz k :
  BITVEC_NBIT < sz ≤ BITVEC_NBIT * BITVEC_NPTR ^ Z.of_nat (S n) →
  bv_rep (S n) (mkBitvec sz k (divisor_of sz)
                  (apSub (replicate (Z.to_nat BITVEC_NPTR) None))) ∅.
Proof.
  intros Hsz. apply bv_rep_unfold. cbn [iSize nSet iDivisor union].
  split; [sizes; lia|]. split; [set_solver|]. split; [lia|]. split; [done|].
  split; [by rewrite length_replicate|]. exists (λ _, ∅). split; [|set_solver].
  intros j q [_ [-> _]%lookup_replicate]%rd_lookup. done.
Qed.

(** The subdivision of a full hash table: everything is re-inserted. *)
Lemma rehash_correct n fuel p s i m a :
  sets n fuel → bv_rep (S n) p s → union p = aHash a → 0 ≤ i < iSize p →
  ∃ rc p' m',
    (let '(ok, m) := sqlite3Malloc m in
     if negb ok then Some (SQLITE_NOMEM, p, m) else
     let p := mkBitvec (iSize p) (nSet p) (divisor_of (iSize p))
                (apSub (replicate (Z.to_nat BITVEC_NPTR) None)) in
     '(rc, p, m) ← set_level (S fuel) p (i + 1 - 1) m;
     '(rc, p, m) ←
       foldl (λ acc v,
         '(rc, p, m) ← acc;
         if v =? 0 then Some (rc, p, m) else
         '(rc', p, m) ← set_level (S fuel) p (v - 1) m;
         Some (Z.lor rc rc', p, m)) (Some (rc, p, m)) a;
     Some (rc, p, sqlite3_free m)) = Some (rc, p', m') ∧
    set_post (S n) p s {[ i + 1 ]} m rc p' m'.
Proof.
  intros IH Hp Eu Hi. pose proof Hp as (Hsz & Hs & Hu)%bv_rep_unfold. rewrite Eu in Hu.
  destruct Hu as (Hnb & Hdiv & Hh & Hheld).
  destruct (sqlite3Malloc m) as [[] m1] eqn:Em; cbn [negb].
  2:{ do 3 eexists. split; [done|]. by apply set_post_nomem. }
  cbv zeta. replace (i + 1 - 1) with i by lia.
  set (p0 := mkBitvec _ _ _ _).
  pose proof (fresh_sub_rep n (iSize p) (nSet p) ltac:(lia)) as Hp0. fold p0 in Hp0.
  assert (is_sub p0) as Hsub0 by (by eexists).
  destruct (set_sub n fuel p0 ∅ i m1 IH Hp0 Hi Hsub0)
    as (rc1 & p1 & m2 & -> & [P1 P2 (s1 & Hr1 & Ha1) P4 P5]).
  cbn [mbind option_bind].
  destruct (set_values n fuel a rc1 p1 s1 m2 IH Hr1 (P2 Hsub0))
    as (rc' & p' & m' & -> & Hs' & Hsub' & (s' & Hr & Ha) & Hok & Hlive).
  { intros v Hv Hv0. rewrite P1. apply Hs, Hheld, held_values, elem_of_values. done. }
  cbn [mbind option_bind]. do 3 eexists. split; [done|].
  assert (nodes p0 = 1 ∧ nodes p = 1) as [Hn0 Hn1].
  { split; [|by destruct p; simpl in Eu; subst].
    unfold p0. by rewrite nodes_sub, sub_nodes_empty. }
  pose proof (sqlite3Malloc_live _ _ _ Em) as Hl. simpl in Hl.
  split.
  - rewrite Hs', P1. done.
  - done.
  - exists s'. split; [done|]. specialize (Ha _ _ Ha1).
    replace (values a) with s in Ha.
    + destruct Ha as [[-> ->]|[-> ?]]; [left|right]; (split; [done|]); set_solver.
    + apply set_eq. intros x. by rewrite Hheld, held_values.
  - intros Hm. destruct (sqlite3Malloc_ok _ _ _ Hm Em) as [_ Hm1].
    destruct (P4 Hm1) as [-> Hm2]. destruct (Hok eq_refl Hm2). done.
  - simpl. lia.
Qed.

(** Storing a new value in the hash table itself. *)
Lemma set_end_correct n p s i m a d :
  bv_rep n p s → 0 ≤ i < iSize p → union p = aHash a →
  nSet p < BITVEC_NINT - 1 → ¬ held a (i + 1) → stops a (home (i + 1)) d →
  ∃ p', bitvec_set_end p a ((home (i + 1) + d) mod BITVEC_NINT) (i + 1) = Some p' ∧
    set_post n p s {[ i + 1 ]} m SQLITE_OK p' m.
Proof.
  intros Hp Hi Eu Hn Hnew Hst. pose proof Hp as (Hsz & Hs & Hu)%bv_rep_unfold.
  rewrite Eu in Hu. destruct Hu as (Hnb & Hdiv & Hh & Hheld).
  destruct (hash_store a (nSet p) (i + 1) d Hh Hn ltac:(lia) Hnew Hst) as (a' & Hw & Ha' & Hh').
  unfold bitvec_set_end. rewrite Hw. cbn [mbind option_bind]. eexists. split; [done|].
  split.
  - done.
  - intros [? ?]. congruence.
  - exists ({[ i + 1 ]} ∪ s). split; [|by left]. apply bv_rep_unfold.
    cbn [iSize nSet iDivisor union]. split; [done|]. split.
    { intros x [->%elem_of_singleton|Hx]%elem_of_union; [lia|by apply Hs]. }
    split; [done|]. split; [done|]. split; [done|].
    intros x. rewrite Hh', elem_of_union, elem_of_singleton, Hheld. done.
  - done.
  - destruct p as [? ? ? u]. simpl in Eu. subst u. done.
Qed.

Lemma set_hash n fuel p s i m a :
  sets n fuel → bv_rep (S n) p s → 0 ≤ i < iSize p → union p = aHash a →
  ∃ rc p' m', set_level (S (S fuel)) p i m = Some (rc, p', m') ∧
    set_post (S n) p s {[ i + 1 ]} m rc p' m'.
Proof.
  intros IH Hp Hi Eu. pose proof Hp as (Hsz & Hs & Hu)%bv_rep_unfold. rewrite Eu in Hu.
  destruct Hu as (Hnb & Hdiv & Hh & Hheld).
  destruct (rehash_correct n fuel p s i m a IH Hp Eu Hi) as (rc & p' & m' & Er & Hpost).
  remember (S fuel) as f eqn:Ef. cbn [set_level]. rewrite Hdiv.
  replace (iSize p <=? BITVEC_NBIT) with false by lia. cbn [Z.eqb negb]. rewrite andb_false_r, Eu.
  cbv zeta. cbv zeta in Er. rewrite Er.
  destruct (hash_stops a (nSet p) (home (i + 1)) Hh) as (d & Hst & Hd).
  assert (home (i + 1) = BITVEC_HASH i) as Eh by (unfold home; f_equal; lia).
  pose proof (hash_met a (nSet p) (i + 1) d Hh ltac:(lia) Hst) as Hmet.
  pose proof (home_range (i + 1)) as Hhome. rewrite <- Eh.
  destruct (stops_inv _ _ _ Hhome Hst) as [[Hx ->]|(x & Hx & Hx0 & Hd0 & _)];
    rewrite Hx; cbn [mbind option_bind].
  - (* no collision *)
    assert (¬ held a (i + 1)) as Hnew.
    { rewrite <- Hmet. intros (? & ? & _). lia. }
    cbn [Z.eqb]. destruct (Z.ltb_spec (nSet p) (BITVEC_NINT - 1)) as [Hroom|Hfull].
    + destruct (set_end_correct (S n) p s i m a 0 Hp Hi Eu Hroom Hnew Hst) as (p1 & E1 & ?).
      rewrite Z.add_0_r, Z.mod_small in E1 by done. rewrite E1. cbn [mbind option_bind]. eauto.
    + replace (BITVEC_MXHASH <=? nSet p) with true by (sizes; lia). eauto.
  - (* a collision *)
    replace (x =? 0) with false by lia.
    destruct (probe_hash_walk HASH_FUEL a (home (i + 1)) d (i + 1))
      as (b & h' & -> & Hb & Hh'); [done|done|done|lia|lia|].
    cbn [mbind option_bind]. destruct b.
    + exists SQLITE_OK, p, m. split; [done|]. apply set_post_same; [done|].
      apply Hheld, Hmet, Hb. done.
    + rewrite Hh' by done. destruct (Z.leb_spec BITVEC_MXHASH (nSet p)); [eauto|].
      assert (¬ held a (i + 1)) as Hnew by (rewrite <- Hmet, <- Hb; done).
      destruct (set_end_correct (S n) p s i m a d Hp Hi Eu) as (p1 & E1 & ?);
        [sizes; lia|done|done|].
      rewrite E1. cbn [mbind option_bind]. eauto.
Qed.

Lemma sets_all n fuel : (2 * n < fuel)%nat → sets n fuel.
Proof.
  revert fuel. induction n as [|n IH]; intros fuel Hf p s i m Hp Hi.
  - destruct fuel as [|fuel]; [lia|].
    pose proof Hp as (Hsz & Hs & Hu)%bv_rep_unfold. destruct (union p) as [a|a|a] eqn:Eu.
    + by eapply set_bitmap.
    + sizes. simpl in Hsz. lia.
    + done.
  - destruct fuel as [|[|fuel]]; [lia..|]. destruct (union p) as [a|a|a] eqn:Eu.
    + by eapply set_bitmap.
    + eapply set_hash; eauto. apply IH. lia.
    + eapply set_sub; eauto; [apply IH; lia|by eexists].
Qed.

(** ** Clear *)

Lemma clear_bitmap n fuel p s i a :
  bv_rep n p s → 0 ≤ i < iSize p → union p = aBitmap a →
  ∃ p', clear_level (S fuel) p i = Some p' ∧ iSize p' = iSize p ∧
    bv_rep n p' (s ∖ {[ i + 1 ]}) ∧ nodes p' = nodes p.
Proof.
  intros Hp Hi Eu. apply bv_rep_unfold in Hp as (Hsz & Hs & Hu). rewrite Eu in Hu.
  destruct Hu as (Hnb & Hd & Hlen & Hby & Hbit). cbn [clear_level].
  rewrite Hd. cbn [Z.eqb negb].
  replace (iSize p <=? BITVEC_NBIT) with true by lia. rewrite Eu.
  destruct (bit_index i) as [-> ->].
  assert (0 ≤ i / 8 < zlen a) as Hk by (rewrite Hlen; sizes; zdm).
  destruct (rd_in_bounds a (i / 8)) as [b Hb]; [done|]. rewrite Hb. cbn [mbind option_bind].
  set (b' := Z.land b (u8 (Z.lnot (Z.shiftl 1 (i mod 8))))).
  pose proof (wr_in_bounds a (i / 8) b' Hk) as Hw. rewrite Hw. cbn [mbind option_bind].
  pose proof (bytes_rd _ _ _ Hby Hb) as Hbr.
  assert (∀ j, 0 ≤ j < 8 → Z.testbit b' j = negb (i mod 8 =? j) && Z.testbit b j) as Hbits.
  { intros j Hj. apply clear_bit_spec; [done|zdm|done]. }
  eexists. split; [done|]. split; [done|]. split.
  - apply bv_rep_unfold. cbn [iSize nSet iDivisor union set_union].
    split; [done|]. split; [set_solver|].
    split; [done|]. split; [done|]. split; [by rewrite length_insert|]. split.
    { apply Forall_insert; [done|]. apply (land_range 8); [done|]. apply u8_range. }
    intros j Hj. rewrite elem_of_difference, elem_of_singleton, Hbit by done.
    rewrite (bitmap_update a _ i b b' Hlen ltac:(lia) Hb Hw); [|clear j Hj|lia].
    + case_cmp; [|split; [by intros [? _]|intros ?; split; [done|lia]]].
      subst j. rewrite Hbits, Z.eqb_refl by zdm. simpl. naive_solver.
    + intros j Hj Hne. rewrite Hbits by done. by case_cmp.
  - destruct p as [? ? ? u]. simpl in Eu. subst u. done.
Qed.

Lemma clear_level_correct n fuel p s i :
  (n < fuel)%nat → bv_rep n p s → 0 ≤ i < iSize p →
  ∃ p', clear_level fuel p i = Some p' ∧ iSize p' = iSize p ∧
    bv_rep n p' (s ∖ {[ i + 1 ]}) ∧ nodes p' = nodes p.
Proof.
  revert n p s i. induction fuel as [|fuel IH]; intros n p s i Hfuel Hp Hi; [lia|].
  pose proof Hp as (Hsz & Hs & Hu)%bv_rep_unfold. destruct (union p) as [a|a|a] eqn:Eu.
  - by eapply clear_bitmap.
  - destruct Hu as (Hnb & Hdiv & Hh & Hheld). cbn [clear_level].
    rewrite Hdiv. cbn [Z.eqb negb].
    replace (iSize p <=? BITVEC_NBIT) with false by lia. rewrite Eu.
    destruct (rebuild_hash_correct i a _ Hh) as (n' & a' & -> & Ha' & Hh').
    cbn [mbind option_bind]. eexists. split; [done|]. split; [done|]. split.
    + apply bv_rep_unfold. cbn [iSize nSet iDivisor union].
      split; [done|]. split; [set_solver|]. split; [done|]. split; [done|]. split; [done|].
      intros x. rewrite Hh', elem_of_difference, elem_of_singleton, Hheld. done.
    + destruct p as [? ? ? u]. simpl in Eu. subst u. done.
  - destruct n as [|n]; [done|]. destruct Hu as (Hnb & Hdiv & Hlen & f & Hf & Hmem).
    cbn [clear_level]. destruct (divisor_of_spec _ Hnb) as (Hd & _).
    destruct (bin_range _ _ Hnb Hi) as [Hbin Hmod]. rewrite Hdiv in *.
    replace (divisor_of (iSize p) =? 0) with false by lia. cbn [negb]. rewrite Eu.
    set (D := divisor_of (iSize p)) in *.
    destruct (rd_in_bounds a (i / D)) as [q Hq]; [lia|]. rewrite Hq. cbn [mbind option_bind].
    pose proof (Hf _ _ Hq) as Hfq. destruct q as [q|].
    2:{ exists p. split; [done|]. split; [done|]. split; [|done].
        replace (s ∖ {[ i + 1 ]}) with s; [done|].
        assert (i + 1 ∉ s) by (rewrite Hmem, Hfq by done; set_solver). set_solver. }
    destruct Hfq as [Hqs Hqr].
    destruct (IH n q _ (i mod D) ltac:(lia) Hqr) as (q' & -> & Hqs' & Hqr' & Hqn); [lia|].
    cbn [mbind option_bind].
    pose proof (wr_in_bounds a (i / D) (Some q') ltac:(lia)) as Hw. rewrite Hw.
    cbn [mbind option_bind]. eexists. split; [done|]. split; [done|]. split.
    + apply bv_rep_unfold. cbn [iSize nSet iDivisor union set_union]. rewrite Hdiv. fold D.
      split; [done|]. split; [set_solver|]. split; [done|]. split; [done|].
      split; [by rewrite length_insert|].
      exists (λ k, if k =? i / D then f k ∖ {[ i mod D + 1 ]} else f k). split.
      * intros k q2 Hk2. rewrite (rd_wr _ _ _ _ _ Hw) in Hk2.
        destruct (Z.eqb_spec (i / D) k) as [<-|Hne].
        { injection Hk2 as <-. rewrite Z.eqb_refl. split; [congruence|done]. }
        replace (k =? i / D) with false by lia. by apply Hf.
      * intros j Hj. rewrite elem_of_difference, elem_of_singleton, Hmem by done.
        assert (j + 1 = i + 1 ↔ j / D = i / D ∧ j mod D = i mod D) as ->.
        { pose proof (Z.div_mod j D). pose proof (Z.div_mod i D).
          split; [intros ?; replace j with i by lia; done|lia]. }
        destruct (Z.eqb_spec (j / D) (i / D)) as [Eb|Eb].
        ** rewrite elem_of_difference, elem_of_singleton. naive_solver lia.
        ** naive_solver.
    + destruct p as [sz k d u]. simpl in Eu. subst u. unfold set_union. rewrite !nodes_sub.
      rewrite (sub_nodes_update _ _ _ _ _ Hq Hw). simpl. lia.
Qed.

(** ** Destroy *)

Lemma destroy_live n p s m :
  bv_rep n p s → live (bitvec_destroy p m) = live m - nodes p.
Proof.
  revert p s m. induction n as [|n IH]; intros p s m Hp;
    apply bv_rep_unfold in Hp as (Hsz & Hs & Hu); destruct p as [sz k d [a|a|a]];
    cbn [union iDivisor iSize nSet] in Hu.
  1,2,4,5: destruct Hu as (_ & -> & _); simpl; lia.
  { done. }
  destruct Hu as (Hnb & Hdiv & Hlen & f & Hf & _).
  destruct (divisor_of_spec sz Hnb) as (Hd & _). rewrite nodes_sub. subst d.
  cbn [bitvec_destroy]. replace (divisor_of sz =? 0) with false by lia. cbn [negb].
  unfold sqlite3_free at 1. cbn [live].
  enough (∀ a m, (∀ q, Some q ∈ a → ∃ s, bv_rep n q s) →
    live ((fix subs (a : list (option Bitvec)) (m : mem) : mem :=
             match a with
             | [] => m
             | q :: a => subs a (match q with None => m | Some q => bitvec_destroy q m end)
             end) a m) = live m - sub_nodes a) as H.
  { rewrite H; [lia|]. intros q [j Hj]%list_elem_of_lookup. rewrite <- rd_nat in Hj.
    apply Hf in Hj as [_ Hj]. by eexists. }
  clear - IH. induction a as [|[q|] a IHa]; intros m Hall; [simpl; lia| |].
  - destruct (Hall q ltac:(left)) as [s Hq]. rewrite IHa, (IH _ _ _ Hq); [simpl; lia|].
    intros q' Hq'. apply Hall. by right.
  - rewrite IHa; [done|]. intros q' Hq'. apply Hall. by right.
Qed.

(** ** The contract of the module

    [bitvec p s]: [p] is a bitmap of at most [2^32 - 1] values that holds the
    set [s]. *)
Definition bitvec (p : Bitvec) (s : gset Z) : Prop :=
  bv_rep BITVEC_DEPTH p s ∧ iSize p < 2 ^ 32.

(** Four levels of sub-bitmaps are enough for 32-bit sizes. *)
Lemma depth_enough sz : 0 ≤ sz < 2 ^ 32 → 0 ≤ sz ≤ BITVEC_NBIT * BITVEC_NPTR ^ Z.of_nat BITVEC_DEPTH.
Proof.
  intros H. sizes. change (3968 * 62 ^ Z.of_nat BITVEC_DEPTH) with 58632501248. lia.
Qed.

Lemma bitvec_create sz m p m' :
  0 ≤ sz < 2 ^ 32 → sqlite3BitvecCreate sz m = (Some p, m') →
  bitvec p ∅ ∧ sqlite3BitvecSize p = sz ∧ nodes p = 1.
Proof.
  intros Hsz Hc. destruct (create_rep BITVEC_DEPTH sz m p m') as (? & E & ?);
    [by apply depth_enough|done|].
  split; [|done]. split; [done|lia].
Qed.

Lemma bitvec_size_bound p s x : bitvec p s → x ∈ s → 1 ≤ x ≤ iSize p.
Proof. intros [(_ & Hs & _)%bv_rep_unfold _]. apply Hs. Qed.

Lemma bitvec_test p s i :
  bitvec p s → 0 ≤ i < 2 ^ 32 →
  sqlite3BitvecTest (Some p) i = Some (bool_decide (i ∈ s)).
Proof.
  intros Hp Hi. pose proof (bitvec_size_bound p s i Hp) as Hb.
  destruct Hp as [Hp Hsz]. unfold sqlite3BitvecTest, sqlite3BitvecTestNotNull.
  destruct (Z.eq_dec i 0) as [->|].
  { change (u32 (0 - 1)) with (2 ^ 32 - 1). replace (iSize p <=? 2 ^ 32 - 1) with true by lia.
    rewrite bool_decide_eq_false_2; [done|]. intros ?%Hb. lia. }
  rewrite u32_id by lia. case_cmp.
  { rewrite bool_decide_eq_false_2; [done|]. intros ?%Hb. lia. }
  destruct (test_level_correct BITVEC_DEPTH (S BITVEC_DEPTH) p s (i - 1)) as (b & -> & Hiff);
    [lia|done|lia|].
  replace (i - 1 + 1) with i in Hiff by lia. f_equal.
  case_bool_decide as Hd; destruct b; naive_solver.
Qed.

(** The general contract of [sqlite3BitvecSet], allocation failures included. *)
Lemma bitvec_set p s i m :
  bitvec p s → 1 ≤ i ≤ iSize p →
  ∃ rc p' m' s', sqlite3BitvecSet (Some p) i m = Some (rc, Some p', m') ∧
    iSize p' = iSize p ∧ bitvec p' s' ∧ added rc {[ i ]} s s' ∧
    (always_ok m → rc = SQLITE_OK ∧ always_ok m') ∧
    live m' - nodes p' = live m - nodes p.
Proof.
  intros [Hp Hsz] Hi. unfold sqlite3BitvecSet. rewrite u32_id by lia.
  destruct (sets_all BITVEC_DEPTH SET_FUEL ltac:(unfold SET_FUEL; lia) p s (i - 1) m Hp)
    as (rc & p' & m' & -> & [P1 _ (s' & Hr & Ha) P4 P5]); [lia|].
  replace (i - 1 + 1) with i in Ha by lia. cbn [mbind option_bind].
  exists rc, p', m', s'. split; [done|]. split; [done|].
  split; [split; [done|lia]|]. auto.
Qed.

Lemma bitvec_clear p s i :
  bitvec p s → 1 ≤ i ≤ iSize p →
  ∃ p', sqlite3BitvecClear (Some p) i = Some (Some p') ∧
    iSize p' = iSize p ∧ bitvec p' (s ∖ {[ i ]}) ∧ nodes p' = nodes p.
Proof.
  intros [Hp Hsz] Hi. unfold sqlite3BitvecClear. rewrite u32_id by lia.
  destruct (clear_level_correct BITVEC_DEPTH (S BITVEC_DEPTH) p s (i - 1))
    as (p' & -> & E & Hr & Hn); [lia|done|lia|].
  replace (i - 1 + 1) with i in Hr by lia. cbn [mbind option_bind].
  exists p'. split; [done|]. split; [done|]. split; [split; [done|lia]|done].
Qed.

#[local] Opaque sqlite3BitvecSet sqlite3BitvecClear sqlite3BitvecTest.

(** A history of updates, and the set it should leave. *)
Inductive bv_op := OpSet (i : Z) | OpClear (i : Z).

Definition op_index (o : bv_op) : Z := match o with OpSet i | OpClear i => i end.

Fixpoint run_ops (ops : list bv_op) (p : option Bitvec) (m : mem)
    : option (Z * option Bitvec * mem) :=
  match ops with
  | [] => Some (SQLITE_OK, p, m)
  | OpSet i :: ops =>
      '(rc, p, m) ← sqlite3BitvecSet p i m;
      '(rc', p, m) ← run_ops ops p m;
      Some (Z.lor rc rc', p, m)
  | OpClear i :: ops => p ← sqlite3BitvecClear p i; run_ops ops p m
  end.

Fixpoint model_ops (ops : list bv_op) (s : gset Z) : gset Z :=
  match ops with
  | [] => s
  | OpSet i :: ops => model_ops ops ({[ i ]} ∪ s)
  | OpClear i :: ops => model_ops ops (s ∖ {[ i ]})
  end.

Lemma run_ops_correct ops p s m :
  bitvec p s → Forall (λ o, 1 ≤ op_index o ≤ iSize p) ops → always_ok m →
  ∃ p' m', run_ops ops (Some p) m = Some (SQLITE_OK, Some p', m') ∧
    bitvec p' (model_ops ops s) ∧ iSize p' = iSize p ∧
    live m' - nodes p' = live m - nodes p.
Proof.
  revert p s m. induction ops as [|[i|i] ops IH]; intros p s m Hp Hops Hm;
    cbn [run_ops model_ops].
  - exists p, m. auto.
  - apply Forall_cons in Hops as [Hi Hops].
    destruct (bitvec_set p s i m Hp Hi) as (rc & p1 & m1 & s1 & -> & E1 & Hp1 & Ha & Hok & Hl).
    destruct (Hok Hm) as [-> Hm1].
    assert (s1 = {[ i ]} ∪ s) as -> by (destruct Ha as [[_ ?]|[? _]]; done).
    cbn [mbind option_bind].
    destruct (IH p1 _ m1 Hp1) as (p' & m' & -> & Hp' & E' & Hl'); [by rewrite E1|done|].
    cbn [mbind option_bind]. exists p', m'. split; [done|]. split; [done|]. lia.
  - apply Forall_cons in Hops as [Hi Hops].
    destruct (bitvec_clear p s i Hp Hi) as (p1 & -> & E1 & Hp1 & Hn).
    cbn [mbind option_bind].
    destruct (IH p1 _ m Hp1) as (p' & m' & -> & Hp' & E' & Hl'); [by rewrite E1|done|].
    exists p', m'. split; [done|]. split; [done|]. lia.
Qed.

(** C1: a Bitvec implements a finite set: after any history of in-range sets and clears, with no
    allocation failure, sqlite3BitvecTest decides membership in the set the history describes, and
    destroying the Bitvec frees every allocation it made. *)
Theorem bitvec_refines_set sz ops m :
  0 ≤ sz < 2 ^ 32 → Forall (λ o, 1 ≤ op_index o ≤ sz) ops → always_ok m →
  ∃ p0 m0 p m', sqlite3BitvecCreate sz m = (p0, m0) ∧
    run_ops ops p0 m0 = Some (SQLITE_OK, Some p, m') ∧
    sqlite3BitvecSize p = sz ∧
    (∀ i, 0 ≤ i < 2 ^ 32 →
       sqlite3BitvecTest (Some p) i = Some (bool_decide (i ∈ model_ops ops ∅))) ∧
    live (sqlite3BitvecDestroy (Some p) m') = live m.
Proof.
  intros Hsz Hops Hm. destruct (sqlite3BitvecCreate sz m) as [q m0] eqn:Ec.
  pose proof Ec as Ec'. unfold sqlite3BitvecCreate in Ec'.
  destruct (sqlite3Malloc m) as [ok m1] eqn:Em.
  destruct (sqlite3Malloc_ok _ _ _ Hm Em) as [-> Hm1]. injection Ec' as Eq Em1.
  subst m1. pose proof (sqlite3Malloc_live _ _ _ Em) as Hl0. simpl in Hl0.
  destruct q as [p0|]; [|done].
  destruct (bitvec_create sz m p0 m0 Hsz Ec) as (Hp0 & Esz & Hn0).
  unfold sqlite3BitvecSize in Esz.
  destruct (run_ops_correct ops p0 ∅ m0 Hp0) as (p & m' & Hrun & Hp & E & Hl);
    [by rewrite Esz|done|].
  exists (Some p0), m0, p, m'. split; [done|]. split; [done|]. split; [unfold sqlite3BitvecSize; congruence|]. split.
  - intros i Hi. by apply bitvec_test.
  - simpl. destruct Hp as [Hp _]. rewrite (destroy_live _ _ _ _ Hp). lia.
Qed.

(** when an allocation fails during sqlite3BitvecSet the call reports SQLITE_NOMEM and leaves a
    well-formed Bitvec that holds no element besides the old ones and the new one, and never leaks;
    otherwise exactly the new element is added. *)
Theorem bitvec_set_oom p s i m :
  bitvec p s → 1 ≤ i ≤ iSize p →
  ∃ rc p' m' s', sqlite3BitvecSet (Some p) i m = Some (rc, Some p', m') ∧
    iSize p' = iSize p ∧ bitvec p' s' ∧
    ((rc = SQLITE_OK ∧ s' = {[ i ]} ∪ s) ∨ (rc = SQLITE_NOMEM ∧ s' ⊆ {[ i ]} ∪ s)) ∧
    live (sqlite3BitvecDestroy (Some p') m') = live (sqlite3BitvecDestroy (Some p) m).
Proof.
  intros Hp Hi. destruct (bitvec_set p s i m Hp Hi)
    as (rc & p' & m' & s' & E & Hs & Hp' & Ha & _ & Hl).
  exists rc, p', m', s'. split; [done|]. split; [done|]. split; [done|]. split; [done|].
  simpl. rewrite (destroy_live _ _ _ _ (proj1 Hp)), (destroy_live _ _ _ _ (proj1 Hp')). lia.
Qed.

(** ** Witnesses *)

Definition ops_ex : list bv_op := [OpSet 3; OpSet 5000; OpSet 77; OpClear 3].

Lemma bitvec_refines_set_witness :
  ∃ p0 m0 p m', sqlite3BitvecCreate 5000 (Mem [] 0) = (p0, m0) ∧
    run_ops ops_ex p0 m0 = Some (SQLITE_OK, Some p, m') ∧
    sqlite3BitvecSize p = 5000 ∧
    (∀ i, 0 ≤ i < 2 ^ 32 →
       sqlite3BitvecTest (Some p) i = Some (bool_decide (i ∈ model_ops ops_ex ∅))) ∧
    live (sqlite3BitvecDestroy (Some p) m') = live (Mem [] 0).
Proof.
  apply (bitvec_refines_set 5000 ops_ex (Mem [] 0)); [lia|repeat constructor; simpl; lia|constructor].
Defined.

Definition bv_ex : Bitvec :=
  match sqlite3BitvecCreate 5000 (Mem [] 0) with
  | (Some p, _) => p
  | (None, _) => mkBitvec 0 0 0 (aBitmap [])
  end.

Lemma bitvec_set_oom_witness :
  ∃ rc p' m' s', sqlite3BitvecSet (Some bv_ex) 77 (Mem [false] 1) = Some (rc, Some p', m') ∧
    iSize p' = iSize bv_ex ∧ bitvec p' s' ∧
    ((rc = SQLITE_OK ∧ s' = {[ 77 ]} ∪ ∅) ∨ (rc = SQLITE_NOMEM ∧ s' ⊆ {[ 77 ]} ∪ ∅)) ∧
    live (sqlite3BitvecDestroy (Some p') m') = live (sqlite3BitvecDestroy (Some bv_ex) (Mem [false] 1)).
Proof.
  apply (bitvec_set_oom bv_ex ∅ 77 (Mem [false] 1)).
  - apply (bitvec_create 5000 (Mem [] 0) bv_ex (Mem [] 1)); [lia|reflexivity].
  - vm_compute. split; discriminate.
Defined.
