(* ===== verification/RowSet.v ===== *)
(** * RowSet: the rowid collection of the VDBE (rowset.c)

    Entries live in a store, one finite map per field, because the code threads
    the same objects through lists, trees and the forest by overwriting their
    pointers in place.  A field that was never written is absent from its map,
    so that reading uninitialised or freed memory has no result. *)
From S2P Require Import Prelude.

(** ** The store of RowSetEntry objects *)
Record store := Store {
  s_v : gmap Z Z;                     (* RowSetEntry.v *)
  s_right : gmap Z (option Z);        (* RowSetEntry.pRight *)
  s_left : gmap Z (option Z);         (* RowSetEntry.pLeft *)
}.

Definition set_v (a x : Z) (s : store) : store :=
  Store (<[a := x]> (s_v s)) (s_right s) (s_left s).
Definition set_right (a : Z) (p : option Z) (s : store) : store :=
  Store (s_v s) (<[a := p]> (s_right s)) (s_left s).
Definition set_left (a : Z) (p : option Z) (s : store) : store :=
  Store (s_v s) (s_right s) (<[a := p]> (s_left s)).

Definition free_entry (a : Z) (s : store) : store :=
  Store (delete a (s_v s)) (delete a (s_right s)) (delete a (s_left s)).

(** An upper bound on the number of entries, used as fuel. *)
Definition entries (s : store) : nat := S (size (s_v s)).

(** What lies outside one RowSet: the store, the next unused address and the
    allocator.  Addresses count entries. *)
Record world := World { st : store; brk : Z; am : mem }.

(** ** The RowSet object *)
Definition ROWSET_ALLOCATION_SIZE : Z := 1024.
Definition sizeof_RowSetEntry : Z := 24.
Definition sizeof_RowSet : Z := 56.
Definition ROWSET_ENTRY_PER_CHUNK : Z := (ROWSET_ALLOCATION_SIZE - 8) / sizeof_RowSetEntry.

Definition ROWSET_SORTED : Z := 1.
Definition ROWSET_NEXT : Z := 2.

Record RowSet := mkRowSet {
  pChunk : list Z;            (* base addresses of the chunks, newest first *)
  pEntry : option Z;
  pLast : option Z;
  pFresh : Z;
  pForest : option Z;
  nFresh : Z;
  rsFlags : Z;
  iBatch : Z;
}.

(** The flag test [rsFlags & f]. *)
Definition flag (p : RowSet) (f : Z) : bool := negb (Z.land (rsFlags p) f =? 0).

(** [N] is what [sqlite3DbMallocSize] reports for the new object; the room after
    the RowSet proper is a first pool of entries. *)
Definition sqlite3RowSetInit (N : Z) (w : world) : option RowSet * world :=
  let '(ok, m) := sqlite3Malloc (am w) in
  if ok then
    let n := u16 ((N - sizeof_RowSet) / sizeof_RowSetEntry) in
    (Some (mkRowSet [] None None (brk w) None n ROWSET_SORTED 0),
     World (st w) (brk w + n) m)
  else (None, World (st w) (brk w) m).

Definition free_chunk (w : world) (base : Z) : world :=
  World (foldl (λ s a, free_entry a s) (st w) (seqZ base ROWSET_ENTRY_PER_CHUNK))
    (brk w) (sqlite3_free (am w)).

Definition sqlite3RowSetClear (p : RowSet) (w : world) : RowSet * world :=
  (mkRowSet [] None None (pFresh p) None 0 ROWSET_SORTED (iBatch p),
   foldl free_chunk w (pChunk p)).

Definition sqlite3RowSetDelete (p : RowSet) (w : world) : world :=
  let '(_, w) := sqlite3RowSetClear p w in
  World (st w) (brk w) (sqlite3_free (am w)).

Definition rowSetEntryAlloc (p : RowSet) (w : world) : option Z * RowSet * world :=
  let take p w :=
    (Some (pFresh p),
     mkRowSet (pChunk p) (pEntry p) (pLast p) (pFresh p + 1) (pForest p)
       (u16 (nFresh p - 1)) (rsFlags p) (iBatch p), w) in
  if nFresh p =? 0 then
    let '(ok, m) := sqlite3Malloc (am w) in
    if ok then
      take (mkRowSet (brk w :: pChunk p) (pEntry p) (pLast p) (brk w) (pForest p)
              ROWSET_ENTRY_PER_CHUNK (rsFlags p) (iBatch p))
           (World (st w) (brk w + ROWSET_ENTRY_PER_CHUNK) m)
    else (None, p, World (st w) (brk w) m)
  else take p w.

Definition sqlite3RowSetInsert (p : RowSet) (rowid : Z) (w : world)
    : option (RowSet * world) :=
  let '(pE, p, w) := rowSetEntryAlloc p w in
  match pE with
  | None => Some (p, w)
  | Some e =>
      let s := set_right e None (set_v e rowid (st w)) in
      match pLast p with
      | Some l =>
          lv ← s_v s !! l;
          let flags := if rowid <=? lv then Z.land (rsFlags p) (Z.lnot ROWSET_SORTED)
                       else rsFlags p in
          Some (mkRowSet (pChunk p) (pEntry p) (Some e) (pFresh p) (pForest p)
                  (nFresh p) flags (iBatch p),
                World (set_right l (Some e) s) (brk w) (am w))
      | None =>
          Some (mkRowSet (pChunk p) (Some e) (Some e) (pFresh p) (pForest p)
                  (nFresh p) (rsFlags p) (iBatch p),
                World s (brk w) (am w))
      end
  end.

(** ** Merging and sorting lists *)

(** The local variable [head] of the merge. *)
Definition HEAD : Z := -1.

Fixpoint merge_loop (fuel : nat) (s : store) (pTail pA pB : Z) : option store :=
  match fuel with
  | O => None
  | S fuel' =>
      va ← s_v s !! pA;
      vb ← s_v s !! pB;
      if va <=? vb then
        let '(s, pTail) := if va <? vb then (set_right pTail (Some pA) s, pA)
                           else (s, pTail) in
        nA ← s_right s !! pA;
        match nA with
        | None => Some (set_right pTail (Some pB) s)
        | Some pA => merge_loop fuel' s pTail pA pB
        end
      else
        let s := set_right pTail (Some pB) s in
        let pTail := pB in
        nB ← s_right s !! pB;
        match nB with
        | None => Some (set_right pTail (Some pA) s)
        | Some pB => merge_loop fuel' s pTail pA pB
        end
  end.

Definition rowSetEntryMerge (s : store) (pA pB : Z) : option (store * option Z) :=
  s ← merge_loop (entries s) s HEAD pA pB;
  p ← s_right s !! HEAD;
  Some (Store (s_v s) (delete HEAD (s_right s)) (s_left s), p).

(** [for(i=0; aBucket[i]; i++)], which ends by storing [pIn] in the first empty
    bucket. *)
Fixpoint bucket_loop (fuel : nat) (s : store) (aBucket : list (option Z)) (i pIn : Z)
    : option (store * list (option Z)) :=
  match fuel with
  | O => None
  | S fuel' =>
      b ← aBucket.[i];
      match b with
      | None => aBucket ← wr aBucket i (Some pIn); Some (s, aBucket)
      | Some b =>
          '(s, p) ← rowSetEntryMerge s b pIn;
          pIn ← p;
          aBucket ← wr aBucket i None;
          bucket_loop fuel' s aBucket (i + 1) pIn
      end
  end.

Definition NBUCKET : Z := 40.

Fixpoint sort_loop (fuel : nat) (s : store) (aBucket : list (option Z)) (pIn : option Z)
    : option (store * list (option Z)) :=
  match pIn with
  | None => Some (s, aBucket)
  | Some pIn =>
      match fuel with
      | O => None
      | S fuel' =>
          pNext ← s_right s !! pIn;
          let s := set_right pIn None s in
          '(s, aBucket) ← bucket_loop (S (Z.to_nat NBUCKET)) s aBucket 0 pIn;
          sort_loop fuel' s aBucket pNext
      end
  end.

Definition rowSetEntrySort (s : store) (pIn : option Z) : option (store * option Z) :=
  '(s, aBucket) ← sort_loop (entries s) s (replicate (Z.to_nat NBUCKET) None) pIn;
  pIn ← aBucket.[0];
  foldl (λ acc i,
    '(s, pIn) ← acc;
    b ← aBucket.[i];
    match b with
    | None => Some (s, pIn)
    | Some b =>
        match pIn with
        | Some pIn => rowSetEntryMerge s pIn b
        | None => Some (s, Some b)
        end
    end) (Some (s, pIn)) (seqZ 1 (NBUCKET - 1)).

(** ** Trees *)

(** The result is the store and the values written through [ppFirst] and
    [ppLast]. *)
Fixpoint rowSetTreeToList (fuel : nat) (s : store) (pIn : Z) : option (store * Z * Z) :=
  match fuel with
  | O => None
  | S fuel' =>
      pL ← s_left s !! pIn;
      '(s, first) ← match pL with
                    | Some l =>
                        '(s, first, p) ← rowSetTreeToList fuel' s l;
                        Some (set_right p (Some pIn) s, first)
                    | None => Some (s, pIn)
                    end;
      pR ← s_right s !! pIn;
      match pR with
      | Some r =>
          '(s, f, last) ← rowSetTreeToList fuel' s r;
          Some (set_right pIn (Some f) s, first, last)
      | None => Some (s, first, pIn)
      end
  end.

(** The result is the store, the returned root and the new value of [*ppList]. *)
Fixpoint rowSetNDeepTree (iDepth : nat) (s : store) (ppList : option Z)
    : option (store * option Z * option Z) :=
  match ppList with
  | None => Some (s, None, None)
  | Some p0 =>
      match iDepth with
      | S (S _ as d) =>
          '(s, pLeft, list) ← rowSetNDeepTree d s ppList;
          match list with
          | None => Some (s, pLeft, None)
          | Some p =>
              let s := set_left p pLeft s in
              list ← s_right s !! p;
              '(s, r, list) ← rowSetNDeepTree d s list;
              Some (set_right p r s, Some p, list)
          end
      | _ =>
          list ← s_right s !! p0;
          Some (set_right p0 None (set_left p0 None s), Some p0, list)
      end
  end.

Fixpoint list_to_tree_loop (fuel : nat) (iDepth : nat) (s : store) (p : Z) (pList : option Z)
    : option (store * Z) :=
  match pList with
  | None => Some (s, p)
  | Some q =>
      match fuel with
      | O => None
      | S fuel' =>
          let pLeft := p in
          let p := q in
          pList ← s_right s !! p;
          let s := set_left p (Some pLeft) s in
          '(s, r, pList) ← rowSetNDeepTree iDepth s pList;
          list_to_tree_loop fuel' (S iDepth) (set_right p r s) p pList
      end
  end.

Definition rowSetListToTree (s : store) (pList : Z) : option (store * Z) :=
  let p := pList in
  pList ← s_right s !! p;
  let s := set_right p None (set_left p None s) in
  list_to_tree_loop (entries s) 1 s p pList.

(** ** Next *)
Definition sqlite3RowSetNext (p : RowSet) (w : world)
    : option (bool * Z * RowSet * world) :=
  '(p, w) ←
    (if negb (flag p ROWSET_NEXT) then
       '(s, e) ← (if negb (flag p ROWSET_SORTED) then rowSetEntrySort (st w) (pEntry p)
                  else Some (st w, pEntry p));
       Some (mkRowSet (pChunk p) e (pLast p) (pFresh p) (pForest p) (nFresh p)
               (Z.lor (rsFlags p) (Z.lor ROWSET_SORTED ROWSET_NEXT)) (iBatch p),
             World s (brk w) (am w))
     else Some (p, w));
  match pEntry p with
  | Some e =>
      rowid ← s_v (st w) !! e;
      nxt ← s_right (st w) !! e;
      let p := mkRowSet (pChunk p) nxt (pLast p) (pFresh p) (pForest p) (nFresh p)
                 (rsFlags p) (iBatch p) in
      let '(p, w) := match nxt with None => sqlite3RowSetClear p w | Some _ => (p, w) end in
      Some (true, rowid, p, w)
  | None => Some (false, 0, p, w)
  end.

(** ** Test *)

(** [for(pTree = pForest; pTree; pTree=pTree->pRight)] of the insertion of the
    sorted list [p] into the forest.  The result is the store, the list still to
    be stored and, when the loop ran to the end of the forest, the last forest
    entry ([ppPrevTree]) or [None] for [&pRowSet->pForest]. *)
Fixpoint forest_loop (fuel : nat) (s : store) (prev pTree : option Z) (p : Z)
    : option (store * option (option Z * Z)) :=
  match pTree with
  | None => Some (s, Some (prev, p))
  | Some t =>
      match fuel with
      | O => None
      | S fuel' =>
          l ← s_left s !! t;
          match l with
          | None =>
              '(s, root) ← rowSetListToTree s p;
              Some (set_left t (Some root) s, None)
          | Some l =>
              '(s, pAux, pTail) ← rowSetTreeToList (entries s) s l;
              let s := set_left t None s in
              '(s, p) ← rowSetEntryMerge s pAux p;
              p ← p;
              nxt ← s_right s !! t;
              forest_loop fuel' s (Some t) nxt p
          end
      end
  end.

(** The [while( p )] search of one tree. *)
Fixpoint tree_search (fuel : nat) (s : store) (p : option Z) (iRowid : Z) : option bool :=
  match p with
  | None => Some false
  | Some p =>
      match fuel with
      | O => None
      | S fuel' =>
          v ← s_v s !! p;
          if v <? iRowid then r ← s_right s !! p; tree_search fuel' s r iRowid
          else if iRowid <? v then l ← s_left s !! p; tree_search fuel' s l iRowid
          else Some true
      end
  end.

Fixpoint forest_search (fuel : nat) (s : store) (pTree : option Z) (iRowid : Z) : option bool :=
  match pTree with
  | None => Some false
  | Some t =>
      match fuel with
      | O => None
      | S fuel' =>
          p ← s_left s !! t;
          found ← tree_search (entries s) s p iRowid;
          if (found : bool) then Some true
          else nxt ← s_right s !! t; forest_search fuel' s nxt iRowid
      end
  end.

(** Moving the pending entries into the forest at the first test of a batch. *)
Definition flush_pending (p : RowSet) (w : world) : option (RowSet * world) :=
  match pEntry p with
  | None => Some (p, w)
  | Some e =>
      '(s, e) ← (if negb (flag p ROWSET_SORTED) then rowSetEntrySort (st w) (Some e)
                 else Some (st w, Some e));
      e ← e;
      '(s, rest) ← forest_loop (entries s) s None (pForest p) e;
      let w := World s (brk w) (am w) in
      '(p, w) ←
        match rest with
        | None => Some (p, w)
        | Some (prev, e) =>
            let '(t, p, w) := rowSetEntryAlloc p w in
            (* *ppPrevTree = pTree *)
            let '(forest, s) := match prev with
                                | None => (t, st w)
                                | Some f => (pForest p, set_right f t (st w))
                                end in
            let p := mkRowSet (pChunk p) (pEntry p) (pLast p) (pFresh p) forest
                       (nFresh p) (rsFlags p) (iBatch p) in
            match t with
            | None => Some (p, World s (brk w) (am w))
            | Some t =>
                let s := set_right t None (set_v t 0 s) in
                '(s, root) ← rowSetListToTree s e;
                Some (p, World (set_left t (Some root) s) (brk w) (am w))
            end
        end;
      Some (mkRowSet (pChunk p) None None (pFresh p) (pForest p) (nFresh p)
              (Z.lor (rsFlags p) ROWSET_SORTED) (iBatch p), w)
  end.

Definition sqlite3RowSetTest (p : RowSet) (iBatch' iRowid : Z) (w : world)
    : option (bool * RowSet * world) :=
  '(p, w) ←
    (if negb (iBatch' =? iBatch p) then
       '(p, w) ← flush_pending p w;
       Some (mkRowSet (pChunk p) (pEntry p) (pLast p) (pFresh p) (pForest p) (nFresh p)
               (rsFlags p) iBatch', w)
     else Some (p, w));
  found ← forest_search (entries (st w)) (st w) (pForest p) iRowid;
  Some (found, p, w).

(** Runs of the model. *)
Definition w0 : world := World (Store ∅ ∅ ∅) 0 (Mem [] 0).

Definition insert_list (l : list Z) (p : RowSet) (w : world) : option (RowSet * world) :=
  foldl (λ acc x, '(p, w) ← acc; sqlite3RowSetInsert p x w) (Some (p, w)) l.

Fixpoint drain (fuel : nat) (p : RowSet) (w : world) : option (list Z * RowSet * world) :=
  match fuel with
  | O => None
  | S fuel' =>
      '(more, x, p, w) ← sqlite3RowSetNext p w;
      if (more : bool) then '(l, p, w) ← drain fuel' p w; Some (x :: l, p, w)
      else Some ([], p, w)
  end.

Example drain_ex :
  (let '(p, w) := sqlite3RowSetInit 100 w0 in
   p ← p; '(p, w) ← insert_list [5; 3; 9; 3; 1; 5; 7; -2] p w;
   '(l, p, w) ← drain 20 p w; Some (l, live (am w))) = Some ([-2; 1; 3; 5; 7; 9], 1).
Proof. vm_compute. reflexivity. Qed.

Example test_ex :
  (let '(p, w) := sqlite3RowSetInit 100 w0 in
   p ← p; '(p, w) ← insert_list [5; 3; 9; 3; 1; 5; 7; -2] p w;
   '(b1, p, w) ← sqlite3RowSetTest p 1 7 w;
   '(p, w) ← insert_list [8; 6] p w;
   '(b2, p, w) ← sqlite3RowSetTest p 1 8 w;
   '(b3, p, w) ← sqlite3RowSetTest p 2 8 w;
   '(b4, p, w) ← sqlite3RowSetTest p 2 4 w;
   '(b5, p, w) ← sqlite3RowSetTest p 2 9 w;
   Some ([b1; b2; b3; b4; b5])) = Some [true; false; true; false; true].
Proof. vm_compute. reflexivity. Qed.

(** ** Lists and trees in the store *)

(** A node is an address and the value stored there. *)
Abbreviation node := (Z * Z)%type.
Abbreviation addrs l := (l.*1).
Abbreviation vals l := (l.*2).
Implicit Types (l : list node) (s : store) (D : list Z).

(** [lseg s p l q]: following pRight from [p] meets the nodes [l] and then [q]. *)
Fixpoint lseg s (p : option Z) l (q : option Z) : Prop :=
  match l with
  | [] => p = q
  | (a, x) :: l =>
      p = Some a ∧ s_v s !! a = Some x ∧ ∃ n, s_right s !! a = Some n ∧ lseg s n l q
  end.

Definition lst s p l : Prop := lseg s p l None.

(** [s'] differs from [s] only in the pointers of the entries [D]. *)
Record unch D s s' : Prop := {
  unch_v : s_v s' = s_v s;
  unch_right : ∀ a, a ∉ D → s_right s' !! a = s_right s !! a;
  unch_left : ∀ a, a ∉ D → s_left s' !! a = s_left s !! a;
}.

Lemma unch_refl D s : unch D s s.
Proof. done. Qed.

Lemma unch_trans D D1 D2 s s1 s2 :
  unch D1 s s1 → unch D2 s1 s2 → D1 ⊆ D → D2 ⊆ D → unch D s s2.
Proof.
  intros [V1 R1 L1] [V2 R2 L2] H1 H2. split; [congruence|..]; intros a Ha.
  - rewrite R2, R1; [done| |]; set_solver.
  - rewrite L2, L1; [done| |]; set_solver.
Qed.

Lemma unch_mono D D' s s' : unch D s s' → D ⊆ D' → unch D' s s'.
Proof. intros [V R L] H. split; [done|..]; intros a Ha; [apply R|apply L]; set_solver. Qed.

Lemma unch_set_right D a p s : a ∈ D → unch D s (set_right a p s).
Proof.
  intros Ha. split; [done|..]; intros b Hb; simpl; [|done].
  apply lookup_insert_ne. congruence.
Qed.

Lemma unch_set_left D a p s : a ∈ D → unch D s (set_left a p s).
Proof.
  intros Ha. split; [done|..]; intros b Hb; simpl; [done|].
  apply lookup_insert_ne. congruence.
Qed.

Lemma lseg_frame D s s' p l q :
  unch D s s' → (∀ a, a ∈ addrs l → a ∉ D) → lseg s p l q → lseg s' p l q.
Proof.
  intros Hu. revert p. induction l as [|[a x] l IH]; intros p Hl; simpl; [done|].
  intros (-> & Hv & n & Hn & H). split; [done|]. split; [by rewrite (unch_v _ _ _ Hu)|].
  exists n. split; [|apply IH; [set_solver|done]].
  rewrite (unch_right _ _ _ Hu); [done|]. apply Hl. set_solver.
Qed.

Lemma lseg_app s p l1 l2 q :
  lseg s p (l1 ++ l2) q ↔ ∃ m, lseg s p l1 m ∧ lseg s m l2 q.
Proof.
  revert p. induction l1 as [|[a x] l1 IH]; intros p; simpl; [naive_solver|].
  split.
  - intros (-> & Hv & n & Hn & (m & ? & ?)%IH). exists m. naive_solver.
  - intros (m & (-> & Hv & n & Hn & ?) & ?). split; [done|]. split; [done|].
    exists n. split; [done|]. apply IH. eauto.
Qed.

(** Redirecting the last entry of a segment. *)
Lemma lseg_snoc_set s p l a x q q' :
  lseg s p (l ++ [(a, x)]) q → a ∉ addrs l → lseg (set_right a q' s) p (l ++ [(a, x)]) q'.
Proof.
  intros (m & H1 & (-> & Hv & n & Hn & _))%lseg_app Ha. apply lseg_app.
  exists (Some a). split.
  - eapply (lseg_frame [a]); [apply unch_set_right; set_solver|set_solver|done].
  - simpl. split; [done|]. split; [done|]. exists q'. by rewrite lookup_insert_eq.
Qed.

Lemma lst_Some s a l : lst s (Some a) l → ∃ x l', l = (a, x) :: l'.
Proof. destruct l as [|[b x] l]; simpl; [done|]. intros ([= ->] & _). eauto. Qed.

Lemma lst_v s p l a x : lst s p l → (a, x) ∈ l → s_v s !! a = Some x.
Proof.
  unfold lst. revert p. induction l as [|[b y] l IH]; intros p; simpl.
  - set_solver.
  - intros (-> & Hv & n & Hn & H) [[= -> ->]|Hin]%elem_of_cons; [done|by eapply IH].
Qed.

(** The fuel computed from the store covers any duplicate-free set of entries. *)
Lemma entries_enough s (A : list Z) :
  NoDup A → (∀ a, a ∈ A → is_Some (s_v s !! a)) → (length A < entries s)%nat.
Proof.
  intros Hnd HA. unfold entries. rewrite <- size_dom.
  assert (size (list_to_set A : gset Z) ≤ size (dom (s_v s)))%nat as H.
  { apply subseteq_size. intros a Ha%elem_of_list_to_set. by apply elem_of_dom, HA. }
  rewrite size_list_to_set in H by done. lia.
Qed.

(** ** Merge *)

Fixpoint mrg la : list node → list node :=
  match la with
  | [] => λ lb, lb
  | (a, x) :: la' =>
      fix mrg_b lb :=
        match lb with
        | [] => la
        | (b, y) :: lb' =>
            if x <=? y then
              if x <? y then (a, x) :: mrg la' lb else mrg la' lb
            else (b, y) :: mrg_b lb'
        end
  end.

#[global] Arguments mrg : simpl never.

Lemma mrg_cons a x la b y lb :
  mrg ((a, x) :: la) ((b, y) :: lb) =
    if x <=? y then
      if x <? y then (a, x) :: mrg la ((b, y) :: lb) else mrg la ((b, y) :: lb)
    else (b, y) :: mrg ((a, x) :: la) lb.
Proof. done. Qed.

Lemma mrg_nil_r la : mrg la [] = la.
Proof. by destruct la as [|[a x] la]. Qed.

(** Induction along the comparisons of the merge. *)
Lemma mrg_ind (P : list node → list node → list node → Prop) :
  (∀ lb, P [] lb lb) → (∀ la, P la [] la) →
  (∀ a x la b y lb, x < y → P la ((b, y) :: lb) (mrg la ((b, y) :: lb)) →
     P ((a, x) :: la) ((b, y) :: lb) ((a, x) :: mrg la ((b, y) :: lb))) →
  (∀ a x la b lb, P la ((b, x) :: lb) (mrg la ((b, x) :: lb)) →
     P ((a, x) :: la) ((b, x) :: lb) (mrg la ((b, x) :: lb))) →
  (∀ a x la b y lb, y < x → P ((a, x) :: la) lb (mrg ((a, x) :: la) lb) →
     P ((a, x) :: la) ((b, y) :: lb) ((b, y) :: mrg ((a, x) :: la) lb)) →
  ∀ la lb, P la lb (mrg la lb).
Proof.
  intros H1 H2 H3 H4 H5. induction la as [|[a x] la IHa]; [done|].
  induction lb as [|[b y] lb IHb]; [by rewrite mrg_nil_r|].
  rewrite mrg_cons. destruct (Z.leb_spec x y); [|by apply H5].
  destruct (Z.ltb_spec x y); [by apply H3|].
  assert (x = y) as -> by lia. by apply H4.
Qed.

Lemma mrg_submseteq la lb : mrg la lb ⊆+ la ++ lb.
Proof.
  apply (mrg_ind (λ la lb l, l ⊆+ la ++ lb)); clear la lb.
  - done.
  - intros la. by rewrite app_nil_r.
  - intros. by apply submseteq_skip.
  - intros. simpl. by apply submseteq_cons.
  - intros a x la b y lb _ IH. rewrite <- Permutation_middle. by apply submseteq_skip.
Qed.

Lemma mrg_vals la lb x : x ∈ vals (mrg la lb) ↔ x ∈ vals la ∨ x ∈ vals lb.
Proof.
  apply (mrg_ind (λ la lb l, x ∈ vals l ↔ x ∈ vals la ∨ x ∈ vals lb)); clear la lb;
    intros; simpl; rewrite ?fmap_cons, ?elem_of_cons in *; simpl in *; set_solver.
Qed.

Abbreviation sorted l := (StronglySorted Z.lt (vals l)).

Lemma mrg_lower la lb z :
  Forall (Z.lt z) (vals la) → Forall (Z.lt z) (vals lb) → Forall (Z.lt z) (vals (mrg la lb)).
Proof.
  rewrite !Forall_forall. intros Ha Hb y [?|?]%mrg_vals; auto.
Qed.

Lemma sorted_cons a x l : sorted ((a, x) :: l) ↔ Forall (Z.lt x) (vals l) ∧ sorted l.
Proof.
  rewrite fmap_cons. split; [by inversion 1|]. intros [? ?]. by constructor.
Qed.

Lemma mrg_sorted la lb : sorted la → sorted lb → sorted (mrg la lb).
Proof.
  apply (mrg_ind (λ la lb l, sorted la → sorted lb → sorted l)); clear la lb; try done.
  - intros a x la b y lb Hlt IH [Hx Ha]%sorted_cons Hb. apply sorted_cons.
    split; [|by apply IH]. apply mrg_lower; [done|].
    apply sorted_cons in Hb as [Hy _]. rewrite fmap_cons. constructor; [done|].
    eapply Forall_impl; [done|]. simpl. lia.
  - intros a x la b lb IH [_ Ha]%sorted_cons Hb. by apply IH.
  - intros a x la b y lb Hlt IH Ha [Hy Hb]%sorted_cons. apply sorted_cons.
    split; [|by apply IH]. apply mrg_lower; [|done].
    apply sorted_cons in Ha as [Hx _]. rewrite fmap_cons. constructor; [done|].
    eapply Forall_impl; [done|]. simpl. lia.
Qed.

(** [merged s t D l s']: behind the entry [t], whose pointer was overwritten, [s']
    holds the list [l], and only entries of [D] were otherwise changed. *)
Definition merged s (t : Z) D l s' : Prop :=
  unch (t :: D) s s' ∧ s_left s' = s_left s ∧
  ∃ p, s_right s' !! t = Some p ∧ lst s' p l.

Lemma lst_None s l : lst s None l → l = [].
Proof. destruct l as [|[a x] l]; [done|]. by intros [? _]. Qed.

Lemma lseg_set_right s a p q l q' :
  a ∉ addrs l → lseg s q l q' → lseg (set_right a p s) q l q'.
Proof. intros Ha. apply (lseg_frame [a]); [apply unch_set_right; set_solver|set_solver]. Qed.

(** One list is exhausted: the other is linked whole. *)
Lemma merged_end s t b lb D :
  lst s (Some b) lb → t ∉ addrs lb → merged s t D lb (set_right t (Some b) s).
Proof.
  intros Hb Ht. split; [apply unch_set_right; set_solver|]. split; [done|].
  exists (Some b). split; [by apply lookup_insert_eq|]. by apply lseg_set_right.
Qed.

(** A node is linked and the merge goes on behind it. *)
Lemma merged_cons s t a x D l s' :
  s_v s !! a = Some x → t ≠ a → t ∉ D → a ∈ D →
  merged (set_right t (Some a) s) a D l s' → merged s t D ((a, x) :: l) s'.
Proof.
  intros Hv Hta HtD HaD (Hu & Hl & p & Hp & Hlst).
  split; [eapply unch_trans; [apply (unch_set_right [t])|exact Hu|..]; set_solver|].
  split; [done|]. exists (Some a). split.
  { rewrite (unch_right _ _ _ Hu) by set_solver. by apply lookup_insert_eq. }
  split; [done|]. split; [by rewrite (unch_v _ _ _ Hu)|]. eauto.
Qed.

Lemma merged_mono s t D D' l s' : merged s t D l s' → D ⊆ D' → merged s t D' l s'.
Proof. intros (Hu & Hrest) Hsub. split; [|done]. eapply unch_mono; [done|set_solver]. Qed.

(** The in-place merge builds the merged list behind [pTail]. *)
Lemma merge_loop_correct fuel s t a la b lb :
  (length la + length lb ≤ fuel)%nat →
  lst s (Some a) la → lst s (Some b) lb →
  NoDup (addrs la ++ addrs lb) → t ∉ addrs la ++ addrs lb →
  ∃ s', merge_loop fuel s t a b = Some s' ∧
    merged s t (addrs la ++ addrs lb) (mrg la lb) s'.
Proof.
  revert s t a la b lb. induction fuel as [|fuel IH]; intros s t a la b lb Hf Ha Hb Hnd Ht;
    destruct (lst_Some _ _ _ Ha) as (x & la' & ->); destruct (lst_Some _ _ _ Hb) as (y & lb' & ->);
    simpl in Hf; [lia|].
  pose proof Ha as (_ & Hva & nA & HnA & Ha'). pose proof Hb as (_ & Hvb & nB & HnB & Hb').
  pose proof Hnd as [Hna Hnd1]%NoDup_cons.
  assert (NoDup (b :: addrs ((a, x) :: la') ++ addrs lb')) as Hnd2.
  { eapply NoDup_Permutation_proper; [|exact Hnd]. apply Permutation_middle. }
  pose proof Hnd2 as [Hnb Hnd2']%NoDup_cons.
  cbn [merge_loop]. rewrite Hva, Hvb. cbn [mbind option_bind]. rewrite mrg_cons.
  destruct (Z.leb_spec x y) as [Hxy|Hxy]; [destruct (Z.ltb_spec x y) as [Hlt|Hge]|];
    cbn [s_right set_right]; rewrite ?lookup_insert_ne by set_solver;
    rewrite ?HnA, ?HnB; cbn [mbind option_bind].
  - assert (∀ s', merged (set_right t (Some a) s) a (addrs la' ++ addrs ((b, y) :: lb'))
        (mrg la' ((b, y) :: lb')) s' →
      merged s t (addrs ((a, x) :: la') ++ addrs ((b, y) :: lb'))
        ((a, x) :: mrg la' ((b, y) :: lb')) s') as Hlink.
    { intros s' H. apply merged_cons; [done|set_solver..|]. eapply merged_mono; [done|set_solver]. }
    destruct nA as [a'|].
    + destruct (IH (set_right t (Some a) s) a a' la' b ((b, y) :: lb')) as (s' & -> & Hm);
        [simpl; lia|apply lseg_set_right; [set_solver|done]..|done|set_solver|]. eauto.
    + apply lst_None in Ha' as ->. eexists. split; [done|]. apply Hlink, merged_end; [|set_solver].
      apply lseg_set_right; [set_solver|done].
  - destruct nA as [a'|].
    + destruct (IH s t a' la' b ((b, y) :: lb')) as (s' & -> & Hm);
        [simpl; lia|done|done|done|set_solver|].
      exists s'. split; [done|]. eapply merged_mono; [done|set_solver].
    + apply lst_None in Ha' as ->. eexists. split; [done|]. apply merged_end; [done|set_solver].
  - assert (∀ s', merged (set_right t (Some b) s) b (addrs ((a, x) :: la') ++ addrs lb')
        (mrg ((a, x) :: la') lb') s' →
      merged s t (addrs ((a, x) :: la') ++ addrs ((b, y) :: lb'))
        ((b, y) :: mrg ((a, x) :: la') lb') s') as Hlink.
    { intros s' H. apply merged_cons; [done|set_solver..|]. eapply merged_mono; [done|set_solver]. }
    destruct nB as [b'|].
    + destruct (IH (set_right t (Some b) s) b a ((a, x) :: la') b' lb') as (s' & -> & Hm);
        [simpl; lia|apply lseg_set_right; [set_solver|done]..|done|set_solver|]. eauto.
    + apply lst_None in Hb' as ->. rewrite mrg_nil_r in *. eexists. split; [done|].
      apply Hlink, merged_end; [|set_solver]. apply lseg_set_right; [set_solver|done].
Qed.

(** Only right pointers of the entries [D] differ. *)
Definition relinked D s s' : Prop := unch D s s' ∧ s_left s' = s_left s.

Lemma relinked_trans D D1 D2 s s1 s2 :
  relinked D1 s s1 → relinked D2 s1 s2 → D1 ⊆ D → D2 ⊆ D → relinked D s s2.
Proof. intros [U1 L1] [U2 L2] ??. split; [by eapply unch_trans|congruence]. Qed.

Lemma relinked_mono D D' s s' : relinked D s s' → D ⊆ D' → relinked D' s s'.
Proof. intros [U L] ?. split; [by eapply unch_mono|done]. Qed.

Lemma relinked_set_right D a p s : a ∈ D → relinked D s (set_right a p s).
Proof. intros. split; [by apply unch_set_right|done]. Qed.

(** The address of the merge's local variable is not an entry. *)
Definition head_free s : Prop := s_v s !! HEAD = None ∧ s_right s !! HEAD = None.

Lemma head_not_in s p l : head_free s → lst s p l → HEAD ∉ addrs l.
Proof.
  intros [Hv _] Hl ([a x] & E & Hin)%list_elem_of_fmap. simpl in E. subst a.
  eapply lst_v in Hl; [|done]. congruence.
Qed.

Lemma head_free_unch D s s' : unch D s s' → HEAD ∉ D → head_free s → head_free s'.
Proof.
  intros U HD [Hv Hr]. split; [by rewrite (unch_v _ _ _ U)|].
  by rewrite (unch_right _ _ _ U).
Qed.

Lemma lst_addr s p l a : lst s p l → a ∈ addrs l → is_Some (s_v s !! a).
Proof.
  intros Hl ([b x] & E & Hin)%list_elem_of_fmap. simpl in E. subst b.
  eexists. by eapply lst_v.
Qed.

Lemma mrg_nonempty la lb : la ≠ [] → lb ≠ [] → mrg la lb ≠ [].
Proof.
  apply (mrg_ind (λ la lb l, la ≠ [] → lb ≠ [] → l ≠ [])); clear la lb; try done.
  intros a x la b lb IH _ _. destruct la; [done|]. by apply IH.
Qed.

Lemma merge_correct s a la b lb :
  lst s (Some a) la → lst s (Some b) lb → NoDup (addrs la ++ addrs lb) → head_free s →
  ∃ s' h, rowSetEntryMerge s a b = Some (s', Some h) ∧
    relinked (addrs la ++ addrs lb) s s' ∧ lst s' (Some h) (mrg la lb).
Proof.
  intros Ha Hb Hnd Hh.
  assert (HEAD ∉ addrs la ++ addrs lb) as Hnot.
  { rewrite elem_of_app.
    intros [?|?]; [by eapply (head_not_in s (Some a))|by eapply (head_not_in s (Some b))]. }
  destruct (merge_loop_correct (entries s) s HEAD a la b lb) as (s1 & E & U & L & p & Hp & Hl);
    [|done..|].
  { apply Nat.lt_le_incl. pose proof (entries_enough s _ Hnd) as H.
    rewrite length_app, !length_fmap in H. apply H.
    intros c [?|?]%elem_of_app; [by eapply (lst_addr s (Some a))|by eapply (lst_addr s (Some b))]. }
  unfold rowSetEntryMerge. rewrite E. cbn [mbind option_bind]. rewrite Hp.
  cbn [mbind option_bind].
  assert (∃ h, p = Some h) as [h ->].
  { destruct p; [eauto|]. apply lst_None in Hl. contradict Hl. apply mrg_nonempty.
    - by intros ->.
    - by intros ->. }
  do 2 eexists. split; [done|]. split.
  - split; [|done]. split; simpl; [by rewrite (unch_v _ _ _ U)| |].
    + intros c Hc. destruct (decide (c = HEAD)) as [->|].
      * rewrite lookup_delete_eq. by destruct Hh.
      * rewrite lookup_delete_ne by done. rewrite (unch_right _ _ _ U); set_solver.
    + intros c Hc. by rewrite L.
  - eapply (lseg_frame [HEAD]); [| |done].
    + split; simpl; [done| |done]. intros c Hc. apply lookup_delete_ne. set_solver.
    + intros c Hc ->%list_elem_of_singleton. apply Hnot.
      eapply elem_of_submseteq; [exact Hc|]. rewrite <- fmap_app.
      apply fmap_submseteq, mrg_submseteq.
Qed.
