(* ===== verification/RowSetProofs.v ===== *)
(** * RowSet: sorting, trees, the forest, and what a RowSet promises

    The bottom-up merge sort of [RowSet.rowSetEntrySort], the conversions
    between lists and trees, the forest that [RowSet.sqlite3RowSetTest] searches,
    the invariant of a RowSet and its two contracts: draining returns the
    inserted rowids in strictly increasing order, and a test answers membership
    among the rowids inserted before its batch began. *)
From S2P Require Import Prelude RowSet.

Implicit Types (l la lb : list node) (s : store) (D : list Z) (aB : list (option Z))
  (ls : list (list node)).

(** ** Sorting *)

(** The binary counter held by the buckets: a bucket [i] in use counts [2^i]. *)
Fixpoint wt aB : Z :=
  match aB with
  | [] => 0
  | b :: aB => (match b with Some _ => 1 | None => 0 end) + 2 * wt aB
  end.

Lemma wt_nonneg aB : 0 ≤ wt aB.
Proof. induction aB as [|[] aB IH]; simpl; lia. Qed.

Lemma wt_insert aB (i : nat) b c :
  aB !! i = Some b →
  wt (<[i := c]> aB) = wt aB + 2 ^ Z.of_nat i *
    ((match c with Some _ => 1 | None => 0 end) - (match b with Some _ => 1 | None => 0 end)).
Proof.
  revert i. induction aB as [|d aB IH]; intros [|i]; simpl; try done.
  - intros [= ->]. lia.
  - intros H. rewrite (IH i H).
    replace (2 ^ (Z.of_nat (S i))) with (2 * 2 ^ Z.of_nat i); [ring|].
    rewrite Nat2Z.inj_succ, Z.pow_succ_r by lia. done.
Qed.

(** Storing [l'] in bucket [i] exchanges its contents. *)
Lemma concat_insert ls (i : nat) l l' :
  ls !! i = Some l → l ++ concat (<[i := l']> ls) ≡ₚ l' ++ concat ls.
Proof.
  revert i. induction ls as [|k ls IH]; intros [|i]; simpl; try done.
  - intros [= ->]. by rewrite !app_assoc, (Permutation_app_comm l).
  - intros H. rewrite !app_assoc, (Permutation_app_comm l), (Permutation_app_comm l').
    rewrite <- !app_assoc. by rewrite (IH i H).
Qed.

(** [keeps l l']: [l'] holds some of the entries of [l] and all of its values. *)
Definition keeps l l' : Prop := l' ⊆+ l ∧ ∀ x, x ∈ vals l' ↔ x ∈ vals l.

Lemma keeps_trans l1 l2 l3 : keeps l1 l2 → keeps l2 l3 → keeps l1 l3.
Proof. intros [A1 V1] [A2 V2]. split; [by etrans|]. intros x. by rewrite V2, V1. Qed.

Lemma keeps_perm l l' : l ≡ₚ l' → keeps l l'.
Proof. intros H. split; [by rewrite H|]. intros x. by rewrite H. Qed.

#[global] Instance keeps_proper : Proper ((≡ₚ) ==> (≡ₚ) ==> iff) keeps.
Proof.
  intros l1 l2 H12 k1 k2 Hk. unfold keeps. rewrite H12, Hk.
  split; (intros [A V]; split; [done|]); intros x; specialize (V x); rewrite H12, Hk in *; done.
Qed.

Lemma keeps_app la lb la' lb' : keeps la la' → keeps lb lb' → keeps (la ++ lb) (la' ++ lb').
Proof.
  intros [A1 V1] [A2 V2]. split; [by apply submseteq_app|]. intros x.
  rewrite !fmap_app, !elem_of_app, V1, V2. done.
Qed.

Lemma keeps_mrg la lb : keeps (la ++ lb) (mrg la lb).
Proof.
  split; [apply mrg_submseteq|]. intros x. rewrite fmap_app, elem_of_app. apply mrg_vals.
Qed.

Lemma keeps_addrs l l' a : keeps l l' → a ∈ addrs l' → a ∈ addrs l.
Proof. intros [A _] H. eapply elem_of_submseteq; [exact H|]. by apply fmap_submseteq. Qed.

Lemma submseteq_NoDup {A} (l k : list A) : l ⊆+ k → NoDup k → NoDup l.
Proof.
  intros [k' ->]%submseteq_Permutation Hk. by apply NoDup_app in Hk as (? & _).
Qed.

Lemma keeps_NoDup l l' : keeps l l' → NoDup (addrs l) → NoDup (addrs l').
Proof. intros [A _]. apply submseteq_NoDup. by apply fmap_submseteq. Qed.

Lemma buckets_frame D s s' aB ls :
  unch D s s' → (∀ a, a ∈ addrs (concat ls) → a ∉ D) →
  Forall2 (lst s) aB ls → Forall2 (lst s') aB ls.
Proof.
  intros U HD H. induction H as [|p l aB ls Hl _ IH]; [done|].
  simpl in HD. rewrite fmap_app in HD. constructor.
  - eapply lseg_frame; [done| |done]. intros a Ha. apply HD. set_solver.
  - apply IH. intros a Ha. apply HD. set_solver.
Qed.

Lemma lseg_nil s q : lseg s q [] q.
Proof. done. Qed.

(** Storing a list into its bucket, and carrying past the buckets in use.  The
    weight of the counter keeps the index inside the array. *)
Lemma bucket_loop_correct fuel s aB ls i p lin :
  Forall2 (lst s) aB ls → Forall (λ l, sorted l) ls → lst s (Some p) lin → sorted lin →
  NoDup (addrs (lin ++ concat ls)) → head_free s → 0 ≤ i →
  wt aB + 2 ^ i < 2 ^ zlen aB → zlen aB - i < Z.of_nat fuel →
  ∃ s' aB' ls', bucket_loop fuel s aB i p = Some (s', aB') ∧
    relinked (addrs (lin ++ concat ls)) s s' ∧ Forall2 (lst s') aB' ls' ∧
    Forall (λ l, sorted l) ls' ∧ keeps (lin ++ concat ls) (concat ls') ∧
    wt aB' = wt aB + 2 ^ i ∧ length aB' = length aB.
Proof.
  revert s aB ls i p lin.
  induction fuel as [|fuel IH]; intros s aB ls i p lin HB HS Hl Hs Hnd Hh Hi Hw Hf;
    assert (i < zlen aB) by
      (apply (Z.pow_lt_mono_r_iff 2); pose proof (wt_nonneg aB); lia); [lia|].
  destruct (rd_in_bounds aB i ltac:(lia)) as [b Hb]. cbn [bucket_loop].
  rewrite Hb. cbn [mbind option_bind].
  apply rd_lookup in Hb as [_ Hb].
  destruct (Forall2_lookup_l _ _ _ _ _ HB Hb) as (lb & Hlb & Hlst).
  pose proof (Forall_lookup_1 _ _ _ _ HS Hlb) as Hsb. cbn beta in Hsb.
  pose proof (λ c, wt_insert aB (Z.to_nat i) b c Hb) as Hwt. rewrite Z2Nat.id in Hwt by done.
  destruct b as [b|].
  - pose proof (concat_insert ls (Z.to_nat i) lb [] Hlb) as Hperm. simpl in Hperm.
    pose proof Hnd as Hnd'. rewrite <- Hperm, app_assoc, (Permutation_app_comm lin) in Hnd'.
    rewrite !fmap_app in Hnd'. apply NoDup_app in Hnd' as (Hnd1 & Hdis & _).
    destruct (merge_correct s b lb p lin) as (s1 & h & -> & [U L] & Hm); [done..|].
    cbn [mbind option_bind]. rewrite wr_in_bounds by lia. cbn [mbind option_bind].
    assert (keeps (lin ++ concat ls) (mrg lb lin ++ concat (<[Z.to_nat i:=[]]> ls))) as Hk.
    { rewrite <- Hperm, app_assoc, (Permutation_app_comm lin).
      by apply keeps_app; [apply keeps_mrg|apply keeps_perm]. }
    assert (relinked (addrs (lin ++ concat ls)) s s1) as HR.
    { eapply relinked_mono; [by split|]. rewrite <- fmap_app. intros a Ha.
      rewrite <- Hperm, fmap_app, elem_of_app, !fmap_app. set_solver. }
    destruct (IH s1 (<[Z.to_nat i:=None]> aB) (<[Z.to_nat i:=[]]> ls) (i + 1) h (mrg lb lin))
      as (s2 & aB2 & ls2 & -> & R2 & HB2 & HS2 & Hk2 & Hw2 & Hlen2).
    + eapply buckets_frame; [exact U| |by apply Forall2_insert].
      intros a Ha1 Ha2. by apply (Hdis a).
    + apply Forall_insert; [done|constructor].
    + done.
    + by apply mrg_sorted.
    + eapply keeps_NoDup; [exact Hk|done].
    + eapply head_free_unch; [exact U| |done]. rewrite elem_of_app.
      intros [?|?]; [by eapply (head_not_in s (Some b))|by eapply (head_not_in s (Some p))].
    + lia.
    + rewrite length_insert, Hwt, Z.pow_add_r by done. lia.
    + rewrite length_insert. lia.
    + exists s2, aB2, ls2. split; [done|]. split.
      { eapply relinked_trans; [exact HR|exact R2|done|].
        intros a. by apply keeps_addrs. }
      split; [done|]. split; [done|]. split; [by eapply keeps_trans|].
      rewrite Hw2, Hlen2, length_insert, Hwt, Z.pow_add_r by done. split; [lia|done].
  - pose proof (concat_insert ls (Z.to_nat i) lb lin Hlb) as Hperm.
    apply lst_None in Hlst as ->. simpl in Hperm.
    rewrite wr_in_bounds by lia.
    exists s, (<[Z.to_nat i:=Some p]> aB), (<[Z.to_nat i:=lin]> ls). split; [done|].
    split; [by split|]. split; [apply Forall2_insert; done|].
    split; [apply Forall_insert; done|]. split; [apply keeps_perm; done|].
    rewrite Hwt, length_insert. split; [lia|done].
Qed.

Lemma head_not_in_buckets s aB ls :
  head_free s → Forall2 (lst s) aB ls → HEAD ∉ addrs (concat ls).
Proof.
  intros Hh H. induction H as [|p l aB ls Hl _ IH]; simpl; [set_solver|].
  rewrite fmap_app. pose proof (head_not_in s p l Hh Hl). set_solver.
Qed.

Lemma sort_loop_correct fuel s aB ls p l :
  lst s p l → (length l ≤ fuel)%nat → Forall2 (lst s) aB ls → Forall (λ l, sorted l) ls →
  NoDup (addrs (l ++ concat ls)) → head_free s →
  wt aB + zlen l < 2 ^ zlen aB → zlen aB = NBUCKET →
  ∃ s' aB' ls', sort_loop fuel s aB p = Some (s', aB') ∧
    relinked (addrs (l ++ concat ls)) s s' ∧ Forall2 (lst s') aB' ls' ∧
    Forall (λ l, sorted l) ls' ∧ keeps (l ++ concat ls) (concat ls') ∧
    zlen aB' = NBUCKET.
Proof.
  revert s aB ls p l.
  induction fuel as [|fuel IH]; intros s aB ls p l Hl Hf HB HS Hnd Hh Hw Hlen;
    (destruct p as [p|];
       [destruct (lst_Some _ _ _ Hl) as (x & l' & ->)
       |apply lst_None in Hl as ->; exists s, aB, ls; split; [done|]; split; [by split|];
        repeat split; done]); simpl in Hf; [lia|].
  pose proof Hl as (_ & Hv & n & Hn & Hl').
  cbn [app] in Hnd. rewrite fmap_cons, fmap_app in Hnd.
  pose proof Hnd as [Hp (Hnd1 & Hdis & Hnd2)%NoDup_app]%NoDup_cons.
  cbn [sort_loop]. rewrite Hn. cbn [mbind option_bind]. cbn [fst] in *.
  destruct (bucket_loop_correct (S (Z.to_nat NBUCKET)) (set_right p None s) aB ls 0 p [(p, x)])
    as (s1 & aB1 & ls1 & -> & R1 & HB1 & HS1 & Hk1 & Hw1 & Hlen1).
  - eapply (buckets_frame [p]); [apply unch_set_right; set_solver| |done]. set_solver.
  - done.
  - split; [done|]. split; [done|]. exists None. split; [by apply lookup_insert_eq|done].
  - apply sorted_cons. split; constructor.
  - simpl. apply NoDup_cons. split; [set_solver|done].
  - eapply (head_free_unch [p]); [apply unch_set_right; set_solver| |done].
    intros E. apply (head_not_in s (Some p) ((p, x) :: l')); [done..|set_solver].
  - lia.
  - simpl in Hw. lia.
  - lia.
  - simpl app in *. cbn [mbind option_bind].
    assert (relinked (p :: addrs (concat ls)) s s1) as R.
    { eapply relinked_trans; [apply (relinked_set_right [p])|exact R1|..]; set_solver. }
    destruct (IH s1 aB1 ls1 n l') as (s2 & aB2 & ls2 & -> & R2 & HB2 & HS2 & Hk2 & Hlen2).
    + eapply lseg_frame; [apply R| |done]. set_solver.
    + lia.
    + done.
    + done.
    + eapply keeps_NoDup; [apply keeps_app; [by apply keeps_perm|exact Hk1]|].
      rewrite <- Permutation_middle, fmap_cons, fmap_app. done.
    + eapply head_free_unch; [apply R| |done]. intros [E|E]%elem_of_cons.
      * apply (head_not_in s (Some p) ((p, x) :: l')); [done..|set_solver].
      * by eapply head_not_in_buckets.
    + simpl in Hw. rewrite Hw1, Hlen1. lia.
    + by rewrite Hlen1.
    + exists s2, aB2, ls2. split; [done|]. split.
      { eapply relinked_trans; [exact R|exact R2|..]; intros a; rewrite !fmap_cons, !fmap_app.
        - set_solver.
        - simpl. pose proof (keeps_addrs _ _ a Hk1). set_solver. }
      split; [done|]. split; [done|]. split; [|done].
      eapply keeps_trans; [|exact Hk2].
      rewrite Permutation_middle. apply keeps_app; [by apply keeps_perm|done].
Qed.

(** One step of the final merge of the buckets. *)
Definition combine_step aB (acc : option (store * option Z)) (i : Z) :
    option (store * option Z) :=
  '(s, pIn) ← acc;
  b ← aB.[i];
  match b with
  | None => Some (s, pIn)
  | Some b =>
      match pIn with
      | Some pIn => rowSetEntryMerge s pIn b
      | None => Some (s, Some b)
      end
  end.

Lemma combine_correct aB pre suf ls s p l :
  aB = pre ++ suf → lst s p l → sorted l → Forall2 (lst s) suf ls →
  Forall (λ l, sorted l) ls → NoDup (addrs (l ++ concat ls)) → head_free s →
  ∃ s' p' l', foldl (combine_step aB) (Some (s, p)) (seqZ (zlen pre) (zlen suf))
      = Some (s', p') ∧
    relinked (addrs (l ++ concat ls)) s s' ∧ lst s' p' l' ∧ sorted l' ∧
    keeps (l ++ concat ls) l'.
Proof.
  revert pre ls s p l. induction suf as [|b suf IH]; intros pre ls s p l -> Hl Hs HB HS Hnd Hh.
  { apply Forall2_nil_inv_l in HB as ->. simpl. exists s, p, l. rewrite app_nil_r.
    split; [done|]. split; [by split|]. by repeat split. }
  apply Forall2_cons_inv_l in HB as (lb & ls' & Hb & HB & ->).
  apply Forall_cons in HS as [Hsb HS]. simpl in Hnd.
  rewrite seqZ_cons by (simpl; lia). cbn [foldl].
  replace (Z.succ (zlen pre)) with (zlen (pre ++ [b])) by (rewrite length_app; simpl; lia).
  replace (Z.pred (zlen (b :: suf))) with (zlen suf) by (simpl; lia).
  assert (pre ++ b :: suf = (pre ++ [b]) ++ suf) as Epre by by rewrite <- app_assoc.
  unfold combine_step at 2. cbn [mbind option_bind]. rewrite rd_app_head.
  cbn [mbind option_bind].
  destruct b as [b|].
  2: { apply lst_None in Hb as ->. simpl in *. by apply IH. }
  pose proof Hnd as Hnd'. rewrite app_assoc, fmap_app in Hnd'.
  apply NoDup_app in Hnd' as (Hnd1 & Hdis & _). simpl concat.
  destruct p as [p|].
  2: { apply lst_None in Hl as ->. simpl in *. rewrite fmap_app in *.
       destruct (IH (pre ++ [Some b]) ls' s (Some b) lb) as (s' & p' & l' & E & R & Hres);
         [done..|by rewrite fmap_app|done|].
       exists s', p', l'. split; [done|]. by rewrite <- fmap_app. }
  rewrite fmap_app in Hnd1.
  destruct (merge_correct s p l b lb) as (s1 & h & -> & [U L] & Hm); [done..|].
  rewrite <- fmap_app in U.
  assert (keeps (l ++ lb ++ concat ls') (mrg l lb ++ concat ls')) as Hk.
  { rewrite app_assoc. apply keeps_app; [apply keeps_mrg|by apply keeps_perm]. }
  destruct (IH (pre ++ [Some b]) ls' s1 (Some h) (mrg l lb)) as (s' & p' & l' & E & R & Hl' & Hs' & Hk').
  - done.
  - done.
  - by apply mrg_sorted.
  - eapply buckets_frame; [exact U| |done]. intros a Ha1 Ha2. by apply (Hdis a).
  - done.
  - by eapply keeps_NoDup.
  - eapply head_free_unch; [exact U| |done]. rewrite fmap_app, elem_of_app.
    intros [?|?]; [by eapply (head_not_in s (Some p))|by eapply (head_not_in s (Some b))].
  - exists s', p', l'. split; [done|]. split; [|split; [done|]; split; [done|]].
    + eapply relinked_trans; [split; [exact U|exact L]|exact R|..]; intros a.
      * rewrite !fmap_app. set_solver.
      * by apply keeps_addrs.
    + by eapply keeps_trans.
Qed.

(** The sort relinks the entries of a list shorter than 2^40 into a strictly
    increasing list with the same values. *)
Lemma sort_correct s p l :
  lst s p l → NoDup (addrs l) → head_free s → zlen l < 2 ^ NBUCKET →
  ∃ s' p' l', rowSetEntrySort s p = Some (s', p') ∧
    relinked (addrs l) s s' ∧ lst s' p' l' ∧ sorted l' ∧ keeps l l'.
Proof.
  intros Hl Hnd Hh Hlen. unfold rowSetEntrySort.
  assert (∀ n, concat (replicate n (@nil node)) = []) as Hnil by (by induction n).
  destruct (sort_loop_correct (entries s) s (replicate (Z.to_nat NBUCKET) None)
    (replicate (Z.to_nat NBUCKET) []) p l) as (s1 & aB & ls & -> & R & HB & HS & Hk & Hn).
  - done.
  - apply Nat.lt_le_incl. pose proof (entries_enough s _ Hnd) as H.
    rewrite length_fmap in H. apply H. intros a. by eapply lst_addr.
  - by apply Forall2_replicate.
  - apply Forall_replicate. constructor.
  - by rewrite Hnil, app_nil_r.
  - done.
  - rewrite length_replicate. exact Hlen.
  - by rewrite length_replicate.
  - rewrite Hnil, app_nil_r in *. cbn [mbind option_bind].
    destruct aB as [|b aB]; [done|].
    apply Forall2_cons_inv_l in HB as (lb & ls' & Hb & HB & ->).
    apply Forall_cons in HS as [Hsb HS]. change ((b :: aB).[0]) with (Some b).
    cbn [mbind option_bind].
    replace (NBUCKET - 1) with (zlen aB) by (simpl in Hn; lia).
    destruct (combine_correct (b :: aB) [b] aB ls' s1 b lb) as (s' & p' & l' & E & R2 & H2);
      [done..|by eapply keeps_NoDup| |].
    + eapply head_free_unch; [apply R|by eapply head_not_in|done].
    + exists s', p', l'. split; [exact E|]. destruct H2 as (Hl' & Hs' & Hk2).
      split; [|split; [done|]; split; [done|by eapply keeps_trans]].
      eapply relinked_trans; [exact R|exact R2|done|]. intros a. by apply keeps_addrs.
Qed.

(** ** Trees *)

Inductive tr := Lf | Nd (tl : tr) (n : node) (tr_ : tr).

Fixpoint nodes (t : tr) : list node :=
  match t with Lf => [] | Nd tl n tr => nodes tl ++ n :: nodes tr end.

Fixpoint height (t : tr) : nat :=
  match t with Lf => O | Nd tl _ tr => S (Nat.max (height tl) (height tr)) end.

(** [tree s p t]: the entries reached from [p] through pLeft and pRight. *)
Fixpoint tree s (p : option Z) (t : tr) : Prop :=
  match t with
  | Lf => p = None
  | Nd tl (a, x) tr =>
      p = Some a ∧ s_v s !! a = Some x ∧
      (∃ pl, s_left s !! a = Some pl ∧ tree s pl tl) ∧
      (∃ pr, s_right s !! a = Some pr ∧ tree s pr tr)
  end.

Lemma tree_frame D s s' p t :
  unch D s s' → (∀ a, a ∈ addrs (nodes t) → a ∉ D) → tree s p t → tree s' p t.
Proof.
  intros U. revert p. induction t as [|tl IHl [a x] tr IHr]; intros p HD; [done|].
  simpl in HD. rewrite fmap_app, fmap_cons in HD. simpl in *.
  intros (-> & Hv & (pl & Hpl & Hl) & (pr & Hpr & Hr)).
  split; [done|]. split; [by rewrite (unch_v _ _ _ U)|]. split.
  - exists pl. rewrite (unch_left _ _ _ U) by (apply HD; set_solver). split; [done|].
    apply IHl; [|done]. intros b Hb. apply HD. set_solver.
  - exists pr. rewrite (unch_right _ _ _ U) by (apply HD; set_solver). split; [done|].
    apply IHr; [|done]. intros b Hb. apply HD. set_solver.
Qed.

Lemma tree_addr s p t a : tree s p t → a ∈ addrs (nodes t) → is_Some (s_v s !! a).
Proof.
  revert p. induction t as [|tl IHl [b x] tr IHr]; intros p; simpl; [set_solver|].
  intros (-> & Hv & (pl & _ & Hl) & (pr & _ & Hr)).
  rewrite fmap_app, elem_of_app, fmap_cons, elem_of_cons. simpl.
  intros [?|[->|?]]; eauto.
Qed.

Lemma height_nodes t : (height t ≤ length (nodes t))%nat.
Proof. induction t as [|tl IHl n tr IHr]; simpl; [done|]. rewrite length_app. simpl. lia. Qed.

Lemma tree_None s t : tree s None t → t = Lf.
Proof. destruct t as [|tl [a x] tr]; [done|]. by intros [? _]. Qed.

Lemma tree_Some s a t : tree s (Some a) t → t ≠ Lf.
Proof. by destruct t. Qed.

Lemma nodes_NoDup tl a x tr :
  NoDup (addrs (nodes (Nd tl (a, x) tr))) →
  NoDup (addrs (nodes tl)) ∧ NoDup (addrs (nodes tr)) ∧
  a ∉ addrs (nodes tl) ∧ a ∉ addrs (nodes tr) ∧
  (∀ b, b ∈ addrs (nodes tl) → b ∉ addrs (nodes tr)).
Proof.
  simpl. rewrite fmap_app, fmap_cons. intros (H1 & H2 & [H3 H4]%NoDup_cons)%NoDup_app.
  simpl in *. repeat split; try done; [|set_solver].
  intros Ha. apply (H2 a Ha). set_solver.
Qed.

(** [unch_solve]: a frame step that the sets of addresses decide. *)
Ltac nodes_set := cbn [nodes]; rewrite ?fmap_app, ?fmap_cons; cbn [fst] in *; set_solver.

(** Converting a search tree to a list keeps the inorder sequence, and reports
    its last entry. *)
Lemma tree_to_list_correct fuel s p t :
  (height t ≤ fuel)%nat → tree s (Some p) t → NoDup (addrs (nodes t)) →
  ∃ s' first last, rowSetTreeToList fuel s p = Some (s', first, last) ∧
    relinked (addrs (nodes t)) s s' ∧ lst s' (Some first) (nodes t) ∧
    ∃ l x, nodes t = l ++ [(last, x)].
Proof.
  revert s p t. induction fuel as [|fuel IH]; intros s p t Hf Ht Hnd;
    (destruct t as [|tl [a x] tr]; [done|]); cbn [height] in Hf; [lia|].
  pose proof (nodes_NoDup _ _ _ _ Hnd) as (Hndl & Hndr & Hal & Har & Hdis).
  destruct Ht as ([= <-] & Hv & (pl & Hpl & Hl) & (pr & Hpr & Hr)).
  cbn [rowSetTreeToList]. rewrite Hpl. cbn [mbind option_bind].
  (* the left subtree, whose last entry is made to point to p *)
  assert (∃ s1 first,
    (match pl with
     | Some l => '(s, first, q) ← rowSetTreeToList fuel s l;
                 Some (set_right q (Some p) s, first)
     | None => Some (s, p)
     end) = Some (s1, first) ∧
    relinked (addrs (nodes tl)) s s1 ∧ lseg s1 (Some first) (nodes tl) (Some p))
    as (s1 & first & -> & [U1 L1] & Hl1).
  { destruct pl as [l|].
    - destruct (IH s l tl) as (s1 & f & la & -> & R1 & Hs1 & k & y & Ek); [lia|done..|].
      cbn [mbind option_bind]. do 2 eexists. split; [done|]. rewrite Ek in *.
      rewrite fmap_app in Hndl. apply NoDup_app in Hndl as (_ & Hk & _). split.
      + eapply relinked_trans; [exact R1|apply (relinked_set_right [la])|done|].
        * constructor.
        * rewrite fmap_app. clear. set_solver.
      + eapply lseg_snoc_set; [done|]. intros H. apply (Hk la H). set_solver.
    - apply tree_None in Hl as ->. do 2 eexists. by repeat split. }
  cbn [mbind option_bind].
  rewrite (unch_right _ _ _ U1), Hpr by done. cbn [mbind option_bind].
  assert (s_v s1 !! p = Some x) as Hv1 by by rewrite (unch_v _ _ _ U1).
  destruct pr as [r|].
  - assert (tree s1 (Some r) tr) as Hr1.
    { eapply tree_frame; [exact U1| |done]. set_solver. }
    destruct (IH s1 r tr) as (s2 & f & la & -> & [U2 L2] & Hs2 & k & y & Ek); [lia|done..|].
    cbn [mbind option_bind]. do 3 eexists. split; [done|]. split; [|split].
    + cbn [nodes]. rewrite fmap_app, fmap_cons. cbn [fst].
      assert (relinked (p :: addrs (nodes tr)) s1 (set_right p (Some f) s2)) as R2.
      { eapply relinked_trans; [split; [exact U2|exact L2]|apply (relinked_set_right [p])|..];
          clear; set_solver. }
      eapply relinked_trans; [split; [exact U1|exact L1]|exact R2|..]; clear; set_solver.
    + cbn [nodes]. apply lseg_app. exists (Some p). split.
      * apply lseg_set_right; [done|]. eapply lseg_frame; [exact U2| |done]. set_solver.
      * split; [done|]. split; [by simpl; rewrite (unch_v _ _ _ U2)|].
        exists (Some f). split; [by apply lookup_insert_eq|]. by apply lseg_set_right.
    + cbn [nodes]. rewrite Ek. exists (nodes tl ++ (p, x) :: k), y. by rewrite <- app_assoc.
  - apply tree_None in Hr as ->. do 3 eexists. split; [done|]. split; [|split].
    + eapply relinked_mono; [split; [exact U1|exact L1]|]. nodes_set.
    + cbn [nodes]. apply lseg_app. exists (Some p). split; [done|].
      split; [done|]. split; [done|]. exists None.
      by rewrite (unch_right _ _ _ U1), Hpr by done.
    + exists (nodes tl), x. done.
Qed.

(** [rowSetNDeepTree] takes a prefix of the list; only when the list goes on is
    the tree required to be complete. *)
Definition ndeep_post (d : nat) s l (r : option (store * option Z * option Z)) : Prop :=
  ∃ s' root rest t l2, r = Some (s', root, rest) ∧
    unch (addrs (nodes t)) s s' ∧ tree s' root t ∧ lst s' rest l2 ∧
    l = nodes t ++ l2 ∧ (height t ≤ Nat.max 1 d)%nat ∧
    (l2 ≠ [] → length (nodes t) = 2 ^ Nat.max 1 d - 1)%nat.

Lemma ndeep_leaf d s p l :
  (d ≤ 1)%nat → lst s (Some p) l → NoDup (addrs l) →
  ndeep_post d s l (list ← s_right s !! p;
                    Some (set_right p None (set_left p None s), Some p, list)).
Proof.
  intros Hd Hl Hnd. destruct (lst_Some _ _ _ Hl) as (x & l' & ->).
  destruct Hl as (_ & Hv & n & Hn & Hl). rewrite Hn. cbn [mbind option_bind].
  apply NoDup_cons in Hnd as [Hp _].
  eexists _, _, _, (Nd Lf (p, x) Lf), l'. split; [done|].
  assert (unch [p] s (set_right p None (set_left p None s))) as U.
  { eapply unch_trans; [apply (unch_set_left [p])|apply (unch_set_right [p])|..]; set_solver. }
  split; [done|]. split; [|split; [|split; [done|split]]].
  - split; [done|]. split; [done|]. split; exists None; simpl; by rewrite lookup_insert_eq.
  - eapply lseg_frame; [exact U| |done]. set_solver.
  - simpl. lia.
  - intros _. destruct d as [|[|d]]; [done..|lia].
Qed.

Lemma ndeep_correct d s p l :
  lst s p l → NoDup (addrs l) → ndeep_post d s l (rowSetNDeepTree d s p).
Proof.
  revert s p l. induction d as [|d IH]; intros s p l Hl Hnd;
    (destruct p as [p|]; [|apply lst_None in Hl as ->;
       eexists s, None, None, Lf, []; repeat split; simpl; (done || lia)]).
  { apply ndeep_leaf; [lia|done|done]. }
  destruct d as [|d]; [apply ndeep_leaf; [lia|done|done]|].
  change (rowSetNDeepTree (S (S d)) s (Some p)) with
    ('(s, pLeft, list) ← rowSetNDeepTree (S d) s (Some p);
     match list with
     | None => Some (s, pLeft, None)
     | Some p =>
         let s := set_left p pLeft s in
         list ← s_right s !! p;
         '(s, r, list) ← rowSetNDeepTree (S d) s list;
         Some (set_right p r s, Some p, list)
     end).
  destruct (IH s (Some p) l Hl Hnd) as (s1 & pL & rest & tl & l2 & -> & U1 & Ht1 & Hr1 & -> & Hh1 & Hc1).
  cbn [mbind option_bind]. destruct rest as [q|].
  2: { apply lst_None in Hr1 as ->. eexists s1, pL, None, tl, [].
       repeat (split; [done|]). split; [lia|done]. }
  destruct (lst_Some _ _ _ Hr1) as (x & l3 & ->).
  pose proof Hr1 as (_ & Hv & n & Hn & Hr). cbn zeta. cbn [set_left s_right]. rewrite Hn.
  cbn [mbind option_bind]. rewrite fmap_app, fmap_cons in Hnd.
  pose proof Hnd as (Hnd1 & Hdis & [Hq Hnd3]%NoDup_cons)%NoDup_app. cbn [fst] in *.
  destruct (IH (set_left q pL s1) n l3) as (s2 & pR & rest & tr & l4 & -> & U2 & Ht2 & Hr2 & -> & Hh2 & Hc2).
  { eapply lseg_frame; [apply (unch_set_left [q])| |done]; set_solver. }
  { done. }
  cbn [mbind option_bind]. specialize (Hc1 ltac:(done)).
  rewrite fmap_app in Hdis, Hq, Hnd3. apply NoDup_app in Hnd3 as (Hnd4 & Hdis2 & Hnd5).
  set (s3 := set_right q pR s2).
  assert (unch (q :: addrs (nodes tr)) s1 s3) as U.
  { eapply unch_trans; [apply (unch_set_left [q])|eapply (unch_trans (q :: addrs (nodes tr)));
      [exact U2|apply (unch_set_right [q])|..]|..]; clear; set_solver. }
  eexists s3, (Some q), rest, (Nd tl (q, x) tr), l4. split; [done|].
  split; [|split; [|split; [|split; [|split]]]].
  - cbn [nodes]. rewrite fmap_app, fmap_cons. eapply unch_trans; [exact U1|exact U|..];
      clear; set_solver.
  - split; [done|]. split; [by rewrite (unch_v _ _ _ U)|]. split.
    + exists pL. split; [|eapply tree_frame; [exact U| |done]; set_solver].
      simpl. rewrite (unch_left _ _ _ U2) by set_solver. simpl. by rewrite lookup_insert_eq.
    + exists pR. split; [by apply lookup_insert_eq|].
      eapply tree_frame; [apply (unch_set_right [q])| |done]; set_solver.
  - eapply lseg_frame; [apply (unch_set_right [q])| |done]; set_solver.
  - cbn [nodes]. by rewrite <- app_assoc.
  - cbn [height]. lia.
  - intros Hne. cbn [nodes]. rewrite length_app. cbn [length]. rewrite Hc1, (Hc2 Hne).
    replace (Nat.max 1 (S (S d))) with (S (Nat.max 1 (S d))) by lia.
    pose proof (Nat.pow_nonzero 2 (Nat.max 1 (S d))). rewrite Nat.pow_succ_r'. lia.
Qed.

(** The tree built from a list keeps its sequence and its height is logarithmic:
    [2^(height-1)] does not exceed the number of nodes. *)
Definition balanced (t : tr) : Prop := (2 ^ (height t - 1) ≤ length (nodes t))%nat.

Lemma list_to_tree_loop_correct fuel d s p pl t l :
  (length l ≤ fuel)%nat → tree s (Some p) t → lst s pl l → NoDup (addrs (nodes t ++ l)) →
  (1 ≤ d)%nat → balanced t → (height t ≤ d)%nat →
  (l ≠ [] → length (nodes t) = 2 ^ d - 1)%nat →
  ∃ s' root t', list_to_tree_loop fuel d s p pl = Some (s', root) ∧
    unch (addrs (nodes t ++ l)) s s' ∧ tree s' (Some root) t' ∧
    nodes t' = nodes t ++ l ∧ balanced t'.
Proof.
  revert d s p pl t l. induction fuel as [|fuel IH];
    intros d s p pl t l Hf Ht Hl Hnd Hd Hbal Hh Hc;
    (destruct pl as [q|];
      [destruct (lst_Some _ _ _ Hl) as (x & l' & ->)
      |apply lst_None in Hl as ->; exists s, p, t; rewrite app_nil_r; by repeat split]);
    simpl in Hf; [lia|].
  specialize (Hc ltac:(done)).
  destruct Hl as (_ & Hv & n & Hn & Hl). rewrite fmap_app, fmap_cons in Hnd.
  pose proof Hnd as (Hnd1 & Hdis & [Hq Hnd3]%NoDup_cons)%NoDup_app. cbn [fst] in *.
  cbn [list_to_tree_loop]. rewrite Hn. cbn [mbind option_bind].
  destruct (ndeep_correct d (set_left q (Some p) s) n l')
    as (s2 & pR & rest & tr & l4 & -> & U2 & Ht2 & Hr2 & -> & Hh2 & Hc2).
  { eapply lseg_frame; [apply (unch_set_left [q])| |done]; set_solver. }
  { done. }
  cbn [mbind option_bind]. set (s3 := set_right q pR s2).
  rewrite fmap_app in Hdis, Hq, Hnd3. apply NoDup_app in Hnd3 as (Hnd4 & Hdis2 & Hnd5).
  assert (unch (q :: addrs (nodes tr)) s s3) as U.
  { eapply unch_trans; [apply (unch_set_left [q])|eapply (unch_trans (q :: addrs (nodes tr)));
      [exact U2|apply (unch_set_right [q])|..]|..]; clear; set_solver. }
  assert (2 ^ d ≠ 0)%nat as Hp2 by by apply Nat.pow_nonzero.
  destruct (IH (S d) s3 q rest (Nd t (q, x) tr) l4) as (s4 & root & t' & -> & U4 & Ht4 & E4 & Hb4).
  - rewrite length_app in Hf. lia.
  - split; [done|]. split; [by rewrite (unch_v _ _ _ U)|]. split.
    + exists (Some p). split; [|eapply tree_frame; [exact U| |done]; set_solver].
      simpl. rewrite (unch_left _ _ _ U2) by set_solver. simpl. by rewrite lookup_insert_eq.
    + exists pR. split; [by apply lookup_insert_eq|].
      eapply tree_frame; [apply (unch_set_right [q])| |done]; set_solver.
  - eapply lseg_frame; [apply (unch_set_right [q])| |done]; set_solver.
  - cbn [nodes]. rewrite <- app_assoc. cbn [app]. rewrite fmap_app, fmap_cons. done.
  - lia.
  - unfold balanced. cbn [height nodes]. rewrite length_app, Hc. cbn [length].
    transitivity (2 ^ d)%nat; [|lia]. apply Nat.pow_le_mono_r; lia.
  - cbn [height]. lia.
  - intros Hne. cbn [nodes]. rewrite length_app, Hc. cbn [length]. rewrite (Hc2 Hne), Nat.pow_succ_r'.
    replace (Nat.max 1 d) with d by lia. lia.
  - exists s4, root, t'. split; [done|]. split; [|split; [done|split; [|done]]].
    + eapply unch_trans; [exact U|exact U4|..].
      * rewrite !fmap_app, fmap_cons. clear; set_solver.
      * rewrite !fmap_app, fmap_cons, fmap_app. clear; set_solver.
    + rewrite E4. cbn [nodes]. by rewrite <- !app_assoc.
Qed.

Lemma list_to_tree_correct s p l :
  lst s (Some p) l → NoDup (addrs l) →
  ∃ s' root t, rowSetListToTree s p = Some (s', root) ∧
    unch (addrs l) s s' ∧ tree s' (Some root) t ∧ nodes t = l ∧ balanced t.
Proof.
  intros Hl Hnd. pose proof (entries_enough s _ Hnd (λ a, lst_addr _ _ _ a Hl)) as Hf.
  rewrite length_fmap in Hf.
  destruct (lst_Some _ _ _ Hl) as (x & l' & ->). destruct Hl as (_ & Hv & n & Hn & Hl).
  unfold rowSetListToTree. rewrite Hn. cbn [mbind option_bind].
  pose proof Hnd as [Hp Hnd']%NoDup_cons. cbn [fst] in *.
  assert (unch [p] s (set_right p None (set_left p None s))) as U.
  { eapply unch_trans; [apply (unch_set_left [p])|apply (unch_set_right [p])|..]; set_solver. }
  destruct (list_to_tree_loop_correct (entries (set_right p None (set_left p None s))) 1 (set_right p None (set_left p None s))
    p n (Nd Lf (p, x) Lf) l') as (s' & root & t & -> & U' & Ht & E & Hb).
  - change (entries _) with (entries s). simpl in Hf. lia.
  - split; [done|]. split; [done|]. split; exists None; simpl; by rewrite lookup_insert_eq.
  - eapply lseg_frame; [exact U| |done]. set_solver.
  - done.
  - lia.
  - unfold balanced. simpl. lia.
  - simpl. lia.
  - done.
  - exists s', root, t. split; [done|]. split; [|done].
    eapply unch_trans; [exact U|exact U'|..]; simpl; clear; set_solver.
Qed.

(** ** Searching *)

Lemma sorted_app l a x k :
  sorted (l ++ (a, x) :: k) ↔
  sorted l ∧ sorted k ∧ Forall (λ y, y < x) (vals l) ∧ Forall (Z.lt x) (vals k).
Proof.
  induction l as [|[b y] l IH]; cbn [app].
  - rewrite sorted_cons. split; [|naive_solver]. intros [??]. repeat split; [constructor|done..].
  - rewrite !sorted_cons, IH, fmap_app, !fmap_cons, Forall_app, !Forall_cons. cbn [snd].
    split; [naive_solver|]. intros ([H1 H2] & H3 & [H4 H5] & H6).
    repeat split; try done. eapply Forall_impl; [exact H6|]. simpl. lia.
Qed.

(** Searching a tree whose inorder sequence is increasing decides membership. *)
Lemma tree_search_correct fuel s p t x :
  (height t ≤ fuel)%nat → tree s p t → sorted (nodes t) →
  tree_search fuel s p x = Some (bool_decide (x ∈ vals (nodes t))).
Proof.
  revert s p t. induction fuel as [|fuel IH]; intros s p t Hf Ht Hs;
    (destruct t as [|tl [a y] tr]; [by rewrite Ht|]); cbn [height] in Hf; [lia|].
  destruct Ht as (-> & Hv & (pl & Hpl & Hl) & (pr & Hpr & Hr)).
  cbn [nodes] in *. apply sorted_app in Hs as (Hsl & Hsr & Hlt & Hgt).
  rewrite Forall_forall in Hlt, Hgt.
  cbn [tree_search]. rewrite Hv. cbn [mbind option_bind].
  rewrite fmap_app, fmap_cons. cbn [snd].
  destruct (Z.ltb_spec y x); [|destruct (Z.ltb_spec x y)].
  - rewrite Hpr. cbn [mbind option_bind]. rewrite (IH s pr tr) by (done || lia).
    f_equal. apply bool_decide_ext. rewrite elem_of_app, elem_of_cons. split; [auto|].
    intros [Hx|[->|?]]; [|lia|done]. specialize (Hlt _ Hx). simpl in Hlt. lia.
  - rewrite Hpl. cbn [mbind option_bind]. rewrite (IH s pl tl) by (done || lia).
    f_equal. apply bool_decide_ext. rewrite elem_of_app, elem_of_cons. split; [auto|].
    intros [?|[->|Hx]]; [done|lia|]. specialize (Hgt _ Hx). lia.
  - f_equal. symmetry. apply bool_decide_eq_true_2. assert (x = y) as -> by lia. set_solver.
Qed.

(** ** The forest *)

Implicit Types fs : list (Z * tr).

Fixpoint forest s (p : option Z) fs : Prop :=
  match fs with
  | [] => p = None
  | (a, t) :: fs =>
      p = Some a ∧ is_Some (s_v s !! a) ∧
      (∃ r, s_left s !! a = Some r ∧ tree s r t) ∧
      (∃ n, s_right s !! a = Some n ∧ forest s n fs)
  end.

Definition fnodes fs : list node := fs ≫= λ e, nodes e.2.
Definition heads fs : list Z := fs.*1.
Definition faddrs fs : list Z := heads fs ++ addrs (fnodes fs).
#[global] Typeclasses Opaque fnodes heads faddrs.
Definition fsorted fs : Prop := Forall (λ e, sorted (nodes e.2)) fs.

Lemma fnodes_cons a t fs : fnodes ((a, t) :: fs) = nodes t ++ fnodes fs.
Proof. done. Qed.

Lemma forest_frame D s s' p fs :
  unch D s s' → (∀ a, a ∈ faddrs fs → a ∉ D) → forest s p fs → forest s' p fs.
Proof.
  intros U. unfold faddrs. revert p. induction fs as [|[a t] fs IH]; intros p HD; [done|].
  rewrite fnodes_cons, fmap_app in HD. simpl in *.
  intros (-> & Hv & (r & Hr & Ht) & (n & Hn & Hf)).
  split; [done|]. split; [by rewrite (unch_v _ _ _ U)|]. split.
  - exists r. rewrite (unch_left _ _ _ U) by (apply HD; clear; set_solver). split; [done|].
    eapply tree_frame; [done| |done]. intros b Hb. apply HD. clear -Hb. set_solver.
  - exists n. rewrite (unch_right _ _ _ U) by (apply HD; clear; set_solver). split; [done|].
    apply IH; [|done]. intros b Hb. apply HD. clear -Hb. set_solver.
Qed.

Lemma forest_addr s p fs a : forest s p fs → a ∈ faddrs fs → is_Some (s_v s !! a).
Proof.
  unfold faddrs. revert p. induction fs as [|[b t] fs IH]; intros p; [set_solver|].
  rewrite fnodes_cons, fmap_app. simpl. intros (_ & Hv & (r & _ & Ht) & (n & _ & Hf)).
  specialize (IH _ Hf). pose proof (tree_addr _ _ _ a Ht). set_solver.
Qed.

Lemma forest_None s fs : forest s None fs → fs = [].
Proof. destruct fs as [|[a t] fs]; [done|]. by intros [? _]. Qed.

Lemma forest_Some s a fs : forest s (Some a) fs → ∃ t fs', fs = (a, t) :: fs'.
Proof. destruct fs as [|[b t] fs]; [done|]. intros ([= ->] & _). eauto. Qed.

Lemma forest_length_entries s p fs :
  forest s p fs → NoDup (faddrs fs) → (length fs < entries s)%nat.
Proof.
  intros Hf Hnd. pose proof (entries_enough s _ Hnd (λ a, forest_addr _ _ _ a Hf)) as H.
  unfold faddrs, heads in H. rewrite length_app, !length_fmap in H. lia.
Qed.

Lemma forest_tree_height s p a t fs :
  forest s p fs → NoDup (faddrs fs) → (a, t) ∈ fs → (height t ≤ entries s)%nat.
Proof.
  intros Hf Hnd Hin. pose proof (entries_enough s _ Hnd (λ a, forest_addr _ _ _ a Hf)) as H.
  unfold faddrs, heads in H. rewrite length_app, !length_fmap in H.
  pose proof (height_nodes t).
  assert (length (nodes t) ≤ length (fnodes fs))%nat; [|lia].
  apply submseteq_length, sublist_submseteq. unfold fnodes.
  apply list_elem_of_split in Hin as (f1 & f2 & ->).
  rewrite bind_app, bind_cons. apply sublist_inserts_l, sublist_inserts_r. done.
Qed.

Lemma forest_search_correct fuel s p fs x :
  (length fs ≤ fuel)%nat → forest s p fs → fsorted fs →
  (∀ a t, (a, t) ∈ fs → (height t ≤ entries s)%nat) →
  forest_search fuel s p x = Some (bool_decide (x ∈ vals (fnodes fs))).
Proof.
  revert p fs. induction fuel as [|fuel IH]; intros p fs Hf Hp Hs Hh;
    (destruct fs as [|[a t] fs]; [by rewrite Hp|]); simpl in Hf; [lia|].
  destruct Hp as (-> & Hv & (r & Hr & Ht) & (n & Hn & Hp)).
  apply Forall_cons in Hs as [Hst Hs]. simpl in Hst.
  cbn [forest_search]. rewrite Hr. cbn [mbind option_bind].
  rewrite (tree_search_correct _ _ _ t); [|eapply Hh, list_elem_of_here|done..].
  cbn [mbind option_bind]. rewrite fnodes_cons, fmap_app.
  destruct (bool_decide_reflect (x ∈ vals (nodes t))).
  - f_equal. symmetry. apply bool_decide_eq_true_2. set_solver.
  - rewrite Hn. cbn [mbind option_bind]. rewrite (IH n fs); [|lia|done|done|].
    + f_equal. apply bool_decide_ext. rewrite elem_of_app. naive_solver.
    + intros a' t' Hin. eapply Hh, list_elem_of_further, Hin.
Qed.

Lemma faddrs_cons a t fs : faddrs ((a, t) :: fs) ≡ₚ a :: addrs (nodes t) ++ faddrs fs.
Proof.
  unfold faddrs, heads. rewrite fnodes_cons, fmap_app, fmap_cons. cbn [app fst].
  rewrite !app_assoc. by rewrite (Permutation_app_comm (addrs (nodes t))).
Qed.

(** One iteration of the walk: the tree of entry [a] is emptied into the list. *)
Lemma forest_step s a t r p lp n :
  tree s (Some r) t → lst s (Some p) lp → NoDup (a :: addrs (nodes t) ++ addrs lp) →
  is_Some (s_v s !! a) → s_right s !! a = Some n → (height t ≤ entries s)%nat → head_free s →
  ∃ s1 aux tl s2 h, rowSetTreeToList (entries s) s r = Some (s1, aux, tl) ∧
    rowSetEntryMerge (set_left a None s1) aux p = Some (s2, Some h) ∧
    unch (a :: addrs (nodes t) ++ addrs lp) s s2 ∧ head_free s2 ∧
    s_left s2 !! a = Some None ∧ s_right s2 !! a = Some n ∧ lst s2 (Some h) (mrg (nodes t) lp).
Proof.
  intros Ht Hl [Ha Hnd]%NoDup_cons Hv Hn Hht Hh.
  pose proof Hnd as (Hndt & Hdist & _)%NoDup_app.
  destruct (tree_to_list_correct (entries s) s r t) as (s1 & aux & tl & -> & [U1 L1] & Hl1 & _);
    [done..|].
  set (s1' := set_left a None s1).
  assert (unch (a :: addrs (nodes t)) s s1') as U1'.
  { eapply unch_trans; [exact U1|apply (unch_set_left [a])|..]; clear; set_solver. }
  assert (∀ b, b ∈ a :: addrs (nodes t) ++ addrs lp → is_Some (s_v s !! b)) as Hin.
  { intros b [->|[?|?]%elem_of_app]%elem_of_cons; [done|by eapply tree_addr|by eapply lst_addr]. }
  assert (HEAD ∉ a :: addrs (nodes t) ++ addrs lp) as HD.
  { intros [v E]%Hin. destruct Hh as [Hh _]. congruence. }
  destruct (merge_correct s1' aux (nodes t) p lp) as (s2 & h & E2 & [U2 L2] & Hm).
  { eapply lseg_frame; [apply (unch_set_left [a])| |exact Hl1]; clear -Ha; set_solver. }
  { eapply lseg_frame; [exact U1'| |exact Hl]. clear -Ha Hdist. set_solver. }
  { done. }
  { eapply head_free_unch; [exact U1'| |done]. clear -HD. set_solver. }
  exists s1, aux, tl, s2, h. split; [done|]. split; [done|].
  assert (unch (a :: addrs (nodes t) ++ addrs lp) s s2) as U.
  { eapply unch_trans; [exact U1'|exact U2|..]; clear; set_solver. }
  split; [done|]. split; [by eapply head_free_unch|].
  split; [|split; [|done]].
  - rewrite L2. simpl. by apply lookup_insert_eq.
  - rewrite (unch_right _ _ _ U2) by done. simpl.
    rewrite (unch_right _ _ _ U1); [done|]. clear -Ha. set_solver.
Qed.

Lemma last_heads prev a t fs :
  from_option Some (Some a) (last (heads fs)) = from_option Some prev (last (heads ((a, t) :: fs))).
Proof. unfold heads. cbn [fmap list_fmap fst]. rewrite last_cons. by destruct (last _). Qed.

(** Storing the sorted pending list [lp] into the forest.  When the walk runs off
    the end, the merged list that is still to be stored comes back with the last
    forest entry. *)
Lemma forest_loop_correct fuel s prev pT fs p lp :
  (length fs ≤ fuel)%nat → forest s pT fs → fsorted fs → lst s (Some p) lp → sorted lp →
  NoDup (faddrs fs ++ addrs lp) → head_free s →
  ∃ s' r fs' lp', forest_loop fuel s prev pT p = Some (s', r) ∧
    unch (faddrs fs ++ addrs lp) s s' ∧ forest s' pT fs' ∧ fsorted fs' ∧
    heads fs' = heads fs ∧ keeps (fnodes fs ++ lp) (fnodes fs' ++ lp') ∧
    match r with
    | None => lp' = []
    | Some (prev', p') =>
        prev' = from_option Some prev (last (heads fs)) ∧ lst s' (Some p') lp' ∧ sorted lp'
    end.
Proof.
  revert s prev pT fs p lp. induction fuel as [|fuel IH];
    intros s prev pT fs p lp Hf Hp Hs Hl Hsl Hnd Hh;
    (destruct fs as [|[a t] fs];
      [rewrite Hp; exists s, (Some (prev, p)), [], lp; by repeat split|]); simpl in Hf; [lia|].
  assert (height t ≤ entries s)%nat as Hht.
  { eapply (forest_tree_height s pT a t); [exact Hp| |set_solver]. by apply NoDup_app in Hnd as []. }
  destruct Hp as (-> & Hv & (r & Hr & Ht) & (n & Hn & Hp)).
  apply Forall_cons in Hs as [Hst Hs]. cbn [snd] in Hst.
  assert (NoDup ((a :: addrs (nodes t) ++ addrs lp) ++ faddrs fs)) as Hnd'.
  { eapply NoDup_Permutation_proper; [|exact Hnd]. rewrite faddrs_cons. cbn [app].
    rewrite <- !app_assoc. by rewrite (Permutation_app_comm (addrs lp)). }
  clear Hnd. apply NoDup_app in Hnd' as (Hnd1 & Hdis & Hndf).
  cbn [forest_loop]. rewrite Hr. cbn [mbind option_bind]. destruct r as [r|].
  - destruct (forest_step s a t r p lp n) as (s1 & aux & tl & s2 & h & -> & E & U & Hh2 & Hla & Hra & Hm);
      [done..|]. cbn [mbind option_bind]. rewrite E. cbn [mbind option_bind].
    rewrite Hra. cbn [mbind option_bind].
    pose proof (keeps_mrg (nodes t) lp) as Hk.
    assert (∀ b, b ∈ addrs (mrg (nodes t) lp) → b ∈ addrs (nodes t) ++ addrs lp) as Hkin.
    { intros b. rewrite <- fmap_app. by apply keeps_addrs. }
    destruct (IH s2 (Some a) n fs h (mrg (nodes t) lp))
      as (s3 & res & fs' & lp' & -> & U3 & Hf3 & Hs3 & Hh3 & Hk3 & Hres).
    { lia. }
    { eapply forest_frame; [exact U| |exact Hp]. clear -Hdis. set_solver. }
    { done. }
    { done. }
    { by apply mrg_sorted. }
    { apply NoDup_app. split; [done|]. split; [clear -Hdis Hkin; set_solver|].
      eapply keeps_NoDup; [exact Hk|]. rewrite fmap_app. by apply NoDup_cons in Hnd1 as []. }
    { done. }
    assert (a ∉ faddrs fs ++ addrs (mrg (nodes t) lp)) as Ha.
    { apply NoDup_cons in Hnd1 as [Ha _]. clear -Ha Hdis Hkin. set_solver. }
    exists s3, res, ((a, Lf) :: fs'), lp'. split; [done|]. split; [|split; [|split; [|split; [|split]]]].
    + eapply unch_trans; [exact U|exact U3|..]; intros b; rewrite faddrs_cons.
      * clear. set_solver.
      * specialize (Hkin b). clear -Hkin. set_solver.
    + split; [done|]. split; [by rewrite (unch_v _ _ _ U3), (unch_v _ _ _ U)|]. split.
      * exists None. split; [by rewrite (unch_left _ _ _ U3)|done].
      * exists n. split; [by rewrite (unch_right _ _ _ U3)|done].
    + constructor; [constructor|done].
    + unfold heads in *. simpl. by f_equal.
    + rewrite !fnodes_cons. cbn [nodes app]. eapply keeps_trans; [|exact Hk3].
      rewrite (Permutation_app_comm (nodes t)), <- app_assoc.
      by apply keeps_app; [apply keeps_perm|].
    + destruct res as [[prev' p']|]; [|done]. by rewrite <- (last_heads prev).
  - apply tree_None in Ht as ->. cbn [nodes fmap list_fmap app] in Hnd1, Hdis.
    pose proof Hnd1 as [Ha Hndl]%NoDup_cons.
    destruct (list_to_tree_correct s p lp Hl Hndl) as (s1 & root & t' & -> & U1 & Ht' & En & _).
    cbn [mbind option_bind]. set (s1' := set_left a (Some root) s1).
    assert (unch (a :: addrs lp) s s1') as U.
    { eapply unch_trans; [exact U1|apply (unch_set_left [a])|..]; clear; set_solver. }
    exists s1', None, ((a, t') :: fs), []. split; [done|]. split; [|split; [|split; [|split; [|split]]]].
    + eapply unch_mono; [exact U|]. rewrite faddrs_cons. clear; set_solver.
    + split; [done|]. split; [by rewrite (unch_v _ _ _ U)|]. split.
      * exists (Some root). split; [by apply lookup_insert_eq|].
        eapply tree_frame; [apply (unch_set_left [a])| |done]; rewrite ?En; clear -Ha; set_solver.
      * exists n. split; [simpl; by rewrite (unch_right _ _ _ U1)|].
        eapply forest_frame; [exact U| |done]. clear -Hdis. set_solver.
    + constructor; [by simpl; rewrite En|done].
    + done.
    + rewrite !fnodes_cons, app_nil_r, En. cbn [nodes app]. apply keeps_perm.
      by rewrite (Permutation_app_comm lp).
    + done.
Qed.

(** ** The invariant of a RowSet *)

(** The unused entries of the current chunk are disjoint from every object of the
    store, and [L] is the number of allocations that do not belong to [p]. *)
Record pool (L : Z) (p : RowSet) (w : world) : Prop := {
  pool_dom : ∀ a, is_Some (s_v (st w) !! a) →
    0 ≤ a < brk w ∧ ¬ (pFresh p ≤ a < pFresh p + nFresh p);
  pool_head : s_right (st w) !! HEAD = None;
  pool_fresh : 0 ≤ nFresh p < 2 ^ 16 ∧ 0 ≤ pFresh p ∧ pFresh p + nFresh p ≤ brk w;
  pool_live : live (am w) = L + 1 + zlen (pChunk p);
}.

(** [lp] are the pending entries, in insertion order, and [fs] the forest. *)
Record rs_rep (L : Z) (p : RowSet) (w : world) (lp : list node) (fs : list (Z * tr)) : Prop := {
  rep_pool : pool L p w;
  rep_lst : lst (st w) (pEntry p) lp;
  rep_last : pLast p = fst <$> last lp;
  rep_forest : forest (st w) (pForest p) fs;
  rep_fsorted : fsorted fs;
  rep_nodup : NoDup (faddrs fs ++ addrs lp);
  rep_flags : rsFlags p = 0 ∨ rsFlags p = ROWSET_SORTED ∧ sorted lp;
}.

(** A world in which addresses below [brk] are in use. *)
Definition world_ok (w : world) : Prop :=
  0 ≤ brk w ∧ s_right (st w) !! HEAD = None ∧
  ∀ a, is_Some (s_v (st w) !! a) → 0 ≤ a < brk w.

Lemma pool_head_free L p w : pool L p w → head_free (st w).
Proof.
  intros H. split; [|by apply H]. apply eq_None_not_Some. intros Hs.
  apply (pool_dom _ _ _ H) in Hs. unfold HEAD in Hs. lia.
Qed.

Lemma pool_unch L p p' w s D :
  pool L p w → unch D (st w) s → HEAD ∉ D →
  pFresh p' = pFresh p → nFresh p' = nFresh p → pChunk p' = pChunk p →
  pool L p' (World s (brk w) (am w)).
Proof.
  intros [Hd Hh Hf Hl] U HD E1 E2 E3. split; simpl; rewrite ?E1, ?E2, ?E3; try done.
  - by rewrite (unch_v _ _ _ U).
  - by rewrite (unch_right _ _ _ U).
Qed.

Lemma init_rep N w :
  sizeof_RowSet ≤ N → world_ok w → always_ok (am w) →
  ∃ p w', sqlite3RowSetInit N w = (Some p, w') ∧ rs_rep (live (am w)) p w' [] [] ∧
    iBatch p = 0 ∧ always_ok (am w').
Proof.
  intros HN (Hb & Hh & Hd) Hok. unfold sqlite3RowSetInit.
  destruct (sqlite3Malloc (am w)) as [ok m] eqn:E.
  pose proof (sqlite3Malloc_live _ _ _ E) as Hl.
  apply sqlite3Malloc_ok in E as [-> Hok']; [|done]. simpl in Hl.
  set (n := u16 _). pose proof (u16_range ((N - sizeof_RowSet) / sizeof_RowSetEntry)) as Hn.
  fold n in Hn. do 2 eexists. split; [done|]. split; [|done]. split; simpl.
  - split; simpl; [|done|lia|lia]. intros a Ha%Hd. lia.
  - done.
  - done.
  - done.
  - constructor.
  - constructor.
  - right. split; [done|constructor].
Qed.

(** Allocation: [e] is an address outside the store, and the pool stays valid
    once [e] is in the store. *)
Lemma alloc_correct L p w :
  pool L p w → always_ok (am w) →
  ∃ e p' w', rowSetEntryAlloc p w = (Some e, p', w') ∧ always_ok (am w') ∧
    st w' = st w ∧ s_v (st w) !! e = None ∧ 0 ≤ e ∧
    pEntry p' = pEntry p ∧ pLast p' = pLast p ∧ pForest p' = pForest p ∧
    rsFlags p' = rsFlags p ∧ iBatch p' = iBatch p ∧
    ∀ s, (∀ a, is_Some (s_v s !! a) → a = e ∨ is_Some (s_v (st w) !! a)) →
      s_right s !! HEAD = None → pool L p' (World s (brk w') (am w')).
Proof.
  intros [Hd Hh Hf Hl] Hok. unfold rowSetEntryAlloc. case_cmp.
  - destruct (sqlite3Malloc (am w)) as [ok m] eqn:E.
    pose proof (sqlite3Malloc_live _ _ _ E) as Hm.
    apply sqlite3Malloc_ok in E as [-> Hok']; [|done].
    do 3 eexists. split; [done|]. simpl. repeat (split; [done|]). split.
    { apply eq_None_not_Some. intros [[_ ?] _]%Hd. lia. }
    split; [lia|]. repeat (split; [done|]). intros s Hs Hsh. split; simpl in *.
    + change (u16 (ROWSET_ENTRY_PER_CHUNK - 1)) with 41. change ROWSET_ENTRY_PER_CHUNK with 42.
      intros a [->|[? ?]%Hd]%Hs; lia.
    + done.
    + change (u16 (ROWSET_ENTRY_PER_CHUNK - 1)) with 41.
      change ROWSET_ENTRY_PER_CHUNK with 42. lia.
    + lia.
  - do 3 eexists. split; [done|]. simpl. repeat (split; [done|]). split.
    { apply eq_None_not_Some. intros [_ ?]%Hd. lia. }
    split; [lia|]. repeat (split; [done|]). intros s Hs Hsh.
    assert (u16 (nFresh p - 1) = nFresh p - 1) as E by (apply u16_id; lia).
    split; simpl in *; rewrite ?E.
    + intros a [->|[? ?]%Hd]%Hs; lia.
    + done.
    + lia.
    + lia.
Qed.

(** Writing a new object does not disturb what the others reach. *)
Lemma lseg_new s e x p l q n :
  s_v s !! e = None → lseg s p l q → lseg (set_right e n (set_v e x s)) p l q.
Proof.
  intros He. revert p. induction l as [|[a y] l IH]; intros p; simpl; [done|].
  intros (-> & Hv & m & Hm & H). assert (a ≠ e) by congruence.
  rewrite !lookup_insert_ne by done. eauto 10.
Qed.

Lemma tree_new s e x p t n :
  s_v s !! e = None → tree s p t → tree (set_right e n (set_v e x s)) p t.
Proof.
  intros He. revert p. induction t as [|tl IHl [a y] tr IHr]; intros p; simpl; [done|].
  intros (-> & Hv & (pl & ? & ?) & (pr & ? & ?)). assert (a ≠ e) by congruence.
  rewrite !lookup_insert_ne by done. eauto 10.
Qed.

Lemma forest_new s e x p fs n :
  s_v s !! e = None → forest s p fs → forest (set_right e n (set_v e x s)) p fs.
Proof.
  intros He. revert p. induction fs as [|[a t] fs IH]; intros p; simpl; [done|].
  intros (-> & [v Hv] & (r & ? & ?) & (m & ? & ?)). assert (a ≠ e) by congruence.
  rewrite !lookup_insert_ne by done.
  split; [done|]. split; [by exists v|]. split; [exists r|exists m]; split; try done.
  - by apply tree_new.
  - by apply IH.
Qed.

Lemma sorted_snoc l e x b y :
  sorted (l ++ [(b, y)]) → y < x → sorted ((l ++ [(b, y)]) ++ [(e, x)]).
Proof.
  intros Hs Hlt. apply sorted_app. split; [done|]. split; [constructor|]. split; [|constructor].
  apply sorted_app in Hs as (_ & _ & Hl & _). rewrite fmap_app, Forall_app. split.
  - eapply Forall_impl; [exact Hl|]. simpl. lia.
  - by repeat constructor.
Qed.

(** Insertion appends a fresh entry to the pending list. *)
Lemma insert_rep L p w lp fs x :
  rs_rep L p w lp fs → always_ok (am w) →
  ∃ e p' w', sqlite3RowSetInsert p x w = Some (p', w') ∧
    rs_rep L p' w' (lp ++ [(e, x)]) fs ∧ iBatch p' = iBatch p ∧ always_ok (am w').
Proof.
  intros [Hpool Hlst Hlast Hfor Hfs Hnd Hfl] Hok.
  destruct (alloc_correct L p w Hpool Hok)
    as (e & p1 & w1 & E & Hok1 & Est & He & He0 & E1 & E2 & E3 & E4 & E5 & Hpool1).
  unfold sqlite3RowSetInsert. rewrite E. cbn beta iota zeta. rewrite Est, E2, Hlast.
  exists e. set (s := set_right e None (set_v e x (st w))).
  assert (∀ a, is_Some (s_v s !! a) → a = e ∨ is_Some (s_v (st w) !! a)) as Hdom.
  { intros a. simpl. destruct (decide (a = e)); [by left|]. rewrite lookup_insert_ne by done. by right. }
  assert (s_right s !! HEAD = None) as Hh.
  { simpl. rewrite lookup_insert_ne by (unfold HEAD; lia). apply Hpool. }
  assert (NoDup (faddrs fs ++ addrs (lp ++ [(e, x)]))) as Hnd'.
  { rewrite fmap_app, app_assoc. apply NoDup_app. split; [done|]. split; [|apply NoDup_singleton].
    intros a Ha ->%list_elem_of_singleton. assert (is_Some (s_v (st w) !! e)) as [? ?]; [|congruence].
    apply elem_of_app in Ha as [?|?]; [by eapply forest_addr|by eapply lst_addr]. }
  destruct (last lp) as [[b y]|] eqn:El; cbn [fmap option_fmap option_map fst].
  - apply last_Some in El as [l ->].
    assert (s_v (st w) !! b = Some y) as Hb.
    { eapply lst_v; [exact Hlst|]. set_solver. }
    assert (b ≠ e) by congruence.
    cbn [s_v set_right set_v s]. rewrite lookup_insert_ne, Hb by done. cbn [mbind option_bind].
    do 2 eexists. split; [done|]. split; [|done].
    assert (b ∉ faddrs fs ++ addrs l) as Hbn.
    { rewrite fmap_app, app_assoc in Hnd. apply NoDup_app in Hnd as (_ & Hd & _).
      intros Hin. apply (Hd b Hin). set_solver. }
    split; simpl.
    + eapply (pool_unch L p1 _ (World s (brk w1) (am w1)) _ [b]); [by apply Hpool1| | |done..].
      * apply unch_set_right. set_solver.
      * rewrite list_elem_of_singleton. intros <-.
        assert (is_Some (s_v (st w) !! HEAD)) as Hi by eauto.
        apply (pool_dom _ _ _ Hpool) in Hi. unfold HEAD in Hi. lia.
    + apply lseg_app. exists (Some e). split.
      * rewrite E1. eapply lseg_snoc_set; [apply lseg_new; done|]. set_solver.
      * split; [done|]. split; [by apply lookup_insert_eq|]. exists None. simpl.
        rewrite lookup_insert_ne by done. split; [by apply lookup_insert_eq|done].
    + by rewrite last_snoc.
    + rewrite E3. eapply (forest_frame [b]); [apply unch_set_right; set_solver|set_solver|].
      by apply forest_new.
    + done.
    + done.
    + rewrite E4. case_cmp; destruct Hfl as [->|[-> ?]]; [by left..|by left|].
      right. split; [done|]. by apply sorted_snoc.
  - apply last_None in El as ->.
    do 2 eexists. split; [done|]. split; [|done]. split; simpl.
    + eapply (pool_unch L p1 _ (World s (brk w1) (am w1)) _ []); [by apply Hpool1|done|set_solver|done..].
    + split; [done|]. split; [by apply lookup_insert_eq|]. exists None.
      split; [by apply lookup_insert_eq|done].
    + done.
    + rewrite E3. by apply forest_new.
    + done.
    + done.
    + rewrite E4. destruct Hfl as [->|[-> ?]]; [by left|right]. split; [done|].
      repeat constructor.
Qed.

(** Linking a new entry [t] behind the last one. *)
Lemma forest_append D s s' p fs t tt :
  forest s p fs → NoDup (faddrs fs) →
  unch (option_list (last (heads fs)) ++ D) s s' → (∀ a, a ∈ faddrs fs → a ∉ D) →
  (∀ f, last (heads fs) = Some f →
     s_right s' !! f = Some (Some t) ∧ s_left s' !! f = s_left s !! f) →
  forest s' (Some t) [(t, tt)] →
  forest s' (match last (heads fs) with Some _ => p | None => Some t end) (fs ++ [(t, tt)]).
Proof.
  revert p. induction fs as [|[a k] fs IH]; intros p Hf Hnd U HD Hlast Ht; [done|].
  destruct Hf as (-> & Hv & (r & Hr & Hk) & (n & Hn & Hf)).
  rewrite faddrs_cons in Hnd. apply NoDup_cons in Hnd as [Ha (Hndk & Hdis & Hnd)%NoDup_app].
  assert (∀ b, b ∈ a :: addrs (nodes k) ++ faddrs fs → b ∉ D) as HD'.
  { intros b Hb. apply HD. by rewrite faddrs_cons. }
  assert (last (heads ((a, k) :: fs)) = Some (default a (last (heads fs)))) as E.
  { unfold heads. cbn [fmap list_fmap fst]. rewrite last_cons. by destruct (last _). }
  rewrite E in U, Hlast |- *.
  assert (default a (last (heads fs)) ∈ a :: faddrs fs) as Hfin.
  { unfold faddrs. destruct (last (heads fs)) as [b|] eqn:Eb; simpl.
    - apply last_Some_elem_of in Eb. set_solver.
    - apply list_elem_of_here. }
  assert (∀ b, last (heads fs) = Some b → b ∈ faddrs fs) as Hbin.
  { intros b Eb%last_Some_elem_of. unfold faddrs. set_solver. }
  destruct (Hlast _ eq_refl) as [Hrf Hlf]. clear E.
  assert (tree s' r k) as Hk'.
  { eapply tree_frame; [exact U| |exact Hk]. simpl. revert Hfin.
    generalize (default a (last (heads fs))). clear -Ha Hdis HD'.
    intros f Hf b Hb [->|HbD]%elem_of_cons.
    - apply elem_of_cons in Hf as [->|Hf]; [apply Ha, elem_of_app; by left|by apply (Hdis f)].
    - apply (HD' b); [set_solver|done]. }
  assert (s_left s' !! a = Some r) as Hla.
  { destruct (decide (a = default a (last (heads fs)))) as [Eq|Hne]; [by rewrite <- Eq in Hlf; rewrite Hlf|].
    rewrite (unch_left _ _ _ U); [done|]. simpl. revert Hne.
    generalize (default a (last (heads fs))). clear -HD'. set_solver. }
  split; [done|]. split; [by rewrite (unch_v _ _ _ U)|]. split; [by exists r|].
  destruct (last (heads fs)) as [b|] eqn:Eb; cbn [from_option id] in *.
  - exists n. specialize (Hbin b eq_refl). split.
    + rewrite (unch_right _ _ _ U); [done|]. simpl. clear - Ha HD' Hbin. set_solver.
    + apply IH; try done. intros c Hc. apply HD', list_elem_of_further, elem_of_app. by right.
  - exists (Some t). split; [done|]. assert (fs = []) as ->; [|done].
    apply last_None in Eb. by destruct fs.
Qed.

(** Sorting the pending list unless it is known to be sorted. *)
Lemma sort_step L p w lp fs :
  rs_rep L p w lp fs → zlen lp < 2 ^ NBUCKET →
  ∃ s1 e1 lp1,
    (if negb (flag p ROWSET_SORTED) then rowSetEntrySort (st w) (pEntry p)
     else Some (st w, pEntry p)) = Some (s1, e1) ∧
    relinked (addrs lp) (st w) s1 ∧ lst s1 e1 lp1 ∧ sorted lp1 ∧ keeps lp lp1.
Proof.
  intros [Hpool Hlst Hlast Hfor Hfs Hnd Hfl] Hlen. unfold flag.
  destruct Hfl as [->|[-> Hs]].
  - apply sort_correct; [done| |by eapply pool_head_free|done].
    by apply NoDup_app in Hnd as (_ & _ & ?).
  - exists (st w), (pEntry p), lp. split; [done|]. split; [by split|]. by repeat split.
Qed.

(** The new forest entry [t], written through [*ppPrevTree], receives the list
    that did not fit in the existing ones. *)
Lemma new_tree_correct s p fs t e l :
  forest s p fs → lst s (Some e) l → NoDup (faddrs fs ++ addrs l) → s_v s !! t = None →
  ∃ s' root tt,
    rowSetListToTree (set_right t None (set_v t 0
      (match last (heads fs) with Some f => set_right f (Some t) s | None => s end))) e
      = Some (s', root) ∧
    forest (set_left t (Some root) s')
      (match last (heads fs) with Some _ => p | None => Some t end) (fs ++ [(t, tt)]) ∧
    nodes tt = l ∧
    (∀ a, is_Some (s_v s' !! a) → a = t ∨ is_Some (s_v s !! a)) ∧
    (∀ a, a ≠ t → a ∉ faddrs fs ++ addrs l → s_right s' !! a = s_right s !! a) ∧
    t ∉ faddrs fs ++ addrs l.
Proof.
  intros Hf Hl Hnd Ht.
  assert (t ∉ faddrs fs ++ addrs l) as Htn.
  { intros Hin. assert (is_Some (s_v s !! t)) as [v Hv]; [|congruence].
    apply elem_of_app in Hin as [?|?]; [by eapply forest_addr|by eapply lst_addr]. }
  set (s0 := set_right t None (set_v t 0 s)).
  set (s1 := match last (heads fs) with Some f => set_right f (Some t) s0 | None => s0 end).
  assert (set_right t None (set_v t 0
      (match last (heads fs) with Some f => set_right f (Some t) s | None => s end)) = s1) as ->.
  { subst s1 s0. destruct (last (heads fs)) as [f|] eqn:E; [|done].
    unfold set_right, set_v. f_equal. simpl. apply insert_insert_ne. intros ->.
    apply Htn. unfold faddrs. apply last_Some_elem_of in E. set_solver. }
  assert (∀ f, last (heads fs) = Some f → f ∈ faddrs fs) as Hfin.
  { intros f E%last_Some_elem_of. unfold faddrs. set_solver. }
  pose proof Hnd as (Hndf & Hdis & Hndl)%NoDup_app.
  assert (unch (option_list (last (heads fs))) s0 s1) as U1.
  { unfold s1. destruct (last (heads fs)); [|done]. apply unch_set_right, list_elem_of_here. }
  destruct (list_to_tree_correct s1 e l) as (s2 & root & tt & -> & U2 & Htt & En & _); [|done|].
  { eapply lseg_frame; [exact U1| |by apply lseg_new]. intros a Ha.
    destruct (last (heads fs)) as [f|]; [|set_solver]. intros ->%list_elem_of_singleton.
    by apply (Hdis f); [apply Hfin|]. }
  assert (unch (t :: addrs l) s1 (set_left t (Some root) s2)) as U3.
  { eapply unch_trans; [exact U2|apply (unch_set_left [t])|..]; clear; set_solver. }
  exists s2, root, tt. split; [done|]. split; [|split; [done|split; [|split; [|done]]]].
  - eapply (forest_append (t :: addrs l) s0); [by apply forest_new|done| | | |].
    + eapply unch_trans; [exact U1|exact U3|..]; clear; set_solver.
    + intros a Ha. clear -Ha Htn Hdis. set_solver.
    + intros f E. specialize (Hfin f E). assert (f ∉ t :: addrs l) as Hfn.
      { clear -Hfin Htn Hdis. set_solver. }
      rewrite (unch_right _ _ _ U3), (unch_left _ _ _ U3) by done.
      unfold s1. rewrite E. split; [by apply lookup_insert_eq|done].
    + split; [done|]. split; [|split].
      * exists 0. simpl. rewrite (unch_v _ _ _ U2), (unch_v _ _ _ U1). by apply lookup_insert_eq.
      * exists (Some root). split; [by apply lookup_insert_eq|].
        eapply tree_frame; [apply (unch_set_left [t])| |done]; rewrite ?En; clear -Htn; set_solver.
      * exists None. split; [|done]. simpl.
        rewrite (unch_right _ _ _ U2), (unch_right _ _ _ U1); [by apply lookup_insert_eq| |].
        -- destruct (last (heads fs)) as [f|]; [|set_solver]. specialize (Hfin f eq_refl).
           clear -Hfin Htn. set_solver.
        -- clear -Htn. set_solver.
  - intros a. rewrite (unch_v _ _ _ U2), (unch_v _ _ _ U1). simpl.
    destruct (decide (a = t)) as [->|]; [by left|]. rewrite lookup_insert_ne by done. by right.
  - intros a Hat Ha. rewrite (unch_right _ _ _ U2), (unch_right _ _ _ U1); simpl.
    + by rewrite lookup_insert_ne.
    + destruct (last (heads fs)) as [f|]; [|set_solver]. specialize (Hfin f eq_refl).
      clear -Hfin Ha. set_solver.
    + clear -Ha. set_solver.
Qed.

(** What [flush_pending] does with the list that did not fit. *)
Definition flush_rest (p : RowSet) (w : world) (rest : option (option Z * Z)) :
    option (RowSet * world) :=
  match rest with
  | None => Some (p, w)
  | Some (prev, e) =>
      let '(t, p, w) := rowSetEntryAlloc p w in
      let '(forest, s) := match prev with
                          | None => (t, st w)
                          | Some f => (pForest p, set_right f t (st w))
                          end in
      let p := mkRowSet (pChunk p) (pEntry p) (pLast p) (pFresh p) forest
                 (nFresh p) (rsFlags p) (iBatch p) in
      match t with
      | None => Some (p, World s (brk w) (am w))
      | Some t =>
          let s := set_right t None (set_v t 0 s) in
          '(s, root) ← rowSetListToTree s e;
          Some (p, World (set_left t (Some root) s) (brk w) (am w))
      end
  end.

Lemma flush_rest_correct L p w fs lp r :
  pool L p w → always_ok (am w) → forest (st w) (pForest p) fs → fsorted fs →
  NoDup (faddrs fs ++ addrs lp) →
  match r with
  | None => lp = []
  | Some (prev, e) => prev = last (heads fs) ∧ lst (st w) (Some e) lp ∧ sorted lp
  end →
  ∃ p' w' fs', flush_rest p w r = Some (p', w') ∧ pool L p' w' ∧ always_ok (am w') ∧
    forest (st w') (pForest p') fs' ∧ fsorted fs' ∧ NoDup (faddrs fs') ∧
    fnodes fs' = fnodes fs ++ lp ∧ rsFlags p' = rsFlags p ∧ iBatch p' = iBatch p.
Proof.
  intros Hpool Hok Hf Hfs Hnd Hr. destruct r as [[prev e]|]; cbn [flush_rest].
  2: { subst lp. exists p, w, fs. rewrite !app_nil_r in *. done. }
  destruct Hr as (-> & Hl & Hs).
  destruct (alloc_correct L p w Hpool Hok)
    as (t & p1 & w1 & -> & Hok1 & Est & Ht & Ht0 & E1 & E2 & E3 & E4 & E5 & Hpool1).
  destruct (new_tree_correct (st w) (pForest p) fs t e lp)
    as (s' & root & tt & E & Hfor & En & Hdom & Hright & Htn); [done..|].
  cbn beta iota zeta. rewrite Est, E3.
  assert (HEAD ≠ t ∧ HEAD ∉ faddrs fs ++ addrs lp) as [HHt HHn].
  { split; [unfold HEAD; lia|]. intros Hin.
    assert (is_Some (s_v (st w) !! HEAD)) as [Hi _]%(pool_dom _ _ _ Hpool); [|unfold HEAD in Hi; lia].
    apply elem_of_app in Hin as [?|?];
      [by apply (forest_addr (st w) (pForest p) fs)|by apply (lst_addr (st w) (Some e) lp)]. }
  exists (mkRowSet (pChunk p1) (pEntry p1) (pLast p1) (pFresh p1)
    (match last (heads fs) with Some _ => pForest p | None => Some t end)
    (nFresh p1) (rsFlags p1) (iBatch p1)), (World (set_left t (Some root) s') (brk w1) (am w1)),
    (fs ++ [(t, tt)]).
  split.
  { destruct (last (heads fs)) as [f|]; cbn beta iota zeta; rewrite E; done. }
  split.
  { specialize (Hpool1 (set_left t (Some root) s') Hdom). destruct Hpool1 as [H1 H2 H3 H4].
    - simpl. rewrite (Hright HEAD) by done. apply Hpool.
    - by split. }
  split; [done|]. split; [done|]. split.
  { apply Forall_app. split; [done|]. constructor; [by simpl; rewrite En|constructor]. }
  split.
  { eapply NoDup_Permutation_proper; [|apply (NoDup_cons t); split; [exact Htn|exact Hnd]].
    unfold faddrs, heads, fnodes. rewrite !fmap_app, bind_app. cbn [fmap list_fmap mbind list_bind fst snd].
    rewrite app_nil_r, fmap_app, En, <- !app_assoc. symmetry. apply Permutation_middle. }
  split; [|done]. unfold fnodes. rewrite bind_app. simpl. by rewrite app_nil_r, En.
Qed.

(** Moving the pending entries into the forest. *)
Lemma flush_correct L p w lp fs :
  rs_rep L p w lp fs → always_ok (am w) → zlen lp < 2 ^ NBUCKET →
  ∃ p' w' fs', flush_pending p w = Some (p', w') ∧ rs_rep L p' w' [] fs' ∧
    iBatch p' = iBatch p ∧ always_ok (am w') ∧
    ∀ x, x ∈ vals (fnodes fs') ↔ x ∈ vals (fnodes fs) ∨ x ∈ vals lp.
Proof.
  intros Hrep Hok Hlen. unfold flush_pending.
  pose proof Hrep as [Hpool Hlst Hlast Hfor Hfs Hnd Hfl].
  destruct (pEntry p) as [e0|] eqn:Ee.
  2: { apply lst_None in Hlst as ->. exists p, w, fs. split; [done|]. split; [done|].
       split; [done|]. split; [done|]. set_solver. }
  destruct (sort_step L p w lp fs Hrep Hlen) as (s1 & e1 & lp1 & E & [U1 L1] & Hl1 & Hs1 & Hk1).
  rewrite Ee in E. rewrite E. cbn [mbind option_bind].
  destruct e1 as [e1|].
  2: { apply lst_None in Hl1 as ->. destruct (lst_Some _ _ _ Hlst) as (x & l' & ->).
       exfalso. pose proof (proj2 Hk1 x). set_solver. }
  cbn [mbind option_bind].
  pose proof Hnd as (Hndf & Hdis & Hndl)%NoDup_app.
  assert (HEAD ∉ addrs lp) as HD.
  { eapply head_not_in; [by eapply pool_head_free|done]. }
  assert (forest s1 (pForest p) fs) as Hfor1.
  { by eapply forest_frame. }
  assert (∀ a, a ∈ addrs lp1 → a ∈ addrs lp) as Hin by (intros a; by apply keeps_addrs).
  assert (NoDup (faddrs fs ++ addrs lp1)) as Hnd1.
  { apply NoDup_app. split; [done|]. split; [|by eapply keeps_NoDup].
    intros a Ha Ha1%Hin. by apply (Hdis a). }
  destruct (forest_loop_correct (entries s1) s1 None (pForest p) fs e1 lp1)
    as (s2 & r & fs' & lp2 & -> & U2 & Hfor2 & Hfs2 & Hh2 & Hk2 & Hr); [|done..| |].
  { apply Nat.lt_le_incl. by eapply forest_length_entries. }
  { eapply head_free_unch; [exact U1|done|by eapply pool_head_free]. }
  cbn [mbind option_bind].
  assert (NoDup (faddrs fs' ++ addrs lp2)) as Hnd2.
  { unfold faddrs in Hnd1 |- *. rewrite Hh2, <- app_assoc, <- fmap_app.
    rewrite <- app_assoc, <- fmap_app in Hnd1. eapply submseteq_NoDup; [|exact Hnd1].
    apply submseteq_app; [done|]. by apply fmap_submseteq, Hk2. }
  assert (∀ x, x ∈ vals (fnodes fs' ++ lp2) ↔ x ∈ vals (fnodes fs) ∨ x ∈ vals lp) as Hvals.
  { intros x. rewrite (proj2 Hk2 x), fmap_app, elem_of_app. by rewrite (proj2 Hk1 x). }
  assert (unch (faddrs fs ++ addrs lp) (st w) s2) as U.
  { eapply unch_trans; [exact U1|exact U2|..]; [clear; set_solver|].
    intros a [?|?]%elem_of_app; apply elem_of_app; auto. }
  assert (HEAD ∉ faddrs fs ++ addrs lp) as HD'.
  { intros [Hi|?]%elem_of_app; [|done].
    apply (forest_addr _ _ _ _ Hfor) in Hi. apply (pool_dom _ _ _ Hpool) in Hi. unfold HEAD in Hi. lia. }
  destruct (flush_rest_correct L p (World s2 (brk w) (am w)) fs' lp2 r)
    as (p3 & w3 & fs3 & E3 & Hpool3 & Hok3 & Hfor3 & Hfs3 & Hnd3 & En3 & Efl & Eb); [|done..| |].
  { by eapply pool_unch. }
  { destruct r as [[prev e]|]; [|done]. destruct Hr as (-> & ? & ?). rewrite Hh2.
    split; [by destruct (last (heads fs))|done]. }
  unfold flush_rest in E3. rewrite E3. cbn [mbind option_bind].
  do 2 eexists. exists fs3. split; [done|]. split; [|split; [done|split; [done|by rewrite En3]]].
  destruct Hpool3 as [H1 H2 H3 H4].
  split; simpl; try done.
  - by rewrite app_nil_r.
  - right. rewrite Efl. split; [|constructor]. by destruct Hfl as [->|[-> _]].
Qed.

Lemma test_rep L p w lp fs b x :
  rs_rep L p w lp fs → always_ok (am w) → zlen lp < 2 ^ NBUCKET →
  ∃ p' w' lp' fs',
    sqlite3RowSetTest p b x w = Some (bool_decide (x ∈ vals (fnodes fs')), p', w') ∧
    rs_rep L p' w' lp' fs' ∧ iBatch p' = b ∧ always_ok (am w') ∧
    if b =? iBatch p then lp' = lp ∧ fs' = fs
    else lp' = [] ∧ ∀ y, y ∈ vals (fnodes fs') ↔ y ∈ vals (fnodes fs) ∨ y ∈ vals lp.
Proof.
  intros Hrep Hok Hlen. unfold sqlite3RowSetTest.
  assert (∀ p w lp fs, rs_rep L p w lp fs →
    forest_search (entries (st w)) (st w) (pForest p) x
      = Some (bool_decide (x ∈ vals (fnodes fs)))) as Hsearch.
  { clear. intros p w lp fs [Hpool Hlst Hlast Hfor Hfs Hnd Hfl].
    apply NoDup_app in Hnd as (Hnd & _). apply forest_search_correct; try done.
    - apply Nat.lt_le_incl. by eapply forest_length_entries.
    - intros a t Hin. by eapply forest_tree_height. }
  destruct (Z.eqb_spec b (iBatch p)); cbn [negb mbind option_bind].
  - rewrite (Hsearch _ _ _ _ Hrep). cbn [mbind option_bind]. by exists p, w, lp, fs.
  - destruct (flush_correct L p w lp fs Hrep Hok Hlen) as (p1 & w1 & fs1 & -> & Hrep1 & Eb & Hok1 & Hv).
    cbn [mbind option_bind].
    assert (rs_rep L (mkRowSet (pChunk p1) (pEntry p1) (pLast p1) (pFresh p1) (pForest p1)
      (nFresh p1) (rsFlags p1) b) w1 [] fs1) as Hrep2.
    { destruct Hrep1 as [[H1 H2 H3 H4] H5 H6 H7 H8 H9 H10]. split; [by split|done..]. }
    rewrite (Hsearch _ _ _ _ Hrep2). cbn [mbind option_bind]. eauto 10.
Qed.

(** ** Clearing *)

Lemma free_chunks_live cs w : live (am (foldl free_chunk w cs)) = live (am w) - zlen cs.
Proof.
  revert w. induction cs as [|c cs IH]; intros w; cbn [foldl]; [simpl; lia|].
  rewrite IH. simpl. lia.
Qed.

Lemma free_chunks_ok cs w : always_ok (am w) → always_ok (am (foldl free_chunk w cs)).
Proof. revert w. induction cs as [|c cs IH]; intros w H; cbn [foldl]; [done|]. by apply IH. Qed.

Lemma delete_live L p w :
  live (am w) = L + 1 + zlen (pChunk p) → live (am (sqlite3RowSetDelete p w)) = L.
Proof.
  intros H. unfold sqlite3RowSetDelete, sqlite3RowSetClear. simpl.
  rewrite free_chunks_live. lia.
Qed.

(** ** Draining *)

(** A RowSet that is being read: [l] is what remains. *)
Record draining (L : Z) (p : RowSet) (w : world) l : Prop := {
  dr_lst : lst (st w) (pEntry p) l;
  dr_next : l ≠ [] → flag p ROWSET_NEXT = true;
  dr_flags : l = [] → flag p ROWSET_NEXT = true ∨ flag p ROWSET_SORTED = true;
  dr_live : live (am w) = L + 1 + zlen (pChunk p);
}.

Lemma next_cons L p w a x l :
  draining L p w ((a, x) :: l) →
  ∃ p' w', sqlite3RowSetNext p w = Some (true, x, p', w') ∧ draining L p' w' l.
Proof.
  intros [Hl Hn _ Hm]. specialize (Hn ltac:(done)).
  unfold sqlite3RowSetNext. rewrite Hn. cbn [negb mbind option_bind].
  destruct Hl as (-> & Hv & n & Hr & Hl). rewrite Hv, Hr. cbn [mbind option_bind].
  destruct n as [n|].
  - do 2 eexists. split; [done|]. by split; [done|..|done]; [|left].
  - apply lst_None in Hl as ->. unfold sqlite3RowSetClear. simpl.
    do 2 eexists. split; [done|]. split; simpl; [done|done|by right|].
    rewrite free_chunks_live. lia.
Qed.

Lemma next_nil L p w :
  draining L p w [] →
  ∃ p' w', sqlite3RowSetNext p w = Some (false, 0, p', w') ∧ draining L p' w' [].
Proof.
  intros [Hl _ Hf Hm]. unfold lst, lseg in Hl. unfold sqlite3RowSetNext.
  destruct (flag p ROWSET_NEXT) eqn:E; cbn [negb mbind option_bind].
  - rewrite Hl. do 2 eexists. split; [done|]. split; [done|done|by left|done].
  - destruct (Hf eq_refl) as [?| ->]; [congruence|]. cbn [negb mbind option_bind pEntry].
    rewrite Hl. do 2 eexists. split; [done|]. split; simpl; [done|done| |done].
    intros _. left. unfold flag, ROWSET_NEXT, ROWSET_SORTED. simpl.
    apply negb_true_iff, Z.eqb_neq. intros H. apply Z.bits_inj_iff in H. specialize (H 1).
    rewrite Z.land_spec, Z.lor_spec, Z.bits_0 in H. change (Z.testbit 3 1) with true in H.
    change (Z.testbit 2 1) with true in H. by rewrite orb_true_r in H.
Qed.

Lemma drain_draining fuel L p w l :
  (length l < fuel)%nat → draining L p w l →
  ∃ p' w', drain fuel p w = Some (vals l, p', w') ∧ draining L p' w' [].
Proof.
  revert p w l. induction fuel as [|fuel IH]; intros p w l Hf Hd; [lia|]. cbn [drain].
  destruct l as [|[a x] l].
  - destruct (next_nil L p w Hd) as (p1 & w1 & -> & Hd1). cbn [mbind option_bind]. eauto.
  - destruct (next_cons L p w a x l Hd) as (p1 & w1 & -> & Hd1). cbn [mbind option_bind].
    destruct (IH p1 w1 l) as (p2 & w2 & -> & Hd2); [simpl in Hf; lia|done|].
    cbn [mbind option_bind]. eauto.
Qed.

(** The first call sorts the pending entries and starts the reading. *)
Lemma first_next L p w lp fs :
  rs_rep L p w lp fs → zlen lp < 2 ^ NBUCKET →
  ∃ p1 w1 lp1, draining L p1 w1 lp1 ∧ sorted lp1 ∧ keeps lp lp1 ∧
    sqlite3RowSetNext p w = sqlite3RowSetNext p1 w1.
Proof.
  intros Hrep Hlen.
  destruct (sort_step L p w lp fs Hrep Hlen) as (s1 & e1 & lp1 & E & [U1 L1] & Hl1 & Hs1 & Hk1).
  set (p1 := mkRowSet (pChunk p) e1 (pLast p) (pFresh p) (pForest p) (nFresh p)
               (Z.lor (rsFlags p) (Z.lor ROWSET_SORTED ROWSET_NEXT)) (iBatch p)).
  assert (flag p1 ROWSET_NEXT = true) as Hn1.
  { unfold flag, p1. simpl. destruct (rep_flags _ _ _ _ _ Hrep) as [->|[-> _]]; done. }
  assert (flag p ROWSET_NEXT = false) as Hn.
  { unfold flag. destruct (rep_flags _ _ _ _ _ Hrep) as [->|[-> _]]; done. }
  exists p1, (World s1 (brk w) (am w)), lp1. split; [|split; [done|split; [done|]]].
  - split; [done|done|by left|]. simpl. apply (pool_live _ _ _ (rep_pool _ _ _ _ _ Hrep)).
  - unfold sqlite3RowSetNext. rewrite Hn, Hn1. cbn [negb]. rewrite E. done.
Qed.

Lemma drain_rep L p w lp fs fuel :
  rs_rep L p w lp fs → zlen lp < 2 ^ NBUCKET → (length lp < fuel)%nat →
  ∃ out p' w', drain fuel p w = Some (out, p', w') ∧ StronglySorted Z.lt out ∧
    (∀ x, x ∈ out ↔ x ∈ vals lp) ∧ live (am (sqlite3RowSetDelete p' w')) = L.
Proof.
  intros Hrep Hlen Hf.
  destruct (first_next L p w lp fs Hrep Hlen) as (p1 & w1 & lp1 & Hd & Hs & Hk & E).
  destruct (drain_draining fuel L p1 w1 lp1) as (p2 & w2 & E2 & Hd2).
  - pose proof (submseteq_length _ _ (proj1 Hk)). lia.
  - done.
  - exists (vals lp1), p2, w2. split; [|split; [done|split; [apply Hk|]]].
    + rewrite <- E2. destruct fuel; [lia|]. cbn [drain]. by rewrite E.
    + apply delete_live, Hd2.
Qed.

Lemma insert_list_rep L p w lp fs xs :
  rs_rep L p w lp fs → always_ok (am w) →
  ∃ p' w' l', insert_list xs p w = Some (p', w') ∧ rs_rep L p' w' (lp ++ l') fs ∧
    vals l' = xs ∧ always_ok (am w').
Proof.
  unfold insert_list. revert p w lp. induction xs as [|x xs IH]; intros p w lp Hrep Hok.
  - exists p, w, []. by rewrite app_nil_r.
  - cbn [foldl mbind option_bind].
    destruct (insert_rep L p w lp fs x Hrep Hok) as (e & p1 & w1 & -> & Hrep1 & _ & Hok1).
    destruct (IH p1 w1 _ Hrep1 Hok1) as (p2 & w2 & l2 & -> & Hrep2 & <- & Hok2).
    exists p2, w2, ((e, x) :: l2). split; [done|]. by rewrite <- app_assoc in Hrep2.
Qed.

(** ** What a RowSet promises *)

(** C4: with no allocation failure, inserting any fewer than 2^40 rowids into a fresh RowSet and
    reading it to the end with sqlite3RowSetNext returns each distinct rowid once, in increasing
    order, and deleting the RowSet frees everything it allocated. *)
Theorem rowset_sorts (N : Z) (w : world) (xs : list Z) :
  sizeof_RowSet ≤ N → world_ok w → always_ok (am w) → zlen xs < 2 ^ NBUCKET →
  ∃ p w1 p2 w2 out p3 w3,
    sqlite3RowSetInit N w = (Some p, w1) ∧ insert_list xs p w1 = Some (p2, w2) ∧
    drain (S (length xs)) p2 w2 = Some (out, p3, w3) ∧
    StronglySorted Z.lt out ∧ (∀ x, x ∈ out ↔ x ∈ xs) ∧
    live (am (sqlite3RowSetDelete p3 w3)) = live (am w).
Proof.
  intros HN Hw Hok Hlen.
  destruct (init_rep N w HN Hw Hok) as (p & w1 & Ei & Hrep & _ & Hok1).
  destruct (insert_list_rep _ p w1 [] [] xs Hrep Hok1) as (p2 & w2 & l & E2 & Hrep2 & <- & Hok2).
  cbn [app] in Hrep2. rewrite !length_fmap in *.
  destruct (drain_rep _ p2 w2 l [] (S (length l)) Hrep2) as (out & p3 & w3 & E3 & Hs & Hv & Hl);
    [done|lia|].
  exists p, w1, p2, w2, out, p3, w3. done.
Qed.

(** A history of insertions and membership tests. *)
Inductive rs_op :=
  | OpInsert (x : Z)
  | OpTest (b x : Z).

(** The answers of the code. *)
Fixpoint rs_run (ops : list rs_op) (p : RowSet) (w : world) :
    option (list bool * RowSet * world) :=
  match ops with
  | [] => Some ([], p, w)
  | OpInsert x :: ops => '(p, w) ← sqlite3RowSetInsert p x w; rs_run ops p w
  | OpTest b x :: ops =>
      '(r, p, w) ← sqlite3RowSetTest p b x w;
      '(rs, p, w) ← rs_run ops p w;
      Some (r :: rs, p, w)
  end.

(** The answers that are promised: a test of a new batch first makes every rowid
    inserted so far visible, and tests of the same batch do not see later ones. *)
Fixpoint rs_answers (ops : list rs_op) (batch : Z) (pending visible : gset Z) : list bool :=
  match ops with
  | [] => []
  | OpInsert x :: ops => rs_answers ops batch ({[x]} ∪ pending) visible
  | OpTest b x :: ops =>
      if b =? batch then bool_decide (x ∈ visible) :: rs_answers ops b pending visible
      else bool_decide (x ∈ visible ∪ pending) :: rs_answers ops b ∅ (visible ∪ pending)
  end.

Lemma rs_run_rep ops L p w lp fs pending visible :
  rs_rep L p w lp fs → always_ok (am w) → zlen lp + zlen ops < 2 ^ NBUCKET →
  (∀ x, x ∈ pending ↔ x ∈ vals lp) → (∀ x, x ∈ visible ↔ x ∈ vals (fnodes fs)) →
  ∃ p' w' lp' fs',
    rs_run ops p w = Some (rs_answers ops (iBatch p) pending visible, p', w') ∧
    rs_rep L p' w' lp' fs'.
Proof.
  revert p w lp fs pending visible.
  induction ops as [|[x|b x] ops IH]; intros p w lp fs P V Hrep Hok Hlen HP HV.
  - by exists p, w, lp, fs.
  - destruct (insert_rep L p w lp fs x Hrep Hok) as (e & p1 & w1 & E & Hrep1 & Eb & Hok1).
    cbn [rs_run rs_answers]. rewrite E. cbn [mbind option_bind]. rewrite <- Eb.
    apply (IH p1 w1 (lp ++ [(e, x)]) fs); try done.
    + rewrite length_app. simpl in *. lia.
    + intros y. rewrite fmap_app, elem_of_app, elem_of_union, HP. set_solver.
  - assert (0 ≤ zlen ops) by lia. simpl in Hlen.
    destruct (test_rep L p w lp fs b x Hrep Hok) as (p1 & w1 & lp1 & fs1 & E & Hrep1 & Eb & Hok1 & Hcase);
      [lia|].
    cbn [rs_run rs_answers]. rewrite E. cbn [mbind option_bind].
    destruct (Z.eqb_spec b (iBatch p)) as [->|Hne].
    + destruct Hcase as [-> ->].
      destruct (IH p1 w1 lp fs P V) as (p2 & w2 & lp2 & fs2 & E2 & Hrep2); try done; [lia|].
      rewrite E2, Eb. cbn [mbind option_bind]. exists p2, w2, lp2, fs2. split; [|done].
      by rewrite (bool_decide_ext _ _ (HV x)).
    + destruct Hcase as [-> Hv].
      assert (∀ y, y ∈ V ∪ P ↔ y ∈ vals (fnodes fs1)) as HVP.
      { intros y. by rewrite elem_of_union, Hv, HP, HV. }
      destruct (IH p1 w1 [] fs1 ∅ (V ∪ P)) as (p2 & w2 & lp2 & fs2 & E2 & Hrep2); try done;
        [simpl; lia|set_solver|].
      rewrite E2, Eb. cbn [mbind option_bind]. exists p2, w2, lp2, fs2. split; [|done].
      by rewrite (bool_decide_ext _ _ (HVP x)).
Qed.

(** C6: with no allocation failure, every answer of sqlite3RowSetTest in a history of insertions and
    tests is membership among the rowids inserted before the current batch began, the contract
    documented above it, and deleting the RowSet frees everything it allocated. *)
Theorem rowset_tests (N : Z) (w : world) (ops : list rs_op) :
  sizeof_RowSet ≤ N → world_ok w → always_ok (am w) → zlen ops < 2 ^ NBUCKET →
  ∃ p w1 p2 w2,
    sqlite3RowSetInit N w = (Some p, w1) ∧
    rs_run ops p w1 = Some (rs_answers ops 0 ∅ ∅, p2, w2) ∧
    live (am (sqlite3RowSetDelete p2 w2)) = live (am w).
Proof.
  intros HN Hw Hok Hlen.
  destruct (init_rep N w HN Hw Hok) as (p & w1 & Ei & Hrep & Eb & Hok1).
  destruct (rs_run_rep ops _ p w1 [] [] ∅ ∅ Hrep Hok1) as (p2 & w2 & lp & fs & E & Hrep2);
    [done|set_solver|set_solver|].
  exists p, w1, p2, w2. rewrite <- Eb. split; [done|]. split; [done|].
  apply delete_live, (pool_live _ _ _ (rep_pool _ _ _ _ _ Hrep2)).
Qed.

(** rowSetListToTree turns a linked list into a search tree whose inorder sequence is the list,
    writing no other entry, and of logarithmic height: 2^(height-1) is at most the number of
    entries. *)
Theorem rowset_tree_balanced s p l :
  lst s (Some p) l → NoDup (addrs l) →
  ∃ s' root t, rowSetListToTree s p = Some (s', root) ∧
    unch (addrs l) s s' ∧ tree s' (Some root) t ∧ nodes t = l ∧
    (2 ^ (height t - 1) ≤ length l)%nat.
Proof.
  intros Hl Hnd.
  destruct (list_to_tree_correct s p l Hl Hnd) as (s' & root & t & E & U & Ht & <- & Hb). eauto 10.
Qed.

(** ** Witnesses *)

Lemma world_ok_w0 : world_ok w0.
Proof.
  split; [simpl; lia|]. split; [done|]. intros a [v Hv]. simpl in Hv. by rewrite lookup_empty in Hv.
Qed.

Lemma rowset_sorts_witness :
  ∃ p w1 p2 w2 out p3 w3,
    sqlite3RowSetInit 100 w0 = (Some p, w1) ∧ insert_list [5; 3; 9; 3] p w1 = Some (p2, w2) ∧
    drain 5 p2 w2 = Some (out, p3, w3) ∧
    StronglySorted Z.lt out ∧ (∀ x, x ∈ out ↔ x ∈ [5; 3; 9; 3]) ∧
    live (am (sqlite3RowSetDelete p3 w3)) = live (am w0).
Proof.
  apply (rowset_sorts 100 w0 [5; 3; 9; 3]).
  - vm_compute. discriminate.
  - exact world_ok_w0.
  - constructor.
  - vm_compute. reflexivity.
Defined.

Definition rs_ops_ex : list rs_op :=
  [OpInsert 4; OpTest 1 4; OpInsert 6; OpTest 1 6; OpTest 2 6].

Lemma rowset_tests_witness :
  ∃ p w1 p2 w2,
    sqlite3RowSetInit 100 w0 = (Some p, w1) ∧
    rs_run rs_ops_ex p w1 = Some ([true; false; true], p2, w2) ∧
    live (am (sqlite3RowSetDelete p2 w2)) = live (am w0).
Proof.
  apply (rowset_tests 100 w0 rs_ops_ex).
  - vm_compute. discriminate.
  - exact world_ok_w0.
  - constructor.
  - vm_compute. reflexivity.
Defined.

Definition list_ex : store :=
  Store {[ 1 := 10; 2 := 20; 3 := 30 ]} {[ 1 := Some 2; 2 := Some 3; 3 := None ]} ∅.

Lemma rowset_tree_balanced_witness :
  ∃ s' root t, rowSetListToTree list_ex 1 = Some (s', root) ∧
    unch [1; 2; 3] list_ex s' ∧ tree s' (Some root) t ∧ nodes t = [(1, 10); (2, 20); (3, 30)] ∧
    (2 ^ (height t - 1) ≤ 3)%nat.
Proof.
  apply (rowset_tree_balanced list_ex 1 [(1, 10); (2, 20); (3, 30)]).
  - repeat (split; [reflexivity|]; split; [reflexivity|]; eexists; split; [reflexivity|]).
    reflexivity.
  - apply (bool_decide_unpack _). vm_compute. exact I.
Defined.
