(* ===== verification/Ctype.v ===== *)
(** * Character classes and C strings

    The ASCII tables of global.c, the macros of sqliteInt.h over them, and the
    string functions of util.c.  A pointer to a string is the list of the bytes
    from that address on, terminator included, so that advancing the pointer takes
    the tail and reading past the memory has no result. *)
From S2P Require Import Prelude.

(** The ASCII branch of the table, and the three comparison tables appended to
    it. *)
Definition sqlite3UpperToLower : list Z := [
  0; 1; 2; 3; 4; 5; 6; 7; 8; 9; 10; 11; 12; 13; 14; 15;
  16; 17; 18; 19; 20; 21; 22; 23; 24; 25; 26; 27; 28; 29; 30; 31;
  32; 33; 34; 35; 36; 37; 38; 39; 40; 41; 42; 43; 44; 45; 46; 47;
  48; 49; 50; 51; 52; 53; 54; 55; 56; 57; 58; 59; 60; 61; 62; 63;
  64; 97; 98; 99; 100; 101; 102; 103; 104; 105; 106; 107; 108; 109; 110; 111;
  112; 113; 114; 115; 116; 117; 118; 119; 120; 121; 122; 91; 92; 93; 94; 95;
  96; 97; 98; 99; 100; 101; 102; 103; 104; 105; 106; 107; 108; 109; 110; 111;
  112; 113; 114; 115; 116; 117; 118; 119; 120; 121; 122; 123; 124; 125; 126; 127;
  128; 129; 130; 131; 132; 133; 134; 135; 136; 137; 138; 139; 140; 141; 142; 143;
  144; 145; 146; 147; 148; 149; 150; 151; 152; 153; 154; 155; 156; 157; 158; 159;
  160; 161; 162; 163; 164; 165; 166; 167; 168; 169; 170; 171; 172; 173; 174; 175;
  176; 177; 178; 179; 180; 181; 182; 183; 184; 185; 186; 187; 188; 189; 190; 191;
  192; 193; 194; 195; 196; 197; 198; 199; 200; 201; 202; 203; 204; 205; 206; 207;
  208; 209; 210; 211; 212; 213; 214; 215; 216; 217; 218; 219; 220; 221; 222; 223;
  224; 225; 226; 227; 228; 229; 230; 231; 232; 233; 234; 235; 236; 237; 238; 239;
  240; 241; 242; 243; 244; 245; 246; 247; 248; 249; 250; 251; 252; 253; 254; 255;
  1; 0; 0; 1; 1; 0; 0; 1; 0; 1; 0; 1; 1; 0; 1; 0;
  0; 1].

Definition sqlite3CtypeMap : list Z := [
  0; 0; 0; 0; 0; 0; 0; 0; 0; 1; 1; 1; 1; 1; 0; 0;
  0; 0; 0; 0; 0; 0; 0; 0; 0; 0; 0; 0; 0; 0; 0; 0;
  1; 0; 128; 0; 64; 0; 0; 128; 0; 0; 0; 0; 0; 0; 0; 0;
  12; 12; 12; 12; 12; 12; 12; 12; 12; 12; 0; 0; 0; 0; 0; 0;
  0; 10; 10; 10; 10; 10; 10; 2; 2; 2; 2; 2; 2; 2; 2; 2;
  2; 2; 2; 2; 2; 2; 2; 2; 2; 2; 2; 128; 0; 0; 0; 64;
  128; 42; 42; 42; 42; 42; 42; 34; 34; 34; 34; 34; 34; 34; 34; 34;
  34; 34; 34; 34; 34; 34; 34; 34; 34; 34; 34; 0; 0; 0; 0; 0;
  64; 64; 64; 64; 64; 64; 64; 64; 64; 64; 64; 64; 64; 64; 64; 64;
  64; 64; 64; 64; 64; 64; 64; 64; 64; 64; 64; 64; 64; 64; 64; 64;
  64; 64; 64; 64; 64; 64; 64; 64; 64; 64; 64; 64; 64; 64; 64; 64;
  64; 64; 64; 64; 64; 64; 64; 64; 64; 64; 64; 64; 64; 64; 64; 64;
  64; 64; 64; 64; 64; 64; 64; 64; 64; 64; 64; 64; 64; 64; 64; 64;
  64; 64; 64; 64; 64; 64; 64; 64; 64; 64; 64; 64; 64; 64; 64; 64;
  64; 64; 64; 64; 64; 64; 64; 64; 64; 64; 64; 64; 64; 64; 64; 64;
  64; 64; 64; 64; 64; 64; 64; 64; 64; 64; 64; 64; 64; 64; 64; 64].

(** The macros index the tables with an unsigned char. *)
Definition ctype (mask x : Z) : bool :=
  match sqlite3CtypeMap.[u8 x] with
  | Some m => negb (Z.land m mask =? 0)
  | None => false
  end.

Definition sqlite3Isspace : Z → bool := ctype 0x01.
Definition sqlite3Isalnum : Z → bool := ctype 0x06.
Definition sqlite3Isalpha : Z → bool := ctype 0x02.
Definition sqlite3Isdigit : Z → bool := ctype 0x04.
Definition sqlite3Isxdigit : Z → bool := ctype 0x08.
Definition sqlite3Isquote : Z → bool := ctype 0x80.

Definition sqlite3Toupper (x : Z) : Z :=
  match sqlite3CtypeMap.[u8 x] with
  | Some m => Z.land x (Z.lnot (Z.land m 0x20))
  | None => x
  end.

(** [UpperToLower[c]] *)
Definition UpperToLower (c : Z) : option Z := sqlite3UpperToLower.[c].

(** ** Comparing strings without regard to case *)

Fixpoint sqlite3StrICmp (a b : list Z) : option Z :=
  match a, b with
  | c :: a, x :: b =>
      if c =? x then
        if c =? 0 then Some 0 else sqlite3StrICmp a b
      else
        lc ← UpperToLower c;
        lx ← UpperToLower x;
        if lc - lx =? 0 then sqlite3StrICmp a b else Some (lc - lx)
  | _, _ => None
  end.

(** [None] is the null pointer. *)
Definition sqlite3_stricmp (zLeft zRight : option (list Z)) : option Z :=
  match zLeft, zRight with
  | None, None => Some 0
  | None, Some _ => Some (-1)
  | Some _, None => Some 1
  | Some a, Some b => sqlite3StrICmp a b
  end.

(** [N] is the counter, decremented before it is tested; the loop reads [*b] only
    after the tests before it succeed. *)
Fixpoint strnicmp_loop (n : nat) (a b : list Z) : option Z :=
  match n with
  | O => Some 0
  | S n' =>
      c ← a.[0];
      if negb (c =? 0) then
        x ← b.[0];
        lc ← UpperToLower c;
        lx ← UpperToLower x;
        if lc =? lx then strnicmp_loop n' (tail a) (tail b) else Some (lc - lx)
      else
        x ← b.[0];
        lc ← UpperToLower c;
        lx ← UpperToLower x;
        Some (lc - lx)
  end.

Definition sqlite3_strnicmp (zLeft zRight : option (list Z)) (N : Z) : option Z :=
  match zLeft, zRight with
  | None, None => Some 0
  | None, Some _ => Some (-1)
  | Some _, None => Some 1
  | Some a, Some b => strnicmp_loop (Z.to_nat N) a b
  end.

Fixpoint strihash_loop (h : Z) (z : list Z) : option Z :=
  match z with
  | [] => None
  | c :: z =>
      if c =? 0 then Some h
      else lc ← UpperToLower c; strihash_loop (u8 (h + lc)) z
  end.

Definition sqlite3StrIHash (z : option (list Z)) : option Z :=
  match z with
  | None => Some 0
  | Some z => strihash_loop 0 z
  end.

(** ** Length *)

Fixpoint strlen (z : list Z) : option Z :=
  match z with
  | [] => None
  | c :: z => if c =? 0 then Some 0 else n ← strlen z; Some (n + 1)
  end.

Definition sqlite3Strlen30 (z : option (list Z)) : option Z :=
  match z with
  | None => Some 0
  | Some z => n ← strlen z; Some (Z.land 0x3fffffff (i32 n))
  end.

(** ** Removing quotes *)

(** [for(i=1, j=0;; i++)]: the buffer is rewritten in place; [assert(z[i])] is the
    requirement that the string is closed. *)
Fixpoint dequote_loop (fuel : nat) (quote : Z) (z : list Z) (i j : Z) : option (list Z * Z) :=
  match fuel with
  | O => None
  | S fuel' =>
      zi ← z.[i];
      if zi =? 0 then None
      else if zi =? quote then
        zi1 ← z.[i + 1];
        if zi1 =? quote then z ← wr z j quote; dequote_loop fuel' quote z (i + 2) (j + 1)
        else Some (z, j)
      else z ← wr z j zi; dequote_loop fuel' quote z (i + 1) (j + 1)
  end.

Definition sqlite3Dequote (z : list Z) : option (list Z) :=
  quote ← z.[0];
  if negb (sqlite3Isquote quote) then Some z
  else
    let quote := if quote =? 91 then 93 else quote in
    '(z, j) ← dequote_loop (length z) quote z 1 0;
    wr z j 0.

(** A Token is a pointer into the text and a length; [z] is the text at the
    pointer, and the result says by how much the pointer advances. *)
Record Token := mkToken { t_z : list Z; t_n : Z }.

Fixpoint quote_inside (n : nat) (z : list Z) (i : Z) : option bool :=
  match n with
  | O => Some false
  | S n' =>
      c ← z.[i];
      if sqlite3Isquote c then Some true else quote_inside n' z (i + 1)
  end.

Definition sqlite3DequoteToken (p : Token) : option Token :=
  if t_n p <? 2 then Some p
  else
    c ← (t_z p).[0];
    if negb (sqlite3Isquote c) then Some p
    else
      q ← quote_inside (Z.to_nat (t_n p - 2)) (t_z p) 1;
      if (q : bool) then Some p
      else Some (mkToken (tail (t_z p)) (u32 (t_n p - 2))).

Definition sqlite3TokenInit (z : list Z) : option Token :=
  n ← sqlite3Strlen30 (Some z); Some (mkToken z n).

(** ** What the tables contain *)

(** The two cases of an ASCII letter, written arithmetically. *)
Definition lower (c : Z) : Z := if (65 <=? c) && (c <=? 90) then c + 32 else c.
Definition upper (c : Z) : Z := if (97 <=? c) && (c <=? 122) then c - 32 else c.
Definition digit (c : Z) : bool := (48 <=? c) && (c <=? 57).
Definition space (c : Z) : bool := (c =? 32) || (9 <=? c) && (c <=? 13).
Definition alpha (c : Z) : bool :=
  (65 <=? c) && (c <=? 90) || (97 <=? c) && (c <=? 122).
Definition xdigit (c : Z) : bool :=
  digit c || (65 <=? c) && (c <=? 70) || (97 <=? c) && (c <=? 102).

Definition ctype_agrees (c : Z) : bool :=
  bool_decide (UpperToLower c = Some (lower c)) && (sqlite3Toupper c =? upper c) &&
  eqb (sqlite3Isspace c) (space c) && eqb (sqlite3Isdigit c) (digit c) &&
  eqb (sqlite3Isalpha c) (alpha c) && eqb (sqlite3Isxdigit c) (xdigit c) &&
  eqb (sqlite3Isalnum c) (alpha c || digit c) &&
  eqb (sqlite3Isquote c) ((c =? 34) || (c =? 39) || (c =? 91) || (c =? 96)).

Lemma ctype_byte c : 0 ≤ c < 256 → ctype_agrees c = true.
Proof. apply byte_all. vm_compute. reflexivity. Qed.

Ltac ctype_byte_solve :=
  intros c Hc%ctype_byte; unfold ctype_agrees in Hc; b2p;
  repeat match goal with H : _ ∧ _ |- _ => destruct H end;
  repeat match goal with H : eqb _ _ = true |- _ => apply eqb_prop in H end;
  repeat match goal with H : bool_decide _ = true |- _ => apply bool_decide_eq_true in H end.

Lemma UpperToLower_byte : ∀ c, 0 ≤ c < 256 → UpperToLower c = Some (lower c).
Proof. ctype_byte_solve. done. Qed.
Lemma Isspace_byte : ∀ c, 0 ≤ c < 256 → sqlite3Isspace c = space c.
Proof. ctype_byte_solve. done. Qed.
Lemma Isdigit_byte : ∀ c, 0 ≤ c < 256 → sqlite3Isdigit c = digit c.
Proof. ctype_byte_solve. done. Qed.
Lemma Isxdigit_byte : ∀ c, 0 ≤ c < 256 → sqlite3Isxdigit c = xdigit c.
Proof. ctype_byte_solve. done. Qed.
Lemma Isquote_byte : ∀ c, 0 ≤ c < 256 →
  sqlite3Isquote c = (c =? 34) || (c =? 39) || (c =? 91) || (c =? 96).
Proof. ctype_byte_solve. done. Qed.

Lemma lower_range c : 0 ≤ c < 256 → 0 ≤ lower c < 256.
Proof. unfold lower. intros. repeat case_cmp; simpl; lia. Qed.
Lemma lower_zero c : 0 ≤ c → lower c = 0 ↔ c = 0.
Proof. unfold lower. intros. repeat case_cmp; simpl; lia. Qed.

(** The text of a C string: bytes, none of them zero. *)
Definition text (s : list Z) : Prop := Forall (λ c, 0 < c < 256) s.
Definition cstr (s rest : list Z) : list Z := s ++ 0 :: rest.

Lemma text_cons c s : text (c :: s) ↔ 0 < c < 256 ∧ text s.
Proof. unfold text. by rewrite Forall_cons. Qed.
Lemma text_app s1 s2 : text (s1 ++ s2) ↔ text s1 ∧ text s2.
Proof. unfold text. by rewrite Forall_app. Qed.

Lemma text_bytes s : text s → bytes s.
Proof. intros H. eapply Forall_impl; [exact H|]. cbn. lia. Qed.

Lemma strlen_cstr s rest : text s → strlen (cstr s rest) = Some (zlen s).
Proof.
  induction s as [|c s IH]; [done|]. intros [Hc Hs]%text_cons.
  unfold cstr in *. cbn [app strlen]. replace (c =? 0) with false by lia.
  rewrite IH by done. cbn [mbind option_bind length]. f_equal. lia.
Qed.

(** ** Comparison *)

(** The difference at the first position where two case-folded strings, with their
    terminators, differ. *)
Fixpoint fold_cmp (s1 s2 : list Z) : Z :=
  match s1, s2 with
  | [], [] => 0
  | [], x :: _ => - lower x
  | c :: _, [] => lower c
  | c :: s1, x :: s2 => if lower c =? lower x then fold_cmp s1 s2 else lower c - lower x
  end.

Lemma StrICmp_fold_cmp s1 s2 r1 r2 :
  text s1 → text s2 → sqlite3StrICmp (cstr s1 r1) (cstr s2 r2) = Some (fold_cmp s1 s2).
Proof.
  unfold cstr. revert s2. induction s1 as [|c s1 IH]; intros [|x s2]; cbn [app sqlite3StrICmp fold_cmp].
  - done.
  - intros _ [Hx _]%text_cons. replace (0 =? x) with false by lia.
    rewrite !UpperToLower_byte by lia. cbn [mbind option_bind].
    pose proof (lower_zero x). change (lower 0) with 0. replace (0 - lower x =? 0) with false by lia.
    done.
  - intros [Hc _]%text_cons _. replace (c =? 0) with false by lia.
    rewrite !UpperToLower_byte by lia. cbn [mbind option_bind].
    pose proof (lower_zero c). change (lower 0) with 0. replace (lower c - 0 =? 0) with false by lia.
    by rewrite Z.sub_0_r.
  - intros [Hc H1]%text_cons [Hx H2]%text_cons. case_cmp.
    + subst. replace (x =? 0) with false by lia. rewrite Z.eqb_refl. by apply IH.
    + rewrite !UpperToLower_byte by lia. cbn [mbind option_bind].
      destruct (Z.eqb_spec (lower c) (lower x)) as [E|E].
      * replace (lower c - lower x =? 0) with true by lia. by apply IH.
      * by replace (lower c - lower x =? 0) with false by lia.
Qed.

Lemma fold_cmp_zero s1 s2 :
  text s1 → text s2 → fold_cmp s1 s2 = 0 ↔ lower <$> s1 = lower <$> s2.
Proof.
  revert s2. induction s1 as [|c s1 IH]; intros [|x s2]; cbn [fold_cmp fmap list_fmap]; try done.
  - intros _ [Hx _]%text_cons. pose proof (lower_zero x). split; [lia|done].
  - intros [Hc _]%text_cons _. pose proof (lower_zero c). split; [lia|done].
  - intros [Hc H1]%text_cons [Hx H2]%text_cons. case_cmp.
    + rewrite IH by done. split; [congruence|]. by intros [= _ ?].
    + split; [lia|]. by intros [= ? _].
Qed.

Lemma fold_cmp_anti s1 s2 : fold_cmp s2 s1 = - fold_cmp s1 s2.
Proof.
  revert s2. induction s1 as [|c s1 IH]; intros [|x s2]; cbn [fold_cmp]; [lia..|].
  rewrite (Z.eqb_sym (lower x)). case_cmp; [apply IH|lia].
Qed.

Lemma fold_cmp_trans s1 s2 s3 :
  text s1 → text s2 → text s3 → fold_cmp s1 s2 ≤ 0 → fold_cmp s2 s3 ≤ 0 → fold_cmp s1 s3 ≤ 0.
Proof.
  revert s2 s3. induction s1 as [|c s1 IH]; intros [|x s2] [|y s3]; cbn [fold_cmp];
    rewrite ?text_cons; intros H1 H2 H3; try lia;
    try (pose proof (lower_zero x)); try (pose proof (lower_range x));
    try (pose proof (lower_zero c)); try (pose proof (lower_range c));
    try (pose proof (lower_zero y)); try (pose proof (lower_range y)); try lia;
    repeat case_cmp; try lia; try (intros; apply (IH s2 s3); tauto).
Qed.

Lemma strnicmp_loop_correct n s1 s2 r1 r2 :
  text s1 → text s2 →
  strnicmp_loop n (cstr s1 r1) (cstr s2 r2) = Some (fold_cmp (take n s1) (take n s2)).
Proof.
  unfold cstr. revert s1 s2. induction n as [|n IH]; intros s1 s2; [done|].
  destruct s1 as [|c s1], s2 as [|x s2]; cbn [strnicmp_loop app take fold_cmp]; red_rd;
    rewrite ?text_cons; intros H1 H2.
  - done.
  - simpl negb. cbv iota. rewrite !UpperToLower_byte by lia. cbn [mbind option_bind].
    change (lower 0) with 0. done.
  - replace (c =? 0) with false by lia. simpl negb. cbv iota.
    rewrite !UpperToLower_byte by lia. cbn [mbind option_bind]. change (lower 0) with 0.
    pose proof (lower_zero c). replace (lower c =? 0) with false by lia. by rewrite Z.sub_0_r.
  - replace (c =? 0) with false by lia. simpl negb. cbv iota.
    rewrite !UpperToLower_byte by lia. cbn [mbind option_bind tail].
    case_cmp; [apply IH; tauto|done].
Qed.

Lemma text_take n s : text s → text (take n s).
Proof. apply Forall_take. Qed.

Lemma strihash_loop_fold h s1 s2 r1 r2 :
  text s1 → text s2 → lower <$> s1 = lower <$> s2 →
  strihash_loop h (cstr s1 r1) = strihash_loop h (cstr s2 r2).
Proof.
  unfold cstr. revert h s2. induction s1 as [|c s1 IH]; intros h [|x s2]; try done.
  intros [Hc H1]%text_cons [Hx H2]%text_cons [= E E']. cbn [app strihash_loop].
  replace (c =? 0) with false by lia. replace (x =? 0) with false by lia.
  rewrite !UpperToLower_byte, E by lia. cbn [mbind option_bind]. by apply IH.
Qed.

(** ** Quoting *)

(** Doubling the closing quote, as SQL does. *)
Definition escape (q : Z) (s : list Z) : list Z := s ≫= λ c, if c =? q then [c; c] else [c].
Definition close_quote (q : Z) : Z := if q =? 91 then 93 else q.

Lemma escape_length q s : (length s ≤ length (escape q s))%nat.
Proof.
  induction s as [|c s IH]; [done|]. unfold escape in *. rewrite bind_cons, length_app.
  destruct (c =? q); simpl; lia.
Qed.

Lemma wr_middle (l1 : list Z) x l2 j c :
  j = zlen l1 → wr (l1 ++ x :: l2) j c = Some (l1 ++ c :: l2).
Proof.
  intros ->. rewrite wr_in_bounds by (rewrite length_app; simpl; lia).
  by rewrite Nat2Z.id, insert_app_r_alt, Nat.sub_diag by lia.
Qed.

Lemma dequote_loop_correct fuel q out g body rest :
  text body → g ≠ [] → q ≠ 0 → head rest ≠ Some q → rest ≠ [] →
  (length body < fuel)%nat →
  ∃ g', g' ≠ [] ∧
    dequote_loop fuel q (out ++ g ++ escape q body ++ q :: rest) (zlen (out ++ g)) (zlen out)
    = Some (out ++ body ++ g', zlen (out ++ body)) ∧
    length (body ++ g') = length (g ++ escape q body ++ q :: rest).
Proof.
  intros Hb Hg Hq Hrest Hr. revert fuel out g Hg Hb.
  induction body as [|c body IH]; intros [|fuel] out g Hg Hb Hf; simpl in Hf; try lia.
  - cbn [escape mbind list_bind app dequote_loop].
    rewrite (app_assoc out), rd_app_head. cbn [mbind option_bind].
    replace (q =? 0) with false by lia. rewrite Z.eqb_refl.
    destruct rest as [|r rest]; [done|]. rewrite rd_app_r by lia.
    replace (zlen (out ++ g) + 1 - zlen (out ++ g)) with 1 by lia. red_rd.
    cbn in Hrest. replace (r =? q) with false by (symmetry; apply Z.eqb_neq; congruence).
    exists (g ++ q :: r :: rest). split; [by destruct g|]. by rewrite app_nil_r, <- app_assoc.
  - apply text_cons in Hb as [Hc Hb]. destruct g as [|x g]; [done|].
    assert (escape q (c :: body) = (if c =? q then [c; c] else [c]) ++ escape q body) as -> by done.
    cbn [dequote_loop].
    assert (∀ l, rd (out ++ (x :: g) ++ ((if c =? q then [c; c] else [c]) ++ escape q body) ++ l)
      (zlen (out ++ x :: g)) = Some c) as Ec.
    { intros l. rewrite (app_assoc out), rd_app_r, Z.sub_diag by lia. by destruct (c =? q). }
    rewrite Ec. cbn [mbind option_bind]. replace (c =? 0) with false by lia.
    destruct (Z.eqb_spec c q) as [->|Hne].
    + rewrite (app_assoc out), rd_app_r by lia.
      replace (zlen (out ++ x :: g) + 1 - zlen (out ++ x :: g)) with 1 by lia.
      cbn [app]. red_rd. rewrite Z.eqb_refl, <- app_assoc. cbn [app]. rewrite wr_middle by done. cbn [mbind option_bind].
      replace (zlen (out ++ x :: g) + 2) with (zlen ((out ++ [q]) ++ g ++ [q; q])) by len.
      replace (zlen out + 1) with (zlen (out ++ [q])) by len.
      replace (out ++ q :: g ++ q :: q :: escape q body ++ q :: rest)
        with ((out ++ [q]) ++ (g ++ [q; q]) ++ escape q body ++ q :: rest) by (by rewrite <- !app_assoc).
      destruct (IH fuel (out ++ [q]) (g ++ [q; q])) as (g' & Hg' & -> & El); [by destruct g|done|lia|].
      exists g'. split; [done|]. rewrite <- !app_assoc. split; [done|]. len_in El. len.
    + cbn [app]. rewrite wr_middle by done. cbn [mbind option_bind].
      replace (zlen (out ++ x :: g) + 1) with (zlen ((out ++ [c]) ++ g ++ [c])) by len.
      replace (zlen out + 1) with (zlen (out ++ [c])) by len.
      replace (out ++ c :: g ++ c :: escape q body ++ q :: rest)
        with ((out ++ [c]) ++ (g ++ [c]) ++ escape q body ++ q :: rest) by (by rewrite <- !app_assoc).
      destruct (IH fuel (out ++ [c]) (g ++ [c])) as (g' & Hg' & -> & El); [by destruct g|done|lia|].
      exists g'. split; [done|]. rewrite <- !app_assoc. split; [done|]. len_in El. len.
Qed.

Lemma close_quote_nonzero q : sqlite3Isquote q = true → 0 ≤ q < 256 → close_quote q ≠ 0.
Proof.
  intros Hq Hr. rewrite Isquote_byte in Hq by done. unfold close_quote. case_cmp; [lia|].
  intros ->. done.
Qed.

Lemma Dequote_correct q body rest :
  0 ≤ q < 256 → sqlite3Isquote q = true → text body →
  ∃ rest', sqlite3Dequote (cstr (q :: escape (close_quote q) body ++ [close_quote q]) rest)
    = Some (cstr body rest') ∧
    length (cstr body rest') =
      length (cstr (q :: escape (close_quote q) body ++ [close_quote q]) rest).
Proof.
  intros Hr Hq Hb. pose proof (close_quote_nonzero q Hq Hr) as Hz.
  unfold sqlite3Dequote, cstr. cbn [app]. red_rd. rewrite Hq. cbn [negb].
  change (if q =? 91 then 93 else q) with (close_quote q). rewrite <- app_assoc.
  set (q' := close_quote q) in *. cbn [app].
  destruct (dequote_loop_correct (length (q :: escape q' body ++ q' :: 0 :: rest)) q' [] [q] body
    (0 :: rest)) as (g & Hg & E & El); [done|done|done|simpl; congruence|done| |].
  { pose proof (escape_length q' body). len. }
  cbn [app] in E, El. change (zlen [q]) with 1 in E. change (zlen []) with 0 in E.
  rewrite E. cbn [mbind option_bind].
  destruct g as [|x g]; [done|]. rewrite wr_middle by done.
  exists g. split; [done|]. rewrite length_app in *. cbn [length] in *. lia.
Qed.

(** ** Properties *)

(** the tables and macros that replace the C library's character functions classify every byte
    as the C locale does, map upper case to lower case and back, and treat exactly double quote,
    single quote, left bracket and backtick as quotes. *)
Theorem ctype_tables c :
  0 ≤ c < 256 →
  UpperToLower c = Some (lower c) ∧ sqlite3Toupper c = upper c ∧
  sqlite3Isspace c = space c ∧ sqlite3Isdigit c = digit c ∧ sqlite3Isalpha c = alpha c ∧
  sqlite3Isxdigit c = xdigit c ∧ sqlite3Isalnum c = alpha c || digit c ∧
  sqlite3Isquote c = (c =? 34) || (c =? 39) || (c =? 91) || (c =? 96).
Proof. revert c. ctype_byte_solve. done. Qed.

(** sqlite3StrICmp terminates inside its strings and is a total preorder whose equivalence is
    equality up to ASCII case: it is antisymmetric in sign and transitive. *)
Theorem StrICmp_order s1 s2 s3 r1 r2 r3 :
  text s1 → text s2 → text s3 →
  ∃ c12 c21 c23 c13,
    sqlite3StrICmp (cstr s1 r1) (cstr s2 r2) = Some c12 ∧
    sqlite3StrICmp (cstr s2 r2) (cstr s1 r1) = Some c21 ∧
    sqlite3StrICmp (cstr s2 r2) (cstr s3 r3) = Some c23 ∧
    sqlite3StrICmp (cstr s1 r1) (cstr s3 r3) = Some c13 ∧
    (c12 = 0 ↔ lower <$> s1 = lower <$> s2) ∧ c21 = - c12 ∧ (c12 ≤ 0 → c23 ≤ 0 → c13 ≤ 0).
Proof.
  intros H1 H2 H3. rewrite !StrICmp_fold_cmp by done. do 4 eexists. do 4 (split; [done|]).
  split; [by apply fold_cmp_zero|]. split; [apply fold_cmp_anti|by apply fold_cmp_trans].
Qed.

(** sqlite3_strnicmp compares the first N bytes: it stays inside both strings and answers 0
    exactly when those prefixes are equal up to ASCII case. *)
Theorem strnicmp_prefix s1 s2 r1 r2 N :
  text s1 → text s2 →
  ∃ c, sqlite3_strnicmp (Some (cstr s1 r1)) (Some (cstr s2 r2)) N = Some c ∧
    (c = 0 ↔ lower <$> take (Z.to_nat N) s1 = lower <$> take (Z.to_nat N) s2).
Proof.
  intros H1 H2. unfold sqlite3_strnicmp. rewrite strnicmp_loop_correct by done.
  eexists. split; [done|]. apply fold_cmp_zero; by apply text_take.
Qed.

(** For each of the four quoting styles, sqlite3Dequote recovers in place, and zero-terminated,
    the text that was quoted by doubling its closing quotes, without touching memory outside the
    quoted string. *)
Theorem Dequote_quoted q body rest :
  0 ≤ q < 256 → sqlite3Isquote q = true → text body →
  ∃ rest', sqlite3Dequote (cstr (q :: escape (close_quote q) body ++ [close_quote q]) rest)
    = Some (cstr body rest') ∧
    length (cstr body rest') =
      length (cstr (q :: escape (close_quote q) body ++ [close_quote q]) rest).
Proof. apply Dequote_correct. Qed.

(** ** Witnesses *)

Lemma ctype_tables_witness : UpperToLower 65 = Some 97.
Proof. apply (ctype_tables 65). lia. Defined.

Lemma StrICmp_order_witness :
  ∃ c12 c21 c23 c13,
    sqlite3StrICmp (cstr [65] []) (cstr [97] []) = Some c12 ∧
    sqlite3StrICmp (cstr [97] []) (cstr [65] []) = Some c21 ∧
    sqlite3StrICmp (cstr [97] []) (cstr [66; 67] []) = Some c23 ∧
    sqlite3StrICmp (cstr [65] []) (cstr [66; 67] []) = Some c13 ∧
    (c12 = 0 ↔ lower <$> [65] = lower <$> [97]) ∧ c21 = - c12 ∧ (c12 ≤ 0 → c23 ≤ 0 → c13 ≤ 0).
Proof. apply (StrICmp_order [65] [97] [66; 67] [] [] []); repeat constructor; lia. Defined.

Lemma strnicmp_prefix_witness :
  ∃ c, sqlite3_strnicmp (Some (cstr [65; 66] [])) (Some (cstr [97; 67] [])) 1 = Some c ∧
    (c = 0 ↔ lower <$> take (Z.to_nat 1) [65; 66] = lower <$> take (Z.to_nat 1) [97; 67]).
Proof. apply (strnicmp_prefix [65; 66] [97; 67] [] [] 1); repeat constructor; lia. Defined.

Lemma Dequote_quoted_witness :
  ∃ rest', sqlite3Dequote [34; 97; 34; 34; 98; 34; 0; 7] = Some (cstr [97; 34; 98] rest') ∧
    length (cstr [97; 34; 98] rest') = 8%nat.
Proof.
  apply (Dequote_quoted 34 [97; 34; 98] [7]); [lia|reflexivity|repeat constructor; lia].
Defined.
