(* ===== verification/Hash.v ===== *)
(** * The hash table keyed by identifiers (hash.c)

    Elements live in a heap of HashElem objects, linked both ways by their
    addresses, as in the code: all elements form one doubly linked list, and a
    bucket is a position in that list with a count.  Keys are pointers to text
    that nobody changes while it is in the table, so an element carries the text
    itself; data is a pointer, 0 for NULL. *)
From S2P Require Import Prelude Ctype.

Record HashElem := mkElem {
  e_next : option Z; e_prev : option Z; e_data : Z; e_pKey : list Z; e_h : Z }.

(** A bucket: [struct _ht]. *)
Record ht_entry := mkHt { b_count : Z; b_chain : option Z }.

Record Hash := mkHash {
  htsize : Z; count : Z; first : option Z; ht : option (list ht_entry) }.

Abbreviation heap := (gmap Z HashElem).

(** The heap, the next unused address and the allocator. *)
Record hworld := HW { hp : heap; hbrk : Z; ham : mem }.

Definition set_next (a : Z) (p : option Z) (m : heap) : option heap :=
  e ← m !! a; Some (<[a := mkElem p (e_prev e) (e_data e) (e_pKey e) (e_h e)]> m).
Definition set_prev (a : Z) (p : option Z) (m : heap) : option heap :=
  e ← m !! a; Some (<[a := mkElem (e_next e) p (e_data e) (e_pKey e) (e_h e)]> m).

Definition sqlite3HashInit : Hash := mkHash 0 0 None None.

(** The traversal that frees every element. *)
Fixpoint free_elems (fuel : nat) (elem : option Z) (w : hworld) : option hworld :=
  match elem with
  | None => Some w
  | Some a =>
      match fuel with
      | O => None
      | S fuel' =>
          e ← hp w !! a;
          free_elems fuel' (e_next e)
            (HW (delete a (hp w)) (hbrk w) (sqlite3_free (ham w)))
      end
  end.

(** [sqlite3_free(0)] does nothing. *)
Definition free_ht (pH : Hash) (m : mem) : mem :=
  match ht pH with Some _ => sqlite3_free m | None => m end.

Definition sqlite3HashClear (pH : Hash) (w : hworld) : option (Hash * hworld) :=
  w' ← free_elems (size (hp w)) (first pH) (HW (hp w) (hbrk w) (free_ht pH (ham w)));
  Some (mkHash 0 0 None None, w').

Fixpoint strHash_loop (h : Z) (z : list Z) : option Z :=
  match z with
  | [] => None
  | c :: z =>
      if c =? 0 then Some h
      else strHash_loop (u32 (u32 (h + Z.land 0xdf c) * 0x9e3779b1)) z
  end.

Definition strHash (z : list Z) : option Z := strHash_loop 0 z.

(** [pEntry] is the index of a bucket of [ht pH]. *)
Definition insertElement (pH : Hash) (pEntry : option Z) (pNew : Z) (m : heap)
    : option (Hash * heap) :=
  '(pH, pHead) ←
    match pEntry with
    | Some i =>
        t ← ht pH;
        b ← t.[i];
        t ← wr t i (mkHt (u32 (b_count b + 1)) (Some pNew));
        Some (mkHash (htsize pH) (count pH) (first pH) (Some t),
              if b_count b =? 0 then None else b_chain b)
    | None => Some (pH, None)
    end;
  match pHead with
  | Some a =>
      m ← set_next pNew (Some a) m;
      e ← m !! a;
      m ← set_prev pNew (e_prev e) m;
      '(pH, m) ← match e_prev e with
                 | Some p => m ← set_next p (Some pNew) m; Some (pH, m)
                 | None => Some (mkHash (htsize pH) (count pH) (Some pNew) (ht pH), m)
                 end;
      m ← set_prev a (Some pNew) m;
      Some (pH, m)
  | None =>
      m ← set_next pNew (first pH) m;
      m ← match first pH with Some f => set_prev f (Some pNew) m | None => Some m end;
      m ← set_prev pNew None m;
      Some (mkHash (htsize pH) (count pH) (Some pNew) (ht pH), m)
  end.

Definition SQLITE_MALLOC_SOFT_LIMIT : Z := 1024.
Definition sizeof_ht : Z := 16.

Fixpoint rehash_loop (fuel : nat) (pH : Hash) (elem : option Z) (m : heap)
    : option (Hash * heap) :=
  match elem with
  | None => Some (pH, m)
  | Some a =>
      match fuel with
      | O => None
      | S fuel' =>
          e ← m !! a;
          '(pH, m) ← insertElement pH (Some (e_h e mod htsize pH)) a m;
          rehash_loop fuel' pH (e_next e) m
      end
  end.

Section msize.
(** [sqlite3MallocSize], in bytes, of an allocation of [n] bytes. *)
Context (msize : Z → Z).

Definition rehash (pH : Hash) (new_size : Z) (w : hworld) : option (bool * Hash * hworld) :=
  let new_size :=
    if SQLITE_MALLOC_SOFT_LIMIT <? new_size * sizeof_ht
    then SQLITE_MALLOC_SOFT_LIMIT / sizeof_ht else new_size in
  if new_size =? htsize pH then Some (false, pH, w)
  else
    let '(ok, am) := sqlite3Malloc (ham w) in
    if negb ok then Some (false, pH, HW (hp w) (hbrk w) am)
    else
      let am := free_ht pH am in
      let new_size := u32 (msize (new_size * sizeof_ht) / sizeof_ht) in
      let elem := first pH in
      let pH := mkHash new_size (count pH) None
                  (Some (replicate (Z.to_nat new_size) (mkHt 0 None))) in
      '(pH, m) ← rehash_loop (size (hp w)) pH elem (hp w);
      Some (true, pH, HW m (hbrk w) am).

(** [while( count )]; [None] as a result is the static null element. *)
Fixpoint find_loop (count : nat) (elem : option Z) (h : Z) (pKey : list Z) (m : heap)
    : option (option Z) :=
  match count with
  | O => Some None
  | S count' =>
      a ← elem;
      e ← m !! a;
      match (if h =? e_h e then sqlite3StrICmp (e_pKey e) pKey else Some 1) with
      | None => None
      | Some c => if c =? 0 then Some (Some a) else find_loop count' (e_next e) h pKey m
      end
  end.

Definition findElementWithHash (pH : Hash) (pKey : list Z) (m : heap)
    : option (option Z * Z) :=
  h ← strHash pKey;
  r ← match ht pH with
      | Some t =>
          b ← t.[h mod htsize pH];
          find_loop (Z.to_nat (b_count b)) (b_chain b) h pKey m
      | None => find_loop (Z.to_nat (count pH)) (first pH) h pKey m
      end;
  Some (r, h).

Definition removeElement (pH : Hash) (elem : Z) (w : hworld) : option (Hash * hworld) :=
  e ← hp w !! elem;
  '(pH, m) ← match e_prev e with
             | Some p => m ← set_next p (e_next e) (hp w); Some (pH, m)
             | None => Some (mkHash (htsize pH) (count pH) (e_next e) (ht pH), hp w)
             end;
  m ← match e_next e with Some n => set_prev n (e_prev e) m | None => Some m end;
  pH ← match ht pH with
       | Some t =>
           b ← t.[e_h e mod htsize pH];
           let chain := if bool_decide (b_chain b = Some elem) then e_next e else b_chain b in
           t ← wr t (e_h e mod htsize pH) (mkHt (u32 (b_count b - 1)) chain);
           Some (mkHash (htsize pH) (count pH) (first pH) (Some t))
       | None => Some pH
       end;
  let w := HW (delete elem m) (hbrk w) (sqlite3_free (ham w)) in
  let pH := mkHash (htsize pH) (u32 (count pH - 1)) (first pH) (ht pH) in
  if count pH =? 0 then sqlite3HashClear pH w else Some (pH, w).

Definition data_of (m : heap) (r : option Z) : option Z :=
  match r with
  | Some a => e ← m !! a; Some (e_data e)
  | None => Some 0
  end.

Definition sqlite3HashFind (pH : Hash) (pKey : list Z) (w : hworld) : option Z :=
  '(r, _) ← findElementWithHash pH pKey (hp w); data_of (hp w) r.

Definition sqlite3HashInsert (pH : Hash) (pKey : list Z) (data : Z) (w : hworld)
    : option (Z * Hash * hworld) :=
  '(elem, h) ← findElementWithHash pH pKey (hp w);
  old_data ← data_of (hp w) elem;
  if negb (old_data =? 0) then
    a ← elem;
    if data =? 0 then '(pH, w) ← removeElement pH a w; Some (old_data, pH, w)
    else
      e ← hp w !! a;
      Some (old_data, pH,
            HW (<[a := mkElem (e_next e) (e_prev e) data pKey (e_h e)]> (hp w)) (hbrk w) (ham w))
  else if data =? 0 then Some (0, pH, w)
  else
    let '(ok, am) := sqlite3Malloc (ham w) in
    if negb ok then Some (data, pH, HW (hp w) (hbrk w) am)
    else
      (* the links of the new element are written by insertElement *)
      let new_elem := hbrk w in
      let w := HW (<[new_elem := mkElem None None data pKey h]> (hp w)) (hbrk w + 1) am in
      let pH := mkHash (htsize pH) (u32 (count pH + 1)) (first pH) (ht pH) in
      '(pH, w) ← (if (5 <=? count pH) && (u32 (2 * htsize pH) <? count pH)
                  then '(_, pH, w) ← rehash pH (u32 (count pH * 3)) w; Some (pH, w)
                  else Some (pH, w));
      '(pH, m) ← insertElement pH
         (match ht pH with Some _ => Some (h mod htsize pH) | None => None end)
         new_elem (hp w);
      Some (0, pH, HW m (hbrk w) (ham w)).
End msize.

(** Runs of the model. *)
Definition hw0 : hworld := HW ∅ 0 (Mem [] 0).

Fixpoint insert_all (l : list (list Z * Z)) (pH : Hash) (w : hworld) :
    option (list Z * Hash * hworld) :=
  match l with
  | [] => Some ([], pH, w)
  | (k, d) :: l =>
      '(r, pH, w) ← sqlite3HashInsert (λ n, n) pH k d w;
      '(rs, pH, w) ← insert_all l pH w;
      Some (r :: rs, pH, w)
  end.

Example hash_ex :
  ('(rs, pH, w) ← insert_all
     [([97; 0], 1); ([98; 0], 2); ([65; 0], 3); ([99; 0], 4); ([100; 0], 5); ([101; 0], 6);
      ([102; 0], 7); ([103; 0], 8); ([66; 0], 0); ([66; 0], 0)] sqlite3HashInit hw0;
   x ← sqlite3HashFind pH [97; 0] w; y ← sqlite3HashFind pH [98; 0] w;
   z ← sqlite3HashFind pH [71; 0] w;
   '(_, w') ← sqlite3HashClear pH w;
   Some (rs, count pH, htsize pH, x, y, z, live (ham w'))) =
  Some ([0; 0; 1; 0; 0; 0; 0; 0; 2; 0], 6, 15, 3, 0, 8, 0).
Proof. vm_compute. reflexivity. Qed.
