(* ===== verification/HashProofs.v ===== *)
(** * The hash table implements a map from case-folded keys

    The representation of a table: the doubly linked list of its elements, the
    buckets as contiguous groups of that list, and the counts; every operation
    preserves it and acts on the abstract map as a finite map does. *)
From S2P Require Import Prelude Ctype Hash.

(** An element: its address, its key and its data. *)
Abbreviation ent := (Z * (list Z * Z))%type.
Definition eaddr (e : ent) : Z := e.1.
Definition ekey (e : ent) : list Z := e.2.1.
Definition edata (e : ent) : Z := e.2.2.
Abbreviation addrs l := (eaddr <$> l).

Implicit Types (m : heap) (l es : list ent) (e : ent).

(** ** Keys *)

(** The text before the terminator. *)
Fixpoint ktext (z : list Z) : list Z :=
  match z with
  | [] => []
  | c :: z => if c =? 0 then [] else c :: ktext z
  end.

(** What identifies a key. *)
Definition kfold (z : list Z) : list Z := lower <$> ktext z.

(** A pointer to a terminated text. *)
Definition kvalid (z : list Z) : Prop := ∃ s rest, text s ∧ z = cstr s rest.

Definition khash (z : list Z) : Z := default 0 (strHash z).

Lemma ktext_cstr s rest : text s → ktext (cstr s rest) = s.
Proof.
  unfold cstr. induction s as [|c s IH]; [done|]. intros [Hc Hs]%text_cons.
  cbn [app ktext]. replace (c =? 0) with false by lia. by rewrite IH.
Qed.

Lemma strHash_loop_cstr h s rest : text s → ∃ v, strHash_loop h (cstr s rest) = Some v.
Proof.
  unfold cstr. revert h. induction s as [|c s IH]; intros h; [by eexists|].
  intros [Hc Hs]%text_cons. cbn [app strHash_loop]. replace (c =? 0) with false by lia. by apply IH.
Qed.

Lemma strHash_valid z : kvalid z → strHash z = Some (khash z).
Proof.
  intros (s & rest & Hs & ->). unfold khash, strHash.
  by destruct (strHash_loop_cstr 0 s rest Hs) as [v ->].
Qed.

Lemma hash_bits c : 0 ≤ c < 256 → Z.land 0xdf c = Z.land 0xdf (lower c).
Proof.
  intros Hc. apply Z.eqb_eq. revert c Hc.
  apply (byte_all (λ c, Z.land 0xdf c =? Z.land 0xdf (lower c))). vm_compute. reflexivity.
Qed.

Lemma strHash_loop_fold h s1 s2 r1 r2 :
  text s1 → text s2 → lower <$> s1 = lower <$> s2 →
  strHash_loop h (cstr s1 r1) = strHash_loop h (cstr s2 r2).
Proof.
  unfold cstr. revert h s2. induction s1 as [|c s1 IH]; intros h [|x s2]; try done.
  intros [Hc H1]%text_cons [Hx H2]%text_cons [= E E']. cbn [app strHash_loop].
  replace (c =? 0) with false by lia. replace (x =? 0) with false by lia.
  rewrite (hash_bits c), (hash_bits x), E by lia. by apply IH.
Qed.

(** Keys that are equal up to case have the same hash, so a search may start with
    the hash. *)
Lemma khash_fold z1 z2 : kvalid z1 → kvalid z2 → kfold z1 = kfold z2 → khash z1 = khash z2.
Proof.
  intros (s1 & r1 & H1 & ->) (s2 & r2 & H2 & ->). unfold kfold. rewrite !ktext_cstr by done.
  intros E. unfold khash, strHash. by rewrite (strHash_loop_fold 0 s1 s2 r1 r2).
Qed.

Lemma StrICmp_valid z1 z2 :
  kvalid z1 → kvalid z2 →
  ∃ c, sqlite3StrICmp z1 z2 = Some c ∧ (c =? 0) = bool_decide (kfold z1 = kfold z2).
Proof.
  intros (s1 & r1 & H1 & ->) (s2 & r2 & H2 & ->). rewrite StrICmp_fold_cmp by done.
  eexists. split; [done|]. unfold kfold. rewrite !ktext_cstr by done.
  destruct (Z.eqb_spec (fold_cmp s1 s2) 0) as [E|E]; rewrite fold_cmp_zero in E by done;
    [by rewrite bool_decide_eq_true_2|by rewrite bool_decide_eq_false_2].
Qed.

(** ** Doubly linked segments *)

(** From [p], whose predecessor is [pr], the elements [l] are linked; the last of
    them is [lst] ([pr] if there is none) and points to [q]. *)
Fixpoint dseg m (pr p : option Z) l (lst q : option Z) : Prop :=
  match l with
  | [] => p = q ∧ pr = lst
  | (a, (k, d)) :: l =>
      p = Some a ∧ ∃ n, m !! a = Some (mkElem n pr d k (khash k)) ∧ dseg m (Some a) n l lst q
  end.

Lemma dseg_app m pr p l1 l2 lst q :
  dseg m pr p (l1 ++ l2) lst q ↔ ∃ x n, dseg m pr p l1 x n ∧ dseg m x n l2 lst q.
Proof.
  revert pr p. induction l1 as [|[a [k d]] l1 IH]; intros pr p; cbn [dseg app].
  - split; [intros H; by exists pr, p|]. by intros (x & n & [-> ->] & H).
  - split.
    + intros (-> & n & Hn & (x & n' & ? & ?)%IH). exists x, n'. eauto.
    + intros (x & n & (-> & n' & Hn & ?) & ?). split; [done|]. exists n'.
      split; [done|]. apply IH. eauto.
Qed.

Lemma dseg_frame m m' pr p l lst q :
  (∀ a, a ∈ addrs l → m' !! a = m !! a) → dseg m pr p l lst q → dseg m' pr p l lst q.
Proof.
  revert pr p. induction l as [|[a [k d]] l IH]; intros pr p Hm; [done|].
  intros (-> & n & Hn & Hl). split; [done|]. exists n. split.
  - rewrite Hm; [done|]. by apply list_elem_of_here.
  - apply IH; [|done]. intros b Hb. apply Hm. by apply list_elem_of_further.
Qed.

Lemma dseg_lookup m pr p l lst q a k d :
  dseg m pr p l lst q → (a, (k, d)) ∈ l → ∃ n pv, m !! a = Some (mkElem n pv d k (khash k)).
Proof.
  revert pr p. induction l as [|[b [k' d']] l IH]; intros pr p; [set_solver|].
  intros (-> & n & Hn & Hl) [[= -> -> ->]|Hin]%elem_of_cons; [by exists n, pr|by eapply IH].
Qed.

Definition head_addr l : option Z := eaddr <$> head l.

Lemma dseg_head m pr p l lst q : dseg m pr p l lst q → l ≠ [] → p = head_addr l.
Proof. destruct l as [|[a [k d]] l]; [done|]. by intros [-> _]. Qed.

(** [m'] differs from [m] only at [a]. *)
Definition only m m' (a : Z) : Prop := ∀ b, b ≠ a → m' !! b = m !! b.

(** Redirecting the pointer out of a segment. *)
Lemma set_next_last m pr p l a k d lst q q' :
  dseg m pr p (l ++ [(a, (k, d))]) lst q → a ∉ addrs l →
  ∃ m', set_next a q' m = Some m' ∧ dseg m' pr p (l ++ [(a, (k, d))]) lst q' ∧ only m m' a ∧
    lst = Some a.
Proof.
  intros (x & n & H1 & (-> & n' & Hn & <- & <-))%dseg_app Ha. unfold set_next. rewrite Hn.
  cbn [mbind option_bind e_prev e_data e_pKey e_h]. eexists. split; [done|]. split; [|split; [|done]].
  - apply dseg_app. exists x, (Some a). split.
    + eapply dseg_frame; [|done]. intros b Hb. apply lookup_insert_ne. by intros ->.
    + split; [done|]. exists q'. by rewrite lookup_insert_eq.
  - intros b Hb. by apply lookup_insert_ne.
Qed.

(** Redirecting the pointer into a segment. *)
Lemma set_prev_first m pr p a k d l lst q pr' :
  dseg m pr p ((a, (k, d)) :: l) lst q → a ∉ addrs l →
  ∃ m', set_prev a pr' m = Some m' ∧ dseg m' pr' p ((a, (k, d)) :: l) lst q ∧ only m m' a.
Proof.
  intros (-> & n & Hn & Hl) Ha. unfold set_prev. rewrite Hn.
  cbn [mbind option_bind e_next e_data e_pKey e_h]. eexists. split; [done|]. split.
  - split; [done|]. exists n. split; [by rewrite lookup_insert_eq|].
    eapply dseg_frame; [|done]. intros b Hb. apply lookup_insert_ne. by intros ->.
  - intros b Hb. by apply lookup_insert_ne.
Qed.

(** ** Linking and unlinking *)

Definition link_post m m' (first' : option Z) l1 l2 (a : Z) (k : list Z) (d : Z) : Prop :=
  (∃ lst, dseg m' None first' (l1 ++ (a, (k, d)) :: l2) lst None) ∧
  (∀ b, b ∉ addrs (l1 ++ (a, (k, d)) :: l2) → m' !! b = m !! b).

(** The part of [insertElement] after the bucket has been found, when [l2] is the
    list from [pHead] on. *)
Lemma link_before m first l1 b kb db l2 lst a k d nx pv :
  dseg m None first (l1 ++ (b, (kb, db)) :: l2) lst None →
  m !! a = Some (mkElem nx pv d k (khash k)) →
  NoDup (a :: addrs (l1 ++ (b, (kb, db)) :: l2)) →
  ∃ m1 (he : HashElem) m2 m3 m4 first',
    set_next a (Some b) m = Some m1 ∧ m1 !! b = Some he ∧ set_prev a (e_prev he) m1 = Some m2 ∧
    (e_prev he = None ∧ m3 = m2 ∧ first' = Some a ∨
     ∃ p, e_prev he = Some p ∧ set_next p (Some a) m2 = Some m3 ∧ first' = first) ∧
    set_prev b (Some a) m3 = Some m4 ∧ link_post m m4 first' l1 ((b, (kb, db)) :: l2) a k d.
Proof.
  intros Hd Ha [Han Hnd]%NoDup_cons. rewrite fmap_app, fmap_cons in Han, Hnd.
  apply NoDup_app in Hnd as (Hnd1 & Hdis & [Hb Hnd2]%NoDup_cons).
  change (eaddr (b, (kb, db))) with b in *.
  apply dseg_app in Hd as (x & n & Hd1 & Hd2). pose proof Hd2 as (-> & nb & Hbm & _).
  assert (a ≠ b) by set_solver.
  unfold set_next at 1. rewrite Ha. cbn [mbind option_bind e_prev e_data e_pKey e_h].
  set (m1 := <[a := _]> m). assert (only m m1 a) as O1 by (intros c ?; by apply lookup_insert_ne).
  assert (m1 !! b = m !! b) as Eb by (by apply O1).
  exists m1, (mkElem nb x db kb (khash kb)). rewrite Eb, Hbm. cbn [e_prev].
  assert (m1 !! a = Some (mkElem (Some b) pv d k (khash k))) as Ea1 by apply lookup_insert_eq.
  unfold set_prev at 1. rewrite Ea1. cbn [mbind option_bind e_next e_data e_pKey e_h].
  set (m2 := <[a := _]> m1). assert (only m m2 a) as O2.
  { intros c Hc. unfold m2. rewrite lookup_insert_ne by done. by apply O1. }
  assert (m2 !! a = Some (mkElem (Some b) x d k (khash k))) as Ha2 by apply lookup_insert_eq.
  assert (dseg m2 None first l1 x (Some b)) as Hd1'.
  { eapply dseg_frame; [|exact Hd1]. intros c Hc. apply O2. set_solver. }
  assert (dseg m2 x (Some b) ((b, (kb, db)) :: l2) lst None) as Hd2'.
  { eapply dseg_frame; [|exact Hd2]. intros c Hc. apply O2. cbn in Hc. set_solver. }
  assert (∃ m3 first',
    (x = None ∧ m3 = m2 ∧ first' = Some a ∨
     ∃ p, x = Some p ∧ set_next p (Some a) m2 = Some m3 ∧ first' = first) ∧
    dseg m3 None first' l1 x (Some a) ∧ (∀ c, c ∉ addrs l1 → m3 !! c = m2 !! c))
    as (m3 & first' & Hcase & Hd3 & O3).
  { destruct l1 as [|[c [kc dc]] l1 _] using rev_ind.
    - destruct Hd1' as [-> <-]. exists m2, (Some a). split; [by left|done].
    - rewrite fmap_app in Hnd1. apply NoDup_app in Hnd1 as (_ & Hc & _).
      destruct (set_next_last m2 None first l1 c kc dc x (Some b) (Some a) Hd1')
        as (m3 & E3 & Hd3 & O3 & ->).
      { intros Hin. apply (Hc c Hin). set_solver. }
      exists m3, first. split; [right; by exists c|]. split; [done|].
      intros z Hz. apply O3. rewrite fmap_app in Hz. set_solver. }
  destruct (set_prev_first m3 x (Some b) b kb db l2 lst None (Some a)) as (m4 & E4 & Hd4 & O4).
  { eapply dseg_frame; [|exact Hd2']. intros c Hc. apply O3. cbn in Hc. set_solver. }
  { done. }
  exists m2, m3, m4, first'. split; [done|]. split; [done|]. split; [done|]. split; [done|].
  split; [done|]. split.
  - exists lst. apply dseg_app. exists x, (Some a). split.
    + eapply dseg_frame; [|exact Hd3]. intros c Hc. apply O4. set_solver.
    + split; [done|]. exists (Some b). split; [|done].
      rewrite O4, O3 by set_solver. done.
  - rewrite fmap_app, !fmap_cons. intros c Hc. rewrite O4, O3, O2 by set_solver. done.
Qed.

Lemma link_front m first l lst a k d nx pv :
  dseg m None first l lst None →
  m !! a = Some (mkElem nx pv d k (khash k)) → NoDup (a :: addrs l) →
  ∃ m1 m2 m3,
    set_next a first m = Some m1 ∧
    (match first with Some f => set_prev f (Some a) m1 | None => Some m1 end) = Some m2 ∧
    set_prev a None m2 = Some m3 ∧ link_post m m3 (Some a) [] l a k d.
Proof.
  intros Hd Ha [Han Hnd]%NoDup_cons.
  unfold set_next. rewrite Ha. cbn [mbind option_bind e_prev e_data e_pKey e_h].
  set (m1 := <[a := _]> m). assert (only m m1 a) as O1 by (intros c ?; by apply lookup_insert_ne).
  assert (m1 !! a = Some (mkElem first pv d k (khash k))) as Ea1 by apply lookup_insert_eq.
  assert (dseg m1 None first l lst None) as Hd1.
  { eapply dseg_frame; [|exact Hd]. intros c Hc. apply O1. by intros ->. }
  assert (∃ m2 lst', (match first with Some f => set_prev f (Some a) m1 | None => Some m1 end) = Some m2 ∧
    dseg m2 (Some a) first l lst' None ∧ (∀ c, c ∉ addrs l → m2 !! c = m1 !! c))
    as (m2 & lst' & E2 & Hd2 & O2).
  { destruct l as [|[b [kb db]] l].
    - destruct Hd1 as [-> <-]. exists m1, (Some a). done.
    - pose proof Hd1 as [-> _]. rewrite fmap_cons in Hnd. apply NoDup_cons in Hnd as [Hb Hnd].
      destruct (set_prev_first m1 None (Some b) b kb db l lst None (Some a) Hd1 Hb) as (m2 & E & Hd2 & O2).
      exists m2, lst. split; [done|]. split; [done|]. intros c Hc. apply O2.
      rewrite fmap_cons in Hc. set_solver. }
  exists m1, m2. unfold set_prev at 2. rewrite O2, Ea1 by done.
  cbn [mbind option_bind e_next e_data e_pKey e_h]. eexists. split; [done|]. split; [done|].
  split; [done|]. split.
  - exists lst'. split; [done|]. exists first. split; [by rewrite lookup_insert_eq|].
    eapply dseg_frame; [|exact Hd2]. intros c Hc. apply lookup_insert_ne. by intros ->.
  - cbn [app]. rewrite fmap_cons. change (eaddr (a, (k, d))) with a. intros c Hc.
    rewrite lookup_insert_ne, O2, O1 by set_solver. done.
Qed.

(** The part of [removeElement] that unlinks the element. *)
Lemma unlink m first l1 a k d l2 lst :
  dseg m None first (l1 ++ (a, (k, d)) :: l2) lst None →
  NoDup (addrs (l1 ++ (a, (k, d)) :: l2)) →
  ∃ nx pv m1 m2 first' lst',
    m !! a = Some (mkElem nx pv d k (khash k)) ∧ nx = head_addr l2 ∧
    (pv = None ∧ m1 = m ∧ first' = nx ∨
     ∃ p, pv = Some p ∧ set_next p nx m = Some m1 ∧ first' = first) ∧
    (match nx with Some n => set_prev n pv m1 | None => Some m1 end) = Some m2 ∧
    dseg (delete a m2) None first' (l1 ++ l2) lst' None ∧
    (∀ b, b ∉ addrs (l1 ++ l2) → m2 !! b = m !! b).
Proof.
  intros Hd Hnd. rewrite fmap_app, fmap_cons in Hnd. change (eaddr (a, (k, d))) with a in Hnd.
  apply NoDup_app in Hnd as (Hnd1 & Hdis & [Ha Hnd2]%NoDup_cons).
  apply dseg_app in Hd as (x & n & Hd1 & (-> & nx & Ham & Hd2)).
  assert (nx = head_addr l2) as Enx.
  { destruct l2 as [|e l2]; [by destruct Hd2|]. by apply dseg_head in Hd2. }
  assert (∃ m1 first',
    (x = None ∧ m1 = m ∧ first' = nx ∨ ∃ p, x = Some p ∧ set_next p nx m = Some m1 ∧ first' = first) ∧
    dseg m1 None first' l1 x nx ∧ (∀ c, c ∉ addrs l1 → m1 !! c = m !! c))
    as (m1 & first' & Hcase & Hd1' & O1).
  { destruct l1 as [|[c [kc dc]] l1 _] using rev_ind.
    - destruct Hd1 as [-> <-]. exists m, nx. split; [by left|done].
    - rewrite fmap_app in Hnd1. apply NoDup_app in Hnd1 as (_ & Hc & _).
      destruct (set_next_last m None first l1 c kc dc x (Some a) nx Hd1)
        as (m1 & E & Hd1' & O1 & ->).
      { intros Hin. apply (Hc c Hin). set_solver. }
      exists m1, first. split; [right; by exists c|]. split; [done|].
      intros z Hz. apply O1. rewrite fmap_app in Hz. set_solver. }
  assert (∃ m2 lst', (match nx with Some n => set_prev n x m1 | None => Some m1 end) = Some m2 ∧
    dseg m2 x nx l2 lst' None ∧ (∀ c, c ∉ addrs l2 → m2 !! c = m1 !! c))
    as (m2 & lst' & E2 & Hd2' & O2).
  { assert (dseg m1 (Some a) nx l2 lst None) as Hd2'.
    { eapply dseg_frame; [|exact Hd2]. intros c Hc. apply O1. set_solver. }
    destruct l2 as [|[b [kb db]] l2].
    - destruct Hd2' as [-> <-]. exists m1, x. done.
    - pose proof Hd2' as [-> _]. rewrite fmap_cons in Hnd2. apply NoDup_cons in Hnd2 as [Hb Hnd2].
      destruct (set_prev_first m1 (Some a) (Some b) b kb db l2 lst None x Hd2' Hb) as (m2 & E & Hd & O2).
      exists m2, lst. split; [done|]. split; [done|]. intros c Hc. apply O2.
      rewrite fmap_cons in Hc. set_solver. }
  exists nx, x, m1, m2, first', lst'. split; [done|]. split; [done|]. split; [done|]. split; [done|].
  split.
  - apply dseg_app. exists x, nx. split; (eapply dseg_frame; [|done]); intros c Hc.
    + rewrite lookup_delete_ne by (intros ->; set_solver). apply O2. set_solver.
    + rewrite lookup_delete_ne by (intros ->; set_solver). done.
  - rewrite fmap_app. intros c Hc. rewrite O2, O1 by set_solver. done.
Qed.

(** ** Buckets *)

Definition bkt (n : Z) e : Z := khash (ekey e) mod n.

Implicit Types (gs : list (Z * list ent)).

(** The element list is a sequence of groups, one per bucket in use; a bucket in
    use points to the first element of its group and counts it. *)
Record bucketed (n : Z) (t : list ht_entry) es gs : Prop := {
  bk_len : zlen t = n;
  bk_es : es = gs ≫= snd;
  bk_keys : NoDup gs.*1;
  bk_in : ∀ i l, (i, l) ∈ gs → l ≠ [] ∧ ∀ e, e ∈ l → bkt n e = i;
  bk_ht : ∀ i b, t.[i] = Some b →
    (∃ l, (i, l) ∈ gs ∧ b_count b = zlen l ∧ b_chain b = head_addr l) ∨
    (i ∉ gs.*1 ∧ b_count b = 0);
}.

Lemma group_unique gs i l l' : NoDup gs.*1 → (i, l) ∈ gs → (i, l') ∈ gs → l = l'.
Proof.
  induction gs as [|[j k] gs IH]; [set_solver|]. rewrite fmap_cons. intros [Hj Hnd]%NoDup_cons.
  intros [E1|H1]%elem_of_cons [E2|H2]%elem_of_cons.
  - congruence.
  - injection E1 as -> ->. exfalso. apply Hj, list_elem_of_fmap. by exists (j, l').
  - injection E2 as -> ->. exfalso. apply Hj, list_elem_of_fmap. by exists (j, l).
  - by apply IH.
Qed.

(** Replacing the group of one bucket, and its counter. *)
Lemma bucketed_replace n t gs1 gs2 i l l' c :
  bucketed n t ((gs1 ++ (i, l) :: gs2) ≫= snd) (gs1 ++ (i, l) :: gs2) →
  l' ≠ [] → (∀ e, e ∈ l' → bkt n e = i) → 0 ≤ i < n →
  b_count c = zlen l' → b_chain c = head_addr l' →
  bucketed n (<[Z.to_nat i := c]> t) ((gs1 ++ (i, l') :: gs2) ≫= snd) (gs1 ++ (i, l') :: gs2).
Proof.
  intros [Hlen _ Hk Hin Hht] Hne Hl' Hi Hc1 Hc2.
  assert ((gs1 ++ (i, l') :: gs2).*1 = (gs1 ++ (i, l) :: gs2).*1) as Ek by by rewrite !fmap_app.
  split; rewrite ?Ek; try done.
  - by rewrite length_insert.
  - intros j k [H|[[= -> ->]|H]%elem_of_cons]%elem_of_app; [apply Hin; set_solver|done|apply Hin; set_solver].
  - intros j b. rewrite rd_insert by lia. case_cmp.
    + intros [= <-]. subst. left. exists l'. split; [set_solver|done].
    + intros [(k & Hk' & ?)|?]%Hht; [left|by right]. exists k. split; [|done].
      apply elem_of_app in Hk' as [?|[[= -> ->]|?]%elem_of_cons]; [set_solver|done|set_solver].
Qed.

(** A bucket that was not in use receives its first group. *)
Lemma bucketed_new n t gs i l c :
  bucketed n t (gs ≫= snd) gs → i ∉ gs.*1 → l ≠ [] → (∀ e, e ∈ l → bkt n e = i) →
  0 ≤ i < n → b_count c = zlen l → b_chain c = head_addr l →
  bucketed n (<[Z.to_nat i := c]> t) (((i, l) :: gs) ≫= snd) ((i, l) :: gs).
Proof.
  intros [Hlen _ Hk Hin Hht] Hi Hne Hl Hr Hc1 Hc2. split; try done.
  - by rewrite length_insert.
  - rewrite fmap_cons. by apply NoDup_cons.
  - intros j k [[= -> ->]|H]%elem_of_cons; [done|by apply Hin].
  - intros j b. rewrite rd_insert by lia. case_cmp.
    + intros [= <-]. subst. left. exists l. split; [set_solver|done].
    + intros [(k & Hk' & ?)|[? ?]]%Hht; [left; exists k; split; [set_solver|done]|right].
      split; [|done]. rewrite fmap_cons. set_solver.
Qed.

(** A bucket is emptied. *)
Lemma bucketed_drop n t gs1 gs2 i l c :
  bucketed n t ((gs1 ++ (i, l) :: gs2) ≫= snd) (gs1 ++ (i, l) :: gs2) →
  0 ≤ i < n → b_count c = 0 →
  bucketed n (<[Z.to_nat i := c]> t) ((gs1 ++ gs2) ≫= snd) (gs1 ++ gs2).
Proof.
  intros [Hlen _ Hk Hin Hht] Hi Hc.
  rewrite fmap_app, fmap_cons in Hk. apply NoDup_app in Hk as (Hk1 & Hkd & [Hki Hk2]%NoDup_cons).
  cbn [fst] in *. split; try done.
  - by rewrite length_insert.
  - rewrite fmap_app. apply NoDup_app. set_solver.
  - intros j k H. apply Hin. set_solver.
  - intros j b. rewrite rd_insert by lia. case_cmp.
    + intros [= <-]. subst. right. split; [|done]. rewrite fmap_app. set_solver.
    + intros [(k & Hk' & ?)|[Hn ?]]%Hht; [left|right].
      * exists k. split; [|done].
        apply elem_of_app in Hk' as [?|[[= -> ->]|?]%elem_of_cons]; [set_solver|done|set_solver].
      * split; [|done]. rewrite fmap_app, fmap_cons in *. set_solver.
Qed.

(** ** insertElement *)

Lemma insertElement_list pH a k d m es lst nx pv :
  dseg m None (first pH) es lst None → m !! a = Some (mkElem nx pv d k (khash k)) →
  NoDup (a :: addrs es) →
  ∃ pH' m', insertElement pH None a m = Some (pH', m') ∧
    htsize pH' = htsize pH ∧ count pH' = count pH ∧ ht pH' = ht pH ∧
    link_post m m' (first pH') [] es a k d.
Proof.
  intros Hd Ha Hnd. destruct (link_front m (first pH) es lst a k d nx pv) as (m1 & m2 & m3 & E1 & E2 & E3 & Hp);
    [done..|].
  unfold insertElement. cbn [mbind option_bind]. rewrite E1. cbn [mbind option_bind].
  rewrite E2. cbn [mbind option_bind]. rewrite E3. cbn [mbind option_bind].
  do 2 eexists. split; [done|]. done.
Qed.

Lemma insertElement_bucket pH a k d m es gs t lst nx pv :
  ht pH = Some t → 0 < htsize pH → bucketed (htsize pH) t es gs →
  dseg m None (first pH) es lst None → m !! a = Some (mkElem nx pv d k (khash k)) →
  NoDup (a :: addrs es) → zlen es + 1 < 2 ^ 32 →
  ∃ pH' m' t' es' gs' lst', insertElement pH (Some (khash k mod htsize pH)) a m = Some (pH', m') ∧
    htsize pH' = htsize pH ∧ count pH' = count pH ∧ ht pH' = Some t' ∧
    bucketed (htsize pH) t' es' gs' ∧ dseg m' None (first pH') es' lst' None ∧
    es' ≡ₚ (a, (k, d)) :: es ∧ (∀ b, b ∉ a :: addrs es → m' !! b = m !! b).
Proof.
  intros Ht Hn Hb Hd Ha Hnd Hlen. set (i := khash k mod htsize pH).
  assert (0 ≤ i < htsize pH) as Hi by by apply Z.mod_pos_bound.
  pose proof (bk_len _ _ _ _ Hb) as Htl. pose proof (bk_es _ _ _ _ Hb) as Hes.
  unfold insertElement. rewrite Ht. cbn [mbind option_bind].
  destruct (rd_in_bounds t i ltac:(lia)) as [b Hbi]. rewrite Hbi. cbn [mbind option_bind].
  rewrite wr_in_bounds by lia. cbn [mbind option_bind].
  assert (bkt (htsize pH) (a, (k, d)) = i) as Hai by done.
  destruct (bk_ht _ _ _ _ Hb i b Hbi) as [(l & Hl & Hc & Hch)|[Hni Hc]].
  - destruct (bk_in _ _ _ _ Hb i l Hl) as [Hne Hli]. destruct l as [|[c [kc dc]] l]; [done|].
    replace (b_count b =? 0) with false by (rewrite Hc; simpl; lia). rewrite Hch. cbn [head_addr head fmap option_fmap option_map].
    apply list_elem_of_split in Hl as (g1 & g2 & ->). subst es.
    rewrite bind_app, bind_cons in Hd, Hnd, Hlen. cbn [snd] in Hd, Hnd, Hlen.
    change (((c, (kc, dc)) :: l) ++ (g2 ≫= snd)) with ((c, (kc, dc)) :: (l ++ (g2 ≫= snd))) in *.
    destruct (link_before m (first pH) (g1 ≫= snd) c kc dc (l ++ (g2 ≫= snd)) lst a k d nx pv Hd Ha Hnd)
      as (m1 & he & m2 & m3 & m4 & first' & E1 & E2 & E3 & Hcase & E4 & [[lst' Hd4] Hf]).
    change (eaddr (c, (kc, dc))) with c. rewrite E1. cbn [mbind option_bind]. rewrite E2. cbn [mbind option_bind]. rewrite E3.
    cbn [mbind option_bind htsize count first ht].
    assert (∃ pH', (match e_prev he with
      | Some p => m5 ← set_next p (Some a) m2; Some (mkHash (htsize pH) (count pH) (first pH)
          (Some (<[Z.to_nat i:=mkHt (u32 (b_count b + 1)) (Some a)]> t)), m5)
      | None => Some (mkHash (htsize pH) (count pH) (Some a)
          (Some (<[Z.to_nat i:=mkHt (u32 (b_count b + 1)) (Some a)]> t)), m2) end) = Some (pH', m3) ∧
      pH' = mkHash (htsize pH) (count pH) first'
          (Some (<[Z.to_nat i:=mkHt (u32 (b_count b + 1)) (Some a)]> t))) as (pH' & -> & ->).
    { destruct Hcase as [(-> & -> & ->)|(p & -> & E5 & ->)]; [by eexists|].
      rewrite E5. cbn [mbind option_bind]. by eexists. }
    cbn [mbind option_bind]. rewrite E4. cbn [mbind option_bind].
    exists (mkHash (htsize pH) (count pH) first'
          (Some (<[Z.to_nat i:=mkHt (u32 (b_count b + 1)) (Some a)]> t))), m4,
      (<[Z.to_nat i:=mkHt (u32 (b_count b + 1)) (Some a)]> t),
      ((g1 ++ (i, (a, (k, d)) :: (c, (kc, dc)) :: l) :: g2) ≫= snd),
      (g1 ++ (i, (a, (k, d)) :: (c, (kc, dc)) :: l) :: g2), lst'.
    repeat (split; [done|]). split; [|split; [|split]].
    + eapply bucketed_replace; [exact Hb|done| |done| |done].
      * intros e [->|He]%elem_of_cons; [done|by apply Hli].
      * cbn [b_count]. rewrite Hc. rewrite u32_id; [cbn [length]; lia|].
        rewrite length_app in Hlen. cbn [length] in *. rewrite length_app in Hlen. lia.
    + rewrite bind_app, bind_cons. cbn [snd first]. by rewrite <- app_comm_cons in *.
    + rewrite !bind_app, !bind_cons. cbn [snd app]. symmetry. apply Permutation_middle.
    + rewrite bind_app, bind_cons. cbn [snd]. intros z Hz. apply Hf. rewrite fmap_app in Hz |- *.
      rewrite fmap_cons. change (eaddr (a, (k, d))) with a. cbn [app] in *. set_solver.
  - rewrite Hc. cbn [Z.eqb].
    set (c' := mkHt (u32 (0 + 1)) (Some a)).
    destruct (link_front m (first pH) es lst a k d nx pv) as (m1 & m2 & m3 & E1 & E2 & E3 & [[lst' Hd3] Hf]);
      [done..|].
    cbn [first htsize count ht]. rewrite E1. cbn [mbind option_bind].
    rewrite E2. cbn [mbind option_bind]. rewrite E3. cbn [mbind option_bind].
    exists (mkHash (htsize pH) (count pH) (Some a) (Some (<[Z.to_nat i:=c']> t))), m3,
      (<[Z.to_nat i:=c']> t), (((i, [(a, (k, d))]) :: gs) ≫= snd), ((i, [(a, (k, d))]) :: gs), lst'.
    repeat (split; [done|]). split; [|split; [|split]].
    + apply bucketed_new; try done; [by rewrite <- Hes|]. intros e ->%list_elem_of_singleton. done.
    + by rewrite bind_cons, <- Hes.
    + by rewrite bind_cons, <- Hes.
    + intros z Hz. apply Hf. done.
Qed.

(** ** Rehashing *)

(** The elements still to be moved: only their forward links are intact. *)
Fixpoint rseg m (p : option Z) l : Prop :=
  match l with
  | [] => p = None
  | (a, (k, d)) :: l =>
      p = Some a ∧ ∃ n pv, m !! a = Some (mkElem n pv d k (khash k)) ∧ rseg m n l
  end.

Lemma dseg_rseg m pr p l lst : dseg m pr p l lst None → rseg m p l.
Proof.
  revert pr p. induction l as [|[a [k d]] l IH]; intros pr p; cbn [dseg rseg]; [by intros [-> _]|].
  intros (-> & n & Hn & Hl). split; [done|]. exists n, pr. split; [done|by eapply IH].
Qed.

Lemma rseg_frame m m' p l :
  (∀ a, a ∈ addrs l → m' !! a = m !! a) → rseg m p l → rseg m' p l.
Proof.
  revert p. induction l as [|[a [k d]] l IH]; intros p Hm; [done|].
  intros (-> & n & pv & Hn & Hl). split; [done|]. exists n, pv. split.
  - rewrite Hm; [done|]. by apply list_elem_of_here.
  - apply IH; [|done]. intros b Hb. apply Hm. by apply list_elem_of_further.
Qed.

Lemma perm_addrs_in es es' a : es' ≡ₚ es → a ∈ addrs es' ↔ a ∈ addrs es.
Proof. by intros ->. Qed.

Lemma rehash_loop_correct fuel pH elem m es gs t lst rest :
  (length rest ≤ fuel)%nat → ht pH = Some t → 0 < htsize pH → bucketed (htsize pH) t es gs →
  dseg m None (first pH) es lst None → rseg m elem rest → NoDup (addrs (rest ++ es)) →
  zlen (rest ++ es) < 2 ^ 32 →
  ∃ pH' m' t' es' gs' lst', rehash_loop fuel pH elem m = Some (pH', m') ∧
    htsize pH' = htsize pH ∧ count pH' = count pH ∧ ht pH' = Some t' ∧
    bucketed (htsize pH) t' es' gs' ∧ dseg m' None (first pH') es' lst' None ∧
    es' ≡ₚ rest ++ es ∧ (∀ b, b ∉ addrs (rest ++ es) → m' !! b = m !! b).
Proof.
  revert pH elem m es gs t lst rest.
  induction fuel as [|fuel IH]; intros pH elem m es gs t lst rest Hf Ht Hn Hb Hd Hr Hnd Hlen;
    (destruct rest as [|[a [k d]] rest];
      [rewrite Hr; by exists pH, m, t, es, gs, lst|]); simpl in Hf; [lia|].
  destruct Hr as (-> & nx & pv & Ha & Hr). cbn [app] in Hnd, Hlen.
  rewrite fmap_cons, fmap_app in Hnd. change (eaddr (a, (k, d))) with a in Hnd.
  pose proof Hnd as [Han (Hnd1 & Hdis & Hnd2)%NoDup_app]%NoDup_cons.
  cbn [length] in Hlen. rewrite length_app in Hlen.
  cbn [rehash_loop]. rewrite Ha. cbn [mbind option_bind e_h e_next].
  destruct (insertElement_bucket pH a k d m es gs t lst nx pv)
    as (pH1 & m1 & t1 & es1 & gs1 & lst1 & E & Es & Ec & Ht1 & Hb1 & Hd1 & Hp1 & Hf1);
    [done..|apply NoDup_cons; set_solver|lia|].
  rewrite E. cbn [mbind option_bind].
  destruct (IH pH1 nx m1 es1 gs1 t1 lst1 rest)
    as (pH2 & m2 & t2 & es2 & gs2 & lst2 & E2 & Es2 & Ec2 & Ht2 & Hb2 & Hd2 & Hp2 & Hf2).
  - lia.
  - done.
  - by rewrite Es.
  - by rewrite Es.
  - done.
  - eapply rseg_frame; [|exact Hr]. intros b Hb'. apply Hf1. set_solver.
  - rewrite Hp1. rewrite <- Permutation_middle, fmap_cons, fmap_app. done.
  - rewrite Hp1, <- Permutation_middle. cbn [length]. rewrite length_app. lia.
  - rewrite Es in *. exists pH2, m2, t2, es2, gs2, lst2. split; [done|]. split; [done|].
    split; [congruence|]. split; [done|]. split; [done|]. split; [done|]. split.
    + rewrite Hp2, Hp1. cbn [app]. by rewrite Permutation_middle.
    + intros b Hb'. rewrite Hf2, Hf1; [done| |].
      * cbn [app] in Hb'. rewrite fmap_cons, fmap_app in Hb'. set_solver.
      * rewrite (perm_addrs_in ((a, (k, d)) :: rest ++ es)); [done|].
        by rewrite Hp1, Permutation_middle.
Qed.

(** ** Searching *)

Definition same_key (z : list Z) e : Prop := kfold (ekey e) = kfold z.
#[global] Instance same_key_dec z e : Decision (same_key z e).
Proof. unfold same_key. apply _. Defined.

Definition ffind (z : list Z) es : option ent := head (filter (same_key z) es).

Lemma find_loop_correct m pr p l l' lst q z :
  dseg m pr p (l ++ l') lst q → kvalid z → (∀ e, e ∈ l → kvalid (ekey e)) →
  find_loop (length l) p (khash z) z m = Some (eaddr <$> ffind z l).
Proof.
  unfold ffind. revert pr p. induction l as [|[a [k d]] l IH]; intros pr p; [done|].
  intros (-> & n & Hn & Hl) Hz Hk. cbn [find_loop length mbind option_bind].
  rewrite Hn. cbn [mbind option_bind e_h e_pKey e_next].
  assert (kvalid k) as Hka by (apply (Hk (a, (k, d))), list_elem_of_here).
  destruct (StrICmp_valid k z Hka Hz) as (c & Ec & Hc). rewrite Ec.
  rewrite filter_cons. destruct (decide (same_key z (a, (k, d)))) as [Hs|Hs].
  - rewrite <- (khash_fold k z) by done. rewrite Z.eqb_refl, Hc.
    by rewrite bool_decide_eq_true_2.
  - assert ((if khash z =? khash k then Some c else Some 1) = Some (if khash z =? khash k then c else 1)) as ->.
    { by destruct (khash z =? khash k). }
    replace ((if khash z =? khash k then c else 1) =? 0) with false.
    + eapply IH; [done|done|]. intros e He. by apply Hk, list_elem_of_further.
    + destruct (khash z =? khash k); [|done]. by rewrite Hc, bool_decide_eq_false_2.
Qed.

Lemma filter_none z l : (∀ e, e ∈ l → ¬ same_key z e) → filter (same_key z) l = [].
Proof.
  induction l as [|e l IH]; [done|]. intros H. rewrite filter_cons.
  rewrite decide_False by apply H, list_elem_of_here. apply IH.
  intros e' He'. by apply H, list_elem_of_further.
Qed.

Lemma find_group n t es gs z i l :
  bucketed n t es gs → kvalid z → (∀ e, e ∈ es → kvalid (ekey e)) → i = khash z mod n →
  (i, l) ∈ gs → ffind z es = ffind z l.
Proof.
  intros Hb Hz Hk -> Hl. unfold ffind. f_equal.
  pose proof (bk_es _ _ _ _ Hb) as ->. pose proof (bk_keys _ _ _ _ Hb) as Hnd.
  assert (∀ j l' e, (j, l') ∈ gs → j ≠ khash z mod n → e ∈ l' → ¬ same_key z e) as Hno.
  { intros j l' e Hj Hne He Hs. apply Hne. apply (bk_in _ _ _ _ Hb) in Hj as Hj'.
    rewrite <- (proj2 Hj' e He). unfold bkt. f_equal. apply khash_fold; [|done|done].
    apply Hk, list_elem_of_bind. by exists (j, l'). }
  apply list_elem_of_split in Hl as (g1 & g2 & ->).
  rewrite fmap_app, fmap_cons in Hnd. apply NoDup_app in Hnd as (_ & Hd & [Hn2 _]%NoDup_cons).
  cbn [fst] in *.
  rewrite bind_app, bind_cons, !filter_app. cbn [snd].
  rewrite (filter_none z (g1 ≫= snd)), (filter_none z (g2 ≫= snd)); [by rewrite app_nil_r| |].
  - intros e ([j l'] & He & Hj)%list_elem_of_bind. apply (Hno j l'); [set_solver| |done].
    intros ->. apply Hn2, list_elem_of_fmap. by exists (khash z mod n, l').
  - intros e ([j l'] & He & Hj)%list_elem_of_bind. apply (Hno j l'); [set_solver| |done].
    intros ->. apply (Hd (khash z mod n)); [|set_solver]. apply list_elem_of_fmap.
    by exists (khash z mod n, l').
Qed.

Lemma find_no_group n t es gs z i :
  bucketed n t es gs → kvalid z → (∀ e, e ∈ es → kvalid (ekey e)) → i = khash z mod n →
  i ∉ gs.*1 → ffind z es = None.
Proof.
  intros Hb Hz Hk -> Hi. unfold ffind. rewrite filter_none; [done|].
  pose proof (bk_es _ _ _ _ Hb) as ->. intros e ([j l] & He & Hj)%list_elem_of_bind Hs.
  apply Hi, list_elem_of_fmap. exists (j, l). split; [|done]. cbn [fst].
  rewrite <- (proj2 (bk_in _ _ _ _ Hb j l Hj) e He). unfold bkt. f_equal. symmetry.
  apply khash_fold; [|done|done]. apply Hk, list_elem_of_bind. by exists (j, l).
Qed.

(** ** The representation of a table *)

Definition habs es : gmap (list Z) Z := list_to_map ((λ e, (kfold (ekey e), edata e)) <$> es).

Abbreviation folds l := ((λ e, kfold (ekey e)) <$> l).

(** [L] is the number of live allocations that do not belong to the table. *)
Record hrep (L : Z) (pH : Hash) (w : hworld) es : Prop := {
  hr_dll : ∃ lst, dseg (hp w) None (first pH) es lst None;
  hr_nodup : NoDup (addrs es);
  hr_fresh : ∀ a, is_Some (hp w !! a) → a < hbrk w;
  hr_count : count pH = zlen es;
  hr_keys : ∀ e, e ∈ es → kvalid (ekey e) ∧ edata e ≠ 0;
  hr_folds : NoDup (folds es);
  hr_ht : match ht pH with
          | None => htsize pH = 0
          | Some t => 0 < htsize pH ∧ ∃ gs, bucketed (htsize pH) t es gs
          end;
  hr_live : live (ham w) = L + zlen es + b2z (match ht pH with Some _ => true | None => false end);
}.

Lemma habs_lookup es z : habs es !! kfold z = edata <$> ffind z es.
Proof.
  unfold habs, ffind. induction es as [|e es IH]; [done|]. rewrite fmap_cons. cbn [list_to_map foldr].
  rewrite filter_cons. unfold same_key at 1. cbn [fst snd].
  destruct (decide (kfold (ekey e) = kfold z)) as [->|Hne].
  - by rewrite lookup_insert_eq.
  - rewrite lookup_insert_ne by done. apply IH.
Qed.

Lemma habs_keys es : ((λ e, (kfold (ekey e), edata e)) <$> es).*1 = folds es.
Proof. by rewrite <- list_fmap_compose. Qed.

Lemma habs_perm es es' : es ≡ₚ es' → NoDup (folds es) → habs es = habs es'.
Proof.
  intros Hp Hnd. unfold habs. apply list_to_map_proper; [by rewrite habs_keys|by rewrite Hp].
Qed.

Lemma habs_cons e es : habs (e :: es) = <[kfold (ekey e) := edata e]> (habs es).
Proof. done. Qed.

Lemma ffind_Some z es e : ffind z es = Some e → e ∈ es ∧ same_key z e.
Proof.
  unfold ffind. intros H. assert (e ∈ filter (same_key z) es) as Hin.
  { destruct (filter (same_key z) es) as [|e' l]; [done|]. injection H as ->. apply list_elem_of_here. }
  by apply list_elem_of_filter in Hin as [? ?].
Qed.

Lemma ffind_None z es : ffind z es = None → kfold z ∉ folds es.
Proof.
  intros H (e & E & Hin)%list_elem_of_fmap.
  assert (e ∈ filter (same_key z) es) as He by (apply list_elem_of_filter; done).
  unfold ffind in H. destruct (filter (same_key z) es); [set_solver|done].
Qed.

(** Every search ends at the element with the key, if there is one. *)
Lemma find_correct L pH w es z :
  hrep L pH w es → kvalid z →
  findElementWithHash pH z (hp w) = Some (eaddr <$> ffind z es, khash z).
Proof.
  intros [[lst Hd] Hnd _ Hc Hk Hf Hht _] Hz. unfold findElementWithHash.
  rewrite (strHash_valid z Hz). cbn [mbind option_bind].
  assert (∀ e, e ∈ es → kvalid (ekey e)) as Hk' by (intros e He; by apply Hk).
  destruct (ht pH) as [t|] eqn:Et.
  - destruct Hht as (Hn & gs & Hb). pose proof (bk_len _ _ _ _ Hb) as Htl.
    pose proof (Z.mod_pos_bound (khash z) (htsize pH) Hn) as Hi.
    destruct (rd_in_bounds t (khash z mod htsize pH) ltac:(lia)) as [b Hbi]. rewrite Hbi.
    cbn [mbind option_bind].
    destruct (bk_ht _ _ _ _ Hb _ _ Hbi) as [(l & Hl & Hbc & Hch)|[Hni Hbc]].
    + rewrite Hbc, Nat2Z.id, Hch, (find_group _ _ _ _ z _ l Hb Hz Hk' eq_refl Hl).
      pose proof (bk_es _ _ _ _ Hb) as Ees.
      destruct (bk_in _ _ _ _ Hb _ _ Hl) as [Hne _].
      apply list_elem_of_split in Hl as (g1 & g2 & ->).
      rewrite bind_app, bind_cons in Ees. cbn [snd] in Ees. subst es.
      apply dseg_app in Hd as (x & n & _ & Hd).
      assert (n = head_addr l) as ->.
      { apply dseg_head in Hd; [|by destruct l]. by destruct l. }
      rewrite (find_loop_correct _ _ _ _ _ _ _ _ Hd Hz); [done|].
      intros e He. apply Hk'. set_solver.
    + rewrite Hbc. rewrite (find_no_group _ _ _ _ z _ Hb Hz Hk' eq_refl Hni). done.
  - rewrite Hc, Nat2Z.id. rewrite <- (app_nil_r es) in Hd.
    by rewrite (find_loop_correct _ _ _ _ _ _ _ _ Hd Hz).
Qed.

Lemma data_of_ffind L pH w es z :
  hrep L pH w es → data_of (hp w) (eaddr <$> ffind z es) = Some (default 0 (edata <$> ffind z es)).
Proof.
  intros [[lst Hd] _ _ _ _ _ _ _]. destruct (ffind z es) as [[a [k d]]|] eqn:E; [|done].
  apply ffind_Some in E as [Hin _].
  destruct (dseg_lookup _ _ _ _ _ _ _ _ _ Hd Hin) as (n & pv & Hm).
  cbn [data_of fmap option_fmap option_map eaddr edata fst snd]. by rewrite Hm.
Qed.

Lemma hash_find_correct L pH w es z :
  hrep L pH w es → kvalid z → sqlite3HashFind pH z w = Some (default 0 (habs es !! kfold z)).
Proof.
  intros Hr Hz. unfold sqlite3HashFind. rewrite (find_correct L pH w es z Hr Hz).
  cbn [mbind option_bind]. rewrite (data_of_ffind L pH w es z Hr). by rewrite habs_lookup.
Qed.

(** ** Clearing *)

Lemma free_elems_correct fuel m brk am p l :
  (length l ≤ fuel)%nat → rseg m p l → NoDup (addrs l) →
  ∃ m', free_elems fuel p (HW m brk am) = Some (HW m' brk (Mem (oom am) (live am - zlen l))) ∧
    (∀ a, is_Some (m' !! a) → is_Some (m !! a)).
Proof.
  revert m am p l. induction fuel as [|fuel IH]; intros m am p l Hf Hr Hnd;
    (destruct l as [|[a [k d]] l];
      [rewrite Hr; exists m; split; [destruct am; cbn; by rewrite Z.sub_0_r|done]|]);
    simpl in Hf; [lia|].
  destruct Hr as (-> & nx & pv & Ha & Hr). rewrite fmap_cons in Hnd.
  apply NoDup_cons in Hnd as [Han Hnd]. change (eaddr (a, (k, d))) with a in Han.
  cbn [free_elems hp]. rewrite Ha. cbn [mbind option_bind e_next hbrk ham].
  destruct (IH (delete a m) (sqlite3_free am) nx l) as (m' & -> & Hm').
  - lia.
  - eapply rseg_frame; [|exact Hr]. intros b Hb. apply lookup_delete_ne. by intros ->.
  - done.
  - exists m'. split; [do 3 f_equal; simpl; lia|].
    intros b Hb%Hm'. apply lookup_delete_is_Some in Hb. tauto.
Qed.

Lemma heap_fuel m l : NoDup (addrs l) → (∀ a, a ∈ addrs l → is_Some (m !! a)) →
  (length l ≤ size m)%nat.
Proof.
  intros Hnd Hin. rewrite <- size_dom, <- (length_fmap eaddr).
  rewrite <- (size_list_to_set (C := gset Z) (addrs l)) by done.
  apply subseteq_size. intros a Ha%elem_of_list_to_set. by apply elem_of_dom, Hin.
Qed.

Lemma dseg_addr m pr p l lst q a : dseg m pr p l lst q → a ∈ addrs l → is_Some (m !! a).
Proof.
  intros Hd ([b [k d]] & -> & Hin)%list_elem_of_fmap.
  destruct (dseg_lookup _ _ _ _ _ _ _ _ _ Hd Hin) as (n & pv & Hm). by eexists.
Qed.

Lemma clear_correct L pH w es :
  hrep L pH w es →
  ∃ w', sqlite3HashClear pH w = Some (sqlite3HashInit, w') ∧ hrep L sqlite3HashInit w' [] ∧
    live (ham w') = L ∧ oom (ham w') = oom (ham w).
Proof.
  intros [[lst Hd] Hnd Hfr Hc Hk Hf Hht Hl]. unfold sqlite3HashClear.
  destruct (free_elems_correct (size (hp w)) (hp w) (hbrk w) (free_ht pH (ham w)) (first pH) es)
    as (m' & -> & Hm').
  - apply heap_fuel; [done|]. intros a. by eapply dseg_addr.
  - by eapply dseg_rseg.
  - done.
  - cbn [mbind option_bind]. eexists. split; [done|].
    assert (live (free_ht pH (ham w)) - zlen es = L) as El.
    { unfold free_ht. destruct (ht pH); cbn [b2z] in Hl; simpl; lia. }
    split; [|split; [done|by unfold free_ht; destruct (ht pH)]].
    split; cbn; try done; [by exists None|constructor|..].
    + intros a Ha%Hm'. by apply Hfr.
    + set_solver.
    + constructor.
    + lia.
Qed.

(** ** Removing *)

Definition has_ht (pH : Hash) : Z := b2z (match ht pH with Some _ => true | None => false end).

(** The links and the buckets, without the counts. *)
Definition hstruct (pH : Hash) m es : Prop :=
  (∃ lst, dseg m None (first pH) es lst None) ∧
  match ht pH with
  | None => htsize pH = 0
  | Some t => 0 < htsize pH ∧ ∃ gs, bucketed (htsize pH) t es gs
  end.

Lemma hrep_struct L pH w es : hrep L pH w es → hstruct pH (hp w) es.
Proof. by intros [? _ _ _ _ _ ? _]. Qed.

(** The bucket update of [removeElement]. *)
Definition drop_from_bucket (pH : Hash) (elem h : Z) (next : option Z) : option Hash :=
  match ht pH with
  | Some t =>
      b ← t.[h mod htsize pH];
      let chain := if bool_decide (b_chain b = Some elem) then next else b_chain b in
      t ← wr t (h mod htsize pH) (mkHt (u32 (b_count b - 1)) chain);
      Some (mkHash (htsize pH) (count pH) (first pH) (Some t))
  | None => Some pH
  end.

(** The element [x] of the list [es], found where the buckets say it is. *)
Lemma drop_correct pH es gs t a k d f :
  ht pH = Some t → 0 < htsize pH → bucketed (htsize pH) t es gs → (a, (k, d)) ∈ es →
  NoDup (addrs es) → zlen es < 2 ^ 32 →
  ∃ l1 l2 t' gs',
    es = l1 ++ (a, (k, d)) :: l2 ∧
    drop_from_bucket (mkHash (htsize pH) (count pH) f (ht pH)) a (khash k) (head_addr l2)
      = Some (mkHash (htsize pH) (count pH) f (Some t')) ∧
    bucketed (htsize pH) t' (l1 ++ l2) gs'.
Proof.
  intros Ht Hn Hb Hin Hnd Hlen. set (i := khash k mod htsize pH).
  assert (0 ≤ i < htsize pH) as Hi by by apply Z.mod_pos_bound.
  pose proof (bk_es _ _ _ _ Hb) as Ees. pose proof (bk_len _ _ _ _ Hb) as Htl.
  rewrite Ees in Hin. apply list_elem_of_bind in Hin as ([j l] & Hxl & Hl). cbn [snd] in Hxl.
  destruct (bk_in _ _ _ _ Hb j l Hl) as [_ Hli].
  assert (j = i) as -> by (symmetry; apply (Hli _ Hxl)).
  unfold drop_from_bucket. cbn [ht htsize count first]. rewrite Ht.
  destruct (rd_in_bounds t i ltac:(lia)) as [b Hbi].
  fold i. rewrite Hbi. cbn [mbind option_bind]. 
  destruct (bk_ht _ _ _ _ Hb i b Hbi) as [(l' & Hl' & Hbc & Hch)|[Hni _]].
  2: { exfalso. apply Hni, list_elem_of_fmap. by exists (i, l). }
  assert (l' = l) as -> by (eapply group_unique; [apply Hb|done..]).
  apply list_elem_of_split in Hl as (g1 & g2 & ->). apply list_elem_of_split in Hxl as (la & lb & ->).
  rewrite bind_app, bind_cons in Ees. cbn [snd] in Ees.
  exists ((g1 ≫= snd) ++ la), (lb ++ (g2 ≫= snd)).
  assert (zlen (la ++ (a, (k, d)) :: lb) ≤ zlen es) as Hle.
  { rewrite Ees, !length_app. lia. }
  assert (bucketed (htsize pH) t ((g1 ++ (i, la ++ (a, (k, d)) :: lb) :: g2) ≫= snd)
    (g1 ++ (i, la ++ (a, (k, d)) :: lb) :: g2)) as Hb'.
  { rewrite bind_app, bind_cons. cbn [snd]. by rewrite <- Ees. }
  set (c := mkHt _ _). exists (<[Z.to_nat i:=c]> t).
  rewrite wr_in_bounds by lia. cbn [mbind option_bind].
  assert (es = ((g1 ≫= snd) ++ la) ++ (a, (k, d)) :: lb ++ (g2 ≫= snd)) as Ees'.
  { rewrite Ees, <- !app_assoc. done. }
  destruct (decide (la ++ lb = [])) as [Enil|Hne].
  - apply app_nil in Enil as [-> ->]. exists (g1 ++ g2). split; [exact Ees'|]. split; [done|].
    rewrite app_nil_r. cbn [app]. rewrite <- bind_app. eapply bucketed_drop; [exact Hb'|done|].
    unfold c. cbn [b_count app length] in *. rewrite Hbc. done.
  - exists (g1 ++ (i, la ++ lb) :: g2). split; [exact Ees'|]. split; [done|].
    replace (((g1 ≫= snd) ++ la) ++ lb ++ (g2 ≫= snd)) with ((g1 ++ (i, la ++ lb) :: g2) ≫= snd)
      by (rewrite bind_app, bind_cons; cbn [snd]; by rewrite <- !app_assoc).
    eapply bucketed_replace; [exact Hb'|done| |done|..].
    + intros e He. apply Hli. set_solver.
    + unfold c. cbn [b_count]. rewrite Hbc. len_in Hle.
      rewrite u32_id; rewrite !length_app; cbn [length]; lia.
    + unfold c. cbn [b_chain]. rewrite Hch.
      destruct la as [|[a' [k' d']] la].
      * cbn [app head_addr head fmap option_fmap option_map]. rewrite bool_decide_eq_true_2 by done.
        destruct lb as [|e lb]; [done|]. done.
      * cbn [app head_addr head fmap option_fmap option_map].
        rewrite bool_decide_eq_false_2; [done|]. intros [= E]. change (eaddr (a', (k', d'))) with a' in E. subst a'.
        rewrite Ees' in Hnd. cbn [app] in Hnd. rewrite <- !app_assoc in Hnd.
        rewrite !fmap_app, fmap_cons in Hnd. apply NoDup_app in Hnd as (_ & _ & Hnd).
        cbn [app] in Hnd. apply NoDup_cons in Hnd as [Hnot _]. apply Hnot.
        apply elem_of_app. right. apply list_elem_of_here.
Qed.

Lemma remove_correct L pH w es a k d :
  hrep L pH w es → (a, (k, d)) ∈ es → zlen es < 2 ^ 32 →
  ∃ pH' w' es', removeElement pH a w = Some (pH', w') ∧ es ≡ₚ (a, (k, d)) :: es' ∧
    hrep L pH' w' es' ∧ oom (ham w') = oom (ham w).
Proof.
  intros Hr Hin Hlen. pose proof Hr as [[lst Hd] Hnd Hfr Hc Hk Hf Hht Hl].
  assert (∃ l1 l2, es = l1 ++ (a, (k, d)) :: l2 ∧
    ∀ f, ∃ ht' gs', drop_from_bucket (mkHash (htsize pH) (count pH) f (ht pH)) a (khash k) (head_addr l2)
      = Some (mkHash (htsize pH) (count pH) f ht') ∧
      match ht' with
      | None => htsize pH = 0 ∧ ht pH = None
      | Some t => 0 < htsize pH ∧ bucketed (htsize pH) t (l1 ++ l2) gs' ∧ has_ht pH = 1
      end) as (l1 & l2 & Ees & Hdrop).
  { unfold has_ht. destruct (ht pH) as [t|] eqn:Et.
    - destruct Hht as (Hn & gs & Hb).
      destruct (drop_correct pH es gs t a k d None Et Hn Hb Hin Hnd Hlen)
        as (l1 & l2 & t' & gs' & E1 & E2 & E3).
      exists l1, l2. split; [done|]. intros f. exists (Some t'), gs'. split; [|done].
      unfold drop_from_bucket in *. cbn [ht htsize count first] in *. rewrite Et in *.
      destruct (t.[khash k mod htsize pH]); [|done]. cbn [mbind option_bind] in *.
      destruct (wr t _ _); [|done]. cbn [mbind option_bind] in *. congruence.
    - apply list_elem_of_split in Hin as (l1 & l2 & ->). exists l1, l2. split; [done|].
      intros f. by exists None, []. }
  rewrite Ees in Hd, Hnd.
  destruct (unlink (hp w) (first pH) l1 a k d l2 lst Hd Hnd)
    as (nx & pv & m1 & m2 & first' & lst' & Ha & Enx & Hcase & E2 & Hd' & Hf').
  destruct (Hdrop first') as (ht' & gs' & Edrop & Hht').
  unfold removeElement. rewrite Ha. cbn [mbind option_bind e_prev e_next e_h].
  assert ((match pv with
           | Some p => m ← set_next p nx (hp w); Some (pH, m)
           | None => Some (mkHash (htsize pH) (count pH) nx (ht pH), hp w)
           end) = Some (mkHash (htsize pH) (count pH) first' (ht pH), m1)) as ->.
  { destruct Hcase as [(-> & -> & ->)|(p & -> & E1 & ->)]; [done|]. rewrite E1. by destruct pH. }
  cbn [mbind option_bind]. rewrite E2. cbn [mbind option_bind].
  unfold drop_from_bucket in Edrop. rewrite Enx, Edrop. cbn [mbind option_bind].
  cbn [htsize count first ht].
  assert (es ≡ₚ (a, (k, d)) :: l1 ++ l2) as Hp by (rewrite Ees; symmetry; apply Permutation_middle).
  pose proof (Permutation_length Hp) as Hplen. cbn [length] in Hplen.
  rewrite Hc, u32_id by lia.
  set (pH' := mkHash (htsize pH) (zlen es - 1) first' ht').
  set (w' := HW (delete a m2) (hbrk w) (sqlite3_free (ham w))).
  assert (hrep L pH' w' (l1 ++ l2)) as Hr'.
  { split; cbn.
    - by exists lst'.
    - rewrite <- Ees in Hnd. rewrite Hp, fmap_cons in Hnd. by apply NoDup_cons in Hnd as [_ ?].
    - intros b Hb. apply lookup_delete_is_Some in Hb as [Hne Hb].
      destruct (decide (b ∈ addrs (l1 ++ l2))) as [Hbin|Hbin].
      + apply Hfr. apply (dseg_addr _ _ _ _ _ _ _ Hd). rewrite fmap_app in *. set_solver.
      + apply Hfr. by rewrite <- Hf'.
    - lia.
    - intros e He. apply Hk. rewrite Ees. set_solver.
    - rewrite Hp, fmap_cons in Hf. by apply NoDup_cons in Hf as [_ ?].
    - destruct ht' as [t'|]; [|by destruct Hht']. destruct Hht' as (? & ? & _). eauto.
    - unfold has_ht in Hht'. destruct ht' as [t'|].
      + destruct Hht' as (_ & _ & E). rewrite E in Hl. cbn [b2z]. lia.
      + destruct Hht' as [_ E]. rewrite E in Hl. cbn [b2z] in *. lia. }
  case_cmp.
  - assert (l1 ++ l2 = []) as E0 by (apply length_zero_iff_nil; lia).
    destruct (clear_correct L pH' w' (l1 ++ l2) Hr') as (w'' & E & Hr'' & _ & Eo).
    rewrite E. exists sqlite3HashInit, w'', []. rewrite E0 in Hp. done.
  - exists pH', w', (l1 ++ l2). done.
Qed.

(** ** Inserting *)

Lemma hash_init_rep w :
  (∀ a, is_Some (hp w !! a) → a < hbrk w) → hrep (live (ham w)) sqlite3HashInit w [].
Proof.
  intros Hfr. split; cbn; try done; [by exists None|constructor|set_solver|constructor|lia].
Qed.

Section msize.
(** The allocator reports at least the size that was asked for; the table never asks for more
    than the soft limit. *)
Context (msize : Z → Z)
  (Hmsize : ∀ n, 0 ≤ n ≤ SQLITE_MALLOC_SOFT_LIMIT → n ≤ msize n < 2 ^ 31).

(** Rehashing keeps the elements; an allocation failure leaves the table alone. *)
Lemma hash_rehash_correct pH ns w es :
  hstruct pH (hp w) es → NoDup (addrs es) → zlen es < 2 ^ 32 → 0 < ns < 2 ^ 32 →
  ∃ b pH' w' es', rehash msize pH ns w = Some (b, pH', w') ∧ es' ≡ₚ es ∧
    hstruct pH' (hp w') es' ∧ count pH' = count pH ∧ hbrk w' = hbrk w ∧
    (∀ a, a ∉ addrs es → hp w' !! a = hp w !! a) ∧
    live (ham w') - has_ht pH' = live (ham w) - has_ht pH ∧
    (always_ok (ham w) → always_ok (ham w')).
Proof.
  intros Hs Hnd Hlen Hns. pose proof Hs as [[lst Hd] Hht]. unfold rehash.
  set (n1 := if _ <? _ then _ else ns).
  assert (0 < n1 ∧ n1 * sizeof_ht ≤ SQLITE_MALLOC_SOFT_LIMIT) as [Hn1 Hn1'].
  { unfold n1. case_cmp; unfold SQLITE_MALLOC_SOFT_LIMIT, sizeof_ht in *; [done|lia]. }
  case_cmp; [by exists false, pH, w, es|].
  destruct (sqlite3Malloc (ham w)) as [ok am] eqn:Em.
  pose proof (sqlite3Malloc_live _ _ _ Em) as Hlive.
  assert (always_ok (ham w) → always_ok am) as Hok.
  { intros Ho. by destruct (sqlite3Malloc_ok _ _ _ Ho Em). }
  destruct ok; cbn [negb].
  2: { exists false, pH, (HW (hp w) (hbrk w) am), es. cbn in *. repeat (split; [by eauto|]).
       split; [lia|done]. }
  set (n2 := u32 (msize (n1 * sizeof_ht) / sizeof_ht)).
  assert (0 < n2) as Hn2.
  { pose proof (Hmsize (n1 * sizeof_ht) ltac:(unfold sizeof_ht in *; lia)) as Hm.
    unfold n2, SQLITE_MALLOC_SOFT_LIMIT, sizeof_ht in *. rewrite u32_id; zdm. }
  set (pH0 := mkHash n2 (count pH) None (Some (replicate (Z.to_nat n2) (mkHt 0 None)))).
  destruct (rehash_loop_correct (size (hp w)) pH0 (first pH) (hp w) [] []
    (replicate (Z.to_nat n2) (mkHt 0 None)) None es)
    as (pH' & m' & t' & es' & gs' & lst' & E & Es & Ec & Et & Hb' & Hd' & Hp & Hf).
  - apply heap_fuel; [done|]. intros a. by eapply dseg_addr.
  - done.
  - done.
  - split; try done; [rewrite length_replicate; cbn; lia|constructor|set_solver|].
    intros i b Hib. right. split; [set_solver|]. apply rd_lookup in Hib as [_ Hib].
    by apply lookup_replicate in Hib as [-> _].
  - done.
  - by eapply dseg_rseg.
  - by rewrite app_nil_r.
  - rewrite app_nil_r. lia.
  - rewrite app_nil_r in *. rewrite E. cbn [mbind option_bind].
    exists true, pH', (HW m' (hbrk w) (free_ht pH am)), es'. split; [done|]. split; [done|].
    split; [split; [by exists lst'|rewrite Et, Es; eauto]|]. split; [done|]. split; [done|].
    split; [done|]. cbn [ham]. unfold has_ht. rewrite Et. unfold free_ht. cbn [b2z] in *.
    destruct (ht pH); cbn [b2z live sqlite3_free]; (split; [lia|exact Hok]).
Qed.

(** Adding a new element at address [hbrk w]. *)
Lemma add_correct L pH w es key data am :
  hrep L pH w es → kvalid key → data ≠ 0 → ffind key es = None → zlen es < 2 ^ 30 →
  sqlite3Malloc (ham w) = (true, am) →
  ∃ pH' w' es',
    (let new_elem := hbrk w in
     let w := HW (<[new_elem := mkElem None None data key (khash key)]> (hp w)) (hbrk w + 1) am in
     let pH := mkHash (htsize pH) (u32 (count pH + 1)) (first pH) (ht pH) in
     '(pH, w) ← (if (5 <=? count pH) && (u32 (2 * htsize pH) <? count pH)
                 then '(_, pH, w) ← rehash msize pH (u32 (count pH * 3)) w; Some (pH, w)
                 else Some (pH, w));
     '(pH, m) ← insertElement pH
        (match ht pH with Some _ => Some (khash key mod htsize pH) | None => None end)
        new_elem (hp w);
     Some (0, pH, HW m (hbrk w) (ham w))) = Some (0, pH', w') ∧
    hrep L pH' w' es' ∧ es' ≡ₚ (hbrk w, (key, data)) :: es ∧
    (always_ok (ham w) → always_ok (ham w')).
Proof.
  intros Hr Hkey Hdata Hff Hlen Em. pose proof (hrep_struct _ _ _ _ Hr) as Hs.
  pose proof Hr as [[lst Hd] Hnd Hfr Hc Hk Hf Hht Hl].
  pose proof (sqlite3Malloc_live _ _ _ Em) as Hlive. cbn [b2z] in Hlive.
  assert (always_ok (ham w) → always_ok am) as Hok.
  { intros Ho. by destruct (sqlite3Malloc_ok _ _ _ Ho Em). }
  cbn zeta. cbn [htsize count first ht hp hbrk ham]. rewrite Hc, u32_id by lia.
  set (a := hbrk w). set (el := mkElem None None data key (khash key)).
  assert (a ∉ addrs es) as Ha.
  { intros Hin. eapply dseg_addr in Hin; [|exact Hd]. apply Hfr in Hin. lia. }
  set (pH1 := mkHash (htsize pH) (zlen es + 1) (first pH) (ht pH)).
  set (w1 := HW (<[a:=el]> (hp w)) (a + 1) am).
  assert (hstruct pH1 (hp w1) es) as Hs1.
  { destruct Hs as [_ Hs2]. split; [|done]. exists lst. eapply dseg_frame; [|exact Hd].
    intros c Hc'. apply lookup_insert_ne. intros <-. done. }
  assert (∃ pH2 w2 es2,
    (if (5 <=? zlen es + 1) && (u32 (2 * htsize pH) <? zlen es + 1)
     then '(_, pH, w) ← rehash msize pH1 (u32 ((zlen es + 1) * 3)) w1; Some (pH, w)
     else Some (pH1, w1)) = Some (pH2, w2) ∧ es2 ≡ₚ es ∧ hstruct pH2 (hp w2) es2 ∧
    count pH2 = zlen es + 1 ∧ hbrk w2 = a + 1 ∧
    (∀ b, b ∉ addrs es → hp w2 !! b = hp w1 !! b) ∧
    live (ham w2) - has_ht pH2 = live am - has_ht pH ∧ (always_ok am → always_ok (ham w2)))
    as (pH2 & w2 & es2 & -> & Hp2 & Hs2 & Ec2 & Eb2 & Hf2 & Hl2 & Hok2).
  { destruct (_ && _) eqn:Eif; [|by exists pH1, w1, es].
    destruct (hash_rehash_correct pH1 (u32 ((zlen es + 1) * 3)) w1 es Hs1 Hnd)
      as (b & pH2 & w2 & es2 & -> & H1 & H2 & H3 & H4 & H5 & H6 & H7); [lia| |].
    { rewrite u32_id; lia. }
    cbn [mbind option_bind]. exists pH2, w2, es2. done. }
  cbn [mbind option_bind].
  assert (hp w2 !! a = Some el) as Hael by (rewrite Hf2 by done; apply lookup_insert_eq).
  assert (NoDup (a :: addrs es2)) as Hnd2.
  { apply NoDup_cons. rewrite Hp2. done. }
  pose proof (Permutation_length Hp2) as Hlen2.
  assert (∃ pH3 m3 es3, insertElement pH2
    (match ht pH2 with Some _ => Some (khash key mod htsize pH2) | None => None end) a (hp w2)
      = Some (pH3, m3) ∧ count pH3 = count pH2 ∧ has_ht pH3 = has_ht pH2 ∧
    hstruct pH3 m3 es3 ∧ es3 ≡ₚ (a, (key, data)) :: es2 ∧
    (∀ b, b ∉ a :: addrs es2 → m3 !! b = hp w2 !! b))
    as (pH3 & m3 & es3 & -> & Ec3 & Eh3 & Hs3 & Hp3 & Hf3).
  { destruct Hs2 as [[lst2 Hd2] Hht2]. unfold has_ht. destruct (ht pH2) as [t|] eqn:Et.
    - destruct Hht2 as (Hn & gs & Hb).
      destruct (insertElement_bucket pH2 a key data (hp w2) es2 gs t lst2 None None)
        as (pH3 & m3 & t3 & es3 & gs3 & lst3 & -> & E1 & E2 & E3 & Hb3 & Hd3 & Hp3 & Hf3); [done..|lia|].
      exists pH3, m3, es3. rewrite E3. split; [done|]. split; [done|]. split; [done|].
      split; [|done]. split; [by exists lst3|]. rewrite E3, E1. eauto.
    - destruct (insertElement_list pH2 a key data (hp w2) es2 lst2 None None)
        as (pH3 & m3 & -> & E1 & E2 & E3 & [Hd3 Hf3]); [done..|].
      exists pH3, m3, ((a, (key, data)) :: es2). rewrite E3, Et. split; [done|]. split; [done|].
      split; [done|]. split; [|done]. split; [done|]. by rewrite E3, Et, E1. }
  cbn [mbind option_bind]. exists pH3, (HW m3 (hbrk w2) (ham w2)), es3.
  assert (es3 ≡ₚ (a, (key, data)) :: es) as Hp by by rewrite Hp3, Hp2.
  split; [done|]. split; [|split; [done|auto]].
  destruct Hs3 as [Hd3 Hht3].
  split; cbn [hp hbrk ham]; try done.
  - by rewrite Hp3.
  - intros b Hb. rewrite Eb2. destruct (decide (b ∈ a :: addrs es2)) as [Hin|Hin].
    + rewrite Hp2 in Hin. apply elem_of_cons in Hin as [->|Hin]; [lia|].
      eapply dseg_addr in Hin; [|exact Hd]. apply Hfr in Hin. lia.
    + rewrite Hf3 in Hb by done. rewrite Hp2 in Hin.
      rewrite Hf2 in Hb by set_solver. cbn in Hb.
      rewrite lookup_insert_ne in Hb by set_solver. apply Hfr in Hb. lia.
  - rewrite Ec3, Ec2. rewrite (Permutation_length Hp). cbn [length]. lia.
  - intros e. rewrite Hp. intros [->|He]%elem_of_cons; [done|by apply Hk].
  - rewrite Hp, fmap_cons. apply NoDup_cons. split; [|done]. by apply ffind_None.
  - change (b2z _) with (has_ht pH3). rewrite (Permutation_length Hp). cbn [length].
    change (b2z _) with (has_ht pH) in Hl. lia.
Qed.

(** The effect of an insertion on the abstract map. *)
Definition map_insert (key : list Z) (data : Z) (M : gmap (list Z) Z) : gmap (list Z) Z :=
  if data =? 0 then delete (kfold key) M else <[kfold key := data]> M.

Lemma insert_found L pH w es key data a k d :
  hrep L pH w es → ffind key es = Some (a, (k, d)) → kvalid key → data ≠ 0 →
  ∃ (he : HashElem) m' es', hp w !! a = Some he ∧
    m' = <[a := mkElem (e_next he) (e_prev he) data key (e_h he)]> (hp w) ∧
    hrep L pH (HW m' (hbrk w) (ham w)) es' ∧ habs es' = <[kfold key := data]> (habs es) ∧
    zlen es' = zlen es.
Proof.
  intros Hr Hff Hkey Hdata. pose proof Hr as [[lst Hd] Hnd Hfr Hc Hk Hf Hht Hl].
  apply ffind_Some in Hff as [Hin Hsk]. unfold same_key in Hsk. cbn [ekey fst snd] in Hsk.
  assert (khash k = khash key) as Ekh by (apply khash_fold; [by apply (Hk _ Hin)|done|done]).
  apply list_elem_of_split in Hin as (l1 & l2 & ->).
  pose proof Hd as Hd'. apply dseg_app in Hd' as (x & n & Hd1 & (-> & nx & Hm & Hd2)).
  rewrite fmap_app, fmap_cons in Hnd. change (eaddr (a, (k, d))) with a in Hnd.
  pose proof Hnd as (_ & Hdis & [Ha2 _]%NoDup_cons)%NoDup_app.
  eexists _, _, (l1 ++ (a, (key, data)) :: l2). split; [exact Hm|]. split; [done|].
  cbn [e_next e_prev e_h]. rewrite Ekh.
  split; [|split].
  - split; cbn [hp hbrk ham].
    + exists lst. apply dseg_app. exists x, (Some a). split.
      * eapply dseg_frame; [|exact Hd1]. intros b Hb. apply lookup_insert_ne. intros <-.
        apply (Hdis a Hb). set_solver.
      * split; [done|]. exists nx. rewrite lookup_insert_eq. split; [done|].
        eapply dseg_frame; [|exact Hd2]. intros b Hb. apply lookup_insert_ne. by intros ->.
    + rewrite fmap_app, fmap_cons. done.
    + intros b [<-|[? Hb]]%lookup_insert_is_Some; apply Hfr; [by eexists|done].
    + rewrite Hc, !length_app. done.
    + intros e [He|[->|He]%elem_of_cons]%elem_of_app; [apply Hk; set_solver|done|apply Hk; set_solver].
    + rewrite fmap_app, fmap_cons in *. cbn [ekey fst snd] in *. by rewrite <- Hsk.
    + destruct (ht pH) as [t|]; [|done]. destruct Hht as (Hn & gs & Hb). split; [done|].
      destruct Hb as [B1 B2 B3 B4 B5].
      set (sub := λ e : ent, if decide (e = (a, (k, d))) then (a, (key, data)) else e).
      assert (∀ e, bkt (htsize pH) (sub e) = bkt (htsize pH) e ∧ eaddr (sub e) = eaddr e) as Hsub.
      { intros e. unfold sub. destruct (decide _) as [->|]; [|done]. unfold bkt, ekey. cbn [fst snd]. by rewrite Ekh. }
      assert (∀ e, e ∈ l1 ++ l2 → sub e = e) as Hsub'.
      { intros e He. unfold sub. rewrite decide_False; [done|]. intros ->.
        apply elem_of_app in He as [He|He].
        - apply (Hdis a); [|set_solver]. apply list_elem_of_fmap. by exists (a, (k, d)).
        - apply Ha2, list_elem_of_fmap. by exists (a, (k, d)). }
      assert (l1 ++ (a, (key, data)) :: l2 = sub <$> (l1 ++ (a, (k, d)) :: l2)) as ->.
      { rewrite fmap_app, fmap_cons. unfold sub at 2. rewrite decide_True by done.
        assert (∀ l, (∀ e, e ∈ l → sub e = e) → sub <$> l = l) as Hid.
        { clear. induction l as [|e l IH]; [done|]. intros H. rewrite fmap_cons, IH.
          - by rewrite H by apply list_elem_of_here.
          - intros. by apply H, list_elem_of_further. }
        rewrite !Hid; [done|..]; intros e He; apply Hsub'; set_solver. }
      exists ((λ g : Z * list ent, (g.1, sub <$> g.2)) <$> gs). split; [done|..].
      * rewrite B2. clear. induction gs as [|[i l] gs IH]; [done|].
        by rewrite fmap_cons, !bind_cons, fmap_app, IH.
      * by rewrite <- list_fmap_compose.
      * intros i l ([j l'] & [= -> ->] & Hin)%list_elem_of_fmap. cbn [fst snd] in *.
        destruct (B4 j l' Hin) as [Hne Hl']. split; [by destruct l'|].
        intros e (e' & -> & He')%list_elem_of_fmap. rewrite (proj1 (Hsub e')). by apply Hl'.
      * intros i b Hib. destruct (B5 i b Hib) as [(l & Hl' & Hbc & Hch)|[Hni ?]]; [left|right].
        -- exists (sub <$> l). split; [apply list_elem_of_fmap; by exists (i, l)|].
           rewrite length_fmap. split; [done|]. rewrite Hch. destruct l as [|e l]; [done|].
           cbn. by rewrite (proj2 (Hsub e)).
        -- split; [|done]. by rewrite <- list_fmap_compose.
    + rewrite length_app in *. done.
  - assert (NoDup (folds (l1 ++ (a, (key, data)) :: l2))) as Hf'.
    { rewrite fmap_app, fmap_cons in *. cbn [ekey fst snd] in *. by rewrite <- Hsk. }
    rewrite (habs_perm _ ((a, (key, data)) :: l1 ++ l2)) by (done || by rewrite Permutation_middle).
    rewrite (habs_perm (l1 ++ (a, (k, d)) :: l2) ((a, (k, d)) :: l1 ++ l2)) by (done || by rewrite Permutation_middle).
    rewrite !habs_cons. cbn [ekey edata fst snd]. by rewrite Hsk, insert_insert_eq.
  - by rewrite !length_app.
Qed.

Lemma insert_correct L pH w es key data :
  hrep L pH w es → kvalid key → zlen es < 2 ^ 30 →
  ∃ r pH' w' es', sqlite3HashInsert msize pH key data w = Some (r, pH', w') ∧
    hrep L pH' w' es' ∧ zlen es' ≤ zlen es + 1 ∧
    (r = default 0 (habs es !! kfold key) ∧ habs es' = map_insert key data (habs es) ∨
     ¬ always_ok (ham w) ∧ data ≠ 0 ∧ r = data ∧ habs es !! kfold key = None ∧ habs es' = habs es) ∧
    (always_ok (ham w) → always_ok (ham w')).
Proof.
  intros Hr Hkey Hlen. unfold sqlite3HashInsert, map_insert.
  rewrite (find_correct L pH w es key Hr Hkey). cbn [mbind option_bind].
  rewrite (data_of_ffind L pH w es key Hr). cbn [mbind option_bind]. rewrite !habs_lookup.
  pose proof Hr as [[lst Hd] Hnd Hfr Hc Hk Hf Hht Hl].
  destruct (ffind key es) as [[a [k d]]|] eqn:Hff; cbn [fmap option_fmap option_map default].
  - change (edata (a, (k, d))) with d. change (eaddr (a, (k, d))) with a. cbn [default from_option id].
    pose proof (ffind_Some _ _ _ Hff) as [Hin Hsk].
    assert (d ≠ 0) by apply (Hk _ Hin). replace (d =? 0) with false by lia. cbn [negb mbind option_bind].
    case_cmp.
    + destruct (remove_correct L pH w es a k d Hr Hin) as (pH' & w' & es' & -> & Hp & Hr' & Eo); [lia|].
      cbn [mbind option_bind]. exists d, pH', w', es'. split; [done|]. split; [done|].
      split; [rewrite (Permutation_length Hp); cbn [length]; lia|].
      split; [|by unfold always_ok; rewrite Eo]. left. split; [done|].
      rewrite (habs_perm _ _ Hp Hf), habs_cons, Hsk. cbn [edata fst snd].
      rewrite delete_insert_eq. symmetry. apply delete_id. rewrite habs_lookup.
      rewrite Hp, fmap_cons in Hf. apply NoDup_cons in Hf as [Hno _].
      unfold ffind. rewrite filter_none; [done|]. intros e0 He Hs. apply Hno.
      apply list_elem_of_fmap. exists e0. split; [|done]. cbn [ekey fst snd].
      unfold same_key in *. cbn [ekey fst snd] in Hsk. congruence.
    + destruct (insert_found L pH w es key data a k d Hr Hff Hkey) as (he & m' & es' & -> & -> & Hr' & Ha & Hz);
        [done|]. cbn [mbind option_bind]. do 3 eexists. exists es'. split; [done|]. split; [done|].
      split; [lia|]. split; [by left|done].
  - cbn [default from_option id]. cbn [Z.eqb negb].
    assert (habs es !! kfold key = None) as Hnone by by rewrite habs_lookup, Hff.
    case_cmp.
    + exists 0, pH, w, es. split; [done|]. split; [done|]. split; [lia|]. split; [|done].
      left. split; [done|]. by rewrite delete_id.
    + destruct (sqlite3Malloc (ham w)) as [ok am] eqn:Em. destruct ok; cbn [negb].
      * destruct (add_correct L pH w es key data am Hr Hkey ltac:(done) Hff Hlen Em)
          as (pH' & w' & es' & E & Hr' & Hp & Hok).
        exists 0, pH', w', es'. split; [exact E|]. split; [done|].
        split; [rewrite (Permutation_length Hp); cbn [length]; lia|].
        split; [|done]. left. split; [done|]. by rewrite (habs_perm _ _ Hp) by apply Hr'.
      * exists data, pH, (HW (hp w) (hbrk w) am), es.
        pose proof (sqlite3Malloc_live _ _ _ Em) as Hlive.
        assert (¬ always_ok (ham w)) as Hno.
        { intros Ho. by destruct (sqlite3Malloc_ok _ _ _ Ho Em). }
        split; [done|]. split; [|split; [lia|split; [right; done|done]]].
        split; cbn [hp hbrk ham]; try done; [by exists lst|]. cbn [b2z] in Hlive. lia.
Qed.

(** ** Histories *)

Inductive h_op := HInsert (key : list Z) (data : Z) | HFind (key : list Z).

Definition op_key (o : h_op) : list Z := match o with HInsert k _ | HFind k => k end.

(** The answers of the code. *)
Fixpoint h_run (ops : list h_op) (pH : Hash) (w : hworld) : option (list Z * Hash * hworld) :=
  match ops with
  | [] => Some ([], pH, w)
  | HInsert k d :: ops =>
      '(r, pH, w) ← sqlite3HashInsert msize pH k d w;
      '(rs, pH, w) ← h_run ops pH w; Some (r :: rs, pH, w)
  | HFind k :: ops =>
      r ← sqlite3HashFind pH k w; '(rs, pH, w) ← h_run ops pH w; Some (r :: rs, pH, w)
  end.

(** The answers of a finite map whose keys ignore case. *)
Fixpoint h_answers (ops : list h_op) (M : gmap (list Z) Z) : list Z :=
  match ops with
  | [] => []
  | HInsert k d :: ops => default 0 (M !! kfold k) :: h_answers ops (map_insert k d M)
  | HFind k :: ops => default 0 (M !! kfold k) :: h_answers ops M
  end.

Lemma h_run_rep ops L pH w es :
  hrep L pH w es → Forall (λ o, kvalid (op_key o)) ops → always_ok (ham w) →
  zlen es + zlen ops < 2 ^ 30 →
  ∃ pH' w' es', h_run ops pH w = Some (h_answers ops (habs es), pH', w') ∧ hrep L pH' w' es'.
Proof.
  revert pH w es. induction ops as [|[k d|k] ops IH]; intros pH w es Hr Hops Hok Hlen.
  - by exists pH, w, es.
  - apply Forall_cons in Hops as [Hk Hops]. cbn [op_key length] in *.
    destruct (insert_correct L pH w es k d Hr Hk) as (r & pH1 & w1 & es1 & E & Hr1 & Hz & Hcase & Hok1);
      [lia|].
    destruct Hcase as [[-> Ha]|[? _]]; [|done].
    cbn [h_run h_answers]. rewrite E. cbn [mbind option_bind].
    destruct (IH pH1 w1 es1 Hr1 Hops (Hok1 Hok)) as (pH2 & w2 & es2 & E2 & Hr2); [lia|].
    rewrite E2, Ha. cbn [mbind option_bind]. by exists pH2, w2, es2.
  - apply Forall_cons in Hops as [Hk Hops]. cbn [op_key length] in *.
    cbn [h_run h_answers]. rewrite (hash_find_correct L pH w es k Hr Hk). cbn [mbind option_bind].
    destruct (IH pH w es Hr Hops Hok) as (pH2 & w2 & es2 & E2 & Hr2); [lia|].
    rewrite E2. cbn [mbind option_bind]. by exists pH2, w2, es2.
Qed.

(** C5: a hash table behaves as a finite map from names compared without case: with no allocation
    failure, every answer of sqlite3HashInsert and sqlite3HashFind in a history of fewer than 2^30
    calls is the one the map gives, through every resize of the bucket array, and sqlite3HashClear
    then frees every allocation the table made. *)
Theorem hash_refines_map (w : hworld) (ops : list h_op) :
  (∀ a, is_Some (hp w !! a) → a < hbrk w) → Forall (λ o, kvalid (op_key o)) ops →
  always_ok (ham w) → zlen ops < 2 ^ 30 →
  ∃ pH w' w'', h_run ops sqlite3HashInit w = Some (h_answers ops ∅, pH, w') ∧
    sqlite3HashClear pH w' = Some (sqlite3HashInit, w'') ∧ live (ham w'') = live (ham w).
Proof.
  intros Hfr Hops Hok Hlen.
  destruct (h_run_rep ops _ _ w [] (hash_init_rep w Hfr) Hops Hok Hlen) as (pH & w' & es & E & Hr).
  destruct (clear_correct _ pH w' es Hr) as (w'' & E2 & _ & Hl & _).
  by exists pH, w', w''.
Qed.

(** an insertion into a well-formed table, whatever allocations fail, leaves a well-formed table;
    it either acts as the map does and returns the old data, or, when the new element could not be
    allocated, returns the new data and changes nothing, as documented; a failed resize is benign. *)
Theorem hash_insert_oom L pH w es key data :
  hrep L pH w es → kvalid key → zlen es < 2 ^ 30 →
  ∃ r pH' w' es', sqlite3HashInsert msize pH key data w = Some (r, pH', w') ∧
    hrep L pH' w' es' ∧
    (r = default 0 (habs es !! kfold key) ∧ habs es' = map_insert key data (habs es) ∨
     ¬ always_ok (ham w) ∧ data ≠ 0 ∧ r = data ∧ habs es !! kfold key = None ∧ habs es' = habs es).
Proof.
  intros Hr Hk Hlen.
  destruct (insert_correct L pH w es key data Hr Hk Hlen) as (r & pH' & w' & es' & E & Hr' & _ & Hc & _).
  by exists r, pH', w', es'.
Qed.
End msize.

(** ** Witnesses *)

Definition msize_ex (n : Z) : Z := n + 16.

Lemma msize_ex_ok n : 0 ≤ n ≤ SQLITE_MALLOC_SOFT_LIMIT → n ≤ msize_ex n < 2 ^ 31.
Proof. unfold msize_ex, SQLITE_MALLOC_SOFT_LIMIT. lia. Qed.

Definition h_ops_ex : list h_op :=
  [HInsert [97; 98; 0] 1; HInsert [99; 0] 2; HFind [65; 66; 0]; HInsert [67; 0] 0; HFind [99; 0]].

Lemma kvalid_ex s : text s → kvalid (s ++ [0]).
Proof. intros Hs. by exists s, []. Qed.

Lemma hash_refines_map_witness :
  ∃ pH w' w'', h_run msize_ex h_ops_ex sqlite3HashInit hw0 = Some ([0; 0; 1; 2; 0], pH, w') ∧
    sqlite3HashClear pH w' = Some (sqlite3HashInit, w'') ∧ live (ham w'') = 0.
Proof.
  apply (hash_refines_map msize_ex msize_ex_ok hw0 h_ops_ex).
  - intros a [e He]. discriminate He.
  - repeat first [apply Forall_nil_2 | apply Forall_cons_2];
      [apply (kvalid_ex [97; 98])|apply (kvalid_ex [99])|apply (kvalid_ex [65; 66])
      |apply (kvalid_ex [67])|apply (kvalid_ex [99])]; repeat constructor; lia.
  - constructor.
  - vm_compute. reflexivity.
Defined.

Lemma hash_insert_oom_witness :
  ∃ r pH' w' es', sqlite3HashInsert msize_ex sqlite3HashInit [97; 0] 7 (HW ∅ 0 (Mem [false] 0))
      = Some (r, pH', w') ∧
    hrep 0 pH' w' es' ∧
    (r = 0 ∧ habs es' = map_insert [97; 0] 7 ∅ ∨
     ¬ always_ok (Mem [false] 0) ∧ 7 ≠ 0 ∧ r = 7 ∧ (∅ : gmap (list Z) Z) !! kfold [97; 0] = None ∧
     habs es' = ∅).
Proof.
  apply (hash_insert_oom msize_ex msize_ex_ok 0 sqlite3HashInit (HW ∅ 0 (Mem [false] 0)) [] [97; 0] 7).
  - apply (hash_init_rep (HW ∅ 0 (Mem [false] 0))). intros a [e He]. discriminate He.
  - apply (kvalid_ex [97]). repeat constructor; lia.
  - vm_compute. reflexivity.
Defined.
