(* ===== verification/IntText.v ===== *)
(** * Integers as text

    The conversions of util.c between integers and their decimal and
    hexadecimal text: [sqlite3Int64ToText] in both of its builds,
    [sqlite3Atoi64] for the three text encodings, [sqlite3DecOrHexToI64],
    [sqlite3GetInt32], [sqlite3GetUInt32] and [sqlite3HexToBlob].  Text is a
    list of bytes; a pointer into it is a position. *)
From S2P Require Import Prelude Ctype Int64.

(** ** Writing *)

Definition sqlite3DigitPairs : list Z :=
  [48; 48; 48; 49; 48; 50; 48; 51; 48; 52; 48; 53; 48; 54; 48; 55; 48; 56; 48; 57;
   49; 48; 49; 49; 49; 50; 49; 51; 49; 52; 49; 53; 49; 54; 49; 55; 49; 56; 49; 57;
   50; 48; 50; 49; 50; 50; 50; 51; 50; 52; 50; 53; 50; 54; 50; 55; 50; 56; 50; 57;
   51; 48; 51; 49; 51; 50; 51; 51; 51; 52; 51; 53; 51; 54; 51; 55; 51; 56; 51; 57;
   52; 48; 52; 49; 52; 50; 52; 51; 52; 52; 52; 53; 52; 54; 52; 55; 52; 56; 52; 57;
   53; 48; 53; 49; 53; 50; 53; 51; 53; 52; 53; 53; 53; 54; 53; 55; 53; 56; 53; 57;
   54; 48; 54; 49; 54; 50; 54; 51; 54; 52; 54; 53; 54; 54; 54; 55; 54; 56; 54; 57;
   55; 48; 55; 49; 55; 50; 55; 51; 55; 52; 55; 53; 55; 54; 55; 55; 55; 56; 55; 57;
   56; 48; 56; 49; 56; 50; 56; 51; 56; 52; 56; 53; 56; 54; 56; 55; 56; 56; 56; 57;
   57; 48; 57; 49; 57; 50; 57; 51; 57; 52; 57; 53; 57; 54; 57; 55; 57; 56; 57; 57].

Definition SQLITE_U64_DIGITS : Z := 20.

(** A two-byte copy from the table of digit pairs. *)
Definition put_pair (a : list Z) (i kk : Z) : option (list Z) :=
  c ← sqlite3DigitPairs.[kk];
  d ← sqlite3DigitPairs.[kk + 1];
  a ← wr a i c;
  wr a (i + 1) d.

(** [while( x>=10 )] of [sqlite3Int64ToText]. *)
Fixpoint text_loop (fuel : nat) (a : list Z) (i x : Z) : option (list Z * Z * Z) :=
  if 10 <=? x then
    match fuel with
    | O => None
    | S fuel' =>
        let kk := (x mod 100) * 2 in
        a ← put_pair a (i - 2) kk;
        text_loop fuel' a (i - 2) (x / 100)
    end
  else Some (a, i, x).

(** [u_a] is the uninitialised buffer of the function. The result is the buffer
    [zOut] and the length. *)
Definition memcpy (dst src : list Z) : option (list Z) :=
  if (length src <=? length dst)%nat then Some (src ++ drop (length src) dst) else None.

Definition sqlite3Int64ToText (u_a : list Z) (v : Z) (zOut : list Z) : option (list Z * Z) :=
  if v =? 0 then
    zOut ← wr zOut 0 48;
    zOut ← wr zOut 1 0;
    Some (zOut, 1)
  else
    x ← (if 0 <? v then Some v
         else if v =? SMALLEST_INT64 then Some (u64 (Z.shiftl 1 63))
         else nv ← chk64 (- v); Some (u64 nv));
    let i := SQLITE_U64_DIGITS in
    a ← wr u_a i 0;
    '(a, i, x) ← text_loop 10 a i x;
    '(a, i) ← (if x =? 0 then Some (a, i) else a ← wr a (i - 1) (x + 48); Some (a, i - 1));
    '(a, i) ← (if v <? 0 then a ← wr a (i - 1) 45; Some (a, i - 1) else Some (a, i));
    zOut ← memcpy zOut (drop (Z.to_nat i) a);
    Some (zOut, SQLITE_U64_DIGITS - i).

(** The same digits with 32-bit divisions, for processors without a 64-bit one. *)
Fixpoint text8_loop (fuel : nat) (z : list Z) (i v : Z) : option (list Z * Z * Z) :=
  if Z.shiftr v 32 =? 0 then Some (z, i, v)
  else
    match fuel with
    | O => None
    | S fuel' =>
        let x32 := u32 (v mod 100000000) in
        let v := v / 100000000 in
        let y := x32 mod 10000 in
        let x32 := x32 / 10000 in
        let x1 := x32 / 100 in
        let x0 := x32 mod 100 in
        let y1 := y / 100 in
        let y0 := y mod 100 in
        let i := i - 8 in
        z ← put_pair z i (x1 * 2);
        z ← put_pair z (i + 2) (x0 * 2);
        z ← put_pair z (i + 4) (y1 * 2);
        z ← put_pair z (i + 6) (y0 * 2);
        text8_loop fuel' z i v
    end.

Definition sqlite3UInt64ToText (v : Z) (zOut : list Z) : option (list Z * Z) :=
  zOut ← wr zOut SQLITE_U64_DIGITS 0;
  '(zOut, i, v) ← text8_loop 2 zOut SQLITE_U64_DIGITS v;
  '(zOut, i, x32) ← text_loop 5 zOut i (u32 v);
  if x32 =? 0 then Some (zOut, i)
  else zOut ← wr zOut (i - 1) (x32 + 48); Some (zOut, i - 1).

(** ** Reading *)

Fixpoint pow63_loop (n : nat) (z : list Z) (zNum incr i c : Z) : option Z :=
  match n with
  | O => Some c
  | S n' =>
      if c =? 0 then
        d ← z.[zNum + i * incr];
        e ← [57; 50; 50; 51; 51; 55; 50; 48; 51; 54; 56; 53; 52; 55; 55; 53; 56; 48].[i];
        pow63_loop n' z zNum incr (i + 1) ((d - e) * 10)
      else Some c
  end.

Definition compare2pow63 (z : list Z) (zNum incr : Z) : option Z :=
  c ← pow63_loop 18 z zNum incr 0 0;
  if c =? 0 then d ← z.[zNum + 18 * incr]; Some (d - 56) else Some c.

Definition SQLITE_UTF8 : Z := 1.
Definition SQLITE_UTF16LE : Z := 2.
Definition SQLITE_UTF16BE : Z := 3.

(** [for(i=3-enc; i<length && zNum[i]==0; i+=2){}] *)
Fixpoint high_loop (fuel : nat) (z : list Z) (length i : Z) : option Z :=
  match fuel with
  | O => None
  | S fuel' =>
      if i <? length then
        c ← z.[i];
        if c =? 0 then high_loop fuel' z length (i + 2) else Some i
      else Some i
  end.

(** [while( zNum<zEnd && P(zNum[0]) ) zNum+=incr;] *)
Fixpoint skip_chars (fuel : nat) (P : Z → bool) (z : list Z) (zNum zEnd incr : Z) : option Z :=
  match fuel with
  | O => None
  | S fuel' =>
      if zNum <? zEnd then
        c ← z.[zNum];
        if P c then skip_chars fuel' P z (zNum + incr) zEnd incr else Some zNum
      else Some zNum
  end.

Fixpoint digit_loop (fuel : nat) (z : list Z) (zNum zEnd incr i u : Z) : option (Z * Z) :=
  match fuel with
  | O => None
  | S fuel' =>
      if zNum + i <? zEnd then
        c ← z.[zNum + i];
        let c := u32 (c - 48) in
        if c <=? 9 then digit_loop fuel' z zNum zEnd incr (i + incr) (u64 (u * 10 + c))
        else Some (i, u)
      else Some (i, u)
  end.

(** The [do]-loop over the text after the digits: is there a non-space? *)
Fixpoint extra_loop (fuel : nat) (z : list Z) (zNum zEnd incr jj : Z) : option bool :=
  match fuel with
  | O => None
  | S fuel' =>
      c ← z.[zNum + jj];
      if negb (sqlite3Isspace c) then Some true
      else
        let jj := jj + incr in
        if zNum + jj <? zEnd then extra_loop fuel' z zNum zEnd incr jj else Some false
  end.

(** The body after the encoding has been dealt with. The result is the return code
    and [*pNum]. *)
Definition atoi64_body (z : list Z) (incr : Z) (nonNum : bool) (zEnd zNum : Z) : option (Z * Z) :=
  let fuel := S (length z) in
  zNum ← skip_chars fuel sqlite3Isspace z zNum zEnd incr;
  '(neg, zNum) ←
    (if zNum <? zEnd then
       c ← z.[zNum];
       Some (if c =? 45 then (true, zNum + incr)
             else if c =? 43 then (false, zNum + incr) else (false, zNum))
     else Some (false, zNum));
  let zStart := zNum in
  zNum ← skip_chars fuel (Z.eqb 48) z zNum zEnd incr;
  '(i, u) ← digit_loop fuel z zNum zEnd incr 0 0;
  pNum ← (if LARGEST_INT64 <? u then Some (if (neg : bool) then SMALLEST_INT64 else LARGEST_INT64)
          else if (neg : bool) then chk64 (- i64 u) else Some (i64 u));
  rc ← (if (i =? 0) && (zStart =? zNum) then Some (-1)
        else if nonNum then Some 1
        else if zNum + i <? zEnd then
          x ← extra_loop fuel z zNum zEnd incr i; Some (if x : bool then 1 else 0)
        else Some 0);
  if i <? 19 * incr then Some (rc, pNum)
  else
    j ← (if 19 * incr <? i then Some 1 else compare2pow63 z zNum incr);
    if j <? 0 then Some (rc, pNum)
    else
      let pNum := if (neg : bool) then SMALLEST_INT64 else LARGEST_INT64 in
      if 0 <? j then Some (2, pNum)
      else Some (if (neg : bool) then rc else 3, pNum).

Definition sqlite3Atoi64 (z : list Z) (len enc : Z) : option (Z * Z) :=
  if enc =? SQLITE_UTF8 then atoi64_body z 1 false len 0
  else
    let len := Z.land len (-2) in
    i ← high_loop (S (length z)) z len (3 - enc);
    atoi64_body z 2 (i <? len) (Z.lxor i 1) (Z.land enc 1).

Definition sqlite3HexToInt (h : Z) : Z :=
  let h := h + 9 * Z.land 1 (Z.shiftr h 6) in
  u8 (Z.land h 0xf).

(** [for(i=..; z[i]=='0'; i++){}] *)
Fixpoint zeros_loop (fuel : nat) (z : list Z) (i : Z) : option Z :=
  match fuel with
  | O => None
  | S fuel' => c ← z.[i]; if c =? 48 then zeros_loop fuel' z (i + 1) else Some i
  end.

Fixpoint hex_loop (fuel : nat) (z : list Z) (k u : Z) : option (Z * Z) :=
  match fuel with
  | O => None
  | S fuel' =>
      c ← z.[k];
      if sqlite3Isxdigit c then hex_loop fuel' z (k + 1) (u64 (u * 16 + sqlite3HexToInt c))
      else Some (k, u)
  end.

(** [strspn] of the C library. *)
Fixpoint strspn (z accept : list Z) : option Z :=
  match z with
  | [] => None
  | c :: z =>
      if bool_decide (c ∈ accept) then n ← strspn z accept; Some (n + 1) else Some 0
  end.

Definition sqlite3DecOrHexToI64 (z : list Z) : option (Z * Z) :=
  c0 ← z.[0];
  hex ← (if c0 =? 48 then c1 ← z.[1]; Some ((c1 =? 120) || (c1 =? 88)) else Some false);
  if hex : bool then
    let fuel := S (length z) in
    i ← zeros_loop fuel z 2;
    '(k, u) ← hex_loop fuel z i 0;
    let pOut := i64 u in
    if 16 <? k - i then Some (2, pOut)
    else
      ck ← z.[k];
      if negb (ck =? 0) then Some (1, pOut) else Some (0, pOut)
  else
    n ← strspn z [43; 45; 32; 10; 9; 48; 49; 50; 51; 52; 53; 54; 55; 56; 57];
    let n := i32 (Z.land 0x3fffffff n) in
    cn ← z.[n];
    let n := if negb (cn =? 0) then n + 1 else n in
    sqlite3Atoi64 z n SQLITE_UTF8.

(** [for(i=0; i<8 && sqlite3Isxdigit(zNum[i]); i++)] *)
Fixpoint hex8_loop (n : nat) (z : list Z) (zNum i u : Z) : option (Z * Z) :=
  match n with
  | O => Some (i, u)
  | S n' =>
      c ← z.[zNum + i];
      if sqlite3Isxdigit c then hex8_loop n' z zNum (i + 1) (u32 (u * 16 + sqlite3HexToInt c))
      else Some (i, u)
  end.

(** [for(i=0; i<11 && (c = zNum[i] - '0')>=0 && c<=9; i++)]; [v] is signed. *)
Fixpoint dec11_loop (n : nat) (z : list Z) (zNum i v : Z) : option (Z * Z) :=
  match n with
  | O => Some (i, v)
  | S n' =>
      d ← z.[zNum + i];
      let c := d - 48 in
      if (0 <=? c) && (c <=? 9) then
        v ← chk64 (v * 10 + c);
        dec11_loop n' z zNum (i + 1) v
      else Some (i, v)
  end.

(** [Some None] is the return value 0, [Some (Some v)] the return value 1 with
    [*pValue] set to [v]. *)
Definition sqlite3GetInt32 (z : list Z) : option (option Z) :=
  let fuel := S (length z) in
  c0 ← z.[0];
  hex ← (if (c0 =? 45) || (c0 =? 43) then Some false
         else if c0 =? 48 then
           c1 ← z.[1];
           if (c1 =? 120) || (c1 =? 88) then c2 ← z.[2]; Some (sqlite3Isxdigit c2) else Some false
         else Some false);
  if hex : bool then
    zNum ← zeros_loop fuel z 2;
    '(i, u) ← hex8_loop 8 z zNum 0 0;
    if Z.land u 0x80000000 =? 0 then
      c ← z.[zNum + i];
      if negb (sqlite3Isxdigit c) then Some (Some (i32 u)) else Some None
    else Some None
  else
    let '(neg, zNum) :=
      if c0 =? 45 then (true, 1) else if c0 =? 43 then (false, 1) else (false, 0) in
    c ← z.[zNum];
    if negb (sqlite3Isdigit c) then Some None
    else
      zNum ← zeros_loop fuel z zNum;
      '(i, v) ← dec11_loop 11 z zNum 0 0;
      if 10 <? i then Some None
      else if 2147483647 <? v - b2z neg then Some None
      else Some (Some (i32 (if neg then - v else v))).

Definition sqlite3Atoi (z : list Z) : option Z :=
  r ← sqlite3GetInt32 z; Some (default 0 r).

(** The return value and [*pI]. *)
Fixpoint uint32_loop (fuel : nat) (z : list Z) (i v : Z) : option (Z * Z) :=
  match fuel with
  | O => None
  | S fuel' =>
      c ← z.[i];
      if sqlite3Isdigit c then
        let v := u64 (u64 (v * 10 + c) - 48) in
        if 4294967296 <? v then Some (0, 0) else uint32_loop fuel' z (i + 1) v
      else if (i =? 0) || negb (c =? 0) then Some (0, 0)
      else Some (1, u32 v)
  end.

Definition sqlite3GetUInt32 (z : list Z) : option (Z * Z) := uint32_loop (S (length z)) z 0 0.

(** [for(i=0; i<n; i+=2)]; [blob] is the allocation of [n/2 + 1] bytes, with
    [n] decremented after it. *)
Fixpoint blob_loop (fuel : nat) (z blob : list Z) (n i : Z) : option (list Z * Z) :=
  if i <? n then
    match fuel with
    | O => None
    | S fuel' =>
        c ← z.[i];
        d ← z.[i + 1];
        blob ← wr blob (Z.quot i 2)
          (u8 (Z.lor (Z.shiftl (sqlite3HexToInt c) 4) (sqlite3HexToInt d)));
        blob_loop fuel' z blob n (i + 2)
    end
  else Some (blob, i).

(** [raw] is the memory the allocator returned, or [None] when it failed. *)
Definition sqlite3HexToBlob (raw : option (list Z)) (z : list Z) (n : Z) : option (option (list Z)) :=
  let n := n - 1 in
  match raw with
  | None => Some None
  | Some zBlob =>
      '(zBlob, i) ← blob_loop (S (length z)) z zBlob n 0;
      zBlob ← wr zBlob (Z.quot i 2) 0;
      Some (Some zBlob)
  end.

(** ** Decimal text *)

(** The digits of a positive number, and none for zero. *)
Fixpoint dec_text (fuel : nat) (x : Z) : list Z :=
  match fuel with
  | O => []
  | S fuel' => if x =? 0 then [] else dec_text fuel' (x / 10) ++ [48 + x mod 10]
  end.

(** The value of a string of digits. *)
Definition dec_val (ds : list Z) : Z := fold_left (λ v c, v * 10 + (c - 48)) ds 0.

Definition digits (ds : list Z) : Prop := Forall (λ c, 48 ≤ c ≤ 57) ds.

(** The text of an integer, as [%lld] prints it. *)
Definition int_text (v : Z) : list Z :=
  if v =? 0 then [48] else (if v <? 0 then [45] else []) ++ dec_text 20 (Z.abs v).

Lemma dec_text_fuel f1 f2 x :
  0 ≤ x < 10 ^ Z.of_nat f1 → x < 10 ^ Z.of_nat f2 → dec_text f1 x = dec_text f2 x.
Proof.
  revert f2 x. induction f1 as [|f1 IH]; intros f2 x Hx Hx2.
  - assert (x = 0) as -> by lia. by destruct f2.
  - destruct f2 as [|f2]; [assert (x = 0) as -> by lia; done|].
    cbn [dec_text]. case_cmp; [done|]. f_equal.
    rewrite Nat2Z.inj_succ, Z.pow_succ_r in Hx, Hx2 by lia.
    apply IH; zdm.
Qed.

Lemma dec_text_step f x :
  0 < x < 10 ^ Z.of_nat f → dec_text f x = dec_text f (x / 10) ++ [48 + x mod 10].
Proof.
  intros Hx. destruct f as [|f]; [cbn in Hx; lia|]. change (dec_text (S f) x) with (if x =? 0 then [] else dec_text f (x / 10) ++ [48 + x mod 10]).
  case_cmp; [lia|]. f_equal.
  rewrite Nat2Z.inj_succ, Z.pow_succ_r in Hx by lia. apply dec_text_fuel; [zdm|].
  rewrite Nat2Z.inj_succ, Z.pow_succ_r by lia. zdm.
Qed.

Lemma dec_text_small f x : 0 < x < 10 → x < 10 ^ Z.of_nat f → dec_text f x = [48 + x].
Proof.
  intros Hx Hf. rewrite dec_text_step by lia. rewrite Z.div_small, Z.mod_small by lia.
  by destruct f.
Qed.

Lemma dec_text_zero f : dec_text f 0 = [].
Proof. by destruct f. Qed.

Lemma dec_text_pair f x :
  10 ≤ x < 10 ^ Z.of_nat f →
  dec_text f x = dec_text f (x / 100) ++ [48 + (x mod 100) / 10; 48 + (x mod 100) mod 10].
Proof.
  intros Hx. rewrite (dec_text_step f x) by lia. rewrite (dec_text_step f (x / 10)) by zdm.
  rewrite Z.div_div by lia. rewrite <- app_assoc. cbn [app].
  change (10 * 10) with 100. f_equal. f_equal; [zdm|]. f_equal. zdm.
Qed.

Lemma dec_val_snoc ds c : dec_val (ds ++ [c]) = dec_val ds * 10 + (c - 48).
Proof. unfold dec_val. by rewrite fold_left_app. Qed.

Lemma dec_text_spec f x :
  0 ≤ x < 10 ^ Z.of_nat f →
  digits (dec_text f x) ∧ dec_val (dec_text f x) = x ∧ zlen (dec_text f x) ≤ Z.of_nat f ∧
  head (dec_text f x) ≠ Some 48.
Proof.
  revert x. induction f as [|f IH]; intros x Hx; cbn [dec_text].
  - cbn in Hx. assert (x = 0) as -> by lia. split; [constructor|]. done.
  - rewrite Nat2Z.inj_succ, Z.pow_succ_r in Hx by lia. case_cmp.
    { subst x. split; [constructor|]. split; [done|]. split; [cbn [length]; lia|done]. }
    destruct (IH (x / 10)) as (H1 & H2 & H3 & H4); [zdm|].
    split; [apply Forall_app; split; [done|]; constructor; [zdm|done]|].
    split; [rewrite dec_val_snoc, H2; zdm|]. split; [len|].
    destruct (Z.eq_dec (x / 10) 0) as [E|E].
    + rewrite E, dec_text_zero. cbn. intros [= Heq]. zdm.
    + destruct (dec_text f (x / 10)) as [|c l] eqn:El; [|done].
      exfalso. unfold dec_val in H2. cbn in H2. lia.
Qed.

Lemma digit_pair kk :
  0 ≤ kk < 100 →
  sqlite3DigitPairs.[kk * 2] = Some (48 + kk / 10) ∧
  sqlite3DigitPairs.[kk * 2 + 1] = Some (48 + kk mod 10).
Proof.
  intros Hk.
  assert (forallb (λ kk, bool_decide (sqlite3DigitPairs.[kk * 2] = Some (48 + kk / 10)) &&
     bool_decide (sqlite3DigitPairs.[kk * 2 + 1] = Some (48 + kk mod 10))) (seqZ 0 100) = true)
    as H by (vm_compute; reflexivity).
  apply (range_all _ 0 100 H kk) in Hk. apply andb_true_iff in Hk as [H1 H2].
  by apply bool_decide_eq_true_1 in H1, H2.
Qed.

(** Writing at the end of the unwritten prefix of a buffer. *)
Lemma wr_prefix (pre s : list Z) i x :
  zlen pre = i → 0 < i → ∃ pre' : list Z, zlen pre' = i - 1 ∧
    wr (pre ++ s) (i - 1) x = Some (pre' ++ x :: s).
Proof.
  intros Hl Hi. destruct pre as [|y pre' _] using rev_ind; [cbn in Hl; lia|].
  len_in Hl. exists pre'. split; [lia|]. rewrite <- app_assoc. cbn [app].
  rewrite wr_in_bounds by len. f_equal.
  replace (Z.to_nat (i - 1)) with (length pre' + 0)%nat by lia.
  by rewrite insert_app_r.
Qed.

Lemma put_pair_prefix (pre s : list Z) i kk :
  zlen pre = i → 2 ≤ i → 0 ≤ kk < 100 →
  ∃ pre' : list Z, zlen pre' = i - 2 ∧
    put_pair (pre ++ s) (i - 2) (kk * 2) = Some (pre' ++ (48 + kk / 10) :: (48 + kk mod 10) :: s).
Proof.
  intros Hl Hi Hk. unfold put_pair. destruct (digit_pair kk Hk) as [-> ->].
  cbn [mbind option_bind].
  destruct pre as [|y pre1 _] using rev_ind; [cbn in Hl; lia|]. len_in Hl.
  destruct (wr_prefix pre1 (y :: s) (i - 1) (48 + kk / 10)) as (pre2 & Hl2 & E2); [lia..|].
  replace (i - 1 - 1) with (i - 2) in E2 by lia.
  rewrite <- app_assoc. cbn [app]. rewrite E2. cbn [mbind option_bind].
  exists pre2. split; [lia|]. rewrite wr_in_bounds by len.
  replace (Z.to_nat (i - 2 + 1)) with (length pre2 + 1)%nat by lia.
  by rewrite insert_app_r.
Qed.

(** The loop writes the digits of [x], last ones first, and stops with the leading
    digit or nothing left. *)
Lemma text_loop_correct fuel (pre s : list Z) i x :
  zlen pre = i → 0 ≤ x < 10 ^ 20 → x < 100 ^ (Z.of_nat fuel) → zlen (dec_text 20 x) ≤ i →
  ∃ (pre' s' : list Z) i' x', text_loop fuel (pre ++ s) i x = Some (pre' ++ s', i', x') ∧
    zlen pre' = i' ∧ 0 ≤ x' < 10 ∧ dec_text 20 x ++ s = dec_text 20 x' ++ s' ∧
    i' - zlen (dec_text 20 x') = i - zlen (dec_text 20 x).
Proof.
  revert pre s i x. induction fuel as [|fuel IH]; intros pre s i x Hl Hx Hf Hi; cbn [text_loop].
  - case_cmp; [cbn in Hf; lia|]. exists pre, s, i, x. repeat split; try done; lia.
  - case_cmp; [|exists pre, s, i, x; repeat split; try done; lia].
    rewrite dec_text_pair in Hi by (cbn; lia). len_in Hi.
    destruct (put_pair_prefix pre s i (x mod 100)) as (pre1 & Hl1 & E1); [done|lia|zdm|].
    rewrite E1. cbn [mbind option_bind].
    destruct (IH pre1 ((48 + x mod 100 / 10) :: (48 + (x mod 100) mod 10) :: s) (i - 2) (x / 100))
      as (pre' & s' & i' & x' & E & Hl' & Hx' & Hs & Hi'); [done|zdm| |lia|].
    { rewrite Nat2Z.inj_succ, Z.pow_succ_r in Hf by lia. zdm. }
    exists pre', s', i', x'. split; [done|]. split; [done|]. split; [done|].
    rewrite (dec_text_pair 20 x) by (cbn; lia). rewrite <- app_assoc. split; [done|]. len.
Qed.

(** What follows the loops: the leading digit. *)
Lemma lead_digit (pre s : list Z) i x :
  zlen pre = i → 0 ≤ x < 10 → zlen (dec_text 20 x) ≤ i →
  ∃ (pre' : list Z) i',
    (if x =? 0 then Some (pre ++ s, i)
     else a ← wr (pre ++ s) (i - 1) (x + 48); Some (a, i - 1)) = Some (pre' ++ dec_text 20 x ++ s, i') ∧
    zlen pre' = i' ∧ i' = i - zlen (dec_text 20 x).
Proof.
  intros Hl Hx Hi. case_cmp.
  - subst x. rewrite dec_text_zero. exists pre, i. repeat split; cbn; lia.
  - rewrite dec_text_small in * by (cbn; lia). cbn in Hi.
    destruct (wr_prefix pre s i (x + 48)) as (pre' & Hl' & E); [done|lia|].
    rewrite E. cbn [mbind option_bind]. exists pre', (i - 1).
    replace (48 + x) with (x + 48) by lia. repeat split; cbn; lia.
Qed.

Lemma text8_loop_correct fuel (pre s : list Z) i v :
  zlen pre = i → 0 ≤ v < 2 ^ 64 → v < 10 ^ (8 * Z.of_nat fuel) * 2 ^ 32 → zlen (dec_text 20 v) ≤ i →
  ∃ (pre' s' : list Z) i' v', text8_loop fuel (pre ++ s) i v = Some (pre' ++ s', i', v') ∧
    zlen pre' = i' ∧ 0 ≤ v' < 2 ^ 32 ∧ dec_text 20 v ++ s = dec_text 20 v' ++ s' ∧
    i' - zlen (dec_text 20 v') = i - zlen (dec_text 20 v).
Proof.
  assert (∀ v, 0 ≤ v → Z.shiftr v 32 = 0 ↔ v < 2 ^ 32) as Hsh.
  { intros w Hw. rewrite Z.shiftr_div_pow2 by lia. split; zdm. }
  revert pre s i v. induction fuel as [|fuel IH]; intros pre s i v Hl Hv Hf Hi; cbn [text8_loop];
    pose proof (Hsh v ltac:(lia)).
  - case_cmp; [|cbn in Hf; lia]. exists pre, s, i, v. repeat split; try done; lia.
  - case_cmp; [exists pre, s, i, v; repeat split; try done; lia|].
    assert (2 ^ 32 ≤ v) as Hbig by lia.
    rewrite u32_id by zdm. set (x32 := v mod 100000000). set (y := x32 mod 10000).
    assert (dec_text 20 v = dec_text 20 (v / 100000000) ++
      [48 + (x32 / 10000 / 100) / 10; 48 + (x32 / 10000 / 100) mod 10;
       48 + ((x32 / 10000) mod 100) / 10; 48 + ((x32 / 10000) mod 100) mod 10;
       48 + (y / 100) / 10; 48 + (y / 100) mod 10; 48 + (y mod 100) / 10; 48 + (y mod 100) mod 10]) as Ed.
    { rewrite (dec_text_pair 20 v) by (cbn; lia). rewrite (dec_text_pair 20 (v / 100)) by (cbn; zdm).
      rewrite (dec_text_pair 20 (v / 100 / 100)) by (cbn; zdm).
      rewrite (dec_text_pair 20 (v / 100 / 100 / 100)) by (cbn; zdm).
      rewrite !Z.div_div by lia. rewrite <- !app_assoc. cbn [app]. apply f_equal2; [done|].
      subst y x32. repeat (apply f_equal2; [zdm|]). done. }
    rewrite Ed in Hi. len_in Hi.
    rewrite Ed.
    (* the four pairs are written from left to right; split the prefix first *)
    assert (∃ p0 q : list Z, pre = p0 ++ q ∧ zlen p0 = i - 8 ∧ zlen q = 8) as (p0 & q & -> & Hp0 & Hq).
    { exists (take (Z.to_nat (i - 8)) pre), (drop (Z.to_nat (i - 8)) pre).
      rewrite take_drop, length_take, length_drop. split; [done|]. split; lia. }
    destruct q as [|q0 [|q1 [|q2 [|q3 [|q4 [|q5 [|q6 [|q7 [|]]]]]]]]]; try (cbn in Hq; lia).
    assert (∀ (l1 : list Z) a b l2 k kk, zlen l1 = k → 0 ≤ kk < 100 →
      put_pair (l1 ++ a :: b :: l2) k (kk * 2) = Some (l1 ++ (48 + kk / 10) :: (48 + kk mod 10) :: l2)) as Hput.
    { intros l1 a b l2 k kk Hk1 Hk2. unfold put_pair. destruct (digit_pair kk Hk2) as [-> ->].
      cbn [mbind option_bind]. rewrite wr_in_bounds by len. cbn [mbind option_bind].
      rewrite wr_in_bounds by (rewrite length_insert; len). f_equal.
      replace (Z.to_nat k) with (length l1 + 0)%nat by lia. rewrite insert_app_r.
      replace (Z.to_nat (k + 1)) with (length l1 + 1)%nat by lia. by rewrite insert_app_r. }
    rewrite <- app_assoc. cbn [app].
    rewrite (Hput p0) by (subst y x32; done || zdm). cbn [mbind option_bind].
    set (d0 := 48 + _ / 10). set (d1 := 48 + _ mod 10).
    replace (p0 ++ d0 :: d1 :: q2 :: q3 :: q4 :: q5 :: q6 :: q7 :: s)
      with ((p0 ++ [d0; d1]) ++ q2 :: q3 :: q4 :: q5 :: q6 :: q7 :: s) by (by rewrite <- app_assoc).
    rewrite (Hput _ q2 q3) by (subst y x32; zdm || len). cbn [mbind option_bind].
    set (d2 := 48 + _ / 10). set (d3 := 48 + _ mod 10).
    replace ((p0 ++ [d0; d1]) ++ d2 :: d3 :: q4 :: q5 :: q6 :: q7 :: s)
      with ((p0 ++ [d0; d1; d2; d3]) ++ q4 :: q5 :: q6 :: q7 :: s) by (by rewrite <- !app_assoc).
    rewrite (Hput _ q4 q5) by (subst y x32; zdm || len). cbn [mbind option_bind].
    set (d4 := 48 + _ / 10). set (d5 := 48 + _ mod 10).
    replace ((p0 ++ [d0; d1; d2; d3]) ++ d4 :: d5 :: q6 :: q7 :: s)
      with ((p0 ++ [d0; d1; d2; d3; d4; d5]) ++ q6 :: q7 :: s) by (by rewrite <- !app_assoc).
    rewrite (Hput _ q6 q7) by (subst y x32; zdm || len). cbn [mbind option_bind].
    rewrite <- !app_assoc. cbn [app].
    destruct (IH p0 (d0 :: d1 :: d2 :: d3 :: d4 :: d5 :: (48 + y mod 100 / 10) ::
        (48 + (y mod 100) mod 10) :: s) (i - 8) (v / 100000000))
      as (pre' & s' & i' & v' & E & Hl' & Hv' & Hs & Hi'); [done|zdm| |lia|].
    { rewrite Nat2Z.inj_succ in Hf. replace (8 * Z.succ (Z.of_nat fuel)) with (8 + 8 * Z.of_nat fuel) in Hf by lia.
      rewrite Z.pow_add_r in Hf by lia. change (10 ^ 8) with 100000000 in Hf. zdm. }
    exists pre', s', i', v'. split; [done|]. split; [done|]. split; [done|].
    split; [rewrite <- Hs; done|]. len.
Qed.

Lemma Int64ToText_correct u_a v zOut :
  SMALLEST_INT64 ≤ v ≤ LARGEST_INT64 → zlen u_a = 21 → 21 ≤ zlen zOut →
  ∃ rest, sqlite3Int64ToText u_a v zOut = Some (int_text v ++ 0 :: rest, zlen (int_text v)) ∧
    zlen (int_text v ++ 0 :: rest) = zlen zOut.
Proof.
  unfold SMALLEST_INT64, LARGEST_INT64. intros Hv Hu Hz. unfold sqlite3Int64ToText, int_text.
  case_cmp.
  { destruct zOut as [|a [|b zOut]]; [cbn in Hz; lia..|]. exists zOut.
    rewrite wr_in_bounds by len. cbn [mbind option_bind].
    change (<[Z.to_nat 0:=48]> (a :: b :: zOut)) with (48 :: b :: zOut).
    rewrite wr_in_bounds by len. split; [done|len]. }
  assert ((if 0 <? v then Some v else if v =? SMALLEST_INT64 then Some (u64 (Z.shiftl 1 63))
    else nv ← chk64 (- v); Some (u64 nv)) = Some (Z.abs v)) as ->.
  { destruct (Z.ltb_spec 0 v); [f_equal; lia|].
    destruct (Z.eqb_spec v SMALLEST_INT64); [by subst v|]. unfold SMALLEST_INT64 in *.
    unfold chk64. destruct (in_i64_spec (- v)) as [|Hn].
    - cbn [mbind option_bind]. f_equal. rewrite u64_id by lia. lia.
    - exfalso. apply Hn. unfold i64_range, SMALLEST_INT64, LARGEST_INT64. lia. }
  cbn [mbind option_bind].
  destruct u_a as [|ul pre _] using rev_ind; [cbn in Hu; lia|]. len_in Hu.
  assert (wr (pre ++ [ul]) SQLITE_U64_DIGITS 0 = Some (pre ++ [0])) as ->.
  { unfold SQLITE_U64_DIGITS. rewrite wr_in_bounds by len. f_equal.
    replace (Z.to_nat 20) with (length pre + 0)%nat by lia. by rewrite insert_app_r. }
  cbn [mbind option_bind].
  destruct (dec_text_spec 20 (Z.abs v)) as (_ & _ & Hlen & _); [cbn; lia|].
  destruct (text_loop_correct 10 pre [0] SQLITE_U64_DIGITS (Z.abs v))
    as (p1 & s1 & i1 & x1 & E1 & Hl1 & Hx1 & Hs1 & Hi1); [unfold SQLITE_U64_DIGITS; lia|lia|cbn; lia|
      unfold SQLITE_U64_DIGITS; lia|].
  rewrite E1. cbn [mbind option_bind].
  destruct (lead_digit p1 s1 i1 x1 Hl1 Hx1) as (p2 & i2 & E2 & Hl2 & Hi2);
    [unfold SQLITE_U64_DIGITS in *; lia|].
  cbn [mbind option_bind] in E2. rewrite E2. cbn [mbind option_bind]. rewrite <- Hs1.
  unfold SQLITE_U64_DIGITS in *.
  set (ds := dec_text 20 (Z.abs v)) in *.
  assert (zlen p2 = 20 - zlen ds) as Hp2 by lia.
  set (sg := if v <? 0 then [45] else []).
  assert (∃ (p3 : list Z) i3, (if v <? 0 then a ← wr (p2 ++ ds ++ [0]) (i2 - 1) 45; Some (a, i2 - 1)
    else Some (p2 ++ ds ++ [0], i2)) = Some (p3 ++ (sg ++ ds) ++ [0], i3) ∧ zlen p3 = i3 ∧
    i3 = 20 - zlen (sg ++ ds)) as (p3 & i3 & E3 & Hl3 & Hi3).
  { subst sg. case_cmp.
    - assert (zlen ds ≤ 19).
      { subst ds. destruct (dec_text_spec 19 (Z.abs v)) as (_ & _ & ? & _); [cbn; lia|].
        rewrite (dec_text_fuel 20 19) by (cbn; lia). lia. }
      destruct (wr_prefix p2 (ds ++ [0]) i2 45) as (p3 & Hl3 & E3); [done|lia|].
      rewrite E3. exists p3, (i2 - 1). split; [done|]. split; [done|]. len.
    - exists p2, i2. split; [done|]. split; [done|]. len. }
  cbn [mbind option_bind] in E3. rewrite E3. cbn [mbind option_bind].
  replace (Z.to_nat i3) with (length p3 + 0)%nat by lia.
  rewrite drop_app_add, drop_0. unfold memcpy. set (t := sg ++ ds) in *.
  assert (zlen t ≤ 20) by lia.
  destruct (Nat.leb_spec (length (t ++ [0])) (length zOut)) as [Hle|Hle]; [|len_in Hle; lia].
  cbn [mbind option_bind]. exists (drop (length (t ++ [0])) zOut). split.
  - rewrite <- app_assoc. repeat f_equal. lia.
  - rewrite length_app. cbn [length]. rewrite length_drop. len_in Hle. len.
Qed.

Lemma UInt64ToText_correct v zOut :
  0 ≤ v < 2 ^ 64 → zlen zOut = 21 →
  ∃ pre, sqlite3UInt64ToText v zOut = Some (pre ++ dec_text 20 v ++ [0], zlen pre) ∧
    zlen (pre ++ dec_text 20 v ++ [0]) = 21.
Proof.
  intros Hv Hz. unfold sqlite3UInt64ToText.
  destruct zOut as [|ul pre _] using rev_ind; [cbn in Hz; lia|]. len_in Hz.
  assert (wr (pre ++ [ul]) SQLITE_U64_DIGITS 0 = Some (pre ++ [0])) as ->.
  { unfold SQLITE_U64_DIGITS. rewrite wr_in_bounds by len. f_equal.
    replace (Z.to_nat 20) with (length pre + 0)%nat by lia. by rewrite insert_app_r. }
  cbn [mbind option_bind].
  destruct (dec_text_spec 20 v) as (_ & _ & Hlen & _); [cbn; lia|].
  destruct (text8_loop_correct 2 pre [0] SQLITE_U64_DIGITS v)
    as (p1 & s1 & i1 & v1 & E1 & Hl1 & Hv1 & Hs1 & Hi1);
    [unfold SQLITE_U64_DIGITS; lia|lia|cbn; lia|unfold SQLITE_U64_DIGITS; lia|].
  rewrite E1. cbn [mbind option_bind]. unfold SQLITE_U64_DIGITS in *. rewrite u32_id by lia.
  destruct (text_loop_correct 5 p1 s1 i1 v1)
    as (p2 & s2 & i2 & v2 & E2 & Hl2 & Hv2 & Hs2 & Hi2); [lia|lia|cbn; lia|lia|].
  rewrite E2. cbn [mbind option_bind].
  destruct (lead_digit p2 s2 i2 v2) as (p3 & i3 & E3 & Hl3 & Hi3); [lia..|].
  cbn [mbind option_bind] in E3. rewrite E3, <- Hs2, <- Hs1. exists p3.
  split; [by rewrite Hl3|]. len.
Qed.
