(* ===== verification/IntTextProofs.v ===== *)
(** * Reading integers: proofs

    The readers of IntText.v against the value of the text. The loops of
    [sqlite3Atoi64] step by one or two bytes; [at_chars] is the sequence of
    characters they see. *)
From S2P Require Import Prelude Ctype Int64 IntText.

(** ** The characters a scan sees *)

Fixpoint at_chars (z : list Z) (p incr zEnd : Z) (cs : list Z) : Prop :=
  match cs with
  | [] => zEnd ≤ p
  | c :: cs => p < zEnd ∧ z.[p] = Some c ∧ at_chars z (p + incr) incr zEnd cs
  end.

Lemma at_chars_app z p incr zEnd s cs :
  at_chars z p incr zEnd (s ++ cs) → at_chars z (p + incr * zlen s) incr zEnd cs.
Proof.
  revert p. induction s as [|c s IH]; intros p H.
  - by replace (p + incr * zlen []) with p by (cbn; lia).
  - cbn [app at_chars] in H. destruct H as (_ & _ & H). apply IH in H.
    by replace (p + incr * zlen (c :: s)) with (p + incr + incr * zlen s) by (cbn [length]; lia).
Qed.

Lemma at_chars_length z p incr zEnd cs :
  0 < incr → at_chars z p incr zEnd cs → cs = [] ∨ p + (zlen cs - 1) * incr < zlen z.
Proof.
  intros Hi. revert p. induction cs as [|c cs IH]; intros p H; [by left|right].
  destruct H as (_ & Hc & H). apply rd_Some_lt in Hc.
  destruct (IH _ H) as [->|Hl]; cbn [length]; lia.
Qed.

Lemma at_chars_fuel z p incr zEnd cs :
  0 < incr → 0 ≤ p → at_chars z p incr zEnd cs → (length cs < S (length z))%nat.
Proof. intros Hi Hp H. destruct (at_chars_length _ _ _ _ _ Hi H) as [->|Hl]; cbn; nia. Qed.

(** [stops P cs]: the scan over characters that satisfy [P] ends before [cs]. *)
Definition stops (P : Z → bool) (cs : list Z) : Prop :=
  match cs with [] => True | c :: _ => P c = false end.

Lemma skip_chars_correct fuel P z p incr zEnd s cs :
  at_chars z p incr zEnd (s ++ cs) → Forall (λ c, P c = true) s → stops P cs →
  (length s < fuel)%nat →
  skip_chars fuel P z p zEnd incr = Some (p + incr * zlen s).
Proof.
  revert p fuel. induction s as [|c s IH]; intros p fuel H Hs Hst Hf;
    (destruct fuel as [|fuel]; [lia|]); cbn [skip_chars].
  - replace (p + incr * zlen []) with p by (cbn; lia). cbn [app] in H.
    destruct cs as [|c cs]; cbn [at_chars] in H.
    + case_cmp; [lia|done].
    + destruct H as (? & -> & _). case_cmp; [|lia]. cbn [mbind option_bind].
      cbn in Hst. by rewrite Hst.
  - cbn [app at_chars] in H. destruct H as (? & -> & H). case_cmp; [|lia].
    cbn [mbind option_bind]. inversion Hs as [|? ? Hc Hs']; subst. rewrite Hc.
    cbn [length] in Hf. rewrite (IH (p + incr) fuel H Hs' Hst) by lia. f_equal. cbn [length]. lia.
Qed.

Lemma dec_val_app_cons v c ds :
  fold_left (λ v c, v * 10 + (c - 48)) (c :: ds) v =
  fold_left (λ v c, v * 10 + (c - 48)) ds (v * 10 + (c - 48)).
Proof. done. Qed.

Lemma dec_fold_mod ds v w :
  u64 v = u64 w →
  u64 (fold_left (λ v c, v * 10 + (c - 48)) ds v) = u64 (fold_left (λ v c, v * 10 + (c - 48)) ds w).
Proof.
  revert v w. induction ds as [|c ds IH]; intros v w H; [done|]. cbn [fold_left]. apply IH.
  unfold u64 in *. rewrite (Z.add_mod (v * 10)), (Z.add_mod (w * 10)) by lia.
  rewrite (Z.mul_mod v), (Z.mul_mod w), H by lia. done.
Qed.

Lemma digit_u32 c : 48 ≤ c ≤ 57 → u32 (c - 48) = c - 48.
Proof. intros. apply u32_id. lia. Qed.

Lemma not_digit_u32 c : 0 ≤ c < 256 → digit c = false → 9 < u32 (c - 48).
Proof.
  unfold digit. intros Hc Hd. b2p. destruct Hd; b2p; unfold u32.
  - rewrite <- (Z.mod_add _ 1) by lia. rewrite Z.mod_small; lia.
  - rewrite Z.mod_small; lia.
Qed.

Lemma digit_loop_correct fuel z p incr zEnd ds cs i v :
  at_chars z (p + i) incr zEnd (ds ++ cs) → digits ds → stops digit cs → bytes cs →
  (length ds < fuel)%nat →
  digit_loop fuel z p zEnd incr i (u64 v) =
    Some (i + incr * zlen ds, u64 (fold_left (λ v c, v * 10 + (c - 48)) ds v)).
Proof.
  revert i v fuel. induction ds as [|c ds IH]; intros i v fuel H Hds Hst Hb Hf;
    (destruct fuel as [|fuel]; [lia|]); cbn [digit_loop].
  - replace (i + incr * zlen []) with i by (cbn; lia). cbn [fold_left app] in *.
    destruct cs as [|c cs]; cbn [at_chars] in H.
    + case_cmp; [lia|done].
    + destruct H as (? & -> & _). case_cmp; [|lia]. cbn [mbind option_bind].
      apply bytes_cons in Hb as [Hb _]. pose proof (not_digit_u32 c Hb Hst).
      case_cmp; [lia|done].
  - cbn [app at_chars] in H. destruct H as (? & -> & H). case_cmp; [|lia].
    cbn [mbind option_bind]. inversion Hds as [|? ? Hc Hds']; subst. rewrite digit_u32 by done.
    case_cmp; [|lia]. cbn [length] in Hf.
    assert (u64 (u64 v * 10 + (c - 48)) = u64 (v * 10 + (c - 48))) as ->.
    { unfold u64. rewrite Z.add_mod, Z.mul_mod_idemp_l, <- Z.add_mod by lia. done. }
    replace (p + i + incr) with (p + (i + incr)) in H by lia.
    rewrite (IH (i + incr) _ fuel H Hds' Hst Hb) by lia. f_equal. f_equal. cbn [length]. lia.
Qed.

Lemma extra_loop_correct fuel z p incr zEnd cs jj :
  at_chars z (p + jj) incr zEnd cs → cs ≠ [] → bytes cs → (length cs ≤ fuel)%nat →
  extra_loop fuel z p zEnd incr jj = Some (negb (forallb space cs)).
Proof.
  revert jj fuel. induction cs as [|c cs IH]; intros jj fuel H Hne Hb Hf; [done|].
  cbn [length] in Hf. destruct fuel as [|fuel]; [lia|]. cbn [extra_loop at_chars] in *.
  destruct H as (? & -> & H). apply bytes_cons in Hb as [Hc Hb]. cbn [mbind option_bind forallb].
  rewrite Isspace_byte by done. destruct (space c); cbn [negb andb]; [|done].
  replace (p + jj + incr) with (p + (jj + incr)) in H by lia.
  destruct cs as [|c' cs].
  - cbn [at_chars] in H. case_cmp; [lia|done].
  - pose proof H as (Hlt & _). case_cmp; [|lia]. apply IH; [done..|lia].
Qed.

(** ** Comparing with 2^63 *)

Definition pow63 : list Z := [57; 50; 50; 51; 51; 55; 50; 48; 51; 54; 56; 53; 52; 55; 55; 53; 56; 48].

(** The first [n] characters: the comparison is decided by the first difference,
    and so is the order of the numbers. *)
Lemma dec_fold_bound ds v :
  digits ds →
  v * 10 ^ zlen ds ≤ fold_left (λ v c, v * 10 + (c - 48)) ds v < (v + 1) * 10 ^ zlen ds.
Proof.
  revert v. induction ds as [|c ds IH]; intros v H; [cbn; lia|].
  inversion H as [|? ? Hc Hds]; subst. rewrite dec_val_app_cons. cbn [length].
  rewrite Nat2Z.inj_succ, Z.pow_succ_r by lia.
  specialize (IH (v * 10 + (c - 48)) Hds). assert (0 < 10 ^ zlen ds) by (apply Z.pow_pos_nonneg; lia). nia.
Qed.

Lemma pow63_loop_stop n z p incr i c : c ≠ 0 → pow63_loop n z p incr i c = Some c.
Proof. intros H. destruct n; cbn [pow63_loop]; [done|]. case_cmp; [lia|done]. Qed.

Lemma pow63_loop_correct ds es z p incr zEnd i cs v :
  at_chars z (p + i * incr) incr zEnd (ds ++ cs) →
  digits ds → digits es → length es = length ds →
  (∀ k e, es !! k = Some e → pow63.[i + Z.of_nat k] = Some e) →
  ∃ c, pow63_loop (length ds) z p incr i 0 = Some c ∧
    (c < 0 ↔ fold_left (λ v c, v * 10 + (c - 48)) ds v < fold_left (λ v c, v * 10 + (c - 48)) es v) ∧
    (c = 0 → ds = es) ∧
    (0 < c ↔ fold_left (λ v c, v * 10 + (c - 48)) es v < fold_left (λ v c, v * 10 + (c - 48)) ds v) ∧
    (c ≠ 0 → 10 ≤ Z.abs c).
Proof.
  revert es i v. induction ds as [|d ds IH]; intros [|e es] i v H Hds Hes Hl Hp; try done.
  { exists 0. repeat split; cbn; try done; lia. }
  inversion Hds as [|? ? Hd Hds']; subst. inversion Hes as [|? ? He Hes']; subst.
  cbn [app at_chars] in H. destruct H as (_ & Hz & H).
  cbn [length pow63_loop]. rewrite Hz. cbn [Z.eqb mbind option_bind].
  pose proof (Hp O e eq_refl) as Hp0. rewrite Z.add_0_r in Hp0. unfold pow63 in Hp0.
  rewrite Hp0. cbn [mbind option_bind]. rewrite !dec_val_app_cons. cbn [length] in Hl.
  destruct (Z.eq_dec d e) as [->|Hne].
  - rewrite Z.sub_diag. cbn [Z.mul].
    destruct (IH es (i + 1) (v * 10 + (e - 48))) as (c & Hc & H1 & H2 & H3 & H4); [|done|done|lia| |].
    + by replace (p + (i + 1) * incr) with (p + i * incr + incr) by lia.
    + intros k e' Hk. specialize (Hp (S k) e' Hk). by replace (i + 1 + Z.of_nat k) with (i + Z.of_nat (S k)) by lia.
    + exists c. repeat split; try tauto. intros Hc0. by rewrite (H2 Hc0).
  - rewrite pow63_loop_stop by lia. exists ((d - e) * 10).
    pose proof (dec_fold_bound ds (v * 10 + (d - 48)) Hds').
    pose proof (dec_fold_bound es (v * 10 + (e - 48)) Hes').
    assert (zlen es = zlen ds) as Hle by lia. rewrite Hle in *.
    assert (0 < 10 ^ zlen ds) by (apply Z.pow_pos_nonneg; lia).
    repeat split; intros; try (exfalso; lia); try lia; nia.
Qed.

Lemma compare2pow63_correct z p incr zEnd ds cs :
  at_chars z p incr zEnd (ds ++ cs) → digits ds → length ds = 19%nat →
  ∃ j, compare2pow63 z p incr = Some j ∧
    (j < 0 ↔ dec_val ds < 2 ^ 63) ∧ (0 < j ↔ 2 ^ 63 < dec_val ds).
Proof.
  intros H Hds Hl. destruct ds as [|d ds' _] using rev_ind; [done|]. len_in Hl.
  apply Forall_app in Hds as [Hds Hd]. inversion Hd as [|? ? Hd' _]; subst. clear Hd.
  rewrite <- app_assoc in H.
  destruct (pow63_loop_correct ds' pow63 z p incr zEnd 0 ([d] ++ cs) 0) as (c & Hc & H1 & H2 & H3 & H4).
  - by replace (p + 0 * incr) with p by lia.
  - done.
  - unfold digits, pow63. repeat constructor; lia.
  - cbn. lia.
  - intros k e Hk. by rewrite Z.add_0_l, rd_nat.
  - unfold compare2pow63. replace (length ds') with 18%nat in Hc by lia. rewrite Hc.
    cbn [mbind option_bind]. rewrite dec_val_snoc.
    assert (fold_left (λ v c, v * 10 + (c - 48)) pow63 0 = 922337203685477580) as E by reflexivity.
    rewrite E in H1, H3. fold (dec_val ds') in H1, H3.
    case_cmp.
    + apply at_chars_app in H. destruct H as (_ & Hz & _).
      replace (p + 18 * incr) with (p + incr * zlen ds') by lia. rewrite Hz.
      cbn [mbind option_bind]. exists (d - 56). split; [done|]. lia.
    + exists c. split; [done|]. lia.
Qed.

(** ** What [sqlite3Atoi64] computes *)

Fixpoint span (P : Z → bool) (cs : list Z) : list Z * list Z :=
  match cs with
  | [] => ([], [])
  | c :: cs' => if P c then let '(a, b) := span P cs' in (c :: a, b) else ([], cs)
  end.

Definition int_sign (cs : list Z) : bool * list Z :=
  match cs with
  | 45 :: cs' => (true, cs')
  | 43 :: cs' => (false, cs')
  | _ => (false, cs)
  end.

Definition clamp64 (x : Z) : Z := Z.max SMALLEST_INT64 (Z.min x LARGEST_INT64).

(** Leading spaces, an optional sign, digits, and the text that follows them. *)
Definition atoi64_spec (nonNum : bool) (cs : list Z) : Z * Z :=
  let '(neg, cs) := int_sign (snd (span space cs)) in
  let '(ds, rest) := span digit cs in
  let v := dec_val ds in
  let base := match ds with
              | [] => -1
              | _ => if nonNum then 1 else if forallb space rest then 0 else 1
              end in
  (if 2 ^ 63 <? v then 2 else if v =? 2 ^ 63 then (if neg then base else 3) else base,
   clamp64 (if neg then - v else v)).

Lemma span_spec P cs :
  let '(a, b) := span P cs in
  cs = a ++ b ∧ Forall (λ c, P c = true) a ∧ stops P b.
Proof.
  induction cs as [|c cs IH]; cbn [span]; [done|]. destruct (P c) eqn:E.
  - destruct (span P cs) as [a b]. destruct IH as (-> & ? & ?). split; [done|]. split; [by constructor|done].
  - split; [done|]. by split; [constructor|].
Qed.

(** Splitting the digits after the leading zeros. *)
Lemma span_zeros cs :
  Forall (λ c, 48 ≤ c ≤ 57) cs →
  ∃ zs ds, cs = zs ++ ds ∧ Forall (λ c, (48 =? c) = true) zs ∧ digits ds ∧
    dec_val cs = dec_val ds ∧ stops (Z.eqb 48) ds.
Proof.
  induction 1 as [|c cs Hc H IH].
  - exists [], []. by repeat split; try constructor.
  - destruct (Z.eq_dec c 48) as [->|Hne].
    + destruct IH as (zs & ds & -> & Hz & Hd & Hv & Hst). exists (48 :: zs), ds.
      split; [done|]. split; [by constructor|]. done.
    + exists [], (c :: cs). split; [done|]. split; [constructor|]. split; [by constructor|].
      split; [done|]. change ((48 =? c) = false). apply Z.eqb_neq. lia.
Qed.

Lemma stops_app P a b : stops P a → (a = [] → stops P b) → stops P (a ++ b).
Proof. destruct a; cbn; auto. Qed.

Lemma dec_val_head d ds : 48 < d ≤ 57 → digits ds → 10 ^ zlen ds ≤ dec_val (d :: ds).
Proof.
  intros Hd Hds. unfold dec_val. rewrite dec_val_app_cons.
  pose proof (dec_fold_bound ds (0 * 10 + (d - 48)) Hds).
  assert (0 < 10 ^ zlen ds) by (apply Z.pow_pos_nonneg; lia). nia.
Qed.

Lemma digit_iff c : digit c = true ↔ 48 ≤ c ≤ 57.
Proof. unfold digit. rewrite andb_true_iff, !Z.leb_le. done. Qed.

(** The value scan: zeros, digits, and the comparison that decides the range. *)
Lemma atoi64_range z p incr zEnd ds rest :
  0 < incr → 0 ≤ p → at_chars z p incr zEnd (ds ++ rest) → digits ds → stops (Z.eqb 48) ds →
  let i := incr * zlen ds in
  let v := dec_val ds in
  (i < 19 * incr → v < 2 ^ 63) ∧
  (19 * incr ≤ i → ∃ j, (if 19 * incr <? i then Some 1 else compare2pow63 z p incr) = Some j ∧
    (j < 0 ↔ v < 2 ^ 63) ∧ (0 < j ↔ 2 ^ 63 < v)) ∧
  0 ≤ v ∧ (v < 2 ^ 63 → u64 v = v) ∧ (zlen ds ≤ 19 → u64 v = v).
Proof.
  intros Hi Hp H Hds Hst. cbv zeta.
  pose proof (dec_fold_bound ds 0 Hds) as Hb. fold (dec_val ds) in Hb.
  assert (zlen ds ≤ 19 → dec_val ds < 10 ^ 19) as H19.
  { intros Hl. assert (10 ^ zlen ds ≤ 10 ^ 19) by (apply Z.pow_le_mono_r; lia). lia. }
  split; [|split; [|split; [lia|split]]].
  - intros Hlt. assert (10 ^ zlen ds ≤ 10 ^ 18) by (apply Z.pow_le_mono_r; nia). lia.
  - intros Hge. case_cmp.
    + exists 1. split; [done|]. destruct ds as [|d ds]; [cbn in *; lia|].
      change ((48 =? d) = false) in Hst. apply Z.eqb_neq in Hst. inversion Hds as [|? ? Hd Hds']; subst.
      pose proof (dec_val_head d ds ltac:(lia) Hds').
      assert (10 ^ 19 ≤ 10 ^ zlen ds) by (apply Z.pow_le_mono_r; [lia|]; cbn [length] in *; nia). lia.
    + apply (compare2pow63_correct z p incr zEnd ds rest); [done..|]. nia.
  - intros ?. apply u64_id. lia.
  - intros ?. apply u64_id. lia.
Qed.

Lemma space_not_sign c : space c = true → c ≠ 45 ∧ c ≠ 43 ∧ digit c = false.
Proof. unfold space, digit. intros H. b2p. destruct H; b2p; repeat split; try lia; repeat case_cmp; done || lia. Qed.

Lemma int_sign_none c cs : c ≠ 45 → c ≠ 43 → int_sign (c :: cs) = (false, c :: cs).
Proof.
  intros H1 H2. unfold int_sign.
  repeat (match goal with |- context [match ?x with _ => _ end] => destruct x end; try done; try lia).
Qed.

Lemma int_sign_spec cs :
  stops space cs →
  ∃ sg, cs = sg ++ snd (int_sign cs) ∧
    ((sg = [] ∧ fst (int_sign cs) = false ∧ stops (λ c, (c =? 45) || (c =? 43)) cs) ∨
     (sg = [45] ∧ fst (int_sign cs) = true) ∨ (sg = [43] ∧ fst (int_sign cs) = false)).
Proof.
  intros _. destruct cs as [|c cs]; [exists []; split; [done|left; done]|].
  destruct (Z.eq_dec c 45) as [->|H1]; [exists [45]; split; [done|right; by left]|].
  destruct (Z.eq_dec c 43) as [->|H2]; [exists [43]; split; [done|right; by right]|].
  rewrite (int_sign_none c cs) by done.
  exists []. split; [done|left]. split; [done|]. split; [done|]. cbn [stops].
  do 2 (case_cmp; [lia|]). done.
Qed.

(** The sign step of the body. *)
Lemma sign_step z p incr zEnd cs :
  at_chars z p incr zEnd cs → stops space cs → 0 < incr → 0 ≤ p →
  ∃ p', (if p <? zEnd then
       c ← z.[p];
       Some (if c =? 45 then (true, p + incr) else if c =? 43 then (false, p + incr) else (false, p))
     else Some (false, p)) = Some (fst (int_sign cs), p') ∧ 0 ≤ p' ∧
    at_chars z p' incr zEnd (snd (int_sign cs)).
Proof.
  intros H Hst Hi Hp. destruct (int_sign_spec cs Hst) as (sg & E & Hcase).
  destruct cs as [|c cs].
  { cbn in H. case_cmp; [lia|]. by exists p. }
  pose proof H as (? & Hz & Hrest). case_cmp; [|lia]. rewrite Hz. cbn [mbind option_bind].
  destruct Hcase as [(-> & -> & Hs)|[(-> & ->)|(-> & ->)]].
  - exists p. cbn [stops] in Hs. b2p. cbn [app] in E. rewrite <- E. do 2 (case_cmp; [lia|]). done.
  - cbn [app] in E. injection E as -> E. exists (p + incr). cbn [Z.eqb Pos.eqb].
    split; [done|]. split; [lia|done].
  - cbn [app] in E. injection E as -> E. exists (p + incr). cbn [Z.eqb Pos.eqb].
    split; [done|]. split; [lia|done].
Qed.

Lemma at_chars_end z p incr zEnd cs : at_chars z p incr zEnd cs → p < zEnd ↔ cs ≠ [].
Proof. destruct cs; cbn; [split; [lia|done]|]. intros [? _]. done. Qed.

Lemma atoi64_body_correct z incr nonNum zEnd p cs :
  at_chars z p incr zEnd cs → bytes cs → 0 < incr → 0 ≤ p →
  atoi64_body z incr nonNum zEnd p = Some (atoi64_spec nonNum cs).
Proof.
  intros H Hb Hi Hp. unfold atoi64_body, atoi64_spec.
  pose proof (span_spec space cs) as Hsp. destruct (span space cs) as [ws cs1]. cbn [snd].
  destruct Hsp as (-> & Hws & Hst). apply bytes_app in Hb as [Hbw Hb].
  pose proof (at_chars_fuel _ _ _ _ _ Hi Hp H) as Hfu. len_in Hfu.
  rewrite (skip_chars_correct _ _ _ _ _ _ ws cs1); [|done| | |lia].
  2: { unfold bytes in Hbw. rewrite Forall_forall in *. intros c Hc. rewrite Isspace_byte; auto. }
  2: { destruct cs1; [done|]. apply bytes_cons in Hb as [? _]. cbn in *. by rewrite Isspace_byte. }
  cbn [mbind option_bind]. apply at_chars_app in H.
  destruct (sign_step _ _ _ _ _ H Hst Hi ltac:(lia)) as (p1 & E1 & Hp1 & H1).
  cbn [mbind option_bind] in E1. rewrite E1. cbn [mbind option_bind]. clear E1.
  assert (bytes (snd (int_sign cs1))) as Hb1.
  { destruct (int_sign_spec cs1 Hst) as (sg & E & _). rewrite E in Hb. by apply bytes_app in Hb as [_ ?]. }
  destruct (int_sign cs1) as [neg cs2]. cbn [fst snd] in *. clear H Hb Hst.
  pose proof (span_spec digit cs2) as Hsp. destruct (span digit cs2) as [ds0 rest].
  destruct Hsp as (-> & Hds0 & Hst). apply bytes_app in Hb1 as [_ Hb].
  destruct (span_zeros ds0) as (zs & ds & -> & Hzs & Hds & Hv & Hst0).
  { eapply Forall_impl; [exact Hds0|]. intros c. apply digit_iff. }
  rewrite <- app_assoc in H1.
  pose proof (at_chars_fuel _ _ _ _ _ Hi Hp1 H1) as Hfu1. len_in Hfu1.
  rewrite (skip_chars_correct _ _ _ _ _ _ zs (ds ++ rest)); [|done|done| |lia].
  2: { apply stops_app; [done|]. intros ->. destruct rest as [|c rest]; [done|]. cbn in Hst |- *.
       change ((48 =? c) = false). apply Z.eqb_neq. intros <-. by cbn in Hst. }
  cbn [mbind option_bind]. apply at_chars_app in H1. set (p2 := p1 + incr * zlen zs) in *.
  assert (0 ≤ p2) by lia.
  pose proof (digit_loop_correct (S (length z)) z p2 incr zEnd ds rest 0 0) as Hdl.
  change (u64 0) with 0 in Hdl. rewrite Z.add_0_r in Hdl. rewrite Hdl by (done || lia). clear Hdl. cbn [mbind option_bind].
  rewrite Z.add_0_l. fold (dec_val ds).
  pose proof (atoi64_range z p2 incr zEnd ds rest Hi ltac:(lia) H1 Hds Hst0) as (R1 & R2 & R3 & R4 & R5).
  set (v := dec_val ds) in *.
  assert (∃ pn, (if LARGEST_INT64 <? u64 v then Some (if neg then SMALLEST_INT64 else LARGEST_INT64)
    else if neg then chk64 (- i64 (u64 v)) else Some (i64 (u64 v))) = Some pn ∧
    (v < 2 ^ 63 → pn = if neg then - v else v)) as (pn & -> & Hpn).
  { pose proof (u64_range v). unfold LARGEST_INT64. case_cmp.
    - eexists. split; [done|]. intros Hlt. rewrite (R4 Hlt) in *. lia.
    - rewrite i64_id by (unfold SMALLEST_INT64, LARGEST_INT64; lia). destruct neg.
      + unfold chk64. destruct (in_i64_spec (- u64 v)) as [|Hn].
        * eexists. split; [done|]. intros Hlt. by rewrite (R4 Hlt).
        * exfalso. apply Hn. unfold i64_range, SMALLEST_INT64, LARGEST_INT64. lia.
      + eexists. split; [done|]. intros Hlt. by rewrite (R4 Hlt). }
  cbn [mbind option_bind].
  set (base := match zs ++ ds with [] => -1 | _ => _ end).
  assert ((if (incr * zlen ds =? 0) && (p1 =? p2) then Some (-1)
     else if nonNum then Some 1
     else if p2 + incr * zlen ds <? zEnd then
       x ← extra_loop (S (length z)) z p2 zEnd incr (incr * zlen ds); Some (if (x : bool) then 1 else 0)
     else Some 0) = Some base) as Hbase.
  { subst base. destruct zs as [|c0 zs]; [destruct ds as [|d ds]|].
    - cbn [length]. rewrite Z.mul_0_r. cbn [Z.eqb]. subst p2. cbn [length].
      replace (p1 + incr * Z.of_nat 0) with p1 by lia. by rewrite Z.eqb_refl.
    - cbn [app]. destruct (Z.eqb_spec (incr * zlen (d :: ds)) 0); [cbn [length] in *; lia|]. cbn [andb].
      destruct nonNum; [done|]. apply at_chars_app in H1. pose proof (at_chars_end _ _ _ _ _ H1).
      destruct (Z.ltb_spec (p2 + incr * zlen (d :: ds)) zEnd).
      + rewrite (extra_loop_correct _ _ _ _ _ rest) by (done || tauto || lia).
        cbn [mbind option_bind]. by destruct (forallb space rest).
      + destruct rest; [done|]. exfalso. assert (z0 :: rest ≠ []) as Hne by done. apply H0 in Hne. lia.
    - cbn [app]. destruct (Z.eqb_spec p1 p2); [subst p2; cbn [length] in *; lia|]. rewrite andb_false_r.
      destruct nonNum; [done|]. apply at_chars_app in H1. pose proof (at_chars_end _ _ _ _ _ H1).
      destruct (Z.ltb_spec (p2 + incr * zlen ds) zEnd).
      + rewrite (extra_loop_correct _ _ _ _ _ rest) by (done || tauto || lia).
        cbn [mbind option_bind]. by destruct (forallb space rest).
      + destruct rest; [done|]. exfalso. assert (z0 :: rest ≠ []) as Hne by done. apply H0 in Hne. lia. }
  cbn [mbind option_bind] in Hbase. rewrite Hbase. cbn [mbind option_bind]. clear Hbase.
  rewrite Hv. fold v. clearbody base v.
  unfold clamp64, SMALLEST_INT64, LARGEST_INT64 in *.
  destruct (Z.ltb_spec (incr * zlen ds) (19 * incr)) as [Hlt|Hge].
  { specialize (R1 Hlt). specialize (Hpn R1). do 2 (case_cmp; [lia|]). f_equal. f_equal. destruct neg; lia. }
  destruct (R2 Hge) as (j & Ej & J1 & J2). cbn [mbind option_bind] in Ej. rewrite Ej. cbn [mbind option_bind].
  destruct (Z.ltb_spec j 0) as [Hj|Hj].
  { assert (v < 2 ^ 63) as Hlt by tauto. specialize (Hpn Hlt).
    do 2 (case_cmp; [lia|]). f_equal. f_equal. destruct neg; lia. }
  destruct (Z.ltb_spec 0 j) as [Hj'|Hj'].
  { assert (2 ^ 63 < v) by tauto. destruct (Z.ltb_spec (2 ^ 63) v); [|lia]. f_equal. f_equal. destruct neg; lia. }
  assert (v = 2 ^ 63) by lia. destruct (Z.ltb_spec (2 ^ 63) v); [lia|].
  destruct (Z.eqb_spec v (2 ^ 63)); [|lia]. f_equal. f_equal. destruct neg; lia.
Qed.

(** ** The three encodings *)

Lemma at_chars_bytes pre cs rest :
  at_chars (pre ++ cs ++ rest) (zlen pre) 1 (zlen pre + zlen cs) cs.
Proof.
  revert pre. induction cs as [|c cs IH]; intros pre; cbn [at_chars length]; [lia|].
  split; [lia|]. split; [apply rd_app_head|].
  specialize (IH (pre ++ [c])). rewrite <- app_assoc in IH. cbn [app] in IH.
  replace (zlen (pre ++ [c])) with (zlen pre + 1) in IH by len.
  by replace (zlen pre + Z.of_nat (S (length cs))) with (zlen pre + 1 + zlen cs) by lia.
Qed.

(** A UTF-16 code unit as two bytes. *)
Definition unit16 (enc u : Z) : list Z :=
  if enc =? SQLITE_UTF16LE then [u mod 256; u / 256] else [u / 256; u mod 256].

Definition utf16 (enc : Z) (us : list Z) : list Z := us ≫= unit16 enc.

Lemma unit16_length enc u : length (unit16 enc u) = 2%nat.
Proof. unfold unit16. by case_match. Qed.

Lemma utf16_cons enc u us : utf16 enc (u :: us) = unit16 enc u ++ utf16 enc us.
Proof. done. Qed.

Lemma utf16_length enc us : zlen (utf16 enc us) = 2 * zlen us.
Proof.
  induction us as [|u us IH]; [done|].
  rewrite utf16_cons, length_app, unit16_length. cbn [length]. lia.
Qed.

Definition utf16_enc (enc : Z) : Prop := enc = SQLITE_UTF16LE ∨ enc = SQLITE_UTF16BE.

(** The low byte of unit [k] is at [2k + (enc&1)], the high byte at [2k + 3 - enc]. *)
Lemma unit16_at enc pre u rest :
  utf16_enc enc → 
  (pre ++ unit16 enc u ++ rest).[zlen pre + Z.land enc 1] = Some (u mod 256) ∧
  (pre ++ unit16 enc u ++ rest).[zlen pre + (3 - enc)] = Some (u / 256).
Proof.
  intros [-> | ->]; unfold unit16; cbn [Z.eqb SQLITE_UTF16LE SQLITE_UTF16BE Pos.eqb app].
  - unfold SQLITE_UTF16LE. split.
    + change (Z.land 2 1) with 0. rewrite Z.add_0_r. apply rd_app_head.
    + rewrite rd_app_r by lia. by replace (zlen pre + (3 - 2) - zlen pre) with 1 by lia.
  - unfold SQLITE_UTF16BE. split.
    + change (Z.land 3 1) with 1. rewrite rd_app_r by lia. by replace (zlen pre + 1 - zlen pre) with 1 by lia.
    + rewrite rd_app_r by lia. by replace (zlen pre + (3 - 3) - zlen pre) with 0 by lia.
Qed.

Definition below256 (u : Z) : bool := u <? 256.

Lemma high_loop_correct fuel enc pre ps us rest :
  utf16_enc enc → Forall (λ u, 0 ≤ u < 256) ps → Forall (λ u, 0 ≤ u < 65536) us →
  stops below256 us → (length ps < fuel)%nat →
  high_loop fuel (pre ++ utf16 enc (ps ++ us) ++ rest) (zlen pre + 2 * zlen (ps ++ us))
    (zlen pre + (3 - enc)) = Some (zlen pre + (3 - enc) + 2 * zlen ps).
Proof.
  intros He. revert pre fuel. induction ps as [|p ps IH]; intros pre fuel Hps Hus Hst Hf;
    (destruct fuel as [|fuel]; [lia|]); cbn [high_loop].
  - cbn [app length]. destruct us as [|u us].
    + cbn [length]. case_cmp; [destruct He as [-> | ->]; unfold SQLITE_UTF16LE, SQLITE_UTF16BE in *; lia|].
      f_equal. lia.
    + cbn [length]. case_cmp; [|destruct He as [-> | ->]; unfold SQLITE_UTF16LE, SQLITE_UTF16BE in *; lia].
      rewrite utf16_cons, <- app_assoc.
      destruct (unit16_at enc pre u (utf16 enc us ++ rest) He) as [_ E]. rewrite E. cbn [mbind option_bind].
      cbn [stops] in Hst. unfold below256 in Hst. b2p. case_cmp; [zdm|]. f_equal. lia.
  - cbn [length] in Hf. inversion Hps as [|? ? Hp Hps']; subst.
    assert (1 ≤ zlen ((p :: ps) ++ us)) by len.
    case_cmp; [|destruct He as [-> | ->]; unfold SQLITE_UTF16LE, SQLITE_UTF16BE in *; lia].
    cbn [app]. rewrite utf16_cons, <- app_assoc.
    destruct (unit16_at enc pre p (utf16 enc (ps ++ us) ++ rest) He) as [_ E]. rewrite E. cbn [mbind option_bind]. case_cmp; [|zdm].
    specialize (IH (pre ++ unit16 enc p) fuel Hps' Hus Hst ltac:(lia)).
    rewrite <- app_assoc, length_app, unit16_length in IH.
    replace (Z.of_nat (length pre + 2)) with (zlen pre + 2) in IH by lia.
    cbn [length].
    replace (zlen pre + 2 * Z.of_nat (S (length (ps ++ us)))) with (zlen pre + 2 + 2 * zlen (ps ++ us)) by lia.
    replace (zlen pre + (3 - enc) + 2) with (zlen pre + 2 + (3 - enc)) by lia.
    rewrite IH. f_equal. lia.
Qed.

Lemma at_chars_utf16 enc pre ps rest :
  utf16_enc enc → Forall (λ u, 0 ≤ u < 256) ps →
  at_chars (pre ++ utf16 enc ps ++ rest) (zlen pre + Z.land enc 1) 2
    (zlen pre + 2 * zlen ps + Z.land enc 1) ps.
Proof.
  intros He. revert pre. induction ps as [|p ps IH]; intros pre Hps; cbn [at_chars length]; [lia|].
  inversion Hps as [|? ? Hp Hps']; subst. split; [lia|].
  rewrite utf16_cons, <- app_assoc.
  destruct (unit16_at enc pre p (utf16 enc ps ++ rest) He) as [E _]. split; [rewrite E; f_equal; by apply Z.mod_small|].
  specialize (IH (pre ++ unit16 enc p) Hps'). rewrite <- app_assoc, length_app, unit16_length in IH.
  replace (Z.of_nat (length pre + 2)) with (zlen pre + 2) in IH by lia.
  replace (zlen pre + Z.land enc 1 + 2) with (zlen pre + 2 + Z.land enc 1) by lia.
  by replace (zlen pre + 2 * Z.of_nat (S (length ps)) + Z.land enc 1)
    with (zlen pre + 2 + 2 * zlen ps + Z.land enc 1) by lia.
Qed.

Lemma lxor_one k : 0 ≤ k → Z.lxor (2 * k) 1 = 2 * k + 1 ∧ Z.lxor (1 + 2 * k) 1 = 2 * k.
Proof. destruct k as [|p|p]; [done|done|lia]. Qed.

Lemma land_even len k : 2 * k ≤ len < 2 * k + 2 → Z.land len (-2) = 2 * k.
Proof.
  intros H. change (-2) with (Z.lnot (Z.ones 1)). rewrite <- Z.ldiff_land, Z.ldiff_ones_r by lia.
  rewrite Z.shiftl_mul_pow2, Z.shiftr_div_pow2 by lia. zdm.
Qed.

(** [sqlite3Atoi64] parses its text exactly: leading spaces, one sign, the
    maximal run of digits and what follows. It stores the value clamped to the
    64-bit range, however many digits there are, and the return code tells no
    digits (-1), in range (0), in range with trailing non-spaces (1), out of range
    (2) and exactly 2^63 (3). For UTF-16 in either byte order the text is the
    prefix of the code units below 256, a later unit counts as trailing text, and
    an odd last byte is ignored. All reads are inside the text. *)
Theorem Atoi64_correct cs us rest enc len :
  bytes cs → Forall (λ u, 0 ≤ u < 65536) us → utf16_enc enc →
  2 * zlen us ≤ len < 2 * zlen us + 2 →
  sqlite3Atoi64 (cs ++ rest) (zlen cs) SQLITE_UTF8 = Some (atoi64_spec false cs) ∧
  sqlite3Atoi64 (utf16 enc us ++ rest) len enc =
    Some (atoi64_spec (negb (forallb below256 us)) (fst (span below256 us))).
Proof.
  intros Hcs Hus He Hlen. split.
  - unfold sqlite3Atoi64. cbn [Z.eqb SQLITE_UTF8 Pos.eqb].
    apply atoi64_body_correct; [|done|lia|lia]. exact (at_chars_bytes [] cs rest).
  - unfold sqlite3Atoi64.
    destruct (Z.eqb_spec enc SQLITE_UTF8); [destruct He; unfold SQLITE_UTF8, SQLITE_UTF16LE, SQLITE_UTF16BE in *; lia|].
    rewrite (land_even len (zlen us)) by lia.
    pose proof (span_spec below256 us) as Hsp. destruct (span below256 us) as [ps qs] eqn:Eq. cbn [fst].
    destruct Hsp as (-> & Hps & Hst). apply Forall_app in Hus as [Hups Huqs].
    assert (Forall (λ u, 0 ≤ u < 256) ps) as Hpr.
    { rewrite Forall_forall in *. intros u Hu. specialize (Hps u Hu). specialize (Hups u Hu).
      unfold below256 in Hps. b2p. lia. }
    pose proof (high_loop_correct (S (length (utf16 enc (ps ++ qs) ++ rest))) enc [] ps qs rest He Hpr Huqs Hst) as Hh.
    cbn [length app] in Hh. rewrite !Z.add_0_l in Hh. rewrite Hh.
    2: { rewrite length_app. pose proof (utf16_length enc (ps ++ qs)) as Hl. len_in Hl. lia. }
    cbn [mbind option_bind].
    assert (negb (forallb below256 (ps ++ qs)) = (3 - enc + 2 * zlen ps <? 2 * zlen (ps ++ qs))) as ->.
    { rewrite forallb_app. assert (forallb below256 ps = true) as ->
        by (apply forallb_forall; intros x Hx; rewrite Forall_forall in Hps; apply Hps; by apply list_elem_of_In).
      destruct He as [-> | ->]; unfold SQLITE_UTF16LE, SQLITE_UTF16BE; rewrite length_app;
        (destruct qs as [|q qs]; cbn [forallb andb negb length];
          [case_cmp; [lia|done]|cbn [stops] in Hst; rewrite Hst; cbn [andb negb]; case_cmp; [done|lia]]). }
    apply atoi64_body_correct; [|done|lia|destruct He as [-> | ->]; done].
    unfold utf16 at 1. rewrite bind_app, <- app_assoc.
    pose proof (at_chars_utf16 enc [] ps (utf16 enc qs ++ rest) He Hpr) as Hat.
    cbn [length app] in Hat. rewrite !Z.add_0_l in Hat. destruct (lxor_one (zlen ps)) as [L1 L2]; [lia|].
    destruct He as [-> | ->]; unfold SQLITE_UTF16LE, SQLITE_UTF16BE in *.
    + replace (3 - 2 + 2 * zlen ps) with (1 + 2 * zlen ps) by lia. rewrite L2.
      cbn [Z.land Pos.land] in *. by rewrite Z.add_0_r in Hat.
    + replace (3 - 3 + 2 * zlen ps) with (2 * zlen ps) by lia. rewrite L1. exact Hat.
Qed.

(** ** Round trip *)

Lemma span_app P a b : Forall (λ c, P c = true) a → stops P b → span P (a ++ b) = (a, b).
Proof.
  intros Ha Hb. induction Ha as [|c a Hc Ha IH]; cbn [app span].
  - destruct b as [|c b]; [done|]. cbn in *. by rewrite Hb.
  - by rewrite Hc, IH.
Qed.

Lemma digits_Forall ds : digits ds → Forall (λ c, digit c = true) ds.
Proof. intros H. eapply Forall_impl; [exact H|]. intros c. apply digit_iff. Qed.

Lemma digits_bytes ds : digits ds → bytes ds.
Proof. intros H. eapply Forall_impl; [exact H|]. cbn. intros. lia. Qed.

Lemma int_text_bytes v : SMALLEST_INT64 ≤ v ≤ LARGEST_INT64 → bytes (int_text v).
Proof.
  unfold SMALLEST_INT64, LARGEST_INT64, int_text. intros Hv. case_cmp; [by repeat constructor|].
  apply bytes_app. split; [case_cmp; [by repeat constructor|constructor]|].
  apply digits_bytes, dec_text_spec. cbn. lia.
Qed.

(** Digits that start with [c0] are parsed as a number. *)
Lemma atoi64_spec_digits neg ds rest :
  digits ds → ds ≠ [] → stops digit rest →
  let v := dec_val ds in
  let base := if forallb space rest then 0 else 1 in
  atoi64_spec false ((if neg : bool then [45] else []) ++ ds ++ rest) =
    (if 2 ^ 63 <? v then 2 else if v =? 2 ^ 63 then (if neg then base else 3) else base,
     clamp64 (if neg then - v else v)).
Proof.
  intros Hds Hne Hst. cbv zeta. unfold atoi64_spec.
  assert (stops space ((if neg then [45] else []) ++ ds ++ rest) ∧
    int_sign ((if neg then [45] else []) ++ ds ++ rest) = (neg, ds ++ rest)) as [H1 H2].
  { destruct neg; [done|]. destruct ds as [|d ds]; [done|]. cbn [app stops].
    inversion Hds as [|? ? Hd _]; subst. split.
    - unfold space. repeat case_cmp; try lia; done.
    - apply int_sign_none; lia. }
  assert (span space ((if neg then [45] else []) ++ ds ++ rest) =
    ([], (if neg then [45] else []) ++ ds ++ rest)) as ->.
  { apply (span_app space []); [constructor|done]. }
  cbn [snd]. rewrite H2, (span_app digit ds rest) by (done || by apply digits_Forall).
  destruct ds; [done|]. done.
Qed.

(** Printing and reading back is the identity: for every 64-bit integer the
    text that [sqlite3Int64ToText] writes (in bounds of both buffers and NUL
    terminated) has at most twenty characters, and [sqlite3Atoi64] converts it
    back with return code 0. The build without 64-bit divisions writes the same
    digits. *)
Theorem Int64ToText_Atoi64 u_a v zOut :
  SMALLEST_INT64 ≤ v ≤ LARGEST_INT64 → zlen u_a = 21 → 21 ≤ zlen zOut →
  ∃ s rest, sqlite3Int64ToText u_a v zOut = Some (s ++ 0 :: rest, zlen s) ∧ zlen s ≤ 20 ∧
    zlen (s ++ 0 :: rest) = zlen zOut ∧
    sqlite3Atoi64 (s ++ 0 :: rest) (zlen s) SQLITE_UTF8 = Some (0, v) ∧
    (0 < v → ∃ pre, sqlite3UInt64ToText v u_a = Some (pre ++ s ++ [0], zlen pre)).
Proof.
  intros Hv Hu Hz. destruct (Int64ToText_correct u_a v zOut Hv Hu Hz) as (rest & E & Hl).
  exists (int_text v), rest. split; [done|].
  pose proof (int_text_bytes v Hv) as Hb. unfold SMALLEST_INT64, LARGEST_INT64 in Hv.
  destruct (dec_text_spec 20 (Z.abs v)) as (Hds & Hval & Hlen & Hhd); [cbn; lia|].
  split; [|split; [done|split]].
  - unfold int_text. case_cmp; [cbn; lia|]. case_cmp; [|cbn [app]; lia].
    destruct (dec_text_spec 19 (Z.abs v)) as (_ & _ & Hlen' & _); [cbn; lia|].
    rewrite (dec_text_fuel 20 19) by (cbn; lia). cbn [app length]. lia.
  - unfold sqlite3Atoi64. cbn [Z.eqb SQLITE_UTF8 Pos.eqb].
    rewrite (atoi64_body_correct _ _ _ _ _ (int_text v)); [|exact (at_chars_bytes [] (int_text v) (0 :: rest))|done|lia|lia].
    f_equal. unfold int_text. case_cmp; [by subst v|].
    pose proof (atoi64_spec_digits (v <? 0) (dec_text 20 (Z.abs v)) []) as Hs.
    rewrite app_nil_r in Hs. rewrite Hs; [|done| |done].
    2: { intros E0. rewrite E0 in Hval. cbn in Hval. lia. }
    rewrite Hval. cbn [forallb]. unfold clamp64, SMALLEST_INT64, LARGEST_INT64.
    case_cmp; case_cmp; case_cmp; try lia; f_equal; lia.
  - intros Hpos. destruct (UInt64ToText_correct v u_a) as (pre & Ep & _); [lia|done|].
    exists pre. rewrite Ep. unfold int_text. case_cmp; [lia|]. case_cmp; [lia|].
    by rewrite Z.abs_eq by lia.
Qed.

(** ** 32-bit integers *)

Lemma zeros_loop_correct fuel z p pre zs rest :
  z = pre ++ zs ++ rest → p = zlen pre → Forall (λ c, (48 =? c) = true) zs →
  (∃ c l, rest = c :: l ∧ c ≠ 48) → (length zs < fuel)%nat →
  zeros_loop fuel z p = Some (p + zlen zs).
Proof.
  intros -> -> Hzs (c & l & -> & Hc). revert pre fuel.
  induction zs as [|d zs IH]; intros pre fuel Hf; (destruct fuel as [|fuel]; [cbn in Hf; lia|]);
    cbn [zeros_loop app length].
  - rewrite rd_app_head. cbn [mbind option_bind]. case_cmp; [lia|]. f_equal. lia.
  - inversion Hzs as [|? ? Hd Hzs']; subst. apply Z.eqb_eq in Hd. subst d.
    rewrite rd_app_head. cbn [mbind option_bind Z.eqb Pos.eqb].
    specialize (IH Hzs' (pre ++ [48]) fuel). rewrite <- app_assoc in IH. cbn [app length] in IH, Hf.
    replace (zlen (pre ++ [48])) with (zlen pre + 1) in IH by len. rewrite IH by lia. f_equal. lia.
Qed.

(** Eleven digits are enough to see that a number is out of range. *)
Lemma dec11_loop_correct n pre ds c rest i v :
  digits ds → digit c = false → 0 ≤ c < 256 → 0 ≤ v → (v + 1) * 10 ^ Z.of_nat n ≤ 2 ^ 63 →
  ∃ i' v', dec11_loop n (pre ++ ds ++ c :: rest) (zlen pre - i) i v = Some (i', v') ∧
    (i' = i + Z.of_nat n ∧ (n ≤ length ds)%nat ∨
     i' = i + zlen ds ∧ (length ds < n)%nat ∧ v' = fold_left (λ v c, v * 10 + (c - 48)) ds v).
Proof.
  revert pre ds i v. induction n as [|n IH]; intros pre ds i v Hds Hc Hcb Hv Hb; cbn [dec11_loop].
  { exists i, v. split; [done|]. left. lia. }
  replace (zlen pre - i + i) with (zlen pre) by lia.
  destruct ds as [|d ds]; cbn [app].
  - rewrite rd_app_head. cbn [mbind option_bind]. unfold digit in Hc.
    assert ((0 <=? c - 48) && (c - 48 <=? 9) = false) as ->.
    { b2p. destruct Hc; b2p; repeat case_cmp; try lia; done. }
    exists i, v. split; [done|]. right. cbn. lia.
  - inversion Hds as [|? ? Hd Hds']; subst. rewrite rd_app_head. cbn [mbind option_bind].
    do 2 (case_cmp; [|lia]). cbn [andb].
    rewrite Nat2Z.inj_succ, Z.pow_succ_r in Hb by lia.
    assert (0 < 10 ^ Z.of_nat n) by (apply Z.pow_pos_nonneg; lia).
    assert (chk64 (v * 10 + (d - 48)) = Some (v * 10 + (d - 48))) as ->.
    { unfold chk64. destruct (in_i64_spec (v * 10 + (d - 48))) as [|Hn]; [done|].
      exfalso. apply Hn. unfold i64_range, SMALLEST_INT64, LARGEST_INT64. nia. }
    cbn [mbind option_bind].
    destruct (IH (pre ++ [d]) ds (i + 1) (v * 10 + (d - 48))) as (i' & v' & E & Hcase);
      [done|done|done|lia|nia|].
    rewrite <- app_assoc in E. cbn [app] in E.
    replace (zlen (pre ++ [d]) - (i + 1)) with (zlen pre - i) in E by len.
    exists i', v'. split; [done|]. cbn [length fold_left]. lia.
Qed.

(** A string of digits that is out of the range of eleven digits is large. *)
Lemma dec_val_large ds : digits ds → stops (Z.eqb 48) ds → (10 < length ds)%nat → 10 ^ 10 ≤ dec_val ds.
Proof.
  intros Hds Hst Hl. destruct ds as [|d ds]; [cbn in Hl; lia|].
  change ((48 =? d) = false) in Hst. apply Z.eqb_neq in Hst.
  inversion Hds as [|? ? Hd Hds']; subst. pose proof (dec_val_head d ds ltac:(lia) Hds').
  cbn [length] in Hl. assert (10 ^ 10 ≤ 10 ^ zlen ds) by (apply Z.pow_le_mono_r; lia). lia.
Qed.

(** The decimal tail of [sqlite3GetInt32], after the sign. *)
Lemma getint_dec pre ds c rest neg :
  digits ds → digit c = false → 0 ≤ c < 256 →
  (zNum ← zeros_loop (S (length (pre ++ ds ++ c :: rest))) (pre ++ ds ++ c :: rest) (zlen pre);
   '(i, v) ← dec11_loop 11 (pre ++ ds ++ c :: rest) zNum 0 0;
   if 10 <? i then Some None
   else if 2147483647 <? v - b2z neg then Some None
   else Some (Some (i32 (if neg : bool then - v else v)))) =
  Some (let v := if neg then - dec_val ds else dec_val ds in
        if (- 2 ^ 31 <=? v) && (v <? 2 ^ 31) then Some v else None).
Proof.
  intros Hds Hc Hcb. destruct (span_zeros ds Hds) as (zs & es & -> & Hzs & Hes & Hval & Hst).
  assert (c ≠ 48) as Hc48 by (intros ->; cbn in Hc; done).
  rewrite (zeros_loop_correct _ _ _ pre zs (es ++ c :: rest)); [|by rewrite <- app_assoc|done|done| |len].
  2: { destruct es as [|e es]; [by exists c, rest|]. exists e, (es ++ c :: rest). split; [done|].
       change ((48 =? e) = false) in Hst. apply Z.eqb_neq in Hst. lia. }
  cbn [mbind option_bind].
  replace (pre ++ (zs ++ es) ++ c :: rest) with ((pre ++ zs) ++ es ++ c :: rest) by by rewrite <- !app_assoc.
  destruct (dec11_loop_correct 11 (pre ++ zs) es c rest 0 0) as (i & v & E & Hcase); [done..|lia|lia|].
  replace (zlen (pre ++ zs) - 0) with (zlen pre + zlen zs) in E by len. rewrite E.
  cbn [mbind option_bind]. rewrite Hval. cbv zeta.
  pose proof (dec_fold_bound es 0 Hes) as Hb. fold (dec_val es) in Hb.
  destruct Hcase as [[-> Hl]|(-> & Hl & ->)].
  - pose proof (dec_val_large es Hes Hst ltac:(lia)). destruct neg; repeat case_cmp; try lia; done.
  - fold (dec_val es). rewrite Z.add_0_l. case_cmp.
    + pose proof (dec_val_large es Hes Hst ltac:(lia)). destruct neg; repeat case_cmp; try lia; done.
    + destruct neg; unfold b2z; repeat case_cmp; cbn [andb]; try lia; try done;
        by rewrite i32_id by lia.
Qed.

(** Hexadecimal text. *)
Definition hex_digit (c : Z) : Z := if c <=? 57 then c - 48 else if c <=? 70 then c - 55 else c - 87.
Definition hex_val (hs : list Z) : Z := fold_left (λ v c, v * 16 + hex_digit c) hs 0.
Definition xdigits (hs : list Z) : Prop := Forall (λ c, 0 ≤ c < 256 ∧ xdigit c = true) hs.

Lemma HexToInt_correct c :
  0 ≤ c < 256 → xdigit c = true → sqlite3HexToInt c = hex_digit c ∧ 0 ≤ hex_digit c < 16.
Proof.
  intros Hc Hx.
  pose proof (range_all (λ c, negb (xdigit c) || ((sqlite3HexToInt c =? hex_digit c) &&
    (0 <=? hex_digit c) && (hex_digit c <? 16))) 0 256 ltac:(vm_compute; reflexivity) c ltac:(lia)) as H.
  cbv beta in H. rewrite Hx in H. cbn [negb orb] in H. b2p. lia.
Qed.

Lemma hex_digit_pos c : 0 ≤ c < 256 → xdigit c = true → c ≠ 48 → 1 ≤ hex_digit c.
Proof.
  intros Hc Hx Hn.
  pose proof (range_all (λ c, negb (xdigit c) || (c =? 48) || (1 <=? hex_digit c)) 0 256
    ltac:(vm_compute; reflexivity) c ltac:(lia)) as H.
  cbv beta in H. rewrite Hx in H. apply Z.eqb_neq in Hn. rewrite Hn in H. cbn [negb orb] in H. b2p. lia.
Qed.

Lemma hex_fold_bound hs v :
  xdigits hs →
  v * 16 ^ zlen hs ≤ fold_left (λ v c, v * 16 + hex_digit c) hs v < (v + 1) * 16 ^ zlen hs.
Proof.
  revert v. induction hs as [|c hs IH]; intros v H; [cbn; lia|].
  inversion H as [|? ? [Hc Hx] Hs]; subst. cbn [fold_left length].
  destruct (HexToInt_correct c Hc Hx) as [_ Hr].
  rewrite Nat2Z.inj_succ, Z.pow_succ_r by lia.
  specialize (IH (v * 16 + hex_digit c) Hs). assert (0 < 16 ^ zlen hs) by (apply Z.pow_pos_nonneg; lia). nia.
Qed.

Lemma span_zeros_hex hs :
  xdigits hs →
  ∃ zs es, hs = zs ++ es ∧ Forall (λ c, (48 =? c) = true) zs ∧ xdigits es ∧
    hex_val hs = hex_val es ∧ stops (Z.eqb 48) es.
Proof.
  induction 1 as [|c cs Hc H IH].
  - exists [], []. by repeat split; try constructor.
  - destruct (Z.eq_dec c 48) as [->|Hne].
    + destruct IH as (zs & ds & -> & Hz & Hd & Hv & Hst). exists (48 :: zs), ds.
      split; [done|]. split; [by constructor|]. done.
    + exists [], (c :: cs). split; [done|]. split; [constructor|]. split; [by constructor|].
      split; [done|]. change ((48 =? c) = false). apply Z.eqb_neq. lia.
Qed.

Lemma hex8_loop_correct n pre hs c rest i v :
  xdigits hs → xdigit c = false → 0 ≤ c < 256 → 0 ≤ v → (v + 1) * 16 ^ Z.of_nat n ≤ 2 ^ 32 →
  hex8_loop n (pre ++ hs ++ c :: rest) (zlen pre - i) i v =
    Some (i + Z.min (Z.of_nat n) (zlen hs),
          fold_left (λ v c, v * 16 + hex_digit c) (take n hs) v).
Proof.
  revert pre hs i v. induction n as [|n IH]; intros pre hs i v Hhs Hc Hcb Hv Hb; cbn [hex8_loop].
  { rewrite take_0. f_equal. f_equal. lia. }
  replace (zlen pre - i + i) with (zlen pre) by lia.
  destruct hs as [|h hs]; cbn [app].
  - rewrite rd_app_head. cbn [mbind option_bind]. rewrite Isxdigit_byte, Hc by done.
    cbn [take fold_left length]. f_equal. f_equal. lia.
  - inversion Hhs as [|? ? [Hh Hx] Hhs']; subst. rewrite rd_app_head. cbn [mbind option_bind].
    rewrite Isxdigit_byte, Hx by done. destruct (HexToInt_correct h Hh Hx) as [-> Hr].
    rewrite Nat2Z.inj_succ, Z.pow_succ_r in Hb by lia.
    assert (0 < 16 ^ Z.of_nat n) by (apply Z.pow_pos_nonneg; lia).
    rewrite u32_id by nia.
    pose proof (IH (pre ++ [h]) hs (i + 1) (v * 16 + hex_digit h) Hhs' Hc Hcb ltac:(lia) ltac:(nia)) as E.
    rewrite <- app_assoc in E. cbn [app] in E.
    replace (zlen (pre ++ [h]) - (i + 1)) with (zlen pre - i) in E by len.
    rewrite E. cbn [take fold_left length]. f_equal. f_equal. lia.
Qed.

Lemma land_top32 u : 0 ≤ u < 2 ^ 32 → Z.land u 0x80000000 = if u <? 2 ^ 31 then 0 else 2 ^ 31.
Proof.
  intros Hu. change 0x80000000 with (Z.shiftl 1 31). apply Z.bits_inj'. intros i Hi.
  rewrite Z.land_spec, shiftl_bit by lia.
  destruct (Z.eq_dec i 31) as [->|Hne].
  - change (Z.testbit 1 (31 - 31)) with true. change ((0 <=? 31) && (31 <=? 31)) with true.
    rewrite andb_true_r, (Z.testbit_eqb u) by lia.
    destruct (Z.ltb_spec u (2 ^ 31)).
    + change (Z.testbit 0 31) with false. apply Z.eqb_neq. zdm.
    + change (Z.testbit (2 ^ 31) 31) with true. apply Z.eqb_eq. zdm.
  - replace (Z.testbit 1 (i - 31)) with false.
    + rewrite !andb_false_r. case_cmp; [by rewrite Z.bits_0|].
      change (2 ^ 31) with (Z.shiftl 1 31). rewrite shiftl_bit by lia.
      destruct (Z.ltb_spec i 31); [by rewrite Z.testbit_neg_r, andb_false_r by lia|].
      destruct (i - 31) as [|p|p] eqn:E; [lia|by rewrite !andb_false_r|lia].
    + destruct (i - 31) as [|p|p] eqn:E; [lia|done|done].
Qed.

Definition int32_of (v : Z) : option Z := if (- 2 ^ 31 <=? v) && (v <? 2 ^ 31) then Some v else None.

Lemma getint_decimal sg neg ds c rest :
  (sg = [] ∧ neg = false ∧ c ≠ 120 ∧ c ≠ 88 ∨ sg = [43] ∧ neg = false ∨ sg = [45] ∧ neg = true) →
  digits ds → ds ≠ [] → digit c = false → 0 ≤ c < 256 →
  sqlite3GetInt32 (sg ++ ds ++ c :: rest) = Some (int32_of (if neg : bool then - dec_val ds else dec_val ds)).
Proof.
  intros Hsg Hds Hne Hc Hcb. unfold int32_of.
  pose proof (getint_dec sg ds c rest neg Hds Hc Hcb) as Hd. cbv zeta in Hd.
  destruct ds as [|d ds]; [done|]. inversion Hds as [|? ? Hdd Hds']; subst.
  assert (sqlite3Isdigit d = true) as Hdig by (rewrite Isdigit_byte by lia; by apply digit_iff).
  unfold sqlite3GetInt32.
  destruct Hsg as [(-> & -> & Hx)|[(-> & ->)|(-> & ->)]]; cbn [app length] in *.
  - change ((d :: ds ++ c :: rest).[0]) with (Some d). cbn [mbind option_bind].
    destruct (Z.eqb_spec d 45); [lia|]. destruct (Z.eqb_spec d 43); [lia|]. cbn [orb].
    assert ((if d =? 48 then c1 ← (d :: ds ++ c :: rest).[1];
        if (c1 =? 120) || (c1 =? 88) then c2 ← (d :: ds ++ c :: rest).[2]; Some (sqlite3Isxdigit c2) else Some false
      else Some false) = Some false) as ->.
    { case_cmp; [|done]. destruct ds as [|d1 ds]; cbn [app].
      - change ((d :: c :: rest).[1]) with (Some c). cbn [mbind option_bind].
        do 2 (case_cmp; [lia|]). done.
      - inversion Hds' as [|? ? Hd1 _]; subst.
        change ((48 :: d1 :: ds ++ c :: rest).[1]) with (Some d1). cbn [mbind option_bind].
        do 2 (case_cmp; [lia|]). done. }
    cbn [mbind option_bind]. change ((d :: ds ++ c :: rest).[0]) with (Some d). cbn [mbind option_bind].
    rewrite Hdig. cbn [negb]. exact Hd.
  - change ((43 :: d :: ds ++ c :: rest).[0]) with (Some 43).
    cbn [mbind option_bind Z.eqb Pos.eqb orb].
    change ((43 :: d :: ds ++ c :: rest).[1]) with (Some d). cbn [mbind option_bind].
    rewrite Hdig. cbn [negb]. exact Hd.
  - change ((45 :: d :: ds ++ c :: rest).[0]) with (Some 45).
    cbn [mbind option_bind Z.eqb Pos.eqb orb].
    change ((45 :: d :: ds ++ c :: rest).[1]) with (Some d). cbn [mbind option_bind].
    rewrite Hdig. cbn [negb]. exact Hd.
Qed.

Lemma getint_hex x hs c rest :
  x = 120 ∨ x = 88 → xdigits hs → hs ≠ [] → xdigit c = false → 0 ≤ c < 256 →
  sqlite3GetInt32 (48 :: x :: hs ++ c :: rest) =
    Some (if hex_val hs <? 2 ^ 31 then Some (hex_val hs) else None).
Proof.
  intros Hx Hhs Hne Hc Hcb. unfold sqlite3GetInt32.
  change ((48 :: x :: hs ++ c :: rest).[0]) with (Some 48).
  change ((48 :: x :: hs ++ c :: rest).[1]) with (Some x).
  cbn [mbind option_bind Z.eqb Pos.eqb orb].
  assert ((x =? 120) || (x =? 88) = true) as -> by (destruct Hx; subst; done).
  destruct hs as [|h hs']; [done|]. inversion Hhs as [|? ? [Hh Hhx] Hhs']; subst.
  change ((48 :: x :: (h :: hs') ++ c :: rest).[2]) with (Some h). cbn [mbind option_bind].
  rewrite Isxdigit_byte, Hhx by done.
  destruct (span_zeros_hex (h :: hs')) as (zs & es & E & Hzs & Hes & Hval & Hst); [done|].
  rewrite E in *. clear E Hne Hhs Hhs' Hh Hhx.
  assert (c ≠ 48) as Hc48 by (intros ->; cbn in Hc; done).
  change (48 :: x :: (zs ++ es) ++ c :: rest) with ([48; x] ++ (zs ++ es) ++ c :: rest).
  rewrite (zeros_loop_correct _ _ 2 [48; x] zs (es ++ c :: rest)); [|by rewrite <- app_assoc|done|done| |len].
  2: { destruct es as [|e es]; [by exists c, rest|]. exists e, (es ++ c :: rest). split; [done|].
       change ((48 =? e) = false) in Hst. apply Z.eqb_neq in Hst. lia. }
  cbn [mbind option_bind].
  replace ([48; x] ++ (zs ++ es) ++ c :: rest) with (([48; x] ++ zs) ++ es ++ c :: rest)
    by (by rewrite <- !app_assoc).
  pose proof (hex8_loop_correct 8 ([48; x] ++ zs) es c rest 0 0 Hes Hc Hcb ltac:(lia) ltac:(lia)) as E8.
  replace (zlen ([48; x] ++ zs) - 0) with (2 + zlen zs) in E8 by len. rewrite E8.
  cbn [mbind option_bind]. rewrite Hval.
  assert (xdigits (take 8 es)) as Ht by (by apply Forall_take).
  pose proof (hex_fold_bound (take 8 es) 0 Ht) as Hb.
  assert (16 ^ zlen (take 8 es) ≤ 16 ^ 8) by (apply Z.pow_le_mono_r; [lia|]; rewrite length_take; lia).
  set (u := fold_left _ (take 8 es) 0) in *. rewrite land_top32 by lia.
  destruct (Nat.le_gt_cases (length es) 8) as [Hl|Hl].
  - assert (u = hex_val es) as Hu by (subst u; by rewrite take_ge by lia).
    rewrite <- Hu. destruct (Z.ltb_spec u (2 ^ 31)); [|done]. cbn [Z.eqb].
    replace (2 + zlen zs + (0 + Z.min (Z.of_nat 8) (zlen es))) with (zlen (([48; x] ++ zs) ++ es)) by len.
    rewrite app_assoc, rd_app_head. cbn [mbind option_bind].
    rewrite Isxdigit_byte, Hc by done. cbn [negb]. by rewrite i32_id by lia.
  - assert (2 ^ 31 ≤ hex_val es) as Hbig.
    { destruct es as [|e es]; [cbn in Hl; lia|].
      change ((48 =? e) = false) in Hst. apply Z.eqb_neq in Hst.
      inversion Hes as [|? ? [He Hex] Hes']; subst. destruct (HexToInt_correct e He Hex) as [_ Hr].
      pose proof (hex_digit_pos e He Hex ltac:(lia)).
      pose proof (hex_fold_bound es (hex_digit e) Hes') as Hf.
      unfold hex_val. cbn [fold_left]. rewrite Z.mul_0_l, Z.add_0_l.
      cbn [length] in Hl. assert (16 ^ 8 ≤ 16 ^ zlen es) by (apply Z.pow_le_mono_r; lia). nia. }
    destruct (Z.ltb_spec (hex_val es) (2 ^ 31)); [lia|].
    destruct (Z.ltb_spec u (2 ^ 31)); [|done]. cbn [Z.eqb].
    destruct (lookup_lt_is_Some_2 es 8) as [e He]; [lia|].
    assert ((([48; x] ++ zs) ++ es ++ c :: rest).[2 + zlen zs + (0 + Z.min (Z.of_nat 8) (zlen es))] = Some e) as ->.
    { rewrite rd_app_r by len. rewrite rd_app_l by len.
      replace (2 + zlen zs + (0 + Z.min (Z.of_nat 8) (zlen es)) - zlen ([48; x] ++ zs)) with (Z.of_nat 8) by len.
      by rewrite rd_nat. }
    cbn [mbind option_bind]. apply list_elem_of_lookup_2 in He.
    unfold xdigits in Hes. rewrite Forall_forall in Hes. destruct (Hes e He) as [He1 He2].
    by rewrite Isxdigit_byte, He2 by done.
Qed.

(** [sqlite3GetInt32] decides exactly whether the number at the start of its
    text fits in 32 bits, for decimal text with an optional sign and for
    hexadecimal text, with any number of leading zeros and any text after the
    number: it returns 1 and stores the value when it is in range (hexadecimal
    literals only below 2^31), and 0 otherwise. No intermediate sum overflows and
    no byte after the first one that ends the number is read. *)
Theorem GetInt32_correct sg neg ds c rest x hs :
  (sg = [] ∧ neg = false ∧ c ≠ 120 ∧ c ≠ 88 ∨ sg = [43] ∧ neg = false ∨ sg = [45] ∧ neg = true) →
  digits ds → ds ≠ [] → (x = 120 ∨ x = 88) → xdigits hs → hs ≠ [] →
  digit c = false → xdigit c = false → 0 ≤ c < 256 →
  sqlite3GetInt32 (sg ++ ds ++ c :: rest) = Some (int32_of (if neg : bool then - dec_val ds else dec_val ds)) ∧
  sqlite3GetInt32 (48 :: x :: hs ++ c :: rest) =
    Some (if hex_val hs <? 2 ^ 31 then Some (hex_val hs) else None).
Proof.
  intros Hsg Hds Hne Hx Hhs Hhne Hc Hxc Hcb. split.
  - by apply getint_decimal.
  - by apply getint_hex.
Qed.

Lemma uint32_loop_correct fuel pre ds c rest v :
  digits ds → digit c = false → 0 ≤ c < 256 → 0 ≤ v ≤ 2 ^ 32 → (length ds < fuel)%nat →
  uint32_loop fuel (pre ++ ds ++ c :: rest) (zlen pre) v =
    Some (let w := fold_left (λ v c, v * 10 + (c - 48)) ds v in
          if (w <=? 2 ^ 32) && negb (zlen pre + zlen ds =? 0) && (c =? 0) then (1, u32 w) else (0, 0)).
Proof.
  intros Hds Hc Hcb. revert pre v fuel. induction ds as [|d ds IH]; intros pre v fuel Hv Hf;
    (destruct fuel as [|fuel]; [lia|]); cbn [uint32_loop app].
  - rewrite rd_app_head. cbn [mbind option_bind]. rewrite Isdigit_byte, Hc by done.
    cbn [fold_left length]. rewrite Z.add_0_r. cbv zeta.
    destruct (Z.leb_spec v (2 ^ 32)); [|lia].
    destruct (Z.eqb_spec (zlen pre) 0), (Z.eqb_spec c 0); done.
  - inversion Hds as [|? ? Hd Hds']; subst. rewrite rd_app_head. cbn [mbind option_bind].
    rewrite Isdigit_byte by lia. apply digit_iff in Hd as ->. cbv zeta.
    inversion Hds as [|? ? Hd _]; subst.
    rewrite (u64_id (v * 10 + d)), u64_id by lia.
    replace (v * 10 + d - 48) with (v * 10 + (d - 48)) by lia. cbn [fold_left].
    pose proof (dec_fold_bound ds (v * 10 + (d - 48)) Hds') as Hb.
    assert (0 < 10 ^ zlen ds) by (apply Z.pow_pos_nonneg; lia). cbn [length] in Hf.
    destruct (Z.ltb_spec 4294967296 (v * 10 + (d - 48))).
    + assert (v * 10 + (d - 48) ≤ (v * 10 + (d - 48)) * 10 ^ zlen ds) by nia.
      destruct (Z.leb_spec (fold_left (λ v c, v * 10 + (c - 48)) ds (v * 10 + (d - 48))) (2 ^ 32)); [lia|done].
    + pose proof (IH Hds' (pre ++ [d]) (v * 10 + (d - 48)) fuel ltac:(lia) ltac:(lia)) as E.
      rewrite <- app_assoc in E. cbn [app] in E.
      replace (zlen (pre ++ [d])) with (zlen pre + 1) in E by len. rewrite E. cbv zeta.
      replace (zlen pre + 1 + zlen ds) with (zlen pre + zlen (d :: ds)) by (cbn [length]; lia). done.
Qed.

(** C40: [sqlite3GetUInt32] accepts exactly a non-empty string of digits, up to the
    terminator, whose value is at most 2^32, and stores the value modulo 2^32; every
    other text gives 0 and stores 0. So the text of 2^32 itself, which does not fit
    in 32 bits, is accepted as the number 0. *)
Theorem GetUInt32_correct ds c rest :
  digits ds → digit c = false → 0 ≤ c < 256 →
  sqlite3GetUInt32 (ds ++ c :: rest) =
    Some (if (dec_val ds <=? 2 ^ 32) && negb (zlen ds =? 0) && (c =? 0)
          then (1, dec_val ds mod 2 ^ 32) else (0, 0)).
Proof.
  intros Hds Hc Hcb. unfold sqlite3GetUInt32.
  exact (uint32_loop_correct (S (length (ds ++ c :: rest))) [] ds c rest 0 Hds Hc Hcb ltac:(lia) ltac:(len)).
Qed.

(** ** Hexadecimal 64-bit literals and blobs *)

Lemma u64_step v h : u64 (u64 v * 16 + h) = u64 (v * 16 + h).
Proof. unfold u64. rewrite Z.add_mod, Z.mul_mod_idemp_l, <- Z.add_mod by lia. done. Qed.

Lemma hex_loop_correct fuel pre hs c rest v :
  xdigits hs → xdigit c = false → 0 ≤ c < 256 → (length hs < fuel)%nat →
  hex_loop fuel (pre ++ hs ++ c :: rest) (zlen pre) (u64 v) =
    Some (zlen pre + zlen hs, u64 (fold_left (λ v c, v * 16 + hex_digit c) hs v)).
Proof.
  intros Hhs Hc Hcb. revert pre v fuel. induction hs as [|h hs IH]; intros pre v fuel Hf;
    (destruct fuel as [|fuel]; [lia|]); cbn [hex_loop app].
  - rewrite rd_app_head. cbn [mbind option_bind]. rewrite Isxdigit_byte, Hc by done.
    cbn [fold_left length]. by rewrite Z.add_0_r.
  - inversion Hhs as [|? ? [Hh Hx] Hhs']; subst. rewrite rd_app_head. cbn [mbind option_bind].
    rewrite Isxdigit_byte, Hx by done. destruct (HexToInt_correct h Hh Hx) as [-> Hr].
    rewrite u64_step. cbn [length] in Hf.
    pose proof (IH Hhs' (pre ++ [h]) (v * 16 + hex_digit h) fuel ltac:(lia)) as E.
    rewrite <- app_assoc in E. cbn [app] in E.
    replace (zlen (pre ++ [h])) with (zlen pre + 1) in E by len. rewrite E.
    cbn [fold_left length]. f_equal. f_equal. lia.
Qed.

Definition num_char (c : Z) : bool := bool_decide (c ∈ [43; 45; 32; 10; 9; 48; 49; 50; 51; 52; 53; 54; 55; 56; 57]).

Lemma strspn_correct a b rest :
  Forall (λ c, num_char c = true) a → stops num_char b →
  strspn (a ++ b ++ 0 :: rest) [43; 45; 32; 10; 9; 48; 49; 50; 51; 52; 53; 54; 55; 56; 57] = Some (zlen a).
Proof.
  intros Ha Hb. induction Ha as [|c a Hc Ha IH]; cbn [app].
  - destruct b as [|c b]; [done|]. cbn [app strspn stops] in *. unfold num_char in Hb. by rewrite Hb.
  - cbn [strspn]. unfold num_char in Hc. rewrite Hc, IH. cbn [mbind option_bind length]. f_equal. lia.
Qed.

(** [sqlite3DecOrHexToI64] on a hexadecimal literal stores the value of its
    digits modulo 2^64 as a signed integer and reports more than sixteen
    significant digits (2) or text after the digits (1); on any other NUL-terminated
    text it is [sqlite3Atoi64] on the leading run of signs, blanks and digits
    and one more character. *)
Theorem DecOrHexToI64_correct x hs c cs rest :
  (x = 120 ∨ x = 88) → xdigits hs → xdigit c = false → 0 ≤ c < 256 →
  text cs → (match cs with 48 :: x :: _ => x ≠ 120 ∧ x ≠ 88 | _ => True end) → zlen cs < 2 ^ 30 →
  (∃ es zs, hs = zs ++ es ∧ Forall (λ c, (48 =? c) = true) zs ∧ stops (Z.eqb 48) es ∧
     sqlite3DecOrHexToI64 (48 :: x :: hs ++ c :: rest) =
       Some (if 16 <? zlen es then 2 else if c =? 0 then 0 else 1, i64 (u64 (hex_val hs)))) ∧
  sqlite3DecOrHexToI64 (cs ++ 0 :: rest) =
    (let '(a, b) := span num_char cs in Some (atoi64_spec false (a ++ take 1 b))).
Proof.
  intros Hx Hhs Hc Hcb Hcs Hnx Hlen. split.
  - destruct (span_zeros_hex hs) as (zs & es & -> & Hzs & Hes & Hval & Hst); [done|].
    exists es, zs. do 3 (split; [done|]). unfold sqlite3DecOrHexToI64.
    change ((48 :: x :: (zs ++ es) ++ c :: rest).[0]) with (Some 48).
    change ((48 :: x :: (zs ++ es) ++ c :: rest).[1]) with (Some x).
    cbn [mbind option_bind Z.eqb Pos.eqb].
    assert ((x =? 120) || (x =? 88) = true) as -> by (destruct Hx; subst; done).
    assert (c ≠ 48) as Hc48 by (intros ->; cbn in Hc; done).
    change (48 :: x :: (zs ++ es) ++ c :: rest) with ([48; x] ++ (zs ++ es) ++ c :: rest).
    rewrite (zeros_loop_correct _ _ 2 [48; x] zs (es ++ c :: rest)); [|by rewrite <- app_assoc|done|done| |len].
    2: { destruct es as [|e es]; [by exists c, rest|]. exists e, (es ++ c :: rest). split; [done|].
         change ((48 =? e) = false) in Hst. apply Z.eqb_neq in Hst. lia. }
    cbn [mbind option_bind].
    replace ([48; x] ++ (zs ++ es) ++ c :: rest) with (([48; x] ++ zs) ++ es ++ c :: rest)
      by (by rewrite <- !app_assoc).
    pose proof (hex_loop_correct (S (length (([48; x] ++ zs) ++ es ++ c :: rest))) ([48; x] ++ zs) es c rest 0
      Hes Hc Hcb ltac:(len)) as E.
    replace (zlen ([48; x] ++ zs)) with (2 + zlen zs) in E by len. change (u64 0) with 0 in E. rewrite E.
    cbn [mbind option_bind]. rewrite Hval. fold (hex_val es).
    replace (2 + zlen zs + zlen es - (2 + zlen zs)) with (zlen es) by lia.
    destruct (Z.ltb_spec 16 (zlen es)); [done|].
    replace (2 + zlen zs + zlen es) with (zlen (([48; x] ++ zs) ++ es)) by len.
    rewrite app_assoc, rd_app_head. cbn [mbind option_bind]. by destruct (c =? 0).
  - pose proof (span_spec num_char cs) as Hsp. destruct (span num_char cs) as [a b] eqn:Esp.
    destruct Hsp as (E & Ha & Hb). unfold sqlite3DecOrHexToI64.
    assert (∃ c0, (cs ++ 0 :: rest).[0] = Some c0 ∧
      (if c0 =? 48 then c1 ← (cs ++ 0 :: rest).[1]; Some ((c1 =? 120) || (c1 =? 88)) else Some false)
        = Some false) as (c0 & -> & Hhex).
    { destruct cs as [|c0 cs]; [by exists 0|]. exists c0. split; [done|]. case_cmp; [|done]. subst c0.
      destruct cs as [|c1 cs]; [done|].
      change (((48 :: c1 :: cs) ++ 0 :: rest).[1]) with (Some c1). cbn [mbind option_bind].
      do 2 (case_cmp; [lia|]). done. }
    cbn [mbind option_bind] in *. rewrite Hhex. cbn [mbind option_bind].
    rewrite E, <- app_assoc, (strspn_correct a b rest) by done. cbn [mbind option_bind].
    rewrite E in Hlen. len_in Hlen. rewrite Z.land_comm. change 0x3fffffff with (Z.ones 30).
    rewrite Z.land_ones, Z.mod_small, i32_id by lia.
    rewrite E in Hcs. apply text_app in Hcs as [Hta Htb].
    assert (bytes (a ++ take 1 b)) as Hby.
    { apply bytes_app. split; [by apply text_bytes|]. apply Forall_take. by apply text_bytes. }
    unfold sqlite3Atoi64. cbn [Z.eqb SQLITE_UTF8 Pos.eqb].
    destruct b as [|d b]; cbn [app take] in *.
    + rewrite rd_app_head. cbn [mbind option_bind negb Z.eqb].
      apply atoi64_body_correct; [|done|lia|lia].
      pose proof (at_chars_bytes [] a (0 :: rest)) as Hat. by rewrite app_nil_r.
    + rewrite rd_app_head. cbn [mbind option_bind]. apply text_cons in Htb as [Hd _].
      destruct (Z.eqb_spec d 0); [lia|]. cbn [negb].
      apply atoi64_body_correct; [|done|lia|lia].
      pose proof (at_chars_bytes [] (a ++ [d]) (b ++ 0 :: rest)) as Hat.
      rewrite <- app_assoc in Hat. cbn [app length] in Hat.
      by replace (Z.of_nat 0 + zlen (a ++ [d])) with (zlen a + 1) in Hat by len.
Qed.

(** The characters of a hexadecimal blob literal, in pairs. *)
Definition pair_chars (l : list (Z * Z)) : list Z := l ≫= λ p, [fst p; snd p].

Lemma blob_loop_correct fuel pre l rest (done_ : list Z) todo n i :
  Forall (λ p : Z * Z, (0 ≤ fst p < 256 ∧ xdigit (fst p) = true) ∧ (0 ≤ snd p < 256 ∧ xdigit (snd p) = true)) l →
  i = zlen pre → i = 2 * zlen done_ → n = i + 2 * zlen l - 1 → zlen todo = zlen l + 1 → (length l ≤ fuel)%nat →
  blob_loop fuel (pre ++ pair_chars l ++ rest) (done_ ++ todo) n i =
    Some (done_ ++ map (λ p, 16 * hex_digit (fst p) + hex_digit (snd p)) l ++ drop (length l) todo,
          i + 2 * zlen l).
Proof.
  revert pre done_ todo n i fuel. induction l as [|[h k] l IH]; intros pre done_ todo n i fuel Hl Hi Hd Hn Ht Hf.
  - cbn [length map app] in *. destruct fuel; cbn [blob_loop]; (case_cmp; [lia|]);
      rewrite drop_0; f_equal; f_equal; lia.
  - cbn [length] in *. destruct fuel as [|fuel]; [lia|]. cbn [blob_loop]. case_cmp; [|lia].
    change (pair_chars ((h, k) :: l)) with (h :: k :: pair_chars l). cbn [app].
    inversion Hl as [|? ? [[Hh Hhx] [Hk Hkx]] Hl']; subst. cbn [fst snd] in *.
    rewrite rd_app_head. cbn [mbind option_bind].
    replace (pre ++ h :: k :: pair_chars l ++ rest) with ((pre ++ [h]) ++ k :: pair_chars l ++ rest)
      by (by rewrite <- app_assoc).
    replace (zlen pre + 1) with (zlen (pre ++ [h])) by len.
    rewrite rd_app_head. cbn [mbind option_bind].
    destruct (HexToInt_correct h Hh Hhx) as [-> Hrh]. destruct (HexToInt_correct k Hk Hkx) as [-> Hrk].
    rewrite Z.lor_comm, Z.shiftl_mul_pow2, lor_add by lia. rewrite u8_id by lia.
    destruct todo as [|t todo]; [cbn [length] in Ht; lia|]. cbn [length] in Ht.
    rewrite Hd. replace (Z.quot (2 * zlen done_) 2) with (zlen done_)
      by (rewrite Z.mul_comm, Z.quot_mul by lia; done).
    rewrite wr_in_bounds by len. cbn [mbind option_bind].
    replace (Z.to_nat (zlen done_)) with (length done_ + 0)%nat by lia. rewrite insert_app_r.
    cbn [insert list_insert drop length map].
    set (b := hex_digit k + hex_digit h * 2 ^ 4).
    pose proof (IH (pre ++ [h; k]) (done_ ++ [b]) todo (2 * zlen done_ + 2 * Z.of_nat (S (length l)) - 1)
      (2 * zlen done_ + 2) fuel Hl' ltac:(len) ltac:(len) ltac:(lia) ltac:(lia) ltac:(lia)) as E.
    rewrite <- !app_assoc in E. cbn [app] in E.
    replace ((pre ++ [h]) ++ k :: pair_chars l ++ rest) with (pre ++ h :: k :: pair_chars l ++ rest)
      by (by rewrite <- app_assoc).
    rewrite E. f_equal. f_equal; [|lia]. subst b. cbn [fst snd]. apply f_equal. apply (f_equal (λ x, x :: _)). lia.
Qed.

(** [sqlite3HexToBlob] decodes every even-length string of hexadecimal digits to
    the bytes it denotes, NUL-terminated, within the [n/2+1] bytes it allocates; when
    the allocation fails it returns the null pointer. *)
Theorem HexToBlob_correct l rest raw :
  Forall (λ p : Z * Z, (0 ≤ fst p < 256 ∧ xdigit (fst p) = true) ∧ (0 ≤ snd p < 256 ∧ xdigit (snd p) = true)) l →
  zlen raw = Z.quot (zlen (pair_chars l)) 2 + 1 →
  sqlite3HexToBlob (Some raw) (pair_chars l ++ rest) (zlen (pair_chars l)) =
    Some (Some (map (λ p, 16 * hex_digit (fst p) + hex_digit (snd p)) l ++ [0])) ∧
  sqlite3HexToBlob None (pair_chars l ++ rest) (zlen (pair_chars l)) = Some None.
Proof.
  intros Hl Hraw. split; [|done]. unfold sqlite3HexToBlob.
  assert (zlen (pair_chars l) = 2 * zlen l) as Hpl.
  { clear. induction l as [|[h k] l IH]; [done|].
    change (pair_chars ((h, k) :: l)) with (h :: k :: pair_chars l). cbn [length]. lia. }
  rewrite Hpl in *. replace (Z.quot (2 * zlen l) 2) with (zlen l) in Hraw
    by (rewrite Z.mul_comm, Z.quot_mul by lia; done).
  pose proof (blob_loop_correct (S (length (pair_chars l ++ rest))) [] l rest [] raw (2 * zlen l - 1) 0
    Hl ltac:(done) ltac:(done) ltac:(lia) ltac:(lia)) as E.
  cbn [app] in E. rewrite E by (len_in Hpl; len). cbn [mbind option_bind]. clear E.
  replace (Z.quot (0 + 2 * zlen l) 2) with (zlen l)
    by (rewrite Z.add_0_l, Z.mul_comm, Z.quot_mul by lia; done).
  assert (zlen (drop (length l) raw) = 1) as Hd by (rewrite length_drop; lia).
  destruct (drop (length l) raw) as [|t [|]]; [cbn in Hd; lia| |cbn in Hd; lia].
  set (bs := map _ l). assert (zlen bs = zlen l) as Hbs by (subst bs; by rewrite length_map).
  rewrite wr_in_bounds by len. cbn [mbind option_bind].
  replace (Z.to_nat (zlen l)) with (length bs + 0)%nat by lia. by rewrite insert_app_r.
Qed.

(** The text 12, carriage return, x: the one character after the leading run is a
    space, so the text after it is not reported. *)
Lemma DecOrHexToI64_hidden_text : sqlite3DecOrHexToI64 [49; 50; 13; 120; 0] = Some (0, 12).
Proof. vm_compute. reflexivity. Qed.

(** ** Witnesses *)

Lemma Atoi64_correct_witness :
  sqlite3Atoi64 ([32; 45; 49; 50; 120] ++ [0]) 5 SQLITE_UTF8 = Some (1, -12) ∧
  sqlite3Atoi64 (utf16 SQLITE_UTF16BE [43; 55; 256] ++ []) 7 SQLITE_UTF16BE = Some (1, 7).
Proof.
  apply (Atoi64_correct [32; 45; 49; 50; 120] [43; 55; 256] [0] SQLITE_UTF16BE 7);
    [repeat constructor; lia|repeat constructor; lia|by right|cbn; lia].
Defined.

Lemma Int64ToText_Atoi64_witness :
  ∃ s rest, sqlite3Int64ToText (replicate 21 7) SMALLEST_INT64 (replicate 21 9) = Some (s ++ 0 :: rest, zlen s) ∧
    zlen s ≤ 20 ∧ zlen (s ++ 0 :: rest) = zlen (replicate 21 9) ∧
    sqlite3Atoi64 (s ++ 0 :: rest) (zlen s) SQLITE_UTF8 = Some (0, SMALLEST_INT64) ∧
    (0 < SMALLEST_INT64 → ∃ pre, sqlite3UInt64ToText SMALLEST_INT64 (replicate 21 7) =
       Some (pre ++ s ++ [0], zlen pre)).
Proof.
  apply (Int64ToText_Atoi64 (replicate 21 7) SMALLEST_INT64 (replicate 21 9)); [|done|done].
  unfold SMALLEST_INT64, LARGEST_INT64. lia.
Defined.

Lemma GetInt32_correct_witness :
  sqlite3GetInt32 ([45] ++ [48; 50; 49; 52; 55; 52; 56; 51; 54; 52; 56] ++ 0 :: []) = Some (Some (-2147483648)) ∧
  sqlite3GetInt32 (48 :: 120 :: [56; 48; 48; 48; 48; 48; 48; 48] ++ 0 :: []) = Some None.
Proof.
  apply (GetInt32_correct [45] true [48; 50; 49; 52; 55; 52; 56; 51; 54; 52; 56] 0 [] 120
    [56; 48; 48; 48; 48; 48; 48; 48]); [by right; right|repeat constructor; lia|done|by left| |done|done|done|lia].
  repeat constructor; lia.
Defined.

Lemma GetUInt32_correct_witness :
  sqlite3GetUInt32 ([52; 50; 57; 52; 57; 54; 55; 50; 57; 54] ++ 0 :: []) = Some (1, 0).
Proof.
  apply (GetUInt32_correct [52; 50; 57; 52; 57; 54; 55; 50; 57; 54] 0 []); [|done|lia].
  repeat constructor; lia.
Defined.

Lemma DecOrHexToI64_correct_witness :
  (∃ es zs, [48; 70] = zs ++ es ∧ Forall (λ c, (48 =? c) = true) zs ∧ stops (Z.eqb 48) es ∧
     sqlite3DecOrHexToI64 (48 :: 120 :: [48; 70] ++ 0 :: []) =
       Some (if 16 <? zlen es then 2 else if 0 =? 0 then 0 else 1, i64 (u64 (hex_val [48; 70])))) ∧
  sqlite3DecOrHexToI64 ([45; 53] ++ 0 :: []) = Some (0, -5).
Proof.
  apply (DecOrHexToI64_correct 120 [48; 70] 0 [45; 53] []); [by left| |done|lia| |done|cbn; lia];
    repeat constructor; lia.
Defined.

Lemma HexToBlob_correct_witness :
  sqlite3HexToBlob (Some (replicate 3 9)) (pair_chars [(49, 70); (97, 48)] ++ [39]) 4 = Some (Some ([31; 160] ++ [0])) ∧
  sqlite3HexToBlob None (pair_chars [(49, 70); (97, 48)] ++ [39]) 4 = Some None.
Proof.
  apply (HexToBlob_correct [(49, 70); (97, 48)] [39] (replicate 3 9)); [|done].
  repeat constructor; cbn; lia.
Defined.
