(* ===== verification/MemJournal.v ===== *)
(** * The in-memory rollback journal (memjournal.c)

    The chunks are heap objects linked through their [pNext] pointers; reading a
    freed or null pointer has no result.  The VFS that holds the real file after a
    spill is not part of this program: it is an instance of the class [Vfs], whose
    operations have the results the interface documents. *)
From S2P Require Import Prelude.

Definition SQLITE_IOERR_NOMEM : Z := 3082.
Definition SQLITE_OPEN_MAIN_JOURNAL : Z := 0x800.

(** ** Objects *)

Abbreviation loc := nat.

Record FileChunk := mkChunk { pNext : option loc; zChunk : list Z }.

Definition MEMJOURNAL_DFLT_FILECHUNKSIZE : Z := 1024.
Definition sizeof_FileChunk : Z := 16.
Definition fileChunkSize (nChunkSize : Z) : Z := sizeof_FileChunk + (nChunkSize - 8).

Record FilePoint := mkPoint { iOffset : Z; fp_chunk : option loc }.

Record MemJournal := mkJournal {
  nChunkSize : Z;
  nSpill : Z;
  pFirst : option loc;
  endpoint : FilePoint;
  readpoint : FilePoint;
  jflags : Z;
  zJournal : Z;
}.

(** The heap of chunks and the allocator. [undef] is what a new chunk holds. *)
Record heap := mkHeap { chunks : gmap loc FileChunk; alloc : mem; undef : Z }.

Definition new_chunk (n : Z) (h : heap) : option loc * heap :=
  let '(ok, m) := sqlite3Malloc (alloc h) in
  if ok then
    let l := fresh (dom (chunks h)) in
    (Some l, mkHeap (<[l := mkChunk None (replicate (Z.to_nat n) (undef h))]> (chunks h)) m (undef h))
  else (None, mkHeap (chunks h) m (undef h)).

Definition set_next (l : loc) (p : option loc) (h : heap) : option heap :=
  c ← chunks h !! l;
  Some (mkHeap (<[l := mkChunk p (zChunk c)]> (chunks h)) (alloc h) (undef h)).

(** [memcpy] into the content of a chunk. *)
Definition copy_to (l : loc) (off : Z) (zs : list Z) (h : heap) : option heap :=
  c ← chunks h !! l;
  if (0 <=? off) && (off + zlen zs <=? zlen (zChunk c)) then
    Some (mkHeap (<[l := mkChunk (pNext c)
      (take (Z.to_nat off) (zChunk c) ++ zs ++ drop (Z.to_nat off + length zs) (zChunk c))]> (chunks h))
      (alloc h) (undef h))
  else None.

(** [memcpy] out of a chunk. *)
Definition copy_from (c : FileChunk) (off n : Z) : option (list Z) :=
  if (0 <=? off) && (0 <=? n) && (off + n <=? zlen (zChunk c)) then
    Some (take (Z.to_nat n) (drop (Z.to_nat off) (zChunk c)))
  else None.

(** A bound on the number of steps along a list. *)
Definition steps (h : heap) : nat := S (size (chunks h)).

(** ** The VFS *)

Class Vfs (F : Type) := {
  os_open : Z → Z → Z * F;                 (* zName, flags *)
  os_read : F → Z → Z → Z * list Z;        (* amount, offset *)
  os_write : F → list Z → Z → Z * F;
  os_truncate : F → Z → Z * F;
  os_fileSize : F → Z * Z;
  os_close : F → F;
}.

(** ** Reading *)

(** [for(pChunk=p->pFirst; ALWAYS(pChunk) && (iOff+nChunkSize)<=iOfst; pChunk=pChunk->pNext)] *)
Fixpoint read_walk (fuel : nat) (h : heap) (n iOfst iOff : Z) (pChunk : option loc) : option (option loc) :=
  match fuel with
  | O => None
  | S fuel' =>
      match pChunk with
      | None => Some None
      | Some l =>
          if iOff + n <=? iOfst then
            c ← chunks h !! l; read_walk fuel' h n iOfst (iOff + n) (pNext c)
          else Some pChunk
      end
  end.

(** The [do]-loop; [zOut] is what has been copied so far. *)
Fixpoint read_loop (fuel : nat) (h : heap) (n : Z) (pChunk : option loc) (iChunkOffset nRead : Z)
    (zOut : list Z) : option (list Z * option loc) :=
  match fuel with
  | O => None
  | S fuel' =>
      l ← pChunk;
      c ← chunks h !! l;
      let iSpace := n - iChunkOffset in
      let nCopy := Z.min nRead (n - iChunkOffset) in
      zs ← copy_from c iChunkOffset nCopy;
      let zOut := zOut ++ zs in
      let nRead := nRead - iSpace in
      if 0 <=? nRead then
        match pNext c with
        | None => Some (zOut, None)
        | Some l' => if 0 <? nRead then read_loop fuel' h n (Some l') 0 nRead zOut else Some (zOut, Some l')
        end
      else Some (zOut, Some l)
  end.

(** The return code, the bytes read and the journal. *)
Definition memjrnlRead (h : heap) (p : MemJournal) (iAmt iOfst : Z) : option (Z * list Z * MemJournal) :=
  if iOffset (endpoint p) <? iAmt + iOfst then Some (SQLITE_IOERR_SHORT_READ, [], p)
  else
    pChunk ← (if negb (iOffset (readpoint p) =? iOfst) || (iOfst =? 0)
              then read_walk (steps h) h (nChunkSize p) iOfst 0 (pFirst p)
              else Some (fp_chunk (readpoint p)));
    let iChunkOffset := Z.rem iOfst (nChunkSize p) in
    '(zOut, pChunk) ← read_loop (steps h) h (nChunkSize p) pChunk iChunkOffset iAmt [];
    let rp := mkPoint (match pChunk with Some _ => iOfst + iAmt | None => 0 end) pChunk in
    Some (SQLITE_OK, zOut,
      mkJournal (nChunkSize p) (nSpill p) (pFirst p) (endpoint p) rp (jflags p) (zJournal p)).

(** ** Freeing *)

Fixpoint memjrnlFreeChunks (fuel : nat) (h : heap) (pFirst : option loc) : option heap :=
  match pFirst with
  | None => Some h
  | Some l =>
      match fuel with
      | O => None
      | S fuel' =>
          c ← chunks h !! l;
          memjrnlFreeChunks fuel' (mkHeap (delete l (chunks h)) (sqlite3_free (alloc h)) (undef h)) (pNext c)
      end
  end.

(** ** Truncating *)

(** [for(pIter=p->pFirst; ALWAYS(pIter) && iOff<size; pIter=pIter->pNext)] *)
Fixpoint trunc_walk (fuel : nat) (h : heap) (n size iOff : Z) (pIter : option loc) : option (option loc) :=
  match fuel with
  | O => None
  | S fuel' =>
      match pIter with
      | None => Some None
      | Some l =>
          if iOff <? size then
            c ← chunks h !! l; trunc_walk fuel' h n size (iOff + n) (pNext c)
          else Some pIter
      end
  end.

Definition memjrnlTruncate (h : heap) (p : MemJournal) (size : Z) : option (heap * MemJournal) :=
  if size <? iOffset (endpoint p) then
    '(h, pFirst, pIter) ←
      (if size =? 0 then
         h ← memjrnlFreeChunks (steps h) h (pFirst p);
         Some (h, None, None)
       else
         pIter ← trunc_walk (steps h) h (nChunkSize p) size (nChunkSize p) (pFirst p);
         match pIter with
         | None => Some (h, pFirst p, None)
         | Some l =>
             c ← chunks h !! l;
             h ← memjrnlFreeChunks (steps h) h (pNext c);
             h ← set_next l None h;
             Some (h, pFirst p, Some l)
         end);
    Some (h, mkJournal (nChunkSize p) (nSpill p) pFirst (mkPoint size pIter) (mkPoint 0 None)
               (jflags p) (zJournal p))
  else Some (h, p).

(** ** Writing *)

(** [while( nWrite>0 )]; the result of an allocation failure keeps what has been
    written. *)
Fixpoint write_loop (fuel : nat) (h : heap) (p : MemJournal) (zWrite : list Z) : option (Z * heap * MemJournal) :=
  if 0 <? zlen zWrite then
    match fuel with
    | O => None
    | S fuel' =>
        let pChunk := fp_chunk (endpoint p) in
        let iChunkOffset := Z.rem (iOffset (endpoint p)) (nChunkSize p) in
        let iSpace := Z.min (zlen zWrite) (nChunkSize p - iChunkOffset) in
        let copy h (p : MemJournal) pChunk :=
          l ← pChunk;
          h ← copy_to l iChunkOffset (take (Z.to_nat iSpace) zWrite) h;
          write_loop fuel' h
            (mkJournal (nChunkSize p) (nSpill p) (pFirst p)
               (mkPoint (iOffset (endpoint p) + iSpace) pChunk) (readpoint p) (jflags p) (zJournal p))
            (drop (Z.to_nat iSpace) zWrite) in
        if iChunkOffset =? 0 then
          let '(pNew, h) := new_chunk (nChunkSize p) h in
          match pNew with
          | None => Some (SQLITE_IOERR_NOMEM, h, p)
          | Some _ =>
              '(h, pFirst) ←
                (match pChunk with
                 | Some l => h ← set_next l pNew h; Some (h, pFirst p)
                 | None => Some (h, pNew)
                 end);
              copy h (mkJournal (nChunkSize p) (nSpill p) pFirst (endpoint p) (readpoint p)
                        (jflags p) (zJournal p)) pNew
          end
        else copy h p pChunk
    end
  else Some (SQLITE_OK, h, p).

Section vfs.
Context {F : Type} `{Vfs F}.

(** A file handle: the journal object, or the real file that took its place. *)
Inductive sqlite3_file :=
  | InMemory (p : MemJournal)
  | RealFile (f : F).

(** The copying loop of the spill. *)
Fixpoint spill_loop (fuel : nat) (h : heap) (pReal : F) (endOffset nChunk iOff : Z) (pIter : option loc)
    : option (Z * F) :=
  match pIter with
  | None => Some (SQLITE_OK, pReal)
  | Some l =>
      match fuel with
      | O => None
      | S fuel' =>
          c ← chunks h !! l;
          let nChunk := if endOffset <? iOff + nChunk then endOffset - iOff else nChunk in
          zs ← copy_from c 0 nChunk;
          let '(rc, pReal) := os_write pReal zs iOff in
          if negb (rc =? SQLITE_OK) then Some (rc, pReal)
          else spill_loop fuel' h pReal endOffset nChunk (iOff + nChunk) (pNext c)
      end
  end.

Definition memjrnlCreateFile (h : heap) (copy : MemJournal) : option (Z * heap * sqlite3_file) :=
  let '(rc, pReal) := os_open (zJournal copy) (jflags copy) in
  if rc =? SQLITE_OK then
    '(rc, pReal) ← spill_loop (steps h) h pReal (iOffset (endpoint copy)) (nChunkSize copy) 0 (pFirst copy);
    if rc =? SQLITE_OK then
      h ← memjrnlFreeChunks (steps h) h (pFirst copy);
      Some (rc, h, RealFile pReal)
    else
      let _closed := os_close pReal in
      Some (rc, h, InMemory copy)
  else
    let _closed := os_close pReal in
    Some (rc, h, InMemory copy).

Definition memjrnlWrite (h : heap) (p : MemJournal) (zBuf : list Z) (iOfst : Z)
    : option (Z * heap * sqlite3_file) :=
  let iAmt := zlen zBuf in
  if (0 <? nSpill p) && (nSpill p <? iAmt + iOfst) then
    '(rc, h, fd) ← memjrnlCreateFile h p;
    if rc =? SQLITE_OK then
      match fd with
      | RealFile f => let '(rc, f) := os_write f zBuf iOfst in Some (rc, h, RealFile f)
      | InMemory p => None
      end
    else Some (rc, h, fd)
  else
    '(h, p) ← (if (0 <? iOfst) && negb (iOfst =? iOffset (endpoint p))
               then memjrnlTruncate h p iOfst else Some (h, p));
    match pFirst p with
    | Some l =>
        if iOfst =? 0 then
          h ← copy_to l 0 zBuf h; Some (SQLITE_OK, h, InMemory p)
        else '(rc, h, p) ← write_loop (length zBuf) h p zBuf; Some (rc, h, InMemory p)
    | None => '(rc, h, p) ← write_loop (length zBuf) h p zBuf; Some (rc, h, InMemory p)
    end.

Definition memjrnlClose (h : heap) (p : MemJournal) : option heap := memjrnlFreeChunks (steps h) h (pFirst p).

Definition memjrnlSync (p : MemJournal) (sflags : Z) : Z := SQLITE_OK.

Definition memjrnlFileSize (p : MemJournal) : Z := iOffset (endpoint p).

(** The blank handle is zeroed first; a positive [nSpill] is also the chunk size. *)
Definition sqlite3JournalOpen (zName flags spill : Z) : Z * sqlite3_file :=
  if spill =? 0 then let '(rc, f) := os_open zName flags in (rc, RealFile f)
  else
    let n := if 0 <? spill then spill else 8 + MEMJOURNAL_DFLT_FILECHUNKSIZE - sizeof_FileChunk in
    (SQLITE_OK, InMemory (mkJournal n spill None (mkPoint 0 None) (mkPoint 0 None) flags zName)).

Definition sqlite3MemJournalOpen : sqlite3_file := snd (sqlite3JournalOpen 0 0 (-1)).

(** [batch] tells whether the build has SQLITE_ENABLE_BATCH_ATOMIC_WRITE. *)
Definition sqlite3JournalCreate (batch : bool) (h : heap) (fd : sqlite3_file) : option (Z * heap * sqlite3_file) :=
  match fd with
  | InMemory p =>
      if (0 <? nSpill p) || batch && negb (Z.land (jflags p) SQLITE_OPEN_MAIN_JOURNAL =? 0)
      then memjrnlCreateFile h p else Some (SQLITE_OK, h, fd)
  | RealFile _ => Some (SQLITE_OK, h, fd)
  end.

(** The method table: a call on the handle reaches the journal or the VFS. *)
Inductive op :=
  | XRead (iAmt iOfst : Z)
  | XWrite (zBuf : list Z) (iOfst : Z)
  | XTruncate (size : Z)
  | XFileSize.

Definition MemJournalMethods (h : heap) (fd : sqlite3_file) (o : op)
    : option (Z * list Z * heap * sqlite3_file) :=
  match fd, o with
  | InMemory p, XRead iAmt iOfst =>
      '(rc, zOut, p) ← memjrnlRead h p iAmt iOfst; Some (rc, zOut, h, InMemory p)
  | InMemory p, XWrite zBuf iOfst => '(rc, h, fd) ← memjrnlWrite h p zBuf iOfst; Some (rc, [], h, fd)
  | InMemory p, XTruncate size => '(h, p) ← memjrnlTruncate h p size; Some (SQLITE_OK, [], h, InMemory p)
  | InMemory p, XFileSize => Some (SQLITE_OK, [memjrnlFileSize p], h, fd)
  | RealFile f, XRead iAmt iOfst => let '(rc, zOut) := os_read f iAmt iOfst in Some (rc, zOut, h, fd)
  | RealFile f, XWrite zBuf iOfst => let '(rc, f) := os_write f zBuf iOfst in Some (rc, [], h, RealFile f)
  | RealFile f, XTruncate size => let '(rc, f) := os_truncate f size in Some (rc, [], h, RealFile f)
  | RealFile f, XFileSize => let '(rc, n) := os_fileSize f in Some (rc, [n], h, fd)
  end.

Definition sqlite3JournalIsInMemory (fd : sqlite3_file) : bool :=
  match fd with InMemory _ => true | RealFile _ => false end.
End vfs.
Arguments sqlite3_file F : clear implicits.
