(* ===== verification/MemJournalProofs.v ===== *)
(** * The in-memory journal: proofs

    The journal implements a file: [mj_rep] relates the heap of chunks and the two
    cursors to the byte string they store, every operation acts on that string, and
    spilling to a real file is invisible. *)
From S2P Require Import Prelude MemJournal.

(** ** Linked chunks *)

(** A list segment from [p] to [q], with the content of each chunk. *)
Fixpoint seg (m : gmap loc FileChunk) (p : option loc) (cs : list (loc * list Z)) (q : option loc) : Prop :=
  match cs with
  | [] => p = q
  | (l, z) :: cs => p = Some l ∧ ∃ nx, m !! l = Some (mkChunk nx z) ∧ seg m nx cs q
  end.

Lemma seg_app m p a b q : seg m p (a ++ b) q ↔ ∃ r, seg m p a r ∧ seg m r b q.
Proof.
  revert p. induction a as [|[l z] a IH]; intros p; cbn [app seg].
  - split; [intros H; by exists p|by intros (r & -> & H)].
  - split.
    + intros (-> & nx & Hl & H). apply IH in H as (r & H1 & H2). exists r. split; [|done].
      split; [done|]. by exists nx.
    + intros (r & (-> & nx & Hl & H1) & H2). split; [done|]. exists nx. split; [done|].
      apply IH. by exists r.
Qed.

Lemma seg_head m p cs : seg m p cs None → p = head cs.*1.
Proof. destruct cs as [|[l z] cs]; [done|]. by intros [-> _]. Qed.

Lemma seg_frame m m' p cs q :
  (∀ l, l ∈ cs.*1 → m' !! l = m !! l) → seg m p cs q → seg m' p cs q.
Proof.
  revert p. induction cs as [|[l z] cs IH]; intros p Hm H; [done|].
  destruct H as (-> & nx & Hl & H). split; [done|]. exists nx. split.
  - rewrite Hm; [done|]. cbn. apply list_elem_of_here.
  - apply IH; [|done]. intros l' Hl'. apply Hm. cbn. by apply list_elem_of_further.
Qed.

Lemma seg_elem m p cs q l : seg m p cs q → l ∈ cs.*1 → is_Some (m !! l).
Proof.
  revert p. induction cs as [|[l' z] cs IH]; intros p H Hl; cbn in Hl; [by apply not_elem_of_nil in Hl|].
  destruct H as (_ & nx & Hl' & H). apply elem_of_cons in Hl as [->|Hl]; [by eexists|by eapply IH].
Qed.

Lemma seg_steps h p cs q : seg (chunks h) p cs q → NoDup cs.*1 → (length cs < steps h)%nat.
Proof.
  intros H Hnd. unfold steps.
  assert ((list_to_set cs.*1 : gset loc) ⊆ dom (chunks h)) as Hsub.
  { intros l Hl. apply elem_of_list_to_set in Hl. apply elem_of_dom. by eapply seg_elem. }
  apply subseteq_size in Hsub. rewrite size_list_to_set, length_fmap, size_dom in Hsub by done. lia.
Qed.

(** ** Walking *)

Lemma read_walk_correct fuel h n p cs iOfst iOff :
  seg (chunks h) p cs None → 0 < n → iOff ≤ iOfst → (length cs < fuel)%nat →
  read_walk fuel h n iOfst iOff p = Some (cs.*1 !! Z.to_nat ((iOfst - iOff) / n)).
Proof.
  revert p iOff fuel. induction cs as [|[l z] cs IH]; intros p iOff fuel H Hn Ho Hf;
    (destruct fuel as [|fuel]; [cbn in Hf; lia|]); cbn [read_walk].
  - cbn in H. subst p. done.
  - destruct H as (-> & nx & Hl & H). cbn [length] in Hf. case_cmp.
    + rewrite Hl. cbn [mbind option_bind zChunk MemJournal.pNext].
      rewrite (IH nx (iOff + n) fuel) by (done || lia). f_equal.
      assert ((iOfst - iOff) / n = 1 + (iOfst - (iOff + n)) / n) as ->.
      { replace (iOfst - iOff) with ((iOfst - (iOff + n)) + 1 * n) by lia. rewrite Z.div_add by lia. lia. }
      rewrite Z2Nat.inj_add by (try lia; apply Z.div_pos; lia). done.
    + rewrite Z.div_small by lia. done.
Qed.

Lemma trunc_walk_correct fuel h n p cs size iOff :
  seg (chunks h) p cs None → 0 < n → iOff - n < size → (length cs < fuel)%nat →
  trunc_walk fuel h n size iOff p = Some (cs.*1 !! Z.to_nat ((size - 1 - (iOff - n)) / n)).
Proof.
  revert p iOff fuel. induction cs as [|[l z] cs IH]; intros p iOff fuel H Hn Ho Hf;
    (destruct fuel as [|fuel]; [cbn in Hf; lia|]); cbn [trunc_walk].
  - cbn in H. subst p. done.
  - destruct H as (-> & nx & Hl & H). cbn [length] in Hf. case_cmp.
    + rewrite Hl. cbn [mbind option_bind zChunk MemJournal.pNext].
      rewrite (IH nx (iOff + n) fuel) by (done || lia). f_equal.
      assert ((size - 1 - (iOff - n)) / n = 1 + (size - 1 - (iOff + n - n)) / n) as ->.
      { replace (size - 1 - (iOff - n)) with ((size - 1 - (iOff + n - n)) + 1 * n) by lia.
        rewrite Z.div_add by lia. lia. }
      rewrite Z2Nat.inj_add by (try lia; apply Z.div_pos; lia). done.
    + rewrite Z.div_small by lia. done.
Qed.

(** The bytes of a list of chunks. *)
Definition flat (cs : list (loc * list Z)) : list Z := concat cs.*2.

Definition sized (n : Z) (cs : list (loc * list Z)) : Prop := Forall (λ c, zlen c.2 = n) cs.

Lemma flat_length n cs : sized n cs → zlen (flat cs) = n * zlen cs.
Proof.
  unfold flat. induction 1 as [|[l z] cs Hz H IH]; cbn; [lia|]. cbn in Hz. rewrite length_app. lia.
Qed.

Lemma copy_from_ok c off n :
  0 ≤ off → 0 ≤ n → off + n ≤ zlen (zChunk c) →
  copy_from c off n = Some (take (Z.to_nat n) (drop (Z.to_nat off) (zChunk c))).
Proof. intros. unfold copy_from. do 3 (case_cmp; [|lia]). done. Qed.

Lemma take_drop_within (z r : list Z) (off k : nat) :
  (off + k ≤ length z)%nat → take k (drop off (z ++ r)) = take k (drop off z).
Proof. intros. rewrite drop_app_le by lia. rewrite take_app_le; [done|]. rewrite length_drop. lia. Qed.

Lemma take_drop_across (z r : list Z) (off k : nat) :
  (off ≤ length z)%nat → (length z ≤ off + k)%nat →
  take k (drop off (z ++ r)) = drop off z ++ take (k - (length z - off)) r.
Proof.
  intros. rewrite drop_app_le by lia. rewrite take_app_ge by (rewrite length_drop; lia).
  by rewrite length_drop.
Qed.

Lemma read_loop_correct fuel h n p cs off nRead zOut :
  seg (chunks h) p cs None → sized n cs → 0 ≤ off < n → 0 < nRead → off + nRead ≤ n * zlen cs →
  (length cs < fuel)%nat →
  read_loop fuel h n p off nRead zOut =
    Some (zOut ++ take (Z.to_nat nRead) (drop (Z.to_nat off) (flat cs)),
          cs.*1 !! Z.to_nat ((off + nRead) / n)).
Proof.
  revert p off nRead zOut fuel. induction cs as [|[l z] cs IH]; intros p off nRead zOut fuel H Hs Ho Hr Hb Hf;
    [cbn in Hb; lia|]. destruct fuel as [|fuel]; [cbn in Hf; lia|]. cbn [length] in Hf, Hb.
  rewrite Nat2Z.inj_succ, Z.mul_succ_r in Hb.
  destruct H as (-> & nx & Hl & H). apply Forall_cons in Hs as [Hz Hs']. cbn in Hz.
  cbn [read_loop mbind option_bind]. rewrite Hl. cbn [mbind option_bind].
  rewrite copy_from_ok by (cbn [zChunk]; lia). cbn [mbind option_bind zChunk MemJournal.pNext].
  change (flat ((l, z) :: cs)) with (z ++ flat cs).
  destruct (Z.leb_spec 0 (nRead - (n - off))).
  - rewrite Z.min_r by lia.
    rewrite (take_drop_across z) by lia.
    rewrite (take_ge (drop (Z.to_nat off) z)) by (rewrite length_drop; lia).
    assert ((off + nRead) / n = 1 + (nRead - (n - off)) / n) as Hidx.
    { replace (off + nRead) with ((nRead - (n - off)) + 1 * n) by lia. rewrite Z.div_add by lia. lia. }
    rewrite Hidx, Z2Nat.inj_add by (try lia; apply Z.div_pos; lia). cbn [fmap list_fmap].
    change (Z.to_nat 1) with 1%nat. cbn [Nat.add lookup list_lookup fst].
    pose proof (seg_head _ _ _ H) as Hnx.
    destruct (Z.eq_dec (nRead - (n - off)) 0) as [E|E].
    + rewrite E, Z.div_0_l by lia. change (Z.to_nat 0) with 0%nat.
      replace (Z.to_nat nRead - (length z - Z.to_nat off))%nat with 0%nat by lia. rewrite take_0, app_nil_r.
      destruct cs as [|[l' z'] cs]; cbn in Hnx; subst nx; done.
    + destruct cs as [|[l' z'] cs]; [cbn in Hb; lia|]. cbn in Hnx. subst nx.
      destruct (Z.ltb_spec 0 (nRead - (n - off))); [|lia].
      rewrite (IH (Some l') 0 (nRead - (n - off))) by (done || lia).
      rewrite Z.add_0_l. change (Z.to_nat 0) with 0%nat. rewrite drop_0, <- app_assoc.
      by replace (Z.to_nat nRead - (length z - Z.to_nat off))%nat with (Z.to_nat (nRead - (n - off))) by lia.
  - rewrite Z.min_l by lia. rewrite take_drop_within by lia.
    rewrite Z.div_small by lia. done.
Qed.

(** ** Freeing *)

Lemma free_chunks_correct fuel h p cs :
  seg (chunks h) p cs None → NoDup cs.*1 → (length cs < fuel)%nat →
  ∃ h', memjrnlFreeChunks fuel h p = Some h' ∧
    (∀ l, chunks h' !! l = if bool_decide (l ∈ cs.*1) then None else chunks h !! l) ∧
    live (alloc h') = live (alloc h) - zlen cs ∧ oom (alloc h') = oom (alloc h) ∧ undef h' = undef h.
Proof.
  revert h p fuel. induction cs as [|[l z] cs IH]; intros h p fuel H Hnd Hf.
  - cbn in H. subst p. destruct fuel; cbn; exists h; (split; [done|]); (split; [done|]); split; [lia|done|lia|done].
  - destruct H as (-> & nx & Hl & H). cbn [length] in Hf. destruct fuel as [|fuel]; [lia|].
    cbn [memjrnlFreeChunks]. rewrite Hl. cbn [mbind option_bind MemJournal.pNext].
    cbn in Hnd. apply NoDup_cons in Hnd as [Hnin Hnd].
    destruct (IH (mkHeap (delete l (chunks h)) (sqlite3_free (alloc h)) (undef h)) nx fuel)
      as (h' & E & Hlk & Hlv & Ho & Hu); [|done|lia|].
    + cbn [chunks]. eapply seg_frame; [|exact H]. intros l' Hl'. apply lookup_delete_ne. set_solver.
    + exists h'. split; [exact E|]. split; [|cbn in *; split; [lia|done]].
      intros l'. rewrite Hlk. cbn [chunks fmap list_fmap fst].
      repeat case_bool_decide; try done.
      * exfalso. set_solver.
      * assert (l' = l) as -> by set_solver. by apply lookup_delete_eq.
      * apply lookup_delete_ne. set_solver.
Qed.

(** ** The representation *)

(** The heap holds exactly the chunks [cs] of the journal. *)
Record shape (h : heap) (p : MemJournal) (cs : list (loc * list Z)) : Prop := {
  sh_seg : seg (chunks h) (pFirst p) cs None;
  sh_nodup : NoDup cs.*1;
  sh_dom : dom (chunks h) = list_to_set cs.*1;
  sh_live : live (alloc h) = zlen cs;
  sh_size : 0 < nChunkSize p;
  sh_sized : sized (nChunkSize p) cs;
  sh_end : fp_chunk (endpoint p) = last cs.*1;
  sh_off : 0 ≤ iOffset (endpoint p) ≤ nChunkSize p * zlen cs;
  sh_read : iOffset (readpoint p) = 0 ∨
    0 < iOffset (readpoint p) ≤ iOffset (endpoint p) ∧
    is_Some (fp_chunk (readpoint p)) ∧
    fp_chunk (readpoint p) = cs.*1 !! Z.to_nat (iOffset (readpoint p) / nChunkSize p);
}.

(** Every chunk but the last is full, and the last one is not empty. *)
Definition tight (p : MemJournal) (cs : list (loc * list Z)) : Prop :=
  cs = [] ∨ nChunkSize p * (zlen cs - 1) < iOffset (endpoint p).

Definition bytes_of (p : MemJournal) (cs : list (loc * list Z)) : list Z :=
  take (Z.to_nat (iOffset (endpoint p))) (flat cs).

Definition mj_rep (h : heap) (p : MemJournal) (content : list Z) : Prop :=
  ∃ cs, shape h p cs ∧ tight p cs ∧ content = bytes_of p cs.

Lemma mj_rep_size h p content : mj_rep h p content → zlen content = iOffset (endpoint p).
Proof.
  intros (cs & Hsh & _ & ->). unfold bytes_of. rewrite length_take.
  pose proof (flat_length _ _ (sh_sized _ _ _ Hsh)). destruct (sh_off _ _ _ Hsh). lia.
Qed.

(** What the operations keep of the header fields. *)
Definition same_header (p p' : MemJournal) : Prop :=
  nChunkSize p' = nChunkSize p ∧ nSpill p' = nSpill p ∧ jflags p' = jflags p ∧ zJournal p' = zJournal p.

Lemma read_correct h p content iAmt iOfst :
  mj_rep h p content → 0 < iAmt → 0 ≤ iOfst →
  if iOfst + iAmt <=? zlen content then
    ∃ p', memjrnlRead h p iAmt iOfst =
        Some (SQLITE_OK, take (Z.to_nat iAmt) (drop (Z.to_nat iOfst) content), p') ∧
      mj_rep h p' content ∧ same_header p p'
  else memjrnlRead h p iAmt iOfst = Some (SQLITE_IOERR_SHORT_READ, [], p).
Proof.
  intros Hrep Ha Ho. pose proof (mj_rep_size _ _ _ Hrep) as Hsz. destruct Hrep as (cs & Hsh & Ht & ->).
  unfold memjrnlRead. destruct (Z.leb_spec (iOfst + iAmt) (zlen (bytes_of p cs))).
  2: { by destruct (Z.ltb_spec (iOffset (endpoint p)) (iAmt + iOfst)); [|lia]. }
  destruct (Z.ltb_spec (iOffset (endpoint p)) (iAmt + iOfst)); [lia|].
  set (n := nChunkSize p). assert (0 < n) as Hn by apply (sh_size _ _ _ Hsh).
  pose proof (sh_seg _ _ _ Hsh) as Hseg. pose proof (sh_nodup _ _ _ Hsh) as Hnd.
  pose proof (sh_sized _ _ _ Hsh) as Hs. fold n in Hs.
  pose proof (flat_length _ _ Hs) as Hfl. pose proof (sh_off _ _ _ Hsh) as Hoff. fold n in Hoff.
  pose proof (seg_steps h (pFirst p) cs None Hseg Hnd) as Hsteps.
  set (k := Z.to_nat (iOfst / n)).
  pose proof (Z.div_pos iOfst n ltac:(lia) ltac:(lia)) as Hkp.
  assert ((if negb (iOffset (readpoint p) =? iOfst) || (iOfst =? 0)
      then read_walk (steps h) h n iOfst 0 (pFirst p) else Some (fp_chunk (readpoint p)))
      = Some (cs.*1 !! k)) as ->.
  { destruct (Z.eqb_spec iOfst 0), (Z.eqb_spec (iOffset (readpoint p)) iOfst); cbn [negb orb];
      try (rewrite (read_walk_correct _ _ _ _ cs) by (done || lia); by rewrite Z.sub_0_r).
    destruct (sh_read _ _ _ Hsh) as [E|(_ & _ & E)]; [lia|]. rewrite E. by subst k n iOfst. }
  cbn [mbind option_bind]. rewrite Z.rem_mod_nonneg by lia.
  pose proof (Z.mod_pos_bound iOfst n ltac:(lia)) as Hm.
  pose proof (Z.div_mod iOfst n ltac:(lia)) as Hdm.
  assert (iOfst / n < zlen cs) as Hklt by nia.
  destruct (seg_app (chunks h) (pFirst p) (take k cs) (drop k cs) None) as [Hsplit _].
  rewrite take_drop in Hsplit. destruct (Hsplit Hseg) as (r & Hs1 & Hs2). clear Hsplit.
  assert (cs.*1 !! k = r) as ->.
  { pose proof (seg_head _ _ _ Hs2) as ->. rewrite fmap_drop. rewrite head_lookup, lookup_drop. f_equal. lia. }
  assert (zlen (drop k cs) = zlen cs - iOfst / n) as Hdl by (rewrite length_drop; lia).
  rewrite (read_loop_correct _ _ n _ (drop k cs)); [|done|by apply Forall_drop|lia|lia|nia|rewrite length_drop; lia].
  cbn [mbind option_bind app]. rewrite fmap_drop, lookup_drop.
  set (iEnd := iOfst + iAmt).
  assert ((k + Z.to_nat ((iOfst mod n + iAmt) / n))%nat = Z.to_nat (iEnd / n)) as ->.
  { subst iEnd k. rewrite Hdm at 3. replace (n * (iOfst / n) + iOfst mod n + iAmt)
      with ((iOfst mod n + iAmt) + (iOfst / n) * n) by lia.
    rewrite Z.div_add by lia. pose proof (Z.div_pos (iOfst mod n + iAmt) n ltac:(lia) ltac:(lia)). lia. }
  assert (take (Z.to_nat iAmt) (drop (Z.to_nat (iOfst mod n)) (flat (drop k cs))) =
    take (Z.to_nat iAmt) (drop (Z.to_nat iOfst) (bytes_of p cs))) as ->.
  { unfold bytes_of. rewrite skipn_firstn_comm, firstn_firstn.
    rewrite Nat.min_l by lia.
    assert (flat cs = flat (take k cs) ++ flat (drop k cs)) as Hfs.
    { unfold flat. rewrite <- concat_app, <- fmap_app, take_drop. done. }
    pose proof (flat_length n (take k cs) ltac:(by apply Forall_take)) as Hlt.
    rewrite length_take in Hlt.
    rewrite Hfs, drop_app_ge by nia. do 2 f_equal. nia. }
  eexists. split; [done|]. split; [|done].
  exists cs. split; [|done]. destruct Hsh. constructor; try done. cbn [readpoint iOffset fp_chunk nChunkSize].
  destruct (cs.*1 !! Z.to_nat (iEnd / n)) as [l|] eqn:El; [right|by left].
  split; [subst iEnd; cbn; lia|]. split; [done|]. exact (eq_sym El).
Qed.

(** ** Truncating *)

Lemma dom_split (a b : list (loc * list Z)) l z :
  NoDup (a ++ (l, z) :: b).*1 →
  l ∉ a.*1 ∧ l ∉ b.*1 ∧ (∀ x, x ∈ a.*1 → x ∉ b.*1) ∧ NoDup a.*1 ∧ NoDup b.*1.
Proof.
  rewrite fmap_app. cbn [fmap list_fmap fst]. intros (Ha & Hab & Hlb)%NoDup_app.
  apply NoDup_cons in Hlb as [Hl Hb]. split; [|split; [done|split; [|done]]].
  - intros Hin. apply (Hab l Hin). apply list_elem_of_here.
  - intros x Hx Hxb. apply (Hab x Hx). by apply list_elem_of_further.
Qed.

Lemma truncate_correct h p content size :
  mj_rep h p content → 0 ≤ size →
  ∃ h' p', memjrnlTruncate h p size = Some (h', p') ∧ mj_rep h' p' (take (Z.to_nat size) content) ∧
    same_header p p' ∧ oom (alloc h') = oom (alloc h).
Proof.
  intros Hrep Hsz. pose proof (mj_rep_size _ _ _ Hrep) as Hlen. unfold memjrnlTruncate.
  destruct (Z.ltb_spec size (iOffset (endpoint p))).
  2: { exists h, p. split; [done|]. rewrite take_ge by lia. done. }
  destruct Hrep as (cs & Hsh & Ht & ->).
  set (n := nChunkSize p). assert (0 < n) as Hn by apply (sh_size _ _ _ Hsh).
  pose proof (sh_seg _ _ _ Hsh) as Hseg. pose proof (sh_nodup _ _ _ Hsh) as Hnd.
  pose proof (sh_off _ _ _ Hsh) as Hoff. fold n in Hoff.
  pose proof (seg_steps h (pFirst p) cs None Hseg Hnd) as Hsteps.
  destruct (Z.eqb_spec size 0) as [->|Hne].
  - destruct (free_chunks_correct (steps h) h (pFirst p) cs Hseg Hnd Hsteps) as (h' & E & Hlk & Hlv & Ho & _).
    rewrite E. cbn [mbind option_bind]. eexists h', _. split; [done|]. split; [|done].
    exists []. split; [|split; [by left|]].
    + constructor; cbn; try done; try lia.
      * apply NoDup_nil_2.
      * apply set_eq. intros l. rewrite elem_of_dom, Hlk, elem_of_empty.
        case_bool_decide; [split; [by intros []|done]|]. split; [|done].
        intros Hs. apply elem_of_dom in Hs. rewrite (sh_dom _ _ _ Hsh), elem_of_list_to_set in Hs. done.
      * pose proof (sh_live _ _ _ Hsh). lia.
      * by left.
    + unfold bytes_of. cbn. done.
  - fold n. rewrite (trunc_walk_correct _ _ n _ cs) by (done || lia). cbn [mbind option_bind].
    replace (size - 1 - (n - n)) with (size - 1) by lia.
    pose proof (Z.div_pos (size - 1) n ltac:(lia) ltac:(lia)) as Hkp.
    assert ((size - 1) / n < zlen cs) as Hk by (apply Z.div_lt_upper_bound; lia).
    pose proof (Z.div_mod (size - 1) n ltac:(lia)) as Hdm.
    pose proof (Z.mod_pos_bound (size - 1) n ltac:(lia)) as Hmb.
    set (k := Z.to_nat ((size - 1) / n)) in *.
    destruct (lookup_lt_is_Some_2 cs k) as [[l z] Hlz]; [lia|].
    rewrite list_lookup_fmap, Hlz. cbn [fmap option_fmap option_map fst].
    destruct (list_elem_of_split_length cs k (l, z) Hlz) as (a & b & Ecs & Hka). subst cs.
    apply seg_app in Hseg as (r & Ha & Hb). cbn [seg] in Hb. destruct Hb as (-> & nx & Hl & Hb).
    destruct (dom_split a b l z Hnd) as (Hla & Hlb & Hab & Hnda & Hndb).
    rewrite Hl. cbn [mbind option_bind MemJournal.pNext].
    destruct (free_chunks_correct (steps h) h nx b Hb Hndb) as (h' & E & Hlk & Hlv & Ho & Hu); [len_in Hsteps; lia|].
    rewrite E. cbn [mbind option_bind]. unfold set_next. rewrite Hlk.
    rewrite bool_decide_eq_false_2 by done. rewrite Hl. cbn [mbind option_bind zChunk].
    eexists _, _. split; [done|]. split; [|done].
    assert (zlen a = (size - 1) / n) as Hza by lia.
    exists (a ++ [(l, z)]). split; [|split].
    + constructor; cbn [chunks alloc pFirst nChunkSize endpoint readpoint fp_chunk iOffset].
      * apply seg_app. exists (Some l). split.
        -- eapply seg_frame; [|exact Ha]. intros x Hx. rewrite lookup_insert_ne by set_solver.
           rewrite Hlk. rewrite bool_decide_eq_false_2; [done|]. by apply Hab.
        -- cbn [seg]. split; [done|]. exists None. rewrite lookup_insert_eq. done.
      * rewrite fmap_app. apply NoDup_app. split; [done|]. cbn. split; [set_solver|]. apply NoDup_singleton.
      * apply set_eq. intros x. rewrite dom_insert, elem_of_union, elem_of_singleton, elem_of_dom, Hlk.
        rewrite fmap_app, list_to_set_app. cbn [fmap list_fmap fst list_to_set].
        case_bool_decide as Hxb.
        -- split; [intros [->|[]]; [set_solver|done]|]. intros Hx. exfalso. set_solver.
        -- rewrite <- elem_of_dom, (sh_dom _ _ _ Hsh), fmap_app, list_to_set_app. cbn [fmap list_fmap fst list_to_set].
           set_solver.
      * pose proof (sh_live _ _ _ Hsh) as Hlive. len_in Hlive. len.
      * done.
      * pose proof (sh_sized _ _ _ Hsh) as Hs. unfold sized in *. rewrite Forall_app, Forall_cons in Hs.
        rewrite Forall_app, Forall_singleton. tauto.
      * rewrite fmap_app. cbn [fmap list_fmap fst]. by rewrite last_snoc.
      * fold n. rewrite length_app. cbn [length]. nia.
      * by left.
    + right. cbn [nChunkSize endpoint iOffset]. fold n. rewrite length_app. cbn [length]. nia.
    + unfold bytes_of. cbn [endpoint iOffset]. rewrite take_take, Nat.min_l by lia.
      unfold flat. rewrite !fmap_app, !concat_app. cbn [fmap list_fmap snd concat app]. rewrite app_nil_r.
      rewrite (app_assoc _ z). rewrite take_app_le; [done|].
      pose proof (flat_length n (a ++ [(l, z)])) as Hfl. unfold flat in Hfl.
      rewrite fmap_app, concat_app in Hfl. cbn [fmap list_fmap snd concat app] in Hfl. rewrite app_nil_r in Hfl.
      assert (sized n (a ++ [(l, z)])) as Hs'.
      { pose proof (sh_sized _ _ _ Hsh) as Hs. unfold sized in *. rewrite Forall_app, Forall_cons in Hs.
        rewrite Forall_app, Forall_singleton. tauto. }
      specialize (Hfl Hs'). rewrite (length_app a) in Hfl. cbn [length] in Hfl. nia.
Qed.

(** ** Writing *)

(** Overwriting [zs] at [off] in the content [z] of one chunk. *)
Definition patch (z : list Z) (off : Z) (zs : list Z) : list Z :=
  take (Z.to_nat off) z ++ zs ++ drop (Z.to_nat off + length zs) z.

Lemma patch_length z off zs : 0 ≤ off → off + zlen zs ≤ zlen z → zlen (patch z off zs) = zlen z.
Proof. intros. unfold patch. rewrite !length_app, length_take, length_drop. lia. Qed.

Lemma copy_to_correct h p a l z b off zs :
  shape h p (a ++ (l, z) :: b) → 0 ≤ off → off + zlen zs ≤ nChunkSize p →
  ∃ h', copy_to l off zs h = Some h' ∧ shape h' p (a ++ (l, patch z off zs) :: b) ∧
    alloc h' = alloc h ∧ undef h' = undef h.
Proof.
  intros Hsh Ho Hl. pose proof (sh_seg _ _ _ Hsh) as Hseg.
  destruct (dom_split a b l z (sh_nodup _ _ _ Hsh)) as (Hla & Hlb & Hab & _ & _).
  apply seg_app in Hseg as (r & Ha & Hb). cbn [seg] in Hb. destruct Hb as (-> & nx & Hlk & Hb).
  pose proof (sh_sized _ _ _ Hsh) as Hs. unfold sized in Hs. rewrite Forall_app, Forall_cons in Hs.
  destruct Hs as (Hsa & Hsz & Hsb). cbn in Hsz.
  unfold copy_to. rewrite Hlk. cbn [mbind option_bind zChunk MemJournal.pNext].
  do 2 (case_cmp; [|lia]). cbn [andb]. eexists. split; [done|]. split; [|done]. fold (patch z off zs).
  destruct Hsh. constructor; cbn [chunks alloc]; try done.
  - apply seg_app. exists (Some l). split.
    + eapply seg_frame; [|exact Ha]. intros x Hx. apply lookup_insert_ne. set_solver.
    + cbn [seg]. split; [done|]. exists nx. split; [apply lookup_insert_eq|].
      eapply seg_frame; [|exact Hb]. intros x Hx. apply lookup_insert_ne. set_solver.
  - by rewrite fmap_app in *.
  - rewrite dom_insert_L, sh_dom0, !fmap_app. cbn [fmap list_fmap fst]. rewrite !list_to_set_app_L. cbn. set_solver.
  - rewrite sh_live0, !length_app. done.
  - unfold sized. rewrite Forall_app, Forall_cons. split; [done|]. split; [|done]. cbn.
    rewrite patch_length; lia.
  - rewrite sh_end0. by rewrite !fmap_app.
  - rewrite !length_app in *. done.
  - by rewrite !fmap_app in *.
Qed.

Lemma flat_app a b : flat (a ++ b) = flat a ++ flat b.
Proof. unfold flat. by rewrite fmap_app, concat_app. Qed.

(** Writing at the end of the last chunk appends to the bytes. *)
Lemma bytes_append p n a l z zs :
  sized n a → zlen z = n → let off := iOffset (endpoint p) - n * zlen a in
  0 ≤ off → off + zlen zs ≤ n → 0 ≤ n →
  take (Z.to_nat (iOffset (endpoint p) + zlen zs)) (flat (a ++ [(l, patch z off zs)])) =
  bytes_of p (a ++ [(l, z)]) ++ zs.
Proof.
  intros Hs Hz off Ho Hb Hn. unfold bytes_of. rewrite !flat_app.
  pose proof (flat_length n a Hs) as Hfa. unfold flat at 2 4. cbn [fmap list_fmap snd concat].
  rewrite !app_nil_r. rewrite !take_app_ge by lia. rewrite <- app_assoc. f_equal.
  unfold patch. replace (Z.to_nat (iOffset (endpoint p) + zlen zs) - length (flat a))%nat
    with (Z.to_nat off + length zs)%nat by lia.
  replace (Z.to_nat (iOffset (endpoint p)) - length (flat a))%nat with (Z.to_nat off) by lia.
  rewrite app_assoc. rewrite take_app_le by (rewrite length_app, length_take; lia).
  apply take_ge. rewrite length_app, length_take. lia.
Qed.

(** One more, empty, chunk. *)
Lemma grow_correct h p cs l h1 :
  shape h p cs → iOffset (endpoint p) = nChunkSize p * zlen cs →
  new_chunk (nChunkSize p) h = (Some l, h1) →
  ∃ h2 first, (match fp_chunk (endpoint p) with
     | Some l0 => h ← set_next l0 (Some l) h1; Some (h, pFirst p)
     | None => Some (h1, Some l) end) = Some (h2, first) ∧
    shape h2 (mkJournal (nChunkSize p) (nSpill p) first (mkPoint (iOffset (endpoint p)) (Some l))
                (readpoint p) (jflags p) (zJournal p))
      (cs ++ [(l, replicate (Z.to_nat (nChunkSize p)) (undef h))]) ∧ alloc h2 = alloc h1.
Proof.
  intros Hsh Hoff Hnew. unfold new_chunk in Hnew.
  destruct (sqlite3Malloc (alloc h)) as [ok m] eqn:Em. destruct ok; [|done].
  injection Hnew as <- <-. set (l := fresh (dom (chunks h))) in *.
  assert (l ∉ dom (chunks h)) as Hfr by apply is_fresh.
  pose proof (sqlite3Malloc_live _ _ _ Em) as Hlive. cbn in Hlive.
  assert (l ∉ cs.*1) as Hlcs.
  { rewrite (sh_dom _ _ _ Hsh), elem_of_list_to_set in Hfr. done. }
  assert (∀ h2 first,
    seg (chunks h2) first (cs ++ [(l, replicate (Z.to_nat (nChunkSize p)) (undef h))]) None →
    dom (chunks h2) = {[l]} ∪ dom (chunks h) → alloc h2 = m →
    shape h2 (mkJournal (nChunkSize p) (nSpill p) first (mkPoint (iOffset (endpoint p)) (Some l))
                (readpoint p) (jflags p) (zJournal p))
      (cs ++ [(l, replicate (Z.to_nat (nChunkSize p)) (undef h))])) as Hmk.
  { intros h2 first Hseg Hdom Hal. destruct Hsh.
    constructor; cbn [pFirst nChunkSize endpoint readpoint fp_chunk iOffset]; try done.
    - rewrite fmap_app. cbn [fmap list_fmap fst]. apply NoDup_app. split; [done|].
      split; [set_solver|apply NoDup_singleton].
    - rewrite Hdom, sh_dom0, fmap_app. cbn [fmap list_fmap fst]. rewrite list_to_set_app_L. cbn. set_solver.
    - rewrite Hal, Hlive, sh_live0. len.
    - unfold sized. rewrite Forall_app, Forall_singleton. split; [done|]. cbn. rewrite length_replicate. lia.
    - rewrite fmap_app. cbn [fmap list_fmap fst]. by rewrite last_snoc.
    - rewrite length_app. cbn [length]. lia.
    - destruct sh_read0 as [?|(H1 & H2 & H3)]; [by left|right]. split; [done|]. split; [done|].
      rewrite H3 in H2 |- *. destruct H2 as [x Hx]. rewrite Hx, fmap_app. symmetry. by apply lookup_app_l_Some. }
  pose proof (sh_seg _ _ _ Hsh) as Hseg. pose proof (sh_end _ _ _ Hsh) as Hend.
  destruct cs as [|c0 cs0 _] using rev_ind.
  - cbn in Hend. rewrite Hend. eexists _, _. split; [done|]. split; [|done]. apply Hmk.
    + cbn [app seg]. split; [done|]. exists None. cbn [chunks]. by rewrite lookup_insert_eq.
    + cbn [chunks]. by rewrite dom_insert_L.
    + done.
  - destruct c0 as [l0 z0]. rewrite fmap_app in Hend. cbn [fmap list_fmap fst] in Hend.
    rewrite last_snoc in Hend. rewrite Hend.
    apply seg_app in Hseg as (r & Ha & Hb). cbn [seg] in Hb. destruct Hb as (-> & nx & Hl0 & ->).
    assert (l0 ≠ l) as Hne by (intros ->; apply Hlcs; rewrite fmap_app; set_solver).
    unfold set_next. cbn [chunks]. rewrite lookup_insert_ne, Hl0 by done.
    cbn [mbind option_bind zChunk alloc undef]. eexists _, _. split; [done|]. split; [|done]. apply Hmk.
    + cbn [chunks]. apply seg_app. exists (Some l). split; [apply seg_app; exists (Some l0); split|].
      * eapply seg_frame; [|exact Ha]. intros x Hx.
        destruct (dom_split cs0 [] l0 z0 (sh_nodup _ _ _ Hsh)) as (Hl0a & _).
        rewrite !lookup_insert_ne; [done| |]; [|set_solver].
        intros ->. apply Hlcs. rewrite fmap_app. set_solver.
      * cbn [seg]. split; [done|]. exists (Some l). by rewrite lookup_insert_eq.
      * cbn [seg]. split; [done|]. exists None. rewrite lookup_insert_ne by done. by rewrite lookup_insert_eq.
    + cbn [chunks]. rewrite !dom_insert_L. apply elem_of_dom_2 in Hl0. set_solver.
    + done.
Qed.

(** The body of the loop once the chunk to fill is the last one. *)
Lemma fill_correct h p cs l z zs :
  shape h p (cs ++ [(l, z)]) → fp_chunk (endpoint p) = Some l → zs ≠ [] →
  let off := iOffset (endpoint p) - nChunkSize p * zlen cs in
  0 ≤ off → off + zlen zs ≤ nChunkSize p →
  ∃ h', copy_to l off zs h = Some h' ∧ alloc h' = alloc h ∧
    mj_rep h' (mkJournal (nChunkSize p) (nSpill p) (pFirst p)
       (mkPoint (iOffset (endpoint p) + zlen zs) (Some l)) (readpoint p) (jflags p) (zJournal p))
      (bytes_of p (cs ++ [(l, z)]) ++ zs).
Proof.
  intros Hsh Hend Hne off Ho Hb.
  destruct (copy_to_correct h p cs l z [] off zs Hsh Ho Hb) as (h' & E & Hsh' & Hal & _).
  exists h'. split; [done|]. split; [done|]. exists (cs ++ [(l, patch z off zs)]).
  pose proof (sh_sized _ _ _ Hsh) as Hs. unfold sized in Hs. rewrite Forall_app, Forall_singleton in Hs.
  destruct Hs as [Hs Hz]. cbn in Hz. pose proof (sh_size _ _ _ Hsh) as Hn.
  assert (0 < zlen zs) by (destruct zs; [done|cbn; lia]). split; [|split].
  - destruct Hsh'. constructor; cbn [pFirst nChunkSize endpoint readpoint fp_chunk iOffset]; try done.
    + by rewrite <- Hend.
    + split; [lia|]. rewrite length_app. cbn [length]. lia.
    + destruct sh_read0 as [?|(H1 & H2)]; [by left|right]. split; [lia|done].
  - right. cbn [nChunkSize endpoint iOffset]. rewrite length_app. cbn [length]. lia.
  - unfold bytes_of at 2. cbn [endpoint iOffset]. symmetry.
    apply (bytes_append p (nChunkSize p)); try done; lia.
Qed.

Lemma write_loop_correct fuel h p content zs :
  mj_rep h p content → (length zs ≤ fuel)%nat →
  ∃ rc h' p' k, write_loop fuel h p zs = Some (rc, h', p') ∧
    mj_rep h' p' (content ++ take k zs) ∧ same_header p p' ∧
    (rc = SQLITE_OK ∧ k = length zs ∨ rc = SQLITE_IOERR_NOMEM) ∧
    (always_ok (alloc h) → rc = SQLITE_OK ∧ always_ok (alloc h')).
Proof.
  revert h p content zs. induction fuel as [|fuel IH]; intros h p content zs Hrep Hf.
  { destruct zs; [|cbn in Hf; lia]. exists SQLITE_OK, h, p, 0%nat. rewrite app_nil_r.
    split; [done|]. split; [done|]. split; [done|]. split; [by left|done]. }
  cbn [write_loop]. destruct (Z.ltb_spec 0 (zlen zs)) as [Hpos|Hpos].
  2: { destruct zs; [|cbn in Hpos; lia]. exists SQLITE_OK, h, p, 0%nat. rewrite app_nil_r.
       split; [done|]. split; [done|]. split; [done|]. split; [by left|done]. }
  pose proof Hrep as Hrep0. destruct Hrep as (cs & Hsh & Ht & ->).
  pose proof (sh_size _ _ _ Hsh) as Hn. pose proof (sh_off _ _ _ Hsh) as Hoff.
  set (n := nChunkSize p) in *. rewrite Z.rem_mod_nonneg by lia.
  pose proof (Z.mod_pos_bound (iOffset (endpoint p)) n Hn) as Hm.
  set (off := iOffset (endpoint p) mod n) in *.
  set (iSpace := Z.min (zlen zs) (n - off)).
  set (piece := take (Z.to_nat iSpace) zs).
  assert (zlen piece = iSpace) as Hpl by (subst piece; rewrite length_take; lia).
  assert (piece ≠ []) as Hpne by (intros E; rewrite E in Hpl; cbn in Hpl; lia).
  (* what remains, by the induction hypothesis, once the piece is in place *)
  assert (∀ h1 p1 base, mj_rep h1 p1 (bytes_of p cs ++ piece) → same_header p p1 → alloc h1 = base →
    ∃ rc h' p' k, write_loop fuel h1 p1 (drop (Z.to_nat iSpace) zs) = Some (rc, h', p') ∧
      mj_rep h' p' (bytes_of p cs ++ take k zs) ∧ same_header p p' ∧
      (rc = SQLITE_OK ∧ k = length zs ∨ rc = SQLITE_IOERR_NOMEM) ∧
      (always_ok base → rc = SQLITE_OK ∧ always_ok (alloc h'))) as Hrest.
  { intros h1 p1 base Hr1 Hh1 <-.
    destruct (IH h1 p1 _ (drop (Z.to_nat iSpace) zs) Hr1) as (rc & h' & p' & k & E & Hr' & Hh' & Hc & Hok);
      [rewrite length_drop; lia|].
    exists rc, h', p', (Z.to_nat iSpace + k)%nat. split; [done|]. split.
    { rewrite <- app_assoc in Hr'. replace (take (Z.to_nat iSpace + k) zs) with (piece ++ take k (drop (Z.to_nat iSpace) zs));
        [done|]. subst piece. rewrite <- (take_drop (Z.to_nat iSpace) zs) at 3.
      rewrite take_app_ge by (rewrite length_take; lia). do 2 f_equal. rewrite length_take. lia. }
    split; [destruct Hh1 as (? & ? & ? & ?), Hh' as (? & ? & ? & ?); repeat split; congruence|].
    split; [|done]. destruct Hc as [[-> ->] | -> ]; [left|by right]. split; [done|]. rewrite length_drop. lia. }
  destruct (Z.eqb_spec off 0) as [E0|E0].
  - assert (iOffset (endpoint p) = n * zlen cs) as Hfull.
    { destruct Ht as [-> | Ht]; [change (Z.of_nat (@length (loc * list Z) [])) with 0 in *; lia|]. pose proof (Z.div_mod (iOffset (endpoint p)) n ltac:(lia)).
      fold n in Ht. subst off. rewrite E0, Z.add_0_r in H. rewrite H in Ht, Hoff.
      assert (zlen cs - 1 < iOffset (endpoint p) / n) by nia.
      assert (iOffset (endpoint p) / n ≤ zlen cs) by nia.
      assert (iOffset (endpoint p) / n = zlen cs) by lia. congruence. }
    destruct (new_chunk n h) as [pNew h1] eqn:Enew.
    assert (alloc h1 = snd (sqlite3Malloc (alloc h))) as Hal1.
    { unfold new_chunk in Enew. destruct (sqlite3Malloc (alloc h)) as [[] m]; by injection Enew as <- <-. }
    destruct pNew as [l|].
    + destruct (grow_correct h p cs l h1 Hsh Hfull Enew) as (h2 & first & E2 & Hsh2 & Hal2).
      cbn [mbind option_bind] in E2. rewrite E2. cbn [mbind option_bind].
      destruct (fill_correct _ _ cs l _ piece Hsh2 eq_refl Hpne) as (h3 & E3 & Hal3 & Hr3);
        cbn [endpoint iOffset nChunkSize]; fold n; [lia|lia|].
      cbn [endpoint iOffset nChunkSize] in E3. fold n in E3.
      replace (iOffset (endpoint p) - n * zlen cs) with off in E3 by lia. rewrite E3. cbn [mbind option_bind].
      rewrite Hpl in Hr3. cbn [nChunkSize nSpill pFirst endpoint iOffset readpoint jflags zJournal] in *.
      assert (bytes_of (mkJournal n (nSpill p) first (mkPoint (iOffset (endpoint p)) (Some l)) (readpoint p)
        (jflags p) (zJournal p)) (cs ++ [(l, replicate (Z.to_nat n) (undef h))]) = bytes_of p cs) as Eb.
      { unfold bytes_of. cbn [endpoint iOffset]. rewrite flat_app. apply take_app_le.
        pose proof (flat_length n cs (sh_sized _ _ _ Hsh)). lia. }
      fold n in Hr3. rewrite Eb in Hr3.
      destruct (Hrest _ _ (alloc h1) Hr3 ltac:(by repeat split) ltac:(congruence))
        as (rc & h' & p' & k & E & Hr' & Hh' & Hc & Hok).
      exists rc, h', p', k. split; [done|]. split; [done|]. split; [done|]. split; [done|].
      intros Hao. apply Hok. rewrite Hal1. destruct (sqlite3Malloc (alloc h)) as [ok m] eqn:Em.
      by destruct (sqlite3Malloc_ok _ _ _ Hao Em).
    + exists SQLITE_IOERR_NOMEM, h1, p, 0%nat. rewrite take_0, app_nil_r. split; [done|].
      unfold new_chunk in Enew. destruct (sqlite3Malloc (alloc h)) as [[] m] eqn:Em; [done|].
      injection Enew as <-. split; [|split; [done|split; [by right|]]].
      * exists cs. split; [|done]. pose proof (sqlite3Malloc_live _ _ _ Em) as Hlv. cbn in Hlv.
        destruct Hsh. constructor; cbn [chunks alloc]; try done. lia.
      * intros Hao. by destruct (sqlite3Malloc_ok _ _ _ Hao Em).
  - destruct cs as [|[l z] cs _] using rev_ind; [exfalso; apply E0; subst off;
      cbn [length] in Hoff; replace (iOffset (endpoint p)) with 0 by lia; apply Z.mod_0_l; lia|].
    pose proof (sh_end _ _ _ Hsh) as Hend. rewrite fmap_app in Hend. cbn [fmap list_fmap fst] in Hend.
    rewrite last_snoc in Hend. rewrite Hend. cbn [mbind option_bind].
    assert (iOffset (endpoint p) - n * zlen cs = off) as Eoff.
    { destruct Ht as [Ht|Ht]; [by destruct cs|]. fold n in Ht. rewrite length_app in Ht, Hoff. cbn [length] in Ht, Hoff.
      pose proof (Z.div_mod (iOffset (endpoint p)) n ltac:(lia)) as Hdm. fold off in Hdm.
      assert (zlen cs < iOffset (endpoint p) / n + 1) by nia.
      assert (iOffset (endpoint p) / n < zlen cs + 1) by nia.
      assert (iOffset (endpoint p) / n = zlen cs) as Eq by lia. rewrite Eq in Hdm. lia. }
    destruct (fill_correct h p cs l z piece Hsh Hend Hpne) as (h3 & E3 & Hal3 & Hr3); [fold n; lia|fold n; lia|].
    fold n in E3. rewrite Eoff in E3. rewrite E3. cbn [mbind option_bind]. rewrite Hpl in Hr3.
    destruct (Hrest _ _ (alloc h) Hr3 ltac:(by repeat split) Hal3) as (rc & h' & p' & k & E & Hall).
    exists rc, h', p', k. done.
Qed.

(** Overwriting the start of the first chunk, the only random-access write. *)
Lemma overwrite_correct h p content zs :
  mj_rep h p content → content ≠ [] → zlen zs ≤ zlen content → zlen zs ≤ nChunkSize p →
  ∃ l h', pFirst p = Some l ∧ copy_to l 0 zs h = Some h' ∧ mj_rep h' p (patch content 0 zs) ∧
    alloc h' = alloc h.
Proof.
  intros Hrep Hne Hzs Hn. pose proof (mj_rep_size _ _ _ Hrep) as Hsz.
  destruct Hrep as (cs & Hsh & Ht & ->).
  destruct cs as [|[l z] cs].
  { exfalso. apply Hne. unfold bytes_of, flat. cbn. by rewrite take_nil. }
  destruct (copy_to_correct h p [] l z cs 0 zs Hsh) as (h' & E & Hsh' & Hal & _); [lia|lia|].
  exists l, h'. split; [by destruct (sh_seg _ _ _ Hsh)|]. split; [done|]. split; [|done].
  exists ((l, patch z 0 zs) :: cs). split; [done|].
  split; [destruct Ht as [Ht|Ht]; [done|by right]|].
  pose proof (sh_sized _ _ _ Hsh) as Hs. apply Forall_cons in Hs as [Hz Hs]. cbn in Hz.
  unfold bytes_of in *. change (flat ((l, z) :: cs)) with (z ++ flat cs) in *.
  change (flat ((l, patch z 0 zs) :: cs)) with (patch z 0 zs ++ flat cs).
  unfold patch. change (Z.to_nat 0) with 0%nat. rewrite !take_0. cbn [app Nat.add].
  rewrite length_take, length_app in Hzs, Hsz.
  rewrite <- app_assoc, <- drop_app_le by lia. rewrite (take_app_ge zs) by lia. f_equal.
  by rewrite skipn_firstn_comm.
Qed.

(** ** Spilling *)

(** What the interface documents for a file: a byte string. A call may fail. *)
Class VfsLaws (F : Type) `{Vfs F} := {
  file_content : F → list Z;
  open_new name flags f : os_open name flags = (SQLITE_OK, f) → file_content f = [];
  read_law f amt ofst zs :
    os_read f amt ofst = (SQLITE_OK, zs) → 0 ≤ ofst → ofst + amt ≤ zlen (file_content f) →
    zs = take (Z.to_nat amt) (drop (Z.to_nat ofst) (file_content f));
  write_law f zs off f' :
    os_write f zs off = (SQLITE_OK, f') → 0 ≤ off ≤ zlen (file_content f) →
    file_content f' = patch (file_content f) off zs;
  truncate_law f size f' :
    os_truncate f size = (SQLITE_OK, f') → 0 ≤ size ≤ zlen (file_content f) →
    file_content f' = take (Z.to_nat size) (file_content f);
  fileSize_law f n : os_fileSize f = (SQLITE_OK, n) → n = zlen (file_content f);
}.

Section laws.
Context {F : Type} {VFS : Vfs F} {LAWS : VfsLaws F}.

Lemma patch_end c zs : patch c (zlen c) zs = c ++ zs.
Proof.
  unfold patch. rewrite Nat2Z.id, take_ge, drop_ge by lia. by rewrite app_nil_r.
Qed.

Lemma spill_loop_correct fuel h n f io iOff p cs :
  seg (chunks h) p cs None → sized n cs → 0 < n → zlen (file_content f) = iOff → (length cs ≤ fuel)%nat →
  iOff ≤ io ≤ iOff + n * zlen cs → cs = [] ∨ n * (zlen cs - 1) < io - iOff →
  ∃ rc f', spill_loop fuel h f io n iOff p = Some (rc, f') ∧
    (rc = SQLITE_OK → file_content f' = file_content f ++ take (Z.to_nat (io - iOff)) (flat cs)).
Proof.
  revert f iOff p fuel. induction cs as [|[l z] cs IH]; intros f iOff p fuel Hseg Hs Hn Hf Hfu Hio Ht.
  - cbn in Hseg. subst p. exists SQLITE_OK, f. split; [by destruct fuel|]. intros _.
    unfold flat. cbn. by rewrite take_nil, app_nil_r.
  - destruct Hseg as (-> & nx & Hl & Hseg). destruct fuel as [|fuel]; [cbn in Hfu; lia|].
    cbn [length] in Hfu. destruct Ht as [Ht|Ht]; [done|]. cbn [length] in Ht, Hio.
    apply Forall_cons in Hs as [Hz Hs]. cbn in Hz.
    cbn [spill_loop]. rewrite Hl. cbn [mbind option_bind MemJournal.pNext].
    rewrite Nat2Z.inj_succ in Ht, Hio.
    change (flat ((l, z) :: cs)) with (z ++ flat cs).
    destruct (Z.ltb_spec io (iOff + n)).
    + assert (cs = []) as ->.
      { destruct cs; [done|]. cbn [length] in Ht. rewrite Nat2Z.inj_succ in Ht. nia. }
      rewrite copy_from_ok by (cbn [zChunk]; nia). cbn [mbind option_bind zChunk].
      rewrite drop_0. destruct (os_write f (take (Z.to_nat (io - iOff)) z) iOff) as [rc f'] eqn:E.
      cbn in Hseg. subst nx.
      destruct (Z.eqb_spec rc SQLITE_OK) as [->|Hne]; cbn [negb].
      * exists SQLITE_OK, f'. split; [by destruct fuel|]. intros _.
        apply write_law in E; [|lia]. rewrite E, <- Hf, patch_end. f_equal.
        symmetry. apply take_app_le. lia.
      * exists rc, f'. split; [done|]. intros ->. done.
    + rewrite copy_from_ok by (cbn [zChunk]; lia). cbn [mbind option_bind zChunk].
      rewrite drop_0, take_ge by lia.
      destruct (os_write f z iOff) as [rc f1] eqn:E.
      destruct (Z.eqb_spec rc SQLITE_OK) as [->|Hne]; cbn [negb].
      * apply write_law in E; [|lia]. rewrite <- Hf, patch_end in E.
        destruct (IH f1 (iOff + n) nx fuel Hseg Hs Hn) as (rc & f' & E' & Hok);
          [rewrite E, length_app; lia|lia|lia|destruct cs; [by left|right; lia]|].
        exists rc, f'. split; [done|]. intros Hrc. rewrite (Hok Hrc), E, <- app_assoc. f_equal.
        rewrite take_app_ge by lia. do 2 f_equal. lia.
      * exists rc, f1. split; [done|]. intros ->. done.
Qed.

(** The handle implements the byte string [content]. *)
Definition file_rep (n : Z) (h : heap) (fd : sqlite3_file F) (content : list Z) : Prop :=
  match fd with
  | InMemory p => mj_rep h p content ∧ nChunkSize p = n
  | RealFile f => file_content f = content ∧ chunks h = ∅ ∧ live (alloc h) = 0
  end.

Lemma map_empty_dom (m : gmap loc FileChunk) : (∀ l, m !! l = None) → m = ∅.
Proof. intros Hm. apply map_eq. intros l. by rewrite Hm, lookup_empty. Qed.

Lemma all_freed h p cs h' :
  shape h p cs → (∀ l, chunks h' !! l = if bool_decide (l ∈ cs.*1) then None else chunks h !! l) →
  live (alloc h') = live (alloc h) - zlen cs → chunks h' = ∅ ∧ live (alloc h') = 0.
Proof.
  intros Hsh Hlk Hlv. split; [|pose proof (sh_live _ _ _ Hsh); lia].
  apply map_empty_dom. intros l. rewrite Hlk. case_bool_decide as Hl; [done|].
  apply not_elem_of_dom. rewrite (sh_dom _ _ _ Hsh). by rewrite elem_of_list_to_set.
Qed.

Lemma create_correct h p content :
  mj_rep h p content →
  ∃ rc h' fd, memjrnlCreateFile h p = Some (rc, h', fd) ∧
    (rc = SQLITE_OK ∧ (∃ f, fd = RealFile f) ∧ file_rep (nChunkSize p) h' fd content ∨
     rc ≠ SQLITE_OK ∧ fd = InMemory p ∧ h' = h).
Proof.
  intros (cs & Hsh & Ht & ->). unfold memjrnlCreateFile.
  pose proof (sh_seg _ _ _ Hsh) as Hseg. pose proof (sh_nodup _ _ _ Hsh) as Hnd.
  pose proof (seg_steps h (pFirst p) cs None Hseg Hnd) as Hsteps.
  destruct (os_open (zJournal p) (jflags p)) as [rc f] eqn:Eo. destruct (Z.eqb_spec rc SQLITE_OK) as [->|Hne].
  2: { exists rc, h, (InMemory p). split; [done|]. by right. }
  apply open_new in Eo. pose proof (sh_off _ _ _ Hsh).
  destruct (spill_loop_correct (steps h) h (nChunkSize p) f (iOffset (endpoint p)) 0 (pFirst p) cs)
    as (rc & f' & E & Hok); [done|apply Hsh|apply Hsh|by rewrite Eo|lia|lia|
      destruct Ht as [Ht|Ht]; [by left|right; lia]|].
  rewrite E. cbn [mbind option_bind]. destruct (Z.eqb_spec rc SQLITE_OK) as [->|Hne].
  - destruct (free_chunks_correct (steps h) h (pFirst p) cs Hseg Hnd Hsteps) as (h' & Ef & Hlk & Hlv & _).
    rewrite Ef. cbn [mbind option_bind]. exists SQLITE_OK, h', (RealFile f'). split; [done|]. left.
    split; [done|]. split; [by exists f'|]. cbn [file_rep]. split; [|by eapply all_freed].
    rewrite Hok, Eo, Z.sub_0_r by done. done.
  - exists rc, h, (InMemory p). split; [done|]. by right.
Qed.

(** ** Refinement *)

(** What the operations do to a file, and what they return. *)
Definition file_op (content : list Z) (o : op) : list Z * list Z :=
  match o with
  | XRead iAmt iOfst => (take (Z.to_nat iAmt) (drop (Z.to_nat iOfst) content), content)
  | XWrite zBuf iOfst => ([], patch content iOfst zBuf)
  | XTruncate size => ([], take (Z.to_nat size) content)
  | XFileSize => ([zlen content], content)
  end.

(** How a journal is used: reads inside the file, writes at its end or a short one
    over its start, truncation. *)
Definition op_ok (n : Z) (content : list Z) (o : op) : Prop :=
  match o with
  | XRead iAmt iOfst => 0 < iAmt ∧ 0 ≤ iOfst ∧ iOfst + iAmt ≤ zlen content
  | XWrite zBuf iOfst =>
      iOfst = zlen content ∨ iOfst = 0 ∧ zlen zBuf ≤ zlen content ∧ zlen zBuf < n
  | XTruncate size => 0 ≤ size ≤ zlen content
  | XFileSize => True
  end.

Lemma mj_rep_first h p content : mj_rep h p content → content = [] ↔ pFirst p = None.
Proof.
  intros Hrep. pose proof (mj_rep_size _ _ _ Hrep) as Hsz. destruct Hrep as (cs & Hsh & Ht & ->).
  pose proof (sh_seg _ _ _ Hsh) as Hseg. pose proof (sh_size _ _ _ Hsh). destruct cs as [|[l z] cs].
  - cbn in Hseg. rewrite Hseg. unfold bytes_of, flat. cbn. by rewrite take_nil.
  - destruct Hseg as (-> & _). split; [|done]. intros E. rewrite E in Hsz. cbn in Hsz.
    destruct Ht as [Ht|Ht]; [done|]. cbn [length] in Ht. nia.
Qed.

Lemma write_correct h p content zs iOfst :
  mj_rep h p content → op_ok (nChunkSize p) content (XWrite zs iOfst) →
  ∃ rc h' fd, memjrnlWrite h p zs iOfst = Some (rc, h', fd) ∧
    (rc = SQLITE_OK → file_rep (nChunkSize p) h' fd (patch content iOfst zs)) ∧
    (nSpill p ≤ 0 → always_ok (alloc h) → rc = SQLITE_OK ∧ always_ok (alloc h') ∧
       ∃ p', fd = InMemory p' ∧ nSpill p' = nSpill p).
Proof.
  intros Hrep Hok. pose proof (mj_rep_size _ _ _ Hrep) as Hsz. unfold memjrnlWrite.
  destruct ((0 <? nSpill p) && (nSpill p <? zlen zs + iOfst)) eqn:Esp.
  - destruct (create_correct h p content Hrep) as (rc & h' & fd & E & Hcase). rewrite E. cbn [mbind option_bind].
    b2p. destruct Hcase as [(-> & (f & ->) & Hf & Hc & Hlv)|(Hne & -> & ->)].
    + destruct (os_write f zs iOfst) as [rc f'] eqn:Ew. exists rc, h', (RealFile f'). split; [done|].
      split; [|lia]. intros ->. cbn [file_rep]. split; [|done].
      apply write_law in Ew; [by rewrite <- Hf|]. rewrite Hf. cbn in Hok. lia.
    + destruct (Z.eqb_spec rc SQLITE_OK); [done|]. exists rc, h, (InMemory p). split; [done|].
      split; [done|lia].
  - assert (((0 <? iOfst) && negb (iOfst =? iOffset (endpoint p))) = false) as ->.
    { cbn in Hok. destruct (Z.ltb_spec 0 iOfst); [|done]. destruct (Z.eqb_spec iOfst (iOffset (endpoint p))); [done|]. lia. }
    cbn [mbind option_bind].
    assert (iOfst = zlen content → ∃ rc h' fd,
      ('(rc, h, p) ← write_loop (length zs) h p zs; Some (rc, h, InMemory p)) = Some (rc, h', fd) ∧
      (rc = SQLITE_OK → file_rep (nChunkSize p) h' fd (patch content iOfst zs)) ∧
      (nSpill p ≤ 0 → always_ok (alloc h) → rc = SQLITE_OK ∧ always_ok (alloc h') ∧
         ∃ p', fd = InMemory p' ∧ nSpill p' = nSpill p)) as Happ.
    { intros ->. destruct (write_loop_correct (length zs) h p content zs Hrep (le_n _))
        as (rc & h' & p' & k & E & Hr & (Hn & Hsp & _) & Hc & Hao).
      rewrite E. cbn [mbind option_bind]. exists rc, h', (InMemory p'). split; [done|]. split.
      - intros ->. destruct Hc as [[_ ->]|?]; [|done]. rewrite take_ge in Hr by lia. rewrite patch_end.
        by split.
      - intros _ Ha. destruct (Hao Ha). split; [done|]. split; [done|]. by exists p'. }
    destruct (pFirst p) as [l|] eqn:El.
    + assert (content ≠ []) as Hne by (intros Hc; apply (mj_rep_first _ _ _ Hrep) in Hc; congruence).
      assert (0 < zlen content) by (destruct content; [done|cbn; lia]).
      destruct (Z.eqb_spec iOfst 0) as [->|Hn0]; [|apply Happ; cbn in Hok; lia].
      destruct Hok as [Hok|(_ & H1 & H2)]; [lia|].
      destruct (overwrite_correct h p content zs Hrep Hne H1 ltac:(lia)) as (l' & h' & El' & E & Hr & Hal).
      rewrite El in El'. injection El' as <-. rewrite E. cbn [mbind option_bind].
      exists SQLITE_OK, h', (InMemory p). split; [done|]. split; [by intros _|].
      intros _ Ha. rewrite Hal. split; [done|]. split; [done|]. by exists p.
    + apply Happ. apply (mj_rep_first _ _ _ Hrep) in El. subst content. cbn in Hok |- *. lia.
Qed.

Lemma op_correct n h fd content o :
  file_rep n h fd content → op_ok n content o →
  ∃ rc out h' fd', MemJournalMethods h fd o = Some (rc, out, h', fd') ∧
    (rc = SQLITE_OK → out = fst (file_op content o) ∧ file_rep n h' fd' (snd (file_op content o))) ∧
    (∀ p, fd = InMemory p → nSpill p ≤ 0 → always_ok (alloc h) → rc = SQLITE_OK ∧ always_ok (alloc h') ∧
       ∃ p', fd' = InMemory p' ∧ nSpill p' ≤ 0).
Proof.
  intros Hrep Hok. destruct fd as [p|f].
  - destruct Hrep as [Hrep <-]. destruct o as [iAmt iOfst|zs iOfst|size|]; cbn [MemJournalMethods].
    + destruct Hok as (H1 & H2 & H3). pose proof (read_correct h p content iAmt iOfst Hrep H1 H2) as Hr.
      destruct (Z.leb_spec (iOfst + iAmt) (zlen content)); [|lia]. destruct Hr as (p' & -> & Hr & Hn & Hs & _).
      cbn [mbind option_bind]. exists SQLITE_OK. do 3 eexists. split; [done|]. split; [by intros _|].
      intros ? [= <-] Hsp Ha. split; [done|]. split; [done|]. exists p'. split; [done|lia].
    + destruct (write_correct h p content zs iOfst Hrep Hok) as (rc & h' & fd & E & Hr & Ha).
      rewrite E. cbn [mbind option_bind]. exists rc, [], h', fd. split; [done|].
      split; [by intros Hrc; split; [|apply Hr]|]. intros ? [= <-] Hsp Hal.
      destruct (Ha Hsp Hal) as (? & ? & p' & ? & ?). split; [done|]. split; [done|]. exists p'. split; [done|lia].
    + destruct Hok as [H1 H2]. destruct (truncate_correct h p content size Hrep H1) as (h' & p' & E & Hr & (Hn & Hs & _) & Ho).
      rewrite E. cbn [mbind option_bind]. exists SQLITE_OK, [], h', (InMemory p'). split; [done|].
      split; [by intros _|]. intros ? [= <-] Hsp Ha. unfold always_ok. rewrite Ho. split; [done|].
      split; [done|]. exists p'. split; [done|lia].
    + exists SQLITE_OK. do 3 eexists. split; [done|]. pose proof (mj_rep_size _ _ _ Hrep) as Hsz.
      split; [intros _; cbn; unfold memjrnlFileSize; by rewrite Hsz|].
      intros ? [= <-] Hsp Ha. split; [done|]. split; [done|]. by exists p.
  - destruct Hrep as (Hf & Hc & Hlv). destruct o as [iAmt iOfst|zs iOfst|size|]; cbn [MemJournalMethods].
    + destruct (os_read f iAmt iOfst) as [rc zs] eqn:E. exists rc. do 3 eexists. split; [done|]. split; [|done].
      intros ->. destruct Hok as (H1 & H2 & H3). apply read_law in E; [|lia|rewrite Hf; lia]. rewrite Hf in E.
      by split.
    + destruct (os_write f zs iOfst) as [rc f'] eqn:E. exists rc. do 3 eexists. split; [done|]. split; [|done].
      intros ->. apply write_law in E; [|rewrite Hf; cbn in Hok; lia]. rewrite Hf in E. by repeat split.
    + destruct (os_truncate f size) as [rc f'] eqn:E. exists rc. do 3 eexists. split; [done|]. split; [|done].
      intros ->. apply truncate_law in E; [|by rewrite Hf]. rewrite Hf in E. by repeat split.
    + destruct (os_fileSize f) as [rc k] eqn:E. exists rc. do 3 eexists. split; [done|]. split; [|done].
      intros ->. apply fileSize_law in E. rewrite Hf in E. subst k. by repeat split.
Qed.

(** A use of the journal: operations until the first error. *)
Fixpoint journal_run (h : heap) (fd : sqlite3_file F) (ops : list op)
    : option (list (Z * list Z) * heap * sqlite3_file F) :=
  match ops with
  | [] => Some ([], h, fd)
  | o :: ops =>
      '(rc, out, h, fd) ← MemJournalMethods h fd o;
      if rc =? SQLITE_OK then
        '(outs, h, fd) ← journal_run h fd ops;
        Some ((rc, out) :: outs, h, fd)
      else Some ([(rc, out)], h, fd)
  end.

Fixpoint file_run (content : list Z) (ops : list op) : list (list Z) * list Z :=
  match ops with
  | [] => ([], content)
  | o :: ops =>
      let '(out, content) := file_op content o in
      let '(outs, content) := file_run content ops in (out :: outs, content)
  end.

Fixpoint ops_ok (n : Z) (content : list Z) (ops : list op) : Prop :=
  match ops with
  | [] => True
  | o :: ops => op_ok n content o ∧ ops_ok n (snd (file_op content o)) ops
  end.

Lemma run_correct n h fd content ops :
  file_rep n h fd content → ops_ok n content ops →
  ∃ res h' fd', journal_run h fd ops = Some (res, h', fd') ∧
    (Forall (λ r, fst r = SQLITE_OK) res →
     res.*2 = fst (file_run content ops) ∧ file_rep n h' fd' (snd (file_run content ops))) ∧
    (∀ p, fd = InMemory p → nSpill p ≤ 0 → always_ok (alloc h) → Forall (λ r, fst r = SQLITE_OK) res).
Proof.
  revert h fd content. induction ops as [|o ops IH]; intros h fd content Hrep Hok.
  - exists [], h, fd. split; [done|]. split; [by intros _|]. intros. constructor.
  - destruct Hok as [Ho Hok]. destruct (op_correct n h fd content o Hrep Ho) as (rc & out & h1 & fd1 & E & Hr & Ha).
    cbn [journal_run file_run]. rewrite E. cbn [mbind option_bind].
    destruct (file_op content o) as [out' c'] eqn:Eo. cbn [fst snd] in Hr, Hok.
    destruct (Z.eqb_spec rc SQLITE_OK) as [->|Hne].
    + destruct (Hr eq_refl) as [-> Hrep1].
      destruct (IH h1 fd1 c' Hrep1 Hok) as (res & h' & fd' & E' & Hr' & Ha').
      rewrite E'. cbn [mbind option_bind]. eexists _, h', fd'. split; [done|].
      destruct (file_run c' ops) as [outs c'']. cbn [fst snd] in *. split.
      * intros [_ Hall]%Forall_cons. destruct (Hr' Hall) as [Hres Hf]. split; [|done]. cbn. by rewrite Hres.
      * intros p -> Hsp Hal. destruct (Ha p eq_refl Hsp Hal) as (_ & Hal1 & p1 & -> & Hsp1).
        constructor; [done|]. by apply (Ha' p1).
    + eexists _, h1, fd1. split; [done|]. split.
      * intros [Hrc _]%Forall_cons. done.
      * intros p -> Hsp Hal. destruct (Ha p eq_refl Hsp Hal) as (-> & _). done.
Qed.
End laws.

(** ** Theorems *)

(** C7: The in-memory journal implements a file. Opened on an empty heap in any mode
    that starts in memory (spilling or not) and used by any sequence of reads
    inside the file, appends, overwrites of its start and truncations, it always
    has a result (no null, dangling or out-of-bounds access), and as long as no
    call reports an error every read returns the bytes that an ordinary file would
    hold, before, across and after the spill to a real file. A journal that never
    spills reports no error at all while allocation succeeds. *)
Theorem memjournal_refines_file {F} {VFS : Vfs F} {LAWS : VfsLaws F} zName flags spill u m ops :
  spill ≠ 0 → live m = 0 → ops_ok (if 0 <? spill then spill else 1016) [] ops →
  let '(rc, fd) := sqlite3JournalOpen zName flags spill in
  rc = SQLITE_OK ∧
  ∃ res h' fd', journal_run (mkHeap ∅ m u) fd ops = Some (res, h', fd') ∧
    (Forall (λ r, fst r = SQLITE_OK) res → res.*2 = fst (file_run [] ops)) ∧
    (spill < 0 → always_ok m → Forall (λ r, fst r = SQLITE_OK) res).
Proof.
  intros Hs Hm Hok. unfold sqlite3JournalOpen. destruct (Z.eqb_spec spill 0) as [|_]; [done|]. cbv zeta.
  change (8 + MEMJOURNAL_DFLT_FILECHUNKSIZE - sizeof_FileChunk) with 1016.
  set (n := if 0 <? spill then spill else 1016) in *. split; [done|].
  assert (0 < n) as Hn by (subst n; case_cmp; lia).
  set (p := mkJournal n spill None (mkPoint 0 None) (mkPoint 0 None) flags zName).
  assert (file_rep (F:=F) n (mkHeap ∅ m u) (InMemory p) []) as Hrep.
  { split; [|done]. exists []. split; [|by split; [left|]].
    constructor; cbn; try done; try lia; [apply NoDup_nil_2|by left]. }
  destruct (run_correct n (mkHeap ∅ m u) (InMemory p) [] ops Hrep Hok) as (res & h' & fd' & E & Hr & Ha).
  exists res, h', fd'. split; [done|]. split; [intros Hall; by destruct (Hr Hall)|].
  intros Hsp Hal. apply (Ha p); [done|cbn; lia|done].
Qed.

(** ** A file system to run the theorems on: files are byte strings, and an odd file
    name cannot be opened. *)
#[local] Instance byte_files : Vfs (list Z) := {
  os_open name flags := (if Z.odd name then 14 else SQLITE_OK, []);
  os_read f amt ofst := (SQLITE_OK, take (Z.to_nat amt) (drop (Z.to_nat ofst) f));
  os_write f zs off := (SQLITE_OK, patch f off zs);
  os_truncate f size := (SQLITE_OK, take (Z.to_nat size) f);
  os_fileSize f := (SQLITE_OK, zlen f);
  os_close f := f;
}.

#[local] Instance byte_files_laws : VfsLaws (list Z).
Proof.
  refine {| file_content f := f |}.
  - intros name flags f [= _ ->]. done.
  - by intros f amt ofst zs [= <-].
  - by intros f zs off f' [= <-].
  - by intros f size f' [= <-].
  - by intros f n [= <-].
Defined.

Definition sample_ops : list op :=
  [XWrite [1; 2; 3] 0; XRead 2 1; XWrite [4; 5; 6; 7; 8; 9; 10] 3; XRead 4 1; XRead 4 5;
   XWrite [11; 12] 0; XFileSize; XTruncate 4; XWrite [13; 14; 15; 16; 17; 18; 19] 4; XRead 11 0].

Lemma memjournal_refines_file_witness :
  let '(rc, fd) := sqlite3JournalOpen (F:=list Z) 2 0 8 in
  rc = SQLITE_OK ∧
  ∃ res h' fd', journal_run (mkHeap ∅ (Mem [true] 0) 77) fd sample_ops = Some (res, h', fd') ∧
    (Forall (λ r, fst r = SQLITE_OK) res → res.*2 = fst (file_run [] sample_ops)) ∧
    (8 < 0 → always_ok (Mem [true] 0) → Forall (λ r, fst r = SQLITE_OK) res).
Proof.
  apply (memjournal_refines_file 2 0 8 77 (Mem [true] 0) sample_ops); [lia|done|].
  repeat split; (by vm_compute) || (left; by vm_compute) || (right; repeat split; by vm_compute).
Defined.

(** The spill happens at the third operation. *)
Example sample_run :
  (λ r, (fst (fst r), sqlite3JournalIsInMemory (snd r))) <$>
    journal_run (mkHeap ∅ (Mem [true] 0) 77) (snd (sqlite3JournalOpen (F:=list Z) 2 0 8)) sample_ops =
  Some ([(0, []); (0, [2; 3]); (0, []); (0, [2; 3; 4; 5]); (0, [6; 7; 8; 9]); (0, []); (0, [10]);
         (0, []); (0, []); (0, [11; 12; 3; 4; 13; 14; 15; 16; 17; 18; 19])], false).
Proof. vm_compute. reflexivity. Qed.
