(* ===== verification/Complete.v ===== *)
(** * Is the SQL text complete? (complete.c)

    [sqlite3_complete] runs a state machine over the tokens of a text, to know
    whether it ends at the end of a statement; a trigger ends with [;END;]. *)
From S2P Require Import Prelude Ctype.

Definition IdChar (c : Z) : option bool := m ← sqlite3CtypeMap.[u8 c]; Some (negb (Z.land m 0x46 =? 0)).

Definition tkSEMI : Z := 0.
Definition tkWS : Z := 1.
Definition tkOTHER : Z := 2.
Definition tkEXPLAIN : Z := 3.
Definition tkCREATE : Z := 4.
Definition tkTEMP : Z := 5.
Definition tkTRIGGER : Z := 6.
Definition tkEND : Z := 7.

Definition trans : list (list Z) := [
  [1; 0; 2; 3; 4; 2; 2; 2];
  [1; 1; 2; 3; 4; 2; 2; 2];
  [1; 2; 2; 2; 2; 2; 2; 2];
  [1; 3; 3; 2; 4; 2; 2; 2];
  [1; 4; 2; 2; 2; 4; 5; 2];
  [6; 5; 5; 5; 5; 5; 5; 5];
  [6; 6; 5; 5; 5; 5; 5; 7];
  [1; 7; 5; 5; 5; 5; 5; 5]].

(** The scans inside a token return the text from where they stop. *)

(** [while( zSql[0] && (zSql[0]!='*' || zSql[1]!='/') ){ zSql++; }] *)
Fixpoint skip_comment (z : list Z) : option (list Z) :=
  match z with
  | [] => None
  | c :: z' =>
      if c =? 0 then Some z
      else if negb (c =? 42) then skip_comment z'
      else c1 ← z'.[0]; if negb (c1 =? 47) then skip_comment z' else Some z
  end.

(** [while( zSql[0] && zSql[0]!=c ){ zSql++; }] *)
Fixpoint skip_until (stop : Z) (z : list Z) : option (list Z) :=
  match z with
  | [] => None
  | c :: z' => if (c =? 0) || (c =? stop) then Some z else skip_until stop z'
  end.

(** [for(nId=1; IdChar(zSql[nId]); nId++){}] *)
Fixpoint id_loop (fuel : nat) (z : list Z) (nId : Z) : option Z :=
  match fuel with
  | O => None
  | S fuel' =>
      c ← z.[nId]; i ← IdChar c; if i : bool then id_loop fuel' z (nId + 1) else Some nId
  end.

(** [nId==n && sqlite3StrNICmp(zSql, kw, n)==0] *)
Definition is_keyword (z : list Z) (nId : Z) (kw : list Z) : option bool :=
  if nId =? zlen kw then
    r ← sqlite3_strnicmp (Some z) (Some (kw ++ [0])) (zlen kw); Some (r =? 0)
  else Some false.

Definition kw_create : list Z := [99; 114; 101; 97; 116; 101].
Definition kw_trigger : list Z := [116; 114; 105; 103; 103; 101; 114].
Definition kw_temp : list Z := [116; 101; 109; 112].
Definition kw_temporary : list Z := [116; 101; 109; 112; 111; 114; 97; 114; 121].
Definition kw_end : list Z := [101; 110; 100].
Definition kw_explain : list Z := [101; 120; 112; 108; 97; 105; 110].

(** [switch( zSql[0] )] over the first letter of an identifier. *)
Definition id_token (z : list Z) (nId : Z) : option Z :=
  c ← z.[0];
  if (c =? 99) || (c =? 67) then
    k ← is_keyword z nId kw_create; Some (if k : bool then tkCREATE else tkOTHER)
  else if (c =? 116) || (c =? 84) then
    k ← is_keyword z nId kw_trigger;
    if k : bool then Some tkTRIGGER
    else
      k ← is_keyword z nId kw_temp;
      if k : bool then Some tkTEMP
      else k ← is_keyword z nId kw_temporary; Some (if k : bool then tkTEMP else tkOTHER)
  else if (c =? 101) || (c =? 69) then
    k ← is_keyword z nId kw_end;
    if k : bool then Some tkEND
    else k ← is_keyword z nId kw_explain; Some (if k : bool then tkEXPLAIN else tkOTHER)
  else Some tkOTHER.

(** One turn of the [switch]: the function returns ([inl]), or there is a token and
    the text is at its last character ([inr]). *)
Definition complete_token (z : list Z) (state : Z) : option (Z + Z * list Z) :=
  c ← z.[0];
  if c =? 59 then Some (inr (tkSEMI, z))
  else if (c =? 32) || (c =? 13) || (c =? 9) || (c =? 10) || (c =? 12) then Some (inr (tkWS, z))
  else if c =? 47 then
    c1 ← z.[1];
    if negb (c1 =? 42) then Some (inr (tkOTHER, z))
    else
      z ← skip_comment (drop 2 z);
      c0 ← z.[0];
      if c0 =? 0 then Some (inl 0) else Some (inr (tkWS, drop 1 z))
  else if c =? 45 then
    c1 ← z.[1];
    if negb (c1 =? 45) then Some (inr (tkOTHER, z))
    else
      z ← skip_until 10 z;
      c0 ← z.[0];
      if c0 =? 0 then Some (inl (b2z (state =? 1))) else Some (inr (tkWS, z))
  else if c =? 91 then
    z ← skip_until 93 (drop 1 z);
    c0 ← z.[0];
    if c0 =? 0 then Some (inl 0) else Some (inr (tkOTHER, z))
  else if (c =? 96) || (c =? 34) || (c =? 39) then
    z ← skip_until c (drop 1 z);
    c0 ← z.[0];
    if c0 =? 0 then Some (inl 0) else Some (inr (tkOTHER, z))
  else
    i ← IdChar c;
    if i : bool then
      nId ← id_loop (length z) z 1;
      token ← id_token z nId;
      Some (inr (token, drop (Z.to_nat (nId - 1)) z))
    else Some (inr (tkOTHER, z)).

Fixpoint complete_loop (fuel : nat) (z : list Z) (state : Z) : option Z :=
  match fuel with
  | O => None
  | S fuel' =>
      c ← z.[0];
      if c =? 0 then Some (b2z (state =? 1))
      else
        r ← complete_token z state;
        match r with
        | inl rc => Some rc
        | inr (token, z) =>
            row ← trans.[state];
            state ← row.[token];
            complete_loop fuel' (drop 1 z) state
        end
  end.

Definition sqlite3_complete (zSql : list Z) : option Z := complete_loop (length zSql) zSql 0.

(** [zSql8] is the text that the value routines of the virtual machine converted to
    UTF-8, or [None] when they ran out of memory; [init] is the result of
    [sqlite3_initialize]. *)
Definition sqlite3_complete16 (init : Z) (zSql8 : option (list Z)) : option Z :=
  if negb (init =? 0) then Some init
  else
    rc ← (match zSql8 with Some z => sqlite3_complete z | None => Some SQLITE_NOMEM end);
    Some (Z.land rc 0xff).
