(* ===== verification/CompleteProofs.v ===== *)
(** * Completeness of SQL text: proofs

    The token loop of complete.c against a declarative lexical structure, and
    its table of transitions against a grammar of statements. *)
From S2P Require Import Prelude Ctype Complete.

(** ** Lexical structure *)

(** White space, comments, quoted text, identifiers and single characters. *)
Definition id_char (c : Z) : bool := alpha c || digit c || (c =? 95) || (c =? 36) || (128 <=? c).

Lemma IdChar_byte c : 0 ≤ c < 256 → IdChar c = Some (id_char c).
Proof.
  intros Hc. assert (forallb (λ c, bool_decide (IdChar c = Some (id_char c))) (seqZ 0 256) = true) as H
    by (vm_compute; reflexivity).
  apply (range_all _ 0 256 H c) in Hc. by apply bool_decide_eq_true_1 in Hc.
Qed.

Definition ws_char (c : Z) : bool := (c =? 32) || (c =? 13) || (c =? 9) || (c =? 10) || (c =? 12).

(** The token of an identifier: keywords match in any case. *)
Definition word_token (s : list Z) : Z :=
  let w := lower <$> s in
  if bool_decide (w = kw_create) then tkCREATE
  else if bool_decide (w = kw_trigger) then tkTRIGGER
  else if bool_decide (w = kw_temp) then tkTEMP
  else if bool_decide (w = kw_temporary) then tkTEMP
  else if bool_decide (w = kw_end) then tkEND
  else if bool_decide (w = kw_explain) then tkEXPLAIN
  else tkOTHER.

(** [*/] does not occur in a comment before its end. *)
Definition no_close (b : list Z) : Prop := ∀ x y, b ≠ x ++ 42 :: 47 :: y.

Definition special (c : Z) : bool :=
  (c =? 59) || ws_char c || (c =? 47) || (c =? 45) || (c =? 91) || (c =? 96) || (c =? 34) || (c =? 39).

(** [lexeme s t next]: the text [s] is one token of type [t] when [next] follows. *)
Inductive lexeme : list Z → Z → list Z → Prop :=
  | lx_semi next : lexeme [59] tkSEMI next
  | lx_space c next : ws_char c = true → lexeme [c] tkWS next
  | lx_comment b next : no_close (b ++ [42]) → lexeme (47 :: 42 :: b ++ [42; 47]) tkWS next
  | lx_line b next : 10 ∉ b → lexeme (45 :: 45 :: b ++ [10]) tkWS next
  | lx_bracket b next : 93 ∉ b → lexeme (91 :: b ++ [93]) tkOTHER next
  | lx_quoted q b next : q = 96 ∨ q = 34 ∨ q = 39 → q ∉ b → lexeme (q :: b ++ [q]) tkOTHER next
  | lx_word s next : s ≠ [] → Forall (λ c, id_char c = true) s →
      (match next with [] => True | c :: _ => id_char c = false end) → lexeme s (word_token s) next
  | lx_slash next : head next ≠ Some 42 → lexeme [47] tkOTHER next
  | lx_minus next : head next ≠ Some 45 → lexeme [45] tkOTHER next
  | lx_other c next : special c = false → id_char c = false → lexeme [c] tkOTHER next.

(** How a text can end: after a token, in a comment that the end of the text
    closes, or inside an unterminated comment or quotation. *)
Inductive ending := EndOfText | InLine | Unterminated.

Inductive lexes : list Z → list Z → ending → Prop :=
  | lexes_end : lexes [] [] EndOfText
  | lexes_line b : 10 ∉ b → lexes (45 :: 45 :: b) [] InLine
  | lexes_comment b : no_close b → lexes (47 :: 42 :: b) [] Unterminated
  | lexes_bracket b : 93 ∉ b → lexes (91 :: b) [] Unterminated
  | lexes_quote q b : q = 96 ∨ q = 34 ∨ q = 39 → q ∉ b → lexes (q :: b) [] Unterminated
  | lexes_token s t next ts e : lexeme s t next → lexes next ts e → lexes (s ++ next) (t :: ts) e.

(** The machine. *)
Definition step (state t : Z) : Z := default 0 (trans.[state] ≫= λ row, row.[t]).
Definition run (state : Z) (ts : list Z) : Z := fold_left step ts state.

Definition lex_result (state : Z) (ts : list Z) (e : ending) : Z :=
  match e with Unterminated => 0 | _ => b2z (run state ts =? 1) end.

Definition is_token (t : Z) : Prop := 0 ≤ t < 8.

Lemma trans_defined state t :
  0 ≤ state < 8 → is_token t →
  ∃ row, trans.[state] = Some row ∧ row.[t] = Some (step state t) ∧ 0 ≤ step state t < 8.
Proof.
  unfold is_token. intros Hs Ht.
  assert (forallb (λ s, forallb (λ t, match trans.[s] with
    | Some row => match row.[t] with Some x => (0 <=? x) && (x <? 8) | None => false end
    | None => false end) (seqZ 0 8)) (seqZ 0 8) = true) as H by (vm_compute; reflexivity).
  pose proof (range_all _ 0 8 H state Hs) as H1. pose proof (range_all _ 0 8 H1 t Ht) as H2. cbv beta in H2.
  unfold step. destruct (trans.[state]) as [row|]; [|done]. cbn [mbind option_bind].
  destruct (row.[t]) as [x|] eqn:E; [|done]. b2p. exists row. rewrite E. cbn [default from_option id].
  split; [done|]. split; [done|]. unfold default. cbn. lia.
Qed.

Lemma word_token_ok s : is_token (word_token s).
Proof. unfold word_token, is_token. repeat case_bool_decide; vm_compute; split; congruence. Qed.

Lemma lexeme_token s t next : lexeme s t next → is_token t.
Proof. destruct 1; try apply word_token_ok; vm_compute; split; congruence. Qed.

Lemma lexeme_nonempty s t next : lexeme s t next → s ≠ [].
Proof. by destruct 1. Qed.

(** ** The scans *)

Lemma skip_until_found stop b r :
  text b → stop ∉ b → stop ≠ 0 → skip_until stop (b ++ stop :: r) = Some (stop :: r).
Proof.
  intros Hb Hn H0. induction b as [|c b IH]; cbn [app skip_until].
  - by rewrite Z.eqb_refl, orb_true_r.
  - apply text_cons in Hb as [Hc Hb]. rewrite not_elem_of_cons in Hn. destruct Hn as [Hne Hn].
    destruct (Z.eqb_spec c 0); [lia|]. destruct (Z.eqb_spec c stop); [congruence|]. cbn [orb]. by apply IH.
Qed.

Lemma skip_until_end stop b r : text b → stop ∉ b → skip_until stop (b ++ 0 :: r) = Some (0 :: r).
Proof.
  intros Hb Hn. induction b as [|c b IH]; cbn [app skip_until]; [done|].
  apply text_cons in Hb as [Hc Hb]. rewrite not_elem_of_cons in Hn. destruct Hn as [Hne Hn].
  destruct (Z.eqb_spec c 0); [lia|]. destruct (Z.eqb_spec c stop); [congruence|]. cbn [orb]. by apply IH.
Qed.

Lemma no_close_cons c b : no_close (c :: b) ↔ (c = 42 → head b ≠ Some 47) ∧ no_close b.
Proof.
  split.
  - intros H. split.
    + intros -> Hh. destruct b as [|d b]; [done|]. injection Hh as ->. by apply (H [] b).
    + intros x y ->. by apply (H (c :: x) y).
  - intros [H1 H2] x y E. destruct x as [|d x]; cbn in E.
    + injection E as -> ->. by apply H1.
    + injection E as -> ->. by apply (H2 x y).
Qed.

Lemma skip_comment_found b r :
  text b → no_close (b ++ [42]) → skip_comment (b ++ 42 :: 47 :: r) = Some (42 :: 47 :: r).
Proof.
  intros Hb Hn. induction b as [|c b IH]; cbn [app skip_comment].
  - done.
  - apply text_cons in Hb as [Hc Hb]. cbn [app] in Hn. apply no_close_cons in Hn as [Hh Hn].
    destruct (Z.eqb_spec c 0); [lia|]. destruct (Z.eqb_spec c 42) as [->|]; cbn [negb]; [|by apply IH].
    assert (∃ d l, b ++ 42 :: 47 :: r = d :: l ∧ d ≠ 47) as (d & l & E & Hd).
    { destruct b as [|d b]; [by eexists _, _|]. exists d, (b ++ 42 :: 47 :: r). split; [done|].
      intros ->. by apply Hh. }
    rewrite E. change ((d :: l).[0]) with (Some d). cbn [mbind option_bind].
    destruct (Z.eqb_spec d 47); [done|]. cbn [negb]. rewrite <- E. by apply IH.
Qed.

Lemma skip_comment_end b r : text b → no_close b → skip_comment (b ++ 0 :: r) = Some (0 :: r).
Proof.
  intros Hb Hn. induction b as [|c b IH]; cbn [app skip_comment]; [done|].
  apply text_cons in Hb as [Hc Hb]. apply no_close_cons in Hn as [Hh Hn].
  destruct (Z.eqb_spec c 0); [lia|]. destruct (Z.eqb_spec c 42) as [->|]; cbn [negb]; [|by apply IH].
  assert (∃ d l, b ++ 0 :: r = d :: l ∧ d ≠ 47) as (d & l & E & Hd).
  { destruct b as [|d b]; [by eexists _, _|]. exists d, (b ++ 0 :: r). split; [done|].
    intros ->. by apply Hh. }
  rewrite E. change ((d :: l).[0]) with (Some d). cbn [mbind option_bind].
  destruct (Z.eqb_spec d 47); [done|]. cbn [negb]. rewrite <- E. by apply IH.
Qed.

Lemma id_loop_correct fuel pre s c r :
  Forall (λ c, id_char c = true) s → bytes s → id_char c = false → 0 ≤ c < 256 → (length s < fuel)%nat →
  id_loop fuel (pre ++ s ++ c :: r) (zlen pre) = Some (zlen pre + zlen s).
Proof.
  intros Hs Hb Hc Hcb. revert pre fuel. induction s as [|d s IH]; intros pre fuel Hf;
    (destruct fuel as [|fuel]; [lia|]); cbn [id_loop app length].
  - rewrite rd_app_head. cbn [mbind option_bind]. rewrite IdChar_byte, Hc by done. cbn [mbind option_bind].
    f_equal. lia.
  - apply Forall_cons in Hs as [Hd Hs]. apply bytes_cons in Hb as [Hdb Hb].
    rewrite rd_app_head. cbn [mbind option_bind]. rewrite IdChar_byte, Hd by done. cbn [mbind option_bind].
    cbn [length] in Hf. pose proof (IH Hs Hb (pre ++ [d]) fuel ltac:(lia)) as E.
    rewrite <- app_assoc in E. cbn [app] in E.
    replace (zlen (pre ++ [d])) with (zlen pre + 1) in E by len. rewrite E. f_equal. lia.
Qed.

(** ** Keywords *)

Lemma is_keyword_correct s next rest kw :
  text s → text next → text kw → lower <$> kw = kw →
  is_keyword (s ++ next ++ 0 :: rest) (zlen s) kw = Some (bool_decide (lower <$> s = kw)).
Proof.
  intros Hs Hn Hk Hlow. unfold is_keyword. case_cmp.
  - unfold sqlite3_strnicmp. rewrite Nat2Z.id.
    replace (s ++ next ++ 0 :: rest) with (cstr (s ++ next) rest) by (unfold cstr; by rewrite <- app_assoc).
    change (kw ++ [0]) with (cstr kw []).
    rewrite strnicmp_loop_correct by (try done; by apply text_app). cbn [mbind option_bind].
    rewrite (take_ge kw) by lia. rewrite take_app_length' by lia. f_equal.
    apply eq_bool_prop_intro. rewrite Is_true_true, Z.eqb_eq, bool_decide_spec, fold_cmp_zero, Hlow by done. done.
  - f_equal. symmetry. apply bool_decide_eq_false_2. intros E. apply (f_equal length) in E.
    rewrite length_fmap in E. lia.
Qed.

Lemma lower_head c x : lower c = x → 97 ≤ x ≤ 122 → c = x ∨ c = x - 32.
Proof. unfold lower. intros H Hx. revert H. repeat case_cmp; cbn [andb]; lia. Qed.

Lemma other_keyword c s x kw : lower c ≠ x → bool_decide (lower c :: (lower <$> s) = x :: kw) = false.
Proof. intros H. apply bool_decide_eq_false_2. congruence. Qed.

Ltac change_lower :=
  repeat match goal with |- context [lower <$> ?c :: ?s] => change (lower <$> c :: s) with (lower c :: (lower <$> s)) end.

Ltac kw_solve :=
  repeat (rewrite is_keyword_correct by (first [done | by apply text_cons | by repeat constructor | reflexivity]);
          cbn [mbind option_bind]; change_lower).

Lemma id_token_correct c s next rest :
  text (c :: s) → text next →
  id_token ((c :: s) ++ next ++ 0 :: rest) (zlen (c :: s)) = Some (word_token (c :: s)).
Proof.
  intros Hs Hn. unfold id_token, word_token. change (((c :: s) ++ next ++ 0 :: rest).[0]) with (Some c).
  cbn [mbind option_bind]. cbv zeta.
  change (lower <$> c :: s) with (lower c :: (lower <$> s)).
  unfold kw_create at 2, kw_trigger at 2, kw_temp at 2, kw_temporary at 2, kw_end at 2, kw_explain at 2.
  destruct ((c =? 99) || (c =? 67)) eqn:E1.
  { assert (lower c = 99) as El by (b2p; destruct E1; b2p; subst; done).
    kw_solve. rewrite !(other_keyword c s 116), !(other_keyword c s 101) by lia.
    unfold kw_create. by case_bool_decide. }
  destruct ((c =? 116) || (c =? 84)) eqn:E2.
  { assert (lower c = 116) as El by (b2p; destruct E2; b2p; subst; done).
    kw_solve. rewrite !(other_keyword c s 99), !(other_keyword c s 101) by lia.
    unfold kw_trigger, kw_temp, kw_temporary.
    repeat first [progress kw_solve | case_bool_decide | done]. }
  destruct ((c =? 101) || (c =? 69)) eqn:E3.
  { assert (lower c = 101) as El by (b2p; destruct E3; b2p; subst; done).
    kw_solve. rewrite !(other_keyword c s 99), !(other_keyword c s 116) by lia.
    unfold kw_end, kw_explain. repeat first [progress kw_solve | case_bool_decide | done]. }
  b2p. rewrite !other_keyword; [done|..]; intros El; apply lower_head in El; lia.
Qed.

(** ** One token *)

Lemma split_at (x : Z) s : x ∉ s ∨ ∃ b next, s = b ++ x :: next ∧ x ∉ b.
Proof.
  destruct (decide (x ∈ s)) as [Hin|]; [right|by left].
  apply list_elem_of_split_l in Hin as (b & next & -> & Hb). by exists b, next.
Qed.

Lemma split_close s : no_close s ∨ ∃ b next, s = b ++ 42 :: 47 :: next ∧ no_close (b ++ [42]).
Proof.
  induction s as [|c s IH]; [left; by intros [] y|].
  destruct (decide (c = 42 ∧ head s = Some 47)) as [[-> Hh]|Hne].
  { right. destruct s as [|d s]; [done|]. injection Hh as ->. exists [], s. split; [done|].
    intros x y E. destruct x as [|? [|]]; done. }
  destruct IH as [IH|(b & next & -> & Hb)].
  - left. apply no_close_cons. split; [|done]. intros -> Hh. by apply Hne.
  - right. exists (c :: b), next. split; [done|]. apply no_close_cons. split; [|done].
    intros -> Hh. apply Hne. split; [done|]. by destruct b.
Qed.

Lemma split_word s :
  ∃ w next, s = w ++ next ∧ Forall (λ c, id_char c = true) w ∧
    (match next with [] => True | c :: _ => id_char c = false end).
Proof.
  induction s as [|c s (w & next & -> & Hw & Hn)]; [by exists [], []|].
  destruct (id_char c) eqn:E.
  - exists (c :: w), next. split; [done|]. split; [by constructor|done].
  - exists [], (c :: w ++ next). split; [done|]. split; [constructor|done].
Qed.

(** Either the rest of the text ends the scan, or its first token is found. *)
Definition token_ok (s rest : list Z) (state : Z) : Prop :=
  (∃ e, lexes s [] e ∧ complete_token (s ++ 0 :: rest) state = Some (inl (lex_result state [] e))) ∨
  (∃ l t next z, s = l ++ next ∧ lexeme l t next ∧ complete_token (s ++ 0 :: rest) state = Some (inr (t, z)) ∧
     drop 1 z = next ++ 0 :: rest).

Ltac tok_simpl := cbn [mbind option_bind negb Z.eqb Pos.eqb orb].

Lemma quoted_ok q b s' rest state (close : Z) :
  s' = b → text b → close ≠ 0 →
  (close ∉ b → lexes (q :: b) [] Unterminated) →
  (∀ b' next, b = b' ++ close :: next → close ∉ b' → lexeme (q :: b' ++ [close]) tkOTHER next) →
  complete_token ((q :: b) ++ 0 :: rest) state =
    (z ← skip_until close (b ++ 0 :: rest); c0 ← z.[0]; if c0 =? 0 then Some (inl 0) else Some (inr (tkOTHER, z))) →
  token_ok (q :: b) rest state.
Proof.
  intros -> Hb H0 Hun Hlx Eq. destruct (split_at close b) as [Hn|(b' & next & -> & Hn)].
  - left. exists Unterminated. split; [by apply Hun|]. rewrite Eq, skip_until_end by done. done.
  - right. exists (q :: b' ++ [close]), tkOTHER, next, (close :: next ++ 0 :: rest).
    split; [cbn; by rewrite <- app_assoc|]. split; [by apply Hlx|]. split; [|done].
    rewrite Eq. rewrite <- app_assoc. cbn [app]. apply text_app in Hb as [Hb _].
    rewrite skip_until_found by done. tok_simpl.
    change ((close :: next ++ 0 :: rest).[0]) with (Some close). tok_simpl.
    by destruct (Z.eqb_spec close 0).
Qed.

Lemma first_token s rest state : text s → s ≠ [] → token_ok s rest state.
Proof.
  intros Hs Hne. destruct s as [|c s]; [done|]. clear Hne. pose proof Hs as [Hc Hs']%text_cons.
  assert (∀ k, complete_token ((c :: s) ++ 0 :: rest) state = Some (inr (k, (c :: s) ++ 0 :: rest)) →
    lexeme [c] k s → token_ok (c :: s) rest state) as Hone.
  { intros k E Hl. right. exists [c], k, s, ((c :: s) ++ 0 :: rest). done. }
  assert (∃ d l, s ++ 0 :: rest = d :: l ∧ ∀ x, x ≠ 0 → (d = x ↔ head s = Some x)) as (d & l & El & Hd).
  { destruct s as [|d s]; [exists 0, rest|exists d, (s ++ 0 :: rest)]; (split; [done|]); cbn;
      intros; split; congruence. }
  assert (((c :: s) ++ 0 :: rest).[1] = Some d) as E1 by (cbn [app]; rewrite El; done).
  unfold complete_token in Hone. change (((c :: s) ++ 0 :: rest).[0]) with (Some c) in Hone.
  cbn [mbind option_bind] in Hone.
  destruct (Z.eqb_spec c 59) as [->|H59]; [apply (Hone _ eq_refl); constructor|].
  destruct ((c =? 32) || (c =? 13) || (c =? 9) || (c =? 10) || (c =? 12)) eqn:Ews;
    [apply (Hone _ eq_refl); by apply lx_space|].
  destruct (Z.eqb_spec c 47) as [->|H47].
  { rewrite E1 in Hone. cbn [mbind option_bind] in Hone.
    destruct (Z.eqb_spec d 42) as [Ed|H42]; cbn [negb] in Hone.
    2: { apply (Hone _ eq_refl), lx_slash. intros Hh. by apply Hd in Hh. }
    assert (head s = Some 42) as Hh by (by apply Hd). destruct s as [|? b]; [done|]. injection Hh as ->.
    apply text_cons in Hs' as [_ Hb].
    assert (complete_token ((47 :: 42 :: b) ++ 0 :: rest) state =
      (z ← skip_comment (b ++ 0 :: rest); c0 ← z.[0]; if c0 =? 0 then Some (inl 0) else Some (inr (tkWS, drop 1 z)))) as Eq.
    { unfold complete_token. change (((47 :: 42 :: b) ++ 0 :: rest).[0]) with (Some 47).
      cbn [mbind option_bind Z.eqb Pos.eqb orb]. by rewrite E1, Ed. }
    destruct (split_close b) as [Hn|(b' & next & -> & Hn)].
    - left. exists Unterminated. split; [by constructor|]. by rewrite Eq, skip_comment_end.
    - right. exists (47 :: 42 :: b' ++ [42; 47]), tkWS, next, (47 :: next ++ 0 :: rest).
      split; [cbn; by rewrite <- app_assoc|]. split; [by constructor|]. split; [|done].
      rewrite Eq, <- app_assoc. cbn [app]. apply text_app in Hb as [Hb _].
      rewrite skip_comment_found by done. done. }
  destruct (Z.eqb_spec c 45) as [->|H45].
  { rewrite E1 in Hone. cbn [mbind option_bind] in Hone.
    destruct (Z.eqb_spec d 45) as [Ed|H45']; cbn [negb] in Hone.
    2: { apply (Hone _ eq_refl), lx_minus. intros Hh. by apply Hd in Hh. }
    assert (head s = Some 45) as Hh by (by apply Hd). destruct s as [|? b]; [done|]. injection Hh as ->.
    apply text_cons in Hs' as [_ Hb].
    assert (complete_token ((45 :: 45 :: b) ++ 0 :: rest) state =
      (z ← skip_until 10 (b ++ 0 :: rest); c0 ← z.[0];
       if c0 =? 0 then Some (inl (b2z (state =? 1))) else Some (inr (tkWS, z)))) as Eq.
    { unfold complete_token. change (((45 :: 45 :: b) ++ 0 :: rest).[0]) with (Some 45).
      cbn [mbind option_bind Z.eqb Pos.eqb orb]. by rewrite E1, Ed. }
    destruct (split_at 10 b) as [Hn|(b' & next & -> & Hn)].
    - left. exists InLine. split; [by constructor|]. by rewrite Eq, skip_until_end.
    - right. exists (45 :: 45 :: b' ++ [10]), tkWS, next, (10 :: next ++ 0 :: rest).
      split; [cbn; by rewrite <- app_assoc|]. split; [by constructor|]. split; [|done].
      rewrite Eq, <- app_assoc. cbn [app]. apply text_app in Hb as [Hb _].
      rewrite skip_until_found by done. done. }
  destruct (Z.eqb_spec c 91) as [->|H91].
  { apply (quoted_ok 91 s s rest state 93); [done|done|done|by constructor|by intros; subst; constructor|done]. }
  destruct ((c =? 96) || (c =? 34) || (c =? 39)) eqn:Eq.
  { assert (c = 96 ∨ c = 34 ∨ c = 39) as Hq by lia.
    apply (quoted_ok c s s rest state c); [done|done|lia|by constructor|by intros; subst; constructor|].
    unfold complete_token. change (((c :: s) ++ 0 :: rest).[0]) with (Some c). cbn [mbind option_bind].
    destruct Hq as [-> | [-> | ->]]; done. }
  rewrite IdChar_byte in Hone by lia. cbn [mbind option_bind] in Hone.
  destruct (id_char c) eqn:Eid.
  2: { apply (Hone _ eq_refl). apply lx_other; [|done]. unfold special, ws_char. rewrite Ews. b2p.
       repeat case_cmp; try lia; done. }
  destruct (split_word s) as (w & next & -> & Hw & Hn).
  apply text_app in Hs' as [Htw Htn].
  right. exists (c :: w), (word_token (c :: w)), next, (drop (length w) (c :: w) ++ next ++ 0 :: rest).
  split; [done|]. split.
  { apply lx_word; [done|by constructor|done]. }
  assert (∃ e r, next ++ 0 :: rest = e :: r ∧ id_char e = false ∧ 0 ≤ e < 256) as (e & r & Er & He & Heb).
  { destruct next as [|e next]; [by exists 0, rest|]. apply text_cons in Htn as [? _].
    exists e, (next ++ 0 :: rest). split; [done|]. split; [done|lia]. }
  assert ((c :: w ++ next) ++ 0 :: rest = [c] ++ w ++ e :: r) as Ez.
  { cbn. by rewrite <- app_assoc, Er. }
  split.
  - unfold complete_token. rewrite Ez. change (([c] ++ w ++ e :: r).[0]) with (Some c). cbn [mbind option_bind].
    rewrite Ews, Eq. do 4 (case_cmp; [lia|]).
    rewrite IdChar_byte by lia. rewrite Eid. cbn [mbind option_bind].
    rewrite (id_loop_correct _ [c] w e r) by (done || len || by apply text_bytes). cbn [mbind option_bind].
    replace (zlen [c] + zlen w) with (zlen (c :: w)) by len.
    rewrite <- Er. change ([c] ++ w ++ next ++ 0 :: rest) with ((c :: w) ++ next ++ 0 :: rest).
    rewrite id_token_correct by (done || by apply text_cons). cbn [mbind option_bind]. do 3 f_equal.
    replace (Z.to_nat (zlen (c :: w) - 1)) with (length w) by (cbn [length]; lia).
    by rewrite drop_app_le by (cbn [length]; lia).
  - assert (∃ x, drop (length w) (c :: w) = [x]) as [x Ex].
    { assert (length (drop (length w) (c :: w)) = 1%nat) as Hl by (rewrite length_drop; cbn [length]; lia).
      destruct (drop (length w) (c :: w)) as [|x [|]]; [done|by exists x|done]. }
    by rewrite Ex.
Qed.

Lemma complete_loop_correct fuel s rest state :
  text s → 0 ≤ state < 8 → (length s < fuel)%nat →
  ∃ ts e, lexes s ts e ∧ Forall is_token ts ∧
    complete_loop fuel (s ++ 0 :: rest) state = Some (lex_result state ts e).
Proof.
  revert s state. induction fuel as [|fuel IH]; intros s state Hs Hst Hf; [lia|]. cbn [complete_loop].
  destruct s as [|c s].
  { exists [], EndOfText. split; [constructor|]. split; [constructor|]. done. }
  pose proof Hs as [Hc _]%text_cons. change (((c :: s) ++ 0 :: rest).[0]) with (Some c).
  cbn [mbind option_bind]. destruct (Z.eqb_spec c 0); [lia|].
  destruct (first_token (c :: s) rest state Hs ltac:(done))
    as [(e & Hl & E)|(l & t & next & z & Es & Hl & E & Hz)].
  - rewrite E. cbn [mbind option_bind]. exists [], e. split; [done|]. split; [constructor|done].
  - rewrite E. cbn [mbind option_bind]. pose proof (lexeme_token _ _ _ Hl) as Ht.
    destruct (trans_defined state t Hst Ht) as (row & -> & Er & Hr).
    cbn [mbind option_bind]. rewrite Er. cbn [mbind option_bind]. rewrite Hz.
    rewrite Es in Hs, Hf. apply text_app in Hs as [_ Hn].
    assert (0 < length l)%nat by (destruct l; [by apply lexeme_nonempty in Hl|cbn; lia]).
    destruct (IH next (step state t) Hn Hr) as (ts & e & Hls & Hts & Ee); [len_in Hf; lia|].
    exists (t :: ts), e. split; [rewrite Es; by constructor|]. split; [by constructor|].
    rewrite Ee. by destruct e.
Qed.

(** ** The statement grammar *)

(** The head of a trigger definition:
    [\[EXPLAIN other...\] CREATE \[TEMP...\] TRIGGER]. *)
Inductive trigger_head : list Z → Prop :=
  | head_create temps : Forall (eq tkTEMP) temps → trigger_head (tkCREATE :: temps ++ [tkTRIGGER])
  | head_explain others temps : Forall (eq tkOTHER) others → Forall (eq tkTEMP) temps →
      trigger_head (tkEXPLAIN :: others ++ tkCREATE :: temps ++ [tkTRIGGER]).

(** [; END ;] *)
Definition trigger_end : list Z := [tkSEMI; tkEND; tkSEMI].
Definition occurs (p b : list Z) : Prop := ∃ x y, b = x ++ p ++ y.

(** An ordinary statement ends at its first semicolon, a trigger at its first
    [; END ;]. *)
Inductive statement : list Z → Prop :=
  | st_normal a : tkSEMI ∉ a → (∀ h b, a = h ++ b → ¬ trigger_head h) → statement (a ++ [tkSEMI])
  | st_trigger h b : trigger_head h → ¬ occurs trigger_end (b ++ [tkSEMI; tkEND]) →
      statement (h ++ b ++ trigger_end).

Inductive script : list Z → Prop :=
  | script_nil : script []
  | script_cons s r : statement s → script r → script (s ++ r).

Lemma run_app state a b : run state (a ++ b) = run (run state a) b.
Proof. apply fold_left_app. Qed.

Definition solid (ts : list Z) : Prop := Forall (λ t, is_token t ∧ t ≠ tkWS) ts.

Lemma solid_app a b : solid (a ++ b) ↔ solid a ∧ solid b.
Proof. apply Forall_app. Qed.

Lemma solid_cases (P : Z → Prop) t :
  is_token t ∧ t ≠ tkWS → P 0 → P 2 → P 3 → P 4 → P 5 → P 6 → P 7 → P t.
Proof.
  unfold is_token, tkWS. intros [H1 H2] ???????.
  assert (t = 0 ∨ t = 2 ∨ t = 3 ∨ t = 4 ∨ t = 5 ∨ t = 6 ∨ t = 7) as Hd by lia.
  repeat (destruct Hd as [Hd|Hd]; [by subst|]). by subst.
Qed.

Ltac tok_cases t Ht := pattern t; apply (solid_cases _ t Ht).

(** The body of a trigger: how much of [; END ;] its end matches. *)
Definition body_state (b : list Z) (state : Z) : Prop :=
  (state = 5 ∧ last b ≠ Some tkSEMI ∧ (∀ x, b ≠ x ++ [tkSEMI; tkEND])) ∨
  (state = 6 ∧ last b = Some tkSEMI) ∨
  (state = 7 ∧ ∃ x, b = x ++ [tkSEMI; tkEND]).

Lemma last_app_cons_snoc (b x : list Z) t p q : b ++ [t] = x ++ [p; q] → t = q ∧ b = x ++ [p].
Proof.
  intros E. replace (x ++ [p; q]) with ((x ++ [p]) ++ [q]) in E by (by rewrite <- app_assoc).
  apply app_inj_tail in E as [-> ->]. done.
Qed.

Lemma run_body b : solid b → ¬ occurs trigger_end b → body_state b (run 5 b).
Proof.
  induction b as [|t b IH] using rev_ind; intros Hs Ho.
  { left. split; [done|]. split; [done|]. intros x E. by destruct x. }
  apply solid_app in Hs as [Hs Ht]. unfold solid in Ht. rewrite Forall_singleton in Ht.
  assert (¬ occurs trigger_end b) as Hob.
  { intros (x & y & ->). apply Ho. exists x, (y ++ [t]). by rewrite <- !app_assoc. }
  specialize (IH Hs Hob). rewrite run_app. unfold body_state. rewrite last_snoc.
  destruct IH as [(E & H1 & H2)|[(E & H1)|(E & x & ->)]]; rewrite E; cbn [run fold_left].
  - revert Ho; tok_cases t Ht; intros Ho; vm_compute (step _ _).
    1: { right; left. done. }
    all: left; split; [done|]; split; [done|]; intros x Ex; apply last_app_cons_snoc in Ex as [Ex Eb]; try done.
    rewrite Eb in H1. by rewrite last_snoc in H1.
  - apply last_Some in H1 as [b' ->].
    revert Ho; tok_cases t Ht; intros Ho; vm_compute (step _ _).
    1: { right; left. done. }
    6: { right; right. split; [done|]. exists b'. by rewrite <- app_assoc. }
    all: left; split; [done|]; split; [done|]; intros x Ex; apply last_app_cons_snoc in Ex as [Ex Eb]; done.
  - revert Ho; tok_cases t Ht; intros Ho; vm_compute (step _ _).
    1: { exfalso. apply Ho. exists x, []. by rewrite <- app_assoc. }
    all: left; split; [done|]; split; [done|]; intros y Ey; apply last_app_cons_snoc in Ey as [Ey Eb]; try done.
    exfalso. replace (x ++ [tkSEMI; tkEND]) with ((x ++ [tkSEMI]) ++ [tkEND]) in Eb by (by rewrite <- app_assoc).
    apply app_inj_tail in Eb as [_ Eb]. done.
Qed.

Lemma run_repeat state t ts : step state t = state → Forall (eq t) ts → run state ts = state.
Proof. intros Hs. induction 1 as [|x ts <- H IH]; [done|]. cbn [run fold_left]. by rewrite Hs. Qed.

Lemma run_head s h : s = 0 ∨ s = 1 → trigger_head h → run s h = 5.
Proof.
  intros Hs [temps Ht|others temps Ho Ht].
  - change (tkCREATE :: temps ++ [tkTRIGGER]) with ([tkCREATE] ++ temps ++ [tkTRIGGER]).
    rewrite !run_app. replace (run s [tkCREATE]) with 4 by (by destruct Hs as [-> | ->]).
    by rewrite (run_repeat 4 tkTEMP).
  - change (tkEXPLAIN :: others ++ tkCREATE :: temps ++ [tkTRIGGER])
      with ([tkEXPLAIN] ++ others ++ [tkCREATE] ++ temps ++ [tkTRIGGER]).
    rewrite !run_app. replace (run s [tkEXPLAIN]) with 3 by (by destruct Hs as [-> | ->]).
    rewrite (run_repeat 3 tkOTHER) by done. change (run 3 [tkCREATE]) with 4.
    by rewrite (run_repeat 4 tkTEMP).
Qed.

(** ** From the table to the grammar *)

(** No nonempty prefix of [a] completes a statement. *)
Definition open (a : list Z) : Prop := ∀ x y, a = x ++ y → x ≠ [] → run 1 x ≠ 1.

Definition no_head (a : list Z) : Prop := ∀ c h b, a ++ c = h ++ b → ¬ trigger_head h.

Definition stmt_state (a : list Z) (s : Z) : Prop :=
  (s = 1 ∧ a = []) ∨
  (s = 2 ∧ tkSEMI ∉ a ∧ no_head a) ∨
  (s = 3 ∧ ∃ others, a = tkEXPLAIN :: others ∧ Forall (eq tkOTHER) others) ∨
  (s = 4 ∧ ∃ temps, Forall (eq tkTEMP) temps ∧
     (a = tkCREATE :: temps ∨
      ∃ others, a = tkEXPLAIN :: others ++ tkCREATE :: temps ∧ Forall (eq tkOTHER) others)) ∨
  (∃ h b, a = h ++ b ∧ trigger_head h ∧ ¬ occurs trigger_end b ∧ body_state b s).

Lemma head_cons h : trigger_head h → ∃ t r, h = t :: r ∧ (t = tkCREATE ∨ t = tkEXPLAIN).
Proof. destruct 1; eexists _, _; (split; [done|]); [by left|by right]. Qed.

(** The end of a run of equal tokens is determined. *)
Lemma repeat_unique (x y1 y2 : Z) l1 l2 r1 r2 :
  Forall (eq x) l1 → Forall (eq x) l2 → y1 ≠ x → y2 ≠ x → l1 ++ y1 :: r1 = l2 ++ y2 :: r2 →
  l1 = l2 ∧ y1 = y2 ∧ r1 = r2.
Proof.
  intros H1. revert l2. induction H1 as [|z l1 <- H1 IH]; intros l2 H2 Hy1 Hy2 E.
  - destruct H2 as [|z l2 <- H2]; [by injection E as -> ->|]. injection E as ? _. congruence.
  - destruct H2 as [|z l2 <- H2]; [injection E as ? _; congruence|].
    injection E as E. destruct (IH l2 H2 Hy1 Hy2 E) as (-> & -> & ->). done.
Qed.

Lemma no_head_start t : t ≠ tkCREATE → t ≠ tkEXPLAIN → no_head [t].
Proof.
  intros H1 H2 c h b E Hh. apply head_cons in Hh as (x & r & -> & Hx). injection E as -> E.
  destruct Hx; done.
Qed.

Lemma no_head_create temps t :
  Forall (eq tkTEMP) temps → t ≠ tkTEMP → t ≠ tkTRIGGER → no_head ((tkCREATE :: temps) ++ [t]).
Proof.
  intros Ht H1 H2 c h b E Hh. rewrite <- app_assoc in E. destruct Hh as [temps' Ht'|others' temps' Ho' Ht']; [|done].
  injection E as E. rewrite <- app_assoc in E.
  by destruct (repeat_unique tkTEMP t tkTRIGGER temps temps' _ _ Ht Ht' H1 ltac:(done) E) as (_ & ? & _).
Qed.

Lemma no_head_explain others t :
  Forall (eq tkOTHER) others → t ≠ tkOTHER → t ≠ tkCREATE → no_head ((tkEXPLAIN :: others) ++ [t]).
Proof.
  intros Ho H1 H2 c h b E Hh. rewrite <- app_assoc in E. destruct Hh as [temps' Ht'|others' temps' Ho' Ht']; [done|].
  injection E as E. rewrite <- app_assoc in E. cbn [app] in E.
  by destruct (repeat_unique tkOTHER t tkCREATE others others' _ _ Ho Ho' H1 ltac:(done) E) as (_ & ? & _).
Qed.

Lemma no_head_both others temps t :
  Forall (eq tkOTHER) others → Forall (eq tkTEMP) temps → t ≠ tkTEMP → t ≠ tkTRIGGER →
  no_head ((tkEXPLAIN :: others ++ tkCREATE :: temps) ++ [t]).
Proof.
  intros Ho Ht H1 H2 c h b E Hh. rewrite <- app_assoc in E. destruct Hh as [temps' Ht'|others' temps' Ho' Ht']; [done|].
  cbn [app] in E. injection E as E. rewrite <- !app_assoc in E. cbn [app] in E.
  destruct (repeat_unique tkOTHER tkCREATE tkCREATE others others' _ _ Ho Ho' ltac:(done) ltac:(done) E)
    as (_ & _ & E').
  rewrite <- app_assoc in E'. cbn [app] in E'.
  by destruct (repeat_unique tkTEMP t tkTRIGGER temps temps' _ _ Ht Ht' H1 ltac:(done) E') as (_ & ? & _).
Qed.

Lemma no_head_app a b : no_head a → no_head (a ++ b).
Proof. intros H c h b' E. rewrite <- app_assoc in E. by eapply H. Qed.

Lemma Forall_snoc {A} (P : A → Prop) l x : Forall P l → P x → Forall P (l ++ [x]).
Proof. intros. apply Forall_app. split; [done|]. by constructor. Qed.

Lemma semi_notin_repeat t l : t ≠ tkSEMI → Forall (eq t) l → tkSEMI ∉ l.
Proof. intros Ht Hl Hin. rewrite Forall_forall in Hl. by apply Hl in Hin. Qed.

(** The first statement, state by state. *)
Lemma run_statement a : solid a → open a → stmt_state a (run 1 a).
Proof.
  induction a as [|t a IH] using rev_ind; intros Hs Ho; [by left|].
  apply solid_app in Hs as [Hs Ht]. unfold solid in Ht. rewrite Forall_singleton in Ht.
  assert (open a) as Hoa.
  { intros x y -> Hx. apply (Ho x (y ++ [t])); [by rewrite app_assoc|done]. }
  specialize (IH Hs Hoa).
  assert (run 1 (a ++ [t]) ≠ 1) as Hn1.
  { apply (Ho _ []); [by rewrite app_nil_r|]. by destruct a. }
  rewrite run_app in Hn1 |- *. cbn [run fold_left] in Hn1 |- *.
  assert (∀ P, P → tkSEMI ∉ a → t ≠ tkSEMI → tkSEMI ∉ a ++ [t] ∧ P) as Hsemi.
  { intros P HP H1 H2. split; [|done]. rewrite not_elem_of_app, list_elem_of_singleton. split; [done|congruence]. }
  destruct IH as [[E ->]|[(E & H1 & H2)|[(E & others & -> & Hot)|[(E & temps & Htm & Hcase)|(h & b & -> & Hh & Hob & Hb)]]]].
  - rewrite E in *. cbn [app] in *. revert Hn1. tok_cases t Ht; vm_compute (step _ _); intros Hn1; try done.
    2: { right; right; left. split; [done|]. by exists []. }
    2: { right; right; right; left. split; [done|]. exists []. split; [done|by left]. }
    all: right; left; split; [done|]; split; [set_solver|by apply no_head_start].
  - rewrite E in *. revert Hn1 Hsemi. tok_cases t Ht; vm_compute (step _ _); intros Hn1 Hsemi; try done.
    all: right; left; split; [done|]; apply Hsemi; [by apply no_head_app|done|done].
  - rewrite E in *. revert Hn1 Hsemi. tok_cases t Ht; vm_compute (step _ _); intros Hn1 Hsemi; try done.
    1: { right; right; left. split; [done|]. exists (others ++ [2]). split; [done|by apply Forall_snoc]. }
    2: { right; right; right; left. split; [done|]. exists []. split; [constructor|right]. by exists others. }
    all: right; left; split; [done|]; apply Hsemi; [by apply no_head_explain| |done].
    all: apply not_elem_of_cons; split; [done|]; by apply (semi_notin_repeat tkOTHER).
  - assert (tkSEMI ∉ a) as Hns.
    { pose proof (semi_notin_repeat tkTEMP temps ltac:(done) Htm).
      destruct Hcase as [->|(others & -> & Hot)]; [by apply not_elem_of_cons|].
      pose proof (semi_notin_repeat tkOTHER others ltac:(done) Hot).
      rewrite not_elem_of_cons, not_elem_of_app, not_elem_of_cons. done. }
    rewrite E in *. revert Hn1 Hsemi. tok_cases t Ht; vm_compute (step _ _); intros Hn1 Hsemi; try done.
    4: { right; right; right; left. split; [done|]. exists (temps ++ [5]). split; [by apply Forall_snoc|].
         destruct Hcase as [->|(others & -> & Hot)]; [by left|right]. exists others. split; [|done].
         cbn. by rewrite <- app_assoc. }
    4: { right; right; right; right.
         exists (a ++ [6]), []. split; [by rewrite app_nil_r|]. split.
         - destruct Hcase as [->|(others & -> & Hot)]; [by apply (head_create temps)|].
           replace ((tkEXPLAIN :: others ++ tkCREATE :: temps) ++ [6])
             with (tkEXPLAIN :: others ++ tkCREATE :: temps ++ [tkTRIGGER]); [by constructor|].
           cbn. by rewrite <- app_assoc.
         - split; [intros (x & y & Exy); by destruct x|]. left. split; [done|]. split; [done|].
           intros x Ex. by destruct x. }
    all: right; left; split; [done|]; apply Hsemi; [|done|done].
    all: destruct Hcase as [->|(others & -> & Hot)]; [by apply no_head_create|by apply no_head_both].
  - right; right; right; right. exists h, (b ++ [t]). rewrite app_assoc. split; [done|]. split; [done|].
    rewrite run_app in Hb, Hn1 |- *. rewrite (run_head 1 h) in * by (done || by right).
    assert (¬ occurs trigger_end (b ++ [t])) as Hoc.
    { intros (x & y & Exy). destruct y as [|z y _] using rev_ind.
      - rewrite app_nil_r in Exy. unfold trigger_end in Exy.
        replace (x ++ [tkSEMI; tkEND; tkSEMI]) with ((x ++ [tkSEMI; tkEND]) ++ [tkSEMI]) in Exy
          by (by rewrite <- app_assoc).
        apply app_inj_tail in Exy as [-> ->].
        apply solid_app in Hs as [_ Hsb]. pose proof (run_body _ Hsb Hob) as Hbs.
        destruct Hbs as [(_ & _ & H)|[(_ & H)|(E7 & _)]].
        + by apply (H x).
        + replace (x ++ [tkSEMI; tkEND]) with ((x ++ [tkSEMI]) ++ [tkEND]) in H by (by rewrite <- app_assoc).
          by rewrite last_snoc in H.
        + rewrite E7 in Hn1. by vm_compute in Hn1.
      - rewrite !app_assoc in Exy. apply app_inj_tail in Exy as [Exy _]. apply Hob. exists x, y.
        by rewrite app_assoc. }
    split; [done|]. apply solid_app in Hs as [_ Hsb].
    assert (run 5 (b ++ [t]) = step (run 5 b) t) as <- by (by rewrite run_app).
    apply run_body; [|done]. apply solid_app. split; [done|]. by apply Forall_singleton.
Qed.

Lemma step_one s t : 0 ≤ s < 8 → is_token t ∧ t ≠ tkWS → step s t = 1 → t = tkSEMI.
Proof.
  intros Hs Ht. assert (forallb (λ s, forallb (λ t, (t =? 1) || (t =? 0) || negb (step s t =? 1))
    (seqZ 0 8)) (seqZ 0 8) = true) as H by (vm_compute; reflexivity).
  destruct Ht as [Ht Hw].
  pose proof (range_all _ 0 8 H s Hs) as H1. pose proof (range_all _ 0 8 H1 t Ht) as H2. cbv beta in H2.
  intros E. rewrite E in H2. unfold tkWS, tkSEMI in *. lia.
Qed.

Lemma run_range s ts : 0 ≤ s < 8 → Forall is_token ts → 0 ≤ run s ts < 8.
Proof.
  intros Hs H. revert s Hs. induction H as [|t ts Ht H IH]; intros s Hs; [done|].
  cbn [run fold_left]. apply IH. by destruct (trans_defined s t Hs Ht) as (_ & _ & _ & ?).
Qed.

Lemma solid_tokens ts : solid ts → Forall is_token ts.
Proof. intros H. eapply Forall_impl; [exact H|]. by intros t []. Qed.

(** Only a semicolon completes a statement. *)
Lemma no_semi_open a : solid a → tkSEMI ∉ a → open a.
Proof.
  intros Hs Hn x y -> Hx E. destruct x as [|t x _] using rev_ind; [done|].
  apply solid_app in Hs as [Hs _]. apply solid_app in Hs as [Hs Ht]. unfold solid in Ht.
  rewrite Forall_singleton in Ht. rewrite run_app in E.
  apply step_one in E; [|apply run_range; [lia|by apply solid_tokens]|done].
  subst t. apply Hn. set_solver.
Qed.

Lemma run_zero_one ts : solid ts → ts ≠ [] → run 0 ts = run 1 ts.
Proof.
  intros Hs Hne. destruct ts as [|t ts]; [done|]. apply Forall_cons in Hs as [Ht _].
  cbn [run fold_left]. f_equal. revert Ht. clear. intros Ht. tok_cases t Ht; done.
Qed.

Lemma statement_run s : solid s → statement s → run 1 s = 1.
Proof.
  intros Hs Hst. destruct Hst as [a Hn Hh|h b Hh Ho].
  - apply solid_app in Hs as [Hs _]. rewrite run_app.
    pose proof (run_statement a Hs (no_semi_open a Hs Hn)) as Hc.
    destruct Hc as [[-> ->]|[(-> & _)|[(-> & _)|[(-> & _)|(h & b & -> & Hth & _)]]]]; try done.
    by destruct (Hh h b eq_refl).
  - rewrite run_app, (run_head 1) by (done || by right).
    apply solid_app in Hs as [_ Hs]. unfold trigger_end in *.
    replace (b ++ [tkSEMI; tkEND; tkSEMI]) with ((b ++ [tkSEMI; tkEND]) ++ [tkSEMI]) in *
      by (by rewrite <- app_assoc).
    apply solid_app in Hs as [Hs _]. rewrite run_app.
    destruct (run_body _ Hs Ho) as [(_ & _ & H)|[(_ & H)|(-> & _)]]; [by destruct (H b)| |done].
    replace (b ++ [tkSEMI; tkEND]) with ((b ++ [tkSEMI]) ++ [tkEND]) in H by (by rewrite <- app_assoc).
    by rewrite last_snoc in H.
Qed.

Lemma first_statement ts a :
  open a → ts ≠ [] → run 1 (a ++ ts) = 1 →
  ∃ b t r, ts = b ++ t :: r ∧ open (a ++ b) ∧ run 1 (a ++ b ++ [t]) = 1.
Proof.
  revert a. induction ts as [|t ts IH]; intros a Ho Hne Hr; [done|].
  destruct (decide (run 1 (a ++ [t]) = 1)) as [E|E].
  - exists [], t, ts. rewrite app_nil_r. done.
  - assert (open (a ++ [t])) as Ho'.
    { intros x y Exy Hx. destruct y as [|z y _] using rev_ind.
      - rewrite app_nil_r in Exy. by subst x.
      - rewrite app_assoc in Exy. apply app_inj_tail in Exy as [-> _]. by apply (Ho x y). }
    destruct ts as [|u ts]; [done|].
    destruct (IH (a ++ [t]) Ho') as (b & v & r & -> & Hb & Hv); [done|by rewrite <- app_assoc|].
    exists (t :: b), v, r. rewrite <- app_assoc in Hb, Hv. done.
Qed.

Lemma completed_statement a t :
  solid (a ++ [t]) → open a → run 1 (a ++ [t]) = 1 → statement (a ++ [t]).
Proof.
  intros Hs Ho Hr. apply solid_app in Hs as [Hs Ht]. unfold solid in Ht. rewrite Forall_singleton in Ht.
  rewrite run_app in Hr. apply step_one in Hr as Hsemi;
    [|apply run_range; [lia|by apply solid_tokens]|done]. subst t.
  assert (∀ h b, trigger_head h → a = h ++ b → tkTRIGGER ∈ a) as Htrig.
  { intros h b Hh ->. apply elem_of_app. left. destruct Hh; set_solver. }
  assert (tkSEMI ∉ a → tkTRIGGER ∉ a → statement (a ++ [tkSEMI])) as Hnormal.
  { intros H1 H2. constructor; [done|]. intros h b E Hh. by apply H2, (Htrig h b). }
  assert (∀ t l, t ≠ tkTRIGGER → Forall (eq t) l → tkTRIGGER ∉ l) as Hrep.
  { intros t l Hne Hl Hin. rewrite Forall_forall in Hl. by apply Hl in Hin. }
  pose proof (run_statement a Hs Ho) as Hc.
  destruct Hc as [[_ ->]|[(_ & H1 & H2)|[(_ & others & -> & Hot)|[(_ & temps & Htm & Hcase)|(h & b & -> & Hh & Hob & Hb)]]]].
  - apply Hnormal; apply not_elem_of_nil.
  - constructor; [done|]. intros h b -> Hh. apply (H2 [] h b); [by rewrite app_nil_r|done].
  - pose proof (semi_notin_repeat tkOTHER others ltac:(done) Hot).
    pose proof (Hrep tkOTHER others ltac:(done) Hot). apply Hnormal; by apply not_elem_of_cons.
  - pose proof (semi_notin_repeat tkTEMP temps ltac:(done) Htm). pose proof (Hrep tkTEMP temps ltac:(done) Htm).
    destruct Hcase as [->|(others & -> & Hot)]; [apply Hnormal; by apply not_elem_of_cons|].
    pose proof (semi_notin_repeat tkOTHER others ltac:(done) Hot).
    pose proof (Hrep tkOTHER others ltac:(done) Hot).
    apply Hnormal; rewrite not_elem_of_cons, not_elem_of_app, not_elem_of_cons; done.
  - destruct Hb as [(E & _)|[(E & _)|(_ & x & ->)]]; [rewrite E in Hr; by vm_compute in Hr..|].
    replace ((h ++ x ++ [tkSEMI; tkEND]) ++ [tkSEMI]) with (h ++ x ++ trigger_end)
      by (unfold trigger_end; by rewrite <- !app_assoc).
    by constructor.
Qed.

Lemma run_script ts : solid ts → run 1 ts = 1 ↔ script ts.
Proof.
  intros Hs. split.
  - remember (length ts) as n eqn:Hn. revert ts Hs Hn. induction (lt_wf n) as [n _ IH]. intros ts Hs -> Hr.
    destruct (decide (ts = [])) as [->|Hne]; [constructor|].
    assert (open []) as Hon by (intros x y E Hx; by destruct x).
    destruct (first_statement ts [] Hon Hne Hr) as (b & t & r & -> & Ho & Hb). cbn [app] in *.
    replace (b ++ t :: r) with ((b ++ [t]) ++ r) in * by (by rewrite <- app_assoc).
    apply solid_app in Hs as [Hsb Hsr]. constructor; [by apply completed_statement|].
    apply (IH (length r)); [len|done|done|]. by rewrite run_app, Hb in Hr.
  - intros Hsc. induction Hsc as [|s r Hst Hsc IH]; [done|].
    apply solid_app in Hs as [H1 H2]. rewrite run_app, (statement_run s H1 Hst). by apply IH.
Qed.

(** Space between tokens does not matter. *)
Definition not_ws (t : Z) : Prop := t ≠ tkWS.
#[local] Instance not_ws_dec t : Decision (not_ws t) := decide (t ≠ tkWS).

Lemma run_filter s ts : 0 ≤ s < 8 → Forall is_token ts → run s (filter not_ws ts) = run s ts.
Proof.
  intros Hs H. revert s Hs. induction H as [|t ts Ht H IH]; intros s Hs; [done|].
  destruct (trans_defined s t Hs Ht) as (_ & _ & _ & Hr).
  rewrite filter_cons. case_decide as Hw.
  - cbn [run fold_left]. by apply IH.
  - unfold not_ws in Hw. assert (t = tkWS) as -> by lia. cbn [run fold_left].
    assert (step s tkWS = s) as ->.
    { assert (forallb (λ s, step s tkWS =? s) (seqZ 0 8) = true) as Hws by (vm_compute; reflexivity).
      apply Z.eqb_eq. by apply (range_all _ 0 8 Hws). }
    by apply IH.
Qed.

(** ** The contract *)

Lemma lexes_solid ts : Forall is_token ts → solid (filter not_ws ts).
Proof.
  intros H. unfold solid. rewrite Forall_forall in *. intros t [Ht Hin]%list_elem_of_filter. split; [by apply H|done].
Qed.

(** C32: [sqlite3_complete] decides whether a text is a complete sequence of statements.
    Every zero-terminated text has a sequence of tokens, and the function reads no
    further than the terminator and answers 0 or 1: it answers 1 exactly when the
    text does not end inside a quotation or a comment, has at least one token
    other than white space, and these tokens are a sequence of statements that
    each end with a semicolon, or, for a trigger, with [; END ;]. *)
Theorem complete_correct s rest :
  text s →
  ∃ ts e r, lexes s ts e ∧ sqlite3_complete (s ++ 0 :: rest) = Some r ∧ (r = 0 ∨ r = 1) ∧
    (r = 1 ↔ e ≠ Unterminated ∧ filter not_ws ts ≠ [] ∧ script (filter not_ws ts)).
Proof.
  intros Hs.
  destruct (complete_loop_correct (length (s ++ 0 :: rest)) s rest 0 Hs) as (ts & e & Hl & Ht & E); [lia|len|].
  pose proof (lexes_solid ts Ht) as Hso.
  exists ts, e, (lex_result 0 ts e). split; [done|]. split; [done|]. unfold lex_result.
  rewrite <- (run_filter 0 ts) by (lia || done).
  split; [destruct e; unfold b2z; try case_match; auto|].
  destruct (decide (filter not_ws ts = [])) as [E0|Hne].
  { rewrite E0. destruct e; cbn; (split; [lia|by intros (_ & [] & _)]). }
  rewrite (run_zero_one _ Hso Hne), <- (run_script _ Hso).
  destruct e; unfold b2z; try destruct (Z.eqb_spec (run 1 (filter not_ws ts)) 1); split; try (by intros (? & ? & ?)); try done; lia.
Qed.

(** [end/**/;] closed by a comment to the end of the line. *)
Lemma complete_correct_witness :
  text [101; 110; 100; 59; 45; 45; 59] ∧
  ∃ ts e r, lexes [101; 110; 100; 59; 45; 45; 59] ts e ∧
    sqlite3_complete ([101; 110; 100; 59; 45; 45; 59] ++ 0 :: []) = Some r ∧ (r = 0 ∨ r = 1) ∧
    (r = 1 ↔ e ≠ Unterminated ∧ filter not_ws ts ≠ [] ∧ script (filter not_ws ts)).
Proof.
  assert (text [101; 110; 100; 59; 45; 45; 59]) as H by (unfold text; repeat constructor; lia).
  split; [exact H|]. apply (complete_correct [101; 110; 100; 59; 45; 45; 59] [] H).
Defined.
