(* ===== verification/Utf.v ===== *)
(** * UTF-8 and UTF-16 (utf.c)

    The readers and writers of code points and the conversion of the string in a
    value between the encodings, with the writability of a value's buffer from
    vdbemem.c.  The macros that advance an output pointer are the list of the
    bytes they store; [emit] stores them. *)
From S2P Require Import Prelude Ctype IntText.

Definition sqlite3Utf8Trans1 : list Z := [
  0; 1; 2; 3; 4; 5; 6; 7; 8; 9; 10; 11; 12; 13; 14; 15;
  16; 17; 18; 19; 20; 21; 22; 23; 24; 25; 26; 27; 28; 29; 30; 31;
  0; 1; 2; 3; 4; 5; 6; 7; 8; 9; 10; 11; 12; 13; 14; 15;
  0; 1; 2; 3; 4; 5; 6; 7; 0; 1; 2; 3; 0; 1; 0; 0].

Definition WRITE_UTF8 (c : Z) : list Z :=
  if c <? 0x80 then [u8 (Z.land c 0xFF)]
  else if c <? 0x800 then
    [u8 (0xC0 + u8 (Z.land (Z.shiftr c 6) 0x1F)); u8 (0x80 + u8 (Z.land c 0x3F))]
  else if c <? 0x10000 then
    [u8 (0xE0 + u8 (Z.land (Z.shiftr c 12) 0x0F));
     u8 (0x80 + u8 (Z.land (Z.shiftr c 6) 0x3F)); u8 (0x80 + u8 (Z.land c 0x3F))]
  else
    [u8 (0xF0 + u8 (Z.land (Z.shiftr c 18) 0x07)); u8 (0x80 + u8 (Z.land (Z.shiftr c 12) 0x3F));
     u8 (0x80 + u8 (Z.land (Z.shiftr c 6) 0x3F)); u8 (0x80 + u8 (Z.land c 0x3F))].

Definition WRITE_UTF16LE (c : Z) : list Z :=
  if c <=? 0xFFFF then [u8 (Z.land c 0xFF); u8 (Z.land (Z.shiftr c 8) 0xFF)]
  else
    [u8 (Z.land (Z.shiftr c 10) 0x3F + Z.land (Z.shiftr (u32 (c - 0x10000)) 10) 0xC0);
     u8 (0xD8 + Z.land (Z.shiftr (u32 (c - 0x10000)) 18) 0x03);
     u8 (Z.land c 0xFF); u8 (0xDC + Z.land (Z.shiftr c 8) 0x03)].

Definition WRITE_UTF16BE (c : Z) : list Z :=
  if c <=? 0xFFFF then [u8 (Z.land (Z.shiftr c 8) 0xFF); u8 (Z.land c 0xFF)]
  else
    [u8 (0xD8 + Z.land (Z.shiftr (u32 (c - 0x10000)) 18) 0x03);
     u8 (Z.land (Z.shiftr c 10) 0x3F + Z.land (Z.shiftr (u32 (c - 0x10000)) 10) 0xC0);
     u8 (0xDC + Z.land (Z.shiftr c 8) 0x03); u8 (Z.land c 0xFF)].

(** [*z++ = b] for each byte, from position [z] of the buffer. *)
Fixpoint emit (out : list Z) (z : Z) (bs : list Z) : option (list Z * Z) :=
  match bs with
  | [] => Some (out, z)
  | b :: bs => out ← wr out z b; emit out (z + 1) bs
  end.

(** The buffer after the call and the number of bytes. *)
Definition sqlite3AppendOneUtf8Character (zOut : list Z) (v : Z) : option (list Z * Z) :=
  if v <? 0x80 then
    o ← wr zOut 0 (u8 (Z.land v 0xff)); Some (o, 1)
  else if v <? 0x800 then
    o ← wr zOut 0 (u8 (0xc0 + u8 (Z.land (Z.shiftr v 6) 0x1f)));
    o ← wr o 1 (u8 (0x80 + u8 (Z.land v 0x3f))); Some (o, 2)
  else if v <? 0x10000 then
    o ← wr zOut 0 (u8 (0xe0 + u8 (Z.land (Z.shiftr v 12) 0x0f)));
    o ← wr o 1 (u8 (0x80 + u8 (Z.land (Z.shiftr v 6) 0x3f)));
    o ← wr o 2 (u8 (0x80 + u8 (Z.land v 0x3f))); Some (o, 3)
  else
    o ← wr zOut 0 (u8 (0xf0 + u8 (Z.land (Z.shiftr v 18) 0x07)));
    o ← wr o 1 (u8 (0x80 + u8 (Z.land (Z.shiftr v 12) 0x3f)));
    o ← wr o 2 (u8 (0x80 + u8 (Z.land (Z.shiftr v 6) 0x3f)));
    o ← wr o 3 (u8 (0x80 + u8 (Z.land v 0x3f))); Some (o, 4).

(** ** Reading *)

(** [(b & 0xc0)==0x80] *)
Definition is_cont (b : Z) : bool := Z.land b 0xc0 =? 0x80.

(** Code points that a multi-byte character may not encode. *)
Definition reject (c : Z) : Z :=
  if (c <? 0x80) || (Z.land c 0xFFFFF800 =? 0xD800) || (Z.land c 0xFFFFFFFE =? 0xFFFE)
  then 0xFFFD else c.

(** The continuation bytes before [zTerm], where the list ends. *)
Fixpoint cont_term (c : Z) (z : list Z) : Z * list Z :=
  match z with
  | b :: z' => if is_cont b then cont_term (u32 (Z.shiftl c 6 + Z.land 0x3f b)) z' else (c, z)
  | [] => (c, [])
  end.

Definition READ_UTF8 (z : list Z) : option (Z * list Z) :=
  c ← z.[0];
  if 0xc0 <=? c then
    c ← sqlite3Utf8Trans1.[c - 0xc0];
    let '(c, z) := cont_term c (drop 1 z) in
    Some (reject c, z)
  else Some (c, drop 1 z).

(** The continuation bytes of a text that ends with some other byte. *)
Fixpoint cont_loop (c : Z) (z : list Z) : option (Z * list Z) :=
  match z with
  | b :: z' => if is_cont b then cont_loop (u32 (Z.shiftl c 6 + Z.land 0x3f b)) z' else Some (c, z)
  | [] => None
  end.

(** The character and the pointer after it. *)
Definition sqlite3Utf8Read (z : list Z) : option (Z * list Z) :=
  c ← z.[0];
  if 0xc0 <=? c then
    c ← sqlite3Utf8Trans1.[c - 0xc0];
    '(c, z) ← cont_loop c (drop 1 z);
    Some (reject c, z)
  else Some (c, drop 1 z).

Fixpoint limited_loop (fuel : nat) (z : list Z) (n i c : Z) : option (Z * Z) :=
  match fuel with
  | O => None
  | S fuel' =>
      if i <? n then
        b ← z.[i];
        if is_cont b then limited_loop fuel' z n (i + 1) (u32 (Z.shiftl c 6 + Z.land 0x3f b))
        else Some (c, i)
      else Some (c, i)
  end.

(** [*piOut] and the number of bytes. *)
Definition sqlite3Utf8ReadLimited (z : list Z) (n : Z) : option (Z * Z) :=
  c ← z.[0];
  if 0xc0 <=? c then
    c ← sqlite3Utf8Trans1.[c - 0xc0];
    let n := if 4 <? n then 4 else n in
    limited_loop 4 z n 1 c
  else Some (c, 1).

Fixpoint skip_cont (z : list Z) : option (list Z) :=
  match z with
  | b :: z' => if is_cont b then skip_cont z' else Some z
  | [] => None
  end.

Definition SQLITE_SKIP_UTF8 (z : list Z) : option (list Z) :=
  c ← z.[0]; if 0xc0 <=? c then skip_cont (drop 1 z) else Some (drop 1 z).

(** [zTerm] is the length of the text from [zTerm] on, or [None] for the greatest
    address. *)
Fixpoint charlen_loop (fuel : nat) (z : list Z) (zTerm : option Z) (r : Z) : option Z :=
  match fuel with
  | O => None
  | S fuel' =>
      c ← z.[0];
      if negb (c =? 0) && (match zTerm with Some t => t <? zlen z | None => true end) then
        z ← SQLITE_SKIP_UTF8 z; charlen_loop fuel' z zTerm (r + 1)
      else Some r
  end.

Definition sqlite3Utf8CharLen (zIn : list Z) (nByte : Z) : option Z :=
  let zTerm := if 0 <=? nByte then Some (zlen zIn - nByte) else None in
  charlen_loop (S (length zIn)) zIn zTerm 0.

Fixpoint bytelen_loop (fuel : nat) (zIn : list Z) (z zEnd n nChar : Z) : option Z :=
  match fuel with
  | O => None
  | S fuel' =>
      if (n <? nChar) && (z <=? zEnd) then
        c ← zIn.[z];
        let z := z + 2 in
        if (0xd8 <=? c) && (c <? 0xdc) && (z <=? zEnd) then
          d ← zIn.[z];
          if (0xdc <=? d) && (d <? 0xe0) then bytelen_loop fuel' zIn (z + 2) zEnd (n + 1) nChar
          else bytelen_loop fuel' zIn z zEnd (n + 1) nChar
        else bytelen_loop fuel' zIn z zEnd (n + 1) nChar
      else Some z
  end.

(** [le] says whether the native byte order is little-endian. *)
Definition sqlite3Utf16ByteLen (le : bool) (zIn : list Z) (nByte nChar : Z) : option Z :=
  z ← bytelen_loop (S (length zIn)) zIn (if le then 1 else 0) (nByte - 1) 0 nChar;
  Some (z - (if le then 1 else 0)).

(** ** Values

    The string of a value: its bytes [n] in the buffer [z], which is the value's own
    allocation ([zMalloc], of [szMalloc] bytes) when [own] is set.  The destructor
    of an external buffer is outside the model. *)
Record Mem := MkMem { flags : Z; enc : Z; n : Z; z : list Z; own : bool; szMalloc : Z }.

Definition MEM_Null : Z := 0x0001.
Definition MEM_Str : Z := 0x0002.
Definition MEM_Blob : Z := 0x0010.
Definition MEM_AffMask : Z := 0x003f.
Definition MEM_Term : Z := 0x0200.
Definition MEM_Zero : Z := 0x0400.
Definition MEM_Subtype : Z := 0x0800.
Definition MEM_Dyn : Z := 0x1000.
Definition MEM_Static : Z := 0x2000.
Definition MEM_Ephem : Z := 0x4000.

(** [raw] is the memory that the allocator returns for the one request the
    function makes, or [None] when the request fails. *)
Definition sqlite3VdbeMemGrow (p : Mem) (nByte : Z) (bPreserve : bool) (raw : option (list Z))
  : option (Z * Mem) :=
  match raw with
  | None => Some (SQLITE_NOMEM, MkMem MEM_Null (enc p) (n p) [] false 0)
  | Some buf =>
      buf ←
        (if (0 <? szMalloc p) && bPreserve && own p then
           Some (take (Nat.min (length (z p)) (length buf)) (z p) ++ drop (length (z p)) buf)
         else if bPreserve then fst <$> emit buf 0 (take (Z.to_nat (n p)) (z p))
         else Some buf);
      Some (SQLITE_OK,
        MkMem (Z.land (flags p) (Z.lnot (Z.lor MEM_Dyn (Z.lor MEM_Ephem MEM_Static))))
          (enc p) (n p) buf true (zlen buf))
  end.

Definition vdbeMemAddTerminator (p : Mem) (raw : option (list Z)) : option (Z * Mem) :=
  '(rc, p) ← sqlite3VdbeMemGrow p (n p + 3) true raw;
  if negb (rc =? 0) then Some (SQLITE_NOMEM, p)
  else
    b ← wr (z p) (n p) 0;
    b ← wr b (n p + 1) 0;
    b ← wr b (n p + 2) 0;
    Some (SQLITE_OK, MkMem (Z.lor (flags p) MEM_Term) (enc p) (n p) b (own p) (szMalloc p)).

(** For a value without a zero-filled tail ([MEM_Zero] is clear). *)
Definition sqlite3VdbeMemMakeWriteable (p : Mem) (raw : option (list Z)) : option (Z * Mem) :=
  '(rc, p) ←
    (if negb (Z.land (flags p) (Z.lor MEM_Str MEM_Blob) =? 0) then
       if (szMalloc p =? 0) || negb (own p) then vdbeMemAddTerminator p raw
       else Some (SQLITE_OK, p)
     else Some (SQLITE_OK, p));
  if negb (rc =? 0) then Some (rc, p)
  else Some (SQLITE_OK, MkMem (Z.land (flags p) (Z.lnot MEM_Ephem)) (enc p) (n p) (z p) (own p) (szMalloc p)).

(** ** Translation *)

Fixpoint swap_loop (fuel : nat) (b : list Z) (zIn zTerm : Z) : option (list Z) :=
  match fuel with
  | O => None
  | S fuel' =>
      if zIn <? zTerm then
        temp ← b.[zIn];
        x ← b.[zIn + 1];
        b ← wr b zIn x;
        b ← wr b (zIn + 1) temp;
        swap_loop fuel' b (zIn + 2) zTerm
      else Some b
  end.

(** UTF-8 to UTF-16: [zIn] is the text up to [zTerm], [z] the output position. *)
Fixpoint to16_loop (fuel : nat) (le : bool) (zIn out : list Z) (z : Z) : option (list Z * Z) :=
  match fuel with
  | O => None
  | S fuel' =>
      match zIn with
      | [] => Some (out, z)
      | _ =>
          '(c, zIn) ← READ_UTF8 zIn;
          '(out, z) ← emit out z (if le then WRITE_UTF16LE c else WRITE_UTF16BE c);
          to16_loop fuel' le zIn out z
      end
  end.

(** The next two bytes as a code unit. *)
Definition unit16 (le : bool) (zIn : list Z) : option (Z * list Z) :=
  b0 ← zIn.[0];
  b1 ← zIn.[1];
  Some (if le then b0 + Z.shiftl b1 8 else Z.shiftl b0 8 + b1, drop 2 zIn).

Fixpoint to8_loop (fuel : nat) (le : bool) (zIn out : list Z) (z : Z) : option (list Z * Z) :=
  match fuel with
  | O => None
  | S fuel' =>
      match zIn with
      | [] => Some (out, z)
      | _ =>
          '(c, zIn) ← unit16 le zIn;
          '(c, zIn) ←
            (if (0xd800 <=? c) && (c <? 0xe000) then
               match zIn with
               | [] => Some (c, zIn)
               | _ =>
                   '(c2, zIn) ← unit16 le zIn;
                   Some (Z.land c2 0x03FF + Z.shiftl (Z.land c 0x003F) 10
                           + Z.shiftl (Z.land c 0x03C0 + 0x0040) 10, zIn)
               end
             else Some (c, zIn));
          '(out, z) ← emit out z (WRITE_UTF8 c);
          to8_loop fuel' le zIn out z
      end
  end.

Definition sqlite3VdbeMemTranslate (p : Mem) (desiredEnc : Z) (raw : option (list Z))
  : option (Z * Mem) :=
  if negb (enc p =? SQLITE_UTF8) && negb (desiredEnc =? SQLITE_UTF8) then
    '(rc, p) ← sqlite3VdbeMemMakeWriteable p raw;
    if negb (rc =? SQLITE_OK) then Some (SQLITE_NOMEM, p)
    else
      b ← swap_loop (S (length (z p))) (z p) 0 (Z.land (n p) (Z.lnot 1));
      Some (SQLITE_OK, MkMem (flags p) desiredEnc (n p) b (own p) (szMalloc p))
  else
    let nIn := if desiredEnc =? SQLITE_UTF8 then Z.land (n p) (Z.lnot 1) else n p in
    match raw with
    | None => Some (SQLITE_NOMEM, MkMem (flags p) (enc p) nIn (z p) (own p) (szMalloc p))
    | Some zOut =>
        let zIn := take (Z.to_nat nIn) (z p) in
        '(out, zEnd, nOut) ←
          (if enc p =? SQLITE_UTF8 then
             '(out, zEnd) ← to16_loop (S (length zIn)) (desiredEnc =? SQLITE_UTF16LE) zIn zOut 0;
             out ← wr out zEnd 0;
             Some (out, zEnd + 1, zEnd)
           else
             '(out, zEnd) ← to8_loop (S (length zIn)) (enc p =? SQLITE_UTF16LE) zIn zOut 0;
             Some (out, zEnd, zEnd));
        out ← wr out zEnd 0;
        let c := Z.lor MEM_Str (Z.lor MEM_Term (Z.land (flags p) (Z.lor MEM_AffMask MEM_Subtype))) in
        Some (SQLITE_OK, MkMem c desiredEnc nOut out true (zlen out))
    end.

Definition sqlite3VdbeMemHandleBom (p : Mem) (raw : option (list Z)) : option (Z * Mem) :=
  bom ←
    (if 1 <? n p then
       b1 ← (z p).[0];
       b2 ← (z p).[1];
       let bom := if (b1 =? 0xFE) && (b2 =? 0xFF) then SQLITE_UTF16BE else 0 in
       Some (if (b1 =? 0xFF) && (b2 =? 0xFE) then SQLITE_UTF16LE else bom)
     else Some 0);
  if negb (bom =? 0) then
    '(rc, p) ← sqlite3VdbeMemMakeWriteable p raw;
    if rc =? SQLITE_OK then
      let n' := n p - 2 in
      b ← fst <$> emit (z p) 0 (take (Z.to_nat n') (drop 2 (z p)));
      b ← wr b n' 0;
      b ← wr b (n' + 1) 0;
      Some (rc, MkMem (Z.lor (flags p) MEM_Term) bom n' b (own p) (szMalloc p))
    else Some (rc, p)
  else Some (SQLITE_OK, p).
