(* ===== verification/UtfProofs.v ===== *)
(** * UTF-8 and UTF-16: proofs

    The bit expressions of utf.c against the arithmetic of the Unicode encoding
    forms, and the conversions against lists of code points. *)
From S2P Require Import Prelude Ctype IntText Utf.

(** ** Masks and shifts as arithmetic *)

Lemma land_low k c m : 0 ≤ k → m = Z.ones k → Z.land c m = c mod 2 ^ k.
Proof. intros Hk ->. by apply Z.land_ones. Qed.

Lemma land_low' k c m : 0 ≤ k → m = Z.ones k → Z.land m c = c mod 2 ^ k.
Proof. rewrite Z.land_comm. apply land_low. Qed.

(** A mask of a field of [w] bits from bit [k]. *)
Lemma land_field k w c m :
  0 ≤ k → 0 ≤ w → m = Z.shiftl (Z.ones w) k → Z.land c m = (c / 2 ^ k) mod 2 ^ w * 2 ^ k.
Proof.
  intros Hk Hw ->. rewrite <- Z.shiftr_div_pow2, <- Z.land_ones, <- Z.shiftl_mul_pow2 by done.
  apply Z.bits_inj'. intros i Hi. rewrite Z.land_spec, !Z.shiftl_spec by done.
  destruct (Z.ltb_spec i k).
  - by rewrite !(Z.testbit_neg_r _ (i - k)), andb_false_r by lia.
  - rewrite Z.land_spec, Z.shiftr_spec by lia. f_equal. f_equal. lia.
Qed.

Lemma is_cont_byte b : 0 ≤ b < 256 → is_cont b = (128 <=? b) && (b <? 192).
Proof.
  intros Hb. assert (forallb (λ b, Bool.eqb (is_cont b) ((128 <=? b) && (b <? 192))) (seqZ 0 256) = true) as H
    by (vm_compute; reflexivity).
  apply (range_all _ 0 256 H) in Hb. by apply Bool.eqb_prop in Hb.
Qed.

Lemma land_3f b : Z.land 0x3f b = b mod 64.
Proof. by apply (land_low' 6). Qed.

(** ** Writing *)

(** The bytes of the UTF-8 form. *)
Definition utf8 (c : Z) : list Z :=
  if c <? 128 then [c]
  else if c <? 2048 then [192 + c / 64; 128 + c mod 64]
  else if c <? 65536 then [224 + c / 4096; 128 + c / 64 mod 64; 128 + c mod 64]
  else [240 + c / 262144; 128 + c / 4096 mod 64; 128 + c / 64 mod 64; 128 + c mod 64].

(** A code unit as two bytes, and the code units of the UTF-16 form. *)
Definition unit_bytes (le : bool) (u : Z) : list Z :=
  if le then [u mod 256; u / 256] else [u / 256; u mod 256].
Definition utf16 (le : bool) (c : Z) : list Z :=
  if c <? 65536 then unit_bytes le c
  else unit_bytes le (55296 + (c - 65536) / 1024) ++ unit_bytes le (56320 + (c - 65536) mod 1024).

Ltac masks :=
  rewrite ?Z.shiftr_div_pow2 by lia;
  repeat match goal with
  | |- context [Z.land ?x 0xFF] => rewrite (land_low 8 x 0xFF) by (lia || reflexivity)
  | |- context [Z.land ?x 0x1F] => rewrite (land_low 5 x 0x1F) by (lia || reflexivity)
  | |- context [Z.land ?x 0x0F] => rewrite (land_low 4 x 0x0F) by (lia || reflexivity)
  | |- context [Z.land ?x 0x07] => rewrite (land_low 3 x 0x07) by (lia || reflexivity)
  | |- context [Z.land ?x 0x03] => rewrite (land_low 2 x 0x03) by (lia || reflexivity)
  | |- context [Z.land ?x 0x3F] => rewrite (land_low 6 x 0x3F) by (lia || reflexivity)
  | |- context [Z.land ?x 0x03FF] => rewrite (land_low 10 x 0x03FF) by (lia || reflexivity)
  | |- context [Z.land ?x 0xC0] => rewrite (land_field 6 2 x 0xC0) by (lia || reflexivity)
  | |- context [Z.land ?x 0x03C0] => rewrite (land_field 6 4 x 0x03C0) by (lia || reflexivity)
  end;
  unfold u8; change (2 ^ 2) with 4; change (2 ^ 3) with 8; change (2 ^ 4) with 16;
  change (2 ^ 5) with 32; change (2 ^ 6) with 64; change (2 ^ 8) with 256;
  change (2 ^ 10) with 1024; change (2 ^ 12) with 4096; change (2 ^ 18) with 262144.

(** Lists of numbers, element by element. *)
Ltac list_eq := repeat match goal with |- _ :: _ = _ :: _ => apply (f_equal2 cons); [zdm|] end; reflexivity.

Definition code_point (c : Z) : Prop := 0 ≤ c < 1114112.

Lemma WRITE_UTF8_utf8 c : code_point c → WRITE_UTF8 c = utf8 c.
Proof.
  unfold code_point, WRITE_UTF8, utf8. intros Hc. repeat case_cmp; try lia; masks; list_eq.
Qed.

Lemma WRITE_UTF16_utf16 (le : bool) c :
  code_point c → (if le then WRITE_UTF16LE c else WRITE_UTF16BE c) = utf16 le c.
Proof.
  unfold code_point, WRITE_UTF16LE, WRITE_UTF16BE, utf16. intros Hc.
  destruct (Z.leb_spec c 65535); destruct (Z.ltb_spec c 65536); try lia; unfold unit_bytes; destruct le;
    try rewrite u32_id by lia; masks; cbn [app]; list_eq.
Qed.

(** ** Reading *)

(** Surrogates and the two noncharacters at the end of the basic plane. *)
Definition refused (c : Z) : bool := (55296 <=? c) && (c <? 57344) || (65534 <=? c) && (c <? 65536).

Lemma reject_refused c :
  0 ≤ c < 2 ^ 32 → reject c = if (c <? 128) || refused c then 65533 else c.
Proof.
  intros Hc. unfold reject, refused.
  rewrite (land_field 11 21 c) by (lia || reflexivity). rewrite (land_field 1 31 c) by (lia || reflexivity).
  change (2 ^ 11) with 2048. change (2 ^ 21) with 2097152. change (2 ^ 1) with 2. change (2 ^ 31) with 2147483648.
  change 0x80 with 128. change 0xD800 with 55296. change 0xFFFE with 65534. change 0xFFFD with 65533.
  rewrite !(Z.mod_small (c / _)) by (Z.div_mod_to_equations; lia).
  assert ((c / 2048 * 2048 =? 55296) = (55296 <=? c) && (c <? 57344)) as ->.
  { apply eq_true_iff_eq. rewrite andb_true_iff, Z.eqb_eq, Z.leb_le, Z.ltb_lt. zdm. }
  assert ((c / 2 * 2 =? 65534) = (65534 <=? c) && (c <? 65536)) as ->.
  { apply eq_true_iff_eq. rewrite andb_true_iff, Z.eqb_eq, Z.leb_le, Z.ltb_lt. zdm. }
  by rewrite orb_assoc.
Qed.

(** The value after some continuation bytes. *)
Definition add_cont (c b : Z) : Z := u32 (Z.shiftl c 6 + Z.land 0x3f b).
Definition conts (bs : list Z) : Prop := Forall (λ b, is_cont b = true) bs.
(** What follows a character: nothing, or a byte that is not a continuation. *)
Definition bound (z : list Z) : Prop := match z with [] => True | b :: _ => is_cont b = false end.

Lemma cont_term_app c bs z :
  conts bs → bound z → cont_term c (bs ++ z) = (fold_left add_cont bs c, z).
Proof.
  intros Hbs Hz. revert c. induction Hbs as [|b bs Hb Hbs IH]; intros c; cbn [app cont_term fold_left].
  - destruct z as [|b z]; [done|]. cbn in *. by rewrite Hz.
  - rewrite Hb. apply IH.
Qed.

Lemma cont_loop_app c bs b z :
  conts bs → is_cont b = false → cont_loop c (bs ++ b :: z) = Some (fold_left add_cont bs c, b :: z).
Proof.
  intros Hbs Hb. revert c. induction Hbs as [|d bs Hd Hbs IH]; intros c; cbn [app cont_loop fold_left].
  - by rewrite Hb.
  - rewrite Hd. apply IH.
Qed.

Lemma skip_cont_app bs b z : conts bs → is_cont b = false → skip_cont (bs ++ b :: z) = Some (b :: z).
Proof.
  intros Hbs Hb. induction Hbs as [|d bs Hd Hbs IH]; cbn [app skip_cont]; [by rewrite Hb|by rewrite Hd].
Qed.

(** Any text is continuation bytes and then a boundary. *)
Lemma split_conts z : ∃ bs z', z = bs ++ z' ∧ conts bs ∧ bound z'.
Proof.
  induction z as [|b z (bs & z' & -> & Hbs & Hz)].
  - exists [], []. split; [done|]. split; [constructor|done].
  - destruct (is_cont b) eqn:E.
    + exists (b :: bs), z'. split; [done|]. split; [by constructor|done].
    + exists [], (b :: bs ++ z'). split; [done|]. split; [constructor|done].
Qed.

Lemma add_cont_range bs c : 0 ≤ c < 2 ^ 32 → 0 ≤ fold_left add_cont bs c < 2 ^ 32.
Proof. revert c. induction bs as [|b bs IH]; intros c Hc; [done|]. cbn. apply IH, u32_range. Qed.

(** The first byte of a multi-byte character. *)
Lemma lead_range b : 192 ≤ b < 256 → ∃ v, sqlite3Utf8Trans1.[b - 192] = Some v ∧ 0 ≤ v < 32.
Proof.
  intros Hb. assert (forallb (λ b, match sqlite3Utf8Trans1.[b - 192] with
    Some v => (0 <=? v) && (v <? 32) | None => false end) (seqZ 192 64) = true) as H by (vm_compute; reflexivity).
  apply (range_all _ 192 64 H) in Hb. cbv beta in Hb. destruct (sqlite3Utf8Trans1.[b - 192]) as [v|]; [|done].
  b2p. exists v. split; [done|lia].
Qed.

Lemma lead_value b : 192 ≤ b < 248 →
  sqlite3Utf8Trans1.[b - 192] =
    Some (if b <? 224 then b - 192 else if b <? 240 then b - 224 else b - 240).
Proof.
  intros Hb. assert (forallb (λ b, bool_decide (sqlite3Utf8Trans1.[b - 192] =
    Some (if b <? 224 then b - 192 else if b <? 240 then b - 224 else b - 240))) (seqZ 192 56) = true) as H
    by (vm_compute; reflexivity).
  apply (range_all _ 192 56 H) in Hb. by apply bool_decide_eq_true_1 in Hb.
Qed.

(** ** The characters of a text

    Every nonempty text starts with a character, which ends at a boundary unless it
    is a single byte.  [READ_UTF8] finds it, and so do the functions that
    rely on the terminator. *)
Inductive char_of : list Z → Z → Prop :=
  | char_one b : 0 ≤ b < 192 → char_of [b] b
  | char_multi b bs v : 192 ≤ b < 256 → conts bs → sqlite3Utf8Trans1.[b - 192] = Some v →
      char_of (b :: bs) (reject (fold_left add_cont bs v)).

(** [z] can follow the character [s]. *)
Definition follows (s z : list Z) : Prop :=
  match s with b :: _ => 192 ≤ b → bound z | [] => False end.

Lemma char_split z : bytes z → z ≠ [] → ∃ s c z', z = s ++ z' ∧ char_of s c ∧ follows s z'.
Proof.
  intros Hz Hne. destruct z as [|b z]; [done|]. apply bytes_cons in Hz as [Hb _].
  destruct (Z.ltb_spec b 192).
  - exists [b], b, z. split; [done|]. split; [constructor; lia|]. cbn. lia.
  - destruct (split_conts z) as (bs & z' & -> & Hbs & Hz). destruct (lead_range b ltac:(lia)) as (v & Hv & _).
    exists (b :: bs), (reject (fold_left add_cont bs v)), z'. split; [done|]. split; [apply char_multi; [lia|done|done]|by intros _].
Qed.

Lemma READ_UTF8_char s c z : char_of s c → follows s z → READ_UTF8 (s ++ z) = Some (c, z).
Proof.
  intros [b Hb|b bs v Hb Hbs Hv] Hf; unfold READ_UTF8; cbn [app]; change ((b :: ?l).[0]) with (Some b);
    cbn [mbind option_bind drop skipn]; rewrite ?drop_0; destruct (Z.leb_spec 0xc0 b); try lia; [done|].
  change 0xc0 with 192. rewrite Hv. cbn [mbind option_bind]. rewrite cont_term_app; [done|done|by apply Hf].
Qed.

Lemma Utf8Read_char s c b z :
  char_of s c → follows s (b :: z) → sqlite3Utf8Read (s ++ b :: z) = Some (c, b :: z).
Proof.
  intros [a Ha|a bs v Ha Hbs Hv] Hf; unfold sqlite3Utf8Read; cbn [app]; change ((a :: ?l).[0]) with (Some a);
    cbn [mbind option_bind drop skipn]; rewrite ?drop_0; destruct (Z.leb_spec 0xc0 a); try lia; [done|].
  change 0xc0 with 192. rewrite Hv. cbn [mbind option_bind].
  rewrite cont_loop_app; [done|done|]. by apply Hf.
Qed.

Lemma SKIP_UTF8_char s c b z :
  char_of s c → follows s (b :: z) → SQLITE_SKIP_UTF8 (s ++ b :: z) = Some (b :: z).
Proof.
  intros [a Ha|a bs v Ha Hbs Hv] Hf; unfold SQLITE_SKIP_UTF8; cbn [app]; change ((a :: ?l).[0]) with (Some a);
    cbn [mbind option_bind drop skipn]; rewrite ?drop_0; destruct (Z.leb_spec 0xc0 a); try lia; [done|].
  apply skip_cont_app; [done|by apply Hf].
Qed.

(** A multi-byte character is never an ASCII character. *)
Lemma char_multi_big b bs v : 192 ≤ b < 256 → sqlite3Utf8Trans1.[b - 192] = Some v →
  128 ≤ reject (fold_left add_cont bs v) < 2 ^ 32.
Proof.
  intros Hb Hv. destruct (lead_range b Hb) as (v' & Hv' & Hr). rewrite Hv in Hv'. injection Hv' as <-.
  pose proof (add_cont_range bs v ltac:(lia)) as Hc. rewrite reject_refused by done.
  destruct (Z.ltb_spec (fold_left add_cont bs v) 128); cbn [orb]; [lia|].
  destruct (refused _); lia.
Qed.

Lemma char_zero s c : text s → char_of s c → 0 < c < 2 ^ 32.
Proof.
  intros Hs Hc. destruct Hc as [b Hb|b bs v Hb Hbs Hv].
  - apply text_cons in Hs as [? _]. lia.
  - pose proof (char_multi_big b bs v Hb Hv). lia.
Qed.

(** ** Well-formed characters *)

Lemma add_cont_val v x : 0 ≤ v < 2 ^ 20 → 0 ≤ x < 64 → add_cont v (128 + x) = v * 64 + x.
Proof.
  intros Hv Hx. unfold add_cont. rewrite land_3f, Z.shiftl_mul_pow2 by lia. change (2 ^ 6) with 64.
  replace ((128 + x) mod 64) with x by zdm. rewrite u32_id; lia.
Qed.

Lemma fold_cont_1 v x : 0 ≤ v < 256 → 0 ≤ x < 64 → fold_left add_cont [128 + x] v = v * 64 + x.
Proof. intros. cbn [fold_left]. rewrite add_cont_val; lia. Qed.
Lemma fold_cont_2 v x y : 0 ≤ v < 256 → 0 ≤ x < 64 → 0 ≤ y < 64 →
  fold_left add_cont [128 + x; 128 + y] v = (v * 64 + x) * 64 + y.
Proof. intros. change (fold_left add_cont [128 + y] (add_cont v (128 + x)) = (v * 64 + x) * 64 + y).
  rewrite add_cont_val by lia. cbn [fold_left]. rewrite add_cont_val; lia. Qed.
Lemma fold_cont_3 v x y w : 0 ≤ v < 16 → 0 ≤ x < 64 → 0 ≤ y < 64 → 0 ≤ w < 64 →
  fold_left add_cont [128 + x; 128 + y; 128 + w] v = ((v * 64 + x) * 64 + y) * 64 + w.
Proof. intros. change (fold_left add_cont [128 + w] (fold_left add_cont [128 + x; 128 + y] v) =
    ((v * 64 + x) * 64 + y) * 64 + w).
  rewrite fold_cont_2 by lia. cbn [fold_left]. rewrite add_cont_val; lia. Qed.

Lemma cont_of x : 0 ≤ x < 64 → is_cont (128 + x) = true.
Proof.
  intros Hx. rewrite is_cont_byte by lia. destruct (Z.leb_spec 128 (128 + x)); [|lia].
  destruct (Z.ltb_spec (128 + x) 192); [done|lia].
Qed.

(** What the reader makes of a code point. *)
Definition readable (c : Z) : Z := if refused c then 65533 else c.

Lemma reject_readable c : 128 ≤ c < 2 ^ 32 → reject c = readable c.
Proof. intros Hc. rewrite reject_refused by lia. destruct (Z.ltb_spec c 128); [lia|done]. Qed.

Lemma char_multi_utf8 b bs v c :
  192 ≤ b < 256 → conts bs → sqlite3Utf8Trans1.[b - 192] = Some v → fold_left add_cont bs v = c →
  128 ≤ c < 2 ^ 32 → char_of (b :: bs) (readable c).
Proof. intros Hb Hbs Hv <- Hc. rewrite <- reject_readable by done. by constructor. Qed.

Lemma conts_1 x : 0 ≤ x < 64 → conts [128 + x].
Proof. intros. unfold conts. by rewrite Forall_singleton, cont_of. Qed.
Lemma conts_cons x bs : 0 ≤ x < 64 → conts bs → conts (128 + x :: bs).
Proof. intros. apply Forall_cons. by rewrite cont_of. Qed.

Lemma mod64 x : 0 ≤ x mod 64 < 64.
Proof. apply Z.mod_pos_bound. lia. Qed.
#[local] Hint Resolve mod64 conts_1 conts_cons : core.

Lemma char_utf8 c : code_point c → char_of (utf8 c) (readable c).
Proof.
  unfold code_point, utf8. intros Hc.
  destruct (Z.ltb_spec c 128).
  { unfold readable, refused. destruct (Z.leb_spec 55296 c); [lia|]. destruct (Z.leb_spec 65534 c); [lia|].
    cbn [andb orb]. apply char_one. lia. }
  destruct (Z.ltb_spec c 2048); [|destruct (Z.ltb_spec c 65536)];
    (eapply char_multi_utf8; [zdm|auto|rewrite lead_value by zdm; reflexivity|
      repeat case_cmp; try (exfalso; zdm);
        first [rewrite fold_cont_1 by zdm|rewrite fold_cont_2 by zdm|rewrite fold_cont_3 by zdm]; zdm|lia]).
Qed.

Lemma utf8_cons c : ∃ b bs, utf8 c = b :: bs.
Proof. unfold utf8. repeat case_match; eauto. Qed.

Lemma utf8_boundary c : code_point c → bound (utf8 c).
Proof.
  unfold code_point, utf8, bound. intros Hc. repeat case_cmp; cbn; rewrite is_cont_byte by zdm;
    repeat case_cmp; done || (exfalso; zdm).
Qed.

Lemma utf8_bytes c : code_point c → bytes (utf8 c).
Proof. unfold code_point, utf8. intros Hc. repeat case_cmp; repeat (apply bytes_cons; split; [zdm|]); constructor. Qed.

Lemma follows_bound s z : s ≠ [] → bound z → follows s z.
Proof. destruct s; [done|]. by intros _ Hz _. Qed.

(** The function and the macro write the same bytes. *)
Lemma AppendOne_emit zOut v : sqlite3AppendOneUtf8Character zOut v = emit zOut 0 (WRITE_UTF8 v).
Proof.
  unfold sqlite3AppendOneUtf8Character, WRITE_UTF8. repeat case_cmp; cbn [emit];
    (repeat (f_equal; apply option_bind_ext_fun; intros ?)); done.
Qed.

Lemma emit_app pre old bs post :
  length old = length bs → emit (pre ++ old ++ post) (zlen pre) bs = Some (pre ++ bs ++ post, zlen pre + zlen bs).
Proof.
  revert pre old. induction bs as [|b bs IH]; intros pre old Hl; destruct old as [|o old]; try done.
  - cbn [emit]. do 2 f_equal. cbn. lia.
  - cbn [emit app]. rewrite wr_middle by done. cbn [mbind option_bind].
    replace (pre ++ b :: old ++ post) with ((pre ++ [b]) ++ old ++ post) by (by rewrite <- app_assoc).
    replace (zlen pre + 1) with (zlen (pre ++ [b])) by len. rewrite IH by (cbn in Hl; lia).
    rewrite <- app_assoc. do 2 f_equal. len.
Qed.

(** ** Texts *)

Fixpoint chars_fuel (fuel : nat) (z : list Z) : list Z :=
  match fuel with
  | O => []
  | S fuel' => match READ_UTF8 z with Some (c, z') => c :: chars_fuel fuel' z' | None => [] end
  end.

(** The code points that a byte sequence is read as. *)
Definition chars (z : list Z) : list Z := chars_fuel (length z) z.

Lemma char_nonempty s c : char_of s c → (0 < length s)%nat.
Proof. destruct 1; cbn; lia. Qed.

Lemma chars_fuel_enough f z : bytes z → (length z ≤ f)%nat → chars_fuel f z = chars_fuel (length z) z.
Proof.
  remember (length z) as n eqn:Hn. revert z f Hn.
  induction (lt_wf n) as [n _ IH]. intros z f Hn Hz Hf. destruct (decide (z = [])) as [->|Hne].
  - subst n. by destruct f.
  - destruct (char_split z Hz Hne) as (s & c & z' & -> & Hc & Hfo). pose proof (char_nonempty _ _ Hc).
    apply bytes_app in Hz as [_ Hz']. rewrite length_app in Hn.
    destruct f as [|f]; [lia|]. destruct n as [|n]; [lia|]. cbn [chars_fuel].
    rewrite (READ_UTF8_char s c z' Hc Hfo). f_equal.
    rewrite (IH (length z') ltac:(lia) z' f eq_refl Hz' ltac:(lia)).
    by rewrite (IH (length z') ltac:(lia) z' n eq_refl Hz' ltac:(lia)).
Qed.

Lemma chars_app s c z : bytes z → char_of s c → follows s z → chars (s ++ z) = c :: chars z.
Proof.
  intros Hz Hc Hf. unfold chars. pose proof (char_nonempty _ _ Hc). rewrite length_app.
  destruct (length s + length z)%nat as [|n] eqn:E; [lia|]. cbn [chars_fuel].
  rewrite (READ_UTF8_char s c z Hc Hf). f_equal. apply chars_fuel_enough; [done|lia].
Qed.

Lemma chars_nil : chars [] = [].
Proof. done. Qed.

(** The encoding forms of a sequence of code points. *)
Definition encode8 (cs : list Z) : list Z := cs ≫= utf8.
Definition encode16 (le : bool) (cs : list Z) : list Z := cs ≫= utf16 le.

Lemma encode8_bound cs : Forall code_point cs → bound (encode8 cs).
Proof.
  intros H. destruct H as [|c cs Hc H]; [done|]. unfold encode8. rewrite bind_cons.
  pose proof (utf8_boundary c Hc) as Hb. revert Hb. by destruct (utf8_cons c) as (b & bs & ->).
Qed.

Lemma encode8_bytes cs : Forall code_point cs → bytes (encode8 cs).
Proof.
  intros H. induction H as [|c cs Hc H IH]; [constructor|]. unfold encode8. rewrite bind_cons.
  apply bytes_app. split; [by apply utf8_bytes|done].
Qed.

Lemma utf8_follows c z : bound z → follows (utf8 c) z.
Proof. destruct (utf8_cons c) as (b & bs & ->). by intros Hz _. Qed.

Lemma chars_encode8 cs : Forall code_point cs → chars (encode8 cs) = readable <$> cs.
Proof.
  intros H. induction H as [|c cs Hc H IH]; [done|]. unfold encode8. rewrite bind_cons.
  rewrite (chars_app _ (readable c)); [cbn; by rewrite <- IH|by apply encode8_bytes|by apply char_utf8|].
  apply utf8_follows. by apply encode8_bound.
Qed.

(** ** Counting characters *)

Lemma text_follows s rest z : text rest → follows s rest → follows s (rest ++ 0 :: z).
Proof.
  intros Hr Hf. destruct s as [|b s]; [done|]. intros Hb. apply Hf in Hb. by destruct rest.
Qed.

(** A text and what follows its terminator, one character at a time. *)
Lemma text_split s rest : text s → s ≠ [] →
  ∃ t c s', s = t ++ s' ∧ text s' ∧ char_of t c ∧ follows t s' ∧ 0 < c < 2 ^ 32 ∧ chars s = c :: chars s' ∧
    sqlite3Utf8Read (s ++ 0 :: rest) = Some (c, s' ++ 0 :: rest) ∧
    SQLITE_SKIP_UTF8 (s ++ 0 :: rest) = Some (s' ++ 0 :: rest).
Proof.
  intros Hs Hne. destruct (char_split s (text_bytes s Hs) Hne) as (t & c & s' & -> & Hc & Hf).
  apply text_app in Hs as [Ht Hs']. pose proof (text_follows t s' rest Hs' Hf) as Hf'.
  exists t, c, s'. split; [done|]. split; [done|]. split; [done|]. split; [done|].
  split; [by apply (char_zero t)|]. split; [apply chars_app; [by apply text_bytes|done|done]|].
  rewrite <- app_assoc.
  destruct s' as [|b s']; cbn [app] in *; (split; [by apply Utf8Read_char|by eapply SKIP_UTF8_char]).
Qed.

Lemma charlen_loop_all fuel s rest r : text s → (length s < fuel)%nat →
  charlen_loop fuel (s ++ 0 :: rest) None r = Some (r + zlen (chars s)).
Proof.
  revert s r. induction fuel as [|fuel IH]; intros s r Hs Hf; [lia|]. cbn [charlen_loop].
  destruct (decide (s = [])) as [->|Hne].
  { rewrite chars_nil. cbn [length]. by rewrite Z.add_0_r. }
  destruct (text_split s rest Hs Hne) as (t & c & s' & -> & Hs' & Hc & Hfo & _ & -> & _ & Hskip).
  rewrite Hskip. pose proof (char_nonempty _ _ Hc). len_in Hf.
  destruct t as [|b t]; [by cbn in *; lia|]. cbn [app]. change ((b :: ?l).[0]) with (Some b). cbn [mbind option_bind].
  apply text_app in Hs as [[Hb _]%text_cons _]. destruct (Z.eqb_spec b 0); [lia|]. cbn [negb andb].
  rewrite IH by (done || lia). f_equal. cbn [length]. lia.
Qed.

(** ** Bounded reads *)

Lemma limited_loop_bounds fuel z n i c :
  bytes z → 1 ≤ i ≤ n → n ≤ zlen z → n - i < Z.of_nat fuel →
  ∃ c' i', limited_loop fuel z n i c = Some (c', i') ∧ i ≤ i' ≤ n.
Proof.
  intros Hz. revert i c. induction fuel as [|fuel IH]; intros i c Hi Hn Hf; [lia|]. cbn [limited_loop].
  destruct (Z.ltb_spec i n); [|exists c, i; split; [done|lia]].
  destruct (rd_in_bounds z i ltac:(lia)) as [b Hb]. rewrite Hb. cbn [mbind option_bind].
  destruct (is_cont b); [|exists c, i; split; [done|lia]].
  edestruct (IH (i + 1)) as (c' & i' & E & Hi'); [lia|lia|lia|]. rewrite E. exists c', i'. split; [done|lia].
Qed.

Lemma limited_loop_conts fuel bs pre z n c :
  conts bs → zlen pre + zlen bs ≤ n → (length bs < fuel)%nat →
  (n = zlen pre + zlen bs ∨ ∃ b z', z = b :: z' ∧ is_cont b = false) →
  limited_loop fuel (pre ++ bs ++ z) n (zlen pre) c = Some (fold_left add_cont bs c, zlen pre + zlen bs).
Proof.
  revert bs pre c. induction fuel as [|fuel IH]; intros bs pre c Hbs Hn Hf Hend; [lia|].
  cbn [limited_loop]. destruct Hbs as [|b bs Hb Hbs]; cbn [app fold_left].
  - cbn [length] in *. rewrite Z.add_0_r in *. destruct (Z.ltb_spec (zlen pre) n); [|done].
    destruct Hend as [|(b & z' & -> & Hb)]; [lia|]. rewrite rd_app_head. cbn [mbind option_bind]. by rewrite Hb.
  - destruct (Z.ltb_spec (zlen pre) n); [|cbn [length] in *; lia]. rewrite rd_app_head. cbn [mbind option_bind].
    rewrite Hb. replace (pre ++ b :: bs ++ z) with ((pre ++ [b]) ++ bs ++ z) by (by rewrite <- app_assoc).
    replace (zlen pre + 1) with (zlen (pre ++ [b])) by len. cbn [length] in *.
    rewrite IH; [f_equal; f_equal; len|done|len|lia|]. destruct Hend as [->|?]; [left; len|by right].
Qed.

Lemma ReadLimited_bounds z limit :
  bytes z → 0 < limit ≤ zlen z →
  ∃ v k, sqlite3Utf8ReadLimited z limit = Some (v, k) ∧ 1 ≤ k ≤ Z.min 4 limit.
Proof.
  intros Hz Hl. unfold sqlite3Utf8ReadLimited. destruct (rd_in_bounds z 0 ltac:(lia)) as [b Hb]. rewrite Hb.
  cbn [mbind option_bind]. pose proof (bytes_rd _ _ _ Hz Hb). destruct (Z.leb_spec 0xc0 b).
  - destruct (lead_range b ltac:(lia)) as (v & Hv & _). change 0xc0 with 192. rewrite Hv. cbn [mbind option_bind].
    destruct (Z.ltb_spec 4 limit).
    + destruct (limited_loop_bounds 4 z 4 1 v Hz) as (c' & i' & -> & Hi); [lia..|]. exists c', i'. split; [done|lia].
    + destruct (limited_loop_bounds 4 z limit 1 v Hz) as (c' & i' & -> & Hi); [lia..|]. exists c', i'. split; [done|lia].
  - exists b, 1. split; [done|lia].
Qed.

(** The value of a code point before the noncharacters are refused. *)
Lemma utf8_fold c : code_point c → ∃ b bs, utf8 c = b :: bs ∧ conts bs ∧
  (if 192 <=? b then ∃ v, sqlite3Utf8Trans1.[b - 192] = Some v ∧ fold_left add_cont bs v = c ∧ (length bs ≤ 3)%nat
   else b = c ∧ bs = []).
Proof.
  unfold code_point, utf8. intros Hc.
  destruct (Z.ltb_spec c 128).
  { exists c, []. split; [done|]. split; [constructor|]. destruct (Z.leb_spec 192 c); [lia|done]. }
  destruct (Z.ltb_spec c 2048); [|destruct (Z.ltb_spec c 65536)];
    (do 2 eexists; split; [reflexivity|]; split; [auto|];
     match goal with |- context [192 <=? ?b] => destruct (Z.leb_spec 192 b); [|exfalso; zdm] end;
     eexists; split; [rewrite lead_value by zdm; reflexivity|]; split; [|cbn; lia];
     repeat case_cmp; try (exfalso; zdm);
     first [rewrite fold_cont_1 by zdm|rewrite fold_cont_2 by zdm|rewrite fold_cont_3 by zdm]; zdm).
Qed.

Lemma ReadLimited_utf8 c rest :
  code_point c → bound rest →
  sqlite3Utf8ReadLimited (utf8 c ++ rest) (zlen (utf8 c ++ rest)) = Some (c, zlen (utf8 c)).
Proof.
  intros Hc Hrest. destruct (utf8_fold c Hc) as (b & bs & Eu & Hbs & Hb). rewrite Eu. unfold sqlite3Utf8ReadLimited.
  cbn [app]. change ((b :: ?l).[0]) with (Some b). cbn [mbind option_bind]. change 0xc0 with 192.
  destruct (Z.leb_spec 192 b).
  - destruct Hb as (v & -> & Hv & Hl). cbn [mbind option_bind].
    set (lim := if 4 <? _ then 4 else _).
    pose proof (limited_loop_conts 4 bs [b] rest lim v Hbs) as E. cbn [length app] in E.
    change (Z.of_nat 1) with 1 in E.
    assert (1 + zlen bs ≤ lim ∧ (lim = 1 + zlen bs ∨ rest ≠ [])) as [Hlim Hend].
    { subst lim. assert (zlen (b :: bs ++ rest) = 1 + zlen bs + zlen rest) as -> by len.
      destruct (Z.ltb_spec 4 (1 + zlen bs + zlen rest)); (split; [lia|]);
        (destruct rest; [left; cbn [length] in *; lia|by right]). }
    rewrite E; [|done|lia|].
    + rewrite Hv. do 2 f_equal. cbn [length]. lia.
    + destruct Hend as [|Hne]; [by left|]. right. destruct rest as [|d r]; [done|]. by exists d, r.
  - destruct Hb as [-> ->]. done.
Qed.

(** ** Stores *)

Lemma emit_prefix pre old bs :
  (length bs ≤ length old)%nat →
  emit (pre ++ old) (zlen pre) bs = Some (pre ++ bs ++ drop (length bs) old, zlen pre + zlen bs).
Proof.
  intros Hl. rewrite <- (take_drop (length bs) old) at 1. apply emit_app. rewrite length_take. lia.
Qed.

Definition WRITE_UTF16 (le : bool) (c : Z) : list Z := if le then WRITE_UTF16LE c else WRITE_UTF16BE c.

Lemma WRITE_UTF16_length le c : length (WRITE_UTF16 le c) = if c <=? 65535 then 2%nat else 4%nat.
Proof. unfold WRITE_UTF16, WRITE_UTF16LE, WRITE_UTF16BE. destruct le; by case_cmp. Qed.

Lemma WRITE_UTF8_length c :
  length (WRITE_UTF8 c) = if c <? 128 then 1%nat else if c <? 2048 then 2%nat else if c <? 65536 then 3%nat else 4%nat.
Proof. unfold WRITE_UTF8. by repeat case_cmp. Qed.

(** UTF-16 is at most twice as long as UTF-8. *)
Lemma char_growth le s c : char_of s c → (length (WRITE_UTF16 le c) ≤ 2 * length s)%nat.
Proof.
  intros Hc. rewrite WRITE_UTF16_length. destruct Hc as [b Hb|b bs v Hb Hbs Hv]; cbn [length].
  - destruct (Z.leb_spec b 65535); lia.
  - destruct bs as [|x bs]; [|cbn [length]; destruct (_ <=? _); lia]. cbn [fold_left].
    destruct (lead_range b Hb) as (v' & Hv' & Hr). rewrite Hv in Hv'. injection Hv' as <-.
    rewrite reject_refused by lia. destruct (Z.ltb_spec v 128); [cbn; lia|lia].
Qed.

Lemma to16_loop_correct fuel le s pre old :
  bytes s → (length s < fuel)%nat → (2 * length s ≤ length old)%nat →
  let w := chars s ≫= WRITE_UTF16 le in
  (length w ≤ 2 * length s)%nat ∧
  to16_loop fuel le s (pre ++ old) (zlen pre) = Some (pre ++ w ++ drop (length w) old, zlen pre + zlen w).
Proof.
  revert s pre old. induction fuel as [|fuel IH]; intros s pre old Hs Hf Ho; [lia|]. cbn [to16_loop].
  destruct (decide (s = [])) as [->|Hne].
  { cbn [mbind list_bind length app drop chars chars_fuel]. rewrite Z.add_0_r. split; [lia|done]. }
  destruct (char_split s Hs Hne) as (t & c & s' & -> & Hc & Hfo). pose proof (char_nonempty _ _ Hc).
  pose proof (char_growth le t c Hc). apply bytes_app in Hs as [_ Hs']. len_in Hf. len_in Ho.
  rewrite (chars_app t c s') by done. rewrite bind_cons.
  destruct (t ++ s') as [|x l] eqn:E; [by destruct t|]. rewrite <- E. clear E x l Hne.
  rewrite (READ_UTF8_char t c s') by done. cbn [mbind option_bind].
  change (if le then WRITE_UTF16LE c else WRITE_UTF16BE c) with (WRITE_UTF16 le c).
  rewrite emit_prefix by lia. cbn [mbind option_bind].
  set (bs := WRITE_UTF16 le c) in *. set (w := chars s' ≫= WRITE_UTF16 le).
  destruct (IH s' (pre ++ bs) (drop (length bs) old) Hs' ltac:(lia)) as [Hl Ee].
  { rewrite length_drop. lia. }
  fold w in Hl, Ee. split; [len|].
  replace (zlen pre + zlen bs) with (zlen (pre ++ bs)) by len.
  rewrite (app_assoc pre bs), Ee. rewrite drop_drop, length_app, <- !app_assoc.
  f_equal. f_equal; [do 4 f_equal; len|len].
Qed.

(** ** Code units *)

Definition unit_ok (u : Z) : Prop := 0 ≤ u < 65536.
Definition surrogate (u : Z) : bool := (55296 <=? u) && (u <? 57344).

(** What the code makes of a surrogate and the unit after it, whatever it is. *)
Definition combine (u u2 : Z) : Z :=
  Z.land u2 0x03FF + Z.shiftl (Z.land u 0x003F) 10 + Z.shiftl (Z.land u 0x03C0 + 0x0040) 10.

(** The code points that a sequence of units is read as. *)
Fixpoint pairs (us : list Z) : list Z :=
  match us with
  | [] => []
  | u :: us =>
      if surrogate u then match us with [] => [u] | u2 :: us' => combine u u2 :: pairs us' end
      else u :: pairs us
  end.

Definition unit_seq (le : bool) (us : list Z) : list Z := us ≫= unit_bytes le.

Lemma unit_bytes_length le u : length (unit_bytes le u) = 2%nat.
Proof. by destruct le. Qed.

Lemma unit_seq_length le us : length (unit_seq le us) = (2 * length us)%nat.
Proof.
  induction us as [|u us IH]; [done|]. unfold unit_seq. rewrite bind_cons, length_app, unit_bytes_length.
  unfold unit_seq in IH. rewrite IH. cbn [length]. lia.
Qed.

Lemma unit_seq_cons le u us : unit_seq le (u :: us) = unit_bytes le u ++ unit_seq le us.
Proof. apply bind_cons. Qed.

Lemma unit_seq_app le us vs : unit_seq le (us ++ vs) = unit_seq le us ++ unit_seq le vs.
Proof. apply bind_app. Qed.

(** Bytes of even number are code units. *)
Lemma units_of_bytes le s (k : nat) : bytes s → length s = (2 * k)%nat → ∃ us, s = unit_seq le us ∧ Forall unit_ok us.
Proof.
  revert s. induction k as [|k IH]; intros s Hs Hl.
  - exists []. destruct s; [|done]. split; [done|constructor].
  - destruct s as [|a [|b s]]; [done|cbn in Hl; lia|]. apply bytes_cons in Hs as [Ha [Hb Hs]%bytes_cons].
    destruct (IH s Hs) as (us & -> & Hus); [cbn in Hl; lia|].
    exists ((if le then a + b * 256 else a * 256 + b) :: us). split.
    + rewrite unit_seq_cons. destruct le; cbn [unit_bytes app]; do 2 (apply (f_equal2 cons); [zdm|]); done.
    + constructor; [|done]. unfold unit_ok. destruct le; lia.
Qed.

Lemma unit16_unit le u s : unit_ok u → unit16 le (unit_bytes le u ++ s) = Some (u, s).
Proof.
  intros Hu. unfold unit16, unit_ok in *.
  destruct le; cbn [unit_bytes app]; change ((?a :: ?b :: s).[0]) with (Some a); change ((?a :: ?b :: s).[1]) with (Some b);
    cbn [mbind option_bind drop skipn]; rewrite Z.shiftl_mul_pow2, ?drop_0 by lia; change (2 ^ 8) with 256;
    do 2 f_equal; zdm.
Qed.

Lemma combine_range u u2 : code_point (combine u u2) ∧ 65536 ≤ combine u u2.
Proof. unfold code_point, combine. rewrite !Z.shiftl_mul_pow2 by lia. masks. zdm. Qed.

Lemma combine_pair c : 65536 ≤ c < 1114112 →
  combine (55296 + (c - 65536) / 1024) (56320 + (c - 65536) mod 1024) = c.
Proof. intros Hc. unfold combine. rewrite !Z.shiftl_mul_pow2 by lia. masks. zdm. Qed.

(** UTF-8 is at most twice as long as UTF-16. *)
Lemma unit_growth u : unit_ok u → (length (WRITE_UTF8 u) ≤ 4)%nat ∧ (length (WRITE_UTF8 u) ≤ 3)%nat.
Proof. intros Hu. rewrite WRITE_UTF8_length. unfold unit_ok in Hu. repeat case_cmp; lia. Qed.

Lemma WRITE_UTF8_max c : (length (WRITE_UTF8 c) ≤ 4)%nat.
Proof. rewrite WRITE_UTF8_length. repeat case_cmp; lia. Qed.

Lemma pairs_ind (P : list Z → Prop) :
  P [] → (∀ u, surrogate u = true → P [u]) →
  (∀ u u2 us, surrogate u = true → P us → P (u :: u2 :: us)) →
  (∀ u us, surrogate u = false → P us → P (u :: us)) → ∀ us, P us.
Proof.
  intros H0 H1 H2 H3 us. remember (length us) as k eqn:Hk. revert us Hk.
  induction (lt_wf k) as [k _ IH]. intros us ->.
  destruct us as [|u us]; [done|]. destruct (surrogate u) eqn:E.
  - destruct us as [|u2 us]; [by apply H1|]. apply H2; [done|]. apply (IH (length us)); [cbn; lia|done].
  - apply H3; [done|]. apply (IH (length us)); [cbn; lia|done].
Qed.

Lemma unit_seq_shape le u us : ∃ b l, unit_seq le (u :: us) = b :: l.
Proof. rewrite unit_seq_cons. destruct le; cbn; eauto. Qed.

(** One turn of the loop: the character and the rest. *)
Definition turn8 (le : bool) (zIn : list Z) : option (Z * list Z) :=
  '(c, zIn) ← unit16 le zIn;
  (if (0xd800 <=? c) && (c <? 0xe000) then
     match zIn with
     | [] => Some (c, zIn)
     | _ =>
         '(c2, zIn) ← unit16 le zIn;
         Some (Z.land c2 0x03FF + Z.shiftl (Z.land c 0x003F) 10
                 + Z.shiftl (Z.land c 0x03C0 + 0x0040) 10, zIn)
     end
   else Some (c, zIn)).

Lemma to8_loop_turn fuel le zIn out z :
  zIn ≠ [] →
  to8_loop (S fuel) le zIn out z =
    ('(c, zIn) ← turn8 le zIn; '(out, z) ← emit out z (WRITE_UTF8 c); to8_loop fuel le zIn out z).
Proof.
  intros Hne. destruct zIn as [|b l]; [done|]. cbn [to8_loop]. unfold turn8.
  destruct (unit16 le (b :: l)) as [[c r]|]; [|done]. done.
Qed.

Lemma turn8_unit le u us : unit_ok u → surrogate u = false → turn8 le (unit_seq le (u :: us)) = Some (u, unit_seq le us).
Proof.
  intros Hu E. unfold turn8. rewrite unit_seq_cons, unit16_unit by done. cbn [mbind option_bind].
  change ((0xd800 <=? u) && (u <? 0xe000)) with (surrogate u). by rewrite E.
Qed.

Lemma turn8_pair le u u2 us : unit_ok u → unit_ok u2 → surrogate u = true →
  turn8 le (unit_seq le (u :: u2 :: us)) = Some (combine u u2, unit_seq le us).
Proof.
  intros Hu Hu2 E. unfold turn8. rewrite unit_seq_cons, unit16_unit by done. cbn [mbind option_bind].
  change ((0xd800 <=? u) && (u <? 0xe000)) with (surrogate u). rewrite E.
  destruct (unit_seq_shape le u2 us) as (b & l & Eq). rewrite Eq, <- Eq.
  by rewrite unit_seq_cons, unit16_unit.
Qed.

Lemma turn8_last le u : unit_ok u → surrogate u = true → turn8 le (unit_seq le [u]) = Some (u, []).
Proof.
  intros Hu E. unfold turn8. rewrite unit_seq_cons, unit16_unit by done. cbn [mbind option_bind].
  change ((0xd800 <=? u) && (u <? 0xe000)) with (surrogate u). by rewrite E.
Qed.

Definition to8_ok (le : bool) (zIn cs : list Z) : Prop :=
  let w := cs ≫= WRITE_UTF8 in
  ∀ fuel pre old, (length zIn < fuel)%nat → (2 * length zIn ≤ length old)%nat →
  (length w ≤ 2 * length zIn)%nat ∧
  to8_loop fuel le zIn (pre ++ old) (zlen pre) = Some (pre ++ w ++ drop (length w) old, zlen pre + zlen w).

Lemma to8_ok_nil le : to8_ok le [] [].
Proof.
  unfold to8_ok. intros fuel pre old Hf Ho. destruct fuel as [|fuel]; [cbn in Hf; lia|].
  cbn [mbind list_bind length app drop to8_loop]. rewrite Z.add_0_r. split; [lia|done].
Qed.

Lemma to8_ok_step le zIn c r cs :
  turn8 le zIn = Some (c, r) → (2 + length r ≤ length zIn)%nat → to8_ok le r cs → to8_ok le zIn (c :: cs).
Proof.
  intros Ht Hr IH. unfold to8_ok. intros fuel pre old Hf Ho. rewrite bind_cons.
  destruct fuel as [|fuel]; [lia|]. rewrite to8_loop_turn by (intros ->; cbn in Hr; lia). rewrite Ht.
  cbn [mbind option_bind]. pose proof (WRITE_UTF8_max c).
  rewrite emit_prefix by lia. cbn [mbind option_bind]. set (bs := WRITE_UTF8 c) in *. set (w := cs ≫= WRITE_UTF8).
  destruct (IH fuel (pre ++ bs) (drop (length bs) old) ltac:(lia)) as [Hl Ee]; [rewrite length_drop; lia|].
  fold w in Hl, Ee. split; [len|].
  replace (zlen pre + zlen bs) with (zlen (pre ++ bs)) by len.
  rewrite (app_assoc pre bs), Ee, drop_drop, <- !app_assoc. f_equal. f_equal; [do 4 f_equal; len|len].
Qed.

Lemma to8_loop_correct le us : Forall unit_ok us → to8_ok le (unit_seq le us) (pairs us).
Proof.
  revert us. apply (pairs_ind (λ us, Forall unit_ok us → to8_ok le (unit_seq le us) (pairs us))).
  - intros _. apply to8_ok_nil.
  - intros u E H. apply Forall_cons in H as [Hu _]. cbn [pairs]. rewrite E. eapply to8_ok_step.
    + by apply turn8_last.
    + rewrite unit_seq_length. cbn. lia.
    + apply to8_ok_nil.
  - intros u u2 us E IH H. apply Forall_cons in H as [Hu [Hu2 H]%Forall_cons]. cbn [pairs]. rewrite E.
    eapply to8_ok_step; [by apply turn8_pair| |by apply IH]. rewrite !unit_seq_length. cbn [length]. lia.
  - intros u us E IH H. apply Forall_cons in H as [Hu H]. cbn [pairs]. rewrite E.
    eapply to8_ok_step; [by apply turn8_unit| |by apply IH]. rewrite !unit_seq_length. cbn [length]. lia.
Qed.

Lemma pairs_range us : Forall unit_ok us → Forall code_point (pairs us).
Proof.
  revert us. apply (pairs_ind (λ us, Forall unit_ok us → Forall code_point (pairs us))).
  - constructor.
  - intros u E H. apply Forall_cons in H as [Hu _]. cbn [pairs]. rewrite E. constructor; [|constructor].
    unfold code_point, unit_ok in *. lia.
  - intros u u2 us E IH H. apply Forall_cons in H as [Hu [Hu2 H]%Forall_cons]. cbn [pairs]. rewrite E.
    constructor; [apply combine_range|by apply IH].
  - intros u us E IH H. apply Forall_cons in H as [Hu H]. cbn [pairs]. rewrite E.
    constructor; [unfold code_point, unit_ok in *; lia|by apply IH].
Qed.

Lemma utf8_text c : code_point c → c ≠ 0 → text (utf8 c).
Proof.
  unfold code_point, utf8. intros Hc Hn. repeat case_cmp; repeat (apply text_cons; split; [zdm|]); constructor.
Qed.

Lemma encode8_text cs : Forall code_point cs → Forall (λ c, c ≠ 0) cs → text (encode8 cs).
Proof.
  intros H Hn. induction H as [|c cs Hc H IH]; [constructor|]. apply Forall_cons in Hn as [Hc0 Hn].
  unfold encode8. rewrite bind_cons. apply text_app. split; [by apply utf8_text|by apply IH].
Qed.

(** ** Well-formed UTF-16 *)

(** Code points that both encoding forms represent and that the reader accepts. *)
Definition scalar (c : Z) : Prop := code_point c ∧ refused c = false.

Definition units (c : Z) : list Z :=
  if c <? 65536 then [c] else [55296 + (c - 65536) / 1024; 56320 + (c - 65536) mod 1024].

Lemma utf16_units le c : utf16 le c = unit_seq le (units c).
Proof. unfold utf16, units, unit_seq. case_cmp; cbn [mbind list_bind app]; by rewrite app_nil_r. Qed.

Lemma encode16_units le cs : encode16 le cs = unit_seq le (cs ≫= units).
Proof.
  unfold encode16. induction cs as [|c cs IH]; [done|]. rewrite !bind_cons, unit_seq_app, utf16_units. by rewrite IH.
Qed.

Lemma units_ok cs : Forall code_point cs → Forall unit_ok (cs ≫= units).
Proof.
  intros H. induction H as [|c cs Hc H IH]; [constructor|]. rewrite bind_cons. apply Forall_app. split; [|done].
  unfold units, code_point, unit_ok in *. case_cmp; repeat constructor; zdm.
Qed.

Lemma scalar_code_point cs : Forall scalar cs → Forall code_point cs.
Proof. intros H. eapply Forall_impl; [exact H|]. by intros c [? _]. Qed.

Lemma scalar_not_surrogate c : scalar c → surrogate c = false.
Proof. intros [_ H]. unfold refused in H. unfold surrogate. by apply orb_false_iff in H as [? _]. Qed.

Lemma readable_scalar cs : Forall scalar cs → readable <$> cs = cs.
Proof.
  intros H. induction H as [|c cs [_ Hc] H IH]; [done|]. cbn. unfold readable at 1. by rewrite Hc, IH.
Qed.

Lemma pairs_units cs : Forall scalar cs → pairs (cs ≫= units) = cs.
Proof.
  intros H. induction H as [|c cs Hc H IH]; [done|]. rewrite bind_cons. unfold units at 1.
  pose proof (scalar_not_surrogate c Hc) as Hs. destruct Hc as [Hc _]. unfold code_point in Hc.
  destruct (Z.ltb_spec c 65536); cbn [app pairs].
  - by rewrite Hs, IH.
  - assert (surrogate (55296 + (c - 65536) / 1024) = true) as ->.
    { unfold surrogate. apply andb_true_iff. rewrite Z.leb_le, Z.ltb_lt. zdm. }
    by rewrite combine_pair, IH by lia.
Qed.

Lemma bind_ext_Forall {A B} (f g : A → list B) l : Forall (λ x, f x = g x) l → l ≫= f = l ≫= g.
Proof. intros H. induction H as [|x l Hx H IH]; [done|]. by rewrite !bind_cons, Hx, IH. Qed.

Lemma WRITE16_encode le cs : Forall code_point cs → cs ≫= WRITE_UTF16 le = encode16 le cs.
Proof.
  intros H. apply bind_ext_Forall. eapply Forall_impl; [exact H|]. intros c Hc. by apply WRITE_UTF16_utf16.
Qed.

Lemma WRITE8_encode cs : Forall code_point cs → cs ≫= WRITE_UTF8 = encode8 cs.
Proof.
  intros H. apply bind_ext_Forall. eapply Forall_impl; [exact H|]. intros c Hc. by apply WRITE_UTF8_utf8.
Qed.

(** ** Values *)

(** The value is a string with these bytes in this encoding. *)
Definition holds (p : Mem) (e : Z) (s : list Z) : Prop :=
  enc p = e ∧ n p = zlen s ∧ (∃ rest, z p = s ++ rest) ∧ Z.testbit (flags p) 1 = true.

(** The bytes that terminate a string follow it. *)
Definition terminated (p : Mem) : Prop :=
  (z p).[n p] = Some 0 ∧ (enc p ≠ SQLITE_UTF8 → (z p).[n p + 1] = Some 0).

Lemma swap_loop_correct fuel le us pre post :
  Forall unit_ok us → (length us < fuel)%nat →
  swap_loop fuel (pre ++ unit_seq le us ++ post) (zlen pre) (zlen pre + zlen (unit_seq le us)) =
    Some (pre ++ unit_seq (negb le) us ++ post).
Proof.
  revert us pre. induction fuel as [|fuel IH]; intros us pre Hus Hf; [lia|]. cbn [swap_loop].
  destruct Hus as [|u us Hu Hus].
  { cbn [length unit_seq mbind list_bind]. rewrite Z.add_0_r. by rewrite Z.ltb_irrefl. }
  cbn [length] in Hf. rewrite !unit_seq_cons. rewrite !length_app, unit_bytes_length.
  destruct (Z.ltb_spec (zlen pre) (zlen pre + Z.of_nat (2 + length (unit_seq le us)))); [|lia].
  assert (∃ a b, unit_bytes le u = [a; b] ∧ unit_bytes (negb le) u = [b; a]) as (a & b & -> & ->)
    by (destruct le; eauto).
  rewrite <- app_assoc. cbn [app]. rewrite rd_app_head. cbn [mbind option_bind].
  replace (pre ++ a :: b :: unit_seq le us ++ post) with ((pre ++ [a]) ++ b :: unit_seq le us ++ post)
    by (by rewrite <- app_assoc).
  replace (zlen pre + 1) with (zlen (pre ++ [a])) by len. rewrite rd_app_head. cbn [mbind option_bind].
  rewrite <- app_assoc at 1. cbn [app]. rewrite wr_middle by done. cbn [mbind option_bind].
  replace (pre ++ b :: b :: unit_seq le us ++ post) with ((pre ++ [b]) ++ b :: unit_seq le us ++ post)
    by (by rewrite <- app_assoc).
  rewrite wr_middle by len. cbn [mbind option_bind].
  replace ((pre ++ [b]) ++ a :: unit_seq le us ++ post) with ((pre ++ [b; a]) ++ unit_seq le us ++ post)
    by (by rewrite <- !app_assoc).
  replace (zlen pre + 2) with (zlen (pre ++ [b; a])) by len.
  replace (zlen pre + Z.of_nat (2 + length (unit_seq le us))) with (zlen (pre ++ [b; a]) + zlen (unit_seq le us)) by len.
  rewrite IH by (done || lia). by rewrite <- !app_assoc.
Qed.

Lemma even_mask x : 0 ≤ x → Z.land x (Z.lnot 1) = x - x mod 2.
Proof.
  intros Hx. rewrite <- Z.ldiff_land. change 1 with (Z.ones 1). rewrite Z.ldiff_ones_r by lia.
  rewrite Z.shiftl_mul_pow2, Z.shiftr_div_pow2 by lia. change (2 ^ 1) with 2. zdm.
Qed.

(** Memory for the result of a request of [k] bytes, if there is any. *)
Definition provides (raw : option (list Z)) (k : Z) : Prop :=
  match raw with Some buf => k ≤ zlen buf | None => False end.

Lemma str_flag f : Z.testbit f 1 = true → (Z.land f (Z.lor MEM_Str MEM_Blob) =? 0) = false.
Proof.
  intros H. apply Z.eqb_neq. intros E. assert (Z.testbit (Z.land f (Z.lor MEM_Str MEM_Blob)) 1 = false) as Hb
    by (by rewrite E). by rewrite Z.land_spec, H in Hb.
Qed.

Lemma MakeWriteable_correct p e s raw :
  holds p e s → provides raw (n p + 3) →
  ∃ p', sqlite3VdbeMemMakeWriteable p raw = Some (SQLITE_OK, p') ∧ holds p' e s.
Proof.
  intros (He & Hn & (rest & Hz) & Hfl) Hraw. unfold sqlite3VdbeMemMakeWriteable.
  rewrite (str_flag _ Hfl). cbn [negb].
  destruct ((szMalloc p =? 0) || negb (own p)) eqn:Eo.
  - destruct raw as [buf|]; [|done]. cbn in Hraw. unfold vdbeMemAddTerminator, sqlite3VdbeMemGrow. cbn [andb].
    assert ((0 <? szMalloc p) && true && own p = false) as ->.
    { apply orb_true_iff in Eo as [H|H]; [apply Z.eqb_eq in H; by rewrite H|].
      apply negb_true_iff in H. by rewrite H, andb_false_r. }
    rewrite Hz, Hn, Nat2Z.id, take_app_length.
    pose proof (emit_prefix [] buf s ltac:(lia)) as Ee. cbn [app length] in Ee. change (Z.of_nat 0) with 0 in Ee. rewrite Ee.
    cbn [fmap option_fmap option_map fst mbind option_bind].
    assert (∃ x y w l, drop (length s) buf = x :: y :: w :: l) as (x & y & w & l & Ed).
    { destruct (drop (length s) buf) as [|x [|y [|w l]]] eqn:Ed; try eauto 6;
        apply (f_equal length) in Ed; rewrite length_drop in Ed; cbn in Ed; lia. }
    rewrite Ed. cbn [negb SQLITE_OK Z.eqb Utf.z Utf.n Utf.flags Utf.enc Utf.own Utf.szMalloc].
    change (SQLITE_OK =? 0) with true. cbn [negb]. rewrite wr_middle by done. cbn [mbind option_bind].
    replace (s ++ 0 :: y :: w :: l) with ((s ++ [0]) ++ y :: w :: l) by (by rewrite <- app_assoc).
    rewrite wr_middle by len. cbn [mbind option_bind].
    replace ((s ++ [0]) ++ 0 :: w :: l) with ((s ++ [0; 0]) ++ w :: l) by (by rewrite <- !app_assoc).
    rewrite wr_middle by len. cbn [mbind option_bind]. change (SQLITE_OK =? 0) with true. cbn [negb].
    eexists. split; [reflexivity|]. split; [done|]. split; [done|]. split; [eexists; by rewrite <- app_assoc|].
    cbn [flags]. rewrite Z.land_spec, Z.lor_spec, Z.land_spec, Hfl. done.
  - cbn [mbind option_bind]. change (SQLITE_OK =? 0) with true. cbn [negb]. eexists. split; [reflexivity|].
    split; [done|]. split; [done|]. split; [by exists rest|]. cbn [flags]. by rewrite Z.land_spec, Hfl.
Qed.

Definition is16 (e : Z) : Prop := e = SQLITE_UTF16LE ∨ e = SQLITE_UTF16BE.
Definition is_le (e : Z) : bool := e =? SQLITE_UTF16LE.

Lemma is16_not8 e : is16 e → (e =? SQLITE_UTF8) = false.
Proof. by intros [-> | ->]. Qed.

Lemma is16_other e e' : is16 e → is16 e' → e ≠ e' → is_le e' = negb (is_le e).
Proof. by intros [-> | ->] [-> | ->]. Qed.

(** The flags that a translated string gets. *)
Lemma new_flags f : Z.testbit (Z.lor MEM_Str (Z.lor MEM_Term (Z.land f (Z.lor MEM_AffMask MEM_Subtype)))) 1 = true.
Proof. by rewrite Z.lor_spec. Qed.

Lemma take_bytes p e s : holds p e s → take (Z.to_nat (n p)) (z p) = s.
Proof. intros (_ & Hn & (rest & ->) & _). by rewrite Hn, Nat2Z.id, take_app_length. Qed.

Lemma Translate_to16 p e' s raw :
  bytes s → holds p SQLITE_UTF8 s → is16 e' → provides raw (2 * n p + 2) →
  let w := chars s ≫= WRITE_UTF16 (is_le e') in
  zlen w ≤ 2 * n p ∧
  ∃ p', sqlite3VdbeMemTranslate p e' raw = Some (SQLITE_OK, p') ∧ holds p' e' w ∧ terminated p'.
Proof.
  intros Hs Hp He' Hraw w. pose proof Hp as (He & Hn & _ & _). unfold sqlite3VdbeMemTranslate.
  rewrite He, (is16_not8 e' He'). change (SQLITE_UTF8 =? SQLITE_UTF8) with true. cbn [negb andb].
  destruct raw as [buf|]; [|done]. cbn in Hraw. rewrite (take_bytes _ _ _ Hp).
  destruct (to16_loop_correct (S (length s)) (is_le e') s [] buf Hs ltac:(lia) ltac:(lia)) as [Hl E].
  fold w in Hl, E. split; [lia|]. cbn [app length] in E. change (Z.of_nat 0) with 0 in E. unfold is_le in E.
  rewrite E. cbn [mbind option_bind].
  destruct (drop (length w) buf) as [|x [|y l]] eqn:Ed;
    [apply (f_equal length) in Ed; rewrite length_drop in Ed; cbn in Ed; lia..|].
  rewrite wr_middle by done. cbn [mbind option_bind].
  replace (w ++ 0 :: y :: l) with ((w ++ [0]) ++ y :: l) by (by rewrite <- app_assoc).
  rewrite wr_middle by len. cbn [mbind option_bind]. eexists. split; [reflexivity|].
  split; [split; [done|]; split; [done|]; split; [eexists; by rewrite <- app_assoc|apply new_flags]|].
  split; cbn [Utf.z Utf.n].
  - rewrite <- app_assoc. apply rd_app_head.
  - intros _. replace (0 + zlen w + 1) with (zlen (w ++ [0])) by len. apply rd_app_head.
Qed.

Lemma Translate_to8 p e us odd raw :
  Forall unit_ok us → (length odd ≤ 1)%nat → is16 e → holds p e (unit_seq (is_le e) us ++ odd) →
  provides raw (2 * n p + 1) →
  let w := pairs us ≫= WRITE_UTF8 in
  zlen w ≤ 2 * n p ∧
  ∃ p', sqlite3VdbeMemTranslate p SQLITE_UTF8 raw = Some (SQLITE_OK, p') ∧ holds p' SQLITE_UTF8 w ∧ terminated p'.
Proof.
  intros Hus Hodd He16 Hp Hraw w. pose proof Hp as (He & Hn & (rest & Hz) & _). unfold sqlite3VdbeMemTranslate.
  change (SQLITE_UTF8 =? SQLITE_UTF8) with true. rewrite andb_false_r.
  destruct raw as [buf|]; [|done]. cbn in Hraw. rewrite He, (is16_not8 e He16).
  set (s := unit_seq (is_le e) us) in *. pose proof (unit_seq_length (is_le e) us) as Hlen. fold s in Hlen.
  assert (Z.land (n p) (Z.lnot 1) = zlen s) as ->.
  { rewrite even_mask by lia. rewrite Hn, length_app, Hlen. zdm. }
  rewrite Nat2Z.id, Hz, <- app_assoc, take_app_length. rewrite length_app in Hn.
  destruct (to8_loop_correct (is_le e) us Hus (S (length s)) [] buf) as [Hl E]; [fold s; lia|fold s; lia|].
  fold w s in Hl, E. split; [lia|]. cbn [app length] in E. change (Z.of_nat 0) with 0 in E. unfold is_le in E.
  rewrite E. cbn [mbind option_bind].
  destruct (drop (length w) buf) as [|x l] eqn:Ed;
    [apply (f_equal length) in Ed; rewrite length_drop in Ed; cbn in Ed; lia|].
  rewrite wr_middle by done. cbn [mbind option_bind]. eexists. split; [reflexivity|].
  split; [split; [done|]; split; [done|]; split; [eexists; done|apply new_flags]|].
  split; cbn [Utf.z Utf.n Utf.enc]; [apply rd_app_head|done].
Qed.

Lemma Translate_swap p e e' us odd raw :
  Forall unit_ok us → (length odd ≤ 1)%nat → is16 e → is16 e' → e ≠ e' →
  holds p e (unit_seq (is_le e) us ++ odd) → provides raw (n p + 3) →
  ∃ p', sqlite3VdbeMemTranslate p e' raw = Some (SQLITE_OK, p') ∧ holds p' e' (unit_seq (is_le e') us ++ odd).
Proof.
  intros Hus Hodd He He' Hne Hp Hraw. unfold sqlite3VdbeMemTranslate.
  pose proof Hp as (Hee & _). rewrite Hee, (is16_not8 e He), (is16_not8 e' He'). cbn [negb andb].
  destruct (MakeWriteable_correct p e _ raw Hp Hraw) as (q & -> & Hq). cbn [mbind option_bind].
  change (SQLITE_OK =? SQLITE_OK) with true. cbn [negb].
  destruct Hq as (Hqe & Hqn & (rest & Hqz) & Hqf).
  set (s := unit_seq (is_le e) us) in *. pose proof (unit_seq_length (is_le e) us) as Hlen. fold s in Hlen.
  assert (Z.land (n q) (Z.lnot 1) = zlen s) as ->.
  { rewrite even_mask by lia. rewrite Hqn, length_app, Hlen. zdm. }
  rewrite Hqz, <- app_assoc.
  pose proof (swap_loop_correct (S (length (s ++ odd ++ rest))) (is_le e) us [] (odd ++ rest) Hus) as E.
  rewrite <- (is16_other e e') in E by done. fold s in E. cbn [app length] in E.
  change (Z.of_nat 0) with 0 in E. rewrite Z.add_0_l in E.
  rewrite E by (rewrite length_app; lia). cbn [mbind option_bind]. eexists. split; [reflexivity|].
  split; [done|]. split; [|split; [exists rest; by rewrite <- app_assoc|done]].
  cbn [Utf.n]. rewrite Hqn, !length_app, Hlen, unit_seq_length. done.
Qed.

(** ** Byte order marks *)

Definition bom_bytes (e : Z) : list Z := if is_le e then [255; 254] else [254; 255].

Lemma emit_shift a b s rest :
  emit (a :: b :: s ++ rest) 0 s = Some (s ++ drop (length s) (a :: b :: s ++ rest), zlen s).
Proof.
  pose proof (emit_prefix [] (a :: b :: s ++ rest) s) as E. cbn [app length] in E.
  change (Z.of_nat 0) with 0 in E. rewrite E by len. by rewrite Z.add_0_l.
Qed.

(** Two more bytes of a buffer are its next two. *)
Lemma drop_two (l : list Z) k : (k + 2 ≤ length l)%nat → ∃ x y r, drop k l = x :: y :: r.
Proof.
  intros Hk. destruct (drop k l) as [|x [|y r]] eqn:E; eauto;
    apply (f_equal length) in E; rewrite length_drop in E; cbn in E; lia.
Qed.

(** A mark at the start of the string is removed and decides the encoding; any
    other string is left alone. *)
Lemma HandleBom_removes p e e' s raw :
  is16 e' → holds p e (bom_bytes e' ++ s) → provides raw (n p + 3) →
  ∃ p', sqlite3VdbeMemHandleBom p raw = Some (SQLITE_OK, p') ∧ holds p' e' s ∧ terminated p'.
Proof.
  intros He' Hp Hraw. unfold sqlite3VdbeMemHandleBom.
  destruct (MakeWriteable_correct p e _ raw Hp Hraw) as (q & -> & Hq).
  destruct Hp as (_ & Hn & (rest0 & Hz) & _).
  assert (1 < n p) as Hn1 by (rewrite Hn; destruct He' as [-> | ->]; cbn; lia).
  destruct (Z.ltb_spec 1 (n p)); [|lia].
  destruct Hq as (Hqe & Hqn & (rest & Hqz) & Hqf).
  assert (∃ a b, bom_bytes e' = [a; b] ∧
    (if (a =? 0xFF) && (b =? 0xFE) then SQLITE_UTF16LE
     else if (a =? 0xFE) && (b =? 0xFF) then SQLITE_UTF16BE else 0) = e') as (a & b & Eb & Ee)
    by (destruct He' as [-> | ->]; do 2 eexists; done).
  rewrite Eb in *. rewrite Hz. cbn [app]. change ((a :: b :: ?l).[0]) with (Some a).
  change ((a :: b :: ?l).[1]) with (Some b). cbn [mbind option_bind]. rewrite Ee.
  assert ((e' =? 0) = false) as -> by (by destruct He' as [-> | ->]). cbn [negb mbind option_bind].
  change (SQLITE_OK =? SQLITE_OK) with true. cbn [Utf.n]. rewrite Hqz. cbn [app drop skipn]. rewrite drop_0.
  replace (n q - 2) with (zlen s) by (rewrite Hqn; cbn [app length]; lia).
  rewrite Nat2Z.id, take_app_length, emit_shift. cbn [fmap option_fmap option_map fst mbind option_bind].
  destruct (drop_two (a :: b :: s ++ rest) (length s)) as (x & y & r & ->); [len|].
  rewrite wr_middle by done. cbn [mbind option_bind].
  replace (s ++ 0 :: y :: r) with ((s ++ [0]) ++ y :: r) by (by rewrite <- app_assoc).
  rewrite wr_middle by len. cbn [mbind option_bind]. eexists. split; [reflexivity|]. split.
  - split; [done|]. split; [done|]. split; [eexists; by rewrite <- app_assoc|]. cbn [flags].
    by rewrite Z.lor_spec, Hqf.
  - split; cbn [Utf.z Utf.n]; rewrite <- app_assoc; [apply rd_app_head|]. intros _.
    rewrite app_assoc. replace (zlen s + 1) with (zlen (s ++ [0])) by len. apply rd_app_head.
Qed.

(** ** Byte lengths of UTF-16 *)

(** The position of the high byte of a unit. *)
Definition high_pos (le : bool) : Z := if le then 1 else 0.

Lemma rd_high le u pre post : (pre ++ unit_bytes le u ++ post).[zlen pre + high_pos le] = Some (u / 256).
Proof.
  destruct le; cbn [unit_bytes high_pos app].
  - replace (pre ++ u mod 256 :: u / 256 :: post) with ((pre ++ [u mod 256]) ++ u / 256 :: post)
      by (by rewrite <- app_assoc).
    replace (zlen pre + 1) with (zlen (pre ++ [u mod 256])) by len. apply rd_app_head.
  - rewrite Z.add_0_r. apply rd_app_head.
Qed.

Lemma bytelen_loop_correct fuel le cs pre rest m nChar :
  Forall scalar cs → (length cs < fuel)%nat → 0 ≤ m →
  let s := encode16 le cs in
  bytelen_loop fuel (pre ++ s ++ rest) (zlen pre + high_pos le) (zlen pre + zlen s - 1) m nChar =
    Some (zlen pre + high_pos le + zlen (encode16 le (take (Z.to_nat (nChar - m)) cs))).
Proof.
  intros Hcs. revert fuel pre m. induction Hcs as [|c cs Hc Hcs IH]; intros fuel pre m Hf Hm s; subst s;
    (destruct fuel as [|fuel]; [cbn [length] in Hf; lia|]); cbn [bytelen_loop].
  { rewrite take_nil. cbn [encode16 mbind list_bind app length]. change (Z.of_nat 0) with 0.
    destruct (Z.leb_spec (zlen pre + high_pos le) (zlen pre + 0 - 1)); [destruct le; cbn in *; lia|].
    rewrite andb_false_r. f_equal. lia. }
  cbn [length] in Hf.
  destruct (Z.ltb_spec m nChar); cbn [andb].
  2:{ replace (Z.to_nat (nChar - m)) with 0%nat by lia. cbn [take encode16 mbind list_bind length]. f_equal. lia. }
  replace (Z.to_nat (nChar - m)) with (S (Z.to_nat (nChar - (m + 1)))) by lia. cbn [take].
  unfold encode16. rewrite !bind_cons. fold (encode16 le cs).
  fold (encode16 le (take (Z.to_nat (nChar - (m + 1))) cs)). unfold utf16.
  pose proof (scalar_not_surrogate c Hc) as Hns. destruct Hc as [Hc _]. unfold code_point in Hc.
  assert (0 ≤ high_pos le ≤ 1) by (destruct le; cbn; lia).
  destruct (Z.ltb_spec c 65536).
  - rewrite !length_app, unit_bytes_length.
    destruct (Z.leb_spec (zlen pre + high_pos le) (zlen pre + Z.of_nat (2 + length (encode16 le cs)) - 1)); [|lia].
    rewrite <- app_assoc, rd_high. cbn [mbind option_bind].
    assert ((0xd8 <=? c / 256) && (c / 256 <? 0xdc) = false) as ->.
    { unfold surrogate in Hns. destruct (Z.leb_spec 0xd8 (c / 256)); [|done].
      destruct (Z.ltb_spec (c / 256) 0xdc); [|done]. exfalso. b2p. zdm. }
    cbn [andb]. rewrite app_assoc.
    replace (zlen pre + high_pos le + 2) with (zlen (pre ++ unit_bytes le c) + high_pos le)
      by (rewrite length_app, unit_bytes_length; lia).
    replace (zlen pre + Z.of_nat (2 + length (encode16 le cs)) - 1)
      with (zlen (pre ++ unit_bytes le c) + zlen (encode16 le cs) - 1)
      by (rewrite length_app, unit_bytes_length; lia).
    rewrite IH by lia. f_equal. rewrite !length_app, unit_bytes_length. lia.
  - set (hi := 55296 + (c - 65536) / 1024). set (lo := 56320 + (c - 65536) mod 1024).
    rewrite !length_app, !unit_bytes_length.
    destruct (Z.leb_spec (zlen pre + high_pos le) (zlen pre + Z.of_nat (2 + 2 + length (encode16 le cs)) - 1)); [|lia].
    rewrite <- !app_assoc, rd_high. cbn [mbind option_bind].
    destruct (Z.leb_spec 0xd8 (hi / 256)); [|subst hi; exfalso; zdm].
    destruct (Z.ltb_spec (hi / 256) 0xdc); [|subst hi; exfalso; zdm].
    destruct (Z.leb_spec (zlen pre + high_pos le + 2) (zlen pre + Z.of_nat (2 + 2 + length (encode16 le cs)) - 1)); [|lia].
    cbn [andb]. rewrite app_assoc.
    replace (zlen pre + high_pos le + 2) with (zlen (pre ++ unit_bytes le hi) + high_pos le)
      by (rewrite length_app, unit_bytes_length; lia).
    rewrite rd_high. cbn [mbind option_bind].
    destruct (Z.leb_spec 0xdc (lo / 256)); [|subst lo; exfalso; zdm].
    destruct (Z.ltb_spec (lo / 256) 0xe0); [|subst lo; exfalso; zdm]. cbn [andb]. rewrite app_assoc.
    set (pre' := (pre ++ unit_bytes le hi) ++ unit_bytes le lo).
    assert (zlen pre' = zlen pre + 4) as Hl by (subst pre'; rewrite !length_app, !unit_bytes_length; lia).
    replace (zlen (pre ++ unit_bytes le hi) + high_pos le + 2) with (zlen pre' + high_pos le)
      by (rewrite Hl, length_app, unit_bytes_length; lia).
    replace (zlen pre + Z.of_nat (2 + 2 + length (encode16 le cs)) - 1) with (zlen pre' + zlen (encode16 le cs) - 1) by lia.
    rewrite IH by lia. f_equal. rewrite Hl. lia.
Qed.

Lemma Utf16ByteLen_counts le cs rest nChar :
  Forall scalar cs →
  sqlite3Utf16ByteLen le (encode16 le cs ++ rest) (zlen (encode16 le cs)) nChar =
    Some (zlen (encode16 le (take (Z.to_nat nChar) cs))).
Proof.
  intros Hcs. unfold sqlite3Utf16ByteLen.
  assert (∀ l, Forall scalar l → (length l ≤ length (encode16 le l))%nat) as Hlen.
  { intros l Hl. rewrite encode16_units, unit_seq_length. clear Hcs. induction Hl as [|c l Hc Hl IH]; [done|].
    rewrite bind_cons, length_app. unfold units at 1. case_cmp; cbn [length]; lia. }
  pose proof (bytelen_loop_correct (S (length (encode16 le cs ++ rest))) le cs [] rest 0 nChar Hcs) as E.
  cbn [app length] in E. change (Z.of_nat 0) with 0 in E. rewrite !Z.add_0_l, Z.sub_0_r in E.
  fold (high_pos le). rewrite E; [|rewrite length_app; specialize (Hlen cs Hcs); lia|lia].
  cbn [mbind option_bind]. f_equal. lia.
Qed.

(** ** Properties *)

Definition valid_enc (e : Z) : Prop := e = SQLITE_UTF8 ∨ is16 e.
Definition encode (e : Z) (cs : list Z) : list Z :=
  if e =? SQLITE_UTF8 then encode8 cs else encode16 (is_le e) cs.

(** The sizes that the comments of the function announce. *)
Definition translate_size (p : Mem) (e' : Z) : Z :=
  if e' =? SQLITE_UTF8 then 2 * n p + 1
  else if enc p =? SQLITE_UTF8 then 2 * n p + 2 else n p + 3.

(** The UTF-8 writers and readers are inverses: for every code point the function and
    the macro store the same one to four bytes, and reading them back, with
    any byte other than a continuation after them, gives the code point and
    stops after them. Surrogates and the noncharacters U+FFFE and U+FFFF read
    back as U+FFFD. *)
Theorem Utf8Read_WRITE_UTF8 c b rest zOut :
  code_point c → is_cont b = false → 4 ≤ zlen zOut →
  let w := WRITE_UTF8 c in
  1 ≤ zlen w ≤ 4 ∧
  sqlite3AppendOneUtf8Character zOut c = Some (w ++ drop (length w) zOut, zlen w) ∧
  sqlite3Utf8Read (w ++ b :: rest) =
    Some (if (55296 <=? c) && (c <? 57344) || (65534 <=? c) && (c <? 65536) then 65533 else c, b :: rest).
Proof.
  intros Hc Hb Ho w. pose proof (WRITE_UTF8_max c) as Hmax. fold w in Hmax.
  pose proof (char_nonempty _ _ (char_utf8 c Hc)). rewrite <- WRITE_UTF8_utf8 in * by done. fold w in H.
  split; [lia|]. split.
  - rewrite AppendOne_emit. fold w. pose proof (emit_prefix [] zOut w ltac:(lia)) as E. cbn [app length] in E.
    change (Z.of_nat 0) with 0 in E. by rewrite E, Z.add_0_l.
  - subst w. rewrite WRITE_UTF8_utf8 by done. apply (Utf8Read_char (utf8 c)); [by apply char_utf8|by apply utf8_follows].
Qed.

(** C33: [sqlite3VdbeMemTranslate] converts correctly between any two of the three
    encodings: a value that holds the encoding of some code points (none of them
    a surrogate, U+FFFE or U+FFFF) holds the other encoding of the same code
    points afterwards, in an allocation of the announced size. So a
    conversion there and back gives the original string. *)
Theorem Translate_correct p e e' cs raw :
  valid_enc e → valid_enc e' → e ≠ e' → Forall scalar cs →
  holds p e (encode e cs) → provides raw (translate_size p e') →
  ∃ p', sqlite3VdbeMemTranslate p e' raw = Some (SQLITE_OK, p') ∧ holds p' e' (encode e' cs).
Proof.
  intros He He' Hne Hcs Hp Hraw. pose proof (scalar_code_point cs Hcs) as Hcp. unfold translate_size in Hraw.
  pose proof Hp as (Hee & _). rewrite Hee in Hraw. unfold encode in *.
  destruct He as [->|He]; destruct He' as [->|He']; [done|..].
  - rewrite (is16_not8 e' He') in *. cbn [Z.eqb SQLITE_UTF8] in *. change (SQLITE_UTF8 =? SQLITE_UTF8) with true in *.
    destruct (Translate_to16 p e' (encode8 cs) raw) as (_ & p' & E & Hp' & _); [by apply encode8_bytes|done..|].
    exists p'. split; [done|]. rewrite chars_encode8, readable_scalar, WRITE16_encode in Hp' by done. done.
  - rewrite (is16_not8 e He) in *. change (SQLITE_UTF8 =? SQLITE_UTF8) with true in *.
    rewrite encode16_units in Hp. rewrite <- (app_nil_r (unit_seq _ _)) in Hp.
    destruct (Translate_to8 p e (cs ≫= units) [] raw) as (_ & p' & E & Hp' & _); [by apply units_ok|cbn; lia|done..|].
    exists p'. split; [done|]. rewrite pairs_units, WRITE8_encode in Hp' by done. done.
  - rewrite (is16_not8 e He), (is16_not8 e' He') in *.
    rewrite encode16_units in Hp. rewrite <- (app_nil_r (unit_seq _ _)) in Hp.
    destruct (Translate_swap p e e' (cs ≫= units) [] raw) as (p' & E & Hp'); [by apply units_ok|cbn; lia|done..|].
    exists p'. split; [done|]. by rewrite encode16_units, <- (app_nil_r (unit_seq _ _)).
Qed.

(** The conversion is memory-safe on any input: whatever bytes the string has, well
    formed or not, and whatever the encodings, the function stays inside a buffer
    of the size it requests and inside the string, and the value it leaves is a
    string of the new encoding whose bytes lie in its buffer; a string in a new
    buffer is terminated and at most twice as long as the old one. *)
Theorem Translate_safe p e e' s raw :
  valid_enc e → valid_enc e' → e ≠ e' → bytes s →
  holds p e s → provides raw (translate_size p e') →
  ∃ p' s', sqlite3VdbeMemTranslate p e' raw = Some (SQLITE_OK, p') ∧ holds p' e' s' ∧ n p' ≤ 2 * n p ∧
    (e = SQLITE_UTF8 ∨ e' = SQLITE_UTF8 → terminated p').
Proof.
  intros He He' Hne Hs Hp Hraw. unfold translate_size in Hraw.
  pose proof Hp as (Hee & Hn & _). rewrite Hee in Hraw.
  destruct He as [->|He].
  - destruct He' as [->|He']; [done|]. rewrite (is16_not8 e' He') in Hraw.
    change (SQLITE_UTF8 =? SQLITE_UTF8) with true in Hraw.
    destruct (Translate_to16 p e' s raw) as (Hl & p' & E & Hp' & Ht); [done..|].
    eexists p', _. split; [done|]. split; [done|]. split; [|done]. destruct Hp' as (_ & -> & _). lia.
  - assert (∃ us odd, s = unit_seq (is_le e) us ++ odd ∧ Forall unit_ok us ∧ (length odd ≤ 1)%nat)
      as (us & odd & -> & Hus & Hodd).
    { set (k := Nat.div2 (length s)). pose proof (Nat.div2_odd (length s)) as Hd. fold k in Hd.
      assert (length (take (2 * k) s) = 2 * k)%nat as Hk by (rewrite length_take; lia).
      destruct (units_of_bytes (is_le e) (take (2 * k) s) k) as (us & Eus & Hus); [by apply Forall_take|done|].
      exists us, (drop (2 * k) s). rewrite <- Eus, take_drop. split; [done|]. split; [done|].
      rewrite length_drop. destruct (Nat.odd (length s)); cbn in Hd; lia. }
    destruct He' as [->|He'].
    + change (SQLITE_UTF8 =? SQLITE_UTF8) with true in Hraw.
      destruct (Translate_to8 p e us odd raw) as (Hl & p' & E & Hp' & Ht); [done..|].
      eexists p', _. split; [done|]. split; [done|]. split; [|done]. destruct Hp' as (_ & -> & _). lia.
    + rewrite (is16_not8 e He), (is16_not8 e' He') in Hraw.
      destruct (Translate_swap p e e' us odd raw) as (p' & E & Hp'); [done..|].
      eexists p', _. split; [done|]. split; [done|]. split.
      * destruct Hp' as (_ & -> & _). rewrite Hn. rewrite !length_app, !unit_seq_length. lia.
      * intros [-> | ->]; [by destruct He|by destruct He'].
Qed.

(** Counting and bounded reading: [sqlite3Utf8CharLen] is the number of code points of a
    zero-terminated text, and [sqlite3Utf8ReadLimited] reads at least one byte, at
    most four and never more than it is given, and reads back every code
    point that is written in full. *)
Theorem Utf8_lengths cs c rest z0 limit :
  Forall code_point cs → Forall (λ c, c ≠ 0) cs → code_point c → bound rest → bytes z0 → 0 < limit ≤ zlen z0 →
  sqlite3Utf8CharLen (encode8 cs ++ 0 :: rest) (-1) = Some (zlen cs) ∧
  (∃ v k, sqlite3Utf8ReadLimited z0 limit = Some (v, k) ∧ 1 ≤ k ≤ Z.min 4 limit) ∧
  sqlite3Utf8ReadLimited (utf8 c ++ rest) (zlen (utf8 c ++ rest)) = Some (c, zlen (utf8 c)).
Proof.
  intros Hcs Hnz Hc Hrest Hz Hlim. split; [|split].
  - unfold sqlite3Utf8CharLen. cbn [Z.leb Z.compare]. change (0 <=? -1) with false.
    rewrite charlen_loop_all; [|by apply encode8_text|len].
    by rewrite chars_encode8, length_fmap by done.
  - by apply ReadLimited_bounds.
  - by apply ReadLimited_utf8.
Qed.

(** When the allocation fails, a conversion to or from UTF-8 reports it and leaves
    the bytes of the value alone. *)
Lemma Translate_oom p e e' :
  valid_enc e → valid_enc e' → e ≠ e' → enc p = e → e = SQLITE_UTF8 ∨ e' = SQLITE_UTF8 →
  ∃ p', sqlite3VdbeMemTranslate p e' None = Some (SQLITE_NOMEM, p') ∧ z p' = z p ∧ enc p' = e ∧ flags p' = flags p.
Proof.
  intros He He' Hne Hp Hor. unfold sqlite3VdbeMemTranslate. rewrite Hp.
  assert (negb (e =? SQLITE_UTF8) && negb (e' =? SQLITE_UTF8) = false) as ->.
  { destruct Hor as [-> | ->]; [done|]. apply andb_false_r. }
  eexists. split; [reflexivity|]. done.
Qed.

Lemma Utf8Read_WRITE_UTF8_witness :
  code_point 8364 ∧ is_cont 0 = false ∧ 4 ≤ zlen [0; 0; 0; 0] ∧
  sqlite3Utf8Read (WRITE_UTF8 8364 ++ 0 :: []) = Some (8364, [0]).
Proof.
  split; [unfold code_point; lia|]. split; [reflexivity|]. split; [cbn; lia|].
  apply (Utf8Read_WRITE_UTF8 8364 0 [] [0; 0; 0; 0]); [unfold code_point; lia|reflexivity|cbn; lia].
Defined.

(** The string [a], U+20AC, U+1F600 with an external buffer. *)
Definition sample8 : Mem := MkMem (MEM_Str + MEM_Static) SQLITE_UTF8 8 [97; 226; 130; 172; 240; 159; 152; 128] false 0.

Lemma Translate_correct_witness :
  valid_enc SQLITE_UTF8 ∧ valid_enc SQLITE_UTF16BE ∧ Forall scalar [97; 8364; 128512] ∧
  holds sample8 SQLITE_UTF8 (encode SQLITE_UTF8 [97; 8364; 128512]) ∧
  ∃ p', sqlite3VdbeMemTranslate sample8 SQLITE_UTF16BE (Some (replicate 18 0)) = Some (SQLITE_OK, p') ∧
    holds p' SQLITE_UTF16BE (encode SQLITE_UTF16BE [97; 8364; 128512]).
Proof.
  assert (valid_enc SQLITE_UTF8) as H1 by (left; reflexivity).
  assert (valid_enc SQLITE_UTF16BE) as H2 by (right; right; reflexivity).
  assert (Forall scalar [97; 8364; 128512]) as H3 by (repeat constructor; unfold code_point; lia).
  assert (holds sample8 SQLITE_UTF8 (encode SQLITE_UTF8 [97; 8364; 128512])) as H4.
  { split; [reflexivity|]. split; [reflexivity|]. split; [exists []; vm_compute; reflexivity|reflexivity]. }
  split; [exact H1|]. split; [exact H2|]. split; [exact H3|]. split; [exact H4|].
  apply (Translate_correct sample8 SQLITE_UTF8 SQLITE_UTF16BE _ (Some (replicate 18 0)) H1 H2); [discriminate|exact H3|exact H4|].
  vm_compute. discriminate.
Defined.

(** A truncated character. *)
Definition bad8 : Mem := MkMem (MEM_Str + MEM_Static) SQLITE_UTF8 2 [97; 226] false 0.

Lemma Translate_safe_witness :
  holds bad8 SQLITE_UTF8 [97; 226] ∧
  ∃ p' s', sqlite3VdbeMemTranslate bad8 SQLITE_UTF16LE (Some (replicate 6 0)) = Some (SQLITE_OK, p') ∧
    holds p' SQLITE_UTF16LE s' ∧ n p' ≤ 2 * n bad8 ∧
    (SQLITE_UTF8 = SQLITE_UTF8 ∨ SQLITE_UTF16LE = SQLITE_UTF8 → terminated p').
Proof.
  assert (valid_enc SQLITE_UTF8) as H1 by (left; reflexivity).
  assert (valid_enc SQLITE_UTF16LE) as H2 by (right; left; reflexivity).
  assert (holds bad8 SQLITE_UTF8 [97; 226]) as H4.
  { split; [reflexivity|]. split; [reflexivity|]. split; [exists []; reflexivity|reflexivity]. }
  split; [exact H4|]. apply (Translate_safe bad8 SQLITE_UTF8 SQLITE_UTF16LE [97; 226]); [exact H1|exact H2|discriminate| |exact H4|].
  - unfold bytes. repeat constructor; lia.
  - vm_compute. discriminate.
Defined.

Lemma Utf8_lengths_witness :
  code_point 955 ∧ sqlite3Utf8CharLen (encode8 [955; 97] ++ 0 :: []) (-1) = Some 2.
Proof.
  assert (code_point 955 ∧ code_point 97) as [H1 H2] by (unfold code_point; lia).
  split; [exact H1|].
  apply (Utf8_lengths [955; 97] 955 [] [255] 1); [repeat constructor; apply H1 || apply H2|repeat constructor; lia|exact H1|exact I| |cbn; lia].
  unfold bytes. repeat constructor; lia.
Defined.
