(* ===== verification/Like.v ===== *)
(** * LIKE and GLOB matching (func.c)

    [patternCompare] and its callers.  Strings are zero-terminated bytes read as
    UTF-8; a pointer into a string is the list of the bytes from it on. *)
From S2P Require Import Prelude Ctype Utf.

Record compareInfo := CompareInfo { matchAll : Z; matchOne : Z; matchSet : Z; noCase : Z }.

Definition globInfo : compareInfo := CompareInfo 42 63 91 0.
Definition likeInfoNorm : compareInfo := CompareInfo 37 95 0 1.
Definition likeInfoAlt : compareInfo := CompareInfo 37 95 0 0.

Definition SQLITE_MATCH : Z := 0.
Definition SQLITE_NOMATCH : Z := 1.
Definition SQLITE_NOWILDCARDMATCH : Z := 2.

Definition Utf8Read (z : list Z) : option (Z * list Z) :=
  c ← z.[0]; if c <? 0x80 then Some (c, drop 1 z) else sqlite3Utf8Read z.

Definition sqlite3Tolower (x : Z) : option Z := UpperToLower (u8 x).

(** The wildcards after a [*]: the function returns ([inl]), or the next pattern
    character with the two pointers ([inr]). *)
Fixpoint star_loop (fuel : nat) (pInfo : compareInfo) (zPattern zString : list Z)
  : option (Z + Z * list Z * list Z) :=
  match fuel with
  | O => None
  | S fuel' =>
      '(c, zPattern) ← Utf8Read zPattern;
      if (c =? matchAll pInfo) || ((c =? matchOne pInfo) && negb (matchOne pInfo =? 0)) then
        if c =? matchOne pInfo then
          '(c2, zString) ← sqlite3Utf8Read zString;
          if c2 =? 0 then Some (inl SQLITE_NOWILDCARDMATCH)
          else star_loop fuel' pInfo zPattern zString
        else star_loop fuel' pInfo zPattern zString
      else Some (inr (c, zPattern, zString))
  end.

(** The searches after a [*]; [rec] is the recursive call on the rest of the
    pattern. *)
Fixpoint set_search (fuel : nat) (rec : list Z → option Z) (zString : list Z) : option Z :=
  match fuel with
  | O => None
  | S fuel' =>
      c ← zString.[0];
      if c =? 0 then Some SQLITE_NOWILDCARDMATCH
      else
        bMatch ← rec zString;
        if negb (bMatch =? SQLITE_NOMATCH) then Some bMatch
        else zString ← SQLITE_SKIP_UTF8 zString; set_search fuel' rec zString
  end.

(** [zString += strcspn(zString, zStop)] *)
Fixpoint strcspn_skip (zStop zString : list Z) : option (list Z) :=
  match zString with
  | [] => None
  | c :: z => if (c =? 0) || existsb (Z.eqb c) zStop then Some zString else strcspn_skip zStop z
  end.

Fixpoint stop_search (fuel : nat) (rec : list Z → option Z) (zStop zString : list Z) : option Z :=
  match fuel with
  | O => None
  | S fuel' =>
      zString ← strcspn_skip zStop zString;
      c ← zString.[0];
      if c =? 0 then Some SQLITE_NOWILDCARDMATCH
      else
        let zString := drop 1 zString in
        bMatch ← rec zString;
        if negb (bMatch =? SQLITE_NOMATCH) then Some bMatch else stop_search fuel' rec zStop zString
  end.

Fixpoint char_search (fuel : nat) (rec : list Z → option Z) (c : Z) (zString : list Z) : option Z :=
  match fuel with
  | O => None
  | S fuel' =>
      '(c2, zString) ← Utf8Read zString;
      if c2 =? 0 then Some SQLITE_NOWILDCARDMATCH
      else if negb (c2 =? c) then char_search fuel' rec c zString
      else
        bMatch ← rec zString;
        if negb (bMatch =? SQLITE_NOMATCH) then Some bMatch else char_search fuel' rec c zString
  end.

(** The members of a set: the last character read, [seen] and the pointer. *)
Fixpoint set_loop (fuel : nat) (c c2 prior_c : Z) (seen : bool) (zPattern : list Z)
  : option (Z * bool * list Z) :=
  match fuel with
  | O => None
  | S fuel' =>
      if negb (c2 =? 0) && negb (c2 =? 93) then
        range ←
          (if c2 =? 45 then
             p ← zPattern.[0]; Some (negb (p =? 93) && negb (p =? 0) && (0 <? prior_c))
           else Some false);
        if range : bool then
          '(c2, zPattern) ← sqlite3Utf8Read zPattern;
          let seen := if (prior_c <=? c) && (c <=? c2) then true else seen in
          '(c2, zPattern) ← sqlite3Utf8Read zPattern;
          set_loop fuel' c c2 0 seen zPattern
        else
          let seen := if c =? c2 then true else seen in
          let prior_c := c2 in
          '(c2, zPattern) ← sqlite3Utf8Read zPattern;
          set_loop fuel' c c2 prior_c seen zPattern
      else Some (c2, seen, zPattern)
  end.

(** A set, from after its opening bracket, against one character of the string:
    [c2], [seen ^ invert] and the two pointers, or [None] at the end of the
    string. *)
Definition match_set (zPattern zString : list Z) : option (option (Z * bool * list Z * list Z)) :=
  '(c, zString) ← sqlite3Utf8Read zString;
  if c =? 0 then Some None
  else
    '(c2, zPattern) ← sqlite3Utf8Read zPattern;
    '(invert, c2, zPattern) ←
      (if c2 =? 94 then '(c2, zPattern) ← sqlite3Utf8Read zPattern; Some (true, c2, zPattern)
       else Some (false, c2, zPattern));
    '(seen, c2, zPattern) ←
      (if c2 =? 93 then '(c2, zPattern) ← sqlite3Utf8Read zPattern; Some (c =? 93, c2, zPattern)
       else Some (false, c2, zPattern));
    '(c2, seen, zPattern) ← set_loop (S (length zPattern)) c c2 0 seen zPattern;
    Some (Some (c2, xorb seen invert, zPattern, zString)).

(** The loop of the function; [zEscaped] is the length of the pattern from that
    pointer on. *)
Fixpoint patternCompare_loop (fuel : nat) (pInfo : compareInfo) (matchOther : Z)
    (zPattern zString : list Z) (zEscaped : option nat) : option Z :=
  match fuel with
  | O => None
  | S fuel' =>
      let rec p s := patternCompare_loop fuel' pInfo matchOther p s None in
      '(c, zPattern) ← Utf8Read zPattern;
      if c =? 0 then s0 ← zString.[0]; Some (if s0 =? 0 then SQLITE_MATCH else SQLITE_NOMATCH)
      else if c =? matchAll pInfo then
        r ← star_loop (S (length zPattern)) pInfo zPattern zString;
        match r with
        | inl rc => Some rc
        | inr (c, zPattern, zString) =>
            if c =? 0 then Some SQLITE_MATCH
            else if (c =? matchOther) && negb (matchSet pInfo =? 0) then
              (* [zPattern[-1]] is [c], a single byte *)
              set_search (S (length zString)) (rec (c :: zPattern)) zString
            else
              '(c, zPattern) ← (if c =? matchOther then sqlite3Utf8Read zPattern else Some (c, zPattern));
              if c =? 0 then Some SQLITE_NOWILDCARDMATCH
              else if c <? 0x80 then
                l ← sqlite3Tolower c;
                let zStop := if negb (noCase pInfo =? 0) then [sqlite3Toupper c; l] else [c] in
                stop_search (S (length zString)) (rec zPattern) zStop zString
              else char_search (S (length zString)) (rec zPattern) c zString
        end
      else if (c =? matchOther) && negb (matchSet pInfo =? 0) then
        r ← match_set zPattern zString;
        match r with
        | None => Some SQLITE_NOMATCH
        | Some (c2, ok, zPattern, zString) =>
            if (c2 =? 0) || negb ok then Some SQLITE_NOMATCH
            else patternCompare_loop fuel' pInfo matchOther zPattern zString zEscaped
        end
      else
        '(c, zPattern, zEscaped) ←
          (if c =? matchOther then
             '(c, zPattern) ← sqlite3Utf8Read zPattern; Some (c, zPattern, Some (length zPattern))
           else Some (c, zPattern, zEscaped));
        if c =? 0 then Some SQLITE_NOMATCH
        else
          '(c2, zString) ← Utf8Read zString;
          lc ← sqlite3Tolower c;
          lc2 ← sqlite3Tolower c2;
          if (c =? c2)
             || (negb (noCase pInfo =? 0) && (lc =? lc2) && (c <? 0x80) && (c2 <? 0x80))
             || ((c =? matchOne pInfo) && negb (bool_decide (Some (length zPattern) = zEscaped)) && negb (c2 =? 0))
          then patternCompare_loop fuel' pInfo matchOther zPattern zString zEscaped
          else Some SQLITE_NOMATCH
  end.

Definition patternCompare (zPattern zString : list Z) (pInfo : compareInfo) (matchOther : Z) : option Z :=
  patternCompare_loop (S (length zPattern)) pInfo matchOther zPattern zString None.

(** [None] is the null pointer. *)
Definition sqlite3_strglob (zGlobPattern zString : option (list Z)) : option Z :=
  match zString, zGlobPattern with
  | None, _ => Some (b2z (match zGlobPattern with Some _ => true | None => false end))
  | Some _, None => Some 1
  | Some s, Some p => patternCompare p s globInfo 91
  end.

Definition sqlite3_strlike (zPattern zStr : option (list Z)) (esc : Z) : option Z :=
  match zStr, zPattern with
  | None, _ => Some (b2z (match zPattern with Some _ => true | None => false end))
  | Some _, None => Some 1
  | Some s, Some p => patternCompare p s likeInfoNorm esc
  end.

(** The result that the SQL function sets. *)
Inductive like_result :=
  | LikeTooComplex
  | LikeBadEscape
  | LikeNull
  | LikeInt (v : Z).

(** The arguments are the limit of the connection, the length of the pattern and the
    texts of the values; [zEsc] is [None] for the form with two arguments. *)
Definition likeFunc (limit nPat : Z) (pInfo : compareInfo) (zB zA : option (list Z))
    (zEsc : option (option (list Z))) : option like_result :=
  if limit <? nPat then Some LikeTooComplex
  else
    match zEsc with
    | Some None => Some LikeNull
    | _ =>
        r ←
          (match zEsc with
           | Some (Some e) =>
               k ← sqlite3Utf8CharLen e (-1);
               if negb (k =? 1) then Some None
               else
                 '(escape, _) ← sqlite3Utf8Read e;
                 let all := if escape =? matchAll pInfo then 0 else matchAll pInfo in
                 let one := if escape =? matchOne pInfo then 0 else matchOne pInfo in
                 Some (Some (escape, CompareInfo all one (matchSet pInfo) (noCase pInfo)))
           | _ => Some (Some (matchSet pInfo, pInfo))
           end);
        match r with
        | None => Some LikeBadEscape
        | Some (escape, pInfo) =>
            match zA, zB with
            | Some a, Some b =>
                m ← patternCompare b a pInfo escape; Some (LikeInt (b2z (m =? SQLITE_MATCH)))
            | _, _ => Some LikeNull
            end
        end
    end.
