(* ===== verification/LikeProofs.v ===== *)
(** * LIKE and GLOB matching: proofs

    [patternCompare] against a declarative relation between a list of pattern items
    and a list of code points. *)
From S2P Require Import Prelude Ctype Utf UtfProofs Like.

(** ** Patterns *)

(** A sequence of any characters, any one character, a character, a set, and a set
    or an escape that the pattern does not complete. *)
Inductive item :=
  | Any
  | One
  | Lit (c : Z)
  | Set_ (invert : bool) (ranges : list (Z * Z))
  | Bad.

(** The members of a set up to the closing bracket; [prior] can start a range when
    it is positive. *)
Fixpoint parse_ranges (prior : Z) (p : list Z) : option (list (Z * Z) * list Z) :=
  match p with
  | [] => None
  | c :: p1 =>
      let single := '(rs, r) ← parse_ranges c p1; Some ((c, c) :: rs, r) in
      if c =? 93 then Some ([], p1)
      else if (c =? 45) && (0 <? prior) then
        match p1 with
        | h :: p2 =>
            if h =? 93 then single else '(rs, r) ← parse_ranges 0 p2; Some ((prior, h) :: rs, r)
        | [] => single
        end
      else single
  end.

(** A closing bracket that comes first is a member. *)
Definition parse_set (p : list Z) : option (bool * list (Z * Z) * list Z) :=
  let '(inv, p) := match p with c :: p1 => if c =? 94 then (true, p1) else (false, p) | [] => (false, p) end in
  let '(first, p) := match p with c :: p1 => if c =? 93 then ([(93, 93)], p1) else ([], p) | [] => ([], p) end in
  '(rs, r) ← parse_ranges 0 p; Some (inv, first ++ rs, r).

(** The first item of a pattern and the rest. *)
Definition parse_item (info : compareInfo) (other : Z) (c : Z) (p : list Z) : item * list Z :=
  if c =? matchAll info then (Any, p)
  else if (c =? other) && negb (matchSet info =? 0) then
    match parse_set p with Some (inv, rs, r) => (Set_ inv rs, r) | None => (Bad, []) end
  else if c =? other then match p with e :: r => (Lit e, r) | [] => (Bad, []) end
  else if c =? matchOne info then (One, p)
  else (Lit c, p).

Fixpoint parse_fuel (fuel : nat) (info : compareInfo) (other : Z) (p : list Z) : list item :=
  match fuel, p with
  | S fuel', c :: p => let '(it, r) := parse_item info other c p in it :: parse_fuel fuel' info other r
  | _, _ => []
  end.
Definition parse (info : compareInfo) (other : Z) (p : list Z) : list item :=
  parse_fuel (length p) info other p.

(** ** Matching *)

(** Characters are the same up to the case of ASCII letters if the comparison ignores
    case. *)
Definition same (info : compareInfo) (c x : Z) : bool :=
  (c =? x) || negb (noCase info =? 0) && (c <? 128) && (x <? 128) && (lower c =? lower x).

Definition in_ranges (rs : list (Z * Z)) (x : Z) : bool := existsb (λ r, (fst r <=? x) && (x <=? snd r)) rs.

Definition match_item (info : compareInfo) (it : item) (x : Z) : bool :=
  match it with
  | Any | Bad => false
  | One => true
  | Lit c => same info c x
  | Set_ inv rs => xorb inv (in_ranges rs x)
  end.

Inductive matches (info : compareInfo) : list item → list Z → Prop :=
  | match_nil : matches info [] []
  | match_one it its x s : match_item info it x = true → matches info its s → matches info (it :: its) (x :: s)
  | match_any its s1 s2 : matches info its s2 → matches info (Any :: its) (s1 ++ s2).

(** ** Pattern lemmas *)

Lemma parse_ranges_shorter prior p rs r : parse_ranges prior p = Some (rs, r) → (length r < length p)%nat.
Proof.
  remember (length p) as k eqn:Hk. revert prior p rs r Hk.
  induction (lt_wf k) as [k _ IH]. intros prior p rs r ->. destruct p as [|c p1]; [done|]. cbn [parse_ranges length].
  assert (∀ rs r, ('(rs, r) ← parse_ranges c p1; Some ((c, c) :: rs, r)) = Some (rs, r) → (length r < S (length p1))%nat)
    as Hsingle.
  { intros rs' r' H. inv_bind. subst. match goal with E : parse_ranges _ ?q = _ |- _ => pose proof (IH (length q) ltac:(cbn; lia) _ _ _ _ eq_refl E); lia end. }
  destruct (c =? 93); [intros [= <- <-]; lia|]. destruct ((c =? 45) && (0 <? prior)); [|apply Hsingle].
  destruct p1 as [|h p2]; [apply Hsingle|]. destruct (h =? 93); [apply Hsingle|].
  intros H. inv_bind. subst. cbn [length].
  match goal with E : parse_ranges _ ?q = _ |- _ => pose proof (IH (length q) ltac:(cbn; lia) _ _ _ _ eq_refl E); lia end.
Qed.

Lemma parse_set_shorter p inv rs r : parse_set p = Some (inv, rs, r) → (length r ≤ length p)%nat.
Proof.
  unfold parse_set. intros H.
  destruct p as [|c p1]; [done|].
  destruct (c =? 94); [destruct p1 as [|d p2]|]; cbn [length] in *;
    repeat match type of H with context [?d =? 93] => destruct (d =? 93) end;
    inv_bind; subst;
    match goal with E : parse_ranges _ _ = _ |- _ => apply parse_ranges_shorter in E; cbn [length] in *; lia end.
Qed.

Lemma parse_item_shorter info other c p it r : parse_item info other c p = (it, r) → (length r ≤ length p)%nat.
Proof.
  unfold parse_item. repeat case_match; intros [= <- <-]; cbn [length]; try lia.
  by eapply parse_set_shorter.
Qed.

Lemma parse_fuel_enough f info other p :
  (length p ≤ f)%nat → parse_fuel f info other p = parse info other p.
Proof.
  unfold parse. remember (length p) as k eqn:Hk. revert p f Hk. induction (lt_wf k) as [k _ IH]. intros p f -> Hf.
  destruct p as [|c p]; [by destruct f|]. cbn [length] in Hf |- *. destruct f as [|f]; [lia|]. cbn [parse_fuel].
  destruct (parse_item info other c p) as [it r] eqn:E. apply parse_item_shorter in E. f_equal.
  rewrite (IH (length r)) by (done || cbn; lia). symmetry. apply (IH (length r)); done || cbn; lia.
Qed.

Lemma parse_cons info other c p :
  parse info other (c :: p) = let '(it, r) := parse_item info other c p in it :: parse info other r.
Proof.
  unfold parse at 1. cbn [length parse_fuel]. destruct (parse_item info other c p) as [it r] eqn:E.
  apply parse_item_shorter in E. by rewrite parse_fuel_enough.
Qed.

(** ** Matching lemmas *)

Lemma matches_any info its s : matches info (Any :: its) s ↔ ∃ s1 s2, s = s1 ++ s2 ∧ matches info its s2.
Proof.
  split.
  - intros H. inversion H; subst; [done|]. eauto.
  - intros (s1 & s2 & -> & H). by constructor.
Qed.

Lemma matches_item info it its s :
  it ≠ Any → matches info (it :: its) s ↔ ∃ x s', s = x :: s' ∧ match_item info it x = true ∧ matches info its s'.
Proof.
  intros Hit. split.
  - intros H. inversion H; subst; [|done]. eauto.
  - intros (x & s' & -> & H1 & H2). by constructor.
Qed.

Lemma matches_nil info s : matches info [] s ↔ s = [].
Proof. split; [intros H; by inversion H|intros ->; constructor]. Qed.

Lemma matches_bad info its s : ¬ matches info (Bad :: its) s.
Proof. intros H. apply matches_item in H as (x & s' & _ & H & _); done. Qed.

Lemma any_any info its s : matches info (Any :: Any :: its) s ↔ matches info (Any :: its) s.
Proof.
  rewrite matches_any. split.
  - intros (s1 & s2 & -> & H). apply matches_any in H as (s3 & s4 & -> & H). apply matches_any.
    exists (s1 ++ s3), s4. by rewrite <- app_assoc.
  - intros H. exists [], s. done.
Qed.

Lemma any_cons info its x s : matches info (Any :: its) s → matches info (Any :: its) (x :: s).
Proof. rewrite !matches_any. intros (s1 & s2 & -> & H). by exists (x :: s1), s2. Qed.

Lemma any_app info its s1 s2 : matches info (Any :: its) s2 → matches info (Any :: its) (s1 ++ s2).
Proof. induction s1 as [|x s1 IH]; [done|]. intros H. cbn. by apply any_cons, IH. Qed.

Lemma any_one info its s :
  matches info (Any :: One :: its) s ↔ ∃ x s', s = x :: s' ∧ matches info (Any :: its) s'.
Proof.
  rewrite matches_any. split.
  - intros (s1 & s2 & -> & H). apply matches_item in H as (x & s' & -> & _ & H); [|done].
    destruct s1 as [|y s1]; cbn; do 2 eexists; (split; [reflexivity|]).
    + apply matches_any. by exists [], s'.
    + apply matches_any. exists (s1 ++ [x]), s'. by rewrite <- app_assoc.
  - intros (x & s' & -> & H). apply matches_any in H as (s1 & s2 & -> & H).
    destruct s1 as [|y s1] using rev_ind.
    + exists [], (x :: s2). split; [done|]. by constructor.
    + exists (x :: s1), (y :: s2). rewrite <- app_assoc. split; [done|]. by constructor.
Qed.

Lemma any_nil_true info s : matches info [Any] s.
Proof. apply matches_any. exists s, []. rewrite app_nil_r. split; [done|constructor]. Qed.

(** What a result says: after a failure behind a wildcard no later start can match. *)
Definition result (info : compareInfo) (its : list item) (s : list Z) (r : Z) : Prop :=
  (r = SQLITE_MATCH ∧ matches info its s) ∨ (r = SQLITE_NOMATCH ∧ ¬ matches info its s) ∨
  (r = SQLITE_NOWILDCARDMATCH ∧ ∀ s1 s2, s = s1 ++ s2 → ¬ matches info its s2).

(** The result behind a [*]. *)
Definition star (info : compareInfo) (its : list item) (s : list Z) (r : Z) : Prop :=
  (r = SQLITE_MATCH ∧ matches info (Any :: its) s) ∨ (r = SQLITE_NOWILDCARDMATCH ∧ ¬ matches info (Any :: its) s).

Lemma star_result info its s r : star info its s r → result info (Any :: its) s r.
Proof.
  intros [[-> H]|[-> H]]; [by left|]. right. right. split; [done|]. intros s1 s2 -> H2. by apply H, any_app.
Qed.

Lemma star_iff info its its' s s' r :
  (matches info (Any :: its) s ↔ matches info (Any :: its') s') → star info its' s' r → star info its s r.
Proof. intros Heq [[-> H]|[-> H]]; [left|right]; split; try done; by rewrite Heq. Qed.

(** Nothing to find at the first character. *)
Lemma star_cons info its x s r : ¬ matches info its (x :: s) → star info its s r → star info its (x :: s) r.
Proof.
  intros Hn [[-> H]|[-> H]]; [left|right]; split; try done; [by apply any_cons|].
  intros H'. apply matches_any in H' as ([|y s1] & s2 & E & H2).
  - cbn in E. by subst s2.
  - injection E as <- ->. apply H, matches_any. eauto.
Qed.

Lemma star_nil info it its : it ≠ Any → star info (it :: its) [] SQLITE_NOWILDCARDMATCH.
Proof.
  intros Hit. right. split; [done|]. intros H. apply matches_any in H as (s1 & s2 & E & H).
  symmetry in E. apply app_eq_nil in E as [-> ->]. apply matches_item in H as (x & s' & E & _); done.
Qed.

(** The first character fits: a result for the rest decides, unless it is a plain
    failure. *)
Lemma star_hit info it its x s r :
  it ≠ Any → match_item info it x = true → result info its s r → r ≠ SQLITE_NOMATCH → star info (it :: its) (x :: s) r.
Proof.
  intros Hit Hx [[-> H]|[[-> _]|[-> H]]] Hr; [left|done|right]; split; try done.
  - apply matches_any. exists [], (x :: s). split; [done|]. by constructor.
  - intros H'. apply matches_any in H' as (s1 & s2 & E & H2). apply matches_item in H2 as (y & s3 & -> & _ & H2); [|done].
    destruct s1 as [|z s1]; cbn in E.
    + injection E as -> ->. by apply (H [] s3).
    + injection E as <- ->. by apply (H (s1 ++ [y]) s3); [rewrite <- app_assoc|].
Qed.

Lemma star_miss info it its x s r :
  it ≠ Any → (match_item info it x = true → ¬ matches info its s) → star info (it :: its) s r →
  star info (it :: its) (x :: s) r.
Proof.
  intros Hit Hx Hs. apply star_cons; [|done]. intros H. apply matches_item in H as (y & s' & E & Hy & H); [|done].
  injection E as -> ->. by apply Hx.
Qed.

(** The same for the search that starts the rest of the pattern again at each
    character. *)
Lemma star_again info its s r : result info its s r → r ≠ SQLITE_NOMATCH → star info its s r.
Proof.
  intros [[-> H]|[[-> _]|[-> H]]] Hr; [left|done|right]; split; try done.
  - apply matches_any. by exists [], s.
  - intros H'. apply matches_any in H' as (s1 & s2 & E & H2). by apply (H s1 s2).
Qed.

Lemma result_item info it its x s r :
  it ≠ Any → match_item info it x = true → result info its s r → result info (it :: its) (x :: s) r.
Proof.
  intros Hit Hx [[-> H]|[[-> H]|[-> H]]]; [left|right; left|right; right]; (split; [done|]).
  - by constructor.
  - intros H'. apply matches_item in H' as (y & s' & E & _ & H'); [|done]. injection E as -> ->. done.
  - intros s1 s2 E H'. apply matches_item in H' as (y & s' & -> & _ & H'); [|done].
    destruct s1 as [|z s1]; cbn in E.
    + injection E as -> ->. by apply (H [] s').
    + injection E as <- ->. by apply (H (s1 ++ [y]) s'); [rewrite <- app_assoc|].
Qed.

Lemma result_miss info it its x s :
  it ≠ Any → match_item info it x = false → result info (it :: its) (x :: s) SQLITE_NOMATCH.
Proof.
  intros Hit Hx. right. left. split; [done|]. intros H'. apply matches_item in H' as (y & s' & E & Hy & H'); [|done].
  injection E as -> ->. congruence.
Qed.

Lemma result_end info it its : it ≠ Any → result info (it :: its) [] SQLITE_NOMATCH.
Proof.
  intros Hit. right. left. split; [done|]. intros H'. by apply matches_item in H' as (y & s' & E & _).
Qed.

(** ** Reading texts *)

Lemma Utf8Read_macro z : Utf8Read z = sqlite3Utf8Read z.
Proof.
  unfold Utf8Read, sqlite3Utf8Read. destruct (z.[0]) as [c|]; [|done]. cbn [mbind option_bind].
  destruct (Z.ltb_spec c 0x80); [|done]. destruct (Z.leb_spec 0xc0 c); [lia|done].
Qed.

Lemma Read_end rest : sqlite3Utf8Read (0 :: rest) = Some (0, rest).
Proof. unfold sqlite3Utf8Read. cbn. by rewrite drop_0. Qed.

(** The first character of a text. *)
Lemma next s rest : text s → s ≠ [] →
  ∃ c s', text s' ∧ (length s' < length s)%nat ∧ 0 < c ∧ chars s = c :: chars s' ∧
    sqlite3Utf8Read (s ++ 0 :: rest) = Some (c, s' ++ 0 :: rest) ∧
    SQLITE_SKIP_UTF8 (s ++ 0 :: rest) = Some (s' ++ 0 :: rest) ∧
    (∃ b s1, s = b :: s1 ∧ 0 < b ∧ (b < 128 ∨ c < 128 → b = c)).
Proof.
  intros Hs Hne. destruct (text_split s rest Hs Hne) as (t & c & s' & -> & Hs' & Hc & _ & Hr & E & ER & ES).
  pose proof (char_nonempty _ _ Hc). exists c, s'. split; [done|]. split; [len|]. split; [lia|]. split; [done|].
  split; [done|]. split; [done|].
  apply text_app in Hs as [Ht _]. destruct Hc as [b Hb|b bs v Hb Hbs Hv]; cbn [app]; apply text_cons in Ht as [Ht _].
  - do 2 eexists. split; [reflexivity|]. split; [lia|done].
  - do 2 eexists. split; [reflexivity|]. split; [lia|]. pose proof (char_multi_big b bs v Hb Hv). lia.
Qed.

Lemma chars_pos s : text s → Forall (λ c, 0 < c) (chars s).
Proof.
  remember (length s) as k eqn:Hk. revert s Hk. induction (lt_wf k) as [k _ IH]. intros s -> Hs.
  destruct (decide (s = [])) as [->|Hne]; [constructor|].
  destruct (next s [] Hs Hne) as (c & s' & Hs' & Hl & Hc & -> & _). constructor; [done|].
  by apply (IH (length s')).
Qed.

Lemma chars_ascii b s : 0 ≤ b < 128 → bytes s → chars (b :: s) = b :: chars s.
Proof.
  intros Hb Hs. change (b :: s) with ([b] ++ s). apply chars_app; [done|apply char_one; lia|].
  cbn. lia.
Qed.

Lemma chars_app_ascii s1 b s : bytes s1 → 0 ≤ b < 128 → bytes s → chars (s1 ++ b :: s) = chars s1 ++ b :: chars s.
Proof.
  intros H1 Hb Hs. remember (length s1) as k eqn:Hk. revert s1 H1 Hk. induction (lt_wf k) as [k _ IH].
  intros s1 H1 ->. destruct (decide (s1 = [])) as [->|Hne]; [by apply chars_ascii|].
  destruct (char_split s1 H1 Hne) as (t & c & s' & -> & Hc & Hf). pose proof (char_nonempty _ _ Hc).
  apply bytes_app in H1 as [_ H1]. rewrite <- app_assoc, (chars_app t c s') by done.
  rewrite (chars_app t c).
  - cbn [app]. f_equal. apply (IH (length s')); [len|done|done].
  - apply bytes_app. split; [done|]. apply bytes_cons. split; [lia|done].
  - done.
  - destruct t as [|a t]; [done|]. intros Ha. apply Hf in Ha. destruct s' as [|d s']; [|done].
    cbn. rewrite is_cont_byte by lia. destruct (Z.leb_spec 128 b); [lia|done].
Qed.

(** A character below 128 is a byte of the text. *)
Lemma chars_in s c : bytes s → c ∈ chars s → c < 128 → c ∈ s.
Proof.
  remember (length s) as k eqn:Hk. revert s Hk. induction (lt_wf k) as [k _ IH]. intros s -> Hs Hin Hc.
  destruct (decide (s = [])) as [->|Hne]; [done|].
  destruct (char_split s Hs Hne) as (t & x & s' & -> & Hx & Hf). pose proof (char_nonempty _ _ Hx).
  apply bytes_app in Hs as [_ Hs']. rewrite (chars_app t x s') in Hin by done.
  apply elem_of_app. apply elem_of_cons in Hin as [->|Hin].
  - left. destruct Hx as [b Hb|b bs v Hb Hbs Hv]; [set_solver|]. pose proof (char_multi_big b bs v Hb Hv). lia.
  - right. apply (IH (length s')); [len|done|done|done|done].
Qed.

Lemma strcspn_correct zStop s rest :
  text s → ∃ s1 s2, s = s1 ++ s2 ∧ strcspn_skip zStop (s ++ 0 :: rest) = Some (s2 ++ 0 :: rest) ∧
    (∀ b, b ∈ s1 → b ∉ zStop) ∧ match s2 with [] => True | b :: _ => b ∈ zStop end.
Proof.
  intros Hs. induction s as [|b s IH].
  - exists [], []. split; [done|]. split; [done|]. split; [by intros b Hb%elem_of_nil|done].
  - apply text_cons in Hs as [Hb Hs]. cbn [app strcspn_skip]. destruct (Z.eqb_spec b 0); [lia|]. cbn [orb].
    destruct (existsb (Z.eqb b) zStop) eqn:E.
    + exists [], (b :: s). split; [done|]. split; [done|]. split; [by intros x Hx%elem_of_nil|].
      apply existsb_exists in E as (x & Hx & ->%Z.eqb_eq). by apply list_elem_of_In.
    + destruct (IH Hs) as (s1 & s2 & -> & E2 & H1 & H2). exists (b :: s1), s2. split; [done|]. split; [done|].
      split; [|done]. intros x [->|Hx]%elem_of_cons; [|by apply H1]. intros Hin.
      assert (existsb (Z.eqb b) zStop = true); [|congruence].
      apply existsb_exists. exists b. split; [by apply list_elem_of_In|apply Z.eqb_refl].
Qed.

(** ** The searches *)

Section searches.
Context (info : compareInfo) (its : list item) (rest : list Z) (rec : list Z → option Z).
(** The recursive call meets its specification on every shorter text. *)
Definition rec_ok (its : list item) : Prop :=
  ∀ s, text s → ∃ r, rec (s ++ 0 :: rest) = Some r ∧ result info its (chars s) r.

Lemma set_search_correct it fuel s :
  it ≠ Any → rec_ok (it :: its) → text s → (length s < fuel)%nat →
  ∃ r, set_search fuel rec (s ++ 0 :: rest) = Some r ∧ star info (it :: its) (chars s) r.
Proof.
  intros Hit Hrec. revert s. induction fuel as [|fuel IH]; intros s Hs Hf; [lia|]. cbn [set_search].
  destruct (decide (s = [])) as [->|Hne].
  { eexists. split; [reflexivity|]. by apply star_nil. }
  destruct (next s rest Hs Hne) as (c & s' & Hs' & Hl & Hc & E & _ & ES & (b & s1 & Eb & Hb & _)).
  assert ((s ++ 0 :: rest).[0] = Some b) as -> by (by rewrite Eb). cbn [mbind option_bind].
  destruct (Z.eqb_spec b 0); [lia|]. destruct (Hrec s Hs) as (r & -> & Hr). cbn [mbind option_bind].
  destruct (Z.eqb_spec r SQLITE_NOMATCH) as [->|Hn]; cbn [negb].
  - rewrite ES. cbn [mbind option_bind]. destruct (IH s' Hs' ltac:(lia)) as (r & -> & Hstar).
    exists r. split; [done|]. rewrite E in *. apply star_cons; [|done].
    by destruct Hr as [[? _]|[[_ H]|[? _]]].
  - exists r. split; [done|]. by apply star_again.
Qed.

Lemma star_skip it cs s r :
  it ≠ Any → Forall (λ x, match_item info it x = false) cs → star info (it :: its) s r →
  star info (it :: its) (cs ++ s) r.
Proof.
  intros Hit H. induction H as [|x cs Hx H IH]; [done|]. intros Hs. cbn. apply star_miss; [done|congruence|].
  by apply IH.
Qed.

Lemma stop_search_correct it zStop fuel s :
  it ≠ Any → rec_ok its → text s → (length s < fuel)%nat → (∀ b, b ∈ zStop → b < 128) →
  (∀ x, 0 < x → match_item info it x = true ↔ x ∈ zStop) →
  ∃ r, stop_search fuel rec zStop (s ++ 0 :: rest) = Some r ∧ star info (it :: its) (chars s) r.
Proof.
  intros Hit Hrec Hs Hf Hstop Htest. revert s Hs Hf. induction fuel as [|fuel IH]; intros s Hs Hf; [lia|]. cbn [stop_search].
  destruct (strcspn_correct zStop s rest Hs) as (s1 & s2 & -> & -> & H1 & H2). cbn [mbind option_bind].
  apply text_app in Hs as [Hs1 Hs2].
  assert (∀ x, x ∈ chars s1 → x ∉ zStop) as Hmiss.
  { intros x Hx Hin. apply (H1 x); [|done]. apply chars_in; [by apply text_bytes|done|by apply Hstop]. }
  assert (Forall (λ x, match_item info it x = false) (chars s1)) as Hskip.
  { apply Forall_forall. intros x Hx. destruct (match_item info it x) eqn:E; [|done]. exfalso.
    apply (Hmiss x Hx), Htest; [|done]. pose proof (chars_pos s1 Hs1). rewrite Forall_forall in H. by apply H. }
  destruct s2 as [|b s2].
  - rewrite app_nil_r. eexists. split; [reflexivity|]. rewrite <- (app_nil_r (chars s1)).
    apply star_skip; [done|done|by apply star_nil].
  - cbn [app]. change ((b :: ?l).[0]) with (Some b). cbn [mbind option_bind drop skipn]. rewrite drop_0.
    apply text_cons in Hs2 as [Hb Hs2]. destruct (Z.eqb_spec b 0); [lia|].
    rewrite (chars_app_ascii s1 b s2); [|by apply text_bytes|split; [lia|by apply Hstop]|by apply text_bytes].
    assert (match_item info it b = true) as Hm by (apply Htest; [lia|done]).
    destruct (Hrec s2 Hs2) as (r & -> & Hr). cbn [mbind option_bind].
    destruct (Z.eqb_spec r SQLITE_NOMATCH) as [->|Hn]; cbn [negb].
    + destruct (IH s2 Hs2) as (r & -> & Hstar); [len_in Hf; lia|]. exists r. split; [done|].
      apply star_skip; [done|done|]. apply star_miss; [done| |done]. intros _. by destruct Hr as [[? _]|[[_ H]|[? _]]].
    + exists r. split; [done|]. apply star_skip; [done|done|]. by apply star_hit.
Qed.

Lemma char_search_correct it c fuel s :
  it ≠ Any → rec_ok its → text s → (length s < fuel)%nat →
  (∀ x, match_item info it x = true ↔ x = c) →
  ∃ r, char_search fuel rec c (s ++ 0 :: rest) = Some r ∧ star info (it :: its) (chars s) r.
Proof.
  intros Hit Hrec Hs Hf Htest. revert s Hs Hf. induction fuel as [|fuel IH]; intros s Hs Hf; [lia|]. cbn [char_search].
  rewrite Utf8Read_macro. destruct (decide (s = [])) as [->|Hne].
  { cbn [app]. rewrite Read_end. eexists. split; [reflexivity|]. by apply star_nil. }
  destruct (next s rest Hs Hne) as (x & s' & Hs' & Hl & Hx & -> & -> & _). cbn [mbind option_bind].
  destruct (Z.eqb_spec x 0); [lia|]. destruct (Z.eqb_spec x c) as [->|Hn]; cbn [negb].
  - destruct (Hrec s' Hs') as (r & -> & Hr). cbn [mbind option_bind].
    destruct (Z.eqb_spec r SQLITE_NOMATCH) as [->|Hn]; cbn [negb].
    + destruct (IH s' Hs' ltac:(lia)) as (r & -> & Hstar). exists r. split; [done|]. apply star_miss; [done| |done].
      intros _. by destruct Hr as [[? _]|[[_ H]|[? _]]].
    + exists r. split; [done|]. apply star_hit; [done| |done|done]. by apply Htest.
  - destruct (IH s' Hs' ltac:(lia)) as (r & -> & Hstar). exists r. split; [done|]. apply star_miss; [done| |done].
    intros H. by apply Htest in H.
Qed.
End searches.

(** ** Sets *)

Lemma single_range x c : (c <=? x) && (x <=? c) = (x =? c).
Proof. apply eq_true_iff_eq. rewrite andb_true_iff, Z.leb_le, Z.leb_le, Z.eqb_eq. lia. Qed.

Lemma in_ranges_cons r rs x : in_ranges (r :: rs) x = (fst r <=? x) && (x <=? snd r) || in_ranges rs x.
Proof. done. Qed.

(** What the loop returns for the members [p] that are still to be read. *)
Definition set_result (x prior : Z) (seen : bool) (p : list Z) (bound : nat) (rest : list Z)
    (res : option (Z * bool * list Z)) : Prop :=
  match parse_ranges prior p with
  | None => ∃ seen' z, res = Some (0, seen', z)
  | Some (rs, r) => ∃ q, res = Some (93, seen || in_ranges rs x, q ++ 0 :: rest) ∧ text q ∧ chars q = r ∧ (length q ≤ bound)%nat
  end.

(** The loop reads the next character at the end of each turn. *)
Definition turn (fuel : nat) (x prior : Z) (seen : bool) (z : list Z) : option (Z * bool * list Z) :=
  '(c2, z) ← sqlite3Utf8Read z; set_loop fuel x c2 prior seen z.

Lemma turn_correct fuel x prior seen q rest :
  text q → (length (chars q) < fuel)%nat → set_result x prior seen (chars q) (length q) rest (turn fuel x prior seen (q ++ 0 :: rest)).
Proof.
  remember (length q) as k eqn:Hk. revert fuel prior seen q Hk.
  induction (lt_wf k) as [k _ IH]. intros fuel prior seen q -> Hq Hf. destruct fuel as [|fuel]; [lia|].
  unfold turn. destruct (decide (q = [])) as [->|Hne].
  { cbn [app]. rewrite Read_end. cbn. unfold set_result. cbn. by exists seen, rest. }
  destruct (next q rest Hq Hne) as (c & q1 & Hq1 & Hl & Hc & Ech & -> & _ & _). cbn [mbind option_bind set_loop].
  rewrite Ech in Hf |- *. cbn [length] in Hf. destruct (Z.eqb_spec c 0); [lia|]. unfold set_result. cbn [parse_ranges negb andb].
  destruct (Z.eqb_spec c 93) as [->|H93]; cbn [negb].
  { exists q1. cbn. rewrite orb_false_r. split; [done|]. split; [done|]. split; [done|lia]. }
  set (seen' := if x =? c then true else seen).
  assert (∀ a, a = ('(c2, z) ← sqlite3Utf8Read (q1 ++ 0 :: rest); set_loop fuel x c2 c seen' z) →
    match ('(rs, r) ← parse_ranges c (chars q1); Some ((c, c) :: rs, r)) with
    | None => ∃ seen' z, a = Some (0, seen', z)
    | Some (rs, r) => ∃ q', a = Some (93, seen || in_ranges rs x, q' ++ 0 :: rest) ∧ text q' ∧ chars q' = r ∧ (length q' ≤ length q)%nat
    end) as Hsingle.
  { intros a ->. pose proof (IH (length q1) Hl fuel c seen' q1 eq_refl Hq1 ltac:(lia)) as H1.
    unfold set_result in H1. unfold turn in H1.
    destruct (parse_ranges c (chars q1)) as [[rs r]|]; [|done]. cbn [mbind option_bind].
    destruct H1 as (q' & -> & H1 & H2 & H3). exists q'. rewrite in_ranges_cons. cbn [fst snd].
    rewrite single_range. split; [|split; [done|split; [done|lia]]]. unfold seen'.
    destruct (x =? c); cbn [orb]; [by rewrite orb_true_r|done]. }
  destruct (Z.eqb_spec c 45) as [->|H45]; cbn [mbind option_bind andb]; [|by apply Hsingle].
  destruct (decide (q1 = [])) as [->|Hne1].
  { cbn [app]. change ((0 :: rest).[0]) with (Some 0). cbn [mbind option_bind negb andb].
    change (0 =? 93) with false. change (0 =? 0) with true. cbn [negb andb].
    destruct (0 <? prior); by apply Hsingle. }
  destruct (next q1 rest Hq1 Hne1) as (h & q2 & Hq2 & Hl2 & Hh & Ech2 & Er2 & _ & (b & s1 & Eb & Hb & Hbh)).
  assert ((q1 ++ 0 :: rest).[0] = Some b) as -> by (by rewrite Eb). cbn [mbind option_bind].
  assert ((b =? 93) = (h =? 93)) as ->.
  { destruct (Z.eqb_spec b 93), (Z.eqb_spec h 93); try done; exfalso; lia. }
  destruct (Z.eqb_spec b 0); [lia|]. cbn [negb]. rewrite andb_true_r.
  rewrite Ech2 in Hf, Hsingle |- *. cbn [length] in Hf.
  destruct (Z.ltb_spec 0 prior); [|rewrite andb_false_r; by apply Hsingle]. rewrite andb_true_r.
  destruct (Z.eqb_spec h 93); cbn [negb]; [by apply Hsingle|].
  rewrite Er2. cbn [mbind option_bind].
  set (seen2 := if (prior <=? x) && (x <=? h) then true else seen).
  pose proof (IH (length q2) ltac:(lia) fuel 0 seen2 q2 eq_refl Hq2 ltac:(lia)) as H1.
  unfold set_result, turn in H1. destruct (parse_ranges 0 (chars q2)) as [[rs r]|]; [|done]. cbn [mbind option_bind].
  destruct H1 as (q' & -> & H1 & H2 & H3). exists q'. rewrite in_ranges_cons. cbn [fst snd].
  split; [|split; [done|split; [done|lia]]]. unfold seen2.
  destruct ((prior <=? x) && (x <=? h)); cbn [orb]; [by rewrite orb_true_r|done].
Qed.

Lemma chars_length s : text s → (length (chars s) ≤ length s)%nat.
Proof.
  remember (length s) as k eqn:Hk. revert s Hk. induction (lt_wf k) as [k _ IH]. intros s -> Hs.
  destruct (decide (s = [])) as [->|Hne]; [done|].
  destruct (next s [] Hs Hne) as (c & s' & Hs' & Hl & Hc & -> & _). cbn [length].
  pose proof (IH (length s') Hl s' eq_refl Hs'). lia.
Qed.

(** The read before the loop, with the fuel that the model counts after it. *)
Lemma first_turn x seen q rest :
  text q →
  set_result x 0 seen (chars q) (length q) rest
    ('(c2, z) ← sqlite3Utf8Read (q ++ 0 :: rest); set_loop (S (length z)) x c2 0 seen z).
Proof.
  intros Hq. destruct (decide (q = [])) as [->|Hne].
  { cbn [app]. rewrite Read_end. cbn. unfold set_result. cbn. by exists seen, rest. }
  destruct (next q rest Hq Hne) as (c & q1 & Hq1 & Hl & Hc & Ech & Er & _ & _).
  pose proof (turn_correct (S (length (q1 ++ 0 :: rest))) x 0 seen q rest Hq) as H.
  unfold turn in H. rewrite Er in H |- *. cbn [mbind option_bind] in H |- *. apply H.
  rewrite Ech. cbn [length]. pose proof (chars_length q1 Hq1). len.
Qed.

(** Some character at the start of a text, or its end. *)
Lemma read_head (k : Z) q rest : text q → 0 < k →
  (∃ q', text q' ∧ (length q' < length q)%nat ∧ chars q = k :: chars q' ∧
     sqlite3Utf8Read (q ++ 0 :: rest) = Some (k, q' ++ 0 :: rest)) ∨
  (∃ c z, sqlite3Utf8Read (q ++ 0 :: rest) = Some (c, z) ∧ c ≠ k ∧
     match chars q with c' :: _ => c' ≠ k | [] => True end).
Proof.
  intros Hq Hk. destruct (decide (q = [])) as [->|Hne].
  { right. cbn [app]. rewrite Read_end. exists 0, rest. split; [done|]. split; [lia|done]. }
  destruct (next q rest Hq Hne) as (c & q1 & Hq1 & Hl & Hc & Ech & Er & _ & _).
  destruct (decide (c = k)) as [->|Hn]; [left; by exists q1|]. right. exists c, (q1 ++ 0 :: rest). by rewrite Ech.
Qed.

(** The members from after the optional inversion on. *)
Definition members (p : list Z) : option (list (Z * Z) * list Z) :=
  let '(first, p) := match p with c :: p1 => if c =? 93 then ([(93, 93)], p1) else ([], p) | [] => ([], p) end in
  '(rs, r) ← parse_ranges 0 p; Some (first ++ rs, r).

Lemma parse_set_members p :
  parse_set p = match p with
                | c :: p1 => if c =? 94 then '(rs, r) ← members p1; Some (true, rs, r)
                             else '(rs, r) ← members p; Some (false, rs, r)
                | [] => None
                end.
Proof.
  unfold parse_set, members. destruct p as [|c p1]; [done|]. destruct (c =? 94).
  - destruct p1 as [|d p2]; [done|]. destruct (d =? 93); by destruct (parse_ranges _ _) as [[? ?]|].
  - destruct (c =? 93); by destruct (parse_ranges _ _) as [[? ?]|].
Qed.

Lemma members_correct x q rest :
  text q →
  let res := ('(c2, z) ← sqlite3Utf8Read (q ++ 0 :: rest);
              '(seen, c2, z) ← (if c2 =? 93 then '(c2, z) ← sqlite3Utf8Read z; Some (x =? 93, c2, z)
                                else Some (false, c2, z));
              set_loop (S (length z)) x c2 0 seen z) in
  match members (chars q) with
  | None => ∃ seen' z, res = Some (0, seen', z)
  | Some (rs, r) => ∃ q', res = Some (93, in_ranges rs x, q' ++ 0 :: rest) ∧ text q' ∧ chars q' = r ∧ (length q' ≤ length q)%nat
  end.
Proof.
  intros Hq res. subst res. unfold members.
  destruct (read_head 93 q rest Hq ltac:(lia)) as [(q1 & Hq1 & Hl & -> & ->)|(c & z & Er & Hc & Hch)].
  - cbn [mbind option_bind]. change (93 =? 93) with true. pose proof (first_turn x (x =? 93) q1 rest Hq1) as H.
    unfold set_result in H. destruct (sqlite3Utf8Read (q1 ++ 0 :: rest)) as [[c2 z]|];
      cbn [mbind option_bind] in H |- *; destruct (parse_ranges 0 (chars q1)) as [[rs r]|]; cbn [mbind option_bind];
      try done; destruct H as (q' & -> & H1 & H2 & H3); exists q'; cbn [app]; rewrite in_ranges_cons; cbn [fst snd];
      rewrite single_range; (split; [done|]; split; [done|]; split; [done|lia]).
  - pose proof (first_turn x false q rest Hq) as H. unfold set_result in H. rewrite Er in H |- *.
    cbn [mbind option_bind] in H |- *. destruct (Z.eqb_spec c 93); [done|].
    assert (match chars q with c :: p1 => if c =? 93 then ([(93, 93)], p1) else ([], chars q) | [] => ([], chars q) end = ([], chars q)) as ->.
    { destruct (chars q) as [|c' p']; [done|]. by destruct (Z.eqb_spec c' 93). }
    cbn [mbind option_bind app]. destruct (parse_ranges 0 (chars q)) as [[rs r]|]; cbn [mbind option_bind]; done.
Qed.

Lemma match_set_end p rest : match_set p (0 :: rest) = Some None.
Proof. unfold match_set. by rewrite Read_end. Qed.

Lemma match_set_correct p s s' x rest rest' :
  text p → 0 < x → sqlite3Utf8Read (s ++ 0 :: rest') = Some (x, s' ++ 0 :: rest') →
  match parse_set (chars p) with
  | None => ∃ ok z zs, match_set (p ++ 0 :: rest) (s ++ 0 :: rest') = Some (Some (0, ok, z, zs))
  | Some (inv, rs, r) => ∃ q,
      match_set (p ++ 0 :: rest) (s ++ 0 :: rest') =
        Some (Some (93, xorb inv (in_ranges rs x), q ++ 0 :: rest, s' ++ 0 :: rest')) ∧
      text q ∧ chars q = r ∧ (length q ≤ length p)%nat
  end.
Proof.
  intros Hp Hx Er. unfold match_set. rewrite Er. cbn [mbind option_bind]. destruct (Z.eqb_spec x 0); [lia|].
  rewrite parse_set_members.
  destruct (read_head 94 p rest Hp ltac:(lia)) as [(q1 & Hq1 & Hl & -> & ->)|(c & z & Ec & Hc & Hch)].
  - cbn [mbind option_bind]. change (94 =? 94) with true. pose proof (members_correct x q1 rest Hq1) as H.
    destruct (sqlite3Utf8Read (q1 ++ 0 :: rest)) as [[c2 z]|]; cbn [mbind option_bind] in H |- *.
    2:{ destruct (members (chars q1)) as [[rs r]|]; [by destruct H as (? & ? & _)|by destruct H as (? & ? & ?)]. }
    destruct (if c2 =? 93 then _ else _) as [[[seen c3] z']|]; cbn [mbind option_bind] in H |- *.
    2:{ destruct (members (chars q1)) as [[rs r]|]; [by destruct H as (? & ? & _)|by destruct H as (? & ? & ?)]. }
    destruct (members (chars q1)) as [[rs r]|]; cbn [mbind option_bind].
    + destruct H as (q' & -> & H1 & H2 & H3). exists q'. cbn [mbind option_bind].
      split; [by rewrite xorb_comm|]. split; [done|]. split; [done|lia].
    + destruct H as (seen' & z2 & ->). cbn [mbind option_bind]. eauto.
  - pose proof (members_correct x p rest Hp) as H. rewrite Ec in H |- *. cbn [mbind option_bind] in H |- *.
    destruct (Z.eqb_spec c 94); [done|]. cbn [mbind option_bind].
    destruct (chars p) as [|c' p'].
    + change (members []) with (@None (list (Z * Z) * list Z)) in H. destruct H as (seen' & z2 & H). destruct (if c =? 93 then _ else _) as [[[seen c3] z']|];
        cbn [mbind option_bind] in H |- *; [|done]. rewrite H. cbn [mbind option_bind]. eauto.
    + destruct (Z.eqb_spec c' 94); [done|]. destruct (if c =? 93 then _ else _) as [[[seen c3] z']|]; cbn [mbind option_bind] in H |- *.
      2:{ destruct (members (c' :: p')) as [[rs r]|]; [by destruct H as (? & ? & _)|by destruct H as (? & ? & ?)]. }
      destruct (members (c' :: p')) as [[rs r]|]; cbn [mbind option_bind].
      * destruct H as (q' & -> & H1 & H2 & H3). exists q'. cbn [mbind option_bind]. by rewrite xorb_false_r, xorb_false_l.
      * destruct H as (seen' & z2 & ->). cbn [mbind option_bind]. eauto.
Qed.

(** ** The wildcards of a pattern *)

(** What the callers guarantee: the escape character is neither wildcard, the two
    wildcards differ unless they are disabled, and a set starts with an ASCII
    character. *)
Record wf_info (info : compareInfo) (other : Z) : Prop := {
  wf_other : other = 0 ∨ (other ≠ matchAll info ∧ other ≠ matchOne info);
  wf_all : matchAll info = matchOne info → matchAll info = 0;
  wf_set : matchSet info ≠ 0 → 0 < other < 128 }.

Section pattern.
Context (info : compareInfo) (other : Z) (Hwf : wf_info info other).
Notation items := (parse info other).

Lemma items_any c p : 0 < c → c = matchAll info → items (c :: p) = Any :: items p.
Proof. intros Hc ->. rewrite parse_cons. unfold parse_item. by rewrite Z.eqb_refl. Qed.

Lemma items_one c p : 0 < c → c = matchOne info → items (c :: p) = One :: items p.
Proof.
  intros Hc ->. rewrite parse_cons. unfold parse_item. destruct (wf_other _ _ Hwf) as [->|[H1 H2]].
  - destruct (Z.eqb_spec (matchOne info) (matchAll info)) as [E|]; [pose proof (wf_all _ _ Hwf); lia|].
    destruct (Z.eqb_spec (matchOne info) 0); [lia|]. cbn [andb]. by rewrite Z.eqb_refl.
  - destruct (Z.eqb_spec (matchOne info) (matchAll info)) as [E|]; [pose proof (wf_all _ _ Hwf); lia|].
    destruct (Z.eqb_spec (matchOne info) other); [congruence|]. cbn [andb]. by rewrite Z.eqb_refl.
Qed.

Lemma items_lit c p : 0 < c → c ≠ matchAll info → c ≠ matchOne info → c ≠ other → items (c :: p) = Lit c :: items p.
Proof.
  intros Hc H1 H2 H3. rewrite parse_cons. unfold parse_item.
  destruct (Z.eqb_spec c (matchAll info)); [done|]. destruct (Z.eqb_spec c other); [done|]. cbn [andb].
  by destruct (Z.eqb_spec c (matchOne info)).
Qed.

Lemma items_escape p : 0 < other → matchSet info = 0 →
  items (other :: p) = match p with e :: r => Lit e :: items r | [] => [Bad] end.
Proof.
  intros Hc Hs. rewrite parse_cons. unfold parse_item. destruct (wf_other _ _ Hwf) as [->|[H1 H2]]; [lia|].
  destruct (Z.eqb_spec other (matchAll info)); [congruence|]. rewrite Z.eqb_refl, Hs. cbn [negb andb Z.eqb].
  by destruct p.
Qed.

Lemma items_set p : 0 < other → matchSet info ≠ 0 →
  items (other :: p) = match parse_set p with Some (inv, rs, r) => Set_ inv rs :: items r | None => [Bad] end.
Proof.
  intros Hc Hs. rewrite parse_cons. unfold parse_item. destruct (wf_other _ _ Hwf) as [->|[H1 H2]]; [lia|].
  destruct (Z.eqb_spec other (matchAll info)); [congruence|]. rewrite Z.eqb_refl.
  destruct (Z.eqb_spec (matchSet info) 0); [done|]. cbn [negb andb].
  by destruct (parse_set p) as [[[inv rs] r]|].
Qed.

(** The wildcards behind a [*] are skipped with one character of the string for each
    single wildcard. *)
Definition star_next (p s : list Z) (rest rest' : list Z) (k : Z + Z * list Z * list Z) : Prop :=
  (k = inl SQLITE_NOWILDCARDMATCH ∧ ¬ matches info (Any :: items (chars p)) (chars s)) ∨
  (∃ s', text s' ∧
    ((k = inr (0, rest, s' ++ 0 :: rest') ∧ matches info (Any :: items (chars p)) (chars s)) ∨
     (∃ c p', k = inr (c, p' ++ 0 :: rest, s' ++ 0 :: rest') ∧ 0 < c ∧ text p' ∧ (length p' < length p)%nat ∧
        c ≠ matchAll info ∧ c ≠ matchOne info ∧
        (matches info (Any :: items (chars p)) (chars s) ↔ matches info (Any :: items (c :: chars p')) (chars s'))))).

Lemma star_next_weaken p p1 s s1 rest rest' k :
  (length p1 < length p)%nat →
  (matches info (Any :: items (chars p)) (chars s) ↔ matches info (Any :: items (chars p1)) (chars s1)) →
  star_next p1 s1 rest rest' k → star_next p s rest rest' k.
Proof.
  intros Hl Heq [[-> H]|(s' & Hs' & [[-> H]|(c & p' & -> & Hc & Hp' & Hl' & H1 & H2 & Heq')])].
  - left. split; [done|]. by rewrite Heq.
  - right. exists s'. split; [done|]. left. split; [done|]. by rewrite Heq.
  - right. exists s'. split; [done|]. right. exists c, p'. split; [done|]. split; [done|]. split; [done|].
    split; [lia|]. split; [done|]. split; [done|]. by rewrite Heq.
Qed.

Lemma star_loop_correct fuel p s rest rest' :
  matchAll info ≠ 0 → text p → text s → (length p < fuel)%nat →
  ∃ k, star_loop fuel info (p ++ 0 :: rest) (s ++ 0 :: rest') = Some k ∧ star_next p s rest rest' k.
Proof.
  intros Hall. revert p s. induction fuel as [|fuel IH]; intros p s Hp Hs Hf; [lia|]. cbn [star_loop].
  rewrite Utf8Read_macro. destruct (decide (p = [])) as [->|Hne].
  { cbn [app]. rewrite Read_end. cbn [mbind option_bind]. destruct (Z.eqb_spec 0 (matchAll info)); [lia|]. cbn [orb].
    assert ((0 =? matchOne info) && negb (matchOne info =? 0) = false) as ->.
    { destruct (Z.eqb_spec 0 (matchOne info)) as [E|]; [by rewrite <- E|done]. }
    eexists. split; [reflexivity|]. right. exists s. split; [done|]. left. split; [done|]. apply any_nil_true. }
  destruct (next p rest Hp Hne) as (c & p1 & Hp1 & Hl & Hc & Ech & -> & _ & _). cbn [mbind option_bind].
  destruct (Z.eqb_spec c (matchOne info)) as [E1|E1].
  - assert ((c =? matchAll info) || true && negb (matchOne info =? 0) = true) as ->.
    { destruct (Z.eqb_spec (matchOne info) 0); [lia|]. apply orb_true_r. }
    destruct (decide (s = [])) as [->|Hns].
    { cbn [app]. rewrite Read_end. eexists. split; [reflexivity|]. left. split; [done|].
      rewrite Ech, items_one, any_one by done. by intros (x & s' & ? & _). }
    destruct (next s rest' Hs Hns) as (x & s1 & Hs1 & Hls & Hx & Ecs & -> & _ & _). cbn [mbind option_bind].
    destruct (Z.eqb_spec x 0); [lia|]. destruct (IH p1 s1 Hp1 Hs1 ltac:(lia)) as (k & -> & Hk).
    exists k. split; [done|]. apply (star_next_weaken p p1 s s1); [done| |done].
    rewrite Ech, Ecs, items_one, any_one by done. split; [|eauto]. by intros (y & s' & [= <- <-] & H).
  - destruct (Z.eqb_spec c (matchAll info)) as [E2|E2]; cbn [orb andb].
    + destruct (IH p1 s Hp1 Hs ltac:(lia)) as (k & -> & Hk). exists k. split; [done|].
      apply (star_next_weaken p p1 s s); [done| |done]. by rewrite Ech, items_any, any_any.
    + eexists. split; [reflexivity|]. right. exists s. split; [done|]. right. exists c, p1.
      split; [done|]. split; [done|]. split; [done|]. split; [done|]. split; [done|]. split; [done|]. by rewrite Ech.
Qed.

(** ** One character *)

Lemma Tolower_small x : 0 ≤ x < 128 → sqlite3Tolower x = Some (lower x).
Proof. intros Hx. unfold sqlite3Tolower. rewrite u8_id by lia. apply UpperToLower_byte. lia. Qed.

Lemma Tolower_some x : ∃ l, sqlite3Tolower x = Some l.
Proof. unfold sqlite3Tolower. pose proof (u8_range x). rewrite UpperToLower_byte by done. eauto. Qed.

(** The bytes that the search for a literal stops at. *)
Lemma stop_bytes c x : 0 < c < 128 → 0 < x →
  same info c x = true ↔
  x ∈ (if negb (noCase info =? 0) then [sqlite3Toupper c; lower c] else [c]).
Proof.
  intros Hc Hx. unfold same. destruct (Z.eqb_spec (noCase info) 0); cbn [negb andb].
  { rewrite orb_false_r, list_elem_of_singleton, Z.eqb_eq. split; congruence. }
  assert (forallb (λ c, forallb (λ x, Bool.eqb ((c =? x) || (lower c =? lower x))
    ((x =? sqlite3Toupper c) || (x =? lower c))) (seqZ 0 128)) (seqZ 0 128) = true) as H by (vm_compute; reflexivity).
  assert (forallb (λ c, (sqlite3Toupper c <? 128) && (lower c <? 128)) (seqZ 0 128) = true) as Hr
    by (vm_compute; reflexivity).
  pose proof (range_all _ 0 128 Hr c ltac:(lia)) as Hr1. cbv beta in Hr1. b2p.
  destruct (Z.ltb_spec c 128); [|lia]. cbn [andb]. destruct (Z.ltb_spec x 128); cbn [andb].
  - pose proof (range_all _ 0 128 H c ltac:(lia)) as Hcx. pose proof (range_all _ 0 128 Hcx x ltac:(lia)) as Hb.
    cbv beta in Hb. apply Bool.eqb_prop in Hb. rewrite Hb, orb_true_iff, !Z.eqb_eq, !elem_of_cons, elem_of_nil. tauto.
  - rewrite orb_false_r, Z.eqb_eq, !elem_of_cons, elem_of_nil. lia.
Qed.

Lemma same_big c x : 128 ≤ c → same info c x = true ↔ x = c.
Proof.
  intros Hc. unfold same. destruct (Z.ltb_spec c 128); [lia|]. rewrite andb_false_r. cbn [andb].
  rewrite orb_false_r, Z.eqb_eq. split; congruence.
Qed.

(** The search behind a [*] for a literal. *)
Lemma literal_search rec its c s rest :
  0 < c → text s → rec_ok info rest rec its →
  ∃ r, (if c <? 0x80 then
          l ← sqlite3Tolower c;
          let zStop := if negb (noCase info =? 0) then [sqlite3Toupper c; l] else [c] in
          stop_search (S (length (s ++ 0 :: rest))) rec zStop (s ++ 0 :: rest)
        else char_search (S (length (s ++ 0 :: rest))) rec c (s ++ 0 :: rest)) = Some r ∧
    star info (Lit c :: its) (chars s) r.
Proof.
  intros Hc Hs Hrec. destruct (Z.ltb_spec c 0x80).
  - rewrite Tolower_small by lia. cbn [mbind option_bind]. apply (stop_search_correct info its rest rec (Lit c)); [done..|len| |].
    + intros b Hb. assert (forallb (λ c, (sqlite3Toupper c <? 128) && (lower c <? 128)) (seqZ 0 128) = true) as Hr
        by (vm_compute; reflexivity).
      pose proof (range_all _ 0 128 Hr c ltac:(lia)) as Hr1. cbv beta in Hr1. b2p.
      destruct (negb _); rewrite ?elem_of_cons, elem_of_nil in Hb; lia.
    + intros x Hx. by apply stop_bytes.
  - apply (char_search_correct info its rest rec (Lit c)); [done..|len|]. intros x. by apply same_big.
Qed.

Lemma match_literal c x : 0 < c → 0 < x → ∃ lc lx, sqlite3Tolower c = Some lc ∧ sqlite3Tolower x = Some lx ∧
  (c =? x) || negb (noCase info =? 0) && (lc =? lx) && (c <? 0x80) && (x <? 0x80) = same info c x.
Proof.
  intros Hc Hx. destruct (Tolower_some c) as [lc Ec]. destruct (Tolower_some x) as [lx Ex]. exists lc, lx.
  split; [done|]. split; [done|]. unfold same. f_equal. change 0x80 with 128.
  destruct (negb _); cbn [andb]; [|done]. destruct (Z.ltb_spec c 128); [|by rewrite andb_false_r].
  destruct (Z.ltb_spec x 128); [|by rewrite !andb_false_r].
  rewrite Tolower_small in Ec, Ex by lia. injection Ec as <-. injection Ex as <-. by rewrite !andb_true_r.
Qed.
End pattern.

(** ** The loop *)

(** No earlier escape ends in the rest of the pattern. *)
Definition esc_before (zEscaped : option nat) (z : list Z) : Prop :=
  match zEscaped with Some k => (length z ≤ k)%nat | None => True end.

Lemma star_tail info other fuel p s rest rest' :
  wf_info info other → text p → text s → (length p < fuel)%nat → matchAll info ≠ 0 →
  (∀ p s, text p → text s → (length p < fuel)%nat →
     ∃ r, patternCompare_loop fuel info other (p ++ 0 :: rest) (s ++ 0 :: rest') None = Some r ∧
       result info (parse info other (chars p)) (chars s) r) →
  let rec p s := patternCompare_loop fuel info other p s None in
  ∃ r, (r ← star_loop (S (length (p ++ 0 :: rest))) info (p ++ 0 :: rest) (s ++ 0 :: rest');
        match r with
        | inl rc => Some rc
        | inr (c, zPattern, zString) =>
            if c =? 0 then Some SQLITE_MATCH
            else if (c =? other) && negb (matchSet info =? 0) then
              set_search (S (length zString)) (rec (c :: zPattern)) zString
            else
              '(c, zPattern) ← (if c =? other then sqlite3Utf8Read zPattern else Some (c, zPattern));
              if c =? 0 then Some SQLITE_NOWILDCARDMATCH
              else if c <? 0x80 then
                l ← sqlite3Tolower c;
                let zStop := if negb (noCase info =? 0) then [sqlite3Toupper c; l] else [c] in
                stop_search (S (length zString)) (rec zPattern) zStop zString
              else char_search (S (length zString)) (rec zPattern) c zString
        end) = Some r ∧
    star info (parse info other (chars p)) (chars s) r.
Proof.
  intros Hwf Hp Hs Hf Hall IH rec.
  destruct (star_loop_correct info other Hwf (S (length (p ++ 0 :: rest))) p s rest rest' Hall Hp Hs ltac:(len))
    as (k & -> & [[-> H]|(s' & Hs' & [[-> H]|(c & p1 & -> & Hc & Hp1 & Hl & H1 & H2 & Heq)])]); cbn [mbind option_bind].
  - eexists. split; [reflexivity|]. by right.
  - eexists. split; [reflexivity|]. by left.
  - destruct (Z.eqb_spec c 0); [lia|].
    assert (∀ p2, (length p2 ≤ length p)%nat → text p2 → rec_ok info rest' (rec (p2 ++ 0 :: rest)) (parse info other (chars p2))) as Hrec.
    { intros p2 Hl2 Hp2 t Ht. apply IH; [done|done|lia]. }
    destruct (Z.eqb_spec c other) as [->|Hn]; cbn [andb].
    + destruct (Z.eqb_spec (matchSet info) 0) as [E0|E0]; cbn [negb].
      * destruct (decide (p1 = [])) as [->|Hne].
        { cbn [app]. rewrite Read_end. cbn [mbind option_bind]. eexists. split; [reflexivity|].
          apply (star_iff _ _ _ _ _ _ Heq). rewrite items_escape by done. right. split; [done|].
          intros (s1 & s2 & _ & H)%matches_any. by apply matches_bad in H. }
        destruct (next p1 rest Hp1 Hne) as (e & p2 & Hp2 & Hl2 & He & Ech & -> & _ & _). cbn [mbind option_bind].
        destruct (Z.eqb_spec e 0); [lia|].
        destruct (literal_search info (rec (p2 ++ 0 :: rest)) (parse info other (chars p2)) e s' rest' He Hs')
          as (r & E & Hr); [apply Hrec; [lia|done]|].
        exists r. split; [exact E|]. apply (star_iff _ _ _ _ _ _ Heq). by rewrite items_escape, Ech.
      * destruct (wf_set _ _ Hwf E0) as [_ Hset].
        assert (chars (other :: p1) = other :: chars p1) as Ech by (apply chars_ascii; [lia|by apply text_bytes]).
        rewrite <- Ech in Heq.
        assert (∃ it its, parse info other (chars (other :: p1)) = it :: its ∧ it ≠ Any) as (it & its & Ei & Hit).
        { rewrite Ech, items_set by done. destruct (parse_set (chars p1)) as [[[inv rs] r]|]; eauto. }
        destruct (set_search_correct info its rest' (rec ((other :: p1) ++ 0 :: rest)) it (S (length (s' ++ 0 :: rest'))) s' Hit)
          as (r & E & Hr); [|done|len|].
        { rewrite <- Ei. apply Hrec; [cbn [length]; lia|apply text_cons; split; [lia|done]]. }
        exists r. split; [exact E|]. apply (star_iff _ _ _ _ _ _ Heq). by rewrite Ei.
    + cbn [mbind option_bind]. destruct (Z.eqb_spec c 0); [lia|].
      destruct (literal_search info (rec (p1 ++ 0 :: rest)) (parse info other (chars p1)) c s' rest' Hc Hs')
        as (r & E & Hr); [apply Hrec; [lia|done]|].
      exists r. split; [exact E|]. apply (star_iff _ _ _ _ _ _ Heq). by rewrite items_lit.
Qed.

(** The comparison of one character. *)
Lemma compare_step info other fuel it its c p s rest rest' esc :
  it ≠ Any → 0 < c → text s →
  (∀ x, same info c x || (c =? matchOne info) && negb (bool_decide (Some (length (p ++ 0 :: rest)) = esc)) =
        match_item info it x) →
  (∀ s, text s → ∃ r, patternCompare_loop fuel info other (p ++ 0 :: rest) (s ++ 0 :: rest') esc = Some r ∧
     result info its (chars s) r) →
  ∃ r, ('(c2, zString) ← Utf8Read (s ++ 0 :: rest');
        lc ← sqlite3Tolower c;
        lc2 ← sqlite3Tolower c2;
        if (c =? c2)
           || (negb (noCase info =? 0) && (lc =? lc2) && (c <? 0x80) && (c2 <? 0x80))
           || ((c =? matchOne info) && negb (bool_decide (Some (length (p ++ 0 :: rest)) = esc)) && negb (c2 =? 0))
        then patternCompare_loop fuel info other (p ++ 0 :: rest) zString esc
        else Some SQLITE_NOMATCH) = Some r ∧
    result info (it :: its) (chars s) r.
Proof.
  intros Hit Hc Hs Hm IH. rewrite Utf8Read_macro. destruct (Tolower_some c) as [lc Elc].
  destruct (decide (s = [])) as [->|Hne].
  { cbn [app]. rewrite Read_end. cbn [mbind option_bind]. rewrite Elc, (Tolower_small 0) by lia. cbn [mbind option_bind].
    change (lower 0) with 0. change (0 =? 0) with true. destruct (Z.eqb_spec c 0); [lia|].
    assert (negb (noCase info =? 0) && (lc =? 0) && (c <? 0x80) && (0 <? 0x80) = false) as ->.
    { destruct (negb (noCase info =? 0)); cbn [andb]; [|done]. destruct (Z.ltb_spec c 0x80); [|by rewrite andb_false_r].
      rewrite Tolower_small in Elc by lia. injection Elc as <-. rewrite (proj2 (Z.eqb_neq _ _)); [done|].
      intros E. pose proof (proj1 (lower_zero c ltac:(lia)) E). lia. }
    rewrite !andb_false_r. cbn [orb]. eexists. split; [reflexivity|]. by apply result_end. }
  destruct (next s rest' Hs Hne) as (x & s' & Hs' & Hl & Hx & -> & -> & _). cbn [mbind option_bind].
  destruct (match_literal info c x Hc Hx) as (lc' & lx & Ec & Ex & Em). rewrite Ec, Ex. cbn [mbind option_bind]. rewrite Em.
  destruct (Z.eqb_spec x 0); [lia|]. cbn [negb]. rewrite andb_true_r, Hm.
  destruct (match_item info it x) eqn:Ei.
  - destruct (IH s' Hs') as (r & -> & Hr). exists r. split; [done|]. by apply result_item.
  - eexists. split; [reflexivity|]. by apply result_miss.
Qed.

Lemma esc_passed esc k (z : list Z) : esc_before esc z → (k < length z)%nat → bool_decide (Some k = esc) = false.
Proof. intros H Hk. apply bool_decide_eq_false_2. intros <-. cbn in H. lia. Qed.

Lemma loop_correct info other fuel p s rest rest' zEscaped :
  wf_info info other → text p → text s → (length p < fuel)%nat → esc_before zEscaped (p ++ 0 :: rest) →
  ∃ r, patternCompare_loop fuel info other (p ++ 0 :: rest) (s ++ 0 :: rest') zEscaped = Some r ∧
    result info (parse info other (chars p)) (chars s) r.
Proof.
  intros Hwf. revert p s zEscaped. induction fuel as [|fuel IH]; intros p s esc Hp Hs Hf Hesc; [lia|].
  cbn [patternCompare_loop]. rewrite (Utf8Read_macro (p ++ _)).
  destruct (decide (p = [])) as [->|Hne].
  { cbn [app]. rewrite Read_end. cbn [mbind option_bind]. change (0 =? 0) with true.
    destruct s as [|b s].
    - eexists. split; [reflexivity|]. left. split; [done|constructor].
    - pose proof Hs as [Hb _]%text_cons. cbn [app]. change ((b :: ?l).[0]) with (Some b). cbn [mbind option_bind].
      destruct (Z.eqb_spec b 0); [lia|]. eexists. split; [reflexivity|]. right. left. split; [done|].
      rewrite chars_nil. change (parse info other []) with (@nil item). rewrite matches_nil.
      by destruct (next (b :: s) [] Hs ltac:(done)) as (c & s' & _ & _ & _ & -> & _). }
  destruct (next p rest Hp Hne) as (c & p1 & Hp1 & Hl & Hc & Ech & -> & _ & _). cbn [mbind option_bind]. rewrite Ech.
  destruct (Z.eqb_spec c 0); [lia|].
  destruct (Z.eqb_spec c (matchAll info)) as [E1|E1].
  { destruct (star_tail info other fuel p1 s rest rest' Hwf Hp1 Hs ltac:(lia) ltac:(lia)) as (r & E & Hr).
    - intros q t Hq Ht Hlq. by apply (IH q t None).
    - exists r. split; [exact E|]. rewrite items_any by done. by apply star_result. }
  assert (esc_before esc (p1 ++ 0 :: rest)) as Hesc1.
  { destruct esc as [k|]; [|done]. cbn in *. len_in Hesc. len. }
  destruct (Z.eqb_spec c other) as [->|E2]; cbn [andb].
  2:{ cbn [mbind option_bind]. destruct (Z.eqb_spec c 0); [lia|].
      destruct (decide (c = matchOne info)) as [E3|E3].
      - rewrite items_one by done. apply compare_step; [done|done|done| |].
        + intros x. rewrite (esc_passed esc _ _ Hesc) by len. rewrite <- E3, Z.eqb_refl. apply orb_true_r.
        + intros t Ht. apply IH; [done|done|lia|done].
      - rewrite items_lit by done. apply compare_step; [done|done|done| |].
        + intros x. destruct (Z.eqb_spec c (matchOne info)); [done|]. apply orb_false_r.
        + intros t Ht. apply IH; [done|done|lia|done]. }
  destruct (Z.eqb_spec (matchSet info) 0) as [E0|E0]; cbn [negb].
  - rewrite items_escape by done. destruct (decide (p1 = [])) as [->|Hne1].
    { cbn [app]. rewrite Read_end. cbn [mbind option_bind]. change (0 =? 0) with true. eexists.
      split; [reflexivity|]. right. left. split; [done|apply matches_bad]. }
    destruct (next p1 rest Hp1 Hne1) as (e & p2 & Hp2 & Hl2 & He & -> & -> & _ & _). cbn [mbind option_bind].
    destruct (Z.eqb_spec e 0); [lia|]. apply compare_step; [done|done|done| |].
    + intros x. rewrite bool_decide_eq_true_2 by done. rewrite andb_false_r. apply orb_false_r.
    + intros t Ht. apply IH; [done|done|lia|]. cbn. lia.
  - rewrite items_set by done. destruct (decide (s = [])) as [->|Hns].
    { cbn [app]. rewrite match_set_end. cbn [mbind option_bind]. eexists. split; [reflexivity|].
      destruct (parse_set (chars p1)) as [[[inv rs] r]|]; by apply result_end. }
    destruct (next s rest' Hs Hns) as (x & s' & Hs' & Hls & Hx & -> & Ers & _ & _).
    pose proof (match_set_correct p1 s s' x rest rest' Hp1 Hx Ers) as Hset.
    destruct (parse_set (chars p1)) as [[[inv rs] r]|].
    + destruct Hset as (q & -> & Hq & Eq & Hlq). cbn [mbind option_bind]. change (93 =? 0) with false. cbn [orb].
      destruct (xorb inv (in_ranges rs x)) eqn:Ex; cbn [negb].
      * destruct (IH q s' esc Hq Hs' ltac:(lia)) as (r' & -> & Hr).
        { destruct esc as [k|]; [|done]. cbn in *. len_in Hesc1. len. }
        exists r'. split; [done|]. rewrite <- Eq. by apply result_item.
      * eexists. split; [reflexivity|]. by apply result_miss.
    + destruct Hset as (ok & z & zs & ->). cbn [mbind option_bind]. change (0 =? 0) with true. cbn [orb].
      eexists. split; [reflexivity|]. by apply result_miss.
Qed.

(** ** Properties *)

(** C34: [patternCompare] always returns, reads no byte past the terminator of either
    string, and returns [SQLITE_MATCH] exactly when the code points of the string
    match the items of the pattern: any sequence, any one character, a set with
    ranges and inversion, a literal in either case. The third result,
    [SQLITE_NOWILDCARDMATCH], with which the search for a [*] stops early, is
    returned only if no suffix of the string matches. The escape character is
    assumed to be neither of the two wildcards. *)
Theorem patternCompare_correct info other p s rest rest' :
  wf_info info other → text p → text s →
  ∃ r, patternCompare (p ++ 0 :: rest) (s ++ 0 :: rest') info other = Some r ∧
    (r = SQLITE_MATCH ↔ matches info (parse info other (chars p)) (chars s)) ∧
    (r = SQLITE_NOWILDCARDMATCH → ∀ s1 s2, chars s = s1 ++ s2 → ¬ matches info (parse info other (chars p)) s2) ∧
    (r = SQLITE_MATCH ∨ r = SQLITE_NOMATCH ∨ r = SQLITE_NOWILDCARDMATCH).
Proof.
  intros Hwf Hp Hs. unfold patternCompare.
  destruct (loop_correct info other (S (length (p ++ 0 :: rest))) p s rest rest' None Hwf Hp Hs) as (r & -> & Hr); [len|done|].
  exists r. split; [done|]. destruct Hr as [[-> H]|[[-> H]|[-> H]]].
  - split; [done|]. split; [done|]. by left.
  - split; [split; [done|by intros ?%H]|]. split; [done|]. by right; left.
  - split; [split; [done|intros Hm; by apply (H [] (chars s)) in Hm]|]. split; [done|]. by right; right.
Qed.

(** The comparison that the SQL function makes: the escape character that it is given
    disables the wildcard it is equal to. *)
Definition escaped_info (info : compareInfo) (e : Z) : compareInfo :=
  CompareInfo (if e =? matchAll info then 0 else matchAll info)
    (if e =? matchOne info then 0 else matchOne info) (matchSet info) (noCase info).

Definition like_info (info : compareInfo) : Prop := info = likeInfoNorm ∨ info = likeInfoAlt.

Lemma wf_glob : wf_info globInfo 91.
Proof. split; cbn; lia. Qed.

Lemma wf_like info : like_info info → wf_info info 0.
Proof. intros [-> | ->]; split; cbn; lia. Qed.

Lemma wf_escaped info e : like_info info → 0 < e → wf_info (escaped_info info e) e.
Proof.
  intros Hi He. unfold escaped_info.
  destruct Hi as [-> | ->]; cbn; (split; cbn [matchAll matchOne matchSet]; [right| |lia]);
    destruct (Z.eqb_spec e 37), (Z.eqb_spec e 95); lia.
Qed.

(** The integer that the function sets from a comparison. *)
Lemma like_value info other p s rest rest' :
  wf_info info other → text p → text s →
  ∃ v, (m ← patternCompare (p ++ 0 :: rest) (s ++ 0 :: rest') info other; Some (LikeInt (b2z (m =? SQLITE_MATCH)))) =
      Some (LikeInt v) ∧ (v = 0 ∨ v = 1) ∧
    (v = 1 ↔ matches info (parse info other (chars p)) (chars s)).
Proof.
  intros Hwf Hp Hs. unfold patternCompare.
  destruct (loop_correct info other (S (length (p ++ 0 :: rest))) p s rest rest' None Hwf Hp Hs) as (r & -> & Hr); [len|done|].
  cbn [mbind option_bind]. eexists. split; [reflexivity|].
  destruct Hr as [[-> H]|[[-> H]|[-> H]]]; (split; [cbn; auto|]).
  - split; intros _; [exact H|reflexivity].
  - split; [intros Hv; discriminate Hv|intros Hm; by apply H in Hm].
  - split; [intros Hv; discriminate Hv|intros Hm; by apply (H [] (chars s)) in Hm].
Qed.

(** The SQL operators: within the limit on the length of the pattern, GLOB, and LIKE
    without ESCAPE, give 1 if the string matches the pattern and 0 otherwise; LIKE with
    a one-character ESCAPE text gives the match in which that character
    escapes the next one, even if it is one of the wildcards; a longer
    pattern is an error, and so is an ESCAPE text of any other length. *)
Theorem likeFunc_correct limit nPat info p s rest rest' e :
  text p → text s → text e → like_info info →
  let lf := likeFunc limit nPat in
  let zB := Some (p ++ 0 :: rest) in let zA := Some (s ++ 0 :: rest') in
  (limit < nPat → lf info zB zA None = Some LikeTooComplex) ∧
  (nPat ≤ limit →
    (∃ v, lf globInfo zB zA None = Some (LikeInt v) ∧ (v = 0 ∨ v = 1) ∧
       (v = 1 ↔ matches globInfo (parse globInfo 91 (chars p)) (chars s))) ∧
    (∃ v, lf info zB zA None = Some (LikeInt v) ∧ (v = 0 ∨ v = 1) ∧
       (v = 1 ↔ matches info (parse info 0 (chars p)) (chars s))) ∧
    match chars e with
    | [c] => ∃ v, lf info zB zA (Some (Some (e ++ [0]))) = Some (LikeInt v) ∧ (v = 0 ∨ v = 1) ∧
        (v = 1 ↔ matches (escaped_info info c) (parse (escaped_info info c) c (chars p)) (chars s))
    | _ => lf info zB zA (Some (Some (e ++ [0]))) = Some LikeBadEscape
    end).
Proof.
  intros Hp Hs He Hi lf zB zA. unfold lf, likeFunc, zB, zA.
  split; [intros Hl; by destruct (Z.ltb_spec limit nPat); [|lia]|]. intros Hl.
  destruct (Z.ltb_spec limit nPat); [lia|]. split; [|split].
  - apply (like_value globInfo 91); [apply wf_glob|done|done].
  - assert (matchSet info = 0) as E by (by destruct Hi as [-> | ->]). cbn [mbind option_bind]. rewrite E.
    apply (like_value info 0); [by apply wf_like|done|done].
  - unfold sqlite3Utf8CharLen. change (0 <=? -1) with false. rewrite (charlen_loop_all _ e []) by (done || len).
    cbn [mbind option_bind]. rewrite Z.add_0_l.
    destruct (chars e) as [|c [|c' l]] eqn:Ech; cbn [length].
    + done.
    + change (Z.of_nat 1 =? 1) with true. cbn [negb].
      destruct (next e [] He) as (d & e' & _ & _ & Hd & Ec & -> & _); [by intros ->|].
      rewrite Ech in Ec. injection Ec as <- _. cbn [mbind option_bind].
      apply (like_value (escaped_info info c) c); [by apply wf_escaped|done|done].
    + destruct (Z.eqb_spec (Z.of_nat (S (S (length l)))) 1); [lia|done].
Qed.

(** [a[^x-z]*] against [ab] and [ayb]. *)
Lemma patternCompare_correct_witness :
  wf_info globInfo 91 ∧ text [97; 91; 94; 120; 45; 122; 93; 42] ∧ text [97; 98] ∧
  ∃ r, patternCompare ([97; 91; 94; 120; 45; 122; 93; 42] ++ 0 :: []) ([97; 98] ++ 0 :: []) globInfo 91 = Some r ∧
    (r = SQLITE_MATCH ↔ matches globInfo (parse globInfo 91 (chars [97; 91; 94; 120; 45; 122; 93; 42])) (chars [97; 98])) ∧
    (r = SQLITE_NOWILDCARDMATCH → ∀ s1 s2, chars [97; 98] = s1 ++ s2 →
       ¬ matches globInfo (parse globInfo 91 (chars [97; 91; 94; 120; 45; 122; 93; 42])) s2) ∧
    (r = SQLITE_MATCH ∨ r = SQLITE_NOMATCH ∨ r = SQLITE_NOWILDCARDMATCH).
Proof.
  assert (text [97; 91; 94; 120; 45; 122; 93; 42]) as H1 by (unfold text; repeat constructor; lia).
  assert (text [97; 98]) as H2 by (unfold text; repeat constructor; lia).
  split; [exact wf_glob|]. split; [exact H1|]. split; [exact H2|].
  apply (patternCompare_correct globInfo 91 _ _ [] [] wf_glob H1 H2).
Defined.

(** [10!%%] with the escape character [!]. *)
Lemma likeFunc_correct_witness :
  text [49; 48; 33; 37; 37] ∧ text [49; 48; 37] ∧ text [33] ∧ like_info likeInfoNorm ∧
  likeFunc 4 5 likeInfoNorm (Some ([49; 48; 33; 37; 37] ++ 0 :: [])) (Some ([49; 48; 37] ++ 0 :: [])) None = Some LikeTooComplex.
Proof.
  assert (text [49; 48; 33; 37; 37]) as H1 by (unfold text; repeat constructor; lia).
  assert (text [49; 48; 37]) as H2 by (unfold text; repeat constructor; lia).
  assert (text [33]) as H3 by (unfold text; repeat constructor; lia).
  assert (like_info likeInfoNorm) as H4 by (left; reflexivity).
  split; [exact H1|]. split; [exact H2|]. split; [exact H3|]. split; [exact H4|].
  apply (likeFunc_correct 4 5 likeInfoNorm _ _ [] [] [33] H1 H2 H3 H4). lia.
Defined.

Example like_escape :
  likeFunc 5 5 likeInfoNorm (Some [49; 48; 33; 37; 37; 0]) (Some [49; 48; 37; 0]) (Some (Some [33; 0])) = Some (LikeInt 1) ∧
  patternCompare [42; 91; 93; 45; 97; 93; 0] [98; 45; 0] globInfo 91 = Some SQLITE_MATCH.
Proof. split; vm_compute; reflexivity. Qed.
