(* ===== verification/Token.v ===== *)
(** * The SQL tokenizer (tokenize.c)

    [sqlite3GetToken] and the loop that feeds the parser.  The token codes are those of
    the grammar, one constructor for each code that the tokenizer names; the keyword
    table and the parser are generated and so are parameters.  A copy into an array
    that is too small for it has no result. *)
From S2P Require Import Prelude Ctype.

Definition CC_X : Z := 0.
Definition CC_KYWD0 : Z := 1.
Definition CC_KYWD : Z := 2.
Definition CC_DIGIT : Z := 3.
Definition CC_DOLLAR : Z := 4.
Definition CC_VARALPHA : Z := 5.
Definition CC_VARNUM : Z := 6.
Definition CC_SPACE : Z := 7.
Definition CC_QUOTE : Z := 8.
Definition CC_QUOTE2 : Z := 9.
Definition CC_PIPE : Z := 10.
Definition CC_MINUS : Z := 11.
Definition CC_LT : Z := 12.
Definition CC_GT : Z := 13.
Definition CC_EQ : Z := 14.
Definition CC_BANG : Z := 15.
Definition CC_SLASH : Z := 16.
Definition CC_LP : Z := 17.
Definition CC_RP : Z := 18.
Definition CC_SEMI : Z := 19.
Definition CC_PLUS : Z := 20.
Definition CC_STAR : Z := 21.
Definition CC_PERCENT : Z := 22.
Definition CC_COMMA : Z := 23.
Definition CC_AND : Z := 24.
Definition CC_TILDA : Z := 25.
Definition CC_DOT : Z := 26.
Definition CC_ID : Z := 27.
Definition CC_ILLEGAL : Z := 28.
Definition CC_NUL : Z := 29.
Definition CC_BOM : Z := 30.

Definition aiClass : list Z := [
  29; 28; 28; 28; 28; 28; 28; 28; 28; 7; 7; 28; 7; 7; 28; 28;
  28; 28; 28; 28; 28; 28; 28; 28; 28; 28; 28; 28; 28; 28; 28; 28;
  7; 15; 8; 5; 4; 22; 24; 8; 17; 18; 21; 20; 23; 11; 26; 16;
  3; 3; 3; 3; 3; 3; 3; 3; 3; 3; 5; 19; 12; 14; 13; 6;
  5; 1; 1; 1; 1; 1; 1; 1; 1; 1; 1; 1; 1; 1; 1; 1;
  1; 1; 1; 1; 1; 1; 1; 1; 0; 2; 2; 9; 28; 28; 28; 2;
  8; 1; 1; 1; 1; 1; 1; 1; 1; 1; 1; 1; 1; 1; 1; 1;
  1; 1; 1; 1; 1; 1; 1; 1; 0; 2; 2; 28; 10; 28; 25; 28;
  27; 27; 27; 27; 27; 27; 27; 27; 27; 27; 27; 27; 27; 27; 27; 27;
  27; 27; 27; 27; 27; 27; 27; 27; 27; 27; 27; 27; 27; 27; 27; 27;
  27; 27; 27; 27; 27; 27; 27; 27; 27; 27; 27; 27; 27; 27; 27; 27;
  27; 27; 27; 27; 27; 27; 27; 27; 27; 27; 27; 27; 27; 27; 27; 27;
  27; 27; 27; 27; 27; 27; 27; 27; 27; 27; 27; 27; 27; 27; 27; 27;
  27; 27; 27; 27; 27; 27; 27; 27; 27; 27; 27; 27; 27; 27; 27; 27;
  27; 27; 27; 27; 27; 27; 27; 27; 27; 27; 27; 27; 27; 27; 27; 30;
  27; 27; 27; 27; 27; 27; 27; 27; 27; 27; 27; 27; 27; 27; 27; 27].

Inductive tk :=
  | TK_SPACE | TK_COMMENT | TK_ILLEGAL | TK_QNUMBER
  | TK_PTR | TK_MINUS | TK_LP | TK_RP | TK_SEMI | TK_PLUS | TK_STAR | TK_SLASH | TK_REM | TK_EQ
  | TK_LE | TK_NE | TK_LSHIFT | TK_LT | TK_GE | TK_RSHIFT | TK_GT | TK_BITOR | TK_CONCAT | TK_COMMA
  | TK_BITAND | TK_BITNOT | TK_DOT
  | TK_STRING | TK_ID | TK_INTEGER | TK_FLOAT | TK_VARIABLE | TK_BLOB
  | TK_WINDOW | TK_OVER | TK_FILTER | TK_AS | TK_JOIN_KW
  (** any other keyword, and the end of the input *)
  | TK_KEYWORD (code : Z) | TK_END.

#[export] Instance tk_eq_dec : EqDecision tk.
Proof. solve_decision. Defined.

Definition SQLITE_DIGIT_SEPARATOR : Z := 95.

(** [IdChar(c)] *)
Definition sqlite3IsIdChar (c : Z) : bool := ctype 0x46 c.

(** [for(; P(z[i]); i++){}] *)
Fixpoint while_char (fuel : nat) (P : Z → bool) (z : list Z) (i : Z) : option Z :=
  match fuel with
  | O => None
  | S fuel' => c ← z.[i]; if P c then while_char fuel' P z (i + 1) else Some i
  end.
Definition scan (P : Z → bool) (z : list Z) (i : Z) : option Z := while_char (S (length z)) P z i.

(** [memcpy(buf, z, n)] into a local array of [size] bytes. *)
Definition sqlite3CheckIdentifier (z : list Z) (n : Z) : option Z :=
  if n <=? 32 then z.[0] else None.
Definition sqlite3CopyWindowKeyword (z : list Z) (n : Z) : option unit :=
  if n <=? 4 then Some () else None.

(** ** Tokens with loops of their own *)

(** [for(i=3, c=z[2]; (c!='*' || z[i]!='/') && (c=z[i])!=0; i++){}] *)
Fixpoint comment_loop (fuel : nat) (z : list Z) (i c : Z) : option (Z * Z) :=
  match fuel with
  | O => None
  | S fuel' =>
      d ← z.[i];
      if (c =? 42) && (d =? 47) then Some (i, c)
      else if d =? 0 then Some (i, d) else comment_loop fuel' z (i + 1) d
  end.

(** The quoted tokens: [i] and [c] where the loop stops. *)
Fixpoint quote_loop (fuel : nat) (delim : Z) (z : list Z) (i : Z) : option (Z * Z) :=
  match fuel with
  | O => None
  | S fuel' =>
      c ← z.[i];
      if c =? 0 then Some (i, c)
      else if c =? delim then
        d ← z.[i + 1];
        if d =? delim then quote_loop fuel' delim z (i + 2) else Some (i, c)
      else quote_loop fuel' delim z (i + 1)
  end.

Definition quote_token (z : list Z) : option (Z * tk) :=
  delim ← z.[0];
  '(i, c) ← quote_loop (S (length z)) delim z 1;
  if c =? 39 then Some (i + 1, TK_STRING)
  else if negb (c =? 0) then Some (i + 1, TK_ID)
  else Some (i, TK_ILLEGAL).

(** [for(i=1, c=z[0]; c!=']' && (c=z[i])!=0; i++){}] *)
Fixpoint bracket_loop (fuel : nat) (z : list Z) (i c : Z) : option (Z * Z) :=
  match fuel with
  | O => None
  | S fuel' =>
      if c =? 93 then Some (i, c)
      else d ← z.[i]; if d =? 0 then Some (i, d) else bracket_loop fuel' z (i + 1) d
  end.

(** Digits with separators, which make the token a [TK_QNUMBER]. *)
Fixpoint digits_loop (fuel : nat) (P : Z → bool) (z : list Z) (i : Z) (t : tk) : option (Z * tk) :=
  match fuel with
  | O => None
  | S fuel' =>
      c ← z.[i];
      if negb (P c) then
        if c =? SQLITE_DIGIT_SEPARATOR then digits_loop fuel' P z (i + 1) TK_QNUMBER else Some (i, t)
      else digits_loop fuel' P z (i + 1) t
  end.
Definition digits_scan (P : Z → bool) (z : list Z) (i : Z) (t : tk) : option (Z * tk) :=
  digits_loop (S (length z)) P z i t.

Definition to_float (t : tk) : tk := match t with TK_INTEGER => TK_FLOAT | _ => t end.

(** Does an exponent start at [z[i]]? *)
Definition has_exponent (z : list Z) (i : Z) : option bool :=
  c ← z.[i];
  if (c =? 101) || (c =? 69) then
    d ← z.[i + 1];
    if sqlite3Isdigit d then Some true
    else if (d =? 43) || (d =? 45) then e ← z.[i + 2]; Some (sqlite3Isdigit e)
    else Some false
  else Some false.

Definition number_token (z : list Z) : option (Z * tk) :=
  z0 ← z.[0];
  hex ←
    (if z0 =? 48 then
       z1 ← z.[1];
       if (z1 =? 120) || (z1 =? 88) then z2 ← z.[2]; Some (sqlite3Isxdigit z2) else Some false
     else Some false);
  '(i, t) ←
    (if hex : bool then digits_scan sqlite3Isxdigit z 3 TK_INTEGER
     else
       '(i, t) ← digits_scan sqlite3Isdigit z 0 TK_INTEGER;
       c ← z.[i];
       '(i, t) ←
         (if c =? 46 then digits_scan sqlite3Isdigit z (i + 1) (to_float t) else Some (i, t));
       e ← has_exponent z i;
       if e : bool then digits_scan sqlite3Isdigit z (i + 2) (to_float t) else Some (i, t));
  j ← scan sqlite3IsIdChar z i;
  Some (j, if i <? j then TK_ILLEGAL else t).

(** [do{ i++; }while( (c=z[i])!=0 && !sqlite3Isspace(c) && c!=')' )] *)
Fixpoint paren_loop (fuel : nat) (z : list Z) (i : Z) : option (Z * Z) :=
  match fuel with
  | O => None
  | S fuel' =>
      let i := i + 1 in
      c ← z.[i];
      if negb (c =? 0) && negb (sqlite3Isspace c) && negb (c =? 41) then paren_loop fuel' z i
      else Some (i, c)
  end.

Fixpoint variable_loop (fuel : nat) (z : list Z) (i n : Z) (t : tk) : option (Z * Z * tk) :=
  match fuel with
  | O => None
  | S fuel' =>
      c ← z.[i];
      if c =? 0 then Some (i, n, t)
      else if sqlite3IsIdChar c then variable_loop fuel' z (i + 1) (n + 1) t
      else if (c =? 40) && (0 <? n) then
        '(i, c) ← paren_loop (S (length z)) z i;
        Some (if c =? 41 then (i + 1, n, t) else (i, n, TK_ILLEGAL))
      else if c =? 58 then
        d ← z.[i + 1];
        if d =? 58 then variable_loop fuel' z (i + 2) n t else Some (i, n, t)
      else Some (i, n, t)
  end.

Definition variable_token (z : list Z) : option (Z * tk) :=
  '(i, n, t) ← variable_loop (S (length z)) z 1 0 TK_VARIABLE;
  Some (i, if n =? 0 then TK_ILLEGAL else t).

Section keywords.
(** The generated function: the code of the keyword [z[0..n-1]], or [TK_ID]. *)
Context (keywordCode : list Z → tk).

(** [while( IdChar(z[i]) ){ i++; }] and what follows it. *)
Definition identifier (z : list Z) (i : Z) : option (Z * tk) :=
  i ← scan sqlite3IsIdChar z i;
  _ ← sqlite3CheckIdentifier z i;
  Some (i, TK_ID).

Definition cc (c : Z) : option Z := aiClass.[c].

(** [for(i=2; aiClass[z[i]]<=CC_KYWD; i++){}] *)
Fixpoint kywd_loop (fuel : nat) (z : list Z) (i : Z) : option Z :=
  match fuel with
  | O => None
  | S fuel' => c ← z.[i]; k ← cc c; if k <=? CC_KYWD then kywd_loop fuel' z (i + 1) else Some i
  end.

Definition kywd0_token (z : list Z) : option (Z * tk) :=
  z1 ← z.[1];
  k ← cc z1;
  if CC_KYWD <? k then identifier z 1
  else
    i ← kywd_loop (S (length z)) z 2;
    c ← z.[i];
    if sqlite3IsIdChar c then identifier z (i + 1)
    else Some (i, keywordCode (take (Z.to_nat i) z)).

Definition x_token (z : list Z) : option (Z * tk) :=
  z1 ← z.[1];
  if z1 =? 39 then
    i ← scan sqlite3Isxdigit z 2;
    c ← z.[i];
    '(i, t) ←
      (if negb (c =? 39) || negb (i mod 2 =? 0) then
         i ← scan (λ c, negb (c =? 0) && negb (c =? 39)) z i; Some (i, TK_ILLEGAL)
       else Some (i, TK_BLOB));
    c ← z.[i];
    Some (if negb (c =? 0) then i + 1 else i, t)
  else identifier z 1.

(** The length of the token that begins at [z[0]] and its type. *)
Definition sqlite3GetToken (z : list Z) : option (Z * tk) :=
  z0 ← z.[0];
  class ← cc z0;
  if class =? CC_SPACE then
    i ← scan sqlite3Isspace z 1; Some (i, TK_SPACE)
  else if class =? CC_MINUS then
    z1 ← z.[1];
    if z1 =? 45 then
      i ← scan (λ c, negb (c =? 0) && negb (c =? 10)) z 2; Some (i, TK_COMMENT)
    else if z1 =? 62 then
      z2 ← z.[2]; Some (2 + b2z (z2 =? 62), TK_PTR)
    else Some (1, TK_MINUS)
  else if class =? CC_LP then Some (1, TK_LP)
  else if class =? CC_RP then Some (1, TK_RP)
  else if class =? CC_SEMI then Some (1, TK_SEMI)
  else if class =? CC_PLUS then Some (1, TK_PLUS)
  else if class =? CC_STAR then Some (1, TK_STAR)
  else if class =? CC_SLASH then
    z1 ← z.[1];
    if negb (z1 =? 42) then Some (1, TK_SLASH)
    else
      z2 ← z.[2];
      if z2 =? 0 then Some (1, TK_SLASH)
      else
        '(i, c) ← comment_loop (S (length z)) z 3 z2;
        Some (if negb (c =? 0) then i + 1 else i, TK_COMMENT)
  else if class =? CC_PERCENT then Some (1, TK_REM)
  else if class =? CC_EQ then
    z1 ← z.[1]; Some (1 + b2z (z1 =? 61), TK_EQ)
  else if class =? CC_LT then
    c ← z.[1];
    Some (if c =? 61 then (2, TK_LE) else if c =? 62 then (2, TK_NE)
          else if c =? 60 then (2, TK_LSHIFT) else (1, TK_LT))
  else if class =? CC_GT then
    c ← z.[1];
    Some (if c =? 61 then (2, TK_GE) else if c =? 62 then (2, TK_RSHIFT) else (1, TK_GT))
  else if class =? CC_BANG then
    c ← z.[1]; Some (if negb (c =? 61) then (1, TK_ILLEGAL) else (2, TK_NE))
  else if class =? CC_PIPE then
    c ← z.[1]; Some (if negb (c =? 124) then (1, TK_BITOR) else (2, TK_CONCAT))
  else if class =? CC_COMMA then Some (1, TK_COMMA)
  else if class =? CC_AND then Some (1, TK_BITAND)
  else if class =? CC_TILDA then Some (1, TK_BITNOT)
  else if class =? CC_QUOTE then quote_token z
  else if class =? CC_DOT then
    z1 ← z.[1];
    if negb (sqlite3Isdigit z1) then Some (1, TK_DOT) else number_token z
  else if class =? CC_DIGIT then number_token z
  else if class =? CC_QUOTE2 then
    '(i, c) ← bracket_loop (S (length z)) z 1 z0;
    Some (i, if c =? 93 then TK_ID else TK_ILLEGAL)
  else if class =? CC_VARNUM then
    i ← scan sqlite3Isdigit z 1; Some (i, TK_VARIABLE)
  else if (class =? CC_DOLLAR) || (class =? CC_VARALPHA) then variable_token z
  else if class =? CC_KYWD0 then kywd0_token z
  else if class =? CC_X then x_token z
  else if (class =? CC_KYWD) || (class =? CC_ID) then identifier z 1
  else if class =? CC_BOM then
    z1 ← z.[1];
    bom ← (if z1 =? 0xbb then z2 ← z.[2]; Some (z2 =? 0xbf) else Some false);
    if bom : bool then Some (3, TK_SPACE) else identifier z 1
  else if class =? CC_NUL then Some (0, TK_ILLEGAL)
  else Some (1, TK_ILLEGAL).

(** ** Keywords that depend on the tokens around them *)

(** The generated function: the token that the grammar falls back to. *)
Context (sqlite3ParserFallback : tk → option tk).

Definition is_blank (t : tk) : bool := match t with TK_SPACE | TK_COMMENT => true | _ => false end.

(** The next token that is not blank, as an identifier if it can be one, and the
    pointer after it. *)
Fixpoint getToken_loop (fuel : nat) (z : list Z) : option (tk * list Z) :=
  match fuel with
  | O => None
  | S fuel' =>
      '(n, t) ← sqlite3GetToken z;
      let z := drop (Z.to_nat n) z in
      if is_blank t then getToken_loop fuel' z else Some (t, z)
  end.

Definition can_be_id (t : tk) : bool :=
  match t with
  | TK_ID | TK_STRING | TK_JOIN_KW | TK_WINDOW | TK_OVER => true
  | _ => bool_decide (sqlite3ParserFallback t = Some TK_ID)
  end.

Definition getToken (z : list Z) : option (tk * list Z) :=
  '(t, z) ← getToken_loop (S (length z)) z;
  Some (if can_be_id t then TK_ID else t, z).

Definition analyzeWindowKeyword (z : list Z) : option tk :=
  '(t, z) ← getToken z;
  if negb (bool_decide (t = TK_ID)) then Some TK_ID
  else
    '(t, z) ← getToken z;
    if negb (bool_decide (t = TK_AS)) then Some TK_ID else Some TK_WINDOW.

Definition analyzeOverKeyword (z : list Z) (lastToken : option tk) : option tk :=
  if bool_decide (lastToken = Some TK_RP) then
    '(t, _) ← getToken z;
    if bool_decide (t = TK_LP) || bool_decide (t = TK_ID) then Some TK_OVER else Some TK_ID
  else Some TK_ID.

Definition analyzeFilterKeyword (z : list Z) (lastToken : option tk) : option tk :=
  if bool_decide (lastToken = Some TK_RP) then
    '(t, _) ← getToken z; Some (if bool_decide (t = TK_LP) then TK_FILTER else TK_ID)
  else Some TK_ID.

(** ** Feeding the parser *)

(** The generated parser: its state after a token and the result code that its actions
    leave. *)
Context {E : Type} (sqlite3Parser : E → tk → list Z → Z → E * Z).

(** Why the loop ends: the parser's result code, the end of the input, the limit on
    the length, an interrupt, or a token that is none. *)
Inductive stop := StopRc (rc : Z) | StopEnd | StopTooBig | StopInterrupt | StopUnrecognized (z : list Z) (n : Z).

(** [tokenType>=TK_WINDOW] *)
Definition is_late (t : tk) : bool :=
  match t with
  | TK_WINDOW | TK_OVER | TK_FILTER | TK_QNUMBER | TK_SPACE | TK_COMMENT | TK_ILLEGAL => true
  | _ => false
  end.

(** What the code before the call of the parser decides: the loop goes on after the
    token, ends, or feeds a token of some length. *)
Inductive feed := FeedSkip | FeedStop (s : stop) | FeedToken (t : tk) (n : Z).

(** [last] is [lastTokenParsed], with [None] for -1 and [TK_END] for 0; [comments]
    says whether comments are ignored. *)
Definition late_token (comments : bool) (zSql : list Z) (n : Z) (t : tk) (last : option tk) : option feed :=
  z0 ← zSql.[0];
  if z0 =? 0 then
    Some (if bool_decide (last = Some TK_SEMI) then FeedToken TK_END 0
          else if bool_decide (last = Some TK_END) then FeedStop StopEnd
          else FeedToken TK_SEMI 0)
  else if bool_decide (t = TK_WINDOW) then
    _ ← sqlite3CopyWindowKeyword zSql n;
    t ← analyzeWindowKeyword (drop 6 zSql); Some (FeedToken t n)
  else if bool_decide (t = TK_OVER) then
    t ← analyzeOverKeyword (drop 4 zSql) last; Some (FeedToken t n)
  else if bool_decide (t = TK_FILTER) then
    _ ← sqlite3CopyWindowKeyword zSql n;
    t ← analyzeFilterKeyword (drop 6 zSql) last; Some (FeedToken t n)
  else if bool_decide (t = TK_COMMENT) && comments then Some FeedSkip
  else if negb (bool_decide (t = TK_QNUMBER)) then Some (FeedStop (StopUnrecognized zSql n))
  else Some (FeedToken t n).

(** The loop of [sqlite3RunParser]; [interrupts] are the values that it reads of the
    interrupt flag, false after the list.  There is no result when a fixed array overflows, and when
    the fuel is used up, which TokenProofs.v shows not to happen with the fuel of [sqlite3RunParser]. *)
Fixpoint run_loop (fuel : nat) (comments : bool) (interrupts : list bool) (zSql : list Z) (mxSqlLen : Z)
    (last : option tk) (pEngine : E) : option (stop * list Z * E) :=
  match fuel with
  | O => None
  | S fuel' =>
      '(n, t) ← sqlite3GetToken zSql;
      let mxSqlLen := mxSqlLen - n in
      if mxSqlLen <? 0 then Some (StopTooBig, zSql, pEngine)
      else
        let interrupted := is_late t && default false (head interrupts) in
        let interrupts := if is_late t then tail interrupts else interrupts in
        if interrupted then Some (StopInterrupt, zSql, pEngine)
        else
          f ←
            (if is_late t then
               if bool_decide (t = TK_SPACE) then Some FeedSkip else late_token comments zSql n t last
             else Some (FeedToken t n));
          match f with
          | FeedSkip => run_loop fuel' comments interrupts (drop (Z.to_nat n) zSql) mxSqlLen last pEngine
          | FeedStop s => Some (s, zSql, pEngine)
          | FeedToken t n =>
              let '(pEngine, rc) := sqlite3Parser pEngine t zSql n in
              let zSql := drop (Z.to_nat n) zSql in
              if negb (rc =? SQLITE_OK) then Some (StopRc rc, zSql, pEngine)
              else run_loop fuel' comments interrupts zSql mxSqlLen (Some t) pEngine
          end
  end.

(** The text that the parser reaches, why it stops, and its state.  The fuel counts the list, which has the
    text with its terminator and the bytes behind it, and three more. *)
Definition sqlite3RunParser (comments : bool) (interrupts : list bool) (zSql : list Z) (mxSqlLen : Z)
    (pEngine : E) : option (stop * list Z * E) :=
  run_loop (length zSql + 3) comments interrupts zSql mxSqlLen None pEngine.
End keywords.
