(* ===== verification/TokenProofs.v ===== *)
(** * The SQL tokenizer: proofs

    Every token is a nonempty part of the text, tokenization ends, literals are
    tokenized whole, and which texts overflow the fixed arrays. *)
From S2P Require Import Prelude Ctype IntText Token.

(** ** Reading a text *)

(** The byte at a position up to the terminator. *)
Lemma at_text s rest i :
  text s → 0 ≤ i ≤ zlen s →
  ∃ c, (s ++ 0 :: rest).[i] = Some c ∧ 0 ≤ c < 256 ∧ (c = 0 ↔ i = zlen s).
Proof.
  intros Hs Hi. destruct (decide (i = zlen s)) as [->|Hn].
  - exists 0. rewrite rd_app_head. split; [done|]. split; [lia|done].
  - destruct (rd_in_bounds s i ltac:(lia)) as [c Hc]. exists c. rewrite rd_app_l by lia.
    split; [done|]. apply rd_lookup in Hc as [_ Hc].
    eapply Forall_lookup_1 in Hs; [|exact Hc]. cbv beta in Hs. split; lia.
Qed.

(** The longest prefix of some characters. *)
Fixpoint prefix_of (P : Z → bool) (s : list Z) : list Z :=
  match s with c :: s' => if P c then c :: prefix_of P s' else [] | [] => [] end.

Lemma prefix_of_length P s : (length (prefix_of P s) ≤ length s)%nat.
Proof. induction s as [|c s IH]; cbn; [lia|]. destruct (P c); cbn; lia. Qed.

Lemma prefix_of_app P w next :
  Forall (λ c, P c = true) w → (match next with [] => True | c :: _ => P c = false end) →
  prefix_of P (w ++ next) = w.
Proof.
  intros Hw Hn. induction Hw as [|c w Hc Hw IH]; cbn.
  - destruct next as [|c next]; [done|]. cbn. by rewrite Hn.
  - by rewrite Hc, IH.
Qed.

Lemma prefix_of_split P s : ∃ next, s = prefix_of P s ++ next ∧ Forall (λ c, P c = true) (prefix_of P s) ∧
  (match next with [] => True | c :: _ => P c = false end).
Proof.
  induction s as [|c s (next & E & H1 & H2)]; cbn; [by exists []|].
  destruct (P c) eqn:Ec.
  - exists next. cbn. rewrite <- E. split; [done|]. split; [by constructor|done].
  - by exists (c :: s).
Qed.

Lemma while_char_correct fuel P pre s rest :
  P 0 = false → (length (prefix_of P s) < fuel)%nat →
  while_char fuel P (pre ++ s ++ 0 :: rest) (zlen pre) = Some (zlen pre + zlen (prefix_of P s)).
Proof.
  intros H0. revert pre s. induction fuel as [|fuel IH]; intros pre s Hf; [lia|]. cbn [while_char].
  destruct s as [|c s]; cbn [app prefix_of] in *.
  - rewrite rd_app_head. cbn [mbind option_bind]. rewrite H0. cbn [length]. f_equal. lia.
  - rewrite rd_app_head. cbn [mbind option_bind]. destruct (P c); cbn [length] in *; [|f_equal; lia].
    replace (pre ++ c :: s ++ 0 :: rest) with ((pre ++ [c]) ++ s ++ 0 :: rest) by (by rewrite <- app_assoc).
    replace (zlen pre + 1) with (zlen (pre ++ [c])) by len. rewrite IH by lia. f_equal. len.
Qed.

Lemma scan_correct P s rest i :
  P 0 = false → 0 ≤ i ≤ zlen s →
  scan P (s ++ 0 :: rest) i = Some (i + zlen (prefix_of P (drop (Z.to_nat i) s))).
Proof.
  intros H0 Hi. unfold scan. remember (Z.to_nat i) as k eqn:Ek.
  assert (length (take k s) = k) as Hk by (rewrite length_take; lia).
  pose proof (while_char_correct (S (length (s ++ 0 :: rest))) P (take k s) (drop k s) rest H0) as E.
  rewrite app_assoc, take_drop, Hk in E. replace (Z.of_nat k) with i in E by lia. apply E.
  pose proof (prefix_of_length P (drop k s)). rewrite length_drop in H. len.
Qed.

Lemma scan_bounds P s rest i :
  P 0 = false → 0 ≤ i ≤ zlen s → ∃ j, scan P (s ++ 0 :: rest) i = Some j ∧ i ≤ j ≤ zlen s.
Proof.
  intros H0 Hi. rewrite scan_correct by done. eexists. split; [reflexivity|].
  pose proof (prefix_of_length P (drop (Z.to_nat i) s)). rewrite length_drop in H. lia.
Qed.

(** Read the byte at [i]. *)
Ltac look s rest i c Hc0 :=
  let Hc := fresh "Hc" in let Hr := fresh "Hr" in
  destruct (at_text s rest i) as (c & Hc & Hr & Hc0); [assumption|lia|]; rewrite Hc; cbn [mbind option_bind].

Section bounds.
Context (s rest : list Z) (Hs : text s).
Notation z := (s ++ 0 :: rest).

Lemma comment_loop_bounds fuel i c :
  0 ≤ i ≤ zlen s → zlen s - i < Z.of_nat fuel →
  ∃ j d, comment_loop fuel z i c = Some (j, d) ∧ i ≤ j ≤ zlen s ∧ (d ≠ 0 → j < zlen s).
Proof.
  revert i c. induction fuel as [|fuel IH]; intros i c Hi Hf; [lia|]. cbn [comment_loop]. look s rest i d Hd.
  destruct (Z.eqb_spec c 42), (Z.eqb_spec d 47); cbn [andb];
    try (exists i, c; split; [done|]; split; [lia|]; intros _; lia).
  all: destruct (Z.eqb_spec d 0); [exists i, d; split; [done|]; split; [lia|done]|];
    destruct (IH (i + 1) d ltac:(lia) ltac:(lia)) as (j & w & Ew & Hj & Hw); exists j, w; split; [done|]; split; [lia|done].
Qed.

Lemma quote_loop_bounds fuel q i :
  q ≠ 0 → 0 ≤ i ≤ zlen s → zlen s - i < Z.of_nat fuel →
  ∃ j d, quote_loop fuel q z i = Some (j, d) ∧ i ≤ j ≤ zlen s ∧ (d ≠ 0 → j < zlen s).
Proof.
  intros Hq. revert i. induction fuel as [|fuel IH]; intros i Hi Hf; [lia|]. cbn [quote_loop]. look s rest i c Hc0.
  destruct (Z.eqb_spec c 0); [exists i, c; split; [done|]; split; [lia|done]|].
  destruct (Z.eqb_spec c q) as [->|].
  - look s rest (i + 1) d Hd. destruct (Z.eqb_spec d q) as [->|].
    + destruct (IH (i + 2) ltac:(lia) ltac:(lia)) as (j & w & Ew & Hj & Hw). exists j, w. split; [done|]. split; [lia|done].
    + exists i, q. split; [done|]. split; [lia|]. intros _. lia.
  - destruct (IH (i + 1) ltac:(lia) ltac:(lia)) as (j & w & Ew & Hj & Hw). exists j, w. split; [done|]. split; [lia|done].
Qed.

Lemma bracket_loop_bounds fuel i c :
  0 ≤ i ≤ zlen s → zlen s - i + 1 < Z.of_nat fuel →
  ∃ j d, bracket_loop fuel z i c = Some (j, d) ∧ i ≤ j ≤ zlen s.
Proof.
  revert i c. induction fuel as [|fuel IH]; intros i c Hi Hf; [lia|]. cbn [bracket_loop].
  destruct (c =? 93); [exists i, c; split; [done|lia]|]. look s rest i d Hd.
  destruct (Z.eqb_spec d 0); [exists i, d; split; [done|lia]|].
  destruct (IH (i + 1) d ltac:(lia) ltac:(lia)) as (j & w & Ew & Hj). exists j, w. split; [done|lia].
Qed.

Lemma digits_loop_bounds fuel P i t :
  P 0 = false → 0 ≤ i ≤ zlen s → zlen s - i < Z.of_nat fuel →
  ∃ j t', digits_loop fuel P z i t = Some (j, t') ∧ i ≤ j ≤ zlen s.
Proof.
  intros H0. revert i t. induction fuel as [|fuel IH]; intros i t Hi Hf; [lia|]. cbn [digits_loop]. look s rest i c Hc0.
  destruct (P c) eqn:E; cbn [negb].
  - assert (i ≠ zlen s) by (intros ?; assert (c = 0) as -> by tauto; congruence).
    destruct (IH (i + 1) t ltac:(lia) ltac:(lia)) as (j & t' & E' & Hj). exists j, t'. split; [done|lia].
  - destruct (Z.eqb_spec c SQLITE_DIGIT_SEPARATOR) as [->|]; [|exists i, t; split; [done|lia]].
    assert (i ≠ zlen s) by (unfold SQLITE_DIGIT_SEPARATOR in *; lia).
    destruct (IH (i + 1) TK_QNUMBER ltac:(lia) ltac:(lia)) as (j & t' & E' & Hj). exists j, t'. split; [done|lia].
Qed.

Lemma digits_scan_bounds P i t :
  P 0 = false → 0 ≤ i ≤ zlen s → ∃ j t', digits_scan P z i t = Some (j, t') ∧ i ≤ j ≤ zlen s.
Proof. intros H0 Hi. apply digits_loop_bounds; [done|done|len]. Qed.

Lemma paren_loop_bounds fuel i :
  0 ≤ i < zlen s → zlen s - i < Z.of_nat fuel →
  ∃ j d, paren_loop fuel z i = Some (j, d) ∧ i < j ≤ zlen s ∧ (d ≠ 0 → j < zlen s).
Proof.
  revert i. induction fuel as [|fuel IH]; intros i Hi Hf; [lia|]. cbn [paren_loop]. look s rest (i + 1) c Hc0.
  destruct (Z.eqb_spec c 0); cbn [negb andb]; [exists (i + 1), c; split; [done|]; split; [lia|done]|].
  destruct (negb (sqlite3Isspace c) && negb (c =? 41)).
  - destruct (IH (i + 1) ltac:(lia) ltac:(lia)) as (j & d & E & Hj & Hd). exists j, d. split; [done|]. split; [lia|done].
  - exists (i + 1), c. split; [done|]. split; [lia|]. intros _. lia.
Qed.

Lemma variable_loop_bounds fuel i n t :
  0 ≤ i ≤ zlen s → zlen s - i < Z.of_nat fuel →
  ∃ j n' t', variable_loop fuel z i n t = Some (j, n', t') ∧ i ≤ j ≤ zlen s.
Proof.
  revert i n t. induction fuel as [|fuel IH]; intros i n t Hi Hf; [lia|]. cbn [variable_loop]. look s rest i c Hc0.
  destruct (Z.eqb_spec c 0); [exists i, n, t; split; [done|lia]|].
  destruct (sqlite3IsIdChar c).
  { destruct (IH (i + 1) (n + 1) t ltac:(lia) ltac:(lia)) as (j & n' & t' & E & Hj). exists j, n', t'. split; [done|lia]. }
  destruct ((c =? 40) && (0 <? n)).
  { destruct (paren_loop_bounds (S (length z)) i) as (j & d & E & Hj & Hd); [lia|len|]. rewrite E. cbn [mbind option_bind].
    destruct (Z.eqb_spec d 41); do 3 eexists; (split; [reflexivity|]); lia. }
  destruct (c =? 58); [|exists i, n, t; split; [done|lia]].
  look s rest (i + 1) d Hd. destruct (Z.eqb_spec d 58); [|exists i, n, t; split; [done|lia]].
  destruct (IH (i + 2) n t ltac:(lia) ltac:(lia)) as (j & n' & t' & E & Hj). exists j, n', t'. split; [done|lia].
Qed.
End bounds.

(** ** Classes *)

Definition word (s : list Z) : list Z := prefix_of sqlite3IsIdChar s.

(** What a class says about the character. *)
Definition class_facts (c k : Z) : bool :=
  (0 <=? k) && (k <=? 30) && implb ((k <=? 2) || (k =? 27) || (k =? 30)) (sqlite3IsIdChar c) &&
  Bool.eqb (k =? 3) (sqlite3Isdigit c) && Bool.eqb (k =? 26) (c =? 46) && Bool.eqb (k =? 29) (c =? 0) &&
  Bool.eqb (k =? 8) ((c =? 34) || (c =? 39) || (c =? 96)).

Lemma class_of c : 0 ≤ c < 256 → ∃ k, cc c = Some k ∧ class_facts c k = true.
Proof.
  intros Hc. assert (forallb (λ c, match cc c with Some k => class_facts c k | None => false end) (seqZ 0 256) = true) as H
    by (vm_compute; reflexivity).
  apply (range_all _ 0 256 H) in Hc. cbv beta in Hc. destruct (cc c) as [k|]; [|done]. by exists k.
Qed.

Lemma class_id c k : class_facts c k = true → k ≤ 2 ∨ k = 27 ∨ k = 30 → sqlite3IsIdChar c = true.
Proof.
  unfold class_facts. intros H Hk. b2p.
  match goal with H : implb ?a _ = true |- _ => replace a with true in H; [done|] end.
  symmetry. rewrite !orb_true_iff, Z.leb_le, !Z.eqb_eq. lia.
Qed.

Lemma class_digit c k : class_facts c k = true → (k = 3 ↔ sqlite3Isdigit c = true) ∧ (k = 26 ↔ c = 46) ∧ (k = 29 ↔ c = 0) ∧ 0 ≤ k ≤ 30.
Proof.
  unfold class_facts. intros H. b2p. repeat match goal with H : Bool.eqb _ _ = true |- _ => apply Bool.eqb_prop in H end.
  rewrite <- !Z.eqb_eq. repeat match goal with H : (_ =? _) = _ |- _ => rewrite H; clear H end. rewrite !Z.eqb_eq. split; [done|].
  split; [done|]. split; [done|lia].
Qed.

(** A character that may occur in a keyword. *)
Definition kw_char (c : Z) : bool := match cc c with Some k => k <=? CC_KYWD | None => false end.

Lemma kw_char_id c : 0 ≤ c < 256 → kw_char c = true → sqlite3IsIdChar c = true.
Proof.
  unfold kw_char, CC_KYWD. intros Hc. destruct (class_of c Hc) as (k & -> & Hk). intros H. b2p. eapply class_id; [done|lia].
Qed.

Lemma kywd_loop_correct fuel pre s rest :
  text s → (length (prefix_of kw_char s) < fuel)%nat →
  kywd_loop fuel (pre ++ s ++ 0 :: rest) (zlen pre) = Some (zlen pre + zlen (prefix_of kw_char s)).
Proof.
  revert pre s. induction fuel as [|fuel IH]; intros pre s Hs Hf; [lia|]. cbn [kywd_loop].
  destruct s as [|c s]; cbn [app prefix_of] in *; rewrite rd_app_head; cbn [mbind option_bind].
  - change (cc 0) with (Some 29). cbn. f_equal. lia.
  - apply text_cons in Hs as [Hc Hs]. unfold kw_char at 1. unfold kw_char at 1 in Hf.
    destruct (class_of c ltac:(lia)) as (k & Ek & _). rewrite Ek in Hf |- *. cbn [mbind option_bind].
    destruct (k <=? CC_KYWD); cbn [length] in *; [|f_equal; lia].
    replace (pre ++ c :: s ++ 0 :: rest) with ((pre ++ [c]) ++ s ++ 0 :: rest) by (by rewrite <- app_assoc).
    replace (zlen pre + 1) with (zlen (pre ++ [c])) by len. rewrite IH by (done || lia). f_equal. len.
Qed.

(** ** Identifiers *)

Lemma prefix_of_drop P s k :
  (k ≤ length (prefix_of P s))%nat → (k + length (prefix_of P (drop k s)) = length (prefix_of P s))%nat.
Proof.
  revert s. induction k as [|k IH]; intros s Hk; [by rewrite drop_0|].
  destruct s as [|c s]; cbn in *; [lia|]. destruct (P c); cbn in *; [|lia]. rewrite IH; lia.
Qed.

Lemma identifier_correct s rest i :
  s ≠ [] → 0 ≤ i ≤ zlen (word s) →
  identifier (s ++ 0 :: rest) i = if zlen (word s) <=? 32 then Some (zlen (word s), TK_ID) else None.
Proof.
  intros Hne Hi. unfold identifier. pose proof (prefix_of_length sqlite3IsIdChar s) as Hl. fold (word s) in Hl.
  rewrite scan_correct; [|done|lia]. cbn [mbind option_bind].
  pose proof (prefix_of_drop sqlite3IsIdChar s (Z.to_nat i)) as Hd. fold (word s) in Hd.
  replace (i + zlen (prefix_of sqlite3IsIdChar (drop (Z.to_nat i) s))) with (zlen (word s)) by lia.
  unfold sqlite3CheckIdentifier. destruct (zlen (word s) <=? 32); [|done].
  destruct s as [|b s']; [done|]. done.
Qed.

(** The identifiers that the tokenizer does not look up as keywords: those with a
    character that no keyword has, and those that start with [x]. *)
Definition plain_identifier (s : list Z) : Prop :=
  match s with
  | [] => False
  | b :: s' =>
      cc b = Some CC_KYWD ∨ cc b = Some CC_ID ∨ (cc b = Some CC_X ∧ head s' ≠ Some 39) ∨
      (cc b = Some CC_BOM ∧ take 2 s' ≠ [187; 191]) ∨
      (cc b = Some CC_KYWD0 ∧ ∃ c, c ∈ word s' ∧ kw_char c = false)
  end.

Lemma word_start b s' k : 0 < b < 256 → cc b = Some k → k ≤ 2 ∨ k = 27 ∨ k = 30 → word (b :: s') = b :: word s'.
Proof.
  intros Hb Hk Hor. destruct (class_of b ltac:(lia)) as (k' & Ek & Hf). rewrite Hk in Ek. injection Ek as <-.
  unfold word. cbn. by rewrite (class_id b k Hf Hor).
Qed.

(** The characters of a word that starts with keyword characters. *)
Lemma kywd_path s' : text s' →
  (∀ c, c ∈ word s' → kw_char c = true) → prefix_of kw_char s' = word s'.
Proof.
  intros Hs Hall. unfold word in *. induction s' as [|c s' IH]; [done|]. apply text_cons in Hs as [Hc Hs].
  cbn in *. destruct (sqlite3IsIdChar c) eqn:Ei.
  - rewrite (Hall c) by (by left). f_equal. apply IH; [done|]. intros d Hd. apply Hall. by right.
  - destruct (kw_char c) eqn:Ek; [|done]. apply kw_char_id in Ek; [congruence|lia].
Qed.

Ltac class_step Ek :=
  unfold sqlite3GetToken, CC_X, CC_KYWD0, CC_KYWD, CC_DIGIT, CC_DOLLAR, CC_VARALPHA, CC_VARNUM, CC_SPACE, CC_QUOTE,
    CC_QUOTE2, CC_PIPE, CC_MINUS, CC_LT, CC_GT, CC_EQ, CC_BANG, CC_SLASH, CC_LP, CC_RP, CC_SEMI, CC_PLUS, CC_STAR,
    CC_PERCENT, CC_COMMA, CC_AND, CC_TILDA, CC_DOT, CC_ID, CC_ILLEGAL, CC_NUL, CC_BOM;
  cbn [app]; change ((?b :: ?l).[0]) with (Some b); cbn [mbind option_bind]; rewrite Ek;
  cbn [mbind option_bind Z.eqb Pos.eqb orb].

Section token.
Context (keywordCode : list Z → tk).
Notation GetToken := (sqlite3GetToken keywordCode).

(** What an identifier that reaches the end of the function becomes. *)
Definition identifier_result (s : list Z) : option (Z * tk) :=
  if zlen (word s) <=? 32 then Some (zlen (word s), TK_ID) else None.

Lemma kywd0_plain b s' rest :
  text (b :: s') → cc b = Some 1 → (∃ c, c ∈ word s' ∧ kw_char c = false) →
  kywd0_token keywordCode (b :: s' ++ 0 :: rest) = identifier_result (b :: s').
Proof.
  intros Hs Ek (c & Hin & Hk). pose proof Hs as [Hb Hs']%text_cons.
  pose proof (word_start b s' 1 Hb Ek ltac:(lia)) as Hw. unfold kywd0_token.
  destruct (at_text (b :: s') rest 1 Hs) as (z1 & E1 & Hr1 & Hz1).
  { destruct s'; [by apply elem_of_nil in Hin|cbn; lia]. }
  cbn [app] in E1. rewrite E1. cbn [mbind option_bind]. destruct (class_of z1 Hr1) as (k & Ekz & _).
  rewrite Ekz. cbn [mbind option_bind].
  assert (1 ≤ zlen (word (b :: s'))) by (rewrite Hw; cbn; lia).
  change (b :: s' ++ 0 :: rest) with ((b :: s') ++ 0 :: rest) in *.
  destruct (Z.ltb_spec CC_KYWD k) as [Hlt|Hle]; [by apply identifier_correct|].
  destruct s' as [|z1' s']; [by apply elem_of_nil in Hin|]. cbn in E1. injection E1 as ->.
  apply text_cons in Hs' as [Hz1' Hs'].
  pose proof (kywd_loop_correct (S (length ((b :: z1 :: s') ++ 0 :: rest))) [b; z1] s' rest Hs') as E.
  change ([b; z1] ++ s' ++ 0 :: rest) with ((b :: z1 :: s') ++ 0 :: rest) in E. change (zlen [b; z1]) with 2 in E.
  rewrite E by (pose proof (prefix_of_length kw_char s'); len). cbn [mbind option_bind]. clear E.
  pose proof (prefix_of_length kw_char s') as Hpl.
  assert (kw_char z1 = true) as Hkz by (unfold kw_char; rewrite Ekz; apply Z.leb_le; lia).
  assert (sqlite3IsIdChar z1 = true) as Hiz by (apply kw_char_id; [lia|done]).
  assert (word (z1 :: s') = z1 :: word s') as Hw1 by (unfold word; cbn; by rewrite Hiz).
  rewrite Hw1 in Hin. apply elem_of_cons in Hin as [->|Hin]; [congruence|].
  destruct (prefix_of_split kw_char s') as (next & Es & Hp & Hn). set (p := prefix_of kw_char s') in *.
  assert (Forall (λ c, sqlite3IsIdChar c = true) p) as Hpi.
  { rewrite Forall_forall in *. intros d Hd. apply kw_char_id; [|by apply Hp].
    assert (d ∈ s') as Hds by (rewrite Es; apply elem_of_app; by left). unfold text in Hs'. rewrite Forall_forall in Hs'. apply Hs' in Hds. lia. }
  assert (∃ d next', next = d :: next' ∧ sqlite3IsIdChar d = true) as (d & next' & -> & Hd).
  { destruct next as [|d next'].
    - exfalso. rewrite app_nil_r in Es. rewrite Es in Hin. unfold word in Hin.
      rewrite <- (app_nil_r p), prefix_of_app in Hin by done. rewrite Forall_forall in Hp. apply Hp in Hin. congruence.
    - exists d, next'. split; [done|]. destruct (sqlite3IsIdChar d) eqn:Ed; [done|]. exfalso.
      rewrite Es in Hin. unfold word in Hin. rewrite prefix_of_app in Hin by done.
      rewrite Forall_forall in Hp. apply Hp in Hin. congruence. }
  assert (((b :: z1 :: s') ++ 0 :: rest).[2 + zlen p] = Some d) as ->.
  { rewrite Es. change ((b :: z1 :: p ++ d :: next') ++ 0 :: rest) with (([b; z1] ++ p ++ d :: next') ++ 0 :: rest).
    rewrite (app_assoc [b; z1]), <- app_assoc. cbn [app].
    replace (2 + zlen p) with (zlen (b :: z1 :: p)) by (cbn; lia).
    apply (rd_app_head (b :: z1 :: p) (next' ++ 0 :: rest)). }
  cbn [mbind option_bind]. rewrite Hd. apply identifier_correct; [done|].
  rewrite Hw, Hw1. unfold word. rewrite Es.
  replace (p ++ d :: next') with ((p ++ [d]) ++ next') by (by rewrite <- app_assoc).
  assert (length (p ++ [d]) ≤ length (prefix_of sqlite3IsIdChar ((p ++ [d]) ++ next')))%nat as Hlen.
  { assert (Forall (λ c, sqlite3IsIdChar c = true) (p ++ [d])) as Hq by (apply Forall_app; split; [done|by constructor]).
    clear -Hq. induction Hq as [|c q Hc Hq IH]; cbn; [lia|]. rewrite Hc. cbn. lia. }
  rewrite length_app in Hlen. cbn [length] in *. lia.
Qed.

Lemma GetToken_plain s rest : text s → plain_identifier s → GetToken (s ++ 0 :: rest) = identifier_result s.
Proof.
  intros Hs Hp. destruct s as [|b s']; [done|]. pose proof Hs as [Hb Hs']%text_cons.
  assert (∀ k, cc b = Some k → k ≤ 2 ∨ k = 27 ∨ k = 30 →
    identifier ((b :: s') ++ 0 :: rest) 1 = identifier_result (b :: s')) as Hid.
  { intros k Hk Hor. apply identifier_correct; [done|]. rewrite (word_start b s' k Hb Hk Hor). cbn. lia. }
  destruct Hp as [Ek|[Ek|[[Ek Hh]|[[Ek Hh]|[Ek Hex]]]]]; class_step Ek.
  - apply (Hid 2); [done|lia].
  - apply (Hid 27); [done|lia].
  - unfold x_token. destruct (at_text (b :: s') rest 1 Hs) as (z1 & E1 & Hr1 & Hz1); [cbn; lia|].
    cbn [app] in E1. rewrite E1. cbn [mbind option_bind]. destruct (Z.eqb_spec z1 39) as [->|]; [|apply (Hid 0); [done|lia]].
    destruct s' as [|c s']; [done|]. cbn in E1. injection E1 as ->. done.
  - destruct (at_text (b :: s') rest 1 Hs) as (z1 & E1 & Hr1 & Hz1); [cbn; lia|].
    cbn [app] in E1. rewrite E1. cbn [mbind option_bind]. change 0xbb with 187. change 0xbf with 191.
    destruct (Z.eqb_spec z1 187) as [->|]; cbn [mbind option_bind]; [|apply (Hid 30); [done|lia]].
    destruct s' as [|c s']; [cbn in Hz1, E1; by injection E1|]. cbn in E1. injection E1 as ->.
    destruct (at_text (b :: 187 :: s') rest 2 Hs) as (z2 & E2 & Hr2 & Hz2); [cbn; lia|].
    cbn [app] in E2 |- *. rewrite E2. cbn [mbind option_bind].
    destruct (Z.eqb_spec z2 191) as [->|]; cbn [mbind option_bind]; [|apply (Hid 30); [done|lia]].
    destruct s' as [|c s']; [cbn in E2; by injection E2|]. cbn in E2. injection E2 as ->. done.
  - by apply kywd0_plain.
Qed.

(** The other tokens are a nonempty part of the text. *)
Definition within (s : list Z) (r : option (Z * tk)) : Prop := ∃ n t, r = Some (n, t) ∧ 1 ≤ n ≤ zlen s.

Lemma within_intro s n t : 1 ≤ n ≤ zlen s → within s (Some (n, t)).
Proof. intros H. by exists n, t. Qed.

Lemma scan_within s rest P i t :
  text s → P 0 = false → 1 ≤ i ≤ zlen s → within s (j ← scan P (s ++ 0 :: rest) i; Some (j, t)).
Proof.
  intros Hs H0 Hi. destruct (scan_bounds P s rest i H0 ltac:(lia)) as (j & -> & Hj). apply within_intro. lia.
Qed.

Lemma digits_start s rest c t :
  text s → s ≠ [] → (s ++ 0 :: rest).[0] = Some c → sqlite3Isdigit c = true ∨ c = 46 →
  ∃ i t', digits_scan sqlite3Isdigit (s ++ 0 :: rest) 0 t = Some (i, t') ∧
    ((1 ≤ i ≤ zlen s) ∨ (i = 0 ∧ c = 46)).
Proof.
  intros Hs Hne Hc Hor. unfold digits_scan.
  assert (1 ≤ zlen s) by (destruct s; [done|cbn; lia]).
  cbn [digits_loop]. rewrite Hc. cbn [mbind option_bind]. destruct Hor as [Hd| ->].
  - rewrite Hd. cbn [negb]. destruct (digits_loop_bounds s rest Hs (length (s ++ 0 :: rest)) sqlite3Isdigit (0 + 1) t)
      as (j & t' & -> & Hj); [done|lia|len|]. exists j, t'. split; [done|]. left. lia.
  - change (negb (sqlite3Isdigit 46)) with true. cbn. exists 0, t. split; [done|]. by right.
Qed.

Lemma has_exponent_bounds s rest i :
  text s → 0 ≤ i ≤ zlen s → ∃ b, has_exponent (s ++ 0 :: rest) i = Some b ∧ (b = true → i + 2 ≤ zlen s).
Proof.
  intros Hs Hi. unfold has_exponent. look s rest i c Hc0.
  destruct ((c =? 101) || (c =? 69)) eqn:E; [|by exists false].
  assert (i < zlen s) by (apply orb_true_iff in E as [E|E]; b2p; lia).
  look s rest (i + 1) d Hd. destruct (sqlite3Isdigit d) eqn:Ed.
  { exists true. split; [done|]. intros _. assert (d ≠ 0) by (by intros ->). lia. }
  destruct ((d =? 43) || (d =? 45)) eqn:E'; [|by exists false].
  assert (i + 1 < zlen s) by (apply orb_true_iff in E' as [E'|E']; b2p; lia).
  look s rest (i + 2) e He. exists (sqlite3Isdigit e). split; [done|]. intros _. lia.
Qed.

Lemma number_within s rest c :
  text s → s ≠ [] → (s ++ 0 :: rest).[0] = Some c → sqlite3Isdigit c = true ∨ c = 46 →
  within s (number_token (s ++ 0 :: rest)).
Proof.
  intros Hs Hne Hc Hor. unfold number_token. rewrite Hc. cbn [mbind option_bind].
  assert (1 ≤ zlen s) as Hlen by (destruct s; [done|cbn; lia]).
  assert (∀ (i : Z) (t : tk), 1 ≤ i ≤ zlen s →
    within s (j ← scan sqlite3IsIdChar (s ++ 0 :: rest) i; Some (j, if i <? j then TK_ILLEGAL else t))) as Hend.
  { intros i t Hi. destruct (scan_bounds sqlite3IsIdChar s rest i eq_refl ltac:(lia)) as (j & -> & Hj).
    apply within_intro. lia. }
  assert (∃ h, (if c =? 48 then
       z1 ← (s ++ 0 :: rest).[1];
       if (z1 =? 120) || (z1 =? 88) then z2 ← (s ++ 0 :: rest).[2]; Some (sqlite3Isxdigit z2) else Some false
     else Some false) = Some h ∧ (h = true → 3 ≤ zlen s)) as (h & -> & Hh).
  { destruct (c =? 48); [|by exists false]. look s rest 1 z1 Hz1.
    destruct ((z1 =? 120) || (z1 =? 88)) eqn:E; [|by exists false].
    assert (1 < zlen s) by (apply orb_true_iff in E as [E|E]; b2p; lia).
    look s rest 2 z2 Hz2. exists (sqlite3Isxdigit z2). split; [done|]. intros Hx.
    assert (z2 ≠ 0) by (by intros ->). lia. }
  cbn [mbind option_bind]. destruct h.
  { destruct (digits_scan_bounds s rest Hs sqlite3Isxdigit 3 TK_INTEGER eq_refl) as (j & t & -> & Hj); [lia|].
    apply Hend. lia. }
  destruct (digits_start s rest c TK_INTEGER Hs Hne Hc Hor) as (i & t & -> & Hi). cbn [mbind option_bind].
  look s rest i d Hd.
  assert (∃ i' t', (if d =? 46 then digits_scan sqlite3Isdigit (s ++ 0 :: rest) (i + 1) (to_float t) else Some (i, t)) =
    Some (i', t') ∧ 1 ≤ i' ≤ zlen s) as (i' & t' & -> & Hi').
  { destruct (Z.eqb_spec d 46) as [->|].
    - destruct (digits_scan_bounds s rest Hs sqlite3Isdigit (i + 1) (to_float t) eq_refl) as (j & t' & -> & Hj); [lia|].
      exists j, t'. split; [done|lia].
    - exists i, t. split; [done|]. destruct Hi as [?|[-> ->]]; [done|]. congruence. }
  cbn [mbind option_bind]. destruct (has_exponent_bounds s rest i' Hs ltac:(lia)) as (e & -> & He). cbn [mbind option_bind].
  destruct e; [|by apply Hend].
  destruct (digits_scan_bounds s rest Hs sqlite3Isdigit (i' + 2) (to_float t') eq_refl) as (j & t2 & -> & Hj); [lia|].
  apply Hend. lia.
Qed.

Lemma x_within s b s' rest :
  s = b :: s' → text s → head s' = Some 39 → within s (x_token (s ++ 0 :: rest)).
Proof.
  intros Es Hs Hh. destruct s' as [|c s']; [done|]. injection Hh as ->. unfold x_token.
  assert ((s ++ 0 :: rest).[1] = Some 39) as -> by (by rewrite Es). cbn [mbind option_bind].
  change (39 =? 39) with true. cbv iota. assert (2 ≤ zlen s) by (rewrite Es; cbn; lia).
  destruct (scan_bounds sqlite3Isxdigit s rest 2 eq_refl ltac:(lia)) as (i & -> & Hi). cbn [mbind option_bind].
  look s rest i c Hc0.
  assert (∃ i' t', (if negb (c =? 39) || negb (i mod 2 =? 0) then
       i ← scan (λ c, negb (c =? 0) && negb (c =? 39)) (s ++ 0 :: rest) i; Some (i, TK_ILLEGAL)
       else Some (i, TK_BLOB)) = Some (i', t') ∧ i ≤ i' ≤ zlen s) as (i' & t' & -> & Hi').
  { destruct (negb (c =? 39) || _); [|exists i, TK_BLOB; split; [done|lia]].
    destruct (scan_bounds (λ c, negb (c =? 0) && negb (c =? 39)) s rest i eq_refl ltac:(lia)) as (j & -> & Hj).
    exists j, TK_ILLEGAL. split; [done|lia]. }
  cbn [mbind option_bind]. look s rest i' d Hd. apply within_intro. destruct (Z.eqb_spec d 0); cbn [negb]; lia.
Qed.

Lemma kywd0_within b s' rest :
  text (b :: s') → cc b = Some 1 → (∀ c, c ∈ word s' → kw_char c = true) →
  within (b :: s') (kywd0_token keywordCode ((b :: s') ++ 0 :: rest)).
Proof.
  intros Hs Ek Hall. pose proof Hs as [Hb Hs']%text_cons. unfold kywd0_token.
  assert (1 ≤ zlen (b :: s')) by (cbn; lia). look (b :: s') rest 1 z1 Hz1. destruct (class_of z1 ltac:(lia)) as (k & Ekz & _). rewrite Ekz.
  cbn [mbind option_bind]. pose proof (word_start b s' 1 Hb Ek ltac:(lia)) as Hw.
  pose proof (prefix_of_length sqlite3IsIdChar (b :: s')) as Hpl. fold (word (b :: s')) in Hpl.
  destruct (Z.ltb_spec CC_KYWD k) as [Hlt|Hle].
  - rewrite identifier_correct; [|done|rewrite Hw; cbn; lia].
    assert (word s' = []) as E0.
    { destruct s' as [|c s']; [done|]. cbn in Hc. injection Hc as ->. unfold word in *. cbn in *.
      destruct (sqlite3IsIdChar z1) eqn:Ei; [|done]. exfalso. assert (kw_char z1 = true) as Hkz by (apply Hall; by left).
      unfold kw_char in Hkz. rewrite Ekz in Hkz. b2p. lia. }
    rewrite Hw, E0. cbn. apply within_intro. cbn. lia.
  - destruct s' as [|c s']; [cbn in Hc; injection Hc as <-; by injection Ekz as <-|].
    cbn in Hc. injection Hc as ->. apply text_cons in Hs' as [Hz Hs'].
    assert (kw_char z1 = true) as Hkz by (unfold kw_char; rewrite Ekz; apply Z.leb_le; lia).
    assert (word (z1 :: s') = z1 :: word s') as Hw1 by (unfold word; cbn; rewrite (kw_char_id z1); done || lia).
    pose proof (kywd_loop_correct (S (length ((b :: z1 :: s') ++ 0 :: rest))) [b; z1] s' rest Hs') as E.
    change ([b; z1] ++ s' ++ 0 :: rest) with ((b :: z1 :: s') ++ 0 :: rest) in E. change (zlen [b; z1]) with 2 in E.
    pose proof (prefix_of_length kw_char s') as Hpk.
    rewrite E by len. cbn [mbind option_bind]. clear E.
    rewrite (kywd_path s' Hs') in * by (intros d Hd; apply Hall; rewrite Hw1; by right).
    destruct (prefix_of_split sqlite3IsIdChar s') as (next & Es & _ & Hn). fold (word s') in Es.
    assert (∃ d, ((b :: z1 :: s') ++ 0 :: rest).[2 + zlen (word s')] = Some d ∧ sqlite3IsIdChar d = false) as (d & -> & Hd).
    { replace (2 + zlen (word s')) with (zlen (b :: z1 :: word s')) by (cbn; lia).
      pose proof (f_equal (λ l, b :: z1 :: l ++ 0 :: rest) Es) as El. cbv beta in El. rewrite <- app_assoc in El.
      cbn [app]. rewrite El. destruct next as [|d next]; [exists 0|exists d];
        (split; [apply (rd_app_head (b :: z1 :: word s'))|done]). }
    cbn [mbind option_bind]. rewrite Hd. apply within_intro. cbn [length]. lia.
Qed.

Ltac one := apply within_intro; cbn [b2z]; lia.

(** The classes whose tokens have one or two characters, and the rest. *)
Lemma GetToken_other s rest : text s → s ≠ [] → ¬ plain_identifier s → within s (GetToken (s ++ 0 :: rest)).
Proof.
  intros Hs Hne Hnp. destruct s as [|b s']; [done|]. pose proof Hs as [Hb Hs']%text_cons.
  destruct (class_of b ltac:(lia)) as (k & Ek & Hf). destruct (class_digit b k Hf) as (Hdig & Hdot & Hnul & Hr).
  assert (1 ≤ zlen (b :: s')) as H1 by (cbn; lia).
  destruct (at_text (b :: s') rest 1 Hs ltac:(lia)) as (z1 & E1 & Hr1 & Hz1).
  assert (z1 ≠ 0 → 2 ≤ zlen (b :: s')) as Hz2 by lia.
  cbn [app] in E1.
  assert (k = 0 ∨ k = 1 ∨ k = 2 ∨ k = 3 ∨ k = 4 ∨ k = 5 ∨ k = 6 ∨ k = 7 ∨ k = 8 ∨ k = 9 ∨ k = 10 ∨ k = 11 ∨ k = 12 ∨
    k = 13 ∨ k = 14 ∨ k = 15 ∨ k = 16 ∨ k = 17 ∨ k = 18 ∨ k = 19 ∨ k = 20 ∨ k = 21 ∨ k = 22 ∨ k = 23 ∨ k = 24 ∨ k = 25 ∨
    k = 26 ∨ k = 27 ∨ k = 28 ∨ k = 29 ∨ k = 30) as Hk by lia. clear Hr.
  repeat (destruct Hk as [->|Hk]); [..|subst k]; class_step Ek; try (rewrite E1; cbn [mbind option_bind]);
    try (by one).
  - apply (x_within (b :: s') b s' rest eq_refl Hs). destruct (decide (head s' = Some 39)); [done|].
    exfalso. apply Hnp. right. right. left. done.
  - apply kywd0_within; [done|done|]. intros c Hc. destruct (kw_char c) eqn:E; [done|]. exfalso. apply Hnp.
    do 4 right. split; [done|]. by exists c.
  - exfalso. apply Hnp. by left.
  - apply (number_within (b :: s') rest b); [done|done|done|]. left. by apply Hdig.
  - destruct (variable_loop_bounds (b :: s') rest Hs (S (length ((b :: s') ++ 0 :: rest))) 1 0 TK_VARIABLE)
      as (j & n & t & E & Hj); [lia|len|]. unfold variable_token. change (b :: s' ++ 0 :: rest) with ((b :: s') ++ 0 :: rest).
    rewrite E. apply within_intro. lia.
  - destruct (variable_loop_bounds (b :: s') rest Hs (S (length ((b :: s') ++ 0 :: rest))) 1 0 TK_VARIABLE)
      as (j & n & t & E & Hj); [lia|len|]. unfold variable_token. change (b :: s' ++ 0 :: rest) with ((b :: s') ++ 0 :: rest).
    rewrite E. apply within_intro. lia.
  - apply (scan_within (b :: s')); [done|done|lia].
  - apply (scan_within (b :: s')); [done|done|lia].
  - unfold quote_token. change (b :: s' ++ 0 :: rest) with ((b :: s') ++ 0 :: rest). cbn [app]. change ((b :: ?l).[0]) with (Some b).
    cbn [mbind option_bind]. destruct (quote_loop_bounds (b :: s') rest Hs (S (length ((b :: s') ++ 0 :: rest))) b 1)
      as (j & d & E & Hj & Hd); [lia|lia|len|]. cbn [app] in E. rewrite E. cbn [mbind option_bind].
    destruct (Z.eqb_spec d 39) as [->|]; [apply within_intro; lia|].
    destruct (Z.eqb_spec d 0); cbn [negb]; apply within_intro; lia.
  - destruct (bracket_loop_bounds (b :: s') rest Hs (S (length ((b :: s') ++ 0 :: rest))) 1 b)
      as (j & d & E & Hj); [lia|len|]. cbn [app] in E. rewrite E. apply within_intro. lia.
  - destruct (Z.eqb_spec z1 124); cbn [negb]; apply within_intro; lia.
  - destruct (Z.eqb_spec z1 45) as [->|].
    { apply (scan_within (b :: s')); [done|done|lia]. }
    destruct (Z.eqb_spec z1 62) as [->|]; [|one].
    destruct (at_text (b :: s') rest 2 Hs ltac:(lia)) as (z2 & E2 & Hr2 & Hz3). cbn [app] in E2. rewrite E2.
    cbn [mbind option_bind]. destruct (Z.eqb_spec z2 62); cbn [b2z]; apply within_intro; lia.
  - destruct (Z.eqb_spec z1 61); [one|]. destruct (Z.eqb_spec z1 62); [one|]. destruct (Z.eqb_spec z1 60); one.
  - destruct (Z.eqb_spec z1 61); [one|]. destruct (Z.eqb_spec z1 62); one.
  - destruct (Z.eqb_spec z1 61); one.
  - destruct (Z.eqb_spec z1 61); cbn [negb]; one.
  - destruct (Z.eqb_spec z1 42) as [->|]; cbn [negb]; [|one].
    destruct (at_text (b :: s') rest 2 Hs ltac:(lia)) as (z2 & E2 & Hr2 & Hz3). cbn [app] in E2. rewrite E2.
    cbn [mbind option_bind]. destruct (Z.eqb_spec z2 0); [one|].
    destruct (comment_loop_bounds (b :: s') rest Hs (S (length ((b :: s') ++ 0 :: rest))) 3 z2)
      as (j & d & E & Hj & Hd); [lia|len|]. cbn [app] in E. rewrite E. cbn [mbind option_bind].
    destruct (Z.eqb_spec d 0); cbn [negb]; apply within_intro; lia.
  - destruct (sqlite3Isdigit z1); cbn [negb]; [|one]. apply (number_within (b :: s') rest b); [done|done|done|].
    right. by apply Hdot.
  - exfalso. apply Hnp. right. by left.
  - change 0xbb with 187. change 0xbf with 191. destruct (Z.eqb_spec z1 187) as [->|].
    2:{ exfalso. apply Hnp. do 3 right. left. split; [done|]. destruct s' as [|c s']; [done|]. cbn in E1. injection E1 as ->. by intros [= ? _]. }
    destruct (at_text (b :: s') rest 2 Hs ltac:(lia)) as (z2 & E2 & Hr2 & Hz3). cbn [app] in E2. rewrite E2.
    cbn [mbind option_bind]. destruct (Z.eqb_spec z2 191) as [->|]; [apply within_intro; lia|].
    exfalso. apply Hnp. do 3 right. left. split; [done|]. destruct s' as [|c [|d s']]; [done|done|].
    cbn in E2. injection E2 as ->. by intros [= _ ?].
Qed.

(** ** All texts *)

(** The places of the text where a token starts, when it is read from the start to the end. *)
Inductive token_at (rest s : list Z) : list Z → Prop :=
| TokenFirst : token_at rest s s
| TokenNext s' n t : token_at rest s s' → GetToken (s' ++ 0 :: rest) = Some (n, t) → token_at rest s (drop (Z.to_nat n) s').

(** No identifier is longer than the buffer that the tokenizer copies it into. *)
Definition short_identifiers (rest s : list Z) : Prop :=
  ∀ s', token_at rest s s' → plain_identifier s' → zlen (word s') ≤ 32.

Lemma token_at_later rest s n t s' : GetToken (s ++ 0 :: rest) = Some (n, t) → token_at rest (drop (Z.to_nat n) s) s' → token_at rest s s'.
Proof. intros E. induction 1 as [|s' m u _ IH Em]; [eapply TokenNext; [apply TokenFirst|exact E]|by eapply TokenNext]. Qed.

Lemma short_next rest s n t : GetToken (s ++ 0 :: rest) = Some (n, t) → short_identifiers rest s → short_identifiers rest (drop (Z.to_nat n) s).
Proof. intros E H s' Hs. apply H. by eapply token_at_later. Qed.

Lemma plain_dec s : plain_identifier s ∨ ¬ plain_identifier s.
Proof.
  destruct s as [|b s']; [right; by intros []|]. cbn.
  assert ((∃ c, c ∈ word s' ∧ kw_char c = false) ∨ ¬ ∃ c, c ∈ word s' ∧ kw_char c = false) as He.
  { destruct (decide (Exists (λ c, kw_char c = false) (word s'))) as [H|H]; rewrite Exists_exists in H; auto. }
  destruct (decide (cc b = Some CC_KYWD)); [by left; left|]. destruct (decide (cc b = Some CC_ID)); [by left; right; left|].
  destruct (decide (cc b = Some CC_X)), (decide (head s' = Some 39)), (decide (cc b = Some CC_BOM)),
    (decide (take 2 s' = [187; 191])), (decide (cc b = Some CC_KYWD0)), He; tauto.
Qed.

Lemma GetToken_total s rest :
  text s → (plain_identifier s → zlen (word s) ≤ 32) →
  ∃ n t, GetToken (s ++ 0 :: rest) = Some (n, t) ∧ 0 ≤ n ≤ zlen s ∧ (s ≠ [] → 1 ≤ n) ∧ (s = [] → t = TK_ILLEGAL).
Proof.
  intros Hs Hid. destruct (decide (s = [])) as [->|Hne].
  { exists 0, TK_ILLEGAL. split; [done|]. split; [cbn; lia|]. done. }
  destruct (plain_dec s) as [Hp|Hp].
  - rewrite GetToken_plain by done. unfold identifier_result. specialize (Hid Hp).
    destruct (Z.leb_spec (zlen (word s)) 32); [|lia]. exists (zlen (word s)), TK_ID. split; [done|].
    pose proof (prefix_of_length sqlite3IsIdChar s) as Hl. fold (word s) in Hl.
    assert (1 ≤ zlen (word s)); [|split; [lia|done]].
    destruct s as [|b s']; [done|]. pose proof Hs as [Hb _]%text_cons.
    assert (∃ k, cc b = Some k ∧ (k ≤ 2 ∨ k = 27 ∨ k = 30)) as (k & Hk & Hor).
    { destruct Hp as [E|[E|[[E _]|[[E _]|[E _]]]]]; eexists; (split; [exact E|]); unfold CC_KYWD, CC_ID, CC_X, CC_BOM, CC_KYWD0; lia. }
    rewrite (word_start b s' k Hb Hk Hor). cbn. lia.
  - destruct (GetToken_other s rest Hs Hne Hp) as (n & t & -> & Hn). exists n, t. split; [done|]. split; [lia|].
    split; [lia|done].
Qed.

(** ** Types *)

Lemma digits_loop_type fuel P z i t j t' : digits_loop fuel P z i t = Some (j, t') → t' = t ∨ t' = TK_QNUMBER.
Proof.
  revert i t. induction fuel as [|fuel IH]; intros i t H; [done|]. cbn [digits_loop] in H.
  destruct (z.[i]) as [c|]; [|done]. cbn [mbind option_bind] in H.
  destruct (negb (P c)); [|by apply IH in H].
  destruct (c =? SQLITE_DIGIT_SEPARATOR); [|injection H as _ ->; by left]. apply IH in H. tauto.
Qed.

Lemma variable_loop_type fuel z i n t j n' t' :
  variable_loop fuel z i n t = Some (j, n', t') → t' = t ∨ t' = TK_ILLEGAL.
Proof.
  revert i n. induction fuel as [|fuel IH]; intros i n H; [done|]. cbn [variable_loop] in H.
  destruct (z.[i]) as [c|]; [|done]. cbn [mbind option_bind] in H.
  destruct (c =? 0); [injection H as _ _ ->; by left|]. destruct (sqlite3IsIdChar c); [by apply IH in H|].
  destruct ((c =? 40) && (0 <? n)).
  { destruct (paren_loop _ z i) as [[k d]|]; [|done]. cbn [mbind option_bind] in H.
    destruct (d =? 41); injection H as _ _ <-; auto. }
  destruct (c =? 58); [|injection H as _ _ ->; by left].
  destruct (z.[i + 1]) as [d|]; [|done]. cbn [mbind option_bind] in H.
  destruct (d =? 58); [by apply IH in H|injection H as _ _ ->; by left].
Qed.

Definition window_type (t : tk) : Prop := t = TK_WINDOW ∨ t = TK_OVER ∨ t = TK_FILTER.

Lemma number_type z n t : number_token z = Some (n, t) → ¬ window_type t.
Proof.
  unfold number_token. intros H. destruct (z.[0]) as [c|]; [|done]. cbn [mbind option_bind] in H.
  destruct (if c =? 48 then _ else _) as [h|]; [|done]. cbn [mbind option_bind] in H.
  assert (∀ P i t0 j t', digits_scan P z i t0 = Some (j, t') → ¬ window_type t0 → ¬ window_type t') as Hd.
  { intros P i t0 j t' E. apply digits_loop_type in E as [-> | ->]; [done|]. by intros _ [|[|]]. }
  assert (∀ t, ¬ window_type t → ¬ window_type (to_float t)) as Hf.
  { intros t0 Ht. destruct t0; try done; by intros [|[|]]. }
  assert (¬ window_type TK_INTEGER) as Hint by (by intros [|[|]]).
  assert (∀ i t0, (j ← scan sqlite3IsIdChar z i; Some (j, if i <? j then TK_ILLEGAL else t0)) = Some (n, t) →
    ¬ window_type t0 → ¬ window_type t) as Hend.
  { intros i t0 E Ht. destruct (scan sqlite3IsIdChar z i) as [j|]; [|done]. cbn [mbind option_bind] in E.
    injection E as _ <-. destruct (i <? j); [by intros [|[|]]|done]. }
  destruct h.
  { destruct (digits_scan _ z 3 _) as [[i t0]|] eqn:E; [|done]. cbn [mbind option_bind] in H. apply Hend in H; [done|]. by eapply Hd. }
  destruct (digits_scan _ z 0 _) as [[i t0]|] eqn:E; [|done]. cbn [mbind option_bind] in H.
  apply Hd in E; [|done]. destruct (z.[i]) as [d|]; [|done]. cbn [mbind option_bind] in H.
  destruct (if d =? 46 then _ else _) as [[i1 t1]|] eqn:E1; [|done]. cbn [mbind option_bind] in H.
  assert (¬ window_type t1) as Ht1.
  { destruct (d =? 46); [apply Hd in E1; [done|by apply Hf]|by injection E1 as _ <-]. }
  destruct (has_exponent z i1) as [e|]; [|done]. cbn [mbind option_bind] in H. destruct e; [|by eapply Hend].
  destruct (digits_scan _ z (i1 + 2) _) as [[i2 t2]|] eqn:E2; [|done]. cbn [mbind option_bind] in H.
  apply Hend in H; [done|]. apply Hd in E2; [done|by apply Hf].
Qed.

Lemma identifier_type z i n t : identifier z i = Some (n, t) → t = TK_ID.
Proof.
  unfold identifier. destruct (scan _ z i) as [j|]; [|done]. cbn [mbind option_bind].
  destruct (sqlite3CheckIdentifier z j); [|done]. cbn [mbind option_bind]. by intros [= _ <-].
Qed.

(** One step of a computation that succeeded. *)
Ltac tok_step H :=
  match type of H with
  | mbind _ ?x = Some _ => destruct x as [?|] eqn:?; [|discriminate H]; cbn [mbind option_bind] in H
  | (match ?p with (_, _) => _ end) = Some _ => destruct p
  | (if ?b then _ else _) = Some _ => destruct b eqn:?
  | Some (_, if ?b then _ else _) = Some _ => destruct b
  | Some (if ?b then _ else _) = Some _ => destruct b
  end.

(** Only the keyword table gives the types of the window keywords. *)
Lemma GetToken_keyword z n t :
  GetToken z = Some (n, t) → window_type t → keywordCode (take (Z.to_nat n) z) = t.
Proof.
  intros H Ht. assert (∀ t', t = t' → ¬ window_type t' → keywordCode (take (Z.to_nat n) z) = t) as Hno by (by intros ? ->).
  assert (∀ i, identifier z i = Some (n, t) → keywordCode (take (Z.to_nat n) z) = t) as Hid.
  { intros i E. apply identifier_type in E. apply (Hno TK_ID); [done|by intros [|[|]]]. }
  unfold sqlite3GetToken in H. destruct (z.[0]) as [z0|] eqn:E0; [|done]. cbn [mbind option_bind] in H.
  destruct (cc z0) as [k|]; [|done]. cbn [mbind option_bind] in H.
  unfold quote_token, variable_token, x_token, kywd0_token in H. repeat tok_step H.
  all: try (injection H as _ <-; exfalso; by destruct Ht as [|[|]]).
  all: try (by apply number_type in H).
  all: try (by eapply Hid).
  all: try (injection H as <- <-; done).
  - injection H as <- <-. exfalso.
    match goal with E : variable_loop _ _ _ _ _ = _ |- _ => apply variable_loop_type in E as [-> | ->] end;
      by destruct Ht as [|[|]].
  - injection H as _ <-. exfalso.
    match goal with E : (if negb (_ =? 39) || _ then _ else _) = Some _ |- _ => repeat tok_step E; injection E as _ <- end;
      by destruct Ht as [|[|]].
Qed.

(** ** The loop of the parser *)

Context (fallback : tk → option tk) {E : Type} (parser : E → tk → list Z → Z → E * Z).

(** A pointer into the text: some suffix of it. *)
Definition suffix (s z : list Z) (rest : list Z) : Prop := ∃ s1 s2, s = s1 ++ s2 ∧ z = s2 ++ 0 :: rest.

Lemma drop_text s rest n : 0 ≤ n ≤ zlen s → drop (Z.to_nat n) (s ++ 0 :: rest) = drop (Z.to_nat n) s ++ 0 :: rest.
Proof. intros Hn. rewrite drop_app_le by lia. done. Qed.

Lemma getToken_loop_total fuel s rest :
  text s → short_identifiers rest s → (length s < fuel)%nat →
  ∃ t s', getToken_loop keywordCode fuel (s ++ 0 :: rest) = Some (t, s' ++ 0 :: rest) ∧ text s' ∧ short_identifiers rest s'.
Proof.
  revert s. induction fuel as [|fuel IH]; intros s Hs Hsh Hf; [lia|]. cbn [getToken_loop].
  destruct (GetToken_total s rest Hs (Hsh s (TokenFirst _ _))) as (n & t & Et0 & Hn & Hne & Hnil). pose proof (short_next _ _ _ _ Et0 Hsh) as Hsh'. rewrite Et0. cbn [mbind option_bind].
  rewrite drop_text by done. destruct (is_blank t) eqn:Et.
  - assert (s ≠ []) as Hs0 by (intros ->; rewrite Hnil in Et by done; done). specialize (Hne Hs0).
    apply IH; [by apply Forall_drop|done|]. rewrite length_drop. lia.
  - eexists t, _. split; [done|]. split; [by apply Forall_drop|done].
Qed.

Lemma getToken_total s rest :
  text s → short_identifiers rest s →
  ∃ t s', getToken keywordCode fallback (s ++ 0 :: rest) = Some (t, s' ++ 0 :: rest) ∧ text s' ∧ short_identifiers rest s'.
Proof.
  intros Hs Hsh. unfold getToken.
  destruct (getToken_loop_total (S (length (s ++ 0 :: rest))) s rest Hs Hsh) as (t & s' & -> & H); [len|].
  cbn [mbind option_bind]. eauto.
Qed.

Lemma analyzeOver_total s rest last :
  text s → short_identifiers rest s → ∃ t, analyzeOverKeyword keywordCode fallback (s ++ 0 :: rest) last = Some t.
Proof.
  intros Hs Hsh. unfold analyzeOverKeyword. case_bool_decide; [|eauto].
  destruct (getToken_total s rest Hs Hsh) as (t & s' & -> & _). cbn [mbind option_bind]. case_match; eauto.
Qed.

(** How many turns the loop makes at the end of the text. *)
Definition turns_left (s : list Z) (last : option tk) : nat :=
  match s with
  | [] => if bool_decide (last = Some TK_END) then 1 else if bool_decide (last = Some TK_SEMI) then 2 else 3
  | _ => length s + 3
  end.

Lemma turns_bound s last : (turns_left s last ≤ length s + 3)%nat.
Proof. destruct s; cbn; repeat case_bool_decide; lia. Qed.

(** No token of the text is one of the keywords that the loop copies, as in a build without window functions. *)
Definition no_window (rest s : list Z) : Prop :=
  ∀ s' n t, token_at rest s s' → GetToken (s' ++ 0 :: rest) = Some (n, t) → t ≠ TK_WINDOW ∧ t ≠ TK_FILTER.

Lemma no_window_next rest s n t : GetToken (s ++ 0 :: rest) = Some (n, t) → no_window rest s → no_window rest (drop (Z.to_nat n) s).
Proof. intros He H s0 m u Hs. apply H. by eapply token_at_later. Qed.

(** In the table of the keywords OVER has four letters. *)
Definition over_four : Prop := ∀ w, keywordCode w = TK_OVER → length w = 4%nat.

Lemma take_text s rest n : 0 ≤ n ≤ zlen s → take (Z.to_nat n) (s ++ 0 :: rest) = take (Z.to_nat n) s.
Proof. intros Hn. by rewrite take_app_le by lia. Qed.

Lemma late_token_total comments s rest n t last :
  text s → short_identifiers rest s → no_window rest s → over_four → GetToken (s ++ 0 :: rest) = Some (n, t) → 0 ≤ n ≤ zlen s →
  ∃ f, late_token keywordCode fallback comments (s ++ 0 :: rest) n t last = Some f ∧
    match s with
    | [] => match f with
            | FeedSkip => False
            | FeedStop st => st = StopEnd
            | FeedToken t' k => k = 0 ∧ (turns_left [] (Some t') < turns_left [] last)%nat
            end
    | _ => match f with FeedToken _ k => k = n | FeedStop st => st ≠ StopEnd | FeedSkip => True end
    end.
Proof.
  intros Hs Hsh Hnw Hov Et Hn. pose proof (short_next _ _ _ _ Et Hsh) as Hsh'. unfold late_token. destruct s as [|b s'].
  { cbn [app]. change ((0 :: rest).[0]) with (Some 0). cbn [mbind option_bind]. change (0 =? 0) with true.
    eexists. split; [reflexivity|]. repeat case_bool_decide; try done; subst; try done; (split; [done|]); cbn;
      repeat case_bool_decide; done || lia. }
  pose proof Hs as [Hb Hs']%text_cons. cbn [app]. change ((b :: ?l).[0]) with (Some b). cbn [mbind option_bind].
  destruct (Z.eqb_spec b 0); [lia|]. set (s := b :: s') in *.
  assert (window_type t → keywordCode (take (Z.to_nat n) s) = t ∧
    (t ≠ TK_WINDOW ∧ t ≠ TK_FILTER) ∧ (t = TK_OVER → n = 4)) as Hw.
  { intros Hw. pose proof (GetToken_keyword _ _ _ Et Hw) as Ek. rewrite take_text in Ek by done. split; [done|]. split.
    - by apply (Hnw s n t (TokenFirst _ _)).
    - intros ->. apply Hov in Ek. rewrite length_take in Ek. lia. }
  case_bool_decide as H1; [exfalso; subst t; destruct Hw as (_ & [? _] & _); [by left|done]|].
  case_bool_decide as H2.
  { subst t. destruct Hw as (_ & _ & Hn4); [by right; left|]. specialize (Hn4 eq_refl). subst n.
    change (b :: s' ++ 0 :: rest) with (s ++ 0 :: rest).
    replace 4%nat with (Z.to_nat 4) by done. rewrite drop_text by done.
    destruct (analyzeOver_total (drop (Z.to_nat 4) s) rest last) as (t & ->); [by apply Forall_drop|done|].
    cbn [mbind option_bind]. eexists. split; [reflexivity|done]. }
  case_bool_decide as H3; [exfalso; subst t; destruct Hw as (_ & [_ ?] & _); [by right; right|done]|].
  destruct (bool_decide (t = TK_COMMENT) && comments); [eexists; split; [reflexivity|done]|].
  destruct (negb (bool_decide (t = TK_QNUMBER))); eexists; (split; [reflexivity|done]).
Qed.

Lemma run_loop_total fuel comments ints s rest mx last e :
  text s → short_identifiers rest s → no_window rest s → over_four → (turns_left s last ≤ fuel)%nat →
  ∃ st z e', run_loop keywordCode fallback parser fuel comments ints (s ++ 0 :: rest) mx last e = Some (st, z, e') ∧
    suffix s z rest ∧ (st = StopEnd → z = 0 :: rest).
Proof.
  intros Hs Hsh Hnw Hov. revert ints s mx last e Hs Hsh Hnw. induction fuel as [|fuel IH]; intros ints s mx last e Hs Hsh Hnw Hf.
  { destruct s; cbn in Hf; repeat case_bool_decide; lia. }
  cbn [run_loop]. destruct (GetToken_total s rest Hs (Hsh s (TokenFirst _ _))) as (n & t & Et & Hn & Hne & Hnil).
  rewrite Et. cbn [mbind option_bind].
  assert (suffix s (s ++ 0 :: rest) rest) as Hself by (exists [], s; done).
  assert (∀ z, suffix (drop (Z.to_nat n) s) z rest → suffix s z rest) as Hmore.
  { intros z (s1 & s2 & Es & ->). exists (take (Z.to_nat n) s ++ s1), s2. split; [|done].
    by rewrite <- app_assoc, <- Es, take_drop. }
  destruct (mx - n <? 0); [eexists _, _, _; split; [reflexivity|]; split; [done|done]|].
  destruct (is_late t && default false (head ints)); [eexists _, _, _; split; [reflexivity|]; split; [done|done]|].
  set (ints' := if is_late t then tail ints else ints).
  assert (∀ last' e', (s = [] → (turns_left [] last' < turns_left [] last)%nat) →
    ∃ st z e'', run_loop keywordCode fallback parser fuel comments ints' (drop (Z.to_nat n) (s ++ 0 :: rest)) (mx - n) last' e' =
      Some (st, z, e'') ∧ suffix s z rest ∧ (st = StopEnd → z = 0 :: rest)) as Hgo.
  { intros last' e' Hl. rewrite drop_text by done.
    destruct (IH ints' (drop (Z.to_nat n) s) (mx - n) last' e') as (st & z & e'' & Er & Hz & Hst);
      [by apply Forall_drop|by eapply short_next|by eapply no_window_next| |exists st, z, e''; eauto].
    destruct s as [|b s']; [rewrite drop_nil; specialize (Hl eq_refl); lia|].
    pose proof (turns_bound (drop (Z.to_nat n) (b :: s')) last'). rewrite length_drop in H.
    specialize (Hne ltac:(done)). cbn [turns_left length] in *. lia. }
  assert (∃ f, (if is_late t then
      if bool_decide (t = TK_SPACE) then Some FeedSkip else late_token keywordCode fallback comments (s ++ 0 :: rest) n t last
     else Some (FeedToken t n)) = Some f ∧
    match s with
    | [] => match f with
            | FeedSkip => False
            | FeedStop st => st = StopEnd
            | FeedToken t' k => k = 0 ∧ (turns_left [] (Some t') < turns_left [] last)%nat
            end
    | _ => match f with FeedToken _ k => k = n | FeedStop st => st ≠ StopEnd | FeedSkip => True end
    end) as (f & Ef & Hfeed).
  { destruct (is_late t) eqn:El.
    - case_bool_decide as Hsp; [|by apply late_token_total].
      eexists. split; [reflexivity|]. destruct s as [|b s']; [|done]. rewrite (Hnil eq_refl) in Hsp. done.
    - eexists. split; [reflexivity|]. destruct s as [|b s']; [|done]. rewrite (Hnil eq_refl) in El. done. }
  rewrite Ef. cbn [mbind option_bind]. destruct f as [|st|t' k].
  - apply Hgo. intros ->. done.
  - eexists _, _, _. split; [reflexivity|]. split; [done|]. intros ->. destruct s as [|b s']; [done|]. by destruct Hfeed.
  - assert (k = n) as ->.
    { destruct s as [|b s']; [|done]. destruct Hfeed as [-> _]. cbn in Hn. lia. }
    destruct (parser e t' (s ++ 0 :: rest) n) as [e' rc]. destruct (negb (rc =? SQLITE_OK)).
    + eexists _, _, _. split; [reflexivity|]. split; [|done]. rewrite drop_text by done. apply Hmore. by exists [], (drop (Z.to_nat n) s).
    + apply Hgo. intros ->. by destruct Hfeed.
Qed.

(** More fuel does not change a result. *)
Lemma run_loop_more fuel fuel' comments ints z mx last e r : (fuel ≤ fuel')%nat →
  run_loop keywordCode fallback parser fuel comments ints z mx last e = Some r → run_loop keywordCode fallback parser fuel' comments ints z mx last e = Some r.
Proof.
  revert fuel' ints z mx last e. induction fuel as [|fuel IH]; intros fuel' ints z mx last e Hle; [done|]. destruct fuel' as [|fuel']; [lia|]. cbn [run_loop].
  assert (∀ ints z mx last e, run_loop keywordCode fallback parser fuel comments ints z mx last e = Some r → run_loop keywordCode fallback parser fuel' comments ints z mx last e = Some r) as Hgo by (intros; apply IH; [lia|done]).
  destruct (GetToken z) as [[n t]|]; [|done]. cbn [mbind option_bind]. destruct (mx - n <? 0); [done|]. destruct (is_late t && default false (head ints)); [done|].
  match goal with |- context [mbind _ ?f] => destruct f as [[|st|u k]|]; [..|done] end; cbn [mbind option_bind]; [apply Hgo|done|].
  destruct (parser e u z k) as [e' rc]. destruct (negb (rc =? SQLITE_OK)); [done|apply Hgo].
Qed.
End token.

(** ** Literals *)

Lemma quote_loop_escape fuel q pre body next :
  text body → q ≠ 0 → (length body < fuel)%nat → next ≠ [] → head next ≠ Some q →
  quote_loop fuel q (pre ++ escape q body ++ q :: next) (zlen pre) = Some (zlen pre + zlen (escape q body), q).
Proof.
  intros Hb Hq Hf Hne Hh. revert pre fuel Hf. induction body as [|c body IH]; intros pre fuel Hf;
    (destruct fuel as [|fuel]; [cbn in Hf; lia|]); cbn [quote_loop].
  - cbn [escape mbind list_bind app length]. rewrite rd_app_head. cbn [mbind option_bind].
    destruct (Z.eqb_spec q 0); [done|]. rewrite Z.eqb_refl. destruct next as [|d next]; [done|].
    replace (pre ++ q :: d :: next) with ((pre ++ [q]) ++ d :: next) by (by rewrite <- app_assoc).
    replace (zlen pre + 1) with (zlen (pre ++ [q])) by len. rewrite rd_app_head. cbn [mbind option_bind].
    destruct (Z.eqb_spec d q) as [->|]; [done|]. do 2 f_equal. lia.
  - apply text_cons in Hb as [Hc Hb]. cbn [length] in Hf.
    change (escape q (c :: body)) with ((if c =? q then [c; c] else [c]) ++ escape q body).
    destruct (Z.eqb_spec c q) as [->|Hn]; cbn [app]; rewrite rd_app_head; cbn [mbind option_bind].
    + destruct (Z.eqb_spec q 0); [done|]. rewrite Z.eqb_refl.
      replace (pre ++ q :: q :: escape q body ++ q :: next) with ((pre ++ [q]) ++ q :: escape q body ++ q :: next)
        by (by rewrite <- app_assoc).
      replace (zlen pre + 1) with (zlen (pre ++ [q])) by len. rewrite rd_app_head. cbn [mbind option_bind].
      rewrite Z.eqb_refl.
      replace ((pre ++ [q]) ++ q :: escape q body ++ q :: next) with ((pre ++ [q; q]) ++ escape q body ++ q :: next)
        by (by rewrite <- !app_assoc).
      replace (zlen pre + 2) with (zlen (pre ++ [q; q])) by len. rewrite IH by (done || lia).
      do 2 f_equal. len.
    + destruct (Z.eqb_spec c 0); [lia|]. destruct (Z.eqb_spec c q); [done|].
      replace (pre ++ c :: escape q body ++ q :: next) with ((pre ++ [c]) ++ escape q body ++ q :: next)
        by (by rewrite <- app_assoc).
      replace (zlen pre + 1) with (zlen (pre ++ [c])) by len. rewrite IH by (done || lia).
      do 2 f_equal. len.
Qed.

Lemma GetToken_quoted kw q body next rest :
  q = 34 ∨ q = 39 ∨ q = 96 → text body → head next ≠ Some q →
  sqlite3GetToken kw ((q :: escape q body ++ q :: next) ++ 0 :: rest) =
    Some (zlen (escape q body) + 2, if q =? 39 then TK_STRING else TK_ID).
Proof.
  intros Hq Hb Hh. assert (cc q = Some 8) as Ek by (by destruct Hq as [-> | [-> | ->]]).
  assert (q ≠ 0) as Hq0 by lia. class_step Ek. unfold quote_token.
  change ((q :: ?l).[0]) with (Some q). cbn [mbind option_bind].
  rewrite <- app_assoc. cbn [app].
  pose proof (quote_loop_escape (S (length (q :: escape q body ++ q :: next ++ 0 :: rest))) q [q] body (next ++ 0 :: rest) Hb Hq0) as E.
  cbn [app] in E. change (zlen [q]) with 1 in E. rewrite E; [|pose proof (escape_length q body); len|by destruct next|].
  2:{ destruct next as [|d next]; [cbn; congruence|done]. }
  cbn [mbind option_bind]. destruct (Z.eqb_spec q 39) as [->|]; [do 2 f_equal; lia|].
  destruct (Z.eqb_spec q 0); [done|]. cbn [negb]. do 2 f_equal. lia.
Qed.

(** What ends a number: the end of the text, or a character that is neither part of
    an identifier nor a decimal point. *)
Definition number_end (next : list Z) : Prop :=
  match next with [] => True | c :: _ => 0 ≤ c < 256 ∧ sqlite3IsIdChar c = false ∧ c ≠ 46 end.

Lemma idchar_digit c : 0 ≤ c < 256 → sqlite3IsIdChar c = false →
  sqlite3Isdigit c = false ∧ c ≠ 95 ∧ c ≠ 120 ∧ c ≠ 88 ∧ c ≠ 101 ∧ c ≠ 69.
Proof.
  intros Hc Hi. assert (forallb (λ c, implb (negb (sqlite3IsIdChar c)) (negb (sqlite3Isdigit c) &&
    negb ((c =? 95) || (c =? 120) || (c =? 88) || (c =? 101) || (c =? 69)))) (seqZ 0 256) = true) as H
    by (vm_compute; reflexivity).
  pose proof (range_all _ 0 256 H c Hc) as H1. cbv beta in H1. rewrite Hi in H1. cbn [negb implb] in H1. b2p.
  repeat match goal with H : (_ || _) = false |- _ => apply orb_false_iff in H as [? ?] end. b2p. tauto.
Qed.

(** The byte after a number. *)
Lemma after_number pre next rest : number_end next →
  ∃ d, (pre ++ next ++ 0 :: rest).[zlen pre] = Some d ∧ sqlite3Isdigit d = false ∧ d ≠ 95 ∧ d ≠ 46 ∧ d ≠ 120 ∧ d ≠ 88 ∧
    d ≠ 101 ∧ d ≠ 69 ∧ sqlite3IsIdChar d = false.
Proof.
  intros Hn. destruct next as [|d next].
  - exists 0. cbn [app]. rewrite rd_app_head. done.
  - destruct Hn as (Hd & Hi & H46). exists d. cbn [app]. rewrite rd_app_head.
    destruct (idchar_digit d Hd Hi) as (? & ? & ? & ? & ? & ?). done.
Qed.

Lemma digits_loop_all fuel pre ds next rest t :
  digits ds → number_end next → (length ds < fuel)%nat →
  digits_loop fuel sqlite3Isdigit (pre ++ ds ++ next ++ 0 :: rest) (zlen pre) t = Some (zlen pre + zlen ds, t).
Proof.
  intros Hds Hn. revert pre fuel. induction Hds as [|c ds Hc Hds IH]; intros pre fuel Hf;
    (destruct fuel as [|fuel]; [cbn in Hf; lia|]); cbn [digits_loop app].
  - destruct (after_number pre next rest Hn) as (d & -> & Hd & H95 & _). cbn [mbind option_bind]. rewrite Hd. cbn [negb].
    unfold SQLITE_DIGIT_SEPARATOR. destruct (Z.eqb_spec d 95); [done|]. cbn [length]. do 2 f_equal. lia.
  - rewrite rd_app_head. cbn [mbind option_bind]. rewrite Isdigit_byte by lia. unfold digit.
    destruct (Z.leb_spec 48 c); [|lia]. destruct (Z.leb_spec c 57); [|lia]. cbn [negb andb].
    replace (pre ++ c :: ds ++ next ++ 0 :: rest) with ((pre ++ [c]) ++ ds ++ next ++ 0 :: rest) by (by rewrite <- app_assoc).
    replace (zlen pre + 1) with (zlen (pre ++ [c])) by len. cbn [length] in Hf. rewrite IH by lia.
    do 2 f_equal. len.
Qed.

(** Digits without a leading zero, or a single zero. *)
Lemma GetToken_digits kw ds next rest :
  digits ds → ds ≠ [] → (head ds = Some 48 → ds = [48]) → text next → number_end next →
  sqlite3GetToken kw ((ds ++ next) ++ 0 :: rest) = Some (zlen ds, TK_INTEGER).
Proof.
  intros Hds Hne Hz Htn Hn. destruct ds as [|c ds]; [done|]. pose proof Hds as Hds'. apply Forall_cons in Hds' as [Hc _].
  destruct (class_of c ltac:(lia)) as (k & Ek & Hf). destruct (class_digit c k Hf) as (Hdig & _).
  assert (k = 3) as ->.
  { apply Hdig. rewrite Isdigit_byte by lia. unfold digit. destruct (Z.leb_spec 48 c); [|lia]. by destruct (Z.leb_spec c 57); [|lia]. }
  rewrite <- app_assoc. class_step Ek. unfold number_token. change ((c :: ?l).[0]) with (Some c). cbn [mbind option_bind].
  set (w := c :: ds) in *. change (c :: ds ++ next ++ 0 :: rest) with (w ++ next ++ 0 :: rest).
  destruct (after_number w next rest Hn) as (d & Ed & Hd & H95 & H46 & Hx & HX & He & HE & Hi).
  assert ((if c =? 48 then
       z1 ← (w ++ next ++ 0 :: rest).[1];
       if (z1 =? 120) || (z1 =? 88) then z2 ← (w ++ next ++ 0 :: rest).[2]; Some (sqlite3Isxdigit z2) else Some false
     else Some false) = Some false) as ->.
  { destruct (Z.eqb_spec c 48) as [->|]; [|done]. assert (w = [48]) as Ew by (by apply Hz).
    rewrite Ew in Ed |- *. change (zlen [48]) with 1 in Ed. rewrite Ed. cbn [mbind option_bind].
    destruct (Z.eqb_spec d 120); [done|]. by destruct (Z.eqb_spec d 88). }
  cbn [mbind option_bind].
  pose proof (digits_loop_all (S (length (w ++ next ++ 0 :: rest))) [] w next rest TK_INTEGER Hds Hn ltac:(len)) as E.
  cbn [app length] in E. change (Z.of_nat 0) with 0 in E. rewrite Z.add_0_l in E. unfold digits_scan. rewrite E.
  cbn [mbind option_bind]. rewrite Ed. cbn [mbind option_bind]. destruct (Z.eqb_spec d 46); [done|]. cbn [mbind option_bind].
  unfold has_exponent. rewrite Ed. cbn [mbind option_bind].
  destruct (Z.eqb_spec d 101); [done|]. destruct (Z.eqb_spec d 69); [done|]. cbn [orb mbind option_bind].
  rewrite (app_assoc w next). rewrite scan_correct; [|done|len].
  rewrite Nat2Z.id, drop_app_length.
  assert (prefix_of sqlite3IsIdChar next = []) as ->.
  { destruct next as [|e next]; [done|]. cbn. destruct Hn as (_ & -> & _). done. }
  cbn [mbind option_bind length]. rewrite Z.add_0_r, Z.ltb_irrefl. done.
Qed.

(** ** Properties *)

(** C35: Every token of a text is a nonempty part of it, and the tokenizer reads no byte
    past the terminator, whatever the text: malformed numbers, unterminated strings and
    comments included. The exception is the copy that the tokenizer makes of each
    identifier that is not looked up as a keyword: the function has a result
    exactly when such an identifier has at most 32 bytes, and a longer one
    overflows the buffer. The end of the text is a token of length 0. *)
Theorem GetToken_bounds kw s rest :
  text s →
  let r := sqlite3GetToken kw (s ++ 0 :: rest) in
  (s = [] → r = Some (0, TK_ILLEGAL)) ∧
  (s ≠ [] → ¬ plain_identifier s → ∃ n t, r = Some (n, t) ∧ 1 ≤ n ≤ zlen s) ∧
  (plain_identifier s → zlen (word s) ≤ 32 → r = Some (zlen (word s), TK_ID) ∧ zlen (word s) ≤ zlen s) ∧
  (plain_identifier s → 32 < zlen (word s) → r = None).
Proof.
  intros Hs r. subst r. split; [by intros ->|]. split; [intros Hne Hp; by apply GetToken_other|].
  pose proof (prefix_of_length sqlite3IsIdChar s) as Hl. fold (word s) in Hl.
  split; intros Hp Hw; rewrite GetToken_plain by done; unfold identifier_result.
  - destruct (Z.leb_spec (zlen (word s)) 32); [|lia]. split; [done|lia].
  - destruct (Z.leb_spec (zlen (word s)) 32); [lia|done].
Qed.

(** C36: The loop of [sqlite3RunParser] ends on every text none of whose tokens is a WINDOW or FILTER keyword or a plain identifier
    that does not fit the tokenizer's buffer (what is inside strings, comments and longer words does not count), with a table of
    keywords in which OVER has four letters: within as many turns as the text has bytes, and three more, it reaches the end of the text,
    the limit on its length, an interrupt, a token that is none or a result code of the parser, at a position inside the
    text; the fuel of the model is no less than that. *)
Theorem RunParser_ends {E} kw fallback (parser : E → tk → list Z → Z → E * Z) comments ints s rest mx e :
  text s → short_identifiers kw rest s → no_window kw rest s → over_four kw →
  ∃ st z e', run_loop kw fallback parser (length s + 3) comments ints (s ++ 0 :: rest) mx None e = Some (st, z, e') ∧
    sqlite3RunParser kw fallback parser comments ints (s ++ 0 :: rest) mx e = Some (st, z, e') ∧
    (∃ s1 s2, s = s1 ++ s2 ∧ z = s2 ++ 0 :: rest) ∧ (st = StopEnd → z = 0 :: rest).
Proof.
  intros Hs Hsh Hnw Hov. destruct (run_loop_total kw fallback parser (length s + 3) comments ints s rest mx None e) as (st & z & e' & E1 & H); [done..|apply turns_bound|].
  exists st, z, e'. split; [done|]. split; [|done]. eapply run_loop_more; [|exact E1]. len.
Qed.

(** Literals are tokenized whole: a text quoted with its quotes doubled is one token, a
    string for single quotes and an identifier for the other two, and
    [sqlite3Dequote] recovers the text from it; and the decimal text that
    [sqlite3Int64ToText] writes for a nonnegative integer is one integer token,
    if what follows cannot continue it. *)
Theorem GetToken_literals kw q body next v next' rest :
  q = 34 ∨ q = 39 ∨ q = 96 → text body → head next ≠ Some q →
  0 ≤ v ≤ LARGEST_INT64 → text next' → number_end next' →
  let lit := q :: escape q body ++ [q] in
  sqlite3GetToken kw ((lit ++ next) ++ 0 :: rest) = Some (zlen lit, if q =? 39 then TK_STRING else TK_ID) ∧
  (∃ rest', sqlite3Dequote (cstr lit []) = Some (cstr body rest')) ∧
  sqlite3GetToken kw ((int_text v ++ next') ++ 0 :: rest) = Some (zlen (int_text v), TK_INTEGER).
Proof.
  intros Hq Hb Hh Hv Htn Hn lit. split; [|split].
  - subst lit. replace ((q :: escape q body ++ [q]) ++ next) with (q :: escape q body ++ q :: next)
      by (cbn [app]; by rewrite <- app_assoc).
    rewrite GetToken_quoted by done. do 2 f_equal. len.
  - assert (close_quote q = q) as Eq by (unfold close_quote; destruct (Z.eqb_spec q 91); lia).
    destruct (Dequote_correct q body []) as (rest' & Er & _); [lia|by destruct Hq as [-> | [-> | ->]]|done|].
    rewrite Eq in Er. by exists rest'.
  - destruct (dec_text_spec 20 (Z.abs v)) as (Hds & Hval & Hlen & Hhd); [unfold LARGEST_INT64 in Hv; cbn; lia|].
    unfold int_text. destruct (Z.eqb_spec v 0) as [->|Hv0].
    + apply (GetToken_digits kw [48]); [repeat constructor; lia|done|done|done|done].
    + destruct (Z.ltb_spec v 0); [lia|]. cbn [app]. apply GetToken_digits; [done| |done|done|done].
      intros E. rewrite E in Hval. cbn in Hval. lia.
Qed.

(** C37: A WINDOW or FILTER keyword, six letters long, that is within the limit on the length of the text overflows the four bytes
    that the parser's loop copies it into: when the loop comes to it, whatever it has read before, and no interrupt is
    pending, the run has no result, however many turns are left and whatever follows. *)
Theorem window_overflow {E} kw fallback (parser : E → tk → list Z → Z → E * Z) comments ints s rest t mx last e fuel :
  head ints ≠ Some true →
  text s → s ≠ [] → sqlite3GetToken kw (s ++ 0 :: rest) = Some (6, t) → t = TK_WINDOW ∨ t = TK_FILTER → 6 ≤ mx →
  run_loop kw fallback parser (S fuel) comments ints (s ++ 0 :: rest) mx last e = None.
Proof.
  intros Hint Hs Hne Et Ht Hmx. cbn [run_loop]. rewrite Et. cbn [mbind option_bind].
  destruct (Z.ltb_spec (mx - 6) 0); [lia|]. assert (default false (head ints) = false) as -> by (by destruct (head ints) as [[]|]). rewrite andb_false_r.
  destruct s as [|b s']; [done|]. apply text_cons in Hs as [Hb _].
  unfold late_token. cbn [app]. change ((b :: ?l).[0]) with (Some b). cbn [mbind option_bind].
  destruct (Z.eqb_spec b 0); [lia|]. by destruct Ht as [-> | ->].
Qed.

(** ** Witnesses *)

(** No keyword, and a table with two. *)
Definition no_keyword (w : list Z) : tk := TK_ID.
Definition some_keywords (w : list Z) : tk :=
  if bool_decide (lower <$> w = [111; 118; 101; 114]) then TK_OVER
  else if bool_decide (lower <$> w = [119; 105; 110; 100; 111; 119]) then TK_WINDOW else TK_ID.

(** [_] forty times. *)
Lemma GetToken_bounds_witness :
  text (replicate 40 95) ∧ plain_identifier (replicate 40 95) ∧ 32 < zlen (word (replicate 40 95)) ∧
  sqlite3GetToken no_keyword (replicate 40 95 ++ 0 :: []) = None.
Proof.
  assert (text (replicate 40 95)) as H1 by (unfold text; repeat constructor; lia).
  assert (plain_identifier (replicate 40 95)) as H2 by (left; reflexivity).
  assert (32 < zlen (word (replicate 40 95))) as H3 by (vm_compute; reflexivity).
  split; [exact H1|]. split; [exact H2|]. split; [exact H3|].
  apply (GetToken_bounds no_keyword (replicate 40 95) [] H1); [exact H2|exact H3].
Defined.

(** [window] and a letter after a space. *)
Lemma window_overflow_witness :
  text [119; 105; 110; 100; 111; 119; 32; 97] ∧
  run_loop some_keywords (λ _, None) (λ (e : nat) _ _ _, (S e, SQLITE_OK)) (S 100) true []
    ([119; 105; 110; 100; 111; 119; 32; 97] ++ 0 :: []) 100 None 0%nat = None.
Proof.
  assert (text [119; 105; 110; 100; 111; 119; 32; 97]) as H by (unfold text; repeat constructor; lia).
  split; [exact H|].
  apply (window_overflow some_keywords (λ _, None) (λ (e : nat) _ _ _, (S e, SQLITE_OK)) true [] _ [] TK_WINDOW 100 None 0%nat 100%nat);
    [discriminate|exact H|discriminate|vm_compute; reflexivity|left; reflexivity|lia].
Defined.

(** [a'window'] with a parser that counts its tokens: three places where a token starts. *)
Definition quoted_window : list Z := [97; 39; 119; 105; 110; 100; 111; 119; 39].

Lemma quoted_window_tokens s' : token_at some_keywords [] quoted_window s' → s' = quoted_window ∨ s' = drop 1 quoted_window ∨ s' = [].
Proof.
  induction 1 as [|s' n t _ IH E]; [by left|]. destruct IH as [-> | [-> | ->]]; vm_compute in E; injection E as <- _; auto.
Qed.

Lemma RunParser_ends_witness :
  text quoted_window ∧ short_identifiers some_keywords [] quoted_window ∧ no_window some_keywords [] quoted_window ∧ over_four some_keywords ∧
  ∃ st z e', run_loop some_keywords (λ _, None) (λ (e : nat) _ _ _, (S e, SQLITE_OK)) (length quoted_window + 3) true [] (quoted_window ++ 0 :: []) 100 None 0%nat = Some (st, z, e') ∧
    sqlite3RunParser some_keywords (λ _, None) (λ (e : nat) _ _ _, (S e, SQLITE_OK)) true [] (quoted_window ++ 0 :: []) 100 0%nat = Some (st, z, e') ∧
    (∃ s1 s2, quoted_window = s1 ++ s2 ∧ z = s2 ++ 0 :: []) ∧ (st = StopEnd → z = 0 :: []).
Proof.
  assert (text quoted_window) as H1 by (unfold text, quoted_window; repeat constructor; lia).
  assert (short_identifiers some_keywords [] quoted_window) as H2 by (intros s' [-> | [-> | ->]]%quoted_window_tokens _; vm_compute; discriminate).
  assert (no_window some_keywords [] quoted_window) as H3 by (intros s' n t [-> | [-> | ->]]%quoted_window_tokens E; vm_compute in E; injection E as _ <-; split; discriminate).
  assert (over_four some_keywords) as H4.
  { intros w. unfold some_keywords. case_bool_decide as Hw; [|by case_bool_decide]. intros _. apply (f_equal length) in Hw. by rewrite length_fmap in Hw. }
  split; [exact H1|]. split; [exact H2|]. split; [exact H3|]. split; [exact H4|].
  apply (RunParser_ends some_keywords (λ _, None) _ true [] _ [] 100 0%nat H1 H2 H3 H4).
Defined.

(** [it's] quoted, followed by a semicolon. *)
Lemma GetToken_literals_witness :
  text [105; 116; 39; 115] ∧
  sqlite3GetToken no_keyword (((39 :: escape 39 [105; 116; 39; 115] ++ [39]) ++ [59]) ++ 0 :: []) = Some (7, TK_STRING).
Proof.
  assert (text [105; 116; 39; 115]) as H by (unfold text; repeat constructor; lia).
  split; [exact H|].
  apply (GetToken_literals no_keyword 39 [105; 116; 39; 115] [59] 7 [] []); [right; left; reflexivity|exact H|discriminate|
    unfold LARGEST_INT64; lia|constructor|exact I].
Defined.
