(* ===== verification/CJsonHeap.v ===== *)
(** The items of cJSON (src/test_targets/cjson/cJSON.c, cJSON.h): the heap they live in,
    their construction and deletion, and the operations on the doubly linked lists
    of children.  Proofs about them are in CJsonHeapProofs.v. *)
From S2P Require Import Prelude.
From Stdlib Require Export SpecFloat.

(** ** Types of items *)
Definition cJSON_Invalid : Z := 0.
Definition cJSON_False : Z := Z.shiftl 1 0.
Definition cJSON_True : Z := Z.shiftl 1 1.
Definition cJSON_NULL : Z := Z.shiftl 1 2.
Definition cJSON_Number : Z := Z.shiftl 1 3.
Definition cJSON_String : Z := Z.shiftl 1 4.
Definition cJSON_Array : Z := Z.shiftl 1 5.
Definition cJSON_Object : Z := Z.shiftl 1 6.
Definition cJSON_Raw : Z := Z.shiftl 1 7.
Definition cJSON_IsReference : Z := 256.
Definition cJSON_StringIsConst : Z := 512.

(** ** Data

    A pointer to an item or to a string is [None] when it is NULL.  A [double] is
    an IEEE 754 value in the sense of the Standard Library. *)
Record cJSON := mkItem {
  next : option Z; prev : option Z; child : option Z; type : Z;
  valuestring : option Z; valueint : Z; valuedouble : spec_float; string : option Z }.

Definition set_next v i := mkItem v (prev i) (child i) (type i) (valuestring i) (valueint i) (valuedouble i) (string i).
Definition set_prev v i := mkItem (next i) v (child i) (type i) (valuestring i) (valueint i) (valuedouble i) (string i).
Definition set_child v i := mkItem (next i) (prev i) v (type i) (valuestring i) (valueint i) (valuedouble i) (string i).
Definition set_type v i := mkItem (next i) (prev i) (child i) v (valuestring i) (valueint i) (valuedouble i) (string i).
Definition set_valuestring v i := mkItem (next i) (prev i) (child i) (type i) v (valueint i) (valuedouble i) (string i).
Definition set_number d n i := mkItem (next i) (prev i) (child i) (type i) (valuestring i) n d (string i).
Definition set_valueint n i := set_number (valuedouble i) n i.
Definition set_string v i := mkItem (next i) (prev i) (child i) (type i) (valuestring i) (valueint i) (valuedouble i) v.

(** The blocks of items and of strings, the address of the next block and the
    outcomes of the coming requests.  Addresses are not reused. *)
Record heap := mkHeap {
  items : gmap Z cJSON; strings : gmap Z (list Z); brk : Z; answers : list bool }.

Definition with_items m h := mkHeap m (strings h) (brk h) (answers h).
Definition with_strings m h := mkHeap (items h) m (brk h) (answers h).

(** [hooks->allocate]: the address of the block, or NULL. *)
Definition allocate (h : heap) : option Z * heap :=
  match answers h with
  | false :: o => (None, mkHeap (items h) (strings h) (brk h) o)
  | o => (Some (brk h), mkHeap (items h) (strings h) (brk h + 1) (tail o))
  end.

(** Writing the fields of an item; there is no result for a dangling pointer. *)
Definition upd (a : Z) (f : cJSON → cJSON) (h : heap) : option heap :=
  i ← items h !! a; Some (with_items (<[a := f i]> (items h)) h).

(** [hooks->deallocate] of a block of each kind: nothing else may be freed, or twice. *)
Definition free_item (a : Z) (h : heap) : option heap :=
  _ ← items h !! a; Some (with_items (delete a (items h)) h).
Definition free_string (a : Z) (h : heap) : option heap :=
  _ ← strings h !! a; Some (with_strings (delete a (strings h)) h).

(** ** Construction and deletion *)

Definition blank : cJSON := mkItem None None None 0 None 0 (S754_zero false) None.

Definition cJSON_New_Item (h : heap) : option Z * heap :=
  match allocate h with
  | (Some a, h) => (Some a, with_items (<[a := blank]> (items h)) h)
  | (None, h) => (None, h)
  end.

(** A bit of the type. *)
Definition has (bit : Z) (i : cJSON) : bool := negb (Z.land (type i) bit =? 0).

(** The strings that an item owns, and then the item itself, are deallocated. *)
Definition delete_item (a : Z) (h : heap) : option heap :=
  i ← items h !! a;
  h ← (if negb (has cJSON_IsReference i) then
         match valuestring i with
         | Some s => h ← free_string s h; upd a (set_valuestring None) h
         | None => Some h
         end
       else Some h);
  i ← items h !! a;
  h ← (if negb (has cJSON_StringIsConst i) then
         match string i with
         | Some s => h ← free_string s h; upd a (set_string None) h
         | None => Some h
         end
       else Some h);
  free_item a h.

Fixpoint delete_loop (fuel : nat) (h : heap) (item : option Z) : option heap :=
  match item with
  | None => Some h
  | Some a =>
      match fuel with
      | O => None
      | S fuel' =>
          i ← items h !! a;
          let next := next i in
          h ← (if negb (has cJSON_IsReference i) && bool_decide (child i ≠ None)
               then delete_loop fuel' h (child i) else Some h);
          h ← delete_item a h;
          delete_loop fuel' h next
      end
  end.
Definition cJSON_Delete (h : heap) (item : option Z) : option heap :=
  delete_loop (S (size (items h))) h item.

(** [strlen] of what is stored from a position on. *)
Fixpoint strlen (l : list Z) : option Z :=
  match l with
  | [] => None
  | c :: l => if c =? 0 then Some 0 else n ← strlen l; Some (n + 1)
  end.

(** The terminated string stored in a block. *)
Definition c_string (l : list Z) : option (list Z) := n ← strlen l; Some (take (Z.to_nat n) l).

(** ** Lists of children *)

(** [get_array_item]: the walk of [index] steps. *)
Fixpoint item_walk (index : nat) (h : heap) (current_child : option Z) : option (option Z) :=
  match current_child, index with
  | Some a, S index => i ← items h !! a; item_walk index h (next i)
  | _, _ => Some current_child
  end.
Definition get_array_item (h : heap) (array : option Z) (index : Z) : option (option Z) :=
  match array with
  | None => Some None
  | Some a => i ← items h !! a; item_walk (Z.to_nat index) h (child i)
  end.
Definition cJSON_GetArrayItem (h : heap) (array : option Z) (index : Z) : option (option Z) :=
  if index <? 0 then Some None else get_array_item h array index.

Fixpoint size_loop (fuel : nat) (h : heap) (c : option Z) (size : Z) : option Z :=
  match c with
  | None => Some size
  | Some a =>
      match fuel with
      | O => None
      | S fuel' => i ← items h !! a; size_loop fuel' h (next i) (size + 1)
      end
  end.
Definition cJSON_GetArraySize (h : heap) (array : option Z) : option Z :=
  match array with
  | None => Some 0
  | Some a => i ← items h !! a; n ← size_loop (S (size (items h))) h (child i) 0; Some (i32 n)
  end.

Definition suffix_object (prev item : Z) (h : heap) : option heap :=
  h ← upd prev (set_next (Some item)) h; upd item (set_prev (Some prev)) h.

Definition add_item_to_array (h : heap) (array item : option Z) : option (bool * heap) :=
  match array, item with
  | Some array, Some item =>
      if array =? item then Some (false, h)
      else
        ai ← items h !! array;
        match child ai with
        | None =>
            h ← upd array (set_child (Some item)) h;
            h ← upd item (set_prev (Some item)) h;
            h ← upd item (set_next None) h;
            Some (true, h)
        | Some c =>
            ci ← items h !! c;
            h ← match prev ci with
                | Some last =>
                    h ← suffix_object last item h;
                    ai ← items h !! array; c ← child ai;
                    upd c (set_prev (Some item)) h
                | None => Some h
                end;
            Some (true, h)
        end
  | _, _ => Some (false, h)
  end.
Definition cJSON_AddItemToArray := add_item_to_array.

(** The item detached, or NULL. *)
Definition cJSON_DetachItemViaPointer (h : heap) (parent item : option Z) : option (option Z * heap) :=
  match parent, item with
  | Some parent, Some item =>
      pi ← items h !! parent;
      it ← items h !! item;
      if negb (bool_decide (child pi = Some item)) && bool_decide (prev it = None) then Some (None, h)
      else
        h ← (if negb (bool_decide (child pi = Some item)) then
               p ← prev it; upd p (set_next (next it)) h
             else Some h);
        it ← items h !! item;
        h ← match next it with
            | Some n => upd n (set_prev (prev it)) h
            | None => Some h
            end;
        pi ← items h !! parent;
        it ← items h !! item;
        h ← (if bool_decide (child pi = Some item) then upd parent (set_child (next it)) h
             else if bool_decide (next it = None) then c ← child pi; upd c (set_prev (prev it)) h
             else Some h);
        h ← upd item (set_prev None) h;
        h ← upd item (set_next None) h;
        Some (Some item, h)
  | _, _ => Some (None, h)
  end.
Definition cJSON_DetachItemFromArray (h : heap) (array : option Z) (which : Z) : option (option Z * heap) :=
  if which <? 0 then Some (None, h)
  else item ← get_array_item h array which; cJSON_DetachItemViaPointer h array item.
Definition cJSON_DeleteItemFromArray (h : heap) (array : option Z) (which : Z) : option heap :=
  '(item, h) ← cJSON_DetachItemFromArray h array which; cJSON_Delete h item.

Definition cJSON_InsertItemInArray (h : heap) (array : option Z) (which : Z) (newitem : option Z)
  : option (bool * heap) :=
  match newitem with
  | None => Some (false, h)
  | Some new =>
      if which <? 0 then Some (false, h)
      else
        after_inserted ← get_array_item h array which;
        match after_inserted with
        | None => add_item_to_array h array newitem
        | Some after =>
            array ← array;
            ai ← items h !! array;
            af ← items h !! after;
            if negb (bool_decide (child ai = Some after)) && bool_decide (prev af = None)
            then Some (false, h)
            else
              h ← upd new (set_next (Some after)) h;
              af ← items h !! after;
              h ← upd new (set_prev (prev af)) h;
              h ← upd after (set_prev (Some new)) h;
              ai ← items h !! array;
              h ← (if bool_decide (child ai = Some after) then upd array (set_child (Some new)) h
                   else ni ← items h !! new; p ← prev ni; upd p (set_next (Some new)) h);
              Some (true, h)
        end
  end.

Definition cJSON_ReplaceItemViaPointer (h : heap) (parent item replacement : option Z)
  : option (bool * heap) :=
  match parent, item, replacement with
  | Some parent, Some item, Some replacement =>
      pi ← items h !! parent;
      if bool_decide (child pi = None) then Some (false, h)
      else if replacement =? item then Some (true, h)
      else
        it ← items h !! item;
        h ← upd replacement (set_next (next it)) h;
        it ← items h !! item;
        h ← upd replacement (set_prev (prev it)) h;
        ri ← items h !! replacement;
        h ← match next ri with
            | Some n => upd n (set_prev (Some replacement)) h
            | None => Some h
            end;
        pi ← items h !! parent;
        h ← (if bool_decide (child pi = Some item) then
               c ← child pi;
               ci ← items h !! c;
               h ← (if bool_decide (prev ci = child pi)
                    then upd replacement (set_prev (Some replacement)) h else Some h);
               upd parent (set_child (Some replacement)) h
             else
               ri ← items h !! replacement;
               h ← match prev ri with
                   | Some p => upd p (set_next (Some replacement)) h
                   | None => Some h
                   end;
               ri ← items h !! replacement;
               if bool_decide (next ri = None)
               then pi ← items h !! parent; c ← child pi; upd c (set_prev (Some replacement)) h
               else Some h);
        h ← upd item (set_next None) h;
        h ← upd item (set_prev None) h;
        h ← cJSON_Delete h (Some item);
        Some (true, h)
  | Some parent, _, _ => _ ← items h !! parent; Some (false, h)
  | None, _, _ => Some (false, h)
  end.
Definition cJSON_ReplaceItemInArray (h : heap) (array : option Z) (which : Z) (newitem : option Z)
  : option (bool * heap) :=
  if which <? 0 then Some (false, h)
  else item ← get_array_item h array which; cJSON_ReplaceItemViaPointer h array item newitem.
