(* ===== verification/CJsonHeapProofs.v ===== *)
(** Proofs about the items of cJSON (CJsonHeap.v): deleting a list of items frees what it
    owns and nothing else, and the operations on the children of an item
    keep the doubly linked list and do what they do to a list of addresses. *)
From S2P Require Import Prelude CJsonHeap.

(** ** Forests of items

    A list of siblings with their children, as the items are linked: [kids] are those of
    the first item, [rest] its later siblings. *)
Inductive forest := FNil | FCons (a : Z) (i : cJSON) (kids rest : forest).

Fixpoint holds (m : gmap Z cJSON) (p : option Z) (f : forest) : Prop :=
  match f with
  | FNil => p = None
  | FCons a i kids rest =>
      p = Some a ∧ m !! a = Some i ∧
      (if has cJSON_IsReference i then kids = FNil else holds m (child i) kids) ∧ holds m (next i) rest
  end.

(** The addresses of the items, and of the strings they own. *)
Fixpoint addrs (f : forest) : list Z :=
  match f with
  | FNil => []
  | FCons a _ kids rest => a :: addrs kids ++ addrs rest
  end.
Definition olist (o : option Z) : list Z := match o with Some a => [a] | None => [] end.
Definition own_strings (i : cJSON) : list Z :=
  (if has cJSON_IsReference i then [] else olist (valuestring i)) ++
  (if has cJSON_StringIsConst i then [] else olist (string i)).
Fixpoint strs (f : forest) : list Z :=
  match f with
  | FNil => []
  | FCons _ i kids rest => strs kids ++ own_strings i ++ strs rest
  end.

(** A map without some addresses. *)
Definition without {A} (l : list Z) (m : gmap Z A) : gmap Z A := filter (λ kv, kv.1 ∉ l) m.

Lemma lookup_without {A} l (m : gmap Z A) a : without l m !! a = if decide (a ∈ l) then None else m !! a.
Proof.
  unfold without. destruct (decide (a ∈ l)) as [Hin|Hin].
  - apply map_lookup_filter_None. right. intros x _ H. by apply H.
  - destruct (m !! a) as [x|] eqn:E.
    + by apply map_lookup_filter_Some.
    + apply map_lookup_filter_None. by left.
Qed.

Lemma without_nil {A} (m : gmap Z A) : without [] m = m.
Proof. apply map_eq. intros a. rewrite lookup_without. by destruct (decide _) as [H|H]; [inversion H|]. Qed.

Lemma without_app {A} l1 l2 (m : gmap Z A) : without l2 (without l1 m) = without (l1 ++ l2) m.
Proof.
  apply map_eq. intros a. rewrite !lookup_without.
  destruct (decide (a ∈ l1 ++ l2)) as [H|H]; rewrite elem_of_app in H; repeat destruct (decide _); done || tauto.
Qed.

Lemma without_one {A} a (m : gmap Z A) : delete a m = without [a] m.
Proof.
  apply map_eq. intros b. rewrite lookup_without. destruct (decide (b ∈ [a])) as [H|H].
  - apply list_elem_of_singleton in H as ->. by rewrite lookup_delete_eq.
  - rewrite lookup_delete_ne; [done|]. intros ->. apply H. by apply list_elem_of_singleton.
Qed.

Lemma without_insert {A} l a x (m : gmap Z A) : a ∈ l → without l (<[a := x]> m) = without l m.
Proof.
  intros Ha. apply map_eq. intros b. rewrite !lookup_without. destruct (decide (b ∈ l)); [done|].
  rewrite lookup_insert_ne; [done|]. intros ->. done.
Qed.

Lemma holds_same m m' p f :
  holds m p f → (∀ a, a ∈ addrs f → m' !! a = m !! a) → holds m' p f.
Proof.
  revert p. induction f as [|a i kids IHk rest IHr]; intros p; [done|]. cbn. intros (-> & Hi & Hk & Hr) Hs.
  split; [done|]. split; [rewrite Hs; [done|left]|]. split.
  - destruct (has cJSON_IsReference i); [done|]. apply IHk; [done|]. intros b Hb. apply Hs. right.
    apply elem_of_app. by left.
  - apply IHr; [done|]. intros b Hb. apply Hs. right. apply elem_of_app. by right.
Qed.

Lemma holds_in m p f a : holds m p f → a ∈ addrs f → is_Some (m !! a).
Proof.
  revert p. induction f as [|b i kids IHk rest IHr]; intros p; cbn; [intros _ H; inversion H|].
  intros (-> & Hi & Hk & Hr) Ha. apply elem_of_cons in Ha as [ -> |Ha]; [done|].
  apply elem_of_app in Ha as [Ha|Ha]; [|by eapply IHr].
  destruct (has cJSON_IsReference i); [subst kids; inversion Ha|]. by eapply IHk.
Qed.

Lemma forest_size m p f : holds m p f → NoDup (addrs f) → (List.length (addrs f) ≤ size m)%nat.
Proof.
  intros H Hn. rewrite <- (size_list_to_set (C := gset Z)) by done. rewrite <- size_dom. apply subseteq_size.
  intros a Ha. apply elem_of_list_to_set in Ha. apply elem_of_dom. by eapply holds_in.
Qed.

(** ** Deleting *)

Definition dropped (la ls : list Z) (h : heap) : heap :=
  mkHeap (without la (items h)) (without ls (strings h)) (brk h) (answers h).

Lemma dropped_nil h : dropped [] [] h = h.
Proof. unfold dropped. rewrite !without_nil. by destruct h. Qed.
Lemma dropped_twice la1 ls1 la2 ls2 h : dropped la2 ls2 (dropped la1 ls1 h) = dropped (la1 ++ la2) (ls1 ++ ls2) h.
Proof. unfold dropped. cbn. by rewrite !without_app. Qed.

Lemma delete_item_correct a i h :
  items h !! a = Some i → NoDup (own_strings i) → (∀ s, s ∈ own_strings i → is_Some (strings h !! s)) →
  delete_item a h = Some (dropped [a] (own_strings i) h).
Proof.
  intros Hi Hn Hs. unfold delete_item. rewrite Hi. cbn [mbind option_bind]. unfold own_strings in *.
  assert (H1 : ∃ h1 i1,
    (if negb (has cJSON_IsReference i) then
       match valuestring i with Some s => h ← free_string s h; upd a (set_valuestring None) h | None => Some h end
     else Some h) = Some h1 ∧ items h1 !! a = Some i1 ∧ type i1 = type i ∧ string i1 = string i ∧
    without [a] (items h1) = without [a] (items h) ∧
    strings h1 = without (if has cJSON_IsReference i then [] else olist (valuestring i)) (strings h) ∧
    brk h1 = brk h ∧ answers h1 = answers h).
  { assert (Hid : ∃ h1 i1, Some h = Some h1 ∧ items h1 !! a = Some i1 ∧ type i1 = type i ∧ string i1 = string i ∧
      without [a] (items h1) = without [a] (items h) ∧ strings h1 = without [] (strings h) ∧ brk h1 = brk h ∧
      answers h1 = answers h).
    { exists h, i. by rewrite without_nil. }
    destruct (has cJSON_IsReference i); [done|]. cbn [negb]. destruct (valuestring i) as [s|]; [|done].
    destruct (Hs s) as (l & El); [apply elem_of_app; left; left|].
    unfold free_string, upd. rewrite El. cbn. rewrite Hi. cbn. eexists _, _. split; [done|]. cbn.
    rewrite lookup_insert_eq, without_insert, without_one by left. done. }
  destruct H1 as (h1 & i1 & -> & Hi1 & Ht & Hstr & Hit & Hst & Hb & Ha). cbn [mbind option_bind].
  rewrite Hi1. cbn [mbind option_bind]. unfold has in *. rewrite Ht, Hstr.
  set (own := if negb (Z.land (type i) cJSON_IsReference =? 0) then [] else olist (valuestring i)) in *.
  set (const := negb (Z.land (type i) cJSON_StringIsConst =? 0)) in *.
  assert (Hend : ∀ h2, is_Some (items h2 !! a) → without [a] (items h2) = without [a] (items h) →
    strings h2 = without (own ++ if const then [] else olist (string i)) (strings h) → brk h2 = brk h →
    answers h2 = answers h →
    free_item a h2 = Some (dropped [a] (own ++ if const then [] else olist (string i)) h)).
  { intros h2 (i2 & E2) H1 H2 H3 H4. unfold free_item. rewrite E2. cbn. rewrite without_one, H1. unfold with_items, dropped.
    by rewrite H2, H3, H4. }
  destruct const; cbn [negb]; [apply Hend; try done; by rewrite app_nil_r|].
  destruct (string i) as [s|]; [|apply Hend; try done; by rewrite app_nil_r].
  apply NoDup_app in Hn as (_ & Hd & _). unfold free_string, upd.
  destruct (Hs s) as (l & El); [apply elem_of_app; right; left|].
  rewrite Hst, lookup_without. destruct (decide (s ∈ own)) as [Hin|_]; [exfalso; eapply Hd; [done|left]|].
  rewrite El. cbn [mbind option_bind items with_strings]. rewrite Hi1. cbn [mbind option_bind].
  apply Hend; cbn; [by rewrite lookup_insert_eq|by rewrite without_insert by left| |done|done].
  by rewrite without_one, without_app.
Qed.

Lemma holds_None m f : holds m None f → f = FNil.
Proof. by destruct f as [|a i kids rest]; [|intros (H & _)]. Qed.

(** The first item is deleted after its children. *)
Lemma delete_loop_correct fuel f h p :
  holds (items h) p f → NoDup (addrs f) → NoDup (strs f) → (∀ s, s ∈ strs f → is_Some (strings h !! s)) →
  (List.length (addrs f) ≤ fuel)%nat →
  ∃ la, Permutation la (addrs f) ∧ delete_loop fuel h p = Some (dropped la (strs f) h).
Proof.
  revert fuel h p. induction f as [|a i kids IHk rest IHr]; intros fuel h p; cbn [holds addrs strs].
  { intros -> _ _ _ _. exists []. rewrite dropped_nil. by destruct fuel. }
  intros (-> & Hi & Hk & Hr) Hna Hns Hs Hf. destruct fuel as [|fuel]; [cbn in Hf; lia|].
  cbn [List.length] in Hf. rewrite length_app in Hf.
  apply NoDup_cons in Hna as (Ha & Hna). apply NoDup_app in Hna as (Hnk & Hdis & Hnr).
  apply NoDup_app in Hns as (Hnsk & Hsd1 & Hns). apply NoDup_app in Hns as (Hnso & Hsd2 & Hnsr).
  rewrite elem_of_app in Ha. cbn [delete_loop]. rewrite Hi. cbn [mbind option_bind].
  assert (H1 : ∃ la, Permutation la (addrs kids) ∧
    (if negb (has cJSON_IsReference i) && bool_decide (child i ≠ None) then delete_loop fuel h (child i) else Some h)
      = Some (dropped la (strs kids) h)).
  { destruct (has cJSON_IsReference i); cbn [negb andb].
    { subst kids. exists []. by rewrite dropped_nil. }
    case_bool_decide as Hc.
    - apply IHk; [done|done|done| |lia]. intros s Hin. apply Hs. apply elem_of_app. by left.
    - rewrite Hc in Hk. apply holds_None in Hk as ->. exists []. by rewrite dropped_nil. }
  destruct H1 as (lk & Hlk & ->). cbn [mbind option_bind].
  assert (Hik : items (dropped lk (strs kids) h) !! a = Some i).
  { cbn. rewrite lookup_without. destruct (decide (a ∈ lk)) as [Hin|]; [|done]. rewrite Hlk in Hin. tauto. }
  rewrite (delete_item_correct a i); [|done|done|].
  2: { intros s Hin. cbn. rewrite lookup_without. destruct (decide (s ∈ strs kids)) as [Hin'|].
       - exfalso. eapply Hsd1; [done|]. apply elem_of_app. by left.
       - apply Hs. rewrite !elem_of_app. tauto. }
  cbn [mbind option_bind]. rewrite dropped_twice.
  destruct (IHr fuel (dropped (lk ++ [a]) (strs kids ++ own_strings i) h) (next i)) as (lr & Hlr & E);
    [|done|done| |lia|].
  - apply (holds_same (items h)); [done|]. intros b Hb. cbn. rewrite lookup_without.
    destruct (decide (b ∈ lk ++ [a])) as [Hin|]; [|done]. rewrite elem_of_app, list_elem_of_singleton, Hlk in Hin.
    destruct Hin as [Hin| ->]; [by destruct (Hdis b Hin)|tauto].
  - intros s Hin. cbn. rewrite lookup_without. destruct (decide (s ∈ strs kids ++ own_strings i)) as [Hin'|].
    + exfalso. apply elem_of_app in Hin' as [H'|H']; [apply (Hsd1 s H'); apply elem_of_app; by right|by apply (Hsd2 s H')].
    + apply Hs. rewrite !elem_of_app. tauto.
  - exists ((lk ++ [a]) ++ lr). rewrite E, dropped_twice, <- (app_assoc (strs kids)). split; [|done].
    rewrite Hlk, Hlr, <- app_assoc. symmetry. apply Permutation_middle.
Qed.

Lemma without_perm {A} l1 l2 (m : gmap Z A) : Permutation l1 l2 → without l1 m = without l2 m.
Proof.
  intros Hp. apply map_eq. intros a. rewrite !lookup_without.
  assert (a ∈ l1 ↔ a ∈ l2) by (by rewrite Hp). repeat destruct (decide _); done || tauto.
Qed.

Lemma cJSON_Delete_correct f h p :
  holds (items h) p f → NoDup (addrs f) → NoDup (strs f) → (∀ s, s ∈ strs f → is_Some (strings h !! s)) →
  cJSON_Delete h p = Some (dropped (addrs f) (strs f) h).
Proof.
  intros Hh Hna Hns Hs. unfold cJSON_Delete. pose proof (forest_size _ _ _ Hh Hna).
  destruct (delete_loop_correct (S (size (items h))) f h p Hh Hna Hns Hs) as (la & Hp & ->); [lia|].
  unfold dropped. by rewrite (without_perm la (addrs f)).
Qed.

(** ** Children of an item *)

(** The item before the [k]-th of a list, in the circular sense that [prev] has. *)
Definition before (l : list Z) (k : nat) : option Z := match k with O => last l | S k => l !! k end.

Definition linked (m : gmap Z cJSON) (l : list Z) : Prop :=
  ∀ k x, l !! k = Some x → ∃ i, m !! x = Some i ∧ next i = l !! S k ∧ prev i = before l k.

(** The children of [arr] are the items of [l], in this order, doubly linked with the
    first item's [prev] at the last one. *)
Definition is_array (m : gmap Z cJSON) (arr : Z) (l : list Z) : Prop :=
  (∃ ai, m !! arr = Some ai ∧ child ai = head l) ∧ arr ∉ l ∧ NoDup l ∧ linked m l.

(** The items are the same but for their links, and the child of [arr]. *)
Definition unlinked (i : cJSON) : cJSON := set_next None (set_prev None i).
Definition same_data (arr : Z) (m m' : gmap Z cJSON) : Prop :=
  ∀ x, x ≠ arr → unlinked <$> m' !! x = unlinked <$> m !! x.

Lemma upd_alter a f h : is_Some (items h !! a) → upd a f h = Some (with_items (alter f a (items h)) h).
Proof.
  intros (i & E). unfold upd. rewrite E. cbn. do 2 f_equal. apply map_eq. intros b.
  destruct (decide (a = b)) as [ <- |Hne].
  - by rewrite lookup_insert_eq, lookup_alter_eq, E.
  - by rewrite lookup_insert_ne, lookup_alter_ne.
Qed.

Lemma alter_some {A} (f : A → A) a b (m : gmap Z A) : is_Some (alter f a m !! b) ↔ is_Some (m !! b).
Proof.
  destruct (decide (a = b)) as [ <- |Hne]; [|by rewrite lookup_alter_ne].
  rewrite lookup_alter_eq. by rewrite fmap_is_Some.
Qed.

(** An updated item, by its address. *)
Lemma alter_at {A} (f : A → A) a b (m : gmap Z A) :
  alter f a m !! b = if b =? a then f <$> m !! b else m !! b.
Proof.
  destruct (Z.eqb_spec b a) as [ -> |Hne]; [by rewrite lookup_alter_eq|by rewrite lookup_alter_ne].
Qed.

Lemma index_eq (l : list Z) i j x y : NoDup l → l !! i = Some x → l !! j = Some y → (x =? y) = bool_decide (i = j).
Proof.
  intros Hn Hi Hj. destruct (Z.eqb_spec x y) as [ -> |Hne].
  - symmetry. apply bool_decide_eq_true_2. by eapply NoDup_lookup.
  - symmetry. apply bool_decide_eq_false_2. intros ->. congruence.
Qed.

Lemma not_index (l : list Z) i x y : y ∉ l → l !! i = Some x → (x =? y) = false.
Proof. intros Hy Hi. apply Z.eqb_neq. intros ->. apply Hy. by eapply list_elem_of_lookup_2. Qed.

Lemma same_data_refl arr m : same_data arr m m.
Proof. done. Qed.
Lemma same_data_alter arr m m' a f :
  same_data arr m m' → (a = arr ∨ ∀ i, unlinked (f i) = unlinked i) → same_data arr m (alter f a m').
Proof.
  intros H Hf x Hx. rewrite alter_at. destruct (Z.eqb_spec x a) as [ -> |]; [|by apply H].
  destruct Hf as [ -> |Hf]; [done|]. rewrite <- (H a Hx). destruct (m' !! a); [|done]. cbn. by rewrite Hf.
Qed.

Lemma last_index (l : list Z) : last l = l !! (List.length l - 1)%nat.
Proof. rewrite last_lookup. f_equal. lia. Qed.

(** ** Adding at the end *)

Lemma add_empty h arr x :
  is_array (items h) arr [] → x ≠ arr → is_Some (items h !! x) →
  ∃ m, add_item_to_array h (Some arr) (Some x) = Some (true, with_items m h) ∧ is_array m arr [x] ∧
    same_data arr (items h) m.
Proof.
  intros ((ai & Ha & Hc) & _ & _ & _) Hx Hxs. cbn [add_item_to_array]. destruct (Z.eqb_spec arr x); [done|].
  rewrite Ha. cbn in Hc. cbn [mbind option_bind]. rewrite Hc. rewrite upd_alter by done. cbn [mbind option_bind].
  rewrite upd_alter by (cbn; by apply alter_some). cbn [mbind option_bind].
  rewrite upd_alter by (cbn; by do 2 apply alter_some). cbn [mbind option_bind with_items items].
  eexists. split; [done|]. split.
  - destruct Hxs as (xi & Hxi). split; [|split; [|split]].
    + eexists. rewrite !alter_at, Ha. destruct (Z.eqb_spec arr x); [done|]. rewrite Z.eqb_refl. done.
    + intros H. apply list_elem_of_singleton in H. done.
    + apply NoDup_singleton.
    + intros [|k] y; [|done]. cbn. intros [= <-]. rewrite !alter_at, Z.eqb_refl, Hxi.
      destruct (Z.eqb_spec x arr); [done|]. cbn. eexists. done.
  - do 3 (apply same_data_alter; [|auto]). done.
Qed.

Lemma add_nonempty h arr l x xi :
  is_array (items h) arr l → l ≠ [] → x ≠ arr → x ∉ l → items h !! x = Some xi → next xi = None →
  ∃ m, add_item_to_array h (Some arr) (Some x) = Some (true, with_items m h) ∧ is_array m arr (l ++ [x]) ∧
    same_data arr (items h) m.
Proof.
  intros ((ai & Ha & Hc) & Harr & Hn & Hl) Hne Hx Hxl Hxi Hnx. destruct l as [|c l]; [done|]. cbn in Hc.
  set (n := List.length (c :: l)) in *. assert (Hn1 : (0 < n)%nat) by (cbn; lia).
  cbn [add_item_to_array]. destruct (Z.eqb_spec arr x); [done|].
  rewrite Ha. cbn [mbind option_bind]. rewrite Hc.
  destruct (Hl 0%nat c eq_refl) as (ci & Hci & Hnci & Hpci). cbn [before] in Hpci.
  rewrite Hci. cbn [mbind option_bind]. rewrite Hpci.
  destruct (lookup_lt_is_Some_2 (c :: l) (n - 1)) as (e & He); [lia|].
  rewrite last_index. fold n. rewrite He. destruct (Hl _ _ He) as (ei & Hei & _ & _).
  unfold suffix_object. rewrite upd_alter by done. cbn [mbind option_bind].
  rewrite upd_alter by (cbn; by apply alter_some). cbn [mbind option_bind with_items items].
  assert (Ha' : alter (set_prev (Some e)) x (alter (set_next (Some x)) e (items h)) !! arr = Some ai).
  { rewrite !alter_at. destruct (Z.eqb_spec arr x); [done|].
    destruct (Z.eqb_spec arr e) as [ -> |]; [|done]. exfalso. apply Harr. by eapply list_elem_of_lookup_2. }
  rewrite Ha'. cbn [mbind option_bind]. rewrite Hc. cbn [mbind option_bind].
  rewrite upd_alter by (cbn; by do 2 apply alter_some). cbn [mbind option_bind with_items items].
  eexists. split; [done|]. split.
  - split; [|split; [|split]].
    + exists ai. rewrite alter_at, (proj2 (Z.eqb_neq arr c)); [done|]. intros ->. apply Harr. left.
    + rewrite elem_of_app, list_elem_of_singleton. intros [?| ->]; done.
    + apply NoDup_app. split; [done|]. split; [|apply NoDup_singleton].
      intros y Hy ->%list_elem_of_singleton. done.
    + intros k y Hk. destruct (decide (k < n)%nat) as [Hkn|Hkn].
      * rewrite lookup_app_l in Hk by done. destruct (Hl _ _ Hk) as (i & Hi & Hni & Hpi).
        rewrite !alter_at, (index_eq _ _ 0 _ c Hn Hk eq_refl), (not_index _ _ _ _ Hxl Hk),
          (index_eq _ _ _ _ _ Hn Hk He), Hi. cbn [fmap option_fmap option_map].
        assert (Hnext : next (if bool_decide (k = n - 1)%nat then set_next (Some x) i else i) = ((c :: l) ++ [x]) !! S k).
        { case_bool_decide as Hk1.
          - replace (S k) with n by lia. unfold n. by rewrite list_lookup_middle.
          - rewrite lookup_app_l by (unfold n in *; lia). done. }
        assert (Hprev : before ((c :: l) ++ [x]) k = if bool_decide (k = 0%nat) then Some x else prev i).
        { destruct (bool_decide_reflect (k = 0%nat)) as [ -> |Hk0]; [apply last_snoc|]. destruct k as [|k]; [done|].
          rewrite Hpi. apply lookup_app_l. unfold n in *. lia. }
        rewrite <- Hnext, Hprev. destruct (bool_decide (k = 0%nat)), (bool_decide (k = (n - 1)%nat)); by eexists.
      * rewrite lookup_app_r in Hk by (unfold n in *; lia). destruct (k - List.length (c :: l))%nat eqn:E; [|done]. injection Hk as <-.
        assert (k = n) as -> by (unfold n in *; lia).
        rewrite !alter_at, Z.eqb_refl, (Z.eqb_sym x c), (not_index (c :: l) 0 c x Hxl eq_refl), (Z.eqb_sym x e),
          (not_index _ _ _ _ Hxl He), Hxi.
        eexists. split; [done|]. cbn [fmap option_fmap option_map set_prev next prev]. split.
        -- rewrite Hnx. symmetry. apply lookup_ge_None_2. rewrite length_app. unfold n. cbn. lia.
        -- destruct n as [|n'] eqn:En; [lia|]. cbn [before]. rewrite lookup_app_l by (fold n; lia).
           by replace (S n' - 1)%nat with n' in He by lia.
  - do 3 (apply same_data_alter; [|auto]). done.
Qed.

Lemma add_spec h arr l x xi :
  is_array (items h) arr l → x ≠ arr → x ∉ l → items h !! x = Some xi → next xi = None →
  ∃ m, add_item_to_array h (Some arr) (Some x) = Some (true, with_items m h) ∧ is_array m arr (l ++ [x]) ∧
    same_data arr (items h) m.
Proof.
  intros Ha Hx Hxl Hxi Hn. destruct l as [|c l]; [by apply add_empty; eauto|]. by eapply add_nonempty; eauto.
Qed.

(** ** Looking up *)

Lemma item_walk_spec h l k j :
  linked (items h) l → item_walk k h (l !! j) = Some (l !! (j + k)%nat).
Proof.
  intros Hl. revert j. induction k as [|k IH]; intros j; cbn [item_walk].
  - rewrite Nat.add_0_r. by destruct (l !! j).
  - destruct (l !! j) as [x|] eqn:E.
    + destruct (Hl _ _ E) as (i & -> & Hn & _). cbn [mbind option_bind]. rewrite Hn, IH. do 2 f_equal. lia.
    + f_equal. symmetry. apply lookup_ge_None_2. apply lookup_ge_None_1 in E. lia.
Qed.

Lemma get_array_item_spec h arr l k :
  is_array (items h) arr l → get_array_item h (Some arr) (Z.of_nat k) = Some (l !! k).
Proof.
  intros ((ai & Ha & Hc) & _ & _ & Hl). cbn [get_array_item]. rewrite Ha. cbn [mbind option_bind].
  rewrite Nat2Z.id, Hc. replace (head l) with (l !! 0%nat) by (by destruct l). by apply (item_walk_spec h l k 0).
Qed.

Lemma size_loop_spec fuel h l j n :
  linked (items h) l → (List.length l - j < fuel)%nat → (j ≤ List.length l)%nat →
  size_loop fuel h (l !! j) n = Some (n + Z.of_nat (List.length l - j)).
Proof.
  intros Hl. revert j n. induction fuel as [|fuel IH]; intros j n Hf Hj; [lia|]. cbn [size_loop].
  destruct (l !! j) as [x|] eqn:E.
  - destruct (Hl _ _ E) as (i & -> & Hn & _). cbn [mbind option_bind]. apply lookup_lt_Some in E.
    rewrite Hn, IH by lia. f_equal. lia.
  - apply lookup_ge_None_1 in E. f_equal. lia.
Qed.

Lemma array_size h arr l : is_array (items h) arr l → (List.length l ≤ size (items h))%nat.
Proof.
  intros (_ & _ & Hn & Hl). rewrite <- (size_list_to_set (C := gset Z)) by done. rewrite <- size_dom. apply subseteq_size.
  intros a Ha. apply elem_of_list_to_set, list_elem_of_lookup in Ha as (k & Hk). apply elem_of_dom.
  destruct (Hl _ _ Hk) as (i & -> & _). done.
Qed.

Lemma GetArraySize_spec h arr l :
  is_array (items h) arr l → cJSON_GetArraySize h (Some arr) = Some (i32 (Z.of_nat (List.length l))).
Proof.
  intros Ha. pose proof (array_size _ _ _ Ha). destruct Ha as ((ai & Ha & Hc) & _ & _ & Hl).
  cbn [cJSON_GetArraySize]. rewrite Ha. cbn [mbind option_bind]. rewrite Hc.
  replace (head l) with (l !! 0%nat) by (by destruct l). rewrite size_loop_spec by (done || lia).
  cbn [mbind option_bind]. do 2 f_equal. lia.
Qed.

(** ** Detaching *)

(** The links of the items that stay when the [k]-th is taken out. *)
Lemma delete_links (l : list Z) k j x y :
  l !! k = Some x → delete k l !! j = Some y →
  ∃ j0, l !! j0 = Some y ∧ j0 ≠ k ∧
    delete k l !! S j = (if bool_decide (S j0 = k) then l !! S k else l !! S j0) ∧
    before (delete k l) j =
      (if bool_decide (j0 = S k) || (bool_decide (S k = List.length l) && bool_decide (j0 = 0%nat)) then before l k
       else before l j0).
Proof.
  intros Hk Hj. pose proof (lookup_lt_Some _ _ _ Hk) as Hkl. pose proof (lookup_lt_Some _ _ _ Hj) as Hjl.
  rewrite length_delete in Hjl by done.
  assert (Hlast : last (delete k l) = if bool_decide (S k = List.length l) then before l k else last l).
  { rewrite !last_index, length_delete by done. case_bool_decide as Hc.
    - rewrite list_lookup_delete_lt by lia. destruct k as [|k]; [lia|]. cbn [before]. f_equal. lia.
    - rewrite list_lookup_delete_ge by lia. f_equal. lia. }
  destruct (decide (j < k)%nat) as [Hlt|Hge].
  - rewrite list_lookup_delete_lt in Hj by done. exists j. split; [done|]. split; [lia|]. split.
    + destruct (bool_decide_reflect (S j = k)) as [ <- |]; [by rewrite list_lookup_delete_ge by lia|].
      by rewrite list_lookup_delete_lt by lia.
    + rewrite (bool_decide_eq_false_2 (j = S k)) by lia. cbn [orb]. destruct j as [|j]; cbn [before].
      * rewrite Hlast. rewrite (bool_decide_eq_true_2 (0 = 0)%nat) by done. by rewrite andb_true_r.
      * rewrite (bool_decide_eq_false_2 (S j = 0)%nat), andb_false_r by lia. by rewrite list_lookup_delete_lt by lia.
  - rewrite list_lookup_delete_ge in Hj by lia. exists (S j). split; [done|]. split; [lia|]. split.
    + rewrite bool_decide_eq_false_2 by lia. by rewrite list_lookup_delete_ge by lia.
    + apply lookup_lt_Some in Hj. rewrite (bool_decide_eq_false_2 (S j = 0)%nat), andb_false_r, orb_false_r by lia.
      destruct (bool_decide_reflect (S j = S k)) as [Hs|Hs].
      * injection Hs as ->. destruct k as [|k]; cbn [before].
        -- rewrite Hlast, bool_decide_eq_false_2 by lia. done.
        -- by rewrite list_lookup_delete_lt by lia.
      * destruct j as [|j]; [lia|]. cbn [before]. by rewrite list_lookup_delete_ge by lia.
Qed.

Definition alter_opt {A} (f : A → A) (o : option Z) (m : gmap Z A) : gmap Z A :=
  match o with Some a => alter f a m | None => m end.

(** What detaching the [k]-th item, linked as in [it], does to the items. *)
Definition detached (arr : Z) (l : list Z) (k : nat) (x : Z) (nxt prv : option Z) (m : gmap Z cJSON) : gmap Z cJSON :=
  alter (set_next None) x (alter (set_prev None) x
    (let m := alter_opt (set_prev prv) (l !! S k) (match k with O => m | S k => alter_opt (set_next nxt) (l !! k) m end) in
     match k with
     | O => alter (set_child nxt) arr m
     | S _ => if bool_decide (S k = List.length l) then alter_opt (set_prev prv) (head l) m else m
     end)).

Lemma detach_steps h arr l k x :
  is_array (items h) arr l → l !! k = Some x →
  cJSON_DetachItemViaPointer h (Some arr) (Some x) =
    Some (Some x, with_items (detached arr l k x (l !! S k) (before l k) (items h)) h).
Proof.
  intros ((ai & Ha & Hc) & Harr & Hn & Hl) Hk. pose proof (lookup_lt_Some _ _ _ Hk) as Hkl.
  destruct (Hl _ _ Hk) as (it & Hit & Hnx & Hpv). cbn [cJSON_DetachItemViaPointer].
  rewrite Ha. cbn [mbind option_bind]. rewrite Hit. cbn [mbind option_bind].
  assert (Hxa : (x =? arr) = false) by (eapply not_index; done).
  assert (Hhd : bool_decide (child ai = Some x) = bool_decide (k = 0%nat)).
  { rewrite Hc. destruct l as [|c l]; [done|]. cbn [head]. apply bool_decide_ext. split.
    - intros [= ->]. by eapply NoDup_lookup.
    - intros ->. by injection Hk as ->. }
  assert (Hin : ∀ j y, l !! j = Some y → is_Some (items h !! y)) by (intros j y Hy; destruct (Hl _ _ Hy) as (i & -> & _); done).
  assert (Hp : is_Some (prev it)).
  { rewrite Hpv. destruct k as [|k]; cbn [before]; [|apply lookup_lt_is_Some; lia].
    rewrite last_index. apply lookup_lt_is_Some. lia. }
  destruct Hp as (pv & Hp). rewrite Hhd, Hp. rewrite (bool_decide_eq_false_2 (Some pv = None)) by done.
  rewrite andb_false_r. cbn [mbind option_bind]. rewrite Hp in Hpv. rewrite <- Hpv.
  assert (Hself : ∀ (f : cJSON → cJSON) j y, l !! j = Some y → j ≠ k → ∀ m : gmap Z cJSON, alter f y m !! x = m !! x).
  { intros f j y Hy Hj m. rewrite alter_at, (index_eq _ _ _ _ _ Hn Hk Hy). by rewrite bool_decide_eq_false_2 by congruence. }
  assert (Hparent : ∀ (f : cJSON → cJSON) j y, l !! j = Some y → ∀ m : gmap Z cJSON, alter f y m !! arr = m !! arr).
  { intros f j y Hy m. rewrite alter_at, Z.eqb_sym. by rewrite (not_index _ _ _ _ Harr Hy). }
  (* the first step *)
  assert (H1 : ∃ m1, (if negb (bool_decide (k = 0%nat)) then upd pv (set_next (next it)) h else Some h) = Some (with_items m1 h) ∧
    m1 = match k with O => items h | S k' => alter_opt (set_next (l !! S k)) (l !! k') (items h) end ∧
    m1 !! x = Some it ∧ m1 !! arr = Some ai ∧ (∀ j y, l !! j = Some y → is_Some (m1 !! y))).
  { rewrite Hnx. destruct k as [|k]; cbn [before] in Hpv.
    - exists (items h). split; [by destruct h|]. done.
    - rewrite bool_decide_eq_false_2 by done. cbn [negb]. rewrite <- Hpv. cbn [alter_opt].
      rewrite upd_alter by (symmetry in Hpv; eauto). eexists. split; [done|]. split; [done|].
      rewrite (Hself _ k) by (done || lia). rewrite (Hparent _ k) by done. split; [done|]. split; [done|].
      intros j y Hy. apply alter_some. eauto. }
  destruct H1 as (m1 & -> & Em1 & Hx1 & Ha1 & Hs1). cbn [mbind option_bind with_items items]. rewrite Hx1.
  cbn [mbind option_bind].
  assert (H2 : ∃ m2, match next it with Some n => upd n (set_prev (prev it)) (with_items m1 h) | None => Some (with_items m1 h) end
      = Some (with_items m2 h) ∧ m2 = alter_opt (set_prev (Some pv)) (l !! S k) m1 ∧
    m2 !! x = Some it ∧ m2 !! arr = Some ai ∧ (∀ j y, l !! j = Some y → is_Some (m2 !! y))).
  { rewrite Hnx, Hp. destruct (l !! S k) as [s|] eqn:Es; cbn [alter_opt].
    - rewrite upd_alter by (cbn; eauto). eexists. split; [done|]. split; [done|].
      rewrite (Hself _ (S k)) by (done || lia). rewrite (Hparent _ (S k)) by done. split; [done|]. split; [done|].
      intros j y Hy. apply alter_some. eauto.
    - by exists m1. }
  destruct H2 as (m2 & -> & Em2 & Hx2 & Ha2 & Hs2). cbn [mbind option_bind with_items items]. rewrite Ha2.
  cbn [mbind option_bind]. rewrite Hx2. cbn [mbind option_bind]. rewrite Hhd, Hc, Hnx, Hp.
  assert (Hend : ∀ m3 : gmap Z cJSON, is_Some (m3 !! x) →
    (h ← upd x (set_prev None) (with_items m3 h); h ← upd x (set_next None) h; Some (Some x, h)) =
    Some (Some x, with_items (alter (set_next None) x (alter (set_prev None) x m3)) h)).
  { intros m3 H3. rewrite upd_alter by done. cbn [mbind option_bind]. rewrite upd_alter by (cbn; by apply alter_some). done. }
  unfold detached. rewrite <- Em1, <- Em2. destruct k as [|k].
  - rewrite bool_decide_eq_true_2 by done. rewrite upd_alter by (cbn; eauto). cbn [mbind option_bind with_items items].
    apply Hend. rewrite alter_at, Hxa. eauto.
  - rewrite (bool_decide_eq_false_2 (S k = 0%nat)) by done.
    assert (Hb : bool_decide (l !! S (S k) = None) = bool_decide (S (S k) = List.length l)).
    { apply bool_decide_ext. rewrite lookup_ge_None. lia. }
    rewrite Hb. destruct (bool_decide (S (S k) = List.length l)).
    + destruct l as [|c l]; [done|]. cbn [head mbind option_bind alter_opt].
      rewrite upd_alter by (cbn; by apply (Hs2 0%nat)). cbn [mbind option_bind with_items items]. apply Hend.
      rewrite (Hself _ 0%nat) by done. eauto.
    + cbn [mbind option_bind]. apply Hend. eauto.
Qed.

Lemma alter_opt_at {A} (f : A → A) o b (m : gmap Z A) :
  alter_opt f o m !! b = if bool_decide (o = Some b) then f <$> m !! b else m !! b.
Proof.
  destruct o as [a|]; cbn [alter_opt]; [|by rewrite bool_decide_eq_false_2].
  rewrite alter_at. destruct (Z.eqb_spec b a) as [ -> |Hne].
  - by rewrite bool_decide_eq_true_2.
  - rewrite bool_decide_eq_false_2; [done|congruence].
Qed.

Lemma index_decide (l : list Z) i j y : NoDup l → l !! j = Some y → bool_decide (l !! i = Some y) = bool_decide (j = i).
Proof.
  intros Hn Hj. apply bool_decide_ext. split; [|by intros <-]. intros Hi. by eapply NoDup_lookup.
Qed.

Lemma head_decide (l : list Z) j y : NoDup l → l !! j = Some y → bool_decide (head l = Some y) = bool_decide (j = 0%nat).
Proof. intros Hn Hj. replace (head l) with (l !! 0%nat) by (by destruct l). by apply index_decide. Qed.

(** An item that stays, after its neighbour has been taken out. *)
Lemma detached_at arr l k x m j y i :
  arr ∉ l → NoDup l → l !! k = Some x → l !! j = Some y → j ≠ k → m !! y = Some i →
  ∃ i', detached arr l k x (l !! S k) (before l k) m !! y = Some i' ∧
    next i' = (if bool_decide (S j = k) then l !! S k else next i) ∧
    prev i' = (if bool_decide (j = S k) || (bool_decide (S k = List.length l) && bool_decide (j = 0%nat))
               then before l k else prev i).
Proof.
  intros Harr Hn Hk Hj Hne Hi. unfold detached.
  assert (Hyx : (y =? x) = false) by (rewrite (index_eq _ _ _ _ _ Hn Hj Hk); by apply bool_decide_eq_false_2).
  assert (Hya : (y =? arr) = false) by (eapply not_index; done).
  rewrite !alter_at, Hyx. cbv zeta.
  assert (H1 : ∃ i1, match k with O => m | S k' => alter_opt (set_next (l !! S k)) (l !! k') m end !! y = Some i1 ∧
    next i1 = (if bool_decide (S j = k) then l !! S k else next i) ∧ prev i1 = prev i).
  { destruct k as [|k].
    - exists i. rewrite bool_decide_eq_false_2 by lia. done.
    - rewrite alter_opt_at, (index_decide _ _ _ _ Hn Hj), Hi.
      rewrite (bool_decide_ext (S j = S k) (j = k)) by lia. destruct (bool_decide (j = k)); by eexists. }
  set (m1 := match k with O => m | S _ => _ end) in *. destruct H1 as (i1 & Hi1 & Hn1 & Hp1).
  assert (H2 : ∃ i2, alter_opt (set_prev (before l k)) (l !! S k) m1 !! y = Some i2 ∧ next i2 = next i1 ∧
    prev i2 = if bool_decide (j = S k) then before l k else prev i1).
  { rewrite alter_opt_at, (index_decide _ _ _ _ Hn Hj), Hi1. destruct (bool_decide (j = S k)); by eexists. }
  set (m2 := alter_opt (set_prev (before l k)) (l !! S k) m1) in *. destruct H2 as (i2 & Hi2 & Hn2 & Hp2).
  pose proof (lookup_lt_Some _ _ _ Hj). pose proof (lookup_lt_Some _ _ _ Hk). destruct k as [|k].
  - rewrite alter_at, Hya, Hi2. exists i2. split; [done|]. split; [by rewrite Hn2|]. rewrite Hp2, Hp1.
    rewrite (bool_decide_eq_false_2 (j = 0%nat)), andb_false_r, orb_false_r by lia. done.
  - destruct (bool_decide (S (S k) = List.length l)); cbn [andb].
    + rewrite alter_opt_at, (head_decide _ _ _ Hn Hj), Hi2. destruct (bool_decide (j = 0%nat)); rewrite ?orb_true_r, ?orb_false_r.
      * eexists. split; [done|]. cbn. by rewrite Hn2.
      * eexists. split; [done|]. by rewrite Hn2, Hp2, Hp1.
    + rewrite orb_false_r. exists i2. split; [done|]. by rewrite Hn2, Hp2, Hp1.
Qed.

Lemma detached_parent arr l k x nxt prv m ai :
  arr ∉ l → l !! k = Some x → m !! arr = Some ai →
  detached arr l k x nxt prv m !! arr = Some (match k with O => set_child nxt ai | S _ => ai end).
Proof.
  intros Harr Hk Ha. unfold detached. assert (Hax : (arr =? x) = false) by (rewrite Z.eqb_sym; by eapply not_index).
  assert (Ho : ∀ o, o = head l ∨ (∃ j, o = l !! j) → bool_decide (o = Some arr) = false).
  { intros o Ho. apply bool_decide_eq_false_2. intros ->. apply Harr. destruct Ho as [Ho|[j Ho]].
    - destruct l; [done|]. injection Ho as <-. left.
    - eapply list_elem_of_lookup_2. by symmetry. }
  rewrite !alter_at, Hax. destruct k as [|k].
  - rewrite alter_at, Z.eqb_refl, alter_opt_at, Ho by eauto. by rewrite Ha.
  - destruct (bool_decide _); rewrite ?alter_opt_at, ?Ho by eauto; done.
Qed.

Lemma detached_self arr l k x nxt prv m i :
  m !! x = Some i → ∃ i', detached arr l k x nxt prv m !! x = Some i' ∧ next i' = None ∧ prev i' = None.
Proof.
  intros Hi. assert (Hend : ∀ m3 : gmap Z cJSON, is_Some (m3 !! x) →
    ∃ i', alter (set_next None) x (alter (set_prev None) x m3) !! x = Some i' ∧ next i' = None ∧ prev i' = None).
  { intros m3 (i3 & H3). rewrite !alter_at, Z.eqb_refl, H3. by eexists. }
  assert (Ho : ∀ f o (m' : gmap Z cJSON), is_Some (m' !! x) → is_Some (alter_opt f o m' !! x)).
  { intros f [a|] m' H; [by apply alter_some|done]. }
  unfold detached. apply Hend. destruct k as [|k]; [apply alter_some|destruct (bool_decide _)]; repeat apply Ho; done.
Qed.

Lemma detached_data arr l k x nxt prv m : same_data arr m (detached arr l k x nxt prv m).
Proof.
  assert (Ho : ∀ o m' f, same_data arr m m' → (∀ i, unlinked (f i) = unlinked i) → same_data arr m (alter_opt f o m')).
  { intros [a|] m' f H1 H2; [|done]. apply same_data_alter; auto. }
  unfold detached. do 2 (apply same_data_alter; [|auto]). destruct k as [|k].
  - apply same_data_alter; [|auto]. by apply Ho.
  - destruct (bool_decide _); repeat apply Ho; done.
Qed.

Lemma detach_spec h arr l k x :
  is_array (items h) arr l → l !! k = Some x →
  ∃ m, cJSON_DetachItemViaPointer h (Some arr) (Some x) = Some (Some x, with_items m h) ∧
    is_array m arr (delete k l) ∧ same_data arr (items h) m ∧
    (∃ i, m !! x = Some i ∧ next i = None ∧ prev i = None).
Proof.
  intros Hia Hk. rewrite (detach_steps _ _ _ _ _ Hia Hk). eexists. split; [done|].
  destruct Hia as ((ai & Ha & Hc) & Harr & Hn & Hl). destruct (Hl _ _ Hk) as (it & Hit & _).
  split; [|split; [apply detached_data|by eapply detached_self]]. split; [|split; [|split]].
  - eexists. rewrite (detached_parent _ _ _ _ _ _ _ ai) by done. split; [done|].
    destruct l as [|c l]; [done|]. destruct k as [|k]; [by destruct l|]. done.
  - intros (j & Hj)%list_elem_of_lookup. destruct (delete_links l k j x arr Hk Hj) as (j0 & Hj0 & _).
    apply Harr. by eapply list_elem_of_lookup_2.
  - eapply sublist_NoDup; [exact Hn|]. apply sublist_delete.
  - intros j y Hj. destruct (delete_links l k j x y Hk Hj) as (j0 & Hj0 & Hne & -> & ->).
    destruct (Hl _ _ Hj0) as (i & Hi & Hni & Hpi).
    destruct (detached_at arr l k x (items h) j0 y i Harr Hn Hk Hj0 Hne Hi) as (i' & E & Hn' & Hp').
    exists i'. rewrite Hn', Hp', Hni, Hpi. done.
Qed.

(** ** Inserting *)

Lemma insert_links (l : list Z) k x j y :
  (k < List.length l)%nat → (take k l ++ x :: drop k l) !! j = Some y →
  let l' := take k l ++ x :: drop k l in
  (j = k ∧ y = x ∧ l' !! S j = l !! k ∧ before l' j = before l k) ∨
  (∃ j0, l !! j0 = Some y ∧ l' !! S j = (if bool_decide (S j0 = k) then Some x else l !! S j0) ∧
     before l' j = (if bool_decide (j0 = k) then Some x else before l j0)).
Proof.
  intros Hk Hj. cbv zeta. set (l' := take k l ++ x :: drop k l) in *.
  assert (Ht : List.length (take k l) = k) by (rewrite length_take; lia).
  assert (Hlt : ∀ i, (i < k)%nat → l' !! i = l !! i).
  { intros i Hi. unfold l'. rewrite lookup_app_l by lia. by rewrite lookup_take_lt. }
  assert (Hat : l' !! k = Some x) by (unfold l'; rewrite <- Ht at 3; by rewrite list_lookup_middle).
  assert (Hgt : ∀ i, (k ≤ i)%nat → l' !! S i = l !! i).
  { intros i Hi. unfold l'. rewrite lookup_app_r, Ht by lia. replace (S i - k)%nat with (S (i - k)) by lia.
    change ((x :: drop k l) !! S (i - k)) with (drop k l !! (i - k)%nat). rewrite lookup_drop. f_equal. lia. }
  assert (Hlast : last l' = last l).
  { rewrite !last_index. replace (List.length l' - 1)%nat with (S (List.length l - 1)); [by rewrite Hgt by lia|].
    unfold l'. rewrite length_app, Ht. cbn [List.length]. rewrite length_drop. lia. }
  destruct (lt_eq_lt_dec j k) as [[Hc| -> ]|Hc].
  - right. rewrite Hlt in Hj by done. exists j. split; [done|]. split.
    + destruct (bool_decide_reflect (S j = k)) as [ <- |]; [done|]. by rewrite Hlt by lia.
    + rewrite bool_decide_eq_false_2 by lia. destruct j as [|j]; cbn [before]; [done|]. by rewrite Hlt by lia.
  - left. rewrite Hat in Hj. injection Hj as <-. split; [done|]. split; [done|]. split; [by apply Hgt|].
    destruct k as [|k]; cbn [before]; [done|]. by rewrite Hlt by lia.
  - right. destruct j as [|j]; [lia|]. rewrite Hgt in Hj by lia. exists j. split; [done|]. split.
    + rewrite bool_decide_eq_false_2 by lia. by rewrite Hgt by lia.
    + cbn [before]. destruct (bool_decide_reflect (j = k)) as [ -> |]; [done|].
      destruct j as [|j]; [lia|]. cbn [before]. by rewrite Hgt by lia.
Qed.

Definition inserted (arr : Z) (l : list Z) (k : nat) (x after : Z) (m : gmap Z cJSON) : gmap Z cJSON :=
  let m := alter (set_prev (Some x)) after (alter (set_prev (before l k)) x (alter (set_next (Some after)) x m)) in
  match k with
  | O => alter (set_child (Some x)) arr m
  | S k => alter_opt (set_next (Some x)) (l !! k) m
  end.

Lemma is_some_in m l j y : linked m l → l !! j = Some y → is_Some (m !! y).
Proof. intros Hl Hj. by destruct (Hl _ _ Hj) as (i & -> & _). Qed.

Lemma head_is (l : list Z) k x : NoDup l → l !! k = Some x → bool_decide (head l = Some x) = bool_decide (k = 0%nat).
Proof. intros Hn Hk. by apply head_decide. Qed.

Lemma before_some (l : list Z) k : (k < List.length l)%nat → is_Some (before l k).
Proof.
  intros Hk. destruct k as [|k]; cbn [before]; [|apply lookup_lt_is_Some; lia].
  rewrite last_index. apply lookup_lt_is_Some. lia.
Qed.

Lemma insert_steps h arr l k x after :
  is_array (items h) arr l → l !! k = Some after → x ≠ arr → x ∉ l → is_Some (items h !! x) →
  cJSON_InsertItemInArray h (Some arr) (Z.of_nat k) (Some x) =
    Some (true, with_items (inserted arr l k x after (items h)) h).
Proof.
  intros Hia Hk Hxa Hxl Hx. pose proof (lookup_lt_Some _ _ _ Hk) as Hkl.
  unfold cJSON_InsertItemInArray. destruct (Z.ltb_spec (Z.of_nat k) 0); [lia|].
  rewrite (get_array_item_spec _ _ _ _ Hia). cbn [mbind option_bind]. rewrite Hk.
  destruct Hia as ((ai & Ha & Hc) & Harr & Hn & Hl). destruct (Hl _ _ Hk) as (af & Haf & _ & Hpv).
  cbn [mbind option_bind]. rewrite Ha. cbn [mbind option_bind]. rewrite Haf. cbn [mbind option_bind].
  destruct (before_some l k Hkl) as (pv & Hp). rewrite Hpv, Hp, (bool_decide_eq_false_2 (Some pv = None)), andb_false_r by done.
  assert (Hax : (after =? x) = false) by (eapply not_index; done).
  assert (Haa : (after =? arr) = false) by (eapply not_index; done).
  assert (Hxr : (arr =? x) = false) by (by apply Z.eqb_neq).
  rewrite upd_alter by done. cbn [mbind option_bind with_items items]. rewrite alter_at, Hax, Haf. cbn [mbind option_bind].
  rewrite upd_alter by (cbn; by apply alter_some). cbn [mbind option_bind with_items items].
  rewrite upd_alter by (cbn; do 2 apply alter_some; done). cbn [mbind option_bind with_items items].
  rewrite !alter_at, (Z.eqb_sym arr after), Haa, Hxr, Ha. cbn [mbind option_bind].
  rewrite Hc, (head_is _ _ _ Hn Hk), Hpv, Hp. unfold inserted. rewrite Hp. destruct k as [|k].
  - rewrite bool_decide_eq_true_2 by done. rewrite upd_alter by (cbn; do 3 apply alter_some; done). done.
  - rewrite bool_decide_eq_false_2 by done. rewrite (Z.eqb_sym x after), Hax, Z.eqb_refl.
    destruct Hx as (xi & Hx). rewrite Hx. cbn [fmap option_fmap option_map mbind option_bind set_prev prev].
    cbn [before] in Hp. rewrite Hp. cbn [alter_opt]. rewrite upd_alter; [done|].
    cbn. do 3 apply alter_some. by eapply is_some_in.
Qed.

Lemma inserted_array m arr l k x after xi :
  is_array m arr l → l !! k = Some after → x ≠ arr → x ∉ l → m !! x = Some xi →
  is_array (inserted arr l k x after m) arr (take k l ++ x :: drop k l).
Proof.
  intros ((ai & Ha & Hc) & Harr & Hn & Hl) Hk Hxa Hxl Hx. pose proof (lookup_lt_Some _ _ _ Hk) as Hkl.
  assert (Haa : (arr =? after) = false) by (rewrite Z.eqb_sym; eapply not_index; done).
  assert (Hxr : (arr =? x) = false) by (by apply Z.eqb_neq).
  assert (Hxaf : (x =? after) = false) by (rewrite Z.eqb_sym; eapply not_index; done).
  split; [|split; [|split]].
  - unfold inserted. destruct k as [|k].
    + eexists. rewrite !alter_at, Z.eqb_refl, Haa, Hxr, Ha. done.
    + exists ai. rewrite alter_opt_at, !alter_at, Haa, Hxr, Ha. split; [|destruct l; [done|]; done].
      rewrite bool_decide_eq_false_2; [done|]. intros H. apply Harr. by eapply list_elem_of_lookup_2.
  - rewrite elem_of_app, elem_of_cons. intros [H|[H|H]].
    + apply elem_of_take in H as (? & H & _). apply Harr. by eapply list_elem_of_lookup_2.
    + by apply Hxa.
    + apply Harr. rewrite <- (take_drop k l). apply elem_of_app. by right.
  - rewrite <- Permutation_middle, take_drop. by apply NoDup_cons.
  - intros j y Hj. destruct (insert_links l k x j y Hkl Hj) as [(-> & -> & Hn1 & Hp1)|(j0 & Hj0 & Hn1 & Hp1)].
    + rewrite Hn1, Hp1, Hk. unfold inserted. destruct k as [|k].
      * rewrite !alter_at, (Z.eqb_sym x arr), Hxr, Hxaf, Z.eqb_refl, Hx. by eexists.
      * rewrite alter_opt_at, !alter_at, Hxaf, Z.eqb_refl, Hx. rewrite bool_decide_eq_false_2; [by eexists|].
        intros H. apply Hxl. by eapply list_elem_of_lookup_2.
    + rewrite Hn1, Hp1. destruct (Hl _ _ Hj0) as (i & Hi & Hni & Hpi).
      assert (Hyx : (y =? x) = false) by (eapply not_index; done).
      assert (Hya : (y =? arr) = false) by (eapply not_index; done).
      unfold inserted. destruct k as [|k].
      * rewrite !alter_at, Hya, Hyx, (index_eq _ _ _ _ _ Hn Hj0 Hk), Hi.
        rewrite (bool_decide_eq_false_2 (S j0 = 0%nat)) by lia. destruct (bool_decide (j0 = 0%nat)); by eexists.
      * rewrite alter_opt_at, !alter_at, Hyx, (index_eq _ _ _ _ _ Hn Hj0 Hk), Hi, (index_decide _ _ _ _ Hn Hj0).
        rewrite (bool_decide_ext (S j0 = S k) (j0 = k)) by lia.
        destruct (bool_decide (j0 = k)), (bool_decide (j0 = S k)); by eexists.
Qed.

Lemma alter_opt_data arr m m' o f :
  same_data arr m m' → (∀ i, unlinked (f i) = unlinked i) → same_data arr m (alter_opt f o m').
Proof. intros H1 H2. destruct o as [a|]; [|done]. apply same_data_alter; auto. Qed.

Lemma insert_spec h arr l k x xi :
  is_array (items h) arr l → x ≠ arr → x ∉ l → items h !! x = Some xi → next xi = None →
  ∃ m, cJSON_InsertItemInArray h (Some arr) (Z.of_nat k) (Some x) = Some (true, with_items m h) ∧
    is_array m arr (take k l ++ x :: drop k l) ∧ same_data arr (items h) m.
Proof.
  intros Hia Hxa Hxl Hx Hnx. destruct (l !! k) as [after|] eqn:Hk.
  - rewrite (insert_steps _ _ _ _ _ after Hia) by eauto. eexists. split; [done|]. split; [by eapply inserted_array|].
    unfold inserted. destruct k as [|k]; [apply same_data_alter; [|auto]|apply alter_opt_data; [|done]];
      do 3 (apply same_data_alter; [|auto]); done.
  - unfold cJSON_InsertItemInArray. destruct (Z.ltb_spec (Z.of_nat k) 0); [lia|].
    rewrite (get_array_item_spec _ _ _ _ Hia). cbn [mbind option_bind]. rewrite Hk.
    apply lookup_ge_None_1 in Hk. rewrite take_ge, drop_ge by done. by eapply add_spec.
Qed.

(** ** Replacing *)

Lemma replace_links (l : list Z) k x j y :
  (k < List.length l)%nat → <[k := x]> l !! j = Some y →
  (j = k ∧ y = x ∧ <[k := x]> l !! S j = l !! S k ∧
     before (<[k := x]> l) j = if bool_decide (List.length l = 1%nat) then Some x else before l k) ∨
  (j ≠ k ∧ l !! j = Some y ∧ <[k := x]> l !! S j = (if bool_decide (S j = k) then Some x else l !! S j) ∧
     before (<[k := x]> l) j =
       if bool_decide (j = S k) || (bool_decide (S k = List.length l) && bool_decide (j = 0%nat)) then Some x else before l j).
Proof.
  intros Hk Hj.
  assert (Hlast : last (<[k := x]> l) = if bool_decide (S k = List.length l) then Some x else last l).
  { rewrite !last_index, length_insert. destruct (bool_decide_reflect (S k = List.length l)).
    - replace (List.length l - 1)%nat with k by lia. by apply list_lookup_insert_eq.
    - apply list_lookup_insert_ne. lia. }
  destruct (decide (j = k)) as [ -> |Hne].
  - left. rewrite list_lookup_insert_eq in Hj by done. injection Hj as <-. split; [done|]. split; [done|].
    split; [apply list_lookup_insert_ne; lia|]. destruct k as [|k]; cbn [before].
    + rewrite Hlast. by rewrite (bool_decide_ext (1%nat = List.length l) (List.length l = 1%nat)) by done.
    + rewrite bool_decide_eq_false_2 by lia. apply list_lookup_insert_ne. lia.
  - right. rewrite list_lookup_insert_ne in Hj by done. split; [done|]. split; [done|]. split.
    + destruct (bool_decide_reflect (S j = k)) as [ <- |]; [by apply list_lookup_insert_eq|by apply list_lookup_insert_ne].
    + destruct j as [|j]; cbn [before].
      * rewrite Hlast. rewrite (bool_decide_eq_true_2 (0 = 0)%nat), andb_true_r by done.
        by rewrite (bool_decide_eq_false_2 (0%nat = S k)) by done.
      * rewrite (bool_decide_eq_false_2 (S j = 0)%nat), andb_false_r, orb_false_r by lia.
        destruct (bool_decide_reflect (S j = S k)) as [[= ->]|]; [by apply list_lookup_insert_eq|].
        apply list_lookup_insert_ne. congruence.
Qed.

Definition replaced (arr : Z) (l : list Z) (k : nat) (x y : Z) (m : gmap Z cJSON) : gmap Z cJSON :=
  let m := alter (set_prev (before l k)) x (alter (set_next (l !! S k)) x m) in
  let m := alter_opt (set_prev (Some x)) (l !! S k) m in
  let m := match k with
           | O => alter (set_child (Some x)) arr
                    (if bool_decide (List.length l = 1%nat) then alter (set_prev (Some x)) x m else m)
           | S k' => alter_opt (set_prev (Some x)) (if bool_decide (l !! S k = None) then head l else None)
                       (alter_opt (set_next (Some x)) (l !! k') m)
           end in
  alter (set_prev None) y (alter (set_next None) y m).

Lemma replace_steps h arr l k x y :
  is_array (items h) arr l → l !! k = Some y → x ≠ arr → x ∉ l → is_Some (items h !! x) →
  cJSON_ReplaceItemViaPointer h (Some arr) (Some y) (Some x) =
    (h ← cJSON_Delete (with_items (replaced arr l k x y (items h)) h) (Some y); Some (true, h)).
Proof.
  intros ((ai & Ha & Hc) & Harr & Hn & Hl) Hk Hxa Hxl Hx. pose proof (lookup_lt_Some _ _ _ Hk) as Hkl.
  destruct (Hl _ _ Hk) as (it & Hit & Hnx & Hpv). cbn [cJSON_ReplaceItemViaPointer].
  assert (Hyx : (y =? x) = false) by (eapply not_index; done).
  assert (Hya : (y =? arr) = false) by (eapply not_index; done).
  assert (Hxr : (arr =? x) = false) by (by apply Z.eqb_neq).
  assert (Hch : child ai ≠ None) by (rewrite Hc; by destruct l).
  rewrite Ha. cbn [mbind option_bind]. rewrite bool_decide_eq_false_2 by done. rewrite (Z.eqb_sym x y), Hyx, Hit.
  cbn [mbind option_bind]. rewrite upd_alter by done. cbn [mbind option_bind with_items items].
  rewrite alter_at, Hyx, Hit. cbn [mbind option_bind]. rewrite upd_alter by (cbn; by apply alter_some).
  cbn [mbind option_bind with_items items]. rewrite Hnx, Hpv. unfold replaced.
  set (m1 := alter (set_prev (before l k)) x _).
  assert (Hx1 : ∃ xi, m1 !! x = Some xi ∧ next xi = l !! S k ∧ prev xi = before l k).
  { destruct Hx as (xi & Hx). unfold m1. rewrite !alter_at, Z.eqb_refl, Hx. by eexists. }
  assert (Hm1 : ∀ b, (b =? x) = false → m1 !! b = items h !! b) by (intros b Hb; unfold m1; by rewrite !alter_at, Hb).
  destruct Hx1 as (xi & Hx1 & Hnx1 & Hpx1). rewrite Hx1. cbn [mbind option_bind]. rewrite Hnx1.
  assert (Hnot : ∀ j z, l !! j = Some z → (z =? x) = false) by (intros; eapply not_index; done).
  assert (Hin : ∀ j z, l !! j = Some z → is_Some (m1 !! z)).
  { intros j z Hz. rewrite Hm1 by eauto. by eapply is_some_in. }
  assert (H2 : match l !! S k with Some n => upd n (set_prev (Some x)) (with_items m1 h) | None => Some (with_items m1 h) end
     = Some (with_items (alter_opt (set_prev (Some x)) (l !! S k) m1) h)).
  { destruct (l !! S k) as [s|] eqn:Es; [|done]. rewrite upd_alter by (cbn; eauto). done. }
  unfold with_items in H2 |- *. cbn [items strings brk answers] in H2 |- *. rewrite H2.
  cbn [mbind option_bind items]. set (m2 := alter_opt (set_prev (Some x)) (l !! S k) m1).
  assert (Hm2 : ∀ j b, (b = arr ∨ b = x ∨ (l !! j = Some b ∧ j ≠ S k)) → m2 !! b = m1 !! b).
  { intros j b Hb. unfold m2. rewrite alter_opt_at. rewrite bool_decide_eq_false_2; [done|]. intros Hs.
    destruct Hb as [ -> |[ -> |[Hb Hj]]].
    - apply Harr. by eapply list_elem_of_lookup_2.
    - apply Hxl. by eapply list_elem_of_lookup_2.
    - apply Hj. by eapply NoDup_lookup. }
  rewrite (Hm2 0%nat arr), Hm1, Ha by auto. cbn [mbind option_bind]. rewrite Hc, (head_is _ _ _ Hn Hk).
  assert (Hs2 : ∀ b, is_Some (m1 !! b) → is_Some (m2 !! b)).
  { intros b Hb. unfold m2. rewrite alter_opt_at. destruct (bool_decide _); [by rewrite fmap_is_Some|done]. }
  assert (Hend : ∀ m3, is_Some (m3 !! y) →
    (h0 ← upd y (set_next None) (mkHeap m3 (strings h) (brk h) (answers h)); h0 ← upd y (set_prev None) h0;
     h0 ← cJSON_Delete h0 (Some y); Some (true, h0)) =
    (h0 ← cJSON_Delete (mkHeap (alter (set_prev None) y (alter (set_next None) y m3)) (strings h) (brk h) (answers h)) (Some y);
     Some (true, h0))).
  { intros m3 H3. rewrite upd_alter by done. cbn [mbind option_bind]. rewrite upd_alter by (cbn; by apply alter_some). done. }
  assert (Hy2 : m2 !! y = Some it) by (rewrite (Hm2 k) by (right; right; split; [done|lia]); rewrite Hm1 by done; done).
  destruct k as [|k].
  - rewrite bool_decide_eq_true_2 by done. destruct l as [|c l]; [done|]. cbn [head mbind option_bind] in *.
    injection Hk as ->. rewrite Hy2. cbn [mbind option_bind]. rewrite Hpv. cbn [before].
    assert (Hb : bool_decide (last (y :: l) = Some y) = bool_decide (List.length (y :: l) = 1%nat)).
    { apply bool_decide_ext. rewrite last_index. split.
      - intros He. assert (List.length (y :: l) - 1 = 0)%nat by (by eapply NoDup_lookup; eauto). cbn in *. lia.
      - intros ->. done. }
    rewrite Hb. destruct (bool_decide (List.length (y :: l) = 1%nat)).
    + rewrite upd_alter by (cbn; eauto). cbn [mbind option_bind with_items items].
      rewrite upd_alter by (cbn; apply alter_some, Hs2; rewrite Hm1 by done; eauto). apply Hend.
      cbn. do 2 apply alter_some. eauto.
    + cbn [mbind option_bind]. rewrite upd_alter by (cbn; apply Hs2; rewrite Hm1 by done; eauto). apply Hend.
      cbn. apply alter_some. eauto.
  - rewrite bool_decide_eq_false_2 by done. rewrite (Hm2 0%nat x), Hx1 by auto. cbn [mbind option_bind].
    rewrite Hpx1. cbn [before]. destruct (lookup_lt_is_Some_2 l k) as (p & Hp); [lia|]. rewrite Hp.
    rewrite upd_alter by (cbn; eauto). cbn [mbind option_bind with_items items]. rewrite (alter_at _ p x).
    rewrite (Z.eqb_sym x p), (Hnot k p Hp), (Hm2 0%nat x), Hx1 by auto. cbn [mbind option_bind]. rewrite Hnx1. cbn [alter_opt].
    destruct (bool_decide (l !! S (S k) = None)).
    + rewrite alter_at, Z.eqb_sym, (not_index _ _ _ _ Harr Hp), (Hm2 0%nat arr), Hm1, Ha by auto. cbn [mbind option_bind].
      rewrite Hc. destruct l as [|c l]; [done|]. cbn [head mbind option_bind alter_opt].
      rewrite upd_alter by (cbn; apply alter_some; by apply Hs2, (Hin 0%nat)). apply Hend. do 2 apply alter_some. eauto.
    + cbn [mbind option_bind alter_opt]. apply Hend. cbn. apply alter_some. eauto.
Qed.

Lemma replaced_at arr l k x y m j z i :
  arr ∉ l → NoDup l → x ∉ l → l !! k = Some y → l !! j = Some z → j ≠ k → m !! z = Some i →
  ∃ i', replaced arr l k x y m !! z = Some i' ∧
    next i' = (if bool_decide (S j = k) then Some x else next i) ∧
    prev i' = (if bool_decide (j = S k) || (bool_decide (S k = List.length l) && bool_decide (j = 0%nat))
               then Some x else prev i).
Proof.
  intros Harr Hn Hxl Hk Hj Hne Hi. unfold replaced. cbv zeta.
  assert (Hzy : (z =? y) = false) by (rewrite (index_eq _ _ _ _ _ Hn Hj Hk); by apply bool_decide_eq_false_2).
  assert (Hza : (z =? arr) = false) by (eapply not_index; done).
  assert (Hzx : (z =? x) = false) by (eapply not_index; done).
  rewrite !alter_at, Hzy. set (m1 := alter (set_prev (before l k)) x _).
  assert (Hm1 : m1 !! z = Some i) by (unfold m1; by rewrite !alter_at, Hzx).
  set (m2 := alter_opt (set_prev (Some x)) (l !! S k) m1).
  assert (H2 : ∃ i2, m2 !! z = Some i2 ∧ next i2 = next i ∧ prev i2 = if bool_decide (j = S k) then Some x else prev i).
  { unfold m2. rewrite alter_opt_at, (index_decide _ _ _ _ Hn Hj), Hm1. destruct (bool_decide (j = S k)); by eexists. }
  destruct H2 as (i2 & Hi2 & Hn2 & Hp2). pose proof (lookup_lt_Some _ _ _ Hj). pose proof (lookup_lt_Some _ _ _ Hk).
  destruct k as [|k].
  - rewrite alter_at, Hza. exists i2. rewrite (bool_decide_eq_false_2 (S j = 0%nat)) by lia.
    rewrite (bool_decide_eq_false_2 (j = 0%nat)), andb_false_r, orb_false_r by lia.
    destruct (bool_decide (List.length l = 1%nat)); [rewrite alter_at, Hzx|]; by rewrite Hi2, Hn2, Hp2.
  - rewrite !alter_opt_at, (index_decide _ _ _ _ Hn Hj), Hi2.
    rewrite (bool_decide_ext (S j = S k) (j = k)) by lia.
    assert (Hb : bool_decide ((if bool_decide (l !! S (S k) = None) then head l else None) = Some z) =
      bool_decide (S (S k) = List.length l) && bool_decide (j = 0%nat)).
    { destruct (bool_decide_reflect (l !! S (S k) = None)) as [E|E].
      - apply lookup_ge_None_1 in E. rewrite (bool_decide_eq_true_2 (S (S k) = _)) by lia. by apply head_decide.
      - rewrite (bool_decide_eq_false_2 (S (S k) = _)); [done|]. intros Hs. apply E, lookup_ge_None_2. lia. }
    rewrite Hb. destruct (bool_decide (j = k)), (bool_decide (S (S k) = List.length l) && bool_decide (j = 0%nat));
      rewrite ?orb_true_r, ?orb_false_r; eexists; (split; [done|]); cbn; by rewrite ?Hn2, ?Hp2.
Qed.

Lemma replaced_new arr l k x y m xi :
  NoDup l → x ∉ l → x ≠ arr → l !! k = Some y → m !! x = Some xi →
  ∃ i', replaced arr l k x y m !! x = Some i' ∧ next i' = l !! S k ∧
    prev i' = if bool_decide (List.length l = 1%nat) then Some x else before l k.
Proof.
  intros Hn Hxl Hxa Hk Hx. unfold replaced. cbv zeta.
  assert (Hxy : (x =? y) = false) by (rewrite Z.eqb_sym; eapply not_index; done).
  assert (Ho : ∀ o, o = None ∨ o = head l ∨ (∃ j, o = l !! j) → bool_decide (o = Some x) = false).
  { intros o Ho. apply bool_decide_eq_false_2. intros ->. apply Hxl. destruct Ho as [?|[Ho|[j Ho]]]; [done| |].
    - destruct l; [done|]. injection Ho as <-. left.
    - eapply list_elem_of_lookup_2. by symmetry. }
  rewrite !alter_at, Hxy. pose proof (lookup_lt_Some _ _ _ Hk). destruct k as [|k].
  - rewrite alter_at, (proj2 (Z.eqb_neq x arr)) by done.
    destruct (bool_decide (List.length l = 1%nat)); rewrite ?alter_at, alter_opt_at, Ho, !alter_at, Z.eqb_refl, Hx by eauto;
      by eexists.
  - rewrite !alter_opt_at, !Ho, !alter_at, Z.eqb_refl, Hx by (eauto; destruct (bool_decide _); eauto).
    rewrite (bool_decide_eq_false_2 (List.length l = 1%nat)) by lia. by eexists.
Qed.

Lemma replaced_parent arr l k x y m ai :
  arr ∉ l → x ≠ arr → l !! k = Some y → m !! arr = Some ai →
  replaced arr l k x y m !! arr = Some (match k with O => set_child (Some x) ai | S _ => ai end).
Proof.
  intros Harr Hxa Hk Ha. unfold replaced. cbv zeta.
  assert (Hay : (arr =? y) = false) by (rewrite Z.eqb_sym; eapply not_index; done).
  assert (Hax : (arr =? x) = false) by (by apply Z.eqb_neq).
  assert (Ho : ∀ o, o = None ∨ o = head l ∨ (∃ j, o = l !! j) → bool_decide (o = Some arr) = false).
  { intros o Ho. apply bool_decide_eq_false_2. intros ->. apply Harr. destruct Ho as [?|[Ho|[j Ho]]]; [done| |].
    - destruct l; [done|]. injection Ho as <-. left.
    - eapply list_elem_of_lookup_2. by symmetry. }
  rewrite !alter_at, Hay. destruct k as [|k].
  - rewrite alter_at, Z.eqb_refl.
    destruct (bool_decide (List.length l = 1%nat)); rewrite ?alter_at, ?Hax, alter_opt_at, Ho, !alter_at, Hax, Ha by eauto; done.
  - rewrite !alter_opt_at, !Ho, !alter_at, Hax, Ha by (eauto; destruct (bool_decide _); eauto). done.
Qed.

Lemma replaced_data arr l k x y m : same_data arr m (replaced arr l k x y m).
Proof.
  unfold replaced. do 2 (apply same_data_alter; [|auto]).
  assert (H2 : same_data arr m (alter_opt (set_prev (Some x)) (l !! S k)
    (alter (set_prev (before l k)) x (alter (set_next (l !! S k)) x m)))).
  { apply alter_opt_data; [|done]. do 2 (apply same_data_alter; [|auto]). done. }
  destruct k as [|k].
  - apply same_data_alter; [|auto]. destruct (bool_decide _); [|done]. apply same_data_alter; auto.
  - do 2 (apply alter_opt_data; [|done]). done.
Qed.

Lemma replaced_array m arr l k x y xi :
  is_array m arr l → l !! k = Some y → x ≠ arr → x ∉ l → m !! x = Some xi →
  is_array (replaced arr l k x y m) arr (<[k := x]> l).
Proof.
  intros ((ai & Ha & Hc) & Harr & Hn & Hl) Hk Hxa Hxl Hx. pose proof (lookup_lt_Some _ _ _ Hk) as Hkl.
  split; [|split; [|split]].
  - eexists. rewrite (replaced_parent _ _ _ _ _ _ ai) by done. split; [done|].
    destruct l as [|c l]; [done|]. by destruct k.
  - intros (j & Hj)%list_elem_of_lookup.
    destruct (replace_links l k x j arr Hkl Hj) as [(_ & -> & _)|(_ & Hj' & _)]; [done|].
    apply Harr. by eapply list_elem_of_lookup_2.
  - apply NoDup_alt. intros i j z Hi Hj.
    destruct (replace_links l k x i z Hkl Hi) as [( -> & -> & _)|(Hi1 & Hi2 & _)],
      (replace_links l k x j _ Hkl Hj) as [( -> & Hz & _)|(Hj1 & Hj2 & _)]; try done.
    + exfalso. apply Hxl. by eapply list_elem_of_lookup_2.
    + subst z. exfalso. apply Hxl. by eapply list_elem_of_lookup_2.
    + by eapply NoDup_lookup.
  - intros j z Hj. destruct (replace_links l k x j z Hkl Hj) as [( -> & -> & -> & ->)|(Hne & Hj' & -> & ->)].
    + by eapply replaced_new.
    + destruct (Hl _ _ Hj') as (i & Hi & Hni & Hpi).
      destruct (replaced_at arr l k x y m j z i Harr Hn Hxl Hk Hj' Hne Hi) as (i' & E & Hn' & Hp').
      exists i'. by rewrite Hn', Hp', Hni, Hpi.
Qed.

Lemma replaced_old arr l k x y m yi :
  m !! y = Some yi → y ≠ x → y ≠ arr →
  ∃ i', replaced arr l k x y m !! y = Some i' ∧ unlinked i' = unlinked yi ∧ next i' = None.
Proof.
  intros Hy Hyx Hya. pose proof (replaced_data arr l k x y m y Hya) as Hd. rewrite Hy in Hd.
  destruct (replaced arr l k x y m !! y) as [i'|] eqn:E; [|done]. cbn in Hd. apply (inj Some) in Hd.
  exists i'. split; [done|]. split; [done|]. unfold replaced in E. cbv zeta in E.
  rewrite (alter_at (set_prev None)), Z.eqb_refl in E. apply fmap_Some in E as (i1 & E & ->).
  rewrite (alter_at (set_next None)), Z.eqb_refl in E. by apply fmap_Some in E as (i2 & _ & ->).
Qed.

(** The items below an item, which deleting it would free. *)
Definition owns (h : heap) (yi : cJSON) (kids : forest) : Prop :=
  (if has cJSON_IsReference yi then kids = FNil else holds (items h) (child yi) kids) ∧
  NoDup (addrs kids) ∧ NoDup (strs kids ++ own_strings yi) ∧
  (∀ s, s ∈ strs kids ++ own_strings yi → is_Some (strings h !! s)).

Lemma replace_spec h arr l k x xi y yi kids :
  is_array (items h) arr l → l !! k = Some y → x ≠ arr → x ∉ l → items h !! x = Some xi → items h !! y = Some yi →
  owns h yi kids → (∀ b, b ∈ addrs kids → b ≠ arr ∧ b ≠ x ∧ b ∉ l) →
  ∃ m, cJSON_ReplaceItemViaPointer h (Some arr) (Some y) (Some x) =
      Some (true, dropped (y :: addrs kids) (strs kids ++ own_strings yi) (with_items m h)) ∧
    is_array (without (y :: addrs kids) m) arr (<[k := x]> l) ∧ same_data arr (items h) m.
Proof.
  intros Hia Hk Hxa Hxl Hx Hy (Hh & Hnk & Hns & Hs) Hdis. rewrite (replace_steps _ _ _ _ _ _ Hia) by eauto.
  set (m := replaced arr l k x y (items h)). exists m. split; [|split; [|apply replaced_data]].
  - assert (Hyl : y ∈ l) by (by eapply list_elem_of_lookup_2).
    assert (Hyx : y ≠ x) by (intros ->; done).
    assert (Hya : y ≠ arr) by (intros ->; by destruct Hia as (_ & ? & _)).
    destruct (replaced_old arr l k x y (items h) yi Hy Hyx Hya) as (i' & E & Hu & Hn').
    assert (Hf : ∀ f : cJSON → Z, True) by done.
    assert (Ht : type i' = type yi ∧ child i' = child yi ∧ valuestring i' = valuestring yi ∧ string i' = string yi)
      by (injection Hu; auto). destruct Ht as (Ht & Hch & Hv & Hst).
    assert (Hown : own_strings i' = own_strings yi) by (unfold own_strings, has; by rewrite Ht, Hv, Hst).
    rewrite (cJSON_Delete_correct (FCons y i' kids FNil)); cbn [holds addrs strs].
    + rewrite !app_nil_r, Hown. done.
    + split; [done|]. split; [done|]. split; [|done]. unfold has in *. rewrite Ht, Hch.
      destruct (negb (Z.land (type yi) cJSON_IsReference =? 0)); [done|].
      apply (holds_same (items h)); [done|]. intros b Hb. destruct (Hdis b Hb) as (Hb1 & Hb2 & Hb3).
      cbn. unfold m, replaced. cbv zeta.
      assert (Ho : ∀ o, o = None ∨ o = head l ∨ (∃ j, o = l !! j) → bool_decide (o = Some b) = false).
      { intros o Ho. apply bool_decide_eq_false_2. intros ->. apply Hb3. destruct Ho as [?|[Ho|[j Ho]]]; [done| |].
        - destruct l; [done|]. injection Ho as <-. left.
        - eapply list_elem_of_lookup_2. by symmetry. }
      rewrite !alter_at, (proj2 (Z.eqb_neq b y)) by (intros ->; done). destruct k as [|k].
      * rewrite alter_at, (proj2 (Z.eqb_neq b arr)) by done.
        destruct (bool_decide (List.length l = 1%nat)); rewrite ?alter_at, ?(proj2 (Z.eqb_neq b x)), alter_opt_at, Ho, !alter_at,
          (proj2 (Z.eqb_neq b x)) by (done || eauto); done.
      * rewrite !alter_opt_at, !Ho, !alter_at, (proj2 (Z.eqb_neq b x)) by (done || (eauto; destruct (bool_decide _); eauto)). done.
    + rewrite app_nil_r. apply NoDup_cons. split; [|done]. intros Hin. by apply Hdis in Hin as (_ & _ & Hin).
    + by rewrite app_nil_r, Hown.
    + rewrite app_nil_r, Hown. done.
  - pose proof (replaced_array _ _ _ _ _ _ _ Hia Hk Hxa Hxl Hx) as ((ai & Ha & Hc) & Harr & Hn & Hl).
    assert (Hkeep : ∀ b, b = arr ∨ b ∈ <[k := x]> l → b ∉ y :: addrs kids).
    { pose proof (lookup_lt_Some _ _ _ Hk) as Hkl. destruct Hia as (_ & Harr0 & Hn0 & _). intros b Hb Hin.
      assert (Hb' : b = arr ∨ b = x ∨ ∃ j, j ≠ k ∧ l !! j = Some b).
      { destruct Hb as [?|(j & Hj)%list_elem_of_lookup]; [by left|]. right.
        destruct (replace_links l k x j b Hkl Hj) as [(_ & -> & _)|(? & ? & _)]; [by left|right; by exists j]. }
      apply elem_of_cons in Hin as [ -> |Hin].
      - destruct Hb' as [ -> |[ -> |(j & Hj & Hjl)]].
        + apply Harr0. by eapply list_elem_of_lookup_2.
        + apply Hxl. by eapply list_elem_of_lookup_2.
        + apply Hj. by eapply (NoDup_lookup l).
      - destruct (Hdis b Hin) as (Hb1 & Hb2 & Hb3). destruct Hb' as [?|[?|(j & _ & Hjl)]]; [done|done|].
        apply Hb3. by eapply list_elem_of_lookup_2. }
    assert (Hsame : ∀ b, b = arr ∨ b ∈ <[k := x]> l → without (y :: addrs kids) m !! b = m !! b).
    { intros b Hb. rewrite lookup_without. destruct (decide _) as [Hin|]; [by destruct (Hkeep b Hb Hin)|done]. }
    split; [|split; [done|split; [done|]]].
    + exists ai. rewrite Hsame by auto. done.
    + intros j z Hj. rewrite Hsame by (right; by eapply list_elem_of_lookup_2). by apply Hl.
Qed.

(** C25: The children of an array or object item always form a doubly linked list whose
    first item points back at its last, and the list operations do to it what
    their names say: looking an item up by its index and counting; adding at the
    end; inserting before an index (at the end when there is none); detaching,
    which unlinks the item; and replacing, which frees the replaced item with
    everything below it and nothing else. The items' own data do not change. *)
Theorem array_operations h arr l :
  is_array (items h) arr l →
  (∀ k, cJSON_GetArrayItem h (Some arr) (Z.of_nat k) = Some (l !! k)) ∧
  cJSON_GetArraySize h (Some arr) = Some (i32 (zlen l)) ∧
  (∀ x xi, x ≠ arr → x ∉ l → items h !! x = Some xi → next xi = None →
    (∃ m, cJSON_AddItemToArray h (Some arr) (Some x) = Some (true, with_items m h) ∧
       is_array m arr (l ++ [x]) ∧ same_data arr (items h) m) ∧
    (∀ k, ∃ m, cJSON_InsertItemInArray h (Some arr) (Z.of_nat k) (Some x) = Some (true, with_items m h) ∧
       is_array m arr (take k l ++ x :: drop k l) ∧ same_data arr (items h) m)) ∧
  (∀ k x, l !! k = Some x →
    ∃ m i, cJSON_DetachItemFromArray h (Some arr) (Z.of_nat k) = Some (Some x, with_items m h) ∧
      is_array m arr (delete k l) ∧ same_data arr (items h) m ∧ m !! x = Some i ∧ next i = None ∧ prev i = None) ∧
  (∀ k x xi y yi kids, l !! k = Some y → x ≠ arr → x ∉ l → items h !! x = Some xi → items h !! y = Some yi →
    owns h yi kids → (∀ b, b ∈ addrs kids → b ≠ arr ∧ b ≠ x ∧ b ∉ l) →
    ∃ m, cJSON_ReplaceItemInArray h (Some arr) (Z.of_nat k) (Some x) =
        Some (true, dropped (y :: addrs kids) (strs kids ++ own_strings yi) (with_items m h)) ∧
      is_array (without (y :: addrs kids) m) arr (<[k := x]> l) ∧ same_data arr (items h) m).
Proof.
  intros Ha. split_and!.
  - intros k. unfold cJSON_GetArrayItem. destruct (Z.ltb_spec (Z.of_nat k) 0); [lia|]. by apply get_array_item_spec.
  - by apply GetArraySize_spec.
  - intros x xi Hx Hxl Hxi Hn. split; [by eapply add_spec|]. intros k. by eapply insert_spec.
  - intros k x Hk. unfold cJSON_DetachItemFromArray. destruct (Z.ltb_spec (Z.of_nat k) 0); [lia|].
    rewrite (get_array_item_spec _ _ _ _ Ha). cbn [mbind option_bind]. rewrite Hk.
    destruct (detach_spec _ _ _ _ _ Ha Hk) as (m & E & H1 & H2 & i & H3 & H4 & H5). by exists m, i.
  - intros k x xi y yi kids Hk Hx Hxl Hxi Hy Ho Hd. unfold cJSON_ReplaceItemInArray.
    destruct (Z.ltb_spec (Z.of_nat k) 0); [lia|]. rewrite (get_array_item_spec _ _ _ _ Ha). cbn [mbind option_bind].
    rewrite Hk. by eapply replace_spec.
Qed.

(** An array of two items, and a third one. *)
Definition two_items : heap :=
  mkHeap {[1 := set_child (Some 2) (set_type cJSON_Array blank); 2 := set_prev (Some 3) (set_next (Some 3) blank);
           3 := set_prev (Some 2) blank; 4 := blank]} ∅ 5 [].

Lemma two_items_array : is_array (items two_items) 1 [2; 3].
Proof.
  split; [by eexists|]. split; [apply (bool_decide_unpack (1 ∉ [2; 3])); done|].
  split; [apply (bool_decide_unpack (NoDup [2; 3])); done|].
  intros [|[|k]] x; [intros [= <-]; by eexists|intros [= <-]; by eexists|done].
Qed.

Lemma array_operations_witness :
  cJSON_GetArrayItem two_items (Some 1) 1 = Some (Some 3) ∧
  (∃ m, cJSON_ReplaceItemInArray two_items (Some 1) 0 (Some 4) = Some (true, dropped [2] [] (with_items m two_items)) ∧
     is_array (without [2] m) 1 [4; 3] ∧ same_data 1 (items two_items) m).
Proof.
  destruct (array_operations two_items 1 [2; 3] two_items_array) as (H1 & _ & _ & _ & H5).
  split; [exact (H1 1%nat)|].
  apply (H5 0%nat 4 blank 2 (set_prev (Some 3) (set_next (Some 3) blank)) FNil).
  - reflexivity.
  - discriminate.
  - apply (bool_decide_unpack (4 ∉ [2; 3])). exact I.
  - reflexivity.
  - reflexivity.
  - split; [reflexivity|]. split; [constructor|]. split; [constructor|]. intros s Hs. inversion Hs.
  - intros b Hb. inversion Hb.
Defined.
