(* ===== verification/CJsonText.v ===== *)
(** The strings of cJSON (src/test_targets/cjson/cJSON.c): the parse buffer, reading a
    JSON string with its escape sequences into a new block, the growing print
    buffer and writing a string with its escapes.  Proofs are in CJsonTextProofs.v. *)
From S2P Require Import Prelude CJsonHeap.

(** ** The parse buffer *)

Record parse_buffer := mkBuffer { content : list Z; length : Z; offset : Z; depth : Z }.
Abbreviation zlen l := (Z.of_nat (List.length l)).
Definition at_offset (o : Z) (b : parse_buffer) : parse_buffer := mkBuffer (content b) (length b) o (depth b).
Definition at_depth (d : Z) (b : parse_buffer) : parse_buffer := mkBuffer (content b) (length b) (offset b) d.

Definition can_read (b : parse_buffer) (size : Z) : bool := offset b + size <=? length b.
Definition can_access_at_index (b : parse_buffer) (index : Z) : bool := offset b + index <? length b.
(** [buffer_at_offset(buffer)[i]] *)
Definition buffer_at (b : parse_buffer) (i : Z) : option Z := (content b).[offset b + i].

Fixpoint whitespace_loop (fuel : nat) (b : parse_buffer) : option parse_buffer :=
  match fuel with
  | O => None
  | S fuel' =>
      c ← (if can_access_at_index b 0 then c ← buffer_at b 0; Some (c <=? 32) else Some false);
      if c : bool then whitespace_loop fuel' (at_offset (offset b + 1) b) else Some b
  end.
Definition buffer_skip_whitespace (b : parse_buffer) : option parse_buffer :=
  if negb (can_access_at_index b 0) then Some b
  else
    b ← whitespace_loop (S (List.length (content b))) b;
    Some (if offset b =? length b then at_offset (offset b - 1) b else b).

(** [strncmp(z, s, strlen(s))==0] for a constant [s] without zeros. *)
Fixpoint starts_with (s : list Z) (z : list Z) (i : Z) : option bool :=
  match s with
  | [] => Some true
  | c :: s => d ← z.[i]; if d =? c then starts_with s z (i + 1) else Some false
  end.

Definition skip_utf8_bom (b : parse_buffer) : option (option parse_buffer) :=
  if negb (offset b =? 0) then Some None
  else
    bom ← (if can_access_at_index b 4 then starts_with [0xEF; 0xBB; 0xBF] (content b) (offset b)
           else Some false);
    Some (Some (if bom : bool then at_offset (offset b + 3) b else b)).

(** ** Escape sequences *)

Definition hex_digit (c : Z) : option Z :=
  if (48 <=? c) && (c <=? 57) then Some (c - 48)
  else if (65 <=? c) && (c <=? 70) then Some (10 + c - 65)
  else if (97 <=? c) && (c <=? 102) then Some (10 + c - 97)
  else None.

(** The digits [i] to 3; an invalid one gives the result 0. *)
Fixpoint hex4_loop (n : nat) (input : list Z) (at_ i h : Z) : option Z :=
  match n with
  | O => Some h
  | S n' =>
      c ← input.[at_ + i];
      match hex_digit c with
      | Some d =>
          let h := u32 (h + d) in
          hex4_loop n' input at_ (i + 1) (if i <? 3 then u32 (Z.shiftl h 4) else h)
      | None => Some 0
      end
  end.
Definition parse_hex4 (input : list Z) (at_ : Z) : option Z := hex4_loop 4 input at_ 0 0.

(** [for(utf8_position=utf8_length-1; utf8_position>0; utf8_position--)] *)
Fixpoint utf8_tail (position : nat) (codepoint : Z) (output : list Z) (output_pointer : Z)
  : option (Z * list Z) :=
  match position with
  | O => Some (codepoint, output)
  | S position' =>
      output ← wr output (output_pointer + Z.of_nat position)
                  (u8 (Z.land (Z.lor codepoint 0x80) 0xBF));
      utf8_tail position' (Z.shiftr codepoint 6) output output_pointer
  end.

(** The encoding of a code point, or [None] for an invalid one. *)
Definition utf8_encode (codepoint : Z) (output : list Z) (output_pointer : Z)
  : option (option (list Z * Z)) :=
  let '(utf8_length, first_byte_mark) :=
    if codepoint <? 0x80 then (1%nat, 0)
    else if codepoint <? 0x800 then (2%nat, 0xC0)
    else if codepoint <? 0x10000 then (3%nat, 0xE0)
    else if codepoint <=? 0x10FFFF then (4%nat, 0xF0)
    else (0%nat, 0) in
  if (utf8_length =? 0)%nat then Some None
  else
    '(codepoint, output) ← utf8_tail (utf8_length - 1) codepoint output output_pointer;
    output ← wr output output_pointer
                (if (1 <? utf8_length)%nat
                 then Z.land (Z.lor codepoint first_byte_mark) 0xFF
                 else Z.land codepoint 0x7F);
    Some (Some (output, output_pointer + Z.of_nat utf8_length)).

(** The length of the sequence, or 0, with the output and where it continues. *)
Definition utf16_literal_to_utf8 (input : list Z) (first_sequence input_end : Z)
    (output : list Z) (output_pointer : Z) : option (Z * list Z * Z) :=
  let fail := Some (0, output, output_pointer) in
  if input_end - first_sequence <? 6 then fail
  else
    first_code ← parse_hex4 input (first_sequence + 2);
    if (0xDC00 <=? first_code) && (first_code <=? 0xDFFF) then fail
    else
      code ←
        (if (0xD800 <=? first_code) && (first_code <=? 0xDBFF) then
           let second_sequence := first_sequence + 6 in
           if input_end - second_sequence <? 6 then Some None
           else
             s0 ← input.[second_sequence];
             s1 ← (if s0 =? 92 then input.[second_sequence + 1] else Some 0);
             if negb (s0 =? 92) || negb (s1 =? 117) then Some None
             else
               second_code ← parse_hex4 input (second_sequence + 2);
               if (second_code <? 0xDC00) || (0xDFFF <? second_code) then Some None
               else Some (Some (12, 0x10000 + Z.lor (Z.shiftl (Z.land first_code 0x3FF) 10)
                                                    (Z.land second_code 0x3FF)))
         else Some (Some (6, first_code)));
      match code with
      | None => fail
      | Some (sequence_length, codepoint) =>
          r ← utf8_encode codepoint output output_pointer;
          match r with
          | None => fail
          | Some (output, output_pointer) => Some (sequence_length, output, output_pointer)
          end
      end.

(** ** Reading a string *)

(** The search for the closing quote: its position and the number of backslashes, or
    [None] when a backslash is the last byte of the input. *)
Fixpoint scan_string (fuel : nat) (b : parse_buffer) (input_end skipped_bytes : Z)
  : option (option (Z * Z)) :=
  match fuel with
  | O => None
  | S fuel' =>
      if input_end <? length b then
        c ← (content b).[input_end];
        if c =? 34 then Some (Some (input_end, skipped_bytes))
        else if c =? 92 then
          if length b <=? input_end + 1 then Some None
          else scan_string fuel' b (input_end + 2) (skipped_bytes + 1)
        else scan_string fuel' b (input_end + 1) skipped_bytes
      else Some (Some (input_end, skipped_bytes))
  end.

(** The byte for an escape of one letter. *)
Definition simple_escape (c : Z) : option Z :=
  if c =? 98 then Some 8
  else if c =? 102 then Some 12
  else if c =? 110 then Some 10
  else if c =? 114 then Some 13
  else if c =? 116 then Some 9
  else if (c =? 34) || (c =? 92) || (c =? 47) then Some c
  else None.

(** The loop through the literal: whether it got to the end, the input position, the
    output and its position. *)
Fixpoint unescape_loop (fuel : nat) (input : list Z) (input_end input_pointer : Z)
    (output : list Z) (output_pointer : Z) : option (bool * Z * list Z * Z) :=
  match fuel with
  | O => None
  | S fuel' =>
      let fail := Some (false, input_pointer, output, output_pointer) in
      if input_pointer <? input_end then
        c ← input.[input_pointer];
        if negb (c =? 92) then
          output ← wr output output_pointer c;
          unescape_loop fuel' input input_end (input_pointer + 1) output (output_pointer + 1)
        else if input_end - input_pointer <? 1 then fail
        else
          e ← input.[input_pointer + 1];
          match simple_escape e with
          | Some c =>
              output ← wr output output_pointer c;
              unescape_loop fuel' input input_end (input_pointer + 2) output (output_pointer + 1)
          | None =>
              if e =? 117 then
                '(sequence_length, output, output_pointer) ←
                  utf16_literal_to_utf8 input input_pointer input_end output output_pointer;
                if sequence_length =? 0 then fail
                else unescape_loop fuel' input input_end (input_pointer + sequence_length)
                                   output output_pointer
              else fail
          end
      else Some (true, input_pointer, output, output_pointer)
  end.

Section blocks.
(** The bytes of a new block of a size: what they hold is unspecified, and there may
    be more of them than were asked for. *)
Variable malloc_bytes : Z → list Z.

Definition new_string (size : Z) (h : heap) : option Z * heap :=
  match allocate h with
  | (Some a, h) => (Some a, with_strings (<[a := malloc_bytes size]> (strings h)) h)
  | (None, h) => (None, h)
  end.

Definition parse_string (item : Z) (b : parse_buffer) (h : heap) : option (bool * parse_buffer * heap) :=
  let input_pointer := offset b + 1 in
  let fail (input_pointer : Z) h := Some (false, at_offset input_pointer b, h) in
  c ← buffer_at b 0;
  if negb (c =? 34) then fail input_pointer h
  else
    s ← scan_string (S (List.length (content b))) b input_pointer 0;
    match s with
    | None => fail input_pointer h
    | Some (input_end, skipped_bytes) =>
        closed ← (if length b <=? input_end then Some false
                  else c ← (content b).[input_end]; Some (c =? 34));
        if negb closed then fail input_pointer h
        else
          let allocation_length := input_end - offset b - skipped_bytes in
          match new_string (allocation_length - 1) h with
          | (None, h) => fail input_pointer h
          | (Some output, h) =>
              out ← strings h !! output;
              '(done, input_pointer, out, output_pointer) ←
                unescape_loop (S (List.length (content b))) (content b) input_end input_pointer out 0;
              if done : bool then
                out ← wr out output_pointer 0;
                let h := with_strings (<[output := out]> (strings h)) h in
                h ← upd item (set_type cJSON_String) h;
                h ← upd item (set_valuestring (Some output)) h;
                Some (true, at_offset (input_end + 1) b, h)
              else
                h ← free_string output h;
                fail input_pointer h
          end
    end.

(** ** The print buffer *)

(** [reallocate] says whether the hooks have a [realloc]; the buffer's own length
    may be smaller than the block. *)
Record printbuffer := mkPrint {
  buffer : option (list Z); plength : Z; poffset : Z; pdepth : Z;
  noalloc : bool; format : bool; reallocate : bool }.

Definition with_buffer l n p := mkPrint l n (poffset p) (pdepth p) (noalloc p) (format p) (reallocate p).
Definition with_bytes l p := with_buffer (Some l) (plength p) p.
Definition with_poffset o p := mkPrint (buffer p) (plength p) o (pdepth p) (noalloc p) (format p) (reallocate p).
Definition with_pdepth d p := mkPrint (buffer p) (plength p) (poffset p) d (noalloc p) (format p) (reallocate p).

Definition INT_MAX : Z := 2 ^ 31 - 1.
Definition INT_MIN : Z := - 2 ^ 31.

(** [memcpy] of [l] to the start of a block. *)
Definition overlay (l block : list Z) : option (list Z) :=
  if (List.length l <=? List.length block)%nat then Some (l ++ drop (List.length l) block) else None.

(** The position to write at, when there is room for [needed] bytes and one more. *)
Definition ensure (p : printbuffer) (needed : Z) (m : mem) : option (option Z * printbuffer * mem) :=
  match buffer p with
  | None => Some (None, p, m)
  | Some l =>
      if (0 <? plength p) && (plength p <=? poffset p) then Some (None, p, m)
      else if INT_MAX <? needed then Some (None, p, m)
      else
        let needed := needed + poffset p + 1 in
        if needed <=? plength p then Some (Some (poffset p), p, m)
        else if noalloc p then Some (None, p, m)
        else
          let newsize := if INT_MAX / 2 <? needed then if needed <=? INT_MAX then Some INT_MAX else None
                         else Some (needed * 2) in
          match newsize with
          | None => Some (None, p, m)
          | Some newsize =>
              let '(ok, m) := sqlite3Malloc m in
              if ok : bool then
                keep ← (if reallocate p then Some (take (Z.to_nat (plength p)) l)
                        else if poffset p + 1 <=? zlen l
                             then Some (take (Z.to_nat (poffset p + 1)) l) else None);
                newbuffer ← overlay keep (malloc_bytes newsize);
                Some (Some (poffset p), with_buffer (Some newbuffer) newsize p, sqlite3_free m)
              else Some (None, with_buffer None 0 p, sqlite3_free m)
          end
  end.

(** Consecutive writes. *)
Fixpoint put (block : list Z) (i : Z) (l : list Z) : option (list Z) :=
  match l with
  | [] => Some block
  | c :: l => block ← wr block i c; put block (i + 1) l
  end.

(** A constant text with its terminator, where [ensure] asks for its size. *)
Definition print_text (p : printbuffer) (text : list Z) (m : mem) : option (bool * printbuffer * mem) :=
  '(output, p, m) ← ensure p (zlen text + 1) m;
  match output with
  | None => Some (false, p, m)
  | Some output =>
      l ← buffer p; l ← put l output (text ++ [0]); Some (true, with_bytes l p, m)
  end.

Definition update_offset (p : printbuffer) : option printbuffer :=
  match buffer p with
  | None => Some p
  | Some l => n ← strlen (drop (Z.to_nat (poffset p)) l); Some (with_poffset (poffset p + n) p)
  end.

(** ** Writing a string *)

(** The letter after the backslash. *)
Definition escape_letter (c : Z) : option Z :=
  if c =? 92 then Some 92
  else if c =? 34 then Some 34
  else if c =? 8 then Some 98
  else if c =? 12 then Some 102
  else if c =? 10 then Some 110
  else if c =? 13 then Some 114
  else if c =? 9 then Some 116
  else None.

(** The first loop: the characters of the string and those that escapes add. *)
Fixpoint escape_count (input : list Z) (escape_characters : Z) : option (Z * Z) :=
  match input with
  | [] => None
  | c :: input =>
      if c =? 0 then Some (0, escape_characters)
      else
        let added := match escape_letter c with
                     | Some _ => 1
                     | None => if c <? 32 then 4 else 0
                     end in
        '(n, e) ← escape_count input (escape_characters + added);
        Some (n + 1, e)
  end.

Definition hex_lower (d : Z) : Z := if d <? 10 then 48 + d else 87 + d.
(** [sprintf(z, "u%04x", c)] without the terminator, for a byte. *)
Definition hex4 (c : Z) : list Z := [117; 48; 48; hex_lower (c / 16); hex_lower (c mod 16)].

(** The second loop. *)
Fixpoint escape_loop (input : list Z) (output : list Z) (output_pointer : Z) : option (list Z) :=
  match input with
  | [] => None
  | c :: input =>
      if c =? 0 then Some output
      else if (31 <? c) && negb (c =? 34) && negb (c =? 92) then
        output ← wr output output_pointer c;
        escape_loop input output (output_pointer + 1)
      else
        output ← wr output output_pointer 92;
        match escape_letter c with
        | Some e =>
            output ← wr output (output_pointer + 1) e;
            escape_loop input output (output_pointer + 2)
        | None =>
            output ← put output (output_pointer + 1) (hex4 c ++ [0]);
            escape_loop input output (output_pointer + 6)
        end
  end.

Definition print_string_ptr (input : option (list Z)) (p : printbuffer) (m : mem)
  : option (bool * printbuffer * mem) :=
  match input with
  | None =>
      '(output, p, m) ← ensure p 3 m;
      match output with
      | None => Some (false, p, m)
      | Some output => l ← buffer p; l ← put l output [34; 34; 0]; Some (true, with_bytes l p, m)
      end
  | Some input =>
      '(n, escape_characters) ← escape_count input 0;
      let output_length := n + escape_characters in
      '(output, p, m) ← ensure p (output_length + 3) m;
      match output with
      | None => Some (false, p, m)
      | Some output =>
          l ← buffer p;
          l ← wr l output 34;
          l ← (if escape_characters =? 0
               then put l (output + 1) (take (Z.to_nat output_length) input)
               else escape_loop input l (output + 1));
          l ← wr l (output + output_length + 1) 34;
          l ← wr l (output + output_length + 2) 0;
          Some (true, with_bytes l p, m)
      end
  end.
End blocks.

(** ** Test data *)

(** Blocks of the size asked for, and with one byte more. *)
Definition exact_blocks (n : Z) : list Z := replicate (Z.to_nat n) 170.
Definition roomy_blocks (n : Z) : list Z := replicate (Z.to_nat (n + 1)) 170.
Definition empty_heap : heap := mkHeap ∅ ∅ 1 [].
