(* ===== verification/CJsonTextProofs.v ===== *)
(** Proofs about the strings of cJSON (CJsonText.v): reading a string is described by a
    function on the text between the quotes, which bounds what is written to
    the new block, and writing a string by the text of its characters. *)
From S2P Require Import Prelude CJsonHeap CJsonText.

(** ** Reference functions *)

(** Characters of a string's text that the search for the closing quote counts
    once: the text ends before an unescaped quote. *)
Inductive body : list Z → nat → Prop :=
  | body_nil : body [] 0
  | body_plain c s n : c ≠ 34 → c ≠ 92 → body s n → body (c :: s) (S n)
  | body_escape e s n : body s n → body (92 :: e :: s) (S n).

(** The value of four hexadecimal digits, 0 when one of them is not a digit. *)
Definition hex4_value (a b c d : Z) : Z :=
  match hex_digit a, hex_digit b, hex_digit c, hex_digit d with
  | Some a, Some b, Some c, Some d => ((a * 16 + b) * 16 + c) * 16 + d
  | _, _, _, _ => 0
  end.

(** UTF-8. *)
Definition utf8_bytes (c : Z) : list Z :=
  if c <? 0x80 then [c]
  else if c <? 0x800 then [0xC0 + c / 64; 0x80 + c mod 64]
  else if c <? 0x10000 then [0xE0 + c / 4096; 0x80 + c / 64 mod 64; 0x80 + c mod 64]
  else [0xF0 + c / 262144; 0x80 + c / 4096 mod 64; 0x80 + c / 64 mod 64; 0x80 + c mod 64].

(** What follows [\u]: the bytes of the character and the rest of the text. *)
Definition unicode_escape (s : list Z) : option (list Z * list Z) :=
  match s with
  | a :: b :: c :: d :: s =>
      let first := hex4_value a b c d in
      if (0xDC00 <=? first) && (first <=? 0xDFFF) then None
      else if (0xD800 <=? first) && (first <=? 0xDBFF) then
        match s with
        | 92 :: 117 :: a :: b :: c :: d :: s =>
            let second := hex4_value a b c d in
            if (0xDC00 <=? second) && (second <=? 0xDFFF)
            then Some (utf8_bytes (0x10000 + (first - 0xD800) * 1024 + (second - 0xDC00)), s)
            else None
        | _ => None
        end
      else Some (utf8_bytes first, s)
  | _ => None
  end.

(** The string that a text stands for.  A backslash in last place, which the digits
    of an invalid [\u] can leave, takes the closing quote for an escaped one. *)
Fixpoint unescape (fuel : nat) (s : list Z) : option (list Z) :=
  match fuel with
  | O => None
  | S fuel =>
      match s with
      | [] => Some []
      | c :: s =>
          if negb (c =? 92) then cons c <$> unescape fuel s
          else
            match s with
            | [] => Some [34]
            | e :: s =>
                match simple_escape e with
                | Some c => cons c <$> unescape fuel s
                | None =>
                    if e =? 117
                    then '(u, s) ← unicode_escape s; app u <$> unescape fuel s
                    else None
                end
            end
      end
  end.

(** Up to the closing quote: the text of the string and what follows the quote. *)
Fixpoint scan_ref (fuel : nat) (z : list Z) : option (list Z * list Z) :=
  match fuel with
  | O => None
  | S fuel =>
      match z with
      | [] => None
      | c :: z =>
          if c =? 34 then Some ([], z)
          else if c =? 92 then
            match z with
            | [] => None
            | e :: z => '(s, r) ← scan_ref fuel z; Some (92 :: e :: s, r)
            end
          else '(s, r) ← scan_ref fuel z; Some (c :: s, r)
      end
  end.

(** ** Reading *)

Lemma hex_digit_range c d : hex_digit c = Some d → 0 ≤ d < 16.
Proof.
  unfold hex_digit. repeat case_match; intros; simplify_eq; b2p; lia.
Qed.

Lemma hex4_value_range a b c d : 0 ≤ hex4_value a b c d < 65536.
Proof.
  unfold hex4_value.
  destruct (hex_digit a) eqn:Ha; [|lia]. destruct (hex_digit b) eqn:Hb; [|lia].
  destruct (hex_digit c) eqn:Hc; [|lia]. destruct (hex_digit d) eqn:Hd; [|lia].
  apply hex_digit_range in Ha, Hb, Hc, Hd. lia.
Qed.

(** Reads at a distance into the second part of the input. *)
Lemma rd_at (pre s : list Z) (k : nat) x : s !! k = Some x → (pre ++ s).[zlen pre + Z.of_nat k] = Some x.
Proof.
  intros H. rewrite rd_app_r by lia. replace (zlen pre + Z.of_nat k - zlen pre) with (Z.of_nat k) by lia.
  by rewrite rd_nat.
Qed.

Lemma parse_hex4_value pre a b c d s :
  parse_hex4 (pre ++ a :: b :: c :: d :: s) (zlen pre) = Some (hex4_value a b c d).
Proof.
  unfold parse_hex4. cbn [hex4_loop].
  rewrite (rd_at pre _ 0 a) by done. cbn [mbind option_bind]. unfold hex4_value.
  destruct (hex_digit a) as [x|] eqn:Ha; [|done]. apply hex_digit_range in Ha.
  rewrite (rd_at pre _ 1 b) by done. cbn [mbind option_bind].
  destruct (hex_digit b) as [y|] eqn:Hb; [|done]. apply hex_digit_range in Hb.
  rewrite (rd_at pre _ 2 c) by done. cbn [mbind option_bind].
  destruct (hex_digit c) as [z|] eqn:Hc; [|done]. apply hex_digit_range in Hc.
  rewrite (rd_at pre _ 3 d) by done. cbn [mbind option_bind].
  destruct (hex_digit d) as [t|] eqn:Hd; [|done]. apply hex_digit_range in Hd.
  change (0 <? 3) with true. change (0 + 1 <? 3) with true. change (0 + 1 + 1 <? 3) with true.
  change (0 + 1 + 1 + 1 <? 3) with false. cbv iota.
  rewrite !Z.shiftl_mul_pow2 by lia. change (2 ^ 4) with 16.
  repeat match goal with
  | |- context [u32 ?e] => lazymatch e with context [u32 _] => fail | _ => rewrite (u32_id e) by lia end
  end.
  f_equal; lia.
Qed.

(** ** The escape sequences of Unicode characters *)

Lemma utf8_bytes_length c : 1 ≤ zlen (utf8_bytes c) ≤ 4.
Proof. unfold utf8_bytes. repeat case_match; cbn; lia. Qed.

(** The encoding loop stores the bytes after the first and leaves its bits. *)
Lemma utf8_cont_byte c : 0 ≤ c → u8 (Z.land (Z.lor c 0x80) 0xBF) = 0x80 + c mod 64.
Proof.
  intros Hc.
  assert (E : Z.land (Z.lor c 0x80) 0xBF = Z.lor (c mod 64) (1 * 2 ^ 7)).
  { apply Z.bits_inj'. intros i Hi. rewrite Z.land_spec, !Z.lor_spec.
    change (c mod 64) with (c mod 2 ^ 6). rewrite Z.testbit_mod_pow2 by lia.
    destruct (Z.ltb_spec i 8).
    - assert (Hc8 : i = 0 ∨ i = 1 ∨ i = 2 ∨ i = 3 ∨ i = 4 ∨ i = 5 ∨ i = 6 ∨ i = 7) by lia.
      destruct (Z.testbit c i);
        destruct Hc8 as [ -> |[ -> |[ -> |[ -> |[ -> |[ -> |[ -> | -> ]]]]]]]; done.
    - assert (T1 : Z.testbit 0xBF i = false) by (apply (testbit_small _ 8); lia).
      assert (T2 : Z.testbit (1 * 2 ^ 7) i = false) by (apply (testbit_small _ 8); lia).
      rewrite T1, T2, andb_false_r. destruct (Z.ltb_spec i 6); [lia|done]. }
  pose proof (Z.mod_pos_bound c 64). rewrite E, lor_add by lia. rewrite u8_id; lia.
Qed.

Lemma lead_byte m k c : 0 ≤ k → 0 ≤ c < 2 ^ k → m mod 2 ^ k = 0 → 0 ≤ m < 256 → m + c < 256 →
  Z.land (Z.lor c m) 0xFF = m + c.
Proof.
  intros Hk Hc Hm Hr Hlt.
  assert (E : m = m / 2 ^ k * 2 ^ k) by (pose proof (Z.div_mod m (2 ^ k)); lia).
  rewrite E at 1. rewrite lor_add by lia. rewrite <- E.
  change 0xFF with (Z.ones 8). rewrite Z.land_ones by lia. rewrite Z.mod_small; lia.
Qed.

(** The bytes of the output from a position on. *)
Definition writes (l : list Z) (i : Z) (out l' : list Z) : Prop :=
  l' = take (Z.to_nat i) l ++ out ++ drop (Z.to_nat i + List.length out) l.

Lemma writes_nil l i : writes l i [] l.
Proof. unfold writes. cbn. by rewrite Nat.add_0_r, take_drop. Qed.

Lemma writes_length l i out l' : 0 ≤ i → i + zlen out ≤ zlen l → writes l i out l' → zlen l' = zlen l.
Proof. intros Hi Hl ->. rewrite !length_app, length_take, length_drop. lia. Qed.

Lemma wr_writes l i c : 0 ≤ i < zlen l → ∃ l', wr l i c = Some l' ∧ writes l i [c] l'.
Proof.
  intros Hi. rewrite wr_in_bounds by done. eexists; split; [done|].
  unfold writes. cbn [List.length]. rewrite insert_take_drop by lia. by rewrite Nat.add_1_r.
Qed.

Lemma writes_app l i o1 l1 o2 l2 :
  0 ≤ i → i + zlen o1 + zlen o2 ≤ zlen l → writes l i o1 l1 → writes l1 (i + zlen o1) o2 l2 → writes l i (o1 ++ o2) l2.
Proof.
  unfold writes. intros Hi Hl -> ->.
  replace (Z.to_nat (i + zlen o1)) with (Z.to_nat i + List.length o1)%nat by lia.
  assert (Ht : List.length (take (Z.to_nat i) l) = Z.to_nat i) by (rewrite length_take; lia).
  rewrite take_app_ge by lia. rewrite Ht.
  rewrite take_app_ge by lia.
  replace (Z.to_nat i + _ - Z.to_nat i - _)%nat with 0%nat by lia. rewrite take_0, app_nil_r.
  rewrite drop_app_ge by lia. rewrite Ht, drop_app_ge by lia. rewrite drop_drop, <- !app_assoc.
  do 4 f_equal. rewrite length_app. lia.
Qed.

Lemma wr_app (l1 : list Z) x l2 i c : i = zlen l1 → wr (l1 ++ x :: l2) i c = Some (l1 ++ c :: l2).
Proof.
  intros ->. rewrite wr_in_bounds by len. rewrite Nat2Z.id, <- (Nat.add_0_r (List.length l1)), insert_app_r. done.
Qed.

(** The continuation bytes of the low [6 * n] bits. *)
Fixpoint cont_bytes (n : nat) (c : Z) : list Z :=
  match n with
  | O => []
  | S n => cont_bytes n (c / 64) ++ [0x80 + c mod 64]
  end.

Lemma cont_bytes_length n c : List.length (cont_bytes n c) = n.
Proof. revert c. induction n as [|n IH]; intros c; [done|]. cbn. rewrite length_app, IH. cbn. lia. Qed.

Lemma utf8_tail_writes n c a x ys b :
  0 ≤ c → List.length ys = n →
  utf8_tail n c (a ++ x :: ys ++ b) (zlen a) = Some (c / 64 ^ Z.of_nat n, a ++ x :: cont_bytes n c ++ b).
Proof.
  revert c ys b. induction n as [|n IH]; intros c ys b Hc Hn.
  - destruct ys; [|done]. cbn. by rewrite Z.div_1_r.
  - destruct ys as [|y ys _] using rev_ind; [done|]. rewrite length_app in Hn. cbn [List.length] in Hn.
    cbn [utf8_tail]. rewrite utf8_cont_byte by done.
    replace (a ++ x :: (ys ++ [y]) ++ b) with ((a ++ x :: ys) ++ y :: b) by (by rewrite <- !app_assoc).
    rewrite wr_app by len. cbn [mbind option_bind].
    replace ((a ++ x :: ys) ++ _ :: b) with (a ++ x :: ys ++ (0x80 + c mod 64) :: b) by (by rewrite <- !app_assoc).
    rewrite Z.shiftr_div_pow2 by lia. rewrite IH by (try lia; apply Z.div_pos; lia).
    cbn [cont_bytes]. rewrite <- app_assoc. cbn [app]. change (2 ^ 6) with 64.
    rewrite Z.div_div by lia. rewrite Nat2Z.inj_succ, Z.pow_succ_r by lia. done.
Qed.

Lemma writes_split (a ys b out : list Z) :
  List.length ys = List.length out → writes (a ++ ys ++ b) (zlen a) out (a ++ out ++ b).
Proof.
  intros Hl. unfold writes. rewrite Nat2Z.id, take_app_length, drop_app_ge by lia.
  replace (List.length a + List.length out - List.length a)%nat with (List.length ys) by lia.
  by rewrite drop_app_length.
Qed.

(** Splitting a block at a position with room for some bytes. *)
Lemma split_block (l : list Z) i (n : nat) :
  0 ≤ i → i + Z.of_nat n ≤ zlen l → ∃ a ys b, l = a ++ ys ++ b ∧ zlen a = i ∧ List.length ys = n.
Proof.
  intros Hi Hn. exists (take (Z.to_nat i) l), (take n (drop (Z.to_nat i) l)), (drop n (drop (Z.to_nat i) l)).
  rewrite !take_drop, !length_take, length_drop. split; [done|]. lia.
Qed.

Lemma encode_writes c l op :
  0 ≤ c ≤ 0x10FFFF → 0 ≤ op → op + zlen (utf8_bytes c) ≤ zlen l →
  ∃ l', utf8_encode c l op = Some (Some (l', op + zlen (utf8_bytes c))) ∧ writes l op (utf8_bytes c) l'.
Proof.
  intros Hc Hop. 
  assert (Hfirst : ∀ n m k, (0 < n)%nat →
    utf8_bytes c = (m + c / 64 ^ Z.of_nat n) :: cont_bytes n c →
    0 ≤ k → c / 64 ^ Z.of_nat n < 2 ^ k → m mod 2 ^ k = 0 → 0 ≤ m < 256 → m + 2 ^ k ≤ 256 →
    op + zlen (utf8_bytes c) ≤ zlen l →
    ∃ l', ('(c, o) ← utf8_tail n c l op; o ← wr o op (Z.land (Z.lor c m) 0xFF); Some (Some (o, op + Z.of_nat (S n))))
       = Some (Some (l', op + zlen (utf8_bytes c))) ∧ writes l op (utf8_bytes c) l').
  { intros n m k Hn Hb Hk Hlt Hm Hm2 Hmk Hr. rewrite Hb in *. cbn [List.length] in *. rewrite cont_bytes_length in *.
    destruct (split_block l op (S n)) as (a & ys & b & -> & <- & Hy); [lia|lia|].
    destruct ys as [|y ys]; [done|]. cbn in Hy. change ((y :: ys) ++ b) with (y :: ys ++ b).
    rewrite utf8_tail_writes by lia. cbn [mbind option_bind].
    assert (Hp : 0 ≤ c / 64 ^ Z.of_nat n) by (apply Z.div_pos; [lia|apply Z.pow_pos_nonneg; lia]).
    rewrite (lead_byte m k) by lia.
    rewrite wr_app by done. cbn [mbind option_bind]. eexists; split; [done|].
    apply (writes_split a (y :: ys) b (_ :: _)). cbn. rewrite cont_bytes_length. lia. }
  unfold utf8_encode. intros Hr. destruct (Z.ltb_spec c 0x80) as [H1|H1].
  { cbn [Nat.eqb Nat.sub Nat.ltb Nat.leb utf8_tail mbind option_bind].
    assert (Hb : utf8_bytes c = [c]) by (unfold utf8_bytes; destruct (Z.ltb_spec c 0x80); [done|lia]).
    rewrite Hb in *. change 0x7F with (Z.ones 7). rewrite Z.land_ones, Z.mod_small by lia.
    cbn [List.length] in *.
    destruct (wr_writes l op c) as (l' & -> & Hw); [lia|]. by exists l'. }
  destruct (Z.ltb_spec c 0x800) as [H2|H2].
  { apply (Hfirst 1%nat 0xC0 5); [lia| |lia|change (64 ^ Z.of_nat 1) with 64; zdm|done|lia|lia|lia].
    unfold utf8_bytes. destruct (Z.ltb_spec c 0x80); [lia|]. destruct (Z.ltb_spec c 0x800); [|lia]. done. }
  destruct (Z.ltb_spec c 0x10000) as [H3|H3].
  { apply (Hfirst 2%nat 0xE0 4); [lia| |lia|change (64 ^ Z.of_nat 2) with 4096; zdm|done|lia|lia|lia].
    unfold utf8_bytes. destruct (Z.ltb_spec c 0x80); [lia|]. destruct (Z.ltb_spec c 0x800); [lia|].
    destruct (Z.ltb_spec c 0x10000); [|lia]. done. }
  destruct (Z.leb_spec c 0x10FFFF) as [H4|H4]; [|lia].
  apply (Hfirst 3%nat 0xF0 3); [lia| |lia|change (64 ^ Z.of_nat 3) with 262144; zdm|done|lia|lia|lia].
  unfold utf8_bytes. destruct (Z.ltb_spec c 0x80); [lia|]. destruct (Z.ltb_spec c 0x800); [lia|].
  destruct (Z.ltb_spec c 0x10000); [lia|]. cbn [cont_bytes app]. rewrite !Z.div_div by lia. done.
Qed.

Lemma surrogate_pair f s :
  0xD800 ≤ f ≤ 0xDBFF → 0xDC00 ≤ s ≤ 0xDFFF →
  Z.lor (Z.shiftl (Z.land f 0x3FF) 10) (Z.land s 0x3FF) = (f - 0xD800) * 1024 + (s - 0xDC00).
Proof.
  intros Hf Hs. change 0x3FF with (Z.ones 10). rewrite !Z.land_ones, Z.shiftl_mul_pow2 by lia.
  rewrite Z.lor_comm, lor_add by zdm. zdm.
Qed.

(** [utf16_literal_to_utf8] at a [\u] inside a text. *)
Lemma utf16_literal pre s post l op :
  0 ≤ op →
  let lit := utf16_literal_to_utf8 (pre ++ 92 :: 117 :: s ++ post) (zlen pre) (zlen pre + 2 + zlen s) l op in
  match unicode_escape s with
  | None => lit = Some (0, l, op)
  | Some (u, s') =>
      op + zlen u ≤ zlen l →
      ∃ t l', lit = Some (zlen t, l', op + zlen u) ∧ writes l op u l' ∧ 92 :: 117 :: s = t ++ s' ∧ 6 ≤ zlen t
  end.
Proof.
  intros Hop lit. subst lit. unfold utf16_literal_to_utf8.
  destruct s as [|a [|b [|c [|d s]]]];
    try (cbn [unicode_escape]; case_cmp; [done|cbn [List.length] in *; lia]).
  cbn [unicode_escape]. destruct (Z.ltb_spec (zlen pre + 2 + zlen (a :: b :: c :: d :: s) - zlen pre) 6) as [E|_];
    [cbn [List.length] in E; lia|].
  replace (pre ++ 92 :: 117 :: (a :: b :: c :: d :: s) ++ post) with ((pre ++ [92; 117]) ++ a :: b :: c :: d :: s ++ post)
    by (by rewrite <- app_assoc).
  replace (zlen pre + 2) with (zlen (pre ++ [92; 117])) by len.
  rewrite parse_hex4_value. cbn [mbind option_bind]. pose proof (hex4_value_range a b c d) as Hr.
  set (first := hex4_value a b c d) in *.
  destruct ((0xDC00 <=? first) && (first <=? 0xDFFF)) eqn:E1; [done|].
  destruct ((0xD800 <=? first) && (first <=? 0xDBFF)) eqn:E2.
  - destruct (Z.ltb_spec (zlen (pre ++ [92; 117]) + zlen (a :: b :: c :: d :: s) - (zlen pre + 6)) 6) as [E|E].
    { destruct s as [|x [|y [|a' [|b' [|c' [|d' s]]]]]]; len_in E; try (cbn [List.length] in E; lia);
        cbn [mbind option_bind]; repeat case_match; try done; simplify_eq. }
    destruct s as [|x [|y [|a' [|b' [|c' [|d' s]]]]]]; len_in E; try (cbn [List.length] in E; lia).
    replace ((pre ++ [92; 117]) ++ a :: b :: c :: d :: (x :: y :: a' :: b' :: c' :: d' :: s) ++ post)
      with ((pre ++ [92; 117; a; b; c; d]) ++ x :: y :: a' :: b' :: c' :: d' :: s ++ post) by (by rewrite <- !app_assoc).
    replace (zlen pre + 6) with (zlen (pre ++ [92; 117; a; b; c; d])) by len.
    rewrite rd_app_head. cbn [mbind option_bind].
    destruct (Z.eqb_spec x 92) as [ -> |Hx]; cbn [mbind option_bind negb orb].
    2: { repeat case_match; try done; simplify_eq. }
    rewrite (rd_at _ _ 1 y) by done. cbn [mbind option_bind].
    destruct (Z.eqb_spec y 117) as [ -> |Hy]; cbn [mbind option_bind negb].
    2: { repeat case_match; try done; simplify_eq. }
    replace ((pre ++ [92; 117; a; b; c; d]) ++ 92 :: 117 :: a' :: b' :: c' :: d' :: s ++ post)
      with ((pre ++ [92; 117; a; b; c; d; 92; 117]) ++ a' :: b' :: c' :: d' :: s ++ post) by (by rewrite <- !app_assoc).
    replace (zlen (pre ++ [92; 117; a; b; c; d]) + 2) with (zlen (pre ++ [92; 117; a; b; c; d; 92; 117])) by len.
    rewrite parse_hex4_value. cbn [mbind option_bind]. pose proof (hex4_value_range a' b' c' d') as Hr'.
    set (second := hex4_value a' b' c' d') in *.
    destruct (Z.ltb_spec second 0xDC00); destruct (Z.leb_spec 0xDC00 second); try lia; [done|].
    destruct (Z.ltb_spec 0xDFFF second); destruct (Z.leb_spec second 0xDFFF); try lia; [done|].
    cbn [andb orb mbind option_bind]. intros Hl. b2p.
    rewrite surrogate_pair by lia. rewrite Z.add_assoc in *.
    destruct (encode_writes (0x10000 + (first - 0xD800) * 1024 + (second - 0xDC00)) l op)
      as (l' & E' & Hw); [lia|lia|lia|].
    rewrite E'. cbn [mbind option_bind].
    exists [92; 117; a; b; c; d; 92; 117; a'; b'; c'; d'], l'. repeat split; [done|cbn; lia].
  - intros Hl. cbn [mbind option_bind]. destruct (encode_writes first l op) as (l' & E & Hw); [lia|lia|lia|].
    rewrite E. cbn [mbind option_bind]. exists [92; 117; a; b; c; d], l'. repeat split; [done|cbn; lia].
Qed.

(** ** The length of the string against that of its text *)

(** What the reading loop can have before it: the search for the closing quote counts at
    most [n] characters in it, where the first may be the second half of an escape. *)
Definition text (s : list Z) (n : nat) : Prop :=
  ∃ m, (m ≤ n)%nat ∧ (body s m ∨ ∃ c s' k, s = c :: s' ∧ body s' k ∧ m = S k).

Lemma text_intro s m n : body s m → (m ≤ n)%nat → text s n.
Proof. intros Hb Hm. exists m. auto. Qed.
Lemma text_half c s k n : body s k → (S k ≤ n)%nat → text (c :: s) n.
Proof. intros Hb Hm. exists (S k). split; [done|]. right. by exists c, s, k. Qed.
Lemma text_mono s m n : text s m → (m ≤ n)%nat → text s n.
Proof. intros (k & Hk & H) Hm. exists k. split; [lia|done]. Qed.

Lemma text_plain c s n : c ≠ 92 → text (c :: s) n → ∃ m, text s m ∧ (S m ≤ n)%nat.
Proof.
  intros Hc (m & Hm & [H | (c' & s' & k & [= <- <-] & H & ->)]); inversion H; simplify_eq;
    eexists; (split; [by eapply text_intro|lia]).
Qed.

Lemma text_escape e s n : text (92 :: e :: s) n → ∃ m, text s m ∧ (S m ≤ n)%nat.
Proof.
  intros (m & Hm & [H | (c' & s' & k & [= <- <-] & H & ->)]).
  - inversion H; simplify_eq. eexists; split; [by eapply text_intro|lia].
  - inversion H; simplify_eq; eexists.
    + split; [by eapply text_intro|lia].
    + split; [by eapply text_half|lia].
Qed.

Lemma text_skip c s n : text (c :: s) n → text s n.
Proof.
  intros (m & Hm & [H | (c' & s' & k & [= <- <-] & H & ->)]).
  - inversion H; simplify_eq; [eapply text_intro; [done|lia]|]. eapply text_half; [done|lia].
  - eapply text_intro; [done|lia].
Qed.

Lemma hex_digit_plain c : is_Some (hex_digit c) → c ≠ 92.
Proof. intros [d H] ->. done. Qed.

Lemma text_hex4 a b c d s n :
  hex4_value a b c d ≠ 0 → text (a :: b :: c :: d :: s) n → ∃ m, text s m ∧ (4 + m ≤ n)%nat.
Proof.
  unfold hex4_value.
  destruct (hex_digit a) eqn:Ha; [|done]. destruct (hex_digit b) eqn:Hb; [|done].
  destruct (hex_digit c) eqn:Hc; [|done]. destruct (hex_digit d) eqn:Hd; [|done]. intros _ H.
  apply text_plain in H as (m1 & H & ?); [|by apply hex_digit_plain].
  apply text_plain in H as (m2 & H & ?); [|by apply hex_digit_plain].
  apply text_plain in H as (m3 & H & ?); [|by apply hex_digit_plain].
  apply text_plain in H as (m4 & H & ?); [|by apply hex_digit_plain].
  exists m4. split; [done|lia].
Qed.

Lemma utf8_bytes_bmp c : c < 0x10000 → zlen (utf8_bytes c) ≤ 3.
Proof. intros Hc. unfold utf8_bytes. repeat case_match; b2p; cbn; lia. Qed.

Lemma unicode_escape_text s n u s' :
  text (92 :: 117 :: s) n → unicode_escape s = Some (u, s') →
  ∃ m, text s' m ∧ zlen u + Z.of_nat m ≤ Z.of_nat n.
Proof.
  intros Ht Hu. apply text_escape in Ht as (n1 & Ht & Hn1).
  destruct s as [|a [|b [|c [|d s]]]]; try done. cbn [unicode_escape] in Hu.
  pose proof (hex4_value_range a b c d) as Hr.
  destruct (decide (hex4_value a b c d = 0)) as [H0|H0].
  { rewrite H0 in Hu. cbn in Hu. injection Hu as <- <-. exists n1.
    split; [by do 4 apply text_skip in Ht|]. cbn. lia. }
  apply text_hex4 in Ht as (n2 & Ht & Hn2); [|done].
  destruct (_ && _) eqn:E1 in Hu; [done|]. destruct (_ && _) eqn:E2 in Hu.
  - repeat case_match; try done. injection Hu as <- <-.
    apply text_escape in Ht as (n3 & Ht & Hn3).
    apply text_hex4 in Ht as (n4 & Ht & Hn4); [|b2p; lia].
    exists n4. split; [done|]. pose proof (utf8_bytes_length (0x10000 + (hex4_value a b c d - 55296) * 1024 + (hex4_value z1 z2 z3 z4 - 56320))). lia.
  - injection Hu as <- <-. exists n2. split; [done|]. pose proof (utf8_bytes_bmp (hex4_value a b c d)). lia.
Qed.

Lemma unicode_escape_suffix s u s' : unicode_escape s = Some (u, s') → (List.length s' < List.length s)%nat.
Proof. unfold unicode_escape. intros H. repeat case_match; simplify_eq; cbn; lia. Qed.

(** The loop through a string's text. *)
Lemma unescape_loop_ref f1 f2 pre s post n l op :
  (List.length s < f1)%nat → (List.length s < f2)%nat → text s n → 0 ≤ op → op + Z.of_nat n ≤ zlen l →
  let r := unescape_loop f1 (pre ++ s ++ 34 :: post) (zlen pre + zlen s) (zlen pre) l op in
  match unescape f2 s with
  | Some out => zlen out ≤ Z.of_nat n ∧
      ∃ ip l', r = Some (true, ip, l', op + zlen out) ∧ writes l op out l'
  | None => ∃ ip l' op', r = Some (false, ip, l', op')
  end.
Proof.
  revert f2 pre s n l op. induction f1 as [|f1 IH]; intros f2 pre s n l op H1 H2 Ht Hop Hroom; [lia|].
  destruct f2 as [|f2]; [lia|]. cbn [unescape unescape_loop].
  destruct s as [|c s].
  { cbn [List.length Z.of_nat]. rewrite !Z.add_0_r, Z.ltb_irrefl.
    split; [lia|]. exists (zlen pre), l. split; [done|apply writes_nil]. }
  destruct (Z.ltb_spec (zlen pre) (zlen pre + zlen (c :: s))); [|cbn [List.length] in *; lia].
  cbn [app]. rewrite rd_app_head. cbn [mbind option_bind]. cbn [List.length] in H1, H2.
  (* one character written, then the rest from [k] bytes further *)
  assert (Hone : ∀ x t s' m, c :: s = t ++ s' → (List.length s' < S (List.length s))%nat → text s' m → (S m ≤ n)%nat →
    match cons x <$> unescape f2 s' with
    | Some out => zlen out ≤ Z.of_nat n ∧ ∃ ip l',
        (o ← wr l op x; unescape_loop f1 (pre ++ c :: s ++ 34 :: post) (zlen pre + zlen (c :: s)) (zlen pre + zlen t) o (op + 1))
          = Some (true, ip, l', op + zlen out) ∧ writes l op out l'
    | None => ∃ ip l' op',
        (o ← wr l op x; unescape_loop f1 (pre ++ c :: s ++ 34 :: post) (zlen pre + zlen (c :: s)) (zlen pre + zlen t) o (op + 1))
          = Some (false, ip, l', op')
    end).
  { intros x t s' m Hs Hl Ht' Hm. destruct (wr_writes l op x) as (l1 & -> & Hw); [lia|]. cbn [mbind option_bind].
    assert (Hlen : zlen l1 = zlen l) by (apply (writes_length l op [x]); [done|cbn [List.length]; lia|done]).
    specialize (IH f2 (pre ++ t) s' m l1 (op + 1) ltac:(lia) ltac:(lia) Ht' ltac:(lia) ltac:(lia)).
    cbv zeta in IH. rewrite <- app_assoc in IH. change (c :: s ++ 34 :: post) with ((c :: s) ++ 34 :: post).
    rewrite Hs, <- app_assoc. rewrite length_app, Nat2Z.inj_add in IH |- *.
    rewrite !Z.add_assoc in *.
    destruct (unescape f2 s') as [out|]; cbn [fmap option_fmap option_map]; [|exact IH].
    destruct IH as (Hn & ip & l' & E & Hw2). cbn [List.length].
    split; [lia|]. exists ip, l'. split; [rewrite E; do 2 f_equal; lia|].
    apply (writes_app l op [x] l1 out l'); [lia|cbn [List.length]; lia|done|done]. }
  destruct (Z.eqb_spec c 92) as [ -> |Hc]; cbn [negb].
  2: { destruct (text_plain _ _ _ Hc Ht) as (m & Ht' & Hm). 
       specialize (Hone c [c] s m eq_refl ltac:(lia) Ht' Hm). exact Hone. }
  destruct (Z.ltb_spec (zlen pre + zlen (92 :: s) - zlen pre) 1); [cbn [List.length] in *; lia|].
  destruct s as [|e s].
  { rewrite (rd_at pre _ 1 34) by done. cbn [mbind option_bind].
    change (simple_escape 34) with (Some 34). cbv iota.
    destruct (wr_writes l op 34) as (l1 & -> & Hw).
    { destruct Ht as (m & Hm & [H' | (c' & s' & k & [= <- <-] & H' & ->)]); [by inversion H'|lia]. }
    cbn [mbind option_bind]. destruct f1 as [|f1]; [cbn in H1; lia|]. cbn [unescape_loop].
    destruct (Z.ltb_spec (zlen pre + 2) (zlen pre + zlen [92])); [cbn [List.length] in *; lia|].
    split; [|by eexists _, _].
    destruct Ht as (m & Hm & [H' | (c' & s' & k & [= <- <-] & H' & ->)]); [by inversion H'|cbn; lia]. }
  rewrite (rd_at pre _ 1 e) by done. cbn [mbind option_bind]. cbn [List.length] in H1, H2.
  destruct (simple_escape e) as [x|] eqn:Ex.
  { destruct (text_escape _ _ _ Ht) as (m & Ht' & Hm).
    specialize (Hone x [92; e] s m eq_refl ltac:(cbn; lia) Ht' Hm). exact Hone. }
  destruct (Z.eqb_spec e 117) as [ -> |He].
  2: { by eexists _, _, _. }
  pose proof (utf16_literal pre s (34 :: post) l op Hop) as Hlit. cbv zeta in Hlit.
  replace (zlen pre + 2 + zlen s) with (zlen pre + zlen (92 :: 117 :: s)) in Hlit by (cbn [List.length]; lia).
  cbn [app] in Hlit |- *.
  destruct (unicode_escape s) as [[u s']|] eqn:Eu.
  2: { rewrite Hlit. cbn. by eexists _, _, _. }
  destruct (unicode_escape_text _ _ _ _ Ht Eu) as (m & Ht' & Hm).
  destruct Hlit as (t & l1 & -> & Hw & Es & Ht6); [lia|]. cbn [mbind option_bind].
  destruct (Z.eqb_spec (zlen t) 0); [lia|].
  pose proof (unicode_escape_suffix _ _ _ Eu) as Hsuf.
  assert (Hlen : zlen l1 = zlen l) by (apply (writes_length l op u); [done|lia|done]).
  specialize (IH f2 (pre ++ t) s' m l1 (op + zlen u) ltac:(lia) ltac:(lia) Ht' ltac:(lia) ltac:(lia)).
  cbv zeta in IH. rewrite <- app_assoc in IH.
  change (92 :: 117 :: s ++ 34 :: post) with ((92 :: 117 :: s) ++ 34 :: post).
  rewrite Es, <- app_assoc. rewrite length_app, Nat2Z.inj_add in IH |- *.
  rewrite !Z.add_assoc in *. cbn [mbind option_bind].
  destruct (unescape f2 s') as [out|]; cbn [fmap option_fmap option_map]; [|exact IH].
  destruct IH as (Hn & ip & l' & E & Hw2). rewrite length_app, Nat2Z.inj_add. split; [lia|].
  exists ip, l'. split; [rewrite E; do 2 f_equal; lia|].
  apply (writes_app l op u l1 out l'); [lia|lia|done|done].
Qed.

Definition unescape_string (s : list Z) : option (list Z) := unescape (S (List.length s)) s.

(** No escape of the text is a [\u]. *)
Fixpoint no_unicode (s : list Z) : bool :=
  match s with
  | [] => true
  | c :: s =>
      if c =? 92 then match s with [] => true | e :: s => negb (e =? 117) && no_unicode s end
      else no_unicode s
  end.

Lemma unescape_length f s n out :
  (List.length s < f)%nat → text s n → unescape f s = Some out → zlen out ≤ Z.of_nat n.
Proof.
  intros Hf Ht Hu.
  pose proof (unescape_loop_ref f f [] s [] n (replicate n 0) 0 Hf Hf Ht ltac:(lia)) as H.
  rewrite length_replicate, Hu in H. apply H. lia.
Qed.

Lemma unicode_escape_shrinks s n u s' :
  body (92 :: 117 :: s) n → unicode_escape s = Some (u, s') →
  ∃ m, text s' m ∧ zlen u + Z.of_nat m < Z.of_nat n.
Proof.
  intros Hb Hu. destruct s as [|a [|b [|c [|d s]]]]; try done.
  pose proof (hex4_value_range a b c d) as Hr.
  destruct (decide (hex4_value a b c d = 0)) as [H0|H0].
  - cbn [unicode_escape] in Hu. rewrite H0 in Hu. cbn in Hu. injection Hu as <- <-.
    inversion Hb as [|? ? ? _ ? _|e s' k Hb']; simplify_eq. exists (pred k).
    inversion Hb' as [|? ? k' _ _ Hs|? ? k' Hs]; simplify_eq; cbn [pred].
    + split; [|cbn [List.length]; lia]. 
      apply text_skip with d, text_skip with c, text_skip with b. by apply (text_intro _ k').
    + split; [|cbn [List.length]; lia]. apply text_skip with d, text_skip with c. by apply (text_intro _ k').
  - assert (Ht : text (92 :: 117 :: a :: b :: c :: d :: s) n) by by apply (text_intro _ n).
    apply text_escape in Ht as (n1 & Ht & Hn1). apply text_hex4 in Ht as (n2 & Ht & Hn2); [|done].
    cbn [unicode_escape] in Hu. destruct (_ && _) eqn:E1 in Hu; [done|]. destruct (_ && _) eqn:E2 in Hu.
    + assert (Hu' : ∃ u', unicode_escape (a :: b :: c :: d :: s) = Some (u', s') ∧ u = u' ∧ zlen u ≤ 4).
      { exists u. cbn [unicode_escape]. rewrite E1, E2. split_and!; [done|done|].
        repeat case_match; try done. injection Hu as <- <-. apply utf8_bytes_length. }
      destruct Hu' as (u' & _ & _ & Hu4). repeat case_match; try done. injection Hu as <- <-.
      do 6 apply text_skip in Ht. exists n2. split; [done|lia].
    + injection Hu as <- <-. exists n2. split; [done|]. pose proof (utf8_bytes_bmp (hex4_value a b c d)). lia.
Qed.

Lemma unescape_exact f s n out :
  (List.length s < f)%nat → body s n → unescape f s = Some out →
  if no_unicode s then zlen out = Z.of_nat n else zlen out < Z.of_nat n.
Proof.
  intros Hf Hb. revert f out Hf. induction Hb as [|c s n Hc1 Hc2 Hb IH|e s n Hb IH]; intros f out Hf Hu;
    (destruct f as [|f]; [lia|]); cbn [unescape no_unicode] in *.
  - by injection Hu as <-.
  - destruct (Z.eqb_spec c 92); [done|]. cbn [negb] in Hu.
    apply fmap_Some in Hu as (o & Hu & ->). cbn [List.length] in *.
    specialize (IH f o ltac:(lia) Hu). destruct (no_unicode s); lia.
  - cbn [Z.eqb Pos.eqb negb] in *. cbn [List.length] in Hf.
    destruct (simple_escape e) eqn:Ee.
    { destruct (Z.eqb_spec e 117) as [ -> |]; [done|]. cbn [negb andb].
      apply fmap_Some in Hu as (o & Hu & ->). cbn [List.length] in *.
      specialize (IH f o ltac:(lia) Hu). destruct (no_unicode s); lia. }
    destruct (Z.eqb_spec e 117) as [ -> |]; [|done]. cbn [negb andb].
    destruct (unicode_escape s) as [[u s']|] eqn:Eu; [|done]. cbn [mbind option_bind] in Hu.
    apply fmap_Some in Hu as (o & Hu & ->).
    destruct (unicode_escape_shrinks s (S n) u s') as (m & Ht & Hm); [by constructor|done|].
    apply unicode_escape_suffix in Eu. apply (unescape_length f s' m) in Hu; [|lia|done].
    rewrite length_app. lia.
Qed.

(** ** Finding the closing quote *)

(** A parse buffer whose remaining input is [z]. *)
Definition at_input (b : parse_buffer) (z : list Z) : Prop :=
  ∃ pre tail, content b = pre ++ z ++ tail ∧ offset b = zlen pre ∧ length b = zlen pre + zlen z.

(** The same buffer at another place. *)
Definition moved (b b' : parse_buffer) : Prop := depth b' = depth b ∧ length b' = length b ∧ content b' = content b.

Lemma scan_string_ref f1 f2 b pre z tail k :
  content b = pre ++ z ++ tail → length b = zlen pre + zlen z →
  (List.length z < f1)%nat → (List.length z < f2)%nat →
  match scan_ref f2 z with
  | Some (s, r) => z = s ++ 34 :: r ∧ ∃ n, body s n ∧
      scan_string f1 b (zlen pre) k = Some (Some (zlen pre + zlen s, k + zlen s - Z.of_nat n))
  | None => scan_string f1 b (zlen pre) k = Some None ∨
      ∃ e k', scan_string f1 b (zlen pre) k = Some (Some (e, k')) ∧ length b ≤ e
  end.
Proof.
  revert f2 pre z k. induction f1 as [|f1 IH]; intros f2 pre z k Hc Hl H1 H2; [lia|].
  destruct f2 as [|f2]; [lia|]. cbn [scan_string scan_ref]. destruct z as [|c z].
  { cbn [List.length] in Hl. destruct (Z.ltb_spec (zlen pre) (length b)); [lia|]. right. eexists _, _. split; [done|lia]. }
  cbn [List.length] in *. destruct (Z.ltb_spec (zlen pre) (length b)); [|lia].
  rewrite Hc. cbn [app]. rewrite rd_app_head. cbn [mbind option_bind].
  destruct (Z.eqb_spec c 34) as [ -> |Hc34].
  { split; [done|]. exists 0%nat. split; [constructor|]. cbn [List.length]. do 3 f_equal; lia. }
  destruct (Z.eqb_spec c 92) as [ -> |Hc92].
  - destruct (Z.leb_spec (length b) (zlen pre + 1)).
    { destruct z; [|cbn [List.length] in *; lia]. by left. }
    destruct z as [|e z]; [cbn [List.length] in *; lia|]. cbn [List.length] in *.
    specialize (IH f2 (pre ++ [92; e]) z (k + 1)). rewrite <- app_assoc in IH.
    replace (zlen (pre ++ [92; e])) with (zlen pre + 2) in IH by len.
    specialize (IH Hc ltac:(lia) ltac:(lia) ltac:(lia)).
    destruct (scan_ref f2 z) as [[s r]|]; cbn [mbind option_bind]; [|exact IH].
    destruct IH as (-> & n & Hb & E). split; [done|]. exists (S n). split; [by constructor|].
    rewrite E. cbn [List.length]. do 3 f_equal; lia.
  - specialize (IH f2 (pre ++ [c]) z k). rewrite <- app_assoc in IH.
    replace (zlen (pre ++ [c])) with (zlen pre + 1) in IH by len.
    specialize (IH Hc ltac:(lia) ltac:(lia) ltac:(lia)).
    destruct (scan_ref f2 z) as [[s r]|]; cbn [mbind option_bind]; [|exact IH].
    destruct IH as (-> & n & Hb & E). split; [done|]. exists (S n). split; [by constructor|].
    rewrite E. cbn [List.length]. do 3 f_equal; lia.
Qed.

(** ** [parse_string] *)

(** A string at the start of an input: what it stands for and the rest of the input. *)
Definition string_ref (z : list Z) : option (list Z * list Z) :=
  match z with
  | c :: z =>
      if c =? 34 then
        '(s, r) ← scan_ref (S (List.length z)) z; out ← unescape_string s; Some (out, r)
      else None
  | [] => None
  end.

Lemma buffer_at_0 b c z : at_input b (c :: z) → buffer_at b 0 = Some c.
Proof.
  intros (pre & tail & Hc & Ho & Hl). unfold buffer_at. rewrite Hc, Ho, Z.add_0_r.
  cbn [app]. apply rd_app_head.
Qed.

Lemma body_length s n : body s n → (n ≤ List.length s)%nat.
Proof. induction 1; cbn [List.length]; lia. Qed.

(** What [parse_string] does up to the block: the text it finds, or a failure. *)
Lemma parse_string_scan mb item b h z :
  at_input b (34 :: z) →
  match scan_ref (S (List.length z)) z with
  | Some (s, r) => ∃ n pre tail, body s n ∧ content b = pre ++ 34 :: s ++ 34 :: r ++ tail ∧
      offset b = zlen pre ∧ length b = zlen pre + 2 + zlen s + zlen r ∧
      parse_string mb item b h =
        match new_string mb (Z.of_nat n) h with
        | (None, h) => Some (false, at_offset (zlen pre + 1) b, h)
        | (Some output, h) =>
            out ← strings h !! output;
            '(done, input_pointer, out, output_pointer) ←
              unescape_loop (S (List.length (content b))) (content b) (zlen pre + 1 + zlen s) (zlen pre + 1) out 0;
            if done : bool then
              out ← wr out output_pointer 0;
              let h := with_strings (<[output := out]> (strings h)) h in
              h ← upd item (set_type cJSON_String) h;
              h ← upd item (set_valuestring (Some output)) h;
              Some (true, at_offset (zlen pre + 2 + zlen s) b, h)
            else
              h ← free_string output h;
              Some (false, at_offset input_pointer b, h)
        end
  | None => ∃ o, parse_string mb item b h = Some (false, at_offset o b, h)
  end.
Proof.
  intros Hin. assert (H0 := buffer_at_0 _ _ _ Hin). destruct Hin as (pre & tail & Hc & Ho & Hl).
  unfold parse_string. rewrite H0. cbn [mbind option_bind]. change (34 =? 34) with true. cbn [negb].
  cbn [List.length] in Hl. rewrite Ho in *.
  assert (Hc' : content b = (pre ++ [34]) ++ z ++ tail) by (rewrite Hc, <- app_assoc; done).
  pose proof (scan_string_ref (S (List.length (content b))) (S (List.length z)) b (pre ++ [34]) z tail 0 Hc') as Hs.
  replace (zlen (pre ++ [34])) with (zlen pre + 1) in Hs by len.
  specialize (Hs ltac:(lia) ltac:(rewrite Hc'; len) ltac:(lia)).
  destruct (scan_ref _ z) as [[s r]|].
  - destruct Hs as (-> & n & Hb & ->). cbn [mbind option_bind]. len_in Hl.
    exists n, pre, tail. split; [done|]. split; [rewrite Hc; cbn [app]; by rewrite <- app_assoc|].
    split; [done|]. split; [lia|].
    destruct (Z.leb_spec (length b) (zlen pre + 1 + zlen s)); [lia|].
    assert (Hq : (content b).[zlen pre + 1 + zlen s] = Some 34).
    { rewrite Hc. replace (pre ++ (34 :: s ++ 34 :: r) ++ tail) with ((pre ++ 34 :: s) ++ 34 :: r ++ tail)
        by (by rewrite <- !app_assoc; cbn [app]; rewrite <- app_assoc).
      replace (zlen pre + 1 + zlen s) with (zlen (pre ++ 34 :: s)) by len. apply rd_app_head. }
    rewrite Hq. cbn [mbind option_bind Z.eqb Pos.eqb negb].
    replace (zlen pre + 1 + zlen s - zlen pre - (0 + zlen s - Z.of_nat n) - 1) with (Z.of_nat n) by lia.
    replace (zlen pre + 2 + zlen s) with (zlen pre + 1 + zlen s + 1) by lia. done.
  - destruct Hs as [ -> |(e & k' & -> & He)]; cbn [mbind option_bind]; [by eexists|].
    destruct (Z.leb_spec (length b) e); [|lia]. cbn. by eexists.
Qed.

(** The same for what follows the quote. *)
Lemma unescape_loop_in pre s n r tail l :
  body s n → Z.of_nat n ≤ zlen l →
  let c := pre ++ 34 :: s ++ 34 :: r ++ tail in
  let res := unescape_loop (S (List.length c)) c (zlen pre + 1 + zlen s) (zlen pre + 1) l 0 in
  match unescape_string s with
  | Some out => zlen out ≤ Z.of_nat n ∧ ∃ ip l', res = Some (true, ip, l', zlen out) ∧ writes l 0 out l'
  | None => ∃ ip l' op', res = Some (false, ip, l', op')
  end.
Proof.
  intros Hb Hn. cbv zeta.
  replace (pre ++ 34 :: s ++ 34 :: r ++ tail) with ((pre ++ [34]) ++ s ++ 34 :: r ++ tail) by (by rewrite <- app_assoc).
  replace (zlen pre + 1) with (zlen (pre ++ [34])) by len.
  apply (unescape_loop_ref _ _ (pre ++ [34]) s (r ++ tail) n l 0); [len|lia| |lia|lia].
  by apply (text_intro _ n).
Qed.

(** Blocks of at least the size asked for, which is what [malloc] gives. *)
Definition sized (malloc_bytes : Z → list Z) : Prop := ∀ n, 0 ≤ n → n ≤ zlen (malloc_bytes n).
(** Blocks with a byte to spare. *)
Definition roomy (malloc_bytes : Z → list Z) : Prop := ∀ n, 0 ≤ n → n < zlen (malloc_bytes n).
(** Blocks of the size asked for. *)
Definition exact (malloc_bytes : Z → list Z) : Prop := ∀ n, 0 ≤ n → zlen (malloc_bytes n) = n.

Definition granted (h : heap) : bool := match answers h with false :: _ => false | _ => true end.

Lemma new_string_spec mb n h :
  new_string mb n h =
    if granted h then (Some (brk h), mkHeap (items h) (<[brk h := mb n]> (strings h)) (brk h + 1) (tail (answers h)))
    else (None, mkHeap (items h) (strings h) (brk h) (tail (answers h))).
Proof. unfold new_string, allocate, granted. by destruct (answers h) as [|[] o]. Qed.

(** The text has a string literal without a [\u] escape for which there is a block of no more than the size that [parse_string] asks for: that
    many characters, and no room for the terminator. *)
Definition overflowing (mb : Z → list Z) (text : list Z) : Prop :=
  ∃ p s n out r, text = p ++ 34 :: s ++ 34 :: r ∧ body s n ∧ unescape_string s = Some out ∧ no_unicode s = true ∧ zlen (mb (Z.of_nat n)) = Z.of_nat n.
Definition overflows (mb : Z → list Z) (b : parse_buffer) : Prop := overflowing mb (take (Z.to_nat (length b)) (content b)).

Lemma overflows_moved mb b b' : moved b b' → overflows mb b' → overflows mb b.
Proof. unfold overflows. by intros (_ & -> & ->). Qed.
Lemma roomy_never mb text : roomy mb → ¬ overflowing mb text.
Proof. intros H (p & s & n & out & r & _ & _ & _ & _ & E). specialize (H (Z.of_nat n) ltac:(lia)). lia. Qed.
Lemma unquoted_never mb text : 34 ∉ text → ¬ overflowing mb text.
Proof. intros H (p & s & n & out & r & -> & _). apply H. set_solver. Qed.

(** [parse_string] reads what [string_ref] says, and leaves the heap as it was when it fails; or it writes past the end of the block. *)
Lemma parse_string_sized mb item it b h c z :
  sized mb → at_input b (c :: z) → items h !! item = Some it → strings h !! brk h = None →
  let r := parse_string mb item b h in
  (r = None ∧ overflows mb b) ∨
  (∃ o k a, r = Some (false, at_offset o b, mkHeap (items h) (strings h) k a) ∧ brk h ≤ k ∧
     (string_ref (c :: z) = None ∨ granted h = false)) ∨
  ∃ out rest b' blk, string_ref (c :: z) = Some (out, rest) ∧ at_input b' rest ∧ moved b b' ∧
     take (List.length out + 1) blk = out ++ [0] ∧
     r = Some (true, b', mkHeap (<[item := set_valuestring (Some (brk h)) (set_type cJSON_String it)]> (items h))
                            (<[brk h := blk]> (strings h)) (brk h + 1) (tail (answers h))).
Proof.
  intros Hmb Hin Hit Hfresh. cbv zeta. unfold string_ref. destruct (Z.eqb_spec c 34) as [ -> |Hc].
  2: { right; left. unfold parse_string. rewrite (buffer_at_0 _ _ _ Hin). cbn [mbind option_bind].
       destruct (Z.eqb_spec c 34); [done|]. cbn [negb]. exists (offset b + 1), (brk h), (answers h).
       split_and!; [by destruct h|lia|by left]. }
  pose proof (parse_string_scan mb item b h z Hin) as Hscan.
  destruct (scan_ref _ z) as [[s r]|]; cbn [mbind option_bind].
  2: { destruct Hscan as (o & ->). right; left. exists o, (brk h), (answers h). split_and!; [by destruct h|lia|by left]. }
  destruct Hscan as (n & pre & tail & Hb & Hc & Ho & Hl & ->). rewrite new_string_spec.
  destruct (granted h) eqn:Hg.
  2: { right; left. eexists _, _, _. split_and!; [done|lia|by right]. }
  cbn [strings items brk answers]. rewrite lookup_insert_eq. cbn [mbind option_bind].
  pose proof (Hmb (Z.of_nat n) ltac:(lia)) as Hroom.
  pose proof (unescape_loop_in pre s n r tail (mb (Z.of_nat n)) Hb ltac:(lia)) as Hu.
  cbv zeta in Hu. rewrite <- Hc in Hu.
  destruct (unescape_string s) as [out|] eqn:Eu; cbn [mbind option_bind].
  - destruct Hu as (Hn & ip & l' & -> & Hw). cbn [mbind option_bind].
    assert (Hl' : zlen l' = zlen (mb (Z.of_nat n))) by (apply (writes_length _ 0 out); [lia|lia|done]).
    pose proof (unescape_exact (S (List.length s)) s n out ltac:(lia) Hb Eu) as Hx.
    destruct (Z.le_gt_cases (zlen l') (zlen out)) as [Hfull|Hfree].
    { assert (Hnu : no_unicode s = true) by (destruct (no_unicode s); [done|lia]). rewrite Hnu in Hx. left. split.
      - unfold wr. destruct (Z.ltb_spec (zlen out) (zlen l')); [lia|]. by rewrite andb_false_r.
      - exists pre, s, n, out, r. split_and!; [|done|done|done|lia]. rewrite Hc, Hl.
        replace (pre ++ 34 :: s ++ 34 :: r ++ tail) with ((pre ++ 34 :: s ++ 34 :: r) ++ tail) by (rewrite <- app_assoc; cbn [app]; by rewrite <- app_assoc).
        apply take_app_length'. len. }
    right; right. destruct (wr_writes l' (zlen out) 0) as (l2 & -> & Hw2); [lia|]. cbn [mbind option_bind].
    assert (Hw' : writes (mb (Z.of_nat n)) 0 (out ++ [0]) l2).
    { apply (writes_app _ _ _ l'); [lia|cbn [List.length]; lia|done|done]. }
    unfold upd. cbn [items with_strings]. rewrite Hit. cbn [mbind option_bind items with_items].
    rewrite lookup_insert_eq. cbn [mbind option_bind with_items items strings brk answers].
    exists out, r, (at_offset (zlen pre + 2 + zlen s) b), l2. split; [done|].
    split; [|split; [done|split]].
    + exists (pre ++ 34 :: s ++ [34]), tail. cbn [content offset length at_offset].
      split; [rewrite Hc, <- app_assoc; cbn [app]; by rewrite <- app_assoc|]. len.
    + unfold writes in Hw'. change (Z.to_nat 0) with 0%nat in Hw'. rewrite take_0 in Hw'. cbn [app] in Hw'.
      rewrite Hw'. replace (List.length out + 1)%nat with (List.length (out ++ [0])) by (by rewrite length_app).
      apply take_app_length.
    + by rewrite !insert_insert_eq.
  - right; left. destruct Hu as (ip & l' & op' & ->). cbn [mbind option_bind]. unfold free_string.
    cbn [strings]. rewrite lookup_insert_eq. cbn [mbind option_bind with_strings items strings brk answers].
    rewrite delete_insert_id by done. eexists _, _, _. split; [reflexivity|]. cbn. split; [lia|by left].
Qed.

Lemma parse_string_roomy mb item it b h c z :
  roomy mb → at_input b (c :: z) → items h !! item = Some it → strings h !! brk h = None →
  let r := parse_string mb item b h in
  (∃ o k a, r = Some (false, at_offset o b, mkHeap (items h) (strings h) k a) ∧ brk h ≤ k ∧
     (string_ref (c :: z) = None ∨ granted h = false)) ∨
  ∃ out rest b' blk, string_ref (c :: z) = Some (out, rest) ∧ at_input b' rest ∧ moved b b' ∧
     take (List.length out + 1) blk = out ++ [0] ∧
     r = Some (true, b', mkHeap (<[item := set_valuestring (Some (brk h)) (set_type cJSON_String it)]> (items h))
                            (<[brk h := blk]> (strings h)) (brk h + 1) (tail (answers h))).
Proof.
  intros Hmb Hin Hit Hfresh. destruct (parse_string_sized mb item it b h c z) as [(_ & H)|H]; [intros n Hn; specialize (Hmb n Hn); lia|done..| |done].
  by destruct (roomy_never mb _ Hmb H).
Qed.

Lemma scan_ref_body s n r f :
  body s n → (List.length s < f)%nat → scan_ref f (s ++ 34 :: r) = Some (s, r).
Proof.
  intros Hb. revert f. induction Hb as [|c s n Hc1 Hc2 Hb IH|e s n Hb IH]; intros f Hf;
    (destruct f as [|f]; [lia|]); cbn [scan_ref app List.length] in *; [done|..].
  - destruct (Z.eqb_spec c 34); [done|]. destruct (Z.eqb_spec c 92); [done|]. by rewrite IH by lia.
  - cbn [Z.eqb Pos.eqb]. by rewrite IH by lia.
Qed.

(** C38: The block that parse_string allocates is one byte too small (the terminator is not
    counted), so on blocks of exactly the size asked for, reading a well-formed string
    literal writes past the end of the block for every string without a [\u]
    escape, the empty one included; a [\u] escape leaves enough room. *)
Theorem parse_string_overflow mb item it b h s n r out :
  exact mb → at_input b (34 :: s ++ 34 :: r) → body s n → unescape_string s = Some out →
  items h !! item = Some it → granted h = true →
  if no_unicode s then parse_string mb item b h = None
  else ∃ b' h', parse_string mb item b h = Some (true, b', h').
Proof.
  intros Hmb Hin Hb Hu Hit Hg. pose proof (parse_string_scan mb item b h _ Hin) as Hs.
  rewrite (scan_ref_body s n r) in Hs by (done || len).
  destruct Hs as (n' & pre & tail & Hb' & Hc & _ & _ & ->). rewrite new_string_spec, Hg.
  cbn [strings]. rewrite lookup_insert_eq. cbn [mbind option_bind].
  pose proof (Hmb (Z.of_nat n') ltac:(lia)) as Hroom.
  pose proof (unescape_loop_in pre s n' r tail (mb (Z.of_nat n')) Hb' ltac:(lia)) as Hl.
  cbv zeta in Hl. rewrite <- Hc, Hu in Hl. destruct Hl as (Hn & ip & l' & -> & Hw). cbn [mbind option_bind].
  assert (Hl' : zlen l' = Z.of_nat n') by (rewrite <- Hroom; apply (writes_length _ 0 out); [lia|lia|done]).
  pose proof (unescape_exact (S (List.length s)) s n' out ltac:(lia) Hb' Hu) as Hx. destruct (no_unicode s).
  - unfold wr. destruct (Z.ltb_spec (zlen out) (zlen l')); [lia|]. by rewrite andb_false_r.
  - rewrite wr_in_bounds by lia. unfold upd. cbn [mbind option_bind items with_strings]. rewrite Hit.
    cbn [mbind option_bind with_items items]. rewrite lookup_insert_eq. cbn. by eexists _, _.
Qed.

(** ** The length of what escapes add, as [print_string_ptr] counts it *)

(** The characters that a string shows as. *)
Definition escape (c : Z) : list Z :=
  match escape_letter c with
  | Some e => [92; e]
  | None => if c <? 32 then 92 :: hex4 c else [c]
  end.
Definition escaped (s : list Z) : list Z := flat_map escape s.

(** Control characters without an escape letter. *)
Definition is_control (c : Z) : bool := (c <? 32) && bool_decide (escape_letter c = None).
Definition controls (s : list Z) : Z := zlen (filter (λ c, is_control c = true) s).

(** A string of the program: bytes without a zero. *)
Definition chars (s : list Z) : Prop := Forall (λ c, 0 < c < 256) s.

Lemma escape_count_spec s k t :
  chars s → escape_count (s ++ 0 :: t) k = Some (zlen s, k + (zlen (escaped s) - controls s - zlen s)).
Proof.
  intros Hs. revert k. induction Hs as [|c s Hc Hs IH]; intros k; cbn [escape_count app].
  { change (controls []) with 0. change (escaped []) with (@nil Z). cbn. f_equal. f_equal. lia. }
  destruct (Z.eqb_spec c 0); [lia|]. rewrite IH. cbn [mbind option_bind].
  unfold escaped, controls. cbn [flat_map]. rewrite length_app, filter_cons.
  assert (Hic : is_control c = match escape_letter c with Some _ => false | None => c <? 32 end).
  { unfold is_control. destruct (escape_letter c); by rewrite ?andb_false_r, ?andb_true_r. }
  assert (He : escape c = match escape_letter c with Some e => [92; e] | None => if c <? 32 then 92 :: hex4 c else [c] end)
    by done.
  rewrite He. destruct (escape_letter c) as [e|].
  - destruct (decide _); [congruence|]. cbn [List.length]. f_equal. f_equal; lia.
  - destruct (Z.ltb_spec c 32).
    + destruct (decide _); [|congruence]. cbn [List.length hex4]. f_equal. f_equal; lia.
    + destruct (decide _); [congruence|]. cbn [List.length]. f_equal. f_equal; lia.
Qed.

(** ** The print buffer *)

(** [l'] is [l] with [out] at a position; what follows it is not specified. *)
Definition wrote (l : list Z) (i : Z) (out l' : list Z) : Prop :=
  zlen l' = zlen l ∧ take (Z.to_nat i + List.length out) l' = take (Z.to_nat i) l ++ out ∧
  0 ≤ i ∧ i + zlen out ≤ zlen l.

Lemma wrote_nil l i : 0 ≤ i ≤ zlen l → wrote l i [] l.
Proof. intros Hi. split; [done|]. cbn [List.length]. rewrite Nat.add_0_r, app_nil_r. split; [done|lia]. Qed.

(** A write at or before the end of what was written. *)
Lemma wrote_wr l i out l1 j c l2 :
  wrote l i out l1 → i ≤ j ≤ i + zlen out → wr l1 j c = Some l2 →
  wrote l i (take (Z.to_nat (j - i)) out ++ [c]) l2.
Proof.
  intros (Hl & Ht & Hi & Hr) Hj Hw. pose proof (wr_length _ _ _ _ Hw) as Hlen.
  unfold wr in Hw. destruct (_ && _) eqn:E in Hw; [|done]. b2p. injection Hw as <-.
  assert (Hto : (Z.to_nat (j - i) ≤ List.length out)%nat) by lia.
  assert (Hlo : List.length (take (Z.to_nat (j - i)) out) = Z.to_nat (j - i)) by (rewrite length_take; lia).
  split; [lia|]. rewrite length_app, Hlo. cbn [List.length].
  split; [|split; [done|rewrite Nat2Z.inj_add; cbn [Z.of_nat]; lia]].
  rewrite insert_take_drop by lia.
  replace (Z.to_nat i + (Z.to_nat (j - i) + 1))%nat with (Z.to_nat j + 1)%nat by lia.
  rewrite take_app_ge by (rewrite length_take; lia). rewrite length_take.
  replace (Z.to_nat j + 1 - _)%nat with 1%nat by lia. cbn [take]. rewrite take_0.
  rewrite app_assoc. f_equal.
  transitivity (take (Z.to_nat j) (take (Z.to_nat i + List.length out) l1)).
  { rewrite take_take. f_equal. lia. }
  rewrite Ht, take_app_ge by (rewrite length_take; lia). f_equal. f_equal. rewrite length_take. lia.
Qed.

Lemma wr_some (l : list Z) i c : 0 ≤ i < zlen l → ∃ l', wr l i c = Some l'.
Proof. intros Hi. rewrite wr_in_bounds by done. by eexists. Qed.

Lemma wrote_snoc l i out l1 c :
  wrote l i out l1 → i + zlen out < zlen l →
  ∃ l2, wr l1 (i + zlen out) c = Some l2 ∧ wrote l i (out ++ [c]) l2.
Proof.
  intros H Hr. destruct (wr_some l1 (i + zlen out) c) as (l2 & E).
  { destruct H as (Hl & _ & Hi & _). lia. }
  exists l2. split; [done|]. pose proof (wrote_wr l i out l1 (i + zlen out) c l2 H ltac:(lia) E) as Hw.
  by rewrite take_ge in Hw by lia.
Qed.

Lemma put_wrote l i out l1 s :
  wrote l i out l1 → i + zlen out + zlen s ≤ zlen l →
  ∃ l2, put l1 (i + zlen out) s = Some l2 ∧ wrote l i (out ++ s) l2.
Proof.
  revert out l1. induction s as [|c s IH]; intros out l1 H Hr; cbn [put].
  { rewrite app_nil_r. by exists l1. }
  cbn [List.length] in Hr. destruct (wrote_snoc l i out l1 c H ltac:(lia)) as (l2 & -> & H2).
  cbn [mbind option_bind]. destruct (IH (out ++ [c]) l2 H2) as (l3 & E & H3); [len|].
  exists l3. rewrite <- app_assoc in H3. split; [|done].
  rewrite <- E. by rewrite length_app, Nat2Z.inj_add, Z.add_assoc.
Qed.

Lemma put_overflow (l : list Z) i s : 0 ≤ i ≤ zlen l → zlen l < i + zlen s → put l i s = None.
Proof.
  revert l i. induction s as [|c s IH]; intros l i Hi Hr; cbn [put List.length] in *; [lia|].
  destruct (decide (i = zlen l)) as [ -> |].
  { unfold wr. destruct (Z.ltb_spec (zlen l) (zlen l)); [lia|]. by rewrite andb_false_r. }
  destruct (wr_some l i c) as (l' & E); [lia|]. pose proof (wr_length _ _ _ _ E). rewrite E. cbn [mbind option_bind].
  apply IH; lia.
Qed.

Lemma wrote_forget l i out c l1 : wrote l i (out ++ [c]) l1 → wrote l i out l1.
Proof.
  intros (Hl & Ht & Hi & Hr). rewrite length_app in *. cbn [List.length] in *.
  split; [done|]. split; [|lia].
  transitivity (take (Z.to_nat i + List.length out) (take (Z.to_nat i + (List.length out + 1)) l1)).
  { rewrite take_take. f_equal. lia. }
  rewrite Ht, app_assoc. apply take_app_length'. rewrite length_app, length_take. lia.
Qed.

Lemma escape_plain c : escape_letter c = None → 32 ≤ c → escape c = [c].
Proof. intros E Hc. unfold escape. rewrite E. by destruct (Z.ltb_spec c 32); [lia|]. Qed.

(** The test that the second loop makes of a character. *)
Lemma plain_test c : (31 <? c) && negb (c =? 34) && negb (c =? 92) = bool_decide (escape c = [c]).
Proof.
  destruct (Z.ltb_spec 31 c) as [Hc|Hc]; cbn [andb].
  - destruct (Z.eqb_spec c 34) as [ -> |]; [done|]. destruct (Z.eqb_spec c 92) as [ -> |]; [done|].
    rewrite escape_plain; [by rewrite bool_decide_true| |lia].
    unfold escape_letter. repeat case_cmp; lia || done.
  - symmetry. apply bool_decide_false. unfold escape. destruct (escape_letter c); [done|].
    destruct (Z.ltb_spec c 32); [done|lia].
Qed.

Lemma escape_loop_wrote s t l i out l1 :
  chars s → wrote l i out l1 → i + zlen out + zlen (escaped s) < zlen l →
  ∃ l2, escape_loop (s ++ 0 :: t) l1 (i + zlen out) = Some l2 ∧ wrote l i (out ++ escaped s) l2.
Proof.
  intros Hs. revert out l1. induction Hs as [|c s Hc Hs IH]; intros out l1 Hw Hr; cbn [escape_loop app].
  { exists l1. split; [done|]. by rewrite app_nil_r. }
  destruct (Z.eqb_spec c 0); [lia|]. unfold escaped in *. cbn [flat_map] in *. rewrite length_app in Hr.
  assert (Hnext : ∀ l2, wrote l i (out ++ escape c) l2 → ∀ j, j = i + zlen out + zlen (escape c) →
    ∃ l3, escape_loop (s ++ 0 :: t) l2 j = Some l3 ∧ wrote l i (out ++ escape c ++ flat_map escape s) l3).
  { intros l2 H2 j ->. destruct (IH _ _ H2) as (l3 & E & H3); [len|]. exists l3.
    rewrite <- app_assoc in H3. split; [|done]. rewrite <- E. by rewrite length_app, Nat2Z.inj_add, Z.add_assoc. }
  rewrite plain_test. destruct (bool_decide_reflect (escape c = [c])) as [Hp|Hp].
  { rewrite Hp in *. destruct (wrote_snoc l i out l1 c Hw) as (l2 & -> & H2); [cbn [List.length] in Hr; lia|].
    cbn [mbind option_bind]. by apply Hnext. }
  unfold escape in Hr, Hp, Hnext. destruct (wrote_snoc l i out l1 92 Hw) as (l2 & -> & H2).
  { destruct (escape_letter c); [cbn [List.length] in Hr; lia|].
    destruct (c <? 32); [cbn [List.length] in Hr; lia|done]. }
  cbn [mbind option_bind]. replace (i + zlen out + 1) with (i + zlen (out ++ [92])) by len.
  unfold escape. destruct (escape_letter c) as [e|].
  - cbn [List.length] in Hr. destruct (wrote_snoc l i (out ++ [92]) l2 e H2) as (l3 & -> & H3); [len|].
    rewrite <- app_assoc in H3. cbn [mbind option_bind]. apply Hnext; [done|cbn; lia].
  - destruct (c <? 32); [|done]. cbn [List.length hex4] in Hr.
    destruct (put_wrote l i (out ++ [92]) l2 (hex4 c ++ [0]) H2) as (l3 & -> & H3).
    { rewrite !length_app. cbn [List.length hex4]. lia. }
    cbn [mbind option_bind]. apply Hnext; [|cbn [List.length hex4]; lia].
    apply (wrote_forget _ _ _ 0). by rewrite <- !app_assoc in H3 |- *.
Qed.

Lemma escape_nonempty c : (1 ≤ List.length (escape c))%nat.
Proof. unfold escape. destruct (escape_letter c); [cbn; lia|]. destruct (c <? 32); cbn; lia. Qed.

Lemma escape_loop_overflow s t (l : list Z) i :
  chars s → 0 ≤ i ≤ zlen l → zlen l < i + zlen (escaped s) → escape_loop (s ++ 0 :: t) l i = None.
Proof.
  intros Hs. revert l i. induction Hs as [|c s Hc Hs IH]; intros l i Hi Hr; [cbn in Hr; lia|].
  cbn [escape_loop app]. destruct (Z.eqb_spec c 0); [lia|].
  unfold escaped in *. cbn [flat_map] in Hr. rewrite length_app in Hr.
  set (m := List.length (flat_map escape s)) in *.
  destruct (decide (i = zlen l)) as [ -> |Hne].
  { assert (Hn : ∀ x, wr l (zlen l) x = None).
    { intros x. unfold wr. destruct (Z.ltb_spec (zlen l) (zlen l)); [lia|]. by rewrite andb_false_r. }
    rewrite !Hn. by destruct (_ && _). }
  rewrite plain_test. destruct (bool_decide_reflect (escape c = [c])) as [Hp|Hp].
  { rewrite Hp in Hr. cbn [List.length] in Hr. destruct (wr_some l i c) as (l' & E); [lia|].
    pose proof (wr_length _ _ _ _ E). rewrite E. cbn [mbind option_bind]. apply IH; lia. }
  destruct (wr_some l i 92) as (l1 & E); [lia|]. pose proof (wr_length _ _ _ _ E). rewrite E. cbn [mbind option_bind].
  unfold escape in Hr, Hp. destruct (escape_letter c) as [e|]; [|destruct (c <? 32); [|done]]; cbn [List.length hex4] in Hr.
  - destruct (decide (i + 1 < zlen l1)).
    + destruct (wr_some l1 (i + 1) e) as (l2 & E2); [lia|]. pose proof (wr_length _ _ _ _ E2).
      rewrite E2. cbn [mbind option_bind]. apply IH; lia.
    + unfold wr. destruct (Z.ltb_spec (i + 1) (zlen l1)); [lia|]. by rewrite andb_false_r.
  - destruct (decide (i + 1 + 6 ≤ zlen l1)).
    + destruct (put_wrote l1 (i + 1) [] l1 (hex4 c ++ [0])) as (l2 & E2 & H2).
      { apply wrote_nil. lia. }
      { cbn [List.length hex4 app]. lia. }
      cbn [List.length Z.of_nat] in E2. rewrite Z.add_0_r in E2. rewrite E2. cbn [mbind option_bind].
      destruct H2 as (H2 & _). apply IH; lia.
    + rewrite put_overflow; [done|lia|]. cbn [List.length hex4 app]. lia.
Qed.

(** A print buffer that ends with the text [pre], with a byte left. *)
Definition at_end (pre : list Z) (p : printbuffer) (l : list Z) : Prop :=
  buffer p = Some l ∧ poffset p = zlen pre ∧ zlen pre < plength p ≤ zlen l ∧ take (List.length pre) l = pre.

(** A text and its terminator after [pre]; the offset is somewhere in it. *)
Definition shows (pre txt : list Z) (p : printbuffer) : Prop :=
  ∃ l k, buffer p = Some l ∧ poffset p = zlen pre + k ∧ 0 ≤ k ≤ zlen txt ∧
    zlen pre + zlen txt < plength p ≤ zlen l ∧
    take (List.length pre + List.length txt + 1) l = pre ++ txt ++ [0].

(** What the steps of printing keep: the settings, the count of the live blocks
    (less the buffer's, when it is given up) and the allocator's success. *)
Definition keeps (p : printbuffer) (m : mem) (p' : printbuffer) (m' : mem) : Prop :=
  noalloc p' = noalloc p ∧ format p' = format p ∧ reallocate p' = reallocate p ∧
  live m' + b2z (bool_decide (buffer p' = None)) = live m + b2z (bool_decide (buffer p = None)) ∧
  (always_ok m → always_ok m').

Lemma keeps_refl p m : keeps p m p m.
Proof. done. Qed.
Lemma keeps_steps p m p1 m1 p2 m2 : keeps p m p1 m1 → keeps p1 m1 p2 m2 → keeps p m p2 m2.
Proof. intros (? & ? & ? & ? & ?) (? & ? & ? & ? & ?). split_and!; [congruence|congruence|congruence|lia|tauto]. Qed.
Lemma keeps_local p m p1 m1 p2 :
  keeps p m p1 m1 → noalloc p2 = noalloc p1 → format p2 = format p1 → reallocate p2 = reallocate p1 →
  is_Some (buffer p1) → is_Some (buffer p2) → keeps p m p2 m1.
Proof.
  intros (? & ? & ? & Hl & ?) ? ? ? [l1 E1] [l2 E2]. rewrite E1 in Hl.
  split_and!; [congruence|congruence|congruence| |done]. by rewrite E2.
Qed.

Lemma ensure_spec mb pre p l needed m :
  sized mb → at_end pre p l → 0 ≤ needed →
  ∃ r p' m', ensure mb p needed m = Some (r, p', m') ∧ keeps p m p' m' ∧ pdepth p' = pdepth p ∧
    match r with
    | Some o => o = zlen pre ∧ zlen pre + needed + 1 ≤ plength p' ∧ ∃ l', at_end pre p' l'
    | None => noalloc p = true ∨ ¬ always_ok m ∨ INT_MAX < zlen pre + needed + 1
    end.
Proof.
  intros Hmb (Hb & Ho & Hl & Ht) Hn. unfold ensure. rewrite Hb, Ho.
  destruct (Z.leb_spec (plength p) (zlen pre)); [lia|]. rewrite andb_false_r.
  destruct (Z.ltb_spec INT_MAX needed).
  { eexists _, _, _. split; [done|]. split; [apply keeps_refl|]. split; [done|]. right. right. lia. }
  destruct (Z.leb_spec (needed + zlen pre + 1) (plength p)).
  { eexists _, _, _. split; [done|]. split; [apply keeps_refl|]. split; [done|]. split; [done|]. split; [lia|].
    exists l. done. }
  destruct (noalloc p) eqn:Hna.
  { eexists _, _, _. split; [done|]. split; [apply keeps_refl|]. split; [done|]. by left. }
  set (sz := if INT_MAX / 2 <? _ then _ else _).
  assert (Hsz : match sz with Some n => needed + zlen pre + 1 ≤ n ∧ plength p < n | None => INT_MAX < needed + zlen pre + 1 end).
  { unfold sz. destruct (Z.ltb_spec (INT_MAX / 2) (needed + zlen pre + 1)); [|lia].
    destruct (Z.leb_spec (needed + zlen pre + 1) INT_MAX); lia. }
  destruct sz as [n|].
  2: { eexists _, _, _. split; [done|]. split; [apply keeps_refl|]. split; [done|]. right. right. lia. }
  pose proof (Hmb n ltac:(lia)) as Hmbn.
  destruct (sqlite3Malloc m) as [ok m1] eqn:Em. pose proof (sqlite3Malloc_live _ _ _ Em) as Hlive. destruct ok; cbn in Hlive.
  - assert (Hover : ∀ k, (List.length pre ≤ k)%nat → (k ≤ Z.to_nat n)%nat → ∃ l2, overlay (take k l) (mb n) = Some l2 ∧
      zlen l2 = zlen (mb n) ∧ take (List.length pre) l2 = pre).
    { intros k Hk1 Hk2. unfold overlay. destruct (Nat.leb_spec (List.length (take k l)) (List.length (mb n))) as [Hle|Hle];
        rewrite length_take in Hle; [|lia].
      eexists; split; [done|]. split; [rewrite length_app, length_drop, length_take; lia|].
      rewrite take_app_le by (rewrite length_take; lia). rewrite take_take. by rewrite Nat.min_l by lia. }
    assert (Hfin : ∀ k, (List.length pre ≤ k)%nat → (k ≤ Z.to_nat n)%nat → ∃ r p' m',
      (newbuffer ← overlay (take k l) (mb n); Some (Some (zlen pre), with_buffer (Some newbuffer) n p, sqlite3_free m1))
        = Some (r, p', m') ∧ keeps p m p' m' ∧ pdepth p' = pdepth p ∧
      match r with
      | Some o => o = zlen pre ∧ zlen pre + needed + 1 ≤ plength p' ∧ ∃ l', at_end pre p' l'
      | None => false = true ∨ ¬ always_ok m ∨ INT_MAX < zlen pre + needed + 1
      end).
    { intros k Hk1 Hk2. destruct (Hover k Hk1 Hk2) as (l2 & -> & Hl2 & Ht2). cbn [mbind option_bind].
      eexists _, _, _. split; [done|]. split.
      { split_and!; [done|done|done|cbn; rewrite Hb; cbn; lia|]. intros Hok. apply (sqlite3Malloc_ok _ _ _ Hok) in Em as [_ Hm]. done. }
      split; [done|]. split; [done|]. cbn [with_buffer plength]. split; [lia|].
      exists l2. split; [done|]. split; [done|]. cbn [with_buffer plength]. split; [lia|done]. }
    destruct (reallocate p); cbn [mbind option_bind].
    + apply Hfin; lia.
    + destruct (Z.leb_spec (zlen pre + 1) (zlen l)); [|lia]. cbn [mbind option_bind]. apply Hfin; lia.
  - eexists _, _, _. split; [done|]. split.
    { split_and!; [done|done|done|cbn; rewrite Hb; cbn; lia|]. intros Hok. apply (sqlite3Malloc_ok _ _ _ Hok) in Em as [? _]. done. }
    split; [done|]. right. left. intros Hok. apply (sqlite3Malloc_ok _ _ _ Hok) in Em as [? _]. done.
Qed.

Lemma at_end_wrote pre p l : at_end pre p l → wrote l (zlen pre) [] l.
Proof. intros (_ & _ & Hl & _). apply wrote_nil. lia. Qed.

Lemma at_end_some pre p l : at_end pre p l → is_Some (buffer p).
Proof. intros (-> & _). done. Qed.

(** After a text and its terminator have been written at the end. *)
Lemma wrote_shows pre p l txt l2 :
  at_end pre p l → wrote l (zlen pre) (txt ++ [0]) l2 → zlen pre + zlen txt < plength p →
  shows pre txt (with_bytes l2 p).
Proof.
  intros (Hb & Ho & Hl & Ht) (Hl2 & Hw & _ & _) Hr. exists l2, 0. split; [done|]. split; [cbn; lia|].
  split; [lia|]. split; [cbn; lia|]. rewrite length_app, Nat2Z.id in Hw. cbn [List.length] in Hw.
  rewrite Nat.add_assoc in Hw. by rewrite Hw, Ht.
Qed.

Lemma strlen_app (s t : list Z) : Forall (λ c, c ≠ 0) s → strlen (s ++ 0 :: t) = Some (zlen s).
Proof.
  induction 1 as [|c s Hc Hs IH]; [done|]. cbn [app strlen]. destruct (Z.eqb_spec c 0); [done|].
  rewrite IH. cbn [mbind option_bind List.length]. f_equal. lia.
Qed.

Lemma update_offset_shows pre txt p :
  shows pre txt p → Forall (λ c, c ≠ 0) txt →
  ∃ p' l, update_offset p = Some p' ∧ at_end (pre ++ txt) p' l ∧ pdepth p' = pdepth p ∧ p' = with_poffset (poffset p') p.
Proof.
  intros (l & k & Hb & Ho & Hk & Hl & Ht) Hnz. unfold update_offset. rewrite Hb, Ho.
  rewrite <- (take_drop (List.length pre + List.length txt + 1) l), Ht.
  replace (pre ++ txt ++ [0]) with ((pre ++ take (Z.to_nat k) txt) ++ drop (Z.to_nat k) txt ++ [0])
    by (by rewrite <- !app_assoc, (app_assoc (take _ txt)), take_drop).
  assert (Hpk : List.length (pre ++ take (Z.to_nat k) txt) = Z.to_nat (zlen pre + k))
    by (rewrite length_app, length_take; lia).
  rewrite <- !app_assoc, app_assoc, (drop_app_length' (pre ++ _)) by done. cbn [app].
  rewrite strlen_app by (by apply Forall_drop). cbn [mbind option_bind].
  eexists _, l. split; [done|]. split; [|done]. split; [done|]. split.
  { cbn. rewrite length_drop, length_app. lia. }
  split; [cbn; len|].
  transitivity (take (List.length (pre ++ txt)) (take (List.length pre + List.length txt + 1) l)).
  { rewrite take_take. f_equal. len. }
  rewrite Ht, app_assoc. apply take_app_length.
Qed.

Definition enough (p : printbuffer) (m : mem) (pre txt : list Z) : Prop :=
  noalloc p = false ∧ always_ok m ∧ zlen pre + zlen txt + 3 ≤ INT_MAX.

Lemma print_text_spec mb pre p l txt m :
  sized mb → at_end pre p l →
  ∃ ok p' m', print_text mb p txt m = Some (ok, p', m') ∧ keeps p m p' m' ∧ pdepth p' = pdepth p ∧
    (ok = true → shows pre txt p') ∧ (enough p m pre txt → ok = true).
Proof.
  intros Hmb Hat. unfold print_text.
  destruct (ensure_spec mb pre p l (zlen txt + 1) m Hmb Hat ltac:(lia)) as (r & p1 & m1 & -> & Hk & Hd & Hr).
  cbn [mbind option_bind]. destruct r as [o|].
  2: { eexists _, _, _. split; [done|]. split; [done|]. split; [done|]. split; [done|].
       intros (? & ? & ?). destruct Hr as [Hr|[Hr|Hr]]; [congruence|done|lia]. }
  destruct Hr as ( -> & Hroom & l1 & Hat1). assert (Hb := Hat1). destruct Hb as (Hb & _ & Hl & _). rewrite Hb. cbn [mbind option_bind].
  destruct (put_wrote _ _ _ _ (txt ++ [0]) (at_end_wrote _ _ _ Hat1)) as (l2 & E & Hw); [len|].
  cbn [List.length Z.of_nat] in E. rewrite Z.add_0_r in E. rewrite E. cbn [mbind option_bind].
  eexists _, _, _. split; [done|].
  split; [eapply keeps_local; [exact Hk|done..|by eapply at_end_some|done]|]. split; [done|]. split; [|done].
  intros _. eapply wrote_shows; [done|exact Hw|lia].
Qed.

(** What a string is printed as: the characters that the count of escapes leaves room for. *)
Definition quoted (s : list Z) : list Z :=
  34 :: take (Z.to_nat (zlen (escaped s) - controls s)) (escaped s) ++ [34].

Lemma escape_bounds s : chars s → 0 ≤ controls s ∧ zlen s ≤ zlen (escaped s) - controls s.
Proof.
  unfold controls, escaped. induction 1 as [|c s Hc Hs IH]; [done|]. cbn [flat_map].
  rewrite length_app, filter_cons. pose proof (escape_nonempty c). destruct (decide _) as [Hi|Hi]; cbn [List.length]; [|lia].
  assert (List.length (escape c) = 6%nat); [|lia]. unfold is_control, escape in *.
  destruct (escape_letter c); [rewrite andb_false_r in Hi; done|]. destruct (c <? 32); done.
Qed.

Lemma escaped_plain s : chars s → zlen (escaped s) - controls s = zlen s → escaped s = s ∧ controls s = 0.
Proof.
  induction 1 as [|c s Hc Hs IH]; [done|]. intros H. pose proof (escape_bounds s Hs) as Hb.
  unfold controls, escaped in *. cbn [flat_map] in *. rewrite length_app, filter_cons in *.
  pose proof (escape_nonempty c) as Hl. destruct (decide (is_control c = true)) as [Hi|Hi].
  { assert (List.length (escape c) = 6%nat).
    { unfold is_control, escape in *. destruct (escape_letter c); [rewrite andb_false_r in Hi; done|]. destruct (c <? 32); done. }
    cbn [List.length] in *. lia. }
  cbn [List.length] in H. destruct IH as (E1 & E2); [lia|]. rewrite E1, E2. split; [|done].
  unfold escape in *. destruct (escape_letter c); [cbn in *; lia|]. destruct (c <? 32); [cbn in *; lia|done].
Qed.

(** The first position of what is printed of a string, with room for all of it. *)
Lemma print_string_room mb pre p l s t m :
  sized mb → at_end pre p l → chars s → controls s ≤ 2 →
  ∃ ok p' m', print_string_ptr mb (Some (s ++ 0 :: t)) p m = Some (ok, p', m') ∧ keeps p m p' m' ∧ pdepth p' = pdepth p ∧
    (ok = true → shows pre (quoted s) p') ∧ (enough p m pre (quoted s) → ok = true).
Proof.
  intros Hmb Hat Hs Hk. unfold print_string_ptr. rewrite escape_count_spec by done. cbn [mbind option_bind].
  destruct (escape_bounds s Hs) as (Hc0 & Hge).
  replace (zlen s + (0 + (zlen (escaped s) - controls s - zlen s))) with (zlen (escaped s) - controls s) by lia.
  set (n := zlen (escaped s) - controls s) in *.
  assert (Hq : zlen (quoted s) = n + 2).
  { unfold quoted. fold n. cbn [List.length]. rewrite length_app, length_take. cbn [List.length]. lia. }
  destruct (ensure_spec mb pre p l (n + 3) m Hmb Hat ltac:(lia)) as (r & p1 & m1 & -> & Hk1 & Hd & Hr).
  cbn [mbind option_bind]. destruct r as [o|].
  2: { eexists _, _, _. split; [done|]. split; [done|]. split; [done|]. split; [done|].
       intros (? & ? & ?). destruct Hr as [Hr|[Hr|Hr]]; [congruence|done|lia]. }
  destruct Hr as ( -> & Hroom & l1 & Hat1). assert (Hb := Hat1). destruct Hb as (Hb & _ & Hl & _). rewrite Hb. cbn [mbind option_bind].
  destruct (wrote_snoc l1 (zlen pre) [] l1 34 (at_end_wrote _ _ _ Hat1)) as (l2 & E & H2); [cbn; lia|].
  cbn [List.length Z.of_nat] in E. rewrite Z.add_0_r in E. rewrite E. cbn [mbind option_bind]. cbn [app] in H2.
  assert (Hbody : ∃ l3, (if 0 + (n - zlen s) =? 0 then put l2 (zlen pre + 1) (take (Z.to_nat n) (s ++ 0 :: t))
                         else escape_loop (s ++ 0 :: t) l2 (zlen pre + 1)) = Some l3 ∧
                        wrote l1 (zlen pre) (34 :: escaped s) l3).
  { change (zlen pre + 1) with (zlen pre + zlen [34]). destruct (Z.eqb_spec (0 + (n - zlen s)) 0).
    - destruct (escaped_plain s Hs) as (E1 & E2); [lia|].
      rewrite take_app_length' by lia. rewrite E1. apply (put_wrote l1 _ [34]); [done|]. cbn [List.length]. lia.
    - apply (escape_loop_wrote s t l1 _ [34]); [done|done|]. cbn [List.length]. lia. }
  destruct Hbody as (l3 & -> & H3). cbn [mbind option_bind].
  destruct (wr_some l3 (zlen pre + n + 1) 34) as (l4 & E4); [destruct H3 as (? & _); lia|].
  rewrite E4. cbn [mbind option_bind].
  pose proof (wrote_wr l1 (zlen pre) _ l3 (zlen pre + n + 1) 34 l4 H3 ltac:(cbn [List.length]; lia) E4) as H4.
  replace (zlen pre + n + 1 - zlen pre) with (n + 1) in H4 by lia.
  replace (Z.to_nat (n + 1)) with (S (Z.to_nat n)) in H4 by lia. cbn [take] in H4.
  change ((34 :: take (Z.to_nat n) (escaped s)) ++ [34]) with (quoted s) in H4.
  destruct (wrote_snoc l1 (zlen pre) (quoted s) l4 0 H4) as (l5 & E5 & H5); [lia|].
  replace (zlen pre + n + 2) with (zlen pre + zlen (quoted s)) by lia. rewrite E5. cbn [mbind option_bind].
  eexists _, _, _. split; [done|].
  split; [eapply keeps_local; [exact Hk1|done..|by eapply at_end_some|done]|]. split; [done|]. split; [|done].
  intros _. eapply wrote_shows; [done|exact H5|lia].
Qed.

(** C39: print_string_ptr counts four characters for a control character that it writes with
    five (after the backslash). When the string has one or two of them, the text
    printed has lost as many characters before the closing quote; without any
    it is complete; and with four or more, in a buffer that has exactly the room asked
    for, the function writes past the end. *)
Theorem print_string_controls mb pre p l s t m :
  sized mb → at_end pre p l → chars s →
  (controls s ≤ 2 →
   ∃ ok p' m', print_string_ptr mb (Some (s ++ 0 :: t)) p m = Some (ok, p', m') ∧
     (enough p m pre (quoted s) → ok = true) ∧ (ok = true → shows pre (quoted s) p')) ∧
  (controls s = 0 → quoted s = 34 :: escaped s ++ [34]) ∧
  zlen (quoted s) + controls s = zlen (34 :: escaped s ++ [34]) ∧
  (4 ≤ controls s → plength p = zlen l →
   zlen pre + (zlen (escaped s) - controls s) + 4 = plength p → plength p ≤ INT_MAX →
   print_string_ptr mb (Some (s ++ 0 :: t)) p m = None).
Proof.
  intros Hmb Hat Hs. destruct (escape_bounds s Hs) as (Hc0 & Hge). split_and!.
  - intros Hk. destruct (print_string_room mb pre p l s t m Hmb Hat Hs Hk) as (ok & p' & m' & E & _ & _ & H1 & H2).
    by exists ok, p', m'.
  - intros H0. unfold quoted. by rewrite take_ge by lia.
  - unfold quoted. cbn [List.length]. rewrite !length_app, length_take. lia.
  - intros Hk Hfull Hneed Hmax. unfold print_string_ptr. rewrite escape_count_spec by done. cbn [mbind option_bind].
    replace (zlen s + (0 + (zlen (escaped s) - controls s - zlen s))) with (zlen (escaped s) - controls s) by lia.
    destruct Hat as (Hb & Ho & Hl & Ht). unfold ensure. rewrite Hb, Ho.
    destruct (Z.leb_spec (plength p) (zlen pre)); [lia|]. rewrite andb_false_r.
    destruct (Z.ltb_spec INT_MAX (zlen (escaped s) - controls s + 3)); [lia|].
    destruct (Z.leb_spec (zlen (escaped s) - controls s + 3 + zlen pre + 1) (plength p)); [|lia].
    cbn [mbind option_bind]. rewrite Hb. cbn [mbind option_bind].
    destruct (wr_some l (zlen pre) 34) as (l1 & E); [lia|]. rewrite E. cbn [mbind option_bind].
    pose proof (wr_length _ _ _ _ E) as Hlen.
    destruct (Z.eqb_spec (0 + (zlen (escaped s) - controls s - zlen s)) 0) as [Hz|_].
    { destruct (escaped_plain s Hs); lia. }
    rewrite escape_loop_overflow; [done|done|lia|lia].
Qed.

(** ** Reading what was printed *)

Lemma escape_letter_simple c e : escape_letter c = Some e → simple_escape e = Some c.
Proof. unfold escape_letter. intros H. repeat case_match; simplify_eq; b2p; subst; done. Qed.

Lemma hex_digit_lower d : 0 ≤ d < 16 → hex_digit (hex_lower d) = Some d.
Proof.
  intros Hd.
  pose proof (range_all (λ d, bool_decide (hex_digit (hex_lower d) = Some d)) 0 16 eq_refl d ltac:(lia)) as H.
  by apply bool_decide_eq_true in H.
Qed.

Lemma unicode_escape_hex4 c s : 0 ≤ c < 32 →
  unicode_escape (48 :: 48 :: hex_lower (c / 16) :: hex_lower (c mod 16) :: s) = Some ([c], s).
Proof.
  intros Hc. unfold unicode_escape, hex4_value. rewrite !hex_digit_lower by zdm.
  change (hex_digit 48) with (Some 0). cbv iota zeta.
  replace (((0 * 16 + 0) * 16 + c / 16) * 16 + c mod 16) with c by zdm.
  destruct (Z.leb_spec 0xDC00 c); [lia|]. destruct (Z.leb_spec 0xD800 c); [lia|]. cbn [andb].
  unfold utf8_bytes. by destruct (Z.ltb_spec c 0x80); [|lia].
Qed.

Lemma escape_body c s n : 0 < c < 256 → body s n → ∃ m, body (escape c ++ s) m.
Proof.
  intros Hc Hb. unfold escape. destruct (escape_letter c) as [e|] eqn:El; [eexists; apply body_escape, Hb|].
  destruct (Z.ltb_spec c 32).
  - assert (Hlow : ∀ d, 0 ≤ d < 16 → hex_lower d ≠ 34 ∧ hex_lower d ≠ 92).
    { intros d Hd. unfold hex_lower. case_cmp; lia. }
    destruct (Hlow (c / 16)) as (? & ?); [zdm|]. destruct (Hlow (c mod 16)) as (? & ?); [zdm|].
    eexists. apply body_escape. do 4 (apply body_plain; [done|done|]). exact Hb.
  - eexists. apply body_plain; [| |exact Hb]; intros ->; done.
Qed.

Lemma escape_unescape c s t f :
  0 < c < 256 → unescape f s = Some t → unescape (S f) (escape c ++ s) = Some (c :: t).
Proof.
  intros Hc Hu. unfold escape. destruct (escape_letter c) as [e|] eqn:El; [|destruct (Z.ltb_spec c 32)];
    cbn [app hex4 unescape].
  - change (negb (92 =? 92)) with false. cbv iota. by rewrite (escape_letter_simple _ _ El), Hu.
  - change (negb (92 =? 92)) with false. change (simple_escape 117) with (@None Z). change (117 =? 117) with true.
    cbv iota. rewrite unicode_escape_hex4 by lia. cbn [mbind option_bind]. by rewrite Hu.
  - destruct (Z.eqb_spec c 92) as [ -> |]; [done|]. cbn [negb]. by rewrite Hu.
Qed.

Lemma escaped_body s : chars s → ∃ n, body (escaped s) n.
Proof.
  induction 1 as [|c s Hc Hs (n & IH)]; [exists 0%nat; constructor|]. cbn. by eapply escape_body.
Qed.

Lemma unescape_escaped s f : chars s → (List.length s < f)%nat → unescape f (escaped s) = Some s.
Proof.
  intros Hs. revert f. induction Hs as [|c s Hc Hs IH]; intros f Hf; (destruct f as [|f]; [lia|]); [done|].
  cbn [List.length] in Hf. apply escape_unescape; [done|]. apply IH. lia.
Qed.

Lemma escaped_length s : (List.length s ≤ List.length (escaped s))%nat.
Proof.
  induction s as [|c s IH]; [done|]. unfold escaped in *. cbn [flat_map List.length]. rewrite length_app.
  pose proof (escape_nonempty c). lia.
Qed.

(** A printed string is read back, whatever follows it. *)
Lemma string_ref_escaped s r : chars s → string_ref (34 :: escaped s ++ 34 :: r) = Some (s, r).
Proof.
  intros Hs. destruct (escaped_body s Hs) as (n & Hb). unfold string_ref. change (34 =? 34) with true. cbv iota.
  rewrite (scan_ref_body _ n r) by (done || len). cbn [mbind option_bind]. unfold unescape_string.
  rewrite unescape_escaped; [done|done|]. pose proof (escaped_length s). lia.
Qed.

(** A string without control characters other than the six that have a letter comes
    back from what print_string_ptr prints of it: parse_string, on blocks with a
    byte to spare, reads the printed text to its end, whatever follows it, and
    stores the same characters, for every allocator outcome that both accept. *)
Theorem string_roundtrip mb pre p l s t m item it b h r :
  roomy mb → at_end pre p l → chars s → controls s = 0 →
  items h !! item = Some it → strings h !! brk h = None → granted h = true →
  ∃ ok p' m', print_string_ptr mb (Some (s ++ 0 :: t)) p m = Some (ok, p', m') ∧
    (enough p m pre (quoted s) → ok = true) ∧
    (ok = true → ∃ txt, shows pre txt p' ∧
      (at_input b (txt ++ r) → ∃ b' h' blk, parse_string mb item b h = Some (true, b', h') ∧ at_input b' r ∧
         items h' !! item = Some (set_valuestring (Some (brk h)) (set_type cJSON_String it)) ∧
         strings h' !! brk h = Some blk ∧ c_string blk = Some s)).
Proof.
  intros Hmb Hat Hs Hk Hit Hfresh Hg.
  destruct (print_string_room mb pre p l s t m) as (ok & p' & m' & E & _ & _ & H1 & H2); [|done|done|lia|].
  { intros n Hn. specialize (Hmb n Hn). lia. }
  exists ok, p', m'. split; [done|]. split; [done|]. intros Hok. exists (quoted s). split; [by apply H1|]. intros Hin.
  assert (Hq : quoted s ++ r = 34 :: escaped s ++ 34 :: r).
  { unfold quoted. rewrite take_ge by lia. cbn [app]. by rewrite <- app_assoc. }
  rewrite Hq in Hin. pose proof (string_ref_escaped s r Hs) as Href.
  destruct (parse_string_roomy mb item it b h 34 _ Hmb Hin Hit Hfresh)
    as [(o & k & a & _ & _ & [Hn|Hn])|(out & rest & b' & blk & Hsr & Hin' & _ & Hblk & ->)]; [congruence|congruence|].
  rewrite Href in Hsr. injection Hsr as <- <-. eexists b', _, blk. split; [done|]. split; [done|].
  cbn [items strings]. rewrite !lookup_insert_eq. split; [done|]. split; [done|].
  unfold c_string. rewrite <- (take_drop (List.length s + 1) blk), Hblk, <- app_assoc. cbn [app].
  rewrite strlen_app by (eapply Forall_impl; [exact Hs|cbn; lia]). cbn [mbind option_bind].
  f_equal. apply take_app_length'. lia.
Qed.

(** ** Witnesses *)

Lemma exact_blocks_exact : exact exact_blocks.
Proof. intros n Hn. unfold exact_blocks. rewrite length_replicate. lia. Qed.
Lemma roomy_blocks_roomy : roomy roomy_blocks.
Proof. intros n Hn. unfold roomy_blocks. rewrite length_replicate. lia. Qed.
Lemma roomy_sized mb : roomy mb → sized mb.
Proof. intros H n Hn. specialize (H n Hn). lia. Qed.
Lemma exact_sized mb : exact mb → sized mb.
Proof. intros H n Hn. specialize (H n Hn). lia. Qed.

(** A heap with one item, and a buffer of eight bytes. *)
Definition one_item : heap := mkHeap {[1 := blank]} ∅ 2 [].
Definition eight_bytes : printbuffer := mkPrint (Some (exact_blocks 8)) 8 0 0 false false true.

(** The literal ["ab"], and the literal of one escaped character. *)
Lemma parse_string_overflow_witness :
  parse_string exact_blocks 1 (mkBuffer [34; 97; 98; 34; 0] 5 0 0) one_item = None ∧
  ∃ b' h', parse_string exact_blocks 1 (mkBuffer [34; 92; 117; 48; 48; 52; 49; 34; 0] 9 0 0) one_item = Some (true, b', h').
Proof.
  split.
  - apply (parse_string_overflow exact_blocks 1 blank (mkBuffer [34; 97; 98; 34; 0] 5 0 0) one_item [97; 98] 2 [0] [97; 98]).
    + apply exact_blocks_exact.
    + exists [], []. split; reflexivity || (split; reflexivity).
    + apply body_plain; [discriminate|discriminate|]. apply body_plain; [discriminate|discriminate|]. constructor.
    + reflexivity.
    + reflexivity.
    + reflexivity.
  - apply (parse_string_overflow exact_blocks 1 blank (mkBuffer [34; 92; 117; 48; 48; 52; 49; 34; 0] 9 0 0) one_item
             [92; 117; 48; 48; 52; 49] 5 [0] [65]).
    + apply exact_blocks_exact.
    + exists [], []. split; reflexivity || (split; reflexivity).
    + apply body_escape. do 4 (apply body_plain; [discriminate|discriminate|]). constructor.
    + reflexivity.
    + reflexivity.
    + reflexivity.
Defined.

(** The string of the character 1: ["\u000"] is printed.  Four of them in the 28 bytes asked for. *)
Lemma print_string_controls_witness :
  (∃ ok p' m', print_string_ptr exact_blocks (Some [1; 0]) eight_bytes (Mem [] 0) = Some (ok, p', m') ∧
     (enough eight_bytes (Mem [] 0) [] [34; 92; 117; 48; 48; 48; 34] → ok = true) ∧
     (ok = true → shows [] [34; 92; 117; 48; 48; 48; 34] p')) ∧
  print_string_ptr exact_blocks (Some [1; 1; 1; 1; 0]) (mkPrint (Some (exact_blocks 24)) 24 0 0 false false true) (Mem [] 0) = None.
Proof.
  split.
  - apply (print_string_controls exact_blocks [] eight_bytes (exact_blocks 8) [1] [] (Mem [] 0)).
    + apply exact_sized, exact_blocks_exact.
    + split; [reflexivity|]. split; [reflexivity|]. split; [|reflexivity]. split; reflexivity || discriminate.
    + apply Forall_cons. split; [split; reflexivity|constructor].
    + discriminate.
  - apply (print_string_controls exact_blocks [] (mkPrint (Some (exact_blocks 24)) 24 0 0 false false true)
             (exact_blocks 24) [1; 1; 1; 1] [] (Mem [] 0)).
    + apply exact_sized, exact_blocks_exact.
    + split; [reflexivity|]. split; [reflexivity|]. split; [|reflexivity]. split; reflexivity || discriminate.
    + repeat (apply Forall_cons; split; [split; reflexivity|]). constructor.
    + discriminate.
    + reflexivity.
    + reflexivity.
    + discriminate.
Defined.

Lemma string_roundtrip_witness :
  ∃ ok p' m', print_string_ptr roomy_blocks (Some [97; 10; 98; 0]) eight_bytes (Mem [] 0) = Some (ok, p', m') ∧
    (enough eight_bytes (Mem [] 0) [] (quoted [97; 10; 98]) → ok = true) ∧
    (ok = true → ∃ txt, shows [] txt p' ∧
      (at_input (mkBuffer [34; 97; 92; 110; 98; 34; 0] 7 0 0) (txt ++ [0]) → ∃ b' h' blk,
         parse_string roomy_blocks 1 (mkBuffer [34; 97; 92; 110; 98; 34; 0] 7 0 0) one_item = Some (true, b', h') ∧
         at_input b' [0] ∧ items h' !! 1 = Some (set_valuestring (Some 2) (set_type cJSON_String blank)) ∧
         strings h' !! 2 = Some blk ∧ c_string blk = Some [97; 10; 98])).
Proof.
  apply (string_roundtrip roomy_blocks [] eight_bytes (exact_blocks 8) [97; 10; 98] [] (Mem [] 0) 1 blank
           (mkBuffer [34; 97; 92; 110; 98; 34; 0] 7 0 0) one_item [0]).
  - apply roomy_blocks_roomy.
  - split; [reflexivity|]. split; [reflexivity|]. split; [|reflexivity]. split; reflexivity || discriminate.
  - repeat (apply Forall_cons; split; [split; reflexivity|]). constructor.
  - reflexivity.
  - reflexivity.
  - reflexivity.
  - reflexivity.
Defined.
