(* ===== verification/CJsonNum.v ===== *)
(** The numbers of cJSON (src/test_targets/cjson/cJSON.c).  A [double] is a binary64 value
    of the Standard Library's specification of floating-point arithmetic; the C
    library's [strtod] and the [%d] and [%.<n>g] conversions of [sprintf] are
    written out for the characters and formats that the code uses.  Proofs are
    in CJsonNumProofs.v. *)
From S2P Require Import Prelude CJsonHeap CJsonText.

(** ** Doubles *)

Definition of_int (z : Z) : spec_float := binary_normalize 53 1024 z 0 false.
Definition DBL_EPSILON : spec_float := binary_round 53 1024 false 1 (-52).

(** [(int)d]: undefined outside the range of [int], and for a NaN. *)
Definition to_int (d : spec_float) : option Z :=
  match d with
  | S754_zero _ => Some 0
  | S754_finite s m e =>
      let n := if 0 <=? e then Zpos m * 2 ^ e else Zpos m / 2 ^ (- e) in
      let n := if s then - n else n in
      if (INT_MIN <=? n) && (n <=? INT_MAX) then Some n else None
  | _ => None
  end.

(** The saturating conversion of [parse_number], [cJSON_SetNumberHelper] and
    [cJSON_CreateNumber]. *)
Definition saturate (number : spec_float) : option Z :=
  if SFleb (of_int INT_MAX) number then Some INT_MAX
  else if SFleb number (of_int INT_MIN) then Some INT_MIN
  else to_int number.

Definition is_special (d : spec_float) : bool :=
  match d with S754_nan | S754_infinity _ => true | _ => false end.

Definition compare_double (a b : spec_float) : bool :=
  let maxVal := if SFltb (SFabs b) (SFabs a) then SFabs a else SFabs b in
  SFleb (SFabs (SFsub 53 1024 a b)) (SFmul 53 1024 maxVal DBL_EPSILON).

(** ** Decimal text *)

Definition is_digit (c : Z) : bool := (48 <=? c) && (c <=? 57).

(** The digits at the start of a text: their value and number, on top of [acc], and the rest. *)
Fixpoint read_digits (z : list Z) (acc : Z) (n : nat) : Z * nat * list Z :=
  match z with
  | c :: z' => if is_digit c then read_digits z' (acc * 10 + (c - 48)) (S n) else (acc, n, z)
  | [] => (acc, n, z)
  end.

(** The double nearest to [m * 10 ^ k], the even one of two. *)
Definition decimal_value (s : bool) (m k : Z) : spec_float :=
  if m =? 0 then S754_zero s
  else if 0 <=? k then binary_round 53 1024 s (Z.to_pos (m * 10 ^ k)) 0
  else let '(mz, ez, lz) := SFdiv_core_binary 53 1024 m 0 (10 ^ (- k)) 0 in
       binary_round_aux 53 1024 s mz ez lz.

(** [strtod] on a text of digits, signs, [.], [e] and [E]: the value and the number of
    bytes it takes, 0 when there is no number. *)
Definition strtod (z : list Z) : spec_float * Z :=
  let '(s, z1) := match z with
                  | c :: z' => if c =? 45 then (true, z') else if c =? 43 then (false, z') else (false, z)
                  | [] => (false, z)
                  end in
  let '(m, n, z2) := read_digits z1 0 0 in
  let '(m, k, z3) := match z2 with
                     | c :: z' => if c =? 46 then read_digits z' m 0 else (m, 0%nat, z2)
                     | [] => (m, 0%nat, z2)
                     end in
  if (n + k =? 0)%nat then (S754_zero false, 0)
  else
    let '(x, z4) :=
      match z3 with
      | c :: z' =>
          if (c =? 101) || (c =? 69) then
            let '(sx, z'') := match z' with
                              | c :: t => if c =? 45 then (true, t) else if c =? 43 then (false, t) else (false, z')
                              | [] => (false, z')
                              end in
            let '(x, nx, t) := read_digits z'' 0 0 in
            if (nx =? 0)%nat then (0, z3) else (if sx then - x else x, t)
          else (0, z3)
      | [] => (0, z3)
      end in
    (decimal_value s m (x - Z.of_nat k), zlen z - zlen z4).

(** The decimal digits of a number that is not negative; [fuel] digits are enough. *)
Fixpoint decimal_loop (fuel : nat) (n : Z) (acc : list Z) : list Z :=
  match fuel with
  | O => acc
  | S fuel' =>
      let acc := (48 + n mod 10) :: acc in
      if n / 10 =? 0 then acc else decimal_loop fuel' (n / 10) acc
  end.
Definition digits (n : Z) : list Z := decimal_loop (S (Z.to_nat (Z.log2 n))) n [].

(** [sprintf(buffer, "%d", n)] *)
Definition format_d (n : Z) : list Z := if n <? 0 then 45 :: digits (- n) else digits n.

(** [10 ^ x <= num / den] *)
Definition pow10_le (x num den : Z) : bool :=
  if 0 <=? x then 10 ^ x * den <=? num else den <=? num * 10 ^ (- x).
Fixpoint find_exponent (fuel : nat) (x num den : Z) : Z :=
  match fuel with
  | O => x
  | S fuel' => if pow10_le x num den then x else find_exponent fuel' (x - 1) num den
  end.

Definition round_half_even (num den : Z) : Z :=
  let q := num / den in
  let r := num mod den in
  if (2 * r <? den) || ((2 * r =? den) && Z.even q) then q else q + 1.

Fixpoint strip_zeros (l : list Z) : list Z :=
  match l with
  | [] => []
  | c :: l => match strip_zeros l with
              | [] => if c =? 48 then [] else [c]
              | l' => c :: l'
              end
  end.

Definition with_point (whole frac : list Z) : list Z :=
  match strip_zeros frac with [] => whole | f => whole ++ 46 :: f end.

(** [sprintf(buffer, "%1.<p>g", d)] for a finite [d]. *)
Definition format_g (p : Z) (d : spec_float) : list Z :=
  match d with
  | S754_finite s m e =>
      let '(num, den) := if 0 <=? e then (Zpos m * 2 ^ e, 1) else (Zpos m, 2 ^ (- e)) in
      let x := find_exponent 700 309 num den in
      let k := p - 1 - x in
      let n := if 0 <=? k then round_half_even (num * 10 ^ k) den else round_half_even num (den * 10 ^ (- k)) in
      let '(n, x) := if n =? 10 ^ p then (10 ^ (p - 1), x + 1) else (n, x) in
      let ds := digits n in
      (if s then [45] else []) ++
      (if (-4 <=? x) && (x <? p) then
         if 0 <=? x then with_point (take (Z.to_nat (x + 1)) ds) (drop (Z.to_nat (x + 1)) ds)
         else with_point [48] (replicate (Z.to_nat (- x - 1)) 48 ++ ds)
       else
         with_point (take 1 ds) (drop 1 ds) ++ 101 :: (if x <? 0 then 45 else 43) ::
           (if Z.abs x <? 10 then [48] else []) ++ digits (Z.abs x))
  | S754_zero s => (if s then [45] else []) ++ [48]
  | _ => []
  end.

Section blocks.
Variable malloc_bytes : Z → list Z.

(** The decimal point of the locale; the code is compiled without [ENABLE_LOCALES]. *)
Definition get_decimal_point : Z := 46.

(** ** Reading a number *)

Definition number_char (c : Z) : bool :=
  is_digit c || (c =? 43) || (c =? 45) || (c =? 101) || (c =? 69) || (c =? 46).

(** The first loop: the length of the text of a number. *)
Fixpoint number_loop (fuel : nat) (b : parse_buffer) (i : Z) : option Z :=
  match fuel with
  | O => None
  | S fuel' =>
      if can_access_at_index b i then
        c ← buffer_at b i; if number_char c then number_loop fuel' b (i + 1) else Some i
      else Some i
  end.

Definition parse_number (item : Z) (b : parse_buffer) (h : heap) : option (bool * parse_buffer * heap) :=
  n ← number_loop (S (List.length (content b))) b 0;
  match new_string malloc_bytes (n + 1) h with
  | (None, h) => Some (false, b, h)
  | (Some number_c_string, h) =>
      block ← strings h !! number_c_string;
      let text := take (Z.to_nat n) (drop (Z.to_nat (offset b)) (content b)) in
      let text := map (λ c, if c =? 46 then get_decimal_point else c) text in
      block ← overlay (text ++ [0]) block;
      let h := with_strings (<[number_c_string := block]> (strings h)) h in
      text ← c_string block;
      let '(number, after_end) := strtod text in
      if after_end =? 0 then
        h ← free_string number_c_string h;
        Some (false, b, h)
      else
        valueint ← saturate number;
        h ← upd item (set_number number valueint) h;
        h ← upd item (set_type cJSON_Number) h;
        let b := at_offset (offset b + after_end) b in
        h ← free_string number_c_string h;
        Some (true, b, h)
  end.

Definition cJSON_SetNumberHelper (h : heap) (object : option Z) (number : spec_float) : option (spec_float * heap) :=
  match object with
  | None => Some (S754_nan, h)
  | Some a =>
      valueint ← saturate number;
      h ← upd a (set_number number valueint) h;
      Some (number, h)
  end.

(** ** Writing a number *)

(** What is printed into [number_buffer]. *)
Definition number_text (d : spec_float) (valueint : Z) : list Z :=
  if is_special d then [110; 117; 108; 108]
  else if SFeqb d (of_int valueint) then format_d valueint
  else
    let text := format_g 15 d in
    let '(test, n) := strtod text in
    if (n =? 0) || negb (compare_double test d) then format_g 17 d else text.

Definition print_number (d : spec_float) (valueint : Z) (p : printbuffer) (m : mem)
  : option (bool * printbuffer * mem) :=
  let number_buffer := number_text d valueint in
  let length := zlen number_buffer in
  if 26 - 1 <? length then Some (false, p, m)
  else
    '(output, p, m) ← ensure malloc_bytes p (length + 1) m;
    match output with
    | None => Some (false, p, m)
    | Some output =>
        l ← buffer p;
        l ← put l output (map (λ c, if c =? get_decimal_point then 46 else c) number_buffer ++ [0]);
        Some (true, with_poffset (poffset p + length) (with_bytes l p), m)
    end.
End blocks.

(** ** Tests *)

(** 0.1, 1e100, 0.1 + 0.2, 5e-324 and -2.5e-7.  The third is not 0.3, but is printed as 0.3:
    the comparison has a tolerance. *)
Example number_text_ex :
  let d z := fst (strtod z) in
  (number_text (d [48; 46; 49]) 0, number_text (d [49; 101; 49; 48; 48]) INT_MAX,
   number_text (SFadd 53 1024 (d [46; 49]) (d [46; 50])) 0,
   number_text (d [53; 101; 45; 51; 50; 52]) 0,
   number_text (d [45; 50; 46; 53; 101; 45; 55]) 0) =
  ([48; 46; 49], [49; 101; 43; 49; 48; 48],
   [48; 46; 51],
   [52; 46; 57; 52; 48; 54; 53; 54; 52; 53; 56; 52; 49; 50; 52; 55; 101; 45; 51; 50; 52],
   [45; 50; 46; 53; 101; 45; 48; 55]).
Proof. vm_compute. reflexivity. Qed.
