(* ===== verification/CJsonNumProofs.v ===== *)
(** Proofs about the numbers of cJSON (CJsonNum.v): the conversion to [int] is defined for
    every number that is read, and an [int] is printed as its decimal digits and
    read back from them. *)
From S2P Require Import Prelude CJsonHeap CJsonText CJsonTextProofs CJsonNum.

(** ** Rounding to 53 bits *)

Lemma digits2_bounds p : 2 ^ (Zpos (digits2_pos p) - 1) ≤ Zpos p < 2 ^ Zpos (digits2_pos p).
Proof.
  induction p as [p IH|p IH|]; cbn [digits2_pos]; [| |done];
    rewrite Pos2Z.inj_succ; replace (Z.succ (Zpos (digits2_pos p)) - 1) with (Z.succ (Zpos (digits2_pos p) - 1)) by lia;
    rewrite !Z.pow_succ_r by lia; lia.
Qed.

Lemma Zdigits2_bounds m : 0 ≤ m → 0 ≤ Zdigits2 m ∧ m < 2 ^ Zdigits2 m ∧ (0 < m → 2 ^ (Zdigits2 m - 1) ≤ m).
Proof.
  destruct m as [|p|p]; cbn [Zdigits2]; [|intros _|lia].
  - intros _. split; [lia|]. split; [done|lia].
  - pose proof (digits2_bounds p). lia.
Qed.

Lemma shr_1_m r : 0 ≤ shr_m r → shr_m (shr_1 r) = shr_m r / 2.
Proof.
  destruct r as [m b s]. destruct m as [|p|p]; cbn; [done| |lia]. intros _.
  destruct p as [p|p|]; cbn [shr_1 shr_m]; [|zdm|done]. zdm.
Qed.

Lemma shr_iter p r : 0 ≤ shr_m r → shr_m (iter_pos shr_1 p r) = shr_m r / 2 ^ Zpos p.
Proof.
  revert r. induction p as [p IH|p IH|]; intros r Hr; cbn [iter_pos].
  - assert (H1 : 0 ≤ shr_m (shr_1 r)) by (rewrite shr_1_m by done; zdm).
    assert (H2 : 0 ≤ shr_m (iter_pos shr_1 p (shr_1 r))) by (rewrite IH by done; apply Z.div_pos; lia).
    rewrite !IH by done. rewrite shr_1_m by done. rewrite !Z.div_div by lia.
    f_equal. replace (Zpos p~1) with (1 + (Zpos p + Zpos p)) by lia. by rewrite !Z.pow_add_r by lia.
  - assert (H2 : 0 ≤ shr_m (iter_pos shr_1 p r)) by (rewrite IH by done; apply Z.div_pos; lia).
    rewrite !IH by done. rewrite Z.div_div by lia. f_equal.
    replace (Zpos p~0) with (Zpos p + Zpos p) by lia. by rewrite Z.pow_add_r by lia.
  - by apply shr_1_m.
Qed.

Lemma record_of_loc_m m l : shr_m (shr_record_of_loc m l) = m.
Proof. by destruct l as [|[]]. Qed.

(** A shift to the exponent of a double leaves at most 53 bits. *)
Lemma shr_fexp_m m e l :
  0 ≤ m → let '(r, e') := shr_fexp 53 1024 m e l in 0 ≤ shr_m r < 2 ^ 53.
Proof.
  intros Hm. unfold shr_fexp, shr. destruct (Zdigits2_bounds m Hm) as (Hd & Hlt & _).
  unfold fexp, emin. set (n := Z.max _ _ - e).
  assert (Hn : Zdigits2 m - 53 ≤ n) by (unfold n; lia).
  destruct n as [|p|p]; rewrite ?record_of_loc_m.
  - split; [done|]. eapply Z.lt_le_trans; [exact Hlt|]. apply Z.pow_le_mono_r; lia.
  - rewrite shr_iter; rewrite record_of_loc_m; [|done]. split; [apply Z.div_pos; lia|].
    apply Z.div_lt_upper_bound; [lia|]. rewrite <- Z.pow_add_r by lia.
    eapply Z.lt_le_trans; [exact Hlt|]. apply Z.pow_le_mono_r; lia.
  - split; [done|]. eapply Z.lt_le_trans; [exact Hlt|]. apply Z.pow_le_mono_r; lia.
Qed.

(** A double that is a number, with 53 bits of mantissa. *)
Definition double_ok (d : spec_float) : Prop :=
  match d with S754_nan => False | S754_finite _ m _ => Zpos m < 2 ^ 53 | _ => True end.

Lemma round_even_nonneg m l : 0 ≤ m → 0 ≤ round_nearest_even m l.
Proof. intros Hm. unfold round_nearest_even. destruct l as [|[]]; try lia. destruct (Z.even m); lia. Qed.

Lemma binary_round_aux_ok s m e l : 0 ≤ m → double_ok (binary_round_aux 53 1024 s m e l).
Proof.
  intros Hm. unfold binary_round_aux. pose proof (shr_fexp_m m e l Hm) as H1.
  destruct (shr_fexp 53 1024 m e l) as [r1 e1].
  pose proof (shr_fexp_m (round_nearest_even (shr_m r1) (loc_of_shr_record r1)) e1 loc_Exact
                (round_even_nonneg _ _ (proj1 H1))) as H2.
  destruct (shr_fexp 53 1024 _ e1 loc_Exact) as [r2 e2].
  destruct (shr_m r2) as [|p|p]; [done| |lia]. destruct (_ <=? _); [|done]. cbn. lia.
Qed.

Lemma decimal_value_ok s m k : 0 ≤ m → double_ok (decimal_value s m k).
Proof.
  intros Hm. unfold decimal_value. destruct (Z.eqb_spec m 0); [done|]. destruct (Z.leb_spec 0 k).
  - unfold binary_round. destruct (shl_align _ _ _). by apply binary_round_aux_ok.
  - destruct (SFdiv_core_binary 53 1024 m 0 (10 ^ (- k)) 0) as [[mz ez] lz] eqn:E.
    apply binary_round_aux_ok. unfold SFdiv_core_binary in E.
    set (sh := 0 - 0 - _) in E. set (m' := match sh with Z0 => m | Zpos _ => Z.shiftl m sh | Zneg _ => 0 end) in E.
    assert (Hm' : 0 ≤ m').
    { unfold m'. destruct sh; [done| |done]. by apply Z.shiftl_nonneg. }
    assert (0 < 10 ^ (- k)) by (apply Z.pow_pos_nonneg; lia).
    pose proof (Z.div_pos m' (10 ^ (- k)) Hm' ltac:(done)) as Hq. unfold Z.div in Hq.
    destruct (Z.div_eucl m' (10 ^ (- k))). by injection E as <- _ _.
Qed.

(** Comparison of doubles of one sign, by exponent and then by mantissa. *)
Lemma SFleb_finite s m1 e1 m2 e2 :
  SFleb (S754_finite s m1 e1) (S754_finite s m2 e2) = false →
  if s then e1 < e2 ∨ e1 = e2 ∧ Zpos m1 < Zpos m2 else e2 < e1 ∨ e1 = e2 ∧ Zpos m2 < Zpos m1.
Proof.
  unfold SFleb, SFcompare. change (Pos.compare_cont Eq m1 m2) with (m1 ?= m2)%positive.
  destruct s, (Z.compare_spec e1 e2); try done; destruct (Pos.compare_spec m1 m2); try done; lia.
Qed.

(** [(int)d] below the limit of the comparison. *)
Lemma saturate_some d : double_ok d → ∃ n, saturate d = Some n ∧ INT_MIN ≤ n ≤ INT_MAX.
Proof.
  intros Hd. unfold saturate. destruct (SFleb (of_int INT_MAX) d) eqn:E1; [exists INT_MAX; by split|].
  destruct (SFleb d (of_int INT_MIN)) eqn:E2; [exists INT_MIN; by split|].
  change (of_int INT_MAX) with (S754_finite false 9007199250546688 (-22)) in E1.
  change (of_int INT_MIN) with (S754_finite true 4503599627370496 (-21)) in E2.
  destruct d as [s|s| |s m e]; [by exists 0|by destruct s|done|]. cbn [double_ok] in Hd. cbn [to_int].
  assert (Hr : 0 ≤ (if 0 <=? e then Zpos m * 2 ^ e else Zpos m / 2 ^ (- e)) ≤ INT_MAX).
  { assert (He : e < -21 ∧ (e = -22 → Zpos m < 9007199250546688 + 0) ∨ s = true ∧ (e < -21 ∨ e = -21 ∧ Zpos m < 4503599627370496)).
    { destruct s; [apply SFleb_finite in E2|apply SFleb_finite in E1]; lia. }
    destruct (Z.leb_spec 0 e); [lia|]. split; [apply Z.div_pos; lia|].
    assert (Hlt : Zpos m < 2 ^ 31 * 2 ^ (- e)).
    { destruct (decide (e < -21)) as [He'|He'].
      - rewrite <- Z.pow_add_r by lia. eapply Z.lt_le_trans; [exact Hd|]. apply Z.pow_le_mono_r; lia.
      - destruct He as [(He & _)|(_ & [He|(-> & He)])]; [lia|lia|]. cbn. lia. }
    assert (Zpos m / 2 ^ (- e) < 2 ^ 31); [|unfold INT_MAX; lia].
    apply Z.div_lt_upper_bound; [apply Z.pow_pos_nonneg; lia|lia]. }
  set (n := if 0 <=? e then _ else _) in *.
  assert (Hn : INT_MIN ≤ (if s then - n else n) ≤ INT_MAX) by (destruct s; unfold INT_MIN, INT_MAX in *; lia).
  exists (if s then - n else n). split; [|done].
  destruct (Z.leb_spec INT_MIN (if s then - n else n)); [|lia].
  by destruct (Z.leb_spec (if s then - n else n) INT_MAX); [|lia].
Qed.

(** ** Reading a number *)

(** The characters at the start of a text that a number may have. *)
Fixpoint number_prefix (z : list Z) : list Z :=
  match z with
  | c :: z => if number_char c then c :: number_prefix z else []
  | [] => []
  end.

(** The number at the start of a text, and what follows it. *)
Definition number_ref (z : list Z) : option (spec_float * list Z) :=
  let '(number, k) := strtod (number_prefix z) in
  if k =? 0 then None else Some (number, drop (Z.to_nat k) z).

Lemma number_prefix_split z : ∃ t, z = number_prefix z ++ t.
Proof.
  induction z as [|c z (t & IH)]; cbn [number_prefix]; [by exists []|].
  destruct (number_char c); [|by exists (c :: z)]. exists t. cbn [app]. by f_equal.
Qed.

Lemma read_digits_spec z acc n :
  0 ≤ acc → let '(m, _, z') := read_digits z acc n in 0 ≤ m ∧ zlen z' ≤ zlen z.
Proof.
  revert acc n. induction z as [|c z IH]; intros acc n Ha; cbn [read_digits]; [done|].
  destruct (is_digit c) eqn:E; [|done]. unfold is_digit in E. b2p.
  specialize (IH (acc * 10 + (c - 48)) (S n) ltac:(lia)).
  destruct (read_digits z _ _) as [[m n'] z']. cbn [List.length]. lia.
Qed.

Lemma strtod_ok z : let '(d, k) := strtod z in double_ok d ∧ 0 ≤ k ≤ zlen z.
Proof.
  unfold strtod.
  set (sz := match z with [] => (false, z) | c :: z' => _ end).
  assert (Hsz : zlen (snd sz) ≤ zlen z) by (unfold sz; destruct z as [|c z']; [done|]; repeat case_cmp; cbn; lia).
  destruct sz as [s z1]. cbn [snd] in Hsz.
  pose proof (read_digits_spec z1 0 0 ltac:(lia)) as H1. destruct (read_digits z1 0 0) as [[m n] z2].
  set (mk := match z2 with [] => (m, 0%nat, z2) | c :: z' => _ end).
  assert (Hmk : 0 ≤ fst (fst mk) ∧ zlen (snd mk) ≤ zlen z2).
  { unfold mk. destruct z2 as [|c z']; [cbn; lia|]. destruct (c =? 46); [|cbn; lia].
    pose proof (read_digits_spec z' m 0 ltac:(lia)) as H2. destruct (read_digits z' m 0) as [[m' k'] z3].
    cbn [fst snd List.length]. lia. }
  destruct mk as [[m' k] z3]. cbn [fst snd] in Hmk. destruct (n + k =? 0)%nat; [split; [done|lia]|].
  set (xz := match z3 with [] => (0, z3) | c :: z' => _ end).
  assert (Hxz : zlen (snd xz) ≤ zlen z3).
  { unfold xz. destruct z3 as [|c z']; [done|]. destruct ((c =? 101) || (c =? 69)); [|done].
    set (sx := match z' with [] => (false, z') | c :: t => _ end).
    assert (Hsx : zlen (snd sx) ≤ zlen z') by (unfold sx; destruct z' as [|c' t]; [done|]; repeat case_cmp; cbn; lia).
    destruct sx as [sx z'']. cbn [snd] in Hsx. pose proof (read_digits_spec z'' 0 0 ltac:(lia)) as H3.
    destruct (read_digits z'' 0 0) as [[x nx] t]. destruct (nx =? 0)%nat; cbn [snd List.length]; lia. }
  destruct xz as [x z4]. cbn [snd] in Hxz. split; [apply decimal_value_ok; lia|lia].
Qed.

Lemma number_ref_shorter z d rest : number_ref z = Some (d, rest) → (List.length rest < List.length z)%nat.
Proof.
  unfold number_ref. pose proof (strtod_ok (number_prefix z)) as H. destruct (strtod (number_prefix z)) as [d' k].
  destruct (Z.eqb_spec k 0); [done|]. intros [= <- <-]. rewrite length_drop.
  destruct (number_prefix_split z) as (t & E). apply (f_equal (@List.length Z)) in E. rewrite length_app in E. lia.
Qed.

Lemma can_access b t z : at_input b (t ++ z) → can_access_at_index b (zlen t) = bool_decide (z ≠ []).
Proof.
  intros (pre & tail & _ & Ho & Hl). unfold can_access_at_index. rewrite Ho, Hl, length_app.
  destruct z as [|c z]; cbn [List.length].
  - rewrite bool_decide_false by tauto. apply Z.ltb_ge. lia.
  - rewrite bool_decide_true by done. apply Z.ltb_lt. lia.
Qed.

Lemma buffer_at_app b t c z : at_input b (t ++ c :: z) → buffer_at b (zlen t) = Some c.
Proof.
  intros (pre & tail & Hc & Ho & _). unfold buffer_at. rewrite Hc, Ho.
  replace (pre ++ (t ++ c :: z) ++ tail) with ((pre ++ t) ++ c :: z ++ tail) by (by rewrite <- !app_assoc).
  replace (zlen pre + zlen t) with (zlen (pre ++ t)) by len. apply rd_app_head.
Qed.

Lemma at_input_drop b t z : at_input b (t ++ z) → at_input (at_offset (offset b + zlen t) b) z.
Proof.
  intros (pre & tail & Hc & Ho & Hl). exists (pre ++ t), tail. cbn [content offset length at_offset].
  split; [by rewrite Hc, <- !app_assoc|]. rewrite Ho, Hl. len.
Qed.

Lemma at_input_fuel b z : at_input b z → (List.length z < S (List.length (content b)))%nat.
Proof. intros (pre & tail & Hc & _ & _). rewrite Hc. len. Qed.

Lemma number_loop_spec fuel b t z :
  at_input b (t ++ z) → (List.length z < fuel)%nat →
  number_loop fuel b (zlen t) = Some (zlen t + zlen (number_prefix z)).
Proof.
  revert t z. induction fuel as [|fuel IH]; intros t z Hin Hf; [lia|]. cbn [number_loop].
  rewrite (can_access _ _ _ Hin). destruct z as [|c z]; cbn [number_prefix].
  { rewrite bool_decide_false by tauto. f_equal. cbn. lia. }
  rewrite bool_decide_true, (buffer_at_app _ _ _ _ Hin) by done. cbn [mbind option_bind].
  destruct (number_char c); [|f_equal; cbn; lia].
  replace (zlen t + 1) with (zlen (t ++ [c])) by len. cbn [List.length] in Hf.
  rewrite (IH (t ++ [c]) z); [f_equal; len|by rewrite <- app_assoc|lia].
Qed.

Lemma number_prefix_nonzero z : Forall (λ c, c ≠ 0) (number_prefix z).
Proof.
  induction z as [|c z IH]; cbn [number_prefix]; [done|]. destruct (number_char c) eqn:E; [|done].
  constructor; [|done]. intros ->. done.
Qed.

Lemma c_string_app (s t : list Z) : Forall (λ c, c ≠ 0) s → c_string (s ++ 0 :: t) = Some s.
Proof.
  intros Hs. unfold c_string. rewrite strlen_app by done. cbn [mbind option_bind]. f_equal. apply take_app_length'. lia.
Qed.

Lemma decimal_point_id (l : list Z) : map (λ c, if c =? 46 then get_decimal_point else c) l = l.
Proof. rewrite <- (map_id l) at 2. apply map_ext. intros c. by destruct (Z.eqb_spec c 46). Qed.

(** [parse_number] reads what [number_ref] says, and the temporary copy is freed. *)
Lemma parse_number_spec mb item it b h z :
  sized mb → at_input b z → items h !! item = Some it → strings h !! brk h = None →
  let r := parse_number mb item b h in
  (∃ k a, r = Some (false, b, mkHeap (items h) (strings h) k a) ∧ brk h ≤ k ∧
     (a = tail (answers h)) ∧ (number_ref z = None ∨ granted h = false)) ∨
  ∃ d n rest b', number_ref z = Some (d, rest) ∧ saturate d = Some n ∧ at_input b' rest ∧ moved b b' ∧
    r = Some (true, b', mkHeap (<[item := set_type cJSON_Number (set_number d n it)]> (items h)) (strings h)
                               (brk h + 1) (tail (answers h))).
Proof.
  intros Hmb Hin Hit Hfresh. cbv zeta. unfold parse_number.
  pose proof (number_loop_spec _ _ [] z Hin (at_input_fuel _ _ Hin)) as Hloop.
  change (zlen (@nil Z)) with 0 in Hloop. rewrite Z.add_0_l in Hloop. rewrite Hloop. cbn [mbind option_bind].
  rewrite new_string_spec. destruct (granted h) eqn:Hg.
  2: { left. eexists _, _. split_and!; [done|lia|done|by right]. }
  cbn [strings]. rewrite lookup_insert_eq. cbn [mbind option_bind].
  destruct (number_prefix_split z) as (t & Hz). set (pre := number_prefix z) in *.
  assert (Htext : take (Z.to_nat (zlen pre)) (drop (Z.to_nat (offset b)) (content b)) = pre).
  { destruct Hin as (p & tail & Hc & Ho & _). rewrite Hc, Ho, Hz, Nat2Z.id, <- app_assoc, drop_app_length' by lia.
    apply take_app_length'. lia. }
  rewrite Htext, decimal_point_id. pose proof (Hmb (zlen pre + 1) ltac:(lia)) as Hroom.
  unfold overlay. destruct (Nat.leb_spec (List.length (pre ++ [0])) (List.length (mb (zlen pre + 1)))) as [|E]; [|rewrite length_app in E; cbn [List.length] in E; lia].
  cbn [mbind option_bind]. rewrite <- app_assoc. cbn [app].
  rewrite c_string_app by apply number_prefix_nonzero. cbn [mbind option_bind].
  pose proof (strtod_ok pre) as Hd. unfold number_ref. fold pre. destruct (strtod pre) as [d k]. destruct Hd as (Hd & Hk).
  unfold free_string, upd. cbn [strings with_strings items with_items].
  destruct (Z.eqb_spec k 0).
  { left. cbn [strings with_strings items brk answers]. rewrite lookup_insert_eq. cbn.
    rewrite insert_insert_eq, delete_insert_id by done. eexists _, _. split; [reflexivity|]. cbn. split; [lia|]. split; [done|by left]. }
  right. destruct (saturate_some d Hd) as (n' & Hn & _). exists d, n', (drop (Z.to_nat k) z), (at_offset (offset b + k) b).
  rewrite Hn. cbn [mbind option_bind]. rewrite Hit. cbn [mbind option_bind items with_items strings with_strings].
  rewrite lookup_insert_eq. cbn [mbind option_bind items with_items strings with_strings].
  rewrite lookup_insert_eq. cbn. split; [done|]. split; [done|]. split; [|split; [done|]].
  - rewrite <- (take_drop (Z.to_nat k) z) in Hin. pose proof (at_input_drop _ _ _ Hin) as H1.
    replace (zlen (take (Z.to_nat k) z)) with k in H1; [done|]. apply (f_equal (@List.length Z)) in Hz. rewrite length_app in Hz. rewrite length_take. lia.
  - unfold with_strings, with_items. cbn. by rewrite !insert_insert_eq, delete_insert_id by done.
Qed.

(** ** Integers *)

Lemma digits2_unique p d : 2 ^ (d - 1) ≤ Zpos p < 2 ^ d → Zpos (digits2_pos p) = d.
Proof.
  intros (H1 & H2). destruct (digits2_bounds p) as (H3 & H4). set (e := Zpos (digits2_pos p)) in *.
  assert (0 ≤ d) by (destruct (Z.ltb_spec d 0); [rewrite (Z.pow_neg_r 2 d) in H2 by done; lia|done]).
  destruct (Z.lt_trichotomy e d) as [Hlt|[Heq|Hlt]]; [exfalso|done|exfalso].
  - assert (2 ^ e ≤ 2 ^ (d - 1)) by (apply Z.pow_le_mono_r; lia). lia.
  - assert (2 ^ d ≤ 2 ^ (e - 1)) by (apply Z.pow_le_mono_r; lia). lia.
Qed.

Lemma shift_pos_value p m : Zpos (shift_pos p m) = Zpos m * 2 ^ Zpos p.
Proof. rewrite shift_pos_correct. unfold Z.pow. lia. Qed.

(** An integer of at most 53 bits is rounded to itself, with its first bit at the top. *)
Lemma binary_round_exact s m :
  Zpos (digits2_pos m) ≤ 53 →
  ∃ mz, binary_round 53 1024 s m 0 = S754_finite s mz (Zpos (digits2_pos m) - 53) ∧
    Zpos mz = Zpos m * 2 ^ (53 - Zpos (digits2_pos m)).
Proof.
  intros Hd. set (dg := Zpos (digits2_pos m)) in *. assert (H0 : 1 ≤ dg) by (unfold dg; lia).
  unfold binary_round. fold dg. unfold fexp at 1, emin at 1. replace (Z.max (dg + 0 - 53) (3 - 1024 - 53)) with (dg - 53) by lia.
  assert (Hal : ∃ mz, shl_align m 0 (dg - 53) = (mz, dg - 53) ∧ Zpos mz = Zpos m * 2 ^ (53 - dg)).
  { unfold shl_align. replace (dg - 53 - 0) with (- (53 - dg)) by lia. destruct (53 - dg) as [|k|k] eqn:E; [|cbn [Z.opp]|lia].
    - exists m. cbn [Z.opp]. split; [f_equal; lia|]. lia.
    - exists (shift_pos k m). split; [done|]. apply shift_pos_value. }
  destruct Hal as (mz & -> & Hmz). exists mz. split; [|done].
  assert (Hdz : Zdigits2 (Zpos mz) = 53).
  { cbn [Zdigits2]. apply digits2_unique. rewrite Hmz. destruct (digits2_bounds m) as (H1 & H2). fold dg in H1, H2.
    assert (0 < 2 ^ (53 - dg)) by (apply Z.pow_pos_nonneg; lia).
    replace (2 ^ 53) with (2 ^ dg * 2 ^ (53 - dg)) by (rewrite <- Z.pow_add_r by lia; f_equal; lia).
    replace (2 ^ (53 - 1)) with (2 ^ (dg - 1) * 2 ^ (53 - dg)) by (rewrite <- Z.pow_add_r by lia; f_equal; lia). nia. }
  unfold binary_round_aux, shr_fexp. rewrite Hdz. unfold fexp, emin.
  replace (Z.max (53 + (dg - 53) - 53) (3 - 1024 - 53) - (dg - 53)) with 0 by lia. cbn [shr shr_record_of_loc shr_m].
  cbn [loc_of_shr_record round_nearest_even]. rewrite Hdz.
  replace (Z.max (53 + (dg - 53) - 53) (3 - 1024 - 53) - (dg - 53)) with 0 by lia. cbn [shr shr_record_of_loc shr_m].
  destruct (Z.leb_spec (dg - 53) (1024 - 53)); [done|lia].
Qed.

Lemma SFleb_finite_true s m1 e1 m2 e2 :
  SFleb (S754_finite s m1 e1) (S754_finite s m2 e2) = true →
  if s then e2 < e1 ∨ e1 = e2 ∧ Zpos m2 ≤ Zpos m1 else e1 < e2 ∨ e1 = e2 ∧ Zpos m1 ≤ Zpos m2.
Proof.
  unfold SFleb, SFcompare. change (Pos.compare_cont Eq m1 m2) with (m1 ?= m2)%positive.
  destruct s, (Z.compare_spec e1 e2); try done; destruct (Pos.compare_spec m1 m2); try done; subst; lia.
Qed.

Lemma digits2_small p k : 0 ≤ k → Zpos p < 2 ^ k → Zpos (digits2_pos p) ≤ k.
Proof.
  intros Hk Hp. destruct (digits2_bounds p) as (H1 & _). destruct (Z.leb_spec (Zpos (digits2_pos p)) k); [done|].
  assert (2 ^ k ≤ 2 ^ (Zpos (digits2_pos p) - 1)) by (apply Z.pow_le_mono_r; lia). lia.
Qed.

Lemma exact_quotient m mz dg : dg ≤ 53 → Zpos mz = m * 2 ^ (53 - dg) → (if 0 <=? dg - 53 then Zpos mz * 2 ^ (dg - 53) else Zpos mz / 2 ^ (- (dg - 53))) = m.
Proof.
  intros Hd Hm. assert (0 < 2 ^ (53 - dg)) by (apply Z.pow_pos_nonneg; lia). destruct (Z.leb_spec 0 (dg - 53)).
  - replace (dg - 53) with 0 by lia. replace (53 - dg) with 0 in Hm by lia. lia.
  - replace (- (dg - 53)) with (53 - dg) by lia. rewrite Hm. apply Z.div_mul. lia.
Qed.

(** The conversions between [int] and [double] are inverse. *)
Lemma saturate_of_int n : INT_MIN ≤ n ≤ INT_MAX → saturate (of_int n) = Some n.
Proof.
  unfold INT_MIN, INT_MAX. intros Hn. destruct n as [|p|p]; [done| |].
  - change (of_int (Zpos p)) with (binary_round 53 1024 false p 0).
    pose proof (digits2_small p 31 ltac:(lia) ltac:(lia)) as Hd.
    destruct (binary_round_exact false p ltac:(lia)) as (mz & -> & Hmz). set (dg := Zpos (digits2_pos p)) in *.
    unfold saturate. change (of_int INT_MAX) with (S754_finite false 9007199250546688 (-22)).
    destruct (SFleb (S754_finite false 9007199250546688 (-22)) _) eqn:E.
    + apply SFleb_finite_true in E. assert (dg = 31 ∧ 9007199250546688 ≤ Zpos mz) as (Hdg & Hle) by lia.
      rewrite Hmz, Hdg in Hle. change (2 ^ (53 - 31)) with 4194304 in Hle. unfold INT_MAX. f_equal. lia.
    + change (SFleb _ (of_int INT_MIN)) with false. cbv iota. unfold to_int. rewrite (exact_quotient (Zpos p)) by (lia || done).
      unfold INT_MIN, INT_MAX. cbn [andb]. destruct (Z.leb_spec (- 2 ^ 31) (Zpos p)); [|lia].
      by destruct (Z.leb_spec (Zpos p) (2 ^ 31 - 1)); [|lia].
  - change (of_int (Zneg p)) with (binary_round 53 1024 true p 0).
    pose proof (digits2_small p 32 ltac:(lia) ltac:(lia)) as Hd.
    destruct (binary_round_exact true p ltac:(lia)) as (mz & -> & Hmz). set (dg := Zpos (digits2_pos p)) in *.
    unfold saturate. change (SFleb (of_int INT_MAX) (S754_finite true mz (dg - 53))) with false. cbv iota.
    change (of_int INT_MIN) with (S754_finite true 4503599627370496 (-21)).
    destruct (SFleb _ (S754_finite true 4503599627370496 (-21))) eqn:E.
    + apply SFleb_finite_true in E. assert (dg = 32 ∧ 4503599627370496 ≤ Zpos mz) as (Hdg & Hle) by lia.
      rewrite Hmz, Hdg in Hle. change (2 ^ (53 - 32)) with 2097152 in Hle. unfold INT_MIN. f_equal. lia.
    + unfold to_int. rewrite (exact_quotient (Zpos p)) by (lia || done).
      unfold INT_MIN, INT_MAX. destruct (Z.leb_spec (- 2 ^ 31) (- Zpos p)); [|lia].
      by destruct (Z.leb_spec (- Zpos p) (2 ^ 31 - 1)); [|lia].
Qed.

(** ** Digits *)

Lemma decimal_loop_spec fuel n acc :
  0 ≤ n < 10 ^ Z.of_nat fuel → (0 < fuel)%nat →
  ∃ ds, decimal_loop fuel n acc = ds ++ acc ∧ ds ≠ [] ∧ Forall (λ c, is_digit c = true) ds ∧
    (Z.of_nat (List.length ds) ≤ Z.of_nat fuel) ∧
    ∀ a k r, read_digits (ds ++ r) a k = read_digits r (a * 10 ^ zlen ds + n) (k + List.length ds).
Proof.
  revert n acc. induction fuel as [|fuel IH]; intros n acc Hn Hf; [lia|]. cbn [decimal_loop].
  assert (Hc : is_digit (48 + n mod 10) = true) by (unfold is_digit; pose proof (Z.mod_pos_bound n 10); apply andb_true_iff; split; apply Z.leb_le; lia).
  destruct (Z.eqb_spec (n / 10) 0) as [H0|H0].
  - exists [48 + n mod 10]. split; [done|]. split; [done|]. split; [by constructor|]. split; [cbn [List.length]; lia|].
    intros a k r. cbn [app read_digits List.length]. rewrite Hc. f_equal; [change (10 ^ Z.of_nat 1) with 10; zdm|lia].
  - destruct fuel as [|fuel].
    { exfalso. change (10 ^ Z.of_nat 1) with 10 in Hn. zdm. }
    destruct (IH (n / 10) ((48 + n mod 10) :: acc)) as (ds & -> & Hne & Hds & Hlen & Hrd); [|lia|].
    { replace (Z.of_nat (S (S fuel))) with (1 + Z.of_nat (S fuel)) in Hn by lia. rewrite Z.pow_add_r in Hn by lia.
      change (10 ^ 1) with 10 in Hn. split; [apply Z.div_pos; lia|]. apply Z.div_lt_upper_bound; lia. }
    exists (ds ++ [48 + n mod 10]). split; [by rewrite <- app_assoc|]. split; [by destruct ds|].
    split; [apply Forall_app; split; [done|by constructor]|]. split; [rewrite length_app; cbn [List.length]; lia|].
    intros a k r. rewrite <- app_assoc, Hrd. cbn [app read_digits]. rewrite Hc.
    replace (zlen (ds ++ [48 + n mod 10])) with (zlen ds + 1) by len. rewrite Z.pow_add_r by lia. change (10 ^ 1) with 10.
    f_equal; [zdm|rewrite length_app; cbn; lia].
Qed.

Lemma digits_spec n :
  0 ≤ n → digits n ≠ [] ∧ Forall (λ c, is_digit c = true) (digits n) ∧ zlen (digits n) ≤ Z.log2 n + 1 ∧
    read_digits (digits n) 0 0 = (n, List.length (digits n), []).
Proof.
  intros Hn. unfold digits. pose proof (Z.log2_nonneg n).
  destruct (decimal_loop_spec (S (Z.to_nat (Z.log2 n))) n []) as (ds & -> & Hne & Hds & Hlen & Hrd); [|lia|].
  - split; [done|]. replace (Z.of_nat (S (Z.to_nat (Z.log2 n)))) with (Z.log2 n + 1) by lia.
    destruct (Z.eq_dec n 0) as [->|]; [done|]. destruct (Z.log2_spec n) as (_ & H2); [lia|].
    eapply Z.lt_le_trans; [exact H2|]. rewrite <- Z.add_1_r. apply Z.pow_le_mono_l. lia.
  - rewrite app_nil_r. split; [done|]. split; [done|]. split; [lia|]. rewrite <- (app_nil_r ds) at 1. rewrite Hrd.
    cbn [read_digits]. f_equal; lia.
Qed.

Lemma is_digit_number c : is_digit c = true → number_char c = true ∧ c ≠ 45 ∧ c ≠ 43 ∧ 32 < c.
Proof. intros H. unfold number_char. rewrite H. unfold is_digit in H. b2p. split; [done|lia]. Qed.

Lemma strtod_digits n : 0 ≤ n → strtod (digits n) = (decimal_value false n 0, zlen (digits n)).
Proof.
  intros Hn. destruct (digits_spec n Hn) as (Hne & Hds & _ & Hrd). unfold strtod.
  assert (Hsign : match digits n with
                  | c :: z' => if c =? 45 then (true, z') else if c =? 43 then (false, z') else (false, digits n)
                  | [] => (false, digits n)
                  end = (false, digits n)).
  { destruct (digits n) as [|c ds]; [done|]. apply Forall_cons in Hds as (Hc & _).
    apply is_digit_number in Hc as (_ & H1 & H2 & _). destruct (Z.eqb_spec c 45); [done|]. by destruct (Z.eqb_spec c 43). }
  rewrite Hsign, Hrd. destruct (Nat.eqb_spec (List.length (digits n) + 0) 0) as [H0|_]; [destruct (digits n); cbn in H0; [done|lia]|].
  f_equal. cbn. lia.
Qed.

Lemma strtod_negative n : 0 ≤ n → strtod (45 :: digits n) = (decimal_value true n 0, zlen (45 :: digits n)).
Proof.
  intros Hn. destruct (digits_spec n Hn) as (Hne & _ & _ & Hrd). unfold strtod. change (45 =? 45) with true. cbv iota.
  rewrite Hrd. destruct (Nat.eqb_spec (List.length (digits n) + 0) 0) as [H0|_]; [destruct (digits n); cbn in H0; [done|lia]|].
  by f_equal.
Qed.

(** The digits of an [int] are read back, up to whatever cannot be part of a number. *)
Definition ends_number (r : list Z) : Prop := match r with c :: _ => number_char c = false | [] => True end.

Lemma number_prefix_app t r : Forall (λ c, number_char c = true) t → ends_number r → number_prefix (t ++ r) = t.
Proof.
  intros Ht Hr. induction Ht as [|c t Hc Ht IH]; cbn [app number_prefix].
  - destruct r as [|c r]; [done|]. cbn in *. by rewrite Hr.
  - rewrite Hc. by f_equal.
Qed.

Lemma number_ref_format n r :
  INT_MIN ≤ n ≤ INT_MAX → ends_number r → number_ref (format_d n ++ r) = Some (of_int n, r) ∧
    ∃ c t, format_d n = c :: t ∧ ((c =? 45) || is_digit c) = true ∧ 32 < c.
Proof.
  unfold INT_MIN, INT_MAX, format_d. intros Hn Hr.
  assert (Hdig : ∀ k, 0 ≤ k → Forall (λ c, number_char c = true) (digits k)).
  { intros k Hk. eapply Forall_impl; [apply (digits_spec k Hk)|]. intros c Hc. by apply is_digit_number. }
  destruct (Z.ltb_spec n 0).
  - unfold number_ref. rewrite number_prefix_app; [|constructor; [done|apply Hdig; lia]|done].
    rewrite strtod_negative by lia. destruct (Z.eqb_spec (zlen (45 :: digits (- n))) 0) as [H0|_]; [cbn in H0; lia|].
    rewrite Nat2Z.id, drop_app_length. split; [|by eexists _, _]. do 2 f_equal. unfold decimal_value.
    destruct (Z.eqb_spec (- n) 0); [lia|]. destruct n as [|p|p]; try lia. cbn [Z.opp]. by rewrite Z.mul_1_r.
  - destruct (digits_spec n) as (Hne & Hds & _ & _); [lia|]. unfold number_ref. rewrite number_prefix_app by auto.
    rewrite strtod_digits by lia. destruct (Z.eqb_spec (zlen (digits n)) 0) as [H0|_]; [destruct (digits n); cbn in H0; [done|lia]|].
    rewrite Nat2Z.id, drop_app_length. split.
    + do 2 f_equal. unfold decimal_value. destruct n as [|p|p]; [done| |lia]. by rewrite Z.mul_1_r.
    + destruct (digits n) as [|c t]; [done|]. apply Forall_cons in Hds as (Hc & _). exists c, t.
      split; [done|]. rewrite Hc, orb_true_r. split; [done|]. by apply is_digit_number.
Qed.


Lemma decimal_loop_length fuel n k acc :
  0 ≤ n < 10 ^ Z.of_nat k → (0 < k)%nat → (List.length (decimal_loop fuel n acc) ≤ k + List.length acc)%nat.
Proof.
  revert n k acc. induction fuel as [|fuel IH]; intros n k acc Hn Hk; cbn [decimal_loop]; [lia|].
  destruct (Z.eqb_spec (n / 10) 0); [cbn [List.length]; lia|]. destruct k as [|[|k]]; [lia| |].
  - change (10 ^ Z.of_nat 1) with 10 in Hn. zdm.
  - etransitivity; [apply (IH _ (S k)); [|lia]|cbn [List.length]; lia].
    replace (Z.of_nat (S (S k))) with (1 + Z.of_nat (S k)) in Hn by lia. rewrite Z.pow_add_r in Hn by lia.
    change (10 ^ 1) with 10 in Hn. split; [apply Z.div_pos; lia|]. apply Z.div_lt_upper_bound; lia.
Qed.

Lemma format_d_length n : INT_MIN ≤ n ≤ INT_MAX → zlen (format_d n) ≤ 11.
Proof.
  unfold INT_MIN, INT_MAX, format_d, digits. intros Hn. destruct (Z.ltb_spec n 0); cbn [List.length].
  - pose proof (decimal_loop_length (S (Z.to_nat (Z.log2 (- n)))) (- n) 10 []) as H1. cbn [List.length] in H1.
    change (10 ^ Z.of_nat 10) with 10000000000 in H1. lia.
  - pose proof (decimal_loop_length (S (Z.to_nat (Z.log2 n))) n 10 []) as H1. cbn [List.length] in H1.
    change (10 ^ Z.of_nat 10) with 10000000000 in H1. lia.
Qed.

Lemma SFcompare_refl s m e : SFeqb (S754_finite s m e) (S754_finite s m e) = true.
Proof.
  unfold SFeqb, SFcompare. change (Pos.compare_cont Eq m m) with (m ?= m)%positive. rewrite Z.compare_refl, Pos.compare_refl.
  by destruct s.
Qed.

(** The text of an [int]. *)
Lemma number_text_int n : INT_MIN ≤ n ≤ INT_MAX → number_text (of_int n) n = format_d n.
Proof.
  intros Hn. unfold number_text. assert (Hf : is_special (of_int n) = false ∧ SFeqb (of_int n) (of_int n) = true).
  { unfold INT_MIN, INT_MAX in Hn. destruct n as [|p|p]; [done| |].
    - destruct (binary_round_exact false p) as (mz & E & _); [pose proof (digits2_small p 32); lia|].
      change (of_int (Zpos p)) with (binary_round 53 1024 false p 0). rewrite E. split; [done|apply SFcompare_refl].
    - destruct (binary_round_exact true p) as (mz & E & _); [pose proof (digits2_small p 32); lia|].
      change (of_int (Zneg p)) with (binary_round 53 1024 true p 0). rewrite E. split; [done|apply SFcompare_refl]. }
  destruct Hf as (-> & ->). done.
Qed.
