(* ===== verification/CJson.v ===== *)
(** Parsing and printing JSON values (src/test_targets/cjson/cJSON.c): the recursive descent
    over arrays and objects that builds linked items, the entry points
    around it, and the printer that walks them.  Proofs are in CJsonParseProofs.v and
    CJsonPrintProofs.v. *)
From S2P Require Import Prelude CJsonHeap CJsonText CJsonNum.

Definition CJSON_NESTING_LIMIT : Z := 1000.

(** [can_access_at_index(b, 0) && (buffer_at_offset(b)[0] == c)] *)
Definition at_char (b : parse_buffer) (c : Z) : option bool :=
  if can_access_at_index b 0 then d ← buffer_at b 0; Some (d =? c) else Some false.

Definition at_number (b : parse_buffer) : option bool :=
  if can_access_at_index b 0 then d ← buffer_at b 0; Some ((d =? 45) || is_digit d) else Some false.

(** [can_read(b, strlen(s)) && (strncmp(buffer_at_offset(b), s, strlen(s)) == 0)] *)
Definition at_word (b : parse_buffer) (s : list Z) : option bool :=
  if can_read b (zlen s) then starts_with s (content b) (offset b) else Some false.

Definition word_null : list Z := [110; 117; 108; 108].
Definition word_false : list Z := [102; 97; 108; 115; 101].
Definition word_true : list Z := [116; 114; 117; 101].

Section blocks.
Variable malloc_bytes : Z → list Z.

(** The list so far and its last item, with a new item at its end. *)
Definition attach (new : Z) (head current_item : option Z) (h : heap) : option (option Z * heap) :=
  match head with
  | None => Some (Some new, h)
  | Some _ =>
      c ← current_item;
      h ← upd c (set_next (Some new)) h;
      h ← upd new (set_prev (Some c)) h;
      Some (head, h)
  end.

(** [success:] of [parse_array] and [parse_object]. *)
Definition finish (ty : Z) (item : Z) (head current_item : option Z) (b : parse_buffer) (h : heap)
  : option (bool * parse_buffer * heap) :=
  let b := at_depth (depth b - 1) b in
  h ← match head with Some a => upd a (set_prev current_item) h | None => Some h end;
  h ← upd item (set_type ty) h;
  h ← upd item (set_child head) h;
  Some (true, at_offset (offset b + 1) b, h).

(** [fail:] *)
Definition abandon (head : option Z) (b : parse_buffer) (h : heap) : option (bool * parse_buffer * heap) :=
  h ← match head with Some _ => cJSON_Delete h head | None => Some h end; Some (false, b, h).

(** Parsing of a value into an item: the array and object parsers below are given the
    function for the values inside, [parse_value] with less fuel.  The loops
    return whether they ended well, with the list they built. *)
Definition value_parser := Z → parse_buffer → heap → option (bool * parse_buffer * heap).

Fixpoint array_loop (value : value_parser) (fuel : nat) (head current_item : option Z) (b : parse_buffer) (h : heap)
  : option (bool * parse_buffer * heap * option Z * option Z) :=
  match fuel with
  | O => None
  | S fuel =>
      match cJSON_New_Item h with
      | (None, h) => Some (false, b, h, head, current_item)
      | (Some new_item, h) =>
          '(head, h) ← attach new_item head current_item h;
          let current_item := Some new_item in
          b ← buffer_skip_whitespace (at_offset (offset b + 1) b);
          '(ok, b, h) ← value new_item b h;
          if negb ok then Some (false, b, h, head, current_item)
          else
            b ← buffer_skip_whitespace b;
            comma ← at_char b 44;
            if comma : bool then array_loop value fuel head current_item b h
            else Some (true, b, h, head, current_item)
      end
  end.

Definition parse_array (value : value_parser) (fuel : nat) (item : Z) (b : parse_buffer) (h : heap)
  : option (bool * parse_buffer * heap) :=
  if CJSON_NESTING_LIMIT <=? depth b then Some (false, b, h)
  else
    let b := at_depth (depth b + 1) b in
    c ← buffer_at b 0;
    if negb (c =? 91) then abandon None b h
    else
      b ← buffer_skip_whitespace (at_offset (offset b + 1) b);
      close ← at_char b 93;
      if close : bool then finish cJSON_Array item None None b h
      else if negb (can_access_at_index b 0) then abandon None (at_offset (offset b - 1) b) h
      else
        '(ok, b, h, head, current_item) ← array_loop value fuel None None (at_offset (offset b - 1) b) h;
        close ← (if ok : bool then at_char b 93 else Some false);
        if close : bool then finish cJSON_Array item head current_item b h
        else abandon head b h.

Fixpoint object_loop (value : value_parser) (fuel : nat) (head current_item : option Z) (b : parse_buffer) (h : heap)
  : option (bool * parse_buffer * heap * option Z * option Z) :=
  match fuel with
  | O => None
  | S fuel =>
      match cJSON_New_Item h with
      | (None, h) => Some (false, b, h, head, current_item)
      | (Some new_item, h) =>
          '(head, h) ← attach new_item head current_item h;
          let current_item := Some new_item in
          if negb (can_access_at_index b 1) then Some (false, b, h, head, current_item)
          else
            b ← buffer_skip_whitespace (at_offset (offset b + 1) b);
            '(ok, b, h) ← parse_string malloc_bytes new_item b h;
            if negb ok then Some (false, b, h, head, current_item)
            else
              b ← buffer_skip_whitespace b;
              i ← items h !! new_item;
              h ← upd new_item (set_string (valuestring i)) h;
              h ← upd new_item (set_valuestring None) h;
              colon ← at_char b 58;
              if negb colon then Some (false, b, h, head, current_item)
              else
                b ← buffer_skip_whitespace (at_offset (offset b + 1) b);
                '(ok, b, h) ← value new_item b h;
                if negb ok then Some (false, b, h, head, current_item)
                else
                  b ← buffer_skip_whitespace b;
                  comma ← at_char b 44;
                  if comma : bool then object_loop value fuel head current_item b h
                  else Some (true, b, h, head, current_item)
      end
  end.

Definition parse_object (value : value_parser) (fuel : nat) (item : Z) (b : parse_buffer) (h : heap)
  : option (bool * parse_buffer * heap) :=
  if CJSON_NESTING_LIMIT <=? depth b then Some (false, b, h)
  else
    let b := at_depth (depth b + 1) b in
    open ← at_char b 123;
    if negb open then abandon None b h
    else
      b ← buffer_skip_whitespace (at_offset (offset b + 1) b);
      close ← at_char b 125;
      if close : bool then finish cJSON_Object item None None b h
      else if negb (can_access_at_index b 0) then abandon None (at_offset (offset b - 1) b) h
      else
        '(ok, b, h, head, current_item) ← object_loop value fuel None None (at_offset (offset b - 1) b) h;
        close ← (if ok : bool then at_char b 125 else Some false);
        if close : bool then finish cJSON_Object item head current_item b h
        else abandon head b h.

Fixpoint parse_value (fuel : nat) (item : Z) (b : parse_buffer) (h : heap)
  : option (bool * parse_buffer * heap) :=
  match fuel with
  | O => None
  | S fuel =>
      null ← at_word b word_null;
      if null : bool then
        h ← upd item (set_type cJSON_NULL) h; Some (true, at_offset (offset b + 4) b, h)
      else
      false_ ← at_word b word_false;
      if false_ : bool then
        h ← upd item (set_type cJSON_False) h; Some (true, at_offset (offset b + 5) b, h)
      else
      true_ ← at_word b word_true;
      if true_ : bool then
        h ← upd item (set_type cJSON_True) h;
        h ← upd item (set_valueint 1) h; Some (true, at_offset (offset b + 4) b, h)
      else
      quote ← at_char b 34;
      if quote : bool then parse_string malloc_bytes item b h
      else
      number ← at_number b;
      if number : bool then parse_number malloc_bytes item b h
      else
      bracket ← at_char b 91;
      if bracket : bool then parse_array (parse_value fuel) fuel item b h
      else
      brace ← at_char b 123;
      if brace : bool then parse_object (parse_value fuel) fuel item b h
      else Some (false, b, h)
  end.

(** ** Entry points of the parser *)

(** Each level of nesting and each element takes a byte of the text. *)
Definition parse_fuel (n : nat) : nat := S n.

(** What [cJSON_ParseWithLengthOpts] leaves: the item, the position of [global_error]
    ([None] when it is left as it is, [Some None] when it is reset), and the one that [*return_parse_end] gets. *)
Record parsed := mkParsed { root : option Z; error_position : option (option Z); parse_end : option Z }.

(** [fail:], where the buffer has been set up or has zeros. *)
Definition parse_failure (item : option Z) (value : option (list Z)) (length offset : Z) (h : heap)
  : option (parsed * heap) :=
  h ← match item with Some _ => cJSON_Delete h item | None => Some h end;
  match value with
  | None => Some (mkParsed None (Some None) None, h)
  | Some _ =>
      let position := if offset <? length then offset else if 0 <? length then length - 1 else 0 in
      Some (mkParsed None (Some (Some position)) (Some position), h)
  end.

Definition cJSON_ParseWithLengthOpts (value : option (list Z)) (buffer_length : Z)
    (require_null_terminated : bool) (h : heap) : option (parsed * heap) :=
  match value with
  | None => parse_failure None value 0 0 h
  | Some text =>
      if buffer_length =? 0 then parse_failure None value 0 0 h
      else
        let b := mkBuffer text buffer_length 0 0 in
        match cJSON_New_Item h with
        | (None, h) => parse_failure None value buffer_length 0 h
        | (Some item, h) =>
            skipped ← skip_utf8_bom b;
            '(ok, b, h) ← match skipped with
                          | None => Some (false, b, h)
                          | Some b =>
                              b ← buffer_skip_whitespace b;
                              parse_value (parse_fuel (List.length text)) item b h
                          end;
            if negb ok then parse_failure (Some item) value (length b) (offset b) h
            else if require_null_terminated then
              b ← buffer_skip_whitespace b;
              ended ← (if length b <=? offset b then Some false else c ← buffer_at b 0; Some (c =? 0));
              if ended : bool then Some (mkParsed (Some item) (Some None) (Some (offset b)), h)
              else parse_failure (Some item) value (length b) (offset b) h
            else Some (mkParsed (Some item) (Some None) (Some (offset b)), h)
        end
  end.
Definition cJSON_ParseWithOpts (value : option (list Z)) (require_null_terminated : bool) (h : heap)
  : option (parsed * heap) :=
  match value with
  | None => Some (mkParsed None None None, h)
  | Some text =>
      n ← strlen text; cJSON_ParseWithLengthOpts value (n + 1) require_null_terminated h
  end.
Definition cJSON_Parse (value : option (list Z)) (h : heap) : option (parsed * heap) :=
  cJSON_ParseWithOpts value false h.
Definition cJSON_ParseWithLength (value : option (list Z)) (buffer_length : Z) (h : heap) : option (parsed * heap) :=
  cJSON_ParseWithLengthOpts value buffer_length false h.

(** ** Printing *)

(** A write of [text] at the end of the buffer, where [ensure] is asked for [needed]
    bytes; the offset moves by [advance]. *)
Definition print_bytes (p : printbuffer) (needed : Z) (text : list Z) (advance : Z) (m : mem)
  : option (bool * printbuffer * mem) :=
  '(output, p, m) ← ensure malloc_bytes p needed m;
  match output with
  | None => Some (false, p, m)
  | Some output =>
      l ← buffer p; l ← put l output text;
      Some (true, with_poffset (poffset p + advance) (with_bytes l p), m)
  end.

(** The string of a pointer. *)
Definition string_at (h : heap) (a : option Z) : option (option (list Z)) :=
  match a with None => Some None | Some a => l ← strings h !! a; Some (Some l) end.

Definition tabs (n : Z) : list Z := replicate (Z.to_nat n) 9.

Definition value_printer := Z → printbuffer → mem → option (bool * printbuffer * mem).

Fixpoint print_elements (value : value_printer) (fuel : nat) (h : heap) (current_element : option Z)
    (p : printbuffer) (m : mem) : option (bool * printbuffer * mem) :=
  match current_element with
  | None => Some (true, p, m)
  | Some a =>
      match fuel with
      | O => None
      | S fuel =>
          '(ok, p, m) ← value a p m;
          if negb ok then Some (false, p, m)
          else
            p ← update_offset p;
            i ← items h !! a;
            '(ok, p, m) ←
              match next i with
              | Some _ =>
                  let length := if format p then 2 else 1 in
                  print_bytes p (length + 1) (44 :: (if format p then [32] else []) ++ [0]) length m
              | None => Some (true, p, m)
              end;
            if negb ok then Some (false, p, m) else print_elements value fuel h (next i) p m
      end
  end.

Definition print_array (value : value_printer) (fuel : nat) (h : heap) (i : cJSON) (p : printbuffer) (m : mem)
  : option (bool * printbuffer * mem) :=
  if CJSON_NESTING_LIMIT <=? pdepth p then Some (false, p, m)
  else
    '(ok, p, m) ← print_bytes p 1 [91] 1 m;
    if negb ok then Some (false, p, m)
    else
      '(ok, p, m) ← print_elements value fuel h (child i) (with_pdepth (pdepth p + 1) p) m;
      if negb ok then Some (false, p, m)
      else
        '(ok, p, m) ← print_bytes p 2 [93; 0] 0 m;
        Some (ok, if ok : bool then with_pdepth (pdepth p - 1) p else p, m).

Fixpoint print_members (value : value_printer) (fuel : nat) (h : heap) (current_item : option Z)
    (p : printbuffer) (m : mem) : option (bool * printbuffer * mem) :=
  match current_item with
  | None => Some (true, p, m)
  | Some a =>
      match fuel with
      | O => None
      | S fuel =>
          i ← items h !! a;
          '(ok, p, m) ← (if format p then print_bytes p (pdepth p) (tabs (pdepth p)) (pdepth p) m
                         else Some (true, p, m));
          if negb ok then Some (false, p, m)
          else
            key ← string_at h (string i);
            '(ok, p, m) ← print_string_ptr malloc_bytes key p m;
            if negb ok then Some (false, p, m)
            else
              p ← update_offset p;
              let length := if format p then 2 else 1 in
              '(ok, p, m) ← print_bytes p length (58 :: (if format p then [9] else [])) length m;
              if negb ok then Some (false, p, m)
              else
                '(ok, p, m) ← value a p m;
                if negb ok then Some (false, p, m)
                else
                  p ← update_offset p;
                  let more := bool_decide (next i ≠ None) in
                  let length := (if format p then 1 else 0) + b2z more in
                  '(ok, p, m) ← print_bytes p (length + 1)
                     ((if more then [44] else []) ++ (if format p then [10] else []) ++ [0]) length m;
                  if negb ok then Some (false, p, m) else print_members value fuel h (next i) p m
      end
  end.

Definition print_object (value : value_printer) (fuel : nat) (h : heap) (i : cJSON) (p : printbuffer) (m : mem)
  : option (bool * printbuffer * mem) :=
  if CJSON_NESTING_LIMIT <=? pdepth p then Some (false, p, m)
  else
    let length := if format p then 2 else 1 in
    '(ok, p, m) ← print_bytes p (length + 1) (123 :: (if format p then [10] else [])) length m;
    if negb ok then Some (false, p, m)
    else
      '(ok, p, m) ← print_members value fuel h (child i) (with_pdepth (pdepth p + 1) p) m;
      if negb ok then Some (false, p, m)
      else
        '(ok, p, m) ← print_bytes p (if format p then pdepth p + 1 else 2)
                        ((if format p then tabs (pdepth p - 1) else []) ++ [125; 0]) 0 m;
        Some (ok, if ok : bool then with_pdepth (pdepth p - 1) p else p, m).

Fixpoint print_value (fuel : nat) (h : heap) (item : Z) (p : printbuffer) (m : mem)
  : option (bool * printbuffer * mem) :=
  match fuel with
  | O => None
  | S fuel =>
      i ← items h !! item;
      let t := Z.land (type i) 0xFF in
      if t =? cJSON_NULL then print_text malloc_bytes p word_null m
      else if t =? cJSON_False then print_text malloc_bytes p word_false m
      else if t =? cJSON_True then print_text malloc_bytes p word_true m
      else if t =? cJSON_Number then print_number malloc_bytes (valuedouble i) (valueint i) p m
      else if t =? cJSON_Raw then
        match valuestring i with
        | None => Some (false, p, m)
        | Some s => l ← strings h !! s; raw ← c_string l; print_text malloc_bytes p raw m
        end
      else if t =? cJSON_String then
        s ← string_at h (valuestring i); print_string_ptr malloc_bytes s p m
      else if t =? cJSON_Array then print_array (print_value fuel h) fuel h i p m
      else if t =? cJSON_Object then print_object (print_value fuel h) fuel h i p m
      else Some (false, p, m)
  end.

(** The items bound both the recursion and the loops. *)
Definition print_fuel (h : heap) : nat := S (size (items h)).

(** The text printed, or NULL. *)
Definition print (h : heap) (item : option Z) (format : bool) (has_realloc : bool) (m : mem)
  : option (option (list Z) * mem) :=
  let '(ok, m) := sqlite3Malloc m in
  if negb ok then Some (None, m)
  else
    let p := mkPrint (Some (malloc_bytes 256)) 256 0 0 false format has_realloc in
    '(ok, p, m) ← match item with
                  | None => Some (false, p, m)
                  | Some a => print_value (print_fuel h) h a p m
                  end;
    let fail (p : printbuffer) m := Some (None, match buffer p with Some _ => sqlite3_free m | None => m end) in
    if negb ok then fail p m
    else
      p ← update_offset p;
      l ← buffer p;
      let '(ok, m) := sqlite3Malloc m in
      if negb ok then fail p m
      else
        let kept := if reallocate p then poffset p + 1 else Z.min (plength p) (poffset p + 1) in
        printed ← overlay (take (Z.to_nat kept) l) (malloc_bytes (poffset p + 1));
        printed ← (if reallocate p then Some printed else wr printed (poffset p) 0);
        Some (Some printed, sqlite3_free m).
Definition cJSON_Print h item := print h item true.
Definition cJSON_PrintUnformatted h item := print h item false.

Definition cJSON_PrintBuffered (h : heap) (item : option Z) (prebuffer : Z) (fmt has_realloc : bool) (m : mem)
  : option (option (list Z) * mem) :=
  if prebuffer <? 0 then Some (None, m)
  else
    let '(ok, m) := sqlite3Malloc m in
    if negb ok then Some (None, m)
    else
      let p := mkPrint (Some (malloc_bytes prebuffer)) prebuffer 0 0 false fmt has_realloc in
      '(ok, p, m) ← match item with
                    | None => Some (false, p, m)
                    | Some a => print_value (print_fuel h) h a p m
                    end;
      if negb ok then Some (None, match buffer p with Some _ => sqlite3_free m | None => m end)
      else Some (buffer p, m).

(** The buffer is the caller's. *)
Definition cJSON_PrintPreallocated (h : heap) (item : option Z) (buf : option (list Z)) (len : Z)
    (fmt has_realloc : bool) (m : mem) : option (bool * option (list Z) * mem) :=
  match buf with
  | None => Some (false, None, m)
  | Some _ =>
      if len <? 0 then Some (false, buf, m)
      else
        let p := mkPrint buf len 0 0 true fmt has_realloc in
        match item with
        | None => Some (false, buf, m)
        | Some a =>
            '(ok, p, m) ← print_value (print_fuel h) h a p m; Some (ok, buffer p, m)
        end
  end.
End blocks.

(** ** Tests *)

(** Parsing a text and printing the result, as the fuzzing harness does. *)
Definition parse_print (blocks : Z → list Z) (text : list Z) (format : bool) : option (option (list Z) * mem) :=
  '(r, h) ← cJSON_Parse blocks (Some (text ++ [0])) empty_heap;
  match root r with
  | None => Some (None, Mem [] 0)
  | Some _ => print blocks h (root r) format true (Mem [] 0)
  end.

(** [ {"a":[1,"x",[],null , -5],"b":{}}], with roomy and with exact blocks. *)
Definition sample : list Z :=
  [32; 123; 34; 97; 34; 58; 91; 49; 44; 34; 120; 34; 44; 91; 93; 44; 110; 117; 108; 108; 32; 44; 32; 45; 53; 93; 44;
   34; 98; 34; 58; 123; 125; 125].
Example parse_print_sample :
  (parse_print roomy_blocks sample false, parse_print exact_blocks sample false) =
  (Some (Some [123; 34; 97; 34; 58; 91; 49; 44; 34; 120; 34; 44; 91; 93; 44; 110; 117; 108; 108; 44; 45; 53; 93; 44;
               34; 98; 34; 58; 123; 125; 125; 0; 170], Mem [] 1), None).
Proof. vm_compute. reflexivity. Qed.

(** [["\u0001"]]: the control character comes back with a digit less. *)
Example print_control_sample :
  parse_print roomy_blocks [91; 34; 92; 117; 48; 48; 48; 49; 34; 93] false =
  Some (Some [91; 34; 92; 117; 48; 48; 48; 34; 93; 0; 170], Mem [] 1).
Proof. vm_compute. reflexivity. Qed.

(** Arrays of 1000 and of 1001 levels. *)
Example nesting_sample :
  let nested n := repeat 91 n ++ repeat 93 n in
  let ok n := r ← parse_print roomy_blocks (nested n) false; Some (bool_decide (r.1 = None)) in
  (ok 1000%nat, ok 1001%nat) = (Some false, Some true).
Proof. vm_compute. reflexivity. Qed.
