(* ===== verification/CJsonOps.v ===== *)
(** The rest of cJSON's operations on items (src/test_targets/cjson/cJSON.c): members by name,
    creation of items of every type, duplication and comparison.  Proofs are in
    CJsonCopyProofs.v and CJsonCompareProofs.v. *)
From S2P Require Import Prelude CJsonHeap CJsonText CJsonNum.

(** ** Types of items *)

Definition type_is (t : Z) (h : heap) (item : option Z) : option bool :=
  match item with
  | None => Some false
  | Some a => i ← items h !! a; Some (Z.land (type i) 0xFF =? t)
  end.
Definition cJSON_IsInvalid := type_is cJSON_Invalid.
Definition cJSON_IsFalse := type_is cJSON_False.
Definition cJSON_IsTrue := type_is cJSON_True.
Definition cJSON_IsNull := type_is cJSON_NULL.
Definition cJSON_IsNumber := type_is cJSON_Number.
Definition cJSON_IsString := type_is cJSON_String.
Definition cJSON_IsArray := type_is cJSON_Array.
Definition cJSON_IsObject := type_is cJSON_Object.
Definition cJSON_IsRaw := type_is cJSON_Raw.
Definition cJSON_IsBool (h : heap) (item : option Z) : option bool :=
  match item with
  | None => Some false
  | Some a => i ← items h !! a; Some (has (Z.lor cJSON_True cJSON_False) i)
  end.

Definition cJSON_GetStringValue (h : heap) (item : option Z) : option (option Z) :=
  s ← cJSON_IsString h item;
  if s : bool then a ← item; i ← items h !! a; Some (valuestring i) else Some None.
Definition cJSON_GetNumberValue (h : heap) (item : option Z) : option spec_float :=
  n ← cJSON_IsNumber h item;
  if n : bool then a ← item; i ← items h !! a; Some (valuedouble i) else Some S754_nan.

(** ** Strings *)

Definition tolower (c : Z) : Z := if (65 <=? c) && (c <=? 90) then c + 32 else c.

Fixpoint icmp_loop (string1 string2 : list Z) : option Z :=
  match string1, string2 with
  | c1 :: string1, c2 :: string2 =>
      if tolower c1 =? tolower c2 then if c1 =? 0 then Some 0 else icmp_loop string1 string2
      else Some (tolower c1 - tolower c2)
  | _, _ => None
  end.
Definition case_insensitive_strcmp (h : heap) (string1 string2 : option Z) : option Z :=
  match string1, string2 with
  | Some a1, Some a2 =>
      if a1 =? a2 then Some 0
      else l1 ← strings h !! a1; l2 ← strings h !! a2; icmp_loop l1 l2
  | _, _ => Some 1
  end.

(** [strcmp]: the difference of the first bytes that differ. *)
Fixpoint cmp_loop (string1 string2 : list Z) : option Z :=
  match string1, string2 with
  | c1 :: string1, c2 :: string2 =>
      if c1 =? c2 then if c1 =? 0 then Some 0 else cmp_loop string1 string2 else Some (c1 - c2)
  | _, _ => None
  end.
Definition strcmp (h : heap) (a1 a2 : Z) : option Z :=
  l1 ← strings h !! a1; l2 ← strings h !! a2; cmp_loop l1 l2.

(** ** Members by name *)

(** The two loops of [get_object_item]: where they stop. *)
Fixpoint find_loop (fuel : nat) (h : heap) (name : Z) (case_sensitive : bool) (current_element : option Z)
  : option (option Z) :=
  match current_element with
  | None => Some None
  | Some a =>
      match fuel with
      | O => None
      | S fuel' =>
          i ← items h !! a;
          go_on ← (if case_sensitive then
                     match string i with Some s => d ← strcmp h name s; Some (negb (d =? 0)) | None => Some false end
                   else d ← case_insensitive_strcmp h (Some name) (string i); Some (negb (d =? 0)));
          if go_on : bool then find_loop fuel' h name case_sensitive (next i) else Some (Some a)
      end
  end.
Definition get_object_item (h : heap) (object name : option Z) (case_sensitive : bool) : option (option Z) :=
  match object, name with
  | Some object, Some name =>
      o ← items h !! object;
      current_element ← find_loop (S (size (items h))) h name case_sensitive (child o);
      match current_element with
      | None => Some None
      | Some a => i ← items h !! a; Some (if bool_decide (string i = None) then None else Some a)
      end
  | _, _ => Some None
  end.
Definition cJSON_GetObjectItem h object string := get_object_item h object string false.
Definition cJSON_GetObjectItemCaseSensitive h object string := get_object_item h object string true.
Definition cJSON_HasObjectItem h object string : option bool :=
  i ← cJSON_GetObjectItem h object string; Some (bool_decide (i ≠ None)).

Definition cJSON_DetachItemFromObject (h : heap) (object string : option Z) : option (option Z * heap) :=
  to_detach ← cJSON_GetObjectItem h object string; cJSON_DetachItemViaPointer h object to_detach.
Definition cJSON_DetachItemFromObjectCaseSensitive (h : heap) (object string : option Z) : option (option Z * heap) :=
  to_detach ← cJSON_GetObjectItemCaseSensitive h object string; cJSON_DetachItemViaPointer h object to_detach.
Definition cJSON_DeleteItemFromObject (h : heap) (object string : option Z) : option heap :=
  '(item, h) ← cJSON_DetachItemFromObject h object string; cJSON_Delete h item.
Definition cJSON_DeleteItemFromObjectCaseSensitive (h : heap) (object string : option Z) : option heap :=
  '(item, h) ← cJSON_DetachItemFromObjectCaseSensitive h object string; cJSON_Delete h item.

Section blocks.
Variable malloc_bytes : Z → list Z.

Definition cJSON_strdup (h : heap) (string : option Z) : option (option Z * heap) :=
  match string with
  | None => Some (None, h)
  | Some s =>
      l ← strings h !! s;
      n ← strlen l;
      let length := n + 1 in
      match new_string malloc_bytes length h with
      | (None, h) => Some (None, h)
      | (Some copy, h) =>
          block ← strings h !! copy;
          block ← overlay (take (Z.to_nat length) l) block;
          Some (Some copy, with_strings (<[copy := block]> (strings h)) h)
      end
  end.

(** The block that the item has, or the new one, or NULL. *)
Definition cJSON_SetValuestring (h : heap) (object valuestring' : option Z) : option (option Z * heap) :=
  match object with
  | None => Some (None, h)
  | Some a =>
      i ← items h !! a;
      if negb (has cJSON_String i) || has cJSON_IsReference i then Some (None, h)
      else
        match valuestring i, valuestring' with
        | Some old, Some new =>
            l1 ← strings h !! new; v1_len ← strlen l1;
            l2 ← strings h !! old; v2_len ← strlen l2;
            if v1_len <=? v2_len then
              if new =? old then Some (None, h)
              else
                block ← overlay (take (Z.to_nat (v1_len + 1)) l1) l2;
                Some (Some old, with_strings (<[old := block]> (strings h)) h)
            else
              '(copy, h) ← cJSON_strdup h (Some new);
              match copy with
              | None => Some (None, h)
              | Some copy =>
                  h ← free_string old h;
                  h ← upd a (set_valuestring (Some copy)) h;
                  Some (Some copy, h)
              end
        | _, _ => Some (None, h)
        end
  end.

(** ** Adding members *)

Definition clear_bit (bit t : Z) : Z := Z.land t (Z.lnot bit).

Definition create_reference (h : heap) (item : option Z) : option (option Z * heap) :=
  match item with
  | None => Some (None, h)
  | Some a =>
      match cJSON_New_Item h with
      | (None, h) => Some (None, h)
      | (Some reference, h) =>
          i ← items h !! a;
          h ← upd reference (λ _, i) h;
          h ← upd reference (set_string None) h;
          h ← upd reference (λ r, set_type (Z.lor (type r) cJSON_IsReference) r) h;
          h ← upd reference (λ r, set_next None (set_prev None r)) h;
          Some (Some reference, h)
      end
  end.

Definition add_item_to_object (h : heap) (object string' item : option Z) (constant_key : bool)
  : option (bool * heap) :=
  match object, string', item with
  | Some object, Some key, Some item =>
      if object =? item then Some (false, h)
      else
        i ← items h !! item;
        '(new_key, new_type, h) ←
          (if constant_key then Some (Some key, Z.lor (type i) cJSON_StringIsConst, h)
           else '(copy, h) ← cJSON_strdup h (Some key); Some (copy, clear_bit cJSON_StringIsConst (type i), h));
        match new_key with
        | None => Some (false, h)
        | Some new_key =>
            i ← items h !! item;
            h ← (if negb (has cJSON_StringIsConst i)
                 then match string i with Some s => free_string s h | None => Some h end
                 else Some h);
            h ← upd item (set_string (Some new_key)) h;
            h ← upd item (set_type new_type) h;
            add_item_to_array h (Some object) (Some item)
        end
  | _, _, _ => Some (false, h)
  end.
Definition cJSON_AddItemToObject (h : heap) (object string item : option Z) := add_item_to_object h object string item false.
Definition cJSON_AddItemToObjectCS (h : heap) (object string item : option Z) := add_item_to_object h object string item true.

Definition cJSON_AddItemReferenceToArray (h : heap) (array item : option Z) : option (bool * heap) :=
  match array with
  | None => Some (false, h)
  | Some _ => '(reference, h) ← create_reference h item; add_item_to_array h array reference
  end.
Definition cJSON_AddItemReferenceToObject (h : heap) (object string item : option Z) : option (bool * heap) :=
  if bool_decide (object = None) || bool_decide (string = None) then Some (false, h)
  else '(reference, h) ← create_reference h item; add_item_to_object h object string reference false.

Definition replace_item_in_object (h : heap) (object string' replacement : option Z) (case_sensitive : bool)
  : option (bool * heap) :=
  match replacement, string' with
  | Some r, Some key =>
      i ← items h !! r;
      h ← (if negb (has cJSON_StringIsConst i)
           then match string i with Some s => free_string s h | None => Some h end
           else Some h);
      '(copy, h) ← cJSON_strdup h (Some key);
      h ← upd r (set_string copy) h;
      match copy with
      | None => Some (false, h)
      | Some _ =>
          h ← upd r (λ i, set_type (clear_bit cJSON_StringIsConst (type i)) i) h;
          item ← get_object_item h object string' case_sensitive;
          cJSON_ReplaceItemViaPointer h object item replacement
      end
  | _, _ => Some (false, h)
  end.
Definition cJSON_ReplaceItemInObject (h : heap) (object string newitem : option Z) :=
  replace_item_in_object h object string newitem false.
Definition cJSON_ReplaceItemInObjectCaseSensitive (h : heap) (object string newitem : option Z) :=
  replace_item_in_object h object string newitem true.

(** ** Creating items *)

(** A new item after [f]. *)
Definition create_with (f : cJSON → cJSON) (h : heap) : option (option Z * heap) :=
  match cJSON_New_Item h with
  | (Some item, h) => h ← upd item f h; Some (Some item, h)
  | (None, h) => Some (None, h)
  end.
Definition cJSON_CreateNull := create_with (set_type cJSON_NULL).
Definition cJSON_CreateTrue := create_with (set_type cJSON_True).
Definition cJSON_CreateFalse := create_with (set_type cJSON_False).
Definition cJSON_CreateBool (boolean : bool) := create_with (set_type (if boolean then cJSON_True else cJSON_False)).
Definition cJSON_CreateArray := create_with (set_type cJSON_Array).
Definition cJSON_CreateObject := create_with (set_type cJSON_Object).
Definition cJSON_CreateNumber (num : spec_float) (h : heap) : option (option Z * heap) :=
  match cJSON_New_Item h with
  | (Some item, h) =>
      h ← upd item (λ i, set_number num (valueint i) (set_type cJSON_Number i)) h;
      valueint ← saturate num;
      h ← upd item (set_valueint valueint) h;
      Some (Some item, h)
  | (None, h) => Some (None, h)
  end.

(** [cJSON_CreateString] and [cJSON_CreateRaw]. *)
Definition create_text (ty : Z) (string : option Z) (h : heap) : option (option Z * heap) :=
  match cJSON_New_Item h with
  | (None, h) => Some (None, h)
  | (Some item, h) =>
      h ← upd item (set_type ty) h;
      '(copy, h) ← cJSON_strdup h string;
      h ← upd item (set_valuestring copy) h;
      match copy with
      | None => h ← cJSON_Delete h (Some item); Some (None, h)
      | Some _ => Some (Some item, h)
      end
  end.
Definition cJSON_CreateString := create_text cJSON_String.
Definition cJSON_CreateRaw := create_text cJSON_Raw.

Definition cJSON_CreateStringReference (string : option Z) :=
  create_with (λ i, set_valuestring string (set_type (Z.lor cJSON_String cJSON_IsReference) i)).
Definition cJSON_CreateObjectReference (child : option Z) :=
  create_with (λ i, set_child child (set_type (Z.lor cJSON_Object cJSON_IsReference) i)).
Definition cJSON_CreateArrayReference (child : option Z) :=
  create_with (λ i, set_child child (set_type (Z.lor cJSON_Array cJSON_IsReference) i)).

(** The functions [cJSON_Add...ToObject]: the new item, or NULL. *)
Definition add_created (h : heap) (object name : option Z) (create : heap → option (option Z * heap))
  : option (option Z * heap) :=
  '(item, h) ← create h;
  '(ok, h) ← add_item_to_object h object name item false;
  if ok : bool then Some (item, h) else h ← cJSON_Delete h item; Some (None, h).
Definition cJSON_AddNullToObject h object name := add_created h object name cJSON_CreateNull.
Definition cJSON_AddTrueToObject h object name := add_created h object name cJSON_CreateTrue.
Definition cJSON_AddFalseToObject h object name := add_created h object name cJSON_CreateFalse.
Definition cJSON_AddBoolToObject h object name b := add_created h object name (cJSON_CreateBool b).
Definition cJSON_AddNumberToObject h object name n := add_created h object name (cJSON_CreateNumber n).
Definition cJSON_AddStringToObject h object name s := add_created h object name (cJSON_CreateString s).
Definition cJSON_AddRawToObject h object name raw := add_created h object name (cJSON_CreateRaw raw).
Definition cJSON_AddObjectToObject h object name := add_created h object name cJSON_CreateObject.
Definition cJSON_AddArrayToObject h object name := add_created h object name cJSON_CreateArray.

(** The loop of [cJSON_Create...Array]: the last item, or [None] when an item could not
    be created and the array is gone. *)
Fixpoint create_loop {A} (create : A → heap → option (option Z * heap)) (count : nat) (l : list A) (a : Z) (p : option Z)
    (h : heap) : option (option (option Z) * heap) :=
  match count with
  | O => Some (Some p, h)
  | S count =>
      x ← head l;
      '(n, h) ← create x h;
      match n with
      | None => h ← cJSON_Delete h (Some a); Some (None, h)
      | Some n =>
          h ← match p with
              | None => upd a (set_child (Some n)) h
              | Some p => suffix_object p n h
              end;
          create_loop create count (tail l) a (Some n) h
      end
  end.
(** [count] elements, from an array that may have more and must not have fewer. *)
Definition create_array {A} (create : A → heap → option (option Z * heap)) (elements : option (list A)) (count : Z) (h : heap)
  : option (option Z * heap) :=
  match elements with
  | None => Some (None, h)
  | Some l =>
      if count <? 0 then Some (None, h)
      else
        '(a, h) ← cJSON_CreateArray h;
        match a with
        | None => Some (None, h)
        | Some a =>
            '(n, h) ← create_loop create (Z.to_nat count) l a None h;
            match n with
            | None => Some (None, h)
            | Some n =>
                ai ← items h !! a;
                h ← match child ai with Some c => upd c (set_prev n) h | None => Some h end;
                Some (Some a, h)
            end
        end
  end.
Definition cJSON_CreateIntArray (numbers : option (list Z)) := create_array (λ n, cJSON_CreateNumber (of_int n)) numbers.
(** A [float] is the [double] that it is converted to. *)
Definition cJSON_CreateFloatArray (numbers : option (list spec_float)) := create_array cJSON_CreateNumber numbers.
Definition cJSON_CreateDoubleArray (numbers : option (list spec_float)) := create_array cJSON_CreateNumber numbers.
Definition cJSON_CreateStringArray (strings : option (list (option Z))) := create_array cJSON_CreateString strings.

(** ** Duplication *)

Definition CJSON_CIRCULAR_LIMIT : Z := 10000.

(** The copy of an item without its children: the item, and whether it is complete. *)
Definition duplicate_item (h : heap) (item : Z) : option (option Z * bool * heap) :=
  match cJSON_New_Item h with
  | (None, h) => Some (None, false, h)
  | (Some newitem, h) =>
      i ← items h !! item;
      h ← upd newitem (set_type (clear_bit cJSON_IsReference (type i))) h;
      h ← upd newitem (set_number (valuedouble i) (valueint i)) h;
      '(copy, h) ← cJSON_strdup h (valuestring i);
      h ← upd newitem (set_valuestring copy) h;
      if bool_decide (valuestring i ≠ None) && bool_decide (copy = None) then Some (Some newitem, false, h)
      else
        '(key, h) ← (if has cJSON_StringIsConst i then Some (string i, h) else cJSON_strdup h (string i));
        h ← upd newitem (set_string key) h;
        Some (Some newitem, negb (bool_decide (string i ≠ None) && bool_decide (key = None)), h)
  end.

(** [fail:] *)
Definition duplicate_fail (newitem : option Z) (h : heap) : option (option Z * heap) :=
  h ← match newitem with Some _ => cJSON_Delete h newitem | None => Some h end; Some (None, h).

(** The walk over the children; [duplicate] is [cJSON_Duplicate_rec] one level deeper. It returns
    whether all were copied, and the last copy. *)
Fixpoint duplicate_loop (duplicate : option Z → heap → option (option Z * heap)) (fuel : nat) (depth newitem : Z)
    (child' next' : option Z) (h : heap) : option (bool * option Z * heap) :=
  match child' with
  | None => Some (true, next', h)
  | Some c =>
      match fuel with
      | O => None
      | S fuel' =>
          if CJSON_CIRCULAR_LIMIT <=? depth then Some (false, next', h)
          else
            '(newchild, h) ← duplicate (Some c) h;
            match newchild with
            | None => Some (false, next', h)
            | Some n =>
                h ← match next' with
                    | Some p => h ← upd p (set_next (Some n)) h; upd n (set_prev (Some p)) h
                    | None => upd newitem (set_child (Some n)) h
                    end;
                ci ← items h !! c;
                duplicate_loop duplicate fuel' depth newitem (next ci) (Some n) h
            end
      end
  end.

(** The depth is bounded by the limit, which also ends the walk down a cycle of children. *)
Fixpoint cJSON_Duplicate_rec (fuel : nat) (item : option Z) (depth : Z) (recurse : bool) (h : heap)
  : option (option Z * heap) :=
  match item with
  | None => duplicate_fail None h
  | Some a =>
      match fuel with
      | O => None
      | S fuel' =>
          '(newitem, complete, h) ← duplicate_item h a;
          match newitem with
          | None => duplicate_fail None h
          | Some new =>
              if negb complete then duplicate_fail newitem h
              else if negb recurse then Some (newitem, h)
              else
                i ← items h !! a;
                '(all, newchild, h) ←
                  duplicate_loop (λ c h, cJSON_Duplicate_rec fuel' c (depth + 1) true h) (S (size (items h))) depth new
                    (child i) None h;
                if negb all then duplicate_fail newitem h
                else
                  ni ← items h !! new;
                  h ← match child ni with Some c => upd c (set_prev newchild) h | None => Some h end;
                  Some (newitem, h)
          end
      end
  end.
Definition cJSON_Duplicate (h : heap) (item : option Z) (recurse : bool) : option (option Z * heap) :=
  cJSON_Duplicate_rec (S (Z.to_nat CJSON_CIRCULAR_LIMIT)) item 0 recurse h.
End blocks.

(** ** Comparison *)

Definition compared_type (t : Z) : bool :=
  (t =? cJSON_False) || (t =? cJSON_True) || (t =? cJSON_NULL) || (t =? cJSON_Number) || (t =? cJSON_String) ||
  (t =? cJSON_Raw) || (t =? cJSON_Array) || (t =? cJSON_Object).

(** The elements of two arrays side by side; [compare] is [cJSON_Compare]. *)
Fixpoint compare_elements (compare : option Z → option Z → option bool) (fuel : nat) (h : heap) (a_element b_element : option Z)
  : option bool :=
  match a_element, b_element with
  | Some a, Some b =>
      match fuel with
      | O => None
      | S fuel' =>
          equal ← compare a_element b_element;
          if negb equal then Some false
          else ai ← items h !! a; bi ← items h !! b; compare_elements compare fuel' h (next ai) (next bi)
      end
  | _, _ => Some (bool_decide (a_element = b_element))
  end.

(** Every member from one on has an equal one in [other]. *)
Fixpoint compare_members (compare : option Z → option Z → option bool) (fuel : nat) (h : heap) (element : option Z) (other : Z)
    (case_sensitive : bool) : option bool :=
  match element with
  | None => Some true
  | Some a =>
      match fuel with
      | O => None
      | S fuel' =>
          i ← items h !! a;
          found ← get_object_item h (Some other) (string i) case_sensitive;
          match found with
          | None => Some false
          | Some _ =>
              equal ← compare element found;
              if negb equal then Some false else compare_members compare fuel' h (next i) other case_sensitive
          end
      end
  end.

Fixpoint compare_rec (fuel : nat) (h : heap) (case_sensitive : bool) (a b : option Z) : option bool :=
  match a, b with
  | Some a', Some b' =>
      match fuel with
      | O => None
      | S fuel' =>
          let compare := compare_rec fuel' h case_sensitive in
          ai ← items h !! a';
          bi ← items h !! b';
          let t := Z.land (type ai) 0xFF in
          if negb (t =? Z.land (type bi) 0xFF) then Some false
          else if negb (compared_type t) then Some false
          else if a' =? b' then Some true
          else if (t =? cJSON_False) || (t =? cJSON_True) || (t =? cJSON_NULL) then Some true
          else if t =? cJSON_Number then Some (compare_double (valuedouble ai) (valuedouble bi))
          else if (t =? cJSON_String) || (t =? cJSON_Raw) then
            match valuestring ai, valuestring bi with
            | Some s1, Some s2 => d ← strcmp h s1 s2; Some (d =? 0)
            | _, _ => Some false
            end
          else if t =? cJSON_Array then compare_elements compare fuel' h (child ai) (child bi)
          else
            one ← compare_members compare fuel' h (child ai) b' case_sensitive;
            if negb one then Some false else compare_members compare fuel' h (child bi) a' case_sensitive
      end
  | _, _ => Some false
  end.
Definition cJSON_Compare (h : heap) (a b : option Z) (case_sensitive : bool) : option bool :=
  compare_rec (S (size (items h))) h case_sensitive a b.
