(* ===== verification/CJsonMinify.v ===== *)
(** [cJSON_Minify] of src/test_targets/cjson/cJSON.c: blanks and comments are removed from
    a text in place.  Proofs are in CJsonMinifyProofs.v. *)
From S2P Require Import Prelude.

(** A position in the block [buf] stands for each of the pointers [json], from which the text is
    read, and [into], where it is written. *)

Fixpoint oneline_loop (fuel : nat) (buf : list Z) (input : Z) : option Z :=
  match fuel with
  | O => None
  | S fuel =>
      c ← buf.[input];
      if c =? 0 then Some input else if c =? 10 then Some (input + 1) else oneline_loop fuel buf (input + 1)
  end.
Definition skip_oneline_comment (buf : list Z) (input : Z) : option Z :=
  oneline_loop (S (length buf)) buf (input + 2).

Fixpoint multiline_loop (fuel : nat) (buf : list Z) (input : Z) : option Z :=
  match fuel with
  | O => None
  | S fuel =>
      c ← buf.[input];
      if c =? 0 then Some input
      else
        close ← (if c =? 42 then d ← buf.[input + 1]; Some (d =? 47) else Some false);
        if close : bool then Some (input + 2) else multiline_loop fuel buf (input + 1)
  end.
Definition skip_multiline_comment (buf : list Z) (input : Z) : option Z :=
  multiline_loop (S (length buf)) buf (input + 2).

(** The block, and where [input] and [output] end up. *)
Fixpoint string_loop (fuel : nat) (buf : list Z) (input output : Z) : option (list Z * Z * Z) :=
  match fuel with
  | O => None
  | S fuel =>
      c ← buf.[input];
      if c =? 0 then Some (buf, input, output)
      else
        buf ← wr buf output c;
        c ← buf.[input];
        if c =? 34 then buf ← wr buf output 34; Some (buf, input + 1, output + 1)
        else
          quote ← (if c =? 92 then d ← buf.[input + 1]; Some (d =? 34) else Some false);
          if quote : bool then
            d ← buf.[input + 1];
            buf ← wr buf (output + 1) d;
            string_loop fuel buf (input + 1 + 1) (output + 1 + 1)
          else string_loop fuel buf (input + 1) (output + 1)
  end.
Definition minify_string (buf : list Z) (input output : Z) : option (list Z * Z * Z) :=
  c ← buf.[input];
  buf ← wr buf output c;
  string_loop (S (length buf)) buf (input + 1) (output + 1).

Fixpoint minify_loop (fuel : nat) (buf : list Z) (json into : Z) : option (list Z * Z) :=
  match fuel with
  | O => None
  | S fuel =>
      c ← buf.[json];
      if c =? 0 then Some (buf, into)
      else if (c =? 32) || (c =? 9) || (c =? 13) || (c =? 10) then minify_loop fuel buf (json + 1) into
      else if c =? 47 then
        d ← buf.[json + 1];
        if d =? 47 then json ← skip_oneline_comment buf json; minify_loop fuel buf json into
        else if d =? 42 then json ← skip_multiline_comment buf json; minify_loop fuel buf json into
        else minify_loop fuel buf (json + 1) into
      else if c =? 34 then
        '(buf, json, into) ← minify_string buf json into; minify_loop fuel buf json into
      else buf ← wr buf into c; minify_loop fuel buf (json + 1) (into + 1)
  end.
Definition cJSON_Minify (json : option (list Z)) : option (option (list Z)) :=
  match json with
  | None => Some None
  | Some buf =>
      '(buf, into) ← minify_loop (S (length buf)) buf 0 0;
      buf ← wr buf into 0;
      Some (Some buf)
  end.
