(* ===== verification/CJsonRef.v ===== *)
(** What the parser of cJSON (CJson.v) reads, as a parser on lists of bytes, and how the
    parse buffer moves through such a list. CJsonParseProofs.v relates the two. *)
From S2P Require Import Prelude CJsonHeap CJsonText CJsonTextProofs CJsonNum CJsonNumProofs CJson.

(** ** A parser on lists of bytes *)

Inductive json :=
  | JNull | JFalse | JTrue
  | JNumber (d : spec_float)
  | JString (s : list Z)
  | JArray (l : list json)
  | JObject (l : list (list Z * json)).

Fixpoint drop_blank (z : list Z) : list Z :=
  match z with
  | c :: z' => if c <=? 32 then drop_blank z' else z
  | [] => []
  end.

(** White space and control characters are skipped, but the last byte of the text is not. *)
Definition skip (z : list Z) : list Z :=
  match drop_blank z with
  | [] => drop (List.length z - 1) z
  | z' => z'
  end.

(** What follows a character, and a word. *)
Definition eat (c : Z) (z : list Z) : option (list Z) :=
  match z with d :: z => if d =? c then Some z else None | [] => None end.
Fixpoint strip (w z : list Z) : option (list Z) :=
  match w with [] => Some z | c :: w => z ← eat c z; strip w z end.

(** A string ends at its first zero byte. *)
Fixpoint cstr (s : list Z) : list Z :=
  match s with c :: s => if c =? 0 then [] else c :: cstr s | [] => [] end.

Section values.
Variable value : list Z → option (json * list Z).

Fixpoint jelements (fuel : nat) (z : list Z) : option (list json * list Z) :=
  match fuel with
  | O => None
  | S fuel =>
      '(v, r) ← value (skip z);
      match eat 44 (skip r) with
      | Some r => '(l, r) ← jelements fuel r; Some (v :: l, r)
      | None => Some ([v], skip r)
      end
  end.
Definition jarray (fuel : nat) (z : list Z) : option (json * list Z) :=
  match eat 93 (skip z) with
  | Some r => Some (JArray [], r)
  | None => '(l, r) ← jelements fuel (skip z); r ← eat 93 r; Some (JArray l, r)
  end.

Fixpoint jmembers (fuel : nat) (z : list Z) : option (list (list Z * json) * list Z) :=
  match fuel with
  | O => None
  | S fuel =>
      '(k, r) ← string_ref (skip z);
      r ← eat 58 (skip r);
      '(v, r) ← value (skip r);
      match eat 44 (skip r) with
      | Some r => '(l, r) ← jmembers fuel r; Some ((cstr k, v) :: l, r)
      | None => Some ([(cstr k, v)], skip r)
      end
  end.
Definition jobject (fuel : nat) (z : list Z) : option (json * list Z) :=
  match eat 125 (skip z) with
  | Some r => Some (JObject [], r)
  | None => '(l, r) ← jmembers fuel (skip z); r ← eat 125 r; Some (JObject l, r)
  end.
End values.

(** The value at the start of a text, inside [depth] arrays and objects, and what follows it. *)
Fixpoint jvalue (fuel : nat) (depth : Z) (z : list Z) : option (json * list Z) :=
  match fuel with
  | O => None
  | S fuel =>
      match strip word_null z, strip word_false z, strip word_true z, z with
      | Some r, _, _, _ => Some (JNull, r)
      | _, Some r, _, _ => Some (JFalse, r)
      | _, _, Some r, _ => Some (JTrue, r)
      | _, _, _, [] => None
      | _, _, _, c :: r =>
          if c =? 34 then '(s, r) ← string_ref z; Some (JString (cstr s), r)
          else if (c =? 45) || is_digit c then '(d, r) ← number_ref z; Some (JNumber d, r)
          else if c =? 91 then
            if CJSON_NESTING_LIMIT <=? depth then None else jarray (jvalue fuel (depth + 1)) fuel r
          else if c =? 123 then
            if CJSON_NESTING_LIMIT <=? depth then None else jobject (jvalue fuel (depth + 1)) fuel r
          else None
      end
  end.

(** ** Moving through the buffer *)

Lemma drop_blank_split z : ∃ t, z = t ++ drop_blank z ∧ Forall (λ c, c ≤ 32) t.
Proof.
  induction z as [|c z (t & IH & Ht)]; cbn [drop_blank]; [by exists []|].
  destruct (Z.leb_spec c 32); [|by exists []]. exists (c :: t). cbn [app]. split; [by f_equal|]. by constructor.
Qed.

Lemma skip_length z : (List.length (skip z) ≤ List.length z)%nat.
Proof.
  unfold skip. destruct (drop_blank z) as [|c z'] eqn:E; [rewrite length_drop; lia|].
  destruct (drop_blank_split z) as (t & Ht & _). rewrite Ht, E. len.
Qed.

Lemma skip_nonempty z : z ≠ [] → skip z ≠ [].
Proof.
  intros Hz. unfold skip. destruct (drop_blank z) eqn:E; [|done]. intros H. apply (f_equal (@List.length Z)) in H.
  rewrite length_drop in H. cbn in H. destruct z; [done|]. cbn [List.length] in H. lia.
Qed.

Lemma whitespace_loop_spec fuel b z :
  at_input b z → (List.length z < fuel)%nat →
  whitespace_loop fuel b = Some (at_offset (offset b + (zlen z - zlen (drop_blank z))) b).
Proof.
  revert b z. induction fuel as [|fuel IH]; intros b z Hin Hf; [lia|]. cbn [whitespace_loop].
  pose proof (can_access b [] z Hin) as Ha. change (zlen []) with 0 in Ha. rewrite Ha.
  destruct z as [|c z]; cbn [drop_blank].
  { rewrite bool_decide_false by tauto. cbn. f_equal. destruct b as [con le o dp]. unfold at_offset. cbn. f_equal. lia. }
  rewrite bool_decide_true by done. rewrite (buffer_at_0 _ _ _ Hin). cbn [mbind option_bind].
  destruct (Z.leb_spec c 32).
  - pose proof (at_input_drop b [c] z Hin) as H1. change (zlen [c]) with 1 in H1. cbn [List.length] in Hf.
    rewrite (IH _ z) by (done || lia). unfold at_offset. cbn [offset content length depth List.length].
    do 2 f_equal. lia.
  - f_equal. destruct b as [con le o dp]. unfold at_offset. cbn [offset content length depth]. f_equal. lia.
Qed.

Lemma at_offset_at o o' b : at_offset o (at_offset o' b) = at_offset o b.
Proof. done. Qed.
Lemma at_offset_same b : at_offset (offset b) b = b.
Proof. by destruct b. Qed.

Lemma skip_whitespace_spec b z :
  at_input b z → ∃ o, buffer_skip_whitespace b = Some (at_offset o b) ∧ at_input (at_offset o b) (skip z).
Proof.
  intros Hin. unfold buffer_skip_whitespace. pose proof (can_access b [] z Hin) as Ha. change (zlen []) with 0 in Ha.
  rewrite Ha. destruct z as [|c z].
  { rewrite bool_decide_false by tauto. exists (offset b). by rewrite at_offset_same. }
  rewrite bool_decide_true by done. cbn [negb]. set (z0 := c :: z) in *.
  rewrite (whitespace_loop_spec _ _ z0 Hin (at_input_fuel _ _ Hin)). cbn [mbind option_bind].
  destruct (drop_blank_split z0) as (t & Ht & _). unfold skip.
  assert (Hd : at_input (at_offset (offset b + zlen t) b) (drop_blank z0)) by (apply at_input_drop; by rewrite <- Ht).
  replace (zlen z0 - zlen (drop_blank z0)) with (zlen t)
    by (apply (f_equal (@List.length Z)) in Ht; rewrite length_app in Ht; lia).
  cbn [offset length at_offset]. assert (Hlen : length b = offset b + zlen z0) by (destruct Hin as (? & ? & _ & -> & ->); done).
  destruct (drop_blank z0) as [|d z'] eqn:E.
  - rewrite app_nil_r in Ht. rewrite <- Ht. destruct (Z.eqb_spec (offset b + zlen z0) (length b)); [|lia].
    exists (offset b + zlen z0 - 1). split; [done|].
    rewrite <- (take_drop (List.length z0 - 1) z0) in Hin. apply at_input_drop in Hin.
    rewrite length_take in Hin. replace (offset b + zlen z0 - 1) with (offset b + Z.of_nat ((List.length z0 - 1) `min` List.length z0)); [done|].
    assert (1 ≤ List.length z0)%nat by (cbn; lia). lia.
  - apply (f_equal (@List.length Z)) in Ht. rewrite length_app in Ht. cbn [List.length] in Ht.
    destruct (Z.eqb_spec (offset b + zlen t) (length b)); [lia|]. by eexists.
Qed.

Lemma at_char_spec b z c :
  at_input b z → at_char b c = Some (match eat c z with Some _ => true | None => false end).
Proof.
  intros Hin. unfold at_char. pose proof (can_access b [] z Hin) as Ha. change (zlen []) with 0 in Ha. rewrite Ha.
  destruct z as [|d z]; [by rewrite bool_decide_false by tauto|]. rewrite bool_decide_true by done.
  rewrite (buffer_at_0 _ _ _ Hin). cbn. by destruct (d =? c).
Qed.

Lemma eat_split c z r : eat c z = Some r → z = c :: r.
Proof. destruct z as [|d z]; cbn; [done|]. destruct (Z.eqb_spec d c); [|done]. by intros [= ->]; subst. Qed.

Lemma eat_at b c z r : at_input b z → eat c z = Some r → at_input (at_offset (offset b + 1) b) r.
Proof. intros Hin ->%eat_split. exact (at_input_drop b [c] r Hin). Qed.

Lemma strip_split w z r : strip w z = Some r → z = w ++ r.
Proof.
  revert z. induction w as [|c w IH]; intros z; cbn; [by intros [= ->]|].
  destruct (eat c z) as [z'|] eqn:E; [|done]. cbn. apply eat_split in E as ->. intros ->%IH. done.
Qed.

Lemma starts_with_spec b z w :
  at_input b z → zlen w ≤ zlen z →
  starts_with w (content b) (offset b) = Some (match strip w z with Some _ => true | None => false end).
Proof.
  intros (pre & tail & Hc & Ho & _) Hle. rewrite Ho. clear Ho. revert pre z Hc Hle.
  induction w as [|c w IH]; intros pre z Hc Hle; [done|]. cbn [starts_with strip].
  destruct z as [|d z]; [cbn in Hle; lia|].
  assert (Hd : (content b).[zlen pre] = Some d) by (rewrite Hc; apply rd_app_head).
  rewrite Hd. cbn [mbind option_bind eat]. destruct (d =? c); [|done]. cbn [mbind option_bind].
  replace (zlen pre + 1) with (zlen (pre ++ [d])) by len.
  apply IH; [by rewrite Hc, <- app_assoc|]. cbn [List.length] in Hle. lia.
Qed.

Lemma at_word_spec b z w :
  at_input b z → at_word b w = Some (match strip w z with Some _ => true | None => false end).
Proof.
  intros Hin. unfold at_word, can_read. assert (Hl : length b = offset b + zlen z) by (destruct Hin as (? & ? & _ & -> & ->); done).
  rewrite Hl. destruct (Z.leb_spec (offset b + zlen w) (offset b + zlen z)); [apply starts_with_spec; [done|lia]|].
  destruct (strip w z) eqn:E; [|done]. apply strip_split in E. apply (f_equal (@List.length Z)) in E.
  rewrite length_app in E. lia.
Qed.

Lemma scan_ref_shorter f z s r : scan_ref f z = Some (s, r) → (List.length r < List.length z)%nat.
Proof.
  revert z s r. induction f as [|f IH]; intros z s r; cbn; [done|]. destruct z as [|c z]; [done|].
  destruct (c =? 34); [intros [= _ <-]; cbn; lia|]. destruct (c =? 92).
  - destruct z as [|e z]; [done|]. destruct (scan_ref f z) as [[s' r']|] eqn:E; [|done]. cbn. intros [= _ <-].
    apply IH in E. lia.
  - destruct (scan_ref f z) as [[s' r']|] eqn:E; [|done]. cbn. intros [= _ <-]. apply IH in E. lia.
Qed.

Lemma string_ref_shorter z s r : string_ref z = Some (s, r) → (List.length r < List.length z)%nat.
Proof.
  destruct z as [|c z]; unfold string_ref; [done|]. destruct (c =? 34); [|done].
  destruct (scan_ref (S (List.length z)) z) as [[s' r']|] eqn:E; [|done]. cbn [mbind option_bind].
  destruct (unescape_string s'); [|done]. cbn [mbind option_bind].
  intros [= _ <-]. apply scan_ref_shorter in E. cbn. lia.
Qed.

(** ** The parser of lists stops, and no amount of fuel above the length matters *)

Definition shortens (value : list Z → option (json * list Z)) : Prop :=
  ∀ z v r, value z = Some (v, r) → (List.length r < List.length z)%nat.
(** Two parsers agree on texts of less than [n] bytes. *)
Definition agree (n : nat) (value value' : list Z → option (json * list Z)) : Prop :=
  ∀ z, (List.length z < n)%nat → value z = value' z.

Lemma eat_length c z r : eat c z = Some r → List.length z = S (List.length r).
Proof. by intros ->%eat_split. Qed.

Lemma jelements_shorter value fuel z l r :
  shortens value → jelements value fuel z = Some (l, r) → (List.length r < List.length z)%nat.
Proof.
  intros Hv. revert z l r. induction fuel as [|fuel IH]; intros z l r; cbn [jelements]; [done|].
  pose proof (skip_length z). destruct (value (skip z)) as [[v r1]|] eqn:E; [|done]. cbn [mbind option_bind].
  apply Hv in E. pose proof (skip_length r1). destruct (eat 44 (skip r1)) as [r2|] eqn:E2.
  - apply eat_length in E2. destruct (jelements value fuel r2) as [[l' r']|] eqn:E3; [|done]. cbn. intros [= _ <-].
    apply IH in E3. lia.
  - intros [= _ <-]. lia.
Qed.

Lemma jmembers_shorter value fuel z l r :
  shortens value → jmembers value fuel z = Some (l, r) → (List.length r < List.length z)%nat.
Proof.
  intros Hv. revert z l r. induction fuel as [|fuel IH]; intros z l r; cbn [jmembers]; [done|].
  pose proof (skip_length z). destruct (string_ref (skip z)) as [[k r0]|] eqn:E0; [|done]. cbn [mbind option_bind].
  apply string_ref_shorter in E0. pose proof (skip_length r0).
  destruct (eat 58 (skip r0)) as [r0'|] eqn:E0'; [|done]. cbn [mbind option_bind]. apply eat_length in E0'.
  pose proof (skip_length r0').
  destruct (value (skip r0')) as [[v r1]|] eqn:E; [|done]. cbn [mbind option_bind].
  apply Hv in E. pose proof (skip_length r1). destruct (eat 44 (skip r1)) as [r2|] eqn:E2.
  - apply eat_length in E2. destruct (jmembers value fuel r2) as [[l' r']|] eqn:E3; [|done]. cbn. intros [= _ <-].
    apply IH in E3. lia.
  - intros [= _ <-]. lia.
Qed.

Lemma jarray_shorter value fuel z v r :
  shortens value → jarray value fuel z = Some (v, r) → (List.length r < List.length z)%nat.
Proof.
  intros Hv. unfold jarray. pose proof (skip_length z). destruct (eat 93 (skip z)) as [r'|] eqn:E.
  - apply eat_length in E. intros [= _ <-]. lia.
  - destruct (jelements value fuel (skip z)) as [[l r1]|] eqn:E1; [|done]. cbn [mbind option_bind].
    apply jelements_shorter in E1; [|done]. destruct (eat 93 r1) as [r2|] eqn:E2; [|done]. apply eat_length in E2.
    cbn. intros [= _ <-]. lia.
Qed.

Lemma jobject_shorter value fuel z v r :
  shortens value → jobject value fuel z = Some (v, r) → (List.length r < List.length z)%nat.
Proof.
  intros Hv. unfold jobject. pose proof (skip_length z). destruct (eat 125 (skip z)) as [r'|] eqn:E.
  - apply eat_length in E. intros [= _ <-]. lia.
  - destruct (jmembers value fuel (skip z)) as [[l r1]|] eqn:E1; [|done]. cbn [mbind option_bind].
    apply jmembers_shorter in E1; [|done]. destruct (eat 125 r1) as [r2|] eqn:E2; [|done]. apply eat_length in E2.
    cbn. intros [= _ <-]. lia.
Qed.

Lemma strip_shorter w z r : w ≠ [] → strip w z = Some r → (List.length r < List.length z)%nat.
Proof. intros Hw ->%strip_split. rewrite length_app. destruct w; [done|]. cbn. lia. Qed.

Lemma jvalue_shorter fuel d : shortens (jvalue fuel d).
Proof.
  revert d. induction fuel as [|fuel IH]; intros d z v r; cbn [jvalue]; [done|].
  destruct (strip word_null z) as [r1|] eqn:E1; [intros [= _ <-]; eapply strip_shorter; [|eassumption]; done|].
  destruct (strip word_false z) as [r2|] eqn:E2; [intros [= _ <-]; eapply strip_shorter; [|eassumption]; done|].
  destruct (strip word_true z) as [r3|] eqn:E3; [intros [= _ <-]; eapply strip_shorter; [|eassumption]; done|].
  destruct z as [|c z]; [done|]. destruct (c =? 34).
  { destruct (string_ref (c :: z)) as [[s r']|] eqn:E; [|done]. cbn [mbind option_bind]. intros [= _ <-].
    by eapply string_ref_shorter. }
  destruct ((c =? 45) || is_digit c).
  { destruct (number_ref (c :: z)) as [[s r']|] eqn:E; [|done]. cbn [mbind option_bind]. intros [= _ <-].
    by eapply number_ref_shorter. }
  cbn [List.length]. destruct (c =? 91).
  { destruct (_ <=? d); [done|]. intros H. apply jarray_shorter in H; [lia|apply IH]. }
  destruct (c =? 123); [|done]. destruct (_ <=? d); [done|]. intros H. apply jobject_shorter in H; [lia|apply IH].
Qed.

Section agree.
Context (v1 v2 : list Z → option (json * list Z)) (n : nat) (Hagree : agree n v1 v2) (Hshort : shortens v1).

Lemma jelements_agree f g z :
  (List.length z < f)%nat → (List.length z < g)%nat → (List.length z < n)%nat → jelements v1 f z = jelements v2 g z.
Proof.
  revert g z. induction f as [|f IH]; intros [|g] z Hf Hg Hn; try lia. cbn [jelements]. pose proof (skip_length z).
  rewrite <- Hagree by lia. destruct (v1 (skip z)) as [[v r]|] eqn:E; [|done]. cbn [mbind option_bind].
  apply Hshort in E. pose proof (skip_length r). destruct (eat 44 (skip r)) as [r2|] eqn:E2; [|done].
  apply eat_length in E2. by rewrite (IH g) by lia.
Qed.

Lemma jmembers_agree f g z :
  (List.length z < f)%nat → (List.length z < g)%nat → (List.length z < n)%nat → jmembers v1 f z = jmembers v2 g z.
Proof.
  revert g z. induction f as [|f IH]; intros [|g] z Hf Hg Hn; try lia. cbn [jmembers]. pose proof (skip_length z).
  destruct (string_ref (skip z)) as [[k r0]|] eqn:E0; [|done]. cbn [mbind option_bind].
  apply string_ref_shorter in E0. pose proof (skip_length r0).
  destruct (eat 58 (skip r0)) as [r0'|] eqn:E0'; [|done]. cbn [mbind option_bind]. apply eat_length in E0'.
  pose proof (skip_length r0').
  rewrite <- Hagree by lia. destruct (v1 (skip r0')) as [[v r]|] eqn:E; [|done]. cbn [mbind option_bind].
  apply Hshort in E. pose proof (skip_length r). destruct (eat 44 (skip r)) as [r2|] eqn:E2; [|done].
  apply eat_length in E2. by rewrite (IH g) by lia.
Qed.
End agree.

Lemma jvalue_fuel f g d z :
  (List.length z < f)%nat → (List.length z < g)%nat → jvalue f d z = jvalue g d z.
Proof.
  revert g d z. induction f as [|f IH]; intros [|g] d z Hf Hg; try lia. cbn [jvalue].
  destruct z as [|c z]; [done|]. cbn [List.length] in Hf, Hg. pose proof (skip_length z).
  assert (Hag : agree (S (List.length z)) (jvalue f (d + 1)) (jvalue g (d + 1))) by (intros x Hx; apply IH; lia).
  unfold jarray, jobject.
  rewrite (jelements_agree _ _ _ Hag (jvalue_shorter f (d + 1)) f g (skip z)) by lia.
  by rewrite (jmembers_agree _ _ _ Hag (jvalue_shorter f (d + 1)) f g (skip z)) by lia.
Qed.

(** ** Whole texts *)

Definition byte_order_mark : list Z := [0xEF; 0xBB; 0xBF].

(** The value of a text and what is left of it; with [null_terminated], the value is followed by
    white space and a zero byte. *)
Definition jtext (null_terminated : bool) (z : list Z) : option (json * list Z) :=
  let z := if 4 <? zlen z then default z (strip byte_order_mark z) else z in
  '(v, r) ← jvalue (S (List.length z)) 0 (skip z);
  if null_terminated then match skip r with c :: _ => if c =? 0 then Some (v, skip r) else None | [] => None end
  else Some (v, r).
