(* ===== verification/CJsonParseProofs.v ===== *)
(** Proofs about the parser of cJSON (CJson.v): on blocks of at least the size asked for, it
    returns unless a string of the text overflows its block; what it builds is a well linked
    tree of new items that stands for the value that the parser of CJsonRef.v finds, and when
    it fails the heap is as it was.  On blocks with a byte to spare no string overflows. *)
From S2P Require Import Prelude CJsonHeap CJsonHeapProofs CJsonText CJsonTextProofs CJsonNum CJsonNumProofs CJson CJsonRef.

(** ** The value that an item stands for *)

Fixpoint siblings (f : forest) : list Z :=
  match f with FNil => [] | FCons a _ _ rest => a :: siblings rest end.

(** [prev] of the siblings after [p], and of all children: the first of them has the last.
    No item is a reference to the children of another. *)
Fixpoint wired (p : option Z) (f : forest) : Prop :=
  match f with
  | FNil => True
  | FCons a i kids rest =>
      prev i = p ∧ has cJSON_IsReference i = false ∧ wired (last (siblings kids)) kids ∧ wired (Some a) rest
  end.

(** The string at an address. *)
Definition text_at (st : gmap Z (list Z)) (s : option Z) : option (list Z) :=
  s ← s; l ← st !! s; c_string l.

Definition value_of (st : gmap Z (list Z)) (i : cJSON) (kids : list (option (list Z) * json)) : option json :=
  let t := Z.land (type i) 0xFF in
  if t =? cJSON_NULL then Some JNull
  else if t =? cJSON_False then Some JFalse
  else if t =? cJSON_True then Some JTrue
  else if t =? cJSON_Number then
    if bool_decide (saturate (valuedouble i) = Some (valueint i)) then Some (JNumber (valuedouble i)) else None
  else if t =? cJSON_String then JString <$> text_at st (valuestring i)
  else if t =? cJSON_Array then Some (JArray (snd <$> kids))
  else if t =? cJSON_Object then JObject <$> mapM (λ kv, k ← kv.1; Some (k, kv.2)) kids
  else None.

(** The key of an item, if it has one. *)
Definition key_of (st : gmap Z (list Z)) (i : cJSON) : option (option (list Z)) :=
  match string i with None => Some None | Some s => Some <$> text_at st (Some s) end.

(** The keys and values of siblings. *)
Fixpoint values (st : gmap Z (list Z)) (f : forest) : option (list (option (list Z) * json)) :=
  match f with
  | FNil => Some []
  | FCons _ i kids rest =>
      ks ← values st kids; v ← value_of st i ks; k ← key_of st i; r ← values st rest; Some ((k, v) :: r)
  end.

Lemma text_at_mono st st' s t : st ⊆ st' → text_at st s = Some t → text_at st' s = Some t.
Proof.
  intros Hst. unfold text_at. destruct s as [s|]; [|done]. cbn. destruct (st !! s) as [l|] eqn:E; [|done].
  by rewrite (lookup_weaken _ _ _ _ E Hst).
Qed.

Lemma value_of_mono st st' i ks v : st ⊆ st' → value_of st i ks = Some v → value_of st' i ks = Some v.
Proof.
  intros Hst. unfold value_of. repeat case_match; try done. rewrite !fmap_Some. intros (t & Ht & ->).
  exists t. split; [by apply (text_at_mono st)|done].
Qed.

Lemma key_of_mono st st' i k : st ⊆ st' → key_of st i = Some k → key_of st' i = Some k.
Proof.
  intros Hst. unfold key_of. destruct (string i) as [s|]; [|done]. rewrite !fmap_Some. intros (t & Ht & ->).
  exists t. split; [by apply (text_at_mono st)|done].
Qed.

Lemma values_mono st st' f ks : st ⊆ st' → values st f = Some ks → values st' f = Some ks.
Proof.
  intros Hst. revert ks. induction f as [|a i kids IHk rest IHr]; intros ks; cbn [values]; [done|]. intros H. inv_bind. subst.
  erewrite IHk by done. cbn [mbind option_bind]. erewrite value_of_mono by done. cbn [mbind option_bind].
  erewrite key_of_mono by done. cbn [mbind option_bind]. by erewrite IHr.
Qed.

(** ** What changes between two heaps

    The items [la] and strings [ls] are new, the items [touched] may have changed. *)
Record grown (h h' : heap) (touched la ls : list Z) : Prop := Grown {
  grown_items a : a ∉ la → a ∉ touched → items h' !! a = items h !! a;
  grown_touched a : a ∈ touched → is_Some (items h !! a);
  grown_strings s : s ∉ ls → strings h' !! s = strings h !! s;
  grown_NoDup_la : NoDup la;
  grown_NoDup_ls : NoDup ls;
  grown_la a : a ∈ la → brk h ≤ a < brk h';
  grown_ls s : s ∈ ls → brk h ≤ s < brk h' ∧ is_Some (strings h' !! s);
  grown_brk : brk h ≤ brk h' }.

(** Every address in use has been given out. *)
Definition below (h : heap) : Prop :=
  (∀ a, is_Some (items h !! a) → a < brk h) ∧ (∀ s, is_Some (strings h !! s) → s < brk h).

Lemma grown_below h h' t la ls : grown h h' t la ls → below h → below h'.
Proof.
  intros H (Hi & Hs). pose proof (grown_brk _ _ _ _ _ H). split.
  - intros a Ha. destruct (decide (a ∈ la)) as [Hin|Hin]; [apply (grown_la _ _ _ _ _ H) in Hin; lia|].
    destruct (decide (a ∈ t)) as [Ht|Ht]; [apply (grown_touched _ _ _ _ _ H), Hi in Ht; lia|].
    rewrite (grown_items _ _ _ _ _ H) in Ha by done. apply Hi in Ha. lia.
  - intros s Ha. destruct (decide (s ∈ ls)) as [Hin|Hin]; [apply (grown_ls _ _ _ _ _ H) in Hin; lia|].
    rewrite (grown_strings _ _ _ _ _ H) in Ha by done. apply Hs in Ha. lia.
Qed.

Lemma grown_mono h h' t la ls : grown h h' t la ls → below h → strings h ⊆ strings h'.
Proof.
  intros H (_ & Hs). apply map_subseteq_spec. intros s l E. rewrite (grown_strings _ _ _ _ _ H); [done|].
  intros Hin. apply (grown_ls _ _ _ _ _ H) in Hin. assert (s < brk h) by (apply Hs; by rewrite E). lia.
Qed.

Lemma grown_refl h t : (∀ a, a ∈ t → is_Some (items h !! a)) → grown h h t [] [].
Proof. intros Ht. split; try done; try apply NoDup_nil_2; intros a Ha; by apply elem_of_nil in Ha. Qed.

Lemma grown_perm h h' t la ls la' ls' :
  grown h h' t la ls → Permutation la la' → Permutation ls ls' → grown h h' t la' ls'.
Proof.
  intros [H1 H2 H3 H4 H5 H6 H7 H8] Pa Ps. split; try done.
  - intros a. rewrite <- Pa. apply H1.
  - intros s. rewrite <- Ps. apply H3.
  - by rewrite <- Pa.
  - by rewrite <- Ps.
  - intros a. rewrite <- Pa. apply H6.
  - intros s. rewrite <- Ps. apply H7.
Qed.

Lemma grown_trans h h1 h2 t1 la1 ls1 t2 la2 ls2 :
  grown h h1 t1 la1 ls1 → grown h1 h2 t2 la2 ls2 → (∀ a, a ∈ t2 → a ∈ t1 ∨ a ∈ la1) →
  grown h h2 t1 (la1 ++ la2) (ls1 ++ ls2).
Proof.
  intros [A1 A2 A3 A4 A5 A6 A7 A8] [B1 B2 B3 B4 B5 B6 B7 B8] Ht. split.
  - intros a Ha Ha1. rewrite elem_of_app in Ha. rewrite B1, A1; [done|tauto|tauto|tauto|].
    intros H. apply Ht in H. tauto.
  - done.
  - intros s Hs. rewrite elem_of_app in Hs. rewrite B3, A3; tauto.
  - apply NoDup_app. split; [done|]. split; [|done]. intros a Ha Hb. apply A6 in Ha. apply B6 in Hb. lia.
  - apply NoDup_app. split; [done|]. split; [|done]. intros a Ha Hb. apply A7 in Ha. apply B7 in Hb. lia.
  - intros a Ha. apply elem_of_app in Ha as [Ha|Ha]; [apply A6 in Ha|apply B6 in Ha]; lia.
  - intros s Hs. apply elem_of_app in Hs as [Hs|Hs]; [|apply B7 in Hs; split; [lia|tauto]].
    apply A7 in Hs. split; [lia|]. rewrite B3; [tauto|]. intros Hs'. apply B7 in Hs'. lia.
  - lia.
Qed.

(** An update of an item. *)
Lemma upd_grown a f h i :
  items h !! a = Some i →
  upd a f h = Some (with_items (<[a := f i]> (items h)) h) ∧
  grown h (with_items (<[a := f i]> (items h)) h) [a] [] [].
Proof.
  intros E. unfold upd. rewrite E. split; [done|]. split; cbn; try done; try apply NoDup_nil_2.
  - intros b _ Hb. apply lookup_insert_ne. intros ->. apply Hb. left.
  - intros b Hb. apply list_elem_of_singleton in Hb as ->. by rewrite E.
  - intros b Hb. by apply elem_of_nil in Hb.
  - intros b Hb. by apply elem_of_nil in Hb.
Qed.


(** ** An item with its children, and a list of siblings *)

(** An item without anything of its own, to be filled in. *)
Definition quiet (i : cJSON) : Prop :=
  child i = None ∧ valuestring i = None ∧ has cJSON_IsReference i = false ∧ has cJSON_StringIsConst i = false.

(** [it], at the address [item], has become [i]. *)
Record item_made (h : heap) (item : Z) (it i : cJSON) (kids : forest) (h' : heap) : Prop := ItemMade {
  made_grown : grown h h' [item] (addrs kids) (strs kids ++ olist (valuestring i));
  made_item : items h' !! item = Some i;
  made_links : next i = next it ∧ prev i = prev it ∧ string i = string it;
  made_flags : has cJSON_IsReference i = false ∧ has cJSON_StringIsConst i = false;
  made_holds : holds (items h') (child i) kids;
  made_wired : wired (last (siblings kids)) kids }.

(** The siblings of [f] have been made after the item [cur]. *)
Record list_made (h : heap) (cur : option Z) (f : forest) (h' : heap) : Prop := ListMade {
  list_grown : grown h h' (olist cur) (addrs f) (strs f);
  list_wired : wired cur f;
  list_holds : holds (items h') (head (siblings f)) f;
  list_cur c ci : cur = Some c → items h !! c = Some ci → next ci = None →
                  items h' !! c = Some (set_next (head (siblings f)) ci) }.

(** A new item after [cur], with the key that it has got. *)
Record attached (h : heap) (cur : option Z) (new : Z) (it : cJSON) (h' : heap) : Prop := Attached {
  att_grown : grown h h' (olist cur) [new] (olist (string it));
  att_item : items h' !! new = Some it;
  att_links : next it = None ∧ prev it = cur;
  att_quiet : quiet it;
  att_cur c ci : cur = Some c → items h !! c = Some ci → next ci = None → items h' !! c = Some (set_next (Some new) ci) }.

Lemma item_quiet h item it h' :
  quiet it → items h !! item = Some it → items h' = items h → strings h' = strings h → brk h ≤ brk h' →
  item_made h item it it FNil h'.
Proof.
  intros (Hc & Hv & Hr & Hs) Hit Ei Es Hb. split; try done; cbn [addrs strs app holds wired]; rewrite ?Hv, ?Hc; try done.
  - split; try done; cbn; try apply NoDup_nil_2.
    + intros a _ _. by rewrite Ei.
    + intros a Ha. apply list_elem_of_singleton in Ha as ->. by rewrite Hit.
    + intros s _. by rewrite Es.
    + intros a Ha. by apply elem_of_nil in Ha.
    + intros s Hin. by apply elem_of_nil in Hin.
  - by rewrite Ei.
Qed.

Lemma list_nil h cur : (∀ c, cur = Some c → is_Some (items h !! c)) → list_made h cur FNil h.
Proof.
  intros Hc. split; try done.
  - apply grown_refl. intros a Ha. destruct cur as [c|]; [|by apply elem_of_nil in Ha].
    apply list_elem_of_singleton in Ha as ->. by apply Hc.
  - intros c ci -> E Hn. rewrite E. f_equal. destruct ci. cbn in *. by rewrite Hn.
Qed.

(** An item that gets its value, and the siblings that follow it. *)
Lemma list_cons h cur new it h1 i kids h2 f h3 :
  below h → (∀ c, cur = Some c → is_Some (items h !! c)) →
  attached h cur new it h1 → item_made h1 new it i kids h2 → list_made h2 (Some new) f h3 →
  list_made h cur (FCons new (set_next (head (siblings f)) i) kids f) h3.
Proof.
  intros Hbelow Hcur A M L. destruct (att_links _ _ _ _ _ A) as (Hnext & Hprev).
  destruct (made_links _ _ _ _ _ _ M) as (Hnext' & Hprev' & Hstr). destruct (made_flags _ _ _ _ _ _ M) as (Hf1 & Hf2).
  pose proof (made_grown _ _ _ _ _ _ M) as GM. pose proof (list_grown _ _ _ _ L) as GL. pose proof (att_grown _ _ _ _ _ A) as GA.
  assert (G12 : grown h h2 (olist cur) ([new] ++ addrs kids) (olist (string it) ++ strs kids ++ olist (valuestring i))).
  { eapply grown_trans; [exact GA|exact GM|]. intros a Ha. by right. }
  assert (G : grown h h3 (olist cur) (([new] ++ addrs kids) ++ addrs f)
                ((olist (string it) ++ strs kids ++ olist (valuestring i)) ++ strs f)).
  { eapply grown_trans; [exact G12|exact GL|]. intros a Ha. right. apply elem_of_app. by left. }
  assert (Hnew : brk h ≤ new < brk h1) by (apply (grown_la _ _ _ _ _ GA); left).
  pose proof (grown_brk _ _ _ _ _ GM) as Hb12.
  split.
  - eapply grown_perm; [exact G|by rewrite <- app_assoc|]. cbn [strs]. unfold own_strings, has in *. cbn [type set_next].
    rewrite Hf1, Hf2. cbn [valuestring string set_next]. rewrite Hstr. rewrite <- !app_assoc. 
    rewrite Permutation_app_comm, <- !app_assoc. do 2 f_equiv. apply Permutation_app_comm.
  - cbn [wired]. split; [cbn; congruence|]. split; [done|]. split; [apply (made_wired _ _ _ _ _ _ M)|apply (list_wired _ _ _ _ L)].
  - cbn [holds siblings head]. split; [done|].
    split; [apply (list_cur _ _ _ _ L); [done|apply (made_item _ _ _ _ _ _ M)|congruence]|].
    unfold has in *. cbn [type set_next child next]. rewrite Hf1. split; [|apply (list_holds _ _ _ _ L)].
    apply (holds_same (items h2)); [apply (made_holds _ _ _ _ _ _ M)|]. intros a Ha.
    apply (grown_la _ _ _ _ _ GM) in Ha. apply (grown_items _ _ _ _ _ GL).
    + intros Hin. apply (grown_la _ _ _ _ _ GL) in Hin. lia.
    + intros Hin. apply list_elem_of_singleton in Hin. lia.
  - intros c ci Ec Hci Hn. cbn [siblings head].
    assert (Hclt : c < brk h) by (apply (proj1 Hbelow); by apply Hcur).
    rewrite (grown_items _ _ _ _ _ GL c), (grown_items _ _ _ _ _ GM c).
    + by apply (att_cur _ _ _ _ _ A).
    + intros Hin. apply (grown_la _ _ _ _ _ GM) in Hin. lia.
    + intros Hin. apply list_elem_of_singleton in Hin. lia.
    + intros Hin. apply (grown_la _ _ _ _ _ GL) in Hin. pose proof (grown_brk _ _ _ _ _ GA). lia.
    + intros Hin. apply list_elem_of_singleton in Hin. lia.
Qed.

(** The loops keep the first item of their list and the last one, which has no next. *)
Definition list_state (h : heap) (head cur : option Z) : Prop :=
  match cur with
  | None => head = None
  | Some c => is_Some head ∧ ∃ ci, items h !! c = Some ci ∧ next ci = None
  end.
Definition or_else (a b : option Z) : option Z := match a with Some _ => a | None => b end.

Definition all_ok (h : heap) : Prop := Forall (λ b, b = true) (answers h).

Lemma all_ok_granted h : all_ok h → granted h = true.
Proof. unfold all_ok, granted. destruct (answers h) as [|[] o]; [done|done|]. intros H. by apply Forall_cons in H as [? _]. Qed.
Lemma all_ok_tail h m s b : all_ok h → all_ok (mkHeap m s b (tail (answers h))).
Proof. unfold all_ok. cbn. destruct (answers h); [done|]. intros H. by apply Forall_cons in H as [_ ?]. Qed.

Lemma new_item_spec h :
  cJSON_New_Item h =
    if granted h then (Some (brk h), mkHeap (<[brk h := blank]> (items h)) (strings h) (brk h + 1) (tail (answers h)))
    else (None, mkHeap (items h) (strings h) (brk h) (tail (answers h))).
Proof. unfold cJSON_New_Item, allocate, granted, with_items. by destruct (answers h) as [|[] o]. Qed.

Lemma below_fresh h : below h → items h !! brk h = None ∧ strings h !! brk h = None.
Proof.
  intros (Hi & Hs). split; [destruct (items h !! brk h) eqn:E|destruct (strings h !! brk h) eqn:E]; try done; exfalso.
  - assert (brk h < brk h) by (apply Hi; by rewrite E). lia.
  - assert (brk h < brk h) by (apply Hs; by rewrite E). lia.
Qed.

(** New blocks. *)
Lemma grown_item h m :
  m = <[brk h := blank]> (items h) → grown h (mkHeap m (strings h) (brk h + 1) (tail (answers h))) [] [brk h] [].
Proof.
  intros ->. split; cbn; try done; try apply NoDup_nil_2; try apply NoDup_singleton; try lia.
  - intros a Ha _. apply lookup_insert_ne. intros <-. apply Ha. left.
  - intros a Ha. by apply elem_of_nil in Ha.
  - intros a Ha. apply list_elem_of_singleton in Ha. lia.
  - intros a Ha. by apply elem_of_nil in Ha.
Qed.

Lemma grown_string h item i blk :
  is_Some (items h !! item) →
  grown h (mkHeap (<[item := i]> (items h)) (<[brk h := blk]> (strings h)) (brk h + 1) (tail (answers h))) [item] [] [brk h].
Proof.
  intros Hi. split; cbn; try done; try apply NoDup_nil_2; try apply NoDup_singleton; try lia.
  - intros a _ Ha. apply lookup_insert_ne. intros <-. apply Ha. left.
  - intros a Ha. by apply list_elem_of_singleton in Ha as ->.
  - intros a Ha. apply lookup_insert_ne. intros <-. apply Ha. left.
  - intros a Ha. by apply elem_of_nil in Ha.
  - intros a Ha. apply list_elem_of_singleton in Ha as ->. split; [lia|]. by rewrite lookup_insert_eq.
Qed.

Lemma new_attached h head cur :
  below h → granted h = true → list_state h head cur →
  ∃ h0 h1, cJSON_New_Item h = (Some (brk h), h0) ∧
    attach (brk h) head cur h0 = Some (or_else head (Some (brk h)), h1) ∧
    attached h cur (brk h) (set_prev cur blank) h1 ∧ answers h1 = tail (answers h).
Proof.
  intros Hb Hg Hl. rewrite new_item_spec, Hg. destruct (below_fresh h Hb) as (Hf & _).
  set (h0 := mkHeap _ _ _ _). exists h0. pose proof (grown_item h _ eq_refl) as G0. fold h0 in G0.
  assert (Hnew : items h0 !! brk h = Some blank) by apply lookup_insert_eq.
  unfold attach. destruct cur as [c|]; cbn in Hl.
  - destruct Hl as ((a & ->) & ci & Hci & Hn). assert (Hne : c ≠ brk h) by (intros ->; congruence).
    assert (Hc0 : items h0 !! c = Some ci) by (unfold h0; cbn; by rewrite lookup_insert_ne).
    cbn [mbind option_bind]. destruct (upd_grown c (set_next (Some (brk h))) h0 ci Hc0) as (-> & G1). cbn [mbind option_bind].
    set (h1 := with_items _ h0) in *.
    assert (Hn1 : items h1 !! brk h = Some blank) by (unfold h1; cbn; by rewrite lookup_insert_ne).
    destruct (upd_grown (brk h) (set_prev (Some c)) h1 blank Hn1) as (-> & G2). set (h2 := with_items _ h1) in *.
    exists h2. split; [done|]. split; [done|]. split; [|done].
    assert (G : grown h h2 [c] [brk h] []).
    { assert (G01 : grown h h1 [c] [brk h] []).
      { assert (G0' : grown h h0 [c] [brk h] []).
        { destruct G0 as [A1 A2 A3 A4 A5 A6 A7 A8]. split; try done.
          - intros x Hx _. apply A1; [done|]. intros H. by apply elem_of_nil in H.
          - intros x Hx. apply list_elem_of_singleton in Hx as ->. by rewrite Hci. }
        apply (grown_trans _ _ _ _ [brk h] [] _ [] [] G0' G1). intros x Hx. by left. }
      apply (grown_trans _ _ _ _ [brk h] [] _ [] [] G01 G2). intros x Hx. by right. }
    split; cbn [olist string set_prev blank]; try done.
    + apply lookup_insert_eq.
    + intros c' ci' [= <-] Hci' _. assert (ci' = ci) as -> by congruence.
      unfold h2. cbn. rewrite lookup_insert_ne by done. apply lookup_insert_eq.
  - subst head. cbn [mbind option_bind]. exists h0. split; [done|]. split; [done|]. split; [|done]. by split.
Qed.

(** A value of 0x7f or less for the type leaves the flags off. *)
Definition plain (ty : Z) : Prop := Z.land ty cJSON_IsReference = 0 ∧ Z.land ty cJSON_StringIsConst = 0.

(** [finish] makes the list the children of the item. *)
Lemma finish_spec ty h item it f b h1 :
  plain ty → items h !! item = Some it → quiet it → below h → list_made h None f h1 →
  ∃ f' h2, finish ty item (head (siblings f)) (last (siblings f)) b h1 =
             Some (true, at_offset (offset b + 1) (at_depth (depth b - 1) b), h2) ∧
    item_made h item it (set_child (head (siblings f)) (set_type ty it)) f' h2 ∧
    strings h2 = strings h1 ∧ answers h2 = answers h1 ∧ ∀ st, values st f' = values st f.
Proof.
  intros (Hty1 & Hty2) Hit (Hqc & Hqv & Hqr & Hqs) Hb L. unfold finish.
  pose proof (list_grown _ _ _ _ L) as GL. cbn [olist] in GL.
  assert (Hlt : item < brk h) by (apply (proj1 Hb); by rewrite Hit).
  assert (Hout : item ∉ addrs f) by (intros Hin; apply (grown_la _ _ _ _ _ GL) in Hin; lia).
  assert (Hit1 : items h1 !! item = Some it).
  { rewrite (grown_items _ _ _ _ _ GL); [done|done|]. intros Hin. by apply elem_of_nil in Hin. }
  assert (Hhead : ∃ f' h2,
    match head (siblings f) with Some a => upd a (set_prev (last (siblings f))) h1 | None => Some h1 end = Some h2 ∧
    siblings f' = siblings f ∧ addrs f' = addrs f ∧ strs f' = strs f ∧ (∀ st, values st f' = values st f) ∧
    wired (last (siblings f)) f' ∧ holds (items h2) (head (siblings f)) f' ∧
    (∀ a, a ∉ addrs f → items h2 !! a = items h1 !! a) ∧ strings h2 = strings h1 ∧ brk h2 = brk h1 ∧ answers h2 = answers h1).
  { destruct L as [_ Hw Hh _]. destruct f as [|a i kids rest]; cbn [siblings head] in *; [by exists FNil, h1|].
    cbn [wired holds] in Hw, Hh. destruct Hw as (Hp & Hwf & Hwk & Hwr). destruct Hh as (_ & Hi & Hk & Hr).
    destruct (upd_grown a (set_prev (last (a :: siblings rest))) h1 i Hi) as (-> & _).
    exists (FCons a (set_prev (last (a :: siblings rest)) i) kids rest). eexists. split; [done|].
    cbn [siblings addrs strs values wired holds items with_items strings brk answers].
    pose proof (grown_NoDup_la _ _ _ _ _ GL) as Hnd. cbn [addrs] in Hnd. apply NoDup_cons in Hnd as (Hnot & _).
    rewrite elem_of_app in Hnot.
    split_and!; try done; try apply lookup_insert_eq.
    - destruct (has cJSON_IsReference i) eqn:E; unfold has in *; cbn [type set_prev]; rewrite E; [done|].
      cbn [child set_prev]. apply (holds_same (items h1)); [done|]. intros x Hx. apply lookup_insert_ne. intros ->. tauto.
    - cbn [next set_prev]. apply (holds_same (items h1)); [done|]. intros x Hx. apply lookup_insert_ne. intros ->. tauto.
    - intros x Hx. apply lookup_insert_ne. intros ->. apply Hx. left. }
  destruct Hhead as (f' & h2 & -> & Hsib & Haddr & Hstrs & Hval & Hw & Hh & Hsame & Hst & Hbrk & Hans).
  cbn [mbind option_bind]. assert (Hit2 : items h2 !! item = Some it) by (by rewrite Hsame).
  destruct (upd_grown item (set_type ty) h2 it Hit2) as (-> & _). cbn [mbind option_bind].
  unfold upd at 1. cbn [items with_items]. rewrite lookup_insert_eq. cbn [mbind option_bind].
  eexists f', _. split; [done|]. cbn [items with_items strings answers brk].
  split; [|done].
  assert (Hins : ∀ a, a ≠ item → <[item:=set_child (head (siblings f)) (set_type ty it)]> (<[item:=set_type ty it]> (items h2)) !! a = items h2 !! a).
  { intros a Ha. by rewrite !lookup_insert_ne. }
  split; cbn [items with_items strings answers brk valuestring set_child set_type]; rewrite ?Hqv, ?app_nil_r.
  - destruct GL as [A1 A2 A3 A4 A5 A6 A7 A8]. rewrite Haddr, Hstrs. split; cbn [items with_items strings answers brk]; rewrite ?Hst, ?Hbrk; try done.
    + intros a Ha Ha'. rewrite Hins, Hsame, A1; try done; [intros H; by apply elem_of_nil in H|]. intros ->. apply Ha'. left.
    + intros a Ha. apply list_elem_of_singleton in Ha as ->. by rewrite Hit.
  - apply lookup_insert_eq.
  - done.
  - unfold has. cbn [type set_child set_type]. by rewrite Hty1, Hty2.
  - apply (holds_same (items h2)); [done|]. intros a Ha. apply Hins. intros ->. apply Hout. by rewrite <- Haddr.
  - by rewrite Hsib.
Qed.

(** [abandon] gives back everything. *)
Definition unchanged (h h' : heap) : Prop := items h' = items h ∧ strings h' = strings h ∧ brk h ≤ brk h'.

Lemma delete_grown h f h1 p :
  below h → grown h h1 [] (addrs f) (strs f) → holds (items h1) p f →
  ∃ h2, cJSON_Delete h1 p = Some h2 ∧ unchanged h h2.
Proof.
  intros (Hbi & Hbs) [A1 A2 A3 A4 A5 A6 A7 A8] Hh. rewrite (cJSON_Delete_correct f); [|done|done|done|].
  2: { intros s Hs. by apply A7 in Hs as [_ Hs]. }
  eexists. split; [done|]. split_and!; cbn; [| |done].
  - apply map_eq. intros a. rewrite lookup_without. destruct (decide (a ∈ addrs f)) as [Hin|Hin].
    + symmetry. apply eq_None_not_Some. intros Ha. apply Hbi in Ha. apply A6 in Hin. lia.
    + apply A1; [done|]. intros H. by apply elem_of_nil in H.
  - apply map_eq. intros s. rewrite lookup_without. destruct (decide (s ∈ strs f)) as [Hin|Hin]; [|by apply A3].
    symmetry. apply eq_None_not_Some. intros Hs. apply Hbs in Hs. apply A7 in Hin. lia.
Qed.

Lemma abandon_spec h f b h1 :
  below h → list_made h None f h1 →
  ∃ h2, abandon (head (siblings f)) b h1 = Some (false, b, h2) ∧ unchanged h h2.
Proof.
  intros Hb L. unfold abandon.
  destruct (delete_grown h f h1 _ Hb (list_grown _ _ _ _ L) (list_holds _ _ _ _ L)) as (h2 & Hdel & Hun).
  exists h2. split; [|done]. destruct (head (siblings f)); [by rewrite Hdel|]. by injection Hdel as ->.
Qed.

Lemma list_nil_same h h' cur :
  (∀ c, cur = Some c → is_Some (items h !! c)) → items h' = items h → strings h' = strings h → brk h ≤ brk h' →
  list_made h cur FNil h'.
Proof.
  intros Hc Ei Es Hb. destruct (list_nil h cur Hc) as [[A1 A2 A3 A4 A5 A6 A7 A8] B2 B3 B4]. split; try done.
  - split; try done; cbn [addrs strs]; [intros a _ _; by rewrite Ei|intros s _; by rewrite Es|..]; intros a Ha; by apply elem_of_nil in Ha.
  - intros c ci Ec Hci Hn. rewrite Ei. by apply B4.
Qed.

Lemma values_cons st st' new n i kids f ks v k r :
  st ⊆ st' → values st kids = Some ks → value_of st i ks = Some v → key_of st i = Some k → values st' f = Some r →
  values st' (FCons new (set_next n i) kids f) = Some ((k, v) :: r).
Proof.
  intros Hst Hk Hv Hkey Hr. cbn [values]. rewrite (values_mono _ _ _ _ Hst Hk). cbn [mbind option_bind].
  change (value_of st' (set_next n i) ks) with (value_of st' i ks). change (key_of st' (set_next n i)) with (key_of st' i).
  rewrite (value_of_mono _ _ _ _ _ Hst Hv). cbn [mbind option_bind].
  rewrite (key_of_mono _ _ _ _ Hst Hkey). cbn [mbind option_bind]. by rewrite Hr.
Qed.

Lemma list_state_some h head cur c : list_state h head cur → cur = Some c → is_Some (items h !! c).
Proof. intros H ->. destruct H as (_ & ci & -> & _). done. Qed.

Lemma or_else_last l a (cur : option Z) : or_else (last l) (Some a) = or_else (last (a :: l)) cur.
Proof. rewrite last_cons. by destruct (last l). Qed.

Lemma moved_trans b1 b2 b3 : moved b1 b2 → moved b2 b3 → moved b1 b3.
Proof. intros (H1 & H2 & H3) (H4 & H5 & H6). split_and!; congruence. Qed.

(** The list ends with an item that got no value. *)
Lemma list_fail h head cur new it h1 h2 :
  below h → list_state h head cur → attached h cur new it h1 → items h2 = items h1 → strings h2 = strings h1 →
  brk h1 ≤ brk h2 → list_made h cur (FCons new (set_next None it) FNil FNil) h2.
Proof.
  intros Hb Hl A Ei Es Hbrk. eapply (list_cons h cur new _ h1 _ FNil h2 FNil h2); [done| |exact A| |].
  - intros c. by apply (list_state_some h head).
  - apply item_quiet; try done; apply A.
  - apply list_nil. intros c [= <-]. rewrite Ei. by rewrite (att_item _ _ _ _ _ A).
Qed.

Lemma blank_quiet cur : quiet (set_prev cur blank).
Proof. done. Qed.

Lemma seen_skip z n : (List.length z < n)%nat → (List.length (skip z) < n)%nat.
Proof. pose proof (skip_length z). lia. Qed.

(** ** The values inside arrays and objects *)

(** How the parser of a value ends, in the parser of lists and in the heap. *)
Definition outcome (res : option (json * list Z)) (z : list Z) (b : parse_buffer) (item : Z) (it : cJSON) (h : heap)
    (ok : bool) (b' : parse_buffer) (h' : heap) : Prop :=
  if ok then
    ∃ v rest i kids ks, res = Some (v, rest) ∧ (List.length rest < List.length z)%nat ∧ at_input b' rest ∧ moved b b' ∧
      item_made h item it i kids h' ∧ values (strings h') kids = Some ks ∧ value_of (strings h') i ks = Some v ∧
      (all_ok h → all_ok h')
  else unchanged h h' ∧ (all_ok h → res = None).

(** A parser of values into an item, for inputs of less than [n] bytes in arrays and
    objects of depth [d]: it finds what [ref] finds and builds it, or leaves the heap
    as it was; or it writes past the end of a block. *)
Definition value_spec (mb : Z → list Z) (value : value_parser) (ref : list Z → option (json * list Z)) (d : Z) (n : nat) : Prop :=
  ∀ z item it b h,
    (List.length z < n)%nat → at_input b z → depth b = d → below h → items h !! item = Some it → quiet it →
    (value item b h = None ∧ overflows mb b) ∨
    ∃ ok b' h', value item b h = Some (ok, b', h') ∧ outcome (ref z) z b item it h ok b' h'.

(** The end of an array or object. *)
Lemma close_spec ty c v f h item it z b o b2 h1 r rest ks :
  plain ty → items h !! item = Some it → quiet it → below h → list_made h None f h1 →
  at_input b2 r → depth b2 = depth b + 1 → length b2 = length b → content b2 = content b → eat c r = Some rest → (List.length r ≤ List.length z)%nat →
  values (strings h1) f = Some ks → (∀ st a, value_of st (set_child a (set_type ty it)) ks = Some v) →
  (all_ok h → all_ok h1) →
  ∃ ok b' h', finish ty item (hd_error (siblings f)) (last (siblings f)) b2 h1 = Some (ok, b', h') ∧
    outcome (Some (v, rest)) (o :: z) b item it h ok b' h'.
Proof.
  intros Hty Hit Hq Hb L Hin Hd Hlen Hcon He Hlr Hks Hv Hok.
  destruct (finish_spec ty h item it f b2 h1) as (f' & h2 & Ef & M & Hst & Hans & Hval); try done.
  exists true, (at_offset (offset b2 + 1) (at_depth (depth b2 - 1) b2)), h2. split; [exact Ef|].
  exists v, rest, (set_child (head (siblings f)) (set_type ty it)), f', ks.
  split; [done|]. split; [apply eat_split in He; rewrite He in Hlr; cbn in *; lia|].
  split; [apply (eat_at _ _ _ _ Hin He)|]. split; [split; [cbn; lia|by split]|]. split; [done|]. rewrite Hst, Hval.
  split; [done|]. split; [apply Hv|]. unfold all_ok in *. by rewrite Hans.
Qed.

Section loops.
Context (mb : Z → list Z) (Hmb : sized mb) (value : value_parser) (ref : list Z → option (json * list Z)) (d : Z) (n : nat).
Context (Hvalue : value_spec mb value ref d n) (Href : ref [] = None).

Lemma array_loop_spec fuel z head cur b h :
  (List.length z < fuel)%nat → (List.length z < n)%nat → at_input (at_offset (offset b + 1) b) z → depth b = d →
  below h → list_state h head cur →
  (array_loop value fuel head cur b h = None ∧ overflows mb b) ∨
  ∃ ok b' h' f,
    array_loop value fuel head cur b h =
      Some (ok, b', h', or_else head (hd_error (siblings f)), or_else (last (siblings f)) cur) ∧
    list_made h cur f h' ∧
    if ok : bool then
      ∃ l rest ks, jelements ref fuel z = Some (l, rest) ∧ (List.length rest < List.length z)%nat ∧ at_input b' rest ∧ moved b b' ∧
        values (strings h') f = Some ks ∧ l = snd <$> ks ∧ (all_ok h → all_ok h')
    else all_ok h → jelements ref fuel z = None.
Proof.
  revert z head cur b h. induction fuel as [|fuel IH]; intros z hd cur b h Hf Hn Hin Hd Hb Hl; [lia|].
  cbn [array_loop jelements]. destruct (granted h) eqn:Hg.
  2: { right. rewrite new_item_spec, Hg. eexists _, _, _, FNil. split; [by destruct hd|].
       split; [|intros Hok; apply all_ok_granted in Hok; congruence].
       apply list_nil_same; cbn; try done. intros c. by apply (list_state_some h hd). }
  destruct (new_attached h hd cur Hb Hg Hl) as (h0 & h1 & -> & -> & A & Hans). cbn [mbind option_bind].
  set (new := brk h) in *. assert (Hb1 : below h1) by (eapply grown_below; [apply A|done]).
  assert (Hok1 : all_ok h → all_ok h1).
  { intros Hok. unfold all_ok. rewrite Hans. by apply (all_ok_tail h ∅ ∅ 0). }
  destruct (skip_whitespace_spec _ _ Hin) as (o & -> & Hin1). cbn [mbind option_bind]. rewrite at_offset_at in Hin1.
  destruct (Hvalue (skip z) new (set_prev cur blank) _ h1 (seen_skip _ _ Hn) Hin1 Hd Hb1 (att_item _ _ _ _ _ A) (blank_quiet cur))
    as [(Ev & Hbad)|(ok & b2 & h2 & Ev & Hv)]; rewrite at_offset_at, Ev; cbn [mbind option_bind]; [by left|]. destruct ok; cbn [negb].
  2: { right. destruct Hv as ((Ei & Es & Hbrk) & Hnone). eexists false, b2, h2, (FCons new _ FNil FNil).
       split; [by destruct hd|]. split; [by eapply list_fail|]. intros Hok. by rewrite Hnone by tauto. }
  destruct Hv as (v & rest & i & kids & ks & -> & Hlt & Hin2 & Hd2 & M & Hks & Hv & Hok2). cbn [mbind option_bind].
  destruct (skip_whitespace_spec _ _ Hin2) as (o2 & -> & Hin3). cbn [mbind option_bind].
  rewrite (at_char_spec _ _ 44 Hin3). cbn [mbind option_bind].
  assert (Hmv : moved b b2) by exact Hd2. assert (Hb2 : below h2) by (eapply grown_below; [apply M|done]).
  destruct (made_links _ _ _ _ _ _ M) as (Hnext & _ & Hstr). cbn in Hnext, Hstr.
  assert (Hkey : key_of (strings h2) i = Some None) by (unfold key_of; by rewrite Hstr).
  pose proof (skip_length z) as Hsz. pose proof (skip_length rest) as Hsr.
  assert (Hcons : ∀ f h3, list_made h2 (Some new) f h3 → list_made h cur (FCons new (set_next (head (siblings f)) i) kids f) h3).
  { intros f h3 L. eapply list_cons; [done| |exact A|exact M|exact L]. intros c. by apply (list_state_some h hd). }
  destruct (eat 44 (skip rest)) as [r|] eqn:Ee.
  - assert (Hlr : List.length (skip rest) = S (List.length r)) by (apply eat_split in Ee; by rewrite Ee).
    destruct (IH r (or_else hd (Some new)) (Some new) (at_offset o2 b2) h2) as [(Eq & Hbad)|(ok & b3 & h3 & f & Eq & L & Hr)];
      [lia|lia|by eapply eat_at|exact (eq_trans (proj1 Hmv) Hd)|done| |rewrite Eq; left; split; [done|by apply (overflows_moved _ _ _ Hmv)]|].
    { split; [by destruct hd|]. exists i. split; [apply M|done]. }
    right. rewrite Eq. eexists ok, b3, h3, (FCons new _ kids f). cbn [siblings hd_error].
    split; [by rewrite (or_else_last _ _ cur); destruct hd|]. split; [by apply Hcons|].
    destruct ok; [|intros Hok; by rewrite Hr by tauto].
    destruct Hr as (l & rest' & ks' & -> & Hlt' & Hin' & Hd' & Hks' & -> & Hok3). cbn [mbind option_bind].
    eexists _, rest', _. split; [done|]. split; [lia|]. split; [done|]. split; [by apply (moved_trans _ _ _ Hmv)|].
    split; [eapply values_cons; [eapply grown_mono; [apply L|done]|done..]|]. split; [done|tauto].
  - right. eexists true, _, h2, (FCons new _ kids FNil). split; [by destruct hd|]. split; [apply Hcons|].
    { apply list_nil. intros c [= <-]. by rewrite (made_item _ _ _ _ _ _ M). }
    eexists _, (skip rest), _. split; [done|]. split; [lia|]. split; [done|]. split; [exact Hmv|].
    split; [by eapply values_cons|]. split; [done|tauto].
Qed.

Lemma cstr_prefix (out blk : list Z) : take (List.length out + 1) blk = out ++ [0] → c_string blk = Some (cstr out).
Proof.
  intros H. rewrite <- (take_drop (List.length out + 1) blk), H, <- app_assoc. cbn [app].
  set (t := drop _ _). clearbody t. unfold c_string. clear H. revert t. induction out as [|c out IH]; intros t; [done|].
  cbn [app strlen cstr]. destruct (c =? 0); [done|]. specialize (IH t).
  destruct (strlen (out ++ 0 :: t)) as [k|] eqn:E; [|done]. cbn in *.
  assert (0 ≤ k) by (clear IH; revert k E; generalize (out ++ 0 :: t); induction l as [|x l IHl]; intros k; cbn;
                     [done|]; destruct (x =? 0); [intros [= <-]; lia|]; destruct (strlen l) as [k'|]; [|done]; cbn;
                     intros [= <-]; specialize (IHl k' eq_refl); lia).
  injection IH as IH. replace (Z.to_nat (k + 1)) with (S (Z.to_nat k)) by lia. cbn [take]. by rewrite IH.
Qed.

(** The string that is read becomes the key of the item. *)
Lemma key_attached h cur new it h1 it' blk :
  attached h cur new it h1 → string it = None → it' = set_string (Some (brk h1)) (set_type cJSON_String it) →
  attached h cur new it'
    (mkHeap (<[new := it']> (items h1)) (<[brk h1 := blk]> (strings h1)) (brk h1 + 1) (tail (answers h1))) ∧
  quiet it'.
Proof.
  intros [G Hi (Hn & Hp) (Qc & Qv & Qr & Qs) Hc] Hs ->.
  assert (Hq : quiet (set_string (Some (brk h1)) (set_type cJSON_String it))) by done.
  split; [|done]. rewrite Hs in G. cbn [olist] in G.
  assert (Hnew : brk h ≤ new) by (apply (grown_la _ _ _ _ _ G); left).
  split; try done; cbn [items strings].
  - apply (grown_trans _ _ _ _ [new] [] [new] [] [brk h1] G).
    + apply grown_string. by rewrite Hi.
    + intros a Ha. by right.
  - apply lookup_insert_eq.
  - intros c ci Ec Hci Hnc. destruct (decide (c = new)) as [->|Hne].
    + pose proof (Hc new ci Ec Hci Hnc) as H. rewrite Hi in H. exfalso. injection H as H.
      apply (f_equal next) in H. cbn in H. congruence.
    + rewrite lookup_insert_ne by done. by apply Hc.
Qed.

Lemma object_loop_spec fuel z head cur b h :
  (List.length z < fuel)%nat → (List.length z < n)%nat → at_input (at_offset (offset b + 1) b) z → depth b = d →
  below h → list_state h head cur →
  (object_loop mb value fuel head cur b h = None ∧ overflows mb b) ∨
  ∃ ok b' h' f,
    object_loop mb value fuel head cur b h =
      Some (ok, b', h', or_else head (hd_error (siblings f)), or_else (last (siblings f)) cur) ∧
    list_made h cur f h' ∧
    if ok : bool then
      ∃ l rest ks, jmembers ref fuel z = Some (l, rest) ∧ (List.length rest < List.length z)%nat ∧ at_input b' rest ∧ moved b b' ∧
        values (strings h') f = Some ks ∧ ks = (λ kv, (Some kv.1, kv.2)) <$> l ∧ (all_ok h → all_ok h')
    else all_ok h → jmembers ref fuel z = None.
Proof.
  revert z head cur b h. induction fuel as [|fuel IH]; intros z hd cur b h Hf Hn Hin Hd Hb Hl; [lia|].
  cbn [object_loop jmembers]. destruct (granted h) eqn:Hg.
  2: { right. rewrite new_item_spec, Hg. eexists _, _, _, FNil. split; [by destruct hd|].
       split; [|intros Hok; apply all_ok_granted in Hok; congruence].
       apply list_nil_same; cbn; try done. intros c. by apply (list_state_some h hd). }
  destruct (new_attached h hd cur Hb Hg Hl) as (h0 & h1 & -> & -> & A & Hans). cbn [mbind option_bind].
  set (new := brk h) in *. assert (Hb1 : below h1) by (eapply grown_below; [apply A|done]).
  assert (Hok1 : all_ok h → all_ok h1).
  { intros Hok. unfold all_ok. rewrite Hans. by apply (all_ok_tail h ∅ ∅ 0). }
  pose proof (can_access _ [] z Hin) as Ha. unfold can_access_at_index in Ha. cbn [offset length at_offset List.length] in Ha.
  change (Z.of_nat 0) with 0 in Ha. rewrite Z.add_0_r in Ha. unfold can_access_at_index. rewrite Ha.
  destruct (decide (z = [])) as [->|Hz].
  { right. rewrite bool_decide_false by tauto. cbn [negb]. eexists false, _, h1, (FCons new _ FNil FNil).
    split; [by destruct hd|]. split; [by eapply list_fail|done]. }
  rewrite bool_decide_true by done. cbn [negb].
  destruct (skip_whitespace_spec _ _ Hin) as (o & -> & Hin1). cbn [mbind option_bind]. rewrite at_offset_at in *.
  pose proof (skip_length z) as Hsz. pose proof (skip_nonempty z Hz) as Hne.
  destruct (skip z) as [|c z1] eqn:Ez; [done|]. destruct (below_fresh h1 Hb1) as (_ & Hfresh).
  destruct (parse_string_sized mb new _ _ h1 c z1 Hmb Hin1 (att_item _ _ _ _ _ A) Hfresh)
    as [(-> & Hbad)|[(o1 & k & a & -> & Hk & Hno)|(out & rest1 & b2 & blk & Hs & Hin2 & Hd2 & Hblk & ->)]]; cbn [mbind option_bind]; [by left| |].
  { right. eexists false, _, _, (FCons new _ FNil FNil). split; [by destruct hd|]. split; [by eapply list_fail|].
    intros Hok. destruct Hno as [->|Hno]; [done|]. rewrite all_ok_granted in Hno by tauto. done. }
  cbn [negb]. rewrite Hs. cbn [mbind option_bind].
  destruct (skip_whitespace_spec _ _ Hin2) as (o2 & -> & Hin3). cbn [mbind option_bind items]. rewrite lookup_insert_eq.
  cbn [mbind option_bind]. unfold upd. cbn [items]. rewrite lookup_insert_eq.
  cbn [mbind option_bind items with_items strings brk answers]. rewrite lookup_insert_eq. cbn [mbind option_bind].
  unfold with_items. cbn [items strings brk answers]. rewrite !insert_insert_eq.
  match goal with |- context [<[new:=?x]> (items h1)] => set (it3 := x) end.
  destruct (key_attached h cur new _ h1 it3 blk A eq_refl eq_refl) as (A3 & Q3). set (h3 := mkHeap _ _ _ _) in *.
  assert (Hb3 : below h3) by (eapply grown_below; [apply A3|done]).
  assert (Hok3 : all_ok h → all_ok h3) by (intros Hok; by apply all_ok_tail, Hok1).
  rewrite (at_char_spec _ _ 58 Hin3). cbn [mbind option_bind].
  destruct (eat 58 (skip rest1)) as [r1|] eqn:E1; cbn [negb mbind option_bind].
  2: { right. eexists false, _, h3, (FCons new _ FNil FNil). split; [by destruct hd|]. split; [by eapply list_fail|done]. }
  apply string_ref_shorter in Hs. cbn [List.length] in Hs, Hsz.
  assert (Hl1 : List.length (skip rest1) = S (List.length r1)) by (apply eat_split in E1; by rewrite E1).
  pose proof (skip_length rest1) as Hs1.
  destruct (skip_whitespace_spec _ _ (eat_at _ _ _ _ Hin3 E1)) as (o3 & E3 & Hin4).
  rewrite E3, !at_offset_at in *. cbn [mbind option_bind]. pose proof (skip_length r1) as Hs2.
  assert (Hd3 : depth b2 = d) by (destruct Hd2 as (-> & _); exact Hd).
  destruct (Hvalue (skip r1) new it3 (at_offset o3 b2) h3 ltac:(lia) Hin4 Hd3 Hb3 (att_item _ _ _ _ _ A3) Q3)
    as [(Ev & Hbad)|(ok & b4 & h4 & Ev & Hv)]; rewrite Ev; cbn [mbind option_bind]; [left; split; [done|by apply (overflows_moved _ _ _ Hd2)]|]. destruct ok; cbn [negb].
  2: { right. destruct Hv as ((Ei & Es & Hbrk) & Hnone). eexists false, b4, h4, (FCons new _ FNil FNil).
       split; [by destruct hd|]. split; [by eapply list_fail|]. intros Hok. by rewrite Hnone by tauto. }
  destruct Hv as (v & rest & i & kids & ks & -> & Hlt & Hin5 & Hd5 & M & Hks & Hv & Hok4). cbn [mbind option_bind].
  destruct (skip_whitespace_spec _ _ Hin5) as (o5 & -> & Hin6). cbn [mbind option_bind].
  rewrite (at_char_spec _ _ 44 Hin6). cbn [mbind option_bind].
  assert (Hmv : moved b b4) by (by apply (moved_trans _ b2)). assert (Hb4 : below h4) by (eapply grown_below; [apply M|done]).
  destruct (made_links _ _ _ _ _ _ M) as (Hnext & _ & Hstr). cbn in Hnext, Hstr.
  assert (Hkey : key_of (strings h4) i = Some (Some (cstr out))).
  { eapply key_of_mono; [eapply grown_mono; [apply M|done]|]. unfold key_of, text_at. rewrite Hstr. cbn [mbind option_bind].
    unfold h3. cbn [strings]. rewrite lookup_insert_eq. cbn [mbind option_bind]. by rewrite (cstr_prefix out). }
  pose proof (skip_length rest) as Hsr.
  assert (Hcons : ∀ f h5, list_made h4 (Some new) f h5 → list_made h cur (FCons new (set_next (head (siblings f)) i) kids f) h5).
  { intros f h5 L. eapply list_cons; [done| |exact A3|exact M|exact L]. intros x. by apply (list_state_some h hd). }
  destruct (eat 44 (skip rest)) as [r|] eqn:Ee.
  - assert (Hlr : List.length (skip rest) = S (List.length r)) by (apply eat_split in Ee; by rewrite Ee).
    destruct (IH r (or_else hd (Some new)) (Some new) (at_offset o5 b4) h4) as [(Eq & Hbad)|(ok & b5 & h5 & f & Eq & L & Hr)];
      [lia|lia|by eapply eat_at|exact (eq_trans (proj1 Hmv) Hd)|done| |rewrite Eq; left; split; [done|by apply (overflows_moved _ _ _ Hmv)]|].
    { split; [by destruct hd|]. exists i. split; [apply M|done]. }
    right. rewrite Eq. eexists ok, b5, h5, (FCons new _ kids f). cbn [siblings hd_error].
    split; [by rewrite (or_else_last _ _ cur); destruct hd|]. split; [by apply Hcons|].
    destruct ok; [|intros Hok; by rewrite Hr by tauto].
    destruct Hr as (l & rest' & ks' & -> & Hlt' & Hin' & Hd' & Hks' & -> & Hok5). cbn [mbind option_bind].
    eexists _, rest', _. split; [done|]. split; [lia|]. split; [done|]. split; [by apply (moved_trans _ _ _ Hmv)|].
    split; [eapply values_cons; [eapply grown_mono; [apply L|done]|done..]|]. split; [done|tauto].
  - right. eexists true, _, h4, (FCons new _ kids FNil). split; [by destruct hd|]. split; [apply Hcons|].
    { apply list_nil. intros x [= <-]. by rewrite (made_item _ _ _ _ _ _ M). }
    eexists _, (skip rest), _. split; [done|]. split; [lia|]. split; [done|]. split; [exact Hmv|].
    split; [by eapply values_cons|]. split; [done|tauto].
Qed.

Lemma mapM_keys (l : list (list Z * json)) :
  mapM (λ kv : option (list Z) * json, k ← kv.1; Some (k, kv.2)) ((λ kv, (Some kv.1, kv.2)) <$> l) = Some l.
Proof. induction l as [|[k v] l IH]; [done|]. rewrite fmap_cons. cbn [mapM fst snd mbind option_bind]. by rewrite IH. Qed.

Lemma parse_array_spec fuel z item it b h :
  (List.length z < fuel)%nat → (List.length z < n)%nat → at_input b (91 :: z) → depth b + 1 = d → depth b < CJSON_NESTING_LIMIT →
  below h → items h !! item = Some it → quiet it →
  (parse_array value fuel item b h = None ∧ overflows mb b) ∨
  ∃ ok b' h', parse_array value fuel item b h = Some (ok, b', h') ∧
    outcome (jarray ref fuel z) (91 :: z) b item it h ok b' h'.
Proof.
  intros Hf Hn Hin Hd Hlim Hb Hit Hq. unfold parse_array, jarray. destruct (Z.leb_spec CJSON_NESTING_LIMIT (depth b)); [lia|].
  assert (Hin0 : at_input (at_depth (depth b + 1) b) (91 :: z)) by exact Hin.
  rewrite (buffer_at_0 _ _ _ Hin0). cbn [mbind option_bind]. change (negb (91 =? 91)) with false. cbv iota.
  pose proof (at_input_drop _ [91] z Hin0) as Hin1.
  destruct (skip_whitespace_spec _ _ Hin1) as (o & E & Hin2). change (zlen [91]) with 1 in E, Hin2.
  rewrite E, !at_offset_at in *. cbn [mbind option_bind]. rewrite (at_char_spec _ _ 93 Hin2). cbn [mbind option_bind].
  pose proof (skip_length z) as Hsz. set (b1 := at_offset o (at_depth (depth b + 1) b)) in *.
  destruct (eat 93 (skip z)) as [rest|] eqn:Ee.
  { right. by apply (close_spec cJSON_Array 93 _ FNil h item it z b 91 b1 h (skip z) rest []); try apply list_nil. }
  pose proof (can_access _ [] _ Hin2) as Ha. change (zlen []) with 0 in Ha. rewrite Ha.
  destruct (decide (skip z = [])) as [Hnil|Hne].
  { right. rewrite bool_decide_false by tauto. cbn [negb]. eexists false, _, h. split; [done|]. split; [done|].
    intros _. rewrite Hnil. destruct fuel; [done|]. cbn [jelements]. change (skip []) with (@nil Z). by rewrite Href. }
  rewrite bool_decide_true by done. cbn [negb].
  destruct (array_loop_spec fuel (skip z) None None (at_offset (offset b1 - 1) b1) h) as [(El & Hbad)|(ok & b2 & h1 & f & El & L & Hr)];
    [lia|lia| |done|done|done|rewrite El; by left|].
  { cbn [offset at_offset]. rewrite at_offset_at, Z.sub_add, at_offset_same. done. }
  right.   cbn [or_else] in El. replace (or_else (last (siblings f)) None) with (last (siblings f)) in El by (by destruct (last _)).
  rewrite El. cbn [mbind option_bind]. destruct ok.
  2: { destruct (abandon_spec h f b2 h1 Hb L) as (h2 & Ea & Hun). cbn [mbind option_bind]. rewrite Ea.
       eexists false, b2, h2. split; [done|]. split; [done|]. intros Hok. by rewrite Hr. }
  destruct Hr as (l & rest & ks & -> & Hlt & Hin3 & Hd3 & Hks & -> & Hok). cbn [mbind option_bind].
  assert (Hd4 : depth b2 = depth b + 1) by exact (proj1 Hd3). assert (Hl4 : length b2 = length b ∧ content b2 = content b) by exact (proj2 Hd3). destruct Hl4 as (Hl4 & Hc4).
  rewrite (at_char_spec _ _ 93 Hin3). cbn [mbind option_bind].
  destruct (eat 93 rest) as [rest'|] eqn:Ee'; cbn [mbind option_bind].
  - apply (close_spec cJSON_Array 93 _ f h item it z b 91 b2 h1 rest rest' ks); done || lia.
  - destruct (abandon_spec h f b2 h1 Hb L) as (h2 & Ea & Hun). rewrite Ea. eexists false, b2, h2. done.
Qed.

Lemma parse_object_spec fuel z item it b h :
  (List.length z < fuel)%nat → (List.length z < n)%nat → at_input b (123 :: z) → depth b + 1 = d → depth b < CJSON_NESTING_LIMIT →
  below h → items h !! item = Some it → quiet it →
  (parse_object mb value fuel item b h = None ∧ overflows mb b) ∨
  ∃ ok b' h', parse_object mb value fuel item b h = Some (ok, b', h') ∧
    outcome (jobject ref fuel z) (123 :: z) b item it h ok b' h'.
Proof.
  intros Hf Hn Hin Hd Hlim Hb Hit Hq. unfold parse_object, jobject. destruct (Z.leb_spec CJSON_NESTING_LIMIT (depth b)); [lia|].
  assert (Hin0 : at_input (at_depth (depth b + 1) b) (123 :: z)) by exact Hin.
  rewrite (at_char_spec _ _ 123 Hin0). cbn [eat]. change (123 =? 123) with true. cbn [mbind option_bind negb].
  pose proof (at_input_drop _ [123] z Hin0) as Hin1.
  destruct (skip_whitespace_spec _ _ Hin1) as (o & E & Hin2). change (zlen [123]) with 1 in E, Hin2.
  rewrite E, !at_offset_at in *. cbn [mbind option_bind]. rewrite (at_char_spec _ _ 125 Hin2). cbn [mbind option_bind].
  pose proof (skip_length z) as Hsz. set (b1 := at_offset o (at_depth (depth b + 1) b)) in *.
  destruct (eat 125 (skip z)) as [rest|] eqn:Ee.
  { right. by apply (close_spec cJSON_Object 125 _ FNil h item it z b 123 b1 h (skip z) rest []); try apply list_nil. }
  pose proof (can_access _ [] _ Hin2) as Ha. change (zlen []) with 0 in Ha. rewrite Ha.
  destruct (decide (skip z = [])) as [Hnil|Hne].
  { right. rewrite bool_decide_false by tauto. cbn [negb]. eexists false, _, h. split; [done|]. split; [done|].
    intros _. rewrite Hnil. by destruct fuel. }
  rewrite bool_decide_true by done. cbn [negb].
  destruct (object_loop_spec fuel (skip z) None None (at_offset (offset b1 - 1) b1) h) as [(El & Hbad)|(ok & b2 & h1 & f & El & L & Hr)];
    [lia|lia| |done|done|done|rewrite El; by left|].
  { cbn [offset at_offset]. rewrite at_offset_at, Z.sub_add, at_offset_same. done. }
  right.   cbn [or_else] in El. replace (or_else (last (siblings f)) None) with (last (siblings f)) in El by (by destruct (last _)).
  rewrite El. cbn [mbind option_bind]. destruct ok.
  2: { destruct (abandon_spec h f b2 h1 Hb L) as (h2 & Ea & Hun). cbn [mbind option_bind]. rewrite Ea.
       eexists false, b2, h2. split; [done|]. split; [done|]. intros Hok. by rewrite Hr. }
  destruct Hr as (l & rest & ks & -> & Hlt & Hin3 & Hd3 & Hks & -> & Hok). cbn [mbind option_bind].
  assert (Hd4 : depth b2 = depth b + 1) by exact (proj1 Hd3). assert (Hl4 : length b2 = length b ∧ content b2 = content b) by exact (proj2 Hd3). destruct Hl4 as (Hl4 & Hc4).
  rewrite (at_char_spec _ _ 125 Hin3). cbn [mbind option_bind].
  destruct (eat 125 rest) as [rest'|] eqn:Ee'; cbn [mbind option_bind].
  - eapply (close_spec cJSON_Object 125 _ f h item it z b 123 b2 h1 rest rest'); try done; [lia|].
    intros st a. unfold value_of. cbn [type set_child set_type]. cbv zeta. change (Z.land cJSON_Object 0xFF) with cJSON_Object.
    cbn [Z.eqb]. rewrite mapM_keys. done.
  - destruct (abandon_spec h f b2 h1 Hb L) as (h2 & Ea & Hun). rewrite Ea. eexists false, b2, h2. done.
Qed.
End loops.

(** ** All values *)

(** An item without children has got its value. *)
Lemma scalar_outcome v rest z b item it i h b' h' :
  below h → items h !! item = Some it → (List.length rest < List.length z)%nat → at_input b' rest → moved b b' →
  items h' = <[item := i]> (items h) → strings h' = strings h → brk h ≤ brk h' →
  next i = next it ∧ prev i = prev it ∧ string i = string it → child i = None → valuestring i = None → 
  has cJSON_IsReference i = false ∧ has cJSON_StringIsConst i = false → value_of (strings h) i [] = Some v →
  (all_ok h → all_ok h') → outcome (Some (v, rest)) z b item it h true b' h'.
Proof.
  intros Hb Hit Hlt Hin Hd Ei Es Hbrk Hl Hc Hv Hf Hval Hok.
  exists v, rest, i, FNil, []. split_and!; try done; rewrite ?Es; try done.
  split; try done; cbn [addrs strs app]; rewrite ?Ei, ?Hv; try done; [|apply lookup_insert_eq].
  split; try done; try apply NoDup_nil_2.
  - intros a _ Ha. rewrite Ei. apply lookup_insert_ne. intros <-. apply Ha. left.
  - intros a Ha. apply list_elem_of_singleton in Ha as ->. by rewrite Hit.
  - intros s _. by rewrite Es.
  - intros a Ha. by apply elem_of_nil in Ha.
  - intros a Ha. by apply elem_of_nil in Ha.
Qed.

Lemma strip_at b w z r : at_input b z → strip w z = Some r → at_input (at_offset (offset b + zlen w) b) r.
Proof. intros Hin ->%strip_split. by apply at_input_drop. Qed.

Lemma jvalue_nil fuel d : jvalue fuel d [] = None.
Proof. by destruct fuel. Qed.

Lemma string_outcome mb z item it b h :
  sized mb → at_input b (34 :: z) → below h → items h !! item = Some it → quiet it →
  (parse_string mb item b h = None ∧ overflows mb b) ∨
  ∃ ok b' h', parse_string mb item b h = Some (ok, b', h') ∧
    outcome ('(s, r) ← string_ref (34 :: z); Some (JString (cstr s), r)) (34 :: z) b item it h ok b' h'.
Proof.
  intros Hmb Hin Hb Hit (Qc & Qv & Qr & Qs). destruct (below_fresh h Hb) as (_ & Hfresh).
  destruct (parse_string_sized mb item it b h 34 z Hmb Hin Hit Hfresh)
    as [H|[(o1 & k & a & -> & Hk & Hno)|(out & rest & b' & blk & Hs & Hin' & Hd & Hblk & ->)]]; [by left|right|right].
  - eexists false, _, _. split; [done|]. split; [done|]. intros Hok. destruct Hno as [->|Hno]; [done|].
    by rewrite all_ok_granted in Hno.
  - rewrite Hs. cbn [mbind option_bind]. eexists true, b', _. split; [done|].
    eexists _, rest, (set_valuestring (Some (brk h)) (set_type cJSON_String it)), FNil, [].
    split; [done|]. split; [by apply string_ref_shorter in Hs|]. split; [done|]. split; [done|].
    split; [|split; [done|split; [|apply all_ok_tail]]].
    + split; cbn [items strs addrs app olist valuestring set_valuestring]; try done; [|apply lookup_insert_eq].
      apply grown_string. by rewrite Hit.
    + unfold value_of. cbn [type set_valuestring set_type]. cbv zeta. change (Z.land cJSON_String 0xFF) with cJSON_String.
      cbn [Z.eqb valuestring set_valuestring set_type]. unfold text_at. cbn [mbind option_bind strings]. rewrite lookup_insert_eq.
      cbn [mbind option_bind]. by rewrite (cstr_prefix out).
Qed.

Lemma number_outcome mb z item it b h :
  sized mb → at_input b z → below h → items h !! item = Some it → quiet it →
  ∃ ok b' h', parse_number mb item b h = Some (ok, b', h') ∧
    outcome ('(d, r) ← number_ref z; Some (JNumber d, r)) z b item it h ok b' h'.
Proof.
  intros Hmb Hin Hb Hit (Qc & Qv & Qr & Qs). destruct (below_fresh h Hb) as (_ & Hfresh).
  destruct (parse_number_spec mb item it b h z Hmb Hin Hit Hfresh)
    as [(k & a & -> & Hk & _ & Hno)|(dd & m & rest & b' & Hs & Hm & Hin' & Hd & ->)].
  - eexists false, _, _. split; [done|]. split; [done|]. intros Hok. destruct Hno as [->|Hno]; [done|].
    by rewrite all_ok_granted in Hno.
  - rewrite Hs. cbn [mbind option_bind]. eexists true, b', _. split; [done|].
    apply (scalar_outcome _ _ _ _ _ _ (set_type cJSON_Number (set_number dd m it))); try done.
    + by apply number_ref_shorter in Hs.
    + cbn. lia.
    + unfold value_of. cbn [type set_type]. cbv zeta. change (Z.land cJSON_Number 0xFF) with cJSON_Number.
      cbn [Z.eqb valuedouble valueint set_number set_type]. by rewrite bool_decide_true.
    + apply all_ok_tail.
Qed.

Lemma parse_value_spec mb fuel d :
  sized mb → value_spec mb (parse_value mb fuel) (jvalue fuel d) d fuel.
Proof.
  intros Hmb. revert d. induction fuel as [|fuel IH]; intros d z item it b h Hf Hin Hd Hb Hit Hq; [lia|].
  cbn [parse_value jvalue]. assert (Hq' := Hq). destruct Hq' as (Qc & Qv & Qr & Qs).
  rewrite (at_word_spec b z word_null) by done. cbn [mbind option_bind].
  destruct (strip word_null z) as [r|] eqn:E1.
  { right. destruct (upd_grown item (set_type cJSON_NULL) h it Hit) as (-> & _). cbn [mbind option_bind].
    eexists true, _, _. split; [done|]. apply (scalar_outcome _ _ _ _ _ it (set_type cJSON_NULL it)); try done.
    - apply strip_split in E1 as ->. rewrite length_app. cbn. lia.
    - by apply (strip_at b word_null z). }
  rewrite (at_word_spec b z word_false) by done. cbn [mbind option_bind].
  destruct (strip word_false z) as [r|] eqn:E2.
  { right. destruct (upd_grown item (set_type cJSON_False) h it Hit) as (-> & _). cbn [mbind option_bind].
    eexists true, _, _. split; [done|]. apply (scalar_outcome _ _ _ _ _ it (set_type cJSON_False it)); try done.
    - apply strip_split in E2 as ->. rewrite length_app. cbn. lia.
    - by apply (strip_at b word_false z). }
  rewrite (at_word_spec b z word_true) by done. cbn [mbind option_bind].
  destruct (strip word_true z) as [r|] eqn:E3.
  { right. destruct (upd_grown item (set_type cJSON_True) h it Hit) as (-> & _). cbn [mbind option_bind].
    unfold upd. cbn [items with_items]. rewrite lookup_insert_eq. cbn [mbind option_bind].
    eexists true, _, _. split; [done|].
    apply (scalar_outcome _ _ _ _ _ it (set_valueint 1 (set_type cJSON_True it))); try done.
    - apply strip_split in E3 as ->. rewrite length_app. cbn. lia.
    - by apply (strip_at b word_true z).
    - cbn [items with_items]. by rewrite insert_insert_eq. }
  rewrite (at_char_spec _ _ 34 Hin). cbn [mbind option_bind].
  destruct z as [|c r]; cbn [eat mbind option_bind].
  { unfold at_number. pose proof (can_access b [] [] Hin) as Ha. change (zlen []) with 0 in Ha. rewrite Ha.
    rewrite bool_decide_false by tauto. cbn [mbind option_bind].
    rewrite (at_char_spec _ _ 91 Hin). cbn [mbind option_bind eat]. rewrite (at_char_spec _ _ 123 Hin). cbn [mbind option_bind eat].
    right. by eexists false, b, h. }
  rewrite <- Hd. destruct (Z.eqb_spec c 34) as [->|_]; [by apply string_outcome|].
  assert (Hnum : at_number b = Some ((c =? 45) || is_digit c)).
  { unfold at_number. pose proof (can_access b [] _ Hin) as Ha. change (zlen []) with 0 in Ha. rewrite Ha.
    rewrite bool_decide_true, (buffer_at_0 _ _ _ Hin) by done. done. }
  rewrite Hnum. cbn [mbind option_bind]. destruct ((c =? 45) || is_digit c); [right; by apply number_outcome|].
  rewrite (at_char_spec _ _ 91 Hin). cbn [mbind option_bind eat]. cbn [List.length] in Hf.
  destruct (Z.eqb_spec c 91) as [->|_].
  { destruct (Z.leb_spec CJSON_NESTING_LIMIT (depth b)) as [Hl|Hl].
    - unfold parse_array. destruct (Z.leb_spec CJSON_NESTING_LIMIT (depth b)); [|lia]. right. by eexists false, b, h.
    - apply (parse_array_spec mb _ _ (depth b + 1) fuel); first [done|lia|apply IH|apply jvalue_nil]. }
  rewrite (at_char_spec _ _ 123 Hin). cbn [mbind option_bind eat].
  destruct (Z.eqb_spec c 123) as [->|_]; [|right; by eexists false, b, h].
  destruct (Z.leb_spec CJSON_NESTING_LIMIT (depth b)) as [Hl|Hl].
  - unfold parse_object. destruct (Z.leb_spec CJSON_NESTING_LIMIT (depth b)); [|lia]. right. by eexists false, b, h.
  - apply (parse_object_spec mb Hmb _ _ (depth b + 1) fuel); first [done|lia|apply IH|apply jvalue_nil].
Qed.

(** ** Entry points *)

(** A tree at the address [a] that stands for [v], made since [h]. *)
Record tree_made (h : heap) (a : Z) (f : forest) (v : json) (h' : heap) : Prop := TreeMade {
  tree_grown : grown h h' [] (addrs f) (strs f);
  tree_holds : holds (items h') (Some a) f;
  tree_wired : wired None f;
  tree_value : values (strings h') f = Some [(None, v)] }.

Lemma grown_unchanged h h' : items h' = items h → strings h' = strings h → brk h ≤ brk h' → grown h h' [] [] [].
Proof.
  intros Ei Es Hb. split; try done; try apply NoDup_nil_2; [intros a _ _; by rewrite Ei| |intros s _; by rewrite Es|..];
    intros a Ha; by apply elem_of_nil in Ha.
Qed.

(** The value of an item that has just been allocated. *)
Lemma item_tree h h0 item i kids h1 ks v :
  grown h h0 [] [item] [] → item_made h0 item blank i kids h1 → values (strings h1) kids = Some ks →
  value_of (strings h1) i ks = Some v → tree_made h item (FCons item i kids FNil) v h1.
Proof.
  intros G0 [G Hi (Hn & Hp & Hs) (Hf1 & Hf2) Hh Hw] Hks Hv. cbn in Hn, Hp, Hs. split.
  - cbn [addrs strs]. unfold own_strings. rewrite Hf1, Hf2, Hs. rewrite !app_nil_r.
    apply (grown_trans h h0 h1 [] [item] [] [item] _ _ G0 G). intros a Ha. by right.
  - cbn [holds]. by rewrite Hf1, Hn.
  - cbn [wired]. done.
  - cbn [values]. rewrite Hks. cbn [mbind option_bind]. rewrite Hv. cbn [mbind option_bind]. unfold key_of. by rewrite Hs.
Qed.

(** [fail:] gives back what there is. *)
Lemma parse_failure_spec h item f text n o h1 :
  below h → grown h h1 [] (addrs f) (strs f) → holds (items h1) (Some item) f →
  ∃ r h2, parse_failure (Some item) (Some text) n o h1 = Some (r, h2) ∧ root r = None ∧
    items h2 = items h ∧ strings h2 = strings h.
Proof.
  intros Hb G Hh. unfold parse_failure. destruct (delete_grown h f h1 (Some item) Hb G Hh) as (h2 & -> & Hi & Hs & _).
  by eexists _, h2.
Qed.

Lemma skip_utf8_bom_spec b z :
  at_input b z → offset b = 0 →
  ∃ o, skip_utf8_bom b = Some (Some (at_offset o b)) ∧
    at_input (at_offset o b) (if 4 <? zlen z then default z (strip byte_order_mark z) else z).
Proof.
  intros Hin Ho. unfold skip_utf8_bom. destruct (Z.eqb_spec (offset b) 0); [|done]. cbn [negb]. unfold can_access_at_index.
  assert (Hl : length b = offset b + zlen z) by (destruct Hin as (p & ? & _ & -> & ->); done).
  replace (offset b + 4 <? length b) with (4 <? zlen z) by (rewrite Hl, Ho; done).
  assert (Hsame : at_input (at_offset (offset b) b) z) by (by rewrite at_offset_same).
  destruct (Z.ltb_spec 4 (zlen z)) as [H4|H4].
  - change [0xEF; 0xBB; 0xBF] with byte_order_mark. rewrite (starts_with_spec b z) by (done || (cbn [byte_order_mark List.length]; lia)).
    cbn [mbind option_bind]. destruct (strip byte_order_mark z) as [r|] eqn:E; cbn [default].
    + exists (offset b + 3). split; [done|]. by apply (strip_at b byte_order_mark z).
    + exists (offset b). by rewrite at_offset_same.
  - exists (offset b). cbn [mbind option_bind]. by rewrite at_offset_same.
Qed.

Lemma parse_made mb text n null_terminated h :
  sized mb → below h → 0 ≤ n ≤ zlen text →
  (cJSON_ParseWithLengthOpts mb (Some text) n null_terminated h = None ∧ overflowing mb (take (Z.to_nat n) text)) ∨
  ∃ r h', cJSON_ParseWithLengthOpts mb (Some text) n null_terminated h = Some (r, h') ∧
    match root r with
    | Some a => ∃ f v rest, jtext null_terminated (take (Z.to_nat n) text) = Some (v, rest) ∧ tree_made h a f v h' ∧
                  error_position r = Some None ∧ parse_end r = Some (n - zlen rest) ∧ (all_ok h → all_ok h')
    | None => items h' = items h ∧ strings h' = strings h ∧
              (all_ok h → jtext null_terminated (take (Z.to_nat n) text) = None)
    end.
Proof.
  intros Hmb Hb Hn. unfold cJSON_ParseWithLengthOpts.
  destruct (Z.eqb_spec n 0) as [ -> |Hn0]; [right; by eexists _, _|].
  rewrite new_item_spec. destruct (granted h) eqn:Hg.
  2: { right. eexists _, _. split; [done|]. split; [done|]. split; [done|]. intros Hok. by rewrite all_ok_granted in Hg. }
  set (h0 := mkHeap _ _ _ _). set (item := brk h). pose proof (grown_item h _ eq_refl) as G0. fold h0 in G0.
  assert (Hi0 : items h0 !! item = Some blank) by apply lookup_insert_eq.
  set (z := take (Z.to_nat n) text). assert (Hz : zlen z = n) by (unfold z; rewrite length_take; lia).
  assert (Hin : at_input (mkBuffer text n 0 0) z).
  { exists [], (drop (Z.to_nat n) text). cbn [content offset length app]. split; [unfold z; by rewrite take_drop|]. split; [done|]. cbn. lia. }
  destruct (skip_utf8_bom_spec _ z Hin eq_refl) as (o1 & -> & Hin1). cbn [mbind option_bind]. unfold jtext.
  set (z1 := if 4 <? zlen z then _ else z) in *.
  destruct (skip_whitespace_spec _ _ Hin1) as (o2 & -> & Hin2). cbn [mbind option_bind]. rewrite at_offset_at in *.
  set (b2 := at_offset o2 _) in *. pose proof (at_input_fuel _ _ Hin2) as Hfuel. cbn [content at_offset] in Hfuel.
  change (content b2) with text in Hfuel.
  destruct (parse_value_spec mb (parse_fuel (List.length text)) 0 Hmb (skip z1) item blank b2 h0) as [(-> & Hbad)|(ok & b3 & h1 & -> & Hout)];
    [exact Hfuel|done|done|by eapply grown_below|done|done|by left|]. right.
  cbn [mbind option_bind]. pose proof (skip_length z1) as Hs1.
  rewrite (jvalue_fuel _ (S (List.length z1))) in Hout by (unfold parse_fuel; lia).
  assert (Hok0 : all_ok h → all_ok h0) by (intros Hok; by apply all_ok_tail).
  destruct ok; cbn [negb].
  2: { destruct Hout as ((Ei & Es & Hbrk) & Hnone).
       destruct (parse_failure_spec h item (FCons item blank FNil FNil) text (length b3) (offset b3) h1) as (r & h' & -> & Hr & H1 & H2).
       - done.
       - apply (grown_trans h h0 h1 [] [item] [] [] [] [] G0); [by apply grown_unchanged|]. intros a Ha. by apply elem_of_nil in Ha.
       - cbn. by rewrite Ei.
       - exists r, h'. rewrite Hr. split; [done|]. split; [done|]. split; [done|]. intros Hok. by rewrite Hnone by tauto. }
  destruct Hout as (v & rest & i & kids & ks & Hv & Hlt & Hin3 & (_ & Hlen & _) & M & Hks & Hvi & Hok1).
  rewrite Hv. cbn [mbind option_bind]. pose proof (item_tree h h0 item i kids h1 ks v G0 M Hks Hvi) as T.
  assert (Hend : ∀ o r, at_input (at_offset o b3) r → o = n - zlen r).
  { intros o r (p & tl & _ & Eo & El). cbn [offset length at_offset] in Eo, El. cbn [length at_offset] in Hlen.
    change (length b2) with n in Hlen. lia. }
  assert (Hmade : ∀ o r, at_input (at_offset o b3) r → ∃ f v' rest', Some (v, r) = Some (v', rest') ∧
    tree_made h item f v' h1 ∧ Some (@None Z) = Some None ∧ Some o = Some (n - zlen rest') ∧ (all_ok h → all_ok h1)).
  { intros o r Hr. exists (FCons item i kids FNil), v, r. split; [done|]. split; [done|]. split; [done|].
    split; [f_equal; by apply Hend|tauto]. }
  destruct null_terminated.
  2: { eexists _, h1. split; [done|]. apply Hmade. by rewrite at_offset_same. }
  destruct (skip_whitespace_spec _ _ Hin3) as (o4 & -> & Hin4). cbn [mbind option_bind].
  pose proof (can_access _ [] _ Hin4) as Ha. change (zlen []) with 0 in Ha.
  assert (Hended : (if length (at_offset o4 b3) <=? offset (at_offset o4 b3) then Some false
                    else c ← buffer_at (at_offset o4 b3) 0; Some (c =? 0)) =
                   Some (match skip rest with c :: _ => c =? 0 | [] => false end)).
  { unfold can_access_at_index in Ha. rewrite Z.add_0_r in Ha. rewrite Z.leb_antisym, Ha.
    destruct (skip rest) as [|c r]; [by rewrite bool_decide_false by tauto|]. rewrite bool_decide_true by done. cbn [negb].
    by rewrite (buffer_at_0 _ _ _ Hin4). }
  rewrite Hended. cbn [mbind option_bind].
  assert (Hbad : ∃ r h', parse_failure (Some item) (Some text) (length (at_offset o4 b3)) (offset (at_offset o4 b3)) h1 = Some (r, h') ∧
    root r = None ∧ items h' = items h ∧ strings h' = strings h).
  { apply (parse_failure_spec h item (FCons item i kids FNil)); [done|apply T|apply T]. }
  destruct Hbad as (r & h' & Hbad & Hr & H1 & H2).
  destruct (skip rest) as [|c r'] eqn:Er; [|destruct (c =? 0)].
  - rewrite Hbad. exists r, h'. by rewrite Hr.
  - eexists _, h1. split; [done|]. by apply Hmade.
  - rewrite Hbad. exists r, h'. by rewrite Hr.
Qed.

(** With a byte to spare in every block there is always a result. *)
Lemma parse_made_roomy mb text n null_terminated h :
  roomy mb → below h → 0 ≤ n ≤ zlen text →
  ∃ r h', cJSON_ParseWithLengthOpts mb (Some text) n null_terminated h = Some (r, h') ∧
    match root r with
    | Some a => ∃ f v rest, jtext null_terminated (take (Z.to_nat n) text) = Some (v, rest) ∧ tree_made h a f v h' ∧
                  error_position r = Some None ∧ parse_end r = Some (n - zlen rest) ∧ (all_ok h → all_ok h')
    | None => items h' = items h ∧ strings h' = strings h ∧
              (all_ok h → jtext null_terminated (take (Z.to_nat n) text) = None)
    end.
Proof. intros Hmb Hb Hn. destruct (parse_made mb text n null_terminated h (roomy_sized _ Hmb) Hb Hn) as [(_ & H)|H]; [by destruct (roomy_never _ _ Hmb H)|done]. Qed.

(** C2: With any [malloc] that gives blocks of at least the size asked for, for every text, every length inside it and every outcome of the requests,
    cJSON_ParseWithLengthOpts returns, unless the text has a string literal without a [\u] escape whose block has no byte more than
    [parse_string] asks for: then it may write past the end of that block and have no result. When it returns an item,
    the heap has got exactly one new tree, well linked and under that item, which
    stands for the value that the parser of lists reads in the text, and the end that is
    reported is where that parser stops; otherwise the items and strings are what they
    were (nothing leaks and nothing else is freed), and unless a request for memory
    was refused the text has no value. *)
Theorem parse_correct mb text n null_terminated h :
  sized mb → below h → 0 ≤ n ≤ zlen text →
  match cJSON_ParseWithLengthOpts mb (Some text) n null_terminated h with
  | None => overflowing mb (take (Z.to_nat n) text)
  | Some (r, h') =>
      match root r with
      | Some a => ∃ f v rest, jtext null_terminated (take (Z.to_nat n) text) = Some (v, rest) ∧ tree_made h a f v h' ∧
                    error_position r = Some None ∧ parse_end r = Some (n - zlen rest) ∧ (all_ok h → all_ok h')
      | None => items h' = items h ∧ strings h' = strings h ∧
                (all_ok h → jtext null_terminated (take (Z.to_nat n) text) = None)
      end
  end.
Proof. intros Hmb Hb Hn. by destruct (parse_made mb text n null_terminated h Hmb Hb Hn) as [(-> & H)|(r & h' & -> & H)]. Qed.

(** ** Using and deleting what was parsed *)

(** The item [x] stands for [v]. *)
Definition stands_for (h : heap) (x : Z) (v : json) : Prop :=
  ∃ i kids ks, items h !! x = Some i ∧ holds (items h) (child i) kids ∧ values (strings h) kids = Some ks ∧
    value_of (strings h) i ks = Some v.

Lemma siblings_addrs f a : a ∈ siblings f → a ∈ addrs f.
Proof.
  induction f as [|b i kids _ rest IH]; cbn [siblings addrs]; [by intros H|]. intros H.
  apply elem_of_cons in H as [ -> |H]; [left|]. right. apply elem_of_app. right. by apply IH.
Qed.

Lemma siblings_NoDup f : NoDup (addrs f) → NoDup (siblings f).
Proof.
  induction f as [|b i kids _ rest IH]; cbn [siblings addrs]; [done|]. rewrite !NoDup_cons, NoDup_app.
  intros (Hb & _ & _ & Hr). split; [|by apply IH]. intros H. apply Hb, elem_of_app. right. by apply siblings_addrs.
Qed.

(** The links along siblings. *)
Lemma siblings_linked m p q f k x :
  holds m q f → wired p f → siblings f !! k = Some x →
  ∃ i, m !! x = Some i ∧ next i = siblings f !! S k ∧ prev i = match k with O => p | S k => siblings f !! k end.
Proof.
  revert p q k. induction f as [|b i kids _ rest IH]; intros p q k; cbn [holds wired siblings]; [done|].
  intros (-> & Hi & _ & Hr) (Hp & _ & _ & Hw). destruct k as [|k]; cbn [lookup list_lookup].
  - intros [= <-]. exists i. split; [done|]. split; [|done]. destruct rest as [|c j ck cr]; cbn in *; [done|]. by destruct Hr.
  - intros Hk. destruct (IH _ _ _ Hr Hw Hk) as (j & Hj & Hn & Hpj). exists j. split; [done|]. split; [done|].
    rewrite Hpj. by destruct k.
Qed.

(** The children of an item of a tree are a list of the kind that the operations keep. *)
Lemma tree_array m a i kids :
  m !! a = Some i → holds m (child i) kids → wired (last (siblings kids)) kids → NoDup (a :: addrs kids) →
  is_array m a (siblings kids).
Proof.
  intros Hi Hh Hw Hn. apply NoDup_cons in Hn as (Ha & Hn). split; [|split; [|split]].
  - exists i. split; [done|]. destruct kids; cbn in Hh; [done|]. by destruct Hh.
  - intros H. by apply Ha, siblings_addrs.
  - by apply siblings_NoDup.
  - intros k x Hk. destruct (siblings_linked _ _ _ _ _ _ Hh Hw Hk) as (j & Hj & Hnx & Hp).
    exists j. split; [done|]. split; [done|]. by rewrite Hp; destruct k.
Qed.

Lemma values_nth h p q f ks k key v :
  holds (items h) q f → wired p f → values (strings h) f = Some ks → ks !! k = Some (key, v) →
  ∃ x i, siblings f !! k = Some x ∧ items h !! x = Some i ∧ key_of (strings h) i = Some key ∧ stands_for h x v.
Proof.
  revert p q ks k. induction f as [|b i kids _ rest IH]; intros p q ks k; cbn [holds wired values siblings].
  { intros _ _ [= <-]. done. }
  intros (-> & Hi & Hk & Hr) (_ & Hf & _ & Hw) Hv Hks. inv_bind. subst. rewrite Hf in Hk.
  destruct k as [|k]; cbn in Hks.
  - injection Hks as [= -> ->]. exists b, i. split; [done|]. split; [done|]. split; [done|]. by exists i, kids, x.
  - by apply (IH (Some b) (next i) x2 k).
Qed.

Lemma values_length st f ks : values st f = Some ks → List.length (siblings f) = List.length ks.
Proof.
  revert ks. induction f as [|b i kids _ rest IH]; intros ks; cbn [values siblings]; [by intros [= <-]|].
  intros H. inv_bind. subst. cbn [List.length]. f_equal. by apply IH.
Qed.

(** The keys and values inside a value. *)
Definition members (v : json) : list (option (list Z) * json) :=
  match v with
  | JArray l => (λ v, (None, v)) <$> l
  | JObject l => (λ kv, (Some kv.1, kv.2)) <$> l
  | _ => []
  end.

Lemma mapM_keys_inv (ks : list (option (list Z) * json)) l :
  mapM (λ kv : option (list Z) * json, k ← kv.1; Some (k, kv.2)) ks = Some l → ks = (λ kv, (Some kv.1, kv.2)) <$> l.
Proof.
  revert l. induction ks as [|[k v] ks IH]; intros l; [by intros [= <-]|]. cbn [mapM fst snd]. intros H.
  destruct k as [k|]; [|done]. cbn [mbind option_bind] in H.
  destruct (mapM _ ks) as [l'|] eqn:E; [|done]. cbn in H. injection H as <-. rewrite fmap_cons. f_equal. by apply IH.
Qed.

(** The values of the children; their keys too, in an object. *)
Lemma value_of_members st i ks v k key w :
  value_of st i ks = Some v → members v !! k = Some (key, w) →
  List.length (members v) = List.length ks ∧ ∃ key', ks !! k = Some (key', w) ∧ (key = None ∨ key' = key).
Proof.
  unfold value_of. cbv zeta. intros Hv Hm.
  repeat (match type of Hv with (if ?c then _ else _) = _ => destruct c end); try done.
  all: try (injection Hv as <-; done).
  - apply fmap_Some in Hv as (t & _ & ->). done.
  - injection Hv as <-. cbn [members] in *. rewrite length_fmap. split; [by rewrite length_fmap|].
    rewrite list_lookup_fmap in Hm. apply fmap_Some in Hm as (w' & Hw & [= -> ->]).
    rewrite list_lookup_fmap in Hw. apply fmap_Some in Hw as ([key' w''] & Hw & ->). exists key'. split; [done|by left].
  - apply fmap_Some in Hv as (l & Hl & ->). apply mapM_keys_inv in Hl as ->. cbn [members] in *. split; [done|].
    exists key. split; [done|by right].
Qed.

(** C26: Parsing leaks nothing and frees nothing twice, whatever the text and the answers of the allocator, with blocks of at least the size asked
    for: deleting what cJSON_ParseWithLengthOpts returned, an item or NULL, succeeds and
    gives back exactly the items and strings that there were before. The only case without a result is that of a
    string literal, without a [\u] escape, whose block has no byte more than [parse_string] asks for. *)
Theorem parse_delete mb text n null_terminated h :
  sized mb → below h → 0 ≤ n ≤ zlen text →
  match cJSON_ParseWithLengthOpts mb (Some text) n null_terminated h with
  | None => overflowing mb (take (Z.to_nat n) text)
  | Some (r, h') => ∃ h'', cJSON_Delete h' (root r) = Some h'' ∧ items h'' = items h ∧ strings h'' = strings h
  end.
Proof.
  intros Hmb Hb Hn. destruct (parse_made mb text n null_terminated h Hmb Hb Hn) as [(-> & H)|(r & h' & -> & H)]; [done|].
  destruct (root r) as [a|] eqn:Hr.
  - destruct H as (f & v & rest & _ & [G Hh _ _] & _). destruct (delete_grown h f h' (Some a) Hb G Hh) as (h'' & Hd & Hi & Hs & _). by exists h''.
  - destruct H as (Hi & Hs & _). exists h'. by split.
Qed.

(** When the text is an array or object and memory is granted, the item that the parser
    returns has its elements or members as children, in order: cJSON_GetArraySize
    counts them, cJSON_GetArrayItem finds each one, with its value and, in an object, its key,
    and the children are a list that the operations on arrays accept. *)
Theorem parsed_members mb text n null_terminated h v rest :
  roomy mb → below h → all_ok h → 0 ≤ n ≤ zlen text →
  jtext null_terminated (take (Z.to_nat n) text) = Some (v, rest) → members v ≠ [] →
  ∃ r h' a xs, cJSON_ParseWithLengthOpts mb (Some text) n null_terminated h = Some (r, h') ∧ root r = Some a ∧
    is_array (items h') a xs ∧ List.length xs = List.length (members v) ∧
    cJSON_GetArraySize h' (Some a) = Some (i32 (zlen (members v))) ∧
    ∀ k key w, members v !! k = Some (key, w) →
      ∃ x i, cJSON_GetArrayItem h' (Some a) (Z.of_nat k) = Some (Some x) ∧ stands_for h' x w ∧
        items h' !! x = Some i ∧ (key = None ∨ key_of (strings h') i = Some key).
Proof.
  intros Hmb Hb Hok Hn Hj Hne. destruct (parse_made_roomy mb text n null_terminated h Hmb Hb Hn) as (r & h' & E & H).
  destruct (root r) as [a|] eqn:Hroot; [|destruct H as (_ & _ & H); rewrite H in Hj; [done|done]].
  destruct H as (f & v' & rest' & Hj' & [G Hh Hw Hv] & _ & _ & _). rewrite Hj in Hj'. injection Hj' as <- <-.
  destruct f as [|a' i kids f']; [done|]. cbn [holds] in Hh. destruct Hh as ([= <-] & Hi & Hk & _).
  cbn [wired] in Hw. destruct Hw as (_ & Hf & Hwk & _). rewrite Hf in Hk. cbn [values] in Hv.
  destruct (values (strings h') kids) as [ks|] eqn:Eks; [|done]. cbn [mbind option_bind] in Hv.
  destruct (value_of (strings h') i ks) as [v''|] eqn:Ev; [|done]. cbn [mbind option_bind] in Hv.
  destruct (key_of (strings h') i); [|done]. cbn [mbind option_bind] in Hv.
  destruct (values (strings h') f') as [rs|]; [|done]. cbn in Hv. injection Hv as -> -> ->.
  assert (Ha : is_array (items h') a (siblings kids)).
  { apply (tree_array _ _ i); try done. pose proof (grown_NoDup_la _ _ _ _ _ G) as Hnd. cbn [addrs] in Hnd.
    apply NoDup_cons in Hnd as (Ha & Hnd). rewrite elem_of_app in Ha. apply NoDup_app in Hnd as (Hnd & _ & _).
    apply NoDup_cons. split; [tauto|done]. }
  assert (Hlen : List.length (siblings kids) = List.length (members v)).
  { rewrite (values_length _ _ _ Eks). destruct (members v) as [|[key w] ms] eqn:Em; [done|].
    destruct (value_of_members _ _ _ v 0 key w Ev) as (<- & _); by rewrite Em. }
  exists r, h', a, (siblings kids). split; [done|]. split; [done|]. split; [done|]. split; [done|].
  split; [rewrite (GetArraySize_spec _ _ _ Ha), Hlen; done|]. intros k key w Hm.
  destruct (value_of_members _ _ _ _ _ _ _ Ev Hm) as (_ & key' & Hks & Hkey).
  destruct (values_nth h' _ _ kids ks k key' w Hk Hwk Eks Hks) as (x & j & Hx & Hj' & Hkj & Hst).
  exists x, j. unfold cJSON_GetArrayItem. destruct (Z.ltb_spec (Z.of_nat k) 0); [lia|].
  rewrite (get_array_item_spec _ _ _ _ Ha), Hx. split; [done|]. split; [done|]. split; [done|].
  destruct Hkey as [ -> | ->]; [by left|by right].
Qed.

(** ** Witnesses *)

Lemma empty_below : below empty_heap.
Proof. split; intros a (x & Hx); done. Qed.

(** [[1,"x"] ], with memory and when the fourth request is refused. *)
Definition small_text : list Z := [91; 49; 44; 34; 120; 34; 93; 32; 0].

(** On blocks of just the size asked for: a text without strings, and the same list with a string. *)
Definition numbers_text : list Z := [91; 49; 44; 50; 93; 32; 0].

Lemma parse_correct_witness :
  match cJSON_ParseWithLengthOpts exact_blocks (Some numbers_text) 7 true empty_heap with
  | None => overflowing exact_blocks (take 7 numbers_text)
  | Some (r, h') =>
      match root r with
      | Some a => ∃ f v rest, jtext true (take 7 numbers_text) = Some (v, rest) ∧ tree_made empty_heap a f v h' ∧
                    error_position r = Some None ∧ parse_end r = Some (7 - zlen rest) ∧ (all_ok empty_heap → all_ok h')
      | None => items h' = ∅ ∧ strings h' = ∅ ∧ (all_ok empty_heap → jtext true (take 7 numbers_text) = None)
      end
  end ∧
  jtext true numbers_text = Some (JArray [JNumber (of_int 1); JNumber (of_int 2)], [0]) ∧
  (r ← cJSON_ParseWithLengthOpts exact_blocks (Some numbers_text) 7 true empty_heap; Some (bool_decide (is_Some (root r.1)))) = Some true.
Proof.
  split; [|split; vm_compute; reflexivity].
  apply (parse_correct exact_blocks numbers_text 7 true empty_heap); [apply exact_sized, exact_blocks_exact|apply empty_below|cbn; lia].
Defined.

Lemma parse_delete_witness :
  (r ← cJSON_ParseWithLengthOpts roomy_blocks (Some small_text) 9 true (mkHeap ∅ ∅ 1 [true; true; true; false]); Some (root r.1)) = Some None ∧
  match cJSON_ParseWithLengthOpts roomy_blocks (Some small_text) 9 true (mkHeap ∅ ∅ 1 [true; true; true; false]) with
  | None => overflowing roomy_blocks (take 9 small_text)
  | Some (r, h') => ∃ h'', cJSON_Delete h' (root r) = Some h'' ∧ items h'' = ∅ ∧ strings h'' = ∅
  end.
Proof.
  split; [vm_compute; reflexivity|]. apply (parse_delete roomy_blocks small_text 9 true (mkHeap ∅ ∅ 1 [true; true; true; false]));
    [apply roomy_sized, roomy_blocks_roomy|apply empty_below|cbn; lia].
Defined.

Lemma parsed_members_witness :
  ∃ r h' a xs, cJSON_ParseWithLengthOpts roomy_blocks (Some small_text) 9 true empty_heap = Some (r, h') ∧ root r = Some a ∧
    is_array (items h') a xs ∧ List.length xs = 2%nat ∧ cJSON_GetArraySize h' (Some a) = Some 2 ∧
    ∀ k key w, [(None, JNumber (of_int 1)); (None, JString [120])] !! k = Some (key, w) →
      ∃ x i, cJSON_GetArrayItem h' (Some a) (Z.of_nat k) = Some (Some x) ∧ stands_for h' x w ∧
        items h' !! x = Some i ∧ (key = None ∨ key_of (strings h') i = Some key).
Proof.
  apply (parsed_members roomy_blocks small_text 9 true empty_heap (JArray [JNumber (of_int 1); JString [120]]) [0]).
  - apply roomy_blocks_roomy.
  - apply empty_below.
  - constructor.
  - cbn. lia.
  - vm_compute. reflexivity.
  - done.
Defined.
