(* ===== verification/CJsonPrintProofs.v ===== *)
(** Proofs about the printer of cJSON (CJson.v): for a tree of items that stands for a
    value it prints the text of the value, in blocks that grow as needed, and
    the text of a value with [int] numbers and plain strings is read back. *)
From S2P Require Import Prelude CJsonHeap CJsonHeapProofs CJsonText CJsonTextProofs CJsonNum CJsonNumProofs CJson CJsonRef.
From S2P Require Import CJsonParseProofs.

(** ** The text of a value *)

(** Elements with a separator, and members with what comes before and after each. *)
Section texts.
Variable text : json → list Z.
Variable sep : list Z.
Fixpoint element_texts (l : list json) : list Z :=
  match l with
  | [] => []
  | v :: l => text v ++ match l with [] => [] | _ => sep end ++ element_texts l
  end.
Variable indent colon newline : list Z.
Fixpoint member_texts (l : list (list Z * json)) : list Z :=
  match l with
  | [] => []
  | (k, v) :: l =>
      indent ++ quoted k ++ colon ++ text v ++ match l with [] => [] | _ => [44] end ++ newline ++ member_texts l
  end.
End texts.

Definition only (b : bool) (l : list Z) : list Z := if b then l else [].

(** [format] is the flag of the print buffer. *)
Fixpoint jshow (format : bool) (depth : Z) (v : json) : list Z :=
  match v with
  | JNull => word_null
  | JFalse => word_false
  | JTrue => word_true
  | JNumber d => number_text d (default 0 (saturate d))
  | JString s => quoted s
  | JArray l => 91 :: element_texts (jshow format (depth + 1)) (44 :: only format [32]) l ++ [93]
  | JObject l =>
      123 :: only format [10] ++
      member_texts (jshow format (depth + 1)) (only format (tabs (depth + 1))) (58 :: only format [9]) (only format [10]) l ++
      only format (tabs depth) ++ [125]
  end.

(** Strings that are printed inside their room. *)
Definition safe_string (s : list Z) : Prop := chars s ∧ controls s ≤ 2.
Fixpoint safe (v : json) : Prop :=
  match v with
  | JString s => safe_string s
  | JArray l => Forall id (map safe l)
  | JObject l => Forall id (map (λ kv, safe_string kv.1 ∧ safe kv.2) l)
  | _ => True
  end.

(** Values that the printer does not refuse: a number of at most 25 characters, and at most
    a thousand levels. *)
Fixpoint fits (depth : Z) (v : json) : Prop :=
  match v with
  | JNumber d => zlen (jshow false depth v) ≤ 25
  | JArray l => depth < CJSON_NESTING_LIMIT ∧ Forall id (map (fits (depth + 1)) l)
  | JObject l => depth < CJSON_NESTING_LIMIT ∧ Forall id (map (λ kv, fits (depth + 1) kv.2) l)
  | _ => True
  end.

(** ** Writing *)

(** The allocator's success and the size of the text are enough to print it. *)
Lemma enough_keeps p m p' m' pre txt pre' txt' :
  keeps p m p' m' → enough p m pre txt → zlen pre' + zlen txt' ≤ zlen pre + zlen txt → enough p' m' pre' txt'.
Proof. intros (Hn & _ & _ & _ & Hok) (H1 & H2 & H3) Hle. split_and!; [congruence|tauto|lia]. Qed.

(** The result [r] of a step of printing from [p] and [m], after [pre]: it either has written [txt] and
    stands at its end, or has failed, which needs a reason. *)
Definition writes_at (r : option (bool * printbuffer * mem)) (p : printbuffer) (m : mem) (pre txt : list Z) (good : Prop) : Prop :=
  ∃ ok p' m', r = Some (ok, p', m') ∧ keeps p m p' m' ∧
    (ok = true → pdepth p' = pdepth p ∧ ∃ l', at_end (pre ++ txt) p' l') ∧ (enough p m pre txt → good → ok = true).
(** The same with a terminator after the text, and the offset somewhere in it. *)
Definition shows_at (r : option (bool * printbuffer * mem)) (p : printbuffer) (m : mem) (pre txt : list Z) (good : Prop) : Prop :=
  ∃ ok p' m', r = Some (ok, p', m') ∧ keeps p m p' m' ∧
    (ok = true → pdepth p' = pdepth p ∧ shows pre txt p') ∧ (enough p m pre txt → good → ok = true).

(** Nothing is written. *)
Lemma writes_nothing p m pre l : at_end pre p l → writes_at (Some (true, p, m)) p m pre [] True.
Proof.
  intros Hat. exists true, p, m. split; [done|]. split; [apply keeps_refl|]. split; [|done]. intros _. split; [done|].
  exists l. by rewrite app_nil_r.
Qed.

Lemma writes_weaken r p m pre txt txt' (good good' : Prop) :
  txt = txt' → (good' → good) → writes_at r p m pre txt good → writes_at r p m pre txt' good'.
Proof. intros <- Hg (ok & p' & m' & -> & K & S & F). exists ok, p', m'. split_and!; try done. tauto. Qed.

(** One step after another. *)
Lemma writes_bind r k p m pre t1 t2 (g1 g2 : Prop) :
  writes_at r p m pre t1 g1 →
  (∀ p' m' l', at_end (pre ++ t1) p' l' → pdepth p' = pdepth p → format p' = format p →
     writes_at (k p' m') p' m' (pre ++ t1) t2 g2) →
  writes_at ('(ok, p, m) ← r; if negb ok then Some (false, p, m) else k p m) p m pre (t1 ++ t2) (g1 ∧ g2).
Proof.
  intros (ok & p1 & m1 & -> & K1 & S1 & F1) H2. cbn [mbind option_bind]. destruct ok; cbn [negb].
  - destruct (S1 eq_refl) as (D1 & l1 & A1). destruct (H2 p1 m1 l1 A1 D1 ltac:(apply K1)) as (ok & p2 & m2 & -> & K2 & S2 & F2).
    exists ok, p2, m2. split; [done|]. split; [by eapply keeps_steps|]. split.
    + intros Hok. destruct (S2 Hok) as (D2 & l2 & A2). split; [congruence|]. exists l2. by rewrite app_assoc.
    + intros He (_ & Hg). apply F2; [|done]. eapply enough_keeps; [exact K1|exact He|]. rewrite !length_app. lia.
  - exists false, p1, m1. split; [done|]. split; [done|]. split; [done|]. intros He (Hg & _). apply F1; [|done].
    eapply enough_keeps; [apply keeps_refl|exact He|]. rewrite length_app. lia.
Qed.

Lemma shows_bind r k p m pre t1 t2 (g1 g2 : Prop) :
  Forall (λ c, c ≠ 0) t1 → shows_at r p m pre t1 g1 →
  (∀ p' m' l', at_end (pre ++ t1) p' l' → pdepth p' = pdepth p → format p' = format p →
     writes_at (k p' m') p' m' (pre ++ t1) t2 g2) →
  writes_at ('(ok, p, m) ← r; if negb ok then Some (false, p, m) else p ← update_offset p; k p m) p m pre (t1 ++ t2) (g1 ∧ g2).
Proof.
  intros Hnz (ok & p1 & m1 & -> & K1 & S1 & F1) H2. cbn [mbind option_bind]. destruct ok; cbn [negb].
  - destruct (S1 eq_refl) as (D1 & Sh1). destruct (update_offset_shows pre t1 p1 Sh1 Hnz) as (p2 & l2 & -> & A2 & D2 & E2).
    cbn [mbind option_bind].
    assert (K2 : keeps p m p2 m1).
    { eapply keeps_local; [exact K1|by rewrite E2..|by destruct Sh1 as (l' & ? & -> & _)|by eapply at_end_some]. }
    destruct (H2 p2 m1 l2 A2) as (ok & p3 & m3 & -> & K3 & S3 & F3); [congruence|apply K2|].
    exists ok, p3, m3. split; [done|]. split; [by eapply keeps_steps|]. split.
    + intros Hok. destruct (S3 Hok) as (D3 & l3 & A3). split; [congruence|]. exists l3. by rewrite app_assoc.
    + intros He (_ & Hg). apply F3; [|done]. eapply enough_keeps; [exact K2|exact He|]. rewrite !length_app. lia.
  - exists false, p1, m1. split; [done|]. split; [done|]. split; [done|]. intros He (Hg & _). apply F1; [|done].
    eapply enough_keeps; [apply keeps_refl|exact He|]. rewrite length_app. lia.
Qed.

(** A write through [ensure]. *)
Lemma ensure_put mb pre p l needed text m :
  sized mb → at_end pre p l → 0 ≤ needed → zlen text ≤ needed + 1 →
  ∃ r p1 m1, ensure mb p needed m = Some (r, p1, m1) ∧ keeps p m p1 m1 ∧ pdepth p1 = pdepth p ∧
    match r with
    | Some o => o = zlen pre ∧ zlen pre + needed + 1 ≤ plength p1 ∧ ∃ l1 l2, at_end pre p1 l1 ∧ put l1 o text = Some l2 ∧
                wrote l1 (zlen pre) text l2
    | None => noalloc p = true ∨ ¬ always_ok m ∨ INT_MAX < zlen pre + needed + 1
    end.
Proof.
  intros Hmb Hat Hn Ht. destruct (ensure_spec mb pre p l needed m Hmb Hat Hn) as (r & p1 & m1 & E & K & D & Hr).
  exists r, p1, m1. split; [done|]. split; [done|]. split; [done|]. destruct r as [o|]; [|done].
  destruct Hr as ( -> & Hroom & l1 & Hat1). split; [done|]. split; [done|]. assert (H1 := Hat1). destruct H1 as (_ & _ & Hl1 & _).
  destruct (put_wrote l1 (zlen pre) [] l1 text (at_end_wrote _ _ _ Hat1)) as (l2 & Ep & Hw); [cbn; lia|].
  cbn [List.length Z.of_nat] in Ep. rewrite Z.add_0_r in Ep. by exists l1, l2.
Qed.

Lemma print_bytes_spec mb pre p l needed text body t advance m :
  sized mb → at_end pre p l → text = body ++ t → advance = zlen body → zlen text ≤ needed + 1 → zlen body ≤ needed →
  needed ≤ zlen body + 2 → writes_at (print_bytes mb p needed text advance m) p m pre body True.
Proof.
  intros Hmb Hat -> -> Ht Hb Hn. unfold print_bytes.
  destruct (ensure_put mb pre p l needed (body ++ t) m Hmb Hat ltac:(lia) Ht) as (r & p1 & m1 & -> & Hk & Hd & Hr).
  cbn [mbind option_bind]. destruct r as [o|].
  2: { eexists false, _, _. split; [done|]. split; [done|]. split; [done|]. intros (? & ? & ?) _.
       destruct Hr as [Hr|[Hr|Hr]]; [congruence|done|lia]. }
  destruct Hr as ( -> & Hroom & l1 & l2 & Hat1 & Ep & Hw). assert (H1 := Hat1). destruct H1 as (Hb1 & Ho1 & Hl1 & Ht1).
  rewrite Hb1. cbn [mbind option_bind]. rewrite Ep. cbn [mbind option_bind].
  eexists true, _, _. split; [done|]. split; [|split; [|done]].
  - eapply keeps_local; [exact Hk|done..|by eapply at_end_some|done].
  - intros _. split; [done|]. exists l2. destruct Hw as (Hl2 & Hw & _ & _). rewrite Nat2Z.id, Ht1 in Hw. split; [done|]. cbn.
    split; [rewrite Ho1; len|]. split; [rewrite length_app; lia|].
    transitivity (take (List.length (pre ++ body)) (take (List.length pre + List.length (body ++ t)) l2)).
    + rewrite take_take. f_equal. rewrite !length_app. lia.
    + rewrite Hw, app_assoc. apply take_app_length.
Qed.

(** The same for a text and its terminator, without moving the offset. *)
Lemma print_end_spec mb pre p l needed body m :
  sized mb → at_end pre p l → needed = zlen body + 1 → shows_at (print_bytes mb p needed (body ++ [0]) 0 m) p m pre body True.
Proof.
  intros Hmb Hat ->. unfold print_bytes.
  destruct (ensure_put mb pre p l (zlen body + 1) (body ++ [0]) m Hmb Hat ltac:(lia) ltac:(len)) as (r & p1 & m1 & -> & Hk & Hd & Hr).
  cbn [mbind option_bind]. destruct r as [o|].
  2: { eexists false, _, _. split; [done|]. split; [done|]. split; [done|]. intros (? & ? & ?) _.
       destruct Hr as [Hr|[Hr|Hr]]; [congruence|done|lia]. }
  destruct Hr as ( -> & Hroom & l1 & l2 & Hat1 & Ep & Hw). rewrite (proj1 Hat1). cbn [mbind option_bind]. rewrite Ep. cbn [mbind option_bind].
  eexists true, _, _. split; [done|]. split; [|split; [|done]].
  - eapply keeps_local; [exact Hk|done..|by eapply at_end_some|done].
  - intros _. split; [done|].
    replace (with_poffset (poffset p1 + 0) (with_bytes l2 p1)) with (with_bytes l2 p1)
      by (unfold with_poffset, with_bytes, with_buffer; cbn; f_equal; lia).
    eapply wrote_shows; [done|exact Hw|lia].
Qed.

(** ** No text has a zero byte *)

Definition nonzero (l : list Z) : Prop := Forall (λ c, c ≠ 0) l.

Lemma nonzero_nil : nonzero [].
Proof. constructor. Qed.
#[local] Hint Resolve nonzero_nil : core.

Lemma nonzero_app l1 l2 : nonzero (l1 ++ l2) ↔ nonzero l1 ∧ nonzero l2.
Proof. apply Forall_app. Qed.

(** The characters of numbers. *)
Definition glyph (c : Z) : Prop := ((43 <=? c) && (c <=? 57) && negb (c =? 47) || (97 <=? c) && (c <=? 122)) = true.
Definition glyphs (l : list Z) : Prop := Forall glyph l.

Lemma glyph_digit n : glyph (48 + n mod 10).
Proof.
  unfold glyph. destruct (Z.leb_spec 43 (48 + n mod 10)); [|zdm]. destruct (Z.leb_spec (48 + n mod 10) 57); [|zdm].
  destruct (Z.eqb_spec (48 + n mod 10) 47); [zdm|done].
Qed.

Lemma glyphs_nil : glyphs [].
Proof. constructor. Qed.
#[local] Hint Resolve glyphs_nil : core.

Lemma glyphs_decimal fuel n acc : glyphs acc → glyphs (decimal_loop fuel n acc).
Proof.
  revert n acc. induction fuel as [|fuel IH]; intros n acc Ha; cbn [decimal_loop]; [done|].
  assert (Hc : glyphs ((48 + n mod 10) :: acc)) by (constructor; [apply glyph_digit|done]).
  destruct (n / 10 =? 0); [done|]. by apply IH.
Qed.

Lemma glyphs_digits n : glyphs (digits n).
Proof. by apply glyphs_decimal. Qed.

Lemma glyphs_strip l : glyphs l → glyphs (strip_zeros l).
Proof.
  induction 1 as [|c l Hc Hl IH]; cbn [strip_zeros]; [done|]. destruct (strip_zeros l); [|by constructor].
  destruct (c =? 48); [done|]. by constructor.
Qed.

Lemma glyphs_with_point w f : glyphs w → glyphs f → glyphs (with_point w f).
Proof.
  intros Hw Hf%glyphs_strip. unfold with_point. destruct (strip_zeros f); [done|]. apply Forall_app. split; [done|].
  by constructor.
Qed.

Lemma glyphs_take_drop k l : glyphs l → glyphs (take k l) ∧ glyphs (drop k l).
Proof. intros Hl. split; [by apply Forall_take|by apply Forall_drop]. Qed.

Lemma glyphs_replicate k c : glyph c → glyphs (replicate k c).
Proof. intros Hc. by apply Forall_replicate. Qed.

Lemma glyphs_format_g p d : glyphs (format_g p d).
Proof.
  assert (Hsign : ∀ s : bool, glyphs (if s then [45] else [])) by (intros []; by repeat constructor).
  unfold format_g. destruct d as [s|s| |s m e]; try done.
  { apply Forall_app. split; [apply Hsign|by repeat constructor]. }
  destruct (if 0 <=? e then _ else _) as [num den]. destruct (if _ =? _ then _ else _) as [n x].
  apply Forall_app. split; [apply Hsign|]. destruct (glyphs_take_drop (Z.to_nat (x + 1)) (digits n) (glyphs_digits n)).
  destruct (_ && _); [destruct (0 <=? x)|].
  - by apply glyphs_with_point.
  - apply glyphs_with_point; [by repeat constructor|]. apply Forall_app. split; [by apply glyphs_replicate|apply glyphs_digits].
  - destruct (glyphs_take_drop 1 (digits n) (glyphs_digits n)). apply Forall_app. split; [by apply glyphs_with_point|].
    constructor; [done|]. constructor; [by destruct (x <? 0)|]. apply Forall_app. split; [|apply glyphs_digits].
    destruct (_ <? _); by repeat constructor.
Qed.

Lemma glyphs_format_d n : glyphs (format_d n).
Proof. unfold format_d. destruct (n <? 0); [constructor; [done|]|]; apply glyphs_digits. Qed.

Lemma glyphs_number d n : glyphs (number_text d n).
Proof.
  unfold number_text. destruct (is_special d); [by repeat constructor|]. destruct (SFeqb _ _); [apply glyphs_format_d|].
  destruct (strtod _). destruct (_ || _); apply glyphs_format_g.
Qed.

Lemma nonzero_number d n : nonzero (number_text d n).
Proof. apply (Forall_impl glyph); [apply glyphs_number|]. by intros c Hc ->. Qed.
Lemma nonzero_replicate k c : c ≠ 0 → nonzero (replicate k c).
Proof. intros Hc. by apply Forall_replicate. Qed.

Lemma nonzero_escape c : 0 < c < 256 → nonzero (escape c).
Proof.
  intros Hc. unfold escape. destruct (escape_letter c) as [e|] eqn:E.
  - assert (e ≠ 0) by (unfold escape_letter in E; repeat case_match; simplify_eq; done). by repeat constructor.
  - destruct (Z.ltb_spec c 32); [|constructor; [lia|done]].
    assert (Hlow : ∀ d, 0 ≤ d → hex_lower d ≠ 0) by (intros d Hd; unfold hex_lower; case_cmp; lia).
    unfold hex4. repeat (constructor; [first [done|apply Hlow; zdm]|]). done.
Qed.

Lemma nonzero_quoted s : chars s → nonzero (quoted s).
Proof.
  intros Hs. unfold quoted. constructor; [done|]. apply nonzero_app. split; [|by repeat constructor].
  apply Forall_take. unfold escaped. induction Hs as [|c s Hc Hs IH]; [done|]. cbn [flat_map].
  apply nonzero_app. split; [by apply nonzero_escape|done].
Qed.

(** An induction principle for the nested type. *)
Lemma json_induction (P : json → Prop) :
  P JNull → P JFalse → P JTrue → (∀ d, P (JNumber d)) → (∀ s, P (JString s)) →
  (∀ l, Forall P l → P (JArray l)) → (∀ l, Forall (λ kv, P kv.2) l → P (JObject l)) → ∀ v, P v.
Proof.
  intros H1 H2 H3 H4 H5 H6 H7. fix IH 1. intros [| | |d|s|l|l]; [done|done|done|apply H4|apply H5|apply H6|apply H7].
  - induction l as [|v l IHl]; constructor; [apply IH|apply IHl].
  - induction l as [|[k v] l IHl]; constructor; [apply IH|apply IHl].
Qed.

Lemma Forall_id_map {A} (P : A → Prop) l : Forall id (map P l) ↔ Forall P l.
Proof. by rewrite Forall_map. Qed.

Lemma nonzero_tabs n : nonzero (tabs n).
Proof. by apply nonzero_replicate. Qed.
Lemma nonzero_only b l : nonzero l → nonzero (only b l).
Proof. by destruct b. Qed.

Lemma nonzero_elements text sep l : nonzero sep → Forall (λ v, nonzero (text v)) l → nonzero (element_texts text sep l).
Proof.
  intros Hs. induction 1 as [|v l Hv Hl IH]; cbn [element_texts]; [done|].
  rewrite !nonzero_app. split_and!; [done|by destruct l|done].
Qed.

Lemma nonzero_members text indent colon newline l :
  nonzero indent → nonzero colon → nonzero newline → Forall (λ kv, chars kv.1 ∧ nonzero (text kv.2)) l →
  nonzero (member_texts text indent colon newline l).
Proof.
  intros Hi Hc Hn. induction 1 as [|[k v] l (Hk & Hv) Hl IH]; cbn [member_texts]; [done|].
  rewrite !nonzero_app. split_and!; try done; [by apply nonzero_quoted|by destruct l; repeat constructor].
Qed.

Lemma nonzero_jshow format v depth : safe v → nonzero (jshow format depth v).
Proof.
  revert depth. induction v as [| | |d|s|l IH|l IH] using json_induction; intros depth; cbn [jshow safe];
    try (intros _; by repeat constructor).
  - intros _. apply nonzero_number.
  - intros (Hs & _). by apply nonzero_quoted.
  - rewrite Forall_id_map. intros Hs. constructor; [done|]. apply nonzero_app. split; [|by repeat constructor].
    apply nonzero_elements; [constructor; [done|]; apply nonzero_only; by repeat constructor|].
    induction IH as [|v l Hv _ IHl]; [done|]. apply Forall_cons in Hs as (H1 & H2). constructor; [by apply Hv|by apply IHl].
  - rewrite Forall_id_map. intros Hs. constructor; [done|]. rewrite !nonzero_app.
    split_and!; try apply nonzero_only; try apply nonzero_tabs; try (by repeat constructor).
    apply nonzero_members; try apply nonzero_only; try apply nonzero_tabs; try (by repeat constructor).
    + constructor; [done|]. apply nonzero_only. by repeat constructor.
    + induction IH as [|[k v] l Hv _ IHl]; [done|]. apply Forall_cons in Hs as (((H0 & _) & H1) & H2).
      constructor; [split; [done|by apply Hv]|by apply IHl].
Qed.

(** ** Values *)

(** Items that can be reached, through references too. *)
Fixpoint reach (m : gmap Z cJSON) (p : option Z) (f : forest) : Prop :=
  match f with
  | FNil => p = None
  | FCons a i kids rest => p = Some a ∧ m !! a = Some i ∧ reach m (child i) kids ∧ reach m (next i) rest
  end.

Lemma holds_reach m p q f : holds m p f → wired q f → reach m p f.
Proof.
  revert p q. induction f as [|a i kids IHk rest IHr]; intros p q; cbn [holds wired reach]; [done|].
  intros (-> & Hi & Hk & Hr) (_ & Hf & Hwk & Hwr). rewrite Hf in Hk. split; [done|]. split; [done|].
  split; [by eapply IHk|by eapply IHr].
Qed.

Lemma reach_first m p f : reach m p f → p = head (siblings f).
Proof. destruct f; cbn; [done|]. by intros (-> & _). Qed.

Lemma shows_moved pre txt p k :
  shows pre txt p → poffset p = zlen pre → 0 ≤ k ≤ zlen txt → shows pre txt (with_poffset (poffset p + k) p).
Proof. intros (l & _ & Hb & _ & _ & Hl & Ht) Ho Hk. exists l, k. cbn. by rewrite Ho. Qed.

Lemma point_id (l : list Z) : map (λ c, if c =? get_decimal_point then 46 else c) l = l.
Proof. rewrite <- (map_id l) at 2. apply map_ext. intros c. unfold get_decimal_point. by destruct (Z.eqb_spec c 46). Qed.

Lemma print_number_spec mb pre p l d n m :
  sized mb → at_end pre p l →
  shows_at (print_number mb d n p m) p m pre (number_text d n) (zlen (number_text d n) ≤ 25).
Proof.
  intros Hmb Hat. unfold print_number. set (txt := number_text d n). destruct (Z.ltb_spec (26 - 1) (zlen txt)).
  { exists false, p, m. split; [done|]. split; [apply keeps_refl|]. split; [done|]. intros _ ?. lia. }
  rewrite point_id.
  destruct (ensure_put mb pre p l (zlen txt + 1) (txt ++ [0]) m Hmb Hat ltac:(lia) ltac:(len)) as (r & p1 & m1 & -> & Hk & Hd & Hr).
  cbn [mbind option_bind]. destruct r as [o|].
  2: { eexists false, _, _. split; [done|]. split; [done|]. split; [done|]. intros (? & ? & ?) _.
       destruct Hr as [Hr|[Hr|Hr]]; [congruence|done|lia]. }
  destruct Hr as ( -> & Hroom & l1 & l2 & Hat1 & Ep & Hw). assert (H1 := Hat1). destruct H1 as (Hb1 & Ho1 & _).
  rewrite Hb1. cbn [mbind option_bind]. rewrite Ep. cbn [mbind option_bind].
  eexists true, _, _. split; [done|]. split; [|split; [|done]].
  - eapply keeps_local; [exact Hk|done..|by eapply at_end_some|done].
  - intros _. split; [done|]. apply (shows_moved pre txt (with_bytes l2 p1)); [|done|lia].
    eapply wrote_shows; [done|exact Hw|lia].
Qed.

(** What a printer of values does for items with less than [n] items below them. *)
Definition prints_value (value : value_printer) (h : heap) (n : nat) : Prop :=
  ∀ a i kids ks v pre p l m,
    items h !! a = Some i → reach (items h) (child i) kids → values (strings h) kids = Some ks →
    value_of (strings h) i ks = Some v → (List.length (addrs kids) < n)%nat → safe v → 0 ≤ pdepth p → at_end pre p l →
    shows_at (value a p m) p m pre (jshow (format p) (pdepth p) v) (fits (pdepth p) v).

Section loops.
Context (mb : Z → list Z) (Hmb : sized mb) (value : value_printer) (h : heap) (n : nat).
Context (Hvalue : prints_value value h n).

Lemma print_elements_spec f q fuel ks pre p l m :
  reach (items h) q f → values (strings h) f = Some ks → (List.length (addrs f) ≤ n)%nat →
  (List.length (siblings f) ≤ fuel)%nat → Forall safe (snd <$> ks) → 0 ≤ pdepth p → at_end pre p l →
  writes_at (print_elements mb value fuel h q p m) p m pre
    (element_texts (jshow (format p) (pdepth p)) (44 :: only (format p) [32]) (snd <$> ks))
    (Forall (fits (pdepth p)) (snd <$> ks)).
Proof.
  revert q fuel ks pre p l m. induction f as [|a i kids _ rest IH]; intros q fuel ks pre p l m; cbn [reach values].
  { intros -> [= <-] _ _ _ _ Hat. apply (writes_weaken _ _ _ _ [] _ True); [done|done|]. destruct fuel; by eapply writes_nothing. }
  intros (-> & Hi & Hk & Hr) Hv Hn Hf Hs Hd Hat. inv_bind. subst ks. rename x into kvs, x0 into v, x2 into ks, H2 into Hks.
  cbn [addrs siblings List.length] in Hn, Hf. rewrite length_app in Hn. destruct fuel as [|fuel]; [lia|].
  rewrite fmap_cons in *. cbn [snd] in *. apply Forall_cons in Hs as (Hsv & Hs). cbn [print_elements].
  eapply writes_weaken; [| |eapply (shows_bind _ _ _ _ _ (jshow (format p) (pdepth p) v));
    [by apply nonzero_jshow|eapply (Hvalue a i kids kvs v); done || lia|]].
  - done.
  - rewrite Forall_cons. intros Hg. exact Hg.
  - intros p' m' l' Hat' Hd' Hf'. cbv beta. rewrite Hi. cbn [mbind option_bind]. rewrite <- Hd', <- Hf' in Hat' |- *.
    eapply writes_weaken; [| |eapply (writes_bind _ (λ p m, print_elements mb value fuel h (next i) p m) _ _ _ (match ks with [] => [] | _ => 44 :: only (format p') [32] end))].
    + by destruct ks.
    + intros Hg. exact (conj I Hg).
    + rewrite (reach_first _ _ _ Hr). destruct rest as [|b j bk br]; cbn [siblings head].
      * injection Hks as <-. exact (writes_nothing _ _ _ _ Hat').
      * cbn [values] in Hks. inv_bind. subst ks.
        eapply (print_bytes_spec mb _ _ _ _ _ _ [0]); [done|done|by destruct (format p')|by destruct (format p')..].
    + intros p2 m2 l2 Hat2 Hd2 Hf2. rewrite <- Hd2, <- Hf2 in Hat2 |- *. eapply IH; try done; lia.
Qed.

Lemma strlen_split l k : strlen l = Some k → 0 ≤ k ∧ ∃ t, l = take (Z.to_nat k) l ++ 0 :: t.
Proof.
  revert k. induction l as [|c l IH]; intros k; cbn [strlen]; [done|]. destruct (Z.eqb_spec c 0) as [->|_].
  - intros [= <-]. split; [done|]. by exists l.
  - destruct (strlen l) as [k'|]; [|done]. cbn. intros [= <-]. destruct (IH k' eq_refl) as (H0 & t & Ht).
    split; [lia|]. exists t. replace (Z.to_nat (k' + 1)) with (S (Z.to_nat k')) by lia. cbn [take app]. by f_equal.
Qed.

Lemma text_at_split st s t : text_at st (Some s) = Some t → ∃ r, st !! s = Some (t ++ 0 :: r).
Proof.
  unfold text_at. cbn. destruct (st !! s) as [l|]; [|done]. cbn. unfold c_string.
  destruct (strlen l) as [k|] eqn:E; [|done]. cbn. intros [= <-]. destruct (strlen_split l k E) as (_ & r & Hr).
  exists r. by f_equal.
Qed.

Lemma print_string_spec pre p l s t m :
  at_end pre p l → safe_string s → shows_at (print_string_ptr mb (Some (s ++ 0 :: t)) p m) p m pre (quoted s) True.
Proof.
  intros Hat (Hs & Hc). destruct (print_string_room mb pre p l s t m Hmb Hat Hs Hc) as (ok & p' & m' & E & K & D & S & F).
  exists ok, p', m'. split; [done|]. split; [done|]. split; [|tauto]. intros Hok. split; [done|tauto].
Qed.

Lemma zlen_tabs d : 0 ≤ d → zlen (tabs d) = d.
Proof. intros Hd. unfold tabs. rewrite length_replicate. lia. Qed.

Lemma print_members_spec f q fuel ms pre p l m :
  reach (items h) q f → values (strings h) f = Some ((λ kv, (Some kv.1, kv.2)) <$> ms) → (List.length (addrs f) ≤ n)%nat →
  (List.length (siblings f) ≤ fuel)%nat → Forall (λ kv, safe_string kv.1 ∧ safe kv.2) ms → 0 ≤ pdepth p → at_end pre p l →
  writes_at (print_members mb value fuel h q p m) p m pre
    (member_texts (jshow (format p) (pdepth p)) (only (format p) (tabs (pdepth p))) (58 :: only (format p) [9])
       (only (format p) [10]) ms)
    (Forall (λ kv, fits (pdepth p) kv.2) ms).
Proof.
  revert q fuel ms pre p l m. induction f as [|a i kids _ rest IH]; intros q fuel ms pre p l m; cbn [reach values].
  { intros -> Hms _ _ _ _ Hat. destruct ms; [|done]. apply (writes_weaken _ _ _ _ [] _ True); [done|done|].
    destruct fuel; by eapply writes_nothing. }
  intros (-> & Hi & Hk & Hr) Hv Hn Hf Hs Hd Hat. destruct ms as [|[key v] ms]; [inv_bind; done|].
  rewrite fmap_cons in Hv. cbn [fst snd] in Hv. inv_bind. subst. rename x into kvs, H2 into Hks, H1 into Hkey.
  apply Forall_cons in Hs as ((Hsk & Hsv) & Hs). cbn [fst snd] in Hsk, Hsv.
  cbn [addrs siblings List.length] in Hn, Hf. rewrite length_app in Hn. destruct fuel as [|fuel]; [lia|].
  cbn [print_members]. rewrite Hi. cbn [mbind option_bind]. cbn [member_texts].
  unfold key_of in Hkey. destruct (string i) as [s|] eqn:Es; [|done]. apply fmap_Some in Hkey as (key' & Hkey & [= <-]).
  apply text_at_split in Hkey as (r & Hblk).
  eapply writes_weaken; [| |eapply (writes_bind _ _ _ _ _ (only (format p) (tabs (pdepth p))) _ True)].
  - done.
  - rewrite Forall_cons. intros Hg. exact (conj I Hg).
  - destruct (format p); cbn [only]; [|by eapply writes_nothing].
    eapply (print_bytes_spec mb _ _ _ _ _ _ []); rewrite ?app_nil_r, ?zlen_tabs by done; done || lia.
  - intros p1 m1 l1 Hat1 Hd1 Hf1. cbv beta. rewrite <- Hd1, <- Hf1 in Hat1 |- *. cbn [string_at]. rewrite Hblk.
    cbn [mbind option_bind].
    eapply writes_weaken; [| |eapply (shows_bind _ _ _ _ _ (quoted key))]; [done| |by apply nonzero_quoted, Hsk|by eapply print_string_spec|].
    { intros Hg. exact (conj I Hg). }
    intros p2 m2 l2 Hat2 Hd2 Hf2. cbv beta zeta. rewrite <- Hd2, <- Hf2 in Hat2 |- *.
    eapply writes_weaken; [| |eapply (writes_bind _ _ _ _ _ (58 :: only (format p2) [9]))]; [done| | |].
    { intros Hg. exact (conj I Hg). }
    { eapply (print_bytes_spec mb _ _ _ _ _ _ []); [done|done|by rewrite app_nil_r|by destruct (format p2)..]. }
    intros p3 m3 l3 Hat3 Hd3 Hf3. cbv beta zeta. rewrite <- Hd3, <- Hf3 in Hat3 |- *.
    eapply writes_weaken; [| |eapply (shows_bind _ _ _ _ _ (jshow (format p3) (pdepth p3) v))]; [done| |by apply nonzero_jshow| |].
    2: { eapply (Hvalue a i kids kvs v); done || lia. }
    { intros Hg. exact Hg. }
    intros p4 m4 l4 Hat4 Hd4 Hf4. cbv beta zeta. rewrite <- Hd4, <- Hf4 in Hat4 |- *.
    eapply writes_weaken; [| |eapply (writes_bind _ (λ p m, print_members mb value fuel h (next i) p m) _ _ _
                               (match ms with [] => [] | _ => [44] end ++ only (format p4) [10]))].
    + by rewrite <- app_assoc.
    + intros Hg. exact (conj I Hg).
    + rewrite (reach_first _ _ _ Hr).
      assert (Hmore : bool_decide (head (siblings rest) ≠ None) = match ms with [] => false | _ => true end).
      { destruct rest, ms as [|[? ?] ?]; cbn [values] in Hks; try (inv_bind; done); try done. }
      rewrite Hmore. eapply (print_bytes_spec mb _ _ _ _ _ _ [0]); [done|done|by destruct ms, (format p4)..].
    + intros p5 m5 l5 Hat5 Hd5 Hf5. rewrite <- Hd5, <- Hf5 in Hat5 |- *. eapply IH; try done; lia.
Qed.
End loops.

Lemma shows_prepend pre a c p : shows (pre ++ a) c p → shows pre (a ++ c) p.
Proof.
  intros (l & k & Hb & Ho & Hk & Hl & Ht). exists l, (zlen a + k). rewrite !length_app in *. split_and!; try done; try lia.
  rewrite <- !app_assoc in *. rewrite <- Ht. f_equal. lia.
Qed.

(** What comes between brackets is printed one level deeper. *)
Lemma brackets_show opening (inner closing : printbuffer → mem → option (bool * printbuffer * mem)) p m pre o t c (gi : Prop) :
  writes_at opening p m pre o True →
  (∀ p' m' l', at_end (pre ++ o) p' l' → pdepth p' = pdepth p → format p' = format p →
     writes_at (inner (with_pdepth (pdepth p' + 1) p') m') (with_pdepth (pdepth p' + 1) p') m' (pre ++ o) t gi) →
  (∀ p' m' l', at_end ((pre ++ o) ++ t) p' l' → pdepth p' = pdepth p + 1 → format p' = format p →
     shows_at (closing p' m') p' m' ((pre ++ o) ++ t) c True) →
  shows_at ('(ok, p, m) ← opening;
            if negb ok then Some (false, p, m)
            else
              '(ok, p, m) ← inner (with_pdepth (pdepth p + 1) p) m;
              if negb ok then Some (false, p, m)
              else '(ok, p, m) ← closing p m; Some (ok, if ok : bool then with_pdepth (pdepth p - 1) p else p, m))
           p m pre (o ++ t ++ c) gi.
Proof.
  intros (ok & p1 & m1 & -> & K1 & S1 & F1) Hi Hc. cbn [mbind option_bind].
  assert (Hlen : zlen (o ++ t ++ c) = zlen o + zlen t + zlen c) by len. destruct ok; cbn [negb].
  2: { exists false, p1, m1. split; [done|]. split; [done|]. split; [done|]. intros He _. apply F1; [|done].
       eapply enough_keeps; [apply keeps_refl|exact He|]. lia. }
  destruct (S1 eq_refl) as (D1 & l1 & A1).
  destruct (Hi p1 m1 l1 A1 D1 ltac:(apply K1)) as (ok & p2 & m2 & -> & K2 & S2 & F2). cbn [mbind option_bind].
  assert (K02 : keeps p m p2 m2) by exact (keeps_steps _ _ _ _ _ _ K1 K2). destruct ok; cbn [negb].
  2: { exists false, p2, m2. split; [done|]. split; [done|]. split; [done|]. intros He Hg. apply F2; [|done].
       eapply (enough_keeps p m); [exact K1|exact He|]. rewrite length_app. lia. }
  destruct (S2 eq_refl) as (D2 & l2 & A2). cbn [pdepth with_pdepth] in D2.
  destruct (Hc p2 m2 l2 A2) as (ok & p3 & m3 & -> & K3 & S3 & F3); [lia|apply K02|]. cbn [mbind option_bind].
  pose proof (keeps_steps _ _ _ _ _ _ K02 K3) as K. eexists ok, _, m3. split; [done|]. split; [by destruct ok|]. split.
  - intros ->. destruct (S3 eq_refl) as (D3 & Sh3). cbn [pdepth with_pdepth]. split; [lia|].
    rewrite <- app_assoc in Sh3. apply shows_prepend in Sh3. by rewrite <- app_assoc in Sh3.
  - intros He Hg. apply F3; [|done]. eapply enough_keeps; [exact K02|exact He|]. rewrite !length_app. lia.
Qed.

Section values.
Context (mb : Z → list Z) (Hmb : sized mb) (value : value_printer) (h : heap) (n : nat).
Context (Hvalue : prints_value value h n).

Lemma print_array_spec fuel i kids ks pre p l m :
  reach (items h) (child i) kids → values (strings h) kids = Some ks → (List.length (addrs kids) ≤ n)%nat →
  (List.length (siblings kids) ≤ fuel)%nat → Forall safe (snd <$> ks) → 0 ≤ pdepth p → at_end pre p l →
  shows_at (print_array mb value fuel h i p m) p m pre (jshow (format p) (pdepth p) (JArray (snd <$> ks)))
    (fits (pdepth p) (JArray (snd <$> ks))).
Proof.
  intros Hr Hks Hn Hf Hs Hd Hat. unfold print_array. cbn [jshow fits].
  destruct (Z.leb_spec CJSON_NESTING_LIMIT (pdepth p)).
  { exists false, p, m. split; [done|]. split; [apply keeps_refl|]. split; [done|]. intros _ (? & _). lia. }
  set (t := element_texts _ _ _). change (91 :: t ++ [93]) with ([91] ++ t ++ [93]).
  assert (Hshow : shows_at
    ('(ok, p, m) ← print_bytes mb p 1 [91] 1 m;
     if negb ok then Some (false, p, m)
     else
       '(ok, p, m) ← (λ p m, print_elements mb value fuel h (child i) p m) (with_pdepth (pdepth p + 1) p) m;
       if negb ok then Some (false, p, m)
       else '(ok, p, m) ← (λ p m, print_bytes mb p 2 [93; 0] 0 m) p m;
            Some (ok, if ok : bool then with_pdepth (pdepth p - 1) p else p, m))
    p m pre ([91] ++ t ++ [93]) (Forall (fits (pdepth p + 1)) (snd <$> ks))).
  { apply brackets_show.
    - eapply (print_bytes_spec mb _ _ _ _ _ _ []); done.
    - intros p' m' l' Hat' Hd' Hf'. unfold t. rewrite <- Hd', <- Hf'.
      change (format p') with (format (with_pdepth (pdepth p' + 1) p')).
      change (pdepth p' + 1) with (pdepth (with_pdepth (pdepth p' + 1) p')) at 3 5.
      eapply (print_elements_spec mb Hmb value h n Hvalue kids); try done; cbn; lia.
    - intros p' m' l' Hat' Hd' Hf'. by eapply (print_end_spec mb _ _ _ 2 [93]). }
  destruct Hshow as (ok & p' & m' & E & K & S & F). exists ok, p', m'. split; [exact E|]. split; [done|]. split; [done|].
  intros He (_ & Hg). apply F; [done|]. by apply Forall_id_map.
Qed.

Lemma print_object_spec fuel i kids ms pre p l m :
  reach (items h) (child i) kids → values (strings h) kids = Some ((λ kv, (Some kv.1, kv.2)) <$> ms) →
  (List.length (addrs kids) ≤ n)%nat → (List.length (siblings kids) ≤ fuel)%nat →
  Forall (λ kv, safe_string kv.1 ∧ safe kv.2) ms → 0 ≤ pdepth p → at_end pre p l →
  shows_at (print_object mb value fuel h i p m) p m pre (jshow (format p) (pdepth p) (JObject ms))
    (fits (pdepth p) (JObject ms)).
Proof.
  intros Hr Hks Hn Hf Hs Hd Hat. unfold print_object. cbn [jshow fits].
  destruct (Z.leb_spec CJSON_NESTING_LIMIT (pdepth p)).
  { exists false, p, m. split; [done|]. split; [apply keeps_refl|]. split; [done|]. intros _ (? & _). lia. }
  set (t := member_texts _ _ _ _ _). set (o := 123 :: only (format p) [10]). set (c := only (format p) (tabs (pdepth p)) ++ [125]).
  change (123 :: only (format p) [10] ++ t ++ c) with (o ++ t ++ c).
  assert (Hshow : shows_at
    ('(ok, p, m) ← print_bytes mb p ((if format p then 2 else 1) + 1) o (if format p then 2 else 1) m;
     if negb ok then Some (false, p, m)
     else
       '(ok, p, m) ← (λ p m, print_members mb value fuel h (child i) p m) (with_pdepth (pdepth p + 1) p) m;
       if negb ok then Some (false, p, m)
       else '(ok, p, m) ← (λ p m, print_bytes mb p (if format p then pdepth p + 1 else 2)
                             ((if format p then tabs (pdepth p - 1) else []) ++ [125; 0]) 0 m) p m;
            Some (ok, if ok : bool then with_pdepth (pdepth p - 1) p else p, m))
    p m pre (o ++ t ++ c) (Forall (λ kv, fits (pdepth p + 1) kv.2) ms)).
  { apply brackets_show.
    - eapply (print_bytes_spec mb _ _ _ _ _ _ []); [done|done|by rewrite app_nil_r|unfold o; by destruct (format p)..].
    - intros p' m' l' Hat' Hd' Hf'. unfold t. rewrite <- Hd', <- Hf'.
      change (format p') with (format (with_pdepth (pdepth p' + 1) p')).
      change (pdepth p' + 1) with (pdepth (with_pdepth (pdepth p' + 1) p')) at 3 4 6.
      eapply (print_members_spec mb Hmb value h n Hvalue kids); try done; cbn; lia.
    - intros p' m' l' Hat' Hd' Hf'. cbv beta. rewrite Hd', Hf'.
      replace ((if format p then tabs (pdepth p + 1 - 1) else []) ++ [125; 0]) with (c ++ [0]).
      + eapply print_end_spec; [done|done|]. unfold c. rewrite length_app. destruct (format p); cbn [only List.length]; [|done].
        pose proof (zlen_tabs (pdepth p) Hd). lia.
      + unfold c. rewrite <- app_assoc. cbn [app]. by replace (pdepth p + 1 - 1) with (pdepth p) by lia. }
  destruct Hshow as (ok & p' & m' & E & K & S & F). exists ok, p', m'. split; [exact E|]. split; [done|]. split; [done|].
  intros He (_ & Hg). apply F; [done|]. by apply Forall_id_map.
Qed.
End values.

Lemma siblings_length f : (List.length (siblings f) ≤ List.length (addrs f))%nat.
Proof. induction f as [|a i kids _ rest IH]; cbn [siblings addrs List.length]; [done|]. rewrite length_app. lia. Qed.

(** The printer of values, for all of them. *)
Lemma print_value_spec mb fuel h : sized mb → prints_value (print_value mb fuel h) h fuel.
Proof.
  intros Hmb. induction fuel as [|fuel IH]; intros a i kids ks v pre p l m Hi Hr Hks Hv Hn Hs Hd Hat; [lia|].
  cbn [print_value]. rewrite Hi. cbn [mbind option_bind]. pose proof (siblings_length kids) as Hsib. unfold value_of in Hv. cbv zeta in *.
  assert (Hword : ∀ w, shows_at (print_text mb p w m) p m pre w True).
  { intros w. destruct (print_text_spec mb pre p l w m Hmb Hat) as (ok & p' & m' & E & K & D & S & F).
    exists ok, p', m'. split; [done|]. split; [done|]. split; [|tauto]. intros Hok. split; [done|tauto]. }
  destruct (Z.land (type i) 0xFF =? cJSON_NULL); [injection Hv as <-; apply Hword|].
  destruct (Z.land (type i) 0xFF =? cJSON_False); [injection Hv as <-; apply Hword|].
  destruct (Z.land (type i) 0xFF =? cJSON_True); [injection Hv as <-; apply Hword|].
  destruct (Z.land (type i) 0xFF =? cJSON_Number).
  { destruct (bool_decide_reflect (saturate (valuedouble i) = Some (valueint i))) as [Hn'|]; [|done]. injection Hv as <-.
    cbn [jshow fits]. rewrite Hn'. cbn [default]. by eapply print_number_spec. }
  destruct (Z.eqb_spec (Z.land (type i) 0xFF) cJSON_String) as [->|_].
  { change (cJSON_String =? cJSON_Raw) with false. change (cJSON_String =? cJSON_String) with true. cbv iota.
    apply fmap_Some in Hv as (s & Hs' & ->). destruct (valuestring i) as [vs|]; [|done].
    apply text_at_split in Hs' as (r & Hblk). cbn [string_at]. rewrite Hblk. cbn [mbind option_bind]. by eapply print_string_spec. }
  destruct (Z.eqb_spec (Z.land (type i) 0xFF) cJSON_Array) as [->|_].
  { change (cJSON_Array =? cJSON_Raw) with false. change (cJSON_Array =? cJSON_String) with false.
    change (cJSON_Array =? cJSON_Array) with true. cbv iota. injection Hv as <-. cbn [safe] in Hs.
    eapply (print_array_spec mb Hmb _ h fuel IH); try done; try lia. by apply Forall_id_map. }
  destruct (Z.eqb_spec (Z.land (type i) 0xFF) cJSON_Object) as [->|_]; [|done].
  change (cJSON_Object =? cJSON_Raw) with false. change (cJSON_Object =? cJSON_String) with false.
  change (cJSON_Object =? cJSON_Array) with false. change (cJSON_Object =? cJSON_Object) with true. cbv iota.
  apply fmap_Some in Hv as (ms & Hms & ->). apply mapM_keys_inv in Hms as ->. cbn [safe] in Hs.
  eapply (print_object_spec mb Hmb _ h fuel IH); try done; try lia. by apply Forall_id_map.
Qed.

(** ** Entry points *)

(** The tree at [a] stands for [v]; [a] has no siblings. *)
Definition is_tree (h : heap) (a : Z) (f : forest) (v : json) : Prop :=
  holds (items h) (Some a) f ∧ wired None f ∧ NoDup (addrs f) ∧ ∃ key, values (strings h) f = Some [(key, v)].

Lemma tree_made_is_tree h a f v h' : tree_made h a f v h' → is_tree h' a f v.
Proof. intros [G Hh Hw Hv]. split; [done|]. split; [done|]. split; [apply G|]. by eexists. Qed.

Lemma print_root mb h a f v pre p l m :
  sized mb → is_tree h a f v → safe v → 0 ≤ pdepth p → at_end pre p l →
  shows_at (print_value mb (print_fuel h) h a p m) p m pre (jshow (format p) (pdepth p) v) (fits (pdepth p) v).
Proof.
  intros Hmb (Hh & Hw & Hnd & key & Hv) Hs Hd Hat. pose proof (forest_size _ _ _ Hh Hnd) as Hsize.
  pose proof (holds_reach _ _ _ _ Hh Hw) as Hr. destruct f as [|a' i kids rest]; [done|].
  cbn [reach values addrs List.length] in *. destruct Hr as ([= <-] & Hi & Hk & _). rewrite length_app in Hsize.
  inv_bind. subst. eapply (print_value_spec mb (print_fuel h) h Hmb a i kids); try done. unfold print_fuel. lia.
Qed.

Lemma shows_string txt p mb k realloc l :
  shows [] txt p → Forall (λ c, c ≠ 0) txt → buffer p = Some l → sized mb →
  k = (if realloc : bool then zlen txt + 1 else Z.min (plength p) (zlen txt + 1)) →
  ∃ printed r, overlay (take (Z.to_nat k) l) (mb (zlen txt + 1)) = Some printed ∧ printed = txt ++ 0 :: r.
Proof.
  intros (l' & j & Hb & _ & _ & Hl & Ht) Hnz Hbl Hmb ->. rewrite Hb in Hbl. injection Hbl as ->.
  cbn [List.length] in Hl. rewrite Nat.add_0_l in Ht. cbn [app] in Ht.
  assert (Hk : Z.to_nat (if realloc then zlen txt + 1 else Z.min (plength p) (zlen txt + 1)) = (List.length txt + 1)%nat)
    by (destruct realloc; lia).
  rewrite Hk, Ht. unfold overlay. pose proof (Hmb (zlen txt + 1) ltac:(lia)).
  destruct (Nat.leb_spec (List.length (txt ++ [0])) (List.length (mb (zlen txt + 1)))) as [_|E]; [|rewrite length_app in E; cbn in E; lia].
  rewrite <- app_assoc. cbn [app]. by eexists _, _.
Qed.

Lemma print_spec mb h a f v fmt has_realloc m :
  sized mb → is_tree h a f v → safe v →
  ∃ res m', print mb h (Some a) fmt has_realloc m = Some (res, m') ∧
    match res with
    | Some block => (∃ r, block = jshow fmt 0 v ++ 0 :: r) ∧ live m' = live m + 1
    | None => live m' = live m
    end ∧
    (always_ok m → fits 0 v → zlen (jshow fmt 0 v) + 3 ≤ INT_MAX → res ≠ None).
Proof.
  intros Hmb Ht Hs. unfold print. destruct (sqlite3Malloc m) as [ok m0] eqn:E0. pose proof (sqlite3Malloc_live _ _ _ E0) as L0.
  destruct ok; cbn [negb b2z] in *.
  2: { eexists None, m0. split; [done|]. split; [lia|]. intros Hok. by apply (sqlite3Malloc_ok _ _ _ Hok) in E0 as [? _]. }
  set (p := mkPrint _ _ _ _ _ _ _). pose proof (Hmb 256 ltac:(lia)) as H256.
  assert (Hat : at_end [] p (mb 256)) by (split_and!; done || (cbn; lia)).
  destruct (print_root mb h a f v [] p (mb 256) m0 Hmb Ht Hs ltac:(done) Hat) as (ok & p1 & m1 & E1 & K & S & F).
  change (format p) with fmt in S, F. change (pdepth p) with 0 in S, F. set (txt := jshow fmt 0 v) in *.
  rewrite E1. cbn [mbind option_bind]. assert (Hnz : Forall (λ c, c ≠ 0) txt) by by apply nonzero_jshow.
  assert (L1 : live m1 + b2z (bool_decide (buffer p1 = None)) = live m + 1).
  { destruct K as (_ & _ & _ & K & _). rewrite K. cbn [buffer p]. rewrite bool_decide_false by done. cbn. lia. }
  destruct ok; cbn [negb].
  2: { eexists None, _. split; [done|]. split.
       - destruct (buffer p1); [rewrite bool_decide_false in L1 by done|rewrite bool_decide_true in L1 by done]; cbn in *; lia.
       - intros Hok Hfit Hlen. exfalso. assert (false = true); [|done]. apply F; [|done]. split; [done|]. split; [|cbn; lia].
         by apply (sqlite3Malloc_ok _ _ _ Hok) in E0 as [_ ?]. }
  destruct (S eq_refl) as (_ & Sh). destruct (update_offset_shows [] txt p1 Sh Hnz) as (p2 & l2 & -> & A2 & _ & E2).
  cbn [mbind option_bind]. destruct A2 as (Hb2 & Ho2 & Hl2 & _). cbn [app] in Ho2. rewrite Hb2. cbn [mbind option_bind].
  assert (Hb1 : buffer p1 = Some l2) by (rewrite E2 in Hb2; done).
  assert (Hp2 : plength p2 = plength p1) by (rewrite E2; done).
  destruct (sqlite3Malloc m1) as [ok m2] eqn:E3. pose proof (sqlite3Malloc_live _ _ _ E3) as L3.
  rewrite Hb1, bool_decide_false in L1 by done. cbn [b2z] in L1. destruct ok; cbn [negb b2z] in *.
  2: { eexists None, _. split; [done|]. split; [cbn; lia|]. intros Hok Hfit Hlen. exfalso.
       assert (Hok1 : always_ok m1) by (apply K; by apply (sqlite3Malloc_ok _ _ _ Hok) in E0 as [_ ?]).
       by apply (sqlite3Malloc_ok _ _ _ Hok1) in E3 as [? _]. }
  rewrite Ho2, Hp2.
  destruct (shows_string txt p1 mb _ (reallocate p2) l2 Sh Hnz Hb1 Hmb eq_refl) as (printed & r & Eo & Er).
  rewrite Eo. cbn [mbind option_bind].
  assert (Hend : ∃ r', (if reallocate p2 then Some printed else wr printed (zlen txt) 0) = Some (txt ++ 0 :: r')).
  { destruct (reallocate p2); [by exists r; rewrite Er|]. rewrite Er, wr_in_bounds by (rewrite length_app; cbn; lia).
    exists r. f_equal. rewrite Nat2Z.id, insert_app_r_alt, Nat.sub_diag by lia. done. }
  destruct Hend as (r' & ->). cbn [mbind option_bind].
  eexists (Some _), _. split; [done|]. split; [|done]. split; [by eexists|cbn; lia].
Qed.


(** ** Witnesses *)

(** The items of [{"k":[1,"a\n"]}]. *)
Definition item_k : cJSON := set_string (Some 6) (set_prev (Some 2) (set_child (Some 3) (set_type cJSON_Array blank))).
Definition item_1 : cJSON := set_number (of_int 1) 1 (set_next (Some 4) (set_prev (Some 4) (set_type cJSON_Number blank))).
Definition item_a : cJSON := set_valuestring (Some 7) (set_prev (Some 3) (set_type cJSON_String blank)).
Definition item_root : cJSON := set_child (Some 2) (set_type cJSON_Object blank).
Definition small_heap : heap :=
  mkHeap {[1 := item_root; 2 := item_k; 3 := item_1; 4 := item_a]} {[6 := [107; 0]; 7 := [97; 10; 0; 9]]} 8 [].
Definition small_forest : forest :=
  FCons 1 item_root (FCons 2 item_k (FCons 3 item_1 FNil (FCons 4 item_a FNil FNil)) FNil) FNil.
Definition small_value : json := JObject [([107], JArray [JNumber (of_int 1); JString [97; 10]])].

Lemma small_tree : is_tree small_heap 1 small_forest small_value.
Proof.
  split; [by vm_compute; repeat split|]. split; [by vm_compute; repeat split|].
  split; [apply (bool_decide_unpack (NoDup (addrs small_forest))); done|]. exists None. vm_compute. reflexivity.
Qed.

Lemma chars_ok s : forallb (λ c, (0 <? c) && (c <? 256)) s = true → chars s.
Proof. intros H. apply Forall_forall. intros c Hc. rewrite forallb_forall in H. apply list_elem_of_In, H in Hc. b2p. lia. Qed.

Lemma small_safe : safe small_value.
Proof.
  repeat constructor; cbn; try apply chars_ok; try done; try (vm_compute; congruence).
Qed.

