(* ===== verification/CJsonRoundtrip.v ===== *)
(** Reading back what was printed: the parser of lists (CJsonRef.v) on the text of a value
    (CJsonPrintProofs.v), and printing followed by parsing in the code. *)
From S2P Require Import Prelude CJsonHeap CJsonHeapProofs CJsonText CJsonTextProofs CJsonNum CJsonNumProofs CJson CJsonRef.
From S2P Require Import CJsonParseProofs CJsonPrintProofs.

(** Values with [int] numbers, and strings without NUL bytes and without the control characters that
    have no letter. *)
Definition plain_string (s : list Z) : Prop := chars s ∧ controls s = 0.
Fixpoint faithful (v : json) : Prop :=
  match v with
  | JNumber d => ∃ n, INT_MIN ≤ n ≤ INT_MAX ∧ d = of_int n
  | JString s => plain_string s
  | JArray l => Forall id (map faithful l)
  | JObject l => Forall id (map (λ kv, plain_string kv.1 ∧ faithful kv.2) l)
  | _ => True
  end.

Lemma plain_safe s : plain_string s → safe_string s.
Proof. intros (H1 & H2). split; [done|lia]. Qed.

Lemma faithful_safe v : faithful v → safe v.
Proof.
  induction v as [| | |d|s|l IH|l IH] using json_induction; cbn [faithful safe]; try done; [apply plain_safe|..];
    rewrite !Forall_id_map; intros H.
  - induction IH as [|v l Hv _ IHl]; [done|]. apply Forall_cons in H as (H1 & H2). constructor; [by apply Hv|by apply IHl].
  - induction IH as [|[k v] l Hv _ IHl]; [done|]. apply Forall_cons in H as ((H0 & H1) & H2).
    constructor; [split; [by apply plain_safe|by apply Hv]|by apply IHl].
Qed.

(** ** Skipping *)

Definition blank_text (t : list Z) : Prop := Forall (λ c, c ≤ 32) t.

Lemma blank_nil : blank_text [].
Proof. constructor. Qed.
#[local] Hint Resolve blank_nil : core.

Lemma drop_blank_app t z : blank_text t → drop_blank (t ++ z) = drop_blank z.
Proof. induction 1 as [|c t Hc _ IH]; [done|]. cbn [app drop_blank]. by destruct (Z.leb_spec c 32); [|lia]. Qed.

Lemma skip_over t c z : blank_text t → 32 < c → skip (t ++ c :: z) = c :: z.
Proof.
  intros Ht Hc. unfold skip. rewrite drop_blank_app by done. cbn [drop_blank]. by destruct (Z.leb_spec c 32); [lia|].
Qed.

Lemma skip_solid c z : 32 < c → skip (c :: z) = c :: z.
Proof. by apply (skip_over []). Qed.

Lemma skip_idem z : skip (skip z) = skip z.
Proof.
  unfold skip. destruct (drop_blank_split z) as (t & Hz & Ht). destruct (drop_blank z) as [|c r] eqn:E.
  - rewrite app_nil_r in Hz. subst z. destruct (decide (t = [])) as [->|Hne]; [done|].
    assert (Hlast : ∃ c, drop (List.length t - 1) t = [c] ∧ c ≤ 32).
    { destruct (exists_last Hne) as (t' & c & ->). exists c. rewrite length_app. cbn [List.length].
      replace (List.length t' + 1 - 1)%nat with (List.length t') by lia. rewrite drop_app_length. split; [done|].
      apply Forall_app in Ht as (_ & Ht). by apply Forall_cons in Ht as (? & _). }
    destruct Hlast as (c & -> & Hc). cbn. by destruct (Z.leb_spec c 32); [|lia].
  - assert (Hr : drop_blank (c :: r) = c :: r); [|by rewrite Hr].
    assert (Hb : drop_blank (drop_blank z) = drop_blank z).
    { clear. induction z as [|d z IH]; [done|]. cbn [drop_blank]. destruct (Z.leb_spec d 32) as [|Hd]; [done|].
      cbn [drop_blank]. by destruct (Z.leb_spec d 32); [lia|]. }
    by rewrite E in Hb.
Qed.

Lemma blank_only b t : blank_text t → blank_text (only b t).
Proof. destruct b; [done|]. constructor. Qed.
Lemma blank_tabs d : blank_text (tabs d).
Proof. by apply Forall_replicate. Qed.

(** ** The first character of a text *)

Lemma quoted_plain s : plain_string s → quoted s = 34 :: escaped s ++ [34].
Proof. intros (Hs & Hc). unfold quoted. by rewrite take_ge by lia. Qed.

Lemma jshow_head format d v :
  faithful v → ∃ c t, jshow format d v = c :: t ∧ 32 < c ∧ c ≠ 93 ∧ c ≠ 125 ∧ c < 128.
Proof.
  destruct v as [| | |x|s|l|l]; cbn [jshow faithful]; intros Hf; try (eexists _, _; split; [reflexivity|lia]).
  destruct Hf as (n & Hn & ->). rewrite (saturate_of_int n Hn). change (default 0 (Some n)) with n. rewrite (number_text_int n Hn).
  destruct (number_ref_format n [] Hn I) as (_ & c & t & -> & Hc & Hlow). exists c, t. split; [done|]. split; [done|].
  apply orb_true_iff in Hc as [Hc|Hc]; [b2p; lia|]. unfold is_digit in Hc. b2p. lia.
Qed.

Lemma cstr_chars s : chars s → cstr s = s.
Proof. induction 1 as [|c s Hc _ IH]; [done|]. cbn [cstr]. destruct (Z.eqb_spec c 0); [lia|]. by f_equal. Qed.

(** ** Reading the text of a value *)

(** [value] reads the texts of [l] in inputs of less than [n] bytes. *)
Definition reads (value : list Z → option (json * list Z)) (text : json → list Z) (n : nat) (v : json) : Prop :=
  ∀ r, ends_number r → (List.length (text v ++ r) < n)%nat → value (text v ++ r) = Some (v, r).

Section lists.
Context (value : list Z → option (json * list Z)) (text : json → list Z) (n : nat).
Context (Htext : ∀ v, faithful v → ∃ c t, text v = c :: t ∧ 32 < c ∧ c ≠ 93 ∧ c ≠ 125 ∧ c < 128).

Lemma jelements_show fuel b s l r :
  blank_text b → blank_text s → l ≠ [] → Forall faithful l → Forall (reads value text n) l →
  let z := b ++ element_texts text (44 :: s) l ++ 93 :: r in
  (List.length z < n)%nat → (List.length z < fuel)%nat → jelements value fuel z = Some (l, 93 :: r).
Proof.
  intros Hb Hs. cbv zeta. revert fuel b Hb. induction l as [|v l IH]; intros fuel b Hb Hne Hf Hr Hn Hfuel; [done|].
  apply Forall_cons in Hf as (Hfv & Hf). apply Forall_cons in Hr as (Hrv & Hr).
  destruct fuel as [|fuel]; [lia|]. cbn [jelements element_texts]. rewrite <- !app_assoc.
  cbn [element_texts] in Hn, Hfuel. rewrite !length_app in Hn, Hfuel. cbn [List.length] in Hn, Hfuel.
  destruct (Htext v Hfv) as (c & t & Ec & Hc & _). set (r1 := _ ++ element_texts _ _ l ++ 93 :: r).
  assert (Hskip : skip (b ++ text v ++ r1) = text v ++ r1) by (rewrite Ec; cbn [app]; by apply skip_over).
  rewrite Hskip. assert (Hr1 : List.length r1 = (List.length (match l with [] => [] | _ => cons 44%Z s end) +
    (List.length (element_texts text (cons 44%Z s) l) + S (List.length r)))%nat) by (unfold r1; rewrite !length_app; cbn [List.length]; lia).
  rewrite Hrv; [|unfold r1; by destruct l|rewrite length_app; lia]. cbn [mbind option_bind]. unfold r1. destruct l as [|w l].
  - cbn [app element_texts]. by rewrite (skip_solid 93 r).
  - cbn [app]. rewrite (skip_solid 44) by done. cbn [eat]. change (44 =? 44) with true. cbv iota.
    rewrite IH; try done; rewrite !length_app; cbn [List.length] in *; lia.
Qed.

Lemma jarray_show fuel s l r :
  blank_text s → Forall faithful l → Forall (reads value text n) l →
  let z := element_texts text (44 :: s) l ++ 93 :: r in
  (List.length z < n)%nat → (List.length z < fuel)%nat → jarray value fuel z = Some (JArray l, r).
Proof.
  cbv zeta. intros Hs Hf Hr Hn Hfuel. unfold jarray. destruct l as [|v l].
  - cbn [element_texts app]. rewrite (skip_solid 93) by done. done.
  - assert (Hskip : skip (element_texts text (44 :: s) (v :: l) ++ 93 :: r) = element_texts text (44 :: s) (v :: l) ++ 93 :: r ∧
      eat 93 (element_texts text (44 :: s) (v :: l) ++ 93 :: r) = None).
    { apply Forall_cons in Hf as (Hfv & _). cbn [element_texts]. destruct (Htext v Hfv) as (c & t & -> & Hc & Hne & _).
      cbn [app]. rewrite (skip_solid c) by done. cbn [eat]. by destruct (Z.eqb_spec c 93). }
    destruct Hskip as (-> & ->). pose proof (jelements_show fuel [] s (v :: l) r) as H. cbn [app] in H. by rewrite H.
Qed.

Lemma jmembers_show fuel b indent s newline t l r :
  blank_text b → blank_text indent → blank_text s → blank_text newline → blank_text t → l ≠ [] →
  Forall (λ kv, plain_string kv.1 ∧ faithful kv.2) l → Forall (λ kv, reads value text n kv.2) l →
  ends_number (newline ++ t ++ 125 :: r) →
  let z := member_texts text indent (58 :: s) newline l ++ t ++ 125 :: r in
  (List.length (b ++ z) < n)%nat → (List.length (b ++ z) < fuel)%nat →
  jmembers value fuel (b ++ z) = Some (l, 125 :: r).
Proof.
  intros Hb Hi Hs Hnl Ht. cbv zeta. revert fuel b Hb. induction l as [|[k v] l IH]; intros fuel b Hb Hne Hf Hr He1 Hn Hfuel; [done|].
  apply Forall_cons in Hf as ((Hk & Hfv) & Hf). apply Forall_cons in Hr as (Hrv & Hr). cbn [fst snd] in Hk, Hfv, Hrv.
  destruct fuel as [|fuel]; [lia|]. cbn [jmembers member_texts]. rewrite <- !app_assoc.
  cbn [member_texts] in Hn, Hfuel. rewrite !length_app in Hn, Hfuel. cbn [List.length] in Hn, Hfuel.
  rewrite (quoted_plain k Hk). cbn [app]. rewrite <- (app_assoc (escaped k)). cbn [app]. rewrite app_assoc.
  rewrite skip_over; [|by apply Forall_app|done]. rewrite string_ref_escaped by apply Hk. cbn [mbind option_bind].
  rewrite (skip_solid 58) by done. cbn [eat]. change (58 =? 58) with true. cbn [mbind option_bind].
  destruct (Htext v Hfv) as (c & tv & Ec & Hc & _). set (r1 := _ ++ newline ++ _).
  assert (Hskip : skip (s ++ text v ++ r1) = text v ++ r1) by (rewrite Ec; cbn [app]; by apply skip_over).
  rewrite Hskip. assert (Hr1 : List.length r1 = (List.length (match l with [] => [] | _ => [44%Z] end) + (List.length newline +
    (List.length (member_texts text indent (cons 58%Z s) newline l) + (List.length t + S (List.length r)))))%nat)
    by (unfold r1; rewrite !length_app; cbn [List.length]; lia).
  rewrite Hrv; [|unfold r1; by destruct l|rewrite length_app; lia]. cbn [mbind option_bind].
  assert (Hcs : cstr k = k) by apply cstr_chars, Hk.
  rewrite Hcs. unfold r1. destruct l as [|w l].
  - cbn [app member_texts]. rewrite app_assoc, skip_over; [|by apply Forall_app|done]. done.
  - cbn [app]. rewrite (skip_solid 44) by done. cbn [eat]. change (44 =? 44) with true. cbv iota.
    rewrite IH; try done; rewrite !length_app; cbn [List.length] in *; lia.
Qed.
End lists.

(** The first character decides. *)
Lemma jvalue_other fuel d c z :
  c ≠ 110 → c ≠ 102 → c ≠ 116 →
  jvalue (S fuel) d (c :: z) =
    if c =? 34 then '(s, r) ← string_ref (c :: z); Some (JString (cstr s), r)
    else if (c =? 45) || is_digit c then '(x, r) ← number_ref (c :: z); Some (JNumber x, r)
    else if c =? 91 then if CJSON_NESTING_LIMIT <=? d then None else jarray (jvalue fuel (d + 1)) fuel z
    else if c =? 123 then if CJSON_NESTING_LIMIT <=? d then None else jobject (jvalue fuel (d + 1)) fuel z
    else None.
Proof.
  intros H1 H2 H3. cbn [jvalue strip word_null word_false word_true eat].
  destruct (Z.eqb_spec c 110); [done|]. destruct (Z.eqb_spec c 102); [done|]. by destruct (Z.eqb_spec c 116).
Qed.

Lemma jvalue_show format v fuel d r :
  faithful v → fits d v → ends_number r →
  (List.length (jshow format d v ++ r) < fuel)%nat → jvalue fuel d (jshow format d v ++ r) = Some (v, r).
Proof.
  revert fuel d r. induction v as [| | |x|s|l IH|l IH] using json_induction; intros fuel d r Hv Hfit Hr Hf;
    (destruct fuel as [|fuel]; [lia|]); try done.
  - destruct Hv as (n & Hn & ->). cbn [jshow]. rewrite (saturate_of_int n Hn). change (default 0 (Some n)) with n.
    rewrite (number_text_int n Hn). destruct (number_ref_format n r Hn Hr) as (Href & c & t & Ec & Hc & _). rewrite Ec in *.
    cbn [app] in *. apply orb_true_iff in Hc as Hc'. rewrite jvalue_other by (destruct Hc' as [H|H]; [b2p; lia|unfold is_digit in H; b2p; lia]).
    assert (H34 : (c =? 34) = false) by (apply Z.eqb_neq; destruct Hc' as [H|H]; [b2p; lia|unfold is_digit in H; b2p; lia]).
    by rewrite H34, Hc, Href.
  - cbn [jshow]. rewrite (quoted_plain s Hv). cbn [app]. rewrite jvalue_other by done. change (34 =? 34) with true. cbv iota.
    rewrite <- app_assoc. cbn [app]. rewrite string_ref_escaped by apply Hv. cbn [mbind option_bind].
    by rewrite cstr_chars by apply Hv.
  - cbn [jshow fits faithful] in *. destruct Hfit as (Hd & Hfit). rewrite Forall_id_map in Hfit. rewrite Forall_id_map in Hv.
    cbn [app] in *. rewrite <- app_assoc in *. cbn [app List.length] in *. rewrite jvalue_other by done.
    change (91 =? 34) with false. change ((91 =? 45) || is_digit 91) with false. change (91 =? 91) with true. cbv iota.
    destruct (Z.leb_spec CJSON_NESTING_LIMIT d); [lia|].
    apply (jarray_show _ (jshow format (d + 1)) fuel); try done; try lia.
    + intros w. apply jshow_head.
    + apply blank_only. by repeat constructor.
    + clear Hf. induction IH as [|v l Hvl _ IHl]; [done|]. apply Forall_cons in Hv as (Hv1 & Hv2).
      apply Forall_cons in Hfit as (Hf1 & Hf2). constructor; [|by apply IHl]. intros r' Hr' Hlt. by apply Hvl.
  - cbn [jshow fits faithful] in *. destruct Hfit as (Hd & Hfit). rewrite Forall_id_map in Hfit. rewrite Forall_id_map in Hv.
    cbn [app] in *. rewrite jvalue_other by done.
    change (123 =? 34) with false. change ((123 =? 45) || is_digit 123) with false. change (123 =? 91) with false.
    change (123 =? 123) with true. cbv iota. destruct (Z.leb_spec CJSON_NESTING_LIMIT d); [lia|].
    rewrite <- !app_assoc in *. cbn [app List.length] in *. unfold jobject.
    set (z := only format [10] ++ _) in *.
    destruct l as [|kv l].
    + assert (Hz : skip z = 125 :: r).
      { unfold z. cbn [member_texts app]. rewrite app_assoc. apply skip_over; [|done]. apply Forall_app.
        split; apply blank_only; [by repeat constructor|apply blank_tabs]. }
      by rewrite Hz.
    + assert (Hz : eat 125 (skip z) = None).
      { unfold z. destruct kv as [k v]. cbn [member_texts]. apply Forall_cons in Hv as ((Hk & _) & _).
        rewrite <- !app_assoc, (quoted_plain k Hk). cbn [app]. rewrite app_assoc, skip_over; [done| |done].
        apply Forall_app. split; apply blank_only; [by repeat constructor|apply blank_tabs]. }
      assert (Hskip : jmembers (jvalue fuel (d + 1)) fuel (skip z) = jmembers (jvalue fuel (d + 1)) fuel z).
      { destruct fuel; [done|]. cbn [jmembers]. by rewrite skip_idem. }
      rewrite Hz, Hskip. unfold z at 1.
      rewrite (jmembers_show _ (jshow format (d + 1)) fuel); try done; try (unfold z in Hf; lia).
      * intros w. apply jshow_head.
      * apply blank_only. by repeat constructor.
      * apply blank_only, blank_tabs.
      * apply blank_only. by repeat constructor.
      * apply blank_only. by repeat constructor.
      * apply blank_only, blank_tabs.
      * clear Hz Hskip z Hf. induction IH as [|[k v] l' Hvl _ IHl]; [done|]. apply Forall_cons in Hv as ((_ & Hv1) & Hv2).
        apply Forall_cons in Hfit as (Hf1 & Hf2). constructor; [|by apply IHl]. intros r' Hr' Hlt. by apply Hvl.
      * destruct format; [done|]. done.
Qed.

(** ** Printing and parsing *)

Lemma strip_other w c z : match w with x :: _ => c ≠ x | [] => False end → strip w (c :: z) = None.
Proof. destruct w as [|x w]; [done|]. intros Hc. cbn. by destruct (Z.eqb_spec c x). Qed.

Lemma jtext_show format v r :
  faithful v → fits 0 v → ends_number r → jtext false (jshow format 0 v ++ r) = Some (v, r).
Proof.
  intros Hv Hfit Hr. destruct (jshow_head format 0 v Hv) as (c & t & Ec & Hc & _ & _ & Hlt). unfold jtext.
  assert (Hbom : (if 4 <? zlen (jshow format 0 v ++ r) then default (jshow format 0 v ++ r) (strip byte_order_mark (jshow format 0 v ++ r))
                  else jshow format 0 v ++ r) = jshow format 0 v ++ r).
  { destruct (4 <? _); [|done]. rewrite Ec. cbn [app]. rewrite strip_other; [done|]. cbn. lia. }
  rewrite Hbom. assert (Hskip : skip (jshow format 0 v ++ r) = jshow format 0 v ++ r).
  { rewrite Ec. cbn [app]. by apply skip_solid. }
  rewrite Hskip, jvalue_show by (done || lia). done.
Qed.

(** C3: Printing a tree of items and parsing the text gives a tree for the same value, formatted
    or not: for values whose numbers are ints, whose strings have no NUL byte and no control
    character without an escape letter, that are at most a thousand levels deep and whose text is at most 2^31 - 4 bytes
    long, when memory is granted, in blocks of at least the size asked for. The parser has no result only if a string literal of the text, without a
    [\u] escape, gets a block with no byte more than it asks for. *)
Theorem print_parse mb h a f v fmt has_realloc m h0 :
  sized mb → is_tree h a f v → faithful v → fits 0 v → always_ok m → zlen (jshow fmt 0 v) + 3 ≤ INT_MAX →
  below h0 → all_ok h0 →
  ∃ block m', print mb h (Some a) fmt has_realloc m = Some (Some block, m') ∧ c_string block = Some (jshow fmt 0 v) ∧
    match cJSON_Parse mb (Some block) h0 with
    | None => overflowing mb (jshow fmt 0 v ++ [0])
    | Some (r, h') => ∃ a' f', root r = Some a' ∧ tree_made h0 a' f' v h'
    end.
Proof.
  intros Hmb Ht Hv Hfit Hm Hlen Hb Hok.
  destruct (print_spec mb h a f v fmt has_realloc m Hmb Ht (faithful_safe _ Hv)) as (res & m' & E & H & Hno).
  specialize (Hno Hm Hfit Hlen). destruct res as [block|]; [|done]. destruct H as ((r0 & ->) & _).
  set (txt := jshow fmt 0 v) in *. assert (Hnz : Forall (λ c, c ≠ 0) txt) by apply nonzero_jshow, faithful_safe, Hv.
  exists (txt ++ 0 :: r0), m'. split; [done|]. split; [by apply c_string_app|].
  assert (Htake : take (Z.to_nat (zlen txt + 1)) (txt ++ 0 :: r0) = txt ++ [0]).
  { replace (Z.to_nat (zlen txt + 1)) with (List.length txt + 1)%nat by lia. by rewrite take_app_add. }
  unfold cJSON_Parse, cJSON_ParseWithOpts. rewrite strlen_app by done. cbn [mbind option_bind].
  destruct (parse_made mb (txt ++ 0 :: r0) (zlen txt + 1) false h0 Hmb Hb) as [(-> & H)|(r & h' & -> & Hp)]; [len|by rewrite Htake in H|].
  rewrite Htake in Hp. pose proof (jtext_show fmt v [0] Hv Hfit eq_refl) as Hj. fold txt in Hj. rewrite Hj in Hp.
  destruct (root r) as [a'|]; [|destruct Hp as (_ & _ & Hp); by specialize (Hp Hok)].
  destruct Hp as (f' & v' & rest & [= <- <-] & T & _). by exists a', f'.
Qed.

(** ** Witnesses *)

Lemma small_faithful : faithful small_value.
Proof.
  constructor; [|constructor]. split; [split; [by apply chars_ok|done]|]. constructor; [|constructor; [|constructor]].
  - exists 1. split; [vm_compute; split; congruence|done].
  - split; [by apply chars_ok|done].
Qed.

Lemma small_fits : fits 0 small_value.
Proof.
  split; [done|]. constructor; [|constructor]. split; [done|]. constructor; [|constructor; [done|constructor]].
  vm_compute. congruence.
Qed.

Lemma print_parse_witness :
  ∃ block m', print roomy_blocks small_heap (Some 1) true true (Mem [] 0) = Some (Some block, m') ∧ c_string block = Some (jshow true 0 small_value) ∧
    match cJSON_Parse roomy_blocks (Some block) empty_heap with
    | None => overflowing roomy_blocks (jshow true 0 small_value ++ [0])
    | Some (r, h') => ∃ a' f', root r = Some a' ∧ tree_made empty_heap a' f' small_value h'
    end.
Proof.
  apply (print_parse roomy_blocks small_heap 1 small_forest small_value true true (Mem [] 0) empty_heap).
  - apply roomy_sized, roomy_blocks_roomy.
  - apply small_tree.
  - apply small_faithful.
  - apply small_fits.
  - constructor.
  - vm_compute. congruence.
  - apply empty_below.
  - constructor.
Defined.
