(* ===== verification/CJsonCopyProofs.v ===== *)
(** Proofs about duplication in cJSON (CJsonOps.v): the copy of a tree, which may have
    references, constant keys and items of any type, is a separate tree of new items with the
    same contents, and when memory or levels run out nothing of it is left. *)
From S2P Require Import Prelude CJsonHeap CJsonHeapProofs CJsonText CJsonTextProofs CJsonNum CJsonNumProofs CJson CJsonRef.
From S2P Require Import CJsonParseProofs CJsonPrintProofs CJsonOps.

(** ** Strings *)

Lemma strlen_nonzero l k : strlen l = Some k → nonzero (take (Z.to_nat k) l).
Proof.
  revert k. induction l as [|c l IH]; intros k; cbn [strlen]; [done|]. destruct (Z.eqb_spec c 0); [by intros [= <-]; constructor|].
  destruct (strlen l) as [k'|] eqn:E; [|done]. cbn. intros [= <-]. destruct (strlen_split l k' E) as (H0 & _).
  replace (Z.to_nat (k' + 1)) with (S (Z.to_nat k')) by lia. cbn [take]. constructor; [done|]. by apply IH.
Qed.

Lemma text_at_inv st s t : text_at st (Some s) = Some t → ∃ r, st !! s = Some (t ++ 0 :: r) ∧ nonzero t.
Proof.
  intros H. destruct (text_at_split st s t H) as (r & Hr). exists r. split; [done|].
  unfold text_at in H. cbn in H. rewrite Hr in H. cbn in H. unfold c_string in H.
  destruct (strlen (t ++ 0 :: r)) as [k|] eqn:E; [|done]. cbn in H. injection H as <-. by apply strlen_nonzero.
Qed.

Lemma text_at_intro st s t r : st !! s = Some (t ++ 0 :: r) → nonzero t → text_at st (Some s) = Some t.
Proof. intros H Ht. unfold text_at. cbn. rewrite H. cbn. by apply c_string_app. Qed.

(** What a pointer to a string that may be NULL stands for. *)
Definition opt_text (st : gmap Z (list Z)) (o : option Z) : option (option (list Z)) :=
  match o with None => Some None | Some s => Some <$> text_at st (Some s) end.

Lemma opt_text_mono st st' o t : st ⊆ st' → opt_text st o = Some t → opt_text st' o = Some t.
Proof.
  intros Hst. destruct o as [s|]; [|done]. cbn [opt_text]. rewrite !fmap_Some. intros (x & Hx & ->).
  exists x. split; [by apply (text_at_mono st)|done].
Qed.

Lemma cJSON_strdup_spec mb h s t :
  sized mb → text_at (strings h) (Some s) = Some t →
  ∃ blk, c_string blk = Some t ∧
    cJSON_strdup mb h (Some s) =
      Some (if granted h then (Some (brk h), mkHeap (items h) (<[brk h := blk]> (strings h)) (brk h + 1) (tail (answers h)))
            else (None, mkHeap (items h) (strings h) (brk h) (tail (answers h)))).
Proof.
  intros Hmb (r & Hs & Ht)%text_at_inv. unfold cJSON_strdup. rewrite Hs. cbn [mbind option_bind].
  rewrite strlen_app by done. cbn [mbind option_bind]. rewrite new_string_spec.
  exists (t ++ 0 :: drop (List.length t + 1) (mb (zlen t + 1))). split; [by apply c_string_app|].
  destruct (granted h); [|done]. cbn [strings]. rewrite lookup_insert_eq. cbn [mbind option_bind].
  assert (Htake : take (Z.to_nat (zlen t + 1)) (t ++ 0 :: r) = t ++ [0]).
  { replace (Z.to_nat (zlen t + 1)) with (List.length t + 1)%nat by lia. by rewrite take_app_add. }
  rewrite Htake. unfold overlay. pose proof (Hmb (zlen t + 1) ltac:(lia)). rewrite length_app. cbn [List.length].
  destruct (Nat.leb_spec (List.length t + 1) (List.length (mb (zlen t + 1)))); [|lia]. cbn [mbind option_bind].
  unfold with_strings. cbn [items strings brk answers]. by rewrite insert_insert_eq, <- app_assoc.
Qed.

(** ** Heaps that keep another one *)

(** Every block of [H] is still there. *)
Definition kept (H h : heap) : Prop :=
  (∀ a, a < brk H → items h !! a = items H !! a) ∧ (∀ s, s < brk H → strings h !! s = strings H !! s) ∧ brk H ≤ brk h.

Lemma kept_refl h : kept h h.
Proof. by split_and!. Qed.

Lemma kept_grown H h h' t la ls : kept H h → grown h h' t la ls → (∀ a, a ∈ t → brk H ≤ a) → kept H h'.
Proof.
  intros (Hi & Hs & Hb) G Ht. split_and!.
  - intros a Ha. rewrite (grown_items _ _ _ _ _ G); [by apply Hi|..].
    + intros Hin. apply (grown_la _ _ _ _ _ G) in Hin. lia.
    + intros Hin. apply Ht in Hin. lia.
  - intros s Ha. rewrite (grown_strings _ _ _ _ _ G); [by apply Hs|]. intros Hin. apply (grown_ls _ _ _ _ _ G) in Hin. lia.
  - pose proof (grown_brk _ _ _ _ _ G). lia.
Qed.

Lemma kept_strings H h : below H → kept H h → strings H ⊆ strings h.
Proof.
  intros (_ & Hb) (_ & Hs & _). apply map_subseteq_spec. intros s l E. rewrite Hs; [done|]. apply Hb. by rewrite E.
Qed.

(** Steps that add to what has been made since [h]. *)
Lemma grown_upd h h1 t la ls a f i :
  grown h h1 t la ls → a ∈ la → items h1 !! a = Some i →
  upd a f h1 = Some (with_items (<[a := f i]> (items h1)) h1) ∧ grown h (with_items (<[a := f i]> (items h1)) h1) t la ls.
Proof.
  intros G Ha Hi. destruct (upd_grown a f h1 i Hi) as (E & G1). split; [done|].
  rewrite <- (app_nil_r la), <- (app_nil_r ls). apply (grown_trans _ _ _ _ _ _ _ _ _ G G1).
  intros b Hb. apply list_elem_of_singleton in Hb as ->. by right.
Qed.

Lemma all_ok_eq h h' : answers h' = answers h → all_ok h → all_ok h'.
Proof. unfold all_ok. by intros ->. Qed.

(** The copy of a string that may be NULL. *)
Lemma strdup_grown mb h o t :
  sized mb → below h → opt_text (strings h) o = Some t →
  ∃ r h', cJSON_strdup mb h o = Some (r, h') ∧ items h' = items h ∧ grown h h' [] [] (olist r) ∧ (all_ok h → all_ok h') ∧
    (bool_decide (o ≠ None) && bool_decide (r = None) = false → opt_text (strings h') r = Some t) ∧
    (bool_decide (o ≠ None) && bool_decide (r = None) = true → ¬ all_ok h).
Proof.
  intros Hmb Hb. destruct o as [s|]; cbn [opt_text].
  2: { intros [= <-]. exists None, h. split_and!; try done. apply grown_refl. intros a Ha. by apply elem_of_nil in Ha. }
  rewrite fmap_Some. intros (x & Hx & ->). destruct (cJSON_strdup_spec mb h s x Hmb Hx) as (blk & Hblk & E).
  destruct (granted h) eqn:Hg; rewrite E; eexists _, _; (split; [reflexivity|]); split_and!; cbn [items strings answers]; try done.
  - split; cbn; try done; try apply NoDup_nil_2; try apply NoDup_singleton; try lia.
    + intros a Ha. by apply elem_of_nil in Ha.
    + intros a Ha. apply lookup_insert_ne. intros <-. apply Ha. left.
    + intros a Ha. by apply elem_of_nil in Ha.
    + intros a Ha. apply list_elem_of_singleton in Ha as ->. split; [lia|]. by rewrite lookup_insert_eq.
  - apply all_ok_tail.
  - intros _. unfold opt_text, text_at. cbn [mbind option_bind]. rewrite lookup_insert_eq. cbn [mbind option_bind]. by rewrite Hblk.
  - apply grown_unchanged; cbn; done || lia.
  - apply all_ok_tail.
  - intros _ Hok. apply all_ok_granted in Hok. congruence.
Qed.

(** ** One item *)

(** The strings of an item, and of all items of a forest, can be read. *)
Definition readable (st : gmap Z (list Z)) (i : cJSON) : Prop :=
  is_Some (opt_text st (valuestring i)) ∧ is_Some (opt_text st (string i)).
Fixpoint all_readable (st : gmap Z (list Z)) (f : forest) : Prop :=
  match f with
  | FNil => True
  | FCons _ i kids rest => readable st i ∧ all_readable st kids ∧ all_readable st rest
  end.

(** [i'] is a copy of [i] that is not a reference. *)
Definition like (st st' : gmap Z (list Z)) (i i' : cJSON) : Prop :=
  type i' = clear_bit cJSON_IsReference (type i) ∧ valueint i' = valueint i ∧ valuedouble i' = valuedouble i ∧
  (∃ t, opt_text st (valuestring i) = Some t ∧ opt_text st' (valuestring i') = Some t) ∧
  (∃ t, opt_text st (string i) = Some t ∧ opt_text st' (string i') = Some t).

Lemma like_mono st st' st'' i i' : st' ⊆ st'' → like st st' i i' → like st st'' i i'.
Proof.
  intros Hst (H1 & H2 & H3 & (t1 & H4 & H5) & (t2 & H6 & H7)).
  split_and!; try done; [exists t1|exists t2]; (split; [done|by eapply opt_text_mono]).
Qed.

Lemma clear_reference t : Z.land (clear_bit cJSON_IsReference t) cJSON_IsReference = 0.
Proof. unfold clear_bit. apply Z.bits_inj'. intros n Hn. rewrite !Z.land_spec, Z.lnot_spec, Z.bits_0 by done. by destruct (Z.testbit t n), (Z.testbit _ n). Qed.

Lemma clear_other t b : Z.land b cJSON_IsReference = 0 → Z.land (clear_bit cJSON_IsReference t) b = Z.land t b.
Proof.
  intros Hb. unfold clear_bit. apply Z.bits_inj'. intros n Hn. rewrite !Z.land_spec, Z.lnot_spec by done.
  apply (f_equal (λ x, Z.testbit x n)) in Hb. rewrite Z.land_spec, Z.bits_0 in Hb.
  by destruct (Z.testbit t n), (Z.testbit b n), (Z.testbit cJSON_IsReference n).
Qed.

(** A new item without children: complete, or as far as memory went. *)
Lemma duplicate_item_spec mb h a i :
  sized mb → below h → items h !! a = Some i → readable (strings h) i →
  ∃ r ok h', duplicate_item mb h a = Some (r, ok, h') ∧
    match r with
    | None => ok = false ∧ unchanged h h' ∧ ¬ all_ok h
    | Some n => ∃ i', grown h h' [] [n] (own_strings i') ∧ items h' !! n = Some i' ∧ next i' = None ∧ prev i' = None ∧
        child i' = None ∧ has cJSON_IsReference i' = false ∧
        if ok : bool then like (strings h) (strings h') i i' ∧ (all_ok h → all_ok h') else ¬ all_ok h
    end.
Proof.
  intros Hmb Hb Hi ((tv & Hv) & (tk & Hk)). unfold duplicate_item. rewrite new_item_spec.
  destruct (granted h) eqn:Hg; rewrite ?Hg.
  2: { eexists None, false, _. split; [done|]. split; [done|]. split; [by split_and!|]. intros Hok.
       apply all_ok_granted in Hok. congruence. }
  set (n := brk h). set (h0 := mkHeap _ _ _ _). pose proof (grown_item h _ eq_refl) as G0. fold n h0 in G0.
  assert (Hok0 : all_ok h → all_ok h0) by (intros Hok; by apply all_ok_tail).
  assert (Hna : a ≠ n) by (intros ->; destruct (below_fresh h Hb) as (Hf & _); unfold n in Hi; congruence).
  assert (Hi0 : items h0 !! a = Some i) by (unfold h0; cbn; by rewrite lookup_insert_ne).
  assert (Hn0 : items h0 !! n = Some blank) by apply lookup_insert_eq.
  assert (Hin : n ∈ [n]) by left.
  rewrite Hi0. cbn [mbind option_bind].
  destruct (grown_upd _ _ _ _ _ n (set_type (clear_bit cJSON_IsReference (type i))) _ G0 Hin Hn0) as (-> & G1).
  cbn [mbind option_bind]. set (h1 := with_items _ h0) in *.
  assert (Hn1 : items h1 !! n = Some (set_type (clear_bit cJSON_IsReference (type i)) blank)) by apply lookup_insert_eq.
  destruct (grown_upd _ _ _ _ _ n (set_number (valuedouble i) (valueint i)) _ G1 Hin Hn1) as (-> & G2).
  cbn [mbind option_bind]. set (h2 := with_items _ h1) in *.
  set (i2 := set_number _ _ _) in *. assert (Hn2 : items h2 !! n = Some i2) by apply lookup_insert_eq.
  assert (Hb2 : below h2) by (by eapply grown_below).
  pose proof (grown_mono _ _ _ _ _ G2 Hb) as Hst2. pose proof (opt_text_mono _ _ _ _ Hst2 Hv) as Hv2.
  destruct (strdup_grown mb h2 (valuestring i) tv Hmb Hb2 Hv2) as (rv & h3 & -> & Ei3 & G3' & Hok3 & Hg3 & Hf3).
  cbn [mbind option_bind]. pose proof (grown_trans _ _ _ _ _ _ _ _ _ G2 G3' ltac:(intros b Hin'; by apply elem_of_nil in Hin')) as G3.
  cbn [app] in G3. rewrite <- Ei3 in Hn2.
  destruct (grown_upd _ _ _ _ _ n (set_valuestring rv) _ G3 Hin Hn2) as (-> & G4). cbn [mbind option_bind].
  set (h4 := with_items _ h3) in *. set (i4 := set_valuestring rv i2) in *.
  assert (Hn4 : items h4 !! n = Some i4) by apply lookup_insert_eq.
  assert (Href : has cJSON_IsReference i4 = false) by (unfold has; cbn [type i4 i2 set_valuestring set_number set_type]; by rewrite clear_reference).
  destruct (bool_decide (valuestring i ≠ None) && bool_decide (rv = None)) eqn:Efail.
  { eexists (Some n), false, h4. split; [done|]. exists i4. split_and!; try done.
    - unfold own_strings. rewrite Href. cbn [valuestring string i4 i2 set_valuestring set_number set_type blank olist].
      destruct (has cJSON_StringIsConst i4); by rewrite app_nil_r.
    - specialize (Hf3 eq_refl). tauto. }
  specialize (Hg3 eq_refl). assert (Hb4 : below h4) by (by eapply grown_below).
  pose proof (grown_mono _ _ _ _ _ G4 Hb) as Hst4. pose proof (opt_text_mono _ _ _ _ Hst4 Hk) as Hk4.
  assert (Hkey : ∃ rk h5, (if has cJSON_StringIsConst i then Some (string i, h4) else cJSON_strdup mb h4 (string i)) = Some (rk, h5) ∧
    items h5 = items h4 ∧ grown h4 h5 [] [] (if has cJSON_StringIsConst i then [] else olist rk) ∧ (all_ok h4 → all_ok h5) ∧
    (bool_decide (string i ≠ None) && bool_decide (rk = None) = false → opt_text (strings h5) rk = Some tk) ∧
    (bool_decide (string i ≠ None) && bool_decide (rk = None) = true → ¬ all_ok h4)).
  { destruct (has cJSON_StringIsConst i); [|by apply strdup_grown]. exists (string i), h4. split_and!; try done.
    - apply grown_refl. intros b Hin'. by apply elem_of_nil in Hin'.
    - by destruct (string i). }
  destruct Hkey as (rk & h5 & -> & Ei5 & G5' & Hok5 & Hg5 & Hf5). cbn [mbind option_bind].
  pose proof (grown_trans _ _ _ _ _ _ _ _ _ G4 G5' ltac:(intros b Hin'; by apply elem_of_nil in Hin')) as G5. cbn [app] in G5.
  rewrite <- Ei5 in Hn4. destruct (grown_upd _ _ _ _ _ n (set_string rk) _ G5 Hin Hn4) as (-> & G6). cbn [mbind option_bind].
  set (h6 := with_items _ h5) in *. eexists (Some n), _, h6. split; [done|]. exists (set_string rk i4). split_and!; try done.
  - unfold own_strings. assert (Hc : has cJSON_StringIsConst (set_string rk i4) = has cJSON_StringIsConst i).
    { unfold has. cbn [type i4 i2 set_string set_valuestring set_number set_type]. by rewrite clear_other. }
    rewrite Hc. change (has cJSON_IsReference (set_string rk i4)) with (has cJSON_IsReference i4). by rewrite Href.
  - apply lookup_insert_eq.
  - destruct (bool_decide (string i ≠ None) && bool_decide (rk = None)) eqn:Ef; cbn [negb].
    + specialize (Hf5 eq_refl). tauto.
    + specialize (Hg5 eq_refl). split; [|tauto]. split_and!; try done; [exists tv|exists tk]; (split; [done|]).
      * change (valuestring (set_string rk i4)) with rv.
        apply (opt_text_mono (strings h3)); [|done]. exact (grown_mono _ _ _ _ _ G5' Hb4).
      * exact Hg5.
Qed.

(** ** Trees and lists of copies *)

(** A new item that is not linked to others, with all below it. *)
Record made_tree (h : heap) (a : Z) (i : cJSON) (kids : forest) (h' : heap) : Prop := MadeTree {
  mt_grown : grown h h' [] (a :: addrs kids) (strs kids ++ own_strings i);
  mt_item : items h' !! a = Some i;
  mt_links : next i = None ∧ prev i = None ∧ has cJSON_IsReference i = false;
  mt_holds : holds (items h') (child i) kids;
  mt_wired : wired (last (siblings kids)) kids }.

Fixpoint copied (st st' : gmap Z (list Z)) (f f' : forest) : Prop :=
  match f, f' with
  | FNil, FNil => True
  | FCons _ i kids rest, FCons _ i' kids' rest' => like st st' i i' ∧ copied st st' kids kids' ∧ copied st st' rest rest'
  | _, _ => False
  end.

Lemma copied_mono st st' st'' f f' : st' ⊆ st'' → copied st st' f f' → copied st st'' f f'.
Proof.
  intros Hst. revert f'. induction f as [|a i kids IHk rest IHr]; intros [|a' i' kids' rest']; cbn [copied]; try done.
  intros (Hl & Hk & Hr). split_and!; [by eapply like_mono|by apply IHk|by apply IHr].
Qed.

Lemma like_links st st' i i' o n : like st st' i i' → like st st' i (set_next n (set_prev o i')).
Proof. done. Qed.

Fixpoint height (f : forest) : Z :=
  match f with FNil => 0 | FCons _ _ kids rest => Z.max (1 + height kids) (height rest) end.

Lemma height_nonneg f : 0 ≤ height f.
Proof. induction f; cbn [height]; lia. Qed.

Lemma not_in_grown h h' t la ls a : grown h h' t la ls → a < brk h → a ∉ la.
Proof. intros G Ha Hin. apply (grown_la _ _ _ _ _ G) in Hin. lia. Qed.

(** The copy [n] goes behind [p], and the copies of the later siblings behind [n]. *)
Lemma list_link h p pi n i kids h1 f h3 :
  below h → items h !! p = Some pi → next pi = None → made_tree h n i kids h1 →
  let h2 := with_items (<[n := set_prev (Some p) i]> (<[p := set_next (Some n) pi]> (items h1))) h1 in
  upd p (set_next (Some n)) h1 ≫= upd n (set_prev (Some p)) = Some h2 ∧ below h2 ∧ grown h h2 [p] (n :: addrs kids) (strs kids ++ own_strings i) ∧
  (list_made h2 (Some n) f h3 →
   list_made h (Some p) (FCons n (set_next (head (siblings f)) (set_prev (Some p) i)) kids f) h3).
Proof.
  intros Hb Hp Hpn [G Hi (Hin & Hip & Href) Hh Hw] h2.
  assert (Hpb : p < brk h) by (apply (proj1 Hb); by rewrite Hp).
  pose proof (not_in_grown _ _ _ _ _ p G Hpb) as Hpl. assert (Hpn' : p ≠ n) by (intros ->; apply Hpl; left).
  assert (Hp1 : items h1 !! p = Some pi) by (rewrite (grown_items _ _ _ _ _ G p); [done|done|apply not_elem_of_nil]).
  destruct (upd_grown p (set_next (Some n)) h1 pi Hp1) as (E1 & G1). rewrite E1. cbn [mbind option_bind]. set (h1' := with_items (<[p := set_next (Some n) pi]> (items h1)) h1) in E1, G1 |- *.
  assert (Hi1 : items h1' !! n = Some i) by (unfold h1'; cbn; by rewrite lookup_insert_ne).
  assert (G01 : grown h h1 [p] (n :: addrs kids) (strs kids ++ own_strings i)).
  { destruct G as [A1 A2 A3 A4 A5 A6 A7 A8]. split; try done; [intros x Hx _; by apply A1, not_elem_of_nil|].
    intros x Hx. apply list_elem_of_singleton in Hx as ->. by rewrite Hp. }
  pose proof (grown_trans _ _ _ _ _ _ _ _ _ G01 G1 (λ a Ha, or_introl Ha)) as G02. rewrite !app_nil_r in G02.
  destruct (grown_upd _ _ _ _ _ n (set_prev (Some p)) _ G02 ltac:(left) Hi1) as (E2 & G2). rewrite E2. fold h2 in G2.
  split; [done|]. assert (Hb2 : below h2) by (by eapply grown_below). split; [done|]. split; [done|]. intros [GL Lw Lh Lc].
  assert (Hn2 : items h2 !! n = Some (set_prev (Some p) i)) by apply lookup_insert_eq.
  pose proof (Lc n _ eq_refl Hn2 Hin) as Hn3.
  assert (Hkeep : ∀ a, a < brk h2 → a ≠ n → items h3 !! a = items h2 !! a).
  { intros a Ha Hne. apply (grown_items _ _ _ _ _ GL); [by apply (not_in_grown _ _ _ _ _ a GL)|]. cbn. by rewrite list_elem_of_singleton. }
  pose proof (grown_brk _ _ _ _ _ G2) as Hbrk. split.
  - cbn [addrs strs olist]. rewrite !app_assoc. apply (grown_trans h h2 h3 [p] (n :: addrs kids) _ [n] (addrs f) (strs f) G2 GL).
    intros a Ha. apply list_elem_of_singleton in Ha as ->. right. left.
  - cbn [wired]. by split_and!.
  - cbn [siblings head holds]. split; [done|]. split; [done|].
    change (has cJSON_IsReference (set_next _ (set_prev _ i))) with (has cJSON_IsReference i). rewrite Href. cbn [child next set_next set_prev].
    split; [|done]. apply (holds_same (items h1)); [done|]. intros a Ha.
    pose proof (grown_NoDup_la _ _ _ _ _ G) as Hnd. apply NoDup_cons in Hnd as (Hnd & _).
    assert (Hal : brk h ≤ a < brk h1) by (apply (grown_la _ _ _ _ _ G); by right).
    rewrite Hkeep; [|unfold h2; cbn; lia|intros ->; done]. unfold h2. cbn. rewrite !lookup_insert_ne; [done|intros ->; lia|intros ->; done].
  - intros c ci [= <-] Hc _. assert (ci = pi) as -> by congruence. cbn [siblings head].
    rewrite Hkeep; [|exact (Z.lt_le_trans _ _ _ Hpb Hbrk)|done]. unfold h2. cbn. rewrite lookup_insert_ne by done. by rewrite lookup_insert_eq.
Qed.

(** ** The copy of all items *)

Section copy.
Context (H : heap) (HH : below H).

(** How the copy of an item, [depth] levels down, and of the items below it ends. *)
Definition copy_result (h : heap) (i : cJSON) (kids : forest) (depth : Z) (r : option Z) (h' : heap) : Prop :=
  match r with
  | None => unchanged h h' ∧ (all_ok h → CJSON_CIRCULAR_LIMIT < depth + height kids)
  | Some n => ∃ i' kids', made_tree h n i' kids' h' ∧ like (strings H) (strings h') i i' ∧
      copied (strings H) (strings h') kids kids' ∧ (all_ok h → all_ok h')
  end.

(** [duplicate] copies the items of [H], at the level [depth]. *)
Definition copies (duplicate : option Z → heap → option (option Z * heap)) (depth : Z) : Prop :=
  ∀ a i kids h, kept H h → below h → items H !! a = Some i → reach (items H) (child i) kids → readable (strings H) i →
    all_readable (strings H) kids →
    ∃ r h', duplicate (Some a) h = Some (r, h') ∧ copy_result h i kids depth r h'.

Lemma reach_below q f a : reach (items H) q f → a ∈ siblings f → a < brk H.
Proof.
  revert q. induction f as [|b i kids _ rest IH]; intros q; cbn [reach siblings]; [by intros _ H0%elem_of_nil|].
  intros (-> & Hi & _ & Hr) [->|Ha]%elem_of_cons; [|by eapply IH]. apply (proj1 HH). by rewrite Hi.
Qed.

Lemma unchanged_kept h h' : kept H h → unchanged h h' → kept H h'.
Proof.
  intros (Hi & Hs & Hbk) (Ei & Es & Hb'). split_and!; [intros x; rewrite Ei; by apply Hi|intros x; rewrite Es; by apply Hs|lia].
Qed.

Lemma unchanged_below h h' : below h → unchanged h h' → below h'.
Proof. intros (H1 & H2) (Ei & Es & Hb). split; [intros a; rewrite Ei; intros Ha; apply H1 in Ha; lia|intros a; rewrite Es; intros Ha; apply H2 in Ha; lia]. Qed.

Context (duplicate : option Z → heap → option (option Z * heap)) (depth : Z) (Hdup : depth < CJSON_CIRCULAR_LIMIT → copies duplicate (depth + 1)).

(** The children after one that has been copied to [p]. *)
Lemma duplicate_loop_more fuel newitem f q p pi h :
  kept H h → below h → reach (items H) q f → all_readable (strings H) f → (List.length (siblings f) ≤ fuel)%nat →
  items h !! p = Some pi → next pi = None → brk H ≤ p →
  ∃ all h' f', duplicate_loop duplicate fuel depth newitem q (Some p) h = Some (all, last (p :: siblings f'), h') ∧
    list_made h (Some p) f' h' ∧
    if all : bool then copied (strings H) (strings h') f f' ∧ (all_ok h → all_ok h')
    else all_ok h → CJSON_CIRCULAR_LIMIT < depth + height f.
Proof.
  revert fuel q p pi h. induction f as [|c ci kids _ rest IH]; intros fuel q p pi h Hk Hb Hr Hread Hf Hp Hpn HpH.
  { cbn in Hr. subst q. exists true, h, FNil. split; [by destruct fuel|]. split; [|done]. apply list_nil. intros x [= <-]. by rewrite Hp. }
  cbn [reach all_readable siblings List.length height] in *. destruct Hr as (-> & Hc & Hrk & Hrr). destruct Hread as (Hr0 & Hr1 & Hr2).
  destruct fuel as [|fuel]; [lia|]. cbn [duplicate_loop]. pose proof (height_nonneg kids). pose proof (height_nonneg rest).
  assert (Hstop : ∀ h1, unchanged h h1 → list_made h (Some p) FNil h1).
  { intros h1 (Ei & Es & Hb1). apply list_nil_same; [|done..]. intros x [= <-]. by rewrite Hp. }
  destruct (Z.leb_spec CJSON_CIRCULAR_LIMIT depth).
  { exists false, h, FNil. split; [done|]. split; [by apply Hstop|]. lia. }
  destruct (Hdup ltac:(lia) c ci kids h Hk Hb Hc Hrk Hr0 Hr1) as (r & h1 & -> & Hres). cbn [mbind option_bind]. destruct r as [n|]; cbn in Hres.
  2: { destruct Hres as (Hun & Hno). exists false, h1, FNil. split; [done|]. split; [by apply Hstop|]. intros Hok. specialize (Hno Hok). lia. }
  destruct Hres as (i' & kids' & T & Hlike & Hcop & Hok1).
  destruct (list_link h p pi n i' kids' h1 FNil h1 Hb Hp Hpn T) as (E & Hb2 & G2 & _). set (h2 := with_items _ h1) in *.
  destruct (upd p (set_next (Some n)) h1) as [h1'|] eqn:E1; [|done]. cbn [mbind option_bind] in E |- *. rewrite E. cbn [mbind option_bind].
  assert (Hk2 : kept H h2) by (eapply kept_grown; [exact Hk|exact G2|]; intros x ->%list_elem_of_singleton; done).
  rewrite (proj1 Hk2 c) by (apply (proj1 HH); by exists ci). rewrite Hc. cbn [mbind option_bind].
  assert (HnH : brk H ≤ n). { assert (brk h ≤ n) by (apply (grown_la _ _ _ _ _ G2); left). destruct Hk as (_ & _ & ?). lia. }
  destruct (IH fuel (next ci) n (set_prev (Some p) i') h2) as (all & h3 & f' & -> & L & Hall); try done; [lia|apply lookup_insert_eq|apply (mt_links _ _ _ _ _ T)|].
  eexists all, h3, (FCons n _ kids' f'). split; [done|].
  split; [by apply (list_link h p pi n i' kids' h1 f' h3 Hb Hp Hpn T)|].
  assert (Hst : strings h1 ⊆ strings h3) by (change (strings h1) with (strings h2); by eapply grown_mono; [apply L|]).
  destruct all; [|intros Hok; enough (CJSON_CIRCULAR_LIMIT < depth + height rest) by lia; apply Hall; exact (all_ok_eq h1 h2 eq_refl (Hok1 Hok))].
  destruct Hall as (Hcop' & Hok3). split; [|intros Hok; apply Hok3, (all_ok_eq h1 h2 eq_refl), Hok1, Hok].
  cbn [copied]. split; [apply like_links; by eapply like_mono|]. split; [by eapply copied_mono|done].
Qed.

(** All the children: they are those of [newitem], as far as memory and levels went. *)
Lemma duplicate_loop_spec fuel newitem ni f q h :
  kept H h → below h → reach (items H) q f → all_readable (strings H) f → (List.length (siblings f) ≤ fuel)%nat →
  items h !! newitem = Some ni → child ni = None → brk H ≤ newitem →
  ∃ all h' f', duplicate_loop duplicate fuel depth newitem q None h = Some (all, last (siblings f'), h') ∧
    grown h h' [newitem] (addrs f') (strs f') ∧ items h' !! newitem = Some (set_child (head (siblings f')) ni) ∧
    holds (items h') (head (siblings f')) f' ∧ wired None f' ∧
    if all : bool then copied (strings H) (strings h') f f' ∧ (all_ok h → all_ok h')
    else all_ok h → CJSON_CIRCULAR_LIMIT < depth + height f.
Proof.
  intros Hk Hb Hr Hread Hf Hni Hch HnH.
  assert (Hsame : set_child None ni = ni) by (destruct ni; cbn in *; by rewrite Hch).
  assert (Hstop : ∀ h1, unchanged h h1 → grown h h1 [newitem] [] [] ∧ items h1 !! newitem = Some ni).
  { intros h1 (Ei & Es & Hb1). split; [|by rewrite Ei]. destruct (grown_unchanged h h1 Ei Es Hb1) as [A1 A2 A3 A4 A5 A6 A7 A8].
    split; try done; [intros x _ _; by rewrite Ei|]. intros x ->%list_elem_of_singleton. by rewrite Hni. }
  destruct f as [|c ci kids rest]; cbn [reach all_readable siblings List.length height] in *.
  { subst q. exists true, h, FNil. split; [by destruct fuel|]. destruct (Hstop h) as (? & ?); [done|]. cbn [siblings head]. by rewrite Hsame. }
  destruct Hr as (-> & Hc & Hrk & Hrr). destruct Hread as (Hr0 & Hr1 & Hr2). destruct fuel as [|fuel]; [lia|]. cbn [duplicate_loop].
  pose proof (height_nonneg kids). pose proof (height_nonneg rest).
  destruct (Z.leb_spec CJSON_CIRCULAR_LIMIT depth).
  { exists false, h, FNil. split; [done|]. destruct (Hstop h) as (? & ?); [done|]. cbn [siblings head]. rewrite Hsame. split_and!; try done. lia. }
  destruct (Hdup ltac:(lia) c ci kids h Hk Hb Hc Hrk Hr0 Hr1) as (r & h1 & -> & Hres). cbn [mbind option_bind]. destruct r as [n|]; cbn in Hres.
  2: { destruct Hres as (Hun & Hno). exists false, h1, FNil. split; [done|]. destruct (Hstop h1 Hun) as (? & ?). cbn [siblings head].
       rewrite Hsame. split_and!; try done. intros Hok. specialize (Hno Hok). lia. }
  destruct Hres as (i' & kids' & [G Hi (Hin & Hip & Href) Hh Hw] & Hlike & Hcop & Hok1).
  assert (Hnb : newitem < brk h) by (apply (proj1 Hb); by rewrite Hni). pose proof (not_in_grown _ _ _ _ _ _ G Hnb) as Hout.
  assert (Hne : n ≠ newitem) by (intros ->; apply Hout; left).
  assert (Hni1 : items h1 !! newitem = Some ni) by (rewrite (grown_items _ _ _ _ _ G); [done|done|apply not_elem_of_nil]).
  destruct (upd_grown newitem (set_child (Some n)) h1 ni Hni1) as (-> & G1). cbn [mbind option_bind].
  set (h2 := with_items (<[newitem := set_child (Some n) ni]> (items h1)) h1) in *.
  assert (G2 : grown h h2 [newitem] (n :: addrs kids') (strs kids' ++ own_strings i')).
  { rewrite <- (app_nil_r (n :: _)), <- (app_nil_r (strs _ ++ _)). refine (grown_trans h h1 h2 [newitem] _ _ _ _ _ _ G1 (λ a Ha, or_introl Ha)).
    destruct G as [A1 A2 A3 A4 A5 A6 A7 A8]. split; try done; [intros x Hx _; by apply A1, not_elem_of_nil|].
    intros x ->%list_elem_of_singleton. by rewrite Hni. }
  assert (Hb2 : below h2) by (by eapply grown_below).
  assert (Hk2 : kept H h2) by (eapply kept_grown; [exact Hk|exact G2|]; intros x ->%list_elem_of_singleton; done).
  rewrite (proj1 Hk2 c) by (apply (proj1 HH); by exists ci). rewrite Hc. cbn [mbind option_bind].
  assert (HnH' : brk H ≤ n). { assert (brk h ≤ n) by (apply (grown_la _ _ _ _ _ G2); left). destruct Hk as (_ & _ & ?). lia. }
  assert (Hn2 : items h2 !! n = Some i') by (unfold h2; cbn; by rewrite lookup_insert_ne).
  destruct (duplicate_loop_more fuel newitem rest (next ci) n i' h2) as (all & h3 & f' & -> & [GL Lw Lh Lc] & Hall); try done; [lia|].
  exists all, h3, (FCons n (set_next (head (siblings f')) i') kids' f'). split; [done|]. cbn [siblings head].
  pose proof (grown_brk _ _ _ _ _ G2) as Hbrk.
  assert (Hkeep : ∀ a, a < brk h2 → a ≠ n → items h3 !! a = items h2 !! a).
  { intros a Ha Hna. apply (grown_items _ _ _ _ _ GL); [by apply (not_in_grown _ _ _ _ _ a GL)|]. cbn. by rewrite list_elem_of_singleton. }
  split; [|split; [|split; [|split]]].
  - cbn [addrs strs]. rewrite app_assoc. apply (grown_trans h h2 h3 [newitem] (n :: addrs kids') _ [n] (addrs f') (strs f') G2 GL).
    intros a ->%list_elem_of_singleton. right. left.
  - rewrite Hkeep; [|lia|done]. apply lookup_insert_eq.
  - cbn [holds]. split; [done|]. split; [by apply (Lc n)|].
    change (has cJSON_IsReference (set_next _ i')) with (has cJSON_IsReference i'). rewrite Href. cbn [child next set_next].
    split; [|done]. apply (holds_same (items h1)); [done|]. intros a Ha.
    pose proof (grown_NoDup_la _ _ _ _ _ G) as Hnd. apply NoDup_cons in Hnd as (Hnd & _).
    assert (Hal : brk h ≤ a < brk h1) by (apply (grown_la _ _ _ _ _ G); by right).
    rewrite Hkeep; [|unfold h2; cbn; lia|intros ->; done]. unfold h2. cbn. by rewrite lookup_insert_ne; [|intros ->; lia].
  - cbn [wired]. by split_and!.
  - assert (Hst : strings h1 ⊆ strings h3) by (change (strings h1) with (strings h2); by eapply grown_mono).
    destruct all; [|intros Hok; enough (CJSON_CIRCULAR_LIMIT < depth + height rest) by lia; apply Hall; exact (all_ok_eq h1 h2 eq_refl (Hok1 Hok))].
    destruct Hall as (Hcop' & Hok3). split; [|intros Hok; apply Hok3, (all_ok_eq h1 h2 eq_refl), Hok1, Hok].
    cbn [copied]. split; [by eapply like_mono|]. split; [by eapply copied_mono|done].
Qed.
End copy.

(** The first copy gets the last one as its [prev]. *)
Lemma head_prev h0 t la ls h f :
  grown h0 h t la ls → (∀ a, a ∈ addrs f → a ∈ la) → NoDup (addrs f) → holds (items h) (head (siblings f)) f → wired None f →
  ∃ f' h', match head (siblings f) with Some c => upd c (set_prev (last (siblings f))) h | None => Some h end = Some h' ∧
    grown h0 h' t la ls ∧ siblings f' = siblings f ∧ addrs f' = addrs f ∧ strs f' = strs f ∧ wired (last (siblings f)) f' ∧
    holds (items h') (head (siblings f)) f' ∧ (∀ a, a ∉ addrs f → items h' !! a = items h !! a) ∧ strings h' = strings h ∧
    answers h' = answers h ∧ (∀ st st' g, copied st st' g f → copied st st' g f').
Proof.
  intros G Hla Hnd Hh Hw. destruct f as [|a i kids rest]; cbn [siblings head] in *; [by exists FNil, h|].
  cbn [wired holds addrs] in Hw, Hh, Hnd, Hla. destruct Hw as (Hp & Hwf & Hwk & Hwr). destruct Hh as (_ & Hi & Hk & Hr).
  destruct (grown_upd _ _ _ _ _ a (set_prev (last (a :: siblings rest))) i G ltac:(apply Hla; left) Hi) as (-> & G').
  apply NoDup_cons in Hnd as (Hnot & _). rewrite elem_of_app in Hnot.
  exists (FCons a (set_prev (last (a :: siblings rest)) i) kids rest). eexists. split; [done|].
  cbn [siblings addrs strs wired holds items with_items strings brk answers].
  split_and!; try done; try apply lookup_insert_eq.
  - destruct (has cJSON_IsReference i) eqn:E; unfold has in *; cbn [type set_prev]; rewrite E; [done|].
    cbn [child set_prev]. apply (holds_same (items h)); [done|]. intros x Hx. apply lookup_insert_ne. intros ->. tauto.
  - cbn [next set_prev]. apply (holds_same (items h)); [done|]. intros x Hx. apply lookup_insert_ne. intros ->. tauto.
  - intros x Hx. apply lookup_insert_ne. intros ->. apply Hx. left.
  - intros st st' [|b j kg rg]; cbn [copied]; done.
Qed.

(** ** Chains of siblings *)

Lemma reach_det m p f f' : reach m p f → reach m p f' → f = f'.
Proof.
  revert p f'. induction f as [|a i kids IHk rest IHr]; intros p [|a' i' kids' rest']; cbn [reach]; try done.
  - by intros -> (? & _).
  - by intros (-> & _) ?.
  - intros (-> & Hi & Hk & Hr) ([= <-] & Hi' & Hk' & Hr'). assert (i' = i) as -> by congruence.
    by rewrite (IHk _ _ Hk Hk'), (IHr _ _ Hr Hr').
Qed.

Lemma reach_suffix m p f a :
  reach m p f → a ∈ siblings f → ∃ f', reach m (Some a) f' ∧ (List.length (siblings f') ≤ List.length (siblings f))%nat.
Proof.
  revert p. induction f as [|b i kids _ rest IH]; intros p; cbn [reach siblings]; [by intros _ ?%elem_of_nil|].
  intros (-> & Hi & Hk & Hr) [->|Ha]%elem_of_cons; [by exists (FCons b i kids rest)|].
  destruct (IH _ Hr Ha) as (f' & Hf' & Hle). exists f'. split; [done|]. cbn [List.length]. lia.
Qed.

Lemma reach_siblings m p f : reach m p f → NoDup (siblings f) ∧ ∀ a, a ∈ siblings f → is_Some (m !! a).
Proof.
  revert p. induction f as [|b i kids _ rest IH]; intros p; cbn [reach siblings].
  { intros _. split; [constructor|]. by intros a ?%elem_of_nil. }
  intros (-> & Hi & Hk & Hr). destruct (IH _ Hr) as (Hn & Hs). split.
  - constructor; [|done]. intros Hin. destruct (reach_suffix _ _ _ _ Hr Hin) as (f' & Hf' & Hle).
    rewrite (reach_det m (Some b) f' (FCons b i kids rest)) in Hle; [cbn in Hle; lia|done|done].
  - intros a [->|Ha]%elem_of_cons; [by rewrite Hi|by apply Hs].
Qed.

Lemma reach_size m p f : reach m p f → (List.length (siblings f) ≤ size m)%nat.
Proof.
  intros Hr. destruct (reach_siblings _ _ _ Hr) as (Hn & Hs). rewrite <- (size_list_to_set (C := gset Z)) by done.
  rewrite <- size_dom. apply subseteq_size. intros a Ha. apply elem_of_list_to_set in Ha. apply elem_of_dom. by apply Hs.
Qed.

Lemma kept_size H h : below H → kept H h → (size (items H) ≤ size (items h))%nat.
Proof.
  intros (Hb & _) (Hi & _). rewrite <- !size_dom. apply subseteq_size, subseteq_dom, map_subseteq_spec.
  intros a x E. rewrite Hi; [done|]. apply Hb. by rewrite E.
Qed.

(** ** cJSON_Duplicate_rec *)

(** [fail:] leaves nothing. *)
Lemma duplicate_fail_spec h n ni f h1 :
  below h → grown h h1 [] (n :: addrs f) (strs f ++ own_strings ni) → items h1 !! n = Some ni → next ni = None →
  has cJSON_IsReference ni = false → holds (items h1) (child ni) f →
  ∃ h2, duplicate_fail (Some n) h1 = Some (None, h2) ∧ unchanged h h2.
Proof.
  intros Hb G Hn Hnn Href Hh. destruct (delete_grown h (FCons n ni f FNil) h1 (Some n) Hb) as (h2 & E & Hun).
  - cbn [addrs strs]. by rewrite !app_nil_r.
  - cbn [holds]. by rewrite Href, Hnn.
  - exists h2. split; [|done]. unfold duplicate_fail. by rewrite E.
Qed.

Lemma duplicate_rec_copies mb H fuel depth :
  sized mb → below H → 0 ≤ CJSON_CIRCULAR_LIMIT - depth < Z.of_nat fuel →
  copies H (λ c h, cJSON_Duplicate_rec mb fuel c depth true h) depth.
Proof.
  intros Hmb HH. revert depth. induction fuel as [|fuel IH]; intros depth Hf a i kids h Hk Hb Hi Hr Hread Hreads; [lia|].
  cbn [cJSON_Duplicate_rec]. pose proof (kept_strings _ _ HH Hk) as Hst.
  assert (Hih : items h !! a = Some i) by (rewrite (proj1 Hk); [done|apply (proj1 HH); by exists i]).
  assert (Hreadh : readable (strings h) i).
  { destruct Hread as ((t1 & H1) & (t2 & H2)). split; [exists t1|exists t2]; by eapply opt_text_mono. }
  destruct (duplicate_item_spec mb h a i Hmb Hb Hih Hreadh) as (r & ok & h1 & -> & Hres). cbn [mbind option_bind].
  destruct r as [n|].
  2: { destruct Hres as (-> & Hun & Hno). exists None, h1. split; [done|]. split; [done|]. tauto. }
  destruct Hres as (i1 & G1 & Hn1 & Hnx & Hpv & Hch & Href & Hok). destruct ok; cbn [negb].
  2: { destruct (duplicate_fail_spec h n i1 FNil h1) as (h2 & E & Hun); try done.
       exists None, h2. split; [done|]. split; [done|]. tauto. }
  destruct Hok as (Hlike & Hok1). assert (Hb1 : below h1) by (by eapply grown_below).
  assert (Hk1 : kept H h1) by (eapply kept_grown; [exact Hk|exact G1|]; intros x ?%elem_of_nil; done).
  assert (HnH : brk H ≤ n). { assert (brk h ≤ n) by (apply (grown_la _ _ _ _ _ G1); left). destruct Hk as (_ & _ & ?). lia. }
  rewrite (proj1 Hk1 a) by (apply (proj1 HH); by exists i). rewrite Hi. cbn [mbind option_bind].
  destruct (duplicate_loop_spec H HH (λ c h, cJSON_Duplicate_rec mb fuel c (depth + 1) true h) depth
              ltac:(intros; apply IH; lia) (S (size (items h1))) n i1 kids (child i) h1)
    as (all & h2 & f' & -> & G2 & Hn2 & Hh2 & Hw2 & Hall); try done.
  { pose proof (reach_size _ _ _ Hr). pose proof (kept_size _ _ HH Hk1). lia. }
  cbn [mbind option_bind]. set (i2 := set_child (head (siblings f')) i1) in *.
  assert (G : grown h h2 [] (n :: addrs f') (strs f' ++ own_strings i2)).
  { apply (grown_perm _ _ _ ([n] ++ addrs f') (own_strings i1 ++ strs f')); [|done|apply Permutation_app_comm].
    apply (grown_trans _ _ _ _ _ _ _ _ _ G1 G2). intros x ->%list_elem_of_singleton. right. left. }
  destruct all; cbn [negb].
  2: { destruct (duplicate_fail_spec h n i2 f' h2) as (h3 & E & Hun); try done.
       exists None, h3. split; [done|]. split; [done|]. tauto. }
  destruct Hall as (Hcop & Hok2). pose proof (grown_NoDup_la _ _ _ _ _ G) as Hnd. apply NoDup_cons in Hnd as (Hout & Hnd).
  rewrite Hn2. cbn [mbind option_bind]. change (child i2) with (head (siblings f')).
  destruct (head_prev _ _ _ _ h2 f' G ltac:(intros x Hx; by right) Hnd Hh2 Hw2)
    as (f3 & h3 & -> & G3 & Es & Ea & Et & Hw3 & Hh3 & Hsame & Hstr & Hans & Hc3). cbn [mbind option_bind].
  exists (Some n), h3. split; [done|]. exists i2, f3. split; [|split; [|split]].
  - split; [by rewrite Ea, Et|by rewrite Hsame|done| |by rewrite Es]. exact Hh3.
  - rewrite Hstr. assert (Hm : strings h1 ⊆ strings h2) by (by eapply grown_mono).
    apply (like_mono _ _ _ _ i2 Hm). destruct Hlike as (L1 & L2 & L3 & (t1 & L4 & L5) & (t2 & L6 & L7)).
    destruct Hread as ((u1 & U1) & (u2 & U2)).
    assert (t1 = u1) as -> by (apply (opt_text_mono _ _ _ _ Hst) in U1; congruence).
    assert (t2 = u2) as -> by (apply (opt_text_mono _ _ _ _ Hst) in U2; congruence).
    split_and!; try done; [by exists u1|by exists u2].
  - rewrite Hstr. by apply Hc3.
  - intros Hok. apply (all_ok_eq h2 h3 Hans). tauto.
Qed.

(** ** Copies stand for the same values *)

Lemma text_opt st o s : text_at st o = Some s ↔ opt_text st o = Some (Some s).
Proof.
  destruct o as [p|]; cbn [opt_text]; [|by split].
  rewrite fmap_Some. split; [intros H; by exists s|by intros (x & Hx & [= ->])].
Qed.

Lemma value_of_like st st' i i' ks v : like st st' i i' → value_of st i ks = Some v → value_of st' i' ks = Some v.
Proof.
  intros (Ht & Hn & Hd & (t & H1 & H2) & _). unfold value_of. rewrite Ht, Hn, Hd.
  rewrite (clear_other (type i) 0xFF) by done. cbv zeta. repeat case_match; try done.
  rewrite !fmap_Some. intros (s & Hs & ->). exists s. split; [|done]. apply text_opt in Hs. apply text_opt. congruence.
Qed.

Lemma values_copied st st' f f' ks : copied st st' f f' → values st f = Some ks → values st' f' = Some ks.
Proof.
  revert f' ks. induction f as [|a i kids IHk rest IHr]; intros [|a' i' kids' rest'] ks; cbn [copied values]; try done.
  intros (Hl & Hk & Hr) H. inv_bind. subst. rewrite (IHk _ _ Hk) by done. cbn [mbind option_bind].
  rewrite (value_of_like _ _ _ _ _ _ Hl) by done. cbn [mbind option_bind].
  assert (Hkey : key_of st' i' = Some x1).
  { destruct Hl as (_ & _ & _ & _ & (t & U1 & U2)). unfold opt_text in U1, U2. unfold key_of in *. congruence. }
  rewrite Hkey. cbn [mbind option_bind]. by rewrite (IHr _ _ Hr H3).
Qed.

Lemma duplicate_made mb h a i kids (recurse : bool) :
  sized mb → below h → items h !! a = Some i → reach (items h) (child i) kids → readable (strings h) i →
  all_readable (strings h) kids →
  let source := FCons a i (if recurse then kids else FNil) FNil in
  ∃ r h', cJSON_Duplicate mb h (Some a) recurse = Some (r, h') ∧
    match r with
    | None => unchanged h h' ∧ (all_ok h → recurse = true ∧ CJSON_CIRCULAR_LIMIT < height kids)
    | Some a' => ∃ copy, grown h h' [] (addrs copy) (strs copy) ∧ holds (items h') (Some a') copy ∧ wired None copy ∧
        copied (strings h) (strings h') source copy ∧
        (∀ key v, values (strings h) source = Some [(key, v)] → is_tree h' a' copy v) ∧
        ∃ h'', cJSON_Delete h' (Some a') = Some h'' ∧ unchanged h h''
    end.
Proof.
  intros Hmb Hb Hi Hr Hread Hreads source.
  assert (Hend : ∀ n i' kids' h', made_tree h n i' kids' h' → like (strings h) (strings h') i i' →
    copied (strings h) (strings h') (if recurse then kids else FNil) kids' →
    ∃ copy, grown h h' [] (addrs copy) (strs copy) ∧ holds (items h') (Some n) copy ∧ wired None copy ∧
      copied (strings h) (strings h') source copy ∧ (∀ key v, values (strings h) source = Some [(key, v)] → is_tree h' n copy v) ∧
      ∃ h'', cJSON_Delete h' (Some n) = Some h'' ∧ unchanged h h'').
  { intros n i' kids' h' [G Hn (Hnx & Hpv & Href) Hh Hw] Hl Hc. exists (FCons n i' kids' FNil).
    assert (G' : grown h h' [] (addrs (FCons n i' kids' FNil)) (strs (FCons n i' kids' FNil))) by (cbn [addrs strs]; by rewrite !app_nil_r).
    assert (Hh' : holds (items h') (Some n) (FCons n i' kids' FNil)) by (cbn [holds]; by rewrite Href, Hnx).
    assert (Hc' : copied (strings h) (strings h') source (FCons n i' kids' FNil)) by (by cbn [copied source]).
    split_and!; try done; [|by eapply delete_grown].
    intros key v Hv. split; [done|]. split; [done|]. split; [apply G'|]. exists key. by apply (values_copied _ _ _ _ _ Hc'). }
  unfold cJSON_Duplicate. destruct recurse.
  - destruct (duplicate_rec_copies mb h (S (Z.to_nat CJSON_CIRCULAR_LIMIT)) 0 Hmb Hb ltac:(unfold CJSON_CIRCULAR_LIMIT; lia) a i kids h
                (kept_refl h) Hb Hi Hr Hread Hreads) as (r & h' & -> & Hres).
    exists r, h'. split; [done|]. destruct r as [n|]; cbn in Hres.
    + destruct Hres as (i' & kids' & T & Hl & Hc & _). by eapply Hend.
    + destruct Hres as (Hun & Hno). split; [done|]. intros Hok. split; [done|]. by apply Hno.
  - cbn [cJSON_Duplicate_rec]. destruct (duplicate_item_spec mb h a i Hmb Hb Hi Hread) as (r & ok & h1 & -> & Hres).
    cbn [mbind option_bind]. destruct r as [n|].
    2: { destruct Hres as (-> & Hun & Hno). exists None, h1. split; [done|]. split; [done|]. tauto. }
    destruct Hres as (i1 & G1 & Hn1 & Hnx & Hpv & Hch & Href & Hok). destruct ok; cbn [negb].
    + exists (Some n), h1. split; [done|]. destruct Hok as (Hl & _). by apply (Hend n i1 FNil h1).
    + destruct (duplicate_fail_spec h n i1 FNil h1) as (h2 & E & Hun); try done.
      exists None, h2. split; [done|]. split; [done|]. tauto.
Qed.

(** C27: cJSON_Duplicate always returns. The copy of an item, with everything below it when that is asked
    for, is a separate tree of new items and strings: it is well linked, has no references, and its
    items have the types, numbers, strings and keys of those that they copy, so that it
    stands for the same value; deleting it gives back the heap. The source may have references
    and keys that are constant, and share items. There is no copy only when memory is refused or
    the items are more than CJSON_CIRCULAR_LIMIT levels deep, and then the heap is as it was. *)
Theorem duplicate_correct mb h a i kids (recurse : bool) :
  sized mb → below h → items h !! a = Some i → reach (items h) (child i) kids → readable (strings h) i →
  all_readable (strings h) kids →
  let source := FCons a i (if recurse then kids else FNil) FNil in
  ∃ r h', cJSON_Duplicate mb h (Some a) recurse = Some (r, h') ∧
    match r with
    | None => unchanged h h' ∧ (all_ok h → recurse = true ∧ CJSON_CIRCULAR_LIMIT < height kids)
    | Some a' => ∃ copy, grown h h' [] (addrs copy) (strs copy) ∧ holds (items h') (Some a') copy ∧ wired None copy ∧
        copied (strings h) (strings h') source copy ∧
        (∀ key v, values (strings h) source = Some [(key, v)] → is_tree h' a' copy v) ∧
        ∃ h'', cJSON_Delete h' (Some a') = Some h'' ∧ unchanged h h''
    end.
Proof. apply duplicate_made. Qed.

(** ** Witnesses *)

(** [[1,"a"]] with a constant key, in which the item that holds it is a reference. *)
Definition const_item : cJSON := set_string (Some 6) (set_child (Some 3) (set_type (cJSON_Array + cJSON_IsReference + cJSON_StringIsConst) blank)).
Definition shared_heap : heap :=
  mkHeap {[2 := const_item; 3 := item_1; 4 := item_a]} {[6 := [107; 0]; 7 := [97; 10; 0; 9]]} 8 [].
Definition shared_kids : forest := FCons 3 item_1 FNil (FCons 4 item_a FNil FNil).

Lemma shared_below : below shared_heap.
Proof.
  split; intros x (y & Hy); cbn in *;
    repeat (apply lookup_insert_Some in Hy as [(<- & _)|(_ & Hy)]; [lia|]); try (by apply lookup_empty_Some in Hy);
    apply lookup_singleton_Some in Hy as (<- & _); lia.
Qed.

Lemma duplicate_correct_witness :
  let source := FCons 2 const_item shared_kids FNil in
  (∃ r h', cJSON_Duplicate exact_blocks shared_heap (Some 2) true = Some (r, h') ∧
    match r with
    | None => unchanged shared_heap h' ∧ (all_ok shared_heap → true = true ∧ CJSON_CIRCULAR_LIMIT < height shared_kids)
    | Some a' => ∃ copy, grown shared_heap h' [] (addrs copy) (strs copy) ∧ holds (items h') (Some a') copy ∧ wired None copy ∧
        copied (strings shared_heap) (strings h') source copy ∧
        (∀ key v, values (strings shared_heap) source = Some [(key, v)] → is_tree h' a' copy v) ∧
        ∃ h'', cJSON_Delete h' (Some a') = Some h'' ∧ unchanged shared_heap h''
    end) ∧
  values (strings shared_heap) source = Some [(Some [107], JArray [JNumber (of_int 1); JString [97; 10]])].
Proof.
  split; [|vm_compute; reflexivity].
  apply (duplicate_correct exact_blocks shared_heap 2 const_item shared_kids true).
  - apply exact_sized, exact_blocks_exact.
  - apply shared_below.
  - reflexivity.
  - vm_compute. repeat split.
  - split; eexists; vm_compute; reflexivity.
  - repeat split; eexists; vm_compute; reflexivity.
Defined.
