(* ===== verification/CJsonCompareProofs.v ===== *)
(** Proofs about members by name and about comparison in cJSON (CJsonOps.v): both are what the values
    that the items stand for say. *)
From S2P Require Import Prelude CJsonHeap CJsonHeapProofs CJsonText CJsonTextProofs CJsonNum CJsonNumProofs CJson CJsonRef.
From S2P Require Import CJsonParseProofs CJsonPrintProofs CJsonOps CJsonCopyProofs.

(** ** Keys *)

Definition key_eq (case_sensitive : bool) (k k' : list Z) : bool :=
  if case_sensitive then bool_decide (k = k') else bool_decide (map tolower k = map tolower k').

(** The value of the first member with a key. *)
Fixpoint find_key (case_sensitive : bool) (k : list Z) (ms : list (list Z * json)) : option json :=
  match ms with
  | [] => None
  | (k', v) :: ms => if key_eq case_sensitive k k' then Some v else find_key case_sensitive k ms
  end.

Lemma key_eq_refl cs k : key_eq cs k k = true.
Proof. destruct cs; by apply bool_decide_eq_true_2. Qed.

Lemma tolower_zero c : tolower c = 0 ↔ c = 0.
Proof. unfold tolower. destruct (Z.leb_spec 65 c), (Z.leb_spec c 90); cbn; lia. Qed.

Lemma cmp_loop_spec k1 r1 k2 r2 :
  nonzero k1 → nonzero k2 → ∃ d, cmp_loop (k1 ++ 0 :: r1) (k2 ++ 0 :: r2) = Some d ∧ (d = 0 ↔ k1 = k2).
Proof.
  intros H1. revert k2. induction H1 as [|c k1 Hc _ IH]; intros [|c' k2] H2; try (apply Forall_cons in H2 as (Hc' & H2));
    cbn [app cmp_loop].
  - exists 0. done.
  - destruct (Z.eqb_spec 0 c'); [lia|]. eexists. split; [done|]. split; [lia|done].
  - destruct (Z.eqb_spec c 0); [lia|]. eexists. split; [done|]. split; [lia|done].
  - destruct (Z.eqb_spec c c') as [->|Hne]; [destruct (Z.eqb_spec c' 0); [lia|]|].
    + destruct (IH k2 H2) as (d & -> & Hd). exists d. split; [done|]. rewrite Hd. split; [by intros ->|by intros [= ->]].
    + eexists. split; [done|]. split; [lia|]. intros [= ->]. done.
Qed.

Lemma icmp_loop_spec k1 r1 k2 r2 :
  nonzero k1 → nonzero k2 →
  ∃ d, icmp_loop (k1 ++ 0 :: r1) (k2 ++ 0 :: r2) = Some d ∧ (d = 0 ↔ map tolower k1 = map tolower k2).
Proof.
  intros H1. revert k2. induction H1 as [|c k1 Hc _ IH]; intros [|c' k2] H2; try (apply Forall_cons in H2 as (Hc' & H2));
    cbn [app icmp_loop map]; change (tolower 0) with 0.
  - exists 0. done.
  - pose proof (tolower_zero c'). destruct (Z.eqb_spec 0 (tolower c')); [lia|]. eexists. split; [done|]. split; [lia|done].
  - pose proof (tolower_zero c). destruct (Z.eqb_spec (tolower c) 0); [lia|]. eexists. split; [done|]. split; [lia|done].
  - destruct (Z.eqb_spec (tolower c) (tolower c')) as [E|Hne]; [destruct (Z.eqb_spec c 0); [lia|]|].
    + destruct (IH k2 H2) as (d & -> & Hd). exists d. split; [done|]. rewrite Hd, E. split; [by intros ->|by intros [= ->]].
    + eexists. split; [done|]. split; [lia|]. intros [= ? _]. done.
Qed.

Lemma strcmp_spec h a b s t :
  text_at (strings h) (Some a) = Some s → text_at (strings h) (Some b) = Some t → ∃ d, strcmp h a b = Some d ∧ (d = 0 ↔ s = t).
Proof.
  intros (r & Ha & Hs)%text_at_inv (r' & Hb & Ht)%text_at_inv. unfold strcmp. rewrite Ha, Hb. cbn [mbind option_bind].
  by apply cmp_loop_spec.
Qed.

Lemma case_insensitive_strcmp_spec h a b s t :
  text_at (strings h) (Some a) = Some s → text_at (strings h) (Some b) = Some t →
  ∃ d, case_insensitive_strcmp h (Some a) (Some b) = Some d ∧ (d = 0 ↔ map tolower s = map tolower t).
Proof.
  intros Ha Hb. unfold case_insensitive_strcmp. destruct (Z.eqb_spec a b) as [->|_].
  { exists 0. split; [done|]. assert (s = t) as -> by congruence. done. }
  apply text_at_inv in Ha as (r & Ha & Hs). apply text_at_inv in Hb as (r' & Hb & Ht). rewrite Ha, Hb. cbn [mbind option_bind].
  by apply icmp_loop_spec.
Qed.

(** ** Members by name *)

Lemma values_inv st a i kids rest l :
  values st (FCons a i kids rest) = Some l →
  ∃ ks v k r, values st kids = Some ks ∧ value_of st i ks = Some v ∧ key_of st i = Some k ∧ values st rest = Some r ∧ l = (k, v) :: r.
Proof. cbn [values]. intros H. inv_bind. subst. by eexists _, _, _, _. Qed.

(** The item [x] with all below it, within [n] items, none of which is in [out]; its value is [v]. *)
Definition item_value (h : heap) (x : Z) (v : json) (f : forest) : Prop :=
  ∃ i kids ks, items h !! x = Some i ∧ string i ≠ None ∧ reach (items h) (child i) kids ∧ values (strings h) kids = Some ks ∧
    value_of (strings h) i ks = Some v ∧ (x :: addrs kids) ⊆ addrs f ∧ (List.length (addrs kids) < List.length (addrs f))%nat ∧ x ∈ siblings f.

Lemma item_value_rest h x v a i kids rest : item_value h x v rest → item_value h x v (FCons a i kids rest).
Proof.
  intros (j & kj & ks & H1 & H2 & H3 & H4 & H5 & H6 & H7 & H8). exists j, kj, ks. split_and!; try done.
  - cbn [addrs]. intros y Hy. apply H6 in Hy. right. apply elem_of_app. by right.
  - cbn [addrs List.length]. rewrite length_app. lia.
  - by right.
Qed.

Lemma find_loop_spec cs h n k f q fuel ms :
  text_at (strings h) (Some n) = Some k → reach (items h) q f → values (strings h) f = Some ((λ kv, (Some kv.1, kv.2)) <$> ms) →
  (List.length (siblings f) ≤ fuel)%nat →
  ∃ r, find_loop fuel h n cs q = Some r ∧
    match r with
    | None => find_key cs k ms = None
    | Some x => ∃ v, find_key cs k ms = Some v ∧ item_value h x v f
    end.
Proof.
  intros Hn. revert q fuel ms. induction f as [|a i kids _ rest IH]; intros q fuel ms; cbn [reach siblings List.length].
  { intros -> Hms _. exists None. by destruct fuel, ms. }
  intros (-> & Hi & Hk & Hr) (ks & v & key0 & r & Hks & Hval & Hkey & Hrest & Hms)%values_inv Hf.
  destruct ms as [|[key v'] ms]; [done|]. destruct fuel as [|fuel]; [lia|].
  rewrite fmap_cons in Hms. injection Hms as <- -> <-.
  cbn [find_loop]. rewrite Hi. cbn [mbind option_bind]. unfold key_of in Hkey. destruct (string i) as [s|] eqn:Es; [|done].
  apply fmap_Some in Hkey as (key' & Hkey & [= <-]).
  assert (Hgo : (if cs then d ← strcmp h n s; Some (negb (d =? 0))
    else d ← case_insensitive_strcmp h (Some n) (Some s); Some (negb (d =? 0))) = Some (negb (key_eq cs k key))).
  { destruct cs; [destruct (strcmp_spec h n s k key Hn Hkey) as (d & -> & Hd)
                 |destruct (case_insensitive_strcmp_spec h n s k key Hn Hkey) as (d & -> & Hd)];
      cbn [mbind option_bind]; do 2 f_equal; unfold key_eq; case_bool_decide; destruct (Z.eqb_spec d 0); tauto. }
  assert (Hgo' : (if cs then (match Some s with Some s => d ← strcmp h n s; Some (negb (d =? 0)) | None => Some false end)
    else d ← case_insensitive_strcmp h (Some n) (Some s); Some (negb (d =? 0))) = Some (negb (key_eq cs k key))) by exact Hgo.
  rewrite Hgo'. cbn [mbind option_bind find_key]. destruct (key_eq cs k key); cbn [negb].
  - exists (Some a). split; [done|]. exists v. split; [done|]. exists i, kids, ks. split_and!; try done; [by rewrite Es|..].
    + cbn [addrs]. intros y [->|Hy]%elem_of_cons; [left|]. right. apply elem_of_app. by left.
    + cbn [addrs List.length]. rewrite length_app. lia.
    + left.
  - destruct (IH (next i) fuel ms Hr Hrest ltac:(lia)) as (r & -> & Hres). exists r. split; [done|].
    destruct r as [y|]; [|done]. destruct Hres as (w & Hw & Hiv). exists w. split; [done|]. by apply item_value_rest.
Qed.

Lemma get_object_item_spec cs h a i kids ms n k :
  items h !! a = Some i → reach (items h) (child i) kids → values (strings h) kids = Some ((λ kv, (Some kv.1, kv.2)) <$> ms) →
  text_at (strings h) (Some n) = Some k →
  ∃ r, get_object_item h (Some a) (Some n) cs = Some r ∧
    match r with
    | None => find_key cs k ms = None
    | Some x => ∃ v, find_key cs k ms = Some v ∧ item_value h x v kids
    end.
Proof.
  intros Hi Hr Hv Hn. unfold get_object_item. rewrite Hi. cbn [mbind option_bind]. pose proof (reach_size _ _ _ Hr).
  destruct (find_loop_spec cs h n k kids (child i) (S (size (items h))) ms Hn Hr Hv ltac:(lia)) as (r & -> & Hres).
  cbn [mbind option_bind]. destruct r as [x|]; [|by exists None]. exists (Some x). split; [|done].
  destruct Hres as (v & _ & (j & kj & ks & -> & Hs & _)). cbn [mbind option_bind]. by rewrite bool_decide_eq_false_2.
Qed.

(** ** Equal values *)

(** The difference of two doubles is at most 2^-52 times the one that is larger in absolute value, where the difference and the product are rounded as doubles are. *)
Definition near_doubles (d e : spec_float) : Prop :=
  let larger := if SFltb (SFabs e) (SFabs d) then SFabs d else SFabs e in
  SFleb (SFabs (SFsub 53 1024 d e)) (SFmul 53 1024 larger (S754_finite false 4503599627370496 (-104))) = true.

Lemma compare_double_near d e : compare_double d e = true ↔ near_doubles d e.
Proof. unfold compare_double, near_doubles. change DBL_EPSILON with (S754_finite false 4503599627370496 (-104)). done. Qed.

(** Two values are the same: numbers up to an error, arrays element by element, objects when every
    member of each has the same value as the first member of the other with its key. *)
Inductive same (cs : bool) : json → json → Prop :=
  | same_null : same cs JNull JNull
  | same_false : same cs JFalse JFalse
  | same_true : same cs JTrue JTrue
  | same_number d e : near_doubles d e → same cs (JNumber d) (JNumber e)
  | same_string s : same cs (JString s) (JString s)
  | same_array l l' : Forall2 (same cs) l l' → same cs (JArray l) (JArray l')
  | same_object l l' :
      (∀ k v, (k, v) ∈ l → ∃ w, find_key cs k l' = Some w ∧ same cs v w) →
      (∀ k w, (k, w) ∈ l' → ∃ v, find_key cs k l = Some v ∧ same cs w v) →
      same cs (JObject l) (JObject l').

Definition covers (cs : bool) (l l' : list (list Z * json)) : Prop :=
  ∀ k v, (k, v) ∈ l → ∃ w, find_key cs k l' = Some w ∧ same cs v w.

Lemma covers_cons cs k v l l' :
  covers cs ((k, v) :: l) l' ↔ (∃ w, find_key cs k l' = Some w ∧ same cs v w) ∧ covers cs l l'.
Proof.
  unfold covers. split; [intros H; split; [apply H; left|intros k' v' Hin; apply H; by right]|].
  intros (H1 & H2) k' v' [[= -> ->]|Hin]%elem_of_cons; [done|by apply H2].
Qed.

(** The code of the type of a value's item. *)
Definition type_of (v : json) : Z :=
  match v with
  | JNull => cJSON_NULL | JFalse => cJSON_False | JTrue => cJSON_True | JNumber _ => cJSON_Number | JString _ => cJSON_String
  | JArray _ => cJSON_Array | JObject _ => cJSON_Object
  end.

Definition contents (st : gmap Z (list Z)) (i : cJSON) (ks : list (option (list Z) * json)) (v : json) : Prop :=
  match v with
  | JNumber d => valuedouble i = d
  | JString s => text_at st (valuestring i) = Some s
  | JArray l => l = snd <$> ks
  | JObject ms => ks = (λ kv, (Some kv.1, kv.2)) <$> ms
  | _ => True
  end.

Lemma value_of_inv st i ks v : value_of st i ks = Some v → Z.land (type i) 0xFF = type_of v ∧ contents st i ks v.
Proof.
  unfold value_of. cbv zeta.
  repeat match goal with |- (if ?c then _ else _) = _ → _ => destruct c eqn:? end; b2p; try done;
    rewrite ?fmap_Some; try (intros [= <-]; done).
  - by intros (s & Hs & ->).
  - intros (ms & Hms & ->). by apply mapM_keys_inv in Hms.
Qed.

Section compare.
Context (cs : bool) (h : heap) (compare : option Z → option Z → option bool) (n : nat).

(** [compare] decides whether two items, separate and with less than [n] items below each, are the same. *)
Definition compares : Prop :=
  ∀ a i kids ks v b j kids' ks' w,
    items h !! a = Some i → reach (items h) (child i) kids → values (strings h) kids = Some ks → value_of (strings h) i ks = Some v →
    items h !! b = Some j → reach (items h) (child j) kids' → values (strings h) kids' = Some ks' → value_of (strings h) j ks' = Some w →
    (List.length (addrs kids) < n)%nat → (List.length (addrs kids') < n)%nat → (a :: addrs kids) ## (b :: addrs kids') →
    ∃ r, compare (Some a) (Some b) = Some r ∧ (r = true ↔ same cs v w).
Context (Hcmp : compares).

Lemma compare_elements_spec f g q q' ks ks' fuel :
  reach (items h) q f → reach (items h) q' g → values (strings h) f = Some ks → values (strings h) g = Some ks' →
  (List.length (addrs f) ≤ n)%nat → (List.length (addrs g) ≤ n)%nat → (List.length (siblings f) ≤ fuel)%nat → addrs f ## addrs g →
  ∃ r, compare_elements compare fuel h q q' = Some r ∧ (r = true ↔ Forall2 (same cs) (snd <$> ks) (snd <$> ks')).
Proof.
  revert g q q' ks ks' fuel. induction f as [|a i kids _ rest IH]; intros g q q' ks ks' fuel.
  { cbn [reach values]. intros -> Hg [= <-] Hv _ _ _ _. destruct g as [|b j kb rg]; cbn [reach] in Hg.
    - subst q'. injection Hv as <-. exists true. destruct fuel; (split; [done|by split; [constructor|]]).
    - destruct Hg as (-> & _). apply values_inv in Hv as (? & w & k & r & _ & _ & _ & _ & ->).
      exists false. destruct fuel; (split; [done|]; rewrite fmap_cons; split; [done|by inversion 1]). }
  cbn [reach]. intros (-> & Hi & Hk & Hr) Hg (kv & v & key & r & Hks & Hv & _ & Hrest & ->)%values_inv.
  destruct g as [|b j kb rg]; cbn [reach] in Hg.
  { subst q'. intros [= <-] _ _ _ _. exists false. rewrite fmap_cons.
    destruct fuel; (split; [done|]; split; [done|by inversion 1]). }
  destruct Hg as (-> & Hj & Hkb & Hrg). intros (kv' & w & key' & r' & Hks' & Hw & _ & Hrest' & ->)%values_inv.
  cbn [addrs siblings List.length]. rewrite !length_app. intros Hn Hn' Hf Hdis. destruct fuel as [|fuel]; [lia|].
  cbn [compare_elements]. rewrite !fmap_cons. cbn [snd].
  assert (Hd1 : (a :: addrs kids) ## (b :: addrs kb)) by set_solver. assert (Hd2 : addrs rest ## addrs rg) by set_solver.
  destruct (Hcmp a i kids kv v b j kb kv' w) as (x & -> & Hx); try done; try lia. cbn [mbind option_bind].
  destruct x; cbn [negb].
  - rewrite Hi, Hj. cbn [mbind option_bind].
    destruct (IH rg (next i) (next j) r r' fuel) as (y & -> & Hy); try done; try lia. exists y. split; [done|].
    rewrite Hy. rewrite Forall2_cons. tauto.
  - exists false. split; [done|]. rewrite Forall2_cons. split; [done|]. intros (H1 & _). apply Hx in H1. done.
Qed.

Lemma compare_members_spec f q ms b j kb ms' fuel :
  reach (items h) q f → values (strings h) f = Some ((λ kv, (Some kv.1, kv.2)) <$> ms) →
  items h !! b = Some j → reach (items h) (child j) kb → values (strings h) kb = Some ((λ kv, (Some kv.1, kv.2)) <$> ms') →
  (List.length (addrs f) ≤ n)%nat → (List.length (addrs kb) ≤ n)%nat → (List.length (siblings f) ≤ fuel)%nat → addrs f ## addrs kb →
  ∃ r, compare_members compare fuel h q b cs = Some r ∧ (r = true ↔ covers cs ms ms').
Proof.
  intros Hf Hv Hj Hkb Hvb Hn Hn'. revert q ms fuel Hf Hv Hn. induction f as [|a i kids _ rest IH]; intros q ms fuel.
  { cbn [reach values]. intros -> Hms _ _ _. destruct ms; [|done]. exists true. destruct fuel; (split; [done|]); split; try done;
      intros _ k v Hin; by apply elem_of_nil in Hin. }
  cbn [reach]. intros (-> & Hi & Hk & Hr) (kv & v & key0 & r & Hks & Hval & Hkey & Hrest & Hms)%values_inv.
  destruct ms as [|[key v'] ms]; [done|]. rewrite fmap_cons in Hms. injection Hms as <- -> <-.
  cbn [addrs siblings List.length]. rewrite length_app. intros Hn Hf Hdis. destruct fuel as [|fuel]; [lia|].
  cbn [compare_members]. rewrite Hi. cbn [mbind option_bind]. setoid_rewrite covers_cons.
  assert (Hs : ∃ s, string i = Some s ∧ text_at (strings h) (Some s) = Some key).
  { unfold key_of in Hkey. destruct (string i) as [s|]; [|done]. apply fmap_Some in Hkey as (t & Ht & [= <-]). by exists s. }
  destruct Hs as (s & -> & Hs).
  destruct (get_object_item_spec cs h b j kb ms' s key Hj Hkb Hvb Hs) as (found & -> & Hfound). cbn [mbind option_bind].
  destruct found as [x|].
  2: { exists false. split; [done|]. rewrite Hfound. split; [done|]. by intros ((w & ? & _) & _). }
  destruct Hfound as (w & -> & (xi & kx & kvx & Hxi & _ & Hkx & Hkvx & Hw & Hsub & Hlt & _)).
  assert (Hd1 : (a :: addrs kids) ## (x :: addrs kx)) by set_solver. assert (Hd2 : addrs rest ## addrs kb) by set_solver.
  destruct (Hcmp a i kids kv v x xi kx kvx w) as (y & -> & Hy); try done; try lia. cbn [mbind option_bind].
  destruct y; cbn [negb].
  - destruct (IH (next i) ms fuel) as (z & -> & Hz); try done; try lia. exists z. split; [done|]. rewrite Hz.
    split; [intros H; split; [exists w; tauto|done]|tauto].
  - exists false. split; [done|]. split; [done|]. intros ((w' & [= <-] & Hs') & _). by apply Hy in Hs'.
Qed.
End compare.

Lemma compare_rec_spec cs h fuel : compares cs h (compare_rec fuel h cs) fuel.
Proof.
  induction fuel as [|fuel IH]; intros a i kids ks v b j kids' ks' w Hi Hr Hks Hv Hj Hr' Hks' Hw Hn Hn' Hdis; [lia|].
  cbn [compare_rec]. rewrite Hi, Hj. cbn [mbind option_bind]. cbv zeta.
  apply value_of_inv in Hv as (-> & Hv). apply value_of_inv in Hw as (-> & Hw).
  assert (Hab : (a =? b) = false) by (apply Z.eqb_neq; intros ->; apply (Hdis b); left). rewrite Hab.
  pose proof (siblings_length kids). pose proof (siblings_length kids').
  destruct v, w; cbn [type_of]; try (exists false; split; [done|]; split; [done|inversion 1]; fail);
    cbn [contents] in Hv, Hw.
  - exists true. split; [done|]. split; [constructor|done].
  - exists true. split; [done|]. split; [constructor|done].
  - exists true. split; [done|]. split; [constructor|done].
  - subst. eexists. split; [reflexivity|]. split; [by constructor|by inversion 1].
  - destruct (valuestring i) as [s1|]; [|done]. destruct (valuestring j) as [s2|]; [|done].
    destruct (strcmp_spec h s1 s2 _ _ Hv Hw) as (d & E & Hd).
    exists (d =? 0). split; [cbn; by rewrite E|]. rewrite Z.eqb_eq, Hd. split; [intros ->; constructor|by inversion 1].
  - assert (Hd : addrs kids ## addrs kids') by set_solver.
    destruct (compare_elements_spec cs h (compare_rec fuel h cs) fuel IH kids kids' (child i) (child j) ks ks' fuel)
      as (r & E & Hres); try done; try lia.
    exists r. split; [exact E|]. subst. rewrite Hres. split; [by constructor|by inversion 1].
  - assert (Hd : addrs kids ## addrs kids') by set_solver. subst.
    destruct (compare_members_spec cs h (compare_rec fuel h cs) fuel IH kids (child i) l b j kids' l0 fuel)
      as (r & E & Hres); try done; try lia.
    destruct (compare_members_spec cs h (compare_rec fuel h cs) fuel IH kids' (child j) l0 a i kids l fuel)
      as (r' & E' & Hres'); try done; try lia; [set_solver|].
    exists (r && r'). split.
    + transitivity (one ← compare_members (compare_rec fuel h cs) fuel h (child i) b cs;
        if negb one then Some false else compare_members (compare_rec fuel h cs) fuel h (child j) a cs); [reflexivity|].
      rewrite E. cbn [mbind option_bind]. destruct r; [|done]. exact E'.
    + rewrite andb_true_iff, Hres, Hres'. split; [intros (? & ?); by constructor|inversion 1; by split].
Qed.

Lemma tree_root h a f v :
  is_tree h a f v →
  ∃ i kids ks, f = FCons a i kids FNil ∧ items h !! a = Some i ∧ reach (items h) (child i) kids ∧ holds (items h) (child i) kids ∧
    wired (last (siblings kids)) kids ∧ values (strings h) kids = Some ks ∧ value_of (strings h) i ks = Some v ∧ (List.length (addrs kids) < size (items h))%nat.
Proof.
  intros (Hh & Hw & Hnd & key & Hv). pose proof (forest_size _ _ _ Hh Hnd) as Hsize. pose proof (holds_reach _ _ _ _ Hh Hw) as Hr.
  destruct f as [|a' i kids rest]; [done|]. cbn [holds wired reach addrs List.length] in *. rewrite length_app in Hsize.
  destruct Hr as ([= <-] & Hi & Hk & _). destruct Hw as (_ & Hf & Hwk & _). destruct Hh as (_ & _ & Hh & _). rewrite Hf in Hh.
  apply values_inv in Hv as (ks & v' & k & r & Hks & Hval & _ & Hrest & [= -> -> <-]).
  destruct rest; [|apply values_inv in Hrest as (? & ? & ? & ? & _ & _ & _ & _ & ?); done].
  exists i, kids, ks. split_and!; try done. lia.
Qed.

Lemma item_stands h p q f x v : holds (items h) q f → wired p f → item_value h x v f → stands_for h x v.
Proof.
  intros Hh Hw (i & kids & ks & Hi & _ & Hr & Hks & Hv & _ & _ & Hx). exists i, kids, ks. split; [done|]. split; [|done].
  clear Hks Hv ks v. revert p q Hh Hw. induction f as [|a j kj _ rest IH]; intros p q; cbn [holds wired]; [by apply elem_of_nil in Hx|].
  cbn [siblings] in Hx. intros (-> & Hj & Hk & Hrest) (_ & Hf & Hwk & Hwr). rewrite Hf in Hk.
  apply elem_of_cons in Hx as [->|Hx]; [|by eapply IH]. assert (j = i) as -> by congruence.
  by rewrite (reach_det _ _ _ _ Hr (holds_reach _ _ _ _ Hk Hwk)).
Qed.

Lemma compare_trees cs h a f v b g w :
  is_tree h a f v → is_tree h b g w → addrs f ## addrs g →
  ∃ r, cJSON_Compare h (Some a) (Some b) cs = Some r ∧ (r = true ↔ same cs v w).
Proof.
  intros (i & kids & ks & -> & Hi & Hr & _ & _ & Hks & Hv & Hs)%tree_root (j & kids' & ks' & -> & Hj & Hr' & _ & _ & Hks' & Hw & Hs')%tree_root Hd.
  cbn [addrs] in Hd. rewrite !app_nil_r in Hd. unfold cJSON_Compare.
  apply (compare_rec_spec cs h _ a i kids ks v b j kids' ks' w); try done; lia.
Qed.

(** C29: For two separate, well-linked trees cJSON_Compare returns, and it decides whether they stand for the
    same value: literals and strings that are equal, numbers that differ by at most 2^-52 of the larger one in the arithmetic of doubles, arrays
    with the same elements in order, and objects in any order, of which every member of each has
    the same value as the first member of the other object with its key, with or without case. NULL is not
    equal to anything. *)
Theorem compare_correct cs h a f v b g w :
  is_tree h a f v → is_tree h b g w → addrs f ## addrs g →
  (∃ r, cJSON_Compare h (Some a) (Some b) cs = Some r ∧ (r = true ↔ same cs v w)) ∧
  ∀ x, cJSON_Compare h None x cs = Some false ∧ cJSON_Compare h x None cs = Some false.
Proof. intros H1 H2 H3. split; [by apply (compare_trees cs h a f v b g w)|]. intros x. by split; [|destruct x]. Qed.

(** Looking a member of an object up by its name, with or without case, finds the first member
    that has the key, and NULL when there is none; cJSON_HasObjectItem says which. *)
Theorem get_object_item_correct cs h a f ms n k :
  is_tree h a f (JObject ms) → text_at (strings h) (Some n) = Some k →
  (∃ r, get_object_item h (Some a) (Some n) cs = Some r ∧
    match r with
    | None => find_key cs k ms = None
    | Some x => ∃ v, find_key cs k ms = Some v ∧ stands_for h x v
    end) ∧
  cJSON_HasObjectItem h (Some a) (Some n) = Some (bool_decide (find_key false k ms ≠ None)).
Proof.
  intros Ht Hn. pose proof (tree_root _ _ _ _ Ht) as (i & kids & ks & -> & Hi & Hr & Hh & Hwk & Hks & Hv & _).
  apply value_of_inv in Hv as (_ & Hv). cbn [contents] in Hv. subst ks. split.
  - destruct (get_object_item_spec cs h a i kids ms n k Hi Hr Hks Hn) as (r & E & Hres). exists r. split; [done|].
    destruct r as [x|]; [|done]. destruct Hres as (v & Hv & Hiv). exists v. split; [done|].
    by eapply item_stands.
  - unfold cJSON_HasObjectItem, cJSON_GetObjectItem.
    destruct (get_object_item_spec false h a i kids ms n k Hi Hr Hks Hn) as (r & -> & Hres). cbn [mbind option_bind].
    f_equal. apply bool_decide_ext. destruct r as [x|]; [|by rewrite Hres]. destruct Hres as (v & -> & _). done.
Qed.

(** ** A value is the same as itself *)

Lemma round_nonneg m e l : 0 ≤ m → SFleb (S754_zero false) (binary_round_aux 53 1024 false m e l) = true.
Proof.
  intros Hm. unfold binary_round_aux. pose proof (shr_fexp_m m e l Hm) as H1.
  destruct (shr_fexp 53 1024 m e l) as [r1 e1].
  pose proof (shr_fexp_m (round_nearest_even (shr_m r1) (loc_of_shr_record r1)) e1 loc_Exact
                (round_even_nonneg _ _ (proj1 H1))) as H2.
  destruct (shr_fexp 53 1024 _ e1 loc_Exact) as [r2 e2].
  destruct (shr_m r2) as [|p|p]; [done| |lia]. by destruct (_ <=? _).
Qed.

Lemma compare_double_refl d : is_special d = false → compare_double d d = true.
Proof.
  destruct d as [s|s| |s m e]; try done; [by destruct s|]. intros _. unfold compare_double.
  assert (Hsub : SFsub 53 1024 (S754_finite s m e) (S754_finite s m e) = S754_zero false).
  { unfold SFsub. rewrite Z.sub_diag. done. }
  rewrite Hsub. assert (Hmax : ∀ b : bool, (if b then SFabs (S754_finite s m e) else SFabs (S754_finite s m e)) = S754_finite false m e) by (by intros []).
  rewrite Hmax. change DBL_EPSILON with (S754_finite false 4503599627370496 (-104)). by apply round_nonneg.
Qed.

(** Values with finite numbers, and objects without two members of the same key. *)
Definition unique_keys (cs : bool) (ms : list (list Z * json)) : Prop :=
  ∀ m n kv kv', ms !! m = Some kv → ms !! n = Some kv' → key_eq cs kv.1 kv'.1 = true → m = n.
Fixpoint regular (cs : bool) (v : json) : Prop :=
  match v with
  | JNumber d => is_special d = false
  | JArray l => Forall id (map (regular cs) l)
  | JObject l => unique_keys cs l ∧ Forall id (map (λ kv, regular cs kv.2) l)
  | _ => True
  end.

Lemma find_key_unique cs ms k v : unique_keys cs ms → (k, v) ∈ ms → find_key cs k ms = Some v.
Proof.
  intros Hu (n & Hn)%list_elem_of_lookup. revert n Hu Hn. induction ms as [|[k' v'] ms IH]; intros n Hu Hn; [done|].
  cbn [find_key]. destruct n as [|n].
  - injection Hn as -> ->. by rewrite key_eq_refl.
  - destruct (key_eq cs k k') eqn:E; [by specialize (Hu (S n) 0%nat (k, v) (k', v') Hn eq_refl E)|].
    apply (IH n); [|done]. intros a b x y Ha Hb Hxy. specialize (Hu (S a) (S b) x y Ha Hb Hxy). lia.
Qed.

Lemma same_refl cs v : regular cs v → same cs v v.
Proof.
  induction v as [| | |d|s|l IH|l IH] using json_induction; cbn [regular]; try (intros _; constructor; fail).
  - intros Hd. constructor. by apply compare_double_near, compare_double_refl.
  - rewrite Forall_id_map. intros H. constructor. induction IH as [|v l Hv _ IHl]; [constructor|].
    apply Forall_cons in H as (H1 & H2). constructor; [by apply Hv|by apply IHl].
  - rewrite Forall_id_map. intros (Hu & Hr). rewrite Forall_forall in IH, Hr.
    constructor; intros k v Hin; exists v; (split; [by apply find_key_unique|]); by apply (IH (k, v) Hin), (Hr (k, v)).
Qed.

(** A tree and what cJSON_Duplicate makes of it compare as equal, when its numbers are finite and no
    object in it has two members of the same key. *)
Theorem duplicate_compares mb cs h a f v a' h' :
  sized mb → below h → is_tree h a f v → all_readable (strings h) f → regular cs v →
  cJSON_Duplicate mb h (Some a) true = Some (Some a', h') → cJSON_Compare h' (Some a) (Some a') cs = Some true.
Proof.
  intros Hmb Hb Ht Hread Hreg E. pose proof (tree_root _ _ _ _ Ht) as (i & kids & ks & -> & Hi & Hr & Hh & Hwk & Hks & Hv & _).
  cbn [all_readable] in Hread. destruct Hread as (R1 & R2 & _).
  destruct (duplicate_made mb h a i kids true Hmb Hb Hi Hr R1 R2) as (r & h1 & E1 & Hres). rewrite E in E1. injection E1 as <- <-.
  destruct Hres as (copy & G & _ & _ & _ & Hcopy & _). destruct Ht as (Hh0 & Hw0 & Hnd & key & Hval).
  assert (Hold : ∀ x, x ∈ addrs (FCons a i kids FNil) → items h' !! x = items h !! x).
  { intros x Hx. apply (grown_items _ _ _ _ _ G); [|apply not_elem_of_nil]. eapply not_in_grown; [exact G|].
    apply (proj1 Hb). exact (holds_in _ _ _ _ Hh0 Hx). }
  assert (Ht' : is_tree h' a (FCons a i kids FNil) v).
  { split; [by apply (holds_same (items h))|]. split; [done|]. split; [done|]. exists key.
    eapply values_mono; [by eapply grown_mono|done]. }
  destruct (compare_trees cs h' a _ v a' copy v Ht' (Hcopy key v Hval)) as (b & -> & Hb').
  - intros x Hx Hx'. apply (not_in_grown _ _ _ _ _ x G) in Hx'; [done|]. apply (proj1 Hb). exact (holds_in _ _ _ _ Hh0 Hx).
  - f_equal. apply Hb'. by apply same_refl.
Qed.

(** ** Witnesses *)

(** [{"a":1,"b":[]}] at 1 and [{"B":[],"a":1}] at 4; the string at 14 is [B]. *)
Definition one_at (n p s : option Z) : cJSON := set_string s (set_number (of_int 1) 1 (set_next n (set_prev p (set_type cJSON_Number blank)))).
Definition empty_at (n p s : option Z) : cJSON := set_string s (set_next n (set_prev p (set_type cJSON_Array blank))).
Definition object_at (c : Z) : cJSON := set_child (Some c) (set_type cJSON_Object blank).
Definition pair_heap : heap :=
  mkHeap {[1 := object_at 2; 2 := one_at (Some 3) (Some 3) (Some 10); 3 := empty_at None (Some 2) (Some 11);
           4 := object_at 5; 5 := empty_at (Some 6) (Some 6) (Some 12); 6 := one_at None (Some 5) (Some 13)]}
         {[10 := [97; 0]; 11 := [98; 0]; 12 := [66; 0]; 13 := [97; 0]; 14 := [66; 0]]} 15 [].
Definition pair_one : forest :=
  FCons 1 (object_at 2) (FCons 2 (one_at (Some 3) (Some 3) (Some 10)) FNil (FCons 3 (empty_at None (Some 2) (Some 11)) FNil FNil)) FNil.
Definition pair_two : forest :=
  FCons 4 (object_at 5) (FCons 5 (empty_at (Some 6) (Some 6) (Some 12)) FNil (FCons 6 (one_at None (Some 5) (Some 13)) FNil FNil)) FNil.
Definition value_one : json := JObject [([97], JNumber (of_int 1)); ([98], JArray [])].
Definition value_two : json := JObject [([66], JArray []); ([97], JNumber (of_int 1))].

Lemma pair_tree_one : is_tree pair_heap 1 pair_one value_one.
Proof.
  split; [by vm_compute; repeat split|]. split; [by vm_compute; repeat split|].
  split; [apply (bool_decide_unpack (NoDup (addrs pair_one))); done|]. exists None. vm_compute. reflexivity.
Qed.

Lemma pair_tree_two : is_tree pair_heap 4 pair_two value_two.
Proof.
  split; [by vm_compute; repeat split|]. split; [by vm_compute; repeat split|].
  split; [apply (bool_decide_unpack (NoDup (addrs pair_two))); done|]. exists None. vm_compute. reflexivity.
Qed.

Lemma pair_below : below pair_heap.
Proof.
  split; intros x (y & Hy); cbn in *;
    repeat (apply lookup_insert_Some in Hy as [(<- & _)|(_ & Hy)]; [lia|]); try (by apply lookup_empty_Some in Hy);
    apply lookup_singleton_Some in Hy as (<- & _); lia.
Qed.

Lemma pair_apart : addrs pair_one ## addrs pair_two.
Proof. cbn [addrs pair_one pair_two app]. set_solver by lia. Qed.

Lemma pair_regular : regular true value_one.
Proof.
  split; [|by repeat constructor]. intros m n kv kv' Hm Hn.
  destruct m as [|[|m]], n as [|[|n]]; try done; cbn in Hm, Hn; injection Hm as <-; injection Hn as <-; done.
Qed.

Lemma compare_correct_witness :
  ((∃ r, cJSON_Compare pair_heap (Some 1) (Some 4) false = Some r ∧ (r = true ↔ same false value_one value_two)) ∧
   ∀ x, cJSON_Compare pair_heap None x false = Some false ∧ cJSON_Compare pair_heap x None false = Some false) ∧
  cJSON_Compare pair_heap (Some 1) (Some 4) false = Some true ∧ cJSON_Compare pair_heap (Some 1) (Some 4) true = Some false ∧
  near_doubles (S754_finite false 4503599627370496 (-52)) (S754_finite false 4503599627370497 (-52)) ∧
  ¬ near_doubles (S754_finite false 4503599627370496 (-52)) (S754_finite false 4503599627370498 (-52)).
Proof.
  split; [|split; [vm_compute; reflexivity|split; [vm_compute; reflexivity|split; [vm_compute; reflexivity|vm_compute; discriminate]]]].
  apply (compare_correct false pair_heap 1 pair_one value_one 4 pair_two value_two pair_tree_one pair_tree_two pair_apart).
Defined.

Lemma get_object_item_correct_witness :
  get_object_item pair_heap (Some 1) (Some 14) false = Some (Some 3) ∧ get_object_item pair_heap (Some 1) (Some 14) true = Some None ∧
  cJSON_HasObjectItem pair_heap (Some 1) (Some 14) = Some (bool_decide (find_key false [66] [([97], JNumber (of_int 1)); ([98], JArray [])] ≠ None)).
Proof.
  split; [vm_compute; reflexivity|]. split; [vm_compute; reflexivity|].
  apply (get_object_item_correct true pair_heap 1 pair_one _ 14 [66] pair_tree_one). reflexivity.
Defined.

Lemma duplicate_compares_witness :
  ∃ a' h', cJSON_Duplicate exact_blocks pair_heap (Some 1) true = Some (Some a', h') ∧ cJSON_Compare h' (Some 1) (Some a') true = Some true.
Proof.
  destruct (cJSON_Duplicate exact_blocks pair_heap (Some 1) true) as [[[a'|] h']|] eqn:E; try (vm_compute in E; discriminate E).
  exists a', h'. split; [reflexivity|].
  apply (duplicate_compares exact_blocks true pair_heap 1 pair_one value_one).
  - apply exact_sized, exact_blocks_exact.
  - apply pair_below.
  - apply pair_tree_one.
  - repeat split; eexists; vm_compute; reflexivity.
  - apply pair_regular.
  - exact E.
Defined.
