(* ===== verification/CJsonMinifyProofs.v ===== *)
(** Proofs about [cJSON_Minify] (CJsonMinify.v): it stays inside its block and does to the text what
    an automaton on lists says; what it makes of printed values, and of strings that end
    with a backslash. *)
From S2P Require Import Prelude CJsonHeap CJsonText CJsonTextProofs CJsonNum CJsonNumProofs CJson CJsonRef.
From S2P Require Import CJsonParseProofs CJsonPrintProofs CJsonRoundtrip CJsonMinify.

(** ** The automaton *)

Inductive mode := Plain | Line | Comment | Quoted.
Definition blank_char (c : Z) : bool := (c =? 32) || (c =? 9) || (c =? 13) || (c =? 10).

Fixpoint minified (m : mode) (z : list Z) : list Z :=
  match z with
  | [] => []
  | c :: z' =>
      match m with
      | Plain =>
          if blank_char c then minified Plain z'
          else if c =? 47 then
            match z' with
            | d :: z'' =>
                if d =? 47 then minified Line z'' else if d =? 42 then minified Comment z'' else minified Plain z'
            | [] => []
            end
          else if c =? 34 then 34 :: minified Quoted z'
          else c :: minified Plain z'
      | Line => if c =? 10 then minified Plain z' else minified Line z'
      | Comment =>
          if c =? 42 then
            match z' with
            | d :: z'' => if d =? 47 then minified Plain z'' else minified Comment z'
            | [] => []
            end
          else minified Comment z'
      | Quoted =>
          if c =? 34 then 34 :: minified Plain z'
          else if c =? 92 then
            match z' with
            | d :: z'' => if d =? 34 then 92 :: 34 :: minified Quoted z'' else 92 :: minified Quoted z'
            | [] => [92]
            end
          else c :: minified Quoted z'
      end
  end.

(** ** The block while it is rewritten *)

(** [out] has been written; [z] is still to be read, from behind it. *)
Record rewriting (buf out z r : list Z) (json into : Z) : Prop := Rewriting {
  rw_into : into = zlen out;
  rw_le : into ≤ json;
  rw_out : take (List.length out) buf = out;
  rw_rest : drop (Z.to_nat json) buf = z ++ 0 :: r }.

Lemma rewriting_rd buf out z r json into (k : nat) :
  rewriting buf out z r json into → buf.[json + Z.of_nat k] = (z ++ 0 :: r) !! k.
Proof.
  intros [Hi Hle Ho Hr]. unfold rd. destruct (Z.ltb_spec (json + Z.of_nat k) 0); [lia|].
  rewrite <- Hr, lookup_drop. f_equal. lia.
Qed.

Lemma rewriting_length buf out z r json into : rewriting buf out z r json into → into ≤ json < zlen buf ∧ (List.length z < List.length buf)%nat.
Proof.
  intros [Hi Hle Ho Hr]. apply (f_equal (@List.length Z)) in Hr. rewrite length_drop, length_app in Hr. cbn [List.length] in Hr. lia.
Qed.

Lemma rewriting_head buf out z r json into :
  rewriting buf out z r json into → buf.[json] = Some (match z with [] => 0 | c :: _ => c end).
Proof. intros H. pose proof (rewriting_rd _ _ _ _ _ _ 0 H) as E. rewrite Z.add_0_r in E. rewrite E. by destruct z. Qed.

Lemma rewriting_second buf out c z r json into :
  rewriting buf out (c :: z) r json into → buf.[json + 1] = Some (match z with [] => 0 | d :: _ => d end).
Proof. intros H. pose proof (rewriting_rd _ _ _ _ _ _ 1 H) as E. change (Z.of_nat 1) with 1 in E. rewrite E. by destruct z. Qed.

Lemma rewriting_skip buf out c z r json into :
  rewriting buf out (c :: z) r json into → rewriting buf out z r (json + 1) into.
Proof.
  intros [Hi Hle Ho Hr]. split; try done; [lia|].
  replace (Z.to_nat (json + 1)) with (Z.to_nat json + 1)%nat by lia. rewrite <- drop_drop, Hr. done.
Qed.

(** A byte is copied; where it is read, it stays for now. *)
Lemma rewriting_copy buf out c z r json into :
  rewriting buf out (c :: z) r json into →
  ∃ buf', wr buf into c = Some buf' ∧ rewriting buf' (out ++ [c]) z r (json + 1) (into + 1) ∧ List.length buf' = List.length buf ∧
    buf'.[json] = Some c ∧ wr buf' into c = Some buf'.
Proof.
  intros H. destruct (rewriting_length _ _ _ _ _ _ H) as (Hb & _). pose proof (rewriting_head _ _ _ _ _ _ H) as Hc. cbn in Hc.
  destruct H as [Hi Hle Ho Hr]. rewrite wr_in_bounds by lia. eexists. split; [done|].
  assert (Hn : Z.to_nat into = List.length out) by lia. rewrite Hn. split; [|split; [|split]].
  - split; [len|lia| |].
    + rewrite length_app. cbn [List.length]. rewrite insert_take_drop by lia. rewrite Ho. by rewrite take_app_add.
    + rewrite drop_insert_lt by lia.
      replace (Z.to_nat (json + 1)) with (Z.to_nat json + 1)%nat by lia. by rewrite <- drop_drop, Hr.
  - apply length_insert.
  - rewrite <- Hn, rd_insert by lia. by case_cmp.
  - rewrite wr_in_bounds by (rewrite length_insert; lia). by rewrite Hn, list_insert_insert_eq.
Qed.

(** ** The loops follow the automaton *)

Lemma oneline_loop_spec fuel buf out z r json into :
  rewriting buf out z r json into → nonzero z → (List.length z < fuel)%nat →
  ∃ z' json', oneline_loop fuel buf json = Some json' ∧ rewriting buf out z' r json' into ∧ nonzero z' ∧
    (List.length z' ≤ List.length z)%nat ∧ minified Line z = minified Plain z'.
Proof.
  intros H Hz. revert fuel json H. induction Hz as [|c z Hc Hz IH]; intros fuel json H Hf; (destruct fuel as [|fuel]; [cbn in Hf; lia|]);
    cbn [oneline_loop]; rewrite (rewriting_head _ _ _ _ _ _ H); cbn [mbind option_bind].
  - exists [], json. split_and!; done || constructor.
  - destruct (Z.eqb_spec c 0); [done|]. cbn [minified List.length] in *. apply rewriting_skip in H. destruct (c =? 10).
    + exists z, (json + 1). split_and!; try done. lia.
    + destruct (IH fuel _ H ltac:(lia)) as (z' & j & E & H' & Hz' & Hl & Em). exists z', j. split_and!; try done. lia.
Qed.

Lemma multiline_loop_spec fuel buf out z r json into :
  rewriting buf out z r json into → nonzero z → (List.length z < fuel)%nat →
  ∃ z' json', multiline_loop fuel buf json = Some json' ∧ rewriting buf out z' r json' into ∧ nonzero z' ∧
    (List.length z' ≤ List.length z)%nat ∧ minified Comment z = minified Plain z'.
Proof.
  intros H Hz. revert fuel json H. induction Hz as [|c z Hc Hz IH]; intros fuel json H Hf; (destruct fuel as [|fuel]; [cbn in Hf; lia|]);
    cbn [multiline_loop]; rewrite (rewriting_head _ _ _ _ _ _ H); cbn [mbind option_bind].
  - exists [], json. split_and!; done || constructor.
  - destruct (Z.eqb_spec c 0); [done|]. pose proof (rewriting_second _ _ _ _ _ _ _ H) as H2.
    pose proof (rewriting_skip _ _ _ _ _ _ _ H) as H1. cbn [minified List.length] in *.
    assert (Hgo : ∃ z' json', multiline_loop fuel buf (json + 1) = Some json' ∧ rewriting buf out z' r json' into ∧ nonzero z' ∧
      (List.length z' ≤ S (List.length z))%nat ∧ minified Comment z = minified Plain z').
    { destruct (IH fuel _ H1 ltac:(lia)) as (z' & j & E & H' & Hz' & Hl & Em). exists z', j. split_and!; try done. lia. }
    destruct (c =? 42); cbn [mbind option_bind]; [|exact Hgo]. rewrite H2. cbn [mbind option_bind].
    destruct z as [|d z]; [exact Hgo|]. destruct (d =? 47); [|exact Hgo].
    apply rewriting_skip in H1. apply Forall_cons in Hz as (_ & Hz). exists z, (json + 1 + 1).
    split_and!; [f_equal; lia|done|done|cbn; lia|done].
Qed.

Lemma string_loop_spec fuel buf out z r json into :
  rewriting buf out z r json into → nonzero z → (List.length z < fuel)%nat →
  ∃ buf' out' z' json' into', string_loop fuel buf json into = Some (buf', json', into') ∧
    rewriting buf' (out ++ out') z' r json' into' ∧ List.length buf' = List.length buf ∧ nonzero z' ∧ nonzero out' ∧
    (List.length z' ≤ List.length z)%nat ∧ minified Quoted z = out' ++ minified Plain z'.
Proof.
  revert buf out z json into. induction fuel as [|fuel IH]; intros buf out z json into H Hz Hf; [lia|].
  cbn [string_loop]. rewrite (rewriting_head _ _ _ _ _ _ H). cbn [mbind option_bind]. destruct z as [|c z].
  { exists buf, [], [], json, into. rewrite app_nil_r. split_and!; try done. }
  apply Forall_cons in Hz as (Hc & Hz). destruct (Z.eqb_spec c 0); [done|]. pose proof (rewriting_second _ _ _ _ _ _ _ H) as H2.
  destruct (rewriting_copy _ _ _ _ _ _ _ H) as (buf1 & -> & H1 & Hl1 & Hc1 & Hw1). cbn [mbind option_bind]. rewrite Hc1.
  cbn [mbind option_bind minified List.length] in *. destruct (Z.eqb_spec c 34) as [->|Hne].
  { rewrite Hw1. cbn [mbind option_bind]. exists buf1, [34], z, (json + 1), (into + 1). split_and!; try done; [by repeat constructor|lia]. }
  assert (Hgo : ∃ buf' out' z' json' into', string_loop fuel buf1 (json + 1) (into + 1) = Some (buf', json', into') ∧
    rewriting buf' (out ++ out') z' r json' into' ∧ List.length buf' = List.length buf ∧ nonzero z' ∧ nonzero out' ∧
    (List.length z' ≤ S (List.length z))%nat ∧ c :: minified Quoted z = out' ++ minified Plain z').
  { destruct (IH _ _ _ _ _ H1 Hz ltac:(lia)) as (b & o & z' & j & i & E & H' & Hl & Hz' & Ho & Hlz & Em).
    exists b, (c :: o), z', j, i. rewrite <- app_assoc in H'. split_and!; try done; [congruence|by constructor|lia|by rewrite Em]. }
  pose proof (rewriting_head _ _ _ _ _ _ H1) as Hd1.
  destruct (Z.eqb_spec c 92) as [->|_]; cbn [mbind option_bind]; [|exact Hgo]. rewrite Hd1. cbn [mbind option_bind].
  destruct z as [|d z]; [exact Hgo|]. destruct (Z.eqb_spec d 34) as [->|_]; [|exact Hgo].
  destruct (rewriting_copy _ _ _ _ _ _ _ H1) as (buf2 & -> & H3 & Hl2 & _). cbn [mbind option_bind].
  apply Forall_cons in Hz as (_ & Hz). cbn [List.length] in Hf.
  destruct (IH _ _ _ _ _ H3 Hz ltac:(lia)) as (b & o & z' & j & i & E & H' & Hl & Hz' & Ho & Hlz & Em).
  exists b, (92 :: 34 :: o), z', j, i. rewrite <- !app_assoc in H'.
  split_and!; try done; [congruence|by repeat constructor|cbn; lia|by rewrite Em].
Qed.

Lemma minify_loop_spec fuel buf out z r json into :
  rewriting buf out z r json into → nonzero z → (List.length z < fuel)%nat →
  ∃ buf' json' into', minify_loop fuel buf json into = Some (buf', into') ∧ rewriting buf' (out ++ minified Plain z) [] r json' into' ∧
    List.length buf' = List.length buf ∧ nonzero (minified Plain z).
Proof.
  revert buf out z json into. induction fuel as [|fuel IH]; intros buf out z json into H Hz Hf; [lia|].
  cbn [minify_loop]. rewrite (rewriting_head _ _ _ _ _ _ H). cbn [mbind option_bind]. destruct z as [|c z].
  { exists buf, json, into. rewrite app_nil_r. by split_and!. }
  apply Forall_cons in Hz as (Hc & Hz). destruct (Z.eqb_spec c 0); [done|]. pose proof (rewriting_second _ _ _ _ _ _ _ H) as H2.
  pose proof (rewriting_skip _ _ _ _ _ _ _ H) as H1. cbn [List.length minified] in *. fold (blank_char c).
  destruct (blank_char c); [apply IH; done || lia|]. destruct (Z.eqb_spec c 47) as [->|_].
  { rewrite H2. cbn [mbind option_bind]. destruct z as [|d z]; [apply (IH _ _ [] _ _ H1); [constructor|cbn in *; lia]|].
    pose proof Hz as Hz0. apply Forall_cons in Hz0 as (_ & Hz0). pose proof (rewriting_skip _ _ _ _ _ _ _ H1) as H3.
    pose proof (rewriting_length _ _ _ _ _ _ H3) as (_ & Hl). cbn [List.length] in Hf.
    replace (json + 1 + 1) with (json + 2) in H3 by lia.
    destruct (d =? 47); [|destruct (d =? 42); [|by apply IH; try (cbn; lia)]].
    - unfold skip_oneline_comment. destruct (oneline_loop_spec (S (List.length buf)) _ _ _ _ _ _ H3 Hz0 ltac:(lia)) as (z' & j & -> & H' & Hz' & Hlz & ->).
      cbn [mbind option_bind]. apply IH; done || lia.
    - unfold skip_multiline_comment. destruct (multiline_loop_spec (S (List.length buf)) _ _ _ _ _ _ H3 Hz0 ltac:(lia)) as (z' & j & -> & H' & Hz' & Hlz & ->).
      cbn [mbind option_bind]. apply IH; done || lia. }
  destruct (rewriting_copy _ _ _ _ _ _ _ H) as (buf1 & Hw & H3 & Hl1 & _). destruct (Z.eqb_spec c 34) as [->|_].
  - unfold minify_string. rewrite (rewriting_head _ _ _ _ _ _ H). cbn [mbind option_bind]. rewrite Hw. cbn [mbind option_bind].
    pose proof (rewriting_length _ _ _ _ _ _ H3) as (_ & Hl).
    destruct (string_loop_spec (S (List.length buf1)) _ _ _ _ _ _ H3 Hz ltac:(lia)) as (b & o & z' & j & i & -> & H' & Hlb & Hz' & Ho & Hlz & ->).
    cbn [mbind option_bind]. destruct (IH _ _ _ _ _ H' Hz' ltac:(lia)) as (b' & j' & i' & -> & H4 & Hl4 & Hn).
    exists b', j', i'. rewrite <- !app_assoc in H4. split_and!; try done; [congruence|]. constructor; [done|]. by apply nonzero_app.
  - rewrite Hw. cbn [mbind option_bind]. destruct (IH _ _ _ _ _ H3 Hz ltac:(lia)) as (b' & j' & i' & -> & H4 & Hl4 & Hn).
    exists b', j', i'. rewrite <- app_assoc in H4. split_and!; try done; [congruence|]. by constructor.
Qed.

Lemma cJSON_Minify_spec z r :
  nonzero z → ∃ buf, cJSON_Minify (Some (z ++ 0 :: r)) = Some (Some buf) ∧ List.length buf = List.length (z ++ 0 :: r) ∧
    c_string buf = Some (minified Plain z).
Proof.
  intros Hz. unfold cJSON_Minify. set (buf := z ++ 0 :: r). assert (H : rewriting buf [] z r 0 0) by done.
  destruct (minify_loop_spec (S (List.length buf)) _ _ _ _ _ _ H Hz ltac:(unfold buf; len)) as (b & j & i & -> & H' & Hl & Hn).
  cbn [mbind option_bind app] in *. destruct (rewriting_length _ _ _ _ _ _ H') as (Hb & _). destruct H' as [Hi _ Ho _].
  rewrite wr_in_bounds by lia. cbn [mbind option_bind]. eexists. split; [done|]. rewrite length_insert. split; [done|].
  rewrite insert_take_drop by lia. replace (Z.to_nat i) with (List.length (minified Plain z)) by lia. rewrite Ho. by apply c_string_app.
Qed.

(** ** Printed values *)

(** The automaton turns [t] into [t']. *)
Definition mini (t t' : list Z) : Prop := ∀ r, minified Plain (t ++ r) = t' ++ minified Plain r.

Lemma mini_app a a' b b' : mini a a' → mini b b' → mini (a ++ b) (a' ++ b').
Proof. intros Ha Hb r. by rewrite <- !app_assoc, Ha, Hb. Qed.
Lemma mini_nil : mini [] [].
Proof. done. Qed.

(** A character that stays. *)
Definition solid (c : Z) : bool := negb (blank_char c) && negb (c =? 47) && negb (c =? 34).

Lemma mini_char c : solid c = true → mini [c] [c].
Proof.
  unfold solid. intros H r. b2p. cbn [app minified]. rewrite H. destruct (Z.eqb_spec c 47); [done|]. by destruct (Z.eqb_spec c 34).
Qed.

Lemma mini_solid t : Forall (λ c, solid c = true) t → mini t t.
Proof. induction 1 as [|c t Hc _ IH]; [apply mini_nil|]. apply (mini_app [c] [c] t t); [by apply mini_char|done]. Qed.

Lemma mini_blank t : Forall (λ c, blank_char c = true) t → mini t [].
Proof.
  induction 1 as [|c t Hc _ IH]; [apply mini_nil|]. intros r. cbn [app minified]. rewrite Hc. apply IH.
Qed.

Lemma glyph_solid c : glyph c → solid c = true.
Proof.
  unfold glyph, solid, blank_char. intros H. apply orb_true_iff in H as [H|H]; b2p;
    repeat match goal with |- context [?a =? ?b] => destruct (Z.eqb_spec a b); [lia|] end; done.
Qed.

Lemma mini_number d n : mini (number_text d n) (number_text d n).
Proof. apply mini_solid, (Forall_impl glyph); [apply glyphs_number|apply glyph_solid]. Qed.

(** A string that does not end with a backslash ends where it should. *)
Lemma escape_quoted c s r :
  0 < c → is_control c = false → (c = 92 → s ≠ []) →
  minified Quoted (escape c ++ escaped s ++ 34 :: r) = escape c ++ minified Quoted (escaped s ++ 34 :: r).
Proof.
  intros Hc Hctl Hs. unfold is_control in Hctl. unfold escape. destruct (escape_letter c) as [e|] eqn:E.
  - cbn [app minified]. change (92 =? 34) with false. change (92 =? 92) with true. cbv iota.
    destruct (Z.eqb_spec e 34) as [->|He]; [done|]. f_equal. destruct (Z.eqb_spec e 34); [done|].
    destruct (Z.eqb_spec e 92) as [->|Hne]; [|done].
    assert (c = 92) as -> by (unfold escape_letter in E; repeat case_match; simplify_eq; b2p; done).
    destruct s as [|c' s]; [by specialize (Hs eq_refl)|].
    assert (Hh : ∃ x t, escaped (c' :: s) = x :: t ∧ x ≠ 34).
    { cbn [escaped flat_map]. unfold escape. destruct (escape_letter c') eqn:E'; [by eexists _, _|].
      destruct (c' <? 32); [by eexists _, _|]. eexists _, _. split; [reflexivity|]. by intros ->. }
    destruct Hh as (x & t & -> & Hx). cbn [app]. by destruct (Z.eqb_spec x 34).
  - rewrite bool_decide_eq_true_2, andb_true_r in Hctl by done. rewrite Hctl. cbn [app minified].
    destruct (Z.eqb_spec c 34) as [->|_]; [done|]. by destruct (Z.eqb_spec c 92) as [->|_].
Qed.

Definition clean_string (s : list Z) : Prop := plain_string s ∧ last s ≠ Some 92.

Lemma mini_quoted s : clean_string s → mini (quoted s) (quoted s).
Proof.
  intros (Hp & Hl) r. rewrite (quoted_plain s Hp). destruct Hp as (Hs & Hc). cbn [app]. rewrite <- app_assoc. cbn [app minified].
  change (blank_char 34) with false. change (34 =? 47) with false. change (34 =? 34) with true. cbv iota. f_equal.
  rewrite <- app_assoc. cbn [app]. revert Hl Hc. induction Hs as [|c s Hc0 _ IH]; intros Hl Hc; [done|].
  unfold controls in Hc. rewrite filter_cons in Hc. destruct (decide (is_control c = true)) as [Hd|Hd]; [cbn in Hc; lia|].
  cbn [escaped flat_map]. rewrite <- app_assoc. rewrite escape_quoted.
  - rewrite <- app_assoc. f_equal. apply IH; [|done]. intros E. apply Hl. rewrite last_cons. by rewrite E.
  - lia.
  - by apply not_true_is_false.
  - intros -> ->. by apply Hl.
Qed.

(** Values without such strings. *)
Fixpoint clean (v : json) : Prop :=
  match v with
  | JString s => clean_string s
  | JArray l => Forall id (map clean l)
  | JObject l => Forall id (map (λ kv, clean_string kv.1 ∧ clean kv.2) l)
  | _ => True
  end.

Lemma mini_elements text text' t l :
  Forall (λ c, blank_char c = true) t → Forall (λ v, mini (text v) (text' v)) l →
  mini (element_texts text (44 :: t) l) (element_texts text' [44] l).
Proof.
  intros Ht. induction 1 as [|v l Hv _ IH]; [apply mini_nil|]. cbn [element_texts]. apply mini_app; [done|].
  apply mini_app; [|done]. destruct l; [apply mini_nil|]. apply (mini_app [44] [44] t []); [by apply mini_char|by apply mini_blank].
Qed.

Lemma mini_members text text' indent t newline l :
  Forall (λ c, blank_char c = true) indent → Forall (λ c, blank_char c = true) t → Forall (λ c, blank_char c = true) newline →
  Forall (λ kv, clean_string kv.1 ∧ mini (text kv.2) (text' kv.2)) l →
  mini (member_texts text indent (58 :: t) newline l) (member_texts text' [] [58] [] l).
Proof.
  intros Hi Ht Hn. induction 1 as [|[k v] l (Hk & Hv) _ IH]; [apply mini_nil|]. cbn [member_texts fst snd] in *.
  apply mini_app; [by apply mini_blank|]. apply mini_app; [by apply mini_quoted|].
  apply mini_app; [apply (mini_app [58] [58] t []); [by apply mini_char|by apply mini_blank]|].
  apply mini_app; [done|]. apply mini_app; [destruct l; [apply mini_nil|by apply mini_char]|].
  apply mini_app; [by apply mini_blank|done].
Qed.

Lemma blanks_only b t : Forall (λ c, blank_char c = true) t → Forall (λ c, blank_char c = true) (only b t).
Proof. destruct b; [done|]. constructor. Qed.

Lemma mini_jshow format v d d' : clean v → mini (jshow format d v) (jshow false d' v).
Proof.
  revert d d'. induction v as [| | |x|s|l IH|l IH] using json_induction; intros d d' Hv; cbn [jshow clean] in *;
    try (apply mini_solid; by repeat constructor).
  - apply mini_number.
  - by apply mini_quoted.
  - rewrite Forall_id_map in Hv. apply (mini_app [91] [91]); [by apply mini_char|]. apply mini_app; [|by apply mini_char].
    apply mini_elements; [apply blanks_only; by repeat constructor|]. rewrite Forall_forall in *. intros v Hin. by apply IH, Hv.
  - rewrite Forall_id_map in Hv. apply (mini_app [123] [123]); [by apply mini_char|].
    assert (Htab : ∀ n, Forall (λ c, blank_char c = true) (only format (tabs n))) by (intros n; by apply blanks_only, Forall_replicate).
    apply (mini_app (only format [10]) []); [apply mini_blank, blanks_only; by repeat constructor|].
    apply mini_app; [apply (mini_members _ _ (only format (tabs (d + 1))) (only format [9]) (only format [10])); try apply Htab; try (apply blanks_only; by repeat constructor)|].
    + rewrite Forall_forall in *. intros kv Hin. destruct (Hv kv Hin) as (Hk & Hc). split; [done|]. by apply IH.
    + apply (mini_app (only format (tabs d)) []); [apply mini_blank, Htab|by apply mini_char].
Qed.

(** C30: cJSON_Minify never leaves its block, whatever text it holds, and leaves a text that is not longer;
    of the formatted text of a value, in which no string or key ends with a backslash or has a
    control character without an escape letter, it makes the unformatted text of the same value. *)
Theorem minify_correct z r :
  nonzero z →
  ∃ buf, cJSON_Minify (Some (z ++ 0 :: r)) = Some (Some buf) ∧ zlen buf = zlen (z ++ 0 :: r) ∧ is_Some (c_string buf) ∧
    ∀ v format, z = jshow format 0 v → clean v → c_string buf = Some (jshow false 0 v).
Proof.
  intros Hz. destruct (cJSON_Minify_spec z r Hz) as (buf & -> & Hl & Hs). exists buf. split; [done|]. split; [by rewrite Hl|].
  split; [by rewrite Hs|]. intros v format -> Hc. rewrite Hs. f_equal.
  rewrite <- (app_nil_r (jshow format 0 v)), (mini_jshow format v 0 0 Hc). apply app_nil_r.
Qed.

(** The text [["\\","..."]] with [n] blanks in the second string. *)
Definition backslash_text (n : nat) : list Z := [91; 34; 92; 92; 34; 44; 34] ++ replicate n 32 ++ [34; 93].

Lemma plain_blanks n : plain_string (replicate n 32).
Proof.
  split; [by apply Forall_replicate|]. unfold controls. induction n as [|n IH]; [done|]. cbn [replicate].
  by rewrite filter_cons_False.
Qed.

(** C31: Of the text ["\\","   "], with any number of blanks in its second string, cJSON_Minify makes ["\\",""], which is another
    value: the opening quote of a string after one that ends with an escaped backslash is taken for the end of that one, and
    the blanks for white space between values. *)
Theorem minify_backslash n r :
  (∃ buf, cJSON_Minify (Some (backslash_text n ++ 0 :: r)) = Some (Some buf) ∧ c_string buf = Some (backslash_text 0)) ∧
  jtext false (backslash_text n ++ [0]) = Some (JArray [JString [92]; JString (replicate n 32)], [0]).
Proof.
  split.
  - destruct (cJSON_Minify_spec (backslash_text n) r) as (buf & -> & _ & Hs).
    { unfold backslash_text, nonzero. rewrite !Forall_app. split; [by repeat constructor|]. split; [by apply Forall_replicate|by repeat constructor]. }
    exists buf. split; [done|]. rewrite Hs. f_equal. unfold backslash_text.
    assert (Hb : minified Plain (replicate n 32 ++ [34; 93]) = [34; 93]) by (by rewrite mini_blank by (by apply Forall_replicate)).
    assert (Hq : ∀ t, minified Plain ([91; 34; 92; 92; 34; 44; 34] ++ t) = [91; 34; 92; 92; 34; 44; 34] ++ minified Plain t) by done.
    rewrite Hq, Hb. done.
  - assert (E : backslash_text n = jshow false 0 (JArray [JString [92]; JString (replicate n 32)])).
    { unfold backslash_text. cbn [jshow element_texts app].
      rewrite (quoted_plain (replicate n 32) (plain_blanks n)). assert (He : escaped (replicate n 32) = replicate n 32).
      { clear. induction n as [|n IH]; [done|]. cbn [replicate escaped flat_map]. unfold escaped in IH. by rewrite IH. }
      rewrite He. change (quoted [92]) with [34; 92; 92; 34]. cbn [app only]. by rewrite app_nil_r, <- app_assoc. }
    rewrite E. apply jtext_show; [|split; [done|by repeat constructor]|done]. constructor; [|constructor; [|constructor]].
    + split; [by apply chars_ok|done].
    + apply plain_blanks.
Qed.

(** ** Witnesses *)

(** The formatted text of [{"k":[1,"a\n"]}] and a block with more behind it. *)
Lemma small_clean : clean small_value.
Proof.
  constructor; [|constructor]. split; [split; [split; [by apply chars_ok|done]|done]|].
  constructor; [done|constructor; [split; [split; [by apply chars_ok|done]|done]|constructor]].
Qed.

Lemma minify_correct_witness :
  (∃ buf, cJSON_Minify (Some (jshow true 0 small_value ++ 0 :: [7])) = Some (Some buf) ∧
    zlen buf = zlen (jshow true 0 small_value ++ 0 :: [7]) ∧ is_Some (c_string buf) ∧
    ∀ v format, jshow true 0 small_value = jshow format 0 v → clean v → c_string buf = Some (jshow false 0 v)) ∧ clean small_value.
Proof.
  split; [|exact small_clean]. apply (minify_correct (jshow true 0 small_value) [7]).
  apply nonzero_jshow, small_safe.
Defined.
