(* ===== verification/Mem5.v ===== *)
(** The power-of-two allocator of src/mem5.c: the pool of atoms with the links of the free
    blocks in it, the free lists and the control bytes.  Proofs are in Mem5Proofs.v. *)
From S2P Require Import Prelude.

(** The pool is read and written in words of four bytes, the size of an [int]; a pointer into the pool
    is the number of bytes from its start.  The statistics of debugging builds, the mutex
    and the log are left out. *)

Definition LOGMAX : Z := 30.
Definition CTRL_LOGSIZE : Z := 0x1f.
Definition CTRL_FREE : Z := 0x20.
Definition sizeof_Mem5Link : Z := 8.

Record Mem5Global := mkMem5 {
  szAtom : Z; nBlock : Z; zPool : list Z; aiFreelist : list Z; aCtrl : list Z }.

Definition with_pool l s := mkMem5 (szAtom s) (nBlock s) l (aiFreelist s) (aCtrl s).
Definition with_free l s := mkMem5 (szAtom s) (nBlock s) (zPool s) l (aCtrl s).
Definition with_ctrl l s := mkMem5 (szAtom s) (nBlock s) (zPool s) (aiFreelist s) l.

(** [MEM5LINK(idx)]: the word where the link of an atom starts, its [next]; its [prev] comes after it. *)
Definition MEM5LINK (s : Mem5Global) (idx : Z) : Z := idx * szAtom s / 4.
Definition link_next (s : Mem5Global) (idx : Z) : option Z := (zPool s).[MEM5LINK s idx].
Definition link_prev (s : Mem5Global) (idx : Z) : option Z := (zPool s).[MEM5LINK s idx + 1].
Definition store_next (idx v : Z) (s : Mem5Global) : option Mem5Global :=
  l ← wr (zPool s) (MEM5LINK s idx) v; Some (with_pool l s).
Definition store_prev (idx v : Z) (s : Mem5Global) : option Mem5Global :=
  l ← wr (zPool s) (MEM5LINK s idx + 1) v; Some (with_pool l s).
Definition set_freelist (iLogsize v : Z) (s : Mem5Global) : option Mem5Global :=
  l ← wr (aiFreelist s) iLogsize v; Some (with_free l s).
Definition set_ctrl (i v : Z) (s : Mem5Global) : option Mem5Global :=
  l ← wr (aCtrl s) i (u8 v); Some (with_ctrl l s).

Definition memsys5Unlink (i iLogsize : Z) (s : Mem5Global) : option Mem5Global :=
  next ← link_next s i;
  prev ← link_prev s i;
  s ← (if prev <? 0 then set_freelist iLogsize next s else store_next prev next s);
  if 0 <=? next then store_prev next prev s else Some s.

Definition memsys5Link (i iLogsize : Z) (s : Mem5Global) : option Mem5Global :=
  x ← (aiFreelist s).[iLogsize];
  s ← store_next i x s;
  s ← store_prev i (-1) s;
  s ← (if 0 <=? x then store_prev x i s else Some s);
  set_freelist iLogsize i s.

Definition memsys5Size (s : Mem5Global) (p : Z) : option Z :=
  let i := p / szAtom s in
  c ← (aCtrl s).[i];
  Some (szAtom s * Z.shiftl 1 (Z.land c CTRL_LOGSIZE)).

(** The size of a request rounded up, and its logarithm; an [int] does not overflow. *)
Fixpoint fullsz_loop (fuel : nat) (nByte iFullSz iLogsize : Z) : option (Z * Z) :=
  if iFullSz <? nByte then
    match fuel with
    | O => None
    | S fuel => if iFullSz * 2 <? 2 ^ 31 then fullsz_loop fuel nByte (iFullSz * 2) (iLogsize + 1) else None
    end
  else Some (iFullSz, iLogsize).

(** The first list from one on that is not empty, or [LOGMAX + 1]. *)
Fixpoint bin_loop (fuel : nat) (s : Mem5Global) (iBin : Z) : option Z :=
  if iBin <=? LOGMAX then
    match fuel with
    | O => None
    | S fuel => x ← (aiFreelist s).[iBin]; if x <? 0 then bin_loop fuel s (iBin + 1) else Some iBin
    end
  else Some iBin.

Fixpoint split_loop (fuel : nat) (i iLogsize iBin : Z) (s : Mem5Global) : option Mem5Global :=
  if iLogsize <? iBin then
    match fuel with
    | O => None
    | S fuel =>
        let iBin := iBin - 1 in
        let newSize := Z.shiftl 1 iBin in
        s ← set_ctrl (i + newSize) (Z.lor CTRL_FREE iBin) s;
        s ← memsys5Link (i + newSize) iBin s;
        split_loop fuel i iLogsize iBin s
    end
  else Some s.

(** The pointer, or NULL. *)
Definition memsys5MallocUnsafe (nByte : Z) (s : Mem5Global) : option (option Z * Mem5Global) :=
  if 0x40000000 <? nByte then Some (None, s)
  else
    '(iFullSz, iLogsize) ← fullsz_loop 31 nByte (szAtom s) 0;
    iBin ← bin_loop 31 s iLogsize;
    if LOGMAX <? iBin then Some (None, s)
    else
      i ← (aiFreelist s).[iBin];
      s ← memsys5Unlink i iBin s;
      s ← split_loop 31 i iLogsize iBin s;
      s ← set_ctrl i iLogsize s;
      Some (Some (i * szAtom s), s).

(** The merges with free buddies: the block that results and its logarithm. *)
Fixpoint buddy_loop (fuel : nat) (iBlock iLogsize size : Z) (s : Mem5Global) : option (Z * Z * Mem5Global) :=
  if iLogsize <? LOGMAX then
    match fuel with
    | O => None
    | S fuel =>
        let right := negb (Z.land (Z.shiftr iBlock iLogsize) 1 =? 0) in
        let iBuddy := if right then i32 (u32 (iBlock - size)) else i32 (u32 (iBlock + size)) in
        if negb right && (nBlock s <=? iBuddy) then Some (iBlock, iLogsize, s)
        else
          c ← (aCtrl s).[iBuddy];
          if negb (c =? Z.lor CTRL_FREE iLogsize) then Some (iBlock, iLogsize, s)
          else
            s ← memsys5Unlink iBuddy iLogsize s;
            let iLogsize := iLogsize + 1 in
            if iBuddy <? iBlock then
              s ← set_ctrl iBuddy (Z.lor CTRL_FREE iLogsize) s;
              s ← set_ctrl iBlock 0 s;
              buddy_loop fuel iBuddy iLogsize (u32 (size * 2)) s
            else
              s ← set_ctrl iBlock (Z.lor CTRL_FREE iLogsize) s;
              s ← set_ctrl iBuddy 0 s;
              buddy_loop fuel iBlock iLogsize (u32 (size * 2)) s
    end
  else Some (iBlock, iLogsize, s).

Definition memsys5FreeUnsafe (pOld : Z) (s : Mem5Global) : option Mem5Global :=
  let iBlock := pOld / szAtom s in
  c ← (aCtrl s).[iBlock];
  let iLogsize := Z.land c CTRL_LOGSIZE in
  let size := Z.shiftl 1 iLogsize in
  s ← set_ctrl iBlock (Z.lor c CTRL_FREE) s;
  e ← (aCtrl s).[iBlock + size - 1];
  s ← set_ctrl (iBlock + size - 1) (Z.lor e CTRL_FREE) s;
  s ← set_ctrl iBlock (Z.lor CTRL_FREE iLogsize) s;
  '(iBlock, iLogsize, s) ← buddy_loop 31 iBlock iLogsize size s;
  memsys5Link iBlock iLogsize s.

Definition memsys5Malloc (nBytes : Z) (s : Mem5Global) : option (option Z * Mem5Global) :=
  if 0 <? nBytes then memsys5MallocUnsafe nBytes s else Some (None, s).
Definition memsys5Free (pPrior : Z) (s : Mem5Global) : option Mem5Global := memsys5FreeUnsafe pPrior s.

(** [memcpy] of [n] words between two places of the pool, which do not overlap. *)
Definition copy_words (n : nat) (from to : Z) (l : list Z) : option (list Z) :=
  if (0 <=? from) && (from + Z.of_nat n <=? zlen l) && (0 <=? to) && (to + Z.of_nat n <=? zlen l) &&
     ((from + Z.of_nat n <=? to) || (to + Z.of_nat n <=? from))
  then Some (take (Z.to_nat to) l ++ take n (drop (Z.to_nat from) l) ++ drop (Z.to_nat to + n) l)
  else None.

Definition memsys5Realloc (pPrior nBytes : Z) (s : Mem5Global) : option (option Z * Mem5Global) :=
  if nBytes =? 0 then Some (None, s)
  else
    nOld ← memsys5Size s pPrior;
    if nBytes <=? nOld then Some (Some pPrior, s)
    else
      '(p, s) ← memsys5Malloc nBytes s;
      match p with
      | None => Some (None, s)
      | Some p =>
          l ← copy_words (Z.to_nat (nOld / 4)) (pPrior / 4) (p / 4) (zPool s);
          s ← memsys5Free pPrior (with_pool l s);
          Some (Some p, s)
      end.

Fixpoint round_loop (fuel : nat) (iFullSz n : Z) : option Z :=
  if iFullSz <? n then
    match fuel with O => None | S fuel => if iFullSz * 4 <? 2 ^ 31 then round_loop fuel (iFullSz * 4) n else None end
  else Some iFullSz.
Definition memsys5Roundup (s : Mem5Global) (n : Z) : option Z :=
  if n <=? szAtom s * 2 then
    if n <=? szAtom s then Some (szAtom s) else Some (szAtom s * 2)
  else if 0x10000000 <? n then
    if 0x40000000 <? n then Some 0 else if 0x20000000 <? n then Some 0x40000000 else Some 0x20000000
  else
    iFullSz ← round_loop 16 (szAtom s * 8) n;
    if n <=? iFullSz / 2 then Some (iFullSz / 2) else Some iFullSz.

Fixpoint log_loop (fuel : nat) (iValue iLog : Z) : Z :=
  match fuel with
  | O => iLog
  | S fuel => if Z.shiftl 1 iLog <? iValue then log_loop fuel iValue (iLog + 1) else iLog
  end.
Definition memsys5Log (iValue : Z) : Z := log_loop 31 iValue 0.

Fixpoint atom_loop (fuel : nat) (szAtom : Z) : option Z :=
  if szAtom <? sizeof_Mem5Link then
    match fuel with O => None | S fuel => atom_loop fuel (Z.shiftl szAtom 1) end
  else Some szAtom.

Fixpoint init_loop (n : nat) (iOffset : Z) (s : Mem5Global) : option Mem5Global :=
  match n with
  | O => Some s
  | S ii =>
      let nAlloc := Z.shiftl 1 (Z.of_nat ii) in
      if iOffset + nAlloc <=? nBlock s then
        s ← set_ctrl iOffset (Z.lor (Z.of_nat ii) CTRL_FREE) s;
        s ← memsys5Link iOffset (Z.of_nat ii) s;
        init_loop ii (iOffset + nAlloc) s
      else init_loop ii iOffset s
  end.

(** [nHeap] and [mnReq] are the configuration; [pool] and [ctrl] are what the heap holds at first, in words
    up to the control bytes, and in bytes from there on. *)
Definition memsys5Init (nHeap mnReq : Z) (pool ctrl : list Z) : option Mem5Global :=
  szAtom ← atom_loop 4 (Z.shiftl 1 (memsys5Log mnReq));
  let nBlock := nHeap / (szAtom + 1) in
  if (zlen pool =? nBlock * szAtom / 4) && (nBlock <=? zlen ctrl) then
    init_loop (S (Z.to_nat LOGMAX)) 0 (mkMem5 szAtom nBlock pool (replicate (S (Z.to_nat LOGMAX)) (-1)) ctrl)
  else None.

(** An allocation of each kind in a heap of 15 atoms of 8 bytes. *)
Definition small_pool : option Mem5Global := memsys5Init 135 1 (replicate 30 0) (replicate 15 0).
Example small_run :
  (s ← small_pool; '(p, s) ← memsys5Malloc 20 s; '(q, s) ← memsys5Malloc 8 s; '(r, s) ← memsys5Malloc 9 s;
   p0 ← p; s ← memsys5Free p0 s; '(t, s) ← memsys5Malloc 64 s; Some (p, q, r, t, memsys5Roundup s 20)) =
  Some (Some 64, Some 112, Some 96, Some 0, Some 32).
Proof. vm_compute. reflexivity. Qed.
