(* ===== verification/Mem5Lists.v ===== *)
(** The free lists of the power-of-two allocator (Mem5.v): what it means that the pool is
    partitioned into blocks and that the lists hold the free ones, and that linking and
    unlinking keep it so.  The operations are in Mem5Proofs.v. *)
From S2P Require Import Prelude Mem5.

(** ** The state

    [B] has the blocks: the logarithm of the size by the index of the first atom, and whether it is
    on a free list.  [fl k] is the free list of the blocks of [2 ^ k] atoms. *)

Notation blocks := (gmap Z (Z * bool)).
Definition aw (s : Mem5Global) : Z := szAtom s / 4.

Definition nxt (l : list Z) (n : nat) : Z := default (-1) (l !! S n).
Definition prv (l : list Z) (n : nat) : Z := match n with O => -1 | S m => default (-1) (l !! m) end.

(** A doubly linked list in the pool. *)
Record list_ok (s : Mem5Global) (k : Z) (l : list Z) : Prop := ListOk {
  list_NoDup : NoDup l;
  list_head : (aiFreelist s).[k] = Some (default (-1) (head l));
  list_links n i : l !! n = Some i → link_next s i = Some (nxt l n) ∧ link_prev s i = Some (prv l n) }.

(** The control byte of a block. *)
Definition ctrl_byte (k : Z) (free : bool) : Z := k + (if free then 32 else 0).

(** The control bytes of the blocks in [hand] are not set yet. *)
Record shape (s : Mem5Global) (B : blocks) (hand : list Z) : Prop := Shape {
  ok_atom : ∃ a, 3 ≤ a ≤ 12 ∧ szAtom s = 2 ^ a;
  ok_count : 0 ≤ nBlock s ∧ nBlock s * szAtom s < 2 ^ 31;
  ok_pool : zlen (zPool s) = nBlock s * aw s;
  ok_lists : zlen (aiFreelist s) = 31;
  ok_bytes : nBlock s ≤ zlen (aCtrl s);
  ok_block i k f : B !! i = Some (k, f) → 0 ≤ k ≤ LOGMAX ∧ (2 ^ k | i) ∧ 0 ≤ i ∧ i + 2 ^ k ≤ nBlock s;
  ok_apart i k f j l g : B !! i = Some (k, f) → B !! j = Some (l, g) → i ≠ j → i + 2 ^ k ≤ j ∨ j + 2 ^ l ≤ i;
  ok_ctrl i k f : B !! i = Some (k, f) → i ∉ hand → (aCtrl s).[i] = Some (ctrl_byte k f) }.

Record lists (s : Mem5Global) (B : blocks) (fl : Z → list Z) : Prop := Lists {
  ls_list k : 0 ≤ k ≤ LOGMAX → list_ok s k (fl k);
  ls_free k i : 0 ≤ k ≤ LOGMAX → (i ∈ fl k ↔ B !! i = Some (k, true)) }.

(** Every atom of the first [n] is in a block. *)
Definition covers (B : blocks) (n : Z) : Prop := ∀ x, 0 ≤ x < n → ∃ i k f, B !! i = Some (k, f) ∧ i ≤ x < i + 2 ^ k.

Definition buddy (i k : Z) : Z := if Z.odd (i / 2 ^ k) then i - 2 ^ k else i + 2 ^ k.
(** Two buddies are never both free. *)
Definition merged (B : blocks) : Prop :=
  ∀ i k, k < LOGMAX → B !! i = Some (k, true) → B !! buddy i k = Some (k, true) → False.

(** ** Words *)

Lemma atom_words s B h : shape s B h → szAtom s = 4 * aw s ∧ 2 ≤ aw s ∧ ∀ i, MEM5LINK s i = i * aw s.
Proof.
  intros [(a & Ha & E) _ _ _ _ _ _ _]. unfold aw, MEM5LINK. rewrite E.
  assert (E2 : 2 ^ a = 2 ^ (a - 2) * 4) by (change 4 with (2 ^ 2); rewrite <- Z.pow_add_r by lia; f_equal; lia).
  assert (2 ^ 1 ≤ 2 ^ (a - 2)) by (apply Z.pow_le_mono_r; lia). rewrite E2. set (w := 2 ^ (a - 2)) in *.
  assert (Ew : w * 4 / 4 = w) by (apply Z.div_mul; lia). rewrite Ew. split; [lia|]. split; [lia|]. intros i.
  rewrite Z.mul_assoc. by apply Z.div_mul.
Qed.

(** [s'] differs from [s] in the pool, and there only in the link of [i]. *)
Definition link_set (s s' : Mem5Global) (i : Z) (nx pv : option Z) : Prop :=
  szAtom s' = szAtom s ∧ nBlock s' = nBlock s ∧ aiFreelist s' = aiFreelist s ∧ aCtrl s' = aCtrl s ∧
  List.length (zPool s') = List.length (zPool s) ∧
  (∀ j, 0 ≤ j → link_next s' j = match nx with Some v => if j =? i then Some v else link_next s j | None => link_next s j end) ∧
  (∀ j, 0 ≤ j → link_prev s' j = match pv with Some v => if j =? i then Some v else link_prev s j | None => link_prev s j end) ∧
  (∀ w, ¬ (i * aw s ≤ w < i * aw s + 2) → (zPool s').[w] = (zPool s).[w]).

Lemma store_next_spec s B h i v :
  shape s B h → 0 ≤ i < nBlock s → ∃ s', store_next i v s = Some s' ∧ link_set s s' i (Some v) None.
Proof.
  intros Hok Hi. destruct (atom_words _ _ _ Hok) as (_ & Hw & HM). pose proof (ok_pool _ _ _ Hok) as Hp.
  unfold store_next. rewrite HM. assert (Hr : 0 ≤ i * aw s < zlen (zPool s)) by nia.
  destruct (wr (zPool s) (i * aw s) v) as [l|] eqn:E; [|rewrite wr_in_bounds in E by done; done]. cbn [mbind option_bind].
  assert (HM' : ∀ j, MEM5LINK (with_pool l s) j = j * aw s) by exact HM.
  exists (with_pool l s). split; [done|]. split_and!; try done; [by eapply wr_length|..].
  - intros j Hj. unfold link_next. rewrite HM, HM'. cbn [zPool with_pool]. rewrite (rd_wr _ _ _ _ _ E).
    destruct (Z.eqb_spec j i) as [->|Hne]; [by rewrite Z.eqb_refl|]. destruct (Z.eqb_spec (i * aw s) (j * aw s)); [nia|done].
  - intros j Hj. unfold link_prev. rewrite HM, HM'. cbn [zPool with_pool]. rewrite (rd_wr _ _ _ _ _ E).
    destruct (Z.eqb_spec (i * aw s) (j * aw s + 1)); [destruct (Z.le_gt_cases i j); nia|done].
  - intros w Hwr. cbn [zPool with_pool]. rewrite (rd_wr _ _ _ _ _ E). destruct (Z.eqb_spec (i * aw s) w); [lia|done].
Qed.

Lemma store_prev_spec s B h i v :
  shape s B h → 0 ≤ i < nBlock s → ∃ s', store_prev i v s = Some s' ∧ link_set s s' i None (Some v).
Proof.
  intros Hok Hi. destruct (atom_words _ _ _ Hok) as (_ & Hw & HM). pose proof (ok_pool _ _ _ Hok) as Hp.
  unfold store_prev. rewrite HM. assert (Hr : 0 ≤ i * aw s + 1 < zlen (zPool s)) by nia.
  destruct (wr (zPool s) (i * aw s + 1) v) as [l|] eqn:E; [|rewrite wr_in_bounds in E by done; done]. cbn [mbind option_bind].
  assert (HM' : ∀ j, MEM5LINK (with_pool l s) j = j * aw s) by exact HM.
  exists (with_pool l s). split; [done|]. split_and!; try done; [by eapply wr_length|..].
  - intros j Hj. unfold link_next. rewrite HM, HM'. cbn [zPool with_pool]. rewrite (rd_wr _ _ _ _ _ E).
    destruct (Z.eqb_spec (i * aw s + 1) (j * aw s)); [destruct (Z.le_gt_cases j i); nia|done].
  - intros j Hj. unfold link_prev. rewrite HM, HM'. cbn [zPool with_pool]. rewrite (rd_wr _ _ _ _ _ E).
    destruct (Z.eqb_spec j i) as [->|Hne]; [by rewrite Z.eqb_refl|]. destruct (Z.eqb_spec (i * aw s + 1) (j * aw s + 1)); [nia|done].
  - intros w Hwr. cbn [zPool with_pool]. rewrite (rd_wr _ _ _ _ _ E). destruct (Z.eqb_spec (i * aw s + 1) w); [lia|done].
Qed.

(** What the list operations leave alone. *)
Record frame (s s' : Mem5Global) : Prop := Frame {
  fr_atom : szAtom s' = szAtom s;
  fr_block : nBlock s' = nBlock s;
  fr_ctrl : aCtrl s' = aCtrl s;
  fr_pool : List.length (zPool s') = List.length (zPool s);
  fr_lists : List.length (aiFreelist s') = List.length (aiFreelist s) }.

Lemma frame_refl s : frame s s.
Proof. done. Qed.
Lemma frame_trans s s1 s2 : frame s s1 → frame s1 s2 → frame s s2.
Proof. intros [] []. split; congruence. Qed.
Lemma link_set_frame s s' i nx pv : link_set s s' i nx pv → frame s s'.
Proof. intros (H1 & H2 & H3 & H4 & H5 & _). split; congruence. Qed.

Lemma shape_frame s s' B h : frame s s' → shape s B h → shape s' B h.
Proof.
  intros [F1 F2 F3 F4 F5] [A1 A2 A3 A4 A5 A6 A7 A8]. split; unfold aw in *; rewrite ?F1, ?F2, ?F3, ?F4, ?F5; done.
Qed.

Lemma set_freelist_spec s k v :
  0 ≤ k < zlen (aiFreelist s) → ∃ s', set_freelist k v s = Some s' ∧ frame s s' ∧ zPool s' = zPool s ∧
    ∀ k', (aiFreelist s').[k'] = if k =? k' then Some v else (aiFreelist s).[k'].
Proof.
  intros Hk. unfold set_freelist. destruct (wr (aiFreelist s) k v) as [l|] eqn:E; [|by rewrite wr_in_bounds in E].
  cbn [mbind option_bind]. eexists. split; [done|]. split; [split; try done; by eapply wr_length|]. split; [done|].
  intros k'. cbn [aiFreelist with_free]. by apply rd_wr.
Qed.

Lemma link_pool s s' i : szAtom s' = szAtom s → zPool s' = zPool s → link_next s' i = link_next s i ∧ link_prev s' i = link_prev s i.
Proof. intros H1 H2. unfold link_next, link_prev, MEM5LINK. by rewrite H1, H2. Qed.

(** The words of the blocks that are in use are the same. *)
Definition same_used (s s' : Mem5Global) (B : blocks) : Prop :=
  ∀ i k w, B !! i = Some (k, false) → i * aw s ≤ w < (i + 2 ^ k) * aw s → (zPool s').[w] = (zPool s).[w].

Lemma link_set_used s s' B h i k nx pv : shape s B h → B !! i = Some (k, true) → link_set s s' i nx pv → same_used s s' B.
Proof.
  intros Hs Hi (_ & _ & _ & _ & _ & _ & _ & Hw) j l w Hj Hr. apply Hw. intros Hin.
  destruct (atom_words _ _ _ Hs) as (_ & Haw & _). destruct (ok_block _ _ _ Hs _ _ _ Hi) as (Hk & _ & _).
  destruct (ok_block _ _ _ Hs _ _ _ Hj) as (Hl & _ & _). pose proof (Z.pow_pos_nonneg 2 k). pose proof (Z.pow_pos_nonneg 2 l).
  destruct (ok_apart _ _ _ Hs _ _ _ _ _ _ Hi Hj) as [H1|H1]; [by intros ->; congruence|nia|nia].
Qed.

Lemma same_used_trans s s1 s2 B : szAtom s1 = szAtom s → same_used s s1 B → same_used s1 s2 B → same_used s s2 B.
Proof. intros E H1 H2 i k w Hi Hw. rewrite (H2 i k w), (H1 i k w); unfold aw in *; rewrite ?E; done. Qed.

(** ** memsys5Unlink *)

(** The two stores that may be left out. *)
Lemma maybe_prev s B h x v :
  shape s B h → (0 ≤ x → ∃ l, B !! x = Some (l, true)) →
  ∃ s', (if 0 <=? x then store_prev x v s else Some s) = Some s' ∧ frame s s' ∧ same_used s s' B ∧ aiFreelist s' = aiFreelist s ∧
    ∀ j, 0 ≤ j → link_next s' j = link_next s j ∧ link_prev s' j = if (0 <=? x) && (j =? x) then Some v else link_prev s j.
Proof.
  intros Hs Hx. destruct (Z.leb_spec 0 x) as [H0|H0]; [|by exists s].
  destruct (Hx H0) as (l & Hl). destruct (ok_block _ _ _ Hs _ _ _ Hl) as (Hk & _ & _ & Hb). pose proof (Z.pow_pos_nonneg 2 l).
  destruct (store_prev_spec s B h x v Hs ltac:(lia)) as (s' & E & L). exists s'. split; [done|].
  split; [by eapply link_set_frame|]. split; [by eapply link_set_used|]. destruct L as (_ & _ & Hf & _ & _ & Hn & Hp & _).
  split; [done|]. intros j Hj. split; [by apply Hn|by apply Hp].
Qed.

Lemma maybe_next s B h k pv nx :
  shape s B h → 0 ≤ k ≤ LOGMAX → (0 ≤ pv → ∃ l, B !! pv = Some (l, true)) →
  ∃ s', (if pv <? 0 then set_freelist k nx s else store_next pv nx s) = Some s' ∧ frame s s' ∧ same_used s s' B ∧
    (∀ k', (aiFreelist s').[k'] = if (pv <? 0) && (k =? k') then Some nx else (aiFreelist s).[k']) ∧
    ∀ j, 0 ≤ j → link_next s' j = (if (0 <=? pv) && (j =? pv) then Some nx else link_next s j) ∧ link_prev s' j = link_prev s j.
Proof.
  intros Hs Hk Hpv. destruct (Z.ltb_spec pv 0) as [H0|H0].
  - destruct (set_freelist_spec s k nx) as (s' & E & F & Hp & Hf); [rewrite (ok_lists _ _ _ Hs); unfold LOGMAX in Hk; lia|].
    exists s'. split; [done|]. split; [done|]. split; [intros i l w _ _; by rewrite Hp|]. split; [done|].
    intros j _. destruct (Z.leb_spec 0 pv); [lia|]. apply link_pool; [apply F|done].
  - destruct (Hpv H0) as (l & Hl). destruct (ok_block _ _ _ Hs _ _ _ Hl) as (Hl0 & _ & _ & Hb). pose proof (Z.pow_pos_nonneg 2 l).
    destruct (store_next_spec s B h pv nx Hs ltac:(lia)) as (s' & E & L). exists s'. split; [done|].
    split; [by eapply link_set_frame|]. split; [by eapply link_set_used|]. destruct L as (_ & _ & Hf & _ & _ & Hn & Hp & _).
    split; [intros k'; by rewrite Hf|]. intros j Hj. destruct (Z.leb_spec 0 pv); [|lia]. split; [by apply Hn|by apply Hp].
Qed.

Lemma list_delete s s' k l n i :
  list_ok s k l → l !! n = Some i → (∀ j, j ∈ l → 0 ≤ j) →
  (aiFreelist s').[k] = (if prv l n <? 0 then Some (nxt l n) else (aiFreelist s).[k]) →
  (∀ j, 0 ≤ j → link_next s' j = (if (0 <=? prv l n) && (j =? prv l n) then Some (nxt l n) else link_next s j) ∧
                link_prev s' j = (if (0 <=? nxt l n) && (j =? nxt l n) then Some (prv l n) else link_prev s j)) →
  list_ok s' k (delete n l).
Proof.
  intros [Hnd Hh Hlk] Hn H0 Hh' Hlk'.
  assert (Hat : ∀ m j, l !! m = Some j → 0 ≤ j) by (intros m j Hm; apply H0; by eapply list_elem_of_lookup_2).
  assert (Hnx : ∀ m j, l !! m = Some j → (0 <=? nxt l n) && (j =? nxt l n) = bool_decide (m = S n)).
  { intros m j Hm. unfold nxt. destruct (l !! S n) as [x|] eqn:Ex; cbn [from_option id].
    - pose proof (Hat _ _ Ex). destruct (Z.leb_spec 0 x); [|lia]. cbn. destruct (Z.eqb_spec j x) as [->|Hne].
      + symmetry. apply bool_decide_eq_true_2. by eapply NoDup_lookup.
      + symmetry. apply bool_decide_eq_false_2. intros ->. congruence.
    - cbn. symmetry. apply bool_decide_eq_false_2. intros ->. congruence. }
  assert (Hpv : ∀ m j, l !! m = Some j → (0 <=? prv l n) && (j =? prv l n) = bool_decide (S m = n)).
  { intros m j Hm. unfold prv. destruct n as [|n]; [by rewrite bool_decide_eq_false_2|].
    destruct (lookup_lt_is_Some_2 l n) as (x & Ex); [apply lookup_lt_Some in Hn; lia|]. rewrite Ex. cbn [from_option id].
    pose proof (Hat _ _ Ex). destruct (Z.leb_spec 0 x); [|lia]. cbn. destruct (Z.eqb_spec j x) as [->|Hne].
    - symmetry. apply bool_decide_eq_true_2. f_equal. by eapply NoDup_lookup.
    - symmetry. apply bool_decide_eq_false_2. intros [= ->]. congruence. }
  split.
  - eapply sublist_NoDup; [exact Hnd|]. apply sublist_delete.
  - rewrite Hh'. rewrite head_lookup. destruct n as [|n]; [by destruct l|].
    destruct (lookup_lt_is_Some_2 l n) as (x & Ex); [apply lookup_lt_Some in Hn; lia|].
    unfold prv. rewrite Ex. cbn [from_option id]. pose proof (Hat _ _ Ex). destruct (Z.ltb_spec x 0); [lia|].
    rewrite Hh, head_lookup, list_lookup_delete_lt by lia. done.
  - intros m j Hm. destruct (decide (m < n)%nat) as [Hlt|Hge].
    + rewrite list_lookup_delete_lt in Hm by done. destruct (Hlk' j (Hat _ _ Hm)) as (E1 & E2).
      rewrite (Hpv m j Hm) in E1. rewrite (Hnx m j Hm) in E2. rewrite bool_decide_eq_false_2 in E2 by lia.
      destruct (Hlk m j Hm) as (E3 & E4). rewrite E1, E2, E3, E4. unfold nxt, prv. split.
      * destruct (bool_decide_reflect (S m = n)) as [E|E].
        -- by rewrite list_lookup_delete_ge by lia; subst n.
        -- by rewrite list_lookup_delete_lt by lia.
      * destruct m as [|m]; [done|]. by rewrite list_lookup_delete_lt by lia.
    + rewrite list_lookup_delete_ge in Hm by lia. destruct (Hlk' j (Hat _ _ Hm)) as (E1 & E2).
      rewrite (Hpv _ j Hm) in E1. rewrite (Hnx _ j Hm) in E2. rewrite bool_decide_eq_false_2 in E1 by lia.
      destruct (Hlk _ j Hm) as (E3 & E4). rewrite E1, E2, E3, E4. unfold nxt. rewrite list_lookup_delete_ge by lia. split; [done|].
      destruct (bool_decide_reflect (S m = S n)) as [[= ->]|E].
      * unfold prv. destruct n as [|n]; [done|]. by rewrite list_lookup_delete_lt by lia.
      * unfold prv. destruct m as [|m]; [lia|]. by rewrite list_lookup_delete_ge by lia.
Qed.

Lemma list_same s s' k l :
  list_ok s k l → (∀ j, j ∈ l → 0 ≤ j) → (aiFreelist s').[k] = (aiFreelist s).[k] →
  (∀ j, j ∈ l → link_next s' j = link_next s j ∧ link_prev s' j = link_prev s j) → list_ok s' k l.
Proof.
  intros [Hnd Hh Hlk] H0 Hh' Hsame. split; [done|by rewrite Hh'|]. intros n i Hn.
  destruct (Hsame i) as (-> & ->); [by eapply list_elem_of_lookup_2|]. by apply Hlk.
Qed.

Definition unlinked (fl : Z → list Z) (k : Z) (n : nat) : Z → list Z := λ k', if k' =? k then delete n (fl k) else fl k'.

Lemma neighbour_free s B fl k n :
  lists s B fl → 0 ≤ k ≤ LOGMAX → (0 ≤ nxt (fl k) n → B !! nxt (fl k) n = Some (k, true)) ∧ (0 ≤ prv (fl k) n → B !! prv (fl k) n = Some (k, true)).
Proof.
  intros [_ Hf] Hk. unfold nxt, prv. split.
  - destruct (fl k !! S n) as [x|] eqn:E; cbn [from_option id]; [|lia]. intros _. apply Hf; [done|]. by eapply list_elem_of_lookup_2.
  - destruct n as [|n]; [lia|]. destruct (fl k !! n) as [x|] eqn:E; cbn [from_option id]; [|lia]. intros _. apply Hf; [done|]. by eapply list_elem_of_lookup_2.
Qed.

Lemma memsys5Unlink_spec s B h fl i k n :
  shape s B h → lists s B fl → B !! i = Some (k, true) → fl k !! n = Some i →
  ∃ s', memsys5Unlink i k s = Some s' ∧ frame s s' ∧ same_used s s' B ∧ lists s' (<[i := (k, false)]> B) (unlinked fl k n).
Proof.
  intros Hs Hls Hi Hn. destruct (ok_block _ _ _ Hs _ _ _ Hi) as (Hk & _). destruct (neighbour_free _ _ _ _ n Hls Hk) as (Hnxf & Hpvf).
  destruct Hls as [Hl Hf]. pose proof (Hl k Hk) as Hlok. destruct (list_links _ _ _ Hlok n i Hn) as (Enx & Epv).
  unfold memsys5Unlink. rewrite Enx, Epv. cbn [mbind option_bind].
  set (nx := nxt (fl k) n) in *. set (pv := prv (fl k) n) in *.
  destruct (maybe_next s B h k pv nx Hs Hk) as (s1 & -> & F1 & U1 & A1 & L1); [intros H0; exists k; by apply Hpvf|]. cbn [mbind option_bind].
  destruct (maybe_prev s1 B h nx pv (shape_frame _ _ _ _ F1 Hs)) as (s2 & -> & F2 & U2 & A2 & L2); [intros H0; exists k; by apply Hnxf|].
  exists s2. split; [done|]. split; [by eapply frame_trans|]. split; [eapply same_used_trans; [apply F1|done|done]|].
  assert (H0 : ∀ k' j, 0 ≤ k' ≤ LOGMAX → j ∈ fl k' → 0 ≤ j) by (intros k' j Hk' Hj; apply Hf in Hj; [|done]; apply (ok_block _ _ _ Hs) in Hj; lia).
  assert (HL : ∀ j, 0 ≤ j → link_next s2 j = (if (0 <=? pv) && (j =? pv) then Some nx else link_next s j) ∧
    link_prev s2 j = (if (0 <=? nx) && (j =? nx) then Some pv else link_prev s j)).
  { intros j Hj. destruct (L1 j Hj) as (E1 & E2). destruct (L2 j Hj) as (E3 & E4). by rewrite E3, E1, E4, E2. }
  split.
  - intros k' Hk'. unfold unlinked. destruct (Z.eqb_spec k' k) as [->|Hne].
    + eapply (list_delete s); try done; [intros j Hj; by apply (H0 k)|]. rewrite A2, A1, Z.eqb_refl, andb_true_r. done.
    + apply (list_same s); [by apply Hl|intros j Hj; by apply (H0 k')|by rewrite A2, A1, (proj2 (Z.eqb_neq k k')) by done; rewrite andb_false_r|].
      intros j Hj. pose proof (H0 k' j Hk' Hj) as Hj0. apply Hf in Hj; [|done]. destruct (HL j Hj0) as (-> & ->).
      assert (Hneq : ∀ y, (0 ≤ y → B !! y = Some (k, true)) → (0 <=? y) && (j =? y) = false).
      { intros y Hy. destruct (Z.leb_spec 0 y); [|done]. destruct (Z.eqb_spec j y) as [->|]; [|done]. specialize (Hy ltac:(done)). congruence. }
      by rewrite !Hneq.
  - intros k' j Hk'. unfold unlinked. rewrite lookup_insert_Some. destruct (Z.eqb_spec k' k) as [->|Hne].
    + rewrite list_elem_of_lookup. split.
      * intros (m & Hm). right. assert (Hj : ∃ m', m' ≠ n ∧ fl k !! m' = Some j).
        { destruct (decide (m < n)%nat); [rewrite list_lookup_delete_lt in Hm by done; exists m; by split; [lia|]|].
          rewrite list_lookup_delete_ge in Hm by lia. exists (S m). by split; [lia|]. }
        destruct Hj as (m' & Hne & Hm'). split; [|apply Hf; [done|]; by eapply list_elem_of_lookup_2].
        intros ->. apply Hne. eapply NoDup_lookup; [apply Hlok|done|done].
      * intros [(_ & [=])|(Hne & Hj)]. apply Hf in Hj as (m & Hm)%list_elem_of_lookup; [|done].
        assert (m ≠ n) by (intros ->; congruence). destruct (decide (m < n)%nat).
        -- exists m. by rewrite list_lookup_delete_lt.
        -- destruct m as [|m]; [lia|]. exists m. by rewrite list_lookup_delete_ge by lia.
    + rewrite Hf by done. split; [|by intros [(_ & [=])|(_ & ?)]]. intros Hj. right. split; [|done]. intros ->. congruence.
Qed.

(** ** memsys5Link *)

Definition linked (fl : Z → list Z) (k i : Z) : Z → list Z := λ k', if k' =? k then i :: fl k else fl k'.

Lemma freelist_cons s s' k l i :
  list_ok s k l → i ∉ l → 0 ≤ i → (∀ j, j ∈ l → 0 ≤ j) → (aiFreelist s').[k] = Some i →
  (∀ j, 0 ≤ j → link_next s' j = (if j =? i then Some (default (-1) (head l)) else link_next s j) ∧
    link_prev s' j = (if (0 <=? default (-1) (head l)) && (j =? default (-1) (head l)) then Some i
                      else if j =? i then Some (-1) else link_prev s j)) →
  list_ok s' k (i :: l).
Proof.
  intros [Hnd Hh Hlk] Hi H0 Hl0 Hh' Hlk'. split; [by constructor|done|]. intros n j Hn.
  assert (Hj0 : 0 ≤ j) by (apply list_elem_of_lookup_2 in Hn; apply elem_of_cons in Hn as [->|?]; auto).
  destruct (Hlk' j Hj0) as (-> & ->). destruct n as [|n]; cbn in Hn.
  - injection Hn as <-. rewrite Z.eqb_refl. unfold nxt, prv. cbn. split; [by destruct l|].
    destruct l as [|x l]; cbn; [done|]. destruct (Z.eqb_spec i x) as [->|]; [set_solver|]. by rewrite andb_false_r.
  - assert (Hji : j ≠ i) by (intros ->; apply Hi; by eapply list_elem_of_lookup_2).
    destruct (Z.eqb_spec j i) as [|_]; [done|]. destruct (Hlk n j Hn) as (-> & ->). split; [done|].
    destruct l as [|x l]; [done|]. cbn [head from_option id]. destruct (Z.leb_spec 0 x); [|specialize (Hl0 x); set_solver by lia].
    cbn [andb]. destruct (Z.eqb_spec j x) as [->|Hne].
    + assert (n = 0%nat) as -> by (eapply NoDup_lookup; [exact Hnd|done|done]). done.
    + destruct n as [|n]; cbn in Hn; [congruence|]. done.
Qed.

(** The control byte of a block in hand does not matter, nor does its flag. *)
Lemma shape_flag s B h i k f g : shape s B h → B !! i = Some (k, f) → shape s (<[i := (k, g)]> B) (i :: h).
Proof.
  intros [A1 A2 A3 A4 A5 A6 A7 A8] Hi. split; try done.
  - intros j l e [(-> & [= <- <-])|(_ & Hj)]%lookup_insert_Some; by eapply A6.
  - intros x l e j m e' [(<- & [= <- <-])|(_ & Hx)]%lookup_insert_Some [(<- & [= <- <-])|(_ & Hj)]%lookup_insert_Some Hne; by eauto.
  - intros j l e [(-> & _)|(_ & Hj)]%lookup_insert_Some Hn; [set_solver|]. apply A8; [done|set_solver].
Qed.

Lemma store_frees s B h fl i k x v : shape s B h → lists s B fl → 0 ≤ k ≤ LOGMAX → (aiFreelist s).[k] = Some x → B !! i = Some (k, false) →
  x = default (-1) (head (fl k)) ∧ (0 ≤ x → (<[i := (k, v)]> B) !! x = Some (k, true) ∧ x ≠ i).
Proof.
  intros Hs [Hl Hf] Hk Hx Hi. pose proof (list_head _ _ _ (Hl k Hk)) as E. rewrite Hx in E. injection E as ->. split; [done|].
  destruct (fl k) as [|y l] eqn:El; cbn; [lia|]. intros _. assert (Hy : B !! y = Some (k, true)) by (apply Hf; [done|rewrite El; set_solver]).
  assert (y ≠ i) by congruence. by rewrite lookup_insert_ne.
Qed.

Lemma memsys5Link_spec s B h fl i k :
  shape s B h → lists s B fl → B !! i = Some (k, false) →
  ∃ s', memsys5Link i k s = Some s' ∧ frame s s' ∧ same_used s s' (<[i := (k, true)]> B) ∧
    lists s' (<[i := (k, true)]> B) (linked fl k i).
Proof.
  intros Hs Hls Hi. destruct (ok_block _ _ _ Hs _ _ _ Hi) as (Hk & _ & Hi0 & Hib). pose proof (Z.pow_pos_nonneg 2 k).
  pose proof (shape_flag _ _ _ _ _ _ true Hs Hi) as HsB. set (B' := <[i := (k, true)]> B) in *.
  assert (HiB : B' !! i = Some (k, true)) by apply lookup_insert_eq.
  unfold memsys5Link. destruct (rd_in_bounds (aiFreelist s) k) as (x & Ex); [rewrite (ok_lists _ _ _ Hs); unfold LOGMAX in Hk; lia|].
  rewrite Ex. cbn [mbind option_bind]. destruct (store_frees s B h fl i k x true Hs Hls Hk Ex Hi) as (Hx & Hxf).
  destruct (store_next_spec s B' _ i x HsB ltac:(lia)) as (s1 & -> & L1). cbn [mbind option_bind].
  pose proof (link_set_frame _ _ _ _ _ L1) as F1. pose proof (shape_frame _ _ _ _ F1 HsB) as Hs1.
  destruct (store_prev_spec s1 B' _ i (-1) Hs1) as (s2 & -> & L2); [rewrite (fr_block _ _ F1); lia|]. cbn [mbind option_bind].
  pose proof (link_set_frame _ _ _ _ _ L2) as F2. pose proof (shape_frame _ _ _ _ F2 Hs1) as Hs2.
  destruct (maybe_prev s2 B' _ x i Hs2) as (s3 & -> & F3 & U3 & A3 & L3); [intros H0; exists k; by apply Hxf|]. cbn [mbind option_bind].
  pose proof (shape_frame _ _ _ _ F3 Hs2) as Hs3.
  destruct (set_freelist_spec s3 k i) as (s4 & -> & F4 & P4 & A4); [rewrite (ok_lists _ _ _ Hs3); unfold LOGMAX in Hk; lia|].
  exists s4. split; [done|]. pose proof (frame_trans _ _ _ F1 (frame_trans _ _ _ F2 F3)) as F13. split; [by eapply frame_trans|].
  assert (HL : ∀ j, 0 ≤ j → link_next s4 j = (if j =? i then Some x else link_next s j) ∧
    link_prev s4 j = (if (0 <=? x) && (j =? x) then Some i else if j =? i then Some (-1) else link_prev s j)).
  { intros j Hj. destruct (link_pool s3 s4 j) as (-> & ->); [apply F4|done|]. destruct (L3 j Hj) as (-> & ->).
    destruct L1 as (_ & _ & _ & _ & _ & N1 & R1 & _), L2 as (_ & _ & _ & _ & _ & N2 & R2 & _). by rewrite N2, N1, R2, R1. }
  assert (HA : ∀ k', (aiFreelist s4).[k'] = if k =? k' then Some i else (aiFreelist s).[k']).
  { intros k'. destruct L1 as (_ & _ & E1 & _), L2 as (_ & _ & E2 & _). by rewrite A4, A3, E2, E1. }
  split.
  { eapply same_used_trans; [apply F1|exact (link_set_used _ _ _ _ _ _ _ _ HsB HiB L1)|].
    eapply same_used_trans; [apply F2|exact (link_set_used _ _ _ _ _ _ _ _ Hs1 HiB L2)|].
    eapply same_used_trans; [apply F3|exact U3|]. intros j l w _ _. by rewrite P4. }
  destruct Hls as [Hl Hf].
  assert (H0 : ∀ k' j, 0 ≤ k' ≤ LOGMAX → j ∈ fl k' → 0 ≤ j ∧ j ≠ i ∧ B !! j = Some (k', true)).
  { intros k' j Hk' Hj. apply Hf in Hj; [|done]. split; [apply (ok_block _ _ _ Hs) in Hj; lia|]. split; [congruence|done]. }
  split.
  - intros k' Hk'. unfold linked. destruct (Z.eqb_spec k' k) as [->|Hne].
    + apply (freelist_cons s); [by apply Hl|intros Hj; by destruct (H0 k i Hk Hj) as (_ & ? & _)|done|intros j Hj; by apply (H0 k j)|by rewrite HA, Z.eqb_refl|].
      rewrite <- Hx. exact HL.
    + apply (list_same s); [by apply Hl|intros j Hj; by apply (H0 k' j)|rewrite HA; by destruct (Z.eqb_spec k k'); [subst|]|].
      intros j Hj. destruct (H0 k' j Hk' Hj) as (Hj0 & Hji & HjB). destruct (HL j Hj0) as (-> & ->).
      apply Z.eqb_neq in Hji as E. rewrite E. split; [done|]. destruct (Z.leb_spec 0 x) as [Hx0|]; [|done]. cbn [andb].
      destruct (Z.eqb_spec j x) as [->|]; [|done]. destruct (Hxf Hx0) as (E2 & _). rewrite lookup_insert_ne in E2 by done. congruence.
  - intros k' j Hk'. unfold linked, B'. rewrite lookup_insert_Some. destruct (Z.eqb_spec k' k) as [->|Hne].
    + rewrite elem_of_cons, Hf by done. split; [|intros [(E & _)|(_ & ?)]; [by left|by right]]. intros [->|Hj]; [by left|right]. split; [congruence|done].
    + rewrite Hf by done. split; [|by intros [(_ & [=])|(_ & ?)]]. intros Hj. right. split; [congruence|done].
Qed.
