(* ===== verification/Mem5Proofs.v ===== *)
(** Proofs about the power-of-two allocator (Mem5.v): the pool is always a partition into
    aligned blocks, no two free buddies stay apart, an allocation fails only when no aligned run of atoms is free,
    and the operations refine a map from pointers to contents. *)
From S2P Require Import Prelude Mem5 Mem5Lists.

(** ** Aligned intervals *)

Lemma pow2_pos k : 0 ≤ k → 0 < 2 ^ k.
Proof. intros. by apply Z.pow_pos_nonneg. Qed.
#[local] Hint Resolve pow2_pos : core.

Lemma pow2_le k l : 0 ≤ k ≤ l → ∃ c, 0 < c ∧ 2 ^ l = c * 2 ^ k.
Proof. intros H. exists (2 ^ (l - k)). split; [apply pow2_pos; lia|]. rewrite <- Z.pow_add_r by lia. f_equal. lia. Qed.

(** Two of them that meet are nested. *)
Lemma dyadic_nested i k j l :
  0 ≤ k ≤ l → (2 ^ k | i) → (2 ^ l | j) → i < j + 2 ^ l → j < i + 2 ^ k → j ≤ i ∧ i + 2 ^ k ≤ j + 2 ^ l.
Proof.
  intros H (a & ->) (b & ->) H1 H2. destruct (pow2_le k l H) as (c & Hc & E). rewrite E in *. pose proof (pow2_pos k ltac:(lia)) as Hp.
  set (p := 2 ^ k) in *. rewrite !Z.mul_assoc in *. assert (a < b * c + c) by nia. assert (b * c < a + 1) by nia. nia.
Qed.

Lemma dyadic_double i k : 0 ≤ k → (2 ^ k | i) → (2 ^ (k + 1) | i) ∨ (2 ^ (k + 1) | i - 2 ^ k).
Proof.
  intros Hk (a & ->). rewrite Z.pow_add_r, Z.pow_1_r by lia. destruct (Z.Even_or_Odd a) as [(b & ->)|(b & ->)].
  - left. exists b. ring.
  - right. exists b. ring.
Qed.

Lemma buddy_even i k : 0 ≤ k → (2 ^ (k + 1) | i) → buddy i k = i + 2 ^ k ∧ buddy (i + 2 ^ k) k = i.
Proof.
  intros Hk (a & ->). pose proof (pow2_pos k Hk). unfold buddy. rewrite Z.pow_add_r, Z.pow_1_r by lia.
  replace (a * (2 ^ k * 2)) with (2 * a * 2 ^ k) by ring. rewrite Z.div_mul by lia.
  replace (2 * a * 2 ^ k + 2 ^ k) with ((2 * a + 1) * 2 ^ k) by ring. rewrite Z.div_mul by lia.
  rewrite Z.odd_add, !Z.odd_mul. cbn. lia.
Qed.

(** The other half of the block of twice the size. *)
Lemma buddy_cases i k :
  0 ≤ k → (2 ^ k | i) → (2 ^ k | buddy i k) ∧ buddy (buddy i k) k = i ∧
  ((2 ^ (k + 1) | i) ∧ buddy i k = i + 2 ^ k ∨ (2 ^ (k + 1) | buddy i k) ∧ i = buddy i k + 2 ^ k).
Proof.
  intros Hk Hi. pose proof (pow2_pos k Hk). destruct (dyadic_double i k Hk Hi) as [H2|H2].
  - destruct (buddy_even i k Hk H2) as (E1 & E2). rewrite E1. split; [by apply Z.divide_add_r; [|exists 1; lia]|]. auto.
  - destruct (buddy_even (i - 2 ^ k) k Hk H2) as (E1 & E2). replace (i - 2 ^ k + 2 ^ k) with i in * by ring. rewrite E2.
    split; [by apply Z.divide_sub_r; [|exists 1; lia]|]. split; [done|]. right. split; [done|lia].
Qed.

(** ** Changes of the partition *)

Lemma set_ctrl_spec s B h i v :
  shape s B h → 0 ≤ i < nBlock s → 0 ≤ v < 256 →
  ∃ s', set_ctrl i v s = Some s' ∧ shape s' B (i :: h) ∧ szAtom s' = szAtom s ∧ nBlock s' = nBlock s ∧
    zPool s' = zPool s ∧ aiFreelist s' = aiFreelist s ∧ ∀ j, (aCtrl s').[j] = if i =? j then Some v else (aCtrl s).[j].
Proof.
  intros [A1 A2 A3 A4 A5 A6 A7 A8] Hi Hv. unfold set_ctrl. rewrite u8_id by done.
  destruct (wr (aCtrl s) i v) as [l|] eqn:E; [|rewrite wr_in_bounds in E by lia; done]. cbn [mbind option_bind].
  exists (with_ctrl l s). split; [done|].
  assert (Hrd : ∀ j, (aCtrl (with_ctrl l s)).[j] = if i =? j then Some v else (aCtrl s).[j]) by (intros j; by apply rd_wr).
  split; [|done]. split; try done.
  - cbn [aCtrl with_ctrl]. unfold zlen. by rewrite (wr_length _ _ _ _ E).
  - intros j k f Hj Hn. rewrite Hrd. destruct (Z.eqb_spec i j) as [->|]; [set_solver|]. apply A8; [done|set_solver].
Qed.

Lemma lists_same s s' B B' fl :
  lists s B fl → szAtom s' = szAtom s → zPool s' = zPool s → aiFreelist s' = aiFreelist s →
  (∀ i k, B' !! i = Some (k, true) ↔ B !! i = Some (k, true)) → lists s' B' fl.
Proof.
  intros [Hl Hf] E1 E2 E3 HB. split.
  - intros k Hk. destruct (Hl k Hk) as [H1 H2 H3]. split; [done|by rewrite E3|]. intros n i Hn.
    destruct (link_pool s s' i E1 E2) as (-> & ->). by apply H3.
  - intros k i Hk. by rewrite HB, Hf.
Qed.

(** The control bytes of blocks are set. *)
Lemma shape_hand s B h h' :
  shape s B h → (∀ i k f, i ∈ h → i ∉ h' → B !! i = Some (k, f) → (aCtrl s).[i] = Some (ctrl_byte k f)) → shape s B h'.
Proof.
  intros [A1 A2 A3 A4 A5 A6 A7 A8] Hi. split; try done. intros j k f Hj Hn.
  destruct (decide (j ∈ h)) as [Hjh|Hjh]; [by apply Hi|by apply A8].
Qed.

Lemma shape_split s B h i k :
  shape s B h → i ∈ h → 0 ≤ k → B !! i = Some (k + 1, false) →
  B !! (i + 2 ^ k) = None ∧ shape s (<[i + 2 ^ k := (k, false)]> (<[i := (k, false)]> B)) (i + 2 ^ k :: h).
Proof.
  intros Hs Hih Hk Hi. pose proof (pow2_pos k Hk) as Hp. pose proof Hs as [A1 A2 A3 A4 A5 A6 A7 A8]. destruct (A6 _ _ _ Hi) as (H1 & H2 & H3 & H4).
  assert (E : 2 ^ (k + 1) = 2 * 2 ^ k) by (rewrite Z.pow_add_r by lia; lia). rewrite E in *.
  assert (Hd : (2 ^ k | i)) by (etransitivity; [|exact H2]; by exists 2).
  assert (Hap : ∀ j l g, B !! j = Some (l, g) → j ≠ i → j + 2 ^ l ≤ i ∨ i + 2 * 2 ^ k ≤ j).
  { intros j l g Hj Hne. destruct (A7 _ _ _ _ _ _ Hi Hj) as [?|?]; [done|lia|lia]. }
  assert (HN : B !! (i + 2 ^ k) = None).
  { destruct (B !! (i + 2 ^ k)) as [[l g]|] eqn:Ej; [|done]. destruct (A6 _ _ _ Ej) as (? & _). pose proof (pow2_pos l). destruct (Hap _ _ _ Ej); lia. }
  split; [done|]. split; try done.
  - intros j l g [(<- & [= <- <-])|(Hne & [(<- & [= <- <-])|(Hne2 & Hj)]%lookup_insert_Some)]%lookup_insert_Some.
    + split; [lia|]. split; [apply Z.divide_add_r; [done|by exists 1; lia]|lia].
    + split; [lia|]. split; [done|lia].
    + by eapply A6.
  - intros x l e j m e' Hx Hj Hne. rewrite !lookup_insert_Some in Hx, Hj.
    destruct Hx as [(<- & [= <- <-])|(Hx1 & [(<- & [= <- <-])|(Hx2 & Hx)])], Hj as [(<- & [= <- <-])|(Hj1 & [(<- & [= <- <-])|(Hj2 & Hj)])];
      try lia; [destruct (Hap _ _ _ Hj); lia|destruct (Hap _ _ _ Hj); lia|destruct (Hap _ _ _ Hx); lia|destruct (Hap _ _ _ Hx); lia|by eauto].
  - intros j l e Hj Hn. rewrite !lookup_insert_Some in Hj. apply not_elem_of_cons in Hn as (Hn1 & Hn2).
    destruct Hj as [(<- & _)|(Hj1 & [(<- & _)|(Hj2 & Hj)])]; [done|done|]. by apply A8.
Qed.

Lemma shape_merge s B h i k f g :
  shape s B h → i ∈ h → B !! i = Some (k, f) → B !! (i + 2 ^ k) = Some (k, g) → (2 ^ (k + 1) | i) → k < LOGMAX →
  shape s (<[i := (k + 1, false)]> (delete (i + 2 ^ k) B)) h.
Proof.
  intros Hs Hih Hi Hb Hd Hk. pose proof Hs as [A1 A2 A3 A4 A5 A6 A7 A8].
  destruct (A6 _ _ _ Hi) as (H1 & H2 & H3 & H4), (A6 _ _ _ Hb) as (_ & _ & _ & H5). pose proof (pow2_pos k ltac:(lia)) as Hp.
  assert (E : 2 ^ (k + 1) = 2 * 2 ^ k) by (rewrite Z.pow_add_r by lia; lia).
  assert (Hap : ∀ j l e, B !! j = Some (l, e) → j ≠ i → j ≠ i + 2 ^ k → j + 2 ^ l ≤ i ∨ i + 2 * 2 ^ k ≤ j).
  { intros j l e Hj Hne Hne2. destruct (A6 _ _ _ Hj) as (? & _). pose proof (pow2_pos l ltac:(lia)).
    destruct (A7 _ _ _ _ _ _ Hi Hj) as [?|?], (A7 _ _ _ _ _ _ Hb Hj) as [?|?]; try done; lia. }
  split; try done.
  - intros j l e [(<- & [= <- <-])|(Hne & [_ Hj]%lookup_delete_Some)]%lookup_insert_Some; [split; [lia|]; split; [done|lia]|by eapply A6].
  - intros x l e j m e' Hx Hj Hne. rewrite lookup_insert_Some, lookup_delete_Some in Hx, Hj.
    destruct Hx as [(<- & [= <- <-])|(Hx1 & Hx2 & Hx)], Hj as [(<- & [= <- <-])|(Hj1 & Hj2 & Hj)]; rewrite ?E;
      [done|destruct (Hap _ _ _ Hj); lia|destruct (Hap _ _ _ Hx); lia|by eauto].
  - intros j l e [(<- & _)|(_ & [_ Hj]%lookup_delete_Some)]%lookup_insert_Some Hn; [done|by apply A8].
Qed.

Lemma covers_ext B B' n :
  (∀ i k f x, B !! i = Some (k, f) → i ≤ x < i + 2 ^ k → ∃ j l g, B' !! j = Some (l, g) ∧ j ≤ x < j + 2 ^ l) → covers B n → covers B' n.
Proof. intros H HB x Hx. destruct (HB x Hx) as (i & k & f & Hi & Hr). by eapply H. Qed.

Lemma covers_flag B n i k f g : B !! i = Some (k, f) → covers B n → covers (<[i := (k, g)]> B) n.
Proof.
  intros Hi. apply covers_ext. intros j l e x Hj Hr. destruct (decide (i = j)) as [<-|Hne].
  - exists i, k, g. rewrite lookup_insert_eq. split; [done|congruence].
  - exists j, l, e. by rewrite lookup_insert_ne.
Qed.

Lemma merged_fewer B B' : (∀ i k, B' !! i = Some (k, true) → B !! i = Some (k, true)) → merged B → merged B'.
Proof. intros H HB i k Hk Hi Hb. by eapply (HB i k); [|apply H|apply H]. Qed.

Lemma merged_link s B h i k :
  shape s B h → B !! i = Some (k, false) → B !! buddy i k ≠ Some (k, true) → merged B → merged (<[i := (k, true)]> B).
Proof.
  intros Hs Hi Hb HB x l Hl Hx Hbx. rewrite lookup_insert_Some in Hx, Hbx.
  destruct (ok_block _ _ _ Hs _ _ _ Hi) as (Hk & Hd & _). pose proof (pow2_pos k ltac:(lia)).
  destruct (buddy_cases i k ltac:(lia) Hd) as (_ & _ & Hc).
  destruct Hx as [(<- & [= <-])|(Hne & Hx)], Hbx as [(Eb & Ek)|(Hne2 & Hbx)]; [|done| |exact (HB x l Hl Hx Hbx)].
  - destruct Hc as [(_ & Hc)|(_ & Hc)]; lia.
  - injection Ek as <-. destruct (ok_block _ _ _ Hs _ _ _ Hx) as (_ & Hdx & _).
    destruct (buddy_cases x k ltac:(lia) Hdx) as (_ & Ex & _). apply Hb. rewrite Eb, Ex. done.
Qed.

(** ** The invariant *)

Record inv (s : Mem5Global) (B : blocks) (h : list Z) : Prop := Inv {
  inv_shape : shape s B h;
  inv_lists : ∃ fl, lists s B fl;
  inv_covers : covers B (nBlock s);
  inv_merged : merged B }.

(** The blocks in use have their size and contents. *)
Record kept (s s' : Mem5Global) (B : blocks) : Prop := Kept {
  kp_atom : szAtom s' = szAtom s;
  kp_block : nBlock s' = nBlock s;
  kp_used : same_used s s' B }.

Lemma blocks_kept_refl s B : kept s s B.
Proof. done. Qed.
Lemma blocks_kept_trans s s1 s2 B : kept s s1 B → kept s1 s2 B → kept s s2 B.
Proof. intros [] []. split; [congruence|congruence|]. by eapply same_used_trans. Qed.
Lemma kept_fewer s s' B B' : (∀ i k, B' !! i = Some (k, false) → B !! i = Some (k, false)) → kept s s' B → kept s s' B'.
Proof. intros H [H1 H2 H3]. split; [done|done|]. intros i k w Hi. apply (H3 i k w). by apply H. Qed.
Lemma kept_pool s s' B : szAtom s' = szAtom s → nBlock s' = nBlock s → zPool s' = zPool s → kept s s' B.
Proof. intros H1 H2 H3. split; [done|done|]. intros i k w _ _. by rewrite H3. Qed.
Lemma kept_frame s s' B : frame s s' → same_used s s' B → kept s s' B.
Proof. intros [] H. by split. Qed.

Lemma ctrl_bits k : 0 ≤ k ≤ LOGMAX →
  Z.lor CTRL_FREE k = ctrl_byte k true ∧ Z.lor k CTRL_FREE = ctrl_byte k true ∧ ∀ f, Z.land (ctrl_byte k f) CTRL_LOGSIZE = k.
Proof.
  intros Hk. unfold LOGMAX in Hk. assert (E : k = Z.of_nat (Z.to_nat k)) by lia. revert E. generalize (Z.to_nat k). intros n ->.
  do 31 (destruct n as [|n]; [by split_and!; [..|intros []]|]). lia.
Qed.

Lemma inv_unlink s B h i k :
  inv s B h → B !! i = Some (k, true) →
  ∃ s', memsys5Unlink i k s = Some s' ∧ inv s' (<[i := (k, false)]> B) (i :: h) ∧ kept s s' B ∧ aCtrl s' = aCtrl s.
Proof.
  intros [Hs (fl & Hls) Hc Hm] Hi. destruct (ok_block _ _ _ Hs _ _ _ Hi) as (Hk & _).
  destruct (proj1 (list_elem_of_lookup _ _) (proj2 (ls_free _ _ _ Hls k i Hk) Hi)) as (n & Hn).
  destruct (memsys5Unlink_spec s B h fl i k n Hs Hls Hi Hn) as (s' & E & F & U & L). exists s'. split; [done|].
  split; [|split; [by apply kept_frame|apply F]]. split; [eapply shape_frame; [done|by eapply shape_flag]|by eexists|..].
  - rewrite (fr_block _ _ F). by eapply covers_flag.
  - eapply merged_fewer; [|exact Hm]. intros j l [(_ & [=])|(_ & ?)]%lookup_insert_Some. done.
Qed.

Lemma inv_link s B h i k :
  inv s B (i :: h) → B !! i = Some (k, false) → (aCtrl s).[i] = Some (ctrl_byte k true) → B !! buddy i k ≠ Some (k, true) →
  ∃ s', memsys5Link i k s = Some s' ∧ inv s' (<[i := (k, true)]> B) h ∧ kept s s' (<[i := (k, true)]> B) ∧ aCtrl s' = aCtrl s.
Proof.
  intros [Hs (fl & Hls) Hc Hm] Hi Hct Hb. destruct (memsys5Link_spec s B _ fl i k Hs Hls Hi) as (s' & E & F & U & L).
  exists s'. split; [done|]. split; [|split; [by apply kept_frame|apply F]]. split; [|by eexists|..].
  - eapply shape_hand; [eapply shape_frame; [done|by eapply shape_flag]|]. intros j l g Hj Hn. assert (j = i) as -> by set_solver.
    rewrite lookup_insert_eq. intros [= <- <-]. by rewrite (fr_ctrl _ _ F).
  - rewrite (fr_block _ _ F). by eapply covers_flag.
  - by eapply merged_link.
Qed.

Lemma inv_ctrl s B h i v :
  inv s B h → 0 ≤ i < nBlock s → 0 ≤ v < 256 →
  ∃ s', set_ctrl i v s = Some s' ∧ inv s' B (i :: h) ∧ (∀ B', kept s s' B') ∧
    ∀ j, (aCtrl s').[j] = if i =? j then Some v else (aCtrl s).[j].
Proof.
  intros [Hs (fl & Hls) Hc Hm] Hi Hv. destruct (set_ctrl_spec s B h i v Hs Hi Hv) as (s' & E & Hs' & E1 & E2 & E3 & E4 & E5).
  exists s'. split; [done|]. split; [|split; [intros B'; by apply kept_pool|done]]. split; [done|exists fl; by eapply lists_same|by rewrite E2|done].
Qed.

Lemma inv_hand s B h h' :
  inv s B h → (∀ i k f, i ∈ h → i ∉ h' → B !! i = Some (k, f) → (aCtrl s).[i] = Some (ctrl_byte k f)) → inv s B h'.
Proof. intros [Hs Hl Hc Hm] H. split; [by eapply shape_hand|done..]. Qed.

Lemma inv_settle s B h i : inv s B (i :: h) → (∀ k f, B !! i = Some (k, f) → (aCtrl s).[i] = Some (ctrl_byte k f)) → inv s B h.
Proof. intros HI H. eapply inv_hand; [exact HI|]. intros j k f Hj Hn. assert (j = i) as -> by set_solver. apply H. Qed.

Lemma ctrl_byte_range k f : 0 ≤ k ≤ LOGMAX → 0 ≤ ctrl_byte k f < 256.
Proof. unfold ctrl_byte, LOGMAX. destruct f; lia. Qed.

(** ** Allocation *)

Lemma inv_split s B h i k :
  inv s B h → i ∈ h → 0 ≤ k → B !! i = Some (k + 1, false) →
  ∃ s1 s2 B', set_ctrl (i + 2 ^ k) (Z.lor CTRL_FREE k) s = Some s1 ∧ memsys5Link (i + 2 ^ k) k s1 = Some s2 ∧
    B' = <[i + 2 ^ k := (k, true)]> (<[i := (k, false)]> B) ∧ B !! (i + 2 ^ k) = None ∧ inv s2 B' h ∧ kept s s2 (delete i B).
Proof.
  intros [Hs (fl & Hls) Hc Hm] Hih Hk Hi. pose proof (pow2_pos k Hk) as Hp.
  destruct (ok_block _ _ _ Hs _ _ _ Hi) as (Hk1 & Hd & Hi0 & Hib). assert (E2 : 2 ^ (k + 1) = 2 * 2 ^ k) by (rewrite Z.pow_add_r by lia; lia).
  destruct (shape_split s B h i k Hs Hih Hk Hi) as (HN & Hs').
  set (B1 := <[i + 2 ^ k := (k, false)]> (<[i := (k, false)]> B)) in *.
  assert (HI : inv s B1 (i + 2 ^ k :: h)).
  { split; [done|exists fl|..].
    - eapply lists_same; [exact Hls|done..|]. intros j l. unfold B1. rewrite !lookup_insert_Some. split.
      + by intros [(_ & [=])|(_ & [(_ & [=])|(_ & ?)])].
      + intros Hj. right. split; [congruence|]. right. split; [congruence|done].
    - eapply covers_ext; [|exact Hc]. intros j l f x Hj Hx. destruct (decide (j = i)) as [->|Hne].
      + rewrite Hi in Hj. injection Hj as <- <-. destruct (Z.lt_ge_cases x (i + 2 ^ k)).
        * exists i, k, false. unfold B1. rewrite lookup_insert_ne, lookup_insert_eq by lia. split; [done|lia].
        * exists (i + 2 ^ k), k, false. unfold B1. rewrite lookup_insert_eq. split; [done|lia].
      + exists j, l, f. unfold B1. by rewrite !lookup_insert_ne by congruence.
    - eapply merged_fewer; [|exact Hm]. unfold B1. intros j l. rewrite !lookup_insert_Some. by intros [(_ & [=])|(_ & [(_ & [=])|(_ & ?)])]. }
  destruct (ctrl_bits k) as (-> & _); [lia|].
  destruct (inv_ctrl s B1 _ (i + 2 ^ k) (ctrl_byte k true) HI) as (s1 & E1 & I1 & K1 & C1); [lia|apply ctrl_byte_range; lia|].
  destruct (inv_link s1 B1 _ (i + 2 ^ k) k I1) as (s2 & E3 & I2 & K2 & C2); [unfold B1; apply lookup_insert_eq|by rewrite C1, Z.eqb_refl|..].
  { rewrite (proj2 (buddy_even i k Hk Hd)). unfold B1. rewrite lookup_insert_ne, lookup_insert_eq by lia. congruence. }
  unfold B1 in I2, K2. rewrite insert_insert_eq in I2, K2. exists s1, s2. eexists. do 4 (split; [done|]). split.
  - apply inv_settle in I2; [done|]. intros l g. rewrite lookup_insert_eq, C2, C1, Z.eqb_refl. by intros [= <- <-].
  - eapply blocks_kept_trans; [apply K1|]. eapply kept_fewer; [|exact K2]. intros j l (Hne & Hj)%lookup_delete_Some.
    rewrite !lookup_insert_Some. right. split; [congruence|]. right. split; [done|done].
Qed.

(** The blocks in use, that of [i] aside, are the same. *)
Definition same_blocks (B B' : blocks) (i : Z) : Prop := ∀ j l, j ≠ i → B' !! j = Some (l, false) ↔ B !! j = Some (l, false).

Lemma same_blocks_trans B B1 B2 i : same_blocks B B1 i → same_blocks B1 B2 i → same_blocks B B2 i.
Proof. intros H1 H2 j l Hj. rewrite (H2 j l Hj). by apply H1. Qed.

Lemma same_blocks_delete B B' i : same_blocks B B' i → ∀ j l, delete i B !! j = Some (l, false) → delete i B' !! j = Some (l, false).
Proof. intros H j l. rewrite !lookup_delete_Some. intros (Hne & Hj). split; [done|]. by apply H. Qed.

Lemma split_loop_spec k i fuel : ∀ b s B h,
  inv s B h → i ∈ h → 0 ≤ k ≤ b → b - k ≤ Z.of_nat fuel → B !! i = Some (b, false) →
  ∃ s' B', split_loop fuel i k b s = Some s' ∧ inv s' B' h ∧ B' !! i = Some (k, false) ∧
    same_blocks B B' i ∧ kept s s' (delete i B).
Proof.
  induction fuel as [|fuel IH]; intros b s B h HI Hih Hk Hf Hi; cbn [split_loop]; destruct (Z.ltb_spec k b) as [Hlt|Hge]; try lia.
  1, 3: assert (b = k) as -> by lia; by exists s, B.
  assert (Hb : b = (b - 1) + 1) by lia. rewrite Hb in Hi.
  destruct (inv_split s B h i (b - 1) HI Hih ltac:(lia) Hi) as (s1 & s2 & B1 & E1 & E2 & E3 & HN & I2 & K2).
  rewrite Z.shiftl_mul_pow2, Z.mul_1_l, E1 by lia. cbn [mbind option_bind]. rewrite E2. cbn [mbind option_bind].
  pose proof (pow2_pos (b - 1) ltac:(lia)) as Hp.
  assert (Hi1 : B1 !! i = Some (b - 1, false)) by (rewrite E3, lookup_insert_ne, lookup_insert_eq by lia; done).
  assert (HS : same_blocks B B1 i).
  { intros j l Hj. rewrite E3. destruct (decide (j = i + 2 ^ (b - 1))) as [->|Hne].
    - rewrite lookup_insert_eq, HN. done.
    - by rewrite !lookup_insert_ne by done. }
  destruct (IH (b - 1) _ _ _ I2 Hih ltac:(lia) ltac:(lia) Hi1) as (s' & B' & E & HI' & Hi' & HS' & K').
  exists s', B'. split; [done|]. split; [done|]. split; [done|]. split; [by eapply same_blocks_trans|].
  eapply blocks_kept_trans; [exact K2|]. eapply kept_fewer; [|exact K']. by apply same_blocks_delete.
Qed.

(** The number of atoms of a request is rounded up to [2 ^ k]. *)
Definition rounded (s : Mem5Global) (n k : Z) : Prop :=
  0 ≤ k ≤ 27 ∧ n ≤ szAtom s * 2 ^ k ∧ (0 < k → szAtom s * 2 ^ (k - 1) < n).

Lemma fullsz_loop_spec a n fuel : ∀ k,
  3 ≤ a → 0 ≤ k ≤ 27 → n ≤ 2 ^ 30 → 27 - k < Z.of_nat fuel → (0 < k → 2 ^ a * 2 ^ (k - 1) < n) →
  ∃ k', fullsz_loop fuel n (2 ^ a * 2 ^ k) k = Some (2 ^ a * 2 ^ k', k') ∧ k ≤ k' ≤ 27 ∧ n ≤ 2 ^ a * 2 ^ k' ∧ (0 < k' → 2 ^ a * 2 ^ (k' - 1) < n).
Proof.
  induction fuel as [|fuel IH]; intros k Ha Hk Hn Hf Hlow; [lia|]. cbn [fullsz_loop].
  destruct (Z.ltb_spec (2 ^ a * 2 ^ k) n) as [Hlt|Hge]; [|exists k; split; [done|]; split; [lia|]; by split].
  assert (E : 2 ^ a * 2 ^ k * 2 = 2 ^ a * 2 ^ (k + 1)) by (rewrite Z.pow_add_r by lia; ring).
  destruct (Z.ltb_spec (2 ^ a * 2 ^ k * 2) (2 ^ 31)) as [_|?]; [|lia].
  assert (k < 27).
  { destruct (Z.eq_dec k 27) as [->|]; [|lia]. rewrite <- Z.pow_add_r in Hlt by lia.
    pose proof (Z.pow_le_mono_r 2 30 (a + 27)). lia. }
  rewrite E. destruct (IH (k + 1)) as (k' & Ek & Hk' & Hr); [lia|lia|lia|lia|by rewrite Z.add_simpl_r|].
  exists k'. split; [done|]. split; [lia|done].
Qed.

Lemma fullsz_rounded s B h n :
  shape s B h → n ≤ 2 ^ 30 → ∃ k, fullsz_loop 31 n (szAtom s) 0 = Some (szAtom s * 2 ^ k, k) ∧ rounded s n k.
Proof.
  intros [(a & Ha & E) _ _ _ _ _ _ _] Hn. unfold rounded. rewrite E.
  destruct (fullsz_loop_spec a n 31 0) as (k & Ek & Hk & Hr); [lia|lia|lia|lia|lia|].
  rewrite Z.pow_0_r, Z.mul_1_r in Ek. exists k. split; [done|]. split; [lia|done].
Qed.

Lemma rounded_unique s n k k' : 0 < szAtom s → rounded s n k → rounded s n k' → k = k'.
Proof.
  assert (Hle : ∀ k k', 0 < szAtom s → rounded s n k → rounded s n k' → k ≤ k').
  { intros l l' Hp (H1 & H2 & H3) (H1' & H2' & H3'). destruct (Z.le_gt_cases l l') as [|Hgt]; [done|].
    pose proof (Z.pow_le_mono_r 2 l' (l - 1)). specialize (H3 ltac:(lia)). nia. }
  intros Hp H H'. apply Z.le_antisymm; by apply Hle.
Qed.

Lemma bin_loop_spec s B h fl fuel : ∀ k,
  shape s B h → lists s B fl → 0 ≤ k ≤ LOGMAX + 1 → LOGMAX - k < Z.of_nat fuel →
  ∃ b, bin_loop fuel s k = Some b ∧ k ≤ b ∧ (∀ l, k ≤ l < b → fl l = []) ∧
    (b = LOGMAX + 1 ∨ b ≤ LOGMAX ∧ ∃ i, (aiFreelist s).[b] = Some i ∧ B !! i = Some (b, true)).
Proof.
  induction fuel as [|fuel IH]; intros k Hs Hls Hk Hf; cbn [bin_loop]; destruct (Z.leb_spec k LOGMAX) as [Hle|Hgt]; try lia.
  1, 3: exists k; split; [done|]; split; [lia|]; split; [lia|left; lia].
  pose proof (list_head _ _ _ (ls_list _ _ _ Hls k ltac:(lia))) as Eh. rewrite Eh. cbn [mbind option_bind].
  destruct (fl k) as [|i l] eqn:El; cbn [head from_option id] in *.
  - destruct (IH (k + 1) Hs Hls ltac:(lia) ltac:(lia)) as (b & E & Hb & He & Hr). exists b. split; [done|]. split; [lia|]. split; [|done].
    intros j Hj. destruct (Z.eq_dec j k) as [->|]; [done|]. apply He. lia.
  - assert (Hi : B !! i = Some (k, true)) by (apply (ls_free _ _ _ Hls k i ltac:(lia)); rewrite El; set_solver).
    destruct (ok_block _ _ _ Hs _ _ _ Hi) as (_ & _ & Hi0 & _). destruct (Z.ltb_spec i 0); [lia|].
    exists k. split; [done|]. split; [lia|]. split; [lia|]. right. split; [done|]. by exists i.
Qed.

(** What an allocation gives: a new block, or nothing. *)
Inductive allocated (n : Z) (s : Mem5Global) (B : blocks) : option Z → Mem5Global → blocks → Prop :=
| allocated_none : (2 ^ 30 < n ∨ ∃ k, rounded s n k ∧ ∀ i l, k ≤ l → B !! i ≠ Some (l, true)) → allocated n s B None s B
| allocated_some i k b s' B' :
    n ≤ 2 ^ 30 → rounded s n k → B !! i = Some (b, true) → k ≤ b → B' !! i = Some (k, false) → same_blocks B B' i → kept s s' B →
    allocated n s B (Some (i * szAtom s)) s' B'.

Lemma malloc_made n s B :
  inv s B [] → ∃ r s' B', memsys5MallocUnsafe n s = Some (r, s') ∧ inv s' B' [] ∧ allocated n s B r s' B'.
Proof.
  intros HI. pose proof HI as [Hs (fl & Hls) _ _]. unfold memsys5MallocUnsafe. change 0x40000000 with (2 ^ 30).
  destruct (Z.ltb_spec (2 ^ 30) n) as [Hbig|Hn]; [exists None, s, B; split_and!; [done|done|constructor; by left]|].
  destruct (fullsz_rounded s B [] n Hs Hn) as (k & -> & Hr). cbn [mbind option_bind]. destruct Hr as (Hk & Hr).
  destruct (bin_loop_spec s B [] fl 31 k Hs Hls) as (b & -> & Hkb & He & Hb); [unfold LOGMAX; lia|unfold LOGMAX; lia|].
  cbn [mbind option_bind]. destruct (Z.ltb_spec LOGMAX b) as [Hb2|Hb2].
  { exists None, s, B. split_and!; [done|done|]. constructor. right. exists k. split; [done|]. intros i l Hl Hi.
    destruct (ok_block _ _ _ Hs _ _ _ Hi) as (Hl2 & _). apply (ls_free _ _ _ Hls) in Hi; [|done]. rewrite He in Hi by lia. set_solver. }
  destruct Hb as [?|(_ & i & -> & Hi)]; [lia|]. cbn [mbind option_bind].
  destruct (inv_unlink s B [] i b HI Hi) as (s1 & -> & I1 & K1 & _). cbn [mbind option_bind].
  destruct (split_loop_spec k i 31 b s1 _ _ I1) as (s2 & B2 & -> & I2 & Hi2 & S2 & K2); [set_solver|lia|unfold LOGMAX in *; lia|apply lookup_insert_eq|].
  cbn [mbind option_bind]. destruct (ok_block _ _ _ (inv_shape _ _ _ I2) _ _ _ Hi2) as (_ & _ & Hi0 & Hib). pose proof (pow2_pos k ltac:(lia)).
  destruct (inv_ctrl s2 B2 _ i k I2) as (s3 & -> & I3 & K3 & C3); [lia|lia|]. cbn [mbind option_bind].
  exists (Some (i * szAtom s3)), s3, B2. split; [done|]. split.
  { do 2 (apply inv_settle in I3; [|intros l g; rewrite Hi2, C3, Z.eqb_refl; intros [= <- <-]; unfold ctrl_byte; f_equal; lia]). done. }
  assert (HB : ∀ j l, j ≠ i → <[i:=(b, false)]> B !! j = Some (l, false) ↔ B !! j = Some (l, false)) by (intros j l Hj; by rewrite lookup_insert_ne).
  assert (K : kept s s3 B).
  { eapply blocks_kept_trans; [exact K1|]. eapply blocks_kept_trans; [|exact (K3 B)]. eapply kept_fewer; [|exact K2].
    intros j l Hj. assert (j ≠ i) by congruence. rewrite lookup_delete_ne by done. by apply HB. }
  rewrite (kp_atom _ _ _ K). econstructor; try done. eapply same_blocks_trans; [|exact S2]. exact HB.
Qed.

(** An aligned run of [2 ^ k] atoms that no block in use meets. *)
Definition free_run (s : Mem5Global) (B : blocks) (i k : Z) : Prop :=
  (2 ^ k | i) ∧ 0 ≤ i ∧ i + 2 ^ k ≤ nBlock s ∧ ∀ j l, B !! j = Some (l, false) → j + 2 ^ l ≤ i ∨ i + 2 ^ k ≤ j.

Lemma free_run_half s B i k : 0 ≤ k → free_run s B i (k + 1) → free_run s B i k ∧ free_run s B (i + 2 ^ k) k.
Proof.
  intros Hk (Hd & Hi & Hb & Hu). pose proof (pow2_pos k Hk). assert (E : 2 ^ (k + 1) = 2 * 2 ^ k) by (rewrite Z.pow_add_r by lia; lia).
  rewrite E in *. assert (Hd' : (2 ^ k | i)) by (etransitivity; [|exact Hd]; by exists 2).
  split; (split; [|split; [lia|split; [lia|intros j l Hj; destruct (Hu j l Hj); lia]]]); [done|].
  apply Z.divide_add_r; [done|by exists 1; lia].
Qed.

(** It is part of one free block, since free buddies are merged. *)
Lemma run_in_block s B h (n : nat) : ∀ i, inv s B h → Z.of_nat n ≤ LOGMAX → free_run s B i (Z.of_nat n) →
  ∃ j l, B !! j = Some (l, true) ∧ Z.of_nat n ≤ l ∧ j ≤ i ∧ i + 2 ^ Z.of_nat n ≤ j + 2 ^ l.
Proof.
  induction n as [|n IH]; intros i HI Hn HR; pose proof HI as [Hs _ Hc Hm]; pose proof HR as (Hd & Hi & Hb & Hu).
  - destruct (Hc i) as (j & l & f & Hj & Hr); [change (2 ^ Z.of_nat 0) with 1 in Hb; lia|]. destruct (ok_block _ _ _ Hs _ _ _ Hj) as (Hl & _).
    destruct f; [|destruct (Hu _ _ Hj); change (2 ^ Z.of_nat 0) with 1 in *; lia]. exists j, l. change (2 ^ Z.of_nat 0) with 1. split; [done|lia].
  - rewrite Nat2Z.inj_succ in *. set (k := Z.of_nat n) in *. rewrite <- Z.add_1_r in *. assert (Hk : 0 ≤ k) by lia. pose proof (pow2_pos k Hk) as Hp.
    assert (E : 2 ^ (k + 1) = 2 * 2 ^ k) by (rewrite Z.pow_add_r by lia; lia).
    destruct (free_run_half s B i k Hk HR) as (HL & HH).
    assert (Hbig : ∀ x j l, free_run s B x k → i ≤ x → x + 2 ^ k ≤ i + 2 ^ (k + 1) → B !! j = Some (l, true) → k ≤ l → j ≤ x → x + 2 ^ k ≤ j + 2 ^ l →
      (k + 1 ≤ l ∧ j ≤ i ∧ i + 2 ^ (k + 1) ≤ j + 2 ^ l) ∨ l = k ∧ j = x).
    { intros x j l _ H1 H2 Hj Hl H3 H4. destruct (Z.eq_dec l k) as [->|Hne]; [right; split; [done|lia]|left]. split; [lia|].
      destruct (ok_block _ _ _ Hs _ _ _ Hj) as (_ & Hdj & _). apply dyadic_nested; [lia|done|done|lia|lia]. }
    destruct (IH i HI ltac:(lia) HL) as (j & l & Hj & Hl & H1 & H2).
    destruct (IH (i + 2 ^ k) HI ltac:(lia) HH) as (j' & l' & Hj' & Hl' & H1' & H2').
    destruct (Hbig i j l HL ltac:(lia) ltac:(lia) Hj Hl H1 H2) as [?|(-> & ->)]; [by exists j, l|].
    destruct (Hbig _ j' l' HH ltac:(lia) ltac:(lia) Hj' Hl' H1' H2') as [?|(-> & ->)]; [by exists j', l'|].
    exfalso. apply (Hm i k ltac:(lia) Hj). by rewrite (proj1 (buddy_even i k Hk Hd)).
Qed.

Lemma run_block s B h i k : inv s B h → 0 ≤ k ≤ LOGMAX → free_run s B i k → ∃ j l, B !! j = Some (l, true) ∧ k ≤ l ∧ j ≤ i ∧ i + 2 ^ k ≤ j + 2 ^ l.
Proof. intros HI Hk HR. rewrite <- (Z2Nat.id k) in HR |- * by lia. eapply run_in_block; [done|lia|done]. Qed.

Lemma block_run s B h i b k : inv s B h → B !! i = Some (b, true) → 0 ≤ k ≤ b → free_run s B i k.
Proof.
  intros [Hs _ _ _] Hi Hk. destruct (ok_block _ _ _ Hs _ _ _ Hi) as (Hb & Hd & Hi0 & Hin). destruct (pow2_le k b Hk) as (c & Hc & E).
  pose proof (pow2_pos k ltac:(lia)). split; [etransitivity; [by exists c|exact Hd]|]. split; [done|]. split; [nia|].
  intros j l Hj. destruct (ok_apart _ _ _ Hs _ _ _ _ _ _ Hi Hj) as [?|?]; [congruence|right; nia|by left].
Qed.

(** ** Release *)

(** The buddy of a block starts a block if it is in the pool: it has the size of a smaller one at most. *)
Lemma buddy_head s B h i k f :
  inv s B h → B !! i = Some (k, f) → buddy i k < nBlock s → ∃ l g, B !! buddy i k = Some (l, g) ∧ l ≤ k.
Proof.
  intros [Hs _ Hc _] Hi Hb. destruct (ok_block _ _ _ Hs _ _ _ Hi) as (Hk & Hd & Hi0 & Hin). pose proof (pow2_pos k ltac:(lia)) as Hp.
  destruct (buddy_cases i k ltac:(lia) Hd) as (Hdb & _ & Hcase). assert (E : 2 ^ (k + 1) = 2 * 2 ^ k) by (rewrite Z.pow_add_r by lia; lia).
  assert (Hb0 : 0 ≤ buddy i k).
  { destruct Hcase as [(_ & ->)|(Hd2 & Ei)]; [lia|]. destruct Hd2 as (a & Ea). rewrite E in Ea. assert (0 ≤ 2 * a + 1) by nia. nia. }
  destruct (Hc (buddy i k)) as (j & l & g & Hj & Hr); [lia|]. destruct (ok_block _ _ _ Hs _ _ _ Hj) as (Hl & Hdj & _).
  destruct (Z.le_gt_cases l k) as [Hlk|Hlk].
  - destruct (dyadic_nested j l (buddy i k) k) as (H1 & _); [lia|done|done|lia|lia|]. assert (j = buddy i k) as <- by lia. by exists l, g.
  - exfalso. destruct (decide (i = j)) as [<-|Hne]; [rewrite Hi in Hj; injection Hj; lia|].
    assert (HP : ∀ x, (2 ^ (k + 1) | x) → x ≤ buddy i k < x + 2 ^ (k + 1) → x ≤ i < x + 2 ^ (k + 1) → j ≤ i ∧ i + 2 ^ k ≤ j + 2 ^ l).
    { intros x Hx H1 H2. destruct (dyadic_nested x (k + 1) j l) as (H3 & H4); [lia|done|done|lia|lia|].
      destruct (dyadic_nested i k x (k + 1)) as (H5 & H6); [lia|done|done|lia|lia|]. lia. }
    destruct (ok_apart _ _ _ Hs _ _ _ _ _ _ Hi Hj Hne) as [Ha|Ha]; destruct Hcase as [(Hd2 & Ei)|(Hd2 & Ei)];
      (destruct (HP _ Hd2); lia).
Qed.

Lemma inv_merge s B h i k :
  inv s B h → i ∈ h → B !! i = Some (k, false) → B !! (i + 2 ^ k) = Some (k, false) → (2 ^ (k + 1) | i) → k < LOGMAX →
  inv s (<[i := (k + 1, false)]> (delete (i + 2 ^ k) B)) h.
Proof.
  intros [Hs (fl & Hls) Hc Hm] Hih Hi Hb Hd Hk. destruct (ok_block _ _ _ Hs _ _ _ Hi) as (Hk0 & _). pose proof (pow2_pos k ltac:(lia)).
  assert (E : 2 ^ (k + 1) = 2 * 2 ^ k) by (rewrite Z.pow_add_r by lia; lia). split; [by eapply shape_merge|exists fl|..].
  - eapply lists_same; [exact Hls|done..|]. intros j l. rewrite lookup_insert_Some, lookup_delete_Some. split; [by intros [(_ & [=])|(_ & _ & ?)]|].
    intros Hj. right. split; [congruence|]. split; [congruence|done].
  - eapply covers_ext; [|exact Hc]. intros j l f x Hj Hx. destruct (decide (j = i)) as [->|Hne]; [|destruct (decide (j = i + 2 ^ k)) as [->|Hne2]].
    + exists i, (k + 1), false. rewrite lookup_insert_eq. split; [done|]. rewrite Hi in Hj. injection Hj as <- <-. lia.
    + exists i, (k + 1), false. rewrite lookup_insert_eq. split; [done|]. rewrite Hb in Hj. injection Hj as <- <-. lia.
    + exists j, l, f. by rewrite lookup_insert_ne, lookup_delete_ne by done.
  - eapply merged_fewer; [|exact Hm]. intros j l. rewrite lookup_insert_Some, lookup_delete_Some. by intros [(_ & [=])|(_ & _ & ?)].
Qed.

(** The two halves get the control bytes of the block. *)
Lemma merge_step s B i k :
  inv s B [i; i + 2 ^ k] → B !! i = Some (k, false) → B !! (i + 2 ^ k) = Some (k, false) → (2 ^ (k + 1) | i) → k < LOGMAX →
  ∃ s1 s2, set_ctrl i (Z.lor CTRL_FREE (k + 1)) s = Some s1 ∧ set_ctrl (i + 2 ^ k) 0 s1 = Some s2 ∧
    inv s2 (<[i := (k + 1, false)]> (delete (i + 2 ^ k) B)) [i] ∧ (aCtrl s2).[i] = Some (ctrl_byte (k + 1) true) ∧ ∀ B', kept s s2 B'.
Proof.
  intros HI Hi Hb Hd Hk. pose proof (inv_merge s B _ i k HI ltac:(set_solver) Hi Hb Hd Hk) as HI'.
  destruct (ok_block _ _ _ (inv_shape _ _ _ HI) _ _ _ Hi) as (Hk0 & _ & Hi0 & _).
  destruct (ok_block _ _ _ (inv_shape _ _ _ HI) _ _ _ Hb) as (_ & _ & _ & Hbb). pose proof (pow2_pos k ltac:(lia)).
  destruct (ctrl_bits (k + 1)) as (-> & _); [lia|].
  destruct (inv_ctrl s _ _ i (ctrl_byte (k + 1) true) HI') as (s1 & E1 & I1 & K1 & C1); [lia|apply ctrl_byte_range; lia|].
  destruct (inv_ctrl s1 _ _ (i + 2 ^ k) 0 I1) as (s2 & E2 & I2 & K2 & C2); [rewrite (kp_block _ _ _ (K1 ∅)); lia|lia|].
  exists s1, s2. split; [done|]. split; [done|]. split; [|split].
  - eapply inv_hand; [exact I2|]. intros j l f Hj Hn. assert (j = i + 2 ^ k) as -> by set_solver.
    rewrite lookup_insert_ne, lookup_delete_eq by lia. done.
  - rewrite C2, C1, Z.eqb_refl. by destruct (Z.eqb_spec (i + 2 ^ k) i); [lia|].
  - intros B'. eapply blocks_kept_trans; [apply K1|apply K2].
Qed.

Lemma right_half i k : 0 ≤ k → negb (Z.land (Z.shiftr i k) 1 =? 0) = Z.odd (i / 2 ^ k).
Proof.
  intros Hk. rewrite Z.shiftr_div_pow2 by done. change 1 with (Z.ones 1) at 1. rewrite Z.land_ones by lia.
  change (2 ^ 1) with 2. rewrite Zmod_odd. by destruct (Z.odd _).
Qed.

(** Of the blocks in use, [i] became [i']. *)
Definition moved (B : blocks) (i : Z) (B' : blocks) (i' : Z) : Prop :=
  ∀ j l, (j ≠ i' ∧ B' !! j = Some (l, false)) ↔ (j ≠ i ∧ B !! j = Some (l, false)).

(** A block being released, with its control byte set and not yet on a list. *)
Record releasing (s : Mem5Global) (B : blocks) (i k : Z) : Prop := Releasing {
  rel_inv : inv s B [i];
  rel_block : B !! i = Some (k, false);
  rel_ctrl : (aCtrl s).[i] = Some (ctrl_byte k true) }.

Lemma buddy_step s B i k :
  releasing s B i k → k < LOGMAX → B !! buddy i k = Some (k, true) →
  let lo := Z.min i (buddy i k) in
  ∃ s1 s2 s3 B', memsys5Unlink (buddy i k) k s = Some s1 ∧ set_ctrl lo (Z.lor CTRL_FREE (k + 1)) s1 = Some s2 ∧
    set_ctrl (Z.max i (buddy i k)) 0 s2 = Some s3 ∧ releasing s3 B' lo (k + 1) ∧ moved B i B' lo ∧ kept s s3 (delete i B).
Proof.
  intros [HI Hi Hct] Hk Hb lo. destruct (ok_block _ _ _ (inv_shape _ _ _ HI) _ _ _ Hi) as (Hk0 & Hd & _). pose proof (pow2_pos k ltac:(lia)) as Hp.
  destruct (inv_unlink s B _ _ k HI Hb) as (s1 & E1 & I1 & K1 & _). set (b := buddy i k) in *.
  assert (Hne : b ≠ i) by congruence. set (B1 := <[b := (k, false)]> B) in *.
  assert (Hi1 : B1 !! i = Some (k, false)) by (unfold B1; by rewrite lookup_insert_ne).
  assert (Hb1 : B1 !! b = Some (k, false)) by apply lookup_insert_eq.
  assert (HM : ∀ B', B' = <[lo := (k + 1, false)]> (delete (Z.max i b) B1) → moved B i B' lo).
  { intros B' -> j l. unfold lo. rewrite lookup_insert_Some, lookup_delete_Some. unfold B1. rewrite lookup_insert_Some. split.
    - intros (H1 & [(H2 & _)|(H2 & H3 & [(H4 & _)|(H4 & H5)])]); [congruence|lia|]. split; [lia|done].
    - intros (H1 & H2). assert (j ≠ b) by congruence. split; [lia|]. right. split; [lia|]. split; [lia|]. right. by split. }
  assert (HK : kept s s1 (delete i B)) by (eapply kept_fewer; [|exact K1]; intros j l (_ & Hj)%lookup_delete_Some; done).
  assert (Hm : B1 !! lo = Some (k, false) ∧ B1 !! (lo + 2 ^ k) = Some (k, false) ∧ Z.max i b = lo + 2 ^ k ∧ (2 ^ (k + 1) | lo) ∧
    (lo = i ∧ lo + 2 ^ k = b ∨ lo = b ∧ lo + 2 ^ k = i)).
  { destruct (buddy_cases i k ltac:(lia) Hd) as (_ & _ & [(Hd2 & Eb)|(Hd2 & Eb)]); fold b in Eb, Hd2; unfold lo.
    - rewrite Z.min_l, Z.max_r by lia. rewrite <- Eb. split_and!; auto.
    - rewrite Z.min_r, Z.max_l by lia. rewrite <- Eb. split_and!; auto. }
  destruct Hm as (Hlo & Hhi & Emax & Hd2 & Hcase). rewrite Emax in *.
  destruct (merge_step s1 B1 lo k) as (s2 & s3 & E2 & E3 & I3 & C3 & K3); try done.
  { eapply inv_hand; [exact I1|]. intros j l f Hj Hn. destruct Hcase as [(Ea & Ez)|(Ea & Ez)]; rewrite Ez, Ea in Hn; set_solver. }
  exists s1, s2, s3. eexists. do 3 (split; [done|]). split; [|split; [by apply HM|by eapply blocks_kept_trans]]. split; [done|apply lookup_insert_eq|done].
Qed.

Lemma buddy_index s B h i k f :
  shape s B h → B !! i = Some (k, f) →
  (if Z.odd (i / 2 ^ k) then i32 (u32 (i - 2 ^ k)) else i32 (u32 (i + 2 ^ k))) = buddy i k ∧ 0 ≤ buddy i k ∧
  k ≤ 27 ∧ (Z.odd (i / 2 ^ k) = true → buddy i k < i).
Proof.
  intros Hs Hi. destruct (ok_block _ _ _ Hs _ _ _ Hi) as (Hk & Hd & Hi0 & Hb). pose proof (pow2_pos k ltac:(lia)) as Hp.
  destruct (ok_count _ _ _ Hs) as (Hn0 & Hn). destruct (ok_atom _ _ _ Hs) as (a & Ha & Ea).
  assert (H8 : 2 ^ 3 ≤ szAtom s) by (rewrite Ea; apply Z.pow_le_mono_r; lia). assert (Hn28 : nBlock s < 2 ^ 28) by nia.
  assert (k ≤ 27). { destruct (Z.le_gt_cases k 27); [done|]. pose proof (Z.pow_le_mono_r 2 28 k). lia. }
  assert (Hr : 0 ≤ buddy i k < 2 ^ 29 ∧ (Z.odd (i / 2 ^ k) = true → buddy i k < i)).
  { unfold buddy. destruct (Z.odd (i / 2 ^ k)) eqn:Eo; [|split; [lia|done]]. split; [|lia].
    assert (i / 2 ^ k ≠ 0) by (intros E0; rewrite E0 in Eo; done). destruct Hd as (q & ->). rewrite Z.div_mul in * by lia. nia. }
  destruct Hr as (Hr & Ho). split; [|split_and!; [lia|done|done]]. unfold buddy in *.
  destruct (Z.odd (i / 2 ^ k)); rewrite u32_id, i32_id by lia; done.
Qed.

Lemma buddy_loop_spec fuel : ∀ i k s B,
  releasing s B i k → 28 - k ≤ Z.of_nat fuel →
  ∃ i' k' s' B', buddy_loop fuel i k (2 ^ k) s = Some (i', k', s') ∧ releasing s' B' i' k' ∧
    B' !! buddy i' k' ≠ Some (k', true) ∧ moved B i B' i' ∧ kept s s' (delete i B).
Proof.
  induction fuel as [|fuel IH]; intros i k s B HR Hf; pose proof HR as [HI Hi Hct]; pose proof (inv_shape _ _ _ HI) as Hs;
    destruct (buddy_index s B _ i k false Hs Hi) as (Eb & Hb0 & Hk27 & Hodd); destruct (ok_block _ _ _ Hs _ _ _ Hi) as (Hk & Hd & Hi0 & Hib);
    pose proof (pow2_pos k ltac:(lia)) as Hp; [lia|]. cbn [buddy_loop].
  destruct (Z.ltb_spec k LOGMAX) as [Hlt|]; [|unfold LOGMAX in *; lia]. rewrite right_half, Eb by lia.
  assert (Hexit : B !! buddy i k ≠ Some (k, true) → ∃ i' k' s' B', Some (i, k, s) = Some (i', k', s') ∧ releasing s' B' i' k' ∧
    B' !! buddy i' k' ≠ Some (k', true) ∧ moved B i B' i' ∧ kept s s' (delete i B)).
  { intros Hne. exists i, k, s, B. split_and!; [done|done|done|done|apply blocks_kept_refl]. }
  destruct (negb (Z.odd (i / 2 ^ k)) && (nBlock s <=? buddy i k)) eqn:Eg.
  { apply Hexit. intros Hbb. apply (ok_block _ _ _ Hs) in Hbb as (_ & _ & _ & ?). b2p. lia. }
  assert (Hbn : buddy i k < nBlock s).
  { destruct (Z.odd (i / 2 ^ k)) eqn:Eo; [specialize (Hodd eq_refl); lia|]. cbn in Eg. lia. }
  destruct (buddy_head s B _ i k false HI Hi Hbn) as (l & g & Hbb & Hl).
  assert (Hni : buddy i k ≠ i) by (destruct (buddy_cases i k ltac:(lia) Hd) as (_ & _ & [(_ & ->)|(_ & ?)]); lia).
  rewrite (ok_ctrl _ _ _ Hs _ _ _ Hbb) by set_solver. cbn [mbind option_bind]. destruct (ctrl_bits k) as (-> & _); [lia|].
  destruct (ok_block _ _ _ Hs _ _ _ Hbb) as (Hl0 & _).
  destruct (Z.eqb_spec (ctrl_byte l g) (ctrl_byte k true)) as [Ec|Ec]; cbn [negb]; [|apply Hexit; intros E; rewrite E in Hbb; by injection Hbb as <- <-].
  assert (l = k ∧ g = true) as (-> & ->) by (unfold ctrl_byte, LOGMAX in *; destruct g; [split; [lia|done]|lia]).
  destruct (buddy_step s B i k HR Hlt Hbb) as (s1 & s2 & s3 & B' & -> & E2 & E3 & HR' & HM & HK). cbn [mbind option_bind].
  assert (Hsz : u32 (2 ^ k * 2) = 2 ^ (k + 1)).
  { rewrite Z.pow_add_r, Z.pow_1_r by lia. apply u32_id. pose proof (Z.pow_le_mono_r 2 k 27). lia. }
  rewrite Hsz. destruct (IH _ _ _ _ HR' ltac:(lia)) as (i' & k' & s' & B2 & E & HR2 & Hx & HM2 & HK2).
  exists i', k', s', B2. split.
  - destruct (Z.ltb_spec (buddy i k) i).
    + rewrite Z.min_r in * by lia. rewrite Z.max_l in * by lia. rewrite E2. cbn [mbind option_bind]. rewrite E3. done.
    + rewrite Z.min_l in * by lia. rewrite Z.max_r in * by lia. rewrite E2. cbn [mbind option_bind]. rewrite E3. done.
  - split; [done|]. split; [done|]. split; [intros j m; rewrite (HM2 j m); apply HM|].
    eapply blocks_kept_trans; [exact HK|]. eapply kept_fewer; [|exact HK2]. intros j m (Hne & Hj)%lookup_delete_Some.
    apply lookup_delete_Some. assert (Hj2 : j ≠ i ∧ B !! j = Some (m, false)) by (by split). apply HM in Hj2 as (? & ?). by split.
Qed.

Lemma set_ctrl_u8 i v s : set_ctrl i (u8 v) s = set_ctrl i v s.
Proof. unfold set_ctrl. by rewrite (u8_id (u8 v)) by apply u8_range. Qed.

Lemma inv_unit s B h : inv s B h → 0 < szAtom s.
Proof. intros [Hs _ _ _]. destruct (ok_atom _ _ _ Hs) as (a & Ha & ->). apply pow2_pos. lia. Qed.

Definition released (B B' : blocks) (i : Z) : Prop := ∀ j l, B' !! j = Some (l, false) ↔ (j ≠ i ∧ B !! j = Some (l, false)).

(** The merges and the link that end a release. *)
Lemma release_end n s B i k :
  28 ≤ Z.of_nat n → releasing s B i k →
  ∃ s' B', ('(iBlock, iLogsize, s) ← buddy_loop n i k (2 ^ k) s; memsys5Link iBlock iLogsize s) = Some s' ∧
    inv s' B' [] ∧ released B B' i ∧ kept s s' (delete i B).
Proof.
  intros Hn HR. destruct (ok_block _ _ _ (inv_shape _ _ _ (rel_inv _ _ _ _ HR)) _ _ _ (rel_block _ _ _ _ HR)) as (Hk & _).
  destruct (buddy_loop_spec n i k s B HR) as (i' & k' & s' & B' & -> & [HI' Hi' Hc'] & Hx & HM & HK); [lia|]. cbn [mbind option_bind].
  destruct (inv_link s' B' [] i' k') as (s4 & -> & I4 & K4 & _); [done..|].
  exists s4. eexists. split; [done|]. split; [exact I4|]. split.
  - intros j l. rewrite <- (HM j l), lookup_insert_Some. split; [by intros [(_ & [=])|(? & ?)]|]. intros (? & ?). right. by split.
  - eapply blocks_kept_trans; [exact HK|]. eapply kept_fewer; [|exact K4]. intros j l (Hne & Hj)%lookup_delete_Some. rewrite lookup_insert_Some. right.
    assert (Hj2 : j ≠ i ∧ B !! j = Some (l, false)) by (by split). apply HM in Hj2 as (? & ?). by split.
Qed.

Lemma free_made s B i k :
  inv s B [] → B !! i = Some (k, false) →
  ∃ s' B', memsys5FreeUnsafe (i * szAtom s) s = Some s' ∧ inv s' B' [] ∧ released B B' i ∧ kept s s' (delete i B).
Proof.
  intros HI Hi. pose proof (inv_shape _ _ _ HI) as Hs. destruct (ok_block _ _ _ Hs _ _ _ Hi) as (Hk & _ & Hi0 & Hb).
  pose proof (pow2_pos k ltac:(lia)) as Hp. unfold memsys5FreeUnsafe.
  assert (Hn : 28 ≤ Z.of_nat 31) by lia. revert Hn. generalize 31%nat. intros n Hn. rewrite Z.div_mul by (pose proof (inv_unit _ _ _ HI); lia).
  rewrite (ok_ctrl _ _ _ Hs _ _ _ Hi) by set_solver. cbn [mbind option_bind]. destruct (ctrl_bits k Hk) as (Ef & _ & El).
  rewrite El, Ef, Z.shiftl_mul_pow2, Z.mul_1_l by lia.
  rewrite <- (set_ctrl_u8 i). destruct (inv_ctrl s B [] i (u8 (Z.lor (ctrl_byte k false) CTRL_FREE)) HI ltac:(lia) (u8_range _)) as (s1 & -> & I1 & K1 & C1).
  cbn [mbind option_bind]. assert (Hr : 0 ≤ i + 2 ^ k - 1 < nBlock s1) by (rewrite (kp_block _ _ _ (K1 ∅)); lia).
  destruct (rd_in_bounds (aCtrl s1) (i + 2 ^ k - 1)) as (e & ->); [pose proof (ok_bytes _ _ _ (inv_shape _ _ _ I1)); lia|]. cbn [mbind option_bind].
  rewrite <- (set_ctrl_u8 (i + 2 ^ k - 1)). destruct (inv_ctrl s1 B _ (i + 2 ^ k - 1) (u8 (Z.lor e CTRL_FREE)) I1 Hr (u8_range _)) as (s2 & -> & I2 & K2 & C2).
  cbn [mbind option_bind]. destruct (inv_ctrl s2 B _ i (ctrl_byte k true) I2) as (s3 & -> & I3 & K3 & C3);
    [rewrite (kp_block _ _ _ (K2 ∅)); lia|by apply ctrl_byte_range|]. cbn [mbind option_bind].
  assert (HR : releasing s3 B i k).
  { split; [|done|by rewrite C3, Z.eqb_refl]. eapply inv_hand; [exact I3|]. intros j l f Hj Hnj Hjb. exfalso.
    assert (j = i + 2 ^ k - 1 ∧ j ≠ i) as (-> & Hne) by set_solver. destruct (ok_block _ _ _ Hs _ _ _ Hjb) as (Hl & _).
    pose proof (pow2_pos l ltac:(lia)). destruct (ok_apart _ _ _ Hs _ _ _ _ _ _ Hi Hjb); lia. }
  destruct (release_end n s3 B i k) as (s' & B' & E & HI' & HR' & HK'); [lia|done|]. exists s', B'. split; [exact E|].
  split; [done|]. split; [done|]. eapply blocks_kept_trans; [apply K1|]. eapply blocks_kept_trans; [apply K2|]. eapply blocks_kept_trans; [apply K3|done].
Qed.
