(* ===== verification/Mem5Refine.v ===== *)
(** The power-of-two allocator (Mem5.v) implements a map from pointers to contents: its initialization,
    the operations of a client, reallocation and the rounding of sizes. *)
From S2P Require Import Prelude Mem5 Mem5Lists Mem5Proofs.

(** ** Initialization *)

Lemma log_loop_spec v fuel : ∀ k,
  0 ≤ k → (0 < k → 2 ^ (k - 1) < v) → v ≤ 2 ^ (k + Z.of_nat fuel) →
  let r := log_loop fuel v k in k ≤ r ≤ k + Z.of_nat fuel ∧ v ≤ 2 ^ r ∧ (0 < r → 2 ^ (r - 1) < v).
Proof.
  induction fuel as [|fuel IH]; intros k Hk Hlow Hv; cbn [log_loop].
  - rewrite Nat2Z.inj_0, Z.add_0_r in *. split_and!; [lia|lia|done|done].
  - rewrite Z.shiftl_mul_pow2, Z.mul_1_l by lia. destruct (Z.ltb_spec (2 ^ k) v) as [Hlt|Hge]; [|split_and!; [lia|lia|done|done]].
    replace (k + Z.of_nat (S fuel)) with (k + 1 + Z.of_nat fuel) in * by lia.
    destruct (IH (k + 1)) as (H1 & H2); [lia|by rewrite Z.add_simpl_r|done|]. split; [lia|done].
Qed.

Lemma memsys5Log_ceiling v : v ≤ 2 ^ 31 → 0 ≤ memsys5Log v ≤ 31 ∧ v ≤ 2 ^ memsys5Log v ∧ (0 < memsys5Log v → 2 ^ (memsys5Log v - 1) < v).
Proof. intros Hv. apply (log_loop_spec v 31 0); [lia|lia|done]. Qed.

Lemma atom_loop_spec k : 0 ≤ k → atom_loop 4 (2 ^ k) = Some (2 ^ Z.max 3 k).
Proof.
  intros Hk. destruct (Z.le_gt_cases 3 k) as [H3|H3].
  - rewrite Z.max_r by done. unfold atom_loop, sizeof_Mem5Link. pose proof (Z.pow_le_mono_r 2 3 k). destruct (Z.ltb_spec (2 ^ k) 8); [lia|done].
  - assert (k = 0 ∨ k = 1 ∨ k = 2) as [->|[->| ->]] by lia; reflexivity.
Qed.

Lemma shape_add s B i k :
  shape s B [] → 0 ≤ k ≤ LOGMAX → (2 ^ k | i) → 0 ≤ i → i + 2 ^ k ≤ nBlock s → (∀ j l g, B !! j = Some (l, g) → j + 2 ^ l ≤ i) →
  shape s (<[i := (k, false)]> B) [i].
Proof.
  intros [A1 A2 A3 A4 A5 A6 A7 A8] Hk Hd Hi Hb Hlt. pose proof (pow2_pos k ltac:(lia)). split; try done.
  - intros j l g [(<- & [= <- <-])|(_ & Hj)]%lookup_insert_Some; [done|by eapply A6].
  - intros x l e j m e' [(<- & [= <- <-])|(_ & Hx)]%lookup_insert_Some [(<- & [= <- <-])|(_ & Hj)]%lookup_insert_Some Hne;
      [done|right; by eapply Hlt|left; by eapply Hlt|by eauto].
  - intros j l e [(<- & _)|(_ & Hj)]%lookup_insert_Some Hn; [set_solver|]. apply A8; [done|set_solver].
Qed.

(** While the pool is cut: the blocks below [off] are free and larger than those to come. *)
Record cutting (s : Mem5Global) (B : blocks) (n off : Z) : Prop := Cutting {
  cut_shape : shape s B [];
  cut_lists : ∃ fl, lists s B fl;
  cut_covers : covers B off;
  cut_merged : merged B;
  cut_off : (2 ^ n | off) ∧ 0 ≤ off ≤ nBlock s ∧ nBlock s < off + 2 ^ n;
  cut_blocks i k f : B !! i = Some (k, f) → f = true ∧ n ≤ k ∧ i + 2 ^ k ≤ off }.

Lemma cut_skip s B n off : 0 ≤ n → cutting s B (n + 1) off → nBlock s < off + 2 ^ n → cutting s B n off.
Proof.
  intros Hn [C1 C2 C3 C4 (C5 & C6) C7] Hb. split; try done.
  - split; [|lia]. etransitivity; [|exact C5]. exists 2. rewrite Z.pow_add_r by lia. lia.
  - intros i k f Hi. destruct (C7 _ _ _ Hi) as (? & ? & ?). split; [done|lia].
Qed.

Lemma cut_block s B n off :
  0 ≤ n ≤ LOGMAX → cutting s B (n + 1) off → off + 2 ^ n ≤ nBlock s →
  ∃ s1 s2 B', set_ctrl off (Z.lor n CTRL_FREE) s = Some s1 ∧ memsys5Link off n s1 = Some s2 ∧
    cutting s2 B' n (off + 2 ^ n) ∧ szAtom s2 = szAtom s ∧ nBlock s2 = nBlock s.
Proof.
  intros Hn [C1 (fl & C2) C3 C4 (C5 & C6) C7] Hb. pose proof (pow2_pos n ltac:(lia)) as Hp.
  assert (E2 : 2 ^ (n + 1) = 2 * 2 ^ n) by (rewrite Z.pow_add_r by lia; lia).
  assert (Hd : (2 ^ n | off)) by (etransitivity; [|exact C5]; exists 2; lia).
  assert (HN : B !! off = None) by (destruct (B !! off) as [[k f]|] eqn:E; [|done]; destruct (C7 _ _ _ E) as (_ & ? & ?); pose proof (pow2_pos k); lia).
  assert (HS : shape s (<[off := (n, false)]> B) [off]) by (apply shape_add; [done|done|done|lia|lia|]; intros j l g Hj; by destruct (C7 _ _ _ Hj) as (_ & _ & ?)).
  destruct (ctrl_bits n Hn) as (_ & -> & _).
  destruct (set_ctrl_spec s _ _ off (ctrl_byte n true) HS) as (s1 & E1 & Hs1 & A1 & A2 & A3 & A4 & A5); [lia|by apply ctrl_byte_range|].
  set (B1 := <[off := (n, false)]> B) in *. assert (HB1 : B1 !! off = Some (n, false)) by apply lookup_insert_eq.
  assert (HL : lists s1 B1 fl).
  { eapply lists_same; [exact C2|done..|]. intros i k. unfold B1. rewrite lookup_insert_Some. split; [by intros [(_ & [=])|(_ & ?)]|].
    intros Hi. right. split; [congruence|done]. }
  destruct (memsys5Link_spec s1 B1 _ fl off n Hs1 HL HB1) as (s2 & E3 & F & _ & L2). exists s1, s2. eexists. split; [done|]. split; [done|].
  assert (Hnb : nBlock s2 = nBlock s) by (by rewrite (fr_block _ _ F)). split; [|split; [by rewrite (fr_atom _ _ F)|done]].
  split; [|by eexists|..].
  - eapply shape_hand; [eapply shape_frame; [exact F|by eapply shape_flag]|]. intros j k f Hj _.
    assert (j = off) as -> by set_solver. rewrite lookup_insert_eq. intros [= <- <-]. by rewrite (fr_ctrl _ _ F), A5, Z.eqb_refl.
  - intros x Hx. unfold B1. rewrite insert_insert_eq. destruct (Z.lt_ge_cases x off).
    + destruct (C3 x) as (i & k & f & Hi & Hr); [lia|]. exists i, k, f. rewrite lookup_insert_ne by congruence. done.
    + exists off, n, true. rewrite lookup_insert_eq. split; [done|lia].
  - eapply (merged_link s1 B1 _ off n Hs1 HB1).
    + unfold B1. rewrite lookup_insert_Some. intros [(_ & [=])|(_ & Hj)]. destruct (C7 _ _ _ Hj); lia.
    + eapply merged_fewer; [|exact C4]. unfold B1. intros i k. rewrite lookup_insert_Some. by intros [(_ & [=])|(_ & ?)].
  - rewrite Hnb. split; [apply Z.divide_add_r; [done|by exists 1; lia]|lia].
  - unfold B1. rewrite insert_insert_eq. intros i k f [(<- & [= <- <-])|(_ & Hi)]%lookup_insert_Some; [split_and!; [done|lia|lia]|].
    destruct (C7 _ _ _ Hi) as (? & ? & ?). split; [done|]. lia.
Qed.

Lemma init_loop_spec n : ∀ off s B, Z.of_nat n ≤ LOGMAX + 1 → cutting s B (Z.of_nat n) off →
  ∃ s' B', init_loop n off s = Some s' ∧ inv s' B' [] ∧ (∀ i k f, B' !! i = Some (k, f) → f = true) ∧ szAtom s' = szAtom s ∧ nBlock s' = nBlock s.
Proof.
  induction n as [|n IH]; intros off s B Hn HC; cbn [init_loop].
  - exists s, B. split; [done|]. destruct HC as [C1 C2 C3 C4 (C5 & C6) C7]. split; [|split; [intros i k f Hi; by destruct (C7 _ _ _ Hi)|done]].
    split; [done|done| |done]. change (2 ^ Z.of_nat 0) with 1 in *. replace (nBlock s) with off by lia. done.
  - rewrite Z.shiftl_mul_pow2, Z.mul_1_l by lia. rewrite Nat2Z.inj_succ, <- Z.add_1_r in HC, Hn.
    destruct (Z.leb_spec (off + 2 ^ Z.of_nat n) (nBlock s)) as [Hle|Hgt].
    + destruct (cut_block s B (Z.of_nat n) off ltac:(lia) HC Hle) as (s1 & s2 & B' & -> & E2 & HC' & Ea & Eb). cbn [mbind option_bind].
      rewrite E2. cbn [mbind option_bind]. destruct (IH _ _ _ ltac:(lia) HC') as (s' & B2 & -> & ? & ? & ? & ?). exists s', B2.
      split_and!; [done|done|done|congruence|congruence].
    + apply (IH off s B); [lia|]. apply cut_skip; [lia|done|done].
Qed.

(** What [sqlite3_config] allows, and the room that the heap has. *)
Definition heap_config (nHeap mnReq : Z) (pool ctrl : list Z) : Prop :=
  0 ≤ nHeap < 2 ^ 31 ∧ 1 ≤ mnReq ≤ 2 ^ 12 ∧
  let atom := 2 ^ Z.max 3 (memsys5Log mnReq) in
  zlen pool = nHeap / (atom + 1) * atom / 4 ∧ nHeap / (atom + 1) ≤ zlen ctrl.

Lemma init_made nHeap mnReq pool ctrl :
  heap_config nHeap mnReq pool ctrl →
  ∃ s B, memsys5Init nHeap mnReq pool ctrl = Some s ∧ inv s B [] ∧ (∀ i k f, B !! i = Some (k, f) → f = true) ∧
    szAtom s = 2 ^ Z.max 3 (memsys5Log mnReq) ∧ nBlock s = nHeap / (szAtom s + 1).
Proof.
  intros (Hh & Hm & Hp & Hc). destruct (memsys5Log_ceiling mnReq ltac:(lia)) as (Hl & _ & Hlow). unfold memsys5Init.
  rewrite Z.shiftl_mul_pow2, Z.mul_1_l, atom_loop_spec by lia. cbn [mbind option_bind]. set (a := Z.max 3 (memsys5Log mnReq)) in *.
  assert (Ha : 3 ≤ a ≤ 12).
  { split; [lia|]. destruct (Z.le_gt_cases (memsys5Log mnReq) 12); [lia|]. pose proof (Z.pow_le_mono_r 2 12 (memsys5Log mnReq - 1)). specialize (Hlow ltac:(lia)). lia. }
  pose proof (pow2_pos a ltac:(lia)) as Hpa. rewrite Hp, Z.eqb_refl, (proj2 (Z.leb_le _ _) Hc). cbn [andb].
  set (nb := nHeap / (2 ^ a + 1)) in *. assert (Hnb : 0 ≤ nb ∧ nb * (2 ^ a + 1) ≤ nHeap).
  { split; [apply Z.div_pos; lia|]. unfold nb. rewrite Z.mul_comm. apply Z.mul_div_le. lia. }
  assert (E4 : 2 ^ a = 2 ^ (a - 2) * 4) by (change 4 with (2 ^ 2); rewrite <- Z.pow_add_r by lia; f_equal; lia).
  set (s0 := mkMem5 _ _ _ _ _). assert (HC : cutting s0 ∅ (Z.of_nat 31) 0).
  { assert (HE : ∀ i (x : Z * bool), (∅ : blocks) !! i = Some x → False) by (intros i x; by rewrite lookup_empty).
    split; [split|exists (λ _, [])|..].
    - by exists a.
    - cbn. lia.
    - unfold aw. cbn. rewrite Hp, E4, Z.mul_assoc, !Z.div_mul by lia. done.
    - done.
    - done.
    - by intros i k f ?%HE.
    - by intros i k f j l g ?%HE.
    - by intros i k f ?%HE.
    - split; [|intros k i _; split; [by intros ?%not_elem_of_nil|by intros ?%HE]]. intros k Hk. split; [constructor| |by intros [|?] ? [=]].
      apply rd_replicate. unfold LOGMAX in *. lia.
    - intros x Hx. lia.
    - by intros i k _ ?%HE.
    - split; [by exists 0|]. cbn [nBlock s0]. split; [lia|]. change (2 ^ Z.of_nat 31) with (2 ^ 31). nia.
    - by intros i k f ?%HE. }
  destruct (init_loop_spec 31 0 s0 ∅ ltac:(done) HC) as (s & B & E & HI & Hf & E1 & E2). exists s, B. split; [exact E|].
  split; [done|]. split; [done|]. rewrite E2, E1. done.
Qed.

(** ** Contents *)

(** The words of the block of [2 ^ k] atoms at [i]. *)
Definition contents (s : Mem5Global) (i k : Z) : list Z := take (Z.to_nat (2 ^ k * aw s)) (drop (Z.to_nat (i * aw s)) (zPool s)).

Lemma contents_rd s B h i k f j :
  shape s B h → B !! i = Some (k, f) →
  (contents s i k).[j] = if (0 <=? j) && (j <? 2 ^ k * aw s) then (zPool s).[i * aw s + j] else None.
Proof.
  intros Hs Hi. destruct (atom_words _ _ _ Hs) as (_ & Hw & _). destruct (ok_block _ _ _ Hs _ _ _ Hi) as (Hk & _ & Hi0 & _).
  pose proof (pow2_pos k ltac:(lia)). unfold rd, contents. destruct (Z.leb_spec 0 j); cbn [andb].
  - assert (0 ≤ i * aw s) by nia. destruct (Z.ltb_spec j (2 ^ k * aw s)).
    + rewrite lookup_take_lt, lookup_drop by lia. destruct (Z.ltb_spec j 0), (Z.ltb_spec (i * aw s + j) 0); try lia. f_equal. lia.
    + rewrite lookup_take_ge by lia. by destruct (j <? 0).
  - destruct (Z.ltb_spec j 0); [done|lia].
Qed.

Lemma contents_length s B h i k f : shape s B h → B !! i = Some (k, f) → zlen (contents s i k) = 2 ^ k * aw s.
Proof.
  intros Hs Hi. destruct (atom_words _ _ _ Hs) as (_ & Hw & _). destruct (ok_block _ _ _ Hs _ _ _ Hi) as (Hk & _ & Hi0 & Hb).
  pose proof (pow2_pos k ltac:(lia)). pose proof (ok_pool _ _ _ Hs) as Hp. unfold contents. rewrite length_take, length_drop.
  assert (0 ≤ 2 ^ k * aw s) by nia. assert (0 ≤ i * aw s) by nia. assert (i * aw s + 2 ^ k * aw s ≤ nBlock s * aw s) by (rewrite <- Z.mul_add_distr_r; apply Z.mul_le_mono_nonneg_r; lia). lia.
Qed.

Lemma contents_kept s s' B B' K h h' i k f g :
  shape s B h → shape s' B' h' → B !! i = Some (k, f) → B' !! i = Some (k, g) → K !! i = Some (k, false) → kept s s' K → contents s' i k = contents s i k.
Proof.
  intros Hs Hs' Hi Hi' HK [K1 K2 K3]. assert (Ea : aw s' = aw s) by (unfold aw; by rewrite K1). apply rd_ext. intros j _.
  rewrite (contents_rd s' B' h' i k g), (contents_rd s B h i k f), Ea by done.
  destruct ((0 <=? j) && (j <? 2 ^ k * aw s)) eqn:E; [|done].
  apply andb_true_iff in E as (E1 & E2). apply Z.leb_le in E1. apply Z.ltb_lt in E2. refine (K3 i k _ HK _). lia.
Qed.

(** Only blocks in use are written. *)
Lemma inv_pool l s B h :
  inv s B h → List.length l = List.length (zPool s) →
  (∀ i k w, B !! i = Some (k, true) → i * aw s ≤ w < (i + 2 ^ k) * aw s → l.[w] = (zPool s).[w]) → inv (with_pool l s) B h.
Proof.
  intros [Hs (fl & Hl & Hf) Hc Hm] Hlen Hw. destruct (atom_words _ _ _ Hs) as (_ & Haw & HM).
  split; [eapply shape_frame; [|exact Hs]; by split|exists fl|done|done].
  assert (H0 : ∀ k j, 0 ≤ k ≤ LOGMAX → j ∈ fl k → 0 ≤ j) by (intros k j Hk Hj; apply Hf in Hj; [|done]; apply (ok_block _ _ _ Hs) in Hj; lia).
  split; [|done]. intros k Hk. apply (list_same s); [by apply Hl|intros j; by apply H0|done|].
  intros j Hj. apply Hf in Hj; [|done]. destruct (ok_block _ _ _ Hs _ _ _ Hj) as (_ & _ & Hj0 & _). pose proof (pow2_pos k ltac:(lia)).
  assert (HM' : MEM5LINK (with_pool l s) j = j * aw s) by apply HM. unfold link_next, link_prev. rewrite HM', HM. cbn [zPool with_pool].
  rewrite !(Hw j k) by (try done; nia). done.
Qed.

(** A write into a block in use. *)
Lemma store_made s B i k j v :
  inv s B [] → B !! i = Some (k, false) → 0 ≤ j < 2 ^ k * aw s →
  ∃ l, wr (zPool s) (i * aw s + j) v = Some l ∧ inv (with_pool l s) B [] ∧ kept s (with_pool l s) (delete i B) ∧
    wr (contents s i k) j v = Some (contents (with_pool l s) i k).
Proof.
  intros HI Hi Hj. pose proof (inv_shape _ _ _ HI) as Hs. destruct (atom_words _ _ _ Hs) as (_ & Haw & _).
  destruct (ok_block _ _ _ Hs _ _ _ Hi) as (Hk & _ & Hi0 & Hb). pose proof (pow2_pos k ltac:(lia)) as Hp. pose proof (ok_pool _ _ _ Hs) as Hlen.
  destruct (wr (zPool s) (i * aw s + j) v) as [l|] eqn:E; [|rewrite wr_in_bounds in E by nia; done]. exists l. split; [done|].
  assert (Hout : ∀ i' k' f w, B !! i' = Some (k', f) → i' ≠ i → i' * aw s ≤ w < (i' + 2 ^ k') * aw s → l.[w] = (zPool s).[w]).
  { intros i' k' f w Hi' Hne Hw. rewrite (rd_wr _ _ _ _ _ E). destruct (Z.eqb_spec (i * aw s + j) w) as [<-|]; [|done].
    destruct (ok_apart _ _ _ Hs _ _ _ _ _ _ Hi Hi') as [?|?]; [done|nia|nia]. }
  assert (HI' : inv (with_pool l s) B []).
  { apply inv_pool; [done|by eapply wr_length|]. intros i' k' w Hi' Hw. eapply Hout; [exact Hi'|congruence|done]. }
  split; [done|]. split; [split; [done|done|]; intros i' k' w (Hne & Hi')%lookup_delete_Some Hw; by eapply Hout|].
  assert (Hlc : zlen (contents s i k) = 2 ^ k * aw s) by (by eapply contents_length).
  destruct (wr (contents s i k) j v) as [c|] eqn:Ec; [|rewrite wr_in_bounds in Ec by lia; done]. f_equal. apply rd_ext. intros x _.
  rewrite (rd_wr _ _ _ _ _ Ec), (contents_rd _ _ _ _ _ _ x (inv_shape _ _ _ HI') Hi), (contents_rd _ _ _ _ _ _ x Hs Hi).
  cbn [zPool with_pool]. rewrite (rd_wr _ _ _ _ _ E). change (aw (with_pool l s)) with (aw s).
  destruct (Z.eqb_spec j x) as [<-|Hne].
  - rewrite Z.eqb_refl. destruct (Z.leb_spec 0 j), (Z.ltb_spec j (2 ^ k * aw s)); try lia. done.
  - destruct (Z.eqb_spec (i * aw s + j) (i * aw s + x)); [lia|done].
Qed.

(** ** The abstract heap *)

Notation heap := (gmap Z (list Z)).

Definition represents (s : Mem5Global) (B : blocks) (A : heap) : Prop :=
  ∀ p ws, A !! p = Some ws ↔ ∃ i k, p = i * szAtom s ∧ B !! i = Some (k, false) ∧ ws = contents s i k.
Definition implements (s : Mem5Global) (A : heap) : Prop := ∃ B, inv s B [] ∧ represents s B A.

Lemma represents_at s B h A i ws :
  inv s B h → represents s B A → A !! (i * szAtom s) = Some ws ↔ ∃ k, B !! i = Some (k, false) ∧ ws = contents s i k.
Proof.
  intros HI HR. rewrite (HR _ ws). pose proof (inv_unit _ _ _ HI). split; [|intros (k & Hk & ->); by exists i, k].
  intros (i' & k & E & Hi & ->). assert (i' = i) as -> by nia. by exists k.
Qed.

(** The blocks in use but [i] as before. *)
Lemma represents_update s B s' B' A i x :
  inv s B [] → inv s' B' [] → represents s B A → kept s s' (delete i B) → same_blocks B B' i →
  (∀ ws, x = Some ws ↔ ∃ k, B' !! i = Some (k, false) ∧ ws = contents s' i k) →
  represents s' B' (partial_alter (λ _, x) (i * szAtom s) A).
Proof.
  intros HI HI' HR HK HS Hx p ws. pose proof (inv_unit _ _ _ HI) as Hu. pose proof (kp_atom _ _ _ HK) as Ea.
  destruct (decide (p = i * szAtom s)) as [->|Hne].
  - rewrite lookup_partial_alter_eq, Hx, Ea. split; [intros (k & Hk & ->); by exists i, k|].
    intros (i' & k & E & Hi & ->). assert (i' = i) as -> by nia. by exists k.
  - rewrite lookup_partial_alter_ne, (HR p ws), Ea by done. split.
    + intros (j & k & -> & Hj & ->). assert (Hji : j ≠ i) by (intros ->; done). exists j, k. split; [done|]. split; [by apply HS|].
      symmetry. eapply (contents_kept s s' B B' (delete i B)); [apply HI|apply HI'|exact Hj|by apply HS|by rewrite lookup_delete_ne|done].
    + intros (j & k & -> & Hj & ->). assert (Hji : j ≠ i) by (intros ->; done). apply HS in Hj as Hj'; [|done]. exists j, k. split; [done|]. split; [done|].
      eapply (contents_kept s s' B B' (delete i B)); [apply HI|apply HI'|exact Hj'|exact Hj|by rewrite lookup_delete_ne|done].
Qed.

Lemma same_delete s s' B i : kept s s' B → kept s s' (delete i B).
Proof. apply kept_fewer. intros j l (_ & Hj)%lookup_delete_Some. done. Qed.

Lemma represents_insert s B s' B' A i k :
  inv s B [] → inv s' B' [] → represents s B A → kept s s' (delete i B) → same_blocks B B' i → B' !! i = Some (k, false) →
  represents s' B' (<[i * szAtom s := contents s' i k]> A).
Proof.
  intros HI HI' HR HK HS Hi. eapply represents_update; [done..|]. intros ws. rewrite Hi. split; [intros [= <-]; by exists k|].
  by intros (k' & [= <-] & ->).
Qed.

Lemma represents_delete s B s' B' A i :
  inv s B [] → inv s' B' [] → represents s B A → kept s s' (delete i B) → released B B' i → represents s' B' (delete (i * szAtom s) A).
Proof.
  intros HI HI' HR HK HS. eapply represents_update; [done..| |].
  - intros j l Hj. rewrite (HS j l). split; [by intros (_ & ?)|done].
  - intros ws. split; [done|]. intros (k & Hk & _). by apply HS in Hk as (? & _).
Qed.

(** ** Reallocation *)

Lemma copy_words_spec (n : nat) from to l :
  0 ≤ from → from + Z.of_nat n ≤ zlen l → 0 ≤ to → to + Z.of_nat n ≤ zlen l → (from + Z.of_nat n ≤ to ∨ to + Z.of_nat n ≤ from) →
  ∃ l', copy_words n from to l = Some l' ∧ List.length l' = List.length l ∧
    ∀ w, l'.[w] = if (to <=? w) && (w <? to + Z.of_nat n) then l.[w - to + from] else l.[w].
Proof.
  intros H1 H2 H3 H4 H5. unfold copy_words.
  rewrite (proj2 (Z.leb_le _ _) H1), (proj2 (Z.leb_le _ _) H2), (proj2 (Z.leb_le _ _) H3), (proj2 (Z.leb_le _ _) H4). cbn [andb].
  assert (E : (from + Z.of_nat n <=? to) || (to + Z.of_nat n <=? from) = true) by (apply orb_true_iff; rewrite !Z.leb_le; done).
  rewrite E. eexists. split; [done|]. split; [rewrite !length_app, !length_take, !length_drop; lia|].
  intros w. unfold rd. destruct (Z.leb_spec to w); cbn [andb].
  - destruct (Z.ltb_spec w 0); [lia|]. rewrite lookup_app_r by (rewrite length_take; lia). rewrite length_take.
    destruct (Z.ltb_spec w (to + Z.of_nat n)).
    + rewrite lookup_app_l, lookup_take_lt, lookup_drop by (rewrite ?length_take, ?length_drop; lia).
      destruct (Z.ltb_spec (w - to + from) 0); [lia|]. f_equal. lia.
    + rewrite lookup_app_r, lookup_drop by (rewrite ?length_take, ?length_drop; lia). rewrite length_take, length_drop. f_equal. lia.
  - destruct (Z.ltb_spec w 0); [done|]. rewrite lookup_app_l, lookup_take_lt by (rewrite ?length_take; lia). done.
Qed.

(** The old block's words are copied to the start of the new one. *)
Lemma copy_made s B i k j l :
  inv s B [] → B !! i = Some (k, false) → B !! j = Some (l, false) → i ≠ j → k ≤ l →
  ∃ p vs, copy_words (Z.to_nat (2 ^ k * aw s)) (i * aw s) (j * aw s) (zPool s) = Some p ∧ inv (with_pool p s) B [] ∧
    kept s (with_pool p s) (delete j B) ∧ contents (with_pool p s) j l = contents s i k ++ vs.
Proof.
  intros HI Hi Hj Hne Hkl. pose proof (inv_shape _ _ _ HI) as Hs. destruct (atom_words _ _ _ Hs) as (_ & Haw & _).
  destruct (ok_block _ _ _ Hs _ _ _ Hi) as (Hk & _ & Hi0 & Hib), (ok_block _ _ _ Hs _ _ _ Hj) as (Hl & _ & Hj0 & Hjb).
  pose proof (pow2_pos k ltac:(lia)) as Hp. pose proof (Z.pow_le_mono_r 2 k l ltac:(lia) Hkl) as Hpl. pose proof (ok_pool _ _ _ Hs) as Hlen.
  set (n := Z.to_nat (2 ^ k * aw s)). assert (Hn : Z.of_nat n = 2 ^ k * aw s) by (unfold n; nia).
  assert (Hap : i * aw s + Z.of_nat n ≤ j * aw s ∨ j * aw s + 2 ^ l * aw s ≤ i * aw s) by (destruct (ok_apart _ _ _ Hs _ _ _ _ _ _ Hi Hj Hne); [left|right]; nia).
  destruct (copy_words_spec n (i * aw s) (j * aw s) (zPool s)) as (p & E & El & Ew); [nia|nia|nia|nia|nia|].
  assert (Hout : ∀ x m f w, B !! x = Some (m, f) → x ≠ j → x * aw s ≤ w < (x + 2 ^ m) * aw s → p.[w] = (zPool s).[w]).
  { intros x m f w Hx Hxj Hw. rewrite Ew. destruct (Z.leb_spec (j * aw s) w), (Z.ltb_spec w (j * aw s + Z.of_nat n)); cbn [andb]; try done.
    destruct (ok_apart _ _ _ Hs _ _ _ _ _ _ Hj Hx) as [?|?]; [done|nia|nia]. }
  assert (HI' : inv (with_pool p s) B []).
  { apply inv_pool; [done|done|]. intros x m w Hx Hw. eapply Hout; [exact Hx|congruence|done]. }
  exists p, (drop n (contents (with_pool p s) j l)). split; [done|]. split; [done|]. split.
  { split; [done|done|]. intros x m w (Hxj & Hx)%lookup_delete_Some Hw. by eapply Hout. }
  assert (Ec : take n (contents (with_pool p s) j l) = contents s i k).
  { apply rd_ext. intros x Hx. rewrite (contents_rd _ _ _ _ _ _ x Hs Hi). unfold rd at 1. destruct (Z.ltb_spec x 0); [lia|].
    destruct (Z.leb_spec 0 x), (Z.ltb_spec x (2 ^ k * aw s)); cbn [andb]; try lia.
    - rewrite lookup_take_lt by lia. pose proof (contents_rd _ _ _ _ _ _ x (inv_shape _ _ _ HI') Hj) as Ex. unfold rd at 1 in Ex.
      destruct (Z.ltb_spec x 0); [lia|]. rewrite Ex. change (aw (with_pool p s)) with (aw s). cbn [zPool with_pool].
      destruct (Z.leb_spec 0 x), (Z.ltb_spec x (2 ^ l * aw s)); cbn [andb]; [|nia|lia|lia]. rewrite Ew.
      destruct (Z.leb_spec (j * aw s) (j * aw s + x)), (Z.ltb_spec (j * aw s + x) (j * aw s + Z.of_nat n)); cbn [andb]; try lia. f_equal. lia.
    - rewrite lookup_take_ge by lia. done. }
  rewrite <- Ec. symmetry. apply take_drop.
Qed.

Lemma size_made s B i k : inv s B [] → B !! i = Some (k, false) → memsys5Size s (i * szAtom s) = Some (szAtom s * 2 ^ k).
Proof.
  intros HI Hi. destruct (ok_block _ _ _ (inv_shape _ _ _ HI) _ _ _ Hi) as (Hk & _). unfold memsys5Size.
  rewrite Z.div_mul by (pose proof (inv_unit _ _ _ HI); lia). rewrite (ok_ctrl _ _ _ (inv_shape _ _ _ HI) _ _ _ Hi) by set_solver.
  cbn [mbind option_bind]. destruct (ctrl_bits k Hk) as (_ & _ & ->). rewrite Z.shiftl_mul_pow2, Z.mul_1_l by lia. done.
Qed.

(** What the operations of a client do to a map from pointers to contents. *)
Inductive heap_op := Malloc (nBytes : Z) | Free (p : Z) | Realloc (p nBytes : Z) | Store (p j v : Z).

Definition run_op (o : heap_op) (s : Mem5Global) : option (option Z * Mem5Global) :=
  match o with
  | Malloc n => memsys5Malloc n s
  | Free p => s ← memsys5Free p s; Some (None, s)
  | Realloc p n => memsys5Realloc p n s
  | Store p j v => l ← wr (zPool s) (p / 4 + j) v; Some (None, with_pool l s)
  end.

Inductive heap_step (A : heap) : heap_op → option Z → heap → Prop :=
| step_malloc_fails n : heap_step A (Malloc n) None A
| step_malloc n p ws : A !! p = None → 0 < n ≤ 4 * zlen ws → heap_step A (Malloc n) (Some p) (<[p := ws]> A)
| step_free p : heap_step A (Free p) None (delete p A)
| step_realloc_fails p n : heap_step A (Realloc p n) None A
| step_realloc_stays p n ws : A !! p = Some ws → n ≠ 0 → n ≤ 4 * zlen ws → heap_step A (Realloc p n) (Some p) A
| step_realloc_moves p n ws q vs :
    A !! p = Some ws → A !! q = None → 4 * zlen ws < n ≤ 4 * zlen (ws ++ vs) →
    heap_step A (Realloc p n) (Some q) (delete p (<[q := ws ++ vs]> A))
| step_store p j v ws ws' : A !! p = Some ws → wr ws j v = Some ws' → heap_step A (Store p j v) None (<[p := ws']> A).

(** A client uses what it has been given and not freed. *)
Definition valid (A : heap) (o : heap_op) : Prop :=
  match o with
  | Malloc _ => True
  | Free p | Realloc p _ => is_Some (A !! p)
  | Store p j _ => ∃ ws, A !! p = Some ws ∧ 0 ≤ j < zlen ws
  end.

Lemma malloc_refines s B A n :
  inv s B [] → represents s B A → 0 < n →
  ∃ r s' B' A', memsys5Malloc n s = Some (r, s') ∧ inv s' B' [] ∧ allocated n s B r s' B' ∧ represents s' B' A' ∧
    match r with
    | None => A' = A
    | Some p => ∃ i k, p = i * szAtom s ∧ B' !! i = Some (k, false) ∧ A' = <[p := contents s' i k]> A ∧ A !! p = None ∧
        n ≤ szAtom s * 2 ^ k ∧ szAtom s' = szAtom s
    end.
Proof.
  intros HI HR Hn. destruct (malloc_made n s B HI) as (r & s' & B' & E & HI' & HA). unfold memsys5Malloc.
  rewrite (proj2 (Z.ltb_lt _ _) Hn). pose proof HA as HA'. destruct HA as [Hno|i k b s' B' Hn30 Hr Hi Hkb Hi' HS HK].
  - exists None, s, B, A. done.
  - exists (Some (i * szAtom s)), s', B', (<[i * szAtom s := contents s' i k]> A). split; [done|]. split; [done|]. split; [done|].
    split; [eapply represents_insert; try done; by apply same_delete|]. exists i, k. split_and!; [done|done|done| |apply Hr|apply HK].
    destruct (A !! (i * szAtom s)) as [ws|] eqn:Ea; [|done]. apply (represents_at s B [] A i ws HI HR) in Ea as (k' & Hk' & _). congruence.
Qed.

Lemma block_words s B i k : inv s B [] → B !! i = Some (k, false) → 4 * zlen (contents s i k) = szAtom s * 2 ^ k.
Proof.
  intros HI Hi. destruct (atom_words _ _ _ (inv_shape _ _ _ HI)) as (Ea & _). rewrite (contents_length s B [] i k false) by (done || apply HI).
  rewrite Ea at 1. ring.
Qed.

Lemma realloc_refines s B A i k n :
  inv s B [] → represents s B A → B !! i = Some (k, false) →
  ∃ r s' A', memsys5Realloc (i * szAtom s) n s = Some (r, s') ∧ heap_step A (Realloc (i * szAtom s) n) r A' ∧ implements s' A'.
Proof.
  intros HI HR Hi. pose proof (inv_unit _ _ _ HI) as Hu. destruct (ok_block _ _ _ (inv_shape _ _ _ HI) _ _ _ Hi) as (Hk & _ & Hi0 & _).
  destruct (atom_words _ _ _ (inv_shape _ _ _ HI)) as (Ea & Haw & _). pose proof (pow2_pos k ltac:(lia)) as Hp.
  assert (HA : A !! (i * szAtom s) = Some (contents s i k)) by (apply (represents_at s B [] A i _ HI HR); by exists k).
  unfold memsys5Realloc. destruct (Z.eqb_spec n 0) as [->|Hn0]; [exists None, s, A; split_and!; [done|constructor|by exists B]|].
  rewrite (size_made s B i k HI Hi). cbn [mbind option_bind].
  destruct (Z.leb_spec n (szAtom s * 2 ^ k)) as [Hle|Hgt].
  { exists (Some (i * szAtom s)), s, A. split_and!; [done| |by exists B]. apply (step_realloc_stays A _ _ _ HA Hn0). by rewrite (block_words s B). }
  destruct (malloc_refines s B A n HI HR) as (r & s1 & B1 & A1 & -> & HI1 & HL & HR1 & Hr); [nia|]. cbn [mbind option_bind].
  destruct r as [p|]; [|inversion HL; subst; exists None, s1, A; split_and!; [done|constructor|by exists B1]].
  destruct Hr as (j & l & -> & Hj & -> & HN & Hsz & _). inversion HL as [|i' k' b s1' B1' Hn30 Hrnd Hib Hkb Hi' HS HK Eij]. subst.
  assert (i' = j) as -> by nia. assert (Hij : i ≠ j) by congruence. pose proof (kp_atom _ _ _ HK) as Ea1.
  assert (Hi1 : B1 !! i = Some (k, false)) by (by apply HS).
  assert (Hkl : k ≤ l) by (destruct (Z.le_gt_cases k l); [done|]; pose proof (Z.pow_le_mono_r 2 l k); nia).
  assert (Eaw : aw s1 = aw s) by (unfold aw; by rewrite Ea1).
  destruct (copy_made s1 B1 i k j l HI1 Hi1 Hj Hij Hkl) as (pl & vs & E & HI2 & HK2 & Ec). rewrite Eaw in E.
  assert (Ew : szAtom s * 2 ^ k / 4 = 2 ^ k * aw s ∧ ∀ x, x * szAtom s / 4 = x * aw s).
  { rewrite Ea. split; [|intros x]; [replace (4 * aw s * 2 ^ k) with (2 ^ k * aw s * 4) by ring|replace (x * (4 * aw s)) with (x * aw s * 4) by ring]; by rewrite Z.div_mul. }
  destruct Ew as (Ew1 & Ew2). rewrite Ew1, !Ew2, E. cbn [mbind option_bind]. set (s2 := with_pool pl s1) in *.
  destruct (free_made s2 B1 i k HI2 Hi1) as (s3 & B3 & E3 & HI3 & HF & HK3). assert (Ea2 : szAtom s2 = szAtom s) by done. rewrite Ea2 in E3.
  unfold memsys5Free. rewrite E3. cbn [mbind option_bind].
  assert (HR2 : represents s2 B1 (<[j * szAtom s := contents s2 j l]> (<[j * szAtom s := contents s1 j l]> A))).
  { rewrite <- Ea1 at 1. eapply represents_insert; try done. }
  rewrite insert_insert_eq in HR2.
  pose proof (represents_delete s2 B1 s3 B3 _ i HI2 HI3 HR2 HK3 HF) as HR3. rewrite Ea2, Ec in HR3.
  assert (Ek : contents s1 i k = contents s i k) by (apply (contents_kept s s1 B B1 B [] [] i k false false); try done; [apply HI|apply HI1]).
  rewrite Ek in Ec, HR3. eexists _, s3, _. split; [done|]. split; [|by exists B3].
  apply (step_realloc_moves A _ _ _ _ vs HA HN). split; [rewrite (block_words s B); done|].
  rewrite <- Ec, (block_words s2 B1) by done. by rewrite Ea2.
Qed.

Lemma malloc_nothing n s : n ≤ 0 → memsys5Malloc n s = Some (None, s).
Proof. intros Hn. unfold memsys5Malloc. by rewrite (proj2 (Z.ltb_ge _ _) Hn). Qed.

Lemma init_implements nHeap mnReq pool ctrl :
  heap_config nHeap mnReq pool ctrl →
  ∃ s, memsys5Init nHeap mnReq pool ctrl = Some s ∧ implements s ∅ ∧ szAtom s = 2 ^ Z.max 3 (memsys5Log mnReq) ∧ nBlock s = nHeap / (szAtom s + 1).
Proof.
  intros HC. destruct (init_made _ _ _ _ HC) as (s & B & E & HI & Hf & Ea & En). exists s. split; [done|]. split; [|done].
  exists B. split; [done|]. intros p ws. rewrite lookup_empty. split; [done|]. intros (i & k & _ & Hi & _). by apply Hf in Hi.
Qed.

Lemma op_refines s A o :
  implements s A → valid A o → ∃ r s' A', run_op o s = Some (r, s') ∧ heap_step A o r A' ∧ implements s' A'.
Proof.
  intros (B & HI & HR) Hv. destruct o as [n|p|p n|p j v]; cbn [run_op valid] in *.
  - destruct (Z.le_gt_cases n 0) as [Hn|Hn]; [rewrite malloc_nothing by done; exists None, s, A; split_and!; [done|constructor|by exists B]|].
    destruct (malloc_refines s B A n HI HR) as (r & s1 & B1 & A1 & -> & HI1 & _ & HR1 & Hr); [lia|].
    exists r, s1, A1. split; [done|]. split; [|by exists B1]. destruct r as [p|]; [|subst; constructor].
    destruct Hr as (i & k & _ & Hi & -> & HN & Hsz & Ea). constructor; [done|]. rewrite (block_words s1 B1), Ea by done. lia.
  - destruct Hv as (ws & Hp). apply HR in Hp as (i & k & -> & Hi & ->). destruct (free_made s B i k HI Hi) as (s' & B' & E & HI' & HF & HK).
    unfold memsys5Free. rewrite E. cbn [mbind option_bind]. eexists _, s', _. split; [done|]. split; [constructor|]. exists B'. split; [done|].
    by eapply represents_delete.
  - destruct Hv as (ws & Hp). apply HR in Hp as (i & k & -> & Hi & ->). by eapply realloc_refines.
  - destruct Hv as (ws & Hp & Hj). pose proof Hp as Hp'. apply HR in Hp as (i & k & -> & Hi & ->).
    destruct (atom_words _ _ _ (inv_shape _ _ _ HI)) as (Ea & _ & _). rewrite (contents_length s B [] i k false) in Hj by (done || apply HI).
    destruct (store_made s B i k j v HI Hi Hj) as (l & E & HI' & HK & Ec).
    replace (i * szAtom s / 4) with (i * aw s) by (rewrite Ea; replace (i * (4 * aw s)) with (i * aw s * 4) by ring; by rewrite Z.div_mul).
    rewrite E. cbn [mbind option_bind]. eexists _, _, _. split; [done|]. split; [by eapply step_store|]. exists B. split; [done|].
    by eapply represents_insert.
Qed.

(** ** Sizes *)

Lemma round_loop_spec a n fuel : ∀ k,
  3 ≤ a → 1 ≤ k → n ≤ 2 ^ 28 → 2 ^ a * 2 ^ (k - 2) < n → 30 ≤ a + k + 2 * Z.of_nat fuel →
  ∃ k', round_loop fuel (2 ^ a * 2 ^ k) n = Some (2 ^ a * 2 ^ k') ∧ 1 ≤ k' ∧ 2 ^ a * 2 ^ (k' - 2) < n ≤ 2 ^ a * 2 ^ k'.
Proof.
  induction fuel as [|fuel IH]; intros k Ha Hk Hn Hlow Hf; cbn [round_loop]; destruct (Z.ltb_spec (2 ^ a * 2 ^ k) n) as [Hlt|Hge].
  - exfalso. rewrite <- Z.pow_add_r in Hlt by lia. pose proof (Z.pow_le_mono_r 2 28 (a + k)). lia.
  - by exists k.
  - assert (E : 2 ^ a * 2 ^ k * 4 = 2 ^ a * 2 ^ (k + 2)) by (rewrite (Z.pow_add_r 2 k 2) by lia; ring).
    destruct (Z.ltb_spec (2 ^ a * 2 ^ k * 4) (2 ^ 31)); [|lia]. rewrite E. apply IH; [done|lia|done| |lia]. by rewrite Z.add_simpl_r.
  - by exists k.
Qed.

Lemma roundup_rounded s B h n :
  shape s B h → n ≤ 2 ^ 30 → ∃ k, rounded s n k ∧ memsys5Roundup s n = Some (szAtom s * 2 ^ k).
Proof.
  intros [(a & Ha & E) _ _ _ _ _ _ _] Hn. unfold memsys5Roundup, rounded. rewrite E.
  change 0x10000000 with (2 ^ 28). change 0x40000000 with (2 ^ 30). change 0x20000000 with (2 ^ 29).
  assert (Hlow : ∀ k, 1 ≤ k → 2 ^ a * 2 ^ (k - 1) < n → k ≤ 27).
  { intros k Hk Hlt. rewrite <- Z.pow_add_r in Hlt by lia. destruct (Z.le_gt_cases k 27); [done|]. pose proof (Z.pow_le_mono_r 2 30 (a + (k - 1))). lia. }
  assert (Hbig : ∀ m, m = 29 ∨ m = 30 → 2 ^ (m - 1) < n → n ≤ 2 ^ m → ∃ k, (0 ≤ k ≤ 27 ∧ n ≤ 2 ^ a * 2 ^ k ∧ (0 < k → 2 ^ a * 2 ^ (k - 1) < n)) ∧ Some (2 ^ m) = Some (2 ^ a * 2 ^ k)).
  { intros m Hm H1 H2. exists (m - a). rewrite <- !Z.pow_add_r by lia. replace (a + (m - a)) with m by lia. replace (a + (m - a - 1)) with (m - 1) by lia.
    split; [split; [lia|done]|done]. }
  pose proof (pow2_pos a ltac:(lia)). destruct (Z.leb_spec n (2 ^ a * 2)) as [H2|H2].
  - destruct (Z.leb_spec n (2 ^ a)); [exists 0|exists 1]; (split; [split; [lia|]|]); try (f_equal; lia); (split; [lia|intros _; change (1 - 1) with 0; lia]).
  - destruct (Z.ltb_spec (2 ^ 28) n) as [H28|H28].
    + destruct (Z.ltb_spec (2 ^ 30) n); [lia|]. destruct (Z.ltb_spec (2 ^ 29) n); apply Hbig; auto.
    + destruct (round_loop_spec a n 16 3) as (k & Ek & Hk & Hr); [lia|lia|done|done|lia|]. change (2 ^ 3) with 8 in Ek. rewrite Ek. cbn [mbind option_bind].
      assert (Eh : 2 ^ a * 2 ^ k / 2 = 2 ^ a * 2 ^ (k - 1)).
      { replace k with (k - 1 + 1) at 1 by lia. rewrite Z.pow_add_r, Z.pow_1_r, Z.mul_assoc by lia. by apply Z.div_mul. }
      rewrite Eh. destruct (Z.leb_spec n (2 ^ a * 2 ^ (k - 1))).
      * exists (k - 1). split; [|done]. replace (k - 1 - 1) with (k - 2) by lia. split; [|split; [lia|intros _; lia]].
        destruct (Z.eq_dec k 1) as [->|]; [lia|]. split; [lia|]. apply Hlow; [lia|]. replace (k - 1 - 1) with (k - 2) by lia. lia.
      * exists k. split; [|done]. split; [split; [lia|apply Hlow; [done|lia]]|]. split; [lia|intros _; lia].
Qed.

(** ** Properties *)

(** C8: The allocator implements a heap.  Whenever the state stands for a map from pointers to
    contents, each operation of a client that uses what it was given and has not freed ends,
    does what the map says (a new block is not one that is in use and is large enough, a
    reallocation keeps the contents, a store changes one word of one block, a release forgets the block)
    and gives a state that stands for the new map. *)
Theorem mem5_refines s A o :
  implements s A → valid A o → ∃ r s' A', run_op o s = Some (r, s') ∧ heap_step A o r A' ∧ implements s' A'.
Proof. apply op_refines. Qed.

(** An aligned run of atoms that no block in use meets. *)
Definition vacant (s : Mem5Global) (A : heap) (i k : Z) : Prop :=
  (2 ^ k | i) ∧ 0 ≤ i ∧ i + 2 ^ k ≤ nBlock s ∧ ∀ p ws, A !! p = Some ws → p + 4 * zlen ws ≤ i * szAtom s ∨ (i + 2 ^ k) * szAtom s ≤ p.

Lemma vacant_run s B A i k : inv s B [] → represents s B A → vacant s A i k ↔ free_run s B i k.
Proof.
  intros HI HR. pose proof (inv_unit _ _ _ HI). unfold vacant, free_run. do 3 (f_equiv; []). split.
  - intros Hv j l Hj. specialize (Hv (j * szAtom s) (contents s j l)). rewrite (block_words s B) in Hv by done.
    destruct Hv as [?|?]; [apply HR; by exists j, l|left; nia|right; nia].
  - intros Hu p ws Hp. apply HR in Hp as (j & l & -> & Hj & ->). rewrite (block_words s B) by done. destruct (Hu j l Hj); [left; nia|right; nia].
Qed.

(** C9: An allocation succeeds exactly when the rounded size is available: it does not exceed 2^30 bytes and some aligned run of that
    size meets no block in use, whatever was allocated and freed before.  The free halves
    of a block never stay apart. *)
Theorem malloc_available s A n :
  implements s A → 0 < n →
  (∃ p s', memsys5Malloc n s = Some (Some p, s')) ↔ n ≤ 2 ^ 30 ∧ ∃ i k, rounded s n k ∧ vacant s A i k.
Proof.
  intros (B & HI & HR) Hn. destruct (malloc_refines s B A n HI HR Hn) as (r & s' & B' & A' & E & _ & HA & _).
  destruct HA as [Hno|i k b s' B' Hn30 Hr Hi Hkb Hi' HS HK]; rewrite E; split.
  - by intros (p & s' & [=]).
  - intros (Hn30 & i & k & Hr & Hv). exfalso. destruct Hno as [?|(k' & Hr' & Hno)]; [lia|].
    pose proof (rounded_unique s n k k' (inv_unit _ _ _ HI) Hr Hr') as ->. destruct Hr as (Hk & _).
    apply (vacant_run s B A) in Hv; [|done|done]. destruct (run_block s B [] i k' HI ltac:(unfold LOGMAX; lia) Hv) as (j & l & Hj & Hl & _). by eapply Hno.
  - intros _. split; [done|]. exists i, k. split; [done|]. apply (vacant_run s B A); [done|done|].
    apply (block_run s B [] i b k HI Hi). destruct Hr as (Hk & _). lia.
  - intros _. by exists (i * szAtom s), s'.
Qed.

(** The blocks in use lie in the pool and apart from one another, each at a multiple of its size, which [memsys5Size]
    reports and which is a power of two of atoms. *)
Theorem blocks_apart s A p ws :
  implements s A → A !! p = Some ws →
  memsys5Size s p = Some (4 * zlen ws) ∧ (4 * zlen ws | p) ∧ 0 ≤ p ∧ p + 4 * zlen ws ≤ nBlock s * szAtom s ∧
  (∃ k, 0 ≤ k ∧ 4 * zlen ws = szAtom s * 2 ^ k) ∧
  ∀ q vs, A !! q = Some vs → p ≠ q → p + 4 * zlen ws ≤ q ∨ q + 4 * zlen vs ≤ p.
Proof.
  intros (B & HI & HR) Hp. apply HR in Hp as (i & k & -> & Hi & ->). pose proof (inv_unit _ _ _ HI) as Hu.
  rewrite (block_words s B), (size_made s B) with (k := k) by done. destruct (ok_block _ _ _ (inv_shape _ _ _ HI) _ _ _ Hi) as (Hk & (c & Hc) & Hi0 & Hb).
  split; [done|]. split; [exists c; rewrite Hc; ring|]. split; [nia|]. split; [nia|]. split; [exists k; split; [lia|done]|].
  intros q vs Hq Hne. apply HR in Hq as (j & l & -> & Hj & ->). rewrite (block_words s B) by done.
  destruct (ok_apart _ _ _ (inv_shape _ _ _ HI) _ _ _ _ _ _ Hi Hj) as [?|?]; [by intros ->|left; nia|right; nia].
Qed.

(** [memsys5Roundup] gives the size that an allocation has: the least power of two of atoms that holds
    the request, or 0 above 2^30 bytes; the block that [memsys5Malloc] gives has that size. *)
Theorem roundup_size s A n :
  implements s A →
  (n ≤ 2 ^ 30 → ∃ k, rounded s n k ∧ memsys5Roundup s n = Some (szAtom s * 2 ^ k)) ∧
  (2 ^ 30 < n → memsys5Roundup s n = Some 0) ∧
  ∀ p s', memsys5Malloc n s = Some (Some p, s') → memsys5Size s' p = memsys5Roundup s n.
Proof.
  intros (B & HI & HR). pose proof (roundup_rounded s B [] n (inv_shape _ _ _ HI)) as Hru. split; [done|]. split.
  - intros Hn. unfold memsys5Roundup. destruct (ok_atom _ _ _ (inv_shape _ _ _ HI)) as (a & Ha & ->).
    pose proof (Z.pow_le_mono_r 2 a 12). destruct (Z.leb_spec n (2 ^ a * 2)); [lia|].
    change 0x10000000 with (2 ^ 28). change 0x40000000 with (2 ^ 30). by destruct (Z.ltb_spec (2 ^ 28) n), (Z.ltb_spec (2 ^ 30) n); try lia.
  - intros p s' E. destruct (Z.le_gt_cases n 0) as [Hn|Hn]; [by rewrite malloc_nothing in E|].
    destruct (malloc_refines s B A n HI HR) as (r & s1 & B1 & A1 & E1 & HI1 & HA & _); [lia|]. rewrite E in E1. injection E1 as <- <-.
    inversion HA as [|i k b s2 B2 Hn30 Hr Hi Hkb Hi' HS HK]. subst. destruct (Hru Hn30) as (k' & Hr' & ->).
    rewrite (rounded_unique s n k' k (inv_unit _ _ _ HI) Hr' Hr), <- (kp_atom _ _ _ HK). by apply (size_made s' B1).
Qed.

(** What no operation changes: the size of an atom and the number of atoms. *)
Definition same_atoms (s s' : Mem5Global) : Prop := szAtom s' = szAtom s ∧ nBlock s' = nBlock s.

(** A chain of binds is taken apart; what is known of its steps gives the equations. *)
Ltac atoms_step :=
  match goal with
  | H : mbind _ _ = Some _ |- _ => apply bind_Some in H as (? & ? & H)
  | H : (if ?c then _ else _) = Some _ |- _ => destruct c
  | H : None = Some _ |- _ => discriminate H
  | H : Some _ = Some _ |- _ => injection H; clear H; intros; subst
  | p : (_ * _)%type |- _ => destruct p
  | p : option Z, H : match ?p with _ => _ end = Some _ |- _ => destruct p
  end.
Ltac atoms_with tac := cbv zeta in *; repeat atoms_step; repeat match goal with H : _ = Some _ |- _ => tac H end; unfold same_atoms in *; cbn in *; intuition congruence.

Lemma set_freelist_atoms i v s s' : set_freelist i v s = Some s' → same_atoms s s'.
Proof. unfold set_freelist. intros H. atoms_with fail. Qed.
Lemma set_ctrl_atoms i v s s' : set_ctrl i v s = Some s' → same_atoms s s'.
Proof. unfold set_ctrl. intros H. atoms_with fail. Qed.
Lemma store_next_atoms i v s s' : store_next i v s = Some s' → same_atoms s s'.
Proof. unfold store_next. intros H. atoms_with fail. Qed.
Lemma store_prev_atoms i v s s' : store_prev i v s = Some s' → same_atoms s s'.
Proof. unfold store_prev. intros H. atoms_with fail. Qed.
Ltac store_atoms H := first [apply set_freelist_atoms in H|apply set_ctrl_atoms in H|apply store_next_atoms in H|apply store_prev_atoms in H].

Lemma Unlink_atoms i l s s' : memsys5Unlink i l s = Some s' → same_atoms s s'.
Proof. unfold memsys5Unlink. intros H. atoms_with store_atoms. Qed.
Lemma Link_atoms i l s s' : memsys5Link i l s = Some s' → same_atoms s s'.
Proof. unfold memsys5Link. intros H. atoms_with store_atoms. Qed.
Ltac link_atoms H := first [store_atoms H|apply Unlink_atoms in H|apply Link_atoms in H].

Lemma split_loop_atoms fuel : ∀ i l b s s', split_loop fuel i l b s = Some s' → same_atoms s s'.
Proof. induction fuel as [|fuel IH]; intros i l b s s' H; cbn [split_loop] in H; atoms_with ltac:(fun H => first [link_atoms H|apply IH in H]). Qed.
Lemma buddy_loop_atoms fuel : ∀ i l z s i' l' s', buddy_loop fuel i l z s = Some (i', l', s') → same_atoms s s'.
Proof. induction fuel as [|fuel IH]; intros i l z s i' l' s' H; cbn [buddy_loop] in H; atoms_with ltac:(fun H => first [link_atoms H|apply IH in H]). Qed.
Ltac loop_atoms H := first [link_atoms H|apply split_loop_atoms in H|apply buddy_loop_atoms in H].

Lemma Malloc_atoms n s r s' : memsys5Malloc n s = Some (r, s') → same_atoms s s'.
Proof. unfold memsys5Malloc, memsys5MallocUnsafe. intros H. atoms_with loop_atoms. Qed.
Lemma Free_atoms p s s' : memsys5Free p s = Some s' → same_atoms s s'.
Proof. unfold memsys5Free, memsys5FreeUnsafe. intros H. atoms_with loop_atoms. Qed.

Lemma op_atoms o s r s' : run_op o s = Some (r, s') → same_atoms s s'.
Proof. destruct o; cbn [run_op]; unfold memsys5Realloc; intros H; atoms_with ltac:(fun H => first [apply Malloc_atoms in H|apply Free_atoms in H]). Qed.

(** The states that a client brings about after initialization. *)
Inductive reachable (nHeap mnReq : Z) (pool ctrl : list Z) : Mem5Global → Prop :=
| reach_init s : memsys5Init nHeap mnReq pool ctrl = Some s → reachable nHeap mnReq pool ctrl s
| reach_op s A o r s' :
    reachable nHeap mnReq pool ctrl s → implements s A → valid A o → run_op o s = Some (r, s') → reachable nHeap mnReq pool ctrl s'.

(** C10: With a configuration that [sqlite3_config] admits, initialization succeeds, with the empty heap, atoms of the size that [memsys5Log] gives
    but at least eight bytes and as many of them as fit with their control bytes; and whatever a client then does the state stands for a map
    from pointers to contents, with the atom and the number of atoms it had at first. *)
Theorem mem5_reachable nHeap mnReq pool ctrl :
  heap_config nHeap mnReq pool ctrl →
  (∃ s, memsys5Init nHeap mnReq pool ctrl = Some s ∧ implements s ∅) ∧
  ∀ s, reachable nHeap mnReq pool ctrl s → (∃ A, implements s A) ∧ szAtom s = 2 ^ Z.max 3 (memsys5Log mnReq) ∧ nBlock s = nHeap / (szAtom s + 1).
Proof.
  intros HC. destruct (init_implements _ _ _ _ HC) as (s0 & E0 & H0 & Ha & Hn). split; [by exists s0|].
  induction 1 as [s E|s A o r s' _ IH HA Hv E]; [rewrite E0 in E; injection E as <-; split; [by exists ∅|done]|].
  destruct (op_refines s A o HA Hv) as (r' & s1 & A' & E1 & _ & HA'). pose proof E as E'. rewrite E in E1. injection E1 as <- <-. split; [by exists A'|].
  destruct (op_atoms _ _ _ _ E') as [-> ->]. apply IH.
Qed.

Lemma small_config : heap_config 135 1 (replicate 30 0) (replicate 15 0).
Proof. split; [lia|]. split; [lia|]. vm_compute. split; [done|]. intros [=]. Qed.

Lemma mem5_refines_witness :
  ∃ s, small_pool = Some s ∧ ∃ r s' A', run_op (Malloc 20) s = Some (r, s') ∧ heap_step ∅ (Malloc 20) r A' ∧ implements s' A'.
Proof.
  destruct (init_implements _ _ _ _ small_config) as (s & E & H & _). exists s. split; [exact E|].
  apply (mem5_refines s ∅ (Malloc 20) H). exact I.
Defined.

Lemma mem5_reachable_witness :
  (∃ s, small_pool = Some s ∧ implements s ∅) ∧ 
    ∀ s, reachable 135 1 (replicate 30 0) (replicate 15 0) s → (∃ A, implements s A) ∧ szAtom s = 2 ^ Z.max 3 (memsys5Log 1) ∧ nBlock s = 135 / (szAtom s + 1).
Proof. apply (mem5_reachable 135 1 (replicate 30 0) (replicate 15 0) small_config). Defined.

Lemma malloc_available_witness :
  ∃ s, small_pool = Some s ∧
    ((∃ p s', memsys5Malloc 64 s = Some (Some p, s')) ↔ 64 ≤ 2 ^ 30 ∧ ∃ i k, rounded s 64 k ∧ vacant s ∅ i k).
Proof.
  destruct (init_implements _ _ _ _ small_config) as (s & E & H & _). exists s. split; [exact E|].
  apply (malloc_available s ∅ 64 H). lia.
Defined.

(** A state with a block in use. *)
Lemma small_block : ∃ s A ws, implements s A ∧ A !! 64 = Some ws ∧ 20 ≤ 4 * zlen ws.
Proof.
  destruct (init_implements _ _ _ _ small_config) as (s & E & H & _).
  destruct (op_refines s ∅ (Malloc 20) H I) as (r & s' & A' & E' & HS & H').
  assert (Hr : (s ← small_pool; '(p, _) ← memsys5Malloc 20 s; Some p) = Some (Some 64)) by (vm_compute; reflexivity).
  unfold small_pool in Hr. rewrite E in Hr. cbn [mbind option_bind] in Hr. cbn [run_op] in E'. rewrite E' in Hr. cbn [mbind option_bind] in Hr.
  injection Hr as ->. inversion HS as [|n p ws HN Hws| | | | |]. subst. exists s', (<[64 := ws]> ∅), ws.
  split; [done|]. split; [apply lookup_insert_eq|lia].
Qed.

Lemma blocks_apart_witness :
  ∃ s A ws, implements s A ∧ A !! 64 = Some ws ∧ memsys5Size s 64 = Some (4 * zlen ws) ∧ (4 * zlen ws | 64) ∧ 20 ≤ 4 * zlen ws.
Proof.
  destruct small_block as (s & A & ws & H & Hp & Hw). exists s, A, ws.
  destruct (blocks_apart s A 64 ws H Hp) as (H1 & H2 & _). auto.
Defined.

Lemma roundup_size_witness : ∃ s, small_pool = Some s ∧ ∃ k, rounded s 20 k ∧ memsys5Roundup s 20 = Some (szAtom s * 2 ^ k).
Proof.
  destruct (init_implements _ _ _ _ small_config) as (s & E & H & _). exists s. split; [exact E|].
  apply (roundup_size s ∅ 20 H). lia.
Defined.
