(* ===== verification/Wal.v ===== *)
(** The index of the write-ahead log, src/wal.c: the pages of the wal-index with their page
    numbers and hash tables, appending, looking up, cutting back, savepoints.  Proofs are
    in WalProofs.v; the frames themselves are in WalFrame.v. *)
From S2P Require Import Prelude.

(** A page of the wal-index is 4096 words and 8192 slots of 16 bits.  A pointer to
    a page number or to a hash table is the number of the page it is on, so every
    write through a pointer goes to the page that [apWiData] points to. *)

Definition HASHTABLE_NPAGE : Z := 4096.
Definition HASHTABLE_HASH_1 : Z := 383.
Definition HASHTABLE_NSLOT : Z := HASHTABLE_NPAGE * 2.
Definition WALINDEX_HDR_SIZE : Z := 136.
Definition HASHTABLE_NPAGE_ONE : Z := HASHTABLE_NPAGE - WALINDEX_HDR_SIZE / 4.
Definition WAL_HEAPMEMORY_MODE : Z := 2.
Definition WAL_SHM_RDONLY : Z := 2.

Record wipage := mkWipage { words : list Z; slots : list Z }.
Definition zero_page : wipage :=
  mkWipage (replicate (Z.to_nat HASHTABLE_NPAGE) 0) (replicate (Z.to_nat HASHTABLE_NSLOT) 0).

(** The header of the wal-index; [aSalt] are the eight bytes of the two salts. *)
Record WalIndexHdr := mkHdr {
  iVersion : Z; unused : Z; iChange : Z; isInit : Z; bigEndCksum : Z; hdr_szPage : Z; mxFrame : Z; nPage : Z;
  aFrameCksum : Z * Z; aSalt : list Z; aCksum : Z * Z }.
Record Wal := mkWal {
  apWiData : list (option wipage); szPage : Z; readLock : Z; exclusiveMode : Z; writeLock : bool; ckptLock : Z;
  readOnly : Z; bShmUnreliable : bool; hdr : WalIndexHdr; minFrame : Z; iReCksum : Z; nCkpt : Z }.

Definition with_index l w := mkWal l (szPage w) (readLock w) (exclusiveMode w) (writeLock w) (ckptLock w) (readOnly w)
  (bShmUnreliable w) (hdr w) (minFrame w) (iReCksum w) (nCkpt w).
Definition with_readOnly x w := mkWal (apWiData w) (szPage w) (readLock w) (exclusiveMode w) (writeLock w) (ckptLock w) x
  (bShmUnreliable w) (hdr w) (minFrame w) (iReCksum w) (nCkpt w).
Definition with_hdr h w := mkWal (apWiData w) (szPage w) (readLock w) (exclusiveMode w) (writeLock w) (ckptLock w) (readOnly w)
  (bShmUnreliable w) h (minFrame w) (iReCksum w) (nCkpt w).
Definition with_iReCksum x w := mkWal (apWiData w) (szPage w) (readLock w) (exclusiveMode w) (writeLock w) (ckptLock w) (readOnly w)
  (bShmUnreliable w) (hdr w) (minFrame w) x (nCkpt w).
Definition with_mxFrame x h := mkHdr (iVersion h) (unused h) (iChange h) (isInit h) (bigEndCksum h) (hdr_szPage h) x (nPage h)
  (aFrameCksum h) (aSalt h) (aCksum h).
Definition with_cksum x h := mkHdr (iVersion h) (unused h) (iChange h) (isInit h) (bigEndCksum h) (hdr_szPage h) (mxFrame h) (nPage h)
  x (aSalt h) (aCksum h).

Definition index_page (w : Wal) (iPage : Z) : option wipage := p ← (apWiData w).[iPage]; p.
Definition set_page (iPage : Z) (p : option wipage) (w : Wal) : Wal := with_index (<[Z.to_nat iPage := p]> (apWiData w)) w.

Definition walHash (iPage : Z) : Z := Z.land (u32 (iPage * HASHTABLE_HASH_1)) (HASHTABLE_NSLOT - 1).
Definition walNextHash (iPriorHash : Z) : Z := Z.land (iPriorHash + 1) (HASHTABLE_NSLOT - 1).
(** Frame numbers are not cut to 32 bits, here and in recovery ([iLastFrame] of walIndexRecover): that matters for a log of 2^32 frames only, and the 32 bits of
    [mxFrame] cannot count these. *)
Definition walFramePage (iFrame : Z) : Z := (iFrame + HASHTABLE_NPAGE - HASHTABLE_NPAGE_ONE - 1) / HASHTABLE_NPAGE.

(** [aPgno] points to word [hl_off] of page [hl_page], [aHash] to the slots of that page. *)
Record WalHashLoc := mkLoc { hl_page : Z; hl_off : Z; iZero : Z }.
Definition get_pgno (w : Wal) (l : WalHashLoc) (k : Z) : option Z := p ← index_page w (hl_page l); (words p).[hl_off l + k].
Definition set_pgno (w : Wal) (l : WalHashLoc) (k v : Z) : option Wal :=
  p ← index_page w (hl_page l); x ← wr (words p) (hl_off l + k) v; Some (set_page (hl_page l) (Some (mkWipage x (slots p))) w).
Definition get_slot (w : Wal) (l : WalHashLoc) (k : Z) : option Z := p ← index_page w (hl_page l); (slots p).[k].
Definition set_slot (w : Wal) (l : WalHashLoc) (k v : Z) : option Wal :=
  p ← index_page w (hl_page l); x ← wr (slots p) k (u16 v); Some (set_page (hl_page l) (Some (mkWipage (words p) x)) w).

(** [memset] of the page numbers from [k] on. *)
Definition zero_from (k : Z) (l : list Z) : list Z := take (Z.to_nat k) l ++ replicate (length l - Z.to_nat k) 0.

Section shm.
(** [sqlite3OsShmMap] for a page and whether it may be created: the result code and the page. *)
Context (xShmMap : Z → bool → Z * option wipage).

(** [apWiData] is enlarged if required. *)
Definition grow_index (iPage : Z) (w : Wal) (m : mem) : bool * Wal * mem :=
  if zlen (apWiData w) <=? iPage then
    let '(ok, m) := sqlite3Malloc m in
    if ok then (true, with_index (apWiData w ++ replicate (Z.to_nat (iPage + 1) - length (apWiData w)) None) w,
                if zlen (apWiData w) =? 0 then m else sqlite3_free m)
    else (false, w, m)
  else (true, w, m).

Definition walIndexPageRealloc (iPage : Z) (w : Wal) (m : mem) : Z * Wal * mem :=
  let '(ok, w, m) := grow_index iPage w m in
  if negb ok then (SQLITE_NOMEM, w, m)
  else if exclusiveMode w =? WAL_HEAPMEMORY_MODE then
    let '(ok, m) := sqlite3Malloc m in
    if ok then (SQLITE_OK, set_page iPage (Some zero_page) w, m) else (SQLITE_NOMEM, w, m)
  else
    let '(rc, p) := xShmMap iPage (writeLock w) in
    let w := set_page iPage p w in
    if rc =? SQLITE_OK then (SQLITE_OK, w, m)
    else if Z.land rc 0xff =? SQLITE_READONLY then
      (if rc =? SQLITE_READONLY then SQLITE_OK else rc, with_readOnly (Z.lor (readOnly w) WAL_SHM_RDONLY) w, m)
    else (rc, w, m).

Definition walIndexPage (iPage : Z) (w : Wal) (m : mem) : Z * Wal * mem :=
  match index_page w iPage with
  | None => walIndexPageRealloc iPage w m
  | Some _ => (SQLITE_OK, w, m)
  end.

Definition walHashGet (iHash : Z) (w : Wal) (m : mem) : Z * option WalHashLoc * Wal * mem :=
  let '(rc, w, m) := walIndexPage iHash w m in
  match index_page w iHash with
  | Some _ =>
      (rc, Some (if iHash =? 0 then mkLoc 0 (WALINDEX_HDR_SIZE / 4) 0
                 else mkLoc iHash 0 (HASHTABLE_NPAGE_ONE + (iHash - 1) * HASHTABLE_NPAGE)), w, m)
  | None => (if rc =? SQLITE_OK then SQLITE_ERROR else rc, None, w, m)
  end.

Definition walFramePgno (w : Wal) (iFrame : Z) : option Z :=
  let iHash := walFramePage iFrame in
  p ← index_page w iHash;
  if iHash =? 0 then (words p).[WALINDEX_HDR_SIZE / 4 + iFrame - 1]
  else (words p).[u32 (iFrame - 1 - HASHTABLE_NPAGE_ONE) mod HASHTABLE_NPAGE].

Definition walCleanupHash (w : Wal) (m : mem) : option (Wal * mem) :=
  if mxFrame (hdr w) =? 0 then Some (w, m)
  else
    let '(rc, loc, w, m) := walHashGet (walFramePage (mxFrame (hdr w))) w m in
    if negb (rc =? SQLITE_OK) then Some (w, m)
    else
      l ← loc;
      let iLimit := mxFrame (hdr w) - iZero l in
      p ← index_page w (hl_page l);
      if (0 <=? hl_off l + iLimit) && (hl_off l + iLimit <=? zlen (words p)) then
        Some (set_page (hl_page l)
          (Some (mkWipage (zero_from (hl_off l + iLimit) (words p)) (map (λ x, if iLimit <? x then 0 else x) (slots p)))) w, m)
      else None.

(** The first empty slot; [None] inside when there were too many collisions. *)
Fixpoint append_loop (nCollide : nat) (aHash : list Z) (iKey : Z) : option (option Z) :=
  h ← aHash.[iKey];
  if h =? 0 then Some (Some iKey)
  else match nCollide with O => Some None | S nCollide => append_loop nCollide aHash (walNextHash iKey) end.

Definition walIndexAppend (iFrame iPage : Z) (w : Wal) (m : mem) : option (Z * Wal * mem) :=
  let '(rc, loc, w, m) := walHashGet (walFramePage iFrame) w m in
  if negb (rc =? SQLITE_OK) then Some (rc, w, m)
  else
    l ← loc;
    let idx := iFrame - iZero l in
    p ← index_page w (hl_page l);
    let w := if idx =? 1 then
        set_page (hl_page l) (Some (mkWipage (zero_from (hl_off l) (words p)) (replicate (Z.to_nat HASHTABLE_NSLOT) 0))) w
      else w in
    old ← get_pgno w l (idx - 1);
    '(w, m) ← (if negb (old =? 0) then walCleanupHash w m else Some (w, m));
    p ← index_page w (hl_page l);
    r ← append_loop (Z.to_nat idx) (slots p) (walHash iPage);
    match r with
    | None => Some (SQLITE_CORRUPT, w, m)
    | Some iKey =>
        w ← set_pgno w l (Z.land (idx - 1) (HASHTABLE_NPAGE - 1)) iPage;
        w ← set_slot w l iKey idx;
        Some (SQLITE_OK, w, m)
    end.

(** The walk over one hash table: the result code and the frame found. *)
Fixpoint find_loop (nCollide : nat) (w : Wal) (l : WalHashLoc) (pgno iLast iKey iRead : Z) : option (Z * Z) :=
  iH ← get_slot w l iKey;
  if iH =? 0 then Some (SQLITE_OK, iRead)
  else
    let iFrame := iH + iZero l in
    x ← (if (iFrame <=? iLast) && (minFrame w <=? iFrame) then get_pgno w l (Z.land (iH - 1) (HASHTABLE_NPAGE - 1)) else Some 0);
    let iRead := if (iFrame <=? iLast) && (minFrame w <=? iFrame) && (x =? pgno) then iFrame else iRead in
    match nCollide with
    | O => Some (SQLITE_CORRUPT, 0)
    | S nCollide => find_loop nCollide w l pgno iLast (walNextHash iKey) iRead
    end.

(** The hash tables from [iHash] down to the one of [minFrame], [n] of them, with [nCollide] collisions in each. *)
Fixpoint tables_loop (nCollide n : nat) (iHash pgno iLast : Z) (w : Wal) (m : mem) : option (Z * Z * Wal * mem) :=
  match n with
  | O => Some (SQLITE_OK, 0, w, m)
  | S n =>
      let '(rc, loc, w, m) := walHashGet iHash w m in
      if negb (rc =? SQLITE_OK) then Some (rc, 0, w, m)
      else
        l ← loc;
        '(rc, iRead) ← find_loop nCollide w l pgno iLast (walHash pgno) 0;
        if negb (rc =? SQLITE_OK) then Some (rc, iRead, w, m)
        else if iRead =? 0 then tables_loop nCollide n (iHash - 1) pgno iLast w m else Some (SQLITE_OK, iRead, w, m)
  end.

Definition walFindFrame (pgno : Z) (w : Wal) (m : mem) : option (Z * Z * Wal * mem) :=
  let iLast := mxFrame (hdr w) in
  if (iLast =? 0) || ((readLock w =? 0) && negb (bShmUnreliable w)) then Some (SQLITE_OK, 0, w, m)
  else
    let iMinHash := walFramePage (minFrame w) in
    tables_loop (Z.to_nat HASHTABLE_NSLOT) (Z.to_nat (walFramePage iLast - iMinHash + 1)) (walFramePage iLast) pgno iLast w m.
Definition sqlite3WalFindFrame := walFindFrame.

(** The position of the log: [mxFrame], the checksums, the number of the checkpoint. *)
Definition sqlite3WalSavepoint (w : Wal) : Z * (Z * Z) * Z := (mxFrame (hdr w), aFrameCksum (hdr w), nCkpt w).
Definition sqlite3WalSavepointUndo (aWalData : Z * (Z * Z) * Z) (w : Wal) (m : mem) : option (Z * (Z * (Z * Z) * Z) * Wal * mem) :=
  let '(d0, d12, d3) := aWalData in
  let '(d0, d3) := if negb (d3 =? nCkpt w) then (0, nCkpt w) else (d0, d3) in
  if d0 <? mxFrame (hdr w) then
    '(w, m) ← walCleanupHash (with_hdr (with_cksum d12 (with_mxFrame d0 (hdr w))) w) m;
    Some (SQLITE_OK, (d0, d12, d3), if mxFrame (hdr w) <? iReCksum w then with_iReCksum 0 w else w, m)
  else Some (SQLITE_OK, (d0, d12, d3), w, m).
End shm.

(** A log of three frames in heap memory; page 7 was written twice. *)
Definition no_shm (iPage : Z) (bExtend : bool) : Z * option wipage := (SQLITE_ERROR, None).
Definition new_wal : Wal := mkWal [] 512 1 WAL_HEAPMEMORY_MODE true 0 0 false (mkHdr 0 0 0 0 0 512 0 0 (0, 0) (replicate 8 0) (0, 0)) 1 0 0.
Definition with_mx n w := with_hdr (with_mxFrame n (hdr w)) w.
Example small_log :
  ('(_, w, m) ← walIndexAppend no_shm 1 7 new_wal (Mem [] 0); '(_, w, m) ← walIndexAppend no_shm 2 8199 w m;
   '(_, w, m) ← walIndexAppend no_shm 3 7 w m; let w := with_mx 3 w in
   '(_, a, w, m) ← walFindFrame no_shm 7 w m; '(_, b, w, m) ← walFindFrame no_shm 8199 w m; '(_, c, w, m) ← walFindFrame no_shm 9 w m;
   '(_, _, w, m) ← sqlite3WalSavepointUndo no_shm (2, (0, 0), 0) w m; '(_, d, _, _) ← walFindFrame no_shm 7 w m; Some (a, b, c, d, live m)) =
  Some (3, 2, 0, 1, 2).
Proof. vm_compute. reflexivity. Qed.
