(* ===== verification/WalProofs.v ===== *)
(** Proofs about the index of the write-ahead log (Wal.v): it stands for the sequence of the page numbers
    of the frames, a lookup finds the last frame of a page up to a snapshot whatever has been
    appended since, and cutting the log back leaves the index of the shorter log. *)
From S2P Require Import Prelude LinearProbe Wal.

Notation NSLOT := 8192%Z (only parsing).

(** ** One hash table *)

(** [built l t]: [t] is the table after the page numbers [l] were entered in order. *)
Inductive built : list Z → list Z → Prop :=
| built_nil : built [] (replicate (Z.to_nat HASHTABLE_NSLOT) 0)
| built_snoc l t p d :
    built l t → stops_at NSLOT t (walHash p) d →
    built (l ++ [p]) (<[Z.to_nat ((walHash p + d) mod NSLOT) := zlen l + 1]> t).

Lemma walHash_range p : 0 ≤ walHash p < NSLOT.
Proof. unfold walHash. change (HASHTABLE_NSLOT - 1) with (Z.ones 13). rewrite Z.land_ones by lia. apply Z.mod_pos_bound. done. Qed.

Lemma walNextHash_mod k : walNextHash k = (k + 1) mod NSLOT.
Proof. unfold walNextHash. change (HASHTABLE_NSLOT - 1) with (Z.ones 13). by rewrite Z.land_ones by lia. Qed.

Lemma built_length l t : built l t → zlen t = NSLOT.
Proof. induction 1; [by rewrite length_replicate|by rewrite length_insert]. Qed.

(** A filled slot holds the position of a page number whose walk leads to it. *)
Lemma built_value l t q v :
  built l t → t.[q] = Some v → v ≠ 0 →
  1 ≤ v ≤ zlen l ∧ ∃ p, l.[v - 1] = Some p ∧ ∀ d, 0 ≤ d < dist NSLOT walHash p q → filled t ((walHash p + d) mod NSLOT).
Proof.
  intros HB. revert q v. induction HB as [|l t p d HB IH (Hd & He & Hf)]; intros q v Hq Hv.
  - apply rd_lookup in Hq as (_ & [-> _]%lookup_replicate). done.
  - pose proof (built_length _ _ HB) as Hl. pose proof (slot_range NSLOT ltac:(done) (walHash p) d) as Hr.
    set (q0 := (walHash p + d) mod NSLOT) in *. rewrite length_app. cbn [length].
    assert (Hmono : ∀ x, filled t x → filled (<[Z.to_nat q0 := zlen l + 1]> t) x).
    { intros x (y & Hy & Hy0). unfold filled. rewrite rd_insert by lia. destruct (Z.eqb_spec q0 x); [exists (zlen l + 1); split; [done|lia]|by exists y]. }
    rewrite rd_insert in Hq by lia. destruct (Z.eqb_spec q0 q) as [<-|Hne].
    + injection Hq as <-. split; [lia|]. exists p. split.
      { rewrite rd_app_r by lia. by replace (zlen l + 1 - 1 - zlen l) with 0 by lia. }
      assert (E : dist NSLOT walHash p q0 = d).
      { apply (slot_inj NSLOT (walHash p)); [by apply dist_range|done|]. unfold dist. by rewrite slot_reached by done. }
      rewrite E. intros e He'. apply Hmono. by apply Hf.
    + destruct (IH _ _ Hq Hv) as (Hvr & x & Hx & Hpath). split; [lia|]. exists x. rewrite rd_app_l by lia. split; [done|].
      intros e He'. apply Hmono. by apply Hpath.
Qed.

(** Every page number entered is in one slot. *)
Lemma built_held l t j p : built l t → l.[j] = Some p → ∃ q, 0 ≤ q < NSLOT ∧ t.[q] = Some (j + 1).
Proof.
  intros HB. revert j p. induction HB as [|l t x d HB IH (Hd & He & Hf)]; intros j p Hj; [by apply rd_Some_lt in Hj; cbn in Hj; lia|].
  pose proof (built_length _ _ HB) as Hl. pose proof (slot_range NSLOT ltac:(done) (walHash x) d) as Hr. set (q0 := (walHash x + d) mod NSLOT) in *.
  pose proof (rd_Some_lt _ _ _ Hj) as Hlt. rewrite length_app in Hlt. cbn [length] in Hlt.
  destruct (Z.eq_dec j (zlen l)) as [->|Hne].
  - exists q0. split; [done|]. rewrite rd_insert by lia. by rewrite Z.eqb_refl.
  - rewrite rd_app_l in Hj by lia. destruct (IH _ _ Hj) as (q & Hq & Hqv). exists q. split; [done|]. rewrite rd_insert by lia.
    destruct (Z.eqb_spec q0 q) as [<-|]; [|done]. unfold empty_at in He. rewrite Hqv in He. injection He. apply rd_Some_lt in Hj. lia.
Qed.

Lemma built_once l t q q' v : built l t → t.[q] = Some v → t.[q'] = Some v → v ≠ 0 → q = q'.
Proof.
  intros HB. revert q q' v. induction HB as [|l t p d HB IH (Hd & He & Hf)]; intros q q' v Hq Hq' Hv.
  - apply rd_lookup in Hq as (_ & [-> _]%lookup_replicate). done.
  - pose proof (built_length _ _ HB) as Hl. pose proof (slot_range NSLOT ltac:(done) (walHash p) d) as Hr.
    set (q0 := (walHash p + d) mod NSLOT) in *. rewrite rd_insert in Hq, Hq' by lia.
    destruct (Z.eqb_spec q0 q) as [<-|], (Z.eqb_spec q0 q') as [<-|]; [done| | |by eapply IH].
    + injection Hq as <-. destruct (built_value _ _ _ _ HB Hq') as (? & _); lia.
    + injection Hq' as <-. destruct (built_value _ _ _ _ HB Hq) as (? & _); lia.
Qed.

(** The earlier of two entries of a page is met first. *)
Lemma built_order l t p d d' v v' :
  built l t → 0 ≤ d < NSLOT → 0 ≤ d' < NSLOT →
  t.[(walHash p + d) mod NSLOT] = Some v → t.[(walHash p + d') mod NSLOT] = Some v' → l.[v - 1] = Some p → l.[v' - 1] = Some p →
  d < d' → v < v'.
Proof.
  intros HB. revert d d' v v'. induction HB as [|l t x e HB IH (He & Hemp & Hf)]; intros d d' v v' Hd Hd' Hv Hv' Hp Hp' Hlt.
  - apply rd_Some_lt in Hp. cbn in Hp. lia.
  - pose proof (built_length _ _ HB) as Hl. pose proof (slot_range NSLOT ltac:(done) (walHash x) e) as Hr. set (q0 := (walHash x + e) mod NSLOT) in *.
    pose proof (rd_Some_lt _ _ _ Hp) as B1. pose proof (rd_Some_lt _ _ _ Hp') as B2. rewrite length_app in B1, B2. cbn [length] in B1, B2.
    rewrite rd_insert in Hv, Hv' by lia. destruct (Z.eqb_spec q0 ((walHash p + d) mod NSLOT)) as [E|Hne]; destruct (Z.eqb_spec q0 ((walHash p + d') mod NSLOT)) as [E'|Hne'].
    + rewrite E in E'. apply (slot_inj NSLOT) in E'; lia.
    + injection Hv as <-. exfalso. replace (zlen l + 1 - 1) with (zlen l) in Hp by lia. rewrite rd_app_r in Hp by lia. rewrite Z.sub_diag in Hp.
      injection Hp as ->. unfold q0 in E. apply (slot_inj NSLOT) in E; [|lia|lia]. subst e.
      destruct (Z.eq_dec v' 0) as [->|Hv0]; [lia|]. destruct (built_value _ _ _ _ HB Hv' Hv0) as (Hr' & y & Hy & Hpath).
      rewrite rd_app_l in Hp' by lia. rewrite Hp' in Hy. injection Hy as <-.
      apply (filled_not_empty t q0); [|done]. unfold q0. apply Hpath.
      assert (dist NSLOT walHash p ((walHash p + d') mod NSLOT) = d') as ->; [|lia].
      apply (slot_inj NSLOT (walHash p)); [by apply dist_range|done|]. unfold dist. rewrite slot_reached; [done|done|by apply slot_range].
    + injection Hv' as <-. destruct (Z.eq_dec v 0) as [->|Hv0]; [lia|]. destruct (built_value _ _ _ _ HB Hv Hv0) as (? & _). lia.
    + destruct (Z.eq_dec v 0) as [->|Hv0]; [lia|]. destruct (Z.eq_dec v' 0) as [->|Hv0']; [lia|].
      destruct (built_value _ _ _ _ HB Hv Hv0) as (? & _), (built_value _ _ _ _ HB Hv' Hv0') as (? & _).
      rewrite rd_app_l in Hp, Hp' by lia. by eapply (IH d d').
Qed.

(** Filled slots in a row hold different positions, so there are no more of them than entries. *)
Lemma built_run l t h (n : nat) :
  built l t → Z.of_nat n ≤ NSLOT → (∀ d, 0 ≤ d < Z.of_nat n → filled t ((h + d) mod NSLOT)) → Z.of_nat n ≤ zlen l.
Proof.
  intros HB Hn Hf. set (val := λ d, default 0 (t.[(h + d) mod NSLOT])).
  assert (Hval : ∀ d, 0 ≤ d < Z.of_nat n → ∃ v, t.[(h + d) mod NSLOT] = Some v ∧ v ≠ 0 ∧ val d = v).
  { intros d Hd. destruct (Hf d Hd) as (v & Hv & Hv0). exists v. unfold val. by rewrite Hv. }
  assert (Hnd : NoDup (val <$> seqZ 0 (Z.of_nat n))).
  { apply NoDup_fmap_2_strong; [|apply NoDup_seqZ]. intros x y Hx%elem_of_seqZ Hy%elem_of_seqZ E.
    destruct (Hval x) as (v & Hv & Hv0 & Ev); [lia|]. destruct (Hval y) as (v' & Hv' & _ & Ev'); [lia|].
    apply (slot_inj NSLOT h); [lia|lia|]. eapply built_once; [exact HB|exact Hv|congruence|done]. }
  assert (Hsub : (val <$> seqZ 0 (Z.of_nat n)) ⊆ seqZ 1 (zlen l)).
  { intros v (x & -> & Hx%elem_of_seqZ)%list_elem_of_fmap. apply elem_of_seqZ. destruct (Hval x) as (v & Hv & Hv0 & ->); [lia|].
    destruct (built_value _ _ _ _ HB Hv Hv0); lia. }
  pose proof (submseteq_length _ _ (NoDup_submseteq _ _ Hnd Hsub)) as Hle. rewrite length_fmap, !length_seqZ in Hle. lia.
Qed.

Lemma built_stops l t h : built l t → zlen l < NSLOT → 0 ≤ h < NSLOT → ∃ d, stops_at NSLOT t h d ∧ d ≤ zlen l.
Proof.
  intros HB Hl Hh. pose proof (built_length _ _ HB) as Ht.
  assert (Hn : ∀ n : nat, Z.of_nat n ≤ NSLOT → (∃ d, stops_at NSLOT t h d) ∨ ∀ d, 0 ≤ d < Z.of_nat n → filled t ((h + d) mod NSLOT)).
  { induction n as [|n IH]; intros Hn; [right; lia|]. destruct IH as [?|IH]; [lia|by left|].
    destruct (filled_or_empty NSLOT t ((h + Z.of_nat n) mod NSLOT) Ht) as [Hf|He]; [by apply slot_range| |].
    - right. intros d Hd. destruct (Z.eq_dec d (Z.of_nat n)) as [->|]; [done|]. apply IH. lia.
    - left. exists (Z.of_nat n). split; [lia|]. split; [done|]. intros. apply IH. lia. }
  destruct (Hn (Z.to_nat NSLOT)) as [(d & Hd)|Hall]; [lia| |].
  - exists d. split; [done|]. destruct Hd as (Hd & _ & Hf). rewrite <- (Z2Nat.id d) by lia. eapply built_run; [exact HB|lia|]. intros e He. apply Hf. lia.
  - pose proof (built_run l t h (Z.to_nat NSLOT) HB ltac:(lia) Hall). lia.
Qed.

Lemma append_loop_spec t h d n :
  0 ≤ h < NSLOT → stops_at NSLOT t h d → d ≤ Z.of_nat n → append_loop n t h = Some (Some ((h + d) mod NSLOT)).
Proof.
  revert h d. induction n as [|n IH]; intros h d Hh Hs Hn; cbn [append_loop].
  - destruct Hs as (Hd & He & _). assert (d = 0) as -> by lia. rewrite Z.add_0_r in *. rewrite Z.mod_small in * by lia.
    unfold empty_at in He. by rewrite He.
  - destruct (Z.eq_dec d 0) as [->|Hd].
    + destruct Hs as (_ & He & _). rewrite Z.add_0_r in *. rewrite Z.mod_small in * by lia. unfold empty_at in He. by rewrite He.
    + pose proof Hs as (Hd' & He & Hf). destruct (Hf 0) as (v & Hv & Hv0); [lia|]. rewrite Z.add_0_r, Z.mod_small in Hv by lia. rewrite Hv.
      cbn [mbind option_bind]. destruct (Z.eqb_spec v 0); [done|]. rewrite walNextHash_mod.
      destruct (stops_at_step NSLOT ltac:(done) t h d Hh Hs) as (_ & Hs'); [by exists v|]. rewrite (IH _ (d - 1)); [|by apply Z.mod_pos_bound|done|lia].
      f_equal. f_equal. rewrite Z.add_mod_idemp_l by lia. f_equal. lia.
Qed.

(** Clearing the entries above [n] leaves the table of the first [n] page numbers. *)
Definition cut_slots (n : Z) (t : list Z) : list Z := map (λ x, if n <? x then 0 else x) t.

Lemma cut_slots_id l t n : built l t → zlen l ≤ n → cut_slots n t = t.
Proof.
  intros HB Hn. unfold cut_slots. apply list_eq. intros i. rewrite list_lookup_fmap. destruct (t !! i) as [x|] eqn:E; [|done]. cbn. f_equal.
  destruct (Z.ltb_spec n x) as [Hlt|]; [|done]. exfalso. destruct (Z.eq_dec x 0) as [->|Hx]; [lia|].
  rewrite <- rd_nat in E. destruct (built_value _ _ _ _ HB E Hx). lia.
Qed.

Lemma built_cut l t n : built l t → 0 ≤ n ≤ zlen l → built (take (Z.to_nat n) l) (cut_slots n t).
Proof.
  intros HB. induction HB as [|l t p d HB IH (Hd & He & Hf)]; intros Hn.
  - rewrite take_nil. rewrite (cut_slots_id [] _ n built_nil ltac:(cbn; lia)). constructor.
  - pose proof (built_length _ _ HB) as Hl. pose proof (slot_range NSLOT ltac:(done) (walHash p) d) as Hr.
    rewrite length_app in Hn. cbn [length] in Hn. destruct (Z.eq_dec n (zlen l + 1)) as [->|Hne].
    + rewrite take_ge by (rewrite length_app; cbn; lia). rewrite (cut_slots_id (l ++ [p])); [|constructor; [done|exact (conj Hd (conj He Hf))]|rewrite length_app; cbn; lia].
      constructor; [done|exact (conj Hd (conj He Hf))].
    + rewrite take_app_le by lia. replace (cut_slots n _) with (cut_slots n t); [apply IH; lia|]. unfold cut_slots.
      change (map ?f ?x) with (f <$> x). rewrite list_fmap_insert. destruct (Z.ltb_spec n (zlen l + 1)); [|lia].
      symmetry. apply list_insert_id. rewrite list_lookup_fmap. unfold empty_at in He. apply rd_lookup in He as (_ & ->). cbn. by destruct (n <? 0).
Qed.

(** ** Pages of the index *)

(** The frames before page [h], where its page numbers start, and how many it has room for. *)
Definition before (h : Z) : Z := if h =? 0 then 0 else HASHTABLE_NPAGE_ONE + (h - 1) * HASHTABLE_NPAGE.
Definition offset (h : Z) : Z := if h =? 0 then 34 else 0.
Definition room (h : Z) : Z := HASHTABLE_NPAGE - offset h.
Definition chunk (h : Z) (F : list Z) : list Z := take (Z.to_nat (room h)) (drop (Z.to_nat (before h)) F).

Definition sized (p : wipage) : Prop := zlen (words p) = HASHTABLE_NPAGE ∧ zlen (slots p) = HASHTABLE_NSLOT.

(** The page [h] has the page numbers [l] and their hash table. *)
Definition page_ok (h : Z) (p : wipage) (l : list Z) : Prop :=
  zlen l ≤ room h ∧ built l (slots p) ∧
  ∃ hd, zlen hd = offset h ∧ words p = hd ++ l ++ replicate (Z.to_nat (room h - zlen l)) 0.

Ltac wal_consts := change HASHTABLE_NPAGE with 4096 in *; change HASHTABLE_NPAGE_ONE with 4062 in *; change HASHTABLE_NSLOT with 8192 in *.

Lemma before_next h : 0 ≤ h → before (h + 1) = before h + room h ∧ 0 ≤ before h ∧ 4062 ≤ room h ≤ 4096 ∧ room h + offset h = 4096.
Proof.
  intros Hh. unfold before, room, offset. wal_consts. destruct (Z.eqb_spec (h + 1) 0); [lia|]. destruct (Z.eqb_spec h 0) as [->|]; lia.
Qed.

Lemma before_mono h h' : 0 ≤ h < h' → before h + room h ≤ before h'.
Proof. intros H. unfold before, room, offset. wal_consts. destruct (Z.eqb_spec h' 0); [lia|]. destruct (Z.eqb_spec h 0) as [->|]; lia. Qed.

Lemma walFramePage_spec k : 1 ≤ k → 0 ≤ walFramePage k ∧ before (walFramePage k) < k ≤ before (walFramePage k) + room (walFramePage k).
Proof.
  intros Hk. unfold walFramePage. wal_consts. assert (0 ≤ (k + 4096 - 4062 - 1) / 4096) by (apply Z.div_pos; lia).
  split; [done|]. unfold before, room, offset. wal_consts. destruct (Z.eqb_spec ((k + 4096 - 4062 - 1) / 4096) 0); zdm.
Qed.

Lemma walFramePage_unique k h : 0 ≤ h → before h < k ≤ before h + room h → walFramePage k = h.
Proof.
  intros Hh Hk. destruct (before_next h Hh) as (_ & H0 & _). destruct (walFramePage_spec k ltac:(lia)) as (H1 & H2).
  destruct (Z.lt_trichotomy (walFramePage k) h) as [Hlt|[->|Hlt]]; [|done|].
  - pose proof (before_mono (walFramePage k) h). lia.
  - pose proof (before_mono h (walFramePage k)). lia.
Qed.

Lemma page_word h p l k : page_ok h p l → 0 ≤ k < zlen l → (words p).[offset h + k] = l.[k].
Proof. intros (Hr & _ & hd & Eh & ->) Hk. rewrite rd_app_r, rd_app_l by lia. f_equal. lia. Qed.

Lemma page_tail h p l k : page_ok h p l → zlen l ≤ k < room h → (words p).[offset h + k] = Some 0.
Proof. intros (Hr & _ & hd & Eh & ->) Hk. rewrite rd_app_r, rd_app_r by lia. apply rd_replicate. lia. Qed.

Lemma page_sized h p l : 0 ≤ h → page_ok h p l → sized p.
Proof.
  intros Hh (Hr & Hb & hd & Eh & E). destruct (before_next h Hh) as (_ & _ & _ & Ho). split; [|by eapply built_length].
  rewrite E, !length_app, length_replicate. wal_consts. lia.
Qed.

(** The frame [v + z] of a page with the frames after [z] is one of those looked for. *)
Definition hit (l : list Z) (z lo hi pg v : Z) : Prop := v + z ≤ hi ∧ lo ≤ v + z ∧ l.[v - 1] = Some pg.

Section find.
Context (w : Wal) (loc : WalHashLoc) (p : wipage) (l : list Z) (iLast pgno D : Z).
Context (Hloc : 0 ≤ hl_page loc) (Hp : index_page w (hl_page loc) = Some p) (Hok : page_ok (hl_page loc) p l).
Context (Hoff : hl_off loc = offset (hl_page loc)) (HD : stops_at NSLOT (slots p) (walHash pgno) D).
#[local] Notation hit := (hit l (iZero loc) (minFrame w) iLast pgno).
#[local] Notation at_ d := ((slots p).[(walHash pgno + d) mod NSLOT]).

(** What the walk has found when it has passed [d] slots. *)
Definition passed (d r : Z) : Prop :=
  (r = 0 ∨ ∃ d', 0 ≤ d' < d ∧ at_ d' = Some (r - iZero loc) ∧ hit (r - iZero loc)) ∧
  ∀ d' v, 0 ≤ d' < d → at_ d' = Some v → hit v → v + iZero loc ≤ r.

Lemma passed_slot d r v :
  passed d r → 0 ≤ d < D → at_ d = Some v → v ≠ 0 → hit v → passed (d + 1) (v + iZero loc).
Proof.
  intros (Hr & Ha) Hd Hv Hv0 Hh. destruct Hok as (_ & HB & _). pose proof HD as (HDr & _). split.
  - right. exists d. rewrite Z.add_simpl_r. split; [lia|done].
  - intros d' v' Hd' Hv' Hh'. destruct (Z.eq_dec d' d) as [->|Hne]; [rewrite Hv in Hv'; injection Hv' as ->; lia|].
    assert (v' < v); [|lia]. eapply (built_order l (slots p) pgno d' d); [exact HB|lia|lia|done|done|apply Hh'|apply Hh|lia].
Qed.

Lemma passed_skip d r v : passed d r → at_ d = Some v → ¬ hit v → passed (d + 1) r.
Proof.
  intros (Hr & Ha) Hv Hh. split.
  - destruct Hr as [->|(d' & Hd' & ?)]; [by left|]. right. exists d'. split; [lia|done].
  - intros d' v' Hd' Hv' Hh'. destruct (Z.eq_dec d' d) as [->|Hne]; [congruence|]. apply (Ha d'); [lia|done|done].
Qed.

Lemma walk_spec n : ∀ d r,
  0 ≤ d ≤ D → D - d ≤ Z.of_nat n → passed d r →
  ∃ r', find_loop n w loc pgno iLast ((walHash pgno + d) mod NSLOT) r = Some (SQLITE_OK, r') ∧ passed D r'.
Proof.
  pose proof HD as (HDr & He & Hf). pose proof Hok as (Hroom & HB & _). destruct (before_next (hl_page loc) Hloc) as (_ & _ & Hrm & _).
  induction n as [|n IH]; intros d r Hd Hn Hps; (destruct (Z.eq_dec d D) as [->|Hne]; [|]).
  1, 3: exists r; split; [|done]; unfold find_loop, get_slot; rewrite Hp; cbn [mbind option_bind]; unfold empty_at in He; by rewrite He.
  - lia.
  - destruct (Hf d) as (v & Hv & Hv0); [lia|]. destruct (built_value _ _ _ _ HB Hv Hv0) as (Hvr & _).
    cbn [find_loop]. unfold get_slot at 1. rewrite Hp. cbn [mbind option_bind]. rewrite Hv. cbn [mbind option_bind].
    destruct (Z.eqb_spec v 0); [done|].
    assert (Hland : Z.land (v - 1) (HASHTABLE_NPAGE - 1) = v - 1).
    { wal_consts. change (4096 - 1) with (Z.ones 12). rewrite Z.land_ones by lia. apply Z.mod_small. lia. }
    assert (Hg : get_pgno w loc (v - 1) = l.[v - 1]).
    { unfold get_pgno. rewrite Hp. cbn [mbind option_bind]. rewrite Hoff. eapply page_word; [done|lia]. }
    rewrite Hland, Hg. destruct (rd_in_bounds l (v - 1)) as (x & Hx); [lia|]. rewrite Hx.
    assert (E : walNextHash ((walHash pgno + d) mod NSLOT) = (walHash pgno + (d + 1)) mod NSLOT) by (rewrite walNextHash_mod; by apply slot_succ).
    rewrite E. destruct ((v + iZero loc <=? iLast) && (minFrame w <=? v + iZero loc)) eqn:Er; cbn [mbind option_bind andb].
    + apply andb_true_iff in Er as (E1 & E2). apply Z.leb_le in E1, E2. destruct (Z.eqb_spec x pgno) as [->|Hx'].
      * apply IH; [lia|lia|]. apply (passed_slot d r v); [done|lia|done|done|by split].
      * apply IH; [lia|lia|]. apply (passed_skip d r v); [done|done|]. intros (_ & _ & Hh). congruence.
    + apply IH; [lia|lia|]. apply (passed_skip d r v); [done|done|]. intros (H1 & H2 & _).
      apply Z.leb_le in H1, H2. rewrite H1, H2 in Er. done.
Qed.

Lemma passed_all r : passed D r → (r = 0 ∨ hit (r - iZero loc)) ∧ ∀ v, hit v → v + iZero loc ≤ r.
Proof.
  intros (Hr & Ha). split; [destruct Hr as [->|(d & _ & _ & ?)]; [by left|by right]|]. intros v Hh.
  destruct Hok as (_ & HB & _). pose proof HD as (HDr & He & _). pose proof Hh as (_ & _ & Hl). pose proof (rd_Some_lt _ _ _ Hl) as Hb.
  destruct (built_held _ _ _ _ HB Hl) as (q & Hq & Hv). rewrite Z.sub_add in Hv. destruct (built_value _ _ _ _ HB Hv) as (_ & x & Hx & Hpath); [lia|].
  rewrite Hl in Hx. injection Hx as <-. pose proof (dist_range NSLOT ltac:(done) walHash pgno q) as Hdr.
  assert (Eq : (walHash pgno + dist NSLOT walHash pgno q) mod NSLOT = q) by (apply slot_reached; done).
  apply (Ha (dist NSLOT walHash pgno q)); [|by rewrite Eq|done]. split; [lia|].
  destruct (Z.lt_trichotomy (dist NSLOT walHash pgno q) D) as [?|[Ed|Hgt]]; [done| |].
  - exfalso. rewrite <- Ed, Eq in He. unfold empty_at in He. rewrite Hv in He. injection He. lia.
  - exfalso. apply (filled_not_empty (slots p) ((walHash pgno + D) mod NSLOT)); [apply Hpath; lia|done].
Qed.
End find.

(** ** The index as a sequence of page numbers *)

Definition pgno_ok (p : Z) : Prop := 0 < p < 2 ^ 32.

Record represents (w : Wal) (F : list Z) : Prop := Represents {
  rep_sized h p : index_page w h = Some p → sized p;
  rep_page h : 0 ≤ h → before h < zlen F → ∃ p, index_page w h = Some p ∧ page_ok h p (chunk h F);
  rep_pgno : Forall pgno_ok F }.

(** All but the pages of the index (and a flag about them). *)
Definition same_state (w w' : Wal) : Prop :=
  hdr w' = hdr w ∧ minFrame w' = minFrame w ∧ readLock w' = readLock w ∧ bShmUnreliable w' = bShmUnreliable w ∧
  iReCksum w' = iReCksum w ∧ nCkpt w' = nCkpt w ∧ szPage w' = szPage w ∧ exclusiveMode w' = exclusiveMode w ∧ writeLock w' = writeLock w.
Lemma state_refl w : same_state w w.
Proof. by split_and!. Qed.
Lemma same_trans w w1 w2 : same_state w w1 → same_state w1 w2 → same_state w w2.
Proof. intros (?&?&?&?&?&?&?&?&?) (?&?&?&?&?&?&?&?&?). split_and!; congruence. Qed.

Lemma index_set_page w h p h' : 0 ≤ h < zlen (apWiData w) → index_page (set_page h p w) h' = if h =? h' then p else index_page w h'.
Proof.
  intros Hh. unfold index_page, set_page. cbn [apWiData with_index]. rewrite rd_insert by lia. by destruct (Z.eqb_spec h h').
Qed.
Lemma index_bounds w h p : index_page w h = Some p → 0 ≤ h < zlen (apWiData w).
Proof. unfold index_page. destruct ((apWiData w).[h]) eqn:E; [|done]. intros _. by eapply rd_Some_lt. Qed.

Lemma zero_sized : sized zero_page.
Proof. unfold sized, zero_page. cbn [words slots]. rewrite !length_replicate. wal_consts. lia. Qed.

Lemma zero_from_length k l : zlen (zero_from k l) = zlen l ∨ Z.of_nat (length l) < k.
Proof. unfold zero_from. rewrite length_app, length_take, length_replicate. lia. Qed.

Lemma chunk_length h F : 0 ≤ h → zlen (chunk h F) = Z.max 0 (Z.min (room h) (zlen F - before h)).
Proof. intros Hh. destruct (before_next h Hh) as (_ & H0 & Hr & _). unfold chunk. rewrite length_take, length_drop. lia. Qed.

Lemma chunk_rd h F k : 0 ≤ h → 0 ≤ k < room h → (chunk h F).[k] = F.[before h + k].
Proof.
  intros Hh Hk. destruct (before_next h Hh) as (_ & H0 & Hr & _). unfold chunk, rd. destruct (Z.ltb_spec k 0), (Z.ltb_spec (before h + k) 0); try lia.
  rewrite lookup_take_lt, lookup_drop by lia. f_equal. lia.
Qed.

Lemma chunk_take h F n : 0 ≤ h → 0 ≤ n → chunk h (take (Z.to_nat n) F) = take (Z.to_nat (n - before h)) (chunk h F).
Proof.
  intros Hh Hn. destruct (before_next h Hh) as (_ & H0 & Hr & _). unfold chunk. rewrite !take_take, skipn_firstn_comm, take_take.
  f_equal. lia.
Qed.

Lemma chunk_app h F x : 0 ≤ h →
  chunk h (F ++ [x]) = if (before h <=? zlen F) && (zlen F <? before h + room h) then chunk h F ++ [x] else chunk h F.
Proof.
  intros Hh. destruct (before_next h Hh) as (_ & H0 & Hr & _). unfold chunk. destruct (Z.leb_spec (before h) (zlen F)) as [H1|H1]; cbn [andb].
  - rewrite drop_app_le by lia. destruct (Z.ltb_spec (zlen F) (before h + room h)) as [H2|H2].
    + rewrite take_ge by (rewrite length_app, length_drop; cbn; lia). rewrite (take_ge (drop _ F)) by (rewrite length_drop; lia). done.
    + rewrite take_app_le by (rewrite length_drop; lia). done.
  - rewrite drop_ge by (rewrite length_app; cbn; lia). rewrite drop_ge by lia. done.
Qed.

(** The VFS maps pages of the size it is asked for. *)
Definition shm_pages (xShmMap : Z → bool → Z * option wipage) : Prop := ∀ iPage ext rc p, xShmMap iPage ext = (rc, Some p) → sized p.

Section index.
Context (xShmMap : Z → bool → Z * option wipage).
Context (shm_sized : shm_pages xShmMap).

Definition all_sized (w : Wal) : Prop := ∀ h p, index_page w h = Some p → sized p.
(** Pages may have been mapped. *)
Definition extends (w w' : Wal) : Prop :=
  same_state w w' ∧ (∀ h p, index_page w h = Some p → index_page w' h = Some p) ∧ (all_sized w → all_sized w').

Lemma extends_refl w : extends w w.
Proof. split; [apply state_refl|done]. Qed.
Lemma extends_trans w w1 w2 : extends w w1 → extends w1 w2 → extends w w2.
Proof. intros (H1 & H2 & H3) (H4 & H5 & H6). split; [by eapply same_trans|auto]. Qed.

Lemma represents_extends w w' F : extends w w' → represents w F → represents w' F.
Proof.
  intros (_ & H2 & H3) [R1 R2 R3]. split; [by apply H3| |done]. intros h Hh Hb. destruct (R2 h Hh Hb) as (p & Hp & Hok). exists p. split; [by apply H2|done].
Qed.

(** A page that was not mapped is. *)
Lemma set_page_extends w h p :
  0 ≤ h < zlen (apWiData w) → index_page w h = None → (∀ q, p = Some q → sized q) → extends w (set_page h p w).
Proof.
  intros Hh Hn Hp. split; [by split_and!|]. split.
  - intros h' q Hq. rewrite index_set_page by done. destruct (Z.eqb_spec h h') as [<-|]; [congruence|done].
  - intros Hs h' q. rewrite index_set_page by done. destruct (Z.eqb_spec h h') as [<-|]; [apply Hp|apply Hs].
Qed.

Lemma walIndexPage_spec h w m : 0 ≤ h → ∃ rc w' m', walIndexPage xShmMap h w m = (rc, w', m') ∧ extends w w' ∧
  (∀ p, index_page w h = Some p → (rc, w', m') = (SQLITE_OK, w, m)).
Proof.
  intros Hh. unfold walIndexPage. destruct (index_page w h) as [q|] eqn:Eq; [exists SQLITE_OK, w, m; split; [done|]; split; [apply extends_refl|done]|].
  unfold walIndexPageRealloc.
  assert (HS : ∃ ok w1 m1, grow_index h w m = (ok, w1, m1) ∧ extends w w1 ∧ (ok = true → h < zlen (apWiData w1)) ∧ index_page w1 h = None).
  { unfold grow_index. destruct (Z.leb_spec (zlen (apWiData w)) h) as [Hle|Hgt]; [|by exists true, w, m; split_and!; [done|apply extends_refl| |]].
    destruct (sqlite3Malloc m) as [[] m1]; [|by exists false, w, m1; split_and!; [done|apply extends_refl| |]].
    set (l := apWiData w ++ _). assert (Hl : ∀ h', index_page (with_index l w) h' = index_page w h').
    { intros h'. unfold index_page, l. cbn [apWiData with_index]. destruct (Z.lt_ge_cases h' (zlen (apWiData w))); [by rewrite rd_app_l|].
      rewrite rd_app_r by lia. rewrite (rd_None (apWiData w)) by lia. cbn [mbind option_bind].
      destruct (rd _ _) as [x|] eqn:E; [|done]. apply rd_lookup in E as (_ & [-> _]%lookup_replicate). done. }
    exists true, (with_index l w). eexists. split; [done|]. split; [|split; [intros _; unfold l; cbn; rewrite length_app, length_replicate; lia|by rewrite Hl]].
    split; [by split_and!|]. split; [intros h' p; by rewrite Hl|]. intros Hs h' p. rewrite Hl. apply Hs. }
  destruct HS as (ok & w1 & m1 & -> & HE & Hlen & Hn1).
  destruct ok; cbn [negb]; [|eexists _, w1, m1; split; [done|]; split; [done|by intros ? ?]]. specialize (Hlen eq_refl).
  destruct (exclusiveMode w1 =? WAL_HEAPMEMORY_MODE).
  - destruct (sqlite3Malloc m1) as [[] m2]; [|eexists _, w1, m2; split; [done|]; split; [done|by intros ? ?]].
    eexists _, _, m2. split; [done|]. split; [|by intros ? ?]. eapply extends_trans; [exact HE|]. apply set_page_extends; [lia|done|].
    intros q' [= <-]. apply zero_sized.
  - destruct (xShmMap h (writeLock w1)) as (rc & p) eqn:Ex. assert (HE2 : extends w (set_page h p w1)).
    { eapply extends_trans; [exact HE|]. apply set_page_extends; [lia|done|]. intros q' ->. by eapply shm_sized. }
    destruct (rc =? SQLITE_OK); [eexists _, _, m1; split; [done|]; split; [done|by intros ? ?]|].
    destruct (Z.land rc 255 =? SQLITE_READONLY); eexists _, _, m1; (split; [done|]; split; [|by intros ? ?]); [|done].
    eapply extends_trans; [exact HE2|]. split; [by split_and!|]. split; [done|]. by intros Hs.
Qed.

Definition loc_of (h : Z) : WalHashLoc := mkLoc h (offset h) (before h).

Lemma walHashGet_spec h w m : 0 ≤ h → ∃ rc l w' m', walHashGet xShmMap h w m = (rc, l, w', m') ∧ extends w w' ∧
  (rc = SQLITE_OK → l = Some (loc_of h) ∧ ∃ p, index_page w' h = Some p) ∧
  (∀ p, index_page w h = Some p → (rc, w', m') = (SQLITE_OK, w, m)).
Proof.
  intros Hh. unfold walHashGet. destruct (walIndexPage_spec h w m Hh) as (rc & w' & m' & -> & HE & Hm).
  destruct (index_page w' h) as [p|] eqn:Ep.
  - exists rc. do 3 eexists. split; [done|]. split; [done|]. split; [|done]. intros _. split; [|by exists p]. f_equal. unfold loc_of, offset, before.
    destruct (Z.eqb_spec h 0) as [->|]; done.
  - do 4 eexists. split; [done|]. split; [done|]. split; [destruct (Z.eqb_spec rc SQLITE_OK); [done|by intros ?]|].
    intros p Hp. destruct HE as (_ & HE & _). apply HE in Hp. congruence.
Qed.

Lemma walHashGet_mapped h w m p : 0 ≤ h → index_page w h = Some p → walHashGet xShmMap h w m = (SQLITE_OK, Some (loc_of h), w, m).
Proof.
  intros Hh Hp. destruct (walHashGet_spec h w m Hh) as (rc & l & w' & m' & -> & _ & H1 & H2). specialize (H2 p Hp). injection H2 as -> -> ->.
  by destruct (H1 eq_refl) as (-> & _).
Qed.

(** A page is replaced. *)
Lemma represents_set_page w F h p F' :
  represents w F → 0 ≤ h < zlen (apWiData w) → sized p → (before h < zlen F' → page_ok h p (chunk h F')) →
  (∀ h', 0 ≤ h' → h' ≠ h → before h' < zlen F' → before h' < zlen F ∧ chunk h' F' = chunk h' F) → Forall pgno_ok F' →
  represents (set_page h (Some p) w) F'.
Proof.
  intros [R1 R2 R3] Hh Hp Hok Hoth HF. split; [| |done].
  - intros h' q. rewrite index_set_page by done. destruct (Z.eqb_spec h h'); [by intros [= <-]|apply R1].
  - intros h' Hh' Hb. rewrite index_set_page by done. destruct (Z.eqb_spec h h') as [<-|Hne]; [exists p; split; [done|by apply Hok]|].
    destruct (Hoth h' Hh' ltac:(done) Hb) as (Hb' & ->). by apply R2.
Qed.

(** The words after a zeroed tail. *)
Lemma page_cut h p l n :
  0 ≤ h → page_ok h p l → 0 ≤ n ≤ zlen l →
  page_ok h (mkWipage (zero_from (offset h + n) (words p)) (cut_slots n (slots p))) (take (Z.to_nat n) l).
Proof.
  intros Hh (Hr & HB & hd & Eh & E) Hn. destruct (before_next h Hh) as (_ & _ & Hrm & Ho). split; [rewrite length_take; lia|]. split; [by apply built_cut|].
  exists hd. split; [done|]. cbn [words]. unfold zero_from. rewrite E, !length_app, length_replicate, length_take.
  rewrite take_app_ge by lia. rewrite take_app_le by lia. rewrite <- app_assoc. f_equal. f_equal; [f_equal; lia|]. f_equal. lia.
Qed.

Lemma walCleanupHash_spec w F m :
  represents w F → 0 ≤ mxFrame (hdr w) ≤ zlen F →
  ∃ w' m', walCleanupHash xShmMap w m = Some (w', m') ∧ represents w' (take (Z.to_nat (mxFrame (hdr w))) F) ∧ same_state w w'.
Proof.
  intros HR Hmx. unfold walCleanupHash. set (mx := mxFrame (hdr w)) in *. destruct (Z.eqb_spec mx 0) as [E0|Hmx0].
  { exists w, m. split; [done|]. split; [|apply state_refl]. rewrite E0. change (take (Z.to_nat 0) F) with (@nil Z). split; [apply HR| |constructor]. intros h Hh Hb.
    destruct (before_next h Hh) as (_ & ? & _). cbn [length] in Hb. lia. }
  destruct (walFramePage_spec mx ltac:(lia)) as (Hh & Hb1 & Hb2). set (h := walFramePage mx) in *. destruct (before_next h Hh) as (_ & H0 & Hrm & Ho).
  destruct (rep_page _ _ HR h Hh ltac:(lia)) as (p & Hp & Hok). rewrite (walHashGet_mapped h w m p Hh Hp). cbn [negb Z.eqb mbind option_bind hl_page loc_of].
  change (SQLITE_OK =? SQLITE_OK) with true. cbn [negb hl_off iZero loc_of]. fold mx. rewrite Hp. cbn [mbind option_bind].
  pose proof (rep_sized _ _ HR h p Hp) as (Hw & _). wal_consts.
  destruct (Z.leb_spec 0 (offset h + (mx - before h))); [|lia]. destruct (Z.leb_spec (offset h + (mx - before h)) (zlen (words p))); [|lia]. cbn [andb].
  do 2 eexists. split; [done|]. split; [|by split_and!].
  assert (Hlen : zlen (take (Z.to_nat mx) F) = mx) by (rewrite length_take; lia).
  assert (Hcut : page_ok h (mkWipage (zero_from (offset h + (mx - before h)) (words p)) (cut_slots (mx - before h) (slots p))) (chunk h (take (Z.to_nat mx) F))).
  { rewrite chunk_take by lia. apply page_cut; [done|done|]. rewrite chunk_length by done. lia. }
  eapply represents_set_page; [exact HR|by eapply index_bounds|exact (page_sized h _ _ Hh Hcut)|intros _; exact Hcut| |].
  - intros h' Hh' Hne Hlt. rewrite Hlen in Hlt. split; [lia|]. rewrite chunk_take by lia. apply take_ge. destruct (before_next h' Hh') as (_ & _ & ? & _).
    pose proof (chunk_length h' F Hh'). destruct (Z.lt_ge_cases h h'); [pose proof (before_mono h h'); lia|pose proof (before_mono h' h); lia].
  - apply Forall_take. apply HR.
Qed.

(** ** walIndexAppend *)

Lemma page_append h p l pg d :
  0 ≤ h → page_ok h p l → zlen l < room h → stops_at NSLOT (slots p) (walHash pg) d →
  page_ok h (mkWipage (<[Z.to_nat (offset h + zlen l) := pg]> (words p)) (<[Z.to_nat ((walHash pg + d) mod NSLOT) := zlen l + 1]> (slots p))) (l ++ [pg]).
Proof.
  intros Hh (Hr & HB & hd & Eh & E) Hlt Hd. destruct (before_next h Hh) as (_ & _ & Hrm & _). split; [rewrite length_app; cbn [length]; lia|].
  split; [by constructor|]. exists hd. split; [done|]. cbn [words]. rewrite E.
  replace (Z.to_nat (offset h + zlen l)) with (length hd + (length l + 0))%nat by lia. rewrite insert_app_r, insert_app_r, <- app_assoc. f_equal. f_equal.
  rewrite length_app. cbn [length]. replace (Z.to_nat (room h - zlen l)) with (S (Z.to_nat (room h - Z.of_nat (length l + 1)))) by lia. done.
Qed.

(** The part of [walIndexAppend] after the page has been prepared. *)
Lemma append_entry w F k pg (m : mem) p :
  let h := walFramePage (k + 1) in let idx := k + 1 - before h in
  represents w F → zlen F = k → pgno_ok pg → index_page w h = Some p → page_ok h p (chunk h F) →
  ∃ w', (r ← append_loop (Z.to_nat idx) (slots p) (walHash pg);
         match r with
         | None => Some (SQLITE_CORRUPT, w, m)
         | Some iKey =>
             w ← set_pgno w (loc_of h) (Z.land (idx - 1) (HASHTABLE_NPAGE - 1)) pg;
             w ← set_slot w (loc_of h) iKey idx;
             Some (SQLITE_OK, w, m)
         end) = Some (SQLITE_OK, w', m) ∧ represents w' (F ++ [pg]) ∧ same_state w w'.
Proof.
  intros h idx HR Hlen Hpg Hp Hok. subst k. destruct (walFramePage_spec (zlen F + 1) ltac:(lia)) as (Hh & Hb1 & Hb2). fold h in Hh, Hb1, Hb2.
  destruct (before_next h Hh) as (_ & H0 & Hrm & Ho). pose proof (chunk_length h F Hh) as Hcl. assert (Hcl' : zlen (chunk h F) = idx - 1) by lia.
  pose proof (rep_sized _ _ HR h p Hp) as (Hw & Hs). pose proof (index_bounds _ _ _ Hp) as Hhb. wal_consts.
  pose proof Hok as (_ & HB & _). destruct (built_stops _ _ (walHash pg) HB ltac:(lia) (walHash_range _)) as (d & Hd & Hdl).
  rewrite (append_loop_spec (slots p) (walHash pg) d) by (done || lia || apply walHash_range). cbn [mbind option_bind].
  assert (Hland : Z.land (idx - 1) (4096 - 1) = idx - 1).
  { change (4096 - 1) with (Z.ones 12). rewrite Z.land_ones by lia. apply Z.mod_small. lia. }
  unfold set_pgno. cbn [hl_page hl_off loc_of]. rewrite Hland, Hp. cbn [mbind option_bind]. rewrite wr_in_bounds by lia. cbn [mbind option_bind].
  unfold set_slot. cbn [hl_page loc_of]. rewrite index_set_page, Z.eqb_refl by done. cbn [mbind option_bind slots].
  pose proof (slot_range NSLOT ltac:(done) (walHash pg) d) as Hr. rewrite wr_in_bounds by lia. cbn [mbind option_bind words].
  rewrite u16_id by lia. eexists. split; [done|]. split; [|by split_and!].
  assert (Hnew := page_append h p (chunk h F) pg d Hh Hok ltac:(lia) Hd). rewrite Hcl' in Hnew. replace (idx - 1 + 1) with idx in Hnew by lia.
  assert (HR' : represents (set_page h (Some (mkWipage (<[Z.to_nat (offset h + (idx - 1)) := pg]> (words p)) (<[Z.to_nat ((walHash pg + d) mod NSLOT) := idx]> (slots p)))) w) (F ++ [pg])).
  { eapply represents_set_page; [exact HR|done|exact (page_sized h _ _ Hh Hnew)| | |apply Forall_app; split; [apply HR|by constructor]].
    - intros _. rewrite chunk_app by done. destruct (Z.leb_spec (before h) (zlen F)), (Z.ltb_spec (zlen F) (before h + room h)); try lia. exact Hnew.
    - intros h' Hh' Hne. rewrite length_app. cbn [length]. intros Hlt. assert (Hlt' : before h' < zlen F).
      { destruct (Z.lt_ge_cases h h'); [pose proof (before_mono h h'); lia|pose proof (before_mono h' h); destruct (before_next h' Hh'); lia]. }
      split; [done|]. rewrite chunk_app by done. destruct (Z.leb_spec (before h') (zlen F)); [|done]. cbn [andb].
      destruct (Z.ltb_spec (zlen F) (before h' + room h')); [|done]. exfalso. apply Hne. symmetry. unfold h. apply walFramePage_unique; lia. }
  destruct HR' as [R1 R2 R3]. split; [| |done].
  - intros h' q Hq. apply (R1 h'). rewrite <- Hq. rewrite !index_set_page by (cbn; rewrite ?length_insert; lia). by destruct (h =? h').
  - intros h' Hh' Hlt. destruct (R2 h' Hh' Hlt) as (q & Hq & Hqok). exists q. split; [|done]. rewrite <- Hq.
    rewrite !index_set_page by (cbn; rewrite ?length_insert; lia). by destruct (h =? h').
Qed.

Lemma page_zero h p : 0 ≤ h → sized p → page_ok h (mkWipage (zero_from (offset h) (words p)) (replicate (Z.to_nat HASHTABLE_NSLOT) 0)) [].
Proof.
  intros Hh (Hw & _). destruct (before_next h Hh) as (_ & _ & Hrm & Ho). wal_consts. split; [cbn [length]; lia|]. split; [constructor|].
  exists (take (Z.to_nat (offset h)) (words p)). cbn [words length app]. assert (0 ≤ offset h) by (unfold offset; destruct (h =? 0); lia).
  split; [rewrite length_take; lia|]. unfold zero_from. f_equal. f_equal. lia.
Qed.

Lemma chunk_nil h F : 0 ≤ h → zlen F ≤ before h → chunk h F = [].
Proof. intros Hh H. apply nil_length_inv. pose proof (chunk_length h F Hh). lia. Qed.

(** Beginning a page: it is cleared. *)
Lemma begin_page w F h p :
  represents w F → 0 ≤ h → before h ≤ zlen F → index_page w h = Some p →
  let F' := take (Z.to_nat (before h)) F in
  let w' := set_page h (Some (mkWipage (zero_from (offset h) (words p)) (replicate (Z.to_nat HASHTABLE_NSLOT) 0))) w in
  represents w' F' ∧ index_page w' h = Some (mkWipage (zero_from (offset h) (words p)) (replicate (Z.to_nat HASHTABLE_NSLOT) 0)).
Proof.
  intros HR Hh Hb Hp F' w'. pose proof (rep_sized _ _ HR h p Hp) as Hsz. pose proof (index_bounds _ _ _ Hp) as Hhb.
  destruct (before_next h Hh) as (_ & H0 & ? & _). assert (Hl : zlen F' = before h) by (unfold F'; rewrite length_take; lia).
  split; [|unfold w'; by rewrite index_set_page, Z.eqb_refl]. pose proof (page_zero h p Hh Hsz) as Hz.
  eapply represents_set_page; [exact HR|done|exact (page_sized h _ _ Hh Hz)|lia| |apply Forall_take, HR].
  intros h' Hh' Hne Hlt. rewrite Hl in Hlt. split; [lia|]. unfold F'. rewrite chunk_take by lia. apply take_ge.
  pose proof (chunk_length h' F Hh'). destruct (before_next h' Hh') as (_ & _ & ? & _).
  destruct (Z.lt_ge_cases h h'); [pose proof (before_mono h h'); lia|pose proof (before_mono h' h); lia].
Qed.

(** Appending frame [k + 1]: frames after [k], left by a writer that did not commit them, are dropped. *)
Lemma append_made w F k pg m :
  represents w F → 0 ≤ k ≤ zlen F → (k = zlen F ∨ k = mxFrame (hdr w)) → pgno_ok pg →
  ∃ rc w' m', walIndexAppend xShmMap (k + 1) pg w m = Some (rc, w', m') ∧ same_state w w' ∧
    (rc = SQLITE_OK ∧ represents w' (take (Z.to_nat k) F ++ [pg]) ∨
     rc ≠ SQLITE_OK ∧ represents w' F ∧ index_page w (walFramePage (k + 1)) = None).
Proof.
  intros HR Hk Hkm Hpg. destruct (walFramePage_spec (k + 1) ltac:(lia)) as (Hh & Hb1 & Hb2). unfold walIndexAppend.
  set (h := walFramePage (k + 1)) in *. remember (index_page w h = None) as unmapped eqn:Eun. destruct (before_next h Hh) as (_ & H0 & Hrm & Ho).
  destruct (walHashGet_spec h w m Hh) as (rc & l & w1 & m1 & -> & HE & HOK & Hmap).
  destruct (Z.eqb_spec rc SQLITE_OK) as [->|Hrc]; cbn [negb].
  2: { exists rc, w1, m1. split; [done|]. split; [apply HE|]. right. split; [done|]. split; [by eapply represents_extends|]. rewrite Eun.
       destruct (index_page w h) as [p|] eqn:E; [|done]. specialize (Hmap p eq_refl). by injection Hmap as -> _ _. }
  destruct (HOK eq_refl) as (-> & p & Hp). pose proof (represents_extends _ _ _ HE HR) as HR1. cbn [mbind option_bind hl_page hl_off iZero loc_of].
  rewrite Hp. cbn [mbind option_bind]. pose proof HE as (HS1 & _).
  assert (Hlen : zlen (take (Z.to_nat k) F) = k) by (rewrite length_take; lia).
  assert (Hfin : ∀ (x : option (Z * Wal * mem)) w2 m2, same_state w w2 →
    (∃ w', x = Some (SQLITE_OK, w', m2) ∧ represents w' (take (Z.to_nat k) F ++ [pg]) ∧ same_state w2 w') →
    ∃ rc w' m', x = Some (rc, w', m') ∧ same_state w w' ∧ (rc = SQLITE_OK ∧ represents w' (take (Z.to_nat k) F ++ [pg]) ∨
      rc ≠ SQLITE_OK ∧ represents w' F ∧ unmapped)).
  { intros x w2 m2 HS2 (w' & -> & HR' & HS'). exists SQLITE_OK, w', m2. split; [done|]. split; [by eapply same_trans|by left]. }
  destruct (Z.eqb_spec (k + 1 - before h) 1) as [E1|E1].
  - assert (Ek : k = before h) by lia. destruct (begin_page w1 F h p HR1 Hh ltac:(lia) Hp) as (HR2 & Hp2). rewrite <- Ek in HR2.
    set (w2 := set_page h _ w1) in *. unfold get_pgno. cbn [hl_page hl_off loc_of]. rewrite Hp2. cbn [mbind option_bind].
    pose proof (page_zero h p Hh (rep_sized _ _ HR1 h p Hp)) as Hz. rewrite (page_tail h _ [] (k + 1 - before h - 1) Hz) by (cbn [length]; lia).
    cbn [mbind option_bind]. change (negb (0 =? 0)) with false. cbn [mbind option_bind]. rewrite Hp2. cbn [mbind option_bind].
    apply (Hfin _ w2 m1 HS1). apply append_entry; [done|done|done|done|]. fold h. rewrite chunk_nil; [exact Hz|done|lia].
  - destruct (rep_page _ _ HR h Hh ltac:(lia)) as (q & Hq & Hqok). specialize (Hmap q Hq). injection Hmap as -> ->.
    rewrite Hq in Hp. injection Hp as <-. unfold get_pgno. cbn [hl_page hl_off loc_of]. rewrite Hq. cbn [mbind option_bind].
    destruct (Z.eq_dec k (zlen F)) as [Ek|Ek].
    + rewrite (page_tail h q _ (k + 1 - before h - 1) Hqok) by (rewrite chunk_length; lia). cbn [mbind option_bind].
      change (negb (0 =? 0)) with false. cbn [mbind option_bind]. rewrite Hq. cbn [mbind option_bind].
      assert (EF : take (Z.to_nat k) F = F) by (apply take_ge; lia). apply (Hfin _ w m (state_refl _)). apply append_entry; [by rewrite EF|done|done|done|by rewrite EF].
    + rewrite (page_word h q _ (k + 1 - before h - 1) Hqok), chunk_rd by (rewrite ?chunk_length; lia).
      destruct (rd_in_bounds F (before h + (k + 1 - before h - 1))) as (x & Hx); [lia|]. rewrite Hx. cbn [mbind option_bind].
      assert (Hx0 : x ≠ 0). { apply rd_lookup in Hx as (_ & Hx). pose proof (proj1 (Forall_lookup _ _) (rep_pgno _ _ HR) _ _ Hx) as Hpx. unfold pgno_ok in Hpx. lia. }
      destruct (Z.eqb_spec x 0); [done|]. cbn [negb]. destruct Hkm as [?|Ekm]; [lia|].
      destruct (walCleanupHash_spec w F m HR ltac:(lia)) as (w2 & m2 & E & HR2 & HS2). rewrite E. cbn [mbind option_bind].
      rewrite <- Ekm in HR2.
      destruct (rep_page _ _ HR2 h Hh ltac:(lia)) as (q2 & Hq2 & Hqok2). rewrite Hq2. cbn [mbind option_bind].
      apply (Hfin _ w2 m2 HS2). by apply append_entry.
Qed.

(** ** walFindFrame *)

(** [r] is the last frame of [lo .. hi] with page [pg], or 0. *)
Definition latest (F : list Z) (lo hi pg r : Z) : Prop :=
  (r = 0 ∧ ∀ i, lo ≤ i ≤ hi → 1 ≤ i → F.[i - 1] ≠ Some pg) ∨
  (1 ≤ r ∧ lo ≤ r ≤ hi ∧ F.[r - 1] = Some pg ∧ ∀ i, r < i ≤ hi → F.[i - 1] ≠ Some pg).

Lemma hit_chunk h F lo hi pg i :
  0 ≤ h → before h < i ≤ before h + room h → lo ≤ i ≤ hi → F.[i - 1] = Some pg → hit (chunk h F) (before h) lo hi pg (i - before h).
Proof.
  intros Hh Hi Hr HF. split; [lia|]. split; [lia|]. rewrite chunk_rd by lia. rewrite <- HF. f_equal. lia.
Qed.

Lemma chunk_hit h F lo hi pg v :
  0 ≤ h → hit (chunk h F) (before h) lo hi pg v → 1 ≤ v ≤ room h ∧ lo ≤ v + before h ≤ hi ∧ F.[v + before h - 1] = Some pg.
Proof.
  intros Hh (H1 & H2 & H3). pose proof (rd_Some_lt _ _ _ H3) as Hb. pose proof (chunk_length h F Hh) as Hl. destruct (before_next h Hh) as (_ & _ & ? & _).
  rewrite chunk_rd in H3 by lia. split; [lia|]. split; [lia|]. rewrite <- H3. f_equal. lia.
Qed.

(** A walk over one table finds the last frame of its page. *)
Lemma find_page N w F h p pg :
  NSLOT ≤ Z.of_nat N → represents w F → 0 ≤ h → index_page w h = Some p → page_ok h p (chunk h F) → pgno_ok pg →
  ∃ r, find_loop N w (loc_of h) pg (mxFrame (hdr w)) (walHash pg) 0 = Some (SQLITE_OK, r) ∧
    (r = 0 ∨ hit (chunk h F) (before h) (minFrame w) (mxFrame (hdr w)) pg (r - before h)) ∧
    ∀ v, hit (chunk h F) (before h) (minFrame w) (mxFrame (hdr w)) pg v → v + before h ≤ r.
Proof.
  intros HN HR Hh Hp Hok Hpg. destruct (before_next h Hh) as (_ & H0 & Hrm & _). pose proof Hok as (Hcl & HB & _).
  destruct (built_stops _ _ (walHash pg) HB ltac:(lia) (walHash_range pg)) as (D & HD & HDl). pose proof HD as (HDr & _).
  assert (E : (walHash pg + 0) mod NSLOT = walHash pg) by (rewrite Z.add_0_r; apply Z.mod_small, walHash_range).
  destruct (walk_spec w (loc_of h) p (chunk h F) (mxFrame (hdr w)) pg D Hh Hp Hok eq_refl HD N 0 0) as (r & Ef & Hps);
    [lia|lia|split; [by left|intros; lia]|]. rewrite E in Ef. exists r. split; [exact Ef|].
  exact (passed_all w (loc_of h) p (chunk h F) (mxFrame (hdr w)) pg D Hok HD r Hps).
Qed.

Lemma tables_loop_spec N w F pg m n : ∀ h,
  NSLOT ≤ Z.of_nat N → represents w F → mxFrame (hdr w) ≤ zlen F → pgno_ok pg → 0 ≤ minFrame w → Z.of_nat n = h - walFramePage (minFrame w) + 1 →
  (Z.of_nat n ≠ 0 → 0 ≤ h ∧ before h < mxFrame (hdr w)) → (∀ i, minFrame w ≤ i → before (h + 1) < i ≤ mxFrame (hdr w) → F.[i - 1] ≠ Some pg) →
  ∃ r, tables_loop xShmMap N n h pg (mxFrame (hdr w)) w m = Some (SQLITE_OK, r, w, m) ∧ latest F (minFrame w) (mxFrame (hdr w)) pg r.
Proof.
  intros h HN HR Hmx Hpg Hlo. revert h. induction n as [|n IH]; intros h Hn Hh Hno; cbn [tables_loop].
  - exists 0. split; [done|]. left. split; [done|]. intros i Hi Hi1. apply Hno; [lia|]. split; [|lia]. replace (h + 1) with (walFramePage (minFrame w)) by lia.
    destruct (Z.eq_dec (minFrame w) 0) as [E|E]; [rewrite E; change (before (walFramePage 0)) with 0; lia|].
    destruct (walFramePage_spec (minFrame w)); lia.
  - destruct (Hh ltac:(lia)) as (Hh0 & Hb). destruct (before_next h Hh0) as (En & H0 & Hrm & _). rewrite En in Hno.
    destruct (rep_page _ _ HR h Hh0 ltac:(lia)) as (p & Hp & Hok). rewrite (walHashGet_mapped h w m p Hh0 Hp). change (negb (SQLITE_OK =? SQLITE_OK)) with false.
    cbn [mbind option_bind]. destruct (find_page N w F h p pg HN HR Hh0 Hp Hok Hpg) as (r & -> & Hr & Hall). cbn [mbind option_bind].
    change (negb (SQLITE_OK =? SQLITE_OK)) with false. cbn [mbind option_bind].
    assert (Hpage : ∀ i, minFrame w ≤ i ≤ mxFrame (hdr w) → before h < i → F.[i - 1] = Some pg → i ≤ r).
    { intros i Hi Hib HF. destruct (Z.le_gt_cases i (before h + room h)) as [Hle|Hgt].
      - specialize (Hall _ (hit_chunk h F _ _ pg i Hh0 ltac:(lia) Hi HF)). lia.
      - exfalso. apply (Hno i); [lia|lia|done]. }
    destruct (Z.eqb_spec r 0) as [->|Hr0].
    + assert (Hhit : ∀ i, minFrame w ≤ i → before h < i ≤ mxFrame (hdr w) → F.[i - 1] ≠ Some pg) by (intros i H1 H2 HF; specialize (Hpage i ltac:(lia) ltac:(lia) HF); lia).
      apply IH; [lia| |by replace (h - 1 + 1) with h by lia]. intros Hn0. assert (0 ≤ walFramePage (minFrame w)).
      { unfold walFramePage. wal_consts. apply Z.div_pos; lia. }
      split; [lia|]. pose proof (before_mono (h - 1) h). destruct (before_next (h - 1)); lia.
    + exists r. split; [done|]. right. destruct Hr as [?|Hr]; [done|]. destruct (chunk_hit h F _ _ pg _ Hh0 Hr) as (H1 & H2 & H3).
      replace (r - before h + before h) with r in * by lia. split; [lia|]. split; [lia|]. split; [done|].
      intros i Hi HF. specialize (Hpage i ltac:(lia) ltac:(lia) HF). lia.
Qed.

Lemma find_made w F pg m :
  represents w F → 0 ≤ mxFrame (hdr w) ≤ zlen F → 0 ≤ minFrame w → pgno_ok pg →
  ∃ r, walFindFrame xShmMap pg w m = Some (SQLITE_OK, r, w, m) ∧
    (if (readLock w =? 0) && negb (bShmUnreliable w) then r = 0 else latest F (minFrame w) (mxFrame (hdr w)) pg r).
Proof.
  intros HR Hmx Hlo Hpg. unfold walFindFrame. destruct ((readLock w =? 0) && negb (bShmUnreliable w)); [rewrite orb_true_r; by exists 0|].
  rewrite orb_false_r. destruct (Z.eqb_spec (mxFrame (hdr w)) 0) as [E|E].
  { exists 0. split; [done|]. left. split; [done|]. lia. }
  destruct (walFramePage_spec (mxFrame (hdr w)) ltac:(lia)) as (Hh & Hb1 & Hb2). set (h := walFramePage (mxFrame (hdr w))) in *.
  destruct (before_next h Hh) as (En & H0 & Hrm & _).
  destruct (Z.le_gt_cases (walFramePage (minFrame w)) h) as [Hle|Hgt].
  - apply tables_loop_spec; [wal_consts; lia|done|lia|done|done|lia|lia|]. intros i _ Hi. lia.
  - replace (Z.to_nat (h - walFramePage (minFrame w) + 1)) with 0%nat by lia. exists 0. split; [done|]. left. split; [done|]. intros i Hi Hi1. exfalso.
    assert (walFramePage (minFrame w) ≤ h); [|lia]. unfold h, walFramePage. wal_consts. apply Z.div_le_mono; lia.
Qed.

Lemma undo_made w F a ck nk m :
  represents w F → 0 ≤ mxFrame (hdr w) ≤ zlen F → 0 ≤ a → (nk = nCkpt w → a ≤ mxFrame (hdr w)) →
  let a' := if nk =? nCkpt w then a else 0 in
  ∃ d w' m', sqlite3WalSavepointUndo xShmMap (a, ck, nk) w m = Some (SQLITE_OK, d, w', m') ∧
    mxFrame (hdr w') = a' ∧ minFrame w' = minFrame w ∧ readLock w' = readLock w ∧
    represents w' (if a' =? mxFrame (hdr w) then F else take (Z.to_nat a') F) ∧ (a' ≠ mxFrame (hdr w) → aFrameCksum (hdr w') = ck).
Proof.
  intros HR Hmx Ha Hak a'. unfold sqlite3WalSavepointUndo.
  assert (E : (if negb (nk =? nCkpt w) then (0, nCkpt w) else (a, nk)) = (a', nCkpt w)).
  { unfold a'. destruct (Z.eqb_spec nk (nCkpt w)) as [->|]; done. }
  rewrite E. assert (Ha' : 0 ≤ a' ≤ mxFrame (hdr w)) by (unfold a'; destruct (Z.eqb_spec nk (nCkpt w)); [split; [done|by apply Hak]|lia]).
  destruct (Z.ltb_spec a' (mxFrame (hdr w))) as [Hlt|Hge].
  - set (w0 := with_hdr (with_cksum ck (with_mxFrame a' (hdr w))) w). assert (HR0 : represents w0 F) by (destruct HR; by split).
    destruct (walCleanupHash_spec w0 F m HR0) as (w1 & m1 & -> & HR1 & HS); [cbn; lia|]. cbn [mbind option_bind]. do 3 eexists. split; [done|].
    destruct HS as (Eh & Emin & Erl & _). assert (HR2 : represents (if mxFrame (hdr w1) <? iReCksum w1 then with_iReCksum 0 w1 else w1) (take (Z.to_nat a') F)).
    { destruct (_ <? _); [destruct HR1; by split|done]. }
    destruct (Z.eqb_spec a' (mxFrame (hdr w))); [lia|]. destruct (mxFrame (hdr w1) <? iReCksum w1); cbn [hdr minFrame readLock with_iReCksum]; rewrite Eh, Emin, Erl; done.
  - do 3 eexists. split; [done|]. assert (Ee : a' = mxFrame (hdr w)) by lia. rewrite Ee, Z.eqb_refl. done.
Qed.
End index.

(** ** Properties *)

(** C15: [walIndexAppend] extends the index.  When the index stands for the page numbers [F] of the frames, frame [k + 1] is entered
    behind the first [k], where [k] is the number of all frames or, when a writer died after writing frames that it did not
    commit, [mxFrame]; then what it left behind is dropped.  The table never gets full: the only errors are those of mapping a
    page of the index, and they leave the index as it was. *)
Theorem walIndexAppend_appends xShmMap w F k pg m :
  shm_pages xShmMap → represents w F → 0 ≤ k ≤ zlen F → (k = zlen F ∨ k = mxFrame (hdr w)) → pgno_ok pg →
  ∃ rc w' m', walIndexAppend xShmMap (k + 1) pg w m = Some (rc, w', m') ∧ same_state w w' ∧
    (rc = SQLITE_OK ∧ represents w' (take (Z.to_nat k) F ++ [pg]) ∨
     rc ≠ SQLITE_OK ∧ represents w' F ∧ index_page w (walFramePage (k + 1)) = None).
Proof. intros Hs. by apply append_made. Qed.

(** C14: A reader sees its snapshot: [walFindFrame] gives the last frame from [minFrame] to the [mxFrame] of the reader that has the page,
    or 0, however many frames [F] has in the meantime; a reader that holds the lock of the database file alone is
    told to read that.  The search ends and leaves the index alone. *)
Theorem walFindFrame_latest xShmMap w F pg m :
  shm_pages xShmMap → represents w F → 0 ≤ mxFrame (hdr w) ≤ zlen F → 0 ≤ minFrame w → pgno_ok pg →
  ∃ r, walFindFrame xShmMap pg w m = Some (SQLITE_OK, r, w, m) ∧
    (if (readLock w =? 0) && negb (bShmUnreliable w) then r = 0 else latest F (minFrame w) (mxFrame (hdr w)) pg r).
Proof. intros Hs. by apply find_made. Qed.

(** Rolling back to a savepoint, or to the start of the log when it was restarted since, resets [mxFrame], and the index
    stands for the frames up to there. *)
Theorem SavepointUndo_cuts xShmMap w F a ck nk m :
  shm_pages xShmMap → represents w F → 0 ≤ mxFrame (hdr w) ≤ zlen F → 0 ≤ a → (nk = nCkpt w → a ≤ mxFrame (hdr w)) →
  let a' := if nk =? nCkpt w then a else 0 in
  ∃ d w' m', sqlite3WalSavepointUndo xShmMap (a, ck, nk) w m = Some (SQLITE_OK, d, w', m') ∧
    mxFrame (hdr w') = a' ∧ minFrame w' = minFrame w ∧ readLock w' = readLock w ∧
    represents w' (if a' =? mxFrame (hdr w) then F else take (Z.to_nat a') F) ∧ (a' ≠ mxFrame (hdr w) → aFrameCksum (hdr w') = ck).
Proof. intros Hs. by apply undo_made. Qed.

Lemma no_shm_pages : shm_pages no_shm.
Proof. intros ? ? ? ? [=]. Qed.

Lemma new_wal_empty m b l : represents (mkWal [] 512 1 WAL_HEAPMEMORY_MODE true 0 0 b l 1 0 m) [].
Proof.
  split; [|intros h Hh Hb; destruct (before_next h Hh) as (_ & ? & _); cbn [length] in Hb; lia|constructor].
  intros h p. unfold index_page. cbn [apWiData]. unfold rd. by destruct (h <? 0).
Qed.

Lemma walIndexAppend_appends_witness :
  ∃ rc w' m', walIndexAppend no_shm (0 + 1) 7 new_wal (Mem [] 0) = Some (rc, w', m') ∧ same_state new_wal w' ∧
    (rc = SQLITE_OK ∧ represents w' [7] ∨ rc ≠ SQLITE_OK ∧ represents w' [] ∧ index_page new_wal (walFramePage (0 + 1)) = None).
Proof.
  apply (walIndexAppend_appends no_shm new_wal [] 0 7 (Mem [] 0)); [apply no_shm_pages|apply new_wal_empty|cbn; lia|by left|].
  unfold pgno_ok. lia.
Defined.

(** A log with one frame. *)
Lemma one_frame : ∃ w, represents w [7] ∧ mxFrame (hdr w) = 1 ∧ minFrame w = 1 ∧ readLock w = 1 ∧ nCkpt w = 0.
Proof.
  destruct (append_made no_shm no_shm_pages new_wal [] 0 7 (Mem [] 0)) as (rc & w & m & E & HS & HR);
    [apply new_wal_empty|cbn; lia|by left|unfold pgno_ok; lia|].
  assert (Hrc : ('(rc, _, _) ← walIndexAppend no_shm 1 7 new_wal (Mem [] 0); Some rc) = Some SQLITE_OK) by (vm_compute; reflexivity).
  change (0 + 1) with 1 in E. rewrite E in Hrc. injection Hrc as ->. destruct HR as [(_ & HR)|(? & _)]; [|done].
  exists (with_mx 1 w). destruct HS as (Eh & Emin & Erl & _ & _ & Enk & _). destruct HR as [R1 R2 R3].
  split; [by split|]. unfold with_mx. cbn [hdr with_hdr with_mxFrame mxFrame minFrame readLock nCkpt]. by rewrite Emin, Erl, Enk.
Qed.

Lemma walFindFrame_latest_witness : ∃ w r, represents w [7] ∧ walFindFrame no_shm 7 w (Mem [] 0) = Some (SQLITE_OK, r, w, Mem [] 0) ∧ latest [7] 1 1 7 r.
Proof.
  destruct one_frame as (w & HR & Emx & Emin & Erl & _). exists w.
  destruct (walFindFrame_latest no_shm w [7] 7 (Mem [] 0) no_shm_pages HR) as (r & E & H); [rewrite Emx; cbn; lia|lia|unfold pgno_ok; lia|].
  exists r. rewrite Erl, Emx, Emin in H. auto.
Defined.

Lemma SavepointUndo_cuts_witness :
  ∃ w d w' m', represents w [7] ∧ sqlite3WalSavepointUndo no_shm (0, (0, 0), 0) w (Mem [] 0) = Some (SQLITE_OK, d, w', m') ∧
    mxFrame (hdr w') = 0 ∧ represents w' [].
Proof.
  destruct one_frame as (w & HR & Emx & Emin & Erl & Enk). exists w.
  destruct (SavepointUndo_cuts no_shm w [7] 0 (0, 0) 0 (Mem [] 0) no_shm_pages HR) as (d & w' & m' & E & H1 & _ & _ & H2 & _);
    [rewrite Emx; cbn; lia|lia|lia|].
  rewrite Enk, Emx in *. exists d, w', m'. auto.
Defined.
