(* ===== verification/WalFrame.v ===== *)
(** The frames of the write-ahead log, src/wal.c: checksums, frame headers, the header of the wal-index in the
    shared memory, and recovery of the index from the log file.  Proofs are in WalFrameProofs.v. *)
From S2P Require Import Prelude Varint Wal.

(** The byte order is little-endian; [SQLITE_BIGENDIAN] is 0. *)

Definition SQLITE_BIGENDIAN : Z := 0.
Definition SQLITE_CANTOPEN : Z := 14.
Definition SQLITE_MAX_PAGE_SIZE : Z := 65536.
Definition WAL_MAX_VERSION : Z := 3007000.
Definition WALINDEX_MAX_VERSION : Z := 3007000.
Definition WAL_HDRSIZE : Z := 32.
Definition WAL_FRAME_HDRSIZE : Z := 24.
Definition WAL_MAGIC : Z := 0x377f0682.
Definition READMARK_NOT_USED : Z := 0xffffffff.
Definition WAL_ALL_BUT_WRITE : Z := 1.
Definition WAL_READ_LOCK (i : Z) : Z := 3 + i.
Definition WAL_NREADER : Z := 5.

Definition walFrameOffset (iFrame szPage : Z) : Z := WAL_HDRSIZE + (iFrame - 1) * (szPage + WAL_FRAME_HDRSIZE).

(** ** Checksums *)

Definition BYTESWAP32 (x : Z) : Z :=
  u32 (u32 (u32 (Z.shiftl (Z.land x 0xFF) 24) + u32 (Z.shiftl (Z.land x 0xFF00) 8) + Z.shiftr (Z.land x 0xFF0000) 8) + Z.shiftr (Z.land x 0xFF000000) 24).

(** The words of a byte array as the machine reads them. *)
Fixpoint words_of (a : list Z) : option (list Z) :=
  match a with
  | [] => Some []
  | b0 :: b1 :: b2 :: b3 :: a => l ← words_of a; Some (b0 + 2 ^ 8 * b1 + 2 ^ 16 * b2 + 2 ^ 24 * b3 :: l)
  | _ => None
  end.

(** One step of a checksum: two words. *)
Definition cksum_step (d0 d1 : Z) (s : Z * Z) : Z * Z :=
  let s1 := u32 (fst s + u32 (d0 + snd s)) in (s1, u32 (snd s + u32 (d1 + s1))).

Fixpoint swapped_loop (aData : list Z) (s : Z * Z) : option (Z * Z) :=
  match aData with
  | d0 :: d1 :: aData =>
      let s := cksum_step (BYTESWAP32 d0) (BYTESWAP32 d1) s in
      match aData with [] => Some s | _ => swapped_loop aData s end
  | _ => None
  end.
Fixpoint unrolled_loop (aData : list Z) (s : Z * Z) : option (Z * Z) :=
  match aData with
  | d0 :: d1 :: d2 :: d3 :: d4 :: d5 :: d6 :: d7 :: d8 :: d9 :: d10 :: d11 :: d12 :: d13 :: d14 :: d15 :: aData =>
      let s := cksum_step d0 d1 s in let s := cksum_step d2 d3 s in
      let s := cksum_step d4 d5 s in let s := cksum_step d6 d7 s in
      let s := cksum_step d8 d9 s in let s := cksum_step d10 d11 s in
      let s := cksum_step d12 d13 s in let s := cksum_step d14 d15 s in
      match aData with [] => Some s | _ => unrolled_loop aData s end
  | _ => None
  end.
Fixpoint native_loop (aData : list Z) (s : Z * Z) : option (Z * Z) :=
  match aData with
  | d0 :: d1 :: aData =>
      let s := cksum_step d0 d1 s in
      match aData with [] => Some s | _ => native_loop aData s end
  | _ => None
  end.

Definition walChecksumBytes (nativeCksum : bool) (a : list Z) (aIn : option (Z * Z)) : option (Z * Z) :=
  let s := default (0, 0) aIn in
  aData ← words_of a;
  if negb nativeCksum then swapped_loop aData s
  else if zlen a mod 64 =? 0 then unrolled_loop aData s
  else native_loop aData s.

(** ** Frames *)

Definition with_cksums x w := with_hdr (with_cksum x (hdr w)) w.

(** The header of the frame, and the checksums. *)
Definition walEncodeFrame (iPage nTruncate : Z) (aData : list Z) (w : Wal) : option (list Z * Wal) :=
  let aFrame := sqlite3Put4byte iPage ++ sqlite3Put4byte nTruncate in
  if iReCksum w =? 0 then
    let nativeCksum := bigEndCksum (hdr w) =? SQLITE_BIGENDIAN in
    aCksum ← walChecksumBytes nativeCksum aFrame (Some (aFrameCksum (hdr w)));
    aCksum ← walChecksumBytes nativeCksum aData (Some aCksum);
    Some (aFrame ++ aSalt (hdr w) ++ sqlite3Put4byte (fst aCksum) ++ sqlite3Put4byte (snd aCksum), with_cksums aCksum w)
  else Some (aFrame ++ replicate 16 0, w).

(** The page number and the size of the database of a valid frame. *)
Definition walDecodeFrame (aData aFrame : list Z) (w : Wal) : option (option (Z * Z) * Wal) :=
  if negb (bool_decide (aSalt (hdr w) = take 8 (drop 8 aFrame))) then Some (None, w)
  else
    pgno ← sqlite3Get4byte aFrame;
    if pgno =? 0 then Some (None, w)
    else
      let nativeCksum := bigEndCksum (hdr w) =? SQLITE_BIGENDIAN in
      aCksum ← walChecksumBytes nativeCksum (take 8 aFrame) (Some (aFrameCksum (hdr w)));
      aCksum ← walChecksumBytes nativeCksum aData (Some aCksum);
      let w := with_cksums aCksum w in
      c0 ← sqlite3Get4byte (drop 16 aFrame);
      c1 ← sqlite3Get4byte (drop 20 aFrame);
      if negb (fst aCksum =? c0) || negb (snd aCksum =? c1) then Some (None, w)
      else nTruncate ← sqlite3Get4byte (drop 4 aFrame); Some (Some (pgno, nTruncate), w).

(** ** The header of the wal-index *)

(** The words that the header takes up to its own checksum, and in all. *)
Definition hdr_front (h : WalIndexHdr) : option (list Z) :=
  salt ← words_of (aSalt h);
  Some ([iVersion h; unused h; iChange h; isInit h + 2 ^ 8 * bigEndCksum h + 2 ^ 16 * hdr_szPage h; mxFrame h; nPage h;
         fst (aFrameCksum h); snd (aFrameCksum h)] ++ salt).
Definition hdr_words (h : WalIndexHdr) : option (list Z) := l ← hdr_front h; Some (l ++ [fst (aCksum h); snd (aCksum h)]).

Definition le_bytes (x : Z) : list Z := [u8 x; u8 (Z.shiftr x 8); u8 (Z.shiftr x 16); u8 (Z.shiftr x 24)].
Definition hdr_of_words (l : list Z) : option WalIndexHdr :=
  match l with
  | [ver; un; chg; x; mx; np; c0; c1; s0; s1; k0; k1] =>
      Some (mkHdr ver un chg (u8 x) (u8 (Z.shiftr x 8)) (Z.shiftr x 16) mx np (c0, c1) (le_bytes s0 ++ le_bytes s1) (k0, k1))
  | _ => None
  end.

Definition put_words (at_ : nat) (l : list Z) (w : Wal) : option Wal :=
  p ← index_page w 0;
  Some (set_page 0 (Some (mkWipage (take at_ (words p) ++ l ++ drop (at_ + length l) (words p)) (slots p))) w).
Definition get_words (at_ : nat) (w : Wal) : option (list Z) := p ← index_page w 0; Some (take 12 (drop at_ (words p))).

(** The checksum of the header in memory order. *)
Definition hdr_cksum (h : WalIndexHdr) : option (Z * Z) := l ← hdr_front h; native_loop l (0, 0).

Definition walIndexWriteHdr (w : Wal) : option Wal :=
  let h := hdr w in
  let h := mkHdr WALINDEX_MAX_VERSION (unused h) (iChange h) 1 (bigEndCksum h) (hdr_szPage h) (mxFrame h) (nPage h) (aFrameCksum h) (aSalt h) (aCksum h) in
  ck ← hdr_cksum h;
  let h := mkHdr (iVersion h) (unused h) (iChange h) (isInit h) (bigEndCksum h) (hdr_szPage h) (mxFrame h) (nPage h) (aFrameCksum h) (aSalt h) ck in
  l ← hdr_words h;
  w ← put_words 12 l (with_hdr h w);
  put_words 0 l w.

(** Whether the header has to be read again, and whether it changed. *)
Definition walIndexTryHdr (w : Wal) : option (bool * bool * Wal) :=
  l1 ← get_words 0 w;
  l2 ← get_words 12 w;
  if negb (bool_decide (l1 = l2)) then Some (true, false, w)
  else
    h1 ← hdr_of_words l1;
    if isInit h1 =? 0 then Some (true, false, w)
    else
      ck ← hdr_cksum h1;
      if negb (fst ck =? fst (aCksum h1)) || negb (snd ck =? snd (aCksum h1)) then Some (true, false, w)
      else
        l ← hdr_words (hdr w);
        if negb (bool_decide (l = l1)) then
          Some (false, true, mkWal (apWiData w) (Z.land (hdr_szPage h1) 0xfe00 + Z.shiftl (Z.land (hdr_szPage h1) 1) 16) (readLock w)
            (exclusiveMode w) (writeLock w) (ckptLock w) (readOnly w) (bShmUnreliable w) h1 (minFrame w) (iReCksum w) (nCkpt w))
        else Some (false, false, w).

(** ** Recovery *)

Definition with_szPage x w := mkWal (apWiData w) x (readLock w) (exclusiveMode w) (writeLock w) (ckptLock w) (readOnly w)
  (bShmUnreliable w) (hdr w) (minFrame w) (iReCksum w) (nCkpt w).
Definition with_nCkpt x w := mkWal (apWiData w) (szPage w) (readLock w) (exclusiveMode w) (writeLock w) (ckptLock w) (readOnly w)
  (bShmUnreliable w) (hdr w) (minFrame w) (iReCksum w) x.
Definition zero_hdr : WalIndexHdr := mkHdr 0 0 0 0 0 0 0 0 (0, 0) (replicate 8 0) (0, 0).
Definition with_source big salt h := mkHdr (iVersion h) (unused h) (iChange h) (isInit h) big (hdr_szPage h) (mxFrame h) (nPage h)
  (aFrameCksum h) salt (aCksum h).
Definition with_commit iFrame nTruncate sz h := mkHdr (iVersion h) (unused h) (iChange h) (isInit h) (bigEndCksum h) sz iFrame nTruncate
  (aFrameCksum h) (aSalt h) (aCksum h).

(** A word of the header of the wal-index: [WalCkptInfo] begins at word 24. *)
Definition set_info (k v : Z) (w : Wal) : option Wal :=
  p ← index_page w 0; l ← wr (words p) k v; Some (set_page 0 (Some (mkWipage l (slots p))) w).
Definition info_nBackfill : Z := 24.
Definition info_aReadMark (i : Z) : Z := 25 + i.
Definition info_nBackfillAttempted : Z := 32.

Section recover.
(** The shared memory, its locks, and the log file: its size and what is read from it. *)
Context (xShmMap : Z → bool → Z * option wipage) (xShmLock : Z → Z → Z) (xFileSize : Z * Z) (xRead : Z → Z → Z * list Z).

Definition walLockExclusive (lockIdx n : Z) (w : Wal) : Z := if exclusiveMode w =? 0 then xShmLock lockIdx n else SQLITE_OK.

(** The frames of one page of the index, [n] of them: the result code, the frame where it stopped, the
    checksums of the last commit. *)
Fixpoint recover_frames (n : nat) (rc iFrame szPage : Z) (ck : Z * Z) (w : Wal) (m : mem) : option (Z * Z * (Z * Z) * Wal * mem) :=
  match n with
  | O => Some (rc, iFrame, ck, w, m)
  | S n =>
      let '(rc, aFrame) := xRead (szPage + WAL_FRAME_HDRSIZE) (walFrameOffset iFrame szPage) in
      if negb (rc =? SQLITE_OK) then Some (rc, iFrame, ck, w, m)
      else
        '(frame, w) ← walDecodeFrame (drop 24 aFrame) (take 24 aFrame) w;
        match frame with
        | None => Some (SQLITE_OK, iFrame, ck, w, m)
        | Some (pgno, nTruncate) =>
            '(rc, w, m) ← walIndexAppend xShmMap iFrame pgno w m;
            if negb (rc =? SQLITE_OK) then Some (rc, iFrame, ck, w, m)
            else if negb (nTruncate =? 0) then
              let w := with_hdr (with_commit iFrame nTruncate (u16 (Z.lor (Z.land szPage 0xff00) (Z.shiftr szPage 16))) (hdr w)) w in
              recover_frames n rc (iFrame + 1) szPage (aFrameCksum (hdr w)) w m
            else recover_frames n rc (iFrame + 1) szPage ck w m
        end
  end.

(** The pages of the index, [n] of them; [aPrivate] is the copy on the heap that is filled. *)
Fixpoint recover_pages (n : nat) (iPg iLastFrame szPage : Z) (aPrivate : wipage) (rc : Z) (ck : Z * Z) (w : Wal) (m : mem) :
    option (Z * (Z * Z) * Wal * mem) :=
  match n with
  | O => Some (rc, ck, w, m)
  | S n =>
      let iLast := Z.min iLastFrame (HASHTABLE_NPAGE_ONE + iPg * HASHTABLE_NPAGE) in
      let iFirst := 1 + (if iPg =? 0 then 0 else HASHTABLE_NPAGE_ONE + (iPg - 1) * HASHTABLE_NPAGE) in
      let '(rc, w, m) := walIndexPage xShmMap iPg w m in
      match index_page w iPg with
      | None => Some (rc, ck, w, m)
      | Some aShare =>
          '(rc, iFrame, ck, w, m) ← recover_frames (Z.to_nat (iLast - iFirst + 1)) rc iFirst szPage ck (set_page iPg (Some aPrivate) w) m;
          aPrivate ← index_page w iPg;
          let nHdr32 := if iPg =? 0 then 34%nat else 0%nat in
          let w := set_page iPg (Some (mkWipage (take nHdr32 (words aShare) ++ drop nHdr32 (words aPrivate)) (slots aPrivate))) w in
          if iFrame <=? iLast then Some (rc, ck, w, m) else recover_pages n (iPg + 1) iLastFrame szPage aPrivate rc ck w m
      end
  end.

(** The header of the log file, and what follows it: the result code, the checksums of the last commit, and whether
    recovery gives up at once. *)
Definition recover_log (nSize : Z) (aPrivate : wipage) (w : Wal) (m : mem) : option (bool * Z * (Z * Z) * Wal * mem) :=
  let '(rc, aBuf) := xRead WAL_HDRSIZE 0 in
  if negb (rc =? SQLITE_OK) then Some (true, rc, (0, 0), w, m)
  else
    magic ← sqlite3Get4byte aBuf;
    szPage ← sqlite3Get4byte (drop 8 aBuf);
    let szPage := i32 szPage in
    if negb (Z.land magic 0xFFFFFFFE =? WAL_MAGIC) || negb (Z.land szPage (szPage - 1) =? 0) ||
       (SQLITE_MAX_PAGE_SIZE <? szPage) || (szPage <? 512) then Some (false, SQLITE_OK, (0, 0), w, m)
    else
      nckpt ← sqlite3Get4byte (drop 12 aBuf);
      let w := with_nCkpt nckpt (with_szPage szPage (with_hdr (with_source (Z.land magic 1) (take 8 (drop 16 aBuf)) (hdr w)) w)) in
      ck ← walChecksumBytes (bigEndCksum (hdr w) =? SQLITE_BIGENDIAN) (take 24 aBuf) None;
      let w := with_cksums ck w in
      c0 ← sqlite3Get4byte (drop 24 aBuf);
      c1 ← sqlite3Get4byte (drop 28 aBuf);
      if negb (fst ck =? c0) || negb (snd ck =? c1) then Some (false, SQLITE_OK, (0, 0), w, m)
      else
        version ← sqlite3Get4byte (drop 4 aBuf);
        if negb (version =? WAL_MAX_VERSION) then Some (false, SQLITE_CANTOPEN, (0, 0), w, m)
        else
          let '(ok, m) := sqlite3Malloc m in
          if negb ok then Some (true, SQLITE_NOMEM, (0, 0), w, m)
          else
            let iLastFrame := (nSize - WAL_HDRSIZE) / (szPage + WAL_FRAME_HDRSIZE) in
            '(rc, ck, w, m) ← recover_pages (Z.to_nat (walFramePage iLastFrame + 1)) 0 iLastFrame szPage aPrivate SQLITE_OK (0, 0) w m;
            Some (false, rc, ck, w, sqlite3_free m).

(** The read marks from [i] on, [n] of them. *)
Fixpoint mark_loop (n : nat) (i rc : Z) (w : Wal) : option (Z * Wal) :=
  match n with
  | O => Some (rc, w)
  | S n =>
      let rc := walLockExclusive (WAL_READ_LOCK i) 1 w in
      if rc =? SQLITE_OK then
        w ← set_info (info_aReadMark i) (if (i =? 1) && negb (mxFrame (hdr w) =? 0) then mxFrame (hdr w) else READMARK_NOT_USED) w;
        mark_loop n (i + 1) rc w
      else if negb (rc =? SQLITE_BUSY) then Some (rc, w)
      else mark_loop n (i + 1) rc w
  end.

Definition walIndexRecover (aPrivate : wipage) (w : Wal) (m : mem) : option (Z * Wal * mem) :=
  let iLock := WAL_ALL_BUT_WRITE + ckptLock w in
  let rc := walLockExclusive iLock (WAL_READ_LOCK 0 - iLock) w in
  if negb (rc =? SQLITE_OK) then Some (rc, w, m)
  else
    let w := with_hdr zero_hdr w in
    let '(rc, nSize) := xFileSize in
    if negb (rc =? SQLITE_OK) then Some (rc, w, m)
    else
      '(error, rc, ck, w, m) ← (if WAL_HDRSIZE <? nSize then recover_log nSize aPrivate w m else Some (false, SQLITE_OK, (0, 0), w, m));
      if error || negb (rc =? SQLITE_OK) then Some (rc, w, m)
      else
        w ← walIndexWriteHdr (with_cksums ck w);
        w ← set_info info_nBackfill 0 w;
        w ← set_info info_nBackfillAttempted (mxFrame (hdr w)) w;
        w ← set_info (info_aReadMark 0) 0 w;
        '(rc, w) ← mark_loop (Z.to_nat (WAL_NREADER - 1)) 1 rc w;
        Some (rc, w, m).
End recover.
