(* ===== verification/WalFrameProofs.v ===== *)
(** Proofs about the frames of the write-ahead log (WalFrame.v): the loops of the checksum agree, a frame that was
    encoded is valid, a header that was written is read back, and recovery finds the frames up to the
    first invalid one and the last commit among them. *)
From S2P Require Import Prelude Varint LinearProbe Wal WalProofs WalFrame.

(** ** Checksums *)

Fixpoint fletcher (l : list Z) (s : Z * Z) : Z * Z :=
  match l with d0 :: d1 :: l => fletcher l (cksum_step d0 d1 s) | _ => s end.

Lemma pair_ind (P : list Z → Prop) : P [] → (∀ a, P [a]) → (∀ a b l, P l → P (a :: b :: l)) → ∀ l, P l.
Proof. intros H0 H1 H2. fix IH 1. intros [|a [|b l]]; [done|done|]. apply H2, IH. Qed.

Lemma native_fletcher l : ∀ s, l ≠ [] → (2 | zlen l) → native_loop l s = Some (fletcher l s).
Proof.
  induction l as [|a|a b l IH] using pair_ind; intros s Hne (q & Hq); [done|cbn in Hq; lia|]. cbn [native_loop fletcher].
  destruct l as [|c l]; [done|]. apply IH; [done|]. exists (q - 1). cbn [length] in *. lia.
Qed.

Lemma swapped_fletcher l : ∀ s, l ≠ [] → (2 | zlen l) → swapped_loop l s = Some (fletcher (BYTESWAP32 <$> l) s).
Proof.
  induction l as [|a|a b l IH] using pair_ind; intros s Hne (q & Hq); [done|cbn in Hq; lia|]. cbn [swapped_loop fletcher fmap list_fmap].
  destruct l as [|c l]; [done|]. apply IH; [done|]. exists (q - 1). cbn [length] in *. lia.
Qed.

Lemma unrolled_fletcher (n : nat) : ∀ l s, (length l = 16 * S n)%nat → unrolled_loop l s = Some (fletcher l s).
Proof.
  induction n as [|n IH]; intros l s Hl; do 16 (destruct l as [|? l]; [cbn in Hl; lia|]); cbn [unrolled_loop fletcher].
  - destruct l; [done|cbn in Hl; lia].
  - destruct l as [|x l]; [cbn in Hl; lia|]. apply IH. cbn [length] in *. lia.
Qed.

Lemma quad_ind (P : list Z → Prop) : P [] → (∀ a, P [a]) → (∀ a b, P [a; b]) → (∀ a b c, P [a; b; c]) → (∀ a b c d l, P l → P (a :: b :: c :: d :: l)) → ∀ l, P l.
Proof. intros H0 H1 H2 H3 H4. fix IH 1. intros [|a [|b [|c [|d l]]]]; [done|done|done|done|]. apply H4, IH. Qed.

Lemma words_of_length a : (4 | zlen a) → ∃ l, words_of a = Some l ∧ zlen a = 4 * zlen l.
Proof.
  induction a as [|?|? ?|? ? ?|b0 b1 b2 b3 a IH] using quad_ind; intros (q & Hq); cbn [length] in Hq; try lia; [by exists []|].
  destruct IH as (l & E & Hl); [exists (q - 1); lia|]. cbn [words_of]. rewrite E. eexists. split; [done|]. cbn [length]. lia.
Qed.

Definition order_words (native : bool) (l : list Z) : list Z := if native then l else BYTESWAP32 <$> l.

Lemma checksum_made native a aIn :
  0 < zlen a → (8 | zlen a) → ∃ l, words_of a = Some l ∧ walChecksumBytes native a aIn = Some (fletcher (order_words native l) (default (0, 0) aIn)).
Proof.
  intros Hpos (q & Hq). destruct (words_of_length a) as (l & E & Hl); [exists (2 * q); lia|]. exists l. split; [done|].
  unfold walChecksumBytes. rewrite E. cbn [mbind option_bind].
  assert (Hne : l ≠ []) by (intros ->; cbn in Hl; lia). assert (He : (2 | zlen l)) by (exists q; lia).
  destruct native; cbn [negb order_words]; [|by apply swapped_fletcher].
  destruct (Z.eqb_spec (zlen a mod 64) 0) as [E0|E0]; [|by apply native_fletcher].
  apply Z.mod_divide in E0 as (k & Hk); [|done]. apply (unrolled_fletcher (Z.to_nat (k - 1))). lia.
Qed.

(** ** Frames *)

Lemma get4_put4 v rest : 0 ≤ v < 2 ^ 32 → sqlite3Get4byte (sqlite3Put4byte v ++ rest) = Some v.
Proof. apply Get4byte_Put4byte. Qed.

Definition u32_pair (s : Z * Z) : Prop := 0 ≤ fst s < 2 ^ 32 ∧ 0 ≤ snd s < 2 ^ 32.
Lemma fletcher_u32 l : ∀ s, u32_pair s → u32_pair (fletcher l s).
Proof.
  induction l as [|a|a b l IH] using pair_ind; intros s Hs; [done|done|]. cbn [fletcher]. apply IH. split; apply u32_range.
Qed.

(** The checksum of a frame after the checksum of those before it. *)
Definition frame_cksum (big : Z) (s : Z * Z) (pg nt : Z) (data : list Z) : option (Z * Z) :=
  s ← walChecksumBytes (big =? SQLITE_BIGENDIAN) (sqlite3Put4byte pg ++ sqlite3Put4byte nt) (Some s);
  walChecksumBytes (big =? SQLITE_BIGENDIAN) data (Some s).

Definition frame_header (salt : list Z) (s : Z * Z) (pg nt : Z) : list Z :=
  (sqlite3Put4byte pg ++ sqlite3Put4byte nt) ++ salt ++ sqlite3Put4byte (fst s) ++ sqlite3Put4byte (snd s).

Lemma encode_made pg nt data w s :
  iReCksum w = 0 → frame_cksum (bigEndCksum (hdr w)) (aFrameCksum (hdr w)) pg nt data = Some s →
  walEncodeFrame pg nt data w = Some (frame_header (aSalt (hdr w)) s pg nt, with_cksums s w).
Proof.
  intros H0 Hs. unfold walEncodeFrame. rewrite H0. cbn [Z.eqb]. unfold frame_cksum in Hs.
  destruct (walChecksumBytes _ (sqlite3Put4byte pg ++ _) _) as [s1|]; [|done]. cbn [mbind option_bind] in *. rewrite Hs. done.
Qed.

(** The fields of a frame header. *)
Lemma header_fields (a b c d salt : list Z) :
  length a = 4%nat → length b = 4%nat → length c = 4%nat → length salt = 8%nat →
  let H := (a ++ b) ++ salt ++ c ++ d in
  take 8 (drop 8 H) = salt ∧ take 8 H = a ++ b ∧ drop 4 H = b ++ salt ++ c ++ d ∧ drop 16 H = c ++ d ∧ drop 20 H = d.
Proof.
  intros Ha Hb Hc Hs. cbn zeta. split_and!.
  - rewrite (drop_app_length' (a ++ b) _ 8) by (rewrite length_app; lia). by rewrite take_app_length'.
  - rewrite take_app_length'; [done|rewrite length_app; lia].
  - rewrite <- app_assoc, drop_app_length' by done. done.
  - rewrite (app_assoc (a ++ b)), drop_app_length'; [done|rewrite !length_app; lia].
  - rewrite !app_assoc, drop_app_length'; [done|rewrite !length_app; lia].
Qed.

Lemma decode_made pg nt data w s :
  length (aSalt (hdr w)) = 8%nat → 0 < pg < 2 ^ 32 → 0 ≤ nt < 2 ^ 32 → u32_pair s →
  frame_cksum (bigEndCksum (hdr w)) (aFrameCksum (hdr w)) pg nt data = Some s →
  walDecodeFrame data (frame_header (aSalt (hdr w)) s pg nt) w = Some (Some (pg, nt), with_cksums s w).
Proof.
  intros Hsalt Hpg Hnt Hs Hck. unfold walDecodeFrame, frame_header.
  destruct (header_fields (sqlite3Put4byte pg) (sqlite3Put4byte nt) (sqlite3Put4byte (fst s)) (sqlite3Put4byte (snd s)) (aSalt (hdr w)))
    as (-> & -> & -> & -> & ->); try done.
  rewrite bool_decide_eq_true_2 by done. cbn [negb]. rewrite <- (app_assoc (sqlite3Put4byte pg)), get4_put4 by lia. cbn [mbind option_bind].
  unfold frame_cksum in Hck.
  destruct (walChecksumBytes _ (sqlite3Put4byte pg ++ _) _) as [s1|]; [|done]. cbn [mbind option_bind] in *. rewrite Hck. cbn [mbind option_bind].
  rewrite get4_put4 by apply Hs. cbn [mbind option_bind].
  rewrite <- (app_nil_r (sqlite3Put4byte (snd s))), get4_put4 by apply Hs. cbn [mbind option_bind]. rewrite !Z.eqb_refl. cbn [negb orb].
  rewrite get4_put4 by lia. cbn [mbind option_bind]. by rewrite (proj2 (Z.eqb_neq pg 0)) by lia.
Qed.

(** The words of a byte array, least or most significant byte first. *)
Fixpoint le_words (a : list Z) : list Z :=
  match a with b0 :: b1 :: b2 :: b3 :: a => b0 + 2 ^ 8 * b1 + 2 ^ 16 * b2 + 2 ^ 24 * b3 :: le_words a | _ => [] end.
Fixpoint be_words (a : list Z) : list Z :=
  match a with b0 :: b1 :: b2 :: b3 :: a => 2 ^ 24 * b0 + 2 ^ 16 * b1 + 2 ^ 8 * b2 + b3 :: be_words a | _ => [] end.

Lemma words_le a : (4 | zlen a) → words_of a = Some (le_words a).
Proof.
  induction a as [|?|? ?|? ? ?|b0 b1 b2 b3 a IH] using quad_ind; intros (q & Hq); cbn [length] in Hq; try lia; [done|].
  cbn [words_of le_words]. rewrite IH by (exists (q - 1); lia). done.
Qed.

Lemma swap_word b0 b1 b2 b3 : 0 ≤ b0 < 256 → 0 ≤ b1 < 256 → 0 ≤ b2 < 256 → 0 ≤ b3 < 256 →
  BYTESWAP32 (b0 + 2 ^ 8 * b1 + 2 ^ 16 * b2 + 2 ^ 24 * b3) = 2 ^ 24 * b0 + 2 ^ 16 * b1 + 2 ^ 8 * b2 + b3.
Proof.
  intros H0 H1 H2 H3. set (x := b0 + _ + _ + _). unfold BYTESWAP32.
  assert (E : ∀ k, 0 ≤ k → Z.land x (Z.shiftl 0xFF k) = Z.shiftl (x / 2 ^ k mod 256) k).
  { intros k Hk. rewrite <- Z.shiftr_div_pow2 by done. change 256 with (2 ^ 8). rewrite <- Z.land_ones by lia. change (Z.ones 8) with 255.
    apply Z.bits_inj'. intros n Hn. rewrite Z.land_spec, !Z.shiftl_spec, Z.land_spec by done.
    destruct (Z.lt_ge_cases n k); [rewrite !(Z.testbit_neg_r _ (n - k)) by lia; apply andb_false_r|].
    rewrite Z.shiftr_spec by lia. do 2 f_equal. lia. }
  pose proof (E 0 ltac:(lia)) as E0. pose proof (E 8 ltac:(lia)) as E8. pose proof (E 16 ltac:(lia)) as E16. pose proof (E 24 ltac:(lia)) as E24.
  change (Z.shiftl 255 0) with 255 in E0. change (Z.shiftl 255 8) with 0xFF00 in E8. change (Z.shiftl 255 16) with 0xFF0000 in E16.
  change (Z.shiftl 255 24) with 0xFF000000 in E24. rewrite E0, E8, E16, E24.
  replace (x / 2 ^ 0 mod 256) with b0 by (unfold x; zdm). replace (x / 2 ^ 8 mod 256) with b1 by (unfold x; zdm).
  replace (x / 2 ^ 16 mod 256) with b2 by (unfold x; zdm). replace (x / 2 ^ 24 mod 256) with b3 by (unfold x; zdm).
  rewrite !Z.shiftr_div_pow2, !Z.shiftl_mul_pow2 by lia. unfold u32. zdm.
Qed.

Lemma swapped_words a : bytes a → BYTESWAP32 <$> le_words a = be_words a.
Proof.
  induction a as [|?|? ?|? ? ?|b0 b1 b2 b3 a IH] using quad_ind; intros H; [done|done|done|done|].
  repeat (apply bytes_cons in H as [? H]). cbn [le_words be_words fmap list_fmap]. f_equal; [by apply swap_word|by apply IH].
Qed.

(** ** The header of the wal-index *)

Record hdr_ok (h : WalIndexHdr) : Prop := HdrOk {
  ok_isInit : 0 ≤ isInit h < 256;
  ok_big : 0 ≤ bigEndCksum h < 256;
  ok_szPage : 0 ≤ hdr_szPage h < 2 ^ 16;
  ok_salt : length (aSalt h) = 8%nat;
  ok_bytes : bytes (aSalt h) }.

Lemma le_bytes_word b0 b1 b2 b3 : 0 ≤ b0 < 256 → 0 ≤ b1 < 256 → 0 ≤ b2 < 256 → 0 ≤ b3 < 256 →
  le_bytes (b0 + 2 ^ 8 * b1 + 2 ^ 16 * b2 + 2 ^ 24 * b3) = [b0; b1; b2; b3].
Proof. intros. unfold le_bytes, u8. rewrite !Z.shiftr_div_pow2 by lia. repeat f_equal; zdm. Qed.

(** The header as twelve words. *)
Lemma hdr_words_made h : hdr_ok h → ∃ l, hdr_words h = Some l ∧ length l = 12%nat ∧ hdr_of_words l = Some h ∧
  ∃ f, hdr_front h = Some f ∧ length f = 10%nat.
Proof.
  intros [Hi Hb Hs Hl Hbs]. destruct h as [ver un chg ini big sz mx np [c0 c1] salt [k0 k1]]. cbn in Hi, Hb, Hs, Hl, Hbs.
  do 8 (destruct salt as [|? salt]; [done|]). destruct salt; [|done]. repeat (apply bytes_cons in Hbs as [? Hbs]).
  eexists. split; [reflexivity|]. split; [done|]. split; [|eexists; done]. cbn [app hdr_of_words fst snd isInit bigEndCksum hdr_szPage]. do 2 f_equal.
  - unfold u8. zdm.
  - unfold u8. rewrite Z.shiftr_div_pow2 by lia. zdm.
  - rewrite Z.shiftr_div_pow2 by lia. zdm.
  - by rewrite !le_bytes_word.
Qed.

Lemma hdr_cksum_made h : hdr_ok h → ∃ s, hdr_cksum h = Some s.
Proof.
  intros Hok. destruct (hdr_words_made h Hok) as (_ & _ & _ & _ & f & Ef & Hf). exists (fletcher f (0, 0)). unfold hdr_cksum. rewrite Ef.
  cbn [mbind option_bind]. apply native_fletcher; [by intros ->|]. rewrite Hf. by exists 5.
Qed.

(** What [walIndexWriteHdr] makes of the header. *)
Definition stamped (h : WalIndexHdr) (ck : Z * Z) : WalIndexHdr :=
  mkHdr WALINDEX_MAX_VERSION (unused h) (iChange h) 1 (bigEndCksum h) (hdr_szPage h) (mxFrame h) (nPage h) (aFrameCksum h) (aSalt h) ck.

Lemma stamped_ok h ck : hdr_ok h → hdr_ok (stamped h ck).
Proof. intros [? ? ? ? ?]. by split. Qed.

Lemma set_set_page h p q w : set_page h p (set_page h q w) = set_page h p w.
Proof. unfold set_page. cbn [apWiData with_index]. by rewrite list_insert_insert_eq. Qed.

Lemma put_words_made (at_ : nat) l w p :
  index_page w 0 = Some p →
  put_words at_ l w = Some (set_page 0 (Some (mkWipage (take at_ (words p) ++ l ++ drop (at_ + length l) (words p)) (slots p))) w).
Proof. intros E. unfold put_words. by rewrite E. Qed.

Lemma write_hdr_made w p :
  hdr_ok (hdr w) → index_page w 0 = Some p → sized p →
  ∃ ck l, hdr_cksum (stamped (hdr w) ck) = Some ck ∧ hdr_words (stamped (hdr w) ck) = Some l ∧
    walIndexWriteHdr w = Some (set_page 0 (Some (mkWipage (l ++ l ++ drop 24 (words p)) (slots p))) (with_hdr (stamped (hdr w) ck) w)).
Proof.
  intros Hok Hp [Hsz _]. destruct (hdr_cksum_made _ (stamped_ok _ (aCksum (hdr w)) Hok)) as (ck & Eck).
  destruct (hdr_words_made _ (stamped_ok _ ck Hok)) as (l & El & Hl & _). exists ck, l. split; [done|]. split; [done|].
  unfold walIndexWriteHdr. cbn beta zeta. cbn [iVersion unused iChange isInit bigEndCksum hdr_szPage mxFrame nPage aFrameCksum aSalt aCksum].
  fold (stamped (hdr w) (aCksum (hdr w))). rewrite Eck. cbn [mbind option_bind]. fold (stamped (hdr w) ck). rewrite El. cbn [mbind option_bind].
  wal_consts. set (w1 := with_hdr _ w). assert (Hp1 : index_page w1 0 = Some p) by done.
  rewrite (put_words_made 12 l w1 p Hp1). cbn [mbind option_bind]. set (q := mkWipage _ _).
  assert (Hq : index_page (set_page 0 (Some q) w1) 0 = Some q) by (rewrite index_set_page; [done|exact (index_bounds _ _ _ Hp)]).
  rewrite (put_words_made 0 l _ q Hq), set_set_page. cbn [words slots q]. rewrite Hl. cbn [plus take app].
  rewrite drop_app_length' by (wal_consts; rewrite length_take; lia). done.
Qed.

#[global] Instance WalIndexHdr_eq_dec : EqDecision WalIndexHdr.
Proof. solve_decision. Defined.

(** A header of which the front and the back copy are in page 0. *)
Lemma try_hdr_made w p h ck l rest :
  hdr_ok h → isInit h = 1 → aCksum h = ck → hdr_cksum h = Some ck → hdr_words h = Some l → hdr_ok (hdr w) →
  index_page w 0 = Some p → words p = l ++ l ++ rest →
  ∃ w', walIndexTryHdr w = Some (false, negb (bool_decide (hdr w = h)), w') ∧ hdr w' = h ∧ apWiData w' = apWiData w ∧
    (hdr w = h → w' = w).
Proof.
  intros Hok Hi Hk Eck El Hokw Hp Hw. destruct (hdr_words_made h Hok) as (l' & El' & Hl & Hinv & _). rewrite El in El'. injection El' as <-.
  unfold walIndexTryHdr, get_words. rewrite Hp. cbn [mbind option_bind]. rewrite Hw, drop_0, take_app_length' by done. cbn [mbind option_bind].
  rewrite drop_app_length', take_app_length' by done. rewrite bool_decide_eq_true_2 by done. cbn [negb mbind option_bind]. rewrite Hinv.
  cbn [mbind option_bind]. rewrite Hi. change (1 =? 0) with false. cbv iota. rewrite Eck. cbn [mbind option_bind]. rewrite Hk, !Z.eqb_refl. cbn [negb orb].
  destruct (hdr_words_made (hdr w) Hokw) as (lw & Ew & _ & Hinvw & _). rewrite Ew. cbn [mbind option_bind].
  destruct (decide (lw = l)) as [->|Hne].
  - assert (hdr w = h) as E by congruence. rewrite !bool_decide_eq_true_2 by done. by exists w.
  - assert (hdr w ≠ h) by congruence. rewrite !bool_decide_eq_false_2 by done. eexists. split; [done|]. by split_and!.
Qed.

(** ** The properties *)

Lemma frame_cksum_made big s pg nt data :
  u32_pair s → 0 < zlen data → (8 | zlen data) → ∃ s', frame_cksum big s pg nt data = Some s' ∧ u32_pair s'.
Proof.
  intros Hs Hp Hd. unfold frame_cksum.
  destruct (checksum_made (big =? SQLITE_BIGENDIAN) (sqlite3Put4byte pg ++ sqlite3Put4byte nt) (Some s)) as (l1 & _ & ->); [done|by exists 1|].
  cbn [mbind option_bind]. set (s1 := fletcher _ _).
  destruct (checksum_made (big =? SQLITE_BIGENDIAN) data (Some s1) Hp Hd) as (l2 & _ & ->). eexists. split; [done|]. cbn [default]. do 2 apply fletcher_u32. done.
Qed.

Lemma header_length salt s pg nt : length salt = 8%nat → length (frame_header salt s pg nt) = 24%nat.
Proof. intros Hs. unfold frame_header. rewrite !length_app, Hs. done. Qed.

(** The three loops of [walChecksumBytes], the unrolled one included, compute the same checksum of Fletcher's kind: over
    the words of the bytes in the order of the machine, or in the other order, which on this machine is the
    big-endian one. *)
Theorem walChecksumBytes_fletcher a aIn :
  bytes a → 0 < zlen a → (8 | zlen a) →
  walChecksumBytes true a aIn = Some (fletcher (le_words a) (default (0, 0) aIn)) ∧
  walChecksumBytes false a aIn = Some (fletcher (be_words a) (default (0, 0) aIn)).
Proof.
  intros Hb Hp (q & Hq). assert (Hd : (8 | zlen a)) by by exists q. assert (H4 : (4 | zlen a)) by (exists (2 * q); lia).
  destruct (checksum_made true a aIn Hp Hd) as (l & El & ->). destruct (checksum_made false a aIn Hp Hd) as (l' & El' & ->).
  rewrite words_le in El, El' by done. injection El as <-. injection El' as <-. unfold order_words. by rewrite swapped_words.
Qed.

(** C18: A frame header that [walEncodeFrame] made is 24 bytes long and valid to [walDecodeFrame] for a reader with the salts,
    the byte order and the running checksum of the writer, gives back the page number and the size of the database,
    and leaves the two with the same running checksum; to a reader with other salts it is not valid. *)
Theorem walDecodeFrame_Encode pg nt data w :
  iReCksum w = 0 → length (aSalt (hdr w)) = 8%nat → u32_pair (aFrameCksum (hdr w)) → 0 < pg < 2 ^ 32 → 0 ≤ nt < 2 ^ 32 →
  0 < zlen data → (8 | zlen data) →
  ∃ aFrame w', walEncodeFrame pg nt data w = Some (aFrame, w') ∧ length aFrame = 24%nat ∧
    (∀ r, aSalt (hdr r) = aSalt (hdr w) → bigEndCksum (hdr r) = bigEndCksum (hdr w) → aFrameCksum (hdr r) = aFrameCksum (hdr w) →
       walDecodeFrame data aFrame r = Some (Some (pg, nt), with_cksums (aFrameCksum (hdr w')) r)) ∧
    (∀ r, aSalt (hdr r) ≠ aSalt (hdr w) → walDecodeFrame data aFrame r = Some (None, r)).
Proof.
  intros H0 Hsalt Hs Hpg Hnt Hp Hd. destruct (frame_cksum_made (bigEndCksum (hdr w)) _ pg nt data Hs Hp Hd) as (s & Es & Hs').
  exists (frame_header (aSalt (hdr w)) s pg nt), (with_cksums s w). split; [by apply encode_made|]. split; [by apply header_length|]. split.
  - intros r E1 E2 E3. rewrite <- E1. apply decode_made; [by rewrite E1|done|done|done|by rewrite E2, E3].
  - intros r Hne. unfold walDecodeFrame, frame_header.
    destruct (header_fields (sqlite3Put4byte pg) (sqlite3Put4byte nt) (sqlite3Put4byte (fst s)) (sqlite3Put4byte (snd s)) (aSalt (hdr w)))
      as (-> & _); try done. by rewrite bool_decide_eq_false_2.
Qed.

(** C19: What [walIndexWriteHdr] put into the shared memory is what [walIndexTryHdr] of another connection reads: its header becomes the
    writer's, it is told whether that is a change, and it does not have to read again.  A reader that comes when the
    two copies differ has to. *)
Theorem walIndexTryHdr_Write w p r :
  hdr_ok (hdr w) → hdr_ok (hdr r) → index_page w 0 = Some p → sized p →
  ∃ w' q, walIndexWriteHdr w = Some w' ∧ index_page w' 0 = Some q ∧
    (isInit (hdr w') = 1 ∧ mxFrame (hdr w') = mxFrame (hdr w) ∧ nPage (hdr w') = nPage (hdr w) ∧ aFrameCksum (hdr w') = aFrameCksum (hdr w)) ∧
    (index_page r 0 = Some q → ∃ r', walIndexTryHdr r = Some (false, negb (bool_decide (hdr r = hdr w')), r') ∧ hdr r' = hdr w') ∧
    (∀ q', index_page r 0 = Some q' → take 12 (words q') ≠ take 12 (drop 12 (words q')) → walIndexTryHdr r = Some (true, false, r)).
Proof.
  intros Hok Hokr Hp Hsz. destruct (write_hdr_made w p Hok Hp Hsz) as (ck & l & Eck & El & ->). eexists _, _. split; [done|].
  split; [rewrite index_set_page; [done|exact (index_bounds _ _ _ Hp)]|]. split; [done|]. split.
  - intros Hr. destruct (try_hdr_made r (mkWipage (l ++ l ++ drop 24 (words p)) (slots p)) (stamped (hdr w) ck) ck l (drop 24 (words p)) (stamped_ok _ _ Hok)) as (r' & E & Er & _); try done. by exists r'.
  - intros q' Hq' Hne. unfold walIndexTryHdr, get_words. rewrite Hq'. cbn [mbind option_bind]. rewrite drop_0. by rewrite bool_decide_eq_false_2.
Qed.

Lemma walChecksumBytes_fletcher_witness :
  walChecksumBytes true [1; 2; 3; 4; 5; 6; 7; 255] None = Some (fletcher (le_words [1; 2; 3; 4; 5; 6; 7; 255]) (0, 0)) ∧
  walChecksumBytes false [1; 2; 3; 4; 5; 6; 7; 255] None = Some (fletcher (be_words [1; 2; 3; 4; 5; 6; 7; 255]) (0, 0)).
Proof. apply (walChecksumBytes_fletcher [1; 2; 3; 4; 5; 6; 7; 255] None); [repeat constructor; lia|cbn; lia|by exists 1]. Defined.

Lemma walDecodeFrame_Encode_witness :
  ∃ aFrame w', walEncodeFrame 7 1 (replicate 512 65) new_wal = Some (aFrame, w') ∧
    walDecodeFrame (replicate 512 65) aFrame new_wal = Some (Some (7, 1), with_cksums (aFrameCksum (hdr w')) new_wal).
Proof.
  destruct (walDecodeFrame_Encode 7 1 (replicate 512 65) new_wal) as (fr & w' & E & _ & H & _);
    [reflexivity|reflexivity|split; cbn; lia|lia|lia|vm_compute; reflexivity|by exists 64|].
  exists fr, w'. split; [exact E|by apply H].
Defined.

Lemma walIndexTryHdr_Write_witness :
  ∃ w' r' b, walIndexWriteHdr (with_index [Some zero_page] new_wal) = Some w' ∧
    walIndexTryHdr (with_hdr zero_hdr w') = Some (false, b, r') ∧ hdr r' = hdr w' ∧ b = negb (bool_decide (zero_hdr = hdr w')).
Proof.
  assert (Hok : hdr_ok (hdr (with_index [Some zero_page] new_wal))) by (split; [cbn; lia|cbn; lia|cbn; lia|reflexivity|repeat constructor; lia]).
  assert (Hz : hdr_ok zero_hdr) by (split; [cbn; lia|cbn; lia|cbn; lia|reflexivity|repeat constructor; lia]).
  assert (Hsz : sized zero_page) by apply zero_sized.
  destruct (walIndexTryHdr_Write (with_index [Some zero_page] new_wal) zero_page new_wal Hok Hok eq_refl Hsz) as (w' & q & E & Hq & _).
  destruct (walIndexTryHdr_Write (with_index [Some zero_page] new_wal) zero_page (with_hdr zero_hdr w') Hok Hz eq_refl Hsz) as (w2 & q2 & E2 & Hq2 & _ & H & _).
  rewrite E in E2. injection E2 as <-. destruct (H Hq2) as (r' & Er & Eh). exists w', r', (negb (bool_decide (zero_hdr = hdr w'))). split; [done|]. split; [exact Er|]. split; [done|reflexivity].
Defined.
