(* ===== verification/WalRecoverProofs.v ===== *)
(** Proofs about recovery of the index of the write-ahead log (walIndexRecover in WalFrame.v): from a log file with
    valid frames, followed by nothing or by a frame that is not valid, it makes the index of all the valid frames
    and the header of the last commit among them. *)
From S2P Require Import Prelude Varint Wal WalProofs WalFrame WalFrameProofs.

(** ** Frames and commits *)

(** A frame is the number of its page, the size of the database if it commits, or 0, and the data. *)
Abbreviation frame := (Z * Z * list Z)%type.
Definition pgnos (fr : list frame) : list Z := map (λ f, fst (fst f)) fr.

(** The running checksum after some frames. *)
Fixpoint chain (big : Z) (s : Z * Z) (fr : list frame) : option (Z * Z) :=
  match fr with [] => Some s | (pg, nt, d) :: fr => s ← frame_cksum big s pg nt d; chain big s fr end.

Lemma chain_app big a : ∀ s b, chain big s (a ++ b) = (s' ← chain big s a; chain big s' b).
Proof. induction a as [|[[pg nt] d] a IH]; intros s b; [done|]. cbn [app chain]. destruct (frame_cksum big s pg nt d); [apply IH|done]. Qed.

(** The last commit among the frames: its frame, the size of the database, the checksum. *)
Definition committed (big : Z) (s : Z * Z) (fr : list frame) (mx np : Z) (ck : Z * Z) : Prop :=
  ∃ a b, fr = a ++ b ∧ Forall (λ f, snd (fst f) = 0) b ∧ mx = zlen a ∧
    (a = [] ∧ np = 0 ∧ ck = (0, 0) ∨ ∃ a' pg d, a = a' ++ [(pg, np, d)] ∧ np ≠ 0 ∧ chain big s a = Some ck).

Lemma committed_nil big s : committed big s [] 0 0 (0, 0).
Proof. exists [], []. split_and!; [done|constructor|done|by left]. Qed.

Lemma committed_skip big s fr mx np ck pg d : committed big s fr mx np ck → committed big s (fr ++ [(pg, 0, d)]) mx np ck.
Proof.
  intros (a & b & -> & Hb & E & H). exists a, (b ++ [(pg, 0, d)]). rewrite app_assoc. split_and!; [done| |done|done].
  apply Forall_app. by split; [|constructor].
Qed.

Lemma committed_commit big s fr pg nt d ck : nt ≠ 0 → chain big s (fr ++ [(pg, nt, d)]) = Some ck →
  committed big s (fr ++ [(pg, nt, d)]) (zlen fr + 1) nt ck.
Proof.
  intros Hnt Hc. exists (fr ++ [(pg, nt, d)]), []. rewrite app_nil_r. split_and!; [done|constructor|len|].
  right. by exists fr, pg, d.
Qed.

(** ** Mapping succeeds *)

Section pages.
Context (xShmMap : Z → bool → Z * option wipage) (shm_sized : shm_pages xShmMap).

Definition can_map (w : Wal) : Prop := exclusiveMode w = WAL_HEAPMEMORY_MODE ∨ ∀ h, ∃ p, xShmMap h (writeLock w) = (SQLITE_OK, Some p).

Lemma walIndexPage_made h w m :
  0 ≤ h → can_map w → always_ok m → ∃ w' m' p, walIndexPage xShmMap h w m = (SQLITE_OK, w', m') ∧ index_page w' h = Some p ∧ always_ok m'.
Proof.
  intros Hh Hcan Hm. unfold walIndexPage. destruct (index_page w h) as [p|] eqn:Ep; [by exists w, m, p|]. unfold walIndexPageRealloc.
  assert (HG : ∃ w1 m1, grow_index h w m = (true, w1, m1) ∧ h < zlen (apWiData w1) ∧ always_ok m1 ∧ exclusiveMode w1 = exclusiveMode w ∧ writeLock w1 = writeLock w).
  { unfold grow_index. destruct (Z.leb_spec (zlen (apWiData w)) h) as [Hle|Hgt]; [|by exists w, m].
    destruct (sqlite3Malloc m) as [ok m1] eqn:E. destruct (sqlite3Malloc_ok _ _ _ Hm E) as (-> & Hm1). eexists _, _. split; [done|].
    split; [cbn; rewrite length_app, length_replicate; lia|]. split; [by destruct (_ =? 0)|done]. }
  destruct HG as (w1 & m1 & -> & Hlen & Hm1 & Ex & Ew). cbn [negb]. unfold can_map in Hcan. rewrite <- Ex, <- Ew in Hcan.
  assert (Hset : ∀ p, index_page (set_page h (Some p) w1) h = Some p) by (intros p; rewrite index_set_page, Z.eqb_refl by lia; done).
  destruct (Z.eqb_spec (exclusiveMode w1) WAL_HEAPMEMORY_MODE) as [E|E].
  - destruct (sqlite3Malloc m1) as [ok m2] eqn:E2. destruct (sqlite3Malloc_ok _ _ _ Hm1 E2) as (-> & Hm2).
    eexists _, _, _. split; [done|]. by split; [apply Hset|].
  - destruct Hcan as [|Hmap]; [done|]. destruct (Hmap h) as (p & ->). cbn [Z.eqb].
    eexists _, _, _. split; [done|]. by split; [apply Hset|].
Qed.

Lemma walHashGet_always_ok h w m rc l w' m' : walHashGet xShmMap h w m = (rc, l, w', m') → always_ok m → always_ok m'.
Proof.
  unfold walHashGet. destruct (walIndexPage xShmMap h w m) as [[rc1 w1] m1] eqn:E. intros E2 Hm.
  assert (Hm1 : always_ok m1).
  { unfold walIndexPage in E. destruct (index_page w h); [by injection E as <- <- <-|]. unfold walIndexPageRealloc, grow_index in E.
    destruct (sqlite3Malloc m) as [ok2 m2] eqn:EM. destruct (sqlite3Malloc_ok _ _ _ Hm EM) as (-> & Hm2).
    assert (Hf : always_ok (if zlen (apWiData w) =? 0 then m2 else sqlite3_free m2)) by by destruct (_ =? 0).
    destruct (zlen (apWiData w) <=? h); cbn [negb] in E; destruct (exclusiveMode _ =? _).
    all: try (match type of E with context [sqlite3Malloc ?x] => destruct (sqlite3Malloc x) as [ok3 m3] eqn:EM3 end;
      assert (Hm3 : always_ok m3) by (refine (proj2 (sqlite3Malloc_ok _ _ _ _ EM3)); assumption); destruct ok3; by injection E as <- <- <-).
    all: destruct (xShmMap h _) as [rc3 p3]; destruct (rc3 =? SQLITE_OK); [by injection E as <- <- <-|].
    all: destruct (Z.land rc3 255 =? SQLITE_READONLY); by injection E as <- <- <-. }
  destruct (index_page w1 h); by injection E2 as <- <- <- <-.
Qed.

Lemma walCleanupHash_always_ok w m w' m' : walCleanupHash xShmMap w m = Some (w', m') → always_ok m → always_ok m'.
Proof.
  unfold walCleanupHash. intros E Hm. destruct (mxFrame _ =? 0); [by injection E as <- <-|].
  destruct (walHashGet _ _ _ _) as [[[rc3 l3] w3] m3] eqn:E3. pose proof (walHashGet_always_ok _ _ _ _ _ _ _ E3 Hm).
  destruct (negb (rc3 =? SQLITE_OK)); [by injection E as <- <-|]. apply bind_Some in E as (? & _ & E). apply bind_Some in E as (? & _ & E).
  destruct (_ && _) in E; [by injection E as <- <-|done].
Qed.

Lemma append_always_ok k pg w m rc w' m' : walIndexAppend xShmMap k pg w m = Some (rc, w', m') → always_ok m → always_ok m'.
Proof.
  unfold walIndexAppend. destruct (walHashGet xShmMap _ w m) as [[[rc1 l] w1] m1] eqn:E. intros E2 Hm.
  pose proof (walHashGet_always_ok _ _ _ _ _ _ _ E Hm) as Hm1. destruct (rc1 =? SQLITE_OK); cbn [negb] in E2; [|by injection E2 as <- <- <-].
  apply bind_Some in E2 as (loc & _ & E2). apply bind_Some in E2 as (p & _ & E2). apply bind_Some in E2 as (old & _ & E2).
  apply bind_Some in E2 as ([w2 m2] & EC & E2).
  assert (Hm2 : always_ok m2) by (destruct (negb (old =? 0)); [by eapply walCleanupHash_always_ok|by injection EC as <- <-]).
  apply bind_Some in E2 as (? & _ & E2). apply bind_Some in E2 as ([|] & _ & E2); [|by injection E2 as <- <- <-].
  apply bind_Some in E2 as (? & _ & E2). apply bind_Some in E2 as (? & _ & E2). by injection E2 as <- <- <-.
Qed.

(** A frame is appended to a page of the index that is mapped. *)
Lemma append_mapped w F pg m p :
  represents w F → index_page w (walFramePage (zlen F + 1)) = Some p → pgno_ok pg → always_ok m →
  ∃ w' m', walIndexAppend xShmMap (zlen F + 1) pg w m = Some (SQLITE_OK, w', m') ∧ same_state w w' ∧ represents w' (F ++ [pg]) ∧ always_ok m'.
Proof.
  intros HR Hp Hpg Hm. destruct (append_made xShmMap shm_sized w F (zlen F) pg m HR ltac:(lia) ltac:(by left) Hpg) as (rc & w' & m' & E & HS & [(-> & H)|(_ & _ & H)]);
    [|congruence]. rewrite take_ge in H by lia. exists w', m'. split; [done|]. split; [done|]. split; [done|]. by eapply append_always_ok.
Qed.
End pages.

(** The header of a page does not matter for what it represents. *)
Lemma page_front h p q l x :
  0 ≤ h → page_ok h p l → words q = x ++ drop (Z.to_nat (offset h)) (words p) → zlen x = offset h → slots q = slots p → page_ok h q l.
Proof.
  intros Hh (H1 & H2 & hd & Ehd & Ew) E Hx Es. split; [done|]. split; [by rewrite Es|]. exists x. split; [done|]. rewrite E, Ew, drop_app_length' by lia. done.
Qed.

Lemma represents_front w F h p q x :
  represents w F → index_page w h = Some p → words q = x ++ drop (Z.to_nat (offset h)) (words p) → zlen x = offset h → slots q = slots p →
  represents (set_page h (Some q) w) F.
Proof.
  intros HR Hp E Hx Es. pose proof (index_bounds _ _ _ Hp) as Hb. destruct (rep_sized _ _ HR h p Hp) as (Hw & Hs). assert (Hh : 0 ≤ h) by lia.
  destruct (before_next h Hh) as (_ & _ & Hrm & Ho).
  eapply represents_set_page; [exact HR|done| | |done|apply HR].
  - split; [|by rewrite Es]. rewrite E, length_app, length_drop. wal_consts. lia.
  - intros Hlt. destruct (rep_page _ _ HR h Hh Hlt) as (p' & Hp' & Hok). rewrite Hp in Hp'. injection Hp' as <-. by eapply page_front.
Qed.

(** The page that is filled stands in for the page of the index. *)
Lemma represents_private w F h p : represents w F → 0 ≤ h < zlen (apWiData w) → zlen F ≤ before h → sized p → represents (set_page h (Some p) w) F.
Proof. intros HR Hh HF Hp. eapply represents_set_page; [exact HR|done|done|lia|done|apply HR]. Qed.

(** The two copies of the header are written. *)
Lemma represents_copies w F p l : represents w F → index_page w 0 = Some p → length l = 12%nat →
  represents (set_page 0 (Some (mkWipage (l ++ l ++ drop 24 (words p)) (slots p))) w) F.
Proof.
  intros HR Hp Hl. destruct (rep_sized _ _ HR 0 p Hp) as (Hws & _). eapply (represents_front _ _ _ p _ (l ++ l ++ take 10 (drop 24 (words p)))); [done|done| | |done].
  - cbn [words]. change (Z.to_nat (offset 0)) with 34%nat. rewrite <- !app_assoc. do 2 f_equal. rewrite <- (take_drop 10 (drop 24 (words p))) at 1.
    by rewrite drop_drop.
  - rewrite !length_app, length_take, length_drop, Hl. change (offset 0) with 34. wal_consts. lia.
Qed.

(** ** The frames of one page of the index *)

(** The bytes of the header of a log file. *)
Definition log_front (big sz nckpt : Z) (salt : list Z) : list Z :=
  sqlite3Put4byte (WAL_MAGIC + big) ++ sqlite3Put4byte WAL_MAX_VERSION ++ sqlite3Put4byte sz ++ sqlite3Put4byte nckpt ++ salt.
Definition log_header (big sz nckpt : Z) (salt : list Z) (s : Z * Z) : list Z :=
  log_front big sz nckpt salt ++ sqlite3Put4byte (fst s) ++ sqlite3Put4byte (snd s).

(** What a reader of the log needs: byte order, salts, running checksum. *)
Definition reads_as (big : Z) (salt : list Z) (s : Z * Z) (w : Wal) : Prop :=
  bigEndCksum (hdr w) = big ∧ aSalt (hdr w) = salt ∧ aFrameCksum (hdr w) = s.

(** The file has a header and the frames [fr]; the next frame, if there is one, is not valid. *)
Record log_file (xFileSize : Z * Z) (xRead : Z → Z → Z * list Z) (big sz nckpt : Z) (salt : list Z) (s : Z * Z) (fr : list frame) : Prop := LogFile {
  log_big : big = 0 ∨ big = 1;
  log_sz : sz ∈ [512; 1024; 2048; 4096; 8192; 16384; 32768; 65536];
  log_nckpt : 0 ≤ nckpt < 2 ^ 32;
  log_salt : length salt = 8%nat ∧ bytes salt;
  log_size : fst xFileSize = SQLITE_OK ∧ WAL_HDRSIZE < snd xFileSize;
  log_cksum : walChecksumBytes (big =? SQLITE_BIGENDIAN) (log_front big sz nckpt salt) None = Some s;
  log_head : xRead WAL_HDRSIZE 0 = (SQLITE_OK, log_header big sz nckpt salt s);
  log_frames : Forall (λ f, pgno_ok (fst (fst f)) ∧ 0 ≤ snd (fst f) < 2 ^ 32 ∧ zlen (snd f) = sz) fr;
  log_read k pg nt d s' : fr !! k = Some (pg, nt, d) → chain big s (take (S k) fr) = Some s' →
    xRead (sz + WAL_FRAME_HDRSIZE) (walFrameOffset (Z.of_nat k + 1) sz) = (SQLITE_OK, frame_header salt s' pg nt ++ d);
  log_fits : zlen fr ≤ (snd xFileSize - WAL_HDRSIZE) / (sz + WAL_FRAME_HDRSIZE);
  log_end : zlen fr < (snd xFileSize - WAL_HDRSIZE) / (sz + WAL_FRAME_HDRSIZE) → ∃ b s', chain big s fr = Some s' ∧
    xRead (sz + WAL_FRAME_HDRSIZE) (walFrameOffset (zlen fr + 1) sz) = (SQLITE_OK, b) ∧
    ∀ w, reads_as big salt s' w → ∃ ck, walDecodeFrame (drop 24 b) (take 24 b) w = Some (None, with_cksums ck w) }.

Section log.
Context (xShmMap : Z → bool → Z * option wipage) (xShmLock : Z → Z → Z) (xFileSize : Z * Z) (xRead : Z → Z → Z * list Z).
Context (big sz nckpt : Z) (salt : list Z) (s : Z * Z) (fr : list frame).
Context (shm_sized : shm_pages xShmMap) (HL : log_file xFileSize xRead big sz nckpt salt s fr).
Let iLastFrame := (snd xFileSize - WAL_HDRSIZE) / (sz + WAL_FRAME_HDRSIZE).

(** After [k] frames; [ck] is the checksum of the last commit. *)
Record recovered (k : Z) (ck : Z * Z) (w : Wal) : Prop := Recovered {
  rc_index : represents w (pgnos (take (Z.to_nat k) fr));
  rc_big : bigEndCksum (hdr w) = big;
  rc_salt : aSalt (hdr w) = salt;
  rc_hdr : hdr_ok (hdr w);
  rc_commit : committed big s (take (Z.to_nat k) fr) (mxFrame (hdr w)) (nPage (hdr w)) ck }.
Definition cksum_at (k : Z) (w : Wal) : Prop := chain big s (take (Z.to_nat k) fr) = Some (aFrameCksum (hdr w)) ∧ u32_pair (aFrameCksum (hdr w)).

Definition kept (w w' : Wal) : Prop :=
  exclusiveMode w' = exclusiveMode w ∧ writeLock w' = writeLock w ∧ szPage w' = szPage w ∧ nCkpt w' = nCkpt w.
Lemma kept_self w : kept w w.
Proof. done. Qed.
Lemma kept_trans w w1 w2 : kept w w1 → kept w1 w2 → kept w w2.
Proof. intros (?&?&?&?) (?&?&?&?). split_and!; congruence. Qed.
Lemma kept_same w w' : same_state w w' → kept w w'.
Proof. intros (?&?&?&?&?&?&?&?&?). done. Qed.
Lemma kept_can_map w w' : kept w w' → can_map xShmMap w → can_map xShmMap w'.
Proof. intros (E1 & E2 & _). unfold can_map. by rewrite E1, E2. Qed.

Lemma pgnos_take k : 0 ≤ k ≤ zlen fr → zlen (pgnos (take (Z.to_nat k) fr)) = k.
Proof. intros Hk. unfold pgnos. rewrite length_map, length_take. lia. Qed.

Lemma take_frame k pg nt d : 0 ≤ k → fr !! Z.to_nat k = Some (pg, nt, d) → take (Z.to_nat (k + 1)) fr = take (Z.to_nat k) fr ++ [(pg, nt, d)].
Proof. intros Hk E. rewrite Z2Nat.inj_add by lia. change (Z.to_nat 1) with 1%nat. rewrite Nat.add_1_r. by apply take_S_r. Qed.

Lemma log_sz_range : 512 ≤ sz ≤ 65536 ∧ (8 | sz) ∧ Z.land sz (sz - 1) = 0.
Proof. pose proof (log_sz _ _ _ _ _ _ _ _ HL) as H. repeat (apply elem_of_cons in H as [->|H]; [split; [lia|]; split; [by apply Z.mod_divide|done]|]). by apply elem_of_nil in H. Qed.

(** One valid frame. *)
Lemma recover_one k ck w m pg nt d p :
  recovered k ck w → cksum_at k w → 0 ≤ k → fr !! Z.to_nat k = Some (pg, nt, d) → index_page w (walFramePage (k + 1)) = Some p → always_ok m →
  ∃ s' w' m', walDecodeFrame d (frame_header salt s' pg nt) w = Some (Some (pg, nt), with_cksums s' w) ∧
    xRead (sz + WAL_FRAME_HDRSIZE) (walFrameOffset (k + 1) sz) = (SQLITE_OK, frame_header salt s' pg nt ++ d) ∧
    walIndexAppend xShmMap (k + 1) pg (with_cksums s' w) m = Some (SQLITE_OK, w', m') ∧ kept w w' ∧ always_ok m' ∧ aFrameCksum (hdr w') = s' ∧
    (nt = 0 → recovered (k + 1) ck w' ∧ cksum_at (k + 1) w') ∧
    (nt ≠ 0 → ∀ z, 0 ≤ z < 2 ^ 16 → let w2 := with_hdr (with_commit (k + 1) nt z (hdr w')) w' in recovered (k + 1) s' w2 ∧ cksum_at (k + 1) w2).
Proof.
  intros [R1 R2 R3 R4 R5] (HC & Hu) Hk Hf Hp Hm. pose proof (take_frame _ _ _ _ Hk Hf) as Et. pose proof (lookup_lt_Some _ _ _ Hf) as Hlt.
  destruct (proj1 (Forall_lookup _ _) (log_frames _ _ _ _ _ _ _ _ HL) _ _ Hf) as (Hpg & Hnt & Hd). cbn [fst snd] in *.
  destruct log_sz_range as (Hsz & Hsz8 & _). destruct (log_salt _ _ _ _ _ _ _ _ HL) as (Hsl & _).
  destruct (frame_cksum_made big _ pg nt d Hu) as (s' & Es & Hs'); [lia|by rewrite Hd|]. exists s'.
  assert (Hc' : chain big s (take (Z.to_nat (k + 1)) fr) = Some s') by (rewrite Et, chain_app, HC; cbn [mbind option_bind chain]; by rewrite Es).
  set (w1 := with_cksums s' w). assert (HR1 : represents w1 (pgnos (take (Z.to_nat k) fr))) by (destruct R1; by split).
  destruct (append_mapped xShmMap shm_sized w1 _ pg m p HR1) as (w' & m' & E & HS & HR & Hm'); [by rewrite pgnos_take by lia|done|done|].
  rewrite pgnos_take in E by lia. exists w', m'. assert (Hh : hdr w' = hdr w1) by apply HS.
  assert (HR' : represents w' (pgnos (take (Z.to_nat (k + 1)) fr))) by (rewrite Et; unfold pgnos in *; by rewrite map_app).
  split; [rewrite <- R3; apply decode_made; [by rewrite R3|done|done|done|by rewrite R2]|].
  split; [rewrite <- (Z2Nat.id k) at 1 by lia; eapply log_read; [exact HL|exact Hf|]; rewrite <- Hc'; do 2 f_equal; lia|].
  split; [exact E|]. split; [apply kept_same in HS; exact HS|]. split; [done|]. split; [by rewrite Hh|].
  assert (Hok1 : hdr_ok (hdr w')) by (rewrite Hh; destruct R4; by split).
  split; intros Hz.
  - subst nt. split; [|split; rewrite Hh; done]. split; [done|by rewrite Hh|by rewrite Hh|done|].
    rewrite Et, Hh. by apply committed_skip.
  - intros z Hz16. set (w2 := with_hdr _ w'). split; [|split; cbn; rewrite Hh; done]. split; [destruct HR'; by split|cbn; by rewrite Hh|cbn; by rewrite Hh| |].
    + destruct Hok1. by split.
    + cbn [hdr with_hdr with_commit mxFrame nPage w2]. rewrite Et in *.
      replace k with (zlen (take (Z.to_nat k) fr)) at 2 by (rewrite length_take; lia). by apply committed_commit.
Qed.

Lemma recovered_cksums k ck c w : recovered k ck w → recovered k ck (with_cksums c w).
Proof. intros [[] ? ? [] ?]. by split; [split|..|split|]. Qed.

Definition mapped (h : Z) (w : Wal) : Prop := ∃ p, index_page w h = Some p.
Lemma recovered_mapped h k ck w : recovered k ck w → 0 ≤ h → before h < k ≤ zlen fr → mapped h w.
Proof.
  intros [HR _ _ _ _] Hh Hk. destruct (before_next h Hh) as (_ & Hb & _). destruct (rep_page _ _ HR h Hh) as (p & Hp & _); [rewrite pgnos_take by lia; lia|]. by exists p.
Qed.

Lemma recover_frames_made h (n : nat) : 0 ≤ h → ∀ k ck w m,
  recovered k ck w → cksum_at k w → before h ≤ k ≤ zlen fr → k + Z.of_nat n ≤ before h + room h → k + Z.of_nat n ≤ iLastFrame →
  mapped h w → always_ok m →
  ∃ k' ck' w' m', recover_frames xShmMap xRead n SQLITE_OK (k + 1) sz ck w m = Some (SQLITE_OK, k' + 1, ck', w', m') ∧ kept w w' ∧ always_ok m' ∧
    mapped h w' ∧ recovered k' ck' w' ∧ k ≤ k' ≤ zlen fr ∧ (k' = k + Z.of_nat n ∧ cksum_at k' w' ∨ k' < k + Z.of_nat n ∧ k' = zlen fr).
Proof.
  intros Hh. destruct (before_next h Hh) as (_ & Hb0 & _). induction n as [|n IH]; intros k ck w m HR HC Hk Hroom Hlast Hmp Hm; cbn [recover_frames].
  - exists k, ck, w, m. split_and!; [done|apply kept_self|done|done|done|lia|lia|]. left. split; [lia|done].
  - destruct (Z.eq_dec k (zlen fr)) as [Ek|Ek].
    + destruct (log_end _ _ _ _ _ _ _ _ HL) as (b & s' & Es & Eb & Hinv); [fold iLastFrame; lia|]. rewrite Ek, Eb. cbn [Z.eqb negb].
      change (SQLITE_OK =? SQLITE_OK) with true. cbn [negb]. destruct (Hinv w) as (c & ->).
      { destruct HR as [_ R2 R3 _ _]. split; [done|]. split; [done|]. destruct HC as (HC & _). rewrite take_ge in HC by lia. congruence. }
      cbn [mbind option_bind]. exists (zlen fr), ck, (with_cksums c w), m. split; [done|]. split; [done|]. split; [done|].
      split; [exact Hmp|]. split; [rewrite <- Ek; by apply recovered_cksums|]. split; [lia|]. right. lia.
    + destruct Hmp as (p & Hp). destruct (lookup_lt_is_Some_2 fr (Z.to_nat k)) as ([[pg nt] d] & Hf); [lia|].
      assert (EP : walFramePage (k + 1) = h) by (apply walFramePage_unique; lia).
      destruct (recover_one k ck w m pg nt d p HR HC ltac:(lia) Hf) as (s' & w1 & m1 & Ed & Er & Ea & HK & Hm1 & Es & H0 & H1); [by rewrite EP|done|].
      rewrite Er. change (SQLITE_OK =? SQLITE_OK) with true. cbn [negb]. destruct (log_salt _ _ _ _ _ _ _ _ HL) as (Hsl & _).
      pose proof (header_length salt s' pg nt Hsl) as Hhl. rewrite drop_app_length', take_app_length' by done. rewrite Ed. cbn [mbind option_bind].
      rewrite Ea. cbn [mbind option_bind]. change (SQLITE_OK =? SQLITE_OK) with true. cbn [negb].
      assert (HF : ∀ ck2 w2, kept w w2 → recovered (k + 1) ck2 w2 → cksum_at (k + 1) w2 →
        ∃ k' ck' w' m', recover_frames xShmMap xRead n SQLITE_OK (k + 1 + 1) sz ck2 w2 m1 = Some (SQLITE_OK, k' + 1, ck', w', m') ∧ kept w w' ∧ always_ok m' ∧
          mapped h w' ∧ recovered k' ck' w' ∧ k ≤ k' ≤ zlen fr ∧ (k' = k + Z.of_nat (S n) ∧ cksum_at k' w' ∨ k' < k + Z.of_nat (S n) ∧ k' = zlen fr)).
      { intros ck2 w2 HK2 HR2 HC2. destruct (IH (k + 1) ck2 w2 m1) as (k' & ck' & w' & m' & E & HK' & Hm' & Hmp' & HR' & Hk' & Hend); [done|done|lia|lia|lia| |done|].
        { eapply recovered_mapped; [exact HR2|done|lia]. }
        exists k', ck', w', m'. split; [done|]. split; [by eapply kept_trans|]. split_and!; [done|done|done|lia|lia|].
        destruct Hend as [(? & ?)|?]; [left|right]; (split; [lia|]); [done|lia]. }
      destruct (Z.eqb_spec nt 0) as [E0|E0]; cbn [negb].
      * destruct (H0 E0). by apply HF.
      * assert (Hz : 0 ≤ u16 (Z.lor (Z.land sz 65280) (Z.shiftr sz 16)) < 2 ^ 16) by (unfold u16; apply Z.mod_pos_bound; lia).
        destruct (H1 E0 _ Hz) as (HR2 & HC2). cbn [hdr with_hdr aFrameCksum with_commit]. rewrite Es. by apply HF.
Qed.

Lemma recovered_state k ck w w' : hdr w' = hdr w → represents w' (pgnos (take (Z.to_nat k) fr)) → recovered k ck w → recovered k ck w'.
Proof. intros Eh HR [_ ? ? ? ?]. by split; rewrite ?Eh. Qed.

Lemma last_page iPg : 0 ≤ iPg ≤ walFramePage iLastFrame → 0 ≤ iLastFrame →
  before iPg ≤ iLastFrame ∧ HASHTABLE_NPAGE_ONE + iPg * HASHTABLE_NPAGE = before (iPg + 1) ∧ (iPg = walFramePage iLastFrame → iLastFrame ≤ before (iPg + 1)).
Proof.
  intros Hi HL0. destruct (before_next iPg ltac:(lia)) as (En & Hb & Hr & _).
  assert (E : HASHTABLE_NPAGE_ONE + iPg * HASHTABLE_NPAGE = before (iPg + 1)) by (unfold before; wal_consts; destruct (Z.eqb_spec (iPg + 1) 0); lia).
  destruct (Z.eq_dec iLastFrame 0) as [E0|E0].
  - rewrite E0 in *. change (walFramePage 0) with 0 in Hi. assert (iPg = 0) as -> by lia. split; [done|]. split; [done|]. lia.
  - destruct (walFramePage_spec iLastFrame ltac:(lia)) as (HP & HB). split; [|split; [done|]].
    + destruct (Z.eq_dec iPg (walFramePage iLastFrame)) as [->|]; [lia|]. pose proof (before_mono iPg (walFramePage iLastFrame)). lia.
    + intros ->. destruct (before_next _ HP). lia.
Qed.

(** One page: its frames, then it is copied behind the header of the page of the index. *)
Lemma recover_page_made h aPrivate aShare ck w m k :
  0 ≤ h ≤ walFramePage iLastFrame → k = before h → k ≤ zlen fr → index_page w h = Some aShare → sized aPrivate →
  recovered k ck w → cksum_at k w → always_ok m → 0 ≤ iLastFrame →
  let iLast := Z.min iLastFrame (before (h + 1)) in
  ∃ k' ck' w1 m' q w', recover_frames xShmMap xRead (Z.to_nat (iLast - (1 + k) + 1)) SQLITE_OK (1 + k) sz ck (set_page h (Some aPrivate) w) m
      = Some (SQLITE_OK, k' + 1, ck', w1, m') ∧
    index_page w1 h = Some q ∧ sized q ∧
    (let n := if h =? 0 then 34%nat else 0%nat in w' = set_page h (Some (mkWipage (take n (words aShare) ++ drop n (words q)) (slots q))) w1) ∧
    kept w w' ∧ always_ok m' ∧ mapped 0 w' ∧ recovered k' ck' w' ∧ k ≤ k' ≤ zlen fr ∧ (k' = iLast ∧ cksum_at k' w' ∨ k' < iLast ∧ k' = zlen fr).
Proof.
  intros Hh -> Hk Hsh Hpr HR HC Hm HL0 iLast. destruct (last_page h Hh HL0) as (Hbl & _ & _). destruct (before_next h ltac:(lia)) as (En & Hb & Hrm & Ho).
  pose proof (index_bounds _ _ _ Hsh) as Hib. destruct (rep_sized _ _ (rc_index _ _ _ HR) h _ Hsh) as (Hws & _).
  set (w0 := set_page h (Some aPrivate) w). assert (HR0 : recovered (before h) ck w0).
  { eapply (recovered_state _ _ w); [done| |done]. apply represents_private; [apply HR|done|rewrite pgnos_take by lia; lia|done]. }
  assert (Hm0 : mapped h w0) by (exists aPrivate; unfold w0; by rewrite index_set_page, Z.eqb_refl).
  destruct (recover_frames_made h (Z.to_nat (iLast - (1 + before h) + 1)) ltac:(lia) (before h) ck w0 m) as
    (k' & ck' & w1 & m' & E & HK & Hm' & (q & Hq) & HR1 & Hk' & Hend); [done|exact HC|lia|lia|lia|done|done|].
  rewrite (Z.add_comm (before h) 1) in E. exists k', ck', w1, m', q, (set_page h (Some (mkWipage (take (if h =? 0 then 34%nat else 0%nat) (words aShare) ++ drop (if h =? 0 then 34%nat else 0%nat) (words q)) (slots q))) w1).
  split; [exact E|]. split; [done|]. pose proof (rep_sized _ _ (rc_index _ _ _ HR1) h q Hq) as Hsq. split; [done|]. split; [done|].
  assert (En34 : (if h =? 0 then 34%nat else 0%nat) = Z.to_nat (offset h)) by (unfold offset; by destruct (h =? 0)). rewrite En34.
  assert (Hx : zlen (take (Z.to_nat (offset h)) (words aShare)) = offset h) by (rewrite length_take; wal_consts; lia).
  pose proof (index_bounds _ _ _ Hq) as Hqb. set (w' := set_page h _ w1).
  assert (HR' : recovered k' ck' w') by (eapply (recovered_state _ _ w1); [done| |done]; eapply represents_front; [apply HR1|exact Hq|done|done|done]).
  split; [exact HK|]. split; [done|]. split.
  { destruct (Z.eq_dec h 0) as [->|Hne]; [eexists; unfold w'; by rewrite index_set_page|]. eapply recovered_mapped; [exact HR'|lia|].
    pose proof (before_mono 0 h). unfold before, room, offset in *. wal_consts. cbn [Z.eqb] in *. lia. }
  split; [done|]. split; [lia|]. destruct Hend as [(E1 & E2)|?]; [left|right; lia]. split; [lia|exact E2].
Qed.

Lemma recover_pages_made (n : nat) : ∀ iPg aPrivate ck w m,
  0 ≤ iLastFrame → 0 ≤ iPg → iPg + Z.of_nat n = walFramePage iLastFrame + 1 → sized aPrivate → can_map xShmMap w → always_ok m →
  Z.min iLastFrame (before iPg) ≤ zlen fr → recovered (Z.min iLastFrame (before iPg)) ck w → cksum_at (Z.min iLastFrame (before iPg)) w → mapped 0 w →
  ∃ ck' w' m', recover_pages xShmMap xRead n iPg iLastFrame sz aPrivate SQLITE_OK ck w m = Some (SQLITE_OK, ck', w', m') ∧
    kept w w' ∧ always_ok m' ∧ mapped 0 w' ∧ recovered (zlen fr) ck' w'.
Proof.
  pose proof (log_fits _ _ _ _ _ _ _ _ HL) as Hfits. fold iLastFrame in Hfits.
  induction n as [|n IH]; intros iPg aPrivate ck w m HL0 Hi Hn Hpr Hcan Hm Hk HR HC Hmp; cbn [recover_pages].
  - destruct (last_page (walFramePage iLastFrame)) as (_ & _ & Hlast); [|done|].
    { split; [|lia]. unfold walFramePage. apply Z.div_pos; wal_consts; lia. }
    replace (walFramePage iLastFrame + 1) with iPg in Hlast by lia. specialize (Hlast eq_refl).
    exists ck, w, m. split; [done|]. split; [apply kept_self|]. split; [done|]. split; [done|]. by replace (zlen fr) with (Z.min iLastFrame (before iPg)) by lia.
  - destruct (last_page iPg) as (Hb & -> & _); [lia|done|].
    destruct (walIndexPage_made xShmMap iPg w m Hi Hcan Hm) as (w1 & m1 & aShare & E1 & Hsh & Hm1). rewrite E1.
    destruct (walIndexPage_spec xShmMap shm_sized iPg w m Hi) as (rc1 & w1' & m1' & E1' & HX & _). rewrite E1 in E1'. injection E1' as <- <- <-.
    rewrite Hsh. replace (Z.min iLastFrame (before iPg)) with (before iPg) in * by lia.
    assert (EF : 1 + (if iPg =? 0 then 0 else HASHTABLE_NPAGE_ONE + (iPg - 1) * HASHTABLE_NPAGE) = 1 + before iPg) by (unfold before; by destruct (iPg =? 0)).
    rewrite EF. pose proof (proj1 HX) as HS. assert (Eh : hdr w1 = hdr w) by apply HS.
    assert (HR1 : recovered (before iPg) ck w1) by (eapply (recovered_state _ _ w); [done|eapply represents_extends; [exact HX|apply HR]|done]).
    assert (HC1 : cksum_at (before iPg) w1) by (unfold cksum_at; by rewrite Eh).
    destruct (recover_page_made iPg aPrivate aShare ck w1 m1 (before iPg)) as (k' & ck' & w2 & m2 & q & w3 & E & Hq & Hsq & Ew3 & HK & Hm2 & Hmp3 & HR3 & Hk' & Hend);
      try done; [lia|]. rewrite E. cbn [mbind option_bind]. rewrite Hq. cbn [mbind option_bind].
    set (w3' := set_page iPg _ w2). assert (w3' = w3) as -> by (rewrite Ew3; done).
    assert (HK3 : kept w w3) by (eapply kept_trans; [apply kept_same, HS|exact HK]).
    destruct (Z.leb_spec (k' + 1) (Z.min iLastFrame (before (iPg + 1)))) as [Hle|Hgt].
    + exists ck', w3, m2. split; [done|]. split; [done|]. split; [done|]. split; [done|]. by destruct Hend as [(? & _)|(_ & <-)]; [lia|].
    + destruct Hend as [(Ek & HC3)|(? & _)]; [|lia]. subst k'.
      destruct (IH (iPg + 1) q ck' w3 m2) as (ck'' & w' & m' & E' & HK' & Hfin); [done|lia|lia|done| |done|lia|done|done|done|].
      { by eapply kept_can_map. }
      exists ck'', w', m'. split; [exact E'|]. split; [by eapply kept_trans|done].
Qed.

(** ** The header of the log *)

Lemma log_start_u32 : u32_pair s.
Proof.
  pose proof (log_cksum _ _ _ _ _ _ _ _ HL) as H. pose proof (log_salt _ _ _ _ _ _ _ _ HL) as (Hl & _). assert (E : zlen (log_front big sz nckpt salt) = 24).
  { unfold log_front. rewrite !length_app, Hl. done. }
  destruct (checksum_made (big =? SQLITE_BIGENDIAN) (log_front big sz nckpt salt) None) as (l & _ & E2); [lia|by exists 3; lia|].
  rewrite H in E2. injection E2 as ->. by apply fletcher_u32.
Qed.

Lemma log_header_fields :
  let H := log_header big sz nckpt salt s in
  sqlite3Get4byte H = Some (WAL_MAGIC + big) ∧ sqlite3Get4byte (drop 4 H) = Some WAL_MAX_VERSION ∧ sqlite3Get4byte (drop 8 H) = Some sz ∧
  sqlite3Get4byte (drop 12 H) = Some nckpt ∧ take 8 (drop 16 H) = salt ∧ take 24 H = log_front big sz nckpt salt ∧
  sqlite3Get4byte (drop 24 H) = Some (fst s) ∧ sqlite3Get4byte (drop 28 H) = Some (snd s).
Proof.
  destruct (log_salt _ _ _ _ _ _ _ _ HL) as (Hl & _). destruct log_sz_range as (Hsz & _). destruct log_start_u32 as (Hs0 & Hs1).
  pose proof (log_nckpt _ _ _ _ _ _ _ _ HL) as Hnc. assert (Hb : 0 ≤ WAL_MAGIC + big < 2 ^ 32) by (destruct (log_big _ _ _ _ _ _ _ _ HL) as [-> | ->]; by vm_compute).
  revert Hl Hsz Hs0 Hs1 Hnc Hb. clear. intros Hl Hsz Hs0 Hs1 Hnc Hb. rename salt into sl. revert Hl. generalize sl. clear sl. intros sl Hl. do 8 (destruct sl as [|? sl]; [done|]). destruct sl; [|done].
  assert (G : ∀ v r l, 0 ≤ v < 2 ^ 32 → l = sqlite3Put4byte v ++ r → sqlite3Get4byte l = Some v) by (intros v r l Hv ->; by apply get4_put4).
  cbn zeta. split_and!; try reflexivity; (eapply G; [|reflexivity]); try done; lia.
Qed.

Lemma zero_recovered w : hdr w = zero_hdr → represents w [] →
  let w' := with_cksums s (with_nCkpt nckpt (with_szPage sz (with_hdr (with_source big salt (hdr w)) w))) in recovered 0 (0, 0) w' ∧ cksum_at 0 w'.
Proof.
  intros Eh [R1 R2 R3] w'. pose proof (log_salt _ _ _ _ _ _ _ _ HL) as (Hl & Hb). split.
  - split; [by split|done|done| |].
    + unfold w'. rewrite Eh. split; cbn; try lia; try done. destruct (log_big _ _ _ _ _ _ _ _ HL); lia.
    + unfold w'. rewrite Eh. apply committed_nil.
  - split; [done|apply log_start_u32].
Qed.

Lemma recover_log_made aPrivate w m :
  hdr w = zero_hdr → represents w [] → mapped 0 w → can_map xShmMap w → always_ok m → sized aPrivate →
  ∃ ck w' m', recover_log xShmMap xRead (snd xFileSize) aPrivate w m = Some (false, SQLITE_OK, ck, w', m') ∧
    exclusiveMode w' = exclusiveMode w ∧ szPage w' = sz ∧ nCkpt w' = nckpt ∧ always_ok m' ∧ mapped 0 w' ∧ recovered (zlen fr) ck w'.
Proof.
  intros Eh HR Hmp Hcan Hm Hpr. destruct log_header_fields as (E0 & E1 & E2 & E3 & E4 & E5 & E6 & E7).
  destruct log_sz_range as (Hsz & _ & Hland). destruct log_start_u32 as (Hs0 & Hs1). pose proof (log_nckpt _ _ _ _ _ _ _ _ HL) as Hnc.
  pose proof (zero_recovered w Eh HR) as (HR0 & HC0). pose proof (log_size _ _ _ _ _ _ _ _ HL) as (_ & Hsize).
  assert (Hbig : 0 ≤ WAL_MAGIC + big < 2 ^ 32 ∧ Z.land (WAL_MAGIC + big) 0xFFFFFFFE = WAL_MAGIC ∧ Z.land (WAL_MAGIC + big) 1 = big).
  { destruct (log_big _ _ _ _ _ _ _ _ HL) as [-> | ->]; by vm_compute. }
  destruct Hbig as (Hb1 & Hb2 & Hb3). unfold recover_log. rewrite (log_head _ _ _ _ _ _ _ _ HL). change (SQLITE_OK =? SQLITE_OK) with true. cbn [negb].
  rewrite E0. cbn [mbind option_bind]. rewrite E2. cbn [mbind option_bind].
  rewrite i32_id by lia. rewrite Hb2, Hland, Z.eqb_refl. cbn [negb orb Z.eqb]. unfold SQLITE_MAX_PAGE_SIZE.
  destruct (Z.ltb_spec 65536 sz); [lia|]. destruct (Z.ltb_spec sz 512); [lia|]. cbn [orb]. rewrite E3. cbn [mbind option_bind].
  rewrite Hb3, E4, E5. cbn [hdr with_nCkpt with_szPage with_hdr with_source bigEndCksum]. rewrite (log_cksum _ _ _ _ _ _ _ _ HL). cbn [mbind option_bind].
  rewrite E6. cbn [mbind option_bind]. rewrite E7. cbn [mbind option_bind]. rewrite !Z.eqb_refl. cbn [negb orb].
  rewrite E1. cbn [mbind option_bind]. rewrite Z.eqb_refl. cbn [negb].
  destruct (sqlite3Malloc m) as [ok m1] eqn:EM. destruct (sqlite3Malloc_ok _ _ _ Hm EM) as (-> & Hm1). cbn [negb]. fold iLastFrame.
  set (w1 := with_cksums s _) in *. assert (HL0 : 0 ≤ iLastFrame) by (apply Z.div_pos; unfold WAL_FRAME_HDRSIZE; lia).
  destruct (last_page 0) as (Hb0 & _ & _); [split; [lia|unfold walFramePage; apply Z.div_pos; wal_consts; lia]|done|].
  assert (E00 : Z.min iLastFrame (before 0) = 0) by (change (before 0) with 0; lia).
  assert (0 ≤ walFramePage iLastFrame) by (unfold walFramePage; apply Z.div_pos; wal_consts; lia).
  destruct (recover_pages_made (Z.to_nat (walFramePage iLastFrame + 1)) 0 aPrivate (0, 0) w1 m1) as (ck & w' & m' & E & (K1 & K2 & K3 & K4) & Hm' & Hmp' & HR');
    [done|lia|lia|done|done|done|lia|by rewrite E00|by rewrite E00|exact Hmp|].
  rewrite E. cbn [mbind option_bind]. exists ck, w', (sqlite3_free m'). done.
Qed.

(** ** The checkpoint information and the read marks *)

(** Nothing changed but words after the two copies of the header. *)
Definition info_only (w w' : Wal) : Prop :=
  hdr w' = hdr w ∧ kept w w' ∧ (∀ F, represents w F → represents w' F) ∧
  ∀ p, index_page w 0 = Some p → ∃ p', index_page w' 0 = Some p' ∧ take 24 (words p') = take 24 (words p).

Lemma info_refl w : info_only w w.
Proof. split_and!; [done|apply kept_self|done|eauto]. Qed.
Lemma info_trans w w1 w2 : info_only w w1 → info_only w1 w2 → info_only w w2.
Proof.
  intros (H1 & H2 & H3 & H4) (G1 & G2 & G3 & G4). split_and!; [congruence|by eapply kept_trans|auto|]. intros p Hp.
  destruct (H4 p Hp) as (p1 & Hp1 & E1). destruct (G4 p1 Hp1) as (p2 & Hp2 & E2). exists p2. split; [done|congruence].
Qed.
Lemma info_mapped w w' : info_only w w' → mapped 0 w → mapped 0 w'.
Proof. intros (_ & _ & _ & H) (p & Hp). destruct (H p Hp) as (p' & Hp' & _). by exists p'. Qed.

Lemma set_info_made k v w F : represents w F → mapped 0 w → 24 ≤ k < 34 → ∃ w', set_info k v w = Some w' ∧ info_only w w'.
Proof.
  intros HR (p & Hp) Hk. destruct (rep_sized _ _ HR 0 p Hp) as (Hw & _). pose proof (index_bounds _ _ _ Hp) as Hb. unfold set_info, wr. rewrite Hp. cbn [mbind option_bind].
  destruct (Z.leb_spec 0 k); [|lia]. destruct (Z.ltb_spec k (zlen (words p))); [|wal_consts; lia]. cbn [andb mbind option_bind]. eexists. split; [done|].
  set (q := mkWipage _ _). split; [done|]. split; [done|]. split.
  - intros F' HR'. eapply (represents_front _ _ _ p _ (take 34 (<[Z.to_nat k:=v]> (words p)))); [done|done| | |done].
    + cbn [words q]. change (Z.to_nat (offset 0)) with 34%nat. rewrite <- (take_drop 34 (<[Z.to_nat k:=v]> (words p))) at 1. f_equal. apply drop_insert_lt. lia.
    + rewrite length_take, length_insert. change (offset 0) with 34. wal_consts. lia.
  - intros p' Hp'. rewrite Hp in Hp'. injection Hp' as <-. exists q. split; [by rewrite index_set_page|]. cbn [words q]. apply take_insert_ge. lia.
Qed.

Definition can_lock (w : Wal) : Prop := exclusiveMode w ≠ 0 ∨ ∀ i n, xShmLock i n = SQLITE_OK.
Lemma lock_made w i n : can_lock w → walLockExclusive xShmLock i n w = SQLITE_OK.
Proof. intros H. unfold walLockExclusive. destruct (Z.eqb_spec (exclusiveMode w) 0); [by destruct H|done]. Qed.

Lemma mark_loop_made (n : nat) F : ∀ i w, represents w F → mapped 0 w → can_lock w → 0 ≤ i → i + Z.of_nat n ≤ 9 →
  ∃ w', mark_loop xShmLock n i SQLITE_OK w = Some (SQLITE_OK, w') ∧ info_only w w'.
Proof.
  induction n as [|n IH]; intros i w HR Hmp Hl Hi Hn; cbn [mark_loop]; [exists w; split; [done|apply info_refl]|]. rewrite lock_made by done.
  change (SQLITE_OK =? SQLITE_OK) with true. cbv iota.
  destruct (set_info_made (info_aReadMark i) (if (i =? 1) && negb (mxFrame (hdr w) =? 0) then mxFrame (hdr w) else READMARK_NOT_USED) w F) as (w1 & -> & HI);
    [done|done|unfold info_aReadMark; lia|]. cbn [mbind option_bind]. pose proof HI as (_ & (K1 & _) & HR1 & _).
  destruct (IH (i + 1) w1) as (w' & E & HI'); [by apply HR1|by eapply info_mapped|by unfold can_lock; rewrite K1|lia|lia|].
  exists w'. split; [exact E|by eapply info_trans].
Qed.

(** The header goes to the shared memory, then the information about checkpoints. *)
Lemma finish_made ck w m : recovered (zlen fr) ck w → mapped 0 w → can_lock w →
  ∃ w', (w ← walIndexWriteHdr (with_cksums ck w); w ← set_info info_nBackfill 0 w; w ← set_info info_nBackfillAttempted (mxFrame (hdr w)) w;
     w ← set_info (info_aReadMark 0) 0 w; '(rc, w) ← mark_loop xShmLock (Z.to_nat (WAL_NREADER - 1)) 1 SQLITE_OK w; Some (rc, w, m)) = Some (SQLITE_OK, w', m : mem) ∧
    kept w w' ∧ represents w' (pgnos fr) ∧ (∃ ck', hdr w' = stamped (with_cksum ck (hdr w)) ck') ∧
    (∀ r, hdr_ok (hdr r) → index_page r 0 = index_page w' 0 → ∃ r', walIndexTryHdr r = Some (false, negb (bool_decide (hdr r = hdr w')), r') ∧ hdr r' = hdr w').
Proof.
  intros [HR R2 R3 Hok R5] (p & Hp) Hl. set (w0 := with_cksums ck w). rewrite Nat2Z.id, firstn_all in HR.
  assert (Hok0 : hdr_ok (hdr w0)) by (destruct Hok; by split). assert (Hp0 : index_page w0 0 = Some p) by done. pose proof (rep_sized _ _ HR 0 p Hp) as Hsz.
  destruct (write_hdr_made w0 p Hok0 Hp0 Hsz) as (ck' & l & Eck & El & ->). cbn [mbind option_bind]. set (w1 := set_page 0 _ _).
  destruct (hdr_words_made _ (stamped_ok _ ck' Hok0)) as (l' & El' & Hl12 & _). rewrite El in El'. injection El' as <-.
  pose proof (index_bounds _ _ _ Hp) as Hb. assert (Hw1 : represents w1 (pgnos fr)) by (apply represents_copies; [destruct HR; by split|done|done]).
  assert (Hm1 : mapped 0 w1) by (eexists; unfold w1; by rewrite index_set_page).
  destruct (set_info_made info_nBackfill 0 w1 _ Hw1 Hm1) as (w2 & -> & I2); [unfold info_nBackfill; lia|]. cbn [mbind option_bind].
  pose proof I2 as (_ & _ & G2 & _). pose proof (G2 _ Hw1) as Hw2. pose proof (info_mapped _ _ I2 Hm1) as Hm2.
  destruct (set_info_made info_nBackfillAttempted (mxFrame (hdr w2)) w2 _ Hw2 Hm2) as (w3 & -> & I3); [unfold info_nBackfillAttempted; lia|]. cbn [mbind option_bind].
  pose proof I3 as (_ & _ & G3 & _). pose proof (G3 _ Hw2) as Hw3. pose proof (info_mapped _ _ I3 Hm2) as Hm3.
  destruct (set_info_made (info_aReadMark 0) 0 w3 _ Hw3 Hm3) as (w4 & -> & I4); [unfold info_aReadMark; lia|]. cbn [mbind option_bind].
  pose proof I4 as (_ & _ & G4 & _). pose proof (G4 _ Hw3) as Hw4. pose proof (info_mapped _ _ I4 Hm3) as Hm4.
  pose proof (info_trans _ _ _ I2 (info_trans _ _ _ I3 I4)) as I14. pose proof I14 as (_ & (K1 & _) & _).
  destruct (mark_loop_made (Z.to_nat (WAL_NREADER - 1)) _ 1 w4 Hw4 Hm4) as (w5 & -> & I5); [unfold can_lock; rewrite K1; exact Hl|lia|unfold WAL_NREADER; lia|].
  cbn [mbind option_bind]. pose proof (info_trans _ _ _ I14 I5) as (Eh & HK & HF & Hpg). exists w5. split; [done|]. split; [exact HK|]. split; [by apply HF|].
  split; [exists ck'; exact Eh|]. intros r Hr Er. destruct (Hpg _ ltac:(unfold w1; by rewrite index_set_page)) as (q & Hq & Et).
  rewrite Hq in Er. assert (Eq : words q = l ++ l ++ drop 24 (words q)).
  { rewrite <- (take_drop 24 (words q)) at 1. rewrite Et. cbn [words]. rewrite !app_assoc. f_equal. rewrite take_app_length'; [done|]. rewrite length_app, Hl12. done. }
  destruct (try_hdr_made r q (stamped (hdr w0) ck') ck' l _ (stamped_ok _ _ Hok0) eq_refl eq_refl Eck El Hr Er Eq) as (r' & E & E2 & _). exists r'.
  rewrite Eh. done.
Qed.
End log.

Lemma recover_made xShmMap xShmLock xFileSize xRead big sz nckpt salt s fr aPrivate w m :
  shm_pages xShmMap → log_file xFileSize xRead big sz nckpt salt s fr → represents w [] → mapped 0 w →
  can_map xShmMap w → can_lock xShmLock w → always_ok m → sized aPrivate →
  ∃ w' m', walIndexRecover xShmMap xShmLock xFileSize xRead aPrivate w m = Some (SQLITE_OK, w', m') ∧
    represents w' (pgnos fr) ∧ committed big s fr (mxFrame (hdr w')) (nPage (hdr w')) (aFrameCksum (hdr w')) ∧
    szPage w' = sz ∧ nCkpt w' = nckpt ∧ aSalt (hdr w') = salt ∧ bigEndCksum (hdr w') = big ∧
    (∀ r, hdr_ok (hdr r) → index_page r 0 = index_page w' 0 →
       ∃ r', walIndexTryHdr r = Some (false, negb (bool_decide (hdr r = hdr w')), r') ∧ hdr r' = hdr w').
Proof.
  intros Hsh HL HR Hmp Hcan Hlk Hm Hpr. destruct (log_size _ _ _ _ _ _ _ _ HL) as (Hrc & Hsize). unfold walIndexRecover. rewrite lock_made by done.
  change (SQLITE_OK =? SQLITE_OK) with true. cbn [negb]. destruct xFileSize as [rc nSize] eqn:EX. cbn [fst snd] in Hrc, Hsize. subst rc.
  change (SQLITE_OK =? SQLITE_OK) with true. cbn [negb]. destruct (Z.ltb_spec WAL_HDRSIZE nSize); [|lia].
  destruct (recover_log_made xShmMap (SQLITE_OK, nSize) xRead big sz nckpt salt s fr Hsh HL aPrivate (with_hdr zero_hdr w) m)
    as (ck & w1 & m1 & E & Ex & Esz & Enc & Hm1 & Hmp1 & HR1); [done|destruct HR; by split|exact Hmp|exact Hcan|done|done|].
  cbn [snd] in E. rewrite E. cbn [mbind option_bind]. change (SQLITE_OK =? SQLITE_OK) with true. cbn [negb orb].
  destruct (finish_made xShmLock (SQLITE_OK, nSize) big sz salt s fr ck w1 m1 HR1 Hmp1) as (w' & E' & (_ & _ & Es & Ec) & HR' & (ck' & Eh) & Hread); [unfold can_lock; by rewrite Ex|].
  exists w', m1. split; [exact E'|]. split; [done|]. pose proof (rc_commit _ _ _ _ _ _ _ HR1) as HC. rewrite Nat2Z.id, firstn_all in HC.
  rewrite Es, Ec, Eh in *. split; [exact HC|]. split; [done|]. split; [done|]. split; [apply HR1|]. split; [apply HR1|]. exact Hread.
Qed.

(** ** The property *)

(** C16: Recovery of the index from a log file.  When the file has a header and the valid frames [fr], and then ends or goes on with a frame
    that is not valid, such as one of an earlier log or one torn by a crash, [walIndexRecover] makes an index of all of [fr],
    with the [mxFrame], the size of the database and the checksum of the last commit in it, or none; frames after that
    commit stay invisible.  The header gets to the shared memory, where every connection reads it.  No step of
    the recovery fails when memory, locks and pages of the shared memory are there. *)
Theorem walIndexRecover_recovers xShmMap xShmLock xFileSize xRead big sz nckpt salt s fr aPrivate w m :
  shm_pages xShmMap → log_file xFileSize xRead big sz nckpt salt s fr → represents w [] → mapped 0 w →
  can_map xShmMap w → can_lock xShmLock w → always_ok m → sized aPrivate →
  ∃ w' m', walIndexRecover xShmMap xShmLock xFileSize xRead aPrivate w m = Some (SQLITE_OK, w', m') ∧
    represents w' (pgnos fr) ∧ committed big s fr (mxFrame (hdr w')) (nPage (hdr w')) (aFrameCksum (hdr w')) ∧
    szPage w' = sz ∧ nCkpt w' = nckpt ∧ aSalt (hdr w') = salt ∧ bigEndCksum (hdr w') = big ∧
    (∀ r, hdr_ok (hdr r) → index_page r 0 = index_page w' 0 →
       ∃ r', walIndexTryHdr r = Some (false, negb (bool_decide (hdr r = hdr w')), r') ∧ hdr r' = hdr w').
Proof. apply recover_made. Qed.

(** A log file with one commit and then zeros. *)
Definition small_salt : list Z := [1; 2; 3; 4; 5; 6; 7; 8].
Definition small_start : Z * Z := default (0, 0) (walChecksumBytes true (log_front 0 512 0 small_salt) None).
Definition small_frames : list frame := [(7, 1, replicate 512 65)].
Definition small_cksum : Z * Z := default (0, 0) (chain 0 small_start small_frames).
Definition small_read (n off : Z) : Z * list Z :=
  (SQLITE_OK, if off =? 0 then log_header 0 512 0 small_salt small_start
              else if off =? 32 then frame_header small_salt small_cksum 7 1 ++ replicate 512 65 else replicate 536 0).

Lemma small_log_file : log_file (SQLITE_OK, 32 + 2 * 536) small_read 0 512 0 small_salt small_start small_frames.
Proof.
  split; [by left|set_solver|lia|split; [reflexivity|repeat constructor; lia]|split; [reflexivity|unfold WAL_HDRSIZE; cbn; lia]|vm_compute; reflexivity|reflexivity| | |vm_compute; discriminate|].
  - repeat constructor; cbn [fst snd]; lia.
  - intros [|k] pg nt d s' Ef Es; [|done]. injection Ef as <- <- <-. change (take 1 small_frames) with small_frames in Es.
    assert (small_cksum = s') as <- by (unfold small_cksum; by rewrite Es). reflexivity.
  - intros _. exists (replicate 536 0), small_cksum. split; [by vm_compute|]. split; [reflexivity|]. intros w (_ & E & _).
    exists (aFrameCksum (hdr w)). unfold walDecodeFrame. rewrite E, bool_decide_eq_false_2 by done. cbn [negb]. do 2 f_equal.
    destruct w as [? ? ? ? ? ? ? ? h ? ? ?]. by destruct h.
Qed.

Lemma walIndexRecover_recovers_witness :
  ∃ w' m', walIndexRecover no_shm (λ _ _, 0) (SQLITE_OK, 32 + 2 * 536) small_read zero_page (with_index [Some zero_page] new_wal) (Mem [] 0) =
      Some (SQLITE_OK, w', m') ∧ represents w' [7] ∧ committed 0 small_start small_frames (mxFrame (hdr w')) (nPage (hdr w')) (aFrameCksum (hdr w')).
Proof.
  destruct (walIndexRecover_recovers no_shm (λ _ _, 0) (SQLITE_OK, 32 + 2 * 536) small_read 0 512 0 small_salt small_start small_frames zero_page
    (with_index [Some zero_page] new_wal) (Mem [] 0)) as (w' & m' & E & HR & HC & _);
    [apply no_shm_pages|apply small_log_file| |by exists zero_page|by left|by left|by constructor|apply zero_sized|].
  { split; [|intros h Hh Hb; destruct (before_next h Hh) as (_ & ? & _); cbn [length] in Hb; lia|constructor].
    intros h p Hp. pose proof (index_bounds _ _ _ Hp) as Hb. cbn in Hb. assert (h = 0) as -> by lia. injection Hp as <-. apply zero_sized. }
  exists w', m'. split; [exact E|]. split; [exact HR|exact HC].
Defined.
