(* ===== verification/WalIter.v ===== *)
(** The iterator over the pages in the write-ahead log that a checkpoint copies, src/wal.c: the merge sort of the frames of
    each page of the wal-index, and the merge of these.  Proofs are in WalIterProofs.v. *)
From S2P Require Import Prelude Wal.

(** The arrays [aLeft], [aRight] and [aMerge] point into the list that is sorted, so they are offsets into it; every read and
    write is checked against the bounds of the list and of the buffer. *)

(** [memcpy] of [src] to offset [at_]. *)
Definition copy_to (at_ : Z) (src l : list Z) : option (list Z) :=
  if (0 <=? at_) && (at_ + zlen src <=? zlen l) then Some (take (Z.to_nat at_) l ++ src ++ drop (Z.to_nat (at_ + zlen src)) l) else None.

(** The loop of [walMerge], with at most [n] steps: [iOut] and the buffer. *)
Fixpoint merge_loop (n : nat) (aContent aList : list Z) (aLeft nLeft aRight nRight iLeft iRight iOut : Z) (aTmp : list Z) : option (Z * list Z) :=
  if (iRight <? nRight) || (iLeft <? nLeft) then
    match n with
    | O => None
    | S n =>
        useLeft ← (if iLeft <? nLeft then
                  if nRight <=? iRight then Some true
                  else l ← aList.[aLeft + iLeft]; r ← aList.[aRight + iRight]; lk ← aContent.[l]; rk ← aContent.[r]; Some (lk <? rk)
                else Some false);
        logpage ← aList.[(if useLeft then aLeft + iLeft else aRight + iRight)];
        let '(iLeft, iRight) := (if (useLeft : bool) then iLeft + 1 else iLeft, if useLeft then iRight else iRight + 1) in
        dbpage ← aContent.[logpage];
        aTmp ← wr aTmp iOut logpage;
        iLeft ← (if iLeft <? nLeft then l ← aList.[aLeft + iLeft]; lk ← aContent.[l]; Some (if lk =? dbpage then iLeft + 1 else iLeft)
                 else Some iLeft);
        merge_loop n aContent aList aLeft nLeft aRight nRight iLeft iRight (iOut + 1) aTmp
    end
  else Some (iOut, aTmp).

(** The list, [aRight] and [nRight] after the merge, and the buffer. *)
Definition walMerge (aContent aList : list Z) (aLeft nLeft aRight nRight : Z) (aTmp : list Z) : option (list Z * Z * Z * list Z) :=
  '(iOut, aTmp) ← merge_loop (Z.to_nat (nLeft + nRight)) aContent aList aLeft nLeft aRight nRight 0 0 0 aTmp;
  aList ← copy_to aLeft (take (Z.to_nat iOut) aTmp) aList;
  Some (aList, aLeft, iOut, aTmp).

(** [ArraySize(aSub)]; a sublist is where it begins and how many elements it has. *)
Definition nSub : Z := 13.
Definition Sublist : Type := Z * Z.

(** Sublists [iSub] and up are merged as long as the bits of [iList] are set. *)
Fixpoint carry_loop (n : nat) (iList iSub : Z) (aContent aList : list Z) (aMerge nMerge : Z) (aBuffer : list Z) (aSub : list (option Sublist)) :
    option (Z * list Z * Z * Z * list Z) :=
  if Z.testbit iList iSub then
    match n with
    | O => None
    | S n =>
        p ← aSub.[iSub]; '(aLeft, nLeft) ← p;
        '(aList, aMerge, nMerge, aBuffer) ← walMerge aContent aList aLeft nLeft aMerge nMerge aBuffer;
        carry_loop n iList (iSub + 1) aContent aList aMerge nMerge aBuffer aSub
    end
  else Some (iSub, aList, aMerge, nMerge, aBuffer).

(** The elements from [iList] on, [n] of them. *)
Fixpoint sort_loop (n : nat) (iList : Z) (aContent aList aBuffer : list Z) (aSub : list (option Sublist)) (st : Z * Z * Z) :
    option (list Z * list Z * list (option Sublist) * (Z * Z * Z)) :=
  match n with
  | O => Some (aList, aBuffer, aSub, st)
  | S n =>
      '(iSub, aList, aMerge, nMerge, aBuffer) ← carry_loop (Z.to_nat nSub) iList 0 aContent aList iList 1 aBuffer aSub;
      aSub ← wr aSub iSub (Some (aMerge, nMerge));
      sort_loop n (iList + 1) aContent aList aBuffer aSub (iSub, aMerge, nMerge)
  end.

(** The sublists from [iSub] on that are left, [n] of them to look at. *)
Fixpoint rest_loop (n : nat) (nList iSub : Z) (aContent aList aBuffer : list Z) (aSub : list (option Sublist)) (aMerge nMerge : Z) :
    option (list Z * Z * Z * list Z) :=
  match n with
  | O => Some (aList, aMerge, nMerge, aBuffer)
  | S n =>
      if Z.testbit nList iSub then
        p ← aSub.[iSub]; '(aLeft, nLeft) ← p;
        '(aList, aMerge, nMerge, aBuffer) ← walMerge aContent aList aLeft nLeft aMerge nMerge aBuffer;
        rest_loop n nList (iSub + 1) aContent aList aBuffer aSub aMerge nMerge
      else rest_loop n nList (iSub + 1) aContent aList aBuffer aSub aMerge nMerge
  end.

(** The list, of which the first [*pnList] elements are the result, and the buffer. *)
Definition walMergesort (aContent aBuffer aList : list Z) (nList : Z) : option (list Z * Z * list Z) :=
  '(aList, aBuffer, aSub, (iSub, aMerge, nMerge)) ← sort_loop (Z.to_nat nList) 0 aContent aList aBuffer (replicate (Z.to_nat nSub) None) (0, 0, 0);
  '(aList, _, nMerge, aBuffer) ← rest_loop (Z.to_nat (nSub - (iSub + 1))) nList (iSub + 1) aContent aList aBuffer aSub aMerge nMerge;
  Some (aList, nMerge, aBuffer).

(** ** The iterator *)

(** [aPgno] is a location in the wal-index; [aIndex] is the part of the array behind the segments that belongs to this one. *)
Record WalSegment := mkSegment { iNext : Z; aIndex : list Z; aPgno : option WalHashLoc; nEntry : Z; seg_iZero : Z }.
Record WalIterator := mkIterator { iPrior : Z; aSegment : list WalSegment }.
Definition empty_segment : WalSegment := mkSegment 0 [] None 0 0.
Definition with_iNext x s := mkSegment x (aIndex s) (aPgno s) (nEntry s) (seg_iZero s).

Definition seg_pgno (w : Wal) (s : WalSegment) (k : Z) : option Z := l ← aPgno s; get_pgno w l k.

(** The first entry from [iNext] on, of [n] entries, with a page number above [iMin]: the page number and the entry. *)
Fixpoint skip_loop (n : nat) (w : Wal) (s : WalSegment) (iNext iMin : Z) : option (option (Z * Z) * Z) :=
  match n with
  | O => Some (None, iNext)
  | S n =>
      k ← (aIndex s).[iNext];
      iPg ← seg_pgno w s k;
      if iMin <? iPg then Some (Some (iPg, k), iNext) else skip_loop n w s (iNext + 1) iMin
  end.

(** The segments [n - 1] down to [0]. *)
Fixpoint segments_loop (n : nat) (w : Wal) (segs : list WalSegment) (iMin iRet iFrame : Z) : option (Z * Z * list WalSegment) :=
  match n with
  | O => Some (iRet, iFrame, segs)
  | S i =>
      s ← segs !! i;
      '(r, x) ← skip_loop (Z.to_nat (nEntry s - iNext s)) w s (iNext s) iMin;
      let '(iRet, iFrame) := match r with
        | Some (iPg, k) => if iPg <? iRet then (iPg, seg_iZero s + k) else (iRet, iFrame)
        | None => (iRet, iFrame)
        end in
      segments_loop i w (<[i := with_iNext x s]> segs) iMin iRet iFrame
  end.

(** Whether there is no page any more, the page, its frame. *)
Definition walIteratorNext (w : Wal) (p : WalIterator) (iFrame : Z) : option (bool * Z * Z * WalIterator) :=
  '(iRet, iFrame, segs) ← segments_loop (length (aSegment p)) w (aSegment p) (iPrior p) 0xFFFFFFFF iFrame;
  Some (iRet =? 0xFFFFFFFF, iRet, iFrame, mkIterator iRet segs).

Section init.
Context (xShmMap : Z → bool → Z * option wipage).

(** Segments [i] and up, [n] of them, while there is no error; [nSegment] in all; [aTmp] is the buffer. *)
Fixpoint init_loop (n : nat) (i nSegment iLast : Z) (aTmp : list Z) (segs : list WalSegment) (w : Wal) (m : mem) :
    option (Z * list WalSegment * Wal * mem) :=
  match n with
  | O => Some (SQLITE_OK, segs, w, m)
  | S n =>
      let '(rc, loc, w, m) := walHashGet xShmMap i w m in
      if negb (rc =? SQLITE_OK) then Some (rc, segs, w, m)
      else
        l ← loc;
        let nEntry := if i + 1 =? nSegment then iLast - iZero l else HASHTABLE_NPAGE - hl_off l in
        p ← index_page w (hl_page l);
        '(aIndex, nEntry, aTmp) ← walMergesort (drop (Z.to_nat (hl_off l)) (words p)) aTmp (map Z.of_nat (seq 0 (Z.to_nat nEntry))) nEntry;
        segs ← wr segs i (mkSegment 0 aIndex (Some l) nEntry (iZero l + 1));
        init_loop n (i + 1) nSegment iLast aTmp segs w m
  end.

(** [aTmp] is what the memory for the buffer holds. *)
Definition walIteratorInit (aTmp : list Z) (nBackfill : Z) (w : Wal) (m : mem) : option (Z * option WalIterator * Wal * mem) :=
  let iLast := mxFrame (hdr w) in
  let nSegment := walFramePage iLast + 1 in
  let '(ok, m) := sqlite3Malloc m in
  if negb ok then Some (SQLITE_NOMEM, None, w, m)
  else
    let i := walFramePage (nBackfill + 1) in
    '(rc, segs, w, m) ← init_loop (Z.to_nat (nSegment - i)) i nSegment iLast aTmp (replicate (Z.to_nat nSegment) empty_segment) w m;
    if negb (rc =? SQLITE_OK) then Some (rc, None, w, sqlite3_free m) else Some (SQLITE_OK, Some (mkIterator 0 segs), w, m).
End init.

Example sorted_pages : ('(l, n, _) ← walMergesort [5; 3; 5; 9; 3; 1; 9] (replicate 7 0) (map Z.of_nat (seq 0 7)) 7; Some (take (Z.to_nat n) l)) = Some [5; 4; 2; 6].
Proof. vm_compute. reflexivity. Qed.
