(* ===== verification/WalIterProofs.v ===== *)
(** Proofs about the iterator over the write-ahead log (WalIter.v): the merge sort gives every page number of a page of the index
    once, in order, with its last frame, and the iterator gives every page of the log once, in order, with its
    last frame up to [mxFrame]. *)
From S2P Require Import Prelude Wal WalProofs WalIter.

(** ** Merging two runs *)

(** [L] is in the list from [a] on. *)
Definition holds_at (l : list Z) (a : Z) (L : list Z) : Prop := 0 ≤ a ∧ ∀ k, 0 ≤ k < zlen L → l.[a + k] = L.[k].

Section sort.
Context (aContent : list Z).
Definition key (x : Z) : Z := default 0 aContent.[x].
Definition keyed (L : list Z) : Prop := Forall (λ x, 0 ≤ x < zlen aContent) L.
Abbreviation sorted := (StronglySorted (λ x y, key x < key y)).

Lemma key_made x : 0 ≤ x < zlen aContent → aContent.[x] = Some (key x).
Proof. intros Hx. destruct (rd_in_bounds aContent x Hx) as (v & Hv). unfold key. by rewrite Hv. Qed.

(** The right one wins where both have a key. *)
Record merged (L R M : list Z) : Prop := Merged {
  mg_sorted : sorted M;
  mg_from x : x ∈ M → x ∈ L ∨ x ∈ R;
  mg_right x : x ∈ R → x ∈ M;
  mg_left x : x ∈ L → x ∈ M ∨ ∃ y, y ∈ R ∧ key y = key x;
  mg_length : zlen M ≤ zlen L + zlen R }.

Lemma holds_cons l a x L : holds_at l a (x :: L) → l.[a] = Some x ∧ holds_at l (a + 1) L.
Proof.
  intros (Ha & H). split; [rewrite <- (Z.add_0_r a), H; [done|cbn [length]; lia]|]. split; [lia|]. intros k Hk.
  replace (a + 1 + k) with (a + (k + 1)) by lia. rewrite H by (cbn [length]; lia).
  change (x :: L) with ([x] ++ L). rewrite rd_app_r by (cbn [length]; lia). f_equal. cbn [length]. lia.
Qed.

Lemma sorted_above x L M : Forall (λ y, key x < key y) L → (∀ y, y ∈ M → y ∈ L) → Forall (λ y, key x < key y) M.
Proof. rewrite !Forall_forall. auto. Qed.

Lemma sorted_inj L : sorted L → ∀ x y, x ∈ L → y ∈ L → key x = key y → x = y.
Proof.
  induction 1 as [|z L HL IH HF]; intros x y Hx Hy E; [by apply elem_of_nil in Hx|]. rewrite Forall_forall in HF.
  apply elem_of_cons in Hx as [->|Hx]; apply elem_of_cons in Hy as [->|Hy]; [done| | |by apply IH].
  - specialize (HF y Hy). lia.
  - specialize (HF x Hx). lia.
Qed.

Lemma merged_left l L R M : sorted (l :: L) → Forall (λ y, key l < key y) R → merged L R M → merged (l :: L) R (l :: M).
Proof.
  intros Hs HR [H1 H2 H3 H4 H5]. apply StronglySorted_inv in Hs as (_ & HL). rewrite Forall_forall in HL, HR. split.
  - constructor; [done|]. apply Forall_forall. intros y Hy. destruct (H2 y Hy); auto.
  - intros x Hx. apply elem_of_cons in Hx as [->|Hx]; [left; constructor|]. destruct (H2 x Hx); [left; by constructor|by right].
  - intros x Hx. constructor. auto.
  - intros x Hx. apply elem_of_cons in Hx as [->|Hx]; [left; constructor|]. destruct (H4 x Hx); [left; by constructor|by right].
  - cbn [length]. lia.
Qed.

Lemma merged_right L R M r : Forall (λ y, key r < key y) L → sorted (r :: R) → merged L R M → merged L (r :: R) (r :: M).
Proof.
  intros HL Hs [H1 H2 H3 H4 H5]. apply StronglySorted_inv in Hs as (_ & HR). rewrite Forall_forall in HL, HR. split.
  - constructor; [done|]. apply Forall_forall. intros y Hy. destruct (H2 y Hy); auto.
  - intros x Hx. apply elem_of_cons in Hx as [->|Hx]; [right; constructor|]. destruct (H2 x Hx); [by left|right; by constructor].
  - intros x Hx. apply elem_of_cons in Hx as [->|Hx]; constructor. auto.
  - intros x Hx. destruct (H4 x Hx) as [?|(y & ? & ?)]; [left; by constructor|right; exists y; by split; [constructor|]].
  - cbn [length]. lia.
Qed.

(** The right one has the key of the first left one, which is dropped. *)
Lemma merged_drop l L R M : (∃ y, y ∈ R ∧ key y = key l) → merged L R M → merged (l :: L) R M.
Proof.
  intros Hy [H1 H2 H3 H4 H5]. split; [done| |done| |cbn [length]; lia].
  - intros x Hx. destruct (H2 x Hx); [left; by constructor|by right].
  - intros x Hx. apply elem_of_cons in Hx as [->|Hx]; [by right|auto].
Qed.

Lemma merged_nil : merged [] [] [].
Proof. split; [constructor|by left|done|by left|done]. Qed.

Lemma take_wr (l : list Z) a x : 0 ≤ a < zlen l → take (Z.to_nat (a + 1)) (<[Z.to_nat a := x]> l) = take (Z.to_nat a) l ++ [x].
Proof.
  intros Ha. replace (Z.to_nat (a + 1)) with (S (Z.to_nat a)) by lia. rewrite (take_S_r _ _ x) by (apply list_lookup_insert_eq; lia).
  by rewrite take_insert_ge by lia.
Qed.

(** After a left element none is dropped. *)
Lemma no_skip aList aLeft iLeft nLeft l L :
  holds_at aList (aLeft + iLeft + 1) L → zlen L = nLeft - (iLeft + 1) → keyed L → Forall (λ y, key l < key y) L →
  (if iLeft + 1 <? nLeft then l0 ← aList.[aLeft + (iLeft + 1)]; lk ← aContent.[l0]; Some (if lk =? key l then iLeft + 1 + 1 else iLeft + 1) else Some (iLeft + 1)) = Some (iLeft + 1).
Proof.
  intros HL El KL Fl. destruct L as [|l2 L]; cbn [length] in El; destruct (Z.ltb_spec (iLeft + 1) nLeft); try lia; [done|].
  destruct (holds_cons _ _ _ _ HL) as (Hl2 & _). rewrite Z.add_assoc, Hl2. cbn [mbind option_bind]. apply Forall_cons in KL as (Kl2 & _). rewrite key_made by done.
  cbn [mbind option_bind]. apply Forall_cons in Fl as (? & _). by destruct (Z.eqb_spec (key l2) (key l)); [lia|].
Qed.

Lemma merge_loop_made aList aLeft nLeft aRight nRight (n : nat) : ∀ L R iLeft iRight iOut aTmp,
  holds_at aList (aLeft + iLeft) L → holds_at aList (aRight + iRight) R → zlen L = nLeft - iLeft → zlen R = nRight - iRight →
  keyed L → keyed R → sorted L → sorted R → zlen L + zlen R ≤ Z.of_nat n → 0 ≤ iOut → iOut + zlen L + zlen R ≤ zlen aTmp →
  ∃ M aTmp', merge_loop n aContent aList aLeft nLeft aRight nRight iLeft iRight iOut aTmp = Some (iOut + zlen M, aTmp') ∧
    zlen aTmp' = zlen aTmp ∧ take (Z.to_nat (iOut + zlen M)) aTmp' = take (Z.to_nat iOut) aTmp ++ M ∧ merged L R M.
Proof.
  induction n as [|n IH]; intros L R iLeft iRight iOut aTmp HL HR El Er KL KR SL SR Hn Ho Hcap.
  { destruct L; [|cbn [length] in Hn; lia]. destruct R; [|cbn [length] in Hn; lia]. cbn [length] in *. exists [], aTmp. cbn [merge_loop length].
    destruct (Z.ltb_spec iRight nRight); [lia|]. destruct (Z.ltb_spec iLeft nLeft); [lia|]. rewrite Z.add_0_r, app_nil_r. split_and!; [done..|apply merged_nil]. }
  (** one step, then the rest *)
  assert (Hstep : ∀ x L' R' iLeft' iRight', holds_at aList (aLeft + iLeft') L' → holds_at aList (aRight + iRight') R' → zlen L' = nLeft - iLeft' → zlen R' = nRight - iRight' →
    keyed L' → keyed R' → sorted L' → sorted R' → zlen L' + zlen R' + 1 ≤ zlen L + zlen R → (∀ M, merged L' R' M → merged L R (x :: M)) →
    ∃ M aTmp', merge_loop n aContent aList aLeft nLeft aRight nRight iLeft' iRight' (iOut + 1) (<[Z.to_nat iOut := x]> aTmp) = Some (iOut + zlen M, aTmp') ∧
      zlen aTmp' = zlen aTmp ∧ take (Z.to_nat (iOut + zlen M)) aTmp' = take (Z.to_nat iOut) aTmp ++ M ∧ merged L R M).
  { intros x L' R' iL' iR' HL' HR' El' Er' KL' KR' SL' SR' Hlen HM.
    destruct (IH L' R' iL' iR' (iOut + 1) (<[Z.to_nat iOut := x]> aTmp)) as (M & aTmp' & E & E2 & E3 & E4); try done; [lia|lia|rewrite length_insert; lia|].
    exists (x :: M), aTmp'. rewrite E. cbn [length]. split; [f_equal; f_equal; lia|]. split; [by rewrite E2, length_insert|]. split; [|by apply HM].
    replace (iOut + Z.of_nat (S (length M))) with (iOut + 1 + zlen M) by lia. rewrite E3, take_wr by lia. by rewrite <- app_assoc. }
  assert (Hwr : ∀ x, 0 < zlen L + zlen R → wr aTmp iOut x = Some (<[Z.to_nat iOut := x]> aTmp)) by (intros x Hx; apply wr_in_bounds; lia).
  cbn [merge_loop]. destruct L as [|l L].
  - destruct R as [|r R]; cbn [length] in El, Er, Hn, Hcap, Hwr.
    { destruct (Z.ltb_spec iRight nRight); [lia|]. destruct (Z.ltb_spec iLeft nLeft); [lia|]. exists [], aTmp. cbn [orb length].
      rewrite Z.add_0_r, app_nil_r. split_and!; [done..|apply merged_nil]. }
    destruct (Z.ltb_spec iRight nRight); [|lia]. destruct (Z.ltb_spec iLeft nLeft); [lia|]. cbn [orb mbind option_bind].
    destruct (holds_cons _ _ _ _ HR) as (Hr & HR'). rewrite Hr. cbn [mbind option_bind]. apply Forall_cons in KR as (Kr & KR).
    rewrite key_made by done. cbn [mbind option_bind]. rewrite Hwr by lia. cbn [mbind option_bind].
    destruct (Z.ltb_spec iLeft nLeft); [lia|]. cbn [mbind option_bind]. apply (Hstep r [] R iLeft (iRight + 1)); try done; cbn [length]; try lia.
    + by rewrite Z.add_assoc.
    + by apply StronglySorted_inv in SR as (? & _).
    + intros M. by apply merged_right.
  - destruct (holds_cons _ _ _ _ HL) as (Hl & HL'). pose proof KL as KL0. apply Forall_cons in KL as (Kl & KL). pose proof SL as SL0. apply StronglySorted_inv in SL as (SL & Fl).
    destruct R as [|r R]; cbn [length] in El, Er, Hn, Hcap, Hwr; destruct (Z.ltb_spec iLeft nLeft); [|lia| |lia].
    + destruct (Z.ltb_spec iRight nRight); [lia|]. cbn [orb]. destruct (Z.leb_spec nRight iRight); [|lia]. cbn [mbind option_bind]. rewrite Hl. cbn [mbind option_bind].
      rewrite key_made by done. cbn [mbind option_bind]. rewrite Hwr by lia. cbn [mbind option_bind].
      rewrite (no_skip _ _ _ _ l L) by (done || lia). cbn [mbind option_bind]. apply (Hstep l L [] (iLeft + 1) iRight); try done; cbn [length]; try lia; [by rewrite Z.add_assoc|].
      intros M. apply merged_left; [done|constructor].
    + pose proof KR as KR0. apply Forall_cons in KR as (Kr & KR). pose proof SR as SR0. apply StronglySorted_inv in SR as (SR & Fr). destruct (holds_cons _ _ _ _ HR) as (Hr & HR').
      destruct (Z.ltb_spec iRight nRight); [|lia]. cbn [orb]. destruct (Z.leb_spec nRight iRight); [lia|]. rewrite Hl, Hr. cbn [mbind option_bind].
      rewrite !key_made by done. cbn [mbind option_bind]. destruct (Z.ltb_spec (key l) (key r)) as [Hlt|Hge].
      * rewrite Hl. cbn [mbind option_bind]. rewrite key_made by done. cbn [mbind option_bind]. rewrite Hwr by lia. cbn [mbind option_bind].
        rewrite (no_skip _ _ _ _ l L) by (done || lia). cbn [mbind option_bind]. apply (Hstep l L (r :: R) (iLeft + 1) iRight); try done; cbn [length]; try lia; [by rewrite Z.add_assoc|].
        intros M. apply merged_left; [done|]. constructor; [done|]. eapply Forall_impl; [exact Fr|]. intros y ?; cbn beta in *; lia.
      * rewrite Hr. cbn [mbind option_bind]. rewrite key_made by done. cbn [mbind option_bind]. rewrite Hwr by lia. cbn [mbind option_bind].
        destruct (Z.ltb_spec iLeft nLeft); [|lia]. rewrite Hl. cbn [mbind option_bind]. rewrite key_made by done. cbn [mbind option_bind].
        destruct (Z.eqb_spec (key l) (key r)) as [Heq|Hne].
        -- apply (Hstep r L R (iLeft + 1) (iRight + 1)); try done; cbn [length]; try lia; [by rewrite Z.add_assoc|by rewrite Z.add_assoc|].
           intros M HM. apply merged_drop; [exists r; by split; [constructor|]|]. apply merged_right; [by rewrite <- Heq|done|done].
        -- apply (Hstep r (l :: L) R iLeft (iRight + 1)); try done; cbn [length]; try lia; [by rewrite Z.add_assoc|].
           intros M. apply merged_right; [|done]. constructor; [lia|]. eapply Forall_impl; [exact Fl|]. intros y ?; cbn beta in *; lia.
Qed.

(** ** Runs *)

(** The indices from [a] to [b], each key once with the last index. *)
Record run (a b : Z) (S : list Z) : Prop := Run {
  run_sorted : sorted S;
  run_from x : x ∈ S → a ≤ x < b;
  run_all j : a ≤ j < b → ∃ x, x ∈ S ∧ j ≤ x ∧ key x = key j;
  run_length : zlen S ≤ b - a }.

Lemma run_single j : run j (j + 1) [j].
Proof.
  split; [by repeat constructor| | |cbn [length]; lia].
  - intros x Hx. apply list_elem_of_singleton in Hx as ->. lia.
  - intros x Hx. assert (x = j) as -> by lia. exists j. split; [constructor|]. split; [lia|done].
Qed.

Lemma run_merged a b c L R M : run a b L → run b c R → merged L R M → run a c M.
Proof.
  intros [L1 L2 L3 L4] [R1 R2 R3 R4] [M1 M2 M3 M4 M5]. split; [done| | |lia].
  - intros x Hx. destruct (M2 x Hx) as [Hl|Hr]; [specialize (L2 x Hl)|specialize (R2 x Hr)]; lia.
  - intros j Hj. destruct (Z.lt_ge_cases j b) as [Hlt|Hge].
    + destruct (L3 j) as (x & Hx & Hle & Hk); [lia|]. destruct (M4 x Hx) as [?|(y & Hy & Hk')]; [by exists x|].
      exists y. split; [auto|]. specialize (R2 y Hy). split; [lia|congruence].
    + destruct (R3 j) as (x & Hx & Hle & Hk); [lia|]. exists x. auto.
Qed.

Lemma run_keyed a b S : run a b S → 0 ≤ a → b ≤ zlen aContent → keyed S.
Proof. intros [_ H _ _] Ha Hb. apply Forall_forall. intros x Hx. specialize (H x Hx). lia. Qed.

Lemma rd_drop (l : list Z) (n : nat) i : 0 ≤ i → (drop n l).[i] = l.[Z.of_nat n + i].
Proof.
  intros Hi. unfold rd. destruct (Z.ltb_spec i 0); [lia|]. destruct (Z.ltb_spec (Z.of_nat n + i) 0); [lia|]. rewrite lookup_drop. f_equal. lia.
Qed.

Lemma copy_to_made at_ src l : 0 ≤ at_ → at_ + zlen src ≤ zlen l → ∃ l', copy_to at_ src l = Some l' ∧ zlen l' = zlen l ∧ holds_at l' at_ src ∧
  ∀ k, k < at_ ∨ at_ + zlen src ≤ k → l'.[k] = l.[k].
Proof.
  intros H0 H1. unfold copy_to. destruct (Z.leb_spec 0 at_); [|lia]. destruct (Z.leb_spec (at_ + zlen src) (zlen l)); [|lia]. cbn [andb].
  eexists. split; [done|]. assert (Et : zlen (take (Z.to_nat at_) l) = at_) by (rewrite length_take; lia).
  split; [rewrite !length_app, length_drop; lia|]. split.
  - split; [done|]. intros k Hk. rewrite rd_app_r, rd_app_l by lia. f_equal. lia.
  - intros k Hk. destruct (Z.lt_ge_cases k at_) as [Hlt|Hge].
    + rewrite rd_app_l by lia. rewrite <- (take_drop (Z.to_nat at_) l) at 2. by rewrite rd_app_l by lia.
    + rewrite !rd_app_r by lia. rewrite rd_drop by lia. f_equal. lia.
Qed.

Lemma walMerge_made aList aTmp aLeft aRight c L R :
  holds_at aList aLeft L → holds_at aList aRight R → run aLeft aRight L → run aRight c R → c ≤ zlen aList → c ≤ zlen aContent → c ≤ zlen aTmp →
  ∃ (M : list Z) aList' aTmp', walMerge aContent aList aLeft (zlen L) aRight (zlen R) aTmp = Some (aList', aLeft, zlen M, aTmp') ∧
    zlen aList' = zlen aList ∧ zlen aTmp' = zlen aTmp ∧ holds_at aList' aLeft M ∧ run aLeft c M ∧ (∀ k, k < aLeft ∨ c ≤ k → aList'.[k] = aList.[k]).
Proof.
  intros HL HR RL RR Hc Hc2 Ht. pose proof (proj1 HL) as H0. pose proof (proj1 HR) as H0r. pose proof (run_length _ _ _ RL) as Ll. pose proof (run_length _ _ _ RR) as Lr.
  destruct (merge_loop_made aList aLeft (zlen L) aRight (zlen R) (Z.to_nat (zlen L + zlen R)) L R 0 0 0 aTmp) as (M & aTmp' & E & Et & Em & HM);
    try lia; [by rewrite Z.add_0_r|by rewrite Z.add_0_r|eapply run_keyed; [exact RL|done|lia]|by eapply run_keyed|by apply RL|by apply RR|].
  unfold walMerge. rewrite E. cbn [mbind option_bind]. rewrite Em. change (take (Z.to_nat 0) aTmp) with (@nil Z). cbn [app].
  pose proof (run_merged _ _ _ _ _ _ RL RR HM) as RM. pose proof (run_length _ _ _ RM).
  destruct (copy_to_made aLeft M aList) as (aList' & -> & El & Hh & Hk); [done|lia|]. cbn [mbind option_bind]. exists M, aList', aTmp'.
  split; [done|]. split; [done|]. split; [done|]. split; [done|]. split; [done|]. intros k Hk2. apply Hk. lia.
Qed.

(** ** The binary counter of the sublists *)

(** [n] without its bits below [i]. *)
Definition up (n i : Z) : Z := n / 2 ^ i * 2 ^ i.

Lemma up_step n i : 0 ≤ n → 0 ≤ i → up n i = up n (i + 1) + (if Z.testbit n i then 2 ^ i else 0).
Proof.
  intros Hn Hi. unfold up. rewrite Z.testbit_odd, Z.shiftr_div_pow2 by done. rewrite Z.pow_add_r by lia. change (2 ^ 1) with 2.
  rewrite <- Z.div_div by lia. pose proof (Zdiv2_odd_eqn (n / 2 ^ i)) as E. rewrite Z.div2_div in E. destruct (Z.odd (n / 2 ^ i)); nia.
Qed.

Lemma up_le n i : 0 ≤ n → 0 ≤ i → 0 ≤ up n i ≤ n.
Proof. intros Hn Hi. unfold up. assert (0 < 2 ^ i) by lia. assert (0 ≤ n / 2 ^ i) by (apply Z.div_pos; lia). pose proof (Z.mul_div_le n (2 ^ i)). nia. Qed.

Lemma up_mono n i j : 0 ≤ n → 0 ≤ i ≤ j → up n j ≤ up n i.
Proof.
  intros Hn Hij. replace j with (i + Z.of_nat (Z.to_nat (j - i))) by lia. generalize (Z.to_nat (j - i)). intros d.
  induction d as [|d IH]; [rewrite Z.add_0_r; done|]. pose proof (up_step n (i + Z.of_nat d) Hn ltac:(lia)) as E.
  replace (i + Z.of_nat (S d)) with (i + Z.of_nat d + 1) by lia. destruct (Z.testbit _ _); lia.
Qed.

(** Adding one when the bits below [s] are set and bit [s] is not. *)
Lemma up_succ n s : 0 ≤ n → 0 ≤ s → up n s + 2 ^ s = n + 1 → Z.testbit n s = false →
  Z.testbit (n + 1) s = true ∧ (∀ i, 0 ≤ i < s → Z.testbit (n + 1) i = false) ∧
  (∀ i, s < i → Z.testbit (n + 1) i = Z.testbit n i ∧ up (n + 1) i = up n i) ∧ up (n + 1) (s + 1) = up n s.
Proof.
  intros Hn Hs E Hb. unfold up in *. set (q := n / 2 ^ s) in *. assert (Hp : 0 < 2 ^ s) by lia.
  assert (E1 : n + 1 = (q + 1) * 2 ^ s) by lia. rewrite Z.testbit_odd, Z.shiftr_div_pow2 in Hb by done. fold q in Hb.
  assert (Hq : q = 2 * (q / 2)) by (pose proof (Zdiv2_odd_eqn q) as E2; rewrite Hb, Z.div2_div in E2; lia).
  assert (Hup : ∀ i, s < i → (n + 1) / 2 ^ i = n / 2 ^ i).
  { intros i Hi. replace i with (s + (1 + (i - s - 1))) by lia. rewrite !(Z.pow_add_r 2 s), !(Z.pow_add_r 2 1) by lia. change (2 ^ 1) with 2.
    rewrite <- !Z.div_div by lia. rewrite E1, Z.div_mul by lia. fold q. f_equal. rewrite Hq at 1. zdm. }
  split_and!.
  - rewrite Z.testbit_odd, Z.shiftr_div_pow2 by done. rewrite E1, Z.div_mul by lia. rewrite Z.odd_add, Hb. done.
  - intros i Hi. rewrite E1, Z.mul_pow2_bits_low by lia. done.
  - intros i Hi. rewrite !Z.testbit_odd, !Z.shiftr_div_pow2 by lia. rewrite Hup by lia. done.
  - rewrite Hup by lia. rewrite Z.pow_add_r by lia. change (2 ^ 1) with 2. rewrite <- Z.div_div by lia. fold q. rewrite Hq at 2. lia.
Qed.

(** ** The loops of the sort *)

Lemma holds_ext l l' a b L : holds_at l a L → zlen L ≤ b - a → (∀ j, j < b → l'.[j] = l.[j]) → holds_at l' a L.
Proof. intros (H0 & H) Hb Hj. split; [done|]. intros k Hk. rewrite Hj by lia. by apply H. Qed.

(** The sublist for bit [i] of [n]. *)
Definition sublist (n i : Z) (aList : list Z) (aSub : list (option Sublist)) : Prop :=
  ∃ S : list Z, aSub.[i] = Some (Some (up n (i + 1), zlen S)) ∧ holds_at aList (up n (i + 1)) S ∧ run (up n (i + 1)) (up n i) S.

Lemma sublist_ext n i aList aList' aSub b : 0 ≤ n → sublist n i aList aSub → up n i ≤ b → (∀ j, j < b → aList'.[j] = aList.[j]) → sublist n i aList' aSub.
Proof.
  intros Hn (S & H1 & H2 & H3) Hb Hj. exists S. split; [done|]. split; [|done]. eapply holds_ext; [exact H2|exact (run_length _ _ _ H3)|].
  intros j Hlt. apply Hj. lia.
Qed.

(** The sublist of bit [iSub] and the merge list behind it. *)
Lemma merge_sublist n iSub aList aSub aBuffer S c :
  0 ≤ n → 0 ≤ iSub → Z.testbit n iSub = true → sublist n iSub aList aSub → holds_at aList (up n iSub) S → run (up n iSub) c S →
  c ≤ zlen aList → c ≤ zlen aContent → c ≤ zlen aBuffer →
  ∃ (L S' : list Z) aList' aBuffer', aSub.[iSub] = Some (Some (up n (iSub + 1), zlen L)) ∧
    walMerge aContent aList (up n (iSub + 1)) (zlen L) (up n iSub) (zlen S) aBuffer = Some (aList', up n (iSub + 1), zlen S', aBuffer') ∧
    zlen aList' = zlen aList ∧ zlen aBuffer' = zlen aBuffer ∧ holds_at aList' (up n (iSub + 1)) S' ∧ run (up n (iSub + 1)) c S' ∧
    (∀ j, j < up n (iSub + 1) ∨ c ≤ j → aList'.[j] = aList.[j]).
Proof.
  intros Hn Hi Hb (L & EL & HL & RL) HS RS Hc1 Hc2 Hc3. exists L.
  destruct (walMerge_made aList aBuffer (up n (iSub + 1)) (up n iSub) c L S HL HS RL RS Hc1 Hc2 Hc3) as (M & aList' & aTmp' & H). by exists M, aList', aTmp'.
Qed.

Lemma carry_loop_made n aSub (k : nat) : 0 ≤ n → ∀ iSub aList S aBuffer,
  0 ≤ iSub → n < 2 ^ (iSub + Z.of_nat k) → up n iSub + 2 ^ iSub = n + 1 → holds_at aList (up n iSub) S → run (up n iSub) (n + 1) S →
  n + 1 ≤ zlen aList → n + 1 ≤ zlen aContent → n + 1 ≤ zlen aBuffer →
  (∀ i, iSub ≤ i → Z.testbit n i = true → sublist n i aList aSub) →
  ∃ s aList' (S' : list Z) aBuffer', carry_loop k n iSub aContent aList (up n iSub) (zlen S) aBuffer aSub = Some (s, aList', up n s, zlen S', aBuffer') ∧
    iSub ≤ s ∧ Z.testbit n s = false ∧ up n s + 2 ^ s = n + 1 ∧ zlen aList' = zlen aList ∧ zlen aBuffer' = zlen aBuffer ∧
    holds_at aList' (up n s) S' ∧ run (up n s) (n + 1) S' ∧ (∀ j, j < up n s ∨ n + 1 ≤ j → aList'.[j] = aList.[j]).
Proof.
  intros Hn. induction k as [|k IH]; intros iSub aList S aBuffer Hi Hlt Hup HS RS H1 H2 H3 Hsub; cbn [carry_loop].
  - assert (Hb : Z.testbit n iSub = false) by (rewrite Z.add_0_r in Hlt; destruct (Z.eq_dec n 0) as [->|]; [apply Z.bits_0|apply Z.bits_above_log2; [done|apply Z.log2_lt_pow2; lia]]).
    rewrite Hb. exists iSub, aList, S, aBuffer. by split_and!.
  - destruct (Z.testbit n iSub) eqn:Hb; [|exists iSub, aList, S, aBuffer; by split_and!].
    destruct (merge_sublist n iSub aList aSub aBuffer S (n + 1)) as (L & S1 & aList1 & aBuffer1 & E1 & E2 & El & Eb & HS1 & RS1 & Hj); try done; [by apply Hsub|].
    rewrite E1. cbn [mbind option_bind]. rewrite E2. cbn [mbind option_bind]. pose proof (up_step n iSub Hn Hi) as Es. rewrite Hb in Es.
    destruct (IH (iSub + 1) aList1 S1 aBuffer1) as (s & aList' & S' & aBuffer' & E & Hs & Hb' & Hup' & El' & Eb' & HS' & RS' & Hj'); try done; [lia| | |lia|lia| |].
    + rewrite Nat2Z.inj_succ in Hlt. by replace (iSub + 1 + Z.of_nat k) with (iSub + Z.succ (Z.of_nat k)) by lia.
    + rewrite Z.pow_add_r by lia. lia.
    + intros i Hi2 Hbi. eapply (sublist_ext _ _ aList); [done|apply Hsub; [lia|done]| |].
      * apply (up_mono n (iSub + 1) i); lia.
      * intros j Hlt'. apply Hj. by left.
    + exists s, aList', S', aBuffer'. rewrite E. split_and!; try done; try lia. intros j Hj2. rewrite Hj'; [apply Hj|done].
      destruct Hj2; [left|by right]. pose proof (up_mono n (iSub + 1) s). lia.
Qed.

(** The first [n] elements are in the sublists, the others are where they were; the last merge list is that of the lowest bit. *)
Record sorting (N n : Z) (aList : list Z) (aSub : list (option Sublist)) (st : Z * Z * Z) : Prop := Sorting {
  so_list : zlen aList = N;
  so_sub : zlen aSub = nSub;
  so_sublist i : 0 ≤ i → Z.testbit n i = true → sublist n i aList aSub;
  so_rest j : n ≤ j < N → aList.[j] = Some j;
  so_last : 0 < n → ∃ s (S : list Z), st = (s, up n (s + 1), zlen S) ∧ 0 ≤ s < nSub ∧ holds_at aList (up n (s + 1)) S ∧ run (up n (s + 1)) n S }.

Lemma index_sort_step N n aList aSub st aBuffer :
  0 ≤ n < N → N ≤ 4096 → N ≤ zlen aContent → N ≤ zlen aBuffer → sorting N n aList aSub st →
  ∃ iSub aList' aMerge nMerge aBuffer' aSub', carry_loop (Z.to_nat nSub) n 0 aContent aList n 1 aBuffer aSub = Some (iSub, aList', aMerge, nMerge, aBuffer') ∧
    wr aSub iSub (Some (aMerge, nMerge)) = Some aSub' ∧ zlen aBuffer' = zlen aBuffer ∧ sorting N (n + 1) aList' aSub' (iSub, aMerge, nMerge).
Proof.
  intros Hn HN Hc Hb [S1 S2 S3 S4 _]. assert (Eu : up n 0 = n) by (unfold up; rewrite Z.div_1_r, Z.mul_1_r; done).
  destruct (carry_loop_made n aSub (Z.to_nat nSub) ltac:(lia) 0 aList [n] aBuffer) as (s & aList' & S' & aBuffer' & E & Hs & Hbit & Hup & El & Eb & HS & RS & Hj);
    try done; try lia.
  { rewrite Z2Nat.id by (unfold nSub; lia). unfold nSub. lia. }
  { rewrite Eu. split; [lia|]. intros k Hk. cbn [length] in Hk. assert (k = 0) as -> by lia. rewrite Z.add_0_r. rewrite S4 by lia. done. }
  { rewrite Eu. apply run_single. }
  rewrite Eu in E. change (zlen [n]) with 1 in E. destruct (up_succ n s ltac:(lia) Hs Hup Hbit) as (U1 & U2 & U3 & U4).
  assert (Hs13 : s < nSub).
  { destruct (Z.lt_ge_cases s nSub) as [|Hge]; [done|]. pose proof (up_le n s ltac:(lia) Hs). assert (2 ^ nSub ≤ 2 ^ s) by (apply Z.pow_le_mono_r; lia). unfold nSub in *. lia. }
  exists s, aList', (up n s), (zlen S'), aBuffer', (<[Z.to_nat s := Some (up n s, zlen S')]> aSub). split; [exact E|]. split; [apply wr_in_bounds; lia|]. split; [done|].
  assert (Eu1 : up (n + 1) s = n + 1) by (pose proof (up_step (n + 1) s ltac:(lia) Hs) as E1; rewrite U1, U4 in E1; lia).
  split; [lia|by rewrite length_insert| | |].
  - intros i Hi Hbi. destruct (Z.lt_trichotomy i s) as [Hlt|[->|Hgt]].
    + rewrite U2 in Hbi by lia. done.
    + exists S'. rewrite rd_insert, Z.eqb_refl by lia. rewrite U4, Eu1. split; [done|]. split; [done|done].
    + destruct (U3 i Hgt) as (Eb' & Eu'). destruct (U3 (i + 1) ltac:(lia)) as (_ & Eu''). rewrite Eb' in Hbi.
      assert (HX : sublist n i aList' aSub).
      { eapply (sublist_ext _ _ aList); [lia|by apply S3| |]. - apply (up_mono n s i); lia. - intros j Hlt. apply Hj. by left. }
      destruct HX as (S & X1 & X2 & X3). exists S. rewrite Eu', Eu''. rewrite rd_insert by lia. destruct (Z.eqb_spec s i); [lia|]. done.
  - intros j Hjn. rewrite Hj by (right; lia). apply S4. lia.
  - intros _. exists s, S'. rewrite U4. split_and!; done.
Qed.

Lemma sort_loop_made N (k : nat) : N ≤ 4096 → N ≤ zlen aContent → ∀ n aList aSub st aBuffer,
  0 ≤ n → n + Z.of_nat k = N → N ≤ zlen aBuffer → sorting N n aList aSub st →
  ∃ aList' aBuffer' aSub' st', sort_loop k n aContent aList aBuffer aSub st = Some (aList', aBuffer', aSub', st') ∧ zlen aBuffer' = zlen aBuffer ∧
    sorting N N aList' aSub' st'.
Proof.
  intros HN Hc. induction k as [|k IH]; intros n aList aSub st aBuffer Hn Hk Hb HS; cbn [sort_loop].
  - assert (n = N) as -> by lia. by exists aList, aBuffer, aSub, st.
  - destruct (index_sort_step N n aList aSub st aBuffer) as (s & aList1 & aM & nM & aBuffer1 & aSub1 & E1 & E2 & Eb & HS1); try done; [lia|].
    rewrite E1. cbn [mbind option_bind]. rewrite E2. cbn [mbind option_bind].
    destruct (IH (n + 1) aList1 aSub1 (s, aM, nM) aBuffer1) as (aList' & aBuffer' & aSub' & st' & E & Eb' & HS'); try done; try lia.
    rewrite E. exists aList', aBuffer', aSub', st'. split; [done|]. split; [lia|done].
Qed.

Lemma rest_loop_made N aSub (k : nat) : 0 ≤ N → N ≤ zlen aContent → ∀ iSub aList S aBuffer,
  0 ≤ iSub → N ≤ zlen aList → N ≤ zlen aBuffer → holds_at aList (up N iSub) S → run (up N iSub) N S →
  (∀ i, iSub ≤ i → Z.testbit N i = true → sublist N i aList aSub) →
  ∃ aList' (S' : list Z) aBuffer', rest_loop k N iSub aContent aList aBuffer aSub (up N iSub) (zlen S) = Some (aList', up N (iSub + Z.of_nat k), zlen S', aBuffer') ∧
    zlen aList' = zlen aList ∧ zlen aBuffer' = zlen aBuffer ∧ holds_at aList' (up N (iSub + Z.of_nat k)) S' ∧ run (up N (iSub + Z.of_nat k)) N S'.
Proof.
  intros HN Hc. induction k as [|k IH]; intros iSub aList S aBuffer Hi Hl Hb HS RS Hsub; cbn [rest_loop].
  - rewrite Z.add_0_r. by exists aList, S, aBuffer.
  - rewrite Nat2Z.inj_succ. replace (iSub + Z.succ (Z.of_nat k)) with (iSub + 1 + Z.of_nat k) by lia. pose proof (up_step N iSub HN Hi) as Es.
    destruct (Z.testbit N iSub) eqn:Hbit.
    + destruct (merge_sublist N iSub aList aSub aBuffer S N) as (L & S1 & aList1 & aBuffer1 & E1 & E2 & El & Eb & HS1 & RS1 & Hj); try done; [by apply Hsub|].
      rewrite E1. cbn [mbind option_bind]. rewrite E2. cbn [mbind option_bind].
      destruct (IH (iSub + 1) aList1 S1 aBuffer1) as (aList' & S' & aBuffer' & E & El' & Eb' & HS' & RS'); try done; try lia.
      { intros i Hi2 Hbi. eapply (sublist_ext _ _ aList); [done|apply Hsub; [lia|done]| |].
        - apply (up_mono N (iSub + 1) i); lia.
        - intros j Hlt'. apply Hj. by left. }
      rewrite E. exists aList', S', aBuffer'. split_and!; try done; lia.
    + rewrite Z.add_0_r in Es. rewrite Es in *. apply IH; try done; [lia|]. intros i Hi2 Hbi. apply Hsub; [lia|done].
Qed.

(** The sort gives a run of all the indices. *)
Lemma sort_made aBuffer N :
  0 < N ≤ 4096 → N ≤ zlen aContent → N ≤ zlen aBuffer →
  ∃ aList' S aBuffer', walMergesort aContent aBuffer (map Z.of_nat (seq 0 (Z.to_nat N))) N = Some (aList', zlen S, aBuffer') ∧
    zlen aBuffer' = zlen aBuffer ∧ zlen aList' = N ∧ take (length S) aList' = S ∧ run 0 N S.
Proof.
  intros HN Hc Hb. unfold walMergesort. assert (H0 : sorting N 0 (map Z.of_nat (seq 0 (Z.to_nat N))) (replicate (Z.to_nat nSub) None) (0, 0, 0)).
  { split; [rewrite length_map, length_seq; lia|done| |  |lia].
    - intros i _ Hbi. by rewrite Z.bits_0 in Hbi.
    - intros j Hj. apply rd_lookup. split; [lia|]. apply list_lookup_fmap_Some. exists (Z.to_nat j). split; [lia|]. apply lookup_seq. lia. }
  destruct (sort_loop_made N (Z.to_nat N) ltac:(lia) Hc 0 _ _ _ aBuffer ltac:(lia) ltac:(lia) Hb H0) as (aList1 & aBuffer1 & aSub1 & st1 & E1 & Eb1 & [S1 S2 S3 _ S5]).
  rewrite E1. cbn [mbind option_bind]. destruct (S5 ltac:(lia)) as (s & S & -> & Hs & HS & RS).
  destruct (rest_loop_made N aSub1 (Z.to_nat (nSub - (s + 1))) ltac:(lia) Hc (s + 1) aList1 S aBuffer1) as (aList' & S' & aBuffer' & E2 & El' & Eb' & HS' & RS'); try done; try lia.
  { intros i Hi Hbi. apply S3; [lia|done]. }
  rewrite E2. cbn [mbind option_bind]. replace (s + 1 + Z.of_nat (Z.to_nat (nSub - (s + 1)))) with nSub in * by lia.
  assert (E0 : up N nSub = 0) by (unfold up, nSub; rewrite Z.div_small by lia; done). rewrite E0 in *. exists aList', S', aBuffer'.
  split; [done|]. split; [lia|]. split; [lia|]. split; [|done]. destruct HS' as (_ & HS'). pose proof (run_length _ _ _ RS'). apply list_eq. intros i.
  destruct (decide (i < length S')%nat) as [Hlt|Hge]; [|rewrite !lookup_ge_None_2; [done|lia|rewrite length_take; lia]].
  rewrite lookup_take_lt by done. specialize (HS' (Z.of_nat i) ltac:(lia)). by rewrite Z.add_0_l, !rd_nat in HS'.
Qed.
End sort.

(** ** Segments *)

(** [f] is the last frame of [lo .. hi] with page [pg]. *)
Definition last_at (F : list Z) (lo hi pg f : Z) : Prop :=
  1 ≤ f ∧ lo ≤ f ≤ hi ∧ F.[f - 1] = Some pg ∧ ∀ i, f < i ≤ hi → F.[i - 1] ≠ Some pg.

Lemma last_latest F lo hi pg f : last_at F lo hi pg f ↔ f ≠ 0 ∧ latest F lo hi pg f.
Proof.
  unfold last_at, latest. split.
  - intros (H1 & H2 & H3). split; [lia|]. right. by split.
  - intros (H0 & [(? & _)|H]); [done|exact H].
Qed.

Abbreviation by_page := (StronglySorted (λ a b : Z * Z, fst a < fst b)).

(** The pages and frames [P] of a segment. *)
Record segment_of (w : Wal) (F : list Z) (lo hi : Z) (s : WalSegment) (P : list (Z * Z)) : Prop := SegmentOf {
  sg_next : 0 ≤ iNext s ≤ nEntry s;
  sg_length : zlen P = nEntry s;
  sg_read k : 0 ≤ k < nEntry s → ∃ h x pg, (aIndex s).[k] = Some x ∧ 0 ≤ x ∧ aPgno s = Some (loc_of h) ∧ get_pgno w (loc_of h) x = Some pg ∧ P.[k] = Some (pg, seg_iZero s + x);
  sg_sorted : by_page P;
  sg_mem pg f : (pg, f) ∈ P ↔ last_at F lo hi pg f }.

(** The entries before [n] are passed. *)
Definition passed_to (P : list (Z * Z)) (n iMin : Z) : Prop := ∀ k pg f, k < n → P.[k] = Some (pg, f) → pg ≤ iMin.

Lemma by_page_rd P i j a b : by_page P → P.[i] = Some a → P.[j] = Some b → i < j → fst a < fst b.
Proof.
  intros HP Ha Hb Hij. apply rd_lookup in Ha as (Hi & Ha). apply rd_lookup in Hb as (Hj & Hb).
  assert (Hij' : (Z.to_nat i < Z.to_nat j)%nat) by lia.
  revert HP Ha Hb Hij'. generalize (Z.to_nat i) (Z.to_nat j). clear. intros i j HP. revert i j.
  induction HP as [|x P HP IH HF]; intros [|i] [|j]; cbn; try done; try lia.
  - intros [= ->] Hb _. rewrite Forall_forall in HF. apply HF. by apply list_elem_of_lookup_2 in Hb.
  - intros Ha Hb Hij. eapply (IH i j); [done|done|lia].
Qed.

Lemma skip_loop_made w F lo hi s P iMin (n : nat) : segment_of w F lo hi s P → ∀ k,
  0 ≤ k → Z.of_nat n = nEntry s - k → passed_to P k iMin →
  ∃ r x, skip_loop n w s k iMin = Some (r, x) ∧ k ≤ x ≤ nEntry s ∧ passed_to P x iMin ∧
    match r with Some (pg, e) => P.[x] = Some (pg, seg_iZero s + e) ∧ iMin < pg | None => x = nEntry s end.
Proof.
  intros HS. induction n as [|n IH]; intros k Hk Hn Hp; cbn [skip_loop].
  - exists None, k. split_and!; [done|lia|lia|done|lia].
  - destruct (sg_read _ _ _ _ _ _ HS k ltac:(lia)) as (h & x & pg & -> & _ & El & E & HP). cbn [mbind option_bind]. unfold seg_pgno. rewrite El. cbn [mbind option_bind].
    rewrite E. cbn [mbind option_bind]. fold (seg_pgno w s).
    destruct (Z.ltb_spec iMin pg) as [Hlt|Hge]; [exists (Some (pg, x)), k; split_and!; [done|lia|lia|done|done|done]|].
    destruct (IH (k + 1)) as (r & y & E2 & Hy & Hp2 & Hr); [lia|lia| |].
    { intros j pg' f Hj HP'. destruct (Z.eq_dec j k) as [->|]; [|eapply Hp; [|exact HP']; lia]. rewrite HP in HP'. injection HP' as <- _. lia. }
    exists r, y. split; [done|]. split; [lia|done].
Qed.

(** The best entry above [iMin] of the segments from [n] on, of [len]. *)
Definition best (P : nat → list (Z * Z)) (len n : nat) (iMin iRet iFrame : Z) : Prop :=
  (∀ i pg f, (n ≤ i < len)%nat → (pg, f) ∈ P i → iMin < pg → iRet ≤ pg) ∧
  (iRet = 0xFFFFFFFF ∨ iMin < iRet ∧ ∃ i, (n ≤ i < len)%nat ∧ (iRet, iFrame) ∈ P i ∧ ∀ i' f, (i < i' < len)%nat → (iRet, f) ∉ P i').

Definition segments_ok (w : Wal) (F : list Z) (bounds : nat → Z * Z) (P : nat → list (Z * Z)) (segs : list WalSegment) (iMin : Z) : Prop :=
  ∀ i s, segs !! i = Some s → segment_of w F (fst (bounds i)) (snd (bounds i)) s (P i) ∧ passed_to (P i) (iNext s) iMin.

Lemma best_step P len n iMin iRet iFrame x r (zero : Z) :
  best P len (S n) iMin iRet iFrame → (S n ≤ len)%nat → by_page (P n) → (∀ i pg f, (i < len)%nat → (pg, f) ∈ P i → pg < 0xFFFFFFFF) →
  passed_to (P n) x iMin → match r with Some (pg, e) => (P n).[x] = Some (pg, zero + e) ∧ iMin < pg | None => x = zlen (P n) end →
  let '(iRet', iFrame') := match r with Some (pg, e) => if pg <? iRet then (pg, zero + e) else (iRet, iFrame) | None => (iRet, iFrame) end in
  best P len n iMin iRet' iFrame'.
Proof.
  intros (Hmin & Hbest) Hlen HP Hmax Hpass Hr.
  assert (Hkeep : (∀ pg f, (pg, f) ∈ P n → iMin < pg → iRet ≤ pg) → (iRet = 0xFFFFFFFF → ∀ pg f, (pg, f) ∈ P n → ¬ iMin < pg) → best P len n iMin iRet iFrame).
  { intros Hn _. split.
    - intros i pg f Hi Hin Hlt. destruct (decide (i = n)) as [->|]; [eauto|]. eapply Hmin; [|exact Hin|done]. lia.
    - destruct Hbest as [?|(? & i & Hi & Hin & Hno)]; [by left|]. right. split; [done|]. exists i. split; [lia|]. by split. }
  (* every entry of the segment above iMin is at x or behind *)
  assert (Habove : ∀ pg f, (pg, f) ∈ P n → iMin < pg → ∃ k, x ≤ k ∧ (P n).[k] = Some (pg, f)).
  { intros pg f Hin Hlt. apply list_elem_of_lookup_1 in Hin as (k & Hk). exists (Z.of_nat k). assert (Hk' : (P n).[Z.of_nat k] = Some (pg, f)) by by rewrite rd_nat.
    split; [|done]. destruct (Z.lt_ge_cases (Z.of_nat k) x) as [Hlt'|]; [|done]. specialize (Hpass _ _ _ Hlt' Hk'). lia. }
  destruct r as [[pg e]|].
  - destruct Hr as (Hx & Hlt). assert (Hfirst : ∀ pg' f, (pg', f) ∈ P n → iMin < pg' → pg ≤ pg').
    { intros pg' f Hin Hlt'. destruct (Habove _ _ Hin Hlt') as (k & Hk & Ek). destruct (Z.eq_dec x k) as [<-|Hne]; [rewrite Hx in Ek; injection Ek as <- _; lia|].
      pose proof (by_page_rd _ _ _ _ _ HP Hx Ek ltac:(lia)) as Hlt2. cbn in Hlt2. lia. }
    assert (Hin : (pg, zero + e) ∈ P n) by (apply rd_lookup in Hx as (_ & Hx); by apply list_elem_of_lookup_2 in Hx).
    destruct (Z.ltb_spec pg iRet) as [Hlt2|Hge]; [|apply Hkeep; [intros pg' f Hin' Hlt'; specialize (Hfirst _ _ Hin' Hlt'); lia|]].
    2: { intros E. specialize (Hmax n pg _ ltac:(lia) Hin). lia. }
    split.
    + intros i pg' f Hi Hin' Hlt'. destruct (decide (i = n)) as [->|]; [eauto|]. specialize (Hmin i pg' f ltac:(lia) Hin' Hlt'). lia.
    + right. split; [done|]. exists n. split; [lia|]. split; [done|]. intros i' f Hi' Hin'. specialize (Hmin i' pg f ltac:(lia) Hin' Hlt). lia.
  - apply Hkeep; [intros pg f Hin Hlt|intros _ pg f Hin Hlt]; destruct (Habove _ _ Hin Hlt) as (k & Hk & Ek); apply rd_Some_lt in Ek; lia.
Qed.

Lemma segments_loop_made w F bounds P iMin (n : nat) : ∀ segs iRet iFrame,
  segments_ok w F bounds P segs iMin → (n ≤ length segs)%nat → (∀ i pg f, (i < length segs)%nat → (pg, f) ∈ P i → pg < 0xFFFFFFFF) →
  best P (length segs) n iMin iRet iFrame →
  ∃ iRet' iFrame' segs', segments_loop n w segs iMin iRet iFrame = Some (iRet', iFrame', segs') ∧ length segs' = length segs ∧
    segments_ok w F bounds P segs' iMin ∧ best P (length segs) 0 iMin iRet' iFrame'.
Proof.
  induction n as [|n IH]; intros segs iRet iFrame HS Hn Hmax HB; cbn [segments_loop]; [by exists iRet, iFrame, segs|].
  destruct (lookup_lt_is_Some_2 segs n) as (s & Es); [lia|]. rewrite Es. cbn [mbind option_bind]. destruct (HS n s Es) as (HSg & Hp).
  pose proof (sg_next _ _ _ _ _ _ HSg) as Hnx.
  destruct (skip_loop_made w F _ _ s (P n) iMin (Z.to_nat (nEntry s - iNext s)) HSg (iNext s)) as (r & x & -> & Hx & Hp2 & Hr); [lia|lia|done|]. cbn [mbind option_bind].
  rewrite <- (sg_length _ _ _ _ _ _ HSg) in Hr.
  pose proof (best_step P (length segs) n iMin iRet iFrame x r (seg_iZero s) HB ltac:(lia) (sg_sorted _ _ _ _ _ _ HSg) Hmax Hp2 Hr) as HB2.
  set (segs1 := <[n:=with_iNext x s]> segs). assert (El : length segs1 = length segs) by apply length_insert.
  assert (HC : ∀ iRet' iFrame', best P (length segs) n iMin iRet' iFrame' → ∃ iR iF segs', segments_loop n w segs1 iMin iRet' iFrame' = Some (iR, iF, segs') ∧
    length segs' = length segs ∧ segments_ok w F bounds P segs' iMin ∧ best P (length segs) 0 iMin iR iF).
  2: { destruct r as [[pg e]|]; [destruct (pg <? iRet)|]; by apply HC. }
  intros iRet' iFrame' HB3.
  destruct (IH segs1 iRet' iFrame') as (iR & iF & segs' & E & El' & HS' & HB'); [|lia|by rewrite El|by rewrite El|].
  - intros i s' Hi. unfold segs1 in Hi. destruct (decide (n = i)) as [<-|Hne].
    + rewrite list_lookup_insert_eq in Hi by lia. injection Hi as <-. split; [|exact Hp2]. destruct HSg as [H1 H2 H3 H4 H5]. split; try done. cbn. lia.
    + rewrite list_lookup_insert_ne in Hi by done. by apply HS.
  - exists iR, iF, segs'. rewrite El in *. split; [exact E|]. done.
Qed.

(** ** The segments together *)

Lemma last_exists F lo hi pg k : 1 ≤ k → lo ≤ k ≤ hi → F.[k - 1] = Some pg → ∃ f, last_at F lo hi pg f.
Proof.
  intros H1 Hk HF. remember (Z.to_nat (hi - k)) as n eqn:En. revert hi En Hk. induction n as [|n IH]; intros hi En Hk.
  - exists k. split; [lia|]. split; [lia|]. split; [done|]. intros; lia.
  - destruct (decide (F.[hi - 1] = Some pg)) as [E|E]; [exists hi; split; [lia|]; split; [lia|]; split; [done|]; intros; lia|].
    destruct (IH (hi - 1)) as (f & Hf1 & Hf2 & Hf3 & Hf4); [lia|lia|]. exists f. split; [done|]. split; [lia|]. split; [done|].
    intros i Hi. destruct (Z.eq_dec i hi) as [->|]; [done|apply Hf4; lia].
Qed.

(** The frames of segment [i] of those from segment [s0] to frame [N]. *)
Definition seg_bounds (s0 N : Z) (i : nat) : Z * Z := (before (Z.of_nat i) + 1, if Z.of_nat i <? s0 then before (Z.of_nat i) else Z.min (before (Z.of_nat i + 1)) N).

Lemma walFramePage_mono i j : 1 ≤ i ≤ j → walFramePage i ≤ walFramePage j.
Proof. intros H. unfold walFramePage. wal_consts. apply Z.div_le_mono; lia. Qed.

Lemma before_le h h' : 0 ≤ h ≤ h' → before h ≤ before h'.
Proof. intros H. destruct (Z.eq_dec h h') as [->|]; [lia|]. pose proof (before_mono h h'). destruct (before_next h); lia. Qed.

Lemma segments_cover F s0 N pg f :
  0 ≤ s0 → 1 ≤ N → last_at F (before s0 + 1) N pg f ↔
  ∃ i, Z.of_nat i ≤ walFramePage N ∧ last_at F (fst (seg_bounds s0 N i)) (snd (seg_bounds s0 N i)) pg f ∧
    ∀ i' f', (i < i')%nat → Z.of_nat i' ≤ walFramePage N → ¬ last_at F (fst (seg_bounds s0 N i')) (snd (seg_bounds s0 N i')) pg f'.
Proof.
  intros Hs0 HN. destruct (walFramePage_spec N HN) as (HP0 & HP1). cbn [fst snd seg_bounds]. split.
  - intros (H1 & H2 & H3 & H4). destruct (walFramePage_spec f H1) as (Hi & Hb1 & Hb2). set (h := walFramePage f) in *. destruct (before_next h Hi) as (En & _).
    assert (Hle : h ≤ walFramePage N) by (apply walFramePage_mono; lia).
    assert (Hs : s0 ≤ h) by (destruct (Z.le_gt_cases s0 h); [done|]; pose proof (before_mono h s0); lia).
    exists (Z.to_nat h). rewrite Z2Nat.id by done. split; [done|]. destruct (Z.ltb_spec h s0); [lia|]. split.
    + split; [done|]. split; [lia|]. split; [done|]. intros i Hi2. apply H4. lia.
    + intros i' f' Hi' Hi'2 (G1 & G2 & G3 & _). destruct (Z.ltb_spec (Z.of_nat i') s0); [lia|]. pose proof (before_mono h (Z.of_nat i')).
      apply (H4 f'); [lia|done].
  - intros (i & Hi & (H1 & H2 & H3 & H4) & Hno). destruct (Z.ltb_spec (Z.of_nat i) s0) as [|Hs]; [lia|]. pose proof (before_le s0 (Z.of_nat i)).
    split; [done|]. split; [lia|]. split; [done|]. intros k Hk HF. destruct (Z.le_gt_cases k (before (Z.of_nat i + 1))) as [Hle|Hgt]; [apply (H4 k); [lia|done]|].
    destruct (walFramePage_spec k ltac:(lia)) as (Hh & Hb1 & Hb2). destruct (before_next _ Hh) as (En & _).
    assert (Hlt : Z.of_nat i < walFramePage k).
    { destruct (Z.lt_ge_cases (Z.of_nat i) (walFramePage k)); [done|]. pose proof (before_le (walFramePage k + 1) (Z.of_nat i + 1)). lia. }
    assert (Hle : walFramePage k ≤ walFramePage N) by (apply walFramePage_mono; lia).
    destruct (last_exists F (before (walFramePage k) + 1) (Z.min (before (walFramePage k + 1)) N) pg k) as (f' & Hf'); [lia|lia|done|].
    apply (Hno (Z.to_nat (walFramePage k)) f'); [lia|lia|]. rewrite Z2Nat.id by done. destruct (Z.ltb_spec (walFramePage k) s0); [lia|done].
Qed.

(** ** walIteratorNext *)

(** The iterator is about to give the pages above [iPrior]. *)
Definition iterates (w : Wal) (F : list Z) (s0 N : Z) (p : WalIterator) : Prop :=
  zlen (aSegment p) = walFramePage N + 1 ∧ ∃ P, segments_ok w F (seg_bounds s0 N) P (aSegment p) (iPrior p).

Lemma passed_mono P n a b : passed_to P n a → a ≤ b → passed_to P n b.
Proof. intros H Hab k pg f Hk E. specialize (H _ _ _ Hk E). lia. Qed.

Lemma next_made w F s0 N p fr0 :
  iterates w F s0 N p → 0 ≤ s0 → 1 ≤ N → Forall (λ pg, pg < 0xFFFFFFFF) F →
  ∃ r pg f p', walIteratorNext w p fr0 = Some (r, pg, f, p') ∧ iterates w F s0 N p' ∧ iPrior p' = pg ∧
    if r : bool then ∀ pg' f', last_at F (before s0 + 1) N pg' f' → pg' ≤ iPrior p
    else iPrior p < pg ∧ last_at F (before s0 + 1) N pg f ∧ ∀ pg' f', last_at F (before s0 + 1) N pg' f' → iPrior p < pg' → pg ≤ pg'.
Proof.
  intros (Hlen & P & HS) Hs0 HN Hmax. unfold walIteratorNext. assert (HP0 : 0 ≤ walFramePage N) by apply (walFramePage_spec N HN).
  assert (Hin : ∀ i pg f, (i < length (aSegment p))%nat → (pg, f) ∈ P i ↔ last_at F (fst (seg_bounds s0 N i)) (snd (seg_bounds s0 N i)) pg f).
  { intros i pg f Hi. destruct (lookup_lt_is_Some_2 _ _ Hi) as (s & Es). destruct (HS i s Es) as (HSg & _). apply (sg_mem _ _ _ _ _ _ HSg). }
  assert (Hmx : ∀ i pg f, (i < length (aSegment p))%nat → (pg, f) ∈ P i → pg < 0xFFFFFFFF).
  { intros i pg f Hi Hm. apply Hin in Hm as (_ & _ & HF & _); [|done]. apply rd_lookup in HF as (_ & HF). exact (proj1 (Forall_lookup _ _) Hmax _ _ HF). }
  destruct (segments_loop_made w F (seg_bounds s0 N) P (iPrior p) (length (aSegment p)) (aSegment p) 0xFFFFFFFF fr0 HS ltac:(lia) Hmx) as
    (iRet & iFrame & segs' & -> & El & HS' & HB1 & HB2).
  { split; [intros i ? ? Hi; lia|by left]. }
  cbn [mbind option_bind]. exists (iRet =? 0xFFFFFFFF), iRet, iFrame, (mkIterator iRet segs'). split; [done|].
  assert (Hle : ∀ pg' f', last_at F (before s0 + 1) N pg' f' → iPrior p < pg' → iRet ≤ pg').
  { intros pg' f' HL Hlt. apply segments_cover in HL as (i & Hi & HL & _); [|done|done]. eapply (HB1 i pg' f'); [lia| |done]. apply Hin; [lia|done]. }
  assert (Hlow : iRet = 0xFFFFFFFF ∨ iPrior p < iRet) by (destruct HB2 as [?|(? & _)]; [by left|by right]).
  split; [|split; [done|]].
  - split; [cbn; lia|]. exists P. intros i s Hs. destruct (HS' i s Hs) as (HSg & Hp). split; [done|]. cbn [iPrior].
    destruct Hlow as [->|]; [|eapply passed_mono; [exact Hp|lia]]. intros k pg f Hk E. assert (Hi : (i < length (aSegment p))%nat) by (rewrite <- El; by eapply lookup_lt_Some).
    apply rd_lookup in E as (_ & E). apply list_elem_of_lookup_2 in E. specialize (Hmx i pg f Hi E). lia.
  - destruct (Z.eqb_spec iRet 0xFFFFFFFF) as [->|Hne].
    + intros pg' f' HL. destruct (Z.le_gt_cases pg' (iPrior p)) as [|Hgt]; [done|]. exfalso. specialize (Hle _ _ HL ltac:(lia)).
      pose proof HL as (_ & _ & HF & _). apply rd_lookup in HF as (_ & HF). pose proof (proj1 (Forall_lookup _ _) Hmax _ _ HF) as Hx. cbn in Hx. lia.
    + destruct HB2 as [?|(Hlt & i & Hi & Hm & Hno)]; [done|]. split; [done|]. split; [|done]. apply segments_cover; [done|done|].
      exists i. split; [lia|]. split; [apply Hin; [lia|done]|]. intros i' f' Hii Hi' HL. apply (Hno i' f'); [lia|]. apply Hin; [lia|done].
Qed.

(** ** All the pages *)

(** What the calls of [walIteratorNext] give until there is no page any more. *)
Fixpoint walk (n : nat) (w : Wal) (p : WalIterator) : option (list (Z * Z)) :=
  match n with
  | O => None
  | S n => '(r, pg, f, p) ← walIteratorNext w p 0; if r : bool then Some [] else l ← walk n w p; Some ((pg, f) :: l)
  end.

Definition above (iMin : Z) (l : list Z) : nat := length (filter (λ pg, iMin < pg) l).

Lemma above_mono l a b : a ≤ b → (above b l ≤ above a l)%nat.
Proof.
  intros Hab. unfold above. induction l as [|x l IH]; [done|]. rewrite !filter_cons.
  destruct (decide (b < x)), (decide (a < x)); cbn [length]; lia.
Qed.

Lemma above_less l a b x : a < x → x ≤ b → x ∈ l → (above b l < above a l)%nat.
Proof.
  intros Ha Hb Hx. induction l as [|y l IH]; [by apply elem_of_nil in Hx|]. unfold above in *. rewrite !filter_cons.
  pose proof (above_mono l a b ltac:(lia)) as Hm. unfold above in Hm. apply elem_of_cons in Hx as [<-|Hx].
  - destruct (decide (b < x)); [lia|]. destruct (decide (a < x)); [cbn [length]; lia|lia].
  - specialize (IH Hx). destruct (decide (b < y)), (decide (a < y)); cbn [length]; lia.
Qed.

Lemma walk_made w F s0 N (n : nat) : 0 ≤ s0 → 1 ≤ N → Forall (λ pg, pg < 0xFFFFFFFF) F → ∀ p,
  iterates w F s0 N p → (above (iPrior p) F < n)%nat →
  ∃ l, walk n w p = Some l ∧ by_page l ∧ ∀ pg f, (pg, f) ∈ l ↔ iPrior p < pg ∧ last_at F (before s0 + 1) N pg f.
Proof.
  intros Hs0 HN Hmax. induction n as [|n IH]; intros p HI Hn; [lia|]. cbn [walk].
  destruct (next_made w F s0 N p 0 HI Hs0 HN Hmax) as (r & pg & f & p' & -> & HI' & Ep & Hr). cbn [mbind option_bind]. destruct r.
  - exists []. split; [done|]. split; [constructor|]. intros pg' f'. split; [by intros ?%elem_of_nil|]. intros (Hlt & HL). specialize (Hr _ _ HL). lia.
  - destruct Hr as (Hlt & HL & Hmin). assert (Hx : pg ∈ F) by (destruct HL as (_ & _ & HF & _); apply rd_lookup in HF as (_ & HF); by apply list_elem_of_lookup_2 in HF).
    pose proof (above_less F (iPrior p) (iPrior p') pg Hlt ltac:(lia) Hx) as Hless.
    destruct (IH p' HI' ltac:(lia)) as (l & -> & Hl & Hm). cbn [mbind option_bind]. exists ((pg, f) :: l). split; [done|]. rewrite Ep in Hm. split.
    + constructor; [done|]. apply Forall_forall. intros [pg' f'] Hin. apply Hm in Hin as (? & _). done.
    + intros pg' f'. rewrite elem_of_cons, Hm. split.
      * intros [E|(Hlt' & HL')]; [injection E as -> ->; done|]. split; [lia|done].
      * intros (Hlt' & HL'). specialize (Hmin _ _ HL' Hlt'). destruct (Z.eq_dec pg' pg) as [->|]; [left|right; split; [lia|done]].
        destruct HL as (A1 & A2 & A3 & A4). destruct HL' as (B1 & B2 & B3 & B4). f_equal. destruct (Z.lt_trichotomy f f') as [?|[?|?]]; [|done|].
        -- exfalso. apply (A4 f'); [lia|done].
        -- exfalso. apply (B4 f); [lia|done].
Qed.

(** ** walIteratorInit *)

Section init.
Context (xShmMap : Z → bool → Z * option wipage) (w : Wal) (F : list Z) (N : Z).
Context (HR : represents w F) (HN : 1 ≤ N ≤ zlen F) (shm_sized : shm_pages xShmMap).

(** The number of entries of segment [h]. *)
Definition entries (h : Z) : Z := if h + 1 =? walFramePage N + 1 then N - before h else HASHTABLE_NPAGE - offset h.

Lemma entries_spec h : 0 ≤ h ≤ walFramePage N → 1 ≤ entries h ≤ room h ∧ before h + entries h = Z.min (before (h + 1)) N ∧ before h < zlen F ∧ before h + entries h ≤ zlen F ∧
  entries h ≤ N.
Proof.
  intros Hh. destruct (walFramePage_spec N ltac:(lia)) as (_ & HP1 & HP2). destruct (before_next h ltac:(lia)) as (En & H0 & Hrm & Ho). unfold entries. wal_consts.
  destruct (Z.eqb_spec (h + 1) (walFramePage N + 1)) as [E|E].
  - replace (walFramePage N) with h in * by lia. lia.
  - pose proof (before_le (h + 1) (walFramePage N)). assert (4096 - offset h = room h) by lia. lia.
Qed.

(** The pages and frames of a sorted run. *)
Definition run_pages (h : Z) (T : list Z) : list (Z * Z) := map (λ x, (default 0 F.[before h + x], before h + 1 + x)) T.

Lemma segment_made h p T l :
  0 ≤ h ≤ walFramePage N → index_page w h = Some p → page_ok h p (chunk h F) →
  run (drop (Z.to_nat (offset h)) (words p)) 0 (entries h) T → take (length T) l = T →
  segment_of w F (before h + 1) (before h + entries h) (mkSegment 0 l (Some (loc_of h)) (zlen T) (before h + 1)) (run_pages h T).
Proof.
  intros Hh Hp Hok HT Hl. destruct (entries_spec h Hh) as (He & _ & Hbz & Hbe & _). destruct (before_next h ltac:(lia)) as (En & H0 & Hrm & Ho).
  assert (Hoff : 0 ≤ offset h) by (unfold offset; destruct (h =? 0); lia). pose proof (chunk_length h F ltac:(lia)) as Hcl.
  assert (Hkey : ∀ x, 0 ≤ x < entries h → ∃ pg, F.[before h + x] = Some pg ∧ key (drop (Z.to_nat (offset h)) (words p)) x = pg ∧ get_pgno w (loc_of h) x = Some pg).
  { intros x Hx. destruct (rd_in_bounds F (before h + x)) as (pg & Epg); [lia|]. exists pg. split; [done|].
    assert (Ew : (words p).[offset h + x] = Some pg) by (rewrite (page_word h p _ x Hok) by lia; rewrite chunk_rd by lia; done).
    split; [unfold key; rewrite rd_drop, Z2Nat.id by lia; by rewrite Ew|]. unfold get_pgno. cbn [hl_page hl_off loc_of]. rewrite Hp. cbn [mbind option_bind]. done. }
  pose proof HT as [T1 T2 T3 T4]. split; cbn [iNext nEntry aIndex seg_iZero].
  - lia.
  - unfold run_pages. by rewrite length_map.
  - intros k Hk. destruct (rd_in_bounds T k Hk) as (x & Ex). pose proof Ex as Ex'. apply rd_lookup in Ex' as (_ & Ex'). pose proof (list_elem_of_lookup_2 _ _ _ Ex') as Hin.
    destruct (Hkey x (T2 x Hin)) as (pg & EF & _ & Eg). specialize (T2 x Hin). exists h, x, pg. split; [|split; [lia|split; [done|split; [exact Eg|]]]].
    + rewrite <- Hl in Ex'. apply lookup_take_Some in Ex' as (Ex' & _). apply rd_lookup. split; [lia|done].
    + unfold run_pages. apply rd_lookup. split; [lia|]. apply list_lookup_fmap_Some. exists x. split; [by rewrite EF|done].
  - unfold run_pages. clear Hl. assert (HTin : ∀ x, x ∈ T → 0 ≤ x < entries h) by exact T2. clear T2 T3 T4 HT. induction T1 as [|x T T1 IH HF]; [constructor|]. cbn [map]. constructor; [apply IH; intros y Hy; apply HTin; by constructor|].
    apply Forall_forall. intros [pg f] Hin. apply list_elem_of_fmap in Hin as (y & [= -> ->] & Hy). cbn [fst]. rewrite Forall_forall in HF. specialize (HF y Hy).
    destruct (Hkey x (HTin x ltac:(constructor))) as (pgx & -> & Ekx & _). destruct (Hkey y (HTin y ltac:(by constructor))) as (pgy & -> & Eky & _). cbn. lia.
  - intros pg f. unfold run_pages. rewrite list_elem_of_fmap. split.
    + intros (x & [= -> ->] & Hx). specialize (T2 x Hx) as Hxr. destruct (Hkey x Hxr) as (pgx & EF & Ek & _). rewrite EF. cbn [default from_option id].
      split; [lia|]. split; [lia|]. split; [rewrite <- EF; f_equal; lia|]. intros i Hi EFi.
      destruct (T3 (i - 1 - before h)) as (y & Hy & Hle & Eky); [lia|]. destruct (Hkey (i - 1 - before h)) as (pgi & EFi' & Eki & _); [lia|].
      replace (before h + (i - 1 - before h)) with (i - 1) in EFi' by lia. rewrite EFi in EFi'. injection EFi' as <-.
      assert (x = y) as ->; [|lia]. apply (sorted_inj _ T T1 x y Hx Hy). lia.
    + intros (H1 & H2 & H3 & H4). destruct (T3 (f - 1 - before h)) as (y & Hy & Hle & Eky); [lia|]. destruct (Hkey (f - 1 - before h)) as (pgi & EFi & Eki & _); [lia|].
      replace (before h + (f - 1 - before h)) with (f - 1) in EFi by lia. rewrite H3 in EFi. injection EFi as <-. specialize (T2 y Hy) as Hyr.
      destruct (Hkey y Hyr) as (pgy & EFy & Eky2 & _). exists y. split; [|done]. assert (pgy = pg) as -> by lia. rewrite EFy. cbn [default from_option id].
      destruct (Z.eq_dec y (f - 1 - before h)) as [->|Hne]; [f_equal; lia|]. exfalso. apply (H4 (before h + 1 + y)); [lia|]. rewrite <- EFy. f_equal. lia.
Qed.

Lemma init_loop_made s0 (n : nat) : 0 ≤ s0 → ∀ h segs aTmp P m,
  s0 ≤ h → h + Z.of_nat n = walFramePage N + 1 → zlen segs = walFramePage N + 1 → Z.min N 4096 ≤ zlen aTmp →
  (∀ i s, Z.of_nat i < h → segs !! i = Some s → segment_of w F (fst (seg_bounds s0 N i)) (snd (seg_bounds s0 N i)) s (P i) ∧ iNext s = 0) →
  ∃ segs' P', init_loop xShmMap n h (walFramePage N + 1) N aTmp segs w m = Some (SQLITE_OK, segs', w, m) ∧ zlen segs' = walFramePage N + 1 ∧
    ∀ i s, segs' !! i = Some s → segment_of w F (fst (seg_bounds s0 N i)) (snd (seg_bounds s0 N i)) s (P' i) ∧ iNext s = 0.
Proof.
  intros Hs0. induction n as [|n IH]; intros h segs aTmp P m Hh Hn Hl Ht HP; cbn [init_loop].
  - exists segs, P. split; [done|]. split; [done|]. intros i s Hs. apply HP; [|done]. apply lookup_lt_Some in Hs. lia.
  - assert (Hr : 0 ≤ h ≤ walFramePage N) by lia. destruct (entries_spec h Hr) as (He & Eb & Hbz & Hbe & HeN). destruct (rep_page _ _ HR h ltac:(lia) Hbz) as (p & Hp & Hok).
    rewrite (walHashGet_mapped xShmMap shm_sized h w m p ltac:(lia) Hp). change (negb (SQLITE_OK =? SQLITE_OK)) with false. cbn [mbind option_bind iZero hl_off hl_page loc_of].
    change (if h + 1 =? walFramePage N + 1 then N - before h else HASHTABLE_NPAGE - offset h) with (entries h). rewrite Hp. cbn [mbind option_bind].
    destruct (rep_sized _ _ HR h p Hp) as (Hw & _). destruct (before_next h ltac:(lia)) as (_ & _ & Hrm & Ho).
    assert (Hoff : 0 ≤ offset h) by (unfold offset; destruct (h =? 0); lia). wal_consts.
    destruct (sort_made (drop (Z.to_nat (offset h)) (words p)) aTmp (entries h)) as (l & T & aTmp' & E & Et & El & ET & HT); [lia|rewrite length_drop; lia|lia|].
    rewrite E. cbn [mbind option_bind]. pose proof (segment_made h p T l Hr Hp Hok HT ET) as HSg. rewrite wr_in_bounds by lia. cbn [mbind option_bind].
    set (s := mkSegment 0 l (Some (loc_of h)) (zlen T) (before h + 1)) in *.
    destruct (IH (h + 1) (<[Z.to_nat h := s]> segs) aTmp' (λ i, if decide (i = Z.to_nat h) then run_pages h T else P i) m) as (segs' & P' & E' & El' & HP');
      [lia|lia|rewrite length_insert; lia|lia| |exists segs', P'; split; [exact E'|done]].
    intros i s' Hi Hs. destruct (decide (i = Z.to_nat h)) as [->|Hne].
    + rewrite list_lookup_insert_eq in Hs by lia. injection Hs as <-. split; [|done]. unfold seg_bounds. cbn [fst snd]. rewrite Z2Nat.id by lia.
      destruct (Z.ltb_spec h s0); [lia|]. rewrite <- Eb. exact HSg.
    + rewrite list_lookup_insert_ne in Hs by lia. apply HP; [lia|done].
Qed.

Lemma iterator_init_made aTmp nBackfill m :
  mxFrame (hdr w) = N → 0 ≤ nBackfill < N → Z.min N 4096 ≤ zlen aTmp →
  let '(ok, m1) := sqlite3Malloc m in
  if ok then ∃ p, walIteratorInit xShmMap aTmp nBackfill w m = Some (SQLITE_OK, Some p, w, m1) ∧ iPrior p = 0 ∧ iterates w F (walFramePage (nBackfill + 1)) N p
  else walIteratorInit xShmMap aTmp nBackfill w m = Some (SQLITE_NOMEM, None, w, m1).
Proof.
  intros EN Hb Ht. unfold walIteratorInit. rewrite EN. destruct (sqlite3Malloc m) as [[] m1]; [|done]. cbn [negb].
  destruct (walFramePage_spec (nBackfill + 1) ltac:(lia)) as (Hs0 & _). pose proof (walFramePage_mono (nBackfill + 1) N ltac:(lia)) as Hle.
  destruct (walFramePage_spec N ltac:(lia)) as (HP0 & _). set (s0 := walFramePage (nBackfill + 1)) in *.
  destruct (init_loop_made s0 (Z.to_nat (walFramePage N + 1 - s0)) Hs0 s0 (replicate (Z.to_nat (walFramePage N + 1)) empty_segment) aTmp (λ _, []) m1)
    as (segs & P & -> & El & HP); [lia|lia|rewrite length_replicate; lia|done| |].
  - intros i s Hi Hs. apply lookup_replicate in Hs as (-> & _). split; [|done]. split; cbn [empty_segment iNext nEntry]; [lia|done|lia|constructor|].
    intros pg f. split; [by intros ?%elem_of_nil|]. intros (_ & Hf & _). unfold seg_bounds in Hf. cbn [fst snd] in Hf. destruct (Z.ltb_spec (Z.of_nat i) s0); lia.
  - cbn [mbind option_bind]. change (negb (SQLITE_OK =? SQLITE_OK)) with false. cbv iota. eexists. split; [done|]. split; [done|]. split; [done|].
    exists P. intros i s Hs. destruct (HP i s Hs) as (HSg & E0). split; [exact HSg|]. intros k pg f Hk E. rewrite E0 in Hk. apply rd_Some_lt in E. lia.
Qed.
End init.

(** ** The properties *)

(** [walMergesort] sorts the indices of the frames of a page of the wal-index by page number and keeps of those with the same page
    number the largest, in the list it got and with no access outside the list or the buffer. *)
Theorem walMergesort_sorts aContent aBuffer N :
  0 < N ≤ 4096 → N ≤ zlen aContent → N ≤ zlen aBuffer →
  ∃ aList' nList' aBuffer', walMergesort aContent aBuffer (map Z.of_nat (seq 0 (Z.to_nat N))) N = Some (aList', nList', aBuffer') ∧ zlen aList' = N ∧
    let S := take (Z.to_nat nList') aList' in
    zlen S = nList' ∧ StronglySorted (λ x y, key aContent x < key aContent y) S ∧
    ∀ x, x ∈ S ↔ 0 ≤ x < N ∧ ∀ j, x < j < N → key aContent j ≠ key aContent x.
Proof.
  intros HN Hc Hb. destruct (sort_made aContent aBuffer N HN Hc Hb) as (l & S & b & E & _ & El & ES & [S1 S2 S3 S4]). exists l, (zlen S), b.
  split; [done|]. split; [done|]. rewrite Nat2Z.id, ES. split; [done|]. split; [done|]. intros x. split.
  - intros Hx. specialize (S2 x Hx) as Hr. split; [done|]. intros j Hj Ek. destruct (S3 j ltac:(lia)) as (y & Hy & Hle & Eky).
    assert (x = y) as ->; [|lia]. apply (sorted_inj aContent S S1 x y Hx Hy). congruence.
  - intros (Hr & Hno). destruct (S3 x Hr) as (y & Hy & Hle & Ek). destruct (Z.eq_dec x y) as [->|Hne]; [done|]. exfalso. specialize (S2 y Hy). by apply (Hno y); [lia|].
Qed.

(** C17: The iterator over the log, which a checkpoint walks: when there is memory for it, the calls of [walIteratorNext] after
    [walIteratorInit] give every page that has a frame up to [mxFrame], in ascending order, each once and with the last of its
    frames, and come to an end; frames on pages of the index before the one of frame [nBackfill + 1] are left out. *)
Theorem walIterator_pages xShmMap w F aTmp nBackfill m :
  shm_pages xShmMap → represents w F → mxFrame (hdr w) ≤ zlen F → Forall (λ pg, pg < 0xFFFFFFFF) F → 0 ≤ nBackfill < mxFrame (hdr w) → Z.min (mxFrame (hdr w)) 4096 ≤ zlen aTmp →
  let '(ok, m1) := sqlite3Malloc m in
  if ok then ∃ p l, walIteratorInit xShmMap aTmp nBackfill w m = Some (SQLITE_OK, Some p, w, m1) ∧ walk (S (length F)) w p = Some l ∧
    StronglySorted (λ a b, fst a < fst b) l ∧
    ∀ pg f, (pg, f) ∈ l ↔ f ≠ 0 ∧ latest F (before (walFramePage (nBackfill + 1)) + 1) (mxFrame (hdr w)) pg f
  else walIteratorInit xShmMap aTmp nBackfill w m = Some (SQLITE_NOMEM, None, w, m1).
Proof.
  intros Hsh HR HN Hmax Hb Ht. pose proof (iterator_init_made xShmMap w F (mxFrame (hdr w)) HR ltac:(lia) Hsh aTmp nBackfill m eq_refl Hb Ht) as HI.
  destruct (sqlite3Malloc m) as [[] m1]; [|exact HI]. destruct HI as (p & E & E0 & HI). destruct (walFramePage_spec (nBackfill + 1) ltac:(lia)) as (Hs0 & _).
  destruct (walk_made w F (walFramePage (nBackfill + 1)) (mxFrame (hdr w)) (S (length F)) Hs0 ltac:(lia) Hmax p HI) as (l & El & Hl & Hm).
  { unfold above. apply Nat.lt_succ_r, length_filter. }
  exists p, l. split; [done|]. split; [done|]. split; [done|]. intros pg f. rewrite <- last_latest, Hm, E0. split; [tauto|]. intros HL. split; [|done].
  destruct HL as (_ & _ & HF & _). apply rd_lookup in HF as (_ & HF). pose proof (proj1 (Forall_lookup _ _) (rep_pgno _ _ HR) _ _ HF) as Hp. apply Hp.
Qed.

Lemma walMergesort_sorts_witness :
  ∃ l n b, walMergesort [5; 3; 5] [0; 0; 0] (map Z.of_nat (seq 0 (Z.to_nat 3))) 3 = Some (l, n, b) ∧ zlen l = 3 ∧ (1 ∈ take (Z.to_nat n) l) ∧ ¬ 0 ∈ take (Z.to_nat n) l.
Proof.
  destruct (walMergesort_sorts [5; 3; 5] [0; 0; 0] 3) as (l & n & b & E & El & _ & _ & H); [lia|cbn; lia|cbn; lia|]. exists l, n, b. split; [exact E|]. split; [exact El|]. split.
  - apply H. split; [lia|]. intros j Hj. assert (j = 2) as -> by lia. vm_compute. discriminate.
  - intros H0. apply H in H0 as (_ & H0). apply (H0 2); [lia|]. vm_compute. reflexivity.
Defined.

Lemma walIterator_pages_witness :
  ∃ w p l, represents w [7] ∧ walIteratorInit no_shm [0] 0 w (Mem [] 0) = Some (SQLITE_OK, Some p, w, Mem [] 1) ∧ walk 2 w p = Some l ∧ (7, 1) ∈ l.
Proof.
  destruct one_frame as (w & HR & Emx & _). exists w.
  destruct (walIterator_pages no_shm w [7] [0] 0 (Mem [] 0) no_shm_pages HR) as (p & l & E & El & _ & Hm); [rewrite Emx; cbn; lia|repeat constructor; lia|lia|rewrite Emx; cbn; lia|].
  exists p, l. split; [done|]. split; [exact E|]. split; [exact El|]. apply Hm. split; [done|]. right. rewrite Emx. split; [lia|]. split; [vm_compute; split; discriminate|]. split; [done|lia].
Defined.
