(* ===== verification/WalWrite.v ===== *)
(** Writing to the write-ahead log, src/wal.c: frames, overwritten frames and their checksums, commits, padding and syncing, the start
    of the log anew, and the read mark of the writer.  Proofs are in WalWriteProofs.v. *)
From S2P Require Import Prelude Varint Wal WalFrame.

Definition SQLITE_PROTOCOL : Z := 15.
Definition SQLITE_BUSY_SNAPSHOT : Z := Z.lor SQLITE_BUSY (Z.shiftl 2 8).
Definition SQLITE_READONLY_CANTINIT : Z := Z.lor SQLITE_READONLY (Z.shiftl 5 8).
Definition MAX_SECTOR_SIZE : Z := 0x10000.
Definition WAL_RETRY : Z := -1.
Definition WAL_RETRY_PROTOCOL_LIMIT : Z := 100.
Definition WAL_WRITE_LOCK : Z := 0.
Definition WAL_SYNC_FLAGS (x : Z) : Z := Z.land x 0x03.
Definition CKPT_SYNC_FLAGS (x : Z) : Z := Z.land (Z.shiftr x 2) 0x03.

(** The methods of a file and of the locks on the shared memory, which the VFS supplies: a result code and the state after it. *)
Class FileOps (file : Type) := {
  OsRead : file → Z → Z → Z * list Z;
  OsWrite : file → list Z → Z → Z * file;
  OsSync : file → Z → Z * file;
  OsTruncate : file → Z → Z * file;
  OsFileSize : file → Z * Z;
  OsSectorSize : file → Z;
  OsFileControl : file → Z → Z → file }.
Class ShmLocks (locks : Type) := {
  ShmLock : locks → Z → Z → bool → Z * locks;
  ShmUnlock : locks → Z → Z → bool → locks }.

(** A page that is to be written; [walAppend] is [PGHDR_WAL_APPEND]. *)
Record PgHdr := mkPgHdr { pgno : Z; pData : list Z; walAppend : bool }.
Definition with_append b p := mkPgHdr (pgno p) (pData p) b.

Definition with_readLock x w := mkWal (apWiData w) (szPage w) x (exclusiveMode w) (writeLock w) (ckptLock w) (readOnly w)
  (bShmUnreliable w) (hdr w) (minFrame w) (iReCksum w) (nCkpt w).
Definition with_minFrame x w := mkWal (apWiData w) (szPage w) (readLock w) (exclusiveMode w) (writeLock w) (ckptLock w) (readOnly w)
  (bShmUnreliable w) (hdr w) x (iReCksum w) (nCkpt w).
Definition with_writeLock x w := mkWal (apWiData w) (szPage w) (readLock w) (exclusiveMode w) x (ckptLock w) (readOnly w)
  (bShmUnreliable w) (hdr w) (minFrame w) (iReCksum w) (nCkpt w).
Definition with_salt x h := mkHdr (iVersion h) (unused h) (iChange h) (isInit h) (bigEndCksum h) (hdr_szPage h) (mxFrame h) (nPage h)
  (aFrameCksum h) x (aCksum h).
Definition with_end sz mx chg np h := mkHdr (iVersion h) (unused h) chg (isInit h) (bigEndCksum h) sz mx np (aFrameCksum h) (aSalt h) (aCksum h).

Section write.
Context {file locks : Type} `{!FileOps file, !ShmLocks locks}.
Context (xShmMap : Z → bool → Z * option wipage).

(** The connection: the [Wal], its file, its locks, and the members of [Wal] that only the writer uses. *)
Record Conn := mkConn { wal : Wal; pWalFd : file; shm : locks; truncateOnCommit : bool; iCallback : Z }.
Definition with_wal w c := mkConn w (pWalFd c) (shm c) (truncateOnCommit c) (iCallback c).
Definition with_fd f c := mkConn (wal c) f (shm c) (truncateOnCommit c) (iCallback c).
Definition with_shm l c := mkConn (wal c) (pWalFd c) l (truncateOnCommit c) (iCallback c).
Definition with_truncate b c := mkConn (wal c) (pWalFd c) (shm c) b (iCallback c).

Definition lock (lockIdx n : Z) (excl : bool) (c : Conn) : Z * Conn :=
  if negb (exclusiveMode (wal c) =? 0) then (SQLITE_OK, c) else let '(rc, l) := ShmLock (shm c) lockIdx n excl in (rc, with_shm l c).
Definition unlock (lockIdx n : Z) (excl : bool) (c : Conn) : Conn :=
  if negb (exclusiveMode (wal c) =? 0) then c else with_shm (ShmUnlock (shm c) lockIdx n excl) c.
Definition walLockShared (lockIdx : Z) := lock lockIdx 1 false.
Definition walUnlockShared (lockIdx : Z) := unlock lockIdx 1 false.
Definition walLockExclusive (lockIdx n : Z) := lock lockIdx n true.
Definition walUnlockExclusive (lockIdx n : Z) := unlock lockIdx n true.

Definition get_info (k : Z) (w : Wal) : option Z := p ← index_page w 0; (words p).[k].

(** Whether the header of the connection is the one in the shared memory. *)
Definition same_hdr (w : Wal) : option bool := l ← hdr_words (hdr w); live ← get_words 0 w; Some (bool_decide (l = live)).

(** ** The log from the start again *)

Fixpoint unused_marks (n : nat) (i : Z) (w : Wal) : option Wal :=
  match n with
  | O => Some w
  | S n => w ← set_info (info_aReadMark i) READMARK_NOT_USED w; unused_marks n (i + 1) w
  end.

Definition with_restart nck (salt : list Z) w := mkWal (apWiData w) (szPage w) (readLock w) (exclusiveMode w) (writeLock w) (ckptLock w) (readOnly w)
  (bShmUnreliable w) (with_salt salt (with_mxFrame 0 (hdr w))) (minFrame w) (iReCksum w) nck.

(** [salt1] are the bytes of the second salt. *)
Definition walRestartHdr (salt1 : list Z) (w : Wal) : option Wal :=
  s0 ← sqlite3Get4byte (aSalt (hdr w));
  w ← walIndexWriteHdr (with_restart (u32 (nCkpt w + 1)) (sqlite3Put4byte (u32 (1 + s0)) ++ salt1) w);
  w ← set_info info_nBackfill 0 w;
  w ← set_info info_nBackfillAttempted 0 w;
  w ← set_info (info_aReadMark 1) 0 w;
  unused_marks (Z.to_nat (WAL_NREADER - 2)) 2 w.

(** The largest read mark up to [mxFrame] from [i] on, [n] of them. *)
Fixpoint best_mark (n : nat) (i mxFrame mxReadMark mxI : Z) (w : Wal) : option (Z * Z) :=
  match n with
  | O => Some (mxReadMark, mxI)
  | S n =>
      thisMark ← get_info (info_aReadMark i) w;
      if (mxReadMark <=? thisMark) && (thisMark <=? mxFrame) then best_mark n (i + 1) mxFrame thisMark i w
      else best_mark n (i + 1) mxFrame mxReadMark mxI w
  end.

(** A read mark that is not in use is set to [mxFrame]; inside, whether there was an error. *)
Fixpoint new_mark (n : nat) (i mxFrame rc mxReadMark mxI : Z) (c : Conn) : option (bool * Z * Z * Z * Conn) :=
  match n with
  | O => Some (false, rc, mxReadMark, mxI, c)
  | S n =>
      let '(rc, c) := walLockExclusive (WAL_READ_LOCK i) 1 c in
      if rc =? SQLITE_OK then
        w ← set_info (info_aReadMark i) mxFrame (wal c);
        Some (false, rc, mxFrame, i, walUnlockExclusive (WAL_READ_LOCK i) 1 (with_wal w c))
      else if negb (rc =? SQLITE_BUSY) then Some (true, rc, mxReadMark, mxI, c)
      else new_mark n (i + 1) mxFrame rc mxReadMark mxI c
  end.

(** [walTryBeginRead] with [useWal] set, which is how a writer calls it. *)
Definition walTryBeginRead (cnt : Z) (c : Conn) : option (Z * Z * Conn) :=
  let cnt := cnt + 1 in
  if (5 <? cnt) && (WAL_RETRY_PROTOCOL_LIMIT <? cnt) then Some (SQLITE_PROTOCOL, cnt, c)
  else
    let mxFrame := mxFrame (hdr (wal c)) in
    '(mxReadMark, mxI) ← best_mark (Z.to_nat (WAL_NREADER - 1)) 1 mxFrame 0 0 (wal c);
    '(err, rc, mxReadMark, mxI, c) ← (if (Z.land (readOnly (wal c)) WAL_SHM_RDONLY =? 0) && ((mxReadMark <? mxFrame) || (mxI =? 0))
      then new_mark (Z.to_nat (WAL_NREADER - 1)) 1 mxFrame SQLITE_OK mxReadMark mxI c
      else Some (false, SQLITE_OK, mxReadMark, mxI, c));
    if err : bool then Some (rc, cnt, c)
    else if mxI =? 0 then Some (if rc =? SQLITE_BUSY then WAL_RETRY else SQLITE_READONLY_CANTINIT, cnt, c)
    else
      let '(rc, c) := walLockShared (WAL_READ_LOCK mxI) c in
      if negb (rc =? SQLITE_OK) then Some (if Z.land rc 0xFF =? SQLITE_BUSY then WAL_RETRY else rc, cnt, c)
      else
        nBackfill ← get_info info_nBackfill (wal c);
        let c := with_wal (with_minFrame (u32 (nBackfill + 1)) (wal c)) c in
        mark ← get_info (info_aReadMark mxI) (wal c);
        same ← same_hdr (wal c);
        if negb (mark =? mxReadMark) || negb same then Some (WAL_RETRY, cnt, walUnlockShared (WAL_READ_LOCK mxI) c)
        else Some (rc, cnt, with_wal (with_readLock mxI (wal c)) c).

Fixpoint retry_loop (n : nat) (cnt : Z) (c : Conn) : option (Z * Conn) :=
  match n with
  | O => None
  | S n => '(rc, cnt, c) ← walTryBeginRead cnt c; if rc =? WAL_RETRY then retry_loop n cnt c else Some (rc, c)
  end.

(** [salt1] is what [sqlite3_randomness] gives. *)
Definition walRestartLog (salt1 : list Z) (c : Conn) : option (Z * Conn) :=
  if negb (readLock (wal c) =? 0) then Some (SQLITE_OK, c)
  else
    nBackfill ← get_info info_nBackfill (wal c);
    '(err, rc, c) ← (if 0 <? nBackfill then
        let '(rc, c) := walLockExclusive (WAL_READ_LOCK 1) (WAL_NREADER - 1) c in
        if rc =? SQLITE_OK then
          w ← walRestartHdr salt1 (wal c); Some (false, rc, walUnlockExclusive (WAL_READ_LOCK 1) (WAL_NREADER - 1) (with_wal w c))
        else Some (negb (rc =? SQLITE_BUSY), rc, c)
      else Some (false, SQLITE_OK, c));
    if err : bool then Some (rc, c)
    else
      let c := walUnlockShared (WAL_READ_LOCK 0) c in
      retry_loop (Z.to_nat (WAL_RETRY_PROTOCOL_LIMIT + 2)) 0 (with_wal (with_readLock (-1) (wal c)) c).

(** ** Transactions *)

Definition sqlite3WalBeginWriteTransaction (c : Conn) : option (Z * Conn) :=
  if negb (readOnly (wal c) =? 0) then Some (SQLITE_READONLY, c)
  else
    let '(rc, c) := walLockExclusive WAL_WRITE_LOCK 1 c in
    if negb (rc =? SQLITE_OK) then Some (rc, c)
    else
      same ← same_hdr (wal c);
      if negb same then Some (SQLITE_BUSY_SNAPSHOT, with_wal (with_writeLock false (wal c)) (walUnlockExclusive WAL_WRITE_LOCK 1 c))
      else Some (SQLITE_OK, with_wal (with_writeLock true (wal c)) c).

Definition sqlite3WalEndWriteTransaction (c : Conn) : Z * Conn :=
  if writeLock (wal c) then
    let c := walUnlockExclusive WAL_WRITE_LOCK 1 c in
    (SQLITE_OK, with_truncate false (with_wal (with_iReCksum 0 (with_writeLock false (wal c))) c))
  else (SQLITE_OK, c).

(** The frames from [iFrame] on, [n] of them, are given to [xUndo]. *)
Fixpoint undo_loop {A} (xUndo : A → Z → Z * A) (n : nat) (iFrame rc : Z) (w : Wal) (a : A) : option (Z * A) :=
  match n with
  | O => Some (rc, a)
  | S n =>
      if negb (rc =? SQLITE_OK) then Some (rc, a)
      else pg ← walFramePgno w iFrame; let '(rc, a) := xUndo a pg in undo_loop xUndo n (iFrame + 1) rc w a
  end.
Definition sqlite3WalUndo {A} (xUndo : A → Z → Z * A) (w : Wal) (a : A) (m : mem) : option (Z * A * Wal * mem) :=
  if writeLock w then
    let iMax := mxFrame (hdr w) in
    live ← get_words 0 w;
    h ← hdr_of_words live;
    let w := with_hdr h w in
    '(rc, a) ← undo_loop xUndo (Z.to_nat (iMax - mxFrame h)) (mxFrame h + 1) SQLITE_OK w a;
    '(w, m) ← (if negb (iMax =? mxFrame h) then walCleanupHash xShmMap w m else Some (w, m));
    Some (rc, a, with_iReCksum 0 w, m)
  else Some (SQLITE_OK, a, w, m).

(** ** Frames *)

(** A sync takes place when the write gets to [iSyncPoint]. *)
Definition walWriteToLog (iSyncPoint syncFlags : Z) (pContent : list Z) (iOffset : Z) (f : file) : Z * file :=
  let iAmt := zlen pContent in
  if (iOffset <? iSyncPoint) && (iSyncPoint <=? iOffset + iAmt) then
    let iFirstAmt := iSyncPoint - iOffset in
    let '(rc, f) := OsWrite f (take (Z.to_nat iFirstAmt) pContent) iOffset in
    if negb (rc =? SQLITE_OK) then (rc, f)
    else
      let '(rc, f) := OsSync f (WAL_SYNC_FLAGS syncFlags) in
      if (iAmt - iFirstAmt =? 0) || negb (rc =? SQLITE_OK) then (rc, f)
      else OsWrite f (drop (Z.to_nat iFirstAmt) pContent) (iOffset + iFirstAmt)
  else OsWrite f pContent iOffset.

Definition walWriteOneFrame (iSyncPoint syncFlags sz : Z) (p : PgHdr) (nTruncate iOffset : Z) (c : Conn) : option (Z * Conn) :=
  let pData := take (Z.to_nat sz) (pData p) in
  '(aFrame, w) ← walEncodeFrame (pgno p) nTruncate pData (wal c);
  let '(rc, f) := walWriteToLog iSyncPoint syncFlags aFrame iOffset (pWalFd c) in
  let c := with_fd f (with_wal w c) in
  if negb (rc =? SQLITE_OK) then Some (rc, c)
  else
    let '(rc, f) := walWriteToLog iSyncPoint syncFlags pData (iOffset + WAL_FRAME_HDRSIZE) (pWalFd c) in
    Some (rc, with_fd f c).

(** The frames from [iRead] on, [n] of them. *)
Fixpoint rewrite_loop (n : nat) (iRead rc : Z) (c : Conn) : option (Z * Conn) :=
  match n with
  | O => Some (rc, c)
  | S n =>
      if negb (rc =? SQLITE_OK) then Some (rc, c)
      else
        let iOff := walFrameOffset iRead (szPage (wal c)) in
        let '(rc, aBuf) := OsRead (pWalFd c) (szPage (wal c) + WAL_FRAME_HDRSIZE) iOff in
        if rc =? SQLITE_OK then
          iPgno ← sqlite3Get4byte aBuf;
          nDbSize ← sqlite3Get4byte (drop 4 aBuf);
          '(aFrame, w) ← walEncodeFrame iPgno nDbSize (drop 24 aBuf) (wal c);
          let '(rc, f) := OsWrite (pWalFd c) aFrame iOff in
          rewrite_loop n (iRead + 1) rc (with_fd f (with_wal w c))
        else Some (rc, c)
  end.

Definition walRewriteChecksums (iLast : Z) (c : Conn) (m : mem) : option (Z * Conn * mem) :=
  let '(ok, m) := sqlite3Malloc m in
  if negb ok then Some (SQLITE_NOMEM, c, m)
  else
    let iCksumOff := if iReCksum (wal c) =? 1 then 24 else walFrameOffset (iReCksum (wal c) - 1) (szPage (wal c)) + 16 in
    let '(rc, aBuf) := OsRead (pWalFd c) 8 iCksumOff in
    c0 ← sqlite3Get4byte aBuf;
    c1 ← sqlite3Get4byte (drop 4 aBuf);
    let iRead := iReCksum (wal c) in
    '(rc, c) ← rewrite_loop (Z.to_nat (iLast - iRead + 1)) iRead rc (with_wal (with_iReCksum 0 (with_cksums (c0, c1) (wal c))) c);
    Some (rc, c, sqlite3_free m).

Definition sqlite3SectorSize (f : file) : Z :=
  let iRet := OsSectorSize f in if iRet <? 32 then 512 else if MAX_SECTOR_SIZE <? iRet then MAX_SECTOR_SIZE else iRet.

Definition walLimitSize (nMax : Z) (f : file) : file :=
  let '(rx, sz) := OsFileSize f in if (rx =? SQLITE_OK) && (nMax <? sz) then snd (OsTruncate f nMax) else f.

Section frames.
(** [sqlite3_randomness] gives [salt1] and [salts]; what the connection was opened with. *)
Context (salt1 salts : list Z) (syncHeader padToSectorBoundary : bool) (mxWalSize : Z).

(** The header of the log file, when there are no frames in it. *)
Definition write_log_header (sz sync_flags : Z) (c : Conn) : option (Z * Conn) :=
  let h := hdr (wal c) in
  let salt := if nCkpt (wal c) =? 0 then salts else aSalt h in
  let aWalHdr := sqlite3Put4byte (Z.lor WAL_MAGIC SQLITE_BIGENDIAN) ++ sqlite3Put4byte WAL_MAX_VERSION ++ sqlite3Put4byte sz ++
    sqlite3Put4byte (nCkpt (wal c)) ++ salt in
  aCksum ← walChecksumBytes true aWalHdr None;
  let w := with_szPage sz (with_hdr (with_cksum aCksum (with_source SQLITE_BIGENDIAN salt h)) (wal c)) in
  let '(rc, f) := OsWrite (pWalFd c) (aWalHdr ++ sqlite3Put4byte (fst aCksum) ++ sqlite3Put4byte (snd aCksum)) 0 in
  let c := mkConn w f (shm c) true (iCallback c) in
  if negb (rc =? SQLITE_OK) then Some (rc, c)
  else if syncHeader then let '(rc, f) := OsSync f (CKPT_SYNC_FLAGS sync_flags) in Some (rc, with_fd f c)
  else Some (SQLITE_OK, c).

(** Every page gets to the log once: the result code, the last frame and the offset behind it, the last page that was appended. *)
Fixpoint write_pages (pList : list PgHdr) (sz nTruncate : Z) (isCommit : bool) (sync_flags iFirst iFrame iOffset : Z) (pLast : option PgHdr) (c : Conn) (m : mem) :
    option (Z * Z * Z * option PgHdr * Conn * mem * list PgHdr) :=
  match pList with
  | [] => Some (SQLITE_OK, iFrame, iOffset, pLast, c, m, [])
  | p :: pDirty =>
      let last := match pDirty with [] => true | _ => false end in
      '(iWrite, c, m) ← (if negb (iFirst =? 0) && (negb last || negb isCommit) then
          '(_, iWrite, w, m) ← walFindFrame xShmMap (pgno p) (wal c) m; Some (iWrite, with_wal w c, m)
        else Some (0, c, m));
      if negb (iFirst =? 0) && (negb last || negb isCommit) && (iFirst <=? iWrite) then
        let w := if (iReCksum (wal c) =? 0) || (iWrite <? iReCksum (wal c)) then with_iReCksum iWrite (wal c) else wal c in
        let '(rc, f) := OsWrite (pWalFd c) (take (Z.to_nat sz) (pData p)) (walFrameOffset iWrite sz + WAL_FRAME_HDRSIZE) in
        let c := with_fd f (with_wal w c) in
        if negb (rc =? SQLITE_OK) then Some (rc, iFrame, iOffset, pLast, c, m, p :: pDirty)
        else
          '(rc, iFrame, iOffset, pLast, c, m, l) ← write_pages pDirty sz nTruncate isCommit sync_flags iFirst iFrame iOffset pLast c m;
          Some (rc, iFrame, iOffset, pLast, c, m, with_append false p :: l)
      else
        '(rc, c) ← walWriteOneFrame 0 sync_flags sz p (if isCommit && last then nTruncate else 0) iOffset c;
        if negb (rc =? SQLITE_OK) then Some (rc, iFrame + 1, iOffset, pLast, c, m, p :: pDirty)
        else
          '(rc, iFrame, iOffset, pLast, c, m, l) ← write_pages pDirty sz nTruncate isCommit sync_flags iFirst (iFrame + 1) (iOffset + (sz + WAL_FRAME_HDRSIZE))
            (Some p) c m;
          Some (rc, iFrame, iOffset, pLast, c, m, with_append true p :: l)
  end.

(** The last frame again, up to [iSyncPoint], at most [n] times. *)
Fixpoint pad_loop (n : nat) (iSyncPoint sync_flags sz nTruncate iOffset nExtra : Z) (pLast : option PgHdr) (c : Conn) : option (Z * Z * Conn) :=
  if iOffset <? iSyncPoint then
    match n with
    | O => None
    | S n =>
        p ← pLast;
        '(rc, c) ← walWriteOneFrame iSyncPoint sync_flags sz p nTruncate iOffset c;
        if negb (rc =? SQLITE_OK) then Some (rc, nExtra, c)
        else pad_loop n iSyncPoint sync_flags sz nTruncate (iOffset + (sz + WAL_FRAME_HDRSIZE)) (nExtra + 1) pLast c
    end
  else Some (SQLITE_OK, nExtra, c).

(** Padding and syncing at the end of a transaction: whether the padding failed, the result code, the copies of the last frame. *)
Definition pad_and_sync (sz nTruncate sync_flags iOffset : Z) (pLast : option PgHdr) (c : Conn) : option (bool * Z * Z * Conn) :=
  '(err, rc, bSync, nExtra, c) ← (if padToSectorBoundary then
      let sectorSize := sqlite3SectorSize (pWalFd c) in
      let iSyncPoint := (iOffset + sectorSize - 1) / sectorSize * sectorSize in
      '(rc, nExtra, c) ← pad_loop (Z.to_nat (iSyncPoint - iOffset)) iSyncPoint sync_flags sz nTruncate iOffset 0 pLast c;
      Some (negb (rc =? SQLITE_OK), rc, iSyncPoint =? iOffset, nExtra, c)
    else Some (false, SQLITE_OK, true, 0, c));
  if (err : bool) || negb bSync then Some (err, rc, nExtra, c)
  else let '(rc, f) := OsSync (pWalFd c) (WAL_SYNC_FLAGS sync_flags) in Some (false, rc, nExtra, with_fd f c).

(** The pages that were appended get to the wal-index. *)
Fixpoint append_pages (pList : list PgHdr) (iFrame rc : Z) (w : Wal) (m : mem) : option (Z * Z * Wal * mem) :=
  match pList with
  | [] => Some (rc, iFrame, w, m)
  | p :: pList =>
      if negb (rc =? SQLITE_OK) then Some (rc, iFrame, w, m)
      else if negb (walAppend p) then append_pages pList iFrame rc w m
      else '(rc, w, m) ← walIndexAppend xShmMap (iFrame + 1) (pgno p) w m; append_pages pList (iFrame + 1) rc w m
  end.
Fixpoint append_extra (nExtra : nat) (pLast : option PgHdr) (iFrame rc : Z) (w : Wal) (m : mem) : option (Z * Z * Wal * mem) :=
  match nExtra with
  | O => Some (rc, iFrame, w, m)
  | S nExtra =>
      if negb (rc =? SQLITE_OK) then Some (rc, iFrame, w, m)
      else p ← pLast; '(rc, w, m) ← walIndexAppend xShmMap (iFrame + 1) (pgno p) w m; append_extra nExtra pLast (iFrame + 1) rc w m
  end.

(** The wal-index and its header, after the frames are in the file. *)
Definition finish_frames (pList : list PgHdr) (pLast : option PgHdr) (nExtra sz nTruncate : Z) (isCommit : bool) (rc : Z) (c : Conn) (m : mem) :
    option (Z * Conn * mem) :=
  '(rc, iFrame, w, m) ← append_pages pList (mxFrame (hdr (wal c))) rc (wal c) m;
  '(rc, iFrame, w, m) ← append_extra (Z.to_nat nExtra) pLast iFrame rc w m;
  if rc =? SQLITE_OK then
    let h := hdr w in
    let w := with_hdr (with_end (u16 (Z.lor (Z.land sz 0xff00) (Z.shiftr sz 16))) iFrame (if isCommit then u32 (iChange h + 1) else iChange h)
      (if isCommit then nTruncate else nPage h) h) w in
    if isCommit then w ← walIndexWriteHdr w; Some (rc, mkConn w (pWalFd c) (shm c) (truncateOnCommit c) iFrame, m)
    else Some (rc, with_wal w c, m)
  else Some (rc, with_wal w c, m).

Definition walFrames (sz : Z) (pList : list PgHdr) (nTruncate : Z) (isCommit : bool) (sync_flags : Z) (c : Conn) (m : mem) : option (Z * Conn * mem) :=
  same ← same_hdr (wal c);
  live ← get_words 0 (wal c);
  liveFrame ← live.[4];
  let iFirst := if same : bool then 0 else u32 (liveFrame + 1) in
  '(rc, c) ← walRestartLog salt1 c;
  if negb (rc =? SQLITE_OK) then Some (rc, c, m)
  else
    let iFrame := mxFrame (hdr (wal c)) in
    '(rc, c) ← (if iFrame =? 0 then write_log_header sz sync_flags c else Some (SQLITE_OK, c));
    if negb (rc =? SQLITE_OK) then Some (rc, c, m)
    else if negb (szPage (wal c) =? sz) then Some (SQLITE_CORRUPT, c, m)
    else
      '(rc, iFrame, iOffset, pLast, c, m, pList) ← write_pages pList sz nTruncate isCommit sync_flags iFirst iFrame (walFrameOffset (iFrame + 1) sz) None c m;
      if negb (rc =? SQLITE_OK) then Some (rc, c, m)
      else
        '(rc, c, m) ← (if isCommit && negb (iReCksum (wal c) =? 0) then walRewriteChecksums iFrame c m else Some (SQLITE_OK, c, m));
        if negb (rc =? SQLITE_OK) then Some (rc, c, m)
        else
          '(err, rc, nExtra, c) ← (if isCommit && negb (WAL_SYNC_FLAGS sync_flags =? 0) then pad_and_sync sz nTruncate sync_flags iOffset pLast c
            else Some (false, SQLITE_OK, 0, c));
          if (err : bool) then Some (rc, c, m)
          else
            let c := if isCommit && truncateOnCommit c && (0 <=? mxWalSize) then
                let end_ := walFrameOffset (iFrame + nExtra + 1) sz in
                with_truncate false (with_fd (walLimitSize (if mxWalSize <? end_ then end_ else mxWalSize) (pWalFd c)) c)
              else c in
            finish_frames pList pLast nExtra sz nTruncate isCommit rc c m.
End frames.
End write.
