(* ===== verification/WalWriteProofs.v ===== *)
(** Proofs about writing to the write-ahead log (WalWrite.v): the frames of a transaction get behind those in the file, with their checksums, and to
    the wal-index, and a write that fails leaves the committed frames alone.  The theorems about a whole call, and recovery from the file
    that was written, are in WalCommitProofs.v. *)
From S2P Require Import Prelude Varint Wal WalProofs WalFrame WalFrameProofs WalRecoverProofs WalWrite.

(** ** What a file promises *)

(** The byte at an offset; there are zeros behind the end. *)
Definition byte_at (l : list Z) (i : Z) : Z := default 0 l.[i].

(** A write that succeeds replaces the bytes from its offset on, and fills a gap with zeros; a write that does not succeed spares the bytes around
    those that it should replace.  A read that succeeds gives the bytes that are there.  [OsFileControl] may only make the file longer. *)
Class FileLaws (file : Type) `{!FileOps file} := {
  content : file → list Z;
  write_ok f d off f' : 0 ≤ off → OsWrite f d off = (SQLITE_OK, f') →
    content f' = take (Z.to_nat off) (content f) ++ replicate (Z.to_nat off - length (content f)) 0 ++ d ++ drop (Z.to_nat (off + zlen d)) (content f);
  write_any f d off rc f' : 0 ≤ off ≤ zlen (content f) → OsWrite f d off = (rc, f') → take (Z.to_nat off) (content f') = take (Z.to_nat off) (content f);
  write_around f d off rc f' i : 0 ≤ off → OsWrite f d off = (rc, f') → 0 ≤ i → i < off ∨ off + zlen d ≤ i → byte_at (content f') i = byte_at (content f) i;
  read_ok f n off d : 0 ≤ n → 0 ≤ off → off + n ≤ zlen (content f) → OsRead f n off = (SQLITE_OK, d) → d = take (Z.to_nat n) (drop (Z.to_nat off) (content f));
  sync_any f flags rc f' : OsSync f flags = (rc, f') → content f' = content f;
  size_ok f n : OsFileSize f = (SQLITE_OK, n) → n = zlen (content f);
  truncate_any f n rc f' : 0 ≤ n → OsTruncate f n = (rc, f') → take (Z.to_nat n) (content f') = take (Z.to_nat n) (content f);
  control_any f op arg : ∃ k, content (OsFileControl f op arg) = content f ++ replicate k 0 }.

(** ** The bytes of frames *)

Fixpoint frames_bytes (salt : list Z) (big : Z) (s : Z * Z) (fr : list frame) : list Z :=
  match fr with
  | [] => []
  | (pg, nt, d) :: fr => match frame_cksum big s pg nt d with Some s' => frame_header salt s' pg nt ++ d ++ frames_bytes salt big s' fr | None => [] end
  end.

Lemma frames_bytes_app salt big a : ∀ s s' b, chain big s a = Some s' → frames_bytes salt big s (a ++ b) = frames_bytes salt big s a ++ frames_bytes salt big s' b.
Proof.
  induction a as [|[[pg nt] d] a IH]; intros s s' b Hc; [by injection Hc as ->|]. cbn [app chain frames_bytes] in *.
  destruct (frame_cksum big s pg nt d) as [s1|]; [|done]. cbn [mbind option_bind] in Hc. by rewrite (IH s1 s' b Hc), !app_assoc.
Qed.

Lemma frames_bytes_length salt big sz fr : length salt = 8%nat → Forall (λ f : frame, zlen (snd f) = sz) fr → ∀ s s', chain big s fr = Some s' →
  zlen (frames_bytes salt big s fr) = zlen fr * (sz + 24).
Proof.
  intros Hs Hd. induction Hd as [|[[pg nt] d] fr Hf _ IH]; intros s s' Hc; [done|]. cbn [chain frames_bytes snd] in *.
  destruct (frame_cksum big s pg nt d) as [s1|]; [|done]. cbn [mbind option_bind] in Hc. rewrite !length_app, header_length by done. specialize (IH s1 s' Hc).
  cbn [length]. lia.
Qed.

Section write.
Context {file locks : Type} `{!FileOps file, !ShmLocks locks, !FileLaws file}.
Context (xShmMap : Z → bool → Z * option wipage) (shm_sized : shm_pages xShmMap).
Abbreviation Conn := (Conn (file := file) (locks := locks)).

(** ** Writes behind a prefix *)

(** The file has [p] and then anything. *)
Definition starts (f : file) (p : list Z) : Prop := ∃ r, content f = p ++ r.

Lemma starts_app f p q : starts f (p ++ q) → starts f p.
Proof. intros (r & E). exists (q ++ r). by rewrite E, app_assoc. Qed.

Lemma take_starts f p : take (length p) (content f) = p → starts f p.
Proof. intros E. exists (drop (length p) (content f)). by rewrite <- E at 1; rewrite take_drop. Qed.
Lemma starts_take f p : starts f p → take (length p) (content f) = p ∧ zlen p ≤ zlen (content f).
Proof. intros (r & E). rewrite E. split; [by rewrite take_app_length|rewrite length_app; lia]. Qed.

Lemma write_starts f p d rc f' : starts f p → OsWrite f d (zlen p) = (rc, f') → starts f' p ∧ (rc = SQLITE_OK → starts f' (p ++ d)).
Proof.
  intros Hs E. destruct (starts_take f p Hs) as (Ht & Hl). assert (Hz : 0 ≤ zlen p ≤ zlen (content f)) by lia. split.
  - apply take_starts. pose proof (write_any _ _ _ _ _ Hz E) as H. rewrite Nat2Z.id in H. by rewrite H.
  - intros ->. assert (Hz0 : 0 ≤ zlen p) by lia. pose proof (write_ok _ _ _ _ Hz0 E) as H. rewrite Nat2Z.id, Ht in H. replace (length p - length (content f))%nat with 0%nat in H by lia.
    cbn [replicate app] in H. eexists. rewrite H. by rewrite <- app_assoc.
Qed.

Lemma sync_starts f p flags rc f' : starts f p → OsSync f flags = (rc, f') → starts f' p.
Proof. intros (r & E) H. exists r. by rewrite (sync_any _ _ _ _ H). Qed.

Lemma log_starts iSync flags d f p rc f' :
  starts f p → walWriteToLog iSync flags d (zlen p) f = (rc, f') → starts f' p ∧ (rc = SQLITE_OK → starts f' (p ++ d)).
Proof.
  intros Hs. unfold walWriteToLog. destruct (_ && _) eqn:Eb; [|by apply write_starts]. apply andb_true_iff in Eb as (E1 & E2). apply Z.ltb_lt in E1. apply Z.leb_le in E2.
  set (n := Z.to_nat (iSync - zlen p)). destruct (OsWrite f _ _) as [rc1 f1] eqn:EW. destruct (write_starts _ _ _ _ _ Hs EW) as (H1 & H2).
  destruct (Z.eqb_spec rc1 SQLITE_OK) as [->|]; cbn [negb]; [|by intros [= <- <-]]. specialize (H2 eq_refl). destruct (OsSync f1 _) as [rc2 f2] eqn:ES.
  pose proof (sync_starts _ _ _ _ _ H2 ES) as H3. destruct ((zlen d - (iSync - zlen p) =? 0) || negb (rc2 =? SQLITE_OK)) eqn:Eo.
  - intros [= <- <-]. split; [by eapply starts_app|]. intros ->. apply orb_true_iff in Eo as [Eo|]; [|done]. apply Z.eqb_eq in Eo.
    unfold n in H3. by rewrite take_ge in H3 by lia.
  - intros EW2. replace (zlen p + (iSync - zlen p)) with (zlen (p ++ take n d)) in EW2 by (rewrite length_app, length_take; unfold n; lia).
    destruct (write_starts _ _ _ _ _ H3 EW2) as (H4 & H5). split; [by eapply starts_app|]. intros Erc. specialize (H5 Erc). by rewrite <- app_assoc, take_drop in H5.
Qed.

(** ** Frames behind frames *)

Record log_params (big sz nckpt : Z) (salt : list Z) (s : Z * Z) : Prop := LogParams {
  lp_big : big = 0 ∨ big = 1;
  lp_sz : sz ∈ [512; 1024; 2048; 4096; 8192; 16384; 32768; 65536];
  lp_nckpt : 0 ≤ nckpt < 2 ^ 32;
  lp_salt : length salt = 8%nat ∧ bytes salt;
  lp_cksum : walChecksumBytes (big =? SQLITE_BIGENDIAN) (log_front big sz nckpt salt) None = Some s }.

Definition frame_ok (sz : Z) (f : frame) : Prop := pgno_ok (fst (fst f)) ∧ 0 ≤ snd (fst f) < 2 ^ 32 ∧ zlen (snd f) = sz.

(** The bytes of a log with the frames [fr]. *)
Definition log_bytes (big sz nckpt : Z) (salt : list Z) (s : Z * Z) (fr : list frame) : list Z := log_header big sz nckpt salt s ++ frames_bytes salt big s fr.

(** The file has the frames [fr], and the connection is ready to write the next one. *)
Record logged (big sz nckpt : Z) (salt : list Z) (s : Z * Z) (fr : list frame) (c : Conn) : Prop := Logged {
  lg_params : log_params big sz nckpt salt s;
  lg_frames : Forall (frame_ok sz) fr;
  lg_starts : starts (pWalFd c) (log_bytes big sz nckpt salt s fr);
  lg_chain : chain big s fr = Some (aFrameCksum (hdr (wal c)));
  lg_u32 : u32_pair (aFrameCksum (hdr (wal c)));
  lg_big : bigEndCksum (hdr (wal c)) = big;
  lg_salt : aSalt (hdr (wal c)) = salt;
  lg_szPage : szPage (wal c) = sz;
  lg_recksum : iReCksum (wal c) = 0 }.

Lemma params_sz big sz nckpt salt s : log_params big sz nckpt salt s → 512 ≤ sz ≤ 65536 ∧ (8 | sz).
Proof. intros [_ H _ _ _]. repeat (apply elem_of_cons in H as [->|H]; [split; [lia|by apply Z.mod_divide]|]). by apply elem_of_nil in H. Qed.

Lemma log_header_length big sz nckpt salt s : length salt = 8%nat → zlen (log_header big sz nckpt salt s) = 32.
Proof. intros Hs. unfold log_header, log_front. rewrite !length_app, Hs. done. Qed.

Lemma log_bytes_length big sz nckpt salt s fr s' :
  log_params big sz nckpt salt s → Forall (frame_ok sz) fr → chain big s fr = Some s' → zlen (log_bytes big sz nckpt salt s fr) = walFrameOffset (zlen fr + 1) sz.
Proof.
  intros [_ _ _ (Hs & _) _] Hf Hc. unfold log_bytes, walFrameOffset, WAL_HDRSIZE, WAL_FRAME_HDRSIZE. pose proof (log_header_length big sz nckpt salt s Hs) as Hh.
  rewrite length_app, Nat2Z.inj_add, Hh, (frames_bytes_length _ _ sz _ Hs) with (s' := s'); [lia| |done]. eapply Forall_impl; [exact Hf|]. by intros f (_ & _ & ?).
Qed.

Lemma frames_bytes_snoc salt big s fr s1 pg nt d s' : chain big s fr = Some s1 → frame_cksum big s1 pg nt d = Some s' →
  frames_bytes salt big s (fr ++ [(pg, nt, d)]) = frames_bytes salt big s fr ++ frame_header salt s' pg nt ++ d.
Proof. intros Hc Hk. rewrite (frames_bytes_app _ _ _ _ s1) by done. cbn [frames_bytes]. by rewrite Hk, app_nil_r. Qed.

Definition page_ok (sz : Z) (p : PgHdr) : Prop := pgno_ok (pgno p) ∧ zlen (pData p) = sz.

Lemma write_one_made iSync flags big sz nckpt salt s fr c p nt :
  logged big sz nckpt salt s fr c → page_ok sz p → 0 ≤ nt < 2 ^ 32 →
  ∃ rc f' s', walWriteOneFrame iSync flags sz p nt (walFrameOffset (zlen fr + 1) sz) c =
      Some (rc, mkConn (with_cksums s' (wal c)) f' (shm c) (truncateOnCommit c) (iCallback c)) ∧
    starts f' (log_bytes big sz nckpt salt s fr) ∧
    (rc = SQLITE_OK → logged big sz nckpt salt s (fr ++ [(pgno p, nt, pData p)]) (mkConn (with_cksums s' (wal c)) f' (shm c) (truncateOnCommit c) (iCallback c))).
Proof.
  intros [HP Hfr Hst Hch Hu Hb Hsalt Hsz Hrk] (Hpg & Hd) Hnt. destruct (params_sz _ _ _ _ _ HP) as (Hszr & Hsz8). pose proof HP as [_ _ _ (Hsl & _) _].
  destruct (frame_cksum_made big _ (pgno p) nt (pData p) Hu) as (s' & Es & Hs'); [lia|by rewrite Hd|].
  pose proof (log_bytes_length _ _ _ _ _ _ _ HP Hfr Hch) as Hlen. unfold walWriteOneFrame. rewrite take_ge by lia.
  rewrite (encode_made _ _ _ _ s') by (done || by rewrite Hb). cbn [mbind option_bind]. rewrite Hsalt, <- Hlen.
  set (h := frame_header salt s' (pgno p) nt). assert (Hh : zlen h = 24) by (unfold h; rewrite header_length by done; done).
  destruct (walWriteToLog iSync flags h _ _) as [rc1 f1] eqn:E1. destruct (log_starts _ _ _ _ _ _ _ Hst E1) as (H1 & H2). cbn [pWalFd with_fd with_wal wal shm truncateOnCommit iCallback].
  destruct (Z.eqb_spec rc1 SQLITE_OK) as [->|Hne]; cbn [negb]; [|exists rc1, f1, s'; by split_and!]. specialize (H2 eq_refl).
  destruct (walWriteToLog iSync flags (pData p) _ _) as [rc2 f2] eqn:E2. unfold WAL_FRAME_HDRSIZE in E2.
  replace (zlen (log_bytes big sz nckpt salt s fr) + 24) with (zlen (log_bytes big sz nckpt salt s fr ++ h)) in E2 by (rewrite length_app; lia).
  destruct (log_starts _ _ _ _ _ _ _ H2 E2) as (H3 & H4). exists rc2, f2, s'. split; [done|]. split; [by eapply starts_app|]. intros ->. specialize (H4 eq_refl).
  split; cbn [wal pWalFd]; try done.
  - apply Forall_app. split; [done|]. by constructor; [|constructor].
  - unfold log_bytes in *. rewrite (frames_bytes_snoc _ _ _ _ _ _ _ _ s' Hch Es). by rewrite <- !app_assoc in *.
  - rewrite chain_app, Hch. cbn [mbind option_bind chain]. by rewrite Es.
Qed.

(** ** The pages of a transaction *)

(** Only the running checksum of the connection changed, and the file. *)
Definition conn_step (c c' : Conn) : Prop :=
  (∃ ck, wal c' = with_cksums ck (wal c)) ∧ shm c' = shm c ∧ truncateOnCommit c' = truncateOnCommit c ∧ iCallback c' = iCallback c.
Lemma with_cksums_same w : with_cksums (aFrameCksum (hdr w)) w = w.
Proof. by destruct w as [? ? ? ? ? ? ? ? [] ? ? ?]. Qed.
Lemma step_refl c : conn_step c c.
Proof. split; [|done]. exists (aFrameCksum (hdr (wal c))). by rewrite with_cksums_same. Qed.
Lemma step_trans c c1 c2 : conn_step c c1 → conn_step c1 c2 → conn_step c c2.
Proof. intros ((k1 & E1) & H1 & H2 & H3) ((k2 & E2) & G1 & G2 & G3). split; [|split_and!; congruence]. exists k2. by rewrite E2, E1. Qed.

(** The frames of the pages: the last one commits. *)
Fixpoint page_frames (nTruncate : Z) (isCommit : bool) (pList : list PgHdr) : list frame :=
  match pList with
  | [] => []
  | p :: pDirty => (pgno p, if isCommit && match pDirty with [] => true | _ => false end then nTruncate else 0, pData p) :: page_frames nTruncate isCommit pDirty
  end.

Lemma starts_prefix f big sz nckpt salt s fr x s1 :
  chain big s fr = Some s1 → starts f (log_bytes big sz nckpt salt s (fr ++ x)) → starts f (log_bytes big sz nckpt salt s fr).
Proof. intros Hc. unfold log_bytes. rewrite (frames_bytes_app _ _ _ _ s1) by done. rewrite app_assoc. apply starts_app. Qed.

Lemma write_pages_made big sz nckpt salt s nT isCommit flags pList : 0 ≤ nT < 2 ^ 32 → Forall (page_ok sz) pList → ∀ fr pLast c m,
  logged big sz nckpt salt s fr c →
  ∃ rc iFr iOff pL c' l, write_pages xShmMap pList sz nT isCommit flags 0 (zlen fr) (walFrameOffset (zlen fr + 1) sz) pLast c m = Some (rc, iFr, iOff, pL, c', m, l) ∧
    conn_step c c' ∧ starts (pWalFd c') (log_bytes big sz nckpt salt s fr) ∧
    (rc = SQLITE_OK → logged big sz nckpt salt s (fr ++ page_frames nT isCommit pList) c' ∧ iFr = zlen fr + zlen pList ∧
       iOff = walFrameOffset (iFr + 1) sz ∧ l = map (with_append true) pList ∧ pL = match last pList with Some p => Some p | None => pLast end).
Proof.
  intros HnT. induction pList as [|p pList IH]; intros Hok fr pLast c m HL; cbn [write_pages].
  - exists SQLITE_OK, (zlen fr), (walFrameOffset (zlen fr + 1) sz), pLast, c, []. split; [done|]. split; [apply step_refl|]. split; [apply HL|]. intros _.
    cbn [page_frames length]. rewrite app_nil_r, Z.add_0_r. by split_and!.
  - apply Forall_cons in Hok as (Hp & Hok). change (negb (0 =? 0)) with false. cbn [andb mbind option_bind].
    set (lst := match pList with [] => true | _ => false end). set (nt := if isCommit && lst then nT else 0).
    assert (Hnt : 0 ≤ nt < 2 ^ 32) by (unfold nt; destruct (isCommit && lst); lia).
    destruct (write_one_made 0 flags _ _ _ _ _ _ _ p nt HL Hp Hnt) as (rc & f' & s' & -> & Hst & HOK). cbn [mbind option_bind].
    set (c1 := mkConn _ f' _ _ _) in *. assert (Hstep : conn_step c c1) by (split; [by exists s'|done]).
    destruct (Z.eqb_spec rc SQLITE_OK) as [->|Hne]; cbn [negb].
    2: { exists rc, (zlen fr + 1), (walFrameOffset (zlen fr + 1) sz), pLast, c1, (p :: pList). by split_and!. }
    specialize (HOK eq_refl). set (fr1 := fr ++ [(pgno p, nt, pData p)]) in *.
    assert (El : zlen fr1 = zlen fr + 1) by (unfold fr1; rewrite length_app; cbn [length]; lia).
    destruct (IH Hok fr1 (Some p) c1 m HOK) as (rc & iFr & iOff & pL & c' & l & E & Hst2 & Hpre & HOK2).
    replace (walFrameOffset (zlen fr + 1) sz + (sz + WAL_FRAME_HDRSIZE)) with (walFrameOffset (zlen fr1 + 1) sz) by (rewrite El; unfold walFrameOffset; lia).
    rewrite <- El, E. cbn [mbind option_bind]. exists rc, iFr, iOff, pL, c', (with_append true p :: l). split; [done|]. split; [exact (step_trans _ _ _ Hstep Hst2)|]. split.
    { eapply starts_prefix; [exact (lg_chain _ _ _ _ _ _ _ HL)|exact Hpre]. }
    intros ->. destruct (HOK2 eq_refl) as (G1 & G2 & G3 & G4 & G5). split; [|split; [|split; [|split]]].
    + cbn [page_frames]. fold lst nt. unfold fr1 in G1. by rewrite <- app_assoc in G1.
    + cbn [length]. lia.
    + done.
    + cbn [map]. by rewrite G4.
    + rewrite G5. destruct pList as [|p2 pList]; [done|]. change (last (p :: p2 :: pList)) with (last (p2 :: pList)).
      destruct (last (p2 :: pList)) eqn:E2; [done|]. by apply last_None in E2.
Qed.

Lemma pad_loop_made big sz nckpt salt s iSync flags nT p (n : nat) : 0 ≤ nT < 2 ^ 32 → page_ok sz p → ∀ fr nExtra c,
  logged big sz nckpt salt s fr c → iSync - walFrameOffset (zlen fr + 1) sz ≤ Z.of_nat n → 0 ≤ nExtra →
  ∃ rc e c', pad_loop n iSync flags sz nT (walFrameOffset (zlen fr + 1) sz) nExtra (Some p) c = Some (rc, nExtra + Z.of_nat e, c') ∧
    conn_step c c' ∧ starts (pWalFd c') (log_bytes big sz nckpt salt s fr) ∧
    (rc = SQLITE_OK → logged big sz nckpt salt s (fr ++ replicate e (pgno p, nT, pData p)) c').
Proof.
  intros HnT Hp. induction n as [|n IH]; intros fr nExtra c HL Hn Hx.
  { exists SQLITE_OK, 0%nat, c. cbn [pad_loop]. destruct (Z.ltb_spec (walFrameOffset (zlen fr + 1) sz) iSync); [lia|]. rewrite Z.add_0_r. split; [done|].
    split; [apply step_refl|]. split; [apply HL|]. cbn [replicate]. by rewrite app_nil_r. }
  cbn [pad_loop]. destruct (Z.ltb_spec (walFrameOffset (zlen fr + 1) sz) iSync) as [Hlt|Hge].
  2: { exists SQLITE_OK, 0%nat, c. rewrite Z.add_0_r. split; [done|]. split; [apply step_refl|]. split; [apply HL|]. cbn [replicate]. by rewrite app_nil_r. }
  cbn [mbind option_bind]. destruct (write_one_made iSync flags _ _ _ _ _ _ _ p nT HL Hp HnT) as (rc & f' & s' & -> & Hst & HOK). cbn [mbind option_bind].
  set (c1 := mkConn _ f' _ _ _) in *. assert (Hstep : conn_step c c1) by (split; [by exists s'|done]).
  destruct (Z.eqb_spec rc SQLITE_OK) as [->|Hne]; cbn [negb]; [|exists rc, 0%nat, c1; rewrite Z.add_0_r; by split_and!].
  specialize (HOK eq_refl). set (fr1 := fr ++ [(pgno p, nT, pData p)]) in *. destruct (params_sz _ _ _ _ _ (lg_params _ _ _ _ _ _ _ HL)) as (Hsz & _).
  assert (El : zlen fr1 = zlen fr + 1) by (unfold fr1; rewrite length_app; cbn [length]; lia).
  assert (Eo : walFrameOffset (zlen fr + 1) sz + (sz + WAL_FRAME_HDRSIZE) = walFrameOffset (zlen fr1 + 1) sz) by (rewrite El; unfold walFrameOffset; lia).
  destruct (IH fr1 (nExtra + 1) c1 HOK) as (rc & e & c' & E & Hst2 & Hpre & HOK2); [rewrite <- Eo; unfold WAL_FRAME_HDRSIZE; lia|lia|].
  rewrite Eo, E. exists rc, (S e), c'. split; [do 3 f_equal; lia|]. split; [exact (step_trans _ _ _ Hstep Hst2)|]. split.
  - eapply starts_prefix; [exact (lg_chain _ _ _ _ _ _ _ HL)|exact Hpre].
  - intros ->. specialize (HOK2 eq_refl). unfold fr1 in HOK2. rewrite <- app_assoc in HOK2. exact HOK2.
Qed.

(** ** The wal-index *)

Lemma append_pages_made pList : ∀ F k w m,
  represents w F → 0 ≤ k ≤ zlen F → (k = zlen F ∨ k = mxFrame (hdr w)) → Forall (λ p, pgno_ok (pgno p)) pList → Forall (λ p, walAppend p = true) pList →
  ∃ rc iFr w' m' F', append_pages xShmMap pList k SQLITE_OK w m = Some (rc, iFr, w', m') ∧ same_state w w' ∧ represents w' F' ∧
    take (Z.to_nat k) F' = take (Z.to_nat k) F ∧
    (rc = SQLITE_OK → iFr = k + zlen pList ∧ F' = match pList with [] => F | _ => take (Z.to_nat k) F ++ map pgno pList end).
Proof.
  induction pList as [|p pList IH]; intros F k w m HR Hk Hkm Hpg Hap; cbn [append_pages].
  - exists SQLITE_OK, k, w, m, F. split; [done|]. split; [apply state_refl|]. split; [done|]. split; [done|]. intros _. cbn [length]. split; [lia|done].
  - apply Forall_cons in Hpg as (Hp & Hpg). apply Forall_cons in Hap as (Ha & Hap). change (negb (SQLITE_OK =? SQLITE_OK)) with false. cbv iota. rewrite Ha. cbn [negb].
    destruct (append_made xShmMap shm_sized w F k (pgno p) m HR Hk Hkm Hp) as (rc & w1 & m1 & -> & HS & HC). cbn [mbind option_bind].
    assert (Hlen : zlen (take (Z.to_nat k) F ++ [pgno p]) = k + 1) by (rewrite length_app, length_take; cbn [length]; lia).
    assert (Htk : ∀ F', take (Z.to_nat (k + 1)) F' = take (Z.to_nat (k + 1)) (take (Z.to_nat k) F ++ [pgno p]) → take (Z.to_nat k) F' = take (Z.to_nat k) F).
    { intros F' E. apply (f_equal (take (Z.to_nat k))) in E. rewrite !take_take in E. rewrite Nat.min_l in E by lia. rewrite E, take_app_le by (rewrite length_take; lia).
      rewrite take_take, Nat.min_id. done. }
    destruct HC as [(-> & HR1)|(Hne & HR1 & _)].
    + destruct (IH (take (Z.to_nat k) F ++ [pgno p]) (k + 1) w1 m1 HR1) as (rc & iFr & w' & m' & F' & E & HS' & HR' & Ht & HOK); [lia|left; lia|done|done|].
      exists rc, iFr, w', m', F'. split; [exact E|]. split; [by eapply same_trans|]. split; [done|]. split; [by apply Htk|]. intros Hrc. destruct (HOK Hrc) as (-> & ->).
      split; [cbn [length]; lia|]. destruct pList as [|p2 pList]; [done|]. rewrite take_ge by lia. by rewrite <- app_assoc.
    + exists rc. destruct pList as [|p2 pList]; cbn [append_pages].
      * exists (k + 1), w1, m1, F. by split_and!.
      * destruct (Z.eqb_spec rc SQLITE_OK); [done|]. cbn [negb]. exists (k + 1), w1, m1, F. by split_and!.
Qed.

Lemma append_pages_app l1 l2 : ∀ k rc w m, append_pages xShmMap (l1 ++ l2) k rc w m = ('(rc, k, w, m) ← append_pages xShmMap l1 k rc w m; append_pages xShmMap l2 k rc w m).
Proof.
  induction l1 as [|p l1 IH]; intros k rc w m; [done|]. cbn [app append_pages]. destruct (Z.eqb_spec rc SQLITE_OK) as [->|Hne]; cbn [negb].
  - destruct (negb (walAppend p)); [apply IH|]. destruct (walIndexAppend xShmMap (k + 1) (pgno p) w m) as [[[rc1 w1] m1]|]; [|done]. cbn [mbind option_bind]. apply IH.
  - cbn [mbind option_bind]. destruct l2; cbn [append_pages]; [done|]. destruct (Z.eqb_spec rc SQLITE_OK); done.
Qed.

Lemma append_extra_pages (n : nat) p : walAppend p = true → ∀ k rc w m, append_extra xShmMap n (Some p) k rc w m = append_pages xShmMap (replicate n p) k rc w m.
Proof.
  intros Hp. induction n as [|n IH]; intros k rc w m; [done|]. cbn [append_extra replicate append_pages]. rewrite Hp. cbn [negb].
  destruct (negb (rc =? SQLITE_OK)); [done|]. cbn [mbind option_bind]. destruct (walIndexAppend xShmMap (k + 1) (pgno p) w m) as [[[rc1 w1] m1]|]; [|done]. apply IH.
Qed.

Lemma append_extra_pgno (n : nat) p q : pgno p = pgno q → ∀ k rc w m, append_extra xShmMap n (Some p) k rc w m = append_extra xShmMap n (Some q) k rc w m.
Proof.
  intros Hp. induction n as [|n IH]; intros k rc w m; [done|]. cbn [append_extra mbind option_bind]. destruct (negb (rc =? SQLITE_OK)); [done|].
  rewrite Hp. destruct (walIndexAppend _ _ _ _ _) as [[[? ?] ?]|]; [|done]. apply IH.
Qed.

(** The index has the frames [fr] up to [mxFrame], and perhaps others behind them. *)
Record indexed (fr : list frame) (w : Wal) : Prop := Indexed {
  ix_frames : ∃ F, represents w F ∧ take (length fr) F = pgnos fr;
  ix_mxFrame : mxFrame (hdr w) = zlen fr;
  ix_hdr : hdr_ok (hdr w) }.

Lemma indexed_len fr F : take (length fr) F = pgnos fr → (length fr ≤ length F)%nat.
Proof. intros E. apply (f_equal length) in E. unfold pgnos in E. rewrite length_take, length_map in E. lia. Qed.

(** The end of [walFrames]: [e] copies of the last frame. *)
Lemma finish_frames_made fr new pList p (e : nat) sz nT isCommit (c : Conn) m :
  indexed fr (wal c) → pList ≠ [] → Forall (λ p, pgno_ok (pgno p)) pList → last pList = Some p → 0 ≤ sz →
  pgnos new = map pgno (map (with_append true) pList ++ replicate e (with_append true p)) →
  ∃ rc (c' : Conn) m', finish_frames xShmMap (map (with_append true) pList) (Some p) (Z.of_nat e) sz nT isCommit SQLITE_OK c m = Some (rc, c', m') ∧
    pWalFd c' = pWalFd c ∧ szPage (wal c') = szPage (wal c) ∧ nCkpt (wal c') = nCkpt (wal c) ∧ iReCksum (wal c') = iReCksum (wal c) ∧
    aFrameCksum (hdr (wal c')) = aFrameCksum (hdr (wal c)) ∧ aSalt (hdr (wal c')) = aSalt (hdr (wal c)) ∧ bigEndCksum (hdr (wal c')) = bigEndCksum (hdr (wal c)) ∧
    (rc = SQLITE_OK → represents (wal c') (pgnos (fr ++ new)) ∧ mxFrame (hdr (wal c')) = zlen (fr ++ new) ∧ hdr_ok (hdr (wal c')) ∧
       (isCommit = true → nPage (hdr (wal c')) = nT ∧
          ∀ r, hdr_ok (hdr r) → index_page r 0 = index_page (wal c') 0 →
            ∃ r', walIndexTryHdr r = Some (false, negb (bool_decide (hdr r = hdr (wal c'))), r') ∧ hdr r' = hdr (wal c'))) ∧
    (rc ≠ SQLITE_OK → indexed fr (wal c')).
Proof.
  intros [(F & HR & HF) Hmx Hok] Hne Hpg Hlast Hsz Hnew. unfold finish_frames. pose proof (indexed_len _ _ HF) as Hlen.
  set (l1 := map (with_append true) pList) in *. set (l2 := replicate e (with_append true p)) in *. rewrite Nat2Z.id.
  assert (HE : ∀ k rc w m, append_extra xShmMap e (Some p) k rc w m = append_pages xShmMap l2 k rc w m).
  { intros k rc w m0. unfold l2. rewrite <- append_extra_pages by done. by apply append_extra_pgno. }
  assert (Hall : Forall (λ p, pgno_ok (pgno p)) (l1 ++ l2) ∧ Forall (λ p, walAppend p = true) (l1 ++ l2)).
  { assert (Hpp : pgno_ok (pgno p)) by (rewrite Forall_forall in Hpg; apply Hpg; apply last_Some in Hlast as (l & ->); set_solver).
    split; apply Forall_app; split.
    - apply Forall_map. eapply Forall_impl; [exact Hpg|]. by intros [].
    - by apply Forall_replicate.
    - apply Forall_map, Forall_true. done.
    - by apply Forall_replicate. }
  destruct Hall as (Hl1 & Hl2). rewrite Hmx.
  destruct (append_pages_made (l1 ++ l2) F (zlen fr) (wal c) m HR ltac:(lia) ltac:(right; by rewrite Hmx) Hl1 Hl2) as (rc & iFr & w' & m' & F' & E & HS & HR' & Ht & HOK).
  rewrite append_pages_app in E. destruct (append_pages xShmMap l1 (zlen fr) SQLITE_OK (wal c) m) as [[[[rc1 k1] w1] m1]|]; [|done]. cbn [mbind option_bind] in *.
  rewrite HE, E. cbn [mbind option_bind]. destruct HS as (Eh & _ & _ & _ & Er & En & Es & _ & _).
  destruct (Z.eqb_spec rc SQLITE_OK) as [->|Hrc].
  2: { exists rc, (with_wal w' c), m'. split; [done|]. cbn [wal pWalFd with_wal]. rewrite Eh. split_and!; try done. intros _. split; [|by rewrite Eh|by rewrite Eh].
       exists F'. split; [done|]. rewrite Nat2Z.id in Ht. congruence. }
  destruct (HOK eq_refl) as (-> & EF). assert (EF' : F' = pgnos (fr ++ new)).
  { rewrite EF. destruct (l1 ++ l2) as [|x l] eqn:El; [by destruct pList|]. rewrite Nat2Z.id, HF, <- Hnew. unfold pgnos. by rewrite map_app. }
  assert (Elen : zlen fr + zlen (l1 ++ l2) = zlen (fr ++ new)).
  { rewrite (length_app fr new). assert (length (l1 ++ l2) = length new); [|lia]. apply (f_equal length) in Hnew. unfold pgnos in Hnew. rewrite !length_map in Hnew. done. }
  rewrite Elen, EF' in *. set (w2 := with_hdr _ w'). assert (HR2 : represents w2 (pgnos (fr ++ new))) by (destruct HR'; by split).
  assert (Hok2 : hdr_ok (hdr w2)).
  { unfold w2. cbn [hdr with_hdr]. rewrite Eh. destruct Hok. split; try done. cbn. unfold u16. apply Z.mod_pos_bound. lia. }
  destruct isCommit.
  2: { exists SQLITE_OK, (with_wal w2 c), m'. split; [done|]. cbn [wal pWalFd with_wal hdr with_hdr w2 with_end aFrameCksum aSalt bigEndCksum]. rewrite Eh. split_and!; try done. intros _. split; [done|]. split; [done|]. split; [|done]. unfold w2 in Hok2. cbn [hdr with_hdr] in Hok2. by rewrite Eh in Hok2. }
  assert (Hpos : 0 < zlen (pgnos (fr ++ new))).
  { rewrite EF, Nat2Z.id, HF. destruct (l1 ++ l2) as [|x l] eqn:El; [by destruct pList|]. rewrite length_app, length_map. cbn [length]. lia. }
  destruct (rep_page _ _ HR2 0 ltac:(lia) Hpos) as (pg0 & Hp0 & Hpk). destruct (write_hdr_made w2 pg0 Hok2 Hp0 (rep_sized _ _ HR2 0 pg0 Hp0)) as (ck & l & Eck & El & ->).
  cbn [mbind option_bind]. set (w3 := set_page 0 _ _). eexists _, _, m'. split; [done|]. cbn [wal pWalFd]. unfold w3 at 1 2 3 4 5 6.
  cbn [hdr set_page with_index with_hdr stamped w2 with_end szPage nCkpt iReCksum aFrameCksum aSalt bigEndCksum]. rewrite Eh. split_and!; try done.
  pose proof (index_bounds _ _ _ Hp0) as Hb0. destruct (hdr_words_made _ (stamped_ok _ ck Hok2)) as (l' & El' & Hl12 & _). rewrite El in El'. injection El' as <-.
  intros _. split; [apply represents_copies; [destruct HR2; by split|done|done]|].
  split; [done|]. split; [exact (stamped_ok _ ck Hok2)|]. intros _. split; [done|]. intros r Hr Er2.
  destruct (try_hdr_made r (mkWipage (l ++ l ++ drop 24 (words pg0)) (slots pg0)) (stamped (hdr w2) ck) ck l (drop 24 (words pg0)) (stamped_ok _ ck Hok2) eq_refl eq_refl Eck El Hr) as (r' & E1 & E2 & _);
    [rewrite Er2; unfold w3; by rewrite index_set_page|done|]. exists r'. split; [exact E1|exact E2].
Qed.

(** ** All of it *)

Lemma indexed_cksums fr ck w : indexed fr w → indexed fr (with_cksums ck w).
Proof. intros [(F & [R1 R2 R3] & HF) Hmx [? ? ? ? ?]]. split; [exists F; split; [by split|done]|done|by split]. Qed.

Lemma indexed_step fr c c' : indexed fr (wal c) → conn_step c c' → indexed fr (wal c').
Proof. intros HI ((ck & ->) & _). by apply indexed_cksums. Qed.

Lemma write_log_header_made salts syncHeader sz flags c :
  sz ∈ [512; 1024; 2048; 4096; 8192; 16384; 32768; 65536] → 0 ≤ nCkpt (wal c) < 2 ^ 32 → length salts = 8%nat ∧ bytes salts →
  indexed [] (wal c) → iReCksum (wal c) = 0 →
  ∃ rc c', write_log_header salts syncHeader sz flags c = Some (rc, c') ∧ szPage (wal c') = sz ∧
    (rc = SQLITE_OK → indexed [] (wal c') ∧ ∃ salt s, logged 0 sz (nCkpt (wal c)) salt s [] c').
Proof.
  intros Hsz Hn (Hs & Hsb) [(F & HR & HF) Hmx Hok] Hrk. unfold write_log_header. set (salt := if nCkpt (wal c) =? 0 then salts else aSalt (hdr (wal c))).
  pose proof Hok as [Hi _ Hz Hl Hb]. assert (Hsalt : length salt = 8%nat ∧ bytes salt) by (unfold salt; by destruct (_ =? _)). destruct Hsalt as (Hsl & Hsb').
  change (sqlite3Put4byte (Z.lor WAL_MAGIC SQLITE_BIGENDIAN) ++ sqlite3Put4byte WAL_MAX_VERSION ++ sqlite3Put4byte sz ++ sqlite3Put4byte (nCkpt (wal c)) ++ salt)
    with (log_front 0 sz (nCkpt (wal c)) salt).
  assert (El : zlen (log_front 0 sz (nCkpt (wal c)) salt) = 24) by (unfold log_front; rewrite !length_app, Hsl; done).
  destruct (checksum_made true (log_front 0 sz (nCkpt (wal c)) salt) None) as (l & _ & Ec); [lia|exists 3; lia|]. rewrite Ec. cbn [mbind option_bind].
  set (s := fletcher _ _) in *. assert (Hu : u32_pair s) by (unfold s; by apply fletcher_u32).
  assert (HP : log_params 0 sz (nCkpt (wal c)) salt s) by (split; [by left|done|done|done|exact Ec]).
  change (log_front 0 sz (nCkpt (wal c)) salt ++ sqlite3Put4byte (fst s) ++ sqlite3Put4byte (snd s)) with (log_header 0 sz (nCkpt (wal c)) salt s).
  destruct (OsWrite (pWalFd c) _ 0) as [rc f] eqn:EW. destruct (write_starts (pWalFd c) [] (log_header 0 sz (nCkpt (wal c)) salt s) rc f) as (_ & HW); [by eexists|exact EW|].
  set (w' := with_szPage sz _). assert (HI : indexed [] w').
  { split; [exists F; split; [destruct HR; by split|done]|done|]. split; [done|cbn; unfold SQLITE_BIGENDIAN; lia|done|done|done]. }
  assert (HLg : ∀ f', starts f' (log_header 0 sz (nCkpt (wal c)) salt s) → logged 0 sz (nCkpt (wal c)) salt s [] (mkConn w' f' (shm c) true (iCallback c))).
  { intros f' Hst. split; try done. unfold log_bytes. cbn [frames_bytes pWalFd]. by rewrite app_nil_r. }
  destruct (Z.eqb_spec rc SQLITE_OK) as [->|Hrc]; cbn [negb]; [|eexists _, _; split; [done|]; by split]. specialize (HW eq_refl). cbn [app] in HW.
  destruct syncHeader.
  - destruct (OsSync f _) as [rc2 f2] eqn:ES. pose proof (sync_starts _ _ _ _ _ HW ES) as H2. eexists _, _. split; [done|]. split; [done|]. intros _. split; [done|]. exists salt, s. by apply HLg.
  - eexists _, _. split; [done|]. split; [done|]. intros _. split; [done|]. exists salt, s. by apply HLg.
Qed.

Lemma limit_starts n f p : starts f p → zlen p ≤ n → starts (walLimitSize n f) p.
Proof.
  intros Hs Hn. unfold walLimitSize. destruct (OsFileSize f) as [rx sz] eqn:E. destruct (Z.eqb_spec rx SQLITE_OK) as [->|]; [|done]. cbn [andb].
  destruct (Z.ltb_spec n sz) as [Hlt|]; [|done]. apply size_ok in E. subst sz. destruct (OsTruncate f n) as [rc f'] eqn:ET. cbn [snd].
  assert (Hz : 0 ≤ n) by lia. pose proof (truncate_any _ _ _ _ Hz ET) as Ht. destruct (starts_take _ _ Hs) as (Hp & _). apply take_starts.
  apply (f_equal (take (length p))) in Ht. rewrite !take_take in Ht. rewrite Nat.min_l in Ht by lia. congruence.
Qed.

Lemma page_frames_pgnos nT isCommit pList : pgnos (page_frames nT isCommit pList) = map pgno pList.
Proof. induction pList as [|p pList IH]; [done|]. cbn [page_frames map]. unfold pgnos in *. cbn [map fst]. by rewrite IH. Qed.
Lemma page_frames_length nT isCommit pList : length (page_frames nT isCommit pList) = length pList.
Proof. induction pList as [|p pList IH]; [done|]. cbn [page_frames length]. by rewrite IH. Qed.

Lemma map_append_pgno pList : map pgno (map (with_append true) pList) = map pgno pList.
Proof. induction pList as [|p pList IH]; [done|]. cbn [map]. by rewrite IH. Qed.

(** The padding and the sync. *)
Lemma pad_and_sync_made big sz nckpt salt s pad nT flags p fr c :
  0 ≤ nT < 2 ^ 32 → page_ok sz p → logged big sz nckpt salt s fr c →
  ∃ err rc (e : nat) c', pad_and_sync pad sz nT flags (walFrameOffset (zlen fr + 1) sz) (Some p) c = Some (err, rc, Z.of_nat e, c') ∧ conn_step c c' ∧
    starts (pWalFd c') (log_bytes big sz nckpt salt s fr) ∧ (err = true → rc ≠ SQLITE_OK) ∧
    (err = false → logged big sz nckpt salt s (fr ++ replicate e (pgno p, nT, pData p)) c').
Proof.
  intros HnT Hp HL. unfold pad_and_sync.
  assert (HS : ∀ (e0 : nat) c1, conn_step c c1 → logged big sz nckpt salt s (fr ++ replicate e0 (pgno p, nT, pData p)) c1 →
    ∃ err rc (e : nat) c', (let '(rc, f) := OsSync (pWalFd c1) (WAL_SYNC_FLAGS flags) in Some (false, rc, Z.of_nat e0, with_fd f c1)) = Some (err, rc, Z.of_nat e, c') ∧ conn_step c c' ∧
      starts (pWalFd c') (log_bytes big sz nckpt salt s fr) ∧ (err = true → rc ≠ SQLITE_OK) ∧ (err = false → logged big sz nckpt salt s (fr ++ replicate e (pgno p, nT, pData p)) c')).
  { intros e c1 Hst HL1. destruct (OsSync (pWalFd c1) _) as [rc f] eqn:ES. pose proof (sync_starts _ _ _ _ _ (lg_starts _ _ _ _ _ _ _ HL1) ES) as H1.
    exists false, rc, e, (with_fd f c1). split; [done|]. split; [exact Hst|]. split; [by eapply starts_prefix; [exact (lg_chain _ _ _ _ _ _ _ HL)|]|]. split; [done|].
    intros _. destruct HL1. by split. }
  destruct pad; cbn [mbind option_bind orb negb]; [|apply (HS 0%nat c); [apply step_refl|cbn [replicate]; by rewrite app_nil_r]].
  set (iSync := _ / _ * _). destruct (pad_loop_made big sz nckpt salt s iSync flags nT p (Z.to_nat (iSync - walFrameOffset (zlen fr + 1) sz)) HnT Hp fr 0 c HL)
    as (rc & e & c1 & E & Hst & Hpre & HOK); [lia|lia|]. rewrite E. cbn [mbind option_bind]. rewrite Z.add_0_l.
  destruct (Z.eqb_spec rc SQLITE_OK) as [->|Hrc]; cbn [negb orb].
  - specialize (HOK eq_refl). destruct (iSync =? _); cbn [negb]; [by apply HS|]. exists false, SQLITE_OK, e, c1. by split_and!.
  - exists true, rc, e, c1. by split_and!.
Qed.

(** The file and the index after the transaction, [fr] before it and [new] in it. *)
Definition committed_to (fr new : list frame) (nT : Z) (isCommit : bool) (big sz nckpt : Z) (salt : list Z) (s : Z * Z) (c' : Conn) : Prop :=
  logged big sz nckpt salt s (fr ++ new) c' ∧ represents (wal c') (pgnos (fr ++ new)) ∧ mxFrame (hdr (wal c')) = zlen (fr ++ new) ∧ hdr_ok (hdr (wal c')) ∧
  (isCommit = true → nPage (hdr (wal c')) = nT ∧
     ∀ r, hdr_ok (hdr r) → index_page r 0 = index_page (wal c') 0 →
       ∃ r', walIndexTryHdr r = Some (false, negb (bool_decide (hdr r = hdr (wal c'))), r') ∧ hdr r' = hdr (wal c')).

Lemma finish_failed l pL e sz nT isCommit rc (c : Conn) m : rc ≠ SQLITE_OK → finish_frames xShmMap l pL e sz nT isCommit rc c m = Some (rc, with_wal (wal c) c, m).
Proof.
  intros Hrc. unfold finish_frames. assert (HA : ∀ l k w m, append_pages xShmMap l k rc w m = Some (rc, k, w, m)).
  { intros [|x l'] k w m0; [done|]. cbn [append_pages]. by destruct (Z.eqb_spec rc SQLITE_OK). }
  rewrite HA. cbn [mbind option_bind]. assert (HE : ∀ n k w m, append_extra xShmMap n pL k rc w m = Some (rc, k, w, m)).
  { intros [|n] k w m0; [done|]. cbn [append_extra]. by destruct (Z.eqb_spec rc SQLITE_OK). }
  rewrite HE. cbn [mbind option_bind]. by destruct (Z.eqb_spec rc SQLITE_OK).
Qed.

(** The rest of [walFrames], after the pages are in the file. *)
Lemma walFrames_end fr pList p (e : nat) big sz nckpt salt s nT isCommit (c : Conn) m mxWalSize rc iFr :
  indexed fr (wal c) → pList ≠ [] → Forall (page_ok sz) pList → last pList = Some p → chain big s fr ≠ None →
  let new := page_frames nT isCommit pList ++ replicate e (pgno p, nT, pData p) in
  logged big sz nckpt salt s (fr ++ new) c → iFr = zlen fr + zlen pList →
  let c2 := if isCommit && truncateOnCommit c && (0 <=? mxWalSize) then
      let end_ := walFrameOffset (iFr + Z.of_nat e + 1) sz in
      with_truncate false (with_fd (walLimitSize (if mxWalSize <? end_ then end_ else mxWalSize) (pWalFd c)) c) else c in
  ∃ rc' c' m', finish_frames xShmMap (map (with_append true) pList) (Some p) (Z.of_nat e) sz nT isCommit rc c2 m = Some (rc', c', m') ∧
    (rc' = SQLITE_OK → committed_to fr new nT isCommit big sz nckpt salt s c') ∧
    (rc' ≠ SQLITE_OK → starts (pWalFd c') (log_bytes big sz nckpt salt s fr) ∧ indexed fr (wal c')).
Proof.
  intros HI Hne Hok Hlast Hc new HL -> c2. destruct (params_sz _ _ _ _ _ (lg_params _ _ _ _ _ _ _ HL)) as (Hsz & _).
  assert (Ew : wal c2 = wal c) by (unfold c2; destruct (_ && _); done).
  assert (Hst : starts (pWalFd c2) (log_bytes big sz nckpt salt s (fr ++ new))).
  { pose proof (lg_starts _ _ _ _ _ _ _ HL) as Hs. unfold c2. destruct (_ && _); [|done]. cbn [pWalFd with_truncate with_fd]. apply limit_starts; [done|].
    rewrite (log_bytes_length _ _ _ _ _ _ _ (lg_params _ _ _ _ _ _ _ HL) (lg_frames _ _ _ _ _ _ _ HL) (lg_chain _ _ _ _ _ _ _ HL)).
    replace (zlen (fr ++ new) + 1) with (zlen fr + zlen pList + Z.of_nat e + 1) by (unfold new; rewrite !length_app, page_frames_length, length_replicate; lia).
    cbv zeta. case_match; lia. }
  assert (Hpre : starts (pWalFd c2) (log_bytes big sz nckpt salt s fr)) by (destruct (chain big s fr) eqn:Ec; [by eapply starts_prefix|done]).
  destruct (Z.eq_dec rc SQLITE_OK) as [->|Hrc]; [|rewrite finish_failed by done; eexists _, _, _; split; [done|]; split; [done|]; cbn [wal with_wal pWalFd]; by rewrite Ew].
  rewrite <- Ew in HI. assert (Hpg : Forall (λ p, pgno_ok (pgno p)) pList) by (eapply Forall_impl; [exact Hok|]; by intros q (? & _)).
  destruct (finish_frames_made fr new pList p e sz nT isCommit c2 m HI Hne Hpg Hlast ltac:(lia)) as (rc' & c' & m' & E & Ef & Es & En & Er & Ec & Esalt & Eb & HOK & HERR).
  { unfold new, pgnos. rewrite !map_app, map_append_pgno. f_equal; [apply page_frames_pgnos|]. clear. induction e as [|e IH]; [done|]. cbn [replicate map]. by rewrite IH. }
  exists rc', c', m'. split; [exact E|]. split.
  - intros Hrc. destruct (HOK Hrc) as (H1 & H2 & H3 & H4). split; [|done]. destruct HL as [L1 L2 _ L4 L5 L6 L7 L8 L9]. rewrite Ew in *. split; try congruence.
  - intros Hrc. split; [by rewrite Ef|by apply HERR].
Qed.

(** The pages and what follows, when the log has the frames [fr]. *)
Definition frames_tail (pad : bool) (mxWalSize sz nT : Z) (isCommit : bool) (flags : Z) (pList : list PgHdr) (fr : list frame) (c : Conn) (m : mem) : option (Z * Conn * mem) :=
  '(rc, iFrame, iOffset, pLast, c, m, pList) ← write_pages xShmMap pList sz nT isCommit flags 0 (zlen fr) (walFrameOffset (zlen fr + 1) sz) None c m;
  if negb (rc =? SQLITE_OK) then Some (rc, c, m)
  else
    '(rc, c, m) ← (if isCommit && negb (iReCksum (wal c) =? 0) then walRewriteChecksums iFrame c m else Some (SQLITE_OK, c, m));
    if negb (rc =? SQLITE_OK) then Some (rc, c, m)
    else
      '(err, rc, nExtra, c) ← (if isCommit && negb (WAL_SYNC_FLAGS flags =? 0) then pad_and_sync pad sz nT flags iOffset pLast c else Some (false, SQLITE_OK, 0, c));
      if (err : bool) then Some (rc, c, m)
      else
        let c := if isCommit && truncateOnCommit c && (0 <=? mxWalSize) then
            let end_ := walFrameOffset (iFrame + nExtra + 1) sz in
            with_truncate false (with_fd (walLimitSize (if mxWalSize <? end_ then end_ else mxWalSize) (pWalFd c)) c)
          else c in
        finish_frames xShmMap pList pLast nExtra sz nT isCommit rc c m.

Lemma frames_tail_made big sz nckpt salt s fr pList pad mxWalSize nT isCommit flags c m :
  logged big sz nckpt salt s fr c → indexed fr (wal c) → pList ≠ [] → Forall (page_ok sz) pList → 0 ≤ nT < 2 ^ 32 →
  ∃ rc c' m', frames_tail pad mxWalSize sz nT isCommit flags pList fr c m = Some (rc, c', m') ∧
    (rc = SQLITE_OK → ∃ p (e : nat), last pList = Some p ∧
       committed_to fr (page_frames nT isCommit pList ++ replicate e (pgno p, nT, pData p)) nT isCommit big sz nckpt salt s c') ∧
    (rc ≠ SQLITE_OK → starts (pWalFd c') (log_bytes big sz nckpt salt s fr) ∧ indexed fr (wal c')).
Proof.
  intros HL HI Hne Hok HnT. unfold frames_tail. assert (Hc : chain big s fr ≠ None) by (by rewrite (lg_chain _ _ _ _ _ _ _ HL)).
  destruct (write_pages_made big sz nckpt salt s nT isCommit flags pList HnT Hok fr None c m HL) as (rc & iFr & iOff & pL & c1 & l & -> & Hst & Hpre & HOK).
  cbn [mbind option_bind]. pose proof (indexed_step _ _ _ HI Hst) as HI1.
  destruct (Z.eqb_spec rc SQLITE_OK) as [->|Hrc]; cbn [negb]; [|by exists rc, c1, m]. destruct (HOK eq_refl) as (HL1 & EF & -> & -> & EpL). clear HOK.
  destruct (last pList) as [p|] eqn:Elast; [|by apply last_None in Elast]. subst pL. rewrite (lg_recksum _ _ _ _ _ _ _ HL1). change (negb (0 =? 0)) with false.
  rewrite andb_false_r. cbn [mbind option_bind]. change (negb (SQLITE_OK =? SQLITE_OK)) with false. cbv iota.
  assert (Hp : page_ok sz p) by (rewrite Forall_forall in Hok; apply Hok; apply last_Some in Elast as (l & ->); set_solver).
  assert (Elen : zlen (fr ++ page_frames nT isCommit pList) = iFr) by (rewrite length_app, page_frames_length; lia).
  assert (Hfin : ∀ (e : nat) rc c2, indexed fr (wal c2) → logged big sz nckpt salt s ((fr ++ page_frames nT isCommit pList) ++ replicate e (pgno p, nT, pData p)) c2 →
    ∃ rc' c' m', finish_frames xShmMap (map (with_append true) pList) (Some p) (Z.of_nat e) sz nT isCommit rc (if isCommit && truncateOnCommit c2 && (0 <=? mxWalSize) then
      with_truncate false (with_fd (walLimitSize (if mxWalSize <? walFrameOffset (iFr + Z.of_nat e + 1) sz then walFrameOffset (iFr + Z.of_nat e + 1) sz else mxWalSize) (pWalFd c2)) c2) else c2) m
      = Some (rc', c', m') ∧
      (rc' = SQLITE_OK → ∃ p' (e : nat), Some p = Some p' ∧ committed_to fr (page_frames nT isCommit pList ++ replicate e (pgno p', nT, pData p')) nT isCommit big sz nckpt salt s c') ∧
      (rc' ≠ SQLITE_OK → starts (pWalFd c') (log_bytes big sz nckpt salt s fr) ∧ indexed fr (wal c'))).
  { intros e rc c2 HI2 HL2. rewrite <- app_assoc in HL2.
    destruct (walFrames_end fr pList p e big sz nckpt salt s nT isCommit c2 m mxWalSize rc iFr HI2 Hne Hok Elast Hc HL2 EF) as (rc' & c' & m' & E & H1 & H2).
    exists rc', c', m'. split; [exact E|]. split; [|done]. intros Hr. exists p, e. split; [done|]. by apply H1. }
  destruct (isCommit && negb (WAL_SYNC_FLAGS flags =? 0)).
  - pose proof (pad_and_sync_made big sz nckpt salt s pad nT flags p _ c1 HnT Hp HL1) as HP. rewrite Elen in HP. destruct HP as (err & rc & e & c2 & -> & Hst2 & Hpre2 & Herr & HL2).
    cbn [mbind option_bind]. pose proof (indexed_step _ _ _ HI1 Hst2) as HI2. destruct err.
    + exists rc, c2, m. split; [done|]. split; [intros ->; by destruct (Herr eq_refl)|]. intros _. split; [|done]. by eapply starts_prefix; [exact (lg_chain _ _ _ _ _ _ _ HL)|].
    + apply Hfin; [done|by apply HL2].
  - cbn [mbind option_bind]. apply (Hfin 0%nat); [done|]. cbn [replicate]. by rewrite app_nil_r.
Qed.

Lemma same_hdr_live w : same_hdr w = Some true → ∃ live, get_words 0 w = Some live ∧ live.[4] = Some (mxFrame (hdr w)).
Proof.
  unfold same_hdr. destruct (hdr_words (hdr w)) as [l|] eqn:El; [|done]. cbn [mbind option_bind]. destruct (get_words 0 w) as [live|]; [|done]. cbn [mbind option_bind].
  intros [= Hb]. apply bool_decide_eq_true in Hb as ->. exists live. split; [done|]. unfold hdr_words, hdr_front in El.
  destruct (words_of (aSalt (hdr w))) as [sw|]; [|done]. cbn [mbind option_bind] in El. by injection El as <-.
Qed.

(** What the connection has to be like when the log is empty. *)
Definition may_begin (salts : list Z) (sz : Z) (c : Conn) : Prop :=
  sz ∈ [512; 1024; 2048; 4096; 8192; 16384; 32768; 65536] ∧ 0 ≤ nCkpt (wal c) < 2 ^ 32 ∧ (length salts = 8%nat ∧ bytes salts) ∧ iReCksum (wal c) = 0.

Lemma walFrames_made salt1 salts syncHeader pad mxWalSize big sz nckpt salt s fr pList nT isCommit flags c c0 m :
  same_hdr (wal c) = Some true → walRestartLog salt1 c = Some (SQLITE_OK, c0) → indexed fr (wal c0) →
  match fr with [] => may_begin salts sz c0 | _ => logged big sz nckpt salt s fr c0 end →
  pList ≠ [] → Forall (page_ok sz) pList → 0 ≤ nT < 2 ^ 32 →
  ∃ rc c' m', walFrames xShmMap salt1 salts syncHeader pad mxWalSize sz pList nT isCommit flags c m = Some (rc, c', m') ∧
    (rc = SQLITE_OK → ∃ p (e : nat) big' nckpt' salt' s', last pList = Some p ∧ (fr ≠ [] → (big', nckpt', salt', s') = (big, nckpt, salt, s)) ∧
       committed_to fr (page_frames nT isCommit pList ++ replicate e (pgno p, nT, pData p)) nT isCommit big' sz nckpt' salt' s' c') ∧
    (rc ≠ SQLITE_OK → fr ≠ [] → starts (pWalFd c') (log_bytes big sz nckpt salt s fr) ∧ indexed fr (wal c')).
Proof.
  intros Hsame Hre HI Hbeg Hne Hok HnT. destruct (same_hdr_live _ Hsame) as (live & El & E4). unfold walFrames. rewrite Hsame, El. cbn [mbind option_bind]. rewrite E4.
  cbn [mbind option_bind]. rewrite Hre. cbn [mbind option_bind]. change (negb (SQLITE_OK =? SQLITE_OK)) with false. cbv iota. rewrite (ix_mxFrame _ _ HI).
  destruct fr as [|f0 fr].
  - change (zlen (@nil frame) =? 0) with true. cbv iota. destruct Hbeg as (Hsz & Hnk & Hsl & Hrk).
    destruct (write_log_header_made salts syncHeader sz flags c0 Hsz Hnk Hsl HI Hrk) as (rc & c1 & -> & Esz & HOK). cbn [mbind option_bind].
    destruct (Z.eqb_spec rc SQLITE_OK) as [->|Hrc]; cbn [negb]; [|by exists rc, c1, m]. destruct (HOK eq_refl) as (HI1 & salt' & s' & HL1).
    rewrite Esz, Z.eqb_refl. cbn [negb]. destruct (frames_tail_made _ _ _ _ _ _ pList pad mxWalSize nT isCommit flags c1 m HL1 HI1 Hne Hok HnT) as (rc & c' & m' & E & H1 & _).
    exists rc, c', m'. split; [exact E|]. split; [|done]. intros Hr. destruct (H1 Hr) as (p & e & Hl & HC). by exists p, e, 0, (nCkpt (wal c0)), salt', s'.
  - destruct (Z.eqb_spec (zlen (f0 :: fr)) 0) as [E0|_]; [cbn [length] in E0; lia|]. cbn [mbind option_bind]. change (negb (SQLITE_OK =? SQLITE_OK)) with false. cbv iota.
    rewrite (lg_szPage _ _ _ _ _ _ _ Hbeg), Z.eqb_refl. cbn [negb].
    destruct (frames_tail_made _ _ _ _ _ _ pList pad mxWalSize nT isCommit flags c0 m Hbeg HI Hne Hok HnT) as (rc & c' & m' & E & H1 & H2).
    exists rc, c', m'. split; [exact E|]. split; [|intros Hr _; by apply H2]. intros Hr. destruct (H1 Hr) as (p & e & Hl & HC). by exists p, e, big, nckpt, salt, s.
Qed.

(** ** The file that was written is recovered *)

(** Everything in the file is read back. *)
Definition readable (f : file) : Prop :=
  OsFileSize f = (SQLITE_OK, zlen (content f)) ∧
  ∀ n off, 0 ≤ n → 0 ≤ off → off + n ≤ zlen (content f) → OsRead f n off = (SQLITE_OK, take (Z.to_nat n) (drop (Z.to_nat off) (content f))).

(** The bytes behind the frames are no valid frame. *)
Definition no_frame (big sz : Z) (salt : list Z) (s' : Z * Z) (junk : list Z) : Prop :=
  sz + WAL_FRAME_HDRSIZE ≤ zlen junk → let b := take (Z.to_nat (sz + WAL_FRAME_HDRSIZE)) junk in
  ∀ w, reads_as big salt s' w → ∃ ck, walDecodeFrame (drop 24 b) (take 24 b) w = Some (None, with_cksums ck w).

Lemma read_middle f a b c : readable f → content f = a ++ b ++ c → OsRead f (zlen b) (zlen a) = (SQLITE_OK, b).
Proof.
  intros (_ & HR) E. rewrite HR by (rewrite ?E, ?length_app; lia). f_equal. rewrite E, !Nat2Z.id, drop_app_length. by rewrite take_app_length.
Qed.

Lemma logged_log_file big sz nckpt salt s fr (c : Conn) junk :
  logged big sz nckpt salt s fr c → fr ≠ [] → readable (pWalFd c) → content (pWalFd c) = log_bytes big sz nckpt salt s fr ++ junk →
  no_frame big sz salt (aFrameCksum (hdr (wal c))) junk → log_file (OsFileSize (pWalFd c)) (OsRead (pWalFd c)) big sz nckpt salt s fr.
Proof.
  intros HL Hne Hrd E Hj. pose proof HL as [HP Hfr _ Hch _ _ _ _ _]. destruct (params_sz _ _ _ _ _ HP) as (Hsz & _). pose proof HP as [P1 P2 P3 (P4 & P4') P5].
  pose proof (log_header_length big sz nckpt salt s P4) as Hh. pose proof (proj1 Hrd) as Hsize.
  assert (Hd : Forall (λ f : frame, zlen (snd f) = sz) fr) by (eapply Forall_impl; [exact Hfr|]; by intros f (_ & _ & ?)).
  pose proof (frames_bytes_length salt big sz fr P4 Hd s _ Hch) as Hb.
  assert (Hlen : zlen (content (pWalFd c)) = 32 + zlen fr * (sz + 24) + zlen junk) by (rewrite E; unfold log_bytes; rewrite !length_app; lia).
  assert (Hpos : 1 ≤ zlen fr) by (destruct fr; [done|cbn [length]; lia]). unfold WAL_FRAME_HDRSIZE in *.
  rewrite Hsize. split; try done; cbn [fst snd]; unfold WAL_HDRSIZE, WAL_FRAME_HDRSIZE in *.
  - split; [done|]. nia.
  - rewrite <- Hh at 1. apply (read_middle _ [] _ (frames_bytes salt big s fr ++ junk)); [done|]. rewrite E. unfold log_bytes. by rewrite <- app_assoc.
  - intros k pg nt d s' Hk Hck. pose proof (take_drop_middle _ _ _ Hk) as Efr. rewrite (take_S_r _ _ _ Hk), chain_app in Hck.
    destruct (chain big s (take k fr)) as [s1|] eqn:E1; [|done]. cbn [mbind option_bind chain] in Hck. destruct (frame_cksum big s1 pg nt d) as [s2|] eqn:E2; [|done].
    injection Hck as ->. pose proof (lookup_lt_Some _ _ _ Hk) as Hlt. pose proof (proj1 (Forall_lookup _ _) Hd _ _ Hk) as Hdl. cbn [snd] in Hdl.
    assert (Hb1 : zlen (frames_bytes salt big s (take k fr)) = Z.of_nat k * (sz + 24)).
    { rewrite (frames_bytes_length salt big sz (take k fr) P4 (Forall_take _ _ _ Hd) s _ E1), length_take. lia. }
    assert (EB : content (pWalFd c) = (log_header big sz nckpt salt s ++ frames_bytes salt big s (take k fr)) ++ (frame_header salt s' pg nt ++ d) ++ frames_bytes salt big s' (drop (S k) fr) ++ junk).
    { rewrite E. unfold log_bytes. rewrite <- Efr at 1. rewrite (frames_bytes_app _ _ _ _ s1 _ E1). cbn [frames_bytes]. rewrite E2. by rewrite <- !app_assoc. }
    pose proof (header_length salt s' pg nt P4) as Hhl. rewrite <- (read_middle _ _ _ _ Hrd EB). f_equal.
    + rewrite length_app. lia.
    + rewrite length_app. unfold walFrameOffset, WAL_HDRSIZE, WAL_FRAME_HDRSIZE. lia.
  - apply Z.div_le_lower_bound; [lia|]. nia.
  - intros Hlt. assert (Hjl : sz + 24 ≤ zlen junk).
    { destruct (Z.lt_ge_cases (zlen junk) (sz + 24)) as [Hs|]; [|done]. exfalso.
      assert ((zlen (content (pWalFd c)) - 32) / (sz + 24) < zlen fr + 1) by (apply Z.div_lt_upper_bound; [lia|nia]). lia. }
    specialize (Hj Hjl). eexists _, _. split; [exact Hch|]. split; [|exact Hj].
    set (b := take (Z.to_nat (sz + 24)) junk). assert (Eb : zlen b = sz + 24) by (unfold b; rewrite length_take; lia).
    rewrite <- Eb at 1. replace (walFrameOffset (zlen fr + 1) sz) with (zlen (log_bytes big sz nckpt salt s fr)) by (unfold log_bytes, walFrameOffset, WAL_HDRSIZE, WAL_FRAME_HDRSIZE; rewrite length_app; lia).
    apply (read_middle _ _ _ (drop (Z.to_nat (sz + 24)) junk)); [done|]. unfold b. by rewrite take_drop.
Qed.

Lemma committed_last big s l pg nt d mx np ck : committed big s (l ++ [(pg, nt, d)]) mx np ck → nt ≠ 0 → mx = zlen (l ++ [(pg, nt, d)]) ∧ np = nt ∧ chain big s (l ++ [(pg, nt, d)]) = Some ck.
Proof.
  intros (a & b & E & Hb & -> & H) Hnt. destruct b as [|x b] using rev_ind.
  - rewrite app_nil_r in E. subst a. split; [done|]. destruct H as [(H & _)|(a' & pg' & d' & H & _ & Hc)]; [by destruct l|]. apply app_inj_tail in H as (_ & [= -> <- ->]). done.
  - rewrite app_assoc in E. apply app_inj_tail in E as (_ & <-). apply Forall_app in Hb as (_ & Hb). apply Forall_cons in Hb as (Hb & _). done.
Qed.

Lemma page_frames_last nT pList p (e : nat) : last pList = Some p →
  ∃ l, page_frames nT true pList ++ replicate e (pgno p, nT, pData p) = l ++ [(pgno p, nT, pData p)].
Proof.
  intros Hl. destruct e as [|e].
  - cbn [replicate]. rewrite app_nil_r. revert Hl. induction pList as [|q pList IH]; [done|]. destruct pList as [|q2 pList].
    + intros [= ->]. by exists [].
    + intros Hl. destruct (IH Hl) as (l & E). exists ((pgno q, 0, pData q) :: l). change (page_frames nT true (q :: q2 :: pList)) with ((pgno q, 0, pData q) :: page_frames nT true (q2 :: pList)). by rewrite E.
  - exists (page_frames nT true pList ++ replicate e (pgno p, nT, pData p)). rewrite <- app_assoc. f_equal. rewrite <- replicate_cons_app. done.
Qed.
End write.

(** ** A file in memory *)

Definition mem_file : Type := list Z.
#[local] Instance mem_file_ops : FileOps mem_file := {
  OsRead f n off := (SQLITE_OK, take (Z.to_nat n) (drop (Z.to_nat off) f));
  OsWrite f d off := (SQLITE_OK, take (Z.to_nat off) f ++ replicate (Z.to_nat off - length f) 0 ++ d ++ drop (Z.to_nat (off + zlen d)) f);
  OsSync f flags := (SQLITE_OK, f);
  OsTruncate f n := (SQLITE_OK, take (Z.to_nat n) f);
  OsFileSize f := (SQLITE_OK, zlen f);
  OsSectorSize f := 512;
  OsFileControl f op arg := f }.
#[local] Instance no_locks : ShmLocks unit := { ShmLock l lockIdx n excl := (SQLITE_OK, l); ShmUnlock l lockIdx n excl := l }.

Lemma mem_around (f d : list Z) off i : 0 ≤ off → 0 ≤ i → i < off ∨ off + zlen d ≤ i →
  byte_at (take (Z.to_nat off) f ++ replicate (Z.to_nat off - length f) 0 ++ d ++ drop (Z.to_nat (off + zlen d)) f) i = byte_at f i.
Proof.
  intros Hoff Hi0 Hi. unfold byte_at, rd. destruct (Z.ltb_spec i 0); [lia|]. destruct (decide (Z.to_nat i < length f)%nat) as [Hlt|Hge].
  - destruct Hi as [Hi|Hi].
    + rewrite lookup_app_l by (rewrite length_take; lia). by rewrite lookup_take_lt by lia.
    + rewrite lookup_app_r by (rewrite length_take; lia). rewrite length_take, Nat.min_l by lia.
      rewrite lookup_app_r by (rewrite length_replicate; lia). rewrite length_replicate. rewrite lookup_app_r by lia. rewrite lookup_drop. do 2 f_equal. lia.
  - rewrite (lookup_ge_None_2 f) by lia. rewrite app_assoc. destruct (decide (Z.to_nat i < Z.to_nat off)%nat) as [Hlt2|].
    + rewrite lookup_app_l by (rewrite length_app, length_take, length_replicate; lia). rewrite lookup_app_r by (rewrite length_take; lia).
      rewrite lookup_replicate_2; [done|]. rewrite length_take. lia.
    + rewrite lookup_ge_None_2; [done|]. rewrite !length_app, length_take, length_replicate, length_drop. lia.
Qed.

#[local] Program Instance mem_file_laws : FileLaws mem_file := { content f := f }.
Next Obligation. by intros f d off f' Hoff [= <-]. Qed.
Next Obligation. intros f d off rc f' Hoff [= <- <-]. rewrite take_app_le by (rewrite length_take; lia). by rewrite take_take, Nat.min_id. Qed.
Next Obligation. intros f d off rc f' i Hoff [= <- <-] H0 Hi. by apply mem_around. Qed.
Next Obligation. by intros f n off d _ _ _ [= <-]. Qed.
Next Obligation. by intros f flags rc f' [= <- <-]. Qed.
Next Obligation. by intros f n [= <-]. Qed.
Next Obligation. intros f n rc f' Hn [= <- <-]. by rewrite take_take, Nat.min_id. Qed.
Next Obligation. intros f op arg. exists 0%nat. by rewrite app_nil_r. Qed.

(** An empty file, and a connection to it with an empty index. *)
Definition empty_conn : Conn (file := mem_file) (locks := unit) := mkConn (with_hdr zero_hdr (with_index [Some zero_page] new_wal)) [] tt false 0.
Definition one_page : list PgHdr := [mkPgHdr 7 (replicate 512 65) false].

Lemma empty_index : represents (with_index [Some zero_page] new_wal) [].
Proof.
  split; [|intros h Hh Hb; destruct (before_next h Hh) as (_ & ? & _); cbn [length] in Hb; lia|constructor].
  intros h p Hp. pose proof (index_bounds _ _ _ Hp) as Hb. cbn in Hb. assert (h = 0) as -> by lia. injection Hp as <-. apply zero_sized.
Qed.

Lemma empty_indexed : indexed [] (wal empty_conn).
Proof.
  split; [exists []; split; [destruct empty_index; by split|done]|done|]. split; [cbn; lia|cbn; lia|cbn; lia|done|repeat constructor; lia].
Qed.

Lemma empty_begins : may_begin small_salt 512 empty_conn.
Proof. split; [set_solver|]. split; [cbn; lia|]. split; [split; [done|repeat constructor; lia]|done]. Qed.

Lemma one_page_ok : Forall (page_ok 512) one_page.
Proof. repeat constructor; lia. Qed.
