(* ===== verification/WalCheckpoint.v ===== *)
(** Checkpoints of the write-ahead log, src/wal.c: the content of the log is copied back to the database file as far as the readers allow it,
    and the log is started again.  Proofs are in WalCheckpointProofs.v. *)
From S2P Require Import Prelude Varint Wal WalFrame WalIter WalWrite.

Definition SQLITE_INTERRUPT : Z := 9.
Definition SQLITE_CHECKPOINT_PASSIVE : Z := 0.
Definition SQLITE_CHECKPOINT_RESTART : Z := 2.
Definition SQLITE_CHECKPOINT_TRUNCATE : Z := 3.
Definition SQLITE_FCNTL_SIZE_HINT : Z := 5.
Definition SQLITE_FCNTL_CKPT_DONE : Z := 37.
Definition SQLITE_FCNTL_CKPT_START : Z := 39.

Definition walPagesize (w : Wal) : Z := Z.land (hdr_szPage (hdr w)) 0xfe00 + Z.shiftl (Z.land (hdr_szPage (hdr w)) 1) 16.

Section checkpoint.
Context {file locks : Type} `{!FileOps file, !ShmLocks locks}.
Context (xShmMap : Z → bool → Z * option wipage).
Abbreviation Conn := (Conn (file := file) (locks := locks)).

(** A busy handler is given by its answers; after these it gives up. *)
Fixpoint busy_loop (answers : list bool) (lockIdx n : Z) (c : Conn) : Z * list bool * Conn :=
  let '(rc, c) := walLockExclusive lockIdx n c in
  if rc =? SQLITE_BUSY then
    match answers with
    | true :: answers => busy_loop answers lockIdx n c
    | false :: answers => (rc, answers, c)
    | [] => (rc, [], c)
    end
  else (rc, answers, c).
Definition walBusyLock (xBusy : option (list bool)) (lockIdx n : Z) (c : Conn) : Z * option (list bool) * Conn :=
  match xBusy with
  | Some answers => let '(rc, answers, c) := busy_loop answers lockIdx n c in (rc, Some answers, c)
  | None => let '(rc, c) := walLockExclusive lockIdx n c in (rc, None, c)
  end.

(** The last frame that can be copied, given the read marks from [i] on, [n] of them; inside, whether there was an error. *)
Fixpoint safe_loop (n : nat) (i mxSafeFrame rc : Z) (xBusy : option (list bool)) (c : Conn) : option (bool * Z * Z * option (list bool) * Conn) :=
  match n with
  | O => Some (false, rc, mxSafeFrame, xBusy, c)
  | S n =>
      y ← get_info (info_aReadMark i) (wal c);
      if y <? mxSafeFrame then
        let '(rc, xBusy, c) := walBusyLock xBusy (WAL_READ_LOCK i) 1 c in
        if rc =? SQLITE_OK then
          w ← set_info (info_aReadMark i) (if i =? 1 then mxSafeFrame else READMARK_NOT_USED) (wal c);
          safe_loop n (i + 1) mxSafeFrame rc xBusy (walUnlockExclusive (WAL_READ_LOCK i) 1 (with_wal w c))
        else if rc =? SQLITE_BUSY then safe_loop n (i + 1) y rc None c
        else Some (true, rc, mxSafeFrame, xBusy, c)
      else safe_loop n (i + 1) mxSafeFrame rc xBusy c
  end.

Section backfill.
(** Whether the connection is interrupted before a page, and whether memory ran out then. *)
Context (isInterrupted : Z → bool) (mallocFailed : bool).

(** The pages of the iterator, at most [n] of them. *)
Fixpoint copy_pages (n : nat) (szPage nBackfill mxSafeFrame mxPage iFrame : Z) (pIter : WalIterator) (c : Conn) (db : file) : option (Z * file) :=
  match n with
  | O => None
  | S n =>
      '(done, iDbpage, iFrame, pIter) ← walIteratorNext (wal c) pIter iFrame;
      if done : bool then Some (SQLITE_OK, db)
      else if isInterrupted iDbpage then Some (if mallocFailed then SQLITE_NOMEM else SQLITE_INTERRUPT, db)
      else if (iFrame <=? nBackfill) || (mxSafeFrame <? iFrame) || (mxPage <? iDbpage) then
        copy_pages n szPage nBackfill mxSafeFrame mxPage iFrame pIter c db
      else
        let '(rc, zBuf) := OsRead (pWalFd c) szPage (walFrameOffset iFrame szPage + WAL_FRAME_HDRSIZE) in
        if negb (rc =? SQLITE_OK) then Some (rc, db)
        else
          let '(rc, db) := OsWrite db zBuf ((iDbpage - 1) * szPage) in
          if negb (rc =? SQLITE_OK) then Some (rc, db)
          else copy_pages n szPage nBackfill mxSafeFrame mxPage iFrame pIter c db
  end.

(** The database file is told how large it will get. *)
Definition hint_size (szPage mxPage mxFrame : Z) (db : file) : Z * file :=
  let nReq := mxPage * szPage in
  let db := OsFileControl db SQLITE_FCNTL_CKPT_START 0 in
  let '(rc, nSize) := OsFileSize db in
  if (rc =? SQLITE_OK) && (nSize <? nReq) then
    if nSize + 65536 + mxFrame * szPage <? nReq then (SQLITE_CORRUPT, db) else (SQLITE_OK, OsFileControl db SQLITE_FCNTL_SIZE_HINT nReq)
  else (rc, db).

(** With the lock for read mark 0: the copy, and [nBackfill] after it. *)
Definition backfill (szPage mxSafeFrame mxPage sync_flags : Z) (pIter : WalIterator) (c : Conn) (db : file) : option (Z * Conn * file) :=
  nBackfill ← get_info info_nBackfill (wal c);
  live ← get_words 0 (wal c);
  salt ← words_of (aSalt (hdr (wal c)));
  if negb (bool_decide (take 2 (drop 8 live) = salt)) then Some (SQLITE_OK, c, db)
  else
    w ← set_info info_nBackfillAttempted mxSafeFrame (wal c);
    let '(rc, f) := OsSync (pWalFd c) (CKPT_SYNC_FLAGS sync_flags) in
    let c := with_fd f (with_wal w c) in
    let '(rc, db) := (if rc =? SQLITE_OK then hint_size szPage mxPage (mxFrame (hdr (wal c))) db else (rc, db)) in
    '(rc, db) ← (if rc =? SQLITE_OK then copy_pages (Z.to_nat (mxFrame (hdr (wal c)) + 1)) szPage nBackfill mxSafeFrame mxPage 0 pIter c db else Some (rc, db));
    let db := OsFileControl db SQLITE_FCNTL_CKPT_DONE 0 in
    if rc =? SQLITE_OK then
      liveFrame ← live.[4];
      let '(rc, db) := (if mxSafeFrame =? liveFrame then
          let '(rc, db) := OsTruncate db (nPage (hdr (wal c)) * szPage) in
          if rc =? SQLITE_OK then OsSync db (CKPT_SYNC_FLAGS sync_flags) else (rc, db)
        else (rc, db)) in
      if rc =? SQLITE_OK then w ← set_info info_nBackfill mxSafeFrame (wal c); Some (rc, with_wal w c, db)
      else Some (rc, c, db)
    else Some (rc, c, db).

(** The first part of [walCheckpoint], when there are frames that were not copied: whether it gives up, the result code, whether there is an iterator. *)
Definition copy_back (szPage sync_flags : Z) (aTmp : list Z) (xBusy : option (list bool)) (c : Conn) (db : file) (m : mem) :
    option (bool * Z * bool * option (list bool) * Conn * file * mem) :=
  let mxPage := nPage (hdr (wal c)) in
  '(err, rc, mxSafeFrame, xBusy, c) ← safe_loop (Z.to_nat (WAL_NREADER - 1)) 1 (mxFrame (hdr (wal c))) SQLITE_OK xBusy c;
  if err : bool then Some (true, rc, false, xBusy, c, db, m)
  else
    nBackfill ← get_info info_nBackfill (wal c);
    '(rc, pIter, w, m) ← (if nBackfill <? mxSafeFrame then walIteratorInit xShmMap aTmp nBackfill (wal c) m else Some (rc, None, wal c, m));
    let c := with_wal w c in
    '(rc, xBusy, c, db) ← match pIter with
      | Some it =>
          let '(rc, xBusy, c) := walBusyLock xBusy (WAL_READ_LOCK 0) 1 c in
          if rc =? SQLITE_OK then
            '(rc, c, db) ← backfill szPage mxSafeFrame mxPage sync_flags it c db; Some (rc, xBusy, walUnlockExclusive (WAL_READ_LOCK 0) 1 c, db)
          else Some (rc, xBusy, c, db)
      | None => Some (rc, xBusy, c, db)
      end;
    Some (false, if rc =? SQLITE_BUSY then SQLITE_OK else rc, match pIter with Some _ => true | None => false end, xBusy, c, db, m).

(** [salt1] is what [sqlite3_randomness] gives, [aTmp] what the buffer for the sort holds. *)
Definition walCheckpoint (eMode sync_flags : Z) (xBusy : option (list bool)) (salt1 aTmp : list Z) (c : Conn) (db : file) (m : mem) : option (Z * Conn * file * mem) :=
  let szPage := walPagesize (wal c) in
  nBackfill ← get_info info_nBackfill (wal c);
  '(err, rc, pIter, xBusy, c, db, m) ← (if nBackfill <? mxFrame (hdr (wal c)) then copy_back szPage sync_flags aTmp xBusy c db m
    else Some (false, SQLITE_OK, false, xBusy, c, db, m));
  '(rc, c) ← (if negb (err : bool) && (rc =? SQLITE_OK) && negb (eMode =? SQLITE_CHECKPOINT_PASSIVE) then
      nBackfill ← get_info info_nBackfill (wal c);
      if nBackfill <? mxFrame (hdr (wal c)) then Some (SQLITE_BUSY, c)
      else if SQLITE_CHECKPOINT_RESTART <=? eMode then
        let '(rc, xBusy, c) := walBusyLock xBusy (WAL_READ_LOCK 1) (WAL_NREADER - 1) c in
        if rc =? SQLITE_OK then
          '(rc, c) ← (if eMode =? SQLITE_CHECKPOINT_TRUNCATE then
              w ← walRestartHdr salt1 (wal c); let '(rc, f) := OsTruncate (pWalFd c) 0 in Some (rc, with_fd f (with_wal w c))
            else Some (rc, c));
          Some (rc, walUnlockExclusive (WAL_READ_LOCK 1) (WAL_NREADER - 1) c)
        else Some (rc, c)
      else Some (rc, c)
    else Some (rc, c));
  Some (rc, c, db, if pIter : bool then sqlite3_free m else m).
End backfill.
End checkpoint.
