(* ===== verification/WalCheckpointProofs.v ===== *)
(** Proofs about checkpoints (WalCheckpoint.v): however a checkpoint ends, the database and the rest of the log show every reader the pages that they
    showed before. *)
From S2P Require Import Prelude Varint Wal WalProofs WalFrame WalFrameProofs WalRecoverProofs WalIter WalIterProofs WalWrite WalWriteProofs WalCheckpoint.

(** ** What a reader sees *)

(** The bytes of a page of the database file. *)
Definition page_bytes (sz pg : Z) (l : list Z) : list Z := map (byte_at l) (seqZ ((pg - 1) * sz) sz).

(** The page in a snapshot: its last frame among those from [lo + 1] to [hi], or else what is in the database file. *)
Definition page_view (sz : Z) (fr : list frame) (lo hi pg : Z) (db : list Z) : list Z :=
  match last (filter (λ f : frame, fst (fst f) = pg) (drop (Z.to_nat lo) (take (Z.to_nat hi) fr))) with
  | Some f => snd f
  | None => page_bytes sz pg db
  end.

Lemma last_filter_Some {A} (P : A → Prop) `{!∀ x, Decision (P x)} (l : list A) i x :
  l !! i = Some x → P x → (∀ j y, (i < j)%nat → l !! j = Some y → ¬ P y) → last (filter P l) = Some x.
Proof.
  induction l as [|y l IH] using rev_ind; [done|]. intros Hi HP Hno. rewrite filter_app, filter_cons, filter_nil.
  destruct (decide (i = length l)) as [->|Hne].
  - rewrite list_lookup_middle in Hi by done. injection Hi as ->. rewrite decide_True by done. by rewrite last_snoc.
  - pose proof (lookup_lt_Some _ _ _ Hi) as Hlt. rewrite length_app in Hlt. cbn [length] in Hlt.
    rewrite decide_False by (apply (Hno (length l)); [lia|by apply list_lookup_middle]). rewrite app_nil_r. apply IH; [by rewrite lookup_app_l in Hi by lia|done|].
    intros j z Hj Hz. apply (Hno j); [done|]. by apply lookup_app_l_Some.
Qed.

Lemma last_filter_None {A} (P : A → Prop) `{!∀ x, Decision (P x)} (l : list A) : (∀ j y, l !! j = Some y → ¬ P y) → last (filter P l) = None.
Proof.
  intros Hno. induction l as [|x l IH]; [done|]. rewrite filter_cons, decide_False by exact (Hno 0%nat x eq_refl). apply IH. intros j y. exact (Hno (S j) y).
Qed.

Lemma pgnos_rd (fr : list frame) i : (pgnos fr).[i] = (fst ∘ fst) <$> fr.[i].
Proof. unfold rd, pgnos. destruct (i <? 0); [done|]. apply list_lookup_fmap. Qed.

Lemma range_rd {A} (l : list A) lo hi (j : nat) y : 0 ≤ lo → drop (Z.to_nat lo) (take (Z.to_nat hi) l) !! j = Some y ↔ lo + Z.of_nat j < hi ∧ l.[lo + Z.of_nat j] = Some y.
Proof.
  intros Hlo. rewrite lookup_drop, lookup_take_Some, rd_lookup. replace (Z.to_nat (lo + Z.of_nat j)) with (Z.to_nat lo + j)%nat by lia. split; [intros (? & ?)|intros (? & ? & ?)]; split_and!; (done || lia).
Qed.

Section view.
Context (sz : Z) (fr : list frame) (lo hi pg : Z) (db : list Z).
Context (Hlo : 0 ≤ lo).

Lemma view_frame f nt d : last_at (pgnos fr) (lo + 1) hi pg f → fr.[f - 1] = Some (pg, nt, d) → page_view sz fr lo hi pg db = d.
Proof.
  intros (H1 & H2 & _ & H4) Hf. unfold page_view. rewrite (last_filter_Some _ _ (Z.to_nat (f - 1 - lo)) (pg, nt, d)); [done| |done|].
  - apply range_rd; [done|]. split; [lia|]. rewrite <- Hf. f_equal. lia.
  - intros j y Hj Hy E. apply range_rd in Hy as (Hy1 & Hy2); [|done]. apply (H4 (lo + Z.of_nat j + 1)); [lia|].
    replace (lo + Z.of_nat j + 1 - 1) with (lo + Z.of_nat j) by lia. rewrite pgnos_rd, Hy2. cbn. by rewrite E.
Qed.

Lemma view_file : (∀ f, ¬ last_at (pgnos fr) (lo + 1) hi pg f) → page_view sz fr lo hi pg db = page_bytes sz pg db.
Proof.
  intros H. unfold page_view. rewrite last_filter_None; [done|]. intros j y Hy E. apply range_rd in Hy as (Hy1 & Hy2); [|done].
  destruct (last_exists (pgnos fr) (lo + 1) hi pg (lo + Z.of_nat j + 1)) as (f & Hf); [lia|lia| |by apply (H f)].
  replace (lo + Z.of_nat j + 1 - 1) with (lo + Z.of_nat j) by lia. rewrite pgnos_rd, Hy2. cbn. by rewrite E.
Qed.

(** Either way. *)
Lemma view_cases : (∃ f nt d, last_at (pgnos fr) (lo + 1) hi pg f ∧ fr.[f - 1] = Some (pg, nt, d)) ∨ ∀ f, ¬ last_at (pgnos fr) (lo + 1) hi pg f.
Proof.
  destruct (last (filter (λ f : frame, fst (fst f) = pg) (drop (Z.to_nat lo) (take (Z.to_nat hi) fr)))) as [[[pg' nt] d]|] eqn:E.
  - left. assert (Hin : (pg', nt, d) ∈ filter (λ f : frame, fst (fst f) = pg) (drop (Z.to_nat lo) (take (Z.to_nat hi) fr))).
    { apply last_Some in E as (l & ->). set_solver. }
    apply list_elem_of_filter in Hin as (Epg & Hin). cbn in Epg. subst pg'. apply list_elem_of_lookup_1 in Hin as (j & Hj). apply range_rd in Hj as (Hj1 & Hj2); [|done].
    destruct (last_exists (pgnos fr) (lo + 1) hi pg (lo + Z.of_nat j + 1)) as (f & Hf); [lia|lia| |].
    { replace (lo + Z.of_nat j + 1 - 1) with (lo + Z.of_nat j) by lia. by rewrite pgnos_rd, Hj2. }
    pose proof Hf as (_ & _ & HF & _). rewrite pgnos_rd in HF. destruct fr.[f - 1] as [[[pg' nt'] d']|] eqn:Ef; [|done]. injection HF as <-. by exists f, nt', d'.
  - right. intros f (H1 & H2 & H3 & _). rewrite pgnos_rd in H3. destruct fr.[f - 1] as [[[pg' nt'] d']|] eqn:Ef; [|done]. injection H3 as ->.
    apply last_None in E. assert (Hin : (pg, nt', d') ∈ filter (λ f : frame, fst (fst f) = pg) (drop (Z.to_nat lo) (take (Z.to_nat hi) fr))).
    { apply list_elem_of_filter. split; [done|]. apply (list_elem_of_lookup_2 _ (Z.to_nat (f - 1 - lo))). apply range_rd; [done|]. split; [lia|]. rewrite <- Ef. f_equal. lia. }
    rewrite E in Hin. by apply elem_of_nil in Hin.
Qed.
End view.

(** ** Bytes of pages *)

Lemma page_bytes_ext sz pg l l' : (∀ i, (pg - 1) * sz ≤ i < pg * sz → byte_at l' i = byte_at l i) → page_bytes sz pg l' = page_bytes sz pg l.
Proof. intros H. apply list_fmap_ext. intros k i Hk%lookup_seqZ. apply H. lia. Qed.

Lemma byte_zeros l k i : byte_at (l ++ replicate k 0) i = byte_at l i.
Proof.
  unfold byte_at, rd. destruct (i <? 0); [done|]. destruct (decide (Z.to_nat i < length l)%nat); [by rewrite lookup_app_l by done|].
  rewrite lookup_app_r, (lookup_ge_None_2 l) by lia. destruct (replicate k 0 !! _) eqn:E; [|done]. apply lookup_replicate in E as (-> & _). done.
Qed.

Lemma byte_take n l l' i : take (Z.to_nat n) l' = take (Z.to_nat n) l → i < n → byte_at l' i = byte_at l i.
Proof.
  intros E Hi. unfold byte_at, rd. destruct (Z.ltb_spec i 0); [done|]. rewrite <- (lookup_take_lt l (Z.to_nat n)) by lia. rewrite <- E. by rewrite lookup_take_lt by lia.
Qed.

Lemma page_written sz pg l d : 0 ≤ sz → 1 ≤ pg → zlen d = sz → let off := (pg - 1) * sz in
  page_bytes sz pg (take (Z.to_nat off) l ++ replicate (Z.to_nat off - length l) 0 ++ d ++ drop (Z.to_nat (off + zlen d)) l) = d.
Proof.
  intros Hsz Hpg Hd off. assert (Hoff : 0 ≤ off) by (unfold off; nia). unfold page_bytes. fold off. apply list_eq. intros i. rewrite list_lookup_fmap.
  destruct (decide (i < length d)%nat) as [Hlt|Hge]; [|rewrite (lookup_ge_None_2 d), lookup_ge_None_2; [done|rewrite length_seqZ; lia|lia]].
  rewrite lookup_seqZ_lt by lia. cbn [fmap option_fmap option_map]. unfold byte_at, rd. destruct (Z.ltb_spec (off + Z.of_nat i) 0); [lia|].
  rewrite app_assoc, lookup_app_r by (rewrite length_app, length_take, length_replicate; lia). rewrite length_app, length_take, length_replicate.
  rewrite lookup_app_l by lia. replace (Z.to_nat (off + Z.of_nat i) - _)%nat with i by lia. by destruct (lookup_lt_is_Some_2 d i Hlt) as (x & ->).
Qed.

Section checkpoint.
Context {file locks : Type} `{!FileOps file, !ShmLocks locks, !FileLaws file}.
Context (xShmMap : Z → bool → Z * option wipage) (shm_sized : shm_pages xShmMap).
Abbreviation Conn := (Conn (file := file) (locks := locks)).

(** The page in a frame of the log. *)
Lemma log_frame_data (f : file) big sz nckpt salt s fr s' k pg nt d :
  log_params big sz nckpt salt s → Forall (frame_ok sz) fr → chain big s fr = Some s' → starts f (log_bytes big sz nckpt salt s fr) → fr.[k - 1] = Some (pg, nt, d) →
  let off := walFrameOffset k sz + WAL_FRAME_HDRSIZE in
  0 ≤ off ∧ off + sz ≤ zlen (content f) ∧ take (Z.to_nat sz) (drop (Z.to_nat off) (content f)) = d ∧ zlen d = sz.
Proof.
  intros HP Hfr Hc (junk & Ej) Hk off. destruct (params_sz _ _ _ _ _ HP) as (Hsz & _). pose proof HP as [_ _ _ (Hsl & _) _].
  apply rd_lookup in Hk as (Hk1 & Hk2). apply list_elem_of_split_length in Hk2 as (a & b & -> & El).
  apply Forall_app in Hfr as (Ha & (_ & _ & Hd)%Forall_inv). cbn [snd] in Hd. rewrite chain_app in Hc. destruct (chain big s a) as [s1|] eqn:E1; [|done]. cbn [mbind option_bind chain] in Hc.
  destruct (frame_cksum big s1 pg nt d) as [s2|] eqn:E2; [|done].
  pose proof (log_bytes_length _ _ _ _ _ _ _ HP Ha E1) as Hlen. assert (Ek : zlen a + 1 = k) by lia. rewrite Ek in Hlen. unfold log_bytes in *.
  rewrite (frames_bytes_app _ _ _ _ s1) in Ej by done. cbn [frames_bytes] in Ej. rewrite E2 in Ej.
  set (h := frame_header salt s2 pg nt) in *. assert (Hh : length h = 24%nat) by by apply header_length.
  rewrite <- !app_assoc, (app_assoc (log_header _ _ _ _ _)) in Ej. set (p := log_header _ _ _ _ _ ++ _) in *. clearbody p. change WAL_FRAME_HDRSIZE with 24 in off.
  assert (Hoff : Z.to_nat off = length (p ++ h)) by (rewrite length_app; unfold off; lia). rewrite app_assoc in Ej. rewrite Ej, Hoff, drop_app_length, take_app_length' by lia.
  split; [unfold off; lia|]. split; [|done]. rewrite !length_app, Hh. unfold off. lia.
Qed.

(** ** Writing the pages back *)

(** The frame that a checkpoint up to [safe] copies for a page, of those behind [nB]. *)
Definition target (fr : list frame) (nB safe mxPage pg f : Z) : Prop := last_at (pgnos fr) (nB + 1) (zlen fr) pg f ∧ f ≤ safe ∧ pg ≤ mxPage.
(** Every other page is as it was; the pages up to [upto] were copied. *)
Definition spared (sz : Z) (T : Z → Z → Prop) (db db' : file) : Prop := ∀ pg, 1 ≤ pg → (∀ f, ¬ T pg f) → page_bytes sz pg (content db') = page_bytes sz pg (content db).
Definition copied (sz : Z) (fr : list frame) (T : Z → Z → Prop) (upto : Z) (db' : file) : Prop :=
  ∀ pg f nt d, T pg f → pg ≤ upto → fr.[f - 1] = Some (pg, nt, d) → page_bytes sz pg (content db') = d.

Lemma last_widen F lo lo' hi pg f : lo' ≤ lo → last_at F lo hi pg f → last_at F lo' hi pg f.
Proof. intros Hlo (H1 & H2 & H3 & H4). split_and!; try done; lia. Qed.
Lemma last_unique F lo lo' hi pg f f' : last_at F lo hi pg f → last_at F lo' hi pg f' → f = f'.
Proof.
  intros (H1 & H2 & H3 & H4) (G1 & G2 & G3 & G4). destruct (Z.lt_trichotomy f f') as [?|[?|?]]; [|done|]; exfalso; [apply (H4 f')|apply (G4 f)]; (done || lia).
Qed.
Lemma last_front F F' lo hi pg f : take (Z.to_nat hi) F = take (Z.to_nat hi) F' → last_at F lo hi pg f → last_at F' lo hi pg f.
Proof.
  intros E. assert (Hrd : ∀ i, i ≤ hi → F'.[i - 1] = F.[i - 1]).
  { intros i Hi. unfold rd. destruct (Z.ltb_spec (i - 1) 0); [done|]. rewrite <- (lookup_take_lt F' (Z.to_nat hi)), <- E, lookup_take_lt by lia. done. }
  intros (H1 & H2 & H3 & H4). split; [done|]. split; [done|]. split; [by rewrite Hrd by lia|]. intros i Hi. rewrite Hrd by lia. by apply H4.
Qed.

Lemma pages_apart sz pg pg' i : 0 ≤ sz → pg ≠ pg' → (pg - 1) * sz ≤ i < pg * sz → i < (pg' - 1) * sz ∨ (pg' - 1) * sz + sz ≤ i.
Proof. intros Hsz Hne Hi. destruct (Z.lt_gt_cases pg pg') as [Hc _]. destruct (Hc Hne); nia. Qed.

Section copy.
Context (big sz nckpt : Z) (salt : list Z) (s s' : Z * Z) (fr : list frame) (F : list Z) (c : Conn) (nB safe mxPage : Z) (db0 : file).
Context (HP : log_params big sz nckpt salt s) (Hfr : Forall (frame_ok sz) fr) (Hc : chain big s fr = Some s') (Hst : starts (pWalFd c) (log_bytes big sz nckpt salt s fr)).
Context (HF : take (length fr) F = pgnos fr) (Hmax : Forall (λ pg, pg < 0xFFFFFFFF) F) (HnB : 0 ≤ nB) (HN : 1 ≤ zlen fr).
Context (isInterrupted : Z → bool) (mallocFailed : bool).
Abbreviation T := (target fr nB safe mxPage).
Abbreviation s0 := (walFramePage (nB + 1)).

Lemma index_last lo pg f : last_at F lo (zlen fr) pg f ↔ last_at (pgnos fr) lo (zlen fr) pg f.
Proof.
  assert (E : take (Z.to_nat (zlen fr)) F = take (Z.to_nat (zlen fr)) (pgnos fr)).
  { rewrite Nat2Z.id, HF. rewrite take_ge; [done|]. unfold pgnos. by rewrite length_map. }
  split; apply last_front; [exact E|symmetry; exact E].
Qed.

Lemma target_given pg f f' : last_at F (before s0 + 1) (zlen fr) pg f → T pg f' → f' = f ∧ nB < f ≤ safe ∧ pg ≤ mxPage.
Proof.
  intros HL (HT & H1 & H2). destruct (walFramePage_spec (nB + 1) ltac:(lia)) as (_ & Hb & _). pose proof HT as (_ & Hr & _). apply index_last in HT.
  pose proof (last_unique _ _ _ _ _ _ _ HL HT) as ->. split; [done|]. lia.
Qed.

(** The iterator gave page [pg] with frame [f]; the page was dealt with. *)
Lemma copied_next iMin pg f db :
  copied sz fr T iMin db → iMin < pg → last_at F (before s0 + 1) (zlen fr) pg f →
  (∀ pg' f', last_at F (before s0 + 1) (zlen fr) pg' f' → iMin < pg' → pg ≤ pg') →
  (T pg f → ∀ nt d, fr.[f - 1] = Some (pg, nt, d) → page_bytes sz pg (content db) = d) → copied sz fr T pg db.
Proof.
  intros HC Hlt HL Hmin Hpg pg' f' nt d HT Hle Hf. destruct (Z.le_gt_cases pg' iMin) as [Hle'|Hgt]; [by eapply HC|].
  destruct (walFramePage_spec (nB + 1) ltac:(lia)) as (_ & Hb & _).
  assert (Hge : pg ≤ pg'). { apply (Hmin pg' f'); [|lia]. destruct HT as (HT & _). apply index_last in HT. eapply last_widen; [|exact HT]. lia. }
  assert (pg' = pg) as -> by lia. destruct (target_given pg f f' HL HT) as (-> & _). by eapply Hpg.
Qed.

(** A page that was copied. *)
Lemma copy_one pg f nt d db rc db' : T pg f → fr.[f - 1] = Some (pg, nt, d) → 1 ≤ pg → zlen d = sz → OsWrite db d ((pg - 1) * sz) = (rc, db') →
  spared sz T db db' ∧ (∀ pg', pg' ≠ pg → page_bytes sz pg' (content db') = page_bytes sz pg' (content db)) ∧ (rc = SQLITE_OK → page_bytes sz pg (content db') = d).
Proof.
  intros HT Hf Hpg Hd E. destruct (params_sz _ _ _ _ _ HP) as (Hsz & _). assert (Hoff : 0 ≤ (pg - 1) * sz) by nia.
  assert (Hoth : ∀ pg', pg' ≠ pg → page_bytes sz pg' (content db') = page_bytes sz pg' (content db)).
  { intros pg' Hne. apply page_bytes_ext. intros i Hi. destruct (Z.lt_ge_cases i 0) as [Hneg|Hpos].
    - unfold byte_at, rd. destruct (Z.ltb_spec i 0); [done|lia].
    - eapply write_around; [exact Hoff|exact E|done|]. rewrite Hd. eapply pages_apart; [|exact Hne|done]. lia. }
  split; [|split; [exact Hoth|]].
  - intros pg' _ Hno. apply Hoth. intros ->. by apply (Hno f).
  - intros ->. rewrite (write_ok _ _ _ _ Hoff E). apply page_written; (done || lia).
Qed.

Lemma spared_trans sz' P db1 db2 db3 : spared sz' P db1 db2 → spared sz' P db2 db3 → spared sz' P db1 db3.
Proof. intros H1 H2 pg Hpg Hno. by rewrite H2, H1. Qed.

Lemma copy_pages_made (n : nat) : ∀ iFrame it db,
  iterates (wal c) F s0 (zlen fr) it → (above (iPrior it) (take (length fr) F) < n)%nat → 0 ≤ iPrior it →
  spared sz T db0 db → copied sz fr T (iPrior it) db →
  ∃ rc db', copy_pages isInterrupted mallocFailed n sz nB safe mxPage iFrame it c db = Some (rc, db') ∧ spared sz T db0 db' ∧
    (rc = SQLITE_OK → copied sz fr T (2 ^ 32) db').
Proof.
  destruct (walFramePage_spec (nB + 1) ltac:(lia)) as (Hs0 & Hbs & _).
  induction n as [|n IH]; intros iFrame it db HI Hn Hpr HS HC; [lia|]. cbn [copy_pages].
  destruct (next_made (wal c) F s0 (zlen fr) it iFrame HI Hs0 HN Hmax) as (r & pg & f & it' & -> & HI' & Ep & Hr). cbn [mbind option_bind]. destruct r.
  { exists SQLITE_OK, db. split; [done|]. split; [done|]. intros _ pg' f' nt d HT _ Hf. apply (HC pg' f' nt d); [done| |done].
    destruct HT as (HT & _). apply index_last in HT. apply (Hr pg' f'). eapply last_widen; [|exact HT]. lia. }
  destruct Hr as (Hlt & HL & Hmin).
  destruct (isInterrupted pg). { eexists _, db. split; [done|]. split; [done|]. by destruct mallocFailed. }
  assert (Hx : pg ∈ take (length fr) F).
  { destruct HL as (H1 & H2 & HF2 & _). apply rd_lookup in HF2 as (_ & HF2). apply (list_elem_of_lookup_2 _ (Z.to_nat (f - 1))). rewrite lookup_take_lt by lia. done. }
  pose proof (above_less (take (length fr) F) (iPrior it) (iPrior it') pg Hlt ltac:(lia) Hx) as Hless.
  destruct ((f <=? nB) || (safe <? f) || (mxPage <? pg)) eqn:Eskip.
  { apply (IH f it' db HI'); [lia|lia|done|]. rewrite Ep. apply (copied_next (iPrior it) pg f db HC Hlt HL Hmin). intros HT. exfalso.
    destruct (target_given pg f f HL HT) as (_ & Hr & Hm). destruct (Z.leb_spec f nB), (Z.ltb_spec safe f), (Z.ltb_spec mxPage pg); (done || lia). }
  apply orb_false_iff in Eskip as ((E1%Z.leb_gt & E2%Z.ltb_ge)%orb_false_iff & E3%Z.ltb_ge).
  assert (HT : T pg f). { pose proof HL as (G1 & G2 & G3 & G4). split; [|split; [lia|done]]. apply index_last. split; [done|]. split; [lia|]. split; [done|]. intros i Hi. apply G4. lia. }
  destruct HT as (HT1 & HT2). pose proof HT1 as (G1 & G2 & G3 & _). rewrite pgnos_rd in G3. destruct fr.[f - 1] as [[[pg1 nt] d]|] eqn:Ef; [|done]. injection G3 as ->.
  destruct (log_frame_data (pWalFd c) _ _ _ _ _ _ _ f pg nt d HP Hfr Hc Hst Ef) as (Ho1 & Ho2 & Hd & Hdl). destruct (params_sz _ _ _ _ _ HP) as (Hsz & _).
  destruct (OsRead (pWalFd c) sz _) as [rc1 zBuf] eqn:ER. destruct (Z.eqb_spec rc1 SQLITE_OK) as [->|Hne]; cbn [negb]; [|by exists rc1, db].
  assert (Hsz0 : 0 ≤ sz) by lia. apply (read_ok _ _ _ _ Hsz0 Ho1) in ER; [|done]. rewrite Hd in ER. subst zBuf.
  destruct (OsWrite db d ((pg - 1) * sz)) as [rc2 db2] eqn:EW.
  destruct (copy_one pg f nt d db rc2 db2 (conj HT1 HT2) Ef ltac:(lia) Hdl EW) as (HS2 & Hoth & Hok). pose proof (spared_trans _ _ _ _ _ HS HS2) as HS3.
  destruct (Z.eqb_spec rc2 SQLITE_OK) as [->|Hne]; cbn [negb]; [|by exists rc2, db2].
  apply (IH f it' db2 HI'); [lia|lia|done|]. rewrite Ep. apply (copied_next (iPrior it) pg f db2); [|done|done|done|].
  - intros pg' f' nt' d' HT' Hle Hf'. rewrite Hoth by lia. by eapply HC.
  - intros _ nt' d' Hf'. rewrite Ef in Hf'. injection Hf' as <- <-. by apply Hok.
Qed.
End copy.

(** ** The checkpoint information *)

(** Nothing changed but the words of [WalCkptInfo]. *)
Record marked (w w' : Wal) : Prop := Marked {
  mk_hdr : hdr w' = hdr w;
  mk_mode : exclusiveMode w' = exclusiveMode w;
  mk_rep F : represents w F → represents w' F;
  mk_mapped : mapped 0 w → mapped 0 w';
  mk_words : get_words 0 w' = get_words 0 w;
  mk_pgno h x pg : 0 ≤ x → get_pgno w (loc_of h) x = Some pg → get_pgno w' (loc_of h) x = Some pg }.

Lemma marked_refl w : marked w w.
Proof. by split. Qed.
Lemma marked_trans w w1 w2 : marked w w1 → marked w1 w2 → marked w w2.
Proof. intros [] []. split; (congruence || eauto). Qed.

Lemma set_info_marked k v w F : represents w F → mapped 0 w → 24 ≤ k < 34 →
  ∃ w', set_info k v w = Some w' ∧ marked w w' ∧ ∀ j, get_info j w' = if j =? k then Some v else get_info j w.
Proof.
  intros HR Hm Hk. destruct (set_info_made (0, 0) 0 k v w F HR Hm Hk) as (w' & E & HI). exists w'. split; [done|]. pose proof HI as (Eh & _ & HF & Hw). destruct Hm as (p & Hp).
  destruct (Hw p Hp) as (p' & Hp' & Et). pose proof (index_bounds _ _ _ Hp) as Hb. destruct (rep_sized _ _ HR 0 p Hp) as (Hsz & _).
  unfold set_info in E. rewrite Hp in E. cbn [mbind option_bind] in E. rewrite wr_in_bounds in E by (wal_consts; lia). cbn [mbind option_bind] in E. injection E as E.
  assert (Ew : words p' = <[Z.to_nat k:=v]> (words p)) by (rewrite <- E, index_set_page in Hp' by done; by injection Hp' as <-).
  assert (Hoth : ∀ h, h ≠ 0 → index_page w' h = index_page w h) by (intros h Hh; rewrite <- E, index_set_page by done; by destruct (Z.eqb_spec 0 h)).
  split.
  - split; try done; [by rewrite <- E|by exists p'| |].
    + unfold get_words. rewrite Hp, Hp'. cbn [mbind option_bind]. rewrite !drop_0. f_equal. apply (f_equal (take 12)) in Et. by rewrite !take_take in Et.
    + intros h x pg Hx. unfold get_pgno, loc_of. cbn [hl_page hl_off]. destruct (Z.eq_dec h 0) as [->|Hne]; [|by rewrite Hoth].
      rewrite Hp, Hp'. cbn [mbind option_bind]. rewrite Ew. change (offset 0) with 34. rewrite rd_insert by (wal_consts; lia). destruct (Z.eqb_spec k (34 + x)); [lia|done].
  - intros j. unfold get_info. rewrite Hp, Hp'. cbn [mbind option_bind]. rewrite Ew, rd_insert by (wal_consts; lia). rewrite Z.eqb_sym. done.
Qed.

Lemma iterates_marked w w' F lo N it : marked w w' → iterates w F lo N it → iterates w' F lo N it.
Proof.
  intros HM (El & P & HS). split; [done|]. exists P. intros i sg Hi. destruct (HS i sg Hi) as ([H1 H2 H3 H4 H5] & Hp). split; [|done]. split; try done.
  intros k Hk. destruct (H3 k Hk) as (h & x & pg & G1 & G2 & G3 & G4 & G5). exists h, x, pg. split_and!; try done. by eapply mk_pgno.
Qed.

(** ** Locks *)

Inductive lock_step : locks → locks → Prop :=
| step_lock l lockIdx n excl rc l' : ShmLock l lockIdx n excl = (rc, l') → lock_step l l'
| step_unlock l lockIdx n excl : lock_step l (ShmUnlock l lockIdx n excl).

(** Another connection holds read lock [i]: whatever this one does, it gets no exclusive lock that covers that one. *)
Definition shut_out (i : Z) (c : Conn) : Prop :=
  exclusiveMode (wal c) = 0 ∧
  ∀ l lockIdx n rc l', rtc lock_step (shm c) l → lockIdx ≤ WAL_READ_LOCK i < lockIdx + n → ShmLock l lockIdx n true = (rc, l') → rc ≠ SQLITE_OK.

(** Only locks and the checkpoint information changed. *)
Definition safe_step (c c' : Conn) : Prop := marked (wal c) (wal c') ∧ rtc lock_step (shm c) (shm c') ∧ pWalFd c' = pWalFd c.

Lemma safe_refl c : safe_step c c.
Proof. split; [apply marked_refl|]. by split. Qed.
Lemma safe_trans c c1 c2 : safe_step c c1 → safe_step c1 c2 → safe_step c c2.
Proof. intros (H1 & H2 & H3) (G1 & G2 & G3). split; [by eapply marked_trans|]. split; [by etrans|congruence]. Qed.
Lemma shut_step i c c' : safe_step c c' → shut_out i c → shut_out i c'.
Proof. intros (HM & Hl & _) (Hm & H). split; [by rewrite (mk_mode _ _ HM)|]. intros l j n rc l' Hr. apply H. by etrans. Qed.

Lemma safe_locks c c' : wal c' = wal c → pWalFd c' = pWalFd c → rtc lock_step (shm c) (shm c') → safe_step c c'.
Proof. intros E1 E2 H. split; [rewrite E1; apply marked_refl|by split]. Qed.

Lemma unlock_made j n c : wal (walUnlockExclusive j n c) = wal c ∧ safe_step c (walUnlockExclusive j n c).
Proof.
  unfold walUnlockExclusive, unlock. destruct (negb _); [split; [done|apply safe_refl]|]. split; [done|]. apply safe_locks; [done|done|]. cbn [shm with_shm]. apply rtc_once, step_unlock.
Qed.

Lemma exclusive_made j n c : ∃ rc c', walLockExclusive j n c = (rc, c') ∧ wal c' = wal c ∧ safe_step c c' ∧
  ∀ i, j ≤ WAL_READ_LOCK i < j + n → shut_out i c → rc ≠ SQLITE_OK.
Proof.
  unfold walLockExclusive, lock. destruct (Z.eqb_spec (exclusiveMode (wal c)) 0) as [E|E]; cbn [negb].
  - destruct (ShmLock (shm c) j n true) as [rc l] eqn:El. exists rc, (with_shm l c). split; [done|]. split; [done|]. split.
    + apply safe_locks; [done|done|]. cbn [shm with_shm]. apply rtc_once. by eapply step_lock.
    + intros i Hi (_ & H). by eapply H.
  - exists SQLITE_OK, c. split; [done|]. split; [done|]. split; [apply safe_refl|]. by intros i _ (? & _).
Qed.

Lemma busy_lock_made xBusy j n c : ∃ rc xBusy' c', walBusyLock xBusy j n c = (rc, xBusy', c') ∧ wal c' = wal c ∧ safe_step c c' ∧
  ∀ i, j ≤ WAL_READ_LOCK i < j + n → shut_out i c → rc ≠ SQLITE_OK.
Proof.
  destruct xBusy as [answers|]; cbn [walBusyLock]; [|destruct (exclusive_made j n c) as (rc & c' & -> & H); by exists rc, None, c'].
  assert (HB : ∃ rc a' c', busy_loop answers j n c = (rc, a', c') ∧ wal c' = wal c ∧ safe_step c c' ∧ ∀ i, j ≤ WAL_READ_LOCK i < j + n → shut_out i c → rc ≠ SQLITE_OK).
  2: { destruct HB as (rc & a' & c' & -> & H). by exists rc, (Some a'), c'. }
  revert c. induction answers as [|a answers IH]; intros c; cbn [busy_loop]; destruct (exclusive_made j n c) as (rc & c1 & -> & Ew & HS & Hi).
  - exists rc, [], c1. by destruct (rc =? SQLITE_BUSY).
  - destruct (rc =? SQLITE_BUSY); [|by exists rc, (a :: answers), c1]. destruct a; [|by exists rc, answers, c1].
    destruct (IH c1) as (rc2 & a' & c' & -> & Ew2 & HS2 & Hi2). exists rc2, a', c'. split; [done|]. split; [congruence|]. split; [by eapply safe_trans|].
    intros i Hr Hsh. apply (Hi2 i Hr). by eapply shut_step.
Qed.

(** The frames that a reader may still need are not copied. *)
Lemma safe_loop_made F (n : nat) : ∀ i safe rc xBusy c, represents (wal c) F → mapped 0 (wal c) → 1 ≤ i → i + Z.of_nat n ≤ WAL_NREADER →
  ∃ err rc' safe' xBusy' c', safe_loop n i safe rc xBusy c = Some (err, rc', safe', xBusy', c') ∧ (err = true → rc' ≠ SQLITE_OK) ∧ safe_step c c' ∧ safe' ≤ safe ∧
    (∀ j, (∀ k, i ≤ k → j ≠ info_aReadMark k) → get_info j (wal c') = get_info j (wal c)) ∧
    ∀ k y, i ≤ k < i + Z.of_nat n → get_info (info_aReadMark k) (wal c) = Some y → shut_out k c → err = true ∨ safe' ≤ y.
Proof.
  induction n as [|n IH]; intros i safe rc xBusy c HR Hm Hi Hn; cbn [safe_loop].
  - exists false, rc, safe, xBusy, c. split; [done|]. split; [done|]. split; [apply safe_refl|]. split; [done|]. split; [done|]. lia.
  - destruct Hm as (p & Hp). destruct (rep_sized _ _ HR 0 p Hp) as (Hsz & _). unfold WAL_NREADER, info_aReadMark in *.
    destruct (rd_in_bounds (words p) (25 + i)) as (y & Ey); [wal_consts; lia|].
    assert (Eg : get_info (25 + i) (wal c) = Some y) by (unfold get_info; by rewrite Hp). rewrite Eg. cbn [mbind option_bind].
    assert (Hm : mapped 0 (wal c)) by by exists p. destruct (Z.ltb_spec y safe) as [Hlt|Hge].
    2: { destruct (IH (i + 1) safe rc xBusy c HR Hm) as (err & rc' & safe' & xb' & c' & E & Herr & HS & Hle & Hg & Hk); [lia|lia|]. exists err, rc', safe', xb', c'.
         split; [exact E|]. split; [exact Herr|]. split; [done|]. split; [done|]. split; [intros j Hj; apply Hg; intros k Hk'; apply Hj; lia|].
         intros k y' Hk' Ek Hsh. destruct (Z.eq_dec k i) as [->|Hne]; [|apply (Hk k); (done || lia)]. rewrite Eg in Ek. injection Ek as <-. right. lia. }
    destruct (busy_lock_made xBusy (WAL_READ_LOCK i) 1 c) as (rc1 & xb1 & c1 & -> & Ew & HS1 & Hi1). destruct (Z.eqb_spec rc1 SQLITE_OK) as [->|Hne1].
    + rewrite Ew. destruct (set_info_marked (25 + i) (if i =? 1 then safe else READMARK_NOT_USED) (wal c) F HR Hm) as (w & -> & HM & Hgw); [lia|]. cbn [mbind option_bind].
      destruct (unlock_made (WAL_READ_LOCK i) 1 (with_wal w c1)) as (Ew2 & HS2). set (c2 := walUnlockExclusive _ _ _) in *. cbn [wal with_wal] in Ew2.
      assert (HS12 : safe_step c c2).
      { eapply safe_trans; [|exact HS2]. destruct HS1 as (_ & Hl & Ef). by split. }
      assert (Hg2 : ∀ j, j ≠ 25 + i → get_info j (wal c2) = get_info j (wal c)) by (intros j Hj; rewrite Ew2, Hgw; by destruct (Z.eqb_spec j (25 + i))).
      destruct (IH (i + 1) safe SQLITE_OK xb1 c2) as (err & rc' & safe' & xb' & c' & E & Herr & HS & Hle & Hg & Hk);
        [rewrite Ew2; by apply (mk_rep _ _ HM)|rewrite Ew2; by apply (mk_mapped _ _ HM)|lia|lia|].
      exists err, rc', safe', xb', c'. split; [exact E|]. split; [exact Herr|]. split; [by eapply safe_trans|]. split; [done|]. split.
      * intros j Hj. rewrite Hg by (intros k Hk'; apply Hj; lia). apply Hg2. apply Hj. lia.
      * intros k y' Hk' Ek Hsh. destruct (Z.eq_dec k i) as [->|Hne]; [by destruct (Hi1 i ltac:(lia) Hsh)|].
        apply (Hk k); [lia|rewrite Hg2; (done || lia)|by eapply shut_step].
    + destruct (rc1 =? SQLITE_BUSY).
      * destruct (IH (i + 1) y rc1 None c1) as (err & rc' & safe' & xb' & c' & E & Herr & HS & Hle & Hg & Hk); [by rewrite Ew|by rewrite Ew|lia|lia|].
        exists err, rc', safe', xb', c'. split; [exact E|]. split; [exact Herr|]. split; [by eapply safe_trans|]. split; [lia|]. rewrite Ew in Hg, Hk. split; [intros j Hj; apply Hg; intros k Hk'; apply Hj; lia|].
        intros k y' Hk' Ek Hsh. destruct (Z.eq_dec k i) as [->|Hne]; [rewrite Eg in Ek; injection Ek as <-; by right|].
        apply (Hk k); [lia|done|by eapply shut_step].
      * exists true, rc1, safe, xb1, c1. split; [done|]. split; [done|]. split; [done|]. split; [done|]. rewrite Ew. split; [done|]. by left.
Qed.

(** ** With the database locked *)

(** A connection to a log with the frames [fr], of which the first [nB] were copied. *)
Record checkpointing (big sz nckpt : Z) (salt : list Z) (s : Z * Z) (fr : list frame) (F : list Z) (nB : Z) (c : Conn) : Prop := Checkpointing {
  cp_params : log_params big sz nckpt salt s;
  cp_frames : Forall (frame_ok sz) fr;
  cp_chain : is_Some (chain big s fr);
  cp_starts : starts (pWalFd c) (log_bytes big sz nckpt salt s fr);
  cp_index : represents (wal c) F ∧ take (length fr) F = pgnos fr ∧ Forall (λ pg, pg < 0xFFFFFFFF) F;
  cp_hdr : hdr_ok (hdr (wal c)) ∧ mxFrame (hdr (wal c)) = zlen fr ∧ 0 ≤ nPage (hdr (wal c));
  cp_live live x : get_words 0 (wal c) = Some live → live.[4] = Some x → zlen fr ≤ x;
  cp_backfill : get_info info_nBackfill (wal c) = Some nB ∧ 0 ≤ nB ≤ zlen fr }.

Lemma checkpointing_marked big sz nckpt salt s fr F nB nB' c c' :
  checkpointing big sz nckpt salt s fr F nB c → marked (wal c) (wal c') → content (pWalFd c') = content (pWalFd c) →
  get_info info_nBackfill (wal c') = Some nB' → 0 ≤ nB' ≤ zlen fr → checkpointing big sz nckpt salt s fr F nB' c'.
Proof.
  intros [H1 H2 H3 (junk & H4) (H5 & H6) H7 H8 H9] HM Ef Hg Hr. split; try done.
  - exists junk. by rewrite Ef.
  - split; [by apply (mk_rep _ _ HM)|done].
  - by rewrite (mk_hdr _ _ HM).
  - intros live x. rewrite (mk_words _ _ HM). apply H8.
Qed.

Lemma checkpointing_mapped big sz nckpt salt s fr F nB c : checkpointing big sz nckpt salt s fr F nB c → mapped 0 (wal c).
Proof. intros [_ _ _ _ _ _ _ (H & _)]. unfold get_info in H. destruct (index_page (wal c) 0) eqn:E; [by eexists|done]. Qed.

(** Bytes were only added behind the end. *)
Lemma hint_made sz mxPage mxF db : ∃ rc db', hint_size sz mxPage mxF db = (rc, db') ∧ ∃ k, content db' = content db ++ replicate k 0.
Proof.
  unfold hint_size. destruct (control_any db SQLITE_FCNTL_CKPT_START 0) as (k & Ek). set (db1 := OsFileControl db _ _) in *. destruct (OsFileSize db1) as [rc n].
  destruct (_ && _); [|by exists rc, db1; eauto]. destruct (_ <? _); [by exists SQLITE_CORRUPT, db1; eauto|].
  destruct (control_any db1 SQLITE_FCNTL_SIZE_HINT (mxPage * sz)) as (k2 & Ek2). eexists _, _. split; [done|]. exists (k + k2)%nat. by rewrite Ek2, Ek, <- app_assoc, replicate_add.
Qed.

Lemma page_zeros sz pg l k : page_bytes sz pg (l ++ replicate k 0) = page_bytes sz pg l.
Proof. apply page_bytes_ext. intros i _. apply byte_zeros. Qed.

Lemma page_cut_file sz pg n l l' : take (Z.to_nat (n * sz)) l' = take (Z.to_nat (n * sz)) l → 0 ≤ sz → pg ≤ n → page_bytes sz pg l' = page_bytes sz pg l.
Proof. intros E Hsz Hpg. apply page_bytes_ext. intros i Hi. eapply byte_take; [exact E|]. nia. Qed.

(** The last part of [backfill]. *)
Lemma backfill_end_made (c : Conn) F sz safe flags liveFrame rc db : 0 ≤ sz → 0 ≤ nPage (hdr (wal c)) → represents (wal c) F → mapped 0 (wal c) →
  ∃ rc' w' db', (let '(rc, db) := (if safe =? liveFrame then
          let '(rc, db) := OsTruncate db (nPage (hdr (wal c)) * sz) in
          if rc =? SQLITE_OK then OsSync db (CKPT_SYNC_FLAGS flags) else (rc, db)
        else (rc, db)) in
      if rc =? SQLITE_OK then w' ← set_info info_nBackfill safe (wal c); Some (rc, with_wal w' c, db) else Some (rc, c, db)) = Some (rc', with_wal w' c, db') ∧
    marked (wal c) w' ∧ (∀ pg, safe ≠ liveFrame ∨ pg ≤ nPage (hdr (wal c)) → page_bytes sz pg (content db') = page_bytes sz pg (content db)) ∧
    (w' = wal c ∨ get_info info_nBackfill w' = Some safe).
Proof.
  intros Hsz Hnp HR Hm. destruct (set_info_marked info_nBackfill safe (wal c) F HR Hm) as (w1 & E1 & HM & Hg); [unfold info_nBackfill; lia|]. specialize (Hg info_nBackfill). rewrite Z.eqb_refl in Hg.
  assert (Hend : ∀ rc1 db1, (∀ pg, safe ≠ liveFrame ∨ pg ≤ nPage (hdr (wal c)) → page_bytes sz pg (content db1) = page_bytes sz pg (content db)) →
    ∃ rc' w' db', (if rc1 =? SQLITE_OK then w' ← set_info info_nBackfill safe (wal c); Some (rc1, with_wal w' c, db1) else Some (rc1, c, db1)) = Some (rc', with_wal w' c, db') ∧
    marked (wal c) w' ∧ (∀ pg, safe ≠ liveFrame ∨ pg ≤ nPage (hdr (wal c)) → page_bytes sz pg (content db') = page_bytes sz pg (content db)) ∧
    (w' = wal c ∨ get_info info_nBackfill w' = Some safe)).
  { intros rc1 db1 H1. destruct (rc1 =? SQLITE_OK); [rewrite E1; exists rc1, w1, db1; by auto|]. exists rc1, (wal c), db1. split; [by destruct c|]. auto using marked_refl. }
  destruct (Z.eqb_spec safe liveFrame) as [E|E]; [|by apply Hend].
  destruct (OsTruncate db _) as [rc1 db1] eqn:ET. assert (Hn0 : 0 ≤ nPage (hdr (wal c)) * sz) by nia. pose proof (truncate_any _ _ _ _ Hn0 ET) as Ht.
  assert (Hpg : ∀ db2 pg, content db2 = content db1 → safe ≠ liveFrame ∨ pg ≤ nPage (hdr (wal c)) → page_bytes sz pg (content db2) = page_bytes sz pg (content db)).
  { intros db2 pg -> [?|Hpg]; [done|]. by eapply page_cut_file. }
  destruct (rc1 =? SQLITE_OK); [|apply Hend; intros pg; by apply Hpg].
  destruct (OsSync db1 _) as [rc2 db2] eqn:ES. pose proof (sync_any _ _ _ _ ES) as Es. apply Hend. intros pg. by apply Hpg.
Qed.

Section backfill.
Context (big sz nckpt : Z) (salt : list Z) (s : Z * Z) (fr : list frame) (F : list Z) (nB safe mxPage : Z).
Abbreviation T := (target fr nB safe mxPage).

(** What [backfill] leaves. *)
Definition backfilled (c c' : Conn) (db db' : file) : Prop :=
  safe_step c (with_fd (pWalFd c) c') ∧ ∃ nB', checkpointing big sz nckpt salt s fr F nB' c' ∧
    (∀ pg, 1 ≤ pg → (∀ f, ¬ T pg f) → safe < zlen fr ∨ pg ≤ mxPage → page_bytes sz pg (content db') = page_bytes sz pg (content db)) ∧
    (nB' = nB ∨ nB' = safe ∧ ∀ pg f nt d, T pg f → fr.[f - 1] = Some (pg, nt, d) → page_bytes sz pg (content db') = d).

Lemma backfilled_nothing c c' db db' :
  checkpointing big sz nckpt salt s fr F nB c' → safe_step c (with_fd (pWalFd c) c') → spared sz T db db' → backfilled c c' db db'.
Proof. intros HC HS Hsp. split; [done|]. exists nB. split; [done|]. split; [|by left]. intros pg H1 H2 _. by apply Hsp. Qed.

Lemma backfill_made isInterrupted mallocFailed flags it c db :
  checkpointing big sz nckpt salt s fr F nB c → nB < safe ≤ zlen fr → mxPage = nPage (hdr (wal c)) → iterates (wal c) F (walFramePage (nB + 1)) (zlen fr) it → iPrior it = 0 →
  ∃ rc c' db', backfill isInterrupted mallocFailed sz safe mxPage flags it c db = Some (rc, c', db') ∧ backfilled c c' db db'.
Proof.
  intros HC Hsafe Hmx HI Hpr. pose proof HC as [HP Hfr (s' & Hch) Hst (HR & HF & Hmax) (Hok & Emx & Hnp) Hlive (Hg & Hr)]. pose proof (checkpointing_mapped _ _ _ _ _ _ _ _ _ HC) as Hm.
  destruct (params_sz _ _ _ _ _ HP) as (Hsz & _). assert (Hwf : ∀ w, with_fd (pWalFd c) (with_wal w c) = with_wal w c) by done. assert (Hsp0 : spared sz T db db) by by intros ???.
  assert (Hself : checkpointing big sz nckpt salt s fr F nB c → backfilled c c db db).
  { intros _. apply backfilled_nothing; [done| |done]. destruct c. apply safe_refl. }
  unfold backfill. rewrite Hg. cbn [mbind option_bind]. destruct Hm as (p & Hp). destruct (rep_sized _ _ HR 0 p Hp) as (Hwd & _).
  destruct (get_words 0 (wal c)) as [live|] eqn:El; [|by unfold get_words in El; rewrite Hp in El]. cbn [mbind option_bind].
  assert (Hm : mapped 0 (wal c)) by by exists p. destruct (words_of_length (aSalt (hdr (wal c)))) as (sw & -> & _); [by destruct Hok as [_ _ _ -> _]; exists 2|]. cbn [mbind option_bind].
  destruct (bool_decide _); cbn [negb]; [|by exists SQLITE_OK, c, db; auto].
  destruct (set_info_marked info_nBackfillAttempted safe (wal c) F HR Hm) as (w1 & -> & HM1 & Hg1); [unfold info_nBackfillAttempted; lia|]. cbn [mbind option_bind].
  destruct (OsSync (pWalFd c) _) as [rc1 f1] eqn:ES. pose proof (sync_any _ _ _ _ ES) as Ef. set (c1 := with_fd f1 (with_wal w1 c)).
  assert (HC1 : checkpointing big sz nckpt salt s fr F nB c1) by (eapply checkpointing_marked; [exact HC|done|done| |done]; cbn [wal c1 with_fd with_wal]; by rewrite Hg1).
  assert (HS1 : ∀ w f, marked w1 w → safe_step c (with_fd (pWalFd c) (with_wal w (with_fd f c1)))).
  { intros w f HM2. split; [exact (marked_trans _ _ _ HM1 HM2)|]. by split. }
  assert (HS1' : safe_step c (with_fd (pWalFd c) c1)) by exact (HS1 w1 f1 (marked_refl _)).
  assert (HH : ∃ rc2 db2, (if rc1 =? SQLITE_OK then hint_size sz mxPage (mxFrame (hdr (wal c1))) db else (rc1, db)) = (rc2, db2) ∧ ∃ k, content db2 = content db ++ replicate k 0).
  { destruct (rc1 =? SQLITE_OK); [apply hint_made|]. exists rc1, db. split; [done|]. exists 0%nat. by rewrite app_nil_r. }
  destruct HH as (rc2 & db2 & -> & k2 & Ek2). assert (Hsp2 : spared sz T db db2) by (intros pg _ _; by rewrite Ek2, page_zeros).
  assert (HCP : ∃ rc3 db3, (if rc2 =? SQLITE_OK then copy_pages isInterrupted mallocFailed (Z.to_nat (mxFrame (hdr (wal c1)) + 1)) sz nB safe mxPage 0 it c1 db2 else Some (rc2, db2)) =
    Some (rc3, db3) ∧ spared sz T db db3 ∧ (rc3 = SQLITE_OK → copied sz fr T (2 ^ 32) db3)).
  { destruct (Z.eqb_spec rc2 SQLITE_OK) as [->|Hne]; [|by exists rc2, db2].
    apply (copy_pages_made big sz nckpt salt s s' fr F c1 nB safe mxPage db HP Hfr Hch (cp_starts _ _ _ _ _ _ _ _ _ HC1) HF Hmax ltac:(lia) ltac:(lia)); [| |lia|done|].
    - eapply iterates_marked; [exact HM1|exact HI].
    - change (wal c1) with w1. rewrite (mk_hdr _ _ HM1), Emx. unfold above. pose proof (length_filter (λ pg, iPrior it < pg) (take (length fr) F)) as Hle. rewrite length_take in Hle. lia.
    - intros pg f nt d HT Hle. rewrite Hpr in Hle. destruct HT as ((_ & _ & HT & _) & _). rewrite pgnos_rd in HT.
      destruct fr.[f - 1] as [[[pg' nt'] d']|] eqn:Efr; [|done]. injection HT as ->. apply rd_lookup in Efr as (_ & Efr). destruct (proj1 (Forall_lookup _ _) Hfr _ _ Efr) as ((? & _) & _). cbn in *. lia. }
  destruct HCP as (rc3 & db3 & -> & Hsp3 & Hcp3). cbn [mbind option_bind]. destruct (control_any db3 SQLITE_FCNTL_CKPT_DONE 0) as (k4 & Ek4). set (db4 := OsFileControl db3 _ _) in *.
  assert (Hsp4 : spared sz T db db4) by (intros pg Hpg Hno; rewrite Ek4, page_zeros; by apply Hsp3).
  destruct (Z.eqb_spec rc3 SQLITE_OK) as [->|Hne]; [|exists rc3, c1, db4; split; [done|]; by apply backfilled_nothing].
  assert (Hl12 : length live = 12%nat) by (unfold get_words in El; rewrite Hp in El; injection El as <-; rewrite length_take, length_drop; wal_consts; lia).
  destruct (rd_in_bounds live 4) as (lv & Elv); [lia|]. rewrite Elv. cbn [mbind option_bind]. specialize (Hlive live lv eq_refl Elv).
  destruct (backfill_end_made c1 F sz safe flags lv SQLITE_OK db4) as (rc5 & w5 & db5 & -> & HM5 & Hpg5 & Hw5);
    [lia|change (wal c1) with w1; by rewrite (mk_hdr _ _ HM1)|exact (mk_rep _ _ HM1 _ HR)|exact (mk_mapped _ _ HM1 Hm)|].
  change (wal c1) with w1 in HM5, Hpg5, Hw5. rewrite (mk_hdr _ _ HM1), <- Hmx in Hpg5. exists rc5, (with_wal w5 c1), db5. split; [done|]. split; [exact (HS1 w5 f1 HM5)|].
  assert (Hsp5 : ∀ pg, 1 ≤ pg → (∀ f, ¬ T pg f) → safe < zlen fr ∨ pg ≤ mxPage → page_bytes sz pg (content db5) = page_bytes sz pg (content db)).
  { intros pg H1 H2 H3. rewrite Hpg5 by (destruct H3; [left; lia|by right]). by apply Hsp4. }
  destruct Hw5 as [->|Hg5].
  - exists nB. split; [eapply checkpointing_marked; [exact HC1|exact HM5|done| |done]; cbn [wal with_wal]; by rewrite Hg1|]. split; [done|by left].
  - exists safe. split; [eapply checkpointing_marked; [exact HC1|exact HM5|done|done|lia]|]. split; [done|]. right. split; [done|].
    intros pg f nt d HT Hf. rewrite Hpg5 by (right; apply HT). rewrite Ek4, page_zeros. apply (Hcp3 eq_refl pg f nt d HT); [|done].
    destruct HT as ((_ & _ & HT & _) & _). apply rd_lookup in HT as (_ & HT). rewrite <- HF in HT. apply lookup_take_Some in HT as (HT & _).
    pose proof (proj1 (Forall_lookup _ _) Hmax _ _ HT) as Hx. cbn in Hx. lia.
Qed.
End backfill.

(** ** The log from the start again *)

Lemma put4_bytes x : bytes (sqlite3Put4byte x).
Proof. repeat constructor; unfold u8; apply Z.mod_pos_bound; lia. Qed.

Lemma unused_marks_made F (n : nat) : ∀ i w, represents w F → mapped 0 w → 1 ≤ i → i + Z.of_nat n ≤ WAL_NREADER →
  ∃ w', unused_marks n i w = Some w' ∧ marked w w' ∧ get_info info_nBackfill w' = get_info info_nBackfill w.
Proof.
  unfold WAL_NREADER. induction n as [|n IH]; intros i w HR Hm Hi Hn; cbn [unused_marks]; [exists w; split; [done|]; split; [apply marked_refl|done]|].
  destruct (set_info_marked (info_aReadMark i) READMARK_NOT_USED w F HR Hm) as (w1 & -> & HM & Hg); [unfold info_aReadMark; lia|]. cbn [mbind option_bind].
  destruct (IH (i + 1) w1 (mk_rep _ _ HM _ HR) (mk_mapped _ _ HM Hm)) as (w' & -> & HM2 & Eg); [lia|lia|]. exists w'. split; [done|]. split; [by eapply marked_trans|].
  rewrite Eg, Hg. unfold info_nBackfill, info_aReadMark. by destruct (Z.eqb_spec 24 (25 + i)); [lia|].
Qed.

Lemma restart_hdr_made salt1 w F : represents w F → mapped 0 w → hdr_ok (hdr w) → length salt1 = 4%nat → bytes salt1 →
  ∃ w', walRestartHdr salt1 w = Some w' ∧ mxFrame (hdr w') = 0 ∧ get_info info_nBackfill w' = Some 0 ∧ represents w' F ∧ mapped 0 w' ∧ hdr_ok (hdr w').
Proof.
  intros HR (p & Hp) Hok Hl1 Hb1. pose proof Hok as [H1 H2 H3 Hl Hb]. unfold walRestartHdr.
  assert (Hs0 : ∃ s0, sqlite3Get4byte (aSalt (hdr w)) = Some s0) by (revert Hl; destruct (aSalt (hdr w)) as [|? [|? [|? [|? ?]]]]; [done..|]; intros _; by eexists).
  destruct Hs0 as (s0 & ->). cbn [mbind option_bind]. set (w0 := with_restart _ _ w).
  assert (Hok0 : hdr_ok (hdr w0)) by (split; [done|done|done|cbn; by rewrite ?length_app, Hl1|apply Forall_app; split; [apply put4_bytes|done]]).
  assert (Hp0 : index_page w0 0 = Some p) by done. assert (HR0 : represents w0 F) by (destruct HR; by split).
  destruct (write_hdr_made w0 p Hok0 Hp0 (rep_sized _ _ HR 0 p Hp)) as (ck & l & Eck & El & ->). cbn [mbind option_bind]. set (w1 := set_page 0 _ _).
  destruct (hdr_words_made _ (stamped_ok _ ck Hok0)) as (l' & El' & Hl12 & _). rewrite El in El'. injection El' as <-.
  pose proof (index_bounds _ _ _ Hp) as Hbd. assert (HR1 : represents w1 F) by (apply represents_copies; [destruct HR0; by split|done|done]).
  assert (Hm1 : mapped 0 w1) by (eexists; unfold w1; by rewrite index_set_page). assert (Emx : mxFrame (hdr w1) = 0) by done. assert (Hok1 : hdr_ok (hdr w1)) by exact (stamped_ok _ ck Hok0). clearbody w1.
  destruct (set_info_marked info_nBackfill 0 w1 F HR1 Hm1) as (w2 & -> & M2 & G2); [unfold info_nBackfill; lia|]. cbn [mbind option_bind].
  destruct (set_info_marked info_nBackfillAttempted 0 w2 F (mk_rep _ _ M2 _ HR1) (mk_mapped _ _ M2 Hm1)) as (w3 & -> & M3 & G3); [unfold info_nBackfillAttempted; lia|]. cbn [mbind option_bind].
  pose proof (marked_trans _ _ _ M2 M3) as M13.
  destruct (set_info_marked (info_aReadMark 1) 0 w3 F (mk_rep _ _ M13 _ HR1) (mk_mapped _ _ M13 Hm1)) as (w4 & -> & M4 & G4); [unfold info_aReadMark; lia|]. cbn [mbind option_bind].
  pose proof (marked_trans _ _ _ M13 M4) as M14.
  destruct (unused_marks_made F (Z.to_nat (WAL_NREADER - 2)) 2 w4 (mk_rep _ _ M14 _ HR1) (mk_mapped _ _ M14 Hm1)) as (w5 & -> & M5 & G5); [lia|unfold WAL_NREADER; lia|].
  pose proof (marked_trans _ _ _ M14 M5) as M15. exists w5. split; [done|]. rewrite (mk_hdr _ _ M15). split; [done|].
  split; [|split; [exact (mk_rep _ _ M15 _ HR1)|split; [exact (mk_mapped _ _ M15 Hm1)|exact Hok1]]]. rewrite G5, G4. change (info_nBackfill =? info_aReadMark 1) with false. cbv iota.
  rewrite G3. change (info_nBackfill =? info_nBackfillAttempted) with false. cbv iota. by rewrite G2.
Qed.

(** ** The views *)

Section views.
Context (sz : Z) (fr : list frame) (nB safe mxPage : Z) (db db' : file).
Context (HnB : 0 ≤ nB) (Hsafe : safe ≤ zlen fr).
Context (Hsp : ∀ pg, 1 ≤ pg → (∀ f, ¬ target fr nB safe mxPage pg f) → safe < zlen fr ∨ pg ≤ mxPage → page_bytes sz pg (content db') = page_bytes sz pg (content db)).

(** A reader whose snapshot is no older than the copied frames sees the same. *)
Lemma reader_view lo hi pg : 0 ≤ lo ≤ nB → safe ≤ hi ≤ zlen fr → 1 ≤ pg → hi < zlen fr ∨ pg ≤ mxPage →
  page_view sz fr lo hi pg (content db') = page_view sz fr lo hi pg (content db).
Proof.
  intros Hlo Hhi Hpg Hd. destruct (view_cases fr lo hi pg ltac:(lia)) as [(f & nt & d & HL & Hf)|Hno].
  - by rewrite !(view_frame sz fr lo hi pg _ ltac:(lia) f nt d HL Hf).
  - rewrite !view_file by (done || lia). apply Hsp; [done| |destruct Hd; [left; lia|by right]]. intros f ((H1 & H2 & H3 & _) & H4 & _).
    destruct (last_exists (pgnos fr) (lo + 1) hi pg f) as (f' & Hf'); [done|lia|done|]. by apply (Hno f').
Qed.

(** The frames that were copied are not needed any more. *)
Lemma copied_view pg : 1 ≤ pg ≤ mxPage → nB ≤ safe → (∀ pg f nt d, target fr nB safe mxPage pg f → fr.[f - 1] = Some (pg, nt, d) → page_bytes sz pg (content db') = d) →
  page_view sz fr safe (zlen fr) pg (content db') = page_view sz fr nB (zlen fr) pg (content db).
Proof.
  intros Hpg Hle Hcp. destruct (view_cases fr nB (zlen fr) pg HnB) as [(f & nt & d & HL & Hf)|Hno].
  - rewrite (view_frame sz fr nB (zlen fr) pg _ HnB f nt d HL Hf). pose proof HL as (H1 & H2 & H3 & H4). destruct (Z.le_gt_cases f safe) as [Hfs|Hfs].
    + rewrite view_file; [|lia|intros f' (G1 & G2 & G3 & _); apply (H4 f'); [lia|done]]. apply (Hcp pg f nt d); [|done]. split; [done|]. lia.
    + apply (view_frame sz fr safe (zlen fr) pg _ ltac:(lia) f nt d); [|done]. split; [done|]. split; [lia|]. split; [done|]. intros i Hi. apply H4. lia.
  - rewrite !view_file; [|done|done|lia|].
    + apply Hsp; [lia| |by right; lia]. intros f (HT & _). by apply (Hno f).
    + intros f HL. apply (Hno f). eapply last_widen; [|exact HL]. lia.
Qed.
End views.

(** ** The whole checkpoint *)

Section whole.
Context (big sz nckpt : Z) (salt : list Z) (s : Z * Z) (fr : list frame) (F : list Z) (nB : Z).
Abbreviation ready := (checkpointing big sz nckpt salt s fr F).

(** What a checkpoint that does not start the log again leaves; [safe] is the last frame that it may have copied. *)
Record result (c c' : Conn) (db db' : file) (nB' safe : Z) : Prop := Result {
  rs_ready : ready nB' c';
  rs_step : safe_step c (with_fd (pWalFd c) c');
  rs_safe : safe ≤ zlen fr;
  rs_marks k y : 1 ≤ k < WAL_NREADER → get_info (info_aReadMark k) (wal c) = Some y → shut_out k c → safe ≤ y ∨ db' = db;
  rs_spared pg : 1 ≤ pg → (∀ f, ¬ target fr nB safe (nPage (hdr (wal c))) pg f) → safe < zlen fr ∨ pg ≤ nPage (hdr (wal c)) →
    page_bytes sz pg (content db') = page_bytes sz pg (content db);
  rs_copied : nB' = nB ∨ nB' = safe ∧ nB ≤ safe ∧ ∀ pg f nt d, target fr nB safe (nPage (hdr (wal c))) pg f → fr.[f - 1] = Some (pg, nt, d) → page_bytes sz pg (content db') = d }.

Lemma result_nothing c c' db : ready nB c → safe_step c c' → get_info info_nBackfill (wal c') = Some nB → result c c' db db nB (zlen fr).
Proof.
  intros HC HS Hg. pose proof HS as (HM & Hl & Ef). split; [|by destruct c'; cbn in Ef; subst|lia|by right|done|by left].
  eapply checkpointing_marked; [exact HC|exact HM|by rewrite Ef|done|apply HC].
Qed.

Lemma copy_back_made isInterrupted mallocFailed flags aTmp xBusy c db m :
  ready nB c → nB < zlen fr → Z.min (zlen fr) 4096 ≤ zlen aTmp →
  ∃ err rc it xb c' db' m' nB' safe, copy_back xShmMap isInterrupted mallocFailed sz flags aTmp xBusy c db m = Some (err, rc, it, xb, c', db', m') ∧
    (err = true → rc ≠ SQLITE_OK) ∧ result c c' db db' nB' safe.
Proof.
  intros HC HnB Ht. pose proof HC as [HP Hfr (s' & Hch) Hst (HR & HF & Hmax) (Hok & Emx & Hnp) Hlive (Hg & Hr)]. pose proof (checkpointing_mapped _ _ _ _ _ _ _ _ _ HC) as Hm.
  unfold copy_back. rewrite Emx.
  destruct (safe_loop_made F (Z.to_nat (WAL_NREADER - 1)) 1 (zlen fr) SQLITE_OK xBusy c HR Hm ltac:(lia) ltac:(unfold WAL_NREADER; lia)) as (err & rc & safe & xb & c1 & -> & Herr & HS1 & Hsafe & Hg1 & Hk1).
  cbn [mbind option_bind]. assert (Hgb : get_info info_nBackfill (wal c1) = Some nB) by (rewrite Hg1; [done|unfold info_nBackfill, info_aReadMark; lia]).
  destruct err. { do 7 eexists. exists nB, (zlen fr). split; [done|]. split; [done|]. by apply result_nothing. }
  rewrite Hgb. cbn [mbind option_bind]. destruct (Z.ltb_spec nB safe) as [Hlt|Hge].
  2: { cbn [mbind option_bind]. do 7 eexists. exists nB, (zlen fr). split; [done|]. split; [done|]. apply result_nothing; [done|by destruct c1|done]. }
  pose proof HS1 as (HM1 & Hl1 & Ef1). assert (HC1 : ready nB c1) by (eapply checkpointing_marked; [exact HC|exact HM1|by rewrite Ef1|done|done]).
  assert (HFl : zlen fr ≤ zlen F) by (apply (f_equal length) in HF; unfold pgnos in HF; rewrite length_take, length_map in HF; lia).
  pose proof (iterator_init_made xShmMap (wal c1) F (zlen fr) (mk_rep _ _ HM1 _ HR) ltac:(lia) shm_sized aTmp nB m ltac:(by rewrite (mk_hdr _ _ HM1)) ltac:(lia) Ht) as HI.
  destruct (sqlite3Malloc m) as [ok m1]. destruct ok.
  2: { rewrite HI. cbn [mbind option_bind]. do 7 eexists. exists nB, (zlen fr). split; [done|]. split; [done|]. apply result_nothing; [done|by destruct c1|done]. }
  destruct HI as (it & -> & Epr & HI). cbn [mbind option_bind]. assert (Ewc : with_wal (wal c1) c1 = c1) by by destruct c1. rewrite Ewc.
  destruct (busy_lock_made xb (WAL_READ_LOCK 0) 1 c1) as (rc2 & xb2 & c2 & -> & Ew2 & HS2 & _). pose proof (safe_trans _ _ _ HS1 HS2) as HS12. cbv beta iota.
  destruct (rc2 =? SQLITE_OK).
  2: { cbn [mbind option_bind]. do 7 eexists. exists nB, (zlen fr). split; [done|]. split; [done|]. apply result_nothing; [done|done|by rewrite Ew2]. }
  assert (HC2 : ready nB c2) by (destruct HS12 as (HM & _ & Ef); eapply checkpointing_marked; [exact HC|exact HM|by rewrite Ef|by rewrite Ew2|done]).
  assert (Enp : nPage (hdr (wal c)) = nPage (hdr (wal c2))) by (destruct HS12 as (HM & _); by rewrite (mk_hdr _ _ HM)).
  destruct (backfill_made _ _ _ _ _ fr F nB safe (nPage (hdr (wal c))) isInterrupted mallocFailed flags it c2 db HC2 ltac:(lia) Enp ltac:(by rewrite Ew2) Epr)
    as (rc3 & c3 & db3 & -> & HS3 & nB3 & HC3 & Hsp3 & Hcp3).
  cbn [mbind option_bind]. destruct (unlock_made (WAL_READ_LOCK 0) 1 c3) as (Ew4 & HS4). set (c4 := walUnlockExclusive _ _ c3) in *.
  do 7 eexists. exists nB3, safe. split; [done|]. split; [done|]. split; [| |done| |done|].
  - destruct HS4 as (HM4 & _ & Ef4). eapply checkpointing_marked; [exact HC3|exact HM4|by rewrite Ef4|rewrite Ew4; apply HC3|apply HC3].
  - destruct HS12 as (A1 & A2 & A3), HS3 as (B1 & B2 & B3), HS4 as (D1 & D2 & D3). cbn [wal shm with_fd] in *. split; [|split; [|done]]; cbn [wal shm with_fd].
    + eapply marked_trans; [exact A1|]. eapply marked_trans; [exact B1|exact D1].
    + etrans; [exact A2|]. by etrans.
  - intros k y Hk Ey Hsh. destruct (Hk1 k y ltac:(unfold WAL_NREADER in *; lia) Ey Hsh) as [?|?]; [done|by left].
  - destruct Hcp3 as [->|(-> & Hcp3)]; [by left|]. right. split; [done|]. split; [lia|done].
Qed.

(** The end of [walCheckpoint]: the next writer, or this one, starts the log again. *)
Lemma restart_made eMode xBusy salt1 (err : bool) rc nB' c : ready nB' c → (err = true → rc ≠ SQLITE_OK) → length salt1 = 4%nat → bytes salt1 →
  ∃ rc' c' nB2, (if negb err && (rc =? SQLITE_OK) && negb (eMode =? SQLITE_CHECKPOINT_PASSIVE) then
      nBackfill ← get_info info_nBackfill (wal c);
      if nBackfill <? mxFrame (hdr (wal c)) then Some (SQLITE_BUSY, c)
      else if SQLITE_CHECKPOINT_RESTART <=? eMode then
        let '(rc, xBusy, c) := walBusyLock xBusy (WAL_READ_LOCK 1) (WAL_NREADER - 1) c in
        if rc =? SQLITE_OK then
          '(rc, c) ← (if eMode =? SQLITE_CHECKPOINT_TRUNCATE then
              w ← walRestartHdr salt1 (wal c); let '(rc, f) := OsTruncate (pWalFd c) 0 in Some (rc, with_fd f (with_wal w c))
            else Some (rc, c));
          Some (rc, walUnlockExclusive (WAL_READ_LOCK 1) (WAL_NREADER - 1) c)
        else Some (rc, c)
      else Some (rc, c)
    else Some (rc, c)) = Some (rc', c') ∧ get_info info_nBackfill (wal c') = Some nB2 ∧
    (nB2 = nB' ∧ mxFrame (hdr (wal c')) = zlen fr ∧ pWalFd c' = pWalFd c ∨
     nB2 = 0 ∧ mxFrame (hdr (wal c')) = 0 ∧ nB' = zlen fr ∧ eMode = SQLITE_CHECKPOINT_TRUNCATE ∧ ∀ k, 1 ≤ k < WAL_NREADER → ¬ shut_out k c) ∧
    (rc' = SQLITE_OK → eMode ≠ SQLITE_CHECKPOINT_PASSIVE → nB2 = mxFrame (hdr (wal c'))).
Proof.
  intros HC Herr Hl1 Hb1. pose proof HC as [_ _ _ _ (HR & _) (Hok & Emx & _) _ (Hg & Hr)]. pose proof (checkpointing_mapped _ _ _ _ _ _ _ _ _ HC) as Hm.
  destruct (negb err && (rc =? SQLITE_OK) && negb (eMode =? SQLITE_CHECKPOINT_PASSIVE)) eqn:Eb.
  2: { exists rc, c, nB'. split; [done|]. split; [done|]. split; [by left|]. intros -> Hne. destruct err; [by destruct (Herr eq_refl)|].
       apply Z.eqb_neq in Hne. rewrite Hne in Eb. done. }
  rewrite Hg. cbn [mbind option_bind]. rewrite Emx. destruct (Z.ltb_spec nB' (zlen fr)) as [Hlt|Hge]; [exists SQLITE_BUSY, c, nB'; by split_and!; auto|].
  assert (HnB : nB' = zlen fr) by lia. apply andb_true_iff in Eb as ((_ & Erc%Z.eqb_eq)%andb_true_iff & _). subst rc.
  destruct (SQLITE_CHECKPOINT_RESTART <=? eMode); [|exists SQLITE_OK, c, nB'; split_and!; auto; lia].
  destruct (busy_lock_made xBusy (WAL_READ_LOCK 1) (WAL_NREADER - 1) c) as (rc1 & xb & c1 & -> & Ew & HS & Hsh). cbv beta iota. pose proof HS as (_ & _ & Ef).
  destruct (Z.eqb_spec rc1 SQLITE_OK) as [->|Hne]; [|exists rc1, c1, nB'; rewrite Ew, Ef; split_and!; auto; lia].
  destruct (Z.eqb_spec eMode SQLITE_CHECKPOINT_TRUNCATE) as [Em|Em].
  2: { cbn [mbind option_bind]. destruct (unlock_made (WAL_READ_LOCK 1) (WAL_NREADER - 1) c1) as (Ew2 & _ & _ & Ef2). eexists _, _, nB'. split; [done|]. rewrite Ew2, Ew, Ef2, Ef. split_and!; auto; lia. }
  rewrite Ew. destruct (restart_hdr_made salt1 (wal c) F HR Hm Hok Hl1 Hb1) as (w2 & -> & Emx2 & Hg2 & _). cbn [mbind option_bind].
  destruct (OsTruncate (pWalFd c1) 0) as [rc2 f2]. cbn [mbind option_bind]. destruct (unlock_made (WAL_READ_LOCK 1) (WAL_NREADER - 1) (with_fd f2 (with_wal w2 c1))) as (Ew2 & _).
  eexists _, _, 0. split; [done|]. rewrite Ew2. cbn [wal with_fd with_wal]. split; [done|]. split; [|by intros _ _].
  right. split_and!; auto. intros k Hk Hs. apply (Hsh k); [unfold WAL_READ_LOCK, WAL_NREADER in *; lia|done|done].
Qed.
End whole.
End checkpoint.

(** ** The property *)

(** C12: A checkpoint changes nothing that anyone sees.  Whatever its mode, whichever locks are refused, and also when it fails
    at any step, [walCheckpoint] comes to a result, and the latest version of every page of the database is the same before and after: with the
    [nBackfill] that it leaves, the page is in a later frame of the log or in the database file.  A reader that holds a read lock, with
    the mark [y] as its snapshot and a log that it reads from behind any earlier [nBackfill], sees what it saw before as well, and the
    log it reads is still in its file.  When a checkpoint other than a passive one succeeds, the database file has everything. *)
Theorem walCheckpoint_view file locks `{!FileOps file, !ShmLocks locks, !FileLaws file} xShmMap big sz nckpt salt s fr F nB isInterrupted mallocFailed eMode flags xBusy salt1 aTmp
    (c : Conn (file := file) (locks := locks)) (db : file) m :
  shm_pages xShmMap → checkpointing big sz nckpt salt s fr F nB c → walPagesize (wal c) = sz →
  length salt1 = 4%nat → bytes salt1 → Z.min (zlen fr) 4096 ≤ zlen aTmp →
  ∃ rc c' db' m' nB', walCheckpoint xShmMap isInterrupted mallocFailed eMode flags xBusy salt1 aTmp c db m = Some (rc, c', db', m') ∧
    get_info info_nBackfill (wal c') = Some nB' ∧
    (∀ pg, 1 ≤ pg ≤ nPage (hdr (wal c)) →
       page_view sz fr nB' (mxFrame (hdr (wal c'))) pg (content db') = page_view sz fr nB (zlen fr) pg (content db)) ∧
    (∀ k y lo pg, 1 ≤ k < WAL_NREADER → get_info (info_aReadMark k) (wal c) = Some y → shut_out k c →
       0 ≤ lo ≤ nB → y ≤ zlen fr → 1 ≤ pg → y < zlen fr ∨ pg ≤ nPage (hdr (wal c)) →
       page_view sz fr lo y pg (content db') = page_view sz fr lo y pg (content db) ∧ starts (pWalFd c') (log_bytes big sz nckpt salt s fr)) ∧
    (rc = SQLITE_OK → eMode ≠ SQLITE_CHECKPOINT_PASSIVE → nB' = mxFrame (hdr (wal c'))).
Proof.
  intros Hsh HC Esz Hl1 Hb1 Ht. unfold walCheckpoint. rewrite Esz. destruct (cp_hdr _ _ _ _ _ _ _ _ _ HC) as (_ & Emx & _). destruct (cp_backfill _ _ _ _ _ _ _ _ _ HC) as (Hg & Hr).
  rewrite Hg. cbn [mbind option_bind]. rewrite Emx.
  assert (H1 : ∃ err rc it xb c1 db1 m1 nB1 safe, (if nB <? zlen fr then copy_back xShmMap isInterrupted mallocFailed sz flags aTmp xBusy c db m
      else Some (false, SQLITE_OK, false, xBusy, c, db, m)) = Some (err, rc, it, xb, c1, db1, m1) ∧ (err = true → rc ≠ SQLITE_OK) ∧
      result big sz nckpt salt s fr F nB c c1 db db1 nB1 safe).
  { destruct (Z.ltb_spec nB (zlen fr)); [by apply copy_back_made|]. do 7 eexists. exists nB, (zlen fr). split; [done|]. split; [done|]. apply result_nothing; [done|apply safe_refl|done]. }
  destruct H1 as (err & rc & it & xb & c1 & db1 & m1 & nB1 & safe & -> & Herr & [R1 R2 R3 R4 R5 R6]). cbn [mbind option_bind].
  destruct (restart_made _ _ _ _ _ _ _ eMode xb salt1 err rc nB1 c1 R1 Herr Hl1 Hb1) as (rc' & c' & nB2 & -> & Hg2 & HE & Hfull). cbn [mbind option_bind].
  assert (Hv : ∀ pg, 1 ≤ pg ≤ nPage (hdr (wal c)) → page_view sz fr nB1 (zlen fr) pg (content db1) = page_view sz fr nB (zlen fr) pg (content db)).
  { intros pg Hpg. destruct R6 as [->|(-> & Hle & Hcp)]; [eapply reader_view; [exact R5|lia|lia|lia|by right; lia]|]. eapply copied_view; [lia|exact R5|lia|done|exact Hcp]. }
  do 4 eexists. exists nB2. split; [done|]. split; [done|]. split; [|split; [|done]].
  - intros pg Hpg. rewrite <- (Hv pg Hpg). destruct HE as [(-> & -> & _)|(-> & -> & -> & _)]; [done|].
    rewrite !view_file; [done|lia|intros f (? & ? & _); lia|lia|intros f (? & ? & _); lia].
  - intros k y lo pg Hk Ey Hs Hlo Hy Hpg Hd. destruct (R4 k y Hk Ey Hs) as [Hle|E0].
    2: { subst db1. split; [done|]. destruct HE as [(_ & _ & ->)|(_ & _ & _ & _ & Hno)]; [apply R1|]. by destruct (Hno k Hk); eapply (shut_step _ _ _ R2). }
    split; [eapply reader_view; [exact R5|lia|lia|done|done]|].
    destruct HE as [(_ & _ & ->)|(_ & _ & _ & _ & Hno)]; [apply R1|]. by destruct (Hno k Hk); eapply (shut_step _ _ _ R2).
Qed.

#[local] Existing Instance mem_file_ops.
#[local] Existing Instance no_locks.
#[local] Existing Instance mem_file_laws.

(** A log to which page 7 was committed is ready for a checkpoint. *)
Lemma one_commit : ∃ big nckpt salt s fr (c : Conn (file := mem_file) (locks := unit)),
  checkpointing big 512 nckpt salt s fr [7] 0 c ∧ walPagesize (wal c) = 512 ∧ nPage (hdr (wal c)) = 7 ∧ fr = [(7, 7, replicate 512 65)].
Proof.
  assert (Hs : same_hdr (wal empty_conn) = Some true) by (vm_compute; reflexivity).
  destruct (walFrames_made no_shm no_shm_pages [] small_salt true false (-1) 0 512 0 small_salt (0, 0) [] one_page 7 true 2 empty_conn empty_conn (Mem [] 0)
    Hs eq_refl empty_indexed empty_begins ltac:(discriminate) one_page_ok ltac:(lia)) as (rc & c & m & E & HOK & _).
  assert (Hv : ('(rc, c, _) ← walFrames no_shm [] small_salt true false (-1) 512 one_page 7 true 2 empty_conn (Mem [] 0);
    live ← get_words 0 (wal c); x ← live.[4]; Some (rc, mxFrame (hdr (wal c)), walPagesize (wal c), nPage (hdr (wal c)), get_info info_nBackfill (wal c), x)) = Some (0, 1, 512, 7, Some 0, 1))
    by (vm_compute; reflexivity).
  rewrite E in Hv. cbn [mbind option_bind] in Hv. destruct (get_words 0 (wal (file := mem_file) (locks := unit) c)) as [live|] eqn:El; [|discriminate Hv]. cbn [mbind option_bind] in Hv.
  destruct live.[4] as [x|] eqn:Ex; [|discriminate Hv]. injection Hv as -> Emx Esz Enp Enb ->.
  destruct (HOK eq_refl) as (p & e & big & nckpt & salt & s & Elast & _ & HL & HR & Hmx & Hok & _). injection Elast as <-. clear HOK.
  assert (e = 0%nat) as ->. { change (mxFrame (hdr (wal (file := mem_file) (locks := unit) c)) = 1) in Emx. rewrite Emx, !length_app, length_replicate in Hmx. cbn in Hmx. lia. }
  set (fr := [] ++ _) in *. assert (Efr : fr = [(7, 7, replicate 512 65)]) by (vm_compute; reflexivity). clearbody fr.
  exists big, nckpt, salt, s, fr, c. split; [|exact (conj Esz (conj Enp Efr))]. pose proof HL as [HP Hfr Hst Hch _ _ _ _ _]. split; [exact HP|exact Hfr|by eexists|exact Hst| | | |].
  - replace (pgnos fr) with [7] in * by (by rewrite Efr). split; [exact HR|]. split; [by rewrite Efr|]. repeat constructor; lia.
  - split; [exact Hok|]. split; [exact Hmx|]. change (0 ≤ nPage (hdr (wal (file := mem_file) (locks := unit) c))). rewrite Enp. lia.
  - intros live' x' El' Ex'. change (get_words 0 (wal (file := mem_file) (locks := unit) c) = Some live') in El'. rewrite El in El'. injection El' as <-. rewrite Ex in Ex'. injection Ex' as <-. rewrite Efr. cbn. lia.
  - split; [exact Enb|]. rewrite Efr. cbn. lia.
Qed.

Lemma walCheckpoint_view_witness :
  ∃ nB' rc (c c' : Conn (file := mem_file) (locks := unit)) fr db' m', nPage (hdr (wal c)) = 7 ∧
    walCheckpoint no_shm (λ _, false) false 1 10 None [1; 2; 3; 4] [0] c ([] : mem_file) (Mem [] 0) = Some (rc, c', db', m') ∧
    get_info info_nBackfill (wal c') = Some nB' ∧ page_view 512 fr nB' (mxFrame (hdr (wal c'))) 7 db' = replicate 512 65.
Proof.
  destruct one_commit as (big & nckpt & salt & s & fr & c & HC & Esz & Enp & Efr).
  destruct (walCheckpoint_view mem_file unit no_shm big 512 nckpt salt s fr [7] 0 (λ _, false) false 1 10 None [1; 2; 3; 4] [0] c [] (Mem [] 0) no_shm_pages HC Esz eq_refl)
    as (rc & c' & db' & m' & nB' & E & Hg & Hv & _); [repeat constructor; lia|rewrite Efr; cbn; lia|]. exists nB', rc, c, c', fr, db', m'. split; [exact Enp|]. split; [exact E|]. split; [exact Hg|].
  specialize (Hv 7). rewrite Enp in Hv. specialize (Hv ltac:(lia)). refine (eq_trans Hv _). rewrite Efr. reflexivity.
Defined.
