(* ===== verification/WalCommitProofs.v ===== *)
(** Proofs about a whole call of [walFrames] (WalWrite.v), with [walRestartLog] and the read lock that it takes anew: what is in the log and
    in the wal-index after a transaction, and that the log file alone is enough to build the index again. *)
From S2P Require Import Prelude Varint Wal WalProofs WalFrame WalFrameProofs WalRecoverProofs WalWrite WalWriteProofs WalCheckpointProofs.

Section commit.
Context {file locks : Type} `{!FileOps file, !ShmLocks locks, !FileLaws file}.
Notation Conn := (Conn (file := file) (locks := locks)).

(** ** The read lock of the writer *)

(** Only locks, read marks and the connection's own lock and [minFrame] changed. *)
Record kept (c c' : Conn) : Prop := Kept {
  kp_hdr : hdr (wal c') = hdr (wal c);
  kp_szPage : szPage (wal c') = szPage (wal c);
  kp_recksum : iReCksum (wal c') = iReCksum (wal c);
  kp_nCkpt : nCkpt (wal c') = nCkpt (wal c);
  kp_fd : pWalFd c' = pWalFd c;
  kp_rep F : represents (wal c) F → represents (wal c') F;
  kp_mapped : mapped 0 (wal c) → mapped 0 (wal c') }.

Lemma conn_kept_refl c : kept c c.
Proof. by split. Qed.
Lemma conn_kept_trans c c1 c2 : kept c c1 → kept c1 c2 → kept c c2.
Proof. intros [] []. split; (congruence || eauto). Qed.

(** The state is one of a log with the pages [F] in its index. *)
Definition usable (F : list Z) (c : Conn) : Prop := represents (wal c) F ∧ mapped 0 (wal c) ∧ hdr_ok (hdr (wal c)).
Lemma kept_usable F c c' : usable F c → kept c c' → usable F c'.
Proof. intros (H1 & H2 & H3) [E _ _ _ _ HR Hm]. split; [by apply HR|]. split; [by apply Hm|by rewrite E]. Qed.

Lemma lock_kept j n e c : ∃ rc c', lock j n e c = (rc, c') ∧ kept c c' ∧ wal c' = wal c.
Proof.
  unfold lock. destruct (negb _); [exists SQLITE_OK, c; split; [done|]; split; [apply conn_kept_refl|done]|]. destruct (ShmLock (shm c) j n e) as [rc l]. eexists _, _. split; [done|]. by split.
Qed.
Lemma unlock_kept j n e c : kept c (unlock j n e c) ∧ wal (unlock j n e c) = wal c.
Proof. unfold unlock. destruct (negb _); [split; [apply conn_kept_refl|done]|]. by split. Qed.

Lemma info_kept F k v c : usable F c → 24 ≤ k < 34 → ∃ w, set_info k v (wal c) = Some w ∧ kept c (with_wal w c).
Proof.
  intros (HR & Hm & _) Hk. destruct (set_info_marked k v (wal c) F HR Hm Hk) as (w & E & HM & _). exists w. split; [done|].
  assert (Hw : szPage w = szPage (wal c) ∧ iReCksum w = iReCksum (wal c) ∧ nCkpt w = nCkpt (wal c)).
  { unfold set_info in E. apply bind_Some in E as (p & _ & E). apply bind_Some in E as (l & _ & E). by injection E as <-. }
  destruct Hw as (? & ? & ?). destruct HM. by split.
Qed.

Lemma info_read F k c : usable F c → 0 ≤ k < 4096 → ∃ v, get_info k (wal c) = Some v.
Proof.
  intros (HR & (p & Hp) & _) Hk. unfold get_info. rewrite Hp. cbn [mbind option_bind]. destruct (rep_sized _ _ HR 0 p Hp) as (Hl & _). apply rd_in_bounds. wal_consts. lia.
Qed.

Lemma same_hdr_read F c : usable F c → ∃ b, same_hdr (wal c) = Some b.
Proof.
  intros (_ & (p & Hp) & Hok). unfold same_hdr, get_words. destruct (hdr_words_made _ Hok) as (l & -> & _). rewrite Hp. cbn [mbind option_bind]. by eexists.
Qed.

Lemma best_mark_made F mx c (n : nat) : usable F c → ∀ i r mi, 1 ≤ i → 0 ≤ mi → i + Z.of_nat n ≤ WAL_NREADER → mi < WAL_NREADER →
  ∃ r' mi', best_mark n i mx r mi (wal c) = Some (r', mi') ∧ 0 ≤ mi' < WAL_NREADER.
Proof.
  unfold WAL_NREADER. intros HU. induction n as [|n IH]; intros i r mi Hi Hmi Hn Hlt; cbn [best_mark]; [by exists r, mi|].
  destruct (info_read F (info_aReadMark i) c HU) as (v & ->); [unfold info_aReadMark; lia|]. cbn [mbind option_bind]. destruct ((r <=? v) && _); apply IH; lia.
Qed.

Lemma new_mark_made F mx (n : nat) : ∀ i rc r mi c, usable F c → 1 ≤ i → i + Z.of_nat n ≤ WAL_NREADER → 0 ≤ mi < WAL_NREADER →
  ∃ err rc' r' mi' c', new_mark n i mx rc r mi c = Some (err, rc', r', mi', c') ∧ kept c c' ∧ 0 ≤ mi' < WAL_NREADER.
Proof.
  unfold WAL_NREADER. induction n as [|n IH]; intros i rc r mi c HU Hi Hn Hmi; cbn [new_mark]; [do 5 eexists; split; [done|]; split; [apply conn_kept_refl|done]|].
  unfold walLockExclusive. destruct (lock_kept (WAL_READ_LOCK i) 1 true c) as (rc1 & c1 & -> & K1 & _). pose proof (kept_usable _ _ _ HU K1) as HU1. destruct (rc1 =? SQLITE_OK).
  - destruct (info_kept F (info_aReadMark i) mx c1 HU1) as (w & -> & K2); [unfold info_aReadMark; lia|]. cbn [mbind option_bind].
    destruct (unlock_kept (WAL_READ_LOCK i) 1 true (with_wal w c1)) as (K3 & _). do 5 eexists. split; [done|]. split; [|lia]. eapply conn_kept_trans; [exact K1|]. by eapply conn_kept_trans.
  - destruct (negb (rc1 =? SQLITE_BUSY)); [do 5 eexists; by split|]. destruct (IH (i + 1) rc1 r mi c1 HU1) as (err & rc' & r' & mi' & c' & E & K & H); [lia|lia|lia|].
    do 5 eexists. split; [exact E|]. split; [by eapply conn_kept_trans|done].
Qed.

Lemma try_begin_made F cnt c : usable F c → ∃ rc c', walTryBeginRead cnt c = Some (rc, cnt + 1, c') ∧ kept c c' ∧ (WAL_RETRY_PROTOCOL_LIMIT < cnt + 1 → rc = SQLITE_PROTOCOL).
Proof.
  intros HU. unfold walTryBeginRead, WAL_RETRY_PROTOCOL_LIMIT. destruct ((5 <? cnt + 1) && (100 <? cnt + 1)) eqn:E; [do 2 eexists; split; [done|]; split; [apply conn_kept_refl|done]|].
  assert (Hno : 100 < cnt + 1 → False) by (intros H; destruct (Z.ltb_spec 5 (cnt + 1)), (Z.ltb_spec 100 (cnt + 1)); (done || lia)).
  destruct (best_mark_made F (mxFrame (hdr (wal c))) c (Z.to_nat (WAL_NREADER - 1)) HU 1 0 0) as (r & mi & -> & Hmi); [lia|lia|unfold WAL_NREADER; lia|unfold WAL_NREADER; lia|]. cbn [mbind option_bind].
  assert (HN : ∃ err rc r' mi' c', (if (Z.land (readOnly (wal c)) WAL_SHM_RDONLY =? 0) && ((r <? mxFrame (hdr (wal c))) || (mi =? 0))
      then new_mark (Z.to_nat (WAL_NREADER - 1)) 1 (mxFrame (hdr (wal c))) SQLITE_OK r mi c else Some (false, SQLITE_OK, r, mi, c)) = Some (err, rc, r', mi', c') ∧ kept c c' ∧ 0 ≤ mi' < WAL_NREADER).
  { match goal with |- context [if ?b then new_mark _ _ _ _ _ _ _ else _] => destruct b end; [apply (new_mark_made F); [done|lia|unfold WAL_NREADER; lia|done]|]. do 5 eexists. split; [done|]. split; [apply conn_kept_refl|done]. }
  destruct HN as (err & rc & r' & mi' & c1 & -> & K1 & Hmi'). cbn [mbind option_bind]. destruct err; [do 2 eexists; by split|]. destruct (mi' =? 0); [do 2 eexists; by split|].
  unfold walLockShared. destruct (lock_kept (WAL_READ_LOCK mi') 1 false c1) as (rc2 & c2 & -> & K2 & _). pose proof (conn_kept_trans _ _ _ K1 K2) as K12. pose proof (kept_usable _ _ _ HU K12) as HU2.
  destruct (negb (rc2 =? SQLITE_OK)); [do 2 eexists; by split|]. destruct (info_read F info_nBackfill c2 HU2) as (nb & ->); [unfold info_nBackfill; lia|]. cbn [mbind option_bind].
  set (c3 := with_wal (with_minFrame (u32 (nb + 1)) (wal c2)) c2). assert (K3 : kept c2 c3) by (split; try done; intros F' []; by split).
  pose proof (conn_kept_trans _ _ _ K12 K3) as K13. pose proof (kept_usable _ _ _ HU K13) as HU3. unfold WAL_NREADER in Hmi'.
  destruct (info_read F (info_aReadMark mi') c3 HU3) as (mk & ->); [unfold info_aReadMark; lia|]. cbn [mbind option_bind]. destruct (same_hdr_read F c3 HU3) as (b & ->). cbn [mbind option_bind].
  destruct (negb (mk =? r') || negb b).
  - destruct (unlock_kept (WAL_READ_LOCK mi') 1 false c3) as (K4 & _). do 2 eexists. split; [done|]. split; [by eapply conn_kept_trans|done].
  - do 2 eexists. split; [done|]. split; [|done]. eapply conn_kept_trans; [exact K13|]. split; try done. intros F' []. by split.
Qed.

Lemma retry_made F (n : nat) : ∀ cnt c, usable F c → 0 ≤ cnt ≤ 100 → 101 ≤ Z.of_nat n + cnt → ∃ rc c', retry_loop n cnt c = Some (rc, c') ∧ kept c c'.
Proof.
  induction n as [|n IH]; intros cnt c HU Hc Hn; [lia|]. cbn [retry_loop]. destruct (try_begin_made F cnt c HU) as (rc & c1 & -> & K & Hp). cbn [mbind option_bind].
  destruct (Z.eqb_spec rc WAL_RETRY) as [->|_]; [|by exists rc, c1]. unfold WAL_RETRY_PROTOCOL_LIMIT in Hp.
  destruct (Z.lt_ge_cases 100 (cnt + 1)) as [Hlt|Hge]; [by specialize (Hp Hlt)|]. destruct (IH (cnt + 1) c1 (kept_usable _ _ _ HU K)) as (rc & c' & E & K'); [lia|lia|].
  exists rc, c'. split; [exact E|]. by eapply conn_kept_trans.
Qed.

(** ** The log from the start again *)

(** The log may be overwritten from its start: the connection reads nothing of it, and all of it has been copied. *)
Definition restarts (c : Conn) : Prop := readLock (wal c) = 0 ∧ ∃ n, get_info info_nBackfill (wal c) = Some n ∧ 0 < n.

Lemma restart_log_made salt1 F c : usable F c → 0 ≤ nCkpt (wal c) < 2 ^ 32 → length salt1 = 4%nat → bytes salt1 →
  ∃ rc c', walRestartLog salt1 c = Some (rc, c') ∧
    (kept c c' ∨ restarts c ∧ usable F c' ∧ mxFrame (hdr (wal c')) = 0 ∧ 0 ≤ nCkpt (wal c') < 2 ^ 32 ∧ iReCksum (wal c') = iReCksum (wal c)).
Proof.
  intros HU Hn Hl Hb. unfold walRestartLog. destruct (Z.eqb_spec (readLock (wal c)) 0) as [Er|Er]; cbn [negb]; [|exists SQLITE_OK, c; split; [done|left; apply conn_kept_refl]].
  destruct (info_read F info_nBackfill c HU) as (nb & Enb); [unfold info_nBackfill; lia|]. rewrite Enb. cbn [mbind option_bind].
  assert (HEND : ∀ c1, usable F c1 → ∃ rc c', (let c := walUnlockShared (WAL_READ_LOCK 0) c1 in retry_loop (Z.to_nat (WAL_RETRY_PROTOCOL_LIMIT + 2)) 0 (with_wal (with_readLock (-1) (wal c)) c)) = Some (rc, c') ∧ kept c1 c').
  { intros c1 HU1. destruct (unlock_kept (WAL_READ_LOCK 0) 1 false c1) as (K1 & _). cbv zeta. unfold walUnlockShared. set (c2 := unlock _ _ _ c1) in *.
    assert (K2 : kept c2 (with_wal (with_readLock (-1) (wal c2)) c2)) by (split; try done; intros F' []; by split). pose proof (conn_kept_trans _ _ _ K1 K2) as K.
    destruct (retry_made F (Z.to_nat (WAL_RETRY_PROTOCOL_LIMIT + 2)) 0 _ (kept_usable _ _ _ HU1 K)) as (rc & c' & E & K'); [lia|unfold WAL_RETRY_PROTOCOL_LIMIT; lia|]. exists rc, c'. split; [exact E|]. by eapply conn_kept_trans. }
  destruct (Z.ltb_spec 0 nb) as [Hpos|_].
  2: { cbn [mbind option_bind]. destruct (HEND c HU) as (rc & c' & E & K). exists rc, c'. split; [exact E|by left]. }
  unfold walLockExclusive. destruct (lock_kept (WAL_READ_LOCK 1) (WAL_NREADER - 1) true c) as (rc & c1 & -> & K1 & Ew). pose proof (kept_usable _ _ _ HU K1) as HU1.
  destruct (rc =? SQLITE_OK).
  - rewrite Ew. destruct HU as (HR & Hm & Hok). destruct (restart_hdr_made salt1 (wal c) F HR Hm Hok Hl Hb) as (w2 & E2 & Emx & _ & HR2 & Hm2 & Hok2). rewrite E2. cbn [mbind option_bind].
    assert (Hw2 : nCkpt w2 = u32 (nCkpt (wal c) + 1) ∧ iReCksum w2 = iReCksum (wal c)).
    { assert (HSI : ∀ k v w w', set_info k v w = Some w' → nCkpt w' = nCkpt w ∧ iReCksum w' = iReCksum w).
      { intros k v w w' E. unfold set_info in E. apply bind_Some in E as (p & _ & E). apply bind_Some in E as (l & _ & E). by injection E as <-. }
      assert (HUM : ∀ n i w w', unused_marks n i w = Some w' → nCkpt w' = nCkpt w ∧ iReCksum w' = iReCksum w).
      { induction n as [|n IH]; intros i w w' E; cbn [unused_marks] in E; [by injection E as <-|]. apply bind_Some in E as (x & E1 & E). apply HSI in E1 as [<- <-]. by eapply IH. }
      unfold walRestartHdr in E2. apply bind_Some in E2 as (s0 & _ & E2). apply bind_Some in E2 as (x1 & E1 & E2). apply bind_Some in E2 as (x2 & F1 & E2). apply bind_Some in E2 as (x3 & F2 & E2).
      apply bind_Some in E2 as (x4 & F3 & E2). apply HUM in E2 as [-> ->]. apply HSI in F3 as [-> ->]. apply HSI in F2 as [-> ->]. apply HSI in F1 as [-> ->].
      unfold walIndexWriteHdr, put_words in E1. repeat (apply bind_Some in E1 as (? & ? & E1)). injection E1 as <-. repeat match goal with H : _ = Some _ |- _ => apply bind_Some in H as (? & ? & H) end.
      repeat match goal with H : Some _ = Some _ |- _ => injection H as <- end. done. }
    set (c2 := walUnlockExclusive _ _ (with_wal w2 c1)). assert (Ew2 : wal c2 = w2) by (unfold c2, walUnlockExclusive; by rewrite (proj2 (unlock_kept _ _ _ _))).
    assert (HU2 : usable F c2) by (by split; [|split]; rewrite Ew2). destruct (HEND c2 HU2) as (rc' & c' & E & K). exists rc', c'. split; [exact E|]. right. split; [split; [done|by exists nb]|].
    split; [exact (kept_usable _ _ _ HU2 K)|]. rewrite (kp_hdr _ _ K), (kp_nCkpt _ _ K), (kp_recksum _ _ K), Ew2. split; [done|]. destruct Hw2 as [-> ->]. split; [apply u32_range|done].
  - cbn [mbind option_bind]. destruct (negb (rc =? SQLITE_BUSY)); [exists rc, c1; split; [done|by left]|]. destruct (HEND c1 HU1) as (rc' & c' & E & K). exists rc', c'. split; [exact E|left; by eapply conn_kept_trans].
Qed.
Lemma kept_indexed fr (c c' : Conn) : indexed fr (wal c) → kept c c' → indexed fr (wal c').
Proof. intros [(F & HR & HF) Hmx Hok] [E _ _ _ _ HR' _]. split; [exists F; split; [by apply HR'|done]|by rewrite E|by rewrite E]. Qed.

Lemma kept_logged big sz nckpt salt s fr (c c' : Conn) : logged big sz nckpt salt s fr c → kept c c' → logged big sz nckpt salt s fr c'.
Proof. intros [] [E1 E2 E3 _ E5 _ _]. split; rewrite ?E1, ?E2, ?E3, ?E5; done. Qed.

Lemma same_hdr_mapped (c : Conn) : same_hdr (wal c) = Some true → mapped 0 (wal c).
Proof.
  unfold same_hdr, get_words, mapped. intros E. apply bind_Some in E as (l & _ & E). apply bind_Some in E as (l' & E & _). destruct (index_page (wal c) 0) as [p|]; [by exists p|done].
Qed.

(** A connection at the start of a transaction, with the frames [fr] in its log. *)
Record beginning (salt1 salts : list Z) (big sz nckpt : Z) (salt : list Z) (s : Z * Z) (fr : list frame) (c : Conn) : Prop := Beginning {
  bg_same : same_hdr (wal c) = Some true;
  bg_index : indexed fr (wal c);
  bg_begin : may_begin salts sz c;
  bg_logged : fr ≠ [] → logged big sz nckpt salt s fr c;
  bg_salt1 : length salt1 = 4%nat ∧ bytes salt1 }.

Lemma frames_made xShmMap salt1 salts syncHeader pad mxWalSize big sz nckpt salt s fr pList nT isCommit flags (c : Conn) m :
  shm_pages xShmMap → beginning salt1 salts big sz nckpt salt s fr c → pList ≠ [] → Forall (page_ok sz) pList → 0 ≤ nT < 2 ^ 32 →
  ∃ rc c' m', walFrames xShmMap salt1 salts syncHeader pad mxWalSize sz pList nT isCommit flags c m = Some (rc, c', m') ∧
    (rc = SQLITE_OK → ∃ fr0 p (e : nat) big' nckpt' salt' s', last pList = Some p ∧ (fr0 = fr ∨ fr0 = [] ∧ restarts c) ∧ (fr0 ≠ [] → (big', nckpt', salt', s') = (big, nckpt, salt, s)) ∧
       committed_to fr0 (page_frames nT isCommit pList ++ replicate e (pgno p, nT, pData p)) nT isCommit big' sz nckpt' salt' s' c') ∧
    (rc ≠ SQLITE_OK → fr ≠ [] → restarts c ∨ starts (pWalFd c') (log_bytes big sz nckpt salt s fr) ∧ indexed fr (wal c')).
Proof.
  intros Hsh [Hsame HI (Hsz & Hnk & Hsl & Hrk) HL (Hl1 & Hb1)] Hne Hok HnT. pose proof HI as [(F & HR & HF) Hmx Hho].
  assert (HU : usable F c) by (split; [done|]; split; [by apply same_hdr_mapped|done]). destruct (restart_log_made salt1 F c HU Hnk Hl1 Hb1) as (rc & c0 & Hre & HK).
  destruct (Z.eq_dec rc SQLITE_OK) as [->|Hrc].
  2: { exists rc, c0, m. split; [|split; [done|]].
    - destruct (same_hdr_live _ Hsame) as (live & El & E4). unfold walFrames. rewrite Hsame, El. cbn [mbind option_bind]. rewrite E4. cbn [mbind option_bind]. rewrite Hre. cbn [mbind option_bind].
      by destruct (Z.eqb_spec rc SQLITE_OK).
    - intros _ Hfr. destruct HK as [HK|(HS & _)]; [|by left]. right. split; [|by eapply kept_indexed]. rewrite (kp_fd _ _ HK). apply (lg_starts _ _ _ _ _ _ _ (HL Hfr)). }
  destruct HK as [HK|(HS & (HR0 & Hm0 & Hho0) & Hmx0 & Hnk0 & Hrk0)].
  - assert (Hb0 : match fr with [] => may_begin salts sz c0 | _ => logged big sz nckpt salt s fr c0 end).
    { destruct fr; [|by eapply kept_logged; [apply HL|]]. split; [done|]. by rewrite (kp_nCkpt _ _ HK), (kp_recksum _ _ HK). }
    destruct (walFrames_made xShmMap Hsh salt1 salts syncHeader pad mxWalSize big sz nckpt salt s fr pList nT isCommit flags c c0 m Hsame Hre (kept_indexed _ _ _ HI HK) Hb0 Hne Hok HnT)
      as (rc & c' & m' & E & H1 & H2).
    exists rc, c', m'. split; [exact E|]. split; [|intros Hr Hfr; right; by apply H2]. intros Hr. destruct (H1 Hr) as (p & e & big' & nckpt' & salt' & s' & Hl & Hp & HC).
    exists fr, p, e, big', nckpt', salt', s'. split; [done|]. split; [by left|]. by split.
  - assert (HI0 : indexed [] (wal c0)) by (split; [exists F; by split|done|done]). assert (Hb0 : may_begin salts sz c0) by (split; [done|]; split; [done|]; split; [done|congruence]).
    destruct (walFrames_made xShmMap Hsh salt1 salts syncHeader pad mxWalSize big sz nckpt salt s [] pList nT isCommit flags c c0 m Hsame Hre HI0 Hb0 Hne Hok HnT) as (rc & c' & m' & E & H1 & _).
    exists rc, c', m'. split; [exact E|]. split; [|by left]. intros Hr. destruct (H1 Hr) as (p & e & big' & nckpt' & salt' & s' & Hl & _ & HC).
    exists [], p, e, big', nckpt', salt', s'. split; [done|]. split; [by right|]. by split.
Qed.
End commit.

(** ** The properties *)

(** C13: [walFrames] writes a transaction.  For the first call in a transaction, from a connection whose header is the one in the shared memory
    and whose log and index have the frames [fr] ([beginning]), with one or more pages of the page size, numbered below 2^32, it always comes to a result, whatever locks [walRestartLog] gets for a new read mark and whatever
    fails.  When it succeeds, the file has the frames [fr], or none of them if the connection reads nothing from the log and all of it has been
    copied to the database, and behind them those of the pages, the last one with the size of the database if it commits, and as many
    copies of it as the padding to a sector takes, all with valid checksums; the wal-index stands for the same frames, and if it was a
    commit its header tells every reader.  An empty log gets a new header first.  When it fails and the log could not be
    started again, the frames [fr] are all still in the file and in the index, and [mxFrame] did not change. *)
Theorem walFrames_logs file locks `{!FileOps file, !ShmLocks locks, !FileLaws file} xShmMap salt1 salts syncHeader pad mxWalSize big sz nckpt salt s fr pList nT isCommit flags
    (c : Conn (file := file) (locks := locks)) m :
  shm_pages xShmMap → beginning salt1 salts big sz nckpt salt s fr c → pList ≠ [] → Forall (page_ok sz) pList → 0 ≤ nT < 2 ^ 32 →
  ∃ rc c' m', walFrames xShmMap salt1 salts syncHeader pad mxWalSize sz pList nT isCommit flags c m = Some (rc, c', m') ∧
    (rc = SQLITE_OK → ∃ fr0 p (e : nat) big' nckpt' salt' s', last pList = Some p ∧ (fr0 = fr ∨ fr0 = [] ∧ restarts c) ∧ (fr0 ≠ [] → (big', nckpt', salt', s') = (big, nckpt, salt, s)) ∧
       committed_to fr0 (page_frames nT isCommit pList ++ replicate e (pgno p, nT, pData p)) nT isCommit big' sz nckpt' salt' s' c') ∧
    (rc ≠ SQLITE_OK → fr ≠ [] → restarts c ∨ starts (pWalFd c') (log_bytes big sz nckpt salt s fr) ∧ indexed fr (wal c')).
Proof. apply frames_made. Qed.

(** C11: The log file alone is enough.  After a successful commit by the first call of [walFrames] in a transaction, a connection that has nothing but the
    file as the writer left it, and for which what follows the last frame in it is not by chance a valid frame, builds with
    [walIndexRecover] the same index again, with the frames from before (none if the log was started again) and those of the transaction, and
    the same header: [mxFrame], size of the database, page size, salts and checksum of the writer.  The pages are of the page size and numbered below 2^32, the size of
    the database is positive and below 2^32, and the connection that recovers can read the file and is granted its lock, the shared
    memory and the memory it asks for.  This is about the loss of the
    shared memory: the file is read as it was written, and what a crash of the system may do to writes before a sync is not part of it. *)
Theorem walFrames_recovered file locks `{!FileOps file, !ShmLocks locks, !FileLaws file} xShmMap salt1 salts syncHeader pad mxWalSize big sz nckpt salt s fr pList nT flags
    (c c' : Conn (file := file) (locks := locks)) m m' xShmLock aPrivate w2 m2 :
  shm_pages xShmMap → beginning salt1 salts big sz nckpt salt s fr c → pList ≠ [] → Forall (page_ok sz) pList → 0 < nT < 2 ^ 32 →
  walFrames xShmMap salt1 salts syncHeader pad mxWalSize sz pList nT true flags c m = Some (SQLITE_OK, c', m') →
  readable (pWalFd c') →
  no_frame (bigEndCksum (hdr (wal c'))) sz (aSalt (hdr (wal c'))) (aFrameCksum (hdr (wal c')))
    (drop (Z.to_nat (walFrameOffset (mxFrame (hdr (wal c')) + 1) sz)) (content (pWalFd c'))) →
  represents w2 [] → mapped 0 w2 → can_map xShmMap w2 → can_lock xShmLock w2 → always_ok m2 → sized aPrivate →
  ∃ w' m'' fr0 p (e : nat), walIndexRecover xShmMap xShmLock (OsFileSize (pWalFd c')) (OsRead (pWalFd c')) aPrivate w2 m2 = Some (SQLITE_OK, w', m'') ∧
    (fr0 = fr ∨ fr0 = [] ∧ restarts c) ∧ last pList = Some p ∧ let F := pgnos (fr0 ++ page_frames nT true pList ++ replicate e (pgno p, nT, pData p)) in
    represents (wal c') F ∧ represents w' F ∧ mxFrame (hdr w') = zlen F ∧ mxFrame (hdr w') = mxFrame (hdr (wal c')) ∧ nPage (hdr w') = nPage (hdr (wal c')) ∧ nPage (hdr w') = nT ∧
    szPage w' = szPage (wal c') ∧ aSalt (hdr w') = aSalt (hdr (wal c')) ∧ aFrameCksum (hdr w') = aFrameCksum (hdr (wal c')).
Proof.
  intros Hsh HB Hne Hok HnT E Hrd Hj H1 H2 H3 H4 H5 H6. assert (HnT' : 0 ≤ nT < 2 ^ 32) by lia.
  destruct (frames_made xShmMap salt1 salts syncHeader pad mxWalSize big sz nckpt salt s fr pList nT true flags c m Hsh HB Hne Hok HnT')
    as (rc & c1 & m1 & E1 & HOK & _). rewrite E in E1. injection E1 as <- <- <-. destruct (HOK eq_refl) as (fr0 & p & e & big' & nckpt' & salt' & s' & Hl & Hfr0 & _ & HL & HR & Hmx & _ & HC).
  destruct (HC eq_refl) as (Hnp & _). destruct (page_frames_last nT pList p e Hl) as (l & El). set (fr' := fr0 ++ page_frames nT true pList ++ _) in *.
  assert (Ef : fr' = (fr0 ++ l) ++ [(pgno p, nT, pData p)]) by (unfold fr'; by rewrite El, app_assoc).
  destruct (lg_starts _ _ _ _ _ _ _ HL) as (junk & Ej). pose proof (log_bytes_length _ _ _ _ _ _ _ (lg_params _ _ _ _ _ _ _ HL) (lg_frames _ _ _ _ _ _ _ HL) (lg_chain _ _ _ _ _ _ _ HL)) as Hlen.
  rewrite Hmx, <- Hlen, Nat2Z.id, Ej, drop_app_length, (lg_big _ _ _ _ _ _ _ HL), (lg_salt _ _ _ _ _ _ _ HL) in Hj.
  assert (Hne' : fr' ≠ []) by (rewrite Ef; by destruct (fr0 ++ l)).
  pose proof (logged_log_file _ _ _ _ _ _ _ _ HL Hne' Hrd Ej Hj) as HLf.
  destruct (recover_made xShmMap xShmLock _ _ _ _ _ _ _ _ aPrivate w2 m2 Hsh HLf H1 H2 H3 H4 H5 H6) as (w' & m'' & E2 & HR2 & Hcm & Esz & _ & Esl & _).
  rewrite Ef in Hcm. apply committed_last in Hcm as (Ec1 & Ec2 & Ec3); [|lia]. rewrite <- Ef in Ec1, Ec3. rewrite (lg_chain _ _ _ _ _ _ _ HL) in Ec3. injection Ec3 as Ec3.
  exists w', m'', fr0, p, e. split; [exact E2|]. split; [done|]. split; [done|]. cbv zeta. fold fr'. split; [exact HR|]. split; [exact HR2|].
  split; [unfold pgnos; by rewrite length_map|]. split; [congruence|]. split; [congruence|]. split; [congruence|].
  split; [by rewrite Esz, (lg_szPage _ _ _ _ _ _ _ HL)|]. split; [by rewrite Esl, (lg_salt _ _ _ _ _ _ _ HL)|by rewrite Ec3].
Qed.

(** ** Witnesses *)

#[local] Existing Instances mem_file_ops no_locks mem_file_laws.

Lemma empty_beginning : beginning [1; 2; 3; 4] small_salt 0 512 0 small_salt (0, 0) [] empty_conn.
Proof. split; [vm_compute; reflexivity|exact empty_indexed|exact empty_begins|done|split; [done|repeat constructor; lia]]. Qed.

Lemma walFrames_logs_witness :
  ∃ rc c' m', walFrames no_shm [1; 2; 3; 4] small_salt true true (-1) 512 one_page 1 true 2 empty_conn (Mem [] 0) = Some (rc, c', m') ∧
    (rc = SQLITE_OK → ∃ F, represents (wal c') F ∧ mxFrame (hdr (wal c')) = zlen F ∧ take 1 F = [7]).
Proof.
  destruct (walFrames_logs mem_file unit no_shm [1; 2; 3; 4] small_salt true true (-1) 0 512 0 small_salt (0, 0) [] one_page 1 true 2 empty_conn (Mem [] 0)
    no_shm_pages empty_beginning ltac:(discriminate) one_page_ok ltac:(lia)) as (rc & c' & m' & E & H & _).
  exists rc, c', m'. split; [exact E|]. intros Hrc. destruct (H Hrc) as (fr0 & p & e & ? & ? & ? & ? & _ & Hfr & _ & _ & HR & Hmx & _). assert (fr0 = []) as -> by (by destruct Hfr as [->|[-> _]]).
  eexists. split; [exact HR|]. split; [rewrite Hmx; unfold pgnos; by rewrite length_map|reflexivity].
Defined.

Lemma walFrames_recovered_witness :
  ∃ c' m' w' m'', walFrames no_shm [1; 2; 3; 4] small_salt true false (-1) 512 one_page 1 true 2 empty_conn (Mem [] 0) = Some (SQLITE_OK, c', m') ∧
    walIndexRecover no_shm (λ _ _, 0) (OsFileSize (pWalFd c')) (OsRead (pWalFd c')) zero_page (with_index [Some zero_page] new_wal) (Mem [] 0) = Some (SQLITE_OK, w', m'') ∧
    mxFrame (hdr w') = mxFrame (hdr (wal c')).
Proof.
  destruct (frames_made no_shm [1; 2; 3; 4] small_salt true false (-1) 0 512 0 small_salt (0, 0) [] one_page 1 true 2 empty_conn (Mem [] 0)
    no_shm_pages empty_beginning ltac:(discriminate) one_page_ok ltac:(lia)) as (rc & c' & m' & E & _).
  assert (Hrc : ('(rc, c, _) ← walFrames no_shm [1; 2; 3; 4] small_salt true false (-1) 512 one_page 1 true 2 empty_conn (Mem [] 0);
    Some (rc, zlen (pWalFd c), mxFrame (hdr (wal c)))) = Some (0, 568, 1)) by (vm_compute; reflexivity).
  rewrite E in Hrc. injection Hrc as -> Hlen Hmx.
  destruct (walFrames_recovered mem_file unit no_shm [1; 2; 3; 4] small_salt true false (-1) 0 512 0 small_salt (0, 0) [] one_page 1 2 empty_conn c' (Mem [] 0) m' (λ _ _, 0) zero_page
    (with_index [Some zero_page] new_wal) (Mem [] 0) no_shm_pages empty_beginning) as (w' & m'' & fr0 & p & e & E2 & _ & _ & _ & _ & _ & E3 & _);
    [discriminate|exact one_page_ok|lia|exact E|split; [reflexivity|reflexivity]| |exact empty_index|by exists zero_page|by left|by left|by constructor|exact zero_sized|].
  { intros Hn. exfalso. change (mxFrame (hdr (wal (file := mem_file) (locks := unit) c')) = 1) in Hmx. rewrite Hmx, length_drop in Hn. change (length (content (pWalFd c'))) with (length (pWalFd c')) in Hn. change (walFrameOffset (1 + 1) 512) with 568 in Hn. change (Z.of_nat (@length Z (pWalFd (file := mem_file) (locks := unit) c')) = 568) in Hlen. unfold WAL_FRAME_HDRSIZE in Hn. lia. }
  exists c', m', w', m''. split; [exact E|]. split; [exact E2|exact E3].
Defined.
