(* ===== verification/Memdb.v ===== *)
(** The in-memory database files of src/memdb.c: stores of bytes that several connections share by name, their locks and their life time.
    Proofs are in MemdbProofs.v. *)
From S2P Require Import Prelude.

Definition SQLITE_NOTFOUND : Z := 12.
Definition SQLITE_IOERR_WRITE : Z := 778.
Definition SQLITE_IOERR_NOMEM : Z := 3082.
Definition SQLITE_DESERIALIZE_FREEONCLOSE : Z := 1.
Definition SQLITE_DESERIALIZE_RESIZEABLE : Z := 2.
Definition SQLITE_DESERIALIZE_READONLY : Z := 4.
Definition SQLITE_FCNTL_VFSNAME : Z := 12.
Definition SQLITE_FCNTL_SIZE_LIMIT : Z := 36.
Definition SQLITE_LOCK_NONE : Z := 0.
Definition SQLITE_LOCK_SHARED : Z := 1.
Definition SQLITE_LOCK_RESERVED : Z := 2.
Definition SQLITE_LOCK_PENDING : Z := 3.
Definition SQLITE_LOCK_EXCLUSIVE : Z := 4.

(** A store; [aData] is the list of the [szAlloc] bytes that are allocated, [None] a null pointer. *)
Record MemStore := mkStore {
  sz : Z; szAlloc : Z; szMax : Z; aData : option (list Z); nMmap : Z; mFlags : Z; nRdLock : Z; nWrLock : Z; nRef : Z; zFName : option (list Z) }.
(** An open file; [pStore] is a key of the heap of stores. *)
Record MemFile := mkFile { pStore : positive; eLock : Z }.
(** The heap of the stores, the array [memdb_g] of the shared ones ([None] is a null pointer), and the allocator. *)
Record MemFS := mkFS { stores : gmap positive MemStore; apMemStore : option (list positive); fs_mem : mem }.

Definition with_sz x p := mkStore x (szAlloc p) (szMax p) (aData p) (nMmap p) (mFlags p) (nRdLock p) (nWrLock p) (nRef p) (zFName p).
Definition with_data a d p := mkStore (sz p) a (szMax p) d (nMmap p) (mFlags p) (nRdLock p) (nWrLock p) (nRef p) (zFName p).
Definition with_szMax x p := mkStore (sz p) (szAlloc p) x (aData p) (nMmap p) (mFlags p) (nRdLock p) (nWrLock p) (nRef p) (zFName p).
Definition with_nMmap x p := mkStore (sz p) (szAlloc p) (szMax p) (aData p) x (mFlags p) (nRdLock p) (nWrLock p) (nRef p) (zFName p).
Definition with_locks r w p := mkStore (sz p) (szAlloc p) (szMax p) (aData p) (nMmap p) (mFlags p) r w (nRef p) (zFName p).
Definition with_nRef x p := mkStore (sz p) (szAlloc p) (szMax p) (aData p) (nMmap p) (mFlags p) (nRdLock p) (nWrLock p) x (zFName p).
Definition with_eLock x f := mkFile (pStore f) x.
Definition with_store l p fs := mkFS (<[l := p]> (stores fs)) (apMemStore fs) (fs_mem fs).
Definition with_list a fs := mkFS (stores fs) a (fs_mem fs).
Definition with_mem m fs := mkFS (stores fs) (apMemStore fs) m.

Definition flag (p : MemStore) (x : Z) : bool := negb (Z.land (mFlags p) x =? 0).

(** A request for a block that may be there already: only a new one counts. *)
Definition sqlite3Realloc (there : bool) (m : mem) : bool * mem :=
  let '(ok, m') := sqlite3Malloc m in (ok, if there then Mem (oom m') (live m) else m').

(** [n] bytes from [off] on, and bytes put there, when all of them are allocated. *)
Definition get_bytes (off n : Z) (d : option (list Z)) : option (list Z) :=
  if n =? 0 then Some []
  else l ← d; if (0 <=? off) && (off + n <=? zlen l) then Some (take (Z.to_nat n) (drop (Z.to_nat off) l)) else None.
Definition put_bytes (off : Z) (z : list Z) (d : option (list Z)) : option (option (list Z)) :=
  if zlen z =? 0 then Some d
  else l ← d; if (0 <=? off) && (off + zlen z <=? zlen l) then Some (Some (take (Z.to_nat off) l ++ z ++ drop (Z.to_nat (off + zlen z)) l)) else None.

Section memdb.
(** What a new byte of a block holds. *)
Context (junk : Z → Z).

(** ** Reading and writing *)

Definition memdbRead (iAmt iOfst : Z) (f : MemFile) (fs : MemFS) : option (Z * list Z) :=
  p ← stores fs !! pStore f;
  if sz p <? iOfst + iAmt then
    d ← (if iOfst <? sz p then get_bytes iOfst (sz p - iOfst) (aData p) else Some []);
    Some (SQLITE_IOERR_SHORT_READ, d ++ replicate (Z.to_nat iAmt - length d) 0)
  else d ← get_bytes iOfst iAmt (aData p); Some (SQLITE_OK, d).

(** Sizes and offsets are not cut to 64 bits, here and in memdbWrite: doubling a size or adding an offset and a length overflows from 2^62 on. *)
Definition memdbEnlarge (newSz : Z) (p : MemStore) (m : mem) : Z * MemStore * mem :=
  if negb (flag p SQLITE_DESERIALIZE_RESIZEABLE) || (0 <? nMmap p) then (SQLITE_FULL, p, m)
  else if szMax p <? newSz then (SQLITE_FULL, p, m)
  else
    let newSz := newSz * 2 in
    let newSz := if szMax p <? newSz then szMax p else newSz in
    let '(ok, m) := sqlite3Realloc (match aData p with Some _ => true | None => false end) m in
    if negb ok then (SQLITE_IOERR_NOMEM, p, m)
    else
      let old := take (Z.to_nat newSz) (default [] (aData p)) in
      (SQLITE_OK, with_data newSz (Some (old ++ map junk (seqZ (zlen old) (newSz - zlen old)))) p, m).

Definition memdbWrite (z : list Z) (iOfst : Z) (f : MemFile) (fs : MemFS) : option (Z * MemFS) :=
  p ← stores fs !! pStore f;
  let iAmt := zlen z in
  if flag p SQLITE_DESERIALIZE_READONLY then Some (SQLITE_IOERR_WRITE, fs)
  else
    '(rc, p, m) ← (if sz p <? iOfst + iAmt then
        let '(rc, p, m) := (if szAlloc p <? iOfst + iAmt then memdbEnlarge (iOfst + iAmt) p (fs_mem fs) else (SQLITE_OK, p, fs_mem fs)) in
        if negb (rc =? SQLITE_OK) then Some (rc, p, m)
        else
          d ← (if sz p <? iOfst then put_bytes (sz p) (replicate (Z.to_nat (iOfst - sz p)) 0) (aData p) else Some (aData p));
          Some (rc, with_sz (iOfst + iAmt) (with_data (szAlloc p) d p), m)
      else Some (SQLITE_OK, p, fs_mem fs));
    let fs := with_mem m fs in
    if negb (rc =? SQLITE_OK) then Some (rc, with_store (pStore f) p fs)
    else d ← put_bytes iOfst z (aData p); Some (SQLITE_OK, with_store (pStore f) (with_data (szAlloc p) d p) fs).

Definition memdbTruncate (size : Z) (f : MemFile) (fs : MemFS) : option (Z * MemFS) :=
  p ← stores fs !! pStore f;
  if sz p <? size then Some (SQLITE_CORRUPT, fs) else Some (SQLITE_OK, with_store (pStore f) (with_sz size p) fs).

Definition memdbSync (flags : Z) : Z := SQLITE_OK.

Definition memdbFileSize (f : MemFile) (fs : MemFS) : option (Z * Z) := p ← stores fs !! pStore f; Some (SQLITE_OK, sz p).

(** ** Locks *)

Definition memdbLock (lck : Z) (f : MemFile) (fs : MemFS) : option (Z * MemFile * MemFS) :=
  p ← stores fs !! pStore f;
  if lck <=? eLock f then Some (SQLITE_OK, f, fs)
  else
    let '(rc, p) :=
      if (SQLITE_LOCK_SHARED <? lck) && flag p SQLITE_DESERIALIZE_READONLY then (SQLITE_READONLY, p)
      else if lck =? SQLITE_LOCK_SHARED then
        if 0 <? nWrLock p then (SQLITE_BUSY, p) else (SQLITE_OK, with_locks (nRdLock p + 1) (nWrLock p) p)
      else if (lck =? SQLITE_LOCK_RESERVED) || (lck =? SQLITE_LOCK_PENDING) then
        if eLock f =? SQLITE_LOCK_SHARED then
          if 0 <? nWrLock p then (SQLITE_BUSY, p) else (SQLITE_OK, with_locks (nRdLock p) 1 p)
        else (SQLITE_OK, p)
      else
        if 1 <? nRdLock p then (SQLITE_BUSY, p)
        else if eLock f =? SQLITE_LOCK_SHARED then (SQLITE_OK, with_locks (nRdLock p) 1 p)
        else (SQLITE_OK, p) in
    Some (rc, if rc =? SQLITE_OK then with_eLock lck f else f, with_store (pStore f) p fs).

Definition memdbUnlock (lck : Z) (f : MemFile) (fs : MemFS) : option (Z * MemFile * MemFS) :=
  p ← stores fs !! pStore f;
  if eLock f <=? lck then Some (SQLITE_OK, f, fs)
  else
    let p :=
      if lck =? SQLITE_LOCK_SHARED then
        if SQLITE_LOCK_SHARED <? eLock f then with_locks (nRdLock p) (nWrLock p - 1) p else p
      else
        let p := if SQLITE_LOCK_SHARED <? eLock f then with_locks (nRdLock p) (nWrLock p - 1) p else p in
        with_locks (nRdLock p - 1) (nWrLock p) p in
    Some (SQLITE_OK, with_eLock lck f, with_store (pStore f) p fs).

(** ** Control and mapping *)

(** The result code and the argument after it; the text for [SQLITE_FCNTL_VFSNAME] is left out. *)
Definition memdbFileControl (op arg : Z) (f : MemFile) (fs : MemFS) : option (Z * Z * MemFS) :=
  p ← stores fs !! pStore f;
  let rc := if op =? SQLITE_FCNTL_VFSNAME then SQLITE_OK else SQLITE_NOTFOUND in
  if op =? SQLITE_FCNTL_SIZE_LIMIT then
    let iLimit := if arg <? sz p then (if arg <? 0 then szMax p else sz p) else arg in
    Some (SQLITE_OK, iLimit, with_store (pStore f) (with_szMax iLimit p) fs)
  else Some (rc, arg, fs).

(** The offset in the store that the pointer stands for. *)
Definition memdbFetch (iOfst iAmt : Z) (f : MemFile) (fs : MemFS) : option (Z * option Z * MemFS) :=
  p ← stores fs !! pStore f;
  if (sz p <? iOfst + iAmt) || flag p SQLITE_DESERIALIZE_RESIZEABLE then Some (SQLITE_OK, None, fs)
  else Some (SQLITE_OK, Some iOfst, with_store (pStore f) (with_nMmap (nMmap p + 1) p) fs).
Definition memdbUnfetch (f : MemFile) (fs : MemFS) : option (Z * MemFS) :=
  p ← stores fs !! pStore f; Some (SQLITE_OK, with_store (pStore f) (with_nMmap (nMmap p - 1) p) fs).

(** ** Opening and closing *)

(** [sqlite3GlobalConfig.mxMemdbSize]. *)
Context (mxMemdbSize : Z).

Definition new_store (n : Z) (name : option (list Z)) : MemStore :=
  mkStore 0 0 mxMemdbSize None 0 (Z.lor SQLITE_DESERIALIZE_RESIZEABLE SQLITE_DESERIALIZE_FREEONCLOSE) 0 0 n name.

(** The first shared store with the name. *)
Fixpoint find_name (l : list positive) (zName : list Z) (fs : MemFS) : option (option positive) :=
  match l with
  | [] => Some None
  | i :: l => p ← stores fs !! i; name ← zFName p; if bool_decide (name = zName) then Some (Some i) else find_name l zName fs
  end.

Definition is_shared (zName : option (list Z)) : option (list Z) :=
  match zName with Some ((47 :: _ :: _) as z) => Some z | Some ((92 :: _ :: _) as z) => Some z | _ => None end.

(** [mutex_ok]: whether [sqlite3_mutex_alloc] gives a mutex. *)
Definition memdbOpen (zName : option (list Z)) (mutex_ok : bool) (fs : MemFS) : option (Z * option MemFile * MemFS) :=
  match is_shared zName with
  | Some name =>
      r ← find_name (default [] (apMemStore fs)) name fs;
      match r with
      | Some i => p ← stores fs !! i; Some (SQLITE_OK, Some (mkFile i SQLITE_LOCK_NONE), with_store i (with_nRef (nRef p + 1) p) fs)
      | None =>
          let '(ok, m) := sqlite3Malloc (fs_mem fs) in
          if negb ok then Some (SQLITE_NOMEM, None, with_mem m fs)
          else
            let '(ok, m) := sqlite3Realloc (match apMemStore fs with Some _ => true | None => false end) m in
            if negb ok then Some (SQLITE_NOMEM, None, with_mem (sqlite3_free m) fs)
            else
              let i := fresh (dom (stores fs)) in
              let l := default [] (apMemStore fs) in
              if negb mutex_ok then Some (SQLITE_NOMEM, None, with_list (Some l) (with_mem (sqlite3_free m) fs))
              else Some (SQLITE_OK, Some (mkFile i SQLITE_LOCK_NONE), with_store i (new_store 1 (Some name)) (with_list (Some (l ++ [i])) (with_mem m fs)))
      end
  | None =>
      let '(ok, m) := sqlite3Malloc (fs_mem fs) in
      if negb ok then Some (SQLITE_NOMEM, None, with_mem m fs)
      else let i := fresh (dom (stores fs)) in Some (SQLITE_OK, Some (mkFile i SQLITE_LOCK_NONE), with_store i (new_store 0 None) (with_mem m fs))
  end.

(** The place of a store in [apMemStore] is taken by the last one. *)
Definition remove_store (i : nat) (l : list positive) : list positive :=
  match last l with Some x => take (length l - 1) (<[i := x]> l) | None => l end.

Definition unlist_store (i : positive) (p : MemStore) (fs : MemFS) : MemFS :=
  match list_find (eq i) (default [] (apMemStore fs)) with
  | Some (k, _) =>
      if nRef p =? 1 then
        match remove_store k (default [] (apMemStore fs)) with
        | [] => with_list None (with_mem (sqlite3_free (fs_mem fs)) fs)
        | l => with_list (Some l) fs
        end
      else fs
  | None => fs
  end.

Definition memdbClose (f : MemFile) (fs : MemFS) : option (Z * MemFS) :=
  p ← stores fs !! pStore f;
  let fs := match zFName p with Some _ => unlist_store (pStore f) p fs | None => fs end in
  let p := with_nRef (nRef p - 1) p in
  if nRef p <=? 0 then
    let m := if flag p SQLITE_DESERIALIZE_FREEONCLOSE then match aData p with Some _ => sqlite3_free (fs_mem fs) | None => fs_mem fs end else fs_mem fs in
    Some (SQLITE_OK, mkFS (delete (pStore f) (stores fs)) (apMemStore fs) (sqlite3_free m))
  else Some (SQLITE_OK, with_store (pStore f) p fs).
End memdb.

Example two_files :
  ('(_, f, fs) ← memdbOpen 1000 (Some [47; 97]) true (mkFS ∅ None (Mem [] 0)); f ← f;
   '(_, g, fs) ← memdbOpen 1000 (Some [47; 97]) true fs; g ← g;
   '(rc, fs) ← memdbWrite (λ _, 255) [1; 2] 3 f fs; r ← memdbRead 6 0 g fs;
   '(_, fs) ← memdbClose f fs; '(_, fs) ← memdbClose g fs; Some (rc, r, live (fs_mem fs), size (stores fs))) = Some (0, (522, [0; 0; 0; 1; 2; 0]), 0, 0%nat).
Proof. vm_compute. reflexivity. Qed.
