(* ===== verification/MemdbProofs.v ===== *)
(** Proofs about the in-memory database files (Memdb.v): whatever the connections do, in whatever order, the locks exclude each other, stores live as long as
    they are open, and every file is a sequence of bytes that the files with the same name share. *)
From S2P Require Import Prelude Memdb.

(** ** Counting files *)

Section count.
Context {A : Type} (P : A → Prop) `{!∀ x, Decision (P x)}.

Definition count (F : gmap positive A) : Z := Z.of_nat (size (filter (λ kx, P (kx.2)) F)).
Definition holds (x : A) : Z := if decide (P x) then 1 else 0.

Lemma count_new F k x : F !! k = None → count (<[k := x]> F) = count F + holds x.
Proof.
  intros Hk. unfold count, holds. destruct (decide (P x)) as [Hx|Hx].
  - rewrite map_filter_insert_True by done. rewrite map_size_insert_None; [lia|]. apply map_lookup_filter_None_2. by left.
  - rewrite map_filter_insert_not' by (done || intros y Hy; congruence). lia.
Qed.

Lemma count_delete F k x : F !! k = Some x → count (delete k F) = count F - holds x.
Proof.
  intros Hk. rewrite <- (insert_delete_id F k x Hk) at 2. rewrite count_new by apply lookup_delete_eq. lia.
Qed.

Lemma count_set F k x y : F !! k = Some x → count (<[k := y]> F) = count F - holds x + holds y.
Proof. intros Hk. rewrite <- insert_delete_eq, count_new by apply lookup_delete_eq. rewrite (count_delete F k x Hk). lia. Qed.

Lemma holds_range x : 0 ≤ holds x ≤ 1.
Proof. unfold holds. destruct (decide (P x)); lia. Qed.
Lemma count_nonneg F : 0 ≤ count F.
Proof. unfold count. lia. Qed.
Lemma count_pos F k x : F !! k = Some x → holds x ≤ count F.
Proof. intros Hk. pose proof (count_nonneg (delete k F)). rewrite (count_delete F k x Hk) in *. lia. Qed.
Lemma count_two F k x j y : F !! k = Some x → F !! j = Some y → k ≠ j → holds x + holds y ≤ count F.
Proof.
  intros Hk Hj Hne. pose proof (count_pos (delete k F) j y) as Hp. rewrite (count_delete F k x Hk) in Hp. rewrite lookup_delete_ne in Hp by done. specialize (Hp Hj). lia.
Qed.
Lemma count_same F F' : (∀ k x, P x → F !! k = Some x ↔ F' !! k = Some x) → count F' = count F.
Proof.
  intros E. unfold count. do 2 f_equal. apply map_eq. intros k. apply option_eq. intros x. rewrite !map_lookup_filter_Some. split; intros (H1 & H2); (split; [by apply E|done]).
Qed.
Lemma count_zero F : count F = 0 → ∀ k x, F !! k = Some x → ¬ P x.
Proof. intros H0 k x Hk HP. pose proof (count_pos F k x Hk) as Hp. unfold holds in Hp. rewrite decide_True in Hp by done. lia. Qed.
Lemma count_none F : (∀ k x, F !! k = Some x → ¬ P x) → count F = 0.
Proof. intros Hno. rewrite (count_same ∅ F); [done|]. intros k x Hx. rewrite lookup_empty. split; [done|]. intros Hk. by destruct (Hno k x Hk). Qed.
Lemma count_some F : 0 < count F → ∃ k x, F !! k = Some x ∧ P x.
Proof.
  intros Hc. destruct (map_choose (filter (λ kx, P (kx.2)) F)) as (k & x & Hx); [intros E; unfold count in Hc; rewrite E, map_size_empty in Hc; lia|].
  apply map_lookup_filter_Some in Hx as (? & ?). by exists k, x.
Qed.
End count.

(** ** Several connections *)

(** The files that are open, with the name that they share. *)
Abbreviation handle := (MemFile * option (list Z))%type.
Record sys := Sys { vfs : MemFS; files : gmap positive handle }.

Inductive op :=
| Open (zName : option (list Z)) (mutex_ok : bool) | Close | Lock (lck : Z) | Unlock (lck : Z) | Read (iAmt iOfst : Z) | Write (z : list Z) (iOfst : Z)
| Truncate (size : Z) | FileSize | Control (op arg : Z) | Fetch (iOfst iAmt : Z) | Unfetch.

Section sys.
Context (junk : Z → Z) (mxMemdbSize : Z).

(** The operation [o] on the file [k]: the result code, what it gives, and the state after it. *)
Definition exec (k : positive) (o : op) (s : sys) : option (Z * list Z * sys) :=
  match o with
  | Open zName mutex_ok =>
      '(rc, f, fs) ← memdbOpen mxMemdbSize zName mutex_ok (vfs s);
      Some (rc, [], Sys fs (match f with Some f => <[k := (f, is_shared zName)]> (files s) | None => files s end))
  | _ =>
      '(f, nm) ← files s !! k;
      match o with
      | Close => '(rc, fs) ← memdbClose f (vfs s); Some (rc, [], Sys fs (delete k (files s)))
      | Lock lck => '(rc, f, fs) ← memdbLock lck f (vfs s); Some (rc, [], Sys fs (<[k := (f, nm)]> (files s)))
      | Unlock lck => '(rc, f, fs) ← memdbUnlock lck f (vfs s); Some (rc, [], Sys fs (<[k := (f, nm)]> (files s)))
      | Read n off => '(rc, d) ← memdbRead n off f (vfs s); Some (rc, d, s)
      | Write z off => '(rc, fs) ← memdbWrite junk z off f (vfs s); Some (rc, [], Sys fs (files s))
      | Truncate n => '(rc, fs) ← memdbTruncate n f (vfs s); Some (rc, [], Sys fs (files s))
      | FileSize => '(rc, n) ← memdbFileSize f (vfs s); Some (rc, [n], s)
      | Control c arg => '(rc, x, fs) ← memdbFileControl c arg f (vfs s); Some (rc, [x], Sys fs (files s))
      | Fetch off n => '(rc, x, fs) ← memdbFetch off n f (vfs s); Some (rc, match x with Some x => [x] | None => [] end, Sys fs (files s))
      | Unfetch => '(rc, fs) ← memdbUnfetch f (vfs s); Some (rc, [], Sys fs (files s))
      | Open _ _ => None
      end
  end.

(** What a connection may do: locks are taken from shared upwards, a file is unlocked before it is closed. *)
Definition allowed (k : positive) (o : op) (s : sys) : Prop :=
  match o with
  | Open _ _ => files s !! k = None
  | _ => ∃ f nm, files s !! k = Some (f, nm) ∧
      match o with
      | Close => eLock f = SQLITE_LOCK_NONE
      | Lock lck => SQLITE_LOCK_SHARED ≤ lck ≤ SQLITE_LOCK_EXCLUSIVE ∧ (eLock f = SQLITE_LOCK_NONE → lck = SQLITE_LOCK_SHARED)
      | Unlock lck => lck = SQLITE_LOCK_NONE ∨ lck = SQLITE_LOCK_SHARED
      | Read n off | Fetch off n => 0 ≤ n ∧ 0 ≤ off
      | Write z off => 0 ≤ off
      | Truncate n => 0 ≤ n
      | _ => True
      end
  end.

Inductive reachable : sys → Prop :=
| reach_init o : reachable (Sys (mkFS ∅ None (Mem o 0)) ∅)
| reach_step s k o rc out s' : reachable s → allowed k o s → exec k o s = Some (rc, out, s') → reachable s'.

(** ** The invariant *)

Definition on (l : positive) (h : handle) : Prop := pStore (fst h) = l.
Definition locked (l : positive) (n : Z) (h : handle) : Prop := pStore (fst h) = l ∧ n ≤ eLock (fst h).
#[local] Instance on_dec l h : Decision (on l h).
Proof. unfold on. apply _. Defined.
#[local] Instance locked_dec l n h : Decision (locked l n h).
Proof. unfold locked. apply _. Defined.

Record store_ok (F : gmap positive handle) (shared : list positive) (l : positive) (p : MemStore) : Prop := StoreOk {
  so_size : 0 ≤ sz p ≤ szAlloc p;
  so_data : zlen (default [] (aData p)) = szAlloc p;
  so_flags : mFlags p = 3;
  so_mmap : nMmap p ≤ 0;
  so_readers : nRdLock p = count (locked l SQLITE_LOCK_SHARED) F;
  so_writers : nWrLock p = count (locked l SQLITE_LOCK_RESERVED) F;
  so_one : nWrLock p ≤ 1;
  so_exclusive k h : F !! k = Some h → locked l SQLITE_LOCK_EXCLUSIVE h → nRdLock p = 1;
  so_users : match zFName p with Some _ => 1 ≤ nRef p ∧ nRef p = count (on l) F ∧ l ∈ shared | None => nRef p = 0 ∧ count (on l) F = 1 end }.

(** The blocks of a store. *)
Definition blocks (p : MemStore) : Z := 1 + match aData p with Some _ => 1 | None => 0 end.
Definition total (S : gmap positive MemStore) : Z := map_fold (λ _ p n, blocks p + n) 0 S.

Record inv (s : sys) : Prop := Inv {
  iv_file k f nm : files s !! k = Some (f, nm) → 0 ≤ eLock f ≤ SQLITE_LOCK_EXCLUSIVE ∧ ∃ p, stores (vfs s) !! pStore f = Some p ∧ zFName p = nm;
  iv_store l p : stores (vfs s) !! l = Some p → store_ok (files s) (default [] (apMemStore (vfs s))) l p;
  iv_names l l' p p' n : stores (vfs s) !! l = Some p → stores (vfs s) !! l' = Some p' → zFName p = Some n → zFName p' = Some n → l = l';
  iv_list : NoDup (default [] (apMemStore (vfs s))) ∧ ∀ l, l ∈ default [] (apMemStore (vfs s)) → ∃ p n, stores (vfs s) !! l = Some p ∧ zFName p = Some n;
  iv_live : live (fs_mem (vfs s)) = total (stores (vfs s)) + match apMemStore (vfs s) with Some _ => 1 | None => 0 end }.

Lemma flags_ok p : mFlags p = 3 →
  flag p SQLITE_DESERIALIZE_READONLY = false ∧ flag p SQLITE_DESERIALIZE_RESIZEABLE = true ∧ flag p SQLITE_DESERIALIZE_FREEONCLOSE = true.
Proof. intros E. unfold flag. by rewrite E. Qed.

Lemma total_new S l p : S !! l = None → total (<[l := p]> S) = blocks p + total S.
Proof. intros Hl. unfold total. rewrite map_fold_insert_L; [done| |done]. intros. lia. Qed.
Lemma total_delete S l p : S !! l = Some p → total S = blocks p + total (delete l S).
Proof. intros Hl. rewrite <- (insert_delete_id S l p Hl) at 1. by rewrite total_new by apply lookup_delete_eq. Qed.
Lemma total_set S l p p' : S !! l = Some p → total (<[l := p']> S) = total S - blocks p + blocks p'.
Proof. intros Hl. rewrite <- insert_delete_eq, total_new by apply lookup_delete_eq. rewrite (total_delete S l p Hl). lia. Qed.

(** A store that is not concerned. *)
Lemma other_ok F F' shared shared' l q :
  (∀ k h, on l h → F !! k = Some h ↔ F' !! k = Some h) → (l ∈ shared → l ∈ shared') → store_ok F shared l q → store_ok F' shared' l q.
Proof.
  intros E Hsh [H1 H2 H3 H4 H5 H6 H7 H8 H9]. assert (Hlk : ∀ n, count (locked l n) F' = count (locked l n) F) by (intros n; apply count_same; intros k h (? & _); by apply E).
  assert (Hon : count (on l) F' = count (on l) F) by by apply count_same. split; try done; rewrite ?Hlk, ?Hon; try done.
  - intros k h Hk Hl. apply (H8 k h); [|done]. apply E; [|done]. apply Hl.
  - destruct (zFName q); [|done]. destruct H9 as (? & ? & ?). auto.
Qed.

(** A store is replaced, and the file of one connection to it. *)
Lemma inv_set s k f f' nm p p' m :
  inv s → files s !! k = Some (f, nm) → stores (vfs s) !! pStore f = Some p → zFName p' = zFName p → pStore f' = pStore f → 0 ≤ eLock f' ≤ SQLITE_LOCK_EXCLUSIVE →
  store_ok (<[k := (f', nm)]> (files s)) (default [] (apMemStore (vfs s))) (pStore f) p' →
  live m = live (fs_mem (vfs s)) - blocks p + blocks p' →
  inv (Sys (mkFS (<[pStore f := p']> (stores (vfs s))) (apMemStore (vfs s)) m) (<[k := (f', nm)]> (files s))).
Proof.
  intros [V1 V2 V3 (V4 & V4') V5] Hk Hp En Ef' Hlk Hok Hlive. split; cbn [vfs files stores apMemStore fs_mem].
  - intros j g nm' Hj. assert (Hcase : ∀ q, stores (vfs s) !! pStore g = Some q → zFName q = nm' → ∃ p0, <[pStore f:=p']> (stores (vfs s)) !! pStore g = Some p0 ∧ zFName p0 = nm').
    { intros q Hq Hn. destruct (decide (pStore f = pStore g)) as [E|E]; [|exists q; by rewrite lookup_insert_ne]. exists p'. rewrite <- E in *. rewrite lookup_insert_eq. split; [done|congruence]. }
    destruct (decide (k = j)) as [<-|Hne].
    + rewrite lookup_insert_eq in Hj. injection Hj as -> ->. split; [done|]. destruct (V1 _ _ _ Hk) as (_ & q & Hq & Hn). apply (Hcase q); [by rewrite Ef'|done].
    + rewrite lookup_insert_ne in Hj by done. destruct (V1 _ _ _ Hj) as (H1 & q & Hq & Hn). split; [done|]. by apply (Hcase q).
  - intros l q Hl. destruct (decide (pStore f = l)) as [<-|Hne].
    + rewrite lookup_insert_eq in Hl. by injection Hl as <-.
    + rewrite lookup_insert_ne in Hl by done. eapply other_ok; [|done|by apply V2]. intros j h Hon. unfold on in Hon. destruct (decide (k = j)) as [<-|Hkj].
      * rewrite lookup_insert_eq, Hk. split; intros [= <-]; cbn in Hon; congruence.
      * by rewrite lookup_insert_ne.
  - assert (Hn : ∀ l q, <[pStore f:=p']> (stores (vfs s)) !! l = Some q → ∃ q', stores (vfs s) !! l = Some q' ∧ zFName q' = zFName q).
    { intros l q Hl. destruct (decide (pStore f = l)) as [<-|Hne]; [rewrite lookup_insert_eq in Hl; injection Hl as <-; by exists p|].
      rewrite lookup_insert_ne in Hl by done. by exists q. }
    intros l l' q q' n Hl Hl' E1 E2. destruct (Hn _ _ Hl) as (r & Hr & Er). destruct (Hn _ _ Hl') as (r' & Hr' & Er'). apply (V3 l l' r r' n); congruence.
  - split; [done|]. intros l Hl. destruct (V4' l Hl) as (q & n & Hq & Eq). destruct (decide (pStore f = l)) as [<-|Hne].
    + exists p', n. rewrite lookup_insert_eq. split; [done|congruence].
    + exists q, n. by rewrite lookup_insert_ne.
  - rewrite (total_set _ _ _ _ Hp). lia.
Qed.

(** Only the bytes of a store change, or the limit for them. *)
Record data_step (p p' : MemStore) : Prop := DataStep {
  ds_flags : mFlags p' = mFlags p; ds_mmap : nMmap p' ≤ nMmap p; ds_rd : nRdLock p' = nRdLock p; ds_wr : nWrLock p' = nWrLock p; ds_ref : nRef p' = nRef p;
  ds_name : zFName p' = zFName p; ds_size : 0 ≤ sz p' ≤ szAlloc p'; ds_data : zlen (default [] (aData p')) = szAlloc p' }.

Lemma inv_data s k f nm p p' m :
  inv s → files s !! k = Some (f, nm) → stores (vfs s) !! pStore f = Some p → data_step p p' → live m = live (fs_mem (vfs s)) - blocks p + blocks p' →
  inv (Sys (with_store (pStore f) p' (with_mem m (vfs s))) (files s)).
Proof.
  intros HI Hk Hp [D1 D2 D3 D4 D5 D6 D7 D8] Hm. rewrite <- (insert_id (files s) k (f, nm)) by done. eapply inv_set; try done; [apply (iv_file _ HI _ _ _ Hk)|rewrite insert_id by done].
  destruct (iv_store _ HI _ _ Hp) as [H1 H2 H3 H4 H5 H6 H7 H8 H9]. split; rewrite ?D1, ?D3, ?D4, ?D5, ?D6; (done || lia).
Qed.

(** ** Locks *)

Lemma count_lock F k f nm x n : F !! k = Some (f, nm) →
  count (locked (pStore f) n) (<[k := (with_eLock x f, nm)]> F) = count (locked (pStore f) n) F - b2z (n <=? eLock f) + b2z (n <=? x).
Proof.
  intros Hk. rewrite (count_set _ F k (f, nm)) by done. unfold holds, locked. cbn [fst with_eLock pStore eLock].
  destruct (Z.leb_spec n (eLock f)), (Z.leb_spec n x); cbn [b2z]; repeat (case_decide; try lia).
Qed.

Lemma count_on F k f nm x l : F !! k = Some (f, nm) → count (on l) (<[k := (with_eLock x f, nm)]> F) = count (on l) F.
Proof.
  intros Hk. rewrite (count_set _ F k (f, nm)) by done. assert (holds (on l) (f, nm) = holds (on l) (with_eLock x f, nm)); [|lia]. unfold holds, on. done.
Qed.

Lemma count_in F k f nm n : F !! k = Some (f, nm) → n ≤ eLock f → 1 ≤ count (locked (pStore f) n) F.
Proof. intros Hk Hn. pose proof (count_pos (locked (pStore f) n) F k _ Hk) as Hp. unfold holds in Hp. rewrite decide_True in Hp; [lia|]. by split. Qed.

Lemma count_both F k f nm j h n : F !! k = Some (f, nm) → n ≤ eLock f → F !! j = Some h → locked (pStore f) n h → k ≠ j → 2 ≤ count (locked (pStore f) n) F.
Proof.
  intros Hk Hn Hj Hl Hne. pose proof (count_two (locked (pStore f) n) F k _ j _ Hk Hj Hne) as Hp. unfold holds in Hp. rewrite !decide_True in Hp; [lia|done|by split].
Qed.

(** The lock of one file changes; [r] and [w] are the counts after it. *)
Lemma relock s k f nm p x r w :
  inv s → files s !! k = Some (f, nm) → stores (vfs s) !! pStore f = Some p → 0 ≤ x ≤ SQLITE_LOCK_EXCLUSIVE →
  r = nRdLock p - b2z (1 <=? eLock f) + b2z (1 <=? x) → w = nWrLock p - b2z (2 <=? eLock f) + b2z (2 <=? x) → w ≤ 1 → (x = SQLITE_LOCK_EXCLUSIVE → r = 1) →
  (1 ≤ eLock f ∨ nWrLock p = 0) →
  inv (Sys (with_store (pStore f) (with_locks r w p) (vfs s)) (<[k := (with_eLock x f, nm)]> (files s))).
Proof.
  intros HI Hk Hp Hx Er Ew Hw Hex Hnew. destruct (iv_store _ HI _ _ Hp) as [H1 H2 H3 H4 H5 H6 H7 H8 H9].
  eapply inv_set; try done; [|unfold blocks; cbn [aData with_locks]; lia]. split; try done; cbn [nRdLock nWrLock with_locks zFName nRef].
  - rewrite count_lock by done. unfold SQLITE_LOCK_SHARED in *. lia.
  - rewrite count_lock by done. unfold SQLITE_LOCK_RESERVED in *. lia.
  - intros j h Hj Hl. destruct (decide (k = j)) as [<-|Hne].
    + rewrite lookup_insert_eq in Hj. injection Hj as <-. destruct Hl as (_ & Hl). cbn in Hl. apply Hex. lia.
    + rewrite lookup_insert_ne in Hj by done. exfalso. assert (Hl2 : locked (pStore f) 2 h ∧ locked (pStore f) 1 h) by (destruct Hl as (? & ?); unfold SQLITE_LOCK_EXCLUSIVE, locked in *; split; (split; [done|lia])).
      specialize (H8 j h Hj Hl). destruct Hnew as [Hf|Hw0].
      * pose proof (count_both _ _ _ _ _ _ 1 Hk Hf Hj (proj2 Hl2) Hne). unfold SQLITE_LOCK_SHARED in *. lia.
      * pose proof (count_zero _ _ (eq_trans (eq_sym H6) Hw0) j h Hj) as Hno. apply Hno. unfold SQLITE_LOCK_RESERVED. apply Hl2.
  - rewrite count_on by done. done.
Qed.

Lemma memdbLock_made s k f nm lck : inv s → files s !! k = Some (f, nm) → SQLITE_LOCK_SHARED ≤ lck ≤ SQLITE_LOCK_EXCLUSIVE → (eLock f = SQLITE_LOCK_NONE → lck = SQLITE_LOCK_SHARED) →
  ∃ rc f' p r w, stores (vfs s) !! pStore f = Some p ∧ pStore f' = pStore f ∧
    memdbLock lck f (vfs s) = Some (rc, f', if lck <=? eLock f then vfs s else with_store (pStore f) (with_locks r w p) (vfs s)) ∧
    inv (Sys (if lck <=? eLock f then vfs s else with_store (pStore f) (with_locks r w p) (vfs s)) (<[k := (f', nm)]> (files s))) ∧
    (rc = SQLITE_OK ∧ eLock f' = Z.max lck (eLock f) ∨ rc = SQLITE_BUSY ∧ f' = f).
Proof.
  intros HI Hk Hl Hnone. destruct (iv_file _ HI _ _ _ Hk) as (He & p & Hp & _). destruct (iv_store _ HI _ _ Hp) as [H1 H2 H3 H4 H5 H6 H7 H8 H9].
  destruct (flags_ok p H3) as (Hro & _). unfold memdbLock. rewrite Hp. cbn [mbind option_bind]. unfold SQLITE_LOCK_SHARED, SQLITE_LOCK_RESERVED, SQLITE_LOCK_PENDING, SQLITE_LOCK_EXCLUSIVE, SQLITE_LOCK_NONE in *.
  destruct (Z.leb_spec lck (eLock f)) as [Hle|Hgt].
  { exists SQLITE_OK, f, p, 0, 0. split; [done|]. split; [done|]. split; [done|]. split; [rewrite insert_id by done; by destruct s|]. left. split; [done|lia]. }
  rewrite Hro, andb_false_r. assert (Hself : with_locks (nRdLock p) (nWrLock p) p = p) by by destruct p.
  assert (Hw0 : 0 ≤ nWrLock p) by (rewrite H6; apply count_nonneg).
  assert (Hin1 : 1 ≤ eLock f → 1 ≤ nRdLock p) by (intros Hf; rewrite H5; by eapply count_in).
  assert (Hin2 : 2 ≤ eLock f → 1 ≤ nWrLock p) by (intros Hf; rewrite H6; by eapply count_in).
  assert (HBUSY : inv (Sys (with_store (pStore f) p (vfs s)) (<[k := (f, nm)]> (files s)))).
  { rewrite insert_id by done. unfold with_store. rewrite insert_id by done. by destruct s as [[] ?]. }
  assert (HGO : ∀ r w, inv (Sys (with_store (pStore f) (with_locks r w p) (vfs s)) (<[k := (with_eLock lck f, nm)]> (files s))) →
    ∃ rc f' p' r' w', Some p = Some p' ∧ pStore f' = pStore f ∧ Some (SQLITE_OK, with_eLock lck f, with_store (pStore f) (with_locks r w p) (vfs s)) =
      Some (rc, f', with_store (pStore f) (with_locks r' w' p') (vfs s)) ∧ inv (Sys (with_store (pStore f) (with_locks r' w' p') (vfs s)) (<[k := (f', nm)]> (files s))) ∧
      (rc = SQLITE_OK ∧ eLock f' = Z.max lck (eLock f) ∨ rc = SQLITE_BUSY ∧ f' = f)).
  { intros r w HI'. exists SQLITE_OK, (with_eLock lck f), p, r, w. split_and!; try done. left. split; [done|]. cbn. lia. }
  assert (HNO : ∃ rc f' p' r' w', Some p = Some p' ∧ pStore f' = pStore f ∧ Some (SQLITE_BUSY, f, with_store (pStore f) p (vfs s)) =
      Some (rc, f', with_store (pStore f) (with_locks r' w' p') (vfs s)) ∧ inv (Sys (with_store (pStore f) (with_locks r' w' p') (vfs s)) (<[k := (f', nm)]> (files s))) ∧
      (rc = SQLITE_OK ∧ eLock f' = Z.max lck (eLock f) ∨ rc = SQLITE_BUSY ∧ f' = f)).
  { exists SQLITE_BUSY, f, p, (nRdLock p), (nWrLock p). rewrite Hself. split_and!; try done. by right. }
  assert (HR : ∀ r w, r = nRdLock p - b2z (1 <=? eLock f) + 1 → w = nWrLock p - b2z (2 <=? eLock f) + b2z (2 <=? lck) → w ≤ 1 → (lck = 4 → r = 1) → (1 ≤ eLock f ∨ nWrLock p = 0) →
    inv (Sys (with_store (pStore f) (with_locks r w p) (vfs s)) (<[k := (with_eLock lck f, nm)]> (files s)))).
  { intros r w Er Ew. eapply relock; try done; [unfold SQLITE_LOCK_EXCLUSIVE; lia|]. destruct (Z.leb_spec 1 lck); [done|lia]. }
  destruct (Z.eqb_spec lck 1) as [->|Hl1].
  { assert (eLock f = 0) as E0 by lia. rewrite E0 in HR. destruct (Z.ltb_spec 0 (nWrLock p)); [exact HNO|]. apply HGO. apply HR; cbn; (done || lia). }
  assert (Hf1 : 1 ≤ eLock f) by lia. specialize (Hin1 Hf1). destruct (Z.leb_spec 1 (eLock f)) as [_|]; [cbn [b2z] in HR|lia]. destruct (Z.leb_spec 2 lck) as [_|]; [cbn [b2z] in HR|lia].
  pose proof (HGO (nRdLock p) (nWrLock p)) as HSAME. rewrite Hself in HSAME. pose proof (HR (nRdLock p) (nWrLock p)) as HRS. rewrite Hself in HRS.
  destruct ((lck =? 2) || (lck =? 3)) eqn:E23.
  - assert (Hl4 : lck ≠ 4) by (intros ->; done). destruct (Z.eqb_spec (eLock f) 1) as [E1|E1].
    + rewrite E1 in HR. cbn in HR. destruct (Z.ltb_spec 0 (nWrLock p)); [exact HNO|]. apply HGO. apply HR; lia.
    + destruct (Z.leb_spec 2 (eLock f)) as [Hf2|]; [cbn [b2z] in HRS|lia]. apply HSAME. apply HRS; lia.
  - assert (lck = 4) as -> by (apply orb_false_iff in E23 as (?%Z.eqb_neq & ?%Z.eqb_neq); lia).
    destruct (Z.ltb_spec 1 (nRdLock p)); [exact HNO|]. destruct (Z.eqb_spec (eLock f) 1) as [E1|E1].
    + assert (Hwr : nWrLock p = 0).
      { destruct (Z.eq_dec (nWrLock p) 0) as [|Hne]; [done|]. destruct (count_some (locked (pStore f) SQLITE_LOCK_RESERVED) (files s)) as (j & h & Hj & Hlk); [unfold SQLITE_LOCK_RESERVED; lia|].
        unfold SQLITE_LOCK_RESERVED, locked in Hlk. assert (k ≠ j) by (intros <-; rewrite Hk in Hj; injection Hj as <-; cbn in Hlk; lia).
        pose proof (count_both _ _ _ _ _ _ 1 Hk Hf1 Hj ltac:(unfold locked; split; [apply Hlk|lia]) ltac:(done)). lia. }
      rewrite E1 in HR. cbn in HR. apply HGO. apply HR; lia.
    + destruct (Z.leb_spec 2 (eLock f)) as [Hf2|]; [cbn [b2z] in HRS|lia]. apply HSAME. apply HRS; lia.
Qed.

Lemma memdbUnlock_made s k f nm lck : inv s → files s !! k = Some (f, nm) → lck = SQLITE_LOCK_NONE ∨ lck = SQLITE_LOCK_SHARED →
  ∃ f' p r w, stores (vfs s) !! pStore f = Some p ∧ pStore f' = pStore f ∧ eLock f' = Z.min lck (eLock f) ∧
    memdbUnlock lck f (vfs s) = Some (SQLITE_OK, f', if eLock f <=? lck then vfs s else with_store (pStore f) (with_locks r w p) (vfs s)) ∧
    inv (Sys (if eLock f <=? lck then vfs s else with_store (pStore f) (with_locks r w p) (vfs s)) (<[k := (f', nm)]> (files s))).
Proof.
  intros HI Hk Hl. destruct (iv_file _ HI _ _ _ Hk) as (He & p & Hp & _). destruct (iv_store _ HI _ _ Hp) as [H1 H2 H3 H4 H5 H6 H7 H8 H9].
  unfold memdbUnlock. rewrite Hp. cbn [mbind option_bind]. unfold SQLITE_LOCK_SHARED, SQLITE_LOCK_NONE, SQLITE_LOCK_EXCLUSIVE, SQLITE_LOCK_RESERVED in *.
  destruct (Z.leb_spec (eLock f) lck) as [Hle|Hgt].
  { exists f, p, 0, 0. split_and!; try done; [lia|]. rewrite insert_id by done. by destruct s. }
  set (w := nWrLock p - b2z (2 <=? eLock f)). set (r := nRdLock p - 1 + lck).
  assert (HR : inv (Sys (with_store (pStore f) (with_locks r w p) (vfs s)) (<[k:=(with_eLock lck f, nm)]> (files s)))).
  { eapply relock; try done; [unfold SQLITE_LOCK_EXCLUSIVE; lia| | | | |lia]; unfold r, w.
    - destruct (Z.leb_spec 1 (eLock f)); [|lia]. destruct Hl as [-> | ->]; cbn; lia.
    - destruct Hl as [-> | ->]; cbn; lia.
    - destruct (2 <=? eLock f); cbn; lia.
    - unfold SQLITE_LOCK_EXCLUSIVE. lia. }
  exists (with_eLock lck f), p, r, w. split; [done|]. split; [done|]. split; [cbn; lia|]. split; [|exact HR]. do 3 f_equal. unfold r, w.
  destruct Hl as [-> | ->]; cbn [Z.eqb].
  - destruct (Z.ltb_spec 1 (eLock f)), (Z.leb_spec 2 (eLock f)); try lia; unfold with_locks; cbn; f_equal; lia.
  - destruct (Z.ltb_spec 1 (eLock f)), (Z.leb_spec 2 (eLock f)); try lia; unfold with_locks; cbn; f_equal; lia.
Qed.

(** ** What the connections see *)

(** The bytes of a store and the limit for them, and the open files with the name that they share and these two. *)
Definition store_bytes (p : MemStore) : list Z := take (Z.to_nat (sz p)) (default [] (aData p)).
Definition content (fs : MemFS) (l : positive) : list Z * Z := match stores fs !! l with Some p => (store_bytes p, szMax p) | None => ([], 0) end.
Abbreviation contents := (gmap positive (option (list Z) * (list Z * Z))).
Definition view (s : sys) : contents := (λ h : handle, (snd h, content (vfs s) (pStore (fst h)))) <$> files s.

(** The file [k] gets other bytes or another limit, and so do those that share its name. *)
Definition put (k : positive) (nm : option (list Z)) (d : list Z * Z) (V : contents) : contents :=
  map_imap (λ j x, Some (fst x, if decide (j = k ∨ fst x = nm ∧ nm ≠ None) then d else snd x)) V.

Lemma same_store s k f nm j g nm' : inv s → files s !! k = Some (f, nm) → files s !! j = Some (g, nm') → j ≠ k → pStore g = pStore f ↔ nm' = nm ∧ nm ≠ None.
Proof.
  intros HI Hk Hj Hne. destruct (iv_file _ HI _ _ _ Hk) as (_ & p & Hp & Ep). destruct (iv_file _ HI _ _ _ Hj) as (_ & q & Hq & Eq). split.
  - intros E. rewrite E, Hp in Hq. injection Hq as <-. split; [congruence|]. intros ->. pose proof (so_users _ _ _ _ (iv_store _ HI _ _ Hp)) as Hu. rewrite Ep in Hu.
    pose proof (count_two (on (pStore f)) _ _ _ _ _ Hk Hj ltac:(done)) as H2. unfold holds in H2. rewrite !decide_True in H2 by done. lia.
  - intros (-> & Hn). destruct nm as [n|]; [|done]. by eapply (iv_names _ HI).
Qed.

Lemma view_put s k f nm p p' m : inv s → files s !! k = Some (f, nm) → stores (vfs s) !! pStore f = Some p →
  view (Sys (with_store (pStore f) p' (with_mem m (vfs s))) (files s)) = put k nm (store_bytes p', szMax p') (view s).
Proof.
  intros HI Hk Hp. apply map_eq. intros j. unfold put, view. rewrite map_lookup_imap, !lookup_fmap. cbn [vfs files]. destruct (files s !! j) as [[g nm']|] eqn:Hj; [|done].
  cbn [fmap option_fmap option_map mbind option_bind fst snd]. f_equal. f_equal. unfold content. cbn [stores with_store with_mem].
  assert (E : pStore g = pStore f ↔ j = k ∨ nm' = nm ∧ nm ≠ None).
  { destruct (decide (j = k)) as [->|Hne]; [rewrite Hk in Hj; injection Hj as <- <-; by split; [left|]|]. rewrite (same_store s k f nm j g nm') by done. split; [by right|by intros [?|?]]. }
  case_decide as Hd; [apply E in Hd as ->; by rewrite lookup_insert_eq|]. rewrite lookup_insert_ne; [done|]. intros Eq. by apply Hd, E.
Qed.

(** An update that leaves the bytes alone. *)
Lemma view_same s fs F : (∀ j g nm, F !! j = Some (g, nm) → ∃ g', files s !! j = Some (g', nm) ∧ content fs (pStore g) = content (vfs s) (pStore g')) → dom F = dom (files s) → view (Sys fs F) = view s.
Proof.
  intros HF Hd. apply map_eq. intros j. unfold view. rewrite !lookup_fmap. cbn [vfs files]. destruct (F !! j) as [[g nm]|] eqn:Hj.
  - destruct (HF _ _ _ Hj) as (g' & -> & Ec). cbn. by rewrite Ec.
  - apply not_elem_of_dom in Hj. rewrite Hd in Hj. apply not_elem_of_dom in Hj. by rewrite Hj.
Qed.

(** ** Bytes *)

(** A write to a sequence of bytes: zeros fill a gap. *)
Definition overwrite (off : Z) (z d : list Z) : list Z :=
  take (Z.to_nat off) d ++ replicate (Z.to_nat off - length d) 0 ++ z ++ drop (Z.to_nat (off + zlen z)) d.

Definition splice (off : Z) (z l : list Z) : list Z := take (Z.to_nat off) l ++ z ++ drop (Z.to_nat (off + zlen z)) l.

Lemma put_made off z d : 0 ≤ off → off + zlen z ≤ zlen (default [] d) →
  ∃ d', put_bytes off z d = Some d' ∧ default [] d' = splice off z (default [] d) ∧ (d' = None ↔ d = None).
Proof.
  intros Hoff Hz. unfold put_bytes, splice. destruct (Z.eqb_spec (zlen z) 0) as [E|E].
  - destruct z as [|]; [|cbn in E; lia]. exists d. split; [done|]. split; [|done]. cbn [length app]. rewrite Z.add_0_r, take_drop. done.
  - destruct d as [l|]; [|cbn in Hz; lia]. cbn [mbind option_bind default] in *. destruct (Z.leb_spec 0 off); [|lia]. destruct (Z.leb_spec (off + zlen z) (zlen l)); [|cbn in Hz; lia].
    cbn [andb]. eexists. split; [done|]. split; [done|]. by split.
Qed.

Lemma splice_length off z l : 0 ≤ off → off + zlen z ≤ zlen l → length (splice off z l) = length l.
Proof. intros Hoff Hz. unfold splice. rewrite !length_app, length_take, length_drop. lia. Qed.

Lemma splice_inside off z l n : 0 ≤ off → off + zlen z ≤ n ≤ zlen l → take (Z.to_nat n) (splice off z l) = overwrite off z (take (Z.to_nat n) l).
Proof.
  intros Hoff Hz. unfold overwrite, splice. rewrite length_take. replace (Z.to_nat off - _)%nat with 0%nat by lia. cbn [replicate app].
  rewrite take_take, Nat.min_l by lia. rewrite take_app_ge by (rewrite length_take; lia). rewrite length_take, Nat.min_l by lia. f_equal.
  rewrite take_app_ge by lia. f_equal. rewrite skipn_firstn_comm. f_equal. lia.
Qed.

Lemma splice_end off z l : 0 ≤ off → off + zlen z ≤ zlen l → take (Z.to_nat (off + zlen z)) (splice off z l) = take (Z.to_nat off) l ++ z.
Proof.
  intros Hoff Hz. unfold splice. rewrite app_assoc, take_app_length'; [done|]. rewrite length_app, length_take. lia.
Qed.

Lemma enlarge_made p n m : flag p SQLITE_DESERIALIZE_RESIZEABLE = true → nMmap p ≤ 0 → zlen (default [] (aData p)) < n →
  ∃ rc p' m', memdbEnlarge junk n p m = (rc, p', m') ∧
    (rc = SQLITE_OK ∧ (∃ a d, p' = with_data a d p ∧ zlen (default [] d) = a ∧ n ≤ a ∧ take (length (default [] (aData p))) (default [] d) = default [] (aData p)) ∧
       live m' = live m - blocks p + blocks p' ∨
     (rc = SQLITE_FULL ∧ szMax p < n ∨ rc = SQLITE_IOERR_NOMEM ∧ ¬ always_ok m) ∧ p' = p ∧ live m' = live m).
Proof.
  intros Hfl Hm Hn. unfold memdbEnlarge. rewrite Hfl. destruct (Z.ltb_spec 0 (nMmap p)); [lia|]. cbn [negb orb]. destruct (Z.ltb_spec (szMax p) n) as [Hmx|Hmx]; [by do 3 eexists; split; [done|]; right; split; [left|]|].
  set (a := if szMax p <? n * 2 then szMax p else n * 2). assert (Ha : n ≤ a) by (unfold a; destruct (szMax p <? n * 2); lia). unfold sqlite3Realloc.
  destruct (sqlite3Malloc m) as [ok m1] eqn:EM. pose proof (sqlite3Malloc_live _ _ _ EM) as Hl. destruct ok; cbn [negb].
  2: { do 3 eexists. split; [done|]. right. split; [right; split; [done|]; intros Hok; by destruct (sqlite3Malloc_ok _ _ _ Hok EM)|]. split; [done|]. destruct (aData p); cbn in *; lia. }
  do 3 eexists. split; [done|]. left. split; [done|]. split.
  - eexists _, _. split; [done|]. cbn [default from_option id]. rewrite (take_ge (default [] (aData p))) by lia. rewrite length_app, length_map, length_seqZ. split; [lia|]. split; [done|].
    by rewrite take_app_length.
  - unfold blocks. cbn [aData with_data]. destruct (aData p); cbn in *; lia.
Qed.

Lemma write_made s k f nm z off : inv s → files s !! k = Some (f, nm) → 0 ≤ off → let c := content (vfs s) (pStore f) in
  ∃ rc fs', memdbWrite junk z off f (vfs s) = Some (rc, fs') ∧ inv (Sys fs' (files s)) ∧
    (rc = SQLITE_OK ∧ view (Sys fs' (files s)) = put k nm (overwrite off z (fst c), snd c) (view s) ∨
     (rc = SQLITE_FULL ∧ snd c < off + zlen z ∨ rc = SQLITE_IOERR_NOMEM ∧ ¬ always_ok (fs_mem (vfs s))) ∧ view (Sys fs' (files s)) = view s).
Proof.
  intros HI Hk Hoff. destruct (iv_file _ HI _ _ _ Hk) as (_ & p & Hp & Ep). destruct (iv_store _ HI _ _ Hp) as [H1 H2 H3 H4 _ _ _ _ _]. destruct (flags_ok p H3) as (Hro & Hrs & _).
  set (l := default [] (aData p)) in *. intros c. assert (Ec : c = (take (Z.to_nat (sz p)) l, szMax p)) by (unfold c, content; by rewrite Hp).
  unfold memdbWrite. rewrite Hp. cbn [mbind option_bind]. rewrite Hro.
  assert (HFIN : ∀ p1 m1 d1, data_step p p1 → szMax p1 = szMax p → live m1 = live (fs_mem (vfs s)) - blocks p + blocks p1 → off + zlen z ≤ sz p1 →
    take (Z.to_nat (sz p1)) (splice off z (default [] (aData p1))) = overwrite off z (take (Z.to_nat (sz p)) l) → d1 = aData p1 →
    ∃ rc fs', (d ← put_bytes off z d1; Some (SQLITE_OK, with_store (pStore f) (with_data (szAlloc p1) d p1) (with_mem m1 (vfs s)))) = Some (rc, fs') ∧ inv (Sys fs' (files s)) ∧
      (rc = SQLITE_OK ∧ view (Sys fs' (files s)) = put k nm (overwrite off z (fst c), snd c) (view s) ∨
       (rc = SQLITE_FULL ∧ snd c < off + zlen z ∨ rc = SQLITE_IOERR_NOMEM ∧ ¬ always_ok (fs_mem (vfs s))) ∧ view (Sys fs' (files s)) = view s)).
  { intros p1 m1 d1 [D1 D2 D3 D4 D5 D6 D7 D8] Emax Hl1 Hz1 Esp ->. destruct (put_made off z (aData p1) Hoff ltac:(lia)) as (d & -> & Ed & HN). cbn [mbind option_bind].
    eexists _, _. split; [done|]. split.
    - eapply inv_data; try done; [split; try done; cbn; by rewrite Ed, splice_length by lia|]. unfold blocks in *. cbn [aData with_data]. destruct d, (aData p1); try lia; destruct HN as [HN1 HN2]; [by discriminate HN2|by discriminate HN1].
    - left. split; [done|]. erewrite view_put by done. unfold store_bytes. cbn [sz szMax aData with_data]. by rewrite Ed, Esp, Ec, Emax. }
  destruct (Z.ltb_spec (sz p) (off + zlen z)) as [Hgrow|Hin].
  2: { cbn [mbind option_bind]. change (negb (SQLITE_OK =? SQLITE_OK)) with false. cbv iota. apply HFIN; [by split|done|lia|lia| |done]. apply splice_inside; fold l; lia. }
  assert (HE : ∃ rc p1 m1, (if szAlloc p <? off + zlen z then memdbEnlarge junk (off + zlen z) p (fs_mem (vfs s)) else (SQLITE_OK, p, fs_mem (vfs s))) = (rc, p1, m1) ∧
    (rc = SQLITE_OK ∧ (∃ a d, p1 = with_data a d p ∧ zlen (default [] d) = a ∧ off + zlen z ≤ a ∧ take (Z.to_nat (sz p)) (default [] d) = take (Z.to_nat (sz p)) l) ∧
       live m1 = live (fs_mem (vfs s)) - blocks p + blocks p1 ∨
     (rc = SQLITE_FULL ∧ snd c < off + zlen z ∨ rc = SQLITE_IOERR_NOMEM ∧ ¬ always_ok (fs_mem (vfs s))) ∧ p1 = p ∧ live m1 = live (fs_mem (vfs s)))).
  { destruct (Z.ltb_spec (szAlloc p) (off + zlen z)) as [Hs|Hs].
    - destruct (enlarge_made p (off + zlen z) (fs_mem (vfs s)) Hrs H4) as (rc & p1 & m1 & E & HC); [fold l; lia|]. exists rc, p1, m1. split; [done|].
      destruct HC as [(-> & (a & d & -> & Ea & Hn & Et) & Hl)|(Hrc & -> & Hl)]; [|right; split; [by rewrite Ec|done]].
      left. split; [done|]. split; [|done]. exists a, d. split_and!; try done. fold l in Et. rewrite <- Et, take_take. f_equal. lia.
    - exists SQLITE_OK, p, (fs_mem (vfs s)). split; [done|]. left. split; [done|]. split; [|lia]. exists (szAlloc p), (aData p). fold l. split_and!; try done. by destruct p. }
  destruct HE as (rc & p1 & m1 & -> & HC). cbv beta iota.
  destruct HC as [(-> & (a & d0 & -> & Ea & Hn & Et) & Hl)|(Hrc & -> & Hl)].
  2: { destruct (Z.eqb_spec rc SQLITE_OK) as [->|Hne]; [by destruct Hrc as [(? & _)|(? & _)]|]. cbn [negb mbind option_bind]. destruct (Z.eqb_spec rc SQLITE_OK); [done|]. cbn [negb].
       eexists _, _. split; [done|]. split; [eapply inv_data; try done; lia|]. right. split; [done|]. apply view_same; [|done]. intros j g nm' Hj. exists g. split; [done|].
       unfold content. cbn [stores with_store with_mem]. destruct (decide (pStore f = pStore g)) as [<-|]; [by rewrite lookup_insert_eq, Hp|by rewrite lookup_insert_ne]. }
  change (negb (SQLITE_OK =? SQLITE_OK)) with false. cbn [sz szAlloc aData with_data].
  assert (Hcl : length (take (Z.to_nat (sz p)) l) = Z.to_nat (sz p)) by (rewrite length_take; lia).
  assert (Hov : drop (Z.to_nat (off + zlen z)) (take (Z.to_nat (sz p)) l) = []) by (apply drop_ge; lia).
  destruct (Z.ltb_spec (sz p) off) as [Hgap|Hno].
  - set (zeros := replicate (Z.to_nat (off - sz p)) 0). assert (Hzl : sz p + zlen zeros = off) by (unfold zeros; rewrite length_replicate; lia).
    destruct (put_made (sz p) zeros d0 ltac:(lia) ltac:(lia)) as (d1 & -> & Ed1 & HN). cbn [mbind option_bind]. change (negb (SQLITE_OK =? SQLITE_OK)) with false. cbv iota.
    assert (Hd1 : zlen (default [] d1) = a) by (rewrite Ed1, splice_length by lia; lia). apply HFIN; cbn [sz szMax szAlloc aData with_sz with_data].
    + split; try done. cbn. lia.
    + done.
    + rewrite Hl. unfold blocks. cbn [aData with_sz with_data]. destruct d0, d1; try lia; destruct HN as [HN1 HN2]; [by discriminate HN1|by discriminate HN2].
    + lia.
    + rewrite splice_end by lia. rewrite Ed1, <- Hzl at 1. rewrite splice_end by lia. rewrite Et. unfold overwrite. rewrite Hov, app_nil_r, (take_ge (take _ l)) by lia.
      rewrite <- app_assoc. do 2 f_equal. unfold zeros. f_equal. lia.
    + done.
  - cbn [mbind option_bind]. change (negb (SQLITE_OK =? SQLITE_OK)) with false. cbv iota. apply HFIN; cbn [sz szMax szAlloc aData with_sz with_data].
    + split; try done. cbn. lia.
    + done.
    + rewrite Hl. done.
    + lia.
    + rewrite splice_end by lia. unfold overwrite. rewrite Hov, app_nil_r. replace (Z.to_nat off - _)%nat with 0%nat by lia. cbn [replicate app]. f_equal.
      rewrite <- Et, take_take. f_equal. lia.
    + done.
Qed.

Lemma read_made s k f nm n off : inv s → files s !! k = Some (f, nm) → 0 ≤ n → 0 ≤ off → let c := fst (content (vfs s) (pStore f)) in
  let d := take (Z.to_nat n) (drop (Z.to_nat off) c) in
  memdbRead n off f (vfs s) = Some (if zlen c <? off + n then SQLITE_IOERR_SHORT_READ else SQLITE_OK, d ++ replicate (Z.to_nat n - length d) 0).
Proof.
  intros HI Hk Hn Hoff. destruct (iv_file _ HI _ _ _ Hk) as (_ & p & Hp & _). destruct (iv_store _ HI _ _ Hp) as [H1 H2 _ _ _ _ _ _ _]. cbn zeta.
  unfold memdbRead, content. rewrite Hp. cbn [mbind option_bind fst]. unfold store_bytes. set (l := default [] (aData p)) in *. set (c := take _ l). assert (Hc : zlen c = sz p) by (unfold c; rewrite length_take; lia). rewrite Hc.
  assert (Hget : ∀ x, 0 ≤ x → off + x ≤ sz p → get_bytes off x (aData p) = Some (take (Z.to_nat x) (drop (Z.to_nat off) c))).
  { intros x Hx Hle. unfold get_bytes. destruct (Z.eqb_spec x 0) as [->|Hne]; [done|]. unfold c, l in *. destruct (aData p) as [l0|]; [|cbn in H2; lia]. cbn [mbind option_bind default from_option id] in *.
    destruct (Z.leb_spec 0 off); [|lia]. destruct (Z.leb_spec (off + x) (zlen l0)); [|lia]. cbn [andb]. f_equal. rewrite skipn_firstn_comm, take_take. f_equal. lia. }
  destruct (Z.ltb_spec (sz p) (off + n)) as [Hs|Hs].
  - assert (Hd : drop (Z.to_nat off) c = take (Z.to_nat n) (drop (Z.to_nat off) c)) by (rewrite take_ge; [done|rewrite length_drop; lia]). rewrite <- Hd.
    destruct (Z.ltb_spec off (sz p)) as [Ho|Ho].
    + rewrite Hget by lia. cbn [mbind option_bind]. rewrite take_ge by (rewrite length_drop; lia). done.
    + cbn [mbind option_bind]. by rewrite (drop_ge c) by lia.
  - rewrite Hget by lia. cbn [mbind option_bind]. set (d := take _ _). assert (length d = Z.to_nat n) as -> by (unfold d; rewrite length_take, length_drop; lia).
    by rewrite Nat.sub_diag, app_nil_r.
Qed.

Lemma truncate_made s k f nm n : inv s → files s !! k = Some (f, nm) → 0 ≤ n → let c := content (vfs s) (pStore f) in
  ∃ rc fs', memdbTruncate n f (vfs s) = Some (rc, fs') ∧ inv (Sys fs' (files s)) ∧
    (if zlen (fst c) <? n then rc = SQLITE_CORRUPT ∧ view (Sys fs' (files s)) = view s
     else rc = SQLITE_OK ∧ view (Sys fs' (files s)) = put k nm (take (Z.to_nat n) (fst c), snd c) (view s)).
Proof.
  intros HI Hk Hn. destruct (iv_file _ HI _ _ _ Hk) as (_ & p & Hp & _). destruct (iv_store _ HI _ _ Hp) as [H1 H2 _ _ _ _ _ _ _]. cbn zeta.
  unfold memdbTruncate, content. rewrite Hp. cbn [mbind option_bind fst snd]. unfold store_bytes at 1. assert (zlen (take (Z.to_nat (sz p)) (default [] (aData p))) = sz p) as -> by (rewrite length_take; lia).
  assert (Hfs : ∀ q, with_store (pStore f) q (vfs s) = with_store (pStore f) q (with_mem (fs_mem (vfs s)) (vfs s))) by by destruct s as [[] ?].
  destruct (Z.ltb_spec (sz p) n) as [Hs|Hs]; eexists _, _; (split; [done|]); [by destruct s|]. rewrite Hfs. split; [|split; [done|]].
  - eapply inv_data; try done; [split; (done || cbn; lia)|unfold blocks; cbn; lia].
  - erewrite view_put by done. unfold store_bytes. cbn [sz szMax aData with_sz]. do 2 f_equal. rewrite take_take. f_equal. lia.
Qed.

(** The limit is never below the bytes that are there. *)
Lemma control_made s k f nm c arg : inv s → files s !! k = Some (f, nm) → let d := content (vfs s) (pStore f) in
  ∃ rc x fs', memdbFileControl c arg f (vfs s) = Some (rc, x, fs') ∧ inv (Sys fs' (files s)) ∧
    (if c =? SQLITE_FCNTL_SIZE_LIMIT then rc = SQLITE_OK ∧ x = (if arg <? 0 then snd d else Z.max arg (zlen (fst d))) ∧ view (Sys fs' (files s)) = put k nm (fst d, x) (view s)
     else rc = (if c =? SQLITE_FCNTL_VFSNAME then SQLITE_OK else SQLITE_NOTFOUND) ∧ x = arg ∧ view (Sys fs' (files s)) = view s).
Proof.
  intros HI Hk d. destruct (iv_file _ HI _ _ _ Hk) as (_ & p & Hp & _). destruct (iv_store _ HI _ _ Hp) as [H1 H2 _ _ _ _ _ _ _]. unfold memdbFileControl. rewrite Hp. cbn [mbind option_bind].
  assert (Ed : d = (store_bytes p, szMax p)) by (unfold d, content; by rewrite Hp). assert (zlen (fst d) = sz p) as -> by (rewrite Ed; cbn [fst]; unfold store_bytes; rewrite length_take; lia).
  destruct (c =? SQLITE_FCNTL_SIZE_LIMIT); [|do 3 eexists; split; [done|]; split; [by destruct s|]; split; [done|]; split; [done|]; by destruct s].
  set (x := if arg <? sz p then _ else _). do 3 eexists. split; [done|]. assert (Hfs : ∀ q, with_store (pStore f) q (vfs s) = with_store (pStore f) q (with_mem (fs_mem (vfs s)) (vfs s))) by by destruct s as [[] ?].
  rewrite Hfs. split; [eapply inv_data; try done; unfold blocks; cbn; lia|]. split; [done|]. rewrite Ed. cbn [fst snd]. split.
  - unfold x. destruct (Z.ltb_spec arg (sz p)), (Z.ltb_spec arg 0); lia.
  - by erewrite view_put by done.
Qed.

Lemma fetch_made s k f nm off n : inv s → files s !! k = Some (f, nm) → memdbFetch off n f (vfs s) = Some (SQLITE_OK, None, vfs s).
Proof.
  intros HI Hk. destruct (iv_file _ HI _ _ _ Hk) as (_ & p & Hp & _). destruct (flags_ok p (so_flags _ _ _ _ (iv_store _ HI _ _ Hp))) as (_ & Hr & _).
  unfold memdbFetch. rewrite Hp. cbn [mbind option_bind]. by rewrite Hr, orb_true_r.
Qed.

Lemma unfetch_made s k f nm : inv s → files s !! k = Some (f, nm) →
  ∃ fs', memdbUnfetch f (vfs s) = Some (SQLITE_OK, fs') ∧ inv (Sys fs' (files s)) ∧ view (Sys fs' (files s)) = view s.
Proof.
  intros HI Hk. destruct (iv_file _ HI _ _ _ Hk) as (_ & p & Hp & _). destruct (iv_store _ HI _ _ Hp) as [H1 H2 _ _ _ _ _ _ _]. unfold memdbUnfetch. rewrite Hp. cbn [mbind option_bind].
  eexists. split; [done|]. assert (Hfs : ∀ q, with_store (pStore f) q (vfs s) = with_store (pStore f) q (with_mem (fs_mem (vfs s)) (vfs s))) by by destruct s as [[] ?].
  rewrite Hfs. split; [eapply inv_data; try done; [split; cbn; (done || lia)|unfold blocks; cbn; lia]|]. apply view_same; [|done]. intros j g nm' Hj. exists g. split; [done|].
  unfold content. cbn [stores with_store with_mem]. destruct (decide (pStore f = pStore g)) as [<-|]; [by rewrite lookup_insert_eq, Hp|by rewrite lookup_insert_ne].
Qed.

(** ** Closing *)

Lemma remove_perm (i : nat) x L : L !! i = Some x → L ≡ₚ x :: remove_store i L.
Proof.
  destruct L as [|z L _] using rev_ind; [done|]. intros Hi. unfold remove_store. rewrite last_snoc, length_app. cbn [length]. replace (length L + 1 - 1)%nat with (length L) by lia.
  destruct (decide (i = length L)) as [->|Hne].
  - rewrite list_lookup_middle in Hi by done. injection Hi as ->. rewrite insert_app_r_alt by lia. rewrite Nat.sub_diag. change (<[0%nat:=x]> [x]) with [x]. rewrite take_app_length. by rewrite Permutation_app_comm.
  - pose proof (lookup_lt_Some _ _ _ Hi) as Hlt. rewrite length_app in Hlt. cbn [length] in Hlt. rewrite insert_app_l, take_app_length' by (rewrite ?length_insert; lia).
    rewrite lookup_app_l in Hi by lia. apply list_elem_of_split_length in Hi as (a & b & -> & ->). rewrite insert_app_r_alt by lia. rewrite Nat.sub_diag.
    change (<[0%nat:=z]> (x :: b)) with (z :: b). rewrite <- app_assoc. cbn [app]. etrans; [symmetry; apply Permutation_middle|]. apply perm_skip, Permutation_app_head. by rewrite Permutation_app_comm.
Qed.

Lemma view_close s k fs' : (∀ j g nm, j ≠ k → files s !! j = Some (g, nm) → content fs' (pStore g) = content (vfs s) (pStore g)) →
  view (Sys fs' (delete k (files s))) = delete k (view s).
Proof.
  intros Hc. apply map_eq. intros j. unfold view. rewrite lookup_fmap. cbn [vfs files]. destruct (decide (j = k)) as [->|Hne]; [by rewrite !lookup_delete_eq|].
  rewrite !lookup_delete_ne, lookup_fmap by done. destruct (files s !! j) as [[g nm]|] eqn:Hj; [|done]. cbn. by rewrite (Hc j g nm).
Qed.

Lemma alone s k f nm j g nm' : files s !! k = Some (f, nm) → count (on (pStore f)) (files s) = 1 → files s !! j = Some (g, nm') → j ≠ k → pStore g ≠ pStore f.
Proof.
  intros Hk H1 Hj Hne E. pose proof (count_two (on (pStore f)) _ _ _ _ _ Hk Hj ltac:(done)) as H2. unfold holds in H2. rewrite !decide_True in H2 by done. lia.
Qed.

(** Counts without a file that holds no lock. *)
Lemma close_counts s k f nm l n : files s !! k = Some (f, nm) → eLock f = SQLITE_LOCK_NONE → 1 ≤ n →
  count (locked l n) (delete k (files s)) = count (locked l n) (files s) ∧ count (on l) (delete k (files s)) = count (on l) (files s) - (if decide (pStore f = l) then 1 else 0).
Proof.
  intros Hk He Hn. rewrite !(count_delete _ _ _ _ Hk). unfold holds. split.
  - rewrite decide_False; [lia|]. intros (_ & Hl). cbn in Hl. rewrite He in Hl. unfold SQLITE_LOCK_NONE in Hl. lia.
  - unfold on. cbn [fst]. repeat case_decide; lia.
Qed.

(** The last file of a store is closed. *)
Lemma close_last s k f nm p ap' m : inv s → files s !! k = Some (f, nm) → stores (vfs s) !! pStore f = Some p → count (on (pStore f)) (files s) = 1 →
  NoDup (default [] ap') → (∀ y, y ∈ default [] ap' ↔ y ∈ default [] (apMemStore (vfs s)) ∧ y ≠ pStore f) →
  live m = live (fs_mem (vfs s)) - blocks p + (match ap' with Some _ => 1 | None => 0 end) - (match apMemStore (vfs s) with Some _ => 1 | None => 0 end) →
  inv (Sys (mkFS (delete (pStore f) (stores (vfs s))) ap' m) (delete k (files s))) ∧
  view (Sys (mkFS (delete (pStore f) (stores (vfs s))) ap' m) (delete k (files s))) = delete k (view s).
Proof.
  intros HI Hk Hp Hone Hnd Hmem Hlive. pose proof HI as [V1 V2 V3 (V4 & V4') V5]. split.
  2: { apply view_close. intros j g nm' Hne Hj. unfold content. cbn [stores]. rewrite lookup_delete_ne; [done|]. intros E. by apply (alone s k f nm j g nm' Hk Hone Hj Hne). }
  split; cbn [vfs files stores apMemStore fs_mem].
  - intros j g nm' Hj. apply lookup_delete_Some in Hj as (Hne & Hj). destruct (V1 _ _ _ Hj) as (H1 & q & Hq & En). split; [done|]. exists q. split; [|done].
    rewrite lookup_delete_ne; [done|]. intros E. by apply (alone s k f nm j g nm' Hk Hone Hj).
  - intros l q Hl. apply lookup_delete_Some in Hl as (Hne & Hl). eapply other_ok; [| |by apply V2].
    + intros j h Hon. unfold on in Hon. destruct (decide (k = j)) as [<-|Hkj]; [|by rewrite lookup_delete_ne]. rewrite lookup_delete_eq, Hk. split; [intros [= <-]; cbn in Hon; congruence|done].
    + intros Hin. apply Hmem. by split.
  - intros l l' q q' n Hl Hl'. apply lookup_delete_Some in Hl as (_ & Hl). apply lookup_delete_Some in Hl' as (_ & Hl'). by apply (V3 l l' q q' n).
  - split; [done|]. intros l Hl. apply Hmem in Hl as (Hl & Hne). destruct (V4' l Hl) as (q & n & Hq & En). exists q, n. by rewrite lookup_delete_ne.
  - rewrite (total_delete _ _ _ Hp) in V5. lia.
Qed.

(** A file of a store with others is closed. *)
Lemma close_other s k f nm p : inv s → files s !! k = Some (f, nm) → eLock f = SQLITE_LOCK_NONE → stores (vfs s) !! pStore f = Some p → zFName p ≠ None → 1 < nRef p →
  let fs' := with_store (pStore f) (with_nRef (nRef p - 1) p) (vfs s) in inv (Sys fs' (delete k (files s))) ∧ view (Sys fs' (delete k (files s))) = delete k (view s).
Proof.
  intros HI Hk He Hp Hname Hr fs'. pose proof HI as [V1 V2 V3 (V4 & V4') V5]. assert (Hcont : ∀ l, content fs' l = content (vfs s) l).
  { intros l. unfold content, fs'. cbn [stores with_store]. destruct (decide (pStore f = l)) as [<-|]; [by rewrite lookup_insert_eq, Hp|by rewrite lookup_insert_ne]. }
  split; [|apply view_close; intros; apply Hcont].
  assert (Hst : ∀ l q, <[pStore f:=with_nRef (nRef p - 1) p]> (stores (vfs s)) !! l = Some q → ∃ q', stores (vfs s) !! l = Some q' ∧ zFName q' = zFName q).
  { intros l q Hl. destruct (decide (pStore f = l)) as [<-|Hne]; [rewrite lookup_insert_eq in Hl; injection Hl as <-; by exists p|]. rewrite lookup_insert_ne in Hl by done. by exists q. }
  assert (Hst2 : ∀ l q, stores (vfs s) !! l = Some q → ∃ q', <[pStore f:=with_nRef (nRef p - 1) p]> (stores (vfs s)) !! l = Some q' ∧ zFName q' = zFName q).
  { intros l q Hl. destruct (decide (pStore f = l)) as [<-|Hne]; [rewrite lookup_insert_eq; rewrite Hp in Hl; injection Hl as <-; by eexists|]. rewrite lookup_insert_ne by done. by exists q. }
  split; cbn [vfs files stores apMemStore fs_mem fs' with_store].
  - intros j g nm' Hj. apply lookup_delete_Some in Hj as (Hne & Hj). destruct (V1 _ _ _ Hj) as (H1 & q & Hq & En). split; [done|]. destruct (Hst2 _ _ Hq) as (q' & Hq' & E). exists q'. split; [done|congruence].
  - intros l q Hl. destruct (decide (pStore f = l)) as [<-|Hne].
    + rewrite lookup_insert_eq in Hl. injection Hl as <-. destruct (V2 _ _ Hp) as [H1 H2 H3 H4 H5 H6 H7 H8 H9].
      destruct (close_counts s k f nm (pStore f) SQLITE_LOCK_SHARED Hk He ltac:(done)) as (C1 & C3). destruct (close_counts s k f nm (pStore f) SQLITE_LOCK_RESERVED Hk He ltac:(done)) as (C2 & _).
      rewrite decide_True in C3 by done. split; try done; cbn [nRdLock nWrLock nRef zFName with_nRef]; rewrite ?C1, ?C2, ?C3; try done.
      * intros j h Hj. apply lookup_delete_Some in Hj as (_ & Hj). by apply (H8 j).
      * destruct (zFName p); [|done]. destruct H9 as (? & ? & ?). split_and!; (done || lia).
    + rewrite lookup_insert_ne in Hl by done. eapply other_ok; [|done|by apply V2]. intros j h Hon. unfold on in Hon. destruct (decide (k = j)) as [<-|Hkj]; [|by rewrite lookup_delete_ne].
      rewrite lookup_delete_eq, Hk. split; [intros [= <-]; cbn in Hon; congruence|done].
  - intros l l' q q' n Hl Hl' E1 E2. destruct (Hst _ _ Hl) as (r & Hr1 & Er). destruct (Hst _ _ Hl') as (r' & Hr' & Er'). apply (V3 l l' r r' n); congruence.
  - split; [done|]. intros l Hl. destruct (V4' l Hl) as (q & n & Hq & En). destruct (Hst2 _ _ Hq) as (q' & Hq' & E). exists q', n. split; [done|congruence].
  - rewrite (total_set _ _ _ _ Hp). unfold blocks in *. cbn [aData with_nRef]. lia.
Qed.

Lemma close_made s k f nm : inv s → files s !! k = Some (f, nm) → eLock f = SQLITE_LOCK_NONE →
  ∃ fs', memdbClose f (vfs s) = Some (SQLITE_OK, fs') ∧ inv (Sys fs' (delete k (files s))) ∧ view (Sys fs' (delete k (files s))) = delete k (view s).
Proof.
  intros HI Hk He. destruct (iv_file _ HI _ _ _ Hk) as (_ & p & Hp & Ep). destruct (iv_store _ HI _ _ Hp) as [_ _ H3 _ _ _ _ _ H9]. destruct (flags_ok p H3) as (_ & _ & Hfree).
  destruct (iv_list _ HI) as (Hnd & Hnames). unfold memdbClose. rewrite Hp. cbn [mbind option_bind]. change (flag (with_nRef (nRef p - 1) p) SQLITE_DESERIALIZE_FREEONCLOSE) with (flag p SQLITE_DESERIALIZE_FREEONCLOSE).
  rewrite Hfree. cbn [nRef with_nRef aData]. destruct (zFName p) as [name|] eqn:Ename.
  - destruct H9 as (Hr & Hru & Hin). destruct (list_find_elem_of (eq (pStore f)) (default [] (apMemStore (vfs s))) (pStore f) Hin eq_refl) as ((i & x) & Hfind).
    unfold unlist_store. rewrite Hfind. destruct (Z.eqb_spec (nRef p) 1) as [E1|E1].
    + apply list_find_Some in Hfind as (Hi & <- & _). pose proof (remove_perm i (pStore f) _ Hi) as HP. set (L' := remove_store i _) in *.
      assert (Hnd' : NoDup (pStore f :: L')) by by rewrite <- HP. apply NoDup_cons in Hnd' as (Hni & Hnd').
      assert (Hmem : ∀ y, y ∈ L' ↔ y ∈ default [] (apMemStore (vfs s)) ∧ y ≠ pStore f).
      { intros y. rewrite HP, elem_of_cons. split; [intros Hy; split; [by right|by intros ->]|]. intros ([->|?] & ?); done. }
      assert (Hap : match apMemStore (vfs s) with Some _ => 1 | None => 0 end = 1) by (destruct (apMemStore (vfs s)); [done|by apply elem_of_nil in Hin]).
      rewrite E1. cbn [Z.sub Z.leb Z.compare Z.opp Z.add Z.pos_sub]. clearbody L'. destruct L' as [|y L2]; cbn [stores apMemStore with_list with_mem fs_mem].
      * eexists. split; [done|]. apply (close_last s k f nm p None); try done; [lia|]. rewrite Hap. unfold blocks. destruct (aData p); cbn; lia.
      * eexists. split; [done|]. apply (close_last s k f nm p (Some (y :: L2))); try done; [lia|]. rewrite Hap. unfold blocks. destruct (aData p); cbn; lia.
    + destruct (Z.leb_spec (nRef p - 1) 0); [lia|]. eexists. split; [done|]. apply (close_other s k f nm p); (done || lia || by rewrite Ename).
  - destruct H9 as (Hr & Hone). rewrite Hr. cbn [Z.sub Z.leb Z.compare Z.opp Z.add]. eexists. split; [done|]. apply (close_last s k f nm p (apMemStore (vfs s))); try done.
    + intros y. split; [|by intros (? & _)]. intros Hy. split; [done|]. intros ->. destruct (Hnames _ Hy) as (q & n & Hq & En). congruence.
    + unfold blocks. destruct (aData p); cbn; lia.
Qed.

(** ** Opening *)

Lemma find_name_made s name l : (∀ i, i ∈ l → ∃ p n, stores (vfs s) !! i = Some p ∧ zFName p = Some n) →
  ∃ r, find_name l name (vfs s) = Some r ∧
    match r with
    | Some i => ∃ p, stores (vfs s) !! i = Some p ∧ zFName p = Some name
    | None => ∀ i p, i ∈ l → stores (vfs s) !! i = Some p → zFName p ≠ Some name
    end.
Proof.
  induction l as [|i l IH]; intros Hl; cbn [find_name].
  - exists None. split; [done|]. by intros i p ?%elem_of_nil.
  - destruct (Hl i) as (p & n & Hp & En); [by left|]. rewrite Hp. cbn [mbind option_bind]. rewrite En. cbn [mbind option_bind].
    case_bool_decide as Hn; [subst; exists (Some i); split; [done|by exists p]|].
    destruct IH as (r & -> & Hr); [intros j Hj; apply Hl; by right|]. exists r. split; [done|]. destruct r as [j|]; [done|].
    intros j q [->|Hj]%elem_of_cons Hq; [congruence|by apply (Hr j)].
Qed.

Lemma view_open s k f nm fs' : files s !! k = None → (∀ j g nm', files s !! j = Some (g, nm') → content fs' (pStore g) = content (vfs s) (pStore g)) →
  view (Sys fs' (<[k := (f, nm)]> (files s))) = <[k := (nm, content fs' (pStore f))]> (view s).
Proof.
  intros Hk Hc. unfold view at 1. cbn [vfs files]. rewrite fmap_insert. cbn [fst snd]. f_equal. apply map_eq. intros j. unfold view. rewrite !lookup_fmap.
  destruct (files s !! j) as [[g nm']|] eqn:Hj; [|done]. cbn. by rewrite (Hc j g nm').
Qed.

(** Counts with one more file, which holds no lock. *)
Lemma open_counts F k i nm l n : F !! k = None → 1 ≤ n →
  count (locked l n) (<[k := (mkFile i SQLITE_LOCK_NONE, nm)]> F) = count (locked l n) F ∧
  count (on l) (<[k := (mkFile i SQLITE_LOCK_NONE, nm)]> F) = count (on l) F + (if decide (i = l) then 1 else 0).
Proof.
  intros Hk Hn. rewrite !count_new by done. unfold holds. split.
  - rewrite decide_False; [lia|]. intros (_ & Hl). cbn in Hl. unfold SQLITE_LOCK_NONE in Hl. lia.
  - unfold on. cbn [fst pStore]. repeat case_decide; lia.
Qed.

Lemma open_others (F : gmap positive handle) k i nm l : F !! k = None → i ≠ l → ∀ j h, on l h → F !! j = Some h ↔ <[k := (mkFile i SQLITE_LOCK_NONE, nm)]> F !! j = Some h.
Proof.
  intros Hk Hne j h Hon. unfold on in Hon. destruct (decide (k = j)) as [<-|Hkj]; [|by rewrite lookup_insert_ne].
  rewrite lookup_insert_eq, Hk. split; [done|]. intros [= <-]. cbn in Hon. done.
Qed.

(** A file with a name that is in use. *)
Lemma join_made s k i p name : inv s → files s !! k = None → stores (vfs s) !! i = Some p → zFName p = Some name →
  let s' := Sys (with_store i (with_nRef (nRef p + 1) p) (vfs s)) (<[k := (mkFile i SQLITE_LOCK_NONE, Some name)]> (files s)) in
  inv s' ∧ view s' = <[k := (Some name, content (vfs s) i)]> (view s) ∧ ∃ j, view s !! j = Some (Some name, content (vfs s) i).
Proof.
  intros HI Hk Hp Ename s'. pose proof HI as [V1 V2 V3 (V4 & V4') V5]. set (q0 := with_nRef (nRef p + 1) p) in *.
  assert (Hst : ∀ l q, <[i:=q0]> (stores (vfs s)) !! l = Some q → ∃ q', stores (vfs s) !! l = Some q' ∧ zFName q' = zFName q).
  { intros l q Hl. destruct (decide (i = l)) as [<-|Hne]; [rewrite lookup_insert_eq in Hl; injection Hl as <-; by exists p|]. rewrite lookup_insert_ne in Hl by done. by exists q. }
  assert (Hst2 : ∀ l q, stores (vfs s) !! l = Some q → ∃ q', <[i:=q0]> (stores (vfs s)) !! l = Some q' ∧ zFName q' = zFName q).
  { intros l q Hl. destruct (decide (i = l)) as [<-|Hne]; [rewrite lookup_insert_eq; rewrite Hp in Hl; injection Hl as <-; by eexists|]. rewrite lookup_insert_ne by done. by exists q. }
  assert (Hcont : ∀ l, content (with_store i q0 (vfs s)) l = content (vfs s) l).
  { intros l. unfold content. cbn [stores with_store]. destruct (decide (i = l)) as [<-|]; [by rewrite lookup_insert_eq, Hp|by rewrite lookup_insert_ne]. }
  split_and!.
  - split; cbn [vfs files stores apMemStore fs_mem s' with_store].
    + intros j g nm' Hj. destruct (decide (k = j)) as [<-|Hne].
      * rewrite lookup_insert_eq in Hj. injection Hj as <- <-. cbn [eLock pStore]. split; [done|]. destruct (Hst2 _ _ Hp) as (q' & Hq' & E). exists q'. split; [done|congruence].
      * rewrite lookup_insert_ne in Hj by done. destruct (V1 _ _ _ Hj) as (H1 & q & Hq & En). split; [done|]. destruct (Hst2 _ _ Hq) as (q' & Hq' & E). exists q'. split; [done|congruence].
    + intros l q Hl. destruct (decide (i = l)) as [<-|Hne].
      * rewrite lookup_insert_eq in Hl. injection Hl as <-. destruct (V2 _ _ Hp) as [H1 H2 H3 H4 H5 H6 H7 H8 H9].
        destruct (open_counts (files s) k i (Some name) i SQLITE_LOCK_SHARED Hk ltac:(done)) as (C1 & C3). destruct (open_counts (files s) k i (Some name) i SQLITE_LOCK_RESERVED Hk ltac:(done)) as (C2 & _).
        rewrite decide_True in C3 by done. split; try done; cbn [nRdLock nWrLock nRef zFName with_nRef q0]; rewrite ?C1, ?C2, ?C3; try done.
        -- intros j h Hj Hlk. destruct (decide (k = j)) as [<-|Hkj]; [rewrite lookup_insert_eq in Hj; injection Hj as <-; by destruct Hlk|]. rewrite lookup_insert_ne in Hj by done. by apply (H8 j h).
        -- rewrite Ename in *. destruct H9 as (? & ? & ?). split_and!; (done || lia).
      * rewrite lookup_insert_ne in Hl by done. eapply other_ok; [by apply open_others|done|by apply V2].
    + intros l l' q q' n Hl Hl' E1 E2. destruct (Hst _ _ Hl) as (r & Hr1 & Er). destruct (Hst _ _ Hl') as (r' & Hr' & Er'). apply (V3 l l' r r' n); congruence.
    + split; [done|]. intros l Hl. destruct (V4' l Hl) as (q & n & Hq & En). destruct (Hst2 _ _ Hq) as (q' & Hq' & E). exists q', n. split; [done|congruence].
    + rewrite (total_set _ _ _ _ Hp). unfold blocks in *. cbn [aData with_nRef q0]. lia.
  - unfold s'. rewrite view_open; [by rewrite Hcont|done|]. intros. apply Hcont.
  - pose proof (so_users _ _ _ _ (V2 _ _ Hp)) as Hu. rewrite Ename in Hu. destruct (count_some (on i) (files s)) as (j & [g nm'] & Hj & Hon); [lia|]. unfold on in Hon. cbn in Hon.
    exists j. unfold view. rewrite lookup_fmap, Hj. cbn [fmap option_fmap option_map fst snd]. rewrite Hon. destruct (V1 _ _ _ Hj) as (_ & q & Hq & Eq). rewrite Hon in Hq. congruence.
Qed.

(** A file with a store of its own. *)
Lemma new_made s k i nm ap' m : inv s → files s !! k = None → stores (vfs s) !! i = None → (∀ l p n, stores (vfs s) !! l = Some p → zFName p = Some n → nm ≠ Some n) →
  NoDup (default [] ap') → (∀ y, y ∈ default [] ap' ↔ y ∈ default [] (apMemStore (vfs s)) ∨ y = i ∧ nm ≠ None) →
  live m = live (fs_mem (vfs s)) + 1 + (match ap' with Some _ => 1 | None => 0 end) - (match apMemStore (vfs s) with Some _ => 1 | None => 0 end) →
  let s' := Sys (mkFS (<[i := new_store mxMemdbSize (match nm with Some _ => 1 | None => 0 end) nm]> (stores (vfs s))) ap' m) (<[k := (mkFile i SQLITE_LOCK_NONE, nm)]> (files s)) in
  inv s' ∧ view s' = <[k := (nm, ([], mxMemdbSize))]> (view s) ∧ ∀ j x, view s !! j = Some x → nm = None ∨ fst x ≠ nm.
Proof.
  intros HI Hk Hi Hnew Hnd Hmem Hlive s'. pose proof HI as [V1 V2 V3 (V4 & V4') V5]. set (q0 := new_store _ _ _) in *.
  assert (Hno : ∀ j g nm', files s !! j = Some (g, nm') → pStore g ≠ i) by (intros j g nm' Hj E; destruct (V1 _ _ _ Hj) as (_ & q & Hq & _); congruence).
  assert (Hon : count (on i) (files s) = 0) by (apply count_none; intros j [g nm'] Hj; by apply (Hno j g nm')).
  assert (Hlk : ∀ n, count (locked i n) (files s) = 0) by (intros n; apply count_none; intros j [g nm'] Hj (? & _); by apply (Hno j g nm')).
  assert (Hne : ∀ l q, stores (vfs s) !! l = Some q → i ≠ l) by (intros l q Hq ->; congruence).
  split_and!.
  - split; cbn [vfs files stores apMemStore fs_mem s'].
    + intros j g nm' Hj. destruct (decide (k = j)) as [<-|Hkj].
      * rewrite lookup_insert_eq in Hj. injection Hj as <- <-. cbn [eLock pStore]. split; [done|]. exists q0. by rewrite lookup_insert_eq.
      * rewrite lookup_insert_ne in Hj by done. destruct (V1 _ _ _ Hj) as (H1 & q & Hq & En). split; [done|]. exists q. rewrite lookup_insert_ne by (by eapply Hne). done.
    + intros l q Hl. destruct (decide (i = l)) as [<-|Hil].
      * rewrite lookup_insert_eq in Hl. injection Hl as <-.
        destruct (open_counts (files s) k i nm i SQLITE_LOCK_SHARED Hk ltac:(done)) as (C1 & C3). destruct (open_counts (files s) k i nm i SQLITE_LOCK_RESERVED Hk ltac:(done)) as (C2 & _).
        rewrite decide_True, Hon in C3 by done. rewrite Hlk in C1, C2. split; cbn [nRdLock nWrLock nRef zFName sz szAlloc aData mFlags nMmap q0 new_store]; rewrite ?C1, ?C2, ?C3; try done.
        -- intros j h Hj Hl. destruct (decide (k = j)) as [<-|Hkj]; [rewrite lookup_insert_eq in Hj; injection Hj as <-; by destruct Hl|].
           rewrite lookup_insert_ne in Hj by done. destruct h as [g nm']. destruct Hl as (? & _). by destruct (Hno j g nm').
        -- destruct nm; [|done]. split_and!; [lia..|]. apply Hmem. by right.
      * rewrite lookup_insert_ne in Hl by done. eapply other_ok; [by apply open_others| |by apply V2]. intros Hin. apply Hmem. by left.
    + intros l l' q q' n Hl Hl' E1 E2. apply lookup_insert_Some in Hl as [(Ei & Eq)|(_ & Hl)]; apply lookup_insert_Some in Hl' as [(Ei' & Eq')|(_ & Hl')]; subst; [done| | |by apply (V3 l l' q q' n)].
      * exfalso. by apply (Hnew l' q' n).
      * exfalso. by apply (Hnew l q n).
    + split; [done|]. intros l Hl. apply Hmem in Hl as [Hl|(-> & Hnm)].
      * destruct (V4' l Hl) as (q & n & Hq & En). exists q, n. rewrite lookup_insert_ne by (by eapply Hne). done.
      * destruct nm as [n|]; [|done]. exists q0, n. by rewrite lookup_insert_eq.
    + rewrite total_new by done. unfold blocks in *. cbn [aData q0 new_store]. lia.
  - unfold s'. rewrite view_open; [|done|].
    + unfold content. cbn [stores pStore]. by rewrite lookup_insert_eq.
    + intros j g nm' Hj. unfold content. cbn [stores]. rewrite lookup_insert_ne; [done|]. intros E. by apply (Hno j g nm').
  - intros j x Hx. unfold view in Hx. rewrite lookup_fmap in Hx. destruct (files s !! j) as [[g nm']|] eqn:Hj; [|done]. injection Hx as <-. cbn.
    destruct nm as [n|]; [right|by left]. intros ->. destruct (V1 _ _ _ Hj) as (_ & q & Hq & En). by apply (Hnew _ _ _ Hq En).
Qed.

(** Failures leave at most an empty array behind. *)
Lemma inv_fail s m ap' : inv s → default [] ap' = default [] (apMemStore (vfs s)) →
  live m = live (fs_mem (vfs s)) + (match ap' with Some _ => 1 | None => 0 end) - (match apMemStore (vfs s) with Some _ => 1 | None => 0 end) →
  inv (Sys (mkFS (stores (vfs s)) ap' m) (files s)).
Proof. intros [V1 V2 V3 V4 V5] Ea Hm. split; cbn [vfs files stores apMemStore fs_mem]; rewrite ?Ea; (done || lia). Qed.

Lemma is_fresh {A} (S : gmap positive A) : S !! fresh (dom S) = None.
Proof. apply not_elem_of_dom, is_fresh. Qed.

Lemma open_made s k zName mok : inv s → files s !! k = None → let nm := is_shared zName in
  ∃ rc fo fs', memdbOpen mxMemdbSize zName mok (vfs s) = Some (rc, fo, fs') ∧
    match fo with
    | None => rc = SQLITE_NOMEM ∧ inv (Sys fs' (files s)) ∧ view (Sys fs' (files s)) = view s ∧ ¬ (always_ok (fs_mem (vfs s)) ∧ mok = true) ∧
        (∀ j x, view s !! j = Some x → nm = None ∨ fst x ≠ nm)
    | Some f => rc = SQLITE_OK ∧ eLock f = SQLITE_LOCK_NONE ∧ let s' := Sys fs' (<[k := (f, nm)]> (files s)) in inv s' ∧ ∃ d, view s' = <[k := (nm, d)]> (view s) ∧
        ((nm ≠ None ∧ ∃ j, view s !! j = Some (nm, d)) ∨ d = ([], mxMemdbSize) ∧ ∀ j x, view s !! j = Some x → nm = None ∨ fst x ≠ nm)
    end.
Proof.
  intros HI Hk nm. unfold memdbOpen. fold nm. set (i := fresh (dom (stores (vfs s)))). assert (Hi : stores (vfs s) !! i = None) by apply is_fresh.
  assert (Hsame : ∀ ap m, view (Sys (mkFS (stores (vfs s)) ap m) (files s)) = view s) by done.
  destruct (iv_list _ HI) as (Hnd & Hnames). destruct nm as [name|] eqn:Enm.
  - destruct (find_name_made s name _ Hnames) as (r & -> & Hr). cbn [mbind option_bind]. destruct r as [l|].
    { destruct Hr as (p & Hp & Ep). rewrite Hp. cbn [mbind option_bind]. do 3 eexists. split; [done|]. split; [done|]. split; [done|]. destruct (join_made s k l p name HI Hk Hp Ep) as (HJ & HV & Hj).
      split; [exact HJ|]. eexists. split; [exact HV|]. left. by split. }
    assert (Hnew : ∀ l p n, stores (vfs s) !! l = Some p → zFName p = Some n → Some name ≠ Some n).
    { intros l p n Hl En [= <-]. pose proof (so_users _ _ _ _ (iv_store _ HI _ _ Hl)) as Hu. rewrite En in Hu. destruct Hu as (_ & _ & Hin). by apply (Hr l p). }
    assert (Hnof : ∀ j x, view s !! j = Some x → Some name = None ∨ fst x ≠ Some name).
    { intros j x Hx. right. intros E. unfold view in Hx. rewrite lookup_fmap in Hx. destruct (files s !! j) as [[g nm']|] eqn:Hj; [|done]. injection Hx as <-. cbn in E. subst nm'.
      destruct (iv_file _ HI _ _ _ Hj) as (_ & q & Hq & En). by apply (Hnew _ _ _ Hq En). }
    destruct (sqlite3Malloc (fs_mem (vfs s))) as [ok1 m1] eqn:E1. pose proof (sqlite3Malloc_live _ _ _ E1) as L1. destruct ok1; cbn [negb].
    2: { exists SQLITE_NOMEM, None. eexists. split; [done|]. split; [done|]. split; [apply (inv_fail _ _ _ HI); cbn in *; (done || lia)|]. split; [done|]. split; [|done]. intros (Hok & _). by destruct (sqlite3Malloc_ok _ _ _ Hok E1). }
    unfold sqlite3Realloc. destruct (sqlite3Malloc m1) as [ok2 m2] eqn:E2. pose proof (sqlite3Malloc_live _ _ _ E2) as L2. destruct ok2; cbn [negb].
    2: { exists SQLITE_NOMEM, None. eexists. split; [done|]. split; [done|]. split; [apply (inv_fail _ _ _ HI); [done|]; unfold sqlite3_free; destruct (apMemStore (vfs s)); cbn in *; lia|].
         split; [done|]. split; [|done]. intros (Hok & _). destruct (sqlite3Malloc_ok _ _ _ Hok E1) as (_ & Hok2). by destruct (sqlite3Malloc_ok _ _ _ Hok2 E2). }
    destruct mok; cbn [negb].
    + do 3 eexists. split; [done|]. split; [done|]. split; [done|]. fold i.
      pose proof (new_made s k i (Some name) (Some (default [] (apMemStore (vfs s)) ++ [i])) (if match apMemStore (vfs s) with Some _ => true | None => false end then Mem (oom m2) (live m1) else m2) HI Hk Hi Hnew) as HN.
      cbn zeta in HN. destruct HN as (HJ & HV & Hj).
      * cbn [default from_option id]. apply NoDup_app. split; [done|]. split; [|apply NoDup_singleton]. intros x Hx ->%list_elem_of_singleton. destruct (Hnames _ Hx) as (q & n & Hq & _). congruence.
      * intros y. cbn [default from_option id]. rewrite elem_of_app, list_elem_of_singleton. split; [intros [?|?]; [by left|by right]|intros [?|(? & _)]; [by left|by right]].
      * destruct (apMemStore (vfs s)); cbn in *; lia.
      * split; [exact HJ|]. eexists. split; [exact HV|]. right. done.
    + exists SQLITE_NOMEM, None. eexists. split; [done|]. split; [done|]. split; [apply (inv_fail _ _ _ HI); [done|]; unfold sqlite3_free; destruct (apMemStore (vfs s)); cbn in *; lia|]. split; [done|]. split; [|done]. by intros (_ & ?).
  - destruct (sqlite3Malloc (fs_mem (vfs s))) as [ok1 m1] eqn:E1. pose proof (sqlite3Malloc_live _ _ _ E1) as L1. destruct ok1; cbn [negb].
    2: { exists SQLITE_NOMEM, None. eexists. split; [done|]. split; [done|]. split; [apply (inv_fail _ _ _ HI); cbn in *; (done || lia)|]. split; [done|]. split; [|by left]. intros (Hok & _). by destruct (sqlite3Malloc_ok _ _ _ Hok E1). }
    do 3 eexists. split; [done|]. split; [done|]. split; [done|]. fold i. destruct (new_made s k i None (apMemStore (vfs s)) m1 HI Hk Hi) as (HJ & HV & Hj); try done.
    + intros y. split; [by left|]. by intros [?|(_ & ?)].
    + cbn in *. lia.
    + split; [exact HJ|]. eexists. split; [exact HV|]. right. done.
Qed.

(** ** The specification *)

Definition locks (s : sys) : gmap positive Z := (λ h : handle, eLock (fst h)) <$> files s.

(** Another file with the same name has the lock [n] or more. *)
Definition conflict (V : contents) (K : gmap positive Z) (k : positive) (nm : option (list Z)) (n : Z) : Prop :=
  nm ≠ None ∧ ∃ j d x, j ≠ k ∧ V !! j = Some (nm, d) ∧ K !! j = Some x ∧ n ≤ x.

Lemma conflict_count s k f nm n : inv s → files s !! k = Some (f, nm) →
  conflict (view s) (locks s) k nm n ↔ b2z (n <=? eLock f) < count (locked (pStore f) n) (files s).
Proof.
  intros HI Hk. pose proof (count_delete (locked (pStore f) n) (files s) k _ Hk) as HD.
  assert (Hh : holds (locked (pStore f) n) (f, nm) = b2z (n <=? eLock f)) by (unfold holds, locked; cbn [fst]; destruct (Z.leb_spec n (eLock f)); cbn [b2z]; case_decide; lia).
  rewrite Hh in HD. split.
  - intros (Hn & j & d & x & Hne & HV & HK & Hx). unfold view in HV. unfold locks in HK. rewrite lookup_fmap in HV. rewrite lookup_fmap in HK. destruct (files s !! j) as [[g nm']|] eqn:Hj; [|done].
    injection HV as -> _. injection HK as <-. pose proof (count_pos (locked (pStore f) n) (delete k (files s)) j (g, nm)) as HP. rewrite lookup_delete_ne in HP by done. specialize (HP Hj).
    unfold holds in HP. rewrite decide_True in HP; [lia|]. split; [|done]. by apply (same_store s k f nm j g nm).
  - intros Hlt. destruct (count_some (locked (pStore f) n) (delete k (files s))) as (j & [g nm'] & Hj & Hst & Hle); [lia|]. apply lookup_delete_Some in Hj as (Hne & Hj). cbn [fst] in *.
    apply (same_store s k f nm j g nm' HI Hk Hj) in Hst as (-> & Hn); [|done]. split; [done|]. exists j, (content (vfs s) (pStore g)), (eLock g). unfold view, locks. by rewrite !lookup_fmap, Hj.
Qed.

(** A lock is refused exactly if another file has one that conflicts. *)
Lemma lock_code s k f nm lck rc f' fs' : inv s → files s !! k = Some (f, nm) → SQLITE_LOCK_SHARED ≤ lck ≤ SQLITE_LOCK_EXCLUSIVE → (eLock f = SQLITE_LOCK_NONE → lck = SQLITE_LOCK_SHARED) →
  memdbLock lck f (vfs s) = Some (rc, f', fs') →
  rc = SQLITE_BUSY ↔ eLock f < lck ∧ conflict (view s) (locks s) k nm (if lck =? SQLITE_LOCK_EXCLUSIVE then SQLITE_LOCK_SHARED else SQLITE_LOCK_RESERVED).
Proof.
  intros HI Hk Hl Hnone. destruct (iv_file _ HI _ _ _ Hk) as (He & p & Hp & _). destruct (iv_store _ HI _ _ Hp) as [_ _ H3 _ H5 H6 H7 _ _]. destruct (flags_ok p H3) as (Hro & _).
  rewrite (conflict_count s k f nm) by done. unfold memdbLock. rewrite Hp. cbn [mbind option_bind]. rewrite Hro, andb_false_r. unfold SQLITE_LOCK_SHARED, SQLITE_LOCK_RESERVED, SQLITE_LOCK_PENDING, SQLITE_LOCK_EXCLUSIVE, SQLITE_LOCK_NONE in *.
  destruct (Z.leb_spec lck (eLock f)); [intros [= <- _ _]; split; [done|lia]|].
  destruct (Z.eqb_spec lck 4) as [->|H4]; cbn [Z.eqb Pos.eqb orb].
  - rewrite <- H5. destruct (Z.ltb_spec 1 (nRdLock p)).
    + intros [= <- _ _]. split; [intros _|done]. split; [lia|]. destruct (Z.leb_spec 1 (eLock f)); cbn [b2z]; lia.
    + assert (Hf1 : 1 ≤ eLock f) by lia. destruct (Z.leb_spec 1 (eLock f)); [|lia]. destruct (_ =? _); intros [= <- _ _]; cbn [b2z]; (split; [done|lia]).
  - rewrite <- H6. destruct (Z.eqb_spec lck 1) as [->|H1].
    + assert (eLock f = 0) as -> by lia. cbn [Z.leb Z.compare b2z]. destruct (Z.ltb_spec 0 (nWrLock p)); intros [= <- _ _]; (split; [|done || lia]); (done || lia).
    + assert ((lck =? 2) || (lck =? 3) = true) as -> by (destruct (Z.eqb_spec lck 2), (Z.eqb_spec lck 3); (done || lia)).
      destruct (Z.eqb_spec (eLock f) 1) as [-> |Hf1].
      * cbn [Z.leb Z.compare Pos.compare Pos.compare_cont b2z]. destruct (Z.ltb_spec 0 (nWrLock p)); intros [= <- _ _]; (split; [|done || lia]); (done || lia).
      * destruct (Z.leb_spec 2 (eLock f)); [|lia]. intros [= <- _ _]. cbn [b2z]. split; [done|lia].
Qed.

(** Locks are no bytes. *)
Lemma view_locks s k f f' nm p r w b : files s !! k = Some (f, nm) → stores (vfs s) !! pStore f = Some p → pStore f' = pStore f →
  view (Sys (if b : bool then vfs s else with_store (pStore f) (with_locks r w p) (vfs s)) (<[k := (f', nm)]> (files s))) = view s.
Proof.
  intros Hk Hp Ef. assert (Hc : ∀ l, content (if b : bool then vfs s else with_store (pStore f) (with_locks r w p) (vfs s)) l = content (vfs s) l).
  { intros l. destruct b; [done|]. unfold content. cbn [stores with_store]. destruct (decide (pStore f = l)) as [<-|]; [by rewrite lookup_insert_eq, Hp|by rewrite lookup_insert_ne]. }
  apply view_same; [|rewrite dom_insert_L; apply elem_of_dom_2 in Hk; set_solver]. intros j g nm' Hj. destruct (decide (k = j)) as [<-|Hne].
  - rewrite lookup_insert_eq in Hj. injection Hj as <- <-. exists f. by rewrite Ef.
  - rewrite lookup_insert_ne in Hj by done. by exists g.
Qed.

(** What an operation on the file [k] may do to the files [V] and their locks [K]; [ok] says that no allocation fails. *)
Definition spec (k : positive) (o : op) (ok : Prop) (V : contents) (K : gmap positive Z) (rc : Z) (out : list Z) (V' : contents) (K' : gmap positive Z) : Prop :=
  match o with
  | Open zName mutex_ok =>
      let nm := is_shared zName in let unused := ∀ j x, V !! j = Some x → nm = None ∨ fst x ≠ nm in
      rc = SQLITE_NOMEM ∧ V' = V ∧ K' = K ∧ unused ∧ ¬ (ok ∧ mutex_ok = true) ∨
      rc = SQLITE_OK ∧ K' = <[k := SQLITE_LOCK_NONE]> K ∧
      ∃ d, V' = <[k := (nm, d)]> V ∧ ((nm ≠ None ∧ ∃ j, V !! j = Some (nm, d)) ∨ d = ([], mxMemdbSize) ∧ unused)
  | _ =>
      ∃ nm d lim e, V !! k = Some (nm, (d, lim)) ∧ K !! k = Some e ∧
      match o with
      | Close => rc = SQLITE_OK ∧ V' = delete k V ∧ K' = delete k K
      | Lock lck =>
          let refused := e < lck ∧ conflict V K k nm (if lck =? SQLITE_LOCK_EXCLUSIVE then SQLITE_LOCK_SHARED else SQLITE_LOCK_RESERVED) in
          V' = V ∧ (rc = SQLITE_BUSY ∧ K' = K ∧ refused ∨ rc = SQLITE_OK ∧ K' = <[k := Z.max lck e]> K ∧ ¬ refused)
      | Unlock lck => rc = SQLITE_OK ∧ V' = V ∧ K' = <[k := Z.min lck e]> K
      | Read n off =>
          let r := take (Z.to_nat n) (drop (Z.to_nat off) d) in
          rc = (if zlen d <? off + n then SQLITE_IOERR_SHORT_READ else SQLITE_OK) ∧ out = r ++ replicate (Z.to_nat n - length r) 0 ∧ V' = V ∧ K' = K
      | Write z off =>
          K' = K ∧ (rc = SQLITE_OK ∧ V' = put k nm (overwrite off z d, lim) V ∨ (rc = SQLITE_FULL ∧ lim < off + zlen z ∨ rc = SQLITE_IOERR_NOMEM ∧ ¬ ok) ∧ V' = V)
      | Truncate n => K' = K ∧ (if zlen d <? n then rc = SQLITE_CORRUPT ∧ V' = V else rc = SQLITE_OK ∧ V' = put k nm (take (Z.to_nat n) d, lim) V)
      | FileSize => rc = SQLITE_OK ∧ out = [zlen d] ∧ V' = V ∧ K' = K
      | Control c arg =>
          K' = K ∧
          (if c =? SQLITE_FCNTL_SIZE_LIMIT then
             let x := if arg <? 0 then lim else Z.max arg (zlen d) in rc = SQLITE_OK ∧ out = [x] ∧ V' = put k nm (d, x) V
           else rc = (if c =? SQLITE_FCNTL_VFSNAME then SQLITE_OK else SQLITE_NOTFOUND) ∧ out = [arg] ∧ V' = V)
      | Fetch _ _ | Unfetch => rc = SQLITE_OK ∧ out = [] ∧ V' = V ∧ K' = K
      | Open _ _ => False
      end
  end.

Lemma step_made s k o : inv s → allowed k o s →
  ∃ rc out s', exec k o s = Some (rc, out, s') ∧ inv s' ∧ spec k o (always_ok (fs_mem (vfs s))) (view s) (locks s) rc out (view s') (locks s').
Proof.
  intros HI HA. unfold allowed in HA. destruct o as [zName mok| | | |n off|z off|n| |c arg|off n|]; cbn [exec spec].
  1: { destruct (open_made s k zName mok HI HA) as (rc & fo & fs' & -> & H). cbn [mbind option_bind]. destruct fo as [f|]; do 3 eexists; (split; [done|]).
       - destruct H as (-> & He & HI' & HV). split; [exact HI'|]. right. split; [done|]. split; [|exact HV]. unfold locks. cbn [files]. rewrite fmap_insert. cbn [fst]. by rewrite He.
       - destruct H as (-> & HI' & -> & H1 & H2). split; [exact HI'|]. by left. }
  all: destruct HA as (f & nm & Hk & HA); rewrite Hk; cbn [mbind option_bind].
  all: destruct (content (vfs s) (pStore f)) as [d lim] eqn:Ec; assert (HV : view s !! k = Some (nm, (d, lim))) by (unfold view; rewrite lookup_fmap, Hk; cbn [fmap option_fmap option_map fst snd]; by rewrite Ec).
  all: assert (HK : locks s !! k = Some (eLock f)) by (unfold locks; by rewrite lookup_fmap, Hk).
  - destruct (close_made s k f nm HI Hk HA) as (fs' & -> & HI' & HV'). cbn [mbind option_bind]. do 3 eexists. split; [done|]. split; [exact HI'|]. exists nm, d, lim, (eLock f).
    split_and!; try done. unfold locks. cbn [files]. by rewrite fmap_delete.
  - destruct (memdbLock_made s k f nm lck HI Hk) as (rc & f' & p & r & w & Hp & Es & EL & HI' & Hrc); [apply HA..|]. pose proof (lock_code s k f nm lck _ _ _ HI Hk (proj1 HA) (proj2 HA) EL) as Hcode.
    rewrite EL. cbn [mbind option_bind]. do 3 eexists. split; [done|]. split; [exact HI'|]. exists nm, d, lim, (eLock f). split; [done|]. split; [done|]. split; [by eapply view_locks|].
    unfold locks. cbn [files]. rewrite fmap_insert. cbn [fst]. destruct Hrc as [(-> & ->)|(-> & ->)].
    + right. split; [done|]. split; [done|]. intros HC. by apply Hcode in HC.
    + left. split; [done|]. split; [by apply insert_id|]. by apply Hcode.
  - destruct (memdbUnlock_made s k f nm lck HI Hk HA) as (f' & p & r & w & Hp & Es & He & -> & HI'). cbn [mbind option_bind]. do 3 eexists. split; [done|]. split; [exact HI'|]. exists nm, d, lim, (eLock f).
    split; [done|]. split; [done|]. split; [done|]. split; [by eapply view_locks|]. unfold locks. cbn [files]. rewrite fmap_insert. cbn [fst]. by rewrite He.
  - rewrite (read_made s k f nm n off HI Hk) by apply HA. cbn [mbind option_bind]. rewrite Ec. cbn [fst]. do 3 eexists. split; [done|]. split; [done|]. exists nm, d, lim, (eLock f). by split_and!.
  - destruct (write_made s k f nm z off HI Hk HA) as (rc & fs' & -> & HI' & HW). cbn [mbind option_bind]. rewrite Ec in HW. cbn [fst snd] in HW. do 3 eexists. split; [done|]. split; [exact HI'|]. exists nm, d, lim, (eLock f). by split_and!.
  - destruct (truncate_made s k f nm n HI Hk HA) as (rc & fs' & -> & HI' & HW). cbn [mbind option_bind]. rewrite Ec in HW. cbn [fst snd] in HW. do 3 eexists. split; [done|]. split; [exact HI'|]. exists nm, d, lim, (eLock f). by split_and!.
  - destruct (iv_file _ HI _ _ _ Hk) as (_ & p & Hp & _). unfold memdbFileSize. rewrite Hp. cbn [mbind option_bind]. do 3 eexists. split; [done|]. split; [done|]. exists nm, d, lim, (eLock f). split_and!; try done.
    pose proof (iv_store _ HI _ _ Hp) as [H1 H2 _ _ _ _ _ _ _]. unfold content in Ec. rewrite Hp in Ec. injection Ec as <- _. unfold store_bytes. rewrite length_take. f_equal. lia.
  - destruct (control_made s k f nm c arg HI Hk) as (rc & x & fs' & -> & HI' & HW). cbn [mbind option_bind]. rewrite Ec in HW. cbn [fst snd] in HW. do 3 eexists. split; [done|]. split; [exact HI'|]. exists nm, d, lim, (eLock f). split_and!; try done.
    destruct (c =? SQLITE_FCNTL_SIZE_LIMIT); destruct HW as (-> & -> & ->); done.
  - rewrite (fetch_made s k f nm off n HI Hk). cbn [mbind option_bind]. do 3 eexists. split; [done|]. split; [by destruct s|]. exists nm, d, lim, (eLock f). by split_and!.
  - destruct (unfetch_made s k f nm HI Hk) as (fs' & -> & HI' & HV'). cbn [mbind option_bind]. do 3 eexists. split; [done|]. split; [exact HI'|]. exists nm, d, lim, (eLock f). by split_and!.
Qed.

Lemma inv_init o : inv (Sys (mkFS ∅ None (Mem o 0)) ∅).
Proof.
  split; cbn [vfs files stores apMemStore fs_mem live default from_option].
  - intros k f nm. by rewrite lookup_empty.
  - intros l p. by rewrite lookup_empty.
  - intros l l' p p' n. by rewrite lookup_empty.
  - split; [apply NoDup_nil; done|]. by intros l ?%elem_of_nil.
  - done.
Qed.

Lemma reachable_inv s : reachable s → inv s.
Proof. induction 1 as [o|s k o rc out s' _ IH HA HE]; [apply inv_init|]. destruct (step_made s k o IH HA) as (rc' & out' & s2 & E & HI & _). congruence. Qed.

(** C23: whatever the connections did before, an operation that a connection may do runs to its end, its accesses in bounds, and it does what the specification
    says: a name that is in use gives its bytes and their limit, another name an empty file; a read gives the bytes that are there and zeros after them; a write
    overwrites them, with zeros in a gap, for all files with the name, and fails, changing nothing, only above the limit or without memory; a lock is refused
    exactly if a file with the same name has one that conflicts; and so on for every operation, failures of the allocator included. *)
Theorem memdb_refines s k o : reachable s → allowed k o s →
  ∃ rc out s', exec k o s = Some (rc, out, s') ∧ spec k o (always_ok (fs_mem (vfs s))) (view s) (locks s) rc out (view s') (locks s').
Proof.
  intros HR HA. destruct (step_made s k o (reachable_inv _ HR) HA) as (rc & out & s' & HE & _ & HS). by exists rc, out, s'.
Qed.

(** C24: in every state that the connections can reach, two files on one store do not both have a reserved lock or more, and beside an exclusive lock there is
    none; a store is there exactly as long as a file on it is open; once all are closed no block of a store is left, at most the array for the shared ones. *)
Theorem memdb_locks s : reachable s →
  (∀ j k f g nm nm', files s !! j = Some (f, nm) → files s !! k = Some (g, nm') → j ≠ k → pStore f = pStore g → SQLITE_LOCK_RESERVED ≤ eLock f →
     eLock g ≤ SQLITE_LOCK_SHARED ∧ (eLock f = SQLITE_LOCK_EXCLUSIVE → eLock g = SQLITE_LOCK_NONE)) ∧
  (∀ l, is_Some (stores (vfs s) !! l) ↔ ∃ k f nm, files s !! k = Some (f, nm) ∧ pStore f = l) ∧
  (files s = ∅ → stores (vfs s) = ∅ ∧ 0 ≤ live (fs_mem (vfs s)) ≤ 1).
Proof.
  intros HR. pose proof (reachable_inv s HR) as HI. assert (Hlive : ∀ l, is_Some (stores (vfs s) !! l) ↔ ∃ k f nm, files s !! k = Some (f, nm) ∧ pStore f = l).
  { intros l. split.
    - intros (p & Hp). pose proof (so_users _ _ _ _ (iv_store _ HI _ _ Hp)) as Hu. destruct (count_some (on l) (files s)) as (k & [f nm] & Hk & Hon); [destruct (zFName p); lia|]. by exists k, f, nm.
    - intros (k & f & nm & Hk & <-). destruct (iv_file _ HI _ _ _ Hk) as (_ & p & Hp & _). by exists p. }
  split; [|split; [exact Hlive|]].
  - intros j k f g nm nm' Hj Hk Hne E Hf. destruct (iv_file _ HI _ _ _ Hj) as (_ & p & Hp & _). destruct (iv_file _ HI _ _ _ Hk) as (Hg & _). destruct (iv_store _ HI _ _ Hp) as [_ _ _ _ H5 H6 H7 H8 _].
    unfold SQLITE_LOCK_RESERVED, SQLITE_LOCK_SHARED, SQLITE_LOCK_NONE, SQLITE_LOCK_EXCLUSIVE in *. split.
    + apply Z.nlt_ge. intros Hlt. assert (Hlk : locked (pStore f) 2 (g, nm')) by (split; cbn; [done|lia]). pose proof (count_both _ _ _ _ _ _ 2 Hj Hf Hk Hlk Hne). lia.
    + intros He. destruct (Z.eq_dec (eLock g) 0) as [|Hg0]; [done|]. assert (Hlk : locked (pStore f) 1 (g, nm')) by (split; cbn; [done|lia]).
      pose proof (count_both _ _ _ _ _ _ 1 Hj ltac:(lia) Hk Hlk Hne). rewrite (H8 j (f, nm) Hj) in H5; [lia|]. split; cbn; [done|lia].
  - intros HF. assert (HS : stores (vfs s) = ∅).
    { apply map_eq. intros l. rewrite lookup_empty. apply eq_None_not_Some. intros Hl. apply Hlive in Hl as (k & f & nm & Hk & _). by rewrite HF in Hk. }
    split; [done|]. pose proof (iv_live _ HI) as Hlv. rewrite HS in Hlv. change (total ∅) with 0 in Hlv. destruct (apMemStore (vfs s)); lia.
Qed.
End sys.

(** Two files with the name "/a", one of which has a reserved lock. *)
Definition run (l : list (positive * op)) (s : sys) : option sys :=
  foldl (λ r ko, s ← r; '(_, _, s') ← exec (λ _, 255) 1000 (fst ko) (snd ko) s; Some s') (Some s) l.
Definition sys0 : sys := Sys (mkFS ∅ None (Mem [] 0)) ∅.
Definition after (l : list (positive * op)) : sys := default sys0 (run l sys0).
Definition opened : list (positive * op) := [(1%positive, Open (Some [47; 97]) true); (2%positive, Open (Some [47; 97]) true); (1%positive, Lock 1); (1%positive, Lock 2)].

Lemma opened_reachable : reachable (λ _, 255) 1000 (after opened).
Proof.
  assert (H1 : reachable (λ _, 255) 1000 (after (take 1 opened))) by (eapply (reach_step _ _ sys0 1 (Open (Some [47; 97]) true)); [apply reach_init|vm_compute; reflexivity|vm_compute; reflexivity]).
  assert (H2 : reachable (λ _, 255) 1000 (after (take 2 opened))) by (eapply (reach_step _ _ _ 2 (Open (Some [47; 97]) true)); [exact H1|vm_compute; reflexivity|vm_compute; reflexivity]).
  assert (H3 : reachable (λ _, 255) 1000 (after (take 3 opened))) by (eapply (reach_step _ _ _ 1 (Lock 1)); [exact H2|do 2 eexists; split; [vm_compute; reflexivity|vm_compute; intuition congruence]|vm_compute; reflexivity]).
  eapply (reach_step _ _ _ 1 (Lock 2)); [exact H3|do 2 eexists; split; [vm_compute; reflexivity|vm_compute; intuition congruence]|vm_compute; reflexivity].
Qed.

Lemma memdb_refines_witness : allowed 1 (Write [1; 2] 3) (after opened) ∧
  ∃ rc out s', exec (λ _, 255) 1000 1 (Write [1; 2] 3) (after opened) = Some (rc, out, s') ∧
    spec 1000 1 (Write [1; 2] 3) (always_ok (fs_mem (vfs (after opened)))) (view (after opened)) (locks (after opened)) rc out (view s') (locks s').
Proof.
  assert (H : allowed 1 (Write [1; 2] 3) (after opened)) by (do 2 eexists; split; [vm_compute; reflexivity|vm_compute; congruence]).
  split; [exact H|]. exact (memdb_refines (λ _, 255) 1000 (after opened) 1 (Write [1; 2] 3) opened_reachable H).
Defined.

Lemma memdb_locks_witness : map_to_list (locks (after opened)) = [(2%positive, SQLITE_LOCK_NONE); (1%positive, SQLITE_LOCK_RESERVED)] ∧
  (∀ l, is_Some (stores (vfs (after opened)) !! l) ↔ ∃ k f nm, files (after opened) !! k = Some (f, nm) ∧ pStore f = l).
Proof. split; [vm_compute; reflexivity|]. apply (memdb_locks (λ _, 255) 1000 (after opened) opened_reachable). Defined.
