(* ===== verification/Double.v ===== *)
(** IEEE 754 doubles as their 64 bits, the conversions and comparisons of C between them and 64-bit integers, and the comparison of an integer with a double
    of src/vdbeaux.c. *)
From S2P Require Import Prelude.

(** ** Doubles *)

Definition EXP754 : Z := Z.shiftl 0x7ff 52.
Definition MAN754 : Z := Z.shiftl 1 52 - 1.
Definition IsNaN (X : Z) : bool := (Z.land X EXP754 =? EXP754) && negb (Z.land X MAN754 =? 0).
Definition sqlite3IsNaN (x : Z) : bool := IsNaN x.

(** The value of a double, in units of 2 ^ -1074; an infinity is above all numbers. *)
Definition UNIT : Z := 2 ^ 1074.
Definition magnitude (x : Z) : Z :=
  let e := Z.land (Z.shiftr x 52) 0x7ff in
  let f := Z.land x MAN754 in
  if e =? 0 then f else (2 ^ 52 + f) * 2 ^ (e - 1).
Definition dval (x : Z) : Z := if Z.testbit x 63 then - magnitude x else magnitude x.

(** [a<b] of C: false when one is a NaN. *)
Definition double_lt (a b : Z) : bool := negb (IsNaN a) && negb (IsNaN b) && (dval a <? dval b).

(** [(double)i], to the nearest double and to the even one of two. *)
Definition round_bits (a : Z) : Z :=
  let k := Z.log2 a in
  if k <=? 52 then (k + 1023) * 2 ^ 52 + (a * 2 ^ (52 - k) - 2 ^ 52)
  else
    let q := a / 2 ^ (k - 52) in
    let r := a mod 2 ^ (k - 52) in
    let half := 2 ^ (k - 53) in
    let q := if (half <? r) || ((r =? half) && Z.odd q) then q + 1 else q in
    (k + 1023) * 2 ^ 52 + (q - 2 ^ 52).
Definition double_of_i64 (i : Z) : Z :=
  if i =? 0 then 0 else if i <? 0 then 2 ^ 63 + round_bits (- i) else round_bits i.

(** [(i64)r], undefined for a NaN and outside the range. *)
Definition i64_of_double (r : Z) : option Z :=
  let v := Z.quot (dval r) UNIT in
  if IsNaN r then None else if (SMALLEST_INT64 <=? v) && (v <=? LARGEST_INT64) then Some v else None.

(** The constants -9223372036854775808.0 and 9223372036854775808.0. *)
Definition minus_two_63 : Z := 0xc3e0000000000000.
Definition two_63 : Z := 0x43e0000000000000.

Definition sqlite3IntFloatCompare (i r : Z) : option Z :=
  if sqlite3IsNaN r then Some 1
  else if double_lt r minus_two_63 then Some 1
  else if negb (double_lt r two_63) then Some (-1)
  else
    y ← i64_of_double r;
    if i <? y then Some (-1)
    else if y <? i then Some 1
    else Some (if double_lt (double_of_i64 i) r then -1 else b2z (double_lt r (double_of_i64 i))).

Example double_ex :
  (map double_of_i64 [1; -3; 2 ^ 53 + 1; 2 ^ 53 + 3; LARGEST_INT64; SMALLEST_INT64],
   (dval minus_two_63 =? - (2 ^ 63) * UNIT, dval two_63 =? 2 ^ 63 * UNIT, dval 0x3ff8000000000000 =? 3 * UNIT / 2),
   map (λ r, sqlite3IntFloatCompare 3 r) [0x4008000000000000; 0x400c000000000000; 0x7ff0000000000000; 0xfff0000000000000; 0x7ff8000000000000])
  = ([0x3ff0000000000000; 0xc008000000000000; 0x4340000000000000; 0x4340000000000002; 0x43e0000000000000; 0xc3e0000000000000],
     (true, true, true), [Some 0; Some (-1); Some (-1); Some 1; Some 1]).
Proof. vm_compute. reflexivity. Qed.

(** ** The comparison is exact *)

Lemma UNIT_pos : 0 < UNIT.
Proof. unfold UNIT. by apply Z.pow_pos_nonneg. Qed.

Lemma land_man x : Z.land x MAN754 = x mod 2 ^ 52.
Proof. change MAN754 with (Z.ones 52). by rewrite Z.land_ones. Qed.

Lemma exponent_bits x : Z.land (Z.shiftr x 52) 0x7ff = x / 2 ^ 52 mod 2 ^ 11.
Proof. change 0x7ff with (Z.ones 11). by rewrite Z.land_ones, Z.shiftr_div_pow2. Qed.

Lemma land_exp x : Z.land x EXP754 = Z.shiftl (x / 2 ^ 52 mod 2 ^ 11) 52.
Proof.
  rewrite <- exponent_bits. unfold EXP754. apply Z.bits_inj'. intros n Hn. rewrite Z.land_spec, !Z.shiftl_spec, Z.land_spec by done.
  destruct (Z.ltb_spec n 52); [rewrite !(Z.testbit_neg_r _ (n - 52)) by lia; by rewrite !andb_false_r|]. rewrite Z.shiftr_spec by lia. do 2 f_equal. lia.
Qed.

Lemma double_bits (s : bool) E F x : x = b2z s * 2 ^ 63 + E * 2 ^ 52 + F → 0 < E < 2 ^ 11 → 0 ≤ F < 2 ^ 52 →
  dval x = (if s then -1 else 1) * ((2 ^ 52 + F) * 2 ^ (E - 1)) ∧ (IsNaN x = (E =? 2047) && negb (F =? 0)).
Proof.
  intros -> HE HF. set (x := _ + F). assert (Hdiv : x / 2 ^ 52 = b2z s * 2 ^ 11 + E) by (unfold x; symmetry; apply (Z.div_unique _ _ _ F); [lia|]; change (2 ^ 63) with (2 ^ 52 * 2 ^ 11); ring).
  assert (Hmod : x mod 2 ^ 52 = F) by (unfold x; symmetry; apply (Z.mod_unique _ _ (b2z s * 2 ^ 11 + E)); [lia|]; change (2 ^ 63) with (2 ^ 52 * 2 ^ 11); ring).
  assert (He : x / 2 ^ 52 mod 2 ^ 11 = E) by (rewrite Hdiv; symmetry; apply (Z.mod_unique _ _ (b2z s)); [lia|ring]).
  assert (Hs : Z.testbit x 63 = s).
  { rewrite Z.testbit_eqb by done. change (2 ^ 63) with (2 ^ 52 * 2 ^ 11). rewrite <- Z.div_div by done. rewrite Hdiv. replace ((b2z s * 2 ^ 11 + E) / 2 ^ 11) with (b2z s); [by destruct s|]. apply (Z.div_unique _ _ _ E); lia. }
  split.
  - unfold dval, magnitude. rewrite Hs, exponent_bits, land_man, He, Hmod. destruct (Z.eqb_spec E 0); [lia|]. destruct s; lia.
  - unfold IsNaN. rewrite land_man, Hmod. f_equal. rewrite land_exp, He. apply eq_iff_eq_true. unfold EXP754. rewrite !Z.eqb_eq, !Z.shiftl_mul_pow2 by done. lia.
Qed.

(** An integer that a double represents. *)
Definition exact (a : Z) : Prop := 0 < a ∧ (a < 2 ^ 53 ∨ ∃ m j, 0 < j ∧ 2 ^ 52 ≤ m < 2 ^ 53 ∧ a = m * 2 ^ j).

Lemma log2_mul m j : 2 ^ 52 ≤ m < 2 ^ 53 → 0 ≤ j → Z.log2 (m * 2 ^ j) = 52 + j.
Proof.
  intros Hm Hj. apply Z.log2_unique; [lia|]. rewrite Z.pow_add_r by lia. rewrite Z.pow_succ_r, Z.pow_add_r by lia. assert (0 < 2 ^ j) by (by apply Z.pow_pos_nonneg). nia.
Qed.

Lemma round_bits_exact a : exact a → a < 2 ^ 64 →
  ∃ E F, round_bits a = E * 2 ^ 52 + F ∧ 0 < E < 2 ^ 11 - 1 ∧ 0 ≤ F < 2 ^ 52 ∧ (2 ^ 52 + F) * 2 ^ (E - 1) = a * UNIT.
Proof.
  intros (H0 & Hex) Ha. unfold round_bits. set (k := Z.log2 a). destruct (Z.log2_spec a H0) as (H1 & H2). fold k in H1, H2. assert (Hk : 0 ≤ k < 64).
  { split; [apply Z.log2_nonneg|]. apply Z.log2_lt_pow2; lia. }
  assert (HU : UNIT = 2 ^ 52 * 2 ^ 1022) by by rewrite <- Z.pow_add_r.
  destruct (Z.leb_spec k 52) as [Hle|Hgt].
  - assert (H52 : 2 ^ 52 = 2 ^ k * 2 ^ (52 - k)) by (rewrite <- Z.pow_add_r by lia; f_equal; lia). rewrite Z.pow_succ_r in H2 by lia.
    exists (k + 1023), (a * 2 ^ (52 - k) - 2 ^ 52). assert (0 < 2 ^ (52 - k)) by (apply Z.pow_pos_nonneg; lia). split; [done|]. split; [lia|]. split; [nia|].
    replace (k + 1023 - 1) with (k + 1022) by lia. rewrite Z.pow_add_r by lia. rewrite HU, H52. ring.
  - destruct Hex as [Hlt|(m & j & Hj & Hm & ->)].
    + assert (2 ^ 53 ≤ 2 ^ k) by (apply Z.pow_le_mono_r; lia). lia.
    + assert (Ek : k = 52 + j) by (unfold k; apply log2_mul; lia). replace (k - 52) with j by lia. assert (0 < 2 ^ j) by (apply Z.pow_pos_nonneg; lia).
      rewrite Z.div_mul, Z.mod_mul by lia. assert (0 < 2 ^ (k - 53)) by (apply Z.pow_pos_nonneg; lia). destruct (Z.ltb_spec (2 ^ (k - 53)) 0); [lia|]. destruct (Z.eqb_spec 0 (2 ^ (k - 53))); [lia|]. cbn [orb andb].
      exists (k + 1023), (m - 2 ^ 52). split; [done|]. split; [lia|]. split; [lia|]. rewrite Ek. replace (52 + j + 1023 - 1) with (j + (52 + 1022)) by lia. rewrite !Z.pow_add_r by lia. rewrite HU. ring.
Qed.

Lemma double_of_i64_exact i : SMALLEST_INT64 ≤ i ≤ LARGEST_INT64 → i = 0 ∨ exact (Z.abs i) → dval (double_of_i64 i) = i * UNIT ∧ IsNaN (double_of_i64 i) = false.
Proof.
  unfold SMALLEST_INT64, LARGEST_INT64, double_of_i64. intros Hi Hex. destruct (Z.eqb_spec i 0) as [->|H0]; [done|]. destruct Hex as [?|Hex]; [done|].
  destruct (Z.ltb_spec i 0) as [Hneg|Hpos].
  - replace (Z.abs i) with (- i) in Hex by lia. destruct (round_bits_exact (- i) Hex ltac:(lia)) as (E & F & -> & HE & HF & Hv).
    destruct (double_bits true E F (2 ^ 63 + (E * 2 ^ 52 + F))) as (-> & ->); [cbn [b2z]; lia|lia|lia|]. split; [lia|]. destruct (Z.eqb_spec E 2047); [lia|done].
  - replace (Z.abs i) with i in Hex by lia. destruct (round_bits_exact i Hex ltac:(lia)) as (E & F & -> & HE & HF & Hv).
    destruct (double_bits false E F (E * 2 ^ 52 + F)) as (-> & ->); [cbn [b2z]; lia|lia|lia|]. split; [lia|]. destruct (Z.eqb_spec E 2047); [lia|done].
Qed.

(** A double that is large is an integer with 53 bits and zeros. *)
Lemma large_double r : 0 ≤ r < 2 ^ 64 → 2 ^ 53 * UNIT ≤ Z.abs (dval r) → ∃ m j, 0 < j ∧ 2 ^ 52 ≤ m < 2 ^ 53 ∧ Z.abs (dval r) = m * 2 ^ j * UNIT.
Proof.
  intros Hr. assert (Hm : Z.abs (dval r) = magnitude r).
  { assert (0 ≤ magnitude r); [|unfold dval; destruct (Z.testbit r 63); lia]. unfold magnitude. rewrite land_man, exponent_bits. pose proof (Z.mod_pos_bound r (2 ^ 52)).
    pose proof (Z.mod_pos_bound (r / 2 ^ 52) (2 ^ 11)). destruct (Z.eqb_spec (r / 2 ^ 52 mod 2 ^ 11) 0); [lia|]. assert (0 < 2 ^ (r / 2 ^ 52 mod 2 ^ 11 - 1)) by (apply Z.pow_pos_nonneg; lia). nia. }
  rewrite Hm. unfold magnitude. rewrite land_man, exponent_bits. set (e := r / 2 ^ 52 mod 2 ^ 11). set (f := r mod 2 ^ 52). assert (Hf : 0 ≤ f < 2 ^ 52) by (by apply Z.mod_pos_bound).
  assert (He : 0 ≤ e < 2 ^ 11) by (by apply Z.mod_pos_bound). pose proof UNIT_pos as HU. destruct (Z.eqb_spec e 0); [nia|]. intros Hbig. assert (Hj : 0 < e - 1075).
  { destruct (Z.ltb_spec 0 (e - 1075)); [done|]. assert (2 ^ (e - 1) ≤ UNIT) by (apply Z.pow_le_mono_r; lia). assert (0 < 2 ^ (e - 1)) by (apply Z.pow_pos_nonneg; lia). nia. }
  exists (2 ^ 52 + f), (e - 1075). split; [done|]. split; [lia|]. rewrite <- Z.mul_assoc. f_equal. unfold UNIT. rewrite <- Z.pow_add_r by lia. f_equal. lia.
Qed.

(** sqlite3IntFloatCompare compares an integer and a double exactly: the sign of the difference of their values, although a double cannot
    represent most 64-bit integers and its conversion to an integer is undefined for most doubles. *)
Lemma IntFloatCompare_sgn i r : SMALLEST_INT64 ≤ i ≤ LARGEST_INT64 → 0 ≤ r < 2 ^ 64 →
  sqlite3IntFloatCompare i r = Some (if IsNaN r then 1 else Z.sgn (i * UNIT - dval r)).
Proof.
  intros Hi Hr. pose proof UNIT_pos as HU. unfold sqlite3IntFloatCompare, sqlite3IsNaN. destruct (IsNaN r) eqn:EN; [done|].
  assert (Hlt : ∀ x y, IsNaN x = false → IsNaN y = false → double_lt x y = (dval x <? dval y)) by (intros x y Hx Hy; unfold double_lt; by rewrite Hx, Hy).
  rewrite !Hlt by done. assert (dval minus_two_63 = - 2 ^ 63 * UNIT) as -> by (vm_compute; reflexivity). assert (dval two_63 = 2 ^ 63 * UNIT) as -> by (vm_compute; reflexivity).
  unfold SMALLEST_INT64, LARGEST_INT64 in Hi. set (d := dval r) in *.
  destruct (Z.ltb_spec d (- 2 ^ 63 * UNIT)); [f_equal; symmetry; apply Z.sgn_pos; nia|]. destruct (Z.ltb_spec d (2 ^ 63 * UNIT)); cbn [negb]; [|f_equal; symmetry; apply Z.sgn_neg; nia].
  unfold i64_of_double. rewrite EN. fold d. set (y := Z.quot d UNIT). assert (Hy : d = y * UNIT + Z.rem d UNIT) by (unfold y; rewrite Z.mul_comm; apply Z.quot_rem'; lia).
  assert (Hrem : (0 ≤ d → 0 ≤ Z.rem d UNIT < UNIT) ∧ (d ≤ 0 → - UNIT < Z.rem d UNIT ≤ 0)) by (split; intros; [apply Z.rem_bound_pos; lia|pose proof (Z.rem_bound_pos (- d) UNIT ltac:(lia) HU) as Hb; rewrite Z.rem_opp_l in Hb by lia; lia]).
  assert (Hrange : - 2 ^ 63 ≤ y ≤ 2 ^ 63 - 1) by (destruct (Z.le_ge_cases 0 d); nia).
  unfold SMALLEST_INT64, LARGEST_INT64. destruct (Z.leb_spec (- 2 ^ 63) y); [|lia]. destruct (Z.leb_spec y (2 ^ 63 - 1)); [|lia]. cbn [andb mbind option_bind].
  destruct (Z.ltb_spec i y); [f_equal; symmetry; apply Z.sgn_neg; destruct (Z.le_ge_cases 0 d); nia|].
  destruct (Z.ltb_spec y i); [f_equal; symmetry; apply Z.sgn_pos; destruct (Z.le_ge_cases 0 d); nia|]. assert (i = y) as -> by lia.
  assert (Hex : y = 0 ∨ exact (Z.abs y)).
  { destruct (Z.eq_dec y 0) as [|Hy0]; [by left|]. right. split; [lia|]. destruct (Z.ltb_spec (Z.abs y) (2 ^ 53)) as [|Hbig]; [by left|right].
    destruct (large_double r Hr) as (m & j & Hj & Hm & E); [fold d; destruct (Z.le_ge_cases 0 d); nia|]. fold d in E. exists m, j. split; [done|]. split; [done|].
    assert (Hz : Z.rem d UNIT = 0) by (apply Z.rem_divide; [lia|]; exists (Z.sgn d * (m * 2 ^ j)); rewrite <- Z.mul_assoc, <- E; lia). apply (Z.mul_reg_r _ _ UNIT); [lia|]. rewrite <- E, Hy, Hz. rewrite Z.add_0_r, Z.abs_mul. lia. }
  destruct (double_of_i64_exact y Hi Hex) as (Ev & En). rewrite !Hlt by done. rewrite Ev. fold d. destruct (Z.ltb_spec (y * UNIT) d); [f_equal; symmetry; apply Z.sgn_neg; lia|].
  destruct (Z.ltb_spec d (y * UNIT)); cbn [b2z]; f_equal; symmetry; [apply Z.sgn_pos; lia|]. apply Z.sgn_null. lia.
Qed.
