(* ===== verification/RecordFormat.v ===== *)
(** The record format (src/vdbeaux.c, and OP_MakeRecord of src/vdbe.c): serial types, how the virtual machine makes a record of values and how a record is
    taken apart.  Proofs are in RecordFormatProofs.v; the comparison of records is in RecordCompare.v. *)
From S2P Require Import Prelude Varint Double Utf.

(** ** Values *)

Definition MEM_Int : Z := 0x0004.
Definition MEM_Real : Z := 0x0008.
Definition MEM_IntReal : Z := 0x0020.
Definition SQLITE_TOOBIG : Z := 18.

(** [u] has the 64 bits of the union, of which [nZero] is the lower half; [z] is the list of the bytes from the pointer on. *)
Record sqlite3_value := Value { flags : Z; u : Z; n : Z; z : list Z; enc : Z; uTemp : Z }.
Definition u_i (m : sqlite3_value) : Z := i64 (u m).
Definition u_r (m : sqlite3_value) : Z := u m.
Definition u_nZero (m : sqlite3_value) : Z := i32 (u m).
Definition has (m : sqlite3_value) (f : Z) : bool := negb (Z.land (flags m) f =? 0).

Definition with_flags (f : Z) m := Value f (u m) (n m) (z m) (enc m) (uTemp m).
Definition with_u (x : Z) m := Value (flags m) x (n m) (z m) (enc m) (uTemp m).
Definition with_text (k : Z) (s : list Z) m := Value (flags m) (u m) k s (enc m) (uTemp m).
Definition with_uTemp (t : Z) m := Value (flags m) (u m) (n m) (z m) (enc m) t.

Definition sqlite3VdbeMemSetNull (m : sqlite3_value) : sqlite3_value := with_flags MEM_Null m.

(** Takes the outcome of the allocation from the list of those to come. *)
Definition sqlite3VdbeMemExpandBlob (m : sqlite3_value) (a : mem) : option (Z * sqlite3_value * mem) :=
  let nByte := n m + u_nZero m in
  if (nByte <=? 0) && negb (has m MEM_Blob) then Some (SQLITE_OK, m, a)
  else
    let '(ok, a) := sqlite3Malloc a in
    if negb ok then Some (SQLITE_NOMEM, sqlite3VdbeMemSetNull m, a)
    else
      if zlen (z m) <? n m then None
      else
        Some (SQLITE_OK, with_flags (Z.land (flags m) (Z.lnot (Z.lor MEM_Zero MEM_Term)))
                           (with_text (n m + u_nZero m) (take (Z.to_nat (n m)) (z m) ++ replicate (Z.to_nat (u_nZero m)) 0) m), a).

(** ** Serial types *)

Definition sqlite3SmallTypeSizes : list Z := [
  0;  1;  2;  3;  4;  6;  8;  8;  0;  0;
  0;  0;  0;  0;  1;  1;  2;  2;  3;  3;
  4;  4;  5;  5;  6;  6;  7;  7;  8;  8;
  9;  9; 10; 10; 11; 11; 12; 12; 13; 13;
 14; 14; 15; 15; 16; 16; 17; 17; 18; 18;
 19; 19; 20; 20; 21; 21; 22; 22; 23; 23;
 24; 24; 25; 25; 26; 26; 27; 27; 28; 28;
 29; 29; 30; 30; 31; 31; 32; 32; 33; 33;
 34; 34; 35; 35; 36; 36; 37; 37; 38; 38;
 39; 39; 40; 40; 41; 41; 42; 42; 43; 43;
 44; 44; 45; 45; 46; 46; 47; 47; 48; 48;
 49; 49; 50; 50; 51; 51; 52; 52; 53; 53;
 54; 54; 55; 55; 56; 56; 57; 57].

Definition sqlite3VdbeOneByteSerialTypeLen (serial_type : Z) : Z := nth (Z.to_nat serial_type) sqlite3SmallTypeSizes 0.
Definition sqlite3VdbeSerialTypeLen (serial_type : Z) : Z :=
  if 128 <=? serial_type then (serial_type - 12) / 2 else sqlite3VdbeOneByteSerialTypeLen serial_type.

(** ** Making a record *)

Section make.
(** The file format of the database, the limit for the length of a record, and what a new block holds. *)
Context (minWriteFileFormat LIMIT_LENGTH : Z) (junk : Z → Z).

(** The serial type of one value, with the sizes of the header, the data and the zeros behind the data so far; [None] inside when there is no memory. *)
Definition size_field (pRec : sqlite3_value) (nHdr nData nZero : Z) (a : mem) : option (option (sqlite3_value * Z * Z * Z) * mem) :=
  if has pRec MEM_Null then
    Some (Some (with_uTemp (if has pRec MEM_Zero then 10 else 0) pRec, nHdr + 1, nData, nZero), a)
  else if has pRec (Z.lor MEM_Int MEM_IntReal) then
    let i := u_i pRec in
    let uu := if i <? 0 then Z.lnot i else i in
    let nHdr := nHdr + 1 in
    Some (Some
      (if uu <=? 127 then
         if (Z.land i 1 =? i) && (4 <=? minWriteFileFormat) then (with_uTemp (8 + uu) pRec, nHdr, nData, nZero)
         else (with_uTemp 1 pRec, nHdr, nData + 1, nZero)
       else if uu <=? 32767 then (with_uTemp 2 pRec, nHdr, nData + 2, nZero)
       else if uu <=? 8388607 then (with_uTemp 3 pRec, nHdr, nData + 3, nZero)
       else if uu <=? 2147483647 then (with_uTemp 4 pRec, nHdr, nData + 4, nZero)
       else if uu <=? 140737488355327 then (with_uTemp 5 pRec, nHdr, nData + 6, nZero)
       else if has pRec MEM_IntReal then
         (with_uTemp 7 (with_flags (Z.lor (Z.land (flags pRec) (Z.lnot MEM_IntReal)) MEM_Real) (with_u (double_of_i64 i) pRec)), nHdr, nData + 8, nZero)
       else (with_uTemp 6 pRec, nHdr, nData + 8, nZero)), a)
  else if has pRec MEM_Real then Some (Some (with_uTemp 7 pRec, nHdr + 1, nData + 8, nZero), a)
  else
    let len := n pRec in
    let serial_type := u32 (len * 2 + 12 + b2z (has pRec MEM_Str)) in
    '(r, serial_type, a) ← (
      if has pRec MEM_Zero then
        let serial_type := u32 (serial_type + u_nZero pRec * 2) in
        if negb (nData =? 0) then
          '(rc, pRec', a) ← sqlite3VdbeMemExpandBlob pRec a;
          Some (if rc =? SQLITE_OK then Some (pRec', len + u_nZero pRec, nZero) else None, serial_type, a)
        else Some (Some (pRec, len, nZero + u_nZero pRec), serial_type, a)
      else Some (Some (pRec, len, nZero), serial_type, a));
    match r with
    | Some (pRec, len, nZero) => Some (Some (with_uTemp serial_type pRec, nHdr + sqlite3VarintLen serial_type, nData + len, nZero), a)
    | None => Some (None, a)
    end.

(** From the last value to the first; [todo] is the list of those to come in this order, [done] has the others. *)
Fixpoint size_loop (todo done : list sqlite3_value) (nHdr nData nZero : Z) (a : mem) : option (option (list sqlite3_value * Z * Z * Z) * mem) :=
  match todo with
  | [] => Some (Some (done, nHdr, nData, nZero), a)
  | pRec :: todo =>
      '(r, a) ← size_field pRec nHdr nData nZero a;
      match r with
      | Some (pRec, nHdr, nData, nZero) => size_loop todo (pRec :: done) nHdr nData nZero a
      | None => Some (None, a)
      end
  end.

(** The size of the header with its own length in front. *)
Definition header_size (nHdr : Z) : Z :=
  if nHdr <=? 126 then nHdr + 1
  else
    let nVarint := sqlite3VarintLen nHdr in
    let nHdr := nHdr + nVarint in
    if nVarint <? sqlite3VarintLen nHdr then nHdr + 1 else nHdr.

(** The bytes of [s] are stored at [off] of a block. *)
Definition store (b : list Z) (off : Z) (s : list Z) : option (list Z) :=
  if (0 <=? off) && (off + zlen s <=? zlen b) then Some (take (Z.to_nat off) b ++ s ++ drop (Z.to_nat (off + zlen s)) b) else None.

(** The [k] low bytes of [v], the highest first, in front of [acc]: the last one is stored first. *)
Fixpoint be_bytes (k : nat) (v : Z) (acc : list Z) : list Z :=
  match k with O => acc | S k => be_bytes k (Z.shiftr v 8) (u8 (Z.land v 0xff) :: acc) end.

(** [memcpy] of the [n] bytes of a value. *)
Definition value_bytes (m : sqlite3_value) : option (list Z) := if n m <=? zlen (z m) then Some (take (Z.to_nat (n m)) (z m)) else None.

Definition write_field (pRec : sqlite3_value) (zHdr zPayload : Z) (b : list Z) : option (Z * Z * list Z) :=
  let serial_type := uTemp pRec in
  if serial_type <=? 7 then
    b ← store b zHdr [u8 serial_type];
    if serial_type =? 0 then Some (zHdr + 1, zPayload, b)
    else
      let v := if serial_type =? 7 then u_r pRec else u64 (u_i pRec) in
      let len := sqlite3VdbeOneByteSerialTypeLen serial_type in
      b ← store b zPayload (be_bytes (Z.to_nat len) v []);
      Some (zHdr + 1, zPayload + len, b)
  else
    '(zHdr, b, copy) ← (
      if serial_type <? 0x80 then b ← store b zHdr [u8 serial_type]; Some (zHdr + 1, b, (14 <=? serial_type) && (0 <? n pRec))
      else b ← store b zHdr (sqlite3PutVarint serial_type); Some (zHdr + zlen (sqlite3PutVarint serial_type), b, negb (n pRec =? 0)));
    if copy : bool then s ← value_bytes pRec; b ← store b zPayload s; Some (zHdr, zPayload + n pRec, b)
    else Some (zHdr, zPayload, b).

Fixpoint write_loop (l : list sqlite3_value) (zHdr zPayload : Z) (b : list Z) : option (Z * Z * list Z) :=
  match l with
  | [] => Some (zHdr, zPayload, b)
  | pRec :: l => '(zHdr, zPayload, b) ← write_field pRec zHdr zPayload b; write_loop l zHdr zPayload b
  end.

(** OP_MakeRecord on the registers [pData], behind the affinities; [own] is the block that the output register has already.  The result code (of the opcode or
    of the place that it goes to) and the output register. *)
Definition OP_MakeRecord (pData : list sqlite3_value) (own : list Z) (a : mem) : option (Z * option sqlite3_value * mem) :=
  '(r, a) ← size_loop (reverse pData) [] 0 0 0 a;
  match r with
  | None => Some (SQLITE_NOMEM, None, a)
  | Some (pData, nHdr, nData, nZero) =>
      let nHdr := header_size nHdr in
      let nByte := nHdr + nData in
      if negb (nByte + nZero <=? zlen own) && (LIMIT_LENGTH <? nByte + nZero) then Some (SQLITE_TOOBIG, None, a)
      else
        let '(ok, a) := if nByte <=? zlen own then (true, a) else sqlite3Malloc a in
        if negb ok then Some (SQLITE_NOMEM, None, a)
        else
          let b := if nByte <=? zlen own then own else map junk (seqZ 0 nByte) in
          let hdr := if nHdr <? 0x80 then [u8 nHdr] else sqlite3PutVarint nHdr in
          b ← store b 0 hdr;
          '(_, _, b) ← write_loop pData (zlen hdr) nHdr b;
          Some (SQLITE_OK, Some (Value (if nZero =? 0 then MEM_Blob else Z.lor MEM_Blob MEM_Zero) (u32 nZero) nByte b 0 0), a)
  end.
End make.

(** ** Taking a record apart *)

Definition ONE_BYTE_INT (x : list Z) : option Z := x0 ← x.[0]; Some (i8 x0).
Definition TWO_BYTE_INT (x : list Z) : option Z := x0 ← x.[0]; x1 ← x.[1]; Some (Z.lor (256 * i8 x0) x1).
Definition THREE_BYTE_INT (x : list Z) : option Z := x0 ← x.[0]; x1 ← x.[1]; x2 ← x.[2]; Some (Z.lor (Z.lor (65536 * i8 x0) (Z.shiftl x1 8)) x2).
Definition FOUR_BYTE_UINT (x : list Z) : option Z :=
  x0 ← x.[0]; x1 ← x.[1]; x2 ← x.[2]; x3 ← x.[3]; Some (Z.lor (Z.lor (Z.lor (u32 (Z.shiftl x0 24)) (Z.shiftl x1 16)) (Z.shiftl x2 8)) x3).
Definition FOUR_BYTE_INT (x : list Z) : option Z :=
  x0 ← x.[0]; x1 ← x.[1]; x2 ← x.[2]; x3 ← x.[3]; Some (Z.lor (Z.lor (Z.lor (16777216 * i8 x0) (Z.shiftl x1 16)) (Z.shiftl x2 8)) x3).

(** The pointer [k] bytes behind [p]. *)
Definition ptr (p : list Z) (k : Z) : list Z := drop (Z.to_nat k) p.

Definition serialGet (buf : list Z) (serial_type : Z) (pMem : sqlite3_value) : option sqlite3_value :=
  x ← FOUR_BYTE_UINT buf; y ← FOUR_BYTE_UINT (ptr buf 4);
  let x := u64 (u64 (Z.shiftl x 32) + y) in
  if serial_type =? 6 then Some (with_flags MEM_Int (with_u x pMem))
  else Some (with_flags (if IsNaN x then MEM_Null else MEM_Real) (with_u x pMem)).

Definition serialGet7 (buf : list Z) (pMem : sqlite3_value) : option (Z * sqlite3_value) :=
  x ← FOUR_BYTE_UINT buf; y ← FOUR_BYTE_UINT (ptr buf 4);
  let x := u64 (u64 (Z.shiftl x 32) + y) in
  if IsNaN x then Some (1, with_flags MEM_Null (with_u x pMem)) else Some (0, with_flags MEM_Real (with_u x pMem)).

Definition sqlite3VdbeSerialGet (buf : list Z) (serial_type : Z) (pMem : sqlite3_value) : option sqlite3_value :=
  let int (r : option Z) : option sqlite3_value := i ← r; Some (with_flags MEM_Int (with_u (u64 i) pMem)) in
  if serial_type =? 10 then Some (with_flags (Z.lor MEM_Null MEM_Zero) (with_u (Z.lor (Z.land (u pMem) (Z.lnot (Z.ones 32))) 0) (with_text 0 (z pMem) pMem)))
  else if (serial_type =? 11) || (serial_type =? 0) then Some (with_flags MEM_Null pMem)
  else if serial_type =? 1 then int (ONE_BYTE_INT buf)
  else if serial_type =? 2 then int (TWO_BYTE_INT buf)
  else if serial_type =? 3 then int (THREE_BYTE_INT buf)
  else if serial_type =? 4 then int (FOUR_BYTE_INT buf)
  else if serial_type =? 5 then int (x ← FOUR_BYTE_UINT (ptr buf 2); y ← TWO_BYTE_INT buf; Some (x + 2 ^ 32 * y))
  else if (serial_type =? 6) || (serial_type =? 7) then serialGet buf serial_type pMem
  else if (serial_type =? 8) || (serial_type =? 9) then int (Some (serial_type - 8))
  else Some (with_flags (if Z.odd serial_type then Z.lor MEM_Str MEM_Ephem else Z.lor MEM_Blob MEM_Ephem) (with_text ((serial_type - 12) / 2) buf pMem)).

(** The macro [getVarint32], and [getVarint32NR] without the length. *)
Definition getVarint32 (A : list Z) : option (Z * Z) := a0 ← A.[0]; if a0 <? 0x80 then Some (a0, 1) else sqlite3GetVarint32 A.

(** The loop of [sqlite3VdbeRecordUnpack] with [k] values left in the array: those it gets, and the offset of the data behind them. *)
Fixpoint unpack_loop (k : nat) (aKey : list Z) (nKey szHdr text_enc : Z) (idx d : Z) : option (list sqlite3_value * Z) :=
  match k with
  | O => Some ([], d)
  | S k =>
      if (idx <? szHdr) && (d <=? nKey) then
        '(serial_type, m) ← getVarint32 (ptr aKey idx);
        let idx := u32 (idx + m) in
        v ← sqlite3VdbeSerialGet (ptr aKey d) serial_type (Value 0 0 0 [] text_enc 0);
        let d := u32 (d + sqlite3VdbeSerialTypeLen serial_type) in
        '(l, d) ← unpack_loop k aKey nKey szHdr text_enc idx d;
        Some (v :: l, d)
      else Some ([], d)
  end.

(** [k] is the size of the array [aMem], which is one more than the number of key fields and so never 0; the result has the values that are set, [nField] of them. *)
Definition sqlite3VdbeRecordUnpack (nKey : Z) (aKey : list Z) (text_enc : Z) (k : nat) : option (list sqlite3_value) :=
  '(szHdr, idx) ← getVarint32 aKey;
  '(l, d) ← unpack_loop k aKey nKey szHdr text_enc idx szHdr;
  Some (match last l with
        | Some v => if nKey <? d then take (length l - 1) l ++ [sqlite3VdbeMemSetNull v] else l
        | None => l
        end).

Definition null_ex := Value MEM_Null 0 0 [] 1 0.
Definition int_ex i := Value MEM_Int (u64 i) 0 [] 1 0.
Definition text_ex l := Value (Z.lor MEM_Str MEM_Term) 0 (zlen l) l 1 0.
Example record_ex :
  let l := [null_ex; int_ex (-2); int_ex 1; text_ex [97; 98]; Value MEM_IntReal (2 ^ 50) 0 [] 1 0] in
  (match OP_MakeRecord 4 1000 (λ _, 7) l [] {| oom := []; live := 0 |} with
   | Some (rc, Some r, _) => (rc, z r, match sqlite3VdbeRecordUnpack (n r) (z r) 1 6 with Some l => map (λ v, (flags v, u v, take (Z.to_nat (n v)) (z v))) l | None => [] end)
   | _ => (1, [], [])
   end) = (0, [6; 0; 1; 9; 17; 7; 254; 97; 98; 67; 16; 0; 0; 0; 0; 0; 0],
           [(MEM_Null, 0, []); (MEM_Int, 2 ^ 64 - 2, []); (MEM_Int, 1, []); (Z.lor MEM_Str MEM_Ephem, 0, [97; 98]); (MEM_Real, 0x4310000000000000, [])]).
Proof. vm_compute. reflexivity. Qed.
