(* ===== verification/RecordFormatProofs.v ===== *)
(** Proofs about records (RecordFormat.v): OP_MakeRecord writes the documented format, and what it wrote is taken apart into the same values. *)
From S2P Require Import Prelude Varint Double Utf RecordFormat.

(** ** Integers as bytes *)

Lemma i8_byte b : 0 ≤ b < 256 → i8 b = if b <? 128 then b else b - 256.
Proof. intros Hb. unfold i8, sgn. destruct (Z.ltb_spec b 128); zdm. Qed.

Lemma lor_sum k h lo : 0 ≤ k → 0 ≤ lo < 2 ^ k → Z.lor (h * 2 ^ k) lo = h * 2 ^ k + lo.
Proof. intros Hk Hlo. rewrite Z.lor_comm, lor_add by done. lia. Qed.

Lemma two_int a b l : 0 ≤ a < 256 → 0 ≤ b < 256 → TWO_BYTE_INT (a :: b :: l) = Some (i8 a * 2 ^ 8 + b).
Proof. intros Ha Hb. unfold TWO_BYTE_INT. red_rd. replace (256 * i8 a) with (i8 a * 2 ^ 8) by lia. by rewrite lor_sum by lia. Qed.

Lemma three_int a b c l : 0 ≤ a < 256 → 0 ≤ b < 256 → 0 ≤ c < 256 → THREE_BYTE_INT (a :: b :: c :: l) = Some (i8 a * 2 ^ 16 + b * 2 ^ 8 + c).
Proof.
  intros Ha Hb Hc. unfold THREE_BYTE_INT. red_rd. rewrite Z.shiftl_mul_pow2 by done. replace (65536 * i8 a) with (i8 a * 2 ^ 16) by lia. rewrite lor_sum by lia.
  replace (i8 a * 2 ^ 16 + b * 2 ^ 8) with ((i8 a * 2 ^ 8 + b) * 2 ^ 8) by ring. rewrite lor_sum by lia. f_equal.
Qed.

Lemma four_sum h b c d : 0 ≤ b < 256 → 0 ≤ c < 256 → 0 ≤ d < 256 →
  Z.lor (Z.lor (Z.lor (h * 2 ^ 24) (Z.shiftl b 16)) (Z.shiftl c 8)) d = h * 2 ^ 24 + b * 2 ^ 16 + c * 2 ^ 8 + d.
Proof.
  intros Hb Hc Hd. rewrite !Z.shiftl_mul_pow2 by done. rewrite lor_sum by lia. replace (h * 2 ^ 24 + b * 2 ^ 16) with ((h * 2 ^ 8 + b) * 2 ^ 16) by ring. rewrite lor_sum by lia.
  replace ((h * 2 ^ 8 + b) * 2 ^ 16 + c * 2 ^ 8) with (((h * 2 ^ 8 + b) * 2 ^ 8 + c) * 2 ^ 8) by ring. rewrite lor_sum by lia. ring.
Qed.

Lemma four_uint a b c d l : 0 ≤ a < 256 → 0 ≤ b < 256 → 0 ≤ c < 256 → 0 ≤ d < 256 → FOUR_BYTE_UINT (a :: b :: c :: d :: l) = Some (a * 2 ^ 24 + b * 2 ^ 16 + c * 2 ^ 8 + d).
Proof. intros Ha Hb Hc Hd. unfold FOUR_BYTE_UINT. red_rd. rewrite (Z.shiftl_mul_pow2 a) by done. rewrite u32_id by lia. by rewrite four_sum by done. Qed.

Lemma four_int a b c d l : 0 ≤ a < 256 → 0 ≤ b < 256 → 0 ≤ c < 256 → 0 ≤ d < 256 → FOUR_BYTE_INT (a :: b :: c :: d :: l) = Some (i8 a * 2 ^ 24 + b * 2 ^ 16 + c * 2 ^ 8 + d).
Proof. intros Ha Hb Hc Hd. unfold FOUR_BYTE_INT. red_rd. replace (16777216 * i8 a) with (i8 a * 2 ^ 24) by lia. by rewrite four_sum by done. Qed.

Lemma low_byte v : u8 (Z.land v 0xff) = v mod 256.
Proof. change 0xff with (Z.ones 8). rewrite Z.land_ones by done. apply u8_id. by apply Z.mod_pos_bound. Qed.
Lemma next_byte v : Z.shiftr v 8 = v / 256.
Proof. by rewrite Z.shiftr_div_pow2. Qed.

Lemma be_bytes_app k v acc : be_bytes k v acc = be_bytes k v [] ++ acc.
Proof. revert v acc. induction k as [|k IH]; intros v acc; cbn; [done|]. rewrite IH, (IH _ [_]), <- app_assoc. done. Qed.
Lemma be_bytes_length k v : length (be_bytes k v []) = k.
Proof. revert v. induction k as [|k IH]; intros v; cbn; [done|]. rewrite be_bytes_app, length_app, IH. cbn. lia. Qed.
Lemma be_bytes_bytes k v : bytes (be_bytes k v []).
Proof. revert v. induction k as [|k IH]; intros v; cbn; [by apply Forall_nil|]. rewrite be_bytes_app. apply bytes_app. split; [done|]. apply bytes_cons. split; [apply u8_range|by apply Forall_nil]. Qed.

(** The bytes of a word, and the quotients that they are the remainders of. *)
Ltac word_step :=
  match goal with
  | |- context [?x mod 256] =>
      is_var x;
      let q := fresh "q" in let m := fresh "b" in let E := fresh "E" in let R := fresh "R" in
      pose proof (Z.div_mod x 256 ltac:(lia)) as E; pose proof (Z.mod_pos_bound x 256 ltac:(lia)) as R;
      set (m := x mod 256) in *; set (q := x / 256) in *; clearbody m q
  end.
Ltac word := cbn [be_bytes]; rewrite ?low_byte, ?next_byte; repeat word_step.

Lemma i64_u64 i : SMALLEST_INT64 ≤ i ≤ LARGEST_INT64 → i64 (u64 i) = i.
Proof. unfold SMALLEST_INT64, LARGEST_INT64, i64, u64, sgn. intros. zdm. Qed.

Lemma u64_split i : SMALLEST_INT64 ≤ i ≤ LARGEST_INT64 → u64 i = if i <? 0 then i + 2 ^ 64 else i.
Proof. unfold SMALLEST_INT64, LARGEST_INT64, u64. intros. destruct (Z.ltb_spec i 0); zdm. Qed.

Lemma u64_word i : SMALLEST_INT64 ≤ i ≤ LARGEST_INT64 → ∃ v, u64 i = v ∧ 0 ≤ v < 2 ^ 64 ∧ (0 ≤ i ∧ v = i ∨ i < 0 ∧ v = i + 2 ^ 64).
Proof. intros Hi. exists (u64 i). split; [done|]. split; [apply u64_range|]. rewrite u64_split by done. destruct (Z.ltb_spec i 0); [right|left]; lia. Qed.

Ltac word_int i :=
  intros; destruct (u64_word i) as (v & -> & ? & ?); [unfold SMALLEST_INT64, LARGEST_INT64; lia|]; word.

Lemma one_byte i rest : - 2 ^ 7 ≤ i < 2 ^ 7 → ONE_BYTE_INT (be_bytes 1 (u64 i) [] ++ rest) = Some i.
Proof. word_int i. unfold ONE_BYTE_INT. cbn [app]. red_rd. rewrite ?i8_byte by lia. f_equal. case_cmp; lia. Qed.
Lemma two_bytes i rest : - 2 ^ 15 ≤ i < 2 ^ 15 → TWO_BYTE_INT (be_bytes 2 (u64 i) [] ++ rest) = Some i.
Proof. word_int i. cbn [app]. rewrite two_int, i8_byte by lia. f_equal. case_cmp; lia. Qed.
Lemma three_bytes i rest : - 2 ^ 23 ≤ i < 2 ^ 23 → THREE_BYTE_INT (be_bytes 3 (u64 i) [] ++ rest) = Some i.
Proof. word_int i. cbn [app]. rewrite three_int, i8_byte by lia. f_equal. case_cmp; lia. Qed.
Lemma four_bytes i rest : - 2 ^ 31 ≤ i < 2 ^ 31 → FOUR_BYTE_INT (be_bytes 4 (u64 i) [] ++ rest) = Some i.
Proof. word_int i. cbn [app]. rewrite four_int, i8_byte by lia. f_equal. case_cmp; lia. Qed.
Lemma four_bytes_uint i rest : - 2 ^ 31 ≤ i < 2 ^ 31 → (y ← FOUR_BYTE_UINT (be_bytes 4 (u64 i) [] ++ rest); Some (i32 y)) = Some i.
Proof.
  word_int i. cbn [app]. rewrite four_uint by lia. cbn [mbind option_bind]. f_equal. unfold i32, sgn. zdm.
Qed.
Lemma six_bytes i rest : - 2 ^ 47 ≤ i < 2 ^ 47 →
  (x ← FOUR_BYTE_UINT (ptr (be_bytes 6 (u64 i) [] ++ rest) 2); y ← TWO_BYTE_INT (be_bytes 6 (u64 i) [] ++ rest); Some (x + 2 ^ 32 * y)) = Some i.
Proof.
  word_int i. unfold ptr. change (Z.to_nat 2) with 2%nat. cbn [app drop]. rewrite four_uint, two_int by lia. cbn [mbind option_bind]. rewrite ?i8_byte by lia. f_equal. case_cmp; lia.
Qed.
Lemma eight_bytes v rest : 0 ≤ v < 2 ^ 64 → ∃ x y, FOUR_BYTE_UINT (be_bytes 8 v [] ++ rest) = Some x ∧ FOUR_BYTE_UINT (ptr (be_bytes 8 v [] ++ rest) 4) = Some y ∧
  0 ≤ x < 2 ^ 32 ∧ 0 ≤ y < 2 ^ 32 ∧ x * 2 ^ 32 + y = v.
Proof.
  intros Hv. word. unfold ptr. change (Z.to_nat 4) with 4%nat. cbn [app drop]. rewrite !four_uint by lia. do 2 eexists. split; [done|]. split; [done|]. lia.
Qed.

(** ** What a record stands for *)

Inductive val := VNull | VInt (i : Z) | VReal (r : Z) | VText (s : list Z) | VBlob (s : list Z).

Definition wf_val (v : val) : Prop :=
  match v with
  | VNull => True
  | VInt i => SMALLEST_INT64 ≤ i ≤ LARGEST_INT64
  | VReal r => 0 ≤ r < 2 ^ 64 ∧ IsNaN r = false
  | VText s | VBlob s => bytes s ∧ zlen s ≤ 10 ^ 9
  end.

(** The value of a register; the first representation in this order counts. *)
Definition text_of (m : sqlite3_value) : list Z := take (Z.to_nat (n m)) (z m).
Definition value_of (m : sqlite3_value) : val :=
  if has m MEM_Null then VNull
  else if has m MEM_Int || has m MEM_IntReal then VInt (u_i m)
  else if has m MEM_Real then VReal (u m)
  else if has m MEM_Str then VText (text_of m)
  else VBlob (text_of m ++ (if has m MEM_Zero then replicate (Z.to_nat (u_nZero m)) 0 else [])).

(** The documented types and contents, the integers in as few bytes as they fit in. *)
Definition int_size (i : Z) : Z :=
  if (- 2 ^ 7 <=? i) && (i <? 2 ^ 7) then 1 else if (- 2 ^ 15 <=? i) && (i <? 2 ^ 15) then 2 else if (- 2 ^ 23 <=? i) && (i <? 2 ^ 23) then 3
  else if (- 2 ^ 31 <=? i) && (i <? 2 ^ 31) then 4 else if (- 2 ^ 47 <=? i) && (i <? 2 ^ 47) then 6 else 8.

Section format.
Context (fmt : Z).

Definition stype (v : val) : Z :=
  match v with
  | VNull => 0
  | VInt i => if (4 <=? fmt) && ((i =? 0) || (i =? 1)) then 8 + i else if int_size i <=? 4 then int_size i else if int_size i =? 6 then 5 else 6
  | VReal _ => 7
  | VText s => 13 + 2 * zlen s
  | VBlob s => 12 + 2 * zlen s
  end.

Definition body (v : val) : list Z :=
  match v with
  | VNull => []
  | VInt i => if (4 <=? fmt) && ((i =? 0) || (i =? 1)) then [] else be_bytes (Z.to_nat (int_size i)) (u64 i) []
  | VReal r => be_bytes 8 r []
  | VText s | VBlob s => s
  end.

Definition types (l : list val) : list Z := concat (map (λ v, sqlite3PutVarint (stype v)) l).
Definition bodies (l : list val) : list Z := concat (map body l).

(** The size of the header counts its own bytes. *)
Definition header (l : list val) : list Z := sqlite3PutVarint (header_size (zlen (types l))).
Definition record (l : list val) : list Z := header l ++ types l ++ bodies l.

(** *** Serial types *)

Lemma int_size_cases i : SMALLEST_INT64 ≤ i ≤ LARGEST_INT64 →
  ∃ k, int_size i = k ∧ (k = 1 ∨ k = 2 ∨ k = 3 ∨ k = 4 ∨ k = 6 ∨ k = 8) ∧ - 2 ^ (8 * k - 1) ≤ i < 2 ^ (8 * k - 1).
Proof.
  unfold SMALLEST_INT64, LARGEST_INT64, int_size. intros Hi. eexists. split; [done|].
  repeat match goal with |- context [(?a <=? i) && (i <? ?b)] => destruct (Z.leb_spec a i), (Z.ltb_spec i b); cbn [andb] end;
    (split; [lia|]); cbn [Z.mul Z.sub Z.opp Z.add Pos.mul]; try lia.
Qed.

Lemma typelen_large t : 12 ≤ t → sqlite3VdbeSerialTypeLen t = (t - 12) / 2.
Proof.
  intros Ht. unfold sqlite3VdbeSerialTypeLen. destruct (Z.leb_spec 128 t); [done|].
  assert (Hall : forallb (λ t, sqlite3VdbeOneByteSerialTypeLen t =? (t - 12) / 2) (seqZ 12 116) = true) by (vm_compute; reflexivity).
  rewrite forallb_forall in Hall. apply Z.eqb_eq. apply (Hall t). apply list_elem_of_In. apply elem_of_seqZ. lia.
Qed.

Lemma stype_range v : wf_val v → 0 ≤ stype v < 2 ^ 32.
Proof.
  destruct v as [|i|r|s|s]; cbn [wf_val stype]; intros Hv; try lia. destruct (int_size_cases i Hv) as (k & -> & Hk & _). destruct ((4 <=? fmt) && _) eqn:E.
  - apply andb_true_iff in E as (_ & E). apply orb_true_iff in E as [->%Z.eqb_eq| ->%Z.eqb_eq]; lia.
  - repeat case_cmp; lia.
Qed.

Lemma content_length v : wf_val v → sqlite3VdbeSerialTypeLen (stype v) = zlen (body v).
Proof.
  destruct v as [|i|r|s|s]; cbn [wf_val stype body]; intros Hv; try done.
  - destruct ((4 <=? fmt) && _) eqn:E.
    + apply andb_true_iff in E as (_ & E). apply orb_true_iff in E as [->%Z.eqb_eq| ->%Z.eqb_eq]; done.
    + destruct (int_size_cases i Hv) as (k & -> & Hk & _). rewrite be_bytes_length. destruct Hk as [->|[->|[->|[->|[->| ->]]]]]; done.
  - rewrite typelen_large by lia. zdm.
  - rewrite typelen_large by lia. zdm.
Qed.

Lemma body_bytes v : wf_val v → bytes (body v).
Proof. destruct v as [|i|r|s|s]; cbn [wf_val body]; intros Hv; try apply Hv; [by apply Forall_nil| |apply be_bytes_bytes]. destruct (_ && _); [by apply Forall_nil|apply be_bytes_bytes]. Qed.

Lemma stype_null v : wf_val v → stype v = 0 ↔ v = VNull.
Proof.
  destruct v as [|i|r|s|s]; cbn [wf_val stype]; intros Hv; (split; [|try done]); try done; try lia. destruct (int_size_cases i Hv) as (k & -> & Hk & _).
  destruct ((4 <=? fmt) && _) eqn:E; [apply andb_true_iff in E as (_ & E); apply orb_true_iff in E as [->%Z.eqb_eq| ->%Z.eqb_eq]; lia|]. repeat case_cmp; lia.
Qed.

(** *** Reading a value *)

Lemma getVarint32_PutVarint t rest : 0 ≤ t < 2 ^ 32 → bytes rest → getVarint32 (sqlite3PutVarint t ++ rest) = Some (t, zlen (sqlite3PutVarint t)).
Proof.
  intros Ht Hr. assert (Hlong : 128 ≤ t → ∃ b l, sqlite3PutVarint t = b :: l ∧ 128 ≤ b ∧ bytes (b :: l)).
  { intros Hbig. destruct (PutVarint_shape t) as (cs & b & E & Hcs & Hlen & Hb & Hlast & Hval); [lia|]. rewrite E.
    destruct cs as [|c cs]; [exfalso|exists c, (cs ++ [b]); split; [done|]; split; [apply Forall_cons in Hcs as (Hc & _); unfold cont_byte_range in Hc; lia|]].
    - pose proof (PutVarint_length t ltac:(lia)) as HL. pose proof (buf_loop_length_ge 10 1 t). rewrite E in HL. cbn [length app] in HL. lia.
    - apply (bytes_cont (c :: cs) b []); [done|done|by apply Forall_nil]. }
  unfold getVarint32. destruct (Z.ltb_spec t 128) as [Hs|Hl].
  - assert (E : sqlite3PutVarint t = [t]) by (unfold sqlite3PutVarint; destruct (Z.leb_spec t 127); [change 127 with (Z.ones 7); rewrite Z.land_ones by done; f_equal; apply Z.mod_small; lia|lia]).
    rewrite E. cbn [app]. change ((t :: rest).[0]) with (Some t). cbn [mbind option_bind]. destruct (Z.ltb_spec t 128); [done|lia].
  - destruct (Hlong Hl) as (b & l & E & Hb & Hbl). pose proof (GetVarint32_clamps (sqlite3PutVarint t ++ rest)) as HG. rewrite GetVarint_PutVarint in HG by (done || lia). cbn [mbind option_bind] in HG.
    rewrite HG; [|apply bytes_app; split; [rewrite E; exact Hbl|exact Hr]|exists b; rewrite E; split; [reflexivity|exact Hb]]. rewrite E. cbn [app]. change ((b :: l ++ rest).[0]) with (Some b). cbn [mbind option_bind].
    destruct (Z.ltb_spec b 128); [lia|]. f_equal. f_equal. unfold SQLITE_MAX_U32. lia.
Qed.

Lemma has_flags f m x : has (with_flags f m) x = negb (Z.land f x =? 0).
Proof. done. Qed.

Lemma serial_get v rest m : wf_val v → bytes rest →
  ∃ m', sqlite3VdbeSerialGet (body v ++ rest) (stype v) m = Some m' ∧ value_of m' = v ∧ enc m' = enc m.
Proof.
  intros Hv Hr. unfold sqlite3VdbeSerialGet. destruct v as [|i|r|s|s]; cbn [wf_val stype body] in *.
  - eexists. split; [done|]. done.
  - assert (Hint : ∀ i' k, i' = i → value_of (with_flags MEM_Int (with_u (u64 i') k)) = VInt i) by (intros i' k ->; unfold value_of; rewrite !has_flags; cbn; unfold u_i; cbn; by rewrite i64_u64).
    destruct ((4 <=? fmt) && _) eqn:E.
    + apply andb_true_iff in E as (_ & E). apply orb_true_iff in E as [->%Z.eqb_eq| ->%Z.eqb_eq]; cbn [Z.add Z.eqb Pos.eqb orb mbind option_bind Pos.add Pos.succ]; eexists; (split; [done|]); (split; [by apply Hint|done]).
    + destruct (int_size_cases i Hv) as (k & -> & Hk & Hi).
      destruct Hk as [->|[->|[->|[->|[->| ->]]]]]; cbn [Z.leb Z.eqb Z.compare Pos.compare Pos.compare_cont Pos.eqb orb Z.mul Pos.mul Z.sub Z.opp Z.add Z.pos_sub Pos.pred_double Pos.sub] in *.
      * change (Z.to_nat 1) with 1%nat. rewrite one_byte by done. eexists. split; [done|]. split; [by apply Hint|done].
      * change (Z.to_nat 2) with 2%nat. rewrite two_bytes by done. eexists. split; [done|]. split; [by apply Hint|done].
      * change (Z.to_nat 3) with 3%nat. rewrite three_bytes by done. eexists. split; [done|]. split; [by apply Hint|done].
      * change (Z.to_nat 4) with 4%nat. rewrite four_bytes by done. eexists. split; [done|]. split; [by apply Hint|done].
      * change (Z.to_nat 6) with 6%nat. rewrite six_bytes by done. eexists. split; [done|]. split; [by apply Hint|done].
      * change (Z.to_nat 8) with 8%nat. unfold serialGet. destruct (eight_bytes (u64 i) rest (u64_range i)) as (x & y & -> & -> & Hx & Hy & E8). cbn [mbind option_bind].
        rewrite Z.shiftl_mul_pow2 by done. rewrite (u64_id (x * 2 ^ 32)) by lia. rewrite u64_id by (rewrite E8; apply u64_range). rewrite E8. cbn [Z.eqb Pos.eqb]. eexists. split; [done|]. split; [by apply Hint|done].
  - cbn [Z.eqb Pos.eqb orb]. unfold serialGet. destruct Hv as (Hv & Hn). destruct (eight_bytes r rest Hv) as (x & y & -> & -> & Hx & Hy & E8). cbn [mbind option_bind].
    rewrite Z.shiftl_mul_pow2 by done. rewrite (u64_id (x * 2 ^ 32)) by lia. rewrite u64_id by (rewrite E8; lia). rewrite E8, Hn. cbn [Z.eqb Pos.eqb]. eexists. split; [done|]. done.
  - repeat (case_cmp; [lia|]). cbn [orb]. rewrite Z.odd_add_mul_2. change (Z.odd 13) with true. cbv iota. eexists. split; [done|]. split; [|done]. unfold value_of. rewrite !has_flags. cbn. f_equal. unfold text_of. cbn.
    rewrite take_app_length'; [done|]. zdm.
  - repeat (case_cmp; [lia|]). cbn [orb]. rewrite Z.odd_add_mul_2. change (Z.odd 12) with false. cbv iota. eexists. split; [done|]. split; [|done]. unfold value_of. rewrite !has_flags. cbn. f_equal. unfold text_of. cbn.
    rewrite app_nil_r, take_app_length'; [done|]. zdm.
Qed.

(** *** The header *)

Lemma varint_len v : 0 ≤ v < 2 ^ 35 → zlen (sqlite3PutVarint v) = if v <? 2 ^ 7 then 1 else if v <? 2 ^ 14 then 2 else if v <? 2 ^ 21 then 3 else if v <? 2 ^ 28 then 4 else 5.
Proof.
  intros Hv. rewrite PutVarint_length by lia. assert (Hge : ∀ n, (n < 10)%nat → 2 ^ (7 * Z.of_nat n) ≤ v → (n < length (buf_loop 10 v))%nat) by (intros; by apply buf_loop_length_ge).
  assert (Hle : ∀ n, (0 < n ≤ 10)%nat → v < 2 ^ (7 * Z.of_nat n) → (length (buf_loop 10 v) ≤ n)%nat) by (intros; apply buf_loop_length; lia).
  pose proof (buf_loop_nonempty 10 v ltac:(lia)) as (b & l & E & _). assert (0 < length (buf_loop 10 v))%nat by (rewrite E; cbn; lia).
  repeat case_cmp; [specialize (Hle 1%nat)|specialize (Hle 2%nat); specialize (Hge 1%nat)|specialize (Hle 3%nat); specialize (Hge 2%nat)|specialize (Hle 4%nat); specialize (Hge 3%nat)|specialize (Hle 5%nat); specialize (Hge 4%nat)]; lia.
Qed.

Lemma VarintLen_len v : 0 ≤ v < 2 ^ 63 → sqlite3VarintLen v = zlen (sqlite3PutVarint v).
Proof. intros Hv. by apply VarintLen_correct. Qed.

Lemma header_size_len s : 0 ≤ s < 2 ^ 31 → header_size s = s + zlen (sqlite3PutVarint (header_size s)) ∧ 0 < header_size s < 2 ^ 32.
Proof.
  intros Hs. unfold header_size. destruct (Z.leb_spec s 126).
  - rewrite varint_len by lia. destruct (Z.ltb_spec (s + 1) (2 ^ 7)); lia.
  - rewrite (VarintLen_len s) by lia. pose proof (varint_len s ltac:(lia)) as E1. set (k := zlen (sqlite3PutVarint s)) in *.
    assert (Hk : 1 ≤ k ≤ 5) by (rewrite E1; repeat case_cmp; lia). rewrite VarintLen_len by lia. pose proof (varint_len (s + k) ltac:(lia)) as E2. pose proof (varint_len (s + k + 1) ltac:(lia)) as E3.
    destruct (Z.ltb_spec k (zlen (sqlite3PutVarint (s + k)))); (split; [|lia]); revert E1 E2 E3; repeat case_cmp; lia.
Qed.

Lemma ptr_app (p : list Z) k s t : 0 ≤ k → ptr p k = s ++ t → ptr p (k + zlen s) = t.
Proof. intros Hk E. unfold ptr in *. rewrite Z2Nat.inj_add by lia. rewrite <- drop_drop, E, Nat2Z.id, drop_app_length. done. Qed.

Lemma ptr_bytes (p : list Z) k : bytes p → bytes (ptr p k).
Proof. intros Hp. unfold ptr. by apply Forall_drop. Qed.

(** *** Taking records apart *)

Lemma unpack_made k aKey nKey szHdr e : bytes aKey → 0 ≤ nKey < 2 ^ 31 → szHdr < 2 ^ 31 → ∀ l idx d R P, Forall wf_val l → 0 ≤ idx → 0 ≤ d →
  ptr aKey idx = types l ++ R → ptr aKey d = bodies l ++ P → idx + zlen (types l) = szHdr → d + zlen (bodies l) = nKey →
  ∃ ms d', unpack_loop k aKey nKey szHdr e idx d = Some (ms, d') ∧ map value_of ms = take k l ∧ Forall (λ m, enc m = e) ms ∧ d' ≤ nKey.
Proof.
  intros Hb Hn Hsz. induction k as [|k IH]; intros l idx d R P Hwf Hidx Hd Ei Ed Hi Hdn; cbn [unpack_loop].
  - exists [], d. split_and!; try done. lia.
  - destruct l as [|v l].
    + unfold types, bodies in *. cbn in Hi, Hdn. destruct (Z.ltb_spec idx szHdr); [lia|]. cbn [andb]. exists [], d. split_and!; try done. lia.
    + apply Forall_cons in Hwf as (Hv & Hwf). unfold types, bodies in Ei, Ed, Hi, Hdn. cbn [map concat] in Ei, Ed, Hi, Hdn. fold (types l) in Ei, Hi. fold (bodies l) in Ed, Hdn. rewrite <- app_assoc in Ei, Ed.
      rewrite length_app in Hi, Hdn. pose proof (stype_range v Hv) as Ht. pose proof (VarintLen_correct (stype v) ltac:(lia)) as (HL & HL2).
      destruct (Z.ltb_spec idx szHdr); [|lia]. destruct (Z.leb_spec d nKey); [|lia]. cbn [andb]. rewrite Ei. pose proof (ptr_bytes aKey idx Hb) as Hbi. rewrite Ei in Hbi. apply bytes_app in Hbi as (_ & Hbi).
      rewrite getVarint32_PutVarint by done. cbn [mbind option_bind]. pose proof (ptr_bytes aKey d Hb) as Hbd. rewrite Ed in Hbd. apply bytes_app in Hbd as (_ & Hbd).
      rewrite Ed. destruct (serial_get v (bodies l ++ P) (Value 0 0 0 [] e 0) Hv Hbd) as (m' & -> & Hval & Henc). cbn [mbind option_bind]. rewrite content_length by done. rewrite !u32_id by lia.
      destruct (IH l (idx + zlen (sqlite3PutVarint (stype v))) (d + zlen (body v)) R P) as (ms & d' & -> & Hm & He & Hd'); try done; try lia.
      { eapply ptr_app; done. } { eapply ptr_app; done. }
      cbn [mbind option_bind]. exists (m' :: ms), d'. split; [done|]. cbn [map firstn]. rewrite Hval, Hm. split; [done|]. split; [|done]. apply Forall_cons. by split.
Qed.

Lemma types_length l : Forall wf_val l → 0 ≤ zlen (types l) ≤ 5 * zlen l.
Proof.
  induction 1 as [|v l Hv Hwf IH]; [done|]. unfold types in *. cbn [map concat]. rewrite length_app. pose proof (stype_range v Hv) as Ht. pose proof (varint_len (stype v) ltac:(lia)) as E.
  assert (zlen (sqlite3PutVarint (stype v)) ≤ 5) by (rewrite E; repeat case_cmp; lia). cbn [length]. lia.
Qed.

(** The number in front is the size of the header with its own bytes. *)
Lemma header_counts l : Forall wf_val l → zlen l ≤ 2 ^ 16 → header l = sqlite3PutVarint (zlen (header l) + zlen (types l)).
Proof.
  intros Hwf Hlen. pose proof (types_length l Hwf) as Ht. destruct (header_size_len (zlen (types l)) ltac:(lia)) as (Hh & _). unfold header. f_equal. lia.
Qed.

Lemma record_parts l rest : Forall wf_val l → zlen l ≤ 2 ^ 16 → bytes rest → zlen (record l) < 2 ^ 31 →
  bytes (record l ++ rest) ∧ getVarint32 (record l ++ rest) = Some (zlen (header l) + zlen (types l), zlen (header l)) ∧ 1 ≤ zlen (header l) ∧ header_size (zlen (types l)) = zlen (header l) + zlen (types l) ∧
  ptr (record l ++ rest) (zlen (header l)) = types l ++ bodies l ++ rest ∧ ptr (record l ++ rest) (zlen (header l) + zlen (types l)) = bodies l ++ rest ∧
  zlen (record l) = zlen (header l) + zlen (types l) + zlen (bodies l).
Proof.
  intros Hwf Hlen Hr Hsize. pose proof (types_length l Hwf) as Ht. destruct (header_size_len (zlen (types l)) ltac:(lia)) as (Hh & Hh2). unfold record in *. set (h := header l) in *. fold h in Hh.
  change (sqlite3PutVarint (header_size (zlen (types l)))) with h in Hh. assert (Hrest : bytes (types l ++ bodies l ++ rest)).
  { rewrite !bytes_app. split; [|split; [|done]].
    - clear -Hwf. induction Hwf as [|v l Hv Hwf IH]; [by apply Forall_nil|]. unfold types. cbn [map concat]. apply bytes_app. split; [|done]. pose proof (stype_range v Hv).
      destruct (PutVarint_shape (stype v)) as (cs & b & -> & Hcs & _ & Hb & _); [lia|]. apply bytes_cont; [done|done|by apply Forall_nil].
    - clear -Hwf. induction Hwf as [|v l Hv Hwf IH]; [by apply Forall_nil|]. unfold bodies. cbn [map concat]. apply bytes_app. split; [by apply body_bytes|done]. }
  assert (Hbh : bytes h). { unfold h, header. destruct (PutVarint_shape (header_size (zlen (types l)))) as (cs & b & -> & Hcs & _ & Hb & _); [lia|]. apply bytes_cont; [done|done|by apply Forall_nil]. }
  rewrite <- !app_assoc. rewrite !length_app. split_and!.
  - apply bytes_app. by split.
  - unfold h, header. rewrite getVarint32_PutVarint by (done || lia). f_equal. f_equal. fold h. change (sqlite3PutVarint (header_size (zlen (types l)))) with h. lia.
  - unfold h, header. pose proof (VarintLen_correct (header_size (zlen (types l))) ltac:(lia)). lia.
  - lia.
  - by apply (ptr_app _ 0 h).
  - apply (ptr_app _ (zlen h) (types l)); [lia|]. by apply (ptr_app _ 0 h).
  - lia.
Qed.

Lemma unpack_record l rest e k : Forall wf_val l → zlen l ≤ 2 ^ 16 → bytes rest → zlen (record l) < 2 ^ 31 →
  ∃ ms, sqlite3VdbeRecordUnpack (zlen (record l)) (record l ++ rest) e k = Some ms ∧ map value_of ms = take k l ∧ Forall (λ m, enc m = e) ms.
Proof.
  intros Hwf Hlen Hr Hsize. destruct (record_parts l rest Hwf Hlen Hr Hsize) as (Hb & Hg & H1 & Hhs & Ht & Hbd & HL). unfold sqlite3VdbeRecordUnpack. rewrite Hg. cbn [mbind option_bind].
  destruct (unpack_made k (record l ++ rest) (zlen (record l)) (zlen (header l) + zlen (types l)) e Hb ltac:(lia) ltac:(lia) l (zlen (header l)) (zlen (header l) + zlen (types l)) (bodies l ++ rest) rest) as (ms & d' & -> & Hm & He & Hd); try done; try lia.
  cbn [mbind option_bind]. exists ms. split; [|done]. destruct (last ms); [|done]. destruct (Z.ltb_spec (zlen (record l)) d'); [lia|done].
Qed.

(** ** Making records *)

Lemma has_lor m a b : has m (Z.lor a b) = has m a || has m b.
Proof.
  unfold has. rewrite Z.land_lor_distr_r. apply eq_iff_eq_true. rewrite orb_true_iff, !negb_true_iff, !Z.eqb_neq. rewrite Z.lor_eq_0_iff. destruct (Z.eq_dec (Z.land (flags m) a) 0); tauto.
Qed.

(** A register that the opcode may be given, and the value that it stores: an integer that is to be read as a real becomes one when it needs eight bytes. *)
Definition valid (m : sqlite3_value) : Prop :=
  0 ≤ u m < 2 ^ 64 ∧
  if has m MEM_Null then has m MEM_Zero = false
  else if has m MEM_Int || has m MEM_IntReal then True
  else if has m MEM_Real then IsNaN (u m) = false
  else
    (has m MEM_Str = false → has m MEM_Blob = true) ∧ 0 ≤ n m ≤ zlen (z m) ∧ bytes (text_of m) ∧
    if has m MEM_Zero then has m MEM_Str = false ∧ 0 ≤ u_nZero m ∧ n m + u_nZero m ≤ 10 ^ 9 else n m ≤ 10 ^ 9.

Definition stored (m : sqlite3_value) : val :=
  match value_of m with
  | VInt i => if has m MEM_IntReal && (int_size i =? 8) then VReal (double_of_i64 i) else VInt i
  | v => v
  end.

Lemma round_bits_range a : 0 < a < 2 ^ 64 → ∃ E F, round_bits a = E * 2 ^ 52 + F ∧ 0 < E < 2 ^ 11 - 1 ∧ 0 ≤ F < 2 ^ 52.
Proof.
  intros Ha. unfold round_bits. set (k := Z.log2 a). destruct (Z.log2_spec a ltac:(lia)) as (H1 & H2). fold k in H1, H2. assert (Hk : 0 ≤ k < 64) by (split; [apply Z.log2_nonneg|apply Z.log2_lt_pow2; lia]).
  rewrite Z.pow_succ_r in H2 by lia. destruct (Z.leb_spec k 52) as [Hle|Hgt].
  - assert (H52 : 2 ^ 52 = 2 ^ k * 2 ^ (52 - k)) by (rewrite <- Z.pow_add_r by lia; f_equal; lia). assert (0 < 2 ^ (52 - k)) by (apply Z.pow_pos_nonneg; lia).
    exists (k + 1023), (a * 2 ^ (52 - k) - 2 ^ 52). split; [done|]. split; [lia|]. nia.
  - set (w := 2 ^ (k - 52)) in *. assert (Hw : 0 < w) by (apply Z.pow_pos_nonneg; lia). assert (Hkw : 2 ^ k = 2 ^ 52 * w) by (unfold w; rewrite <- Z.pow_add_r by lia; f_equal; lia).
    set (q := if (2 ^ (k - 53) <? a mod w) || _ then _ else _). assert (Hq : 2 ^ 52 ≤ q ≤ 2 ^ 53).
    { assert (2 ^ 52 ≤ a / w < 2 ^ 53); [|unfold q; destruct (_ || _); lia]. split; [apply Z.div_le_lower_bound; lia|apply Z.div_lt_upper_bound; lia]. }
    destruct (Z.eq_dec q (2 ^ 53)) as [E|E].
    + exists (k + 1024), 0. split; [rewrite E; lia|]. lia.
    + exists (k + 1023), (q - 2 ^ 52). split; [done|]. lia.
Qed.

Lemma double_of_i64_wf i : SMALLEST_INT64 ≤ i ≤ LARGEST_INT64 → wf_val (VReal (double_of_i64 i)).
Proof.
  unfold SMALLEST_INT64, LARGEST_INT64, double_of_i64. intros Hi. cbn [wf_val]. destruct (Z.eqb_spec i 0) as [->|H0]; [done|]. destruct (Z.ltb_spec i 0).
  - destruct (round_bits_range (- i) ltac:(lia)) as (E & F & -> & HE & HF). destruct (double_bits true E F (2 ^ 63 + (E * 2 ^ 52 + F))) as (_ & ->); [cbn [b2z]; lia|lia|lia|]. split; [lia|]. destruct (Z.eqb_spec E 2047); [lia|done].
  - destruct (round_bits_range i ltac:(lia)) as (E & F & -> & HE & HF). destruct (double_bits false E F (E * 2 ^ 52 + F)) as (_ & ->); [cbn [b2z]; lia|lia|lia|]. split; [lia|]. destruct (Z.eqb_spec E 2047); [lia|done].
Qed.

Lemma i64_range x : SMALLEST_INT64 ≤ i64 x ≤ LARGEST_INT64.
Proof. unfold SMALLEST_INT64, LARGEST_INT64, i64. pose proof (sgn_range 64 x ltac:(lia)). lia. Qed.

Lemma bytes_zeros k : bytes (replicate k 0).
Proof. apply Forall_replicate. lia. Qed.

Lemma text_of_length m : 0 ≤ n m ≤ zlen (z m) → zlen (text_of m) = n m.
Proof. intros Hn. unfold text_of. rewrite length_take. lia. Qed.

Lemma stored_wf m : valid m → wf_val (stored m).
Proof.
  intros (Hu & Hm). unfold stored, value_of. destruct (has m MEM_Null); [done|]. destruct (has m MEM_Int || has m MEM_IntReal).
  { destruct (_ && _); [apply double_of_i64_wf, i64_range|apply i64_range]. }
  destruct (has m MEM_Real); [by split|]. destruct Hm as (_ & Hn & Hb & Hz). pose proof (text_of_length m Hn).
  destruct (has m MEM_Zero); [destruct Hz as (-> & Hz)|]; [|destruct (has m MEM_Str)]; cbn [wf_val].
  - split; [apply bytes_app; split; [done|apply bytes_zeros]|]. rewrite length_app, length_replicate. lia.
  - split; [done|lia].
  - rewrite app_nil_r. split; [done|lia].
Qed.

(** The bytes that a value with its type puts into the record. *)
Definition pay_of (m : sqlite3_value) : option (list Z) :=
  let t := uTemp m in
  if t <=? 7 then
    Some (if t =? 0 then [] else be_bytes (Z.to_nat (sqlite3VdbeOneByteSerialTypeLen t)) (if t =? 7 then u_r m else u64 (u_i m)) [])
  else if (if t <? 128 then (14 <=? t) && (0 <? n m) else negb (n m =? 0)) then value_bytes m
  else Some [].

Definition writes (m : sqlite3_value) (v : val) (pay : list Z) : Prop := uTemp m = stype v ∧ pay_of m = Some pay ∧ (12 ≤ stype v → 0 ≤ n m).

Lemma small_varint t : 0 ≤ t < 128 → sqlite3PutVarint t = [t].
Proof. intros Ht. unfold sqlite3PutVarint. destruct (Z.leb_spec t 127); [|lia]. change 127 with (Z.ones 7). rewrite Z.land_ones by done. f_equal. apply Z.mod_small. lia. Qed.

(** A block in four parts: the header and the data, and of each what is written. *)
Lemma store_app (A x B : list Z) s : length x = length s → store (A ++ x ++ B) (zlen A) s = Some (A ++ s ++ B).
Proof.
  intros Hx. unfold store. rewrite !length_app. destruct (Z.leb_spec 0 (zlen A)); [|lia]. destruct (Z.leb_spec (zlen A + zlen s) (Z.of_nat (length A + (length x + length B)))); [|lia]. cbn [andb].
  rewrite Nat2Z.id, take_app_length. do 2 f_equal. f_equal. rewrite app_assoc, drop_app_length'; [done|]. rewrite length_app. lia.
Qed.

Lemma write_field_made m v pay A x X B y Y : wf_val v → writes m v pay → length x = length (sqlite3PutVarint (stype v)) → length y = length pay →
  write_field m (zlen A) (zlen (A ++ (x ++ X) ++ B)) (A ++ (x ++ X) ++ B ++ y ++ Y) =
    Some (zlen (A ++ sqlite3PutVarint (stype v)), zlen (A ++ (x ++ X) ++ B ++ pay), (A ++ sqlite3PutVarint (stype v)) ++ X ++ (B ++ pay) ++ Y).
Proof.
  intros Hv (Et & Hp & Hn) Hx Hy. unfold write_field, pay_of in *. rewrite Et in *. pose proof (stype_range v Hv) as Ht. set (t := stype v) in *.
  assert (H1 : ∀ w, w = sqlite3PutVarint t → store (A ++ (x ++ X) ++ B ++ y ++ Y) (zlen A) w = Some ((A ++ w ++ X ++ B) ++ y ++ Y)).
  { intros w ->. rewrite <- app_assoc. rewrite (store_app A x _ (sqlite3PutVarint t)) by done. f_equal. by rewrite <- !app_assoc. }
  assert (H2 : store ((A ++ sqlite3PutVarint t ++ X ++ B) ++ y ++ Y) (zlen (A ++ (x ++ X) ++ B)) pay = Some ((A ++ sqlite3PutVarint t) ++ X ++ (B ++ pay) ++ Y)).
  { replace (zlen (A ++ (x ++ X) ++ B)) with (zlen (A ++ sqlite3PutVarint t ++ X ++ B)) by (rewrite !length_app; lia). rewrite store_app by done. f_equal. by rewrite <- !app_assoc. }
  assert (H3 : y = [] → (A ++ sqlite3PutVarint t ++ X ++ B) ++ y ++ Y = (A ++ sqlite3PutVarint t) ++ X ++ (B ++ []) ++ Y) by (intros ->; rewrite app_nil_r; by rewrite <- !app_assoc).
  assert (H4 : zlen A + zlen (sqlite3PutVarint t) = zlen (A ++ sqlite3PutVarint t)) by (rewrite length_app; lia).
  assert (H5 : zlen (A ++ (x ++ X) ++ B) + zlen pay = zlen (A ++ (x ++ X) ++ B ++ pay)) by (rewrite !length_app; lia).
  destruct (Z.leb_spec t 7) as [H7|H7].
  - injection Hp as Hp. rewrite H1 by (rewrite small_varint by lia; by rewrite u8_id by lia). cbn [mbind option_bind]. rewrite (u8_id t) by lia. rewrite small_varint in * by lia. cbn [length] in H4.
    destruct (Z.eqb_spec t 0) as [E0|E0].
    + subst pay. apply nil_length_inv in Hy. rewrite H3 by done. subst y. by rewrite <- H4, app_nil_r.
    + assert (El : sqlite3VdbeOneByteSerialTypeLen t = zlen pay) by (subst pay; rewrite be_bytes_length; unfold sqlite3VdbeOneByteSerialTypeLen; assert (t = 1 ∨ t = 2 ∨ t = 3 ∨ t = 4 ∨ t = 5 ∨ t = 6 ∨ t = 7) as Hc by lia; by destruct Hc as [->|[->|[->|[->|[->|[->| ->]]]]]]).
      rewrite Hp, H2. cbn [mbind option_bind]. rewrite El, H5. by rewrite <- H4.
  - assert (Hcopy : ∀ c : bool, (c = true → 12 ≤ t) → (if c then value_bytes m else Some []) = Some pay →
      (if c then s ← value_bytes m; b ← store ((A ++ sqlite3PutVarint t ++ X ++ B) ++ y ++ Y) (zlen (A ++ (x ++ X) ++ B)) s; Some (zlen A + zlen (sqlite3PutVarint t), zlen (A ++ (x ++ X) ++ B) + n m, b)
       else Some (zlen A + zlen (sqlite3PutVarint t), zlen (A ++ (x ++ X) ++ B), (A ++ sqlite3PutVarint t ++ X ++ B) ++ y ++ Y)) =
      Some (zlen (A ++ sqlite3PutVarint t), zlen (A ++ (x ++ X) ++ B ++ pay), (A ++ sqlite3PutVarint t) ++ X ++ (B ++ pay) ++ Y)).
    { intros [] H12 Hc.
      - rewrite Hc. cbn [mbind option_bind]. rewrite H2. cbn [mbind option_bind]. rewrite <- H5, H4. unfold value_bytes in Hc. destruct (Z.leb_spec (n m) (zlen (z m))) as [Hz|]; [|done]. injection Hc as <-.
        assert (zlen (take (Z.to_nat (n m)) (z m)) = n m) as ->; [|done]. rewrite length_take. specialize (Hn (H12 eq_refl)). lia.
      - injection Hc as <-. apply nil_length_inv in Hy. rewrite H3 by done. subst y. by rewrite H4, app_nil_r. }
    destruct (Z.ltb_spec t 128) as [Hs|Hs].
    + rewrite H1 by (rewrite small_varint by lia; by rewrite u8_id by lia). cbn [mbind option_bind]. rewrite (u8_id t) by lia. specialize (Hcopy ((14 <=? t) && (0 <? n m)) ltac:(intros (?%Z.leb_le & _)%andb_true_iff; lia) Hp). rewrite small_varint in * by lia. cbn [length] in Hcopy. exact Hcopy.
    + rewrite H1 by done. cbn [mbind option_bind]. apply (Hcopy _); [lia|exact Hp].
Qed.

Lemma write_loop_made ms : ∀ vs pays A x B y Y0, Forall wf_val vs → Forall3 writes ms vs pays → length x = length (types vs) → length y = length (concat pays) →
  write_loop ms (zlen A) (zlen (A ++ x ++ B)) (A ++ x ++ B ++ y ++ Y0) =
    Some (zlen (A ++ types vs), zlen (A ++ x ++ B ++ concat pays), A ++ types vs ++ B ++ concat pays ++ Y0).
Proof.
  induction ms as [|m ms IH]; intros vs pays A x B y Y0 Hwf HW Hx Hy; inversion HW; subst; cbn [write_loop].
  - apply nil_length_inv in Hx, Hy. subst. unfold types. cbn. by rewrite !app_nil_r.
  - apply Forall_cons in Hwf as (Hv & Hwf). unfold types in *. cbn [map concat] in *. rewrite length_app in Hx, Hy.
    match goal with H : writes m ?v ?p |- _ => set (v0 := v) in *; set (p0 := p) in *; set (vp := sqlite3PutVarint (stype v0)) in *; rename H into HWm end.
    rewrite <- (take_drop (length vp) x), <- (take_drop (length p0) y). set (x1 := take _ x). set (X := drop _ x). set (y1 := take _ y). set (Y := drop _ y). rewrite <- (app_assoc y1).
    rewrite (write_field_made m v0 p0 A x1 X B y1 (Y ++ Y0)) by (done || (unfold x1, y1; fold vp; rewrite length_take; lia)). cbn [mbind option_bind]. fold vp.
    replace (zlen (A ++ (x1 ++ X) ++ B ++ p0)) with (zlen ((A ++ vp) ++ X ++ B ++ p0)) by (rewrite !length_app; unfold x1; rewrite length_take; lia).
    rewrite (IH _ _ (A ++ vp) X (B ++ p0) Y Y0) by (done || (unfold X, Y; rewrite length_drop; lia)).
    rewrite <- !app_assoc. do 3 f_equal. rewrite !length_app. unfold x1. rewrite length_take. unfold X. rewrite length_drop. lia.
Qed.

(** *** The sizes *)

(** One register is measured: the value it stores, what it writes, and the zeros that are left to the end of the record. *)
Definition measured (m m' : sqlite3_value) (nHdr nData nZero nHdr' nData' nZero' : Z) : Prop :=
  ∃ pay t, writes m' (stored m) pay ∧ body (stored m) = pay ++ replicate t 0 ∧ nHdr' = nHdr + zlen (sqlite3PutVarint (stype (stored m))) ∧
    nData' = nData + zlen pay ∧ nZero' = nZero + Z.of_nat t ∧ (t ≠ 0%nat → nData = 0).

Lemma measured_short m m' nHdr nData nZero len : stored m = stored m → uTemp m' = stype (stored m) → stype (stored m) < 12 → pay_of m' = Some (body (stored m)) → len = zlen (body (stored m)) →
  wf_val (stored m) → measured m m' nHdr nData nZero (nHdr + 1) (nData + len) nZero.
Proof.
  intros _ Et Hs Hp -> Hwf. pose proof (stype_range _ Hwf). exists (body (stored m)), 0%nat. split; [split; [done|]; split; [done|lia]|]. rewrite app_nil_r, small_varint by lia. split_and!; (done || lia).
Qed.

Lemma land_1 i : (Z.land i 1 =? i) = (i =? 0) || (i =? 1).
Proof. change 1 with (Z.ones 1) at 1. rewrite Z.land_ones by done. apply eq_iff_eq_true. rewrite orb_true_iff, !Z.eqb_eq. zdm. Qed.

Lemma size_int i : SMALLEST_INT64 ≤ i ≤ LARGEST_INT64 → let uu := if i <? 0 then Z.lnot i else i in
  int_size i = (if uu <=? 127 then 1 else if uu <=? 32767 then 2 else if uu <=? 8388607 then 3 else if uu <=? 2147483647 then 4 else if uu <=? 140737488355327 then 6 else 8).
Proof.
  intros Hi uu. assert (Hu : (i < 0 ∧ uu = - i - 1) ∨ (0 ≤ i ∧ uu = i)) by (unfold uu, Z.lnot; destruct (Z.ltb_spec i 0); lia). clearbody uu. unfold int_size.
  repeat match goal with |- context [(?a <=? i) && (i <? ?b)] => destruct (Z.leb_spec a i), (Z.ltb_spec i b); cbn [andb]; try lia end; repeat case_cmp; lia.
Qed.

Lemma size_int_field m nHdr nData nZero a : valid m → has m MEM_Null = false → has m MEM_Int || has m MEM_IntReal = true →
  ∃ m' nHdr' nData' nZero', size_field fmt m nHdr nData nZero a = Some (Some (m', nHdr', nData', nZero'), a) ∧ measured m m' nHdr nData nZero nHdr' nData' nZero'.
Proof.
  intros HV Hnull Hint. pose proof (stored_wf m HV) as Hwf. unfold size_field. rewrite Hnull, has_lor, Hint. pose proof (i64_range (u m)) as Hi. change (i64 (u m)) with (u_i m) in Hi. set (i := u_i m) in *.
  pose proof (size_int i Hi) as Hsz. set (uu := if i <? 0 then Z.lnot i else i) in *. cbn zeta in Hsz.
  assert (Hst : stored m = if has m MEM_IntReal && (int_size i =? 8) then VReal (double_of_i64 i) else VInt i) by (unfold stored, value_of; by rewrite Hnull, Hint).
  assert (HU : ∀ t, u_i (with_uTemp t m) = i) by done.
  assert (HS : ∀ k, int_size i = k → k ≠ 8 → stored m = VInt i) by (intros k Ek Hk; rewrite Hst, Ek; destruct (Z.eqb_spec k 8); [done|by rewrite andb_false_r]).
  assert (H01 : (4 <=? fmt) && ((i =? 0) || (i =? 1)) = true → int_size i = 1) by (intros (_ & [->%Z.eqb_eq| ->%Z.eqb_eq]%orb_true_iff)%andb_true_iff; done).
  assert (HD : ∀ k t, int_size i = k → k ≠ 8 → (4 <=? fmt) && ((i =? 0) || (i =? 1)) = false → 0 < t <= 6 → (if k <=? 4 then k else 5) = t → sqlite3VdbeOneByteSerialTypeLen t = k → 0 ≤ k →
    measured m (with_uTemp t m) nHdr nData nZero (nHdr + 1) (nData + k) nZero).
  { intros k t Ek Hk Hc Ht Et Hlen Hk0. pose proof (HS k Ek Hk) as Hv. destruct (int_size_cases i Hi) as (k' & Ek' & Hkk & _). assert (Hty : stype (stored m) = t).
    { rewrite Hv. cbn [stype]. rewrite Hc, Ek. rewrite <- Et. destruct (Z.leb_spec k 4); [done|]. destruct (Z.eqb_spec k 6); [done|lia]. }
    assert (Hb : body (stored m) = be_bytes (Z.to_nat k) (u64 i) []) by (rewrite Hv; cbn [body]; by rewrite Hc, Ek).
    apply measured_short; try done; [lia| |rewrite Hb, be_bytes_length; lia]. unfold pay_of. cbn [uTemp with_uTemp]. destruct (Z.leb_spec t 7); [|lia]. destruct (Z.eqb_spec t 0); [lia|]. destruct (Z.eqb_spec t 7); [lia|]. by rewrite Hlen, Hb, HU. }
  destruct (Z.leb_spec uu 127) as [H127|H127].
  { rewrite land_1. rewrite (andb_comm (_ || _)). destruct ((4 <=? fmt) && ((i =? 0) || (i =? 1))) eqn:Hc.
    - do 4 eexists. split; [done|]. assert (Ei : uu = i ∧ 0 ≤ i ≤ 1) by (apply andb_true_iff in Hc as (_ & [E%Z.eqb_eq|E%Z.eqb_eq]%orb_true_iff); unfold uu; rewrite E; cbn; lia).
      pose proof (HS 1 Hsz ltac:(lia)) as Hv. assert (Hty : stype (stored m) = 8 + i) by (rewrite Hv; cbn [stype]; by rewrite Hc). assert (Hb : body (stored m) = []) by (rewrite Hv; cbn [body]; by rewrite Hc).
      enough (M : measured m (with_uTemp (8 + uu) m) nHdr nData nZero (nHdr + 1) (nData + 0) nZero) by by rewrite Z.add_0_r in M. apply measured_short; try done; [cbn [uTemp with_uTemp]; lia|lia| |by rewrite Hb]. unfold pay_of. cbn [uTemp with_uTemp].
      destruct (Z.leb_spec (8 + uu) 7); [lia|]. destruct (Z.ltb_spec (8 + uu) 128); [|lia]. destruct (Z.leb_spec 14 (8 + uu)); [lia|]. by rewrite Hb.
    - do 4 eexists. split; [done|]. by apply HD. }
  destruct ((4 <=? fmt) && ((i =? 0) || (i =? 1))) eqn:Hc; [exfalso; apply andb_true_iff in Hc as (_ & [E%Z.eqb_eq|E%Z.eqb_eq]%orb_true_iff); unfold uu in H127; rewrite E in H127; cbn in H127; lia|].
  destruct (Z.leb_spec uu 32767); [do 4 eexists; split; [done|]; by apply HD|]. destruct (Z.leb_spec uu 8388607); [do 4 eexists; split; [done|]; by apply HD|].
  destruct (Z.leb_spec uu 2147483647); [do 4 eexists; split; [done|]; by apply HD|]. destruct (Z.leb_spec uu 140737488355327); [do 4 eexists; split; [done|]; by apply HD|].
  rewrite Hsz in Hst. change (8 =? 8) with true in Hst. rewrite andb_true_r in Hst. destruct (has m MEM_IntReal) eqn:HIR.
  - do 4 eexists. split; [done|]. apply measured_short; try done; rewrite Hst; done.
  - do 4 eexists. split; [done|]. assert (Hty : stype (stored m) = 6) by (rewrite Hst; cbn [stype]; by rewrite Hc, Hsz).
    assert (Hb : body (stored m) = be_bytes 8 (u64 i) []) by (rewrite Hst; cbn [body]; by rewrite Hc, Hsz). apply measured_short; try done; [lia| |by rewrite Hb, be_bytes_length]. unfold pay_of. cbn [uTemp with_uTemp]. by rewrite Hb, HU.
Qed.

(** Tests of known flags. *)
Ltac eval_flags :=
  repeat match goal with |- context [Z.land ?a ?b =? 0] => let r := eval vm_compute in (Z.land a b =? 0) in change (Z.land a b =? 0) with r end.

Lemma u_nZero_u32 x : 0 ≤ x < 2 ^ 31 → i32 (u32 x) = x.
Proof. intros Hx. rewrite u32_id by lia. apply i32_id. lia. Qed.

(** A string or a blob. *)
Lemma size_text_field m nHdr nData nZero a : valid m → has m MEM_Null = false → has m MEM_Int || has m MEM_IntReal = false → has m MEM_Real = false → 0 ≤ nData →
  ∃ r a', size_field fmt m nHdr nData nZero a = Some (r, a') ∧ (always_ok a → always_ok a') ∧
    match r with
    | Some (m', nHdr', nData', nZero') => measured m m' nHdr nData nZero nHdr' nData' nZero'
    | None => ¬ always_ok a
    end.
Proof.
  intros HV Hnull Hint Hreal HnD. pose proof (stored_wf m HV) as Hwf. destruct HV as (Hu & Hm). rewrite Hnull, Hint, Hreal in Hm. destruct Hm as (Hsb & Hn & Hb & Hz).
  unfold size_field. rewrite Hnull, has_lor, Hint, Hreal. pose proof (text_of_length m Hn) as HL.
  assert (Hst : stored m = if has m MEM_Str then VText (text_of m) else VBlob (text_of m ++ (if has m MEM_Zero then replicate (Z.to_nat (u_nZero m)) 0 else []))) by (unfold stored, value_of; rewrite Hnull, Hint, Hreal; by destruct (has m MEM_Str)).
  assert (HVB : ∀ k, k = n m → ∀ m', n m' = k → z m' = z m → value_bytes m' = Some (text_of m)) by (intros k -> m' En Ez; unfold value_bytes; rewrite En, Ez; destruct (Z.leb_spec (n m) (zlen (z m))); [done|lia]).
  assert (HP : ∀ m' pay, uTemp m' = stype (stored m) → 12 ≤ uTemp m' → n m' = zlen pay → value_bytes m' = Some pay → (uTemp m' < 14 → pay = []) → pay_of m' = Some pay).
  { intros m' pay Et H12 En Hpay Hno. unfold pay_of. destruct (Z.leb_spec (uTemp m') 7); [lia|].
    assert (Hnil : zlen pay = 0 → pay = []) by (destruct pay; [done|cbn; lia]).
    destruct (Z.ltb_spec (uTemp m') 128); [destruct (Z.leb_spec 14 (uTemp m')), (Z.ltb_spec 0 (n m')); cbn [andb]|destruct (Z.eqb_spec (n m') 0); cbn [negb]]; try done; try (rewrite Hno by lia; done); rewrite Hnil by lia; done. }
  assert (HVL : nHdr + sqlite3VarintLen (stype (stored m)) = nHdr + zlen (sqlite3PutVarint (stype (stored m)))) by (pose proof (stype_range _ Hwf); rewrite VarintLen_len by lia; done).
  destruct (has m MEM_Zero) eqn:HZ.
  - destruct Hz as (Hs & Hz0 & Hmax). rewrite Hs in *. cbn [b2z] in *. rewrite (u32_id (n m * 2 + 12 + 0)) by lia. assert (Hty : stype (stored m) = 12 + 2 * (n m + u_nZero m)) by (rewrite Hst; cbn [stype]; rewrite length_app, length_replicate; lia).
    rewrite u32_id by lia. replace (n m * 2 + 12 + 0 + u_nZero m * 2) with (stype (stored m)) by lia. destruct (Z.eqb_spec nData 0) as [->|HnD0]; cbn [negb mbind option_bind].
    + do 2 eexists. split; [done|]. split; [done|]. exists (text_of m), (Z.to_nat (u_nZero m)). split; [split; [done|]; split; [|cbn [n with_uTemp]; lia]|]; [|split; [by rewrite Hst|]; split; [exact HVL|]; split; [lia|]; split; [lia|done]].
      apply HP; cbn [uTemp with_uTemp n]; [done|lia|lia|by apply (HVB (n m))|]. intros H14. apply nil_length_inv. lia.
    + unfold sqlite3VdbeMemExpandBlob. rewrite (Hsb eq_refl). cbn [negb]. rewrite andb_false_r. destruct (sqlite3Malloc a) as [ok a1] eqn:EM. destruct ok; cbn [negb].
      2: { cbn [mbind option_bind]. do 2 eexists. split; [done|]. split; [intros Hok; by destruct (sqlite3Malloc_ok _ _ _ Hok EM)|]. intros Hok. by destruct (sqlite3Malloc_ok _ _ _ Hok EM). }
      destruct (Z.ltb_spec (zlen (z m)) (n m)); [lia|]. cbn [mbind option_bind]. change (SQLITE_OK =? SQLITE_OK) with true. cbv iota. do 2 eexists. split; [done|]. split; [intros Hok; by destruct (sqlite3Malloc_ok _ _ _ Hok EM)|].
      set (s := text_of m ++ replicate (Z.to_nat (u_nZero m)) 0). assert (Hbody : body (stored m) = s) by (rewrite Hst; done). assert (Hsl : zlen s = n m + u_nZero m) by (unfold s; rewrite length_app, length_replicate; lia).
      exists s, 0%nat. split; [split; [done|]; split; [|cbn [n with_uTemp with_flags with_text]; lia]|]; [|rewrite app_nil_r; split_and!; try done; try exact HVL; lia].
      apply HP; cbn [uTemp with_uTemp n with_flags with_text]; [done|lia|lia| |intros H14; apply nil_length_inv; lia]. unfold value_bytes. cbn [n z with_uTemp with_flags with_text]. fold s. change (take (Z.to_nat (n m)) (z m)) with (text_of m). fold s.
      destruct (Z.leb_spec (n m + u_nZero m) (zlen s)); [|lia]. f_equal. apply take_ge. lia.
  - cbn [mbind option_bind]. set (v := stored m) in *. assert (Hty : stype v = n m * 2 + 12 + b2z (has m MEM_Str)) by (rewrite Hst; destruct (has m MEM_Str); cbn [stype b2z]; rewrite ?app_nil_r; lia).
    assert (0 ≤ b2z (has m MEM_Str) ≤ 1) by (destruct (has m MEM_Str); cbn; lia). rewrite <- Hty. rewrite u32_id by lia. do 2 eexists. split; [done|]. split; [done|].
    assert (Hbody : body v = text_of m) by (rewrite Hst; destruct (has m MEM_Str); cbn [body]; by rewrite ?app_nil_r).
    exists (text_of m), 0%nat. split; [split; [done|]; split; [|cbn [n with_uTemp]; lia]|]; [|rewrite app_nil_r; split_and!; try done; try exact HVL; lia].
    apply HP; cbn [uTemp with_uTemp n]; [done|lia|lia|by apply (HVB (n m))|]. intros H14. apply nil_length_inv. lia.
Qed.

Lemma size_field_made m nHdr nData nZero a : valid m → 0 ≤ nData →
  ∃ r a', size_field fmt m nHdr nData nZero a = Some (r, a') ∧ (always_ok a → always_ok a') ∧
    match r with
    | Some (m', nHdr', nData', nZero') => measured m m' nHdr nData nZero nHdr' nData' nZero'
    | None => ¬ always_ok a
    end.
Proof.
  intros HV HnD. pose proof (stored_wf m HV) as Hwf. destruct (has m MEM_Null) eqn:Hnull.
  { unfold size_field. rewrite Hnull. assert (HZ : has m MEM_Zero = false) by (destruct HV as (_ & Hm); by rewrite Hnull in Hm). rewrite HZ. do 2 eexists. split; [done|]. split; [done|].
    assert (Hst : stored m = VNull) by (unfold stored, value_of; by rewrite Hnull). enough (M : measured m (with_uTemp 0 m) nHdr nData nZero (nHdr + 1) (nData + 0) nZero) by by rewrite Z.add_0_r in M.
    apply measured_short; try done; by rewrite Hst. }
  destruct (has m MEM_Int || has m MEM_IntReal) eqn:Hint.
  { destruct (size_int_field m nHdr nData nZero a HV Hnull Hint) as (m' & h & d & zz & -> & HM). by do 2 eexists. }
  destruct (has m MEM_Real) eqn:Hreal; [|by apply size_text_field].
  unfold size_field. rewrite Hnull, has_lor, Hint, Hreal. do 2 eexists. split; [done|]. split; [done|]. assert (Hst : stored m = VReal (u m)) by (unfold stored, value_of; by rewrite Hnull, Hint, Hreal).
  apply measured_short; try done; by rewrite Hst.
Qed.

(** All registers: what is left of the zeros is at the end. *)
Definition measured_all (ms ms' : list sqlite3_value) (nHdr nData nZero : Z) : Prop :=
  ∃ pays, Forall3 writes ms' (map stored ms) pays ∧ nHdr = zlen (types (map stored ms)) ∧ nData = zlen (concat pays) ∧ 0 ≤ nZero ∧
    bodies (map stored ms) = concat pays ++ replicate (Z.to_nat nZero) 0.

Lemma size_loop_made todo : ∀ ms ms' nHdr nData nZero a, Forall valid todo → measured_all ms ms' nHdr nData nZero →
  ∃ r a', size_loop fmt todo ms' nHdr nData nZero a = Some (r, a') ∧ (always_ok a → always_ok a') ∧
    match r with
    | Some (ms', nHdr', nData', nZero') => measured_all (reverse todo ++ ms) ms' nHdr' nData' nZero'
    | None => ¬ always_ok a
    end.
Proof.
  induction todo as [|m todo IH]; intros ms ms' nHdr nData nZero a HV HM; cbn [size_loop].
  - do 2 eexists. split; [done|]. split; [done|]. done.
  - apply Forall_cons in HV as (Hm & HV). destruct HM as (pays & HF & Eh & Ed & Hz & Eb).
    destruct (size_field_made m nHdr nData nZero a Hm ltac:(lia)) as (r & a1 & -> & Hok & Hr). cbn [mbind option_bind]. destruct r as [[[[m' nHdr'] nData'] nZero']|].
    2: { do 2 eexists. split; [done|]. by split. }
    destruct Hr as (pay & t & HW & Hb & Eh' & Ed' & Ez' & Ht). destruct (IH (m :: ms) (m' :: ms') nHdr' nData' nZero' a1 HV) as (r & a2 & -> & Hok2 & Hr).
    { exists (pay :: pays). split; [cbn [map]; by constructor|]. unfold types, bodies in *. cbn [map concat]. rewrite !length_app. split_and!; try lia. rewrite Hb, Eb. destruct (decide (t = 0%nat)) as [->|Ht0].
      - rewrite app_nil_r, <- app_assoc. rewrite Ez', Z.add_0_r. done.
      - specialize (Ht Ht0). assert (concat pays = []) as -> by (apply nil_length_inv; lia). rewrite app_nil_r, <- app_assoc. cbn [app]. rewrite <- replicate_add. do 2 f_equal. lia. }
    do 2 eexists. split; [done|]. split; [auto|]. destruct r as [[[[l h] d] zz]|]; [|auto]. by rewrite reverse_cons, <- app_assoc.
Qed.

Lemma make_record_made limit junk ms own a : Forall valid ms → zlen ms ≤ 2 ^ 16 → limit ≤ 10 ^ 9 → zlen own ≤ 10 ^ 9 → let R := record (map stored ms) in
  ∃ rc out a', OP_MakeRecord fmt limit junk ms own a = Some (rc, out, a') ∧
    (rc = SQLITE_OK ∧ (∃ r k, out = Some r ∧ value_of r = VBlob R ∧ has r MEM_Null = false ∧ n r + Z.of_nat k = zlen R ∧ take (Z.to_nat (n r)) (z r) ++ replicate k 0 = R) ∧ zlen R ≤ Z.max limit (zlen own) ∨
     rc = SQLITE_TOOBIG ∧ out = None ∧ limit < zlen R ∨ rc = SQLITE_NOMEM ∧ out = None ∧ ¬ always_ok a).
Proof.
  intros HV Hlen Hlim Hown R. unfold OP_MakeRecord. assert (Hwf : Forall wf_val (map stored ms)) by (apply Forall_map; eapply Forall_impl; [exact HV|]; intros; by apply stored_wf).
  destruct (size_loop_made (reverse ms) [] [] 0 0 0 a) as (r & a1 & -> & Hok & Hr); [by apply Forall_reverse|exists []; split; [constructor|done]|]. cbn [mbind option_bind].
  destruct r as [[[[ms' nHdr] nData] nZero]|]; [|do 3 eexists; split; [done|]; right; right; done]. rewrite reverse_involutive, app_nil_r in Hr. destruct Hr as (pays & HF & Eh & Ed & Hz & Eb). set (vs := map stored ms) in *.
  pose proof (types_length vs Hwf) as Ht. assert (Hvl : zlen vs ≤ 2 ^ 16) by (unfold vs; by rewrite length_map). destruct (header_size_len nHdr ltac:(lia)) as (Hhs & Hhs2). set (H := header_size nHdr) in *.
  assert (HR : zlen R = H + nData + nZero) by (unfold R, record, header; rewrite !length_app, Eb, length_app, length_replicate, <- Eh; fold H; lia).
  destruct (negb (H + nData + nZero <=? zlen own) && (limit <? H + nData + nZero)) eqn:Ebig.
  { do 3 eexists. split; [done|]. right; left. apply andb_true_iff in Ebig as (_ & ?%Z.ltb_lt). split_and!; (done || lia). }
  assert (Hfit : H + nData + nZero ≤ Z.max limit (zlen own)) by (apply andb_false_iff in Ebig as [E|E]; [apply negb_false_iff, Z.leb_le in E; lia|apply Z.ltb_ge in E; lia]).
  destruct (if H + nData <=? zlen own then (true, a1) else sqlite3Malloc a1) as [ok a2] eqn:EM. destruct ok; cbn [negb].
  2: { do 3 eexists. split; [done|]. right; right. split_and!; try done. intros Ha. destruct (H + nData <=? zlen own); [done|]. by destruct (sqlite3Malloc_ok _ _ _ (Hok Ha) EM). }
  set (b := if H + nData <=? zlen own then own else map junk (seqZ 0 (H + nData))). assert (Hbl : H + nData ≤ zlen b) by (unfold b; destruct (Z.leb_spec (H + nData) (zlen own)); [lia|rewrite length_map, length_seqZ; lia]).
  set (hdr := sqlite3PutVarint H) in *. assert ((if H <? 0x80 then [u8 H] else hdr) = hdr) as -> by (destruct (Z.ltb_spec H 0x80); [unfold hdr; by rewrite small_varint, u8_id by lia|done]).
  set (b1 := take (length hdr) b). set (b2 := drop (length hdr) b). assert (Eb12 : b = b1 ++ b2) by (unfold b1, b2; by rewrite take_drop).
  assert (Hb1 : length b1 = length hdr) by (unfold b1; rewrite length_take; lia). rewrite Eb12. pose proof (store_app [] b1 b2 hdr Hb1) as Hst. cbn [app length] in Hst. change (Z.of_nat 0) with 0 in Hst. rewrite Hst. cbn [mbind option_bind].
  assert (Hb2 : nHdr + nData ≤ zlen b2) by (unfold b2; rewrite length_drop; lia). set (x := take (length (types vs)) b2). set (y := take (length (concat pays)) (drop (length (types vs)) b2)). set (rest := drop (length (concat pays)) (drop (length (types vs)) b2)).
  assert (Eb2 : b2 = x ++ y ++ rest) by (unfold x, y, rest; by rewrite !take_drop). assert (Hx : length x = length (types vs)) by (unfold x; rewrite length_take; lia).
  assert (Hy : length y = length (concat pays)) by (unfold y; rewrite length_take, length_drop; lia).
  pose proof (write_loop_made ms' vs pays hdr x [] y rest Hwf HF Hx Hy) as HW. cbn [app] in HW. rewrite <- Eb2 in HW. replace (zlen (hdr ++ x ++ [])) with H in HW by (rewrite app_nil_r, length_app; lia). rewrite HW. cbn [mbind option_bind].
  do 3 eexists. split; [done|]. left. split; [done|]. split; [|lia]. assert (Hrec : (hdr ++ types vs ++ concat pays) ++ replicate (Z.to_nat nZero) 0 = R) by (unfold R, record, header; rewrite <- Eh; fold H; fold hdr; rewrite Eb; by rewrite <- !app_assoc).
  assert (Htake : take (Z.to_nat (H + nData)) (hdr ++ types vs ++ concat pays ++ rest) = hdr ++ types vs ++ concat pays).
  { rewrite !app_assoc. rewrite take_app_length'; [by rewrite <- !app_assoc|]. rewrite !length_app. lia. }
  eexists _, (Z.to_nat nZero). split; [done|]. cbn [n z]. rewrite Htake. split; [|split; [by destruct (nZero =? 0)|split; [lia|exact Hrec]]].
  unfold value_of, text_of, has, u_nZero. cbn [flags u n z]. rewrite Htake. destruct (Z.eqb_spec nZero 0) as [->|Hz0]; eval_flags; cbn [negb orb].
  - rewrite <- Hrec. done.
  - rewrite u_nZero_u32 by lia. by rewrite Hrec.
Qed.
End format.

(** C20: OP_MakeRecord writes the record format, and [sqlite3VdbeRecordUnpack] reads it back.  The registers are at most 2^16, each with a value as [valid] says: a
    NULL (not that of an unchanged column), an integer, a double that is no NaN, or a text or blob of at most 10^9 bytes with the zeros behind it; the limit and
    the block of the output register are at most 10^9 bytes.  Then there is a result: the blob of the header with its own size, the serial types and the contents
    in the documented format, with every integer in as few bytes as it fits in and the zeros of a blob left to the end where nothing follows; or the record is
    longer than the limit; or some request for memory fails.  Unpacking the blob, whatever bytes are behind it, gives the same values in the same order, as many
    as the array has places; an integer that is to be read as a real and needs eight bytes comes back as the double of it ([stored]). *)
Theorem record_roundtrip fmt limit junk ms own a : Forall valid ms → zlen ms ≤ 2 ^ 16 → limit ≤ 10 ^ 9 → zlen own ≤ 10 ^ 9 →
  ∃ rc out a', OP_MakeRecord fmt limit junk ms own a = Some (rc, out, a') ∧
    (rc = SQLITE_OK ∧ (∃ r R, out = Some r ∧ value_of r = VBlob R ∧ R = record fmt (map stored ms) ∧
       header fmt (map stored ms) = sqlite3PutVarint (zlen (header fmt (map stored ms)) + zlen (types fmt (map stored ms))) ∧
       ∀ text_enc k rest, bytes rest → ∃ l, sqlite3VdbeRecordUnpack (zlen R) (R ++ rest) text_enc k = Some l ∧ map value_of l = take k (map stored ms)) ∨
     rc = SQLITE_TOOBIG ∧ out = None ∧ limit < zlen (record fmt (map stored ms)) ∨ rc = SQLITE_NOMEM ∧ out = None ∧ ¬ always_ok a).
Proof.
  intros HV Hlen Hlim Hown. destruct (make_record_made fmt limit junk ms own a HV Hlen Hlim Hown) as (rc & out & a' & E & H). exists rc, out, a'. split; [exact E|].
  destruct H as [(-> & (r & k & -> & Hval & _) & Hmax)|[H|H]]; [left|by right; left|by right; right]. split; [done|].
  assert (Hwf : Forall wf_val (map stored ms)) by (apply Forall_map; eapply Forall_impl; [exact HV|]; intros; by apply stored_wf). exists r, (record fmt (map stored ms)). split_and!; try done.
  { apply header_counts; [done|by rewrite length_map]. }
  intros e k' rest Hr. destruct (unpack_record fmt (map stored ms) rest e k') as (l & Hl & Hm & _); [done|by rewrite length_map|done|lia|]. by exists l.
Qed.

Definition registers_ex : list sqlite3_value := [null_ex; int_ex (-2); Value (Z.lor MEM_Blob MEM_Zero) 3 1 [7] 1 0; text_ex [97; 98]; Value (Z.lor MEM_Blob MEM_Zero) 2 0 [] 1 0].

Lemma record_roundtrip_witness : map stored registers_ex = [VNull; VInt (-2); VBlob [7; 0; 0; 0]; VText [97; 98]; VBlob [0; 0]] ∧
  ∃ rc out a', OP_MakeRecord 4 1000 (λ _, 255) registers_ex [] {| oom := []; live := 0 |} = Some (rc, out, a') ∧
    (rc = SQLITE_OK ∧ (∃ r R, out = Some r ∧ value_of r = VBlob R ∧ R = record 4 (map stored registers_ex) ∧
       header 4 (map stored registers_ex) = sqlite3PutVarint (zlen (header 4 (map stored registers_ex)) + zlen (types 4 (map stored registers_ex))) ∧
       ∀ text_enc k rest, bytes rest → ∃ l, sqlite3VdbeRecordUnpack (zlen R) (R ++ rest) text_enc k = Some l ∧ map value_of l = take k (map stored registers_ex)) ∨
     rc = SQLITE_TOOBIG ∧ out = None ∧ 1000 < zlen (record 4 (map stored registers_ex)) ∨ rc = SQLITE_NOMEM ∧ out = None ∧ ¬ always_ok {| oom := []; live := 0 |}).
Proof.
  split; [vm_compute; reflexivity|]. apply (record_roundtrip 4 1000 (λ _, 255) registers_ex [] {| oom := []; live := 0 |}); [|vm_compute; discriminate..].
  unfold registers_ex. repeat apply Forall_cons_2; [..|apply Forall_nil_2]; vm_compute; intuition (congruence || (repeat constructor; congruence)).
Defined.
