(* ===== verification/RecordCompare.v ===== *)
(** Comparison of values and of records (src/vdbeaux.c): a serialized record against the values of an unpacked one, by the general routine or one
    of the two fast ones that [sqlite3VdbeFindCompare] picks.  Proofs are in RecordCompareProofs.v. *)
From S2P Require Import Prelude Varint Double Utf RecordFormat.

(** ** Values *)

(** [memcmp]: the difference of the first bytes that differ. *)
Fixpoint memcmp (k : nat) (a b : list Z) : option Z :=
  match k with
  | O => Some 0
  | S k =>
      match a, b with
      | x :: a, y :: b => if x =? y then memcmp k a b else Some (x - y)
      | _, _ => None
      end
  end.

Fixpoint isAllZero (k : nat) (l : list Z) : option bool :=
  match k with
  | O => Some true
  | S k => match l with x :: l => if negb (x =? 0) then Some false else isAllZero k l | [] => None end
  end.

Definition sqlite3BlobCompare (pB1 pB2 : sqlite3_value) : option Z :=
  let n1 := n pB1 in
  let n2 := n pB2 in
  if has pB1 MEM_Zero || has pB2 MEM_Zero then
    if has pB1 MEM_Zero && has pB2 MEM_Zero then Some (u_nZero pB1 - u_nZero pB2)
    else if has pB1 MEM_Zero then
      zero ← isAllZero (Z.to_nat n2) (z pB2); Some (if negb zero then -1 else u_nZero pB1 - n2)
    else
      zero ← isAllZero (Z.to_nat n1) (z pB1); Some (if negb zero then 1 else n1 - u_nZero pB2)
  else
    c ← memcmp (Z.to_nat (if n2 <? n1 then n2 else n1)) (z pB1) (z pB2);
    Some (if negb (c =? 0) then c else n1 - n2).

(** A collating sequence: the encoding that it wants and the function of the application. *)
Record CollSeq := Coll { coll_enc : Z; xCmp : list Z → list Z → Z }.

(** The change of the encoding is outside the model. *)
Definition vdbeCompareMemString (pMem1 pMem2 : sqlite3_value) (pColl : CollSeq) : option Z :=
  if enc pMem1 =? coll_enc pColl then s1 ← value_bytes pMem1; s2 ← value_bytes pMem2; Some (xCmp pColl s1 s2)
  else None.

Definition sqlite3MemCompare (pMem1 pMem2 : sqlite3_value) (pColl : option CollSeq) : option Z :=
  let int m := has m (Z.lor MEM_Int MEM_IntReal) in
  let real m := has m MEM_Real in
  let compare_int := Some (if u_i pMem1 <? u_i pMem2 then -1 else if u_i pMem2 <? u_i pMem1 then 1 else 0) in
  if has pMem1 MEM_Null || has pMem2 MEM_Null then Some (b2z (has pMem2 MEM_Null) - b2z (has pMem1 MEM_Null))
  else if int pMem1 || real pMem1 || (int pMem2 || real pMem2) then
    if negb (Z.land (Z.land (flags pMem1) (flags pMem2)) (Z.lor MEM_Int MEM_IntReal) =? 0) then compare_int
    else if real pMem1 && real pMem2 then
      Some (if double_lt (u_r pMem1) (u_r pMem2) then -1 else if double_lt (u_r pMem2) (u_r pMem1) then 1 else 0)
    else if int pMem1 then
      if real pMem2 then sqlite3IntFloatCompare (u_i pMem1) (u_r pMem2)
      else if int pMem2 then compare_int
      else Some (-1)
    else if real pMem1 then
      if int pMem2 then c ← sqlite3IntFloatCompare (u_i pMem2) (u_r pMem1); Some (- c)
      else Some (-1)
    else Some 1
  else if has pMem1 MEM_Str || has pMem2 MEM_Str then
    if negb (has pMem1 MEM_Str) then Some 1
    else if negb (has pMem2 MEM_Str) then Some (-1)
    else match pColl with Some c => vdbeCompareMemString pMem1 pMem2 c | None => sqlite3BlobCompare pMem1 pMem2 end
  else sqlite3BlobCompare pMem1 pMem2.

(** ** Records *)

Definition KEYINFO_ORDER_DESC : Z := 1.
Definition KEYINFO_ORDER_BIGNULL : Z := 2.

Record KeyInfo := Key { key_enc : Z; nAllField : Z; aSortFlags : list Z; aColl : list (option CollSeq) }.

(** The union [u] is a string or an integer. *)
Record UnpackedRecord := Unpacked {
  pKeyInfo : KeyInfo; aMem : list sqlite3_value; cache : Z + list Z; cache_n : Z; nField : Z; default_rc : Z; errCode : Z; r1 : Z; r2 : Z; eqSeen : bool }.
Definition with_errCode e p := Unpacked (pKeyInfo p) (aMem p) (cache p) (cache_n p) (nField p) (default_rc p) e (r1 p) (r2 p) (eqSeen p).
Definition with_eqSeen p := Unpacked (pKeyInfo p) (aMem p) (cache p) (cache_n p) (nField p) (default_rc p) (errCode p) (r1 p) (r2 p) true.
Definition with_cache c k p := Unpacked (pKeyInfo p) (aMem p) c k (nField p) (default_rc p) (errCode p) (r1 p) (r2 p) (eqSeen p).
Definition with_r a b p := Unpacked (pKeyInfo p) (aMem p) (cache p) (cache_n p) (nField p) (default_rc p) (errCode p) a b (eqSeen p).

Definition vdbeRecordDecodeInt (serial_type : Z) (aKey : list Z) : option Z :=
  if (serial_type =? 0) || (serial_type =? 1) then ONE_BYTE_INT aKey
  else if serial_type =? 2 then TWO_BYTE_INT aKey
  else if serial_type =? 3 then THREE_BYTE_INT aKey
  else if serial_type =? 4 then y ← FOUR_BYTE_UINT aKey; Some (i32 y)
  else if serial_type =? 5 then x ← FOUR_BYTE_UINT (ptr aKey 2); y ← TWO_BYTE_INT aKey; Some (x + 2 ^ 32 * y)
  else if serial_type =? 6 then x ← FOUR_BYTE_UINT aKey; y ← FOUR_BYTE_UINT (ptr aKey 4); Some (i64 (Z.lor (u64 (Z.shiftl x 32)) y))
  else Some (serial_type - 8).

Section compare.
(** The serialized record, [nKey1] bytes of the list. *)
Context (nKey1 : Z) (aKey1 : list Z).

(** The field [i] at the offset [d1] with its type at [idx1]: the comparison with [pRhs] and the type, or [None] inside for a corrupt record. *)
Definition compare_field (pKey : KeyInfo) (pRhs : sqlite3_value) (i d1 idx1 : Z) : option (option (Z * Z)) :=
  let mem0 := Value 0 0 0 [] (key_enc pKey) 0 in
  if has pRhs (Z.lor MEM_Int MEM_IntReal) then
    serial_type ← aKey1.[idx1];
    rc ← (if 10 <=? serial_type then Some (if serial_type =? 10 then -1 else 1)
          else if serial_type =? 0 then Some (-1)
          else if serial_type =? 7 then
            '(_, mem1) ← serialGet7 (ptr aKey1 d1) mem0;
            c ← sqlite3IntFloatCompare (u_i pRhs) (u_r mem1); Some (- c)
          else
            lhs ← vdbeRecordDecodeInt serial_type (ptr aKey1 d1);
            let rhs := u_i pRhs in
            Some (if lhs <? rhs then -1 else if rhs <? lhs then 1 else 0));
    Some (Some (rc, serial_type))
  else if has pRhs MEM_Real then
    serial_type ← aKey1.[idx1];
    rc ← (if 10 <=? serial_type then Some (if serial_type =? 10 then -1 else 1)
          else if serial_type =? 0 then Some (-1)
          else if serial_type =? 7 then
            '(nan, mem1) ← serialGet7 (ptr aKey1 d1) mem0;
            Some (if negb (nan =? 0) then -1 else if double_lt (u_r mem1) (u_r pRhs) then -1 else if double_lt (u_r pRhs) (u_r mem1) then 1 else 0)
          else
            mem1 ← sqlite3VdbeSerialGet (ptr aKey1 d1) serial_type mem0;
            sqlite3IntFloatCompare (u_i mem1) (u_r pRhs));
    Some (Some (rc, serial_type))
  else if has pRhs MEM_Str then
    '(serial_type, _) ← getVarint32 (ptr aKey1 idx1);
    if serial_type <? 12 then Some (Some (-1, serial_type))
    else if negb (Z.odd serial_type) then Some (Some (1, serial_type))
    else
      let mem_n := (serial_type - 12) / 2 in
      if (nKey1 <? u32 (d1 + mem_n)) || (nAllField pKey <=? i) then Some None
      else
        coll ← (aColl pKey).[i];
        rc ← match coll with
             | Some c => vdbeCompareMemString (with_flags MEM_Str (with_text mem_n (ptr aKey1 d1) mem0)) pRhs c
             | None =>
                 c ← memcmp (Z.to_nat (Z.min mem_n (n pRhs))) (ptr aKey1 d1) (z pRhs);
                 Some (if c =? 0 then mem_n - n pRhs else c)
             end;
        Some (Some (rc, serial_type))
  else if has pRhs MEM_Blob then
    '(serial_type, _) ← getVarint32 (ptr aKey1 idx1);
    if (serial_type <? 12) || Z.odd serial_type then Some (Some (-1, serial_type))
    else
      let nStr := (serial_type - 12) / 2 in
      if nKey1 <? u32 (d1 + nStr) then Some None
      else
        rc ← (if has pRhs MEM_Zero then
                zero ← isAllZero (Z.to_nat nStr) (ptr aKey1 d1); Some (if negb zero then 1 else nStr - u_nZero pRhs)
              else
                c ← memcmp (Z.to_nat (Z.min nStr (n pRhs))) (ptr aKey1 d1) (z pRhs);
                Some (if c =? 0 then nStr - n pRhs else c));
        Some (Some (rc, serial_type))
  else
    serial_type ← aKey1.[idx1];
    null ← (if (serial_type =? 0) || (serial_type =? 10) then Some true
            else if serial_type =? 7 then '(nan, _) ← serialGet7 (ptr aKey1 d1) mem0; Some (negb (nan =? 0))
            else Some false);
    Some (Some (if null : bool then 0 else 1, serial_type)).

(** The sign for the sort order of the field. *)
Definition sort_sign (sortFlags serial_type rc : Z) (pRhs : sqlite3_value) : Z :=
  if negb (sortFlags =? 0) then
    if (Z.land sortFlags KEYINFO_ORDER_BIGNULL =? 0) ||
       negb (Z.land sortFlags KEYINFO_ORDER_DESC =? b2z ((serial_type =? 0) || has pRhs MEM_Null)) then - rc else rc
  else rc.

Fixpoint compare_loop (fuel : nat) (pPKey2 : UnpackedRecord) (szHdr1 i d1 idx1 : Z) : option (Z * UnpackedRecord) :=
  match fuel with
  | O => None
  | S fuel =>
      pRhs ← (aMem pPKey2).[i];
      r ← compare_field (pKeyInfo pPKey2) pRhs i d1 idx1;
      match r with
      | None => Some (0, with_errCode SQLITE_CORRUPT pPKey2)
      | Some (rc, serial_type) =>
          if negb (rc =? 0) then
            sortFlags ← (aSortFlags (pKeyInfo pPKey2)).[i];
            Some (sort_sign sortFlags serial_type rc pRhs, pPKey2)
          else
            let i := i + 1 in
            if i =? nField pPKey2 then Some (default_rc pPKey2, with_eqSeen pPKey2)
            else
              let d1 := u32 (d1 + sqlite3VdbeSerialTypeLen serial_type) in
              if nKey1 <? d1 then Some (default_rc pPKey2, with_eqSeen pPKey2)
              else
                let idx1 := u32 (idx1 + sqlite3VarintLen serial_type) in
                if szHdr1 <=? idx1 then Some (0, with_errCode SQLITE_CORRUPT pPKey2)
                else compare_loop fuel pPKey2 szHdr1 i d1 idx1
      end
  end.

Definition sqlite3VdbeRecordCompareWithSkip (pPKey2 : UnpackedRecord) (bSkip : bool) : option (Z * UnpackedRecord) :=
  '(szHdr1, d1, idx1, i) ← (
    if bSkip then
      s1 ← aKey1.[1];
      '(s1, idx1) ← (if s1 <? 0x80 then Some (s1, 2) else '(s1, m) ← sqlite3GetVarint32 (ptr aKey1 1); Some (s1, 1 + m));
      szHdr1 ← aKey1.[0];
      Some (szHdr1, u32 (szHdr1 + sqlite3VdbeSerialTypeLen s1), idx1, 1)
    else
      szHdr1 ← aKey1.[0];
      '(szHdr1, idx1) ← (if szHdr1 <? 0x80 then Some (szHdr1, 1) else sqlite3GetVarint32 aKey1);
      Some (szHdr1, szHdr1, idx1, 0));
  if nKey1 <? d1 then Some (0, with_errCode SQLITE_CORRUPT pPKey2)
  else compare_loop (length (aMem pPKey2)) pPKey2 szHdr1 i d1 idx1.

Definition sqlite3VdbeRecordCompare (pPKey2 : UnpackedRecord) : option (Z * UnpackedRecord) := sqlite3VdbeRecordCompareWithSkip pPKey2 false.

Definition vdbeRecordCompareInt (pPKey2 : UnpackedRecord) : option (Z * UnpackedRecord) :=
  b0 ← aKey1.[0];
  serial_type ← aKey1.[1];
  let aKey := ptr aKey1 (Z.land b0 0x3f) in
  lhs ← (if serial_type =? 1 then x ← ONE_BYTE_INT aKey; Some (Some x)
         else if serial_type =? 2 then x ← TWO_BYTE_INT aKey; Some (Some x)
         else if serial_type =? 3 then x ← THREE_BYTE_INT aKey; Some (Some x)
         else if serial_type =? 4 then y ← FOUR_BYTE_UINT aKey; Some (Some (i32 y))
         else if serial_type =? 5 then x ← FOUR_BYTE_UINT (ptr aKey 2); y ← TWO_BYTE_INT aKey; Some (Some (x + 2 ^ 32 * y))
         else if serial_type =? 6 then x ← FOUR_BYTE_UINT aKey; y ← FOUR_BYTE_UINT (ptr aKey 4); Some (Some (i64 (Z.lor (u64 (Z.shiftl x 32)) y)))
         else if serial_type =? 8 then Some (Some 0)
         else if serial_type =? 9 then Some (Some 1)
         else Some None);
  match lhs with
  | None => sqlite3VdbeRecordCompare pPKey2
  | Some lhs =>
      match cache pPKey2 with
      | inl v =>
          if lhs <? v then Some (r1 pPKey2, pPKey2)
          else if v <? lhs then Some (r2 pPKey2, pPKey2)
          else if 1 <? nField pPKey2 then sqlite3VdbeRecordCompareWithSkip pPKey2 true
          else Some (default_rc pPKey2, with_eqSeen pPKey2)
      | inr _ => None
      end
  end.

Definition vdbeRecordCompareString (pPKey2 : UnpackedRecord) : option (Z * UnpackedRecord) :=
  b1 ← aKey1.[1];
  serial_type ← (if i8 b1 <? 0 then '(s, _) ← sqlite3GetVarint32 (ptr aKey1 1); Some (i32 s) else Some (i8 b1));
  if serial_type <? 12 then Some (r1 pPKey2, pPKey2)
  else if negb (Z.odd serial_type) then Some (r2 pPKey2, pPKey2)
  else
    szHdr ← aKey1.[0];
    let nStr := (serial_type - 12) / 2 in
    if nKey1 <? szHdr + nStr then Some (0, with_errCode SQLITE_CORRUPT pPKey2)
    else
      match cache pPKey2 with
      | inr z2 =>
          res ← memcmp (Z.to_nat (Z.min (cache_n pPKey2) nStr)) (ptr aKey1 szHdr) z2;
          if 0 <? res then Some (r2 pPKey2, pPKey2)
          else if res <? 0 then Some (r1 pPKey2, pPKey2)
          else
            let res := nStr - cache_n pPKey2 in
            if res =? 0 then
              if 1 <? nField pPKey2 then sqlite3VdbeRecordCompareWithSkip pPKey2 true
              else Some (default_rc pPKey2, with_eqSeen pPKey2)
            else if 0 <? res then Some (r2 pPKey2, pPKey2)
            else Some (r1 pPKey2, pPKey2)
      | inl _ => None
      end.
End compare.

(** The function that it returns, and the unpacked record with what that one reads. *)
Inductive RecordCompare := UseCompare | UseCompareInt | UseCompareString.
Definition call (f : RecordCompare) : Z → list Z → UnpackedRecord → option (Z * UnpackedRecord) :=
  match f with
  | UseCompare => sqlite3VdbeRecordCompare
  | UseCompareInt => vdbeRecordCompareInt
  | UseCompareString => vdbeRecordCompareString
  end.

Definition sqlite3VdbeFindCompare (p : UnpackedRecord) : option (RecordCompare * UnpackedRecord) :=
  if nAllField (pKeyInfo p) <=? 13 then
    m0 ← (aMem p).[0];
    s0 ← (aSortFlags (pKeyInfo p)).[0];
    if negb (s0 =? 0) && negb (Z.land s0 KEYINFO_ORDER_BIGNULL =? 0) then Some (UseCompare, p)
    else
      let p := if negb (s0 =? 0) then with_r 1 (-1) p else with_r (-1) 1 p in
      if has m0 MEM_Int then Some (UseCompareInt, with_cache (inl (u_i m0)) (cache_n p) p)
      else
        if negb (has m0 (Z.lor MEM_Real (Z.lor MEM_IntReal (Z.lor MEM_Null MEM_Blob)))) then
          c0 ← (aColl (pKeyInfo p)).[0];
          match c0 with
          | None => Some (UseCompareString, with_cache (inr (z m0)) (n m0) p)
          | Some _ => Some (UseCompare, p)
          end
        else Some (UseCompare, p)
  else Some (UseCompare, p).
