(* ===== verification/RecordCompareProofs.v ===== *)
(** Proofs about the comparison of values and records (RecordCompare.v): it is the order of the values, field by field, whichever routine
    [sqlite3VdbeFindCompare] picks for a key, on the records that OP_MakeRecord makes. *)
From S2P Require Import Prelude Varint Double Utf RecordFormat RecordFormatProofs RecordCompare.

(** ** The order of values *)

Fixpoint bytes_cmp (a b : list Z) : Z :=
  match a, b with
  | [], [] => 0
  | [], _ => -1
  | _, [] => 1
  | x :: a, y :: b => if x =? y then bytes_cmp a b else Z.sgn (x - y)
  end.

(** NULL before numbers by their exact values before text by its collating sequence before blobs by their bytes. *)
Definition val_cmp (coll : option CollSeq) (a b : val) : Z :=
  match a, b with
  | VNull, VNull => 0
  | VNull, _ => -1
  | _, VNull => 1
  | VInt i, VInt j => Z.sgn (i - j)
  | VInt i, VReal r => Z.sgn (i * UNIT - dval r)
  | VReal r, VInt j => Z.sgn (dval r - j * UNIT)
  | VReal r, VReal q => Z.sgn (dval r - dval q)
  | (VInt _ | VReal _), _ => -1
  | _, (VInt _ | VReal _) => 1
  | VText s, VText t => match coll with Some c => Z.sgn (xCmp c s t) | None => bytes_cmp s t end
  | VText _, VBlob _ => -1
  | VBlob _, VText _ => 1
  | VBlob s, VBlob t => bytes_cmp s t
  end.

(** ** Bytes *)

Lemma memcmp_made a b ra rb : ∃ c, memcmp (length a `min` length b) (a ++ ra) (b ++ rb) = Some c ∧ Z.sgn (if c =? 0 then zlen a - zlen b else c) = bytes_cmp a b.
Proof.
  revert b. induction a as [|x a IH]; intros [|y b]; cbn [length Nat.min memcmp app bytes_cmp].
  - by exists 0.
  - exists 0. split; [done|]. cbn [Z.eqb]. lia.
  - exists 0. split; [done|]. cbn [Z.eqb]. lia.
  - destruct (Z.eqb_spec x y) as [->|Hne].
    + destruct (IH b) as (c & E & Hc). exists c. split; [done|]. rewrite <- Hc. destruct (c =? 0); [f_equal; lia|done].
    + exists (x - y). split; [done|]. by destruct (Z.eqb_spec (x - y) 0); [lia|].
Qed.

Lemma memcmp_texts (p q : list Z) k j : 0 ≤ k ≤ zlen p → 0 ≤ j ≤ zlen q →
  ∃ c, memcmp (Z.to_nat (Z.min k j)) p q = Some c ∧ Z.sgn (if c =? 0 then k - j else c) = bytes_cmp (take (Z.to_nat k) p) (take (Z.to_nat j) q).
Proof.
  intros Hk Hj. destruct (memcmp_made (take (Z.to_nat k) p) (take (Z.to_nat j) q) (drop (Z.to_nat k) p) (drop (Z.to_nat j) q)) as (c & E & Hc).
  rewrite !take_drop, !length_take in E. exists c. split; [rewrite <- E; f_equal; lia|]. rewrite <- Hc, !length_take. destruct (c =? 0); [f_equal; lia|done].
Qed.

Lemma isAllZero_made s r : ∃ b, isAllZero (length s) (s ++ r) = Some b ∧ (bytes s → ∀ k, bytes_cmp s (replicate k 0) = (if b then Z.sgn (zlen s - Z.of_nat k) else 1)).
Proof.
  induction s as [|x s IH]; cbn [length isAllZero app].
  - exists true. split; [done|]. intros _ k. destruct k; cbn; lia.
  - destruct (Z.eqb_spec x 0) as [->|Hx]; cbn [negb].
    + destruct IH as (b & -> & Hb). exists b. split; [done|]. intros Hbs k. apply bytes_cons in Hbs as (_ & Hbs). destruct k as [|k]; cbn [replicate bytes_cmp].
      * destruct b; [lia|done].
      * rewrite (Hb Hbs). destruct b; [f_equal; lia|done].
    + exists false. split; [done|]. intros Hbs k. apply bytes_cons in Hbs as (Hx' & _). destruct k as [|k]; cbn [replicate bytes_cmp]; [done|]. destruct (Z.eqb_spec x 0); [done|]. lia.
Qed.

Lemma bytes_cmp_flip a : ∀ b, bytes_cmp b a = - bytes_cmp a b.
Proof. induction a as [|x a IH]; intros [|y b]; cbn; try done. rewrite (Z.eqb_sym y x). destruct (x =? y); [apply IH|]. lia. Qed.

Lemma sgn_flip c d : Z.sgn c = - Z.sgn d ↔ Z.sgn (- c) = Z.sgn d.
Proof. lia. Qed.

(** ** Reading the record *)

Lemma rd_ptr (p : list Z) k : 0 ≤ k → p.[k] = (ptr p k).[0].
Proof.
  intros Hk. unfold ptr. unfold rd. destruct (Z.ltb_spec k 0); [lia|]. change (0 <? 0) with false. cbv iota. rewrite lookup_drop. f_equal. change (Z.to_nat 0) with 0%nat. lia.
Qed.

Lemma varint_head t : 0 ≤ t < 2 ^ 32 → ∃ b l, sqlite3PutVarint t = b :: l ∧ (t < 128 → b = t) ∧ (128 ≤ t → 128 ≤ b).
Proof.
  intros Ht. destruct (Z.ltb_spec t 128) as [Hs|Hl]; [exists t, []; rewrite small_varint by lia; split; [done|]; split; [done|lia]|].
  pose proof (getVarint32_PutVarint t [] Ht ltac:(by apply Forall_nil)) as HG. rewrite app_nil_r in HG. unfold getVarint32 in HG. destruct (sqlite3PutVarint t) as [|b l] eqn:E; [done|].
  exists b, l. split; [done|]. split; [lia|]. intros _. change ((b :: l).[0]) with (Some b) in HG. cbn [mbind option_bind] in HG. destruct (Z.ltb_spec b 128); [injection HG as -> _; lia|done].
Qed.

Section format.
Context (fmt : Z).

Lemma serialGet7_made r rest m : wf_val (VReal r) → serialGet7 (be_bytes 8 r [] ++ rest) m = Some (0, with_flags MEM_Real (with_u r m)).
Proof.
  intros (Hr & Hn). unfold serialGet7. destruct (eight_bytes r rest Hr) as (x & y & -> & -> & Hx & Hy & E8). cbn [mbind option_bind].
  rewrite Z.shiftl_mul_pow2 by done. rewrite (u64_id (x * 2 ^ 32)) by lia. rewrite u64_id by (rewrite E8; lia). by rewrite E8, Hn.
Qed.

Lemma eight_int i rest : SMALLEST_INT64 ≤ i ≤ LARGEST_INT64 →
  (x ← FOUR_BYTE_UINT (be_bytes 8 (u64 i) [] ++ rest); y ← FOUR_BYTE_UINT (ptr (be_bytes 8 (u64 i) [] ++ rest) 4); Some (i64 (Z.lor (u64 (Z.shiftl x 32)) y))) = Some i.
Proof.
  intros Hi. destruct (eight_bytes (u64 i) rest (u64_range i)) as (x & y & -> & -> & Hx & Hy & E8). cbn [mbind option_bind].
  rewrite Z.shiftl_mul_pow2 by done. rewrite (u64_id (x * 2 ^ 32)) by lia. rewrite lor_sum by lia. rewrite E8. by rewrite i64_u64.
Qed.

(** The types of integers are those from 1 to 9 but 7; each is read back. *)
Lemma decode_int i rest : wf_val (VInt i) → let t := stype fmt (VInt i) in
  vdbeRecordDecodeInt t (body fmt (VInt i) ++ rest) = Some i ∧ 1 ≤ t < 10 ∧ t ≠ 7.
Proof.
  cbn [wf_val stype body]. intros Hi. unfold vdbeRecordDecodeInt. destruct ((4 <=? fmt) && _) eqn:E.
  - apply andb_true_iff in E as (_ & E). apply orb_true_iff in E as [->%Z.eqb_eq| ->%Z.eqb_eq]; done.
  - destruct (int_size_cases i Hi) as (k & -> & Hk & Hi').
    destruct Hk as [->|[->|[->|[->|[->| ->]]]]]; cbn [Z.leb Z.eqb Z.compare Pos.compare Pos.compare_cont Pos.eqb orb Z.mul Pos.mul Z.sub Z.opp Z.add Z.pos_sub Pos.pred_double Pos.sub] in *; (split; [|lia]).
    + by apply one_byte.
    + by apply two_bytes.
    + by apply three_bytes.
    + by apply four_bytes_uint.
    + by apply six_bytes.
    + by apply eight_int.
Qed.

(** A value that may be compared: one representation, and no zeros behind bytes. *)
Definition comparable (m : sqlite3_value) : Prop :=
  valid m ∧ (has m MEM_Zero = true → n m = 0) ∧
  (has m MEM_Null = true → has m (Z.lor MEM_Int MEM_IntReal) = false ∧ has m MEM_Real = false ∧ has m MEM_Str = false ∧ has m MEM_Blob = false) ∧
  (has m MEM_Real = true → has m (Z.lor MEM_Int MEM_IntReal) = false) ∧ (has m MEM_Int = true → has m MEM_IntReal = false).

Definition coll_ok (text_enc : Z) (coll : option CollSeq) : Prop := match coll with Some c => coll_enc c = text_enc | None => True end.

Lemma text_value m : valid m → has m MEM_Null = false → has m (Z.lor MEM_Int MEM_IntReal) = false → has m MEM_Real = false → 0 ≤ n m ≤ zlen (z m) ∧ value_bytes m = Some (text_of m).
Proof.
  intros (_ & Hm) H1 H2 H3. rewrite has_lor in H2. rewrite H1, H2, H3 in Hm. destruct Hm as (_ & Hn & _). split; [done|]. unfold value_bytes. destruct (Z.leb_spec (n m) (zlen (z m))); [done|lia].
Qed.

Lemma sgn_if a b : Z.sgn (if a <? b then -1 else if b <? a then 1 else 0) = Z.sgn (a - b).
Proof. destruct (Z.ltb_spec a b), (Z.ltb_spec b a); lia. Qed.

Lemma sgn_scale a b : Z.sgn (a * UNIT - b * UNIT) = Z.sgn (a - b).
Proof. pose proof UNIT_pos. replace (a * UNIT - b * UNIT) with ((a - b) * UNIT) by ring. rewrite Z.sgn_mul, (Z.sgn_pos UNIT) by done. lia. Qed.

Lemma compare_field_made nKey1 aKey1 pKey pRhs i d1 idx1 v R P coll :
  wf_val v → comparable pRhs → bytes aKey1 → 0 ≤ idx1 → 0 ≤ d1 → nKey1 < 2 ^ 31 → d1 + zlen (body fmt v) ≤ nKey1 →
  ptr aKey1 idx1 = sqlite3PutVarint (stype fmt v) ++ R → ptr aKey1 d1 = body fmt v ++ P → 0 ≤ i < nAllField pKey → (aColl pKey).[i] = Some coll → coll_ok (key_enc pKey) coll →
  ∃ rc t, compare_field nKey1 aKey1 pKey pRhs i d1 idx1 = Some (Some (rc, t)) ∧ Z.sgn rc = val_cmp coll v (value_of pRhs) ∧ (rc = 0 → t = stype fmt v) ∧ (t = 0 ↔ v = VNull).
Proof.
  intros Hv (HVR & HZ0 & HNull & _) Hb Hidx Hd Hn Hbody Ei Ed Hi Hcoll Hok. pose proof (stype_range fmt v Hv) as Ht. pose proof (stype_null fmt v Hv) as Hnull. set (t := stype fmt v) in *.
  destruct (varint_head t Ht) as (b & l & Eb & Hb1 & Hb2). assert (Hrd : aKey1.[idx1] = Some b) by (rewrite rd_ptr, Ei, Eb by done; done).
  assert (HbR : bytes R) by (pose proof (ptr_bytes aKey1 idx1 Hb) as HH; rewrite Ei in HH; by apply bytes_app in HH as (_ & ?)).
  assert (HbP : bytes P) by (pose proof (ptr_bytes aKey1 d1 Hb) as HH; rewrite Ed in HH; by apply bytes_app in HH as (_ & ?)).
  assert (HgV : getVarint32 (ptr aKey1 idx1) = Some (t, zlen (sqlite3PutVarint t))) by (rewrite Ei; by apply getVarint32_PutVarint).
  assert (Hlarge : ∀ s, v = VText s ∨ v = VBlob s → 12 ≤ t ∧ (t - 12) / 2 = zlen s ∧ Z.odd t = (if v is VText _ then true else false)).
  { intros s [-> | ->]; unfold t; cbn [stype]; rewrite Z.odd_add_mul_2; (split; [lia|]); (split; [zdm|done]). }
  assert (Hbt : ∀ s, v = VText s ∨ v = VBlob s → 10 < b ∧ b ≠ 0) by (intros s Hs; destruct (Hlarge s Hs); destruct (Z.ltb_spec t 128); [rewrite Hb1 by done|]; lia).
  assert (Hnum : (∃ i, v = VInt i) ∨ (∃ r, v = VReal r) ∨ v = VNull → b = t ∧ t < 10).
  { intros [(j & ->)|[(r & ->)| ->]]; unfold t in *; [destruct (decode_int j [] Hv) as (_ & ? & _); rewrite Hb1 by lia; lia|cbn [stype] in *; rewrite Hb1 by lia; lia|cbn [stype] in *; rewrite Hb1 by lia; lia]. }
  unfold compare_field. destruct (has pRhs (Z.lor MEM_Int MEM_IntReal)) eqn:HI.
  - (* an integer *)
    assert (HvR : value_of pRhs = VInt (u_i pRhs)) by (unfold value_of; destruct (has pRhs MEM_Null); [by destruct (HNull eq_refl) as (? & _)|]; rewrite has_lor in HI; by rewrite HI).
    rewrite HvR, Hrd. cbn [mbind option_bind]. pose proof (i64_range (u pRhs)) as Hir. change (i64 (u pRhs)) with (u_i pRhs) in Hir. destruct v as [|j|r|s|s]; cbn [val_cmp].
    + destruct (Hnum ltac:(auto)) as (-> & Ht10). assert (t = 0) as -> by by apply Hnull. cbn. do 2 eexists. split; [done|]. by split_and!.
    + destruct (Hnum ltac:(eauto)) as (-> & Ht10). destruct (decode_int j P Hv) as (Hdec & Ht1 & Ht7). fold t in Hdec, Ht1, Ht7.
      destruct (Z.leb_spec 10 t); [lia|]. destruct (Z.eqb_spec t 0); [lia|]. destruct (Z.eqb_spec t 7); [lia|]. rewrite Ed, Hdec. cbn [mbind option_bind]. do 2 eexists. split; [done|]. split; [apply sgn_if|]. split; [done|exact Hnull].
    + destruct (Hnum ltac:(eauto)) as (-> & Ht10). change t with 7. change (10 <=? 7) with false. change (7 =? 0) with false. change (7 =? 7) with true. cbv iota. rewrite Ed. cbn [body]. rewrite serialGet7_made by done. cbn [mbind option_bind].
      change (u_r (with_flags MEM_Real (with_u r _))) with r. destruct Hv as (Hr & HN). rewrite IntFloatCompare_sgn by done. cbn [mbind option_bind]. rewrite HN. do 2 eexists. split; [done|]. split; [lia|]. by split.
    + destruct (Hbt s ltac:(auto)). destruct (Z.leb_spec 10 b); [|lia]. destruct (Z.eqb_spec b 10); [lia|]. cbn [mbind option_bind]. do 2 eexists. split; [done|]. split; [done|]. split; [done|]. by split; [lia|].
    + destruct (Hbt s ltac:(auto)). destruct (Z.leb_spec 10 b); [|lia]. destruct (Z.eqb_spec b 10); [lia|]. cbn [mbind option_bind]. do 2 eexists. split; [done|]. split; [done|]. split; [done|]. by split; [lia|].
  - destruct (has pRhs MEM_Real) eqn:HR.
    { (* a real *)
      assert (HN0 : has pRhs MEM_Null = false) by (destruct (has pRhs MEM_Null); [by destruct (HNull eq_refl) as (_ & ? & _)|done]). pose proof HI as HI'. rewrite has_lor in HI'.
      assert (HvR : value_of pRhs = VReal (u pRhs)) by (unfold value_of; by rewrite HN0, HI', HR). destruct HVR as (Hu & HVR). rewrite HN0, HI', HR in HVR.
      rewrite HvR, Hrd. cbn [mbind option_bind]. destruct v as [|j|r|s|s]; cbn [val_cmp].
      - destruct (Hnum ltac:(auto)) as (-> & Ht10). assert (t = 0) as -> by by apply Hnull. cbn. do 2 eexists. split; [done|]. by split_and!.
      - destruct (Hnum ltac:(eauto)) as (-> & Ht10). destruct (decode_int j P Hv) as (_ & Ht1 & Ht7). fold t in Ht1, Ht7.
        destruct (Z.leb_spec 10 t); [lia|]. destruct (Z.eqb_spec t 0); [lia|]. destruct (Z.eqb_spec t 7); [lia|]. rewrite Ed.
        destruct (serial_get fmt (VInt j) P (Value 0 0 0 [] (key_enc pKey) 0) Hv HbP) as (m' & Hm & Hval & _). fold t in Hm. rewrite Hm. cbn [mbind option_bind].
        assert (u_i m' = j) as -> by (unfold value_of in Hval; destruct (has m' MEM_Null); [done|]; destruct (has m' MEM_Int || has m' MEM_IntReal); [by injection Hval|]; destruct (has m' MEM_Real); [done|]; by destruct (has m' MEM_Str)).
        unfold u_r. rewrite IntFloatCompare_sgn by done. cbn [mbind option_bind]. rewrite HVR. do 2 eexists. split; [done|]. split; [lia|]. by split.
      - destruct (Hnum ltac:(eauto)) as (-> & Ht10). change t with 7. change (10 <=? 7) with false. change (7 =? 0) with false. change (7 =? 7) with true. cbv iota. rewrite Ed. cbn [body]. rewrite serialGet7_made by done. cbn [mbind option_bind].
        change (u_r (with_flags MEM_Real (with_u r _))) with r. destruct Hv as (Hr & HN). change (negb (0 =? 0)) with false. cbv iota. do 2 eexists. split; [done|]. split; [|by split].
        unfold double_lt, u_r. rewrite HN, HVR. cbn [negb andb]. apply sgn_if.
      - destruct (Hbt s ltac:(auto)). destruct (Z.leb_spec 10 b); [|lia]. destruct (Z.eqb_spec b 10); [lia|]. cbn [mbind option_bind]. do 2 eexists. split; [done|]. split; [done|]. split; [done|]. by split; [lia|].
      - destruct (Hbt s ltac:(auto)). destruct (Z.leb_spec 10 b); [|lia]. destruct (Z.eqb_spec b 10); [lia|]. cbn [mbind option_bind]. do 2 eexists. split; [done|]. split; [done|]. split; [done|]. by split; [lia|]. }
    destruct (has pRhs MEM_Null) eqn:HN.
    { (* a null *)
      destruct (HNull eq_refl) as (_ & _ & -> & ->). assert (HvR : value_of pRhs = VNull) by (unfold value_of; by rewrite HN). rewrite HvR, Hrd. cbn [mbind option_bind]. destruct v as [|j|r|s|s]; cbn [val_cmp].
      - destruct (Hnum ltac:(auto)) as (-> & Ht10). assert (t = 0) as -> by by apply Hnull. cbn. do 2 eexists. split; [done|]. by split_and!.
      - destruct (Hnum ltac:(eauto)) as (-> & Ht10). destruct (decode_int j P Hv) as (_ & Ht1 & Ht7). fold t in Ht1, Ht7. destruct (Z.eqb_spec t 0); [lia|]. destruct (Z.eqb_spec t 10); [lia|]. destruct (Z.eqb_spec t 7); [lia|].
        cbn. do 2 eexists. split; [done|]. split; [done|]. split; [done|exact Hnull].
      - destruct (Hnum ltac:(eauto)) as (-> & Ht10). change t with 7. change (7 =? 0) with false. change (7 =? 10) with false. change (7 =? 7) with true. cbv iota. cbn [orb]. rewrite Ed. cbn [body]. rewrite serialGet7_made by done.
        cbn. do 2 eexists. split; [done|]. split; [done|]. by split.
      - destruct (Hbt s ltac:(auto)). destruct (Z.eqb_spec b 0); [lia|]. destruct (Z.eqb_spec b 10); [lia|]. destruct (Z.eqb_spec b 7); [lia|]. cbn. do 2 eexists. split; [done|]. split; [done|]. split; [done|]. by split; [lia|].
      - destruct (Hbt s ltac:(auto)). destruct (Z.eqb_spec b 0); [lia|]. destruct (Z.eqb_spec b 10); [lia|]. destruct (Z.eqb_spec b 7); [lia|]. cbn. do 2 eexists. split; [done|]. split; [done|]. split; [done|]. by split; [lia|]. }
    pose proof HI as HI'. rewrite has_lor in HI'. destruct (text_value pRhs HVR HN HI HR) as (Hrn & Hrv). destruct HVR as (_ & HVR). rewrite HN, HI', HR in HVR. destruct HVR as (Hsb & _ & Hrb & Hrz).
    assert (Hsmall : (∃ i, v = VInt i) ∨ (∃ r, v = VReal r) ∨ v = VNull → t <? 12 = true) by (intros Hc; destruct (Hnum Hc); by apply Z.ltb_lt; lia).
    assert (Htext : ∀ s, v = VText s ∨ v = VBlob s → body fmt v = s) by by intros s [-> | ->].
    destruct (has pRhs MEM_Str) eqn:HS.
    + (* a string *)
      assert (HvR : value_of pRhs = VText (text_of pRhs)) by (unfold value_of; by rewrite HN, HI', HR, HS). rewrite HvR, HgV. cbn [mbind option_bind]. destruct v as [|j|r|s|s]; cbn [val_cmp].
      * rewrite Hsmall by auto. do 2 eexists. split; [done|]. split; [done|]. by split.
      * rewrite Hsmall by eauto. do 2 eexists. split; [done|]. split; [done|]. by split.
      * rewrite Hsmall by eauto. do 2 eexists. split; [done|]. split; [done|]. by split.
      * destruct (Hlarge s ltac:(auto)) as (H12 & Hlen & ->). rewrite (Htext s) in * by auto. rewrite Hlen. destruct (Z.ltb_spec t 12); [lia|]. cbn [negb]. rewrite u32_id by lia. destruct (Z.ltb_spec nKey1 (d1 + zlen s)); [lia|].
        destruct (Z.leb_spec (nAllField pKey) i); [lia|]. cbn [orb]. rewrite Hcoll. cbn [mbind option_bind]. rewrite Ed. destruct coll as [c|].
        -- unfold vdbeCompareMemString. cbn [enc with_flags with_text coll_ok] in *. rewrite Hok, Z.eqb_refl, Hrv. unfold value_bytes at 1. cbn [n z with_flags with_text]. rewrite length_app. destruct (Z.leb_spec (zlen s) (Z.of_nat (length s + length P))); [|lia].
           cbn [mbind option_bind]. rewrite Nat2Z.id, take_app_length. do 2 eexists. split; [done|]. split; [done|]. by split.
        -- destruct (memcmp_texts (s ++ P) (z pRhs) (zlen s) (n pRhs)) as (c & -> & Hc); [rewrite length_app; lia|done|]. cbn [mbind option_bind]. do 2 eexists. split; [done|]. rewrite Nat2Z.id, take_app_length in Hc. split; [exact Hc|]. by split.
      * destruct (Hlarge s ltac:(auto)) as (H12 & Hlen & ->). destruct (Z.ltb_spec t 12); [lia|]. cbn [negb]. do 2 eexists. split; [done|]. split; [done|]. by split.
    + (* a blob *)
      rewrite (Hsb eq_refl). assert (HvR : value_of pRhs = VBlob (text_of pRhs ++ (if has pRhs MEM_Zero then replicate (Z.to_nat (u_nZero pRhs)) 0 else []))) by (unfold value_of; by rewrite HN, HI', HR, HS).
      rewrite HvR, HgV. cbn [mbind option_bind]. destruct v as [|j|r|s|s]; cbn [val_cmp].
      * rewrite Hsmall by auto. cbn [orb]. do 2 eexists. split; [done|]. split; [done|]. by split.
      * rewrite Hsmall by eauto. cbn [orb]. do 2 eexists. split; [done|]. split; [done|]. by split.
      * rewrite Hsmall by eauto. cbn [orb]. do 2 eexists. split; [done|]. split; [done|]. by split.
      * destruct (Hlarge s ltac:(auto)) as (H12 & Hlen & ->). rewrite orb_true_r. do 2 eexists. split; [done|]. split; [done|]. by split.
      * destruct (Hlarge s ltac:(auto)) as (H12 & Hlen & ->). rewrite (Htext s) in * by auto. rewrite Hlen. destruct (Z.ltb_spec t 12); [lia|]. cbn [orb]. rewrite u32_id by lia. destruct (Z.ltb_spec nKey1 (d1 + zlen s)); [lia|]. rewrite Ed.
        destruct (has pRhs MEM_Zero) eqn:HZ.
        -- destruct Hrz as (_ & Hz0 & _). assert (text_of pRhs = []) as -> by (unfold text_of; by rewrite (HZ0 eq_refl)). cbn [app]. destruct (isAllZero_made s P) as (bz & E & Hz). rewrite Nat2Z.id, E. cbn [mbind option_bind].
           do 2 eexists. split; [done|]. destruct Hv as (Hvb & _). rewrite (Hz Hvb). split; [destruct bz; cbn [negb]; [f_equal; lia|done]|]. by split.
        -- rewrite app_nil_r. destruct (memcmp_texts (s ++ P) (z pRhs) (zlen s) (n pRhs)) as (c & -> & Hc); [rewrite length_app; lia|done|]. cbn [mbind option_bind]. do 2 eexists. split; [done|]. rewrite Nat2Z.id, take_app_length in Hc. split; [exact Hc|]. by split.
Qed.

(** ** The order of records *)

(** With DESC the order is reversed, and with BIGNULL a NULL is above all other values (before the reversal). *)
Definition is_null (v : val) : bool := match v with VNull => true | _ => false end.
Definition field_cmp (sortFlags : Z) (coll : option CollSeq) (a b : val) : Z :=
  let c := val_cmp coll a b in
  let c := if Z.testbit sortFlags 1 && (is_null a || is_null b) then - c else c in
  if Z.testbit sortFlags 0 then - c else c.

(** The first field that differs decides. *)
Fixpoint fields_cmp (sortFlags : list Z) (colls : list (option CollSeq)) (vs ks : list val) : Z :=
  match sortFlags, colls, vs, ks with
  | f :: sortFlags, coll :: colls, v :: vs, k :: ks =>
      if field_cmp f coll v k =? 0 then fields_cmp sortFlags colls vs ks else field_cmp f coll v k
  | _, _, _, _ => 0
  end.

(** What a comparison of a record of [vs] with the unpacked record comes to, with [ks] the values that are left of it: the sign of the first difference; if there
    is none the result for equal keys, which is noted; but a record with fewer fields is corrupt. *)
Definition outcome (sortFlags : list Z) (colls : list (option CollSeq)) (vs ks : list val) (p : UnpackedRecord) (rc : Z) (p' : UnpackedRecord) : Prop :=
  if fields_cmp sortFlags colls vs ks =? 0 then
    if (length ks <=? length vs)%nat then rc = default_rc p ∧ p' = with_eqSeen p
    else rc = 0 ∧ p' = with_errCode SQLITE_CORRUPT p
  else Z.sgn rc = fields_cmp sortFlags colls vs ks ∧ p' = p.

Lemma val_cmp_sign coll a b : Z.sgn (val_cmp coll a b) = val_cmp coll a b.
Proof.
  assert (Hb : ∀ s t, Z.sgn (bytes_cmp s t) = bytes_cmp s t) by (intros s; induction s as [|x s IH]; intros [|y t]; cbn; try done; destruct (x =? y); [done|lia]).
  destruct a, b; cbn [val_cmp]; try done; try lia. destruct coll; [lia|done].
Qed.

Lemma sort_sign_made f t rc pRhs coll v : 0 ≤ f < 4 → Z.sgn rc = val_cmp coll v (value_of pRhs) → (t = 0 ↔ v = VNull) → (has pRhs MEM_Null = is_null (value_of pRhs)) →
  Z.sgn (sort_sign f t rc pRhs) = field_cmp f coll v (value_of pRhs).
Proof.
  intros Hf Hrc Ht Hn. unfold sort_sign, field_cmp. rewrite Hn. assert ((t =? 0) = is_null v) as -> by (destruct (Z.eqb_spec t 0) as [E|E]; [by rewrite (proj1 Ht E)|destruct v; try done; by destruct E; apply Ht]).
  assert (Hc : Z.sgn (- rc) = - val_cmp coll v (value_of pRhs)) by (rewrite <- Hrc; lia). unfold KEYINFO_ORDER_BIGNULL, KEYINFO_ORDER_DESC.
  assert (f = 0 ∨ f = 1 ∨ f = 2 ∨ f = 3) as [->|[->|[->| ->]]] by lia;
    repeat match goal with
    | |- context [Z.testbit ?a ?b] => let r := eval vm_compute in (Z.testbit a b) in change (Z.testbit a b) with r
    | |- context [Z.land ?a ?b] => let r := eval vm_compute in (Z.land a b) in change (Z.land a b) with r
    end; destruct (is_null v || is_null (value_of pRhs)); cbn [b2z Z.eqb Pos.eqb negb orb andb]; lia.
Qed.

Lemma null_flag m : valid m → has m MEM_Null = is_null (value_of m).
Proof. intros _. unfold value_of. destruct (has m MEM_Null); [done|]. destruct (_ || _); [done|]. destruct (has m MEM_Real); [done|]. by destruct (has m MEM_Str). Qed.

Lemma rd_head {A} (l : list A) k x r : drop k l = x :: r → l.[Z.of_nat k] = Some x.
Proof. intros E. rewrite rd_nat. rewrite <- (Nat.add_0_r k), <- lookup_drop, E. done. Qed.
Lemma drop_tail {A} (l : list A) k x r : drop k l = x :: r → drop (S k) l = r.
Proof. intros E. replace (S k) with (k + 1)%nat by lia. rewrite <- drop_drop, E. done. Qed.

Lemma compare_loop_made aKey1 nKey1 szHdr1 p : bytes aKey1 → nKey1 < 2 ^ 31 → szHdr1 < 2 ^ 31 → Forall (coll_ok (key_enc (pKeyInfo p))) (aColl (pKeyInfo p)) → Forall (λ f, 0 ≤ f < 4) (aSortFlags (pKeyInfo p)) →
  Forall comparable (aMem p) → 0 ≤ nField p ≤ zlen (aMem p) → nField p ≤ nAllField (pKeyInfo p) → nAllField (pKeyInfo p) ≤ zlen (aColl (pKeyInfo p)) → nAllField (pKeyInfo p) ≤ zlen (aSortFlags (pKeyInfo p)) →
  ∀ vs fuel k d1 idx1 R P, vs ≠ [] → Forall wf_val vs → Z.of_nat k < nField p → (length (aMem p) ≤ fuel + k)%nat → 0 ≤ idx1 → 0 ≤ d1 →
  ptr aKey1 idx1 = types fmt vs ++ R → ptr aKey1 d1 = bodies fmt vs ++ P → idx1 + zlen (types fmt vs) = szHdr1 → d1 + zlen (bodies fmt vs) ≤ nKey1 →
  ∃ rc p', compare_loop nKey1 aKey1 fuel p szHdr1 (Z.of_nat k) d1 idx1 = Some (rc, p') ∧
    outcome (drop k (aSortFlags (pKeyInfo p))) (drop k (aColl (pKeyInfo p))) vs (map value_of (drop k (take (Z.to_nat (nField p)) (aMem p)))) p rc p'.
Proof.
  intros Hb Hn Hsz Hcolls Hflags Hms HnF HnA HlC HlF. induction vs as [|v vs IH]; intros fuel k d1 idx1 R P Hne Hwf Hk Hfuel Hidx Hd Ei Ed Hhdr Hbody; [done|]. apply Forall_cons in Hwf as (Hv & Hwf).
  destruct fuel as [|fuel]; [lia|]. cbn [compare_loop].
  assert (Hrd : ∀ A (l : list A), Z.of_nat k < zlen l → ∃ x r, drop k l = x :: r) by (intros A l Hl; destruct (drop k l) as [|x r] eqn:E; [apply (f_equal length) in E; rewrite length_drop in E; cbn in E; lia|by exists x, r]).
  destruct (Hrd _ (take (Z.to_nat (nField p)) (aMem p)) ltac:(rewrite length_take; lia)) as (m & ms & Em). destruct (Hrd _ (aSortFlags (pKeyInfo p)) ltac:(lia)) as (f & fs & Ef). destruct (Hrd _ (aColl (pKeyInfo p)) ltac:(lia)) as (coll & colls & Ec).
  assert (Hmem : (aMem p).[Z.of_nat k] = Some m). { pose proof (rd_head _ _ _ _ Em) as HH. rewrite rd_nat in *. rewrite lookup_take in HH. by case_decide. }
  assert (Hm : comparable m) by (rewrite rd_nat in Hmem; by apply (Forall_lookup_1 _ _ _ _ Hms Hmem)). pose proof (rd_head _ _ _ _ Ef) as Hf. pose proof (rd_head _ _ _ _ Ec) as Hc.
  assert (Hf4 : 0 ≤ f < 4) by (rewrite rd_nat in Hf; by apply (Forall_lookup_1 _ _ _ _ Hflags Hf)). assert (Hco : coll_ok (key_enc (pKeyInfo p)) coll) by (rewrite rd_nat in Hc; by apply (Forall_lookup_1 _ _ _ _ Hcolls Hc)).
  rewrite Hmem. cbn [mbind option_bind]. unfold types, bodies in Ei, Ed, Hhdr, Hbody. cbn [map concat] in Ei, Ed, Hhdr, Hbody. fold (types fmt vs) in Ei, Hhdr. fold (bodies fmt vs) in Ed, Hbody. rewrite <- app_assoc in Ei, Ed. rewrite length_app in Hhdr, Hbody.
  destruct (compare_field_made nKey1 aKey1 (pKeyInfo p) m (Z.of_nat k) d1 idx1 v (types fmt vs ++ R) (bodies fmt vs ++ P) coll) as (rc & t & -> & Hrc & Ht & Ht0); try done; try lia.
  cbn [mbind option_bind]. rewrite Em, Ef, Ec. unfold outcome. cbn [map fields_cmp]. pose proof (sort_sign_made f t rc m coll v Hf4 Hrc Ht0 (null_flag m (proj1 Hm))) as Hsign.
  assert (Hz : rc = 0 ↔ field_cmp f coll v (value_of m) = 0) by (rewrite <- Hsign; unfold sort_sign; destruct (negb (f =? 0)); [destruct (_ || _)|]; lia).
  destruct (Z.eqb_spec rc 0) as [E0|E0]; cbn [negb].
  2: { rewrite Hf. cbn [mbind option_bind]. destruct (Z.eqb_spec (field_cmp f coll v (value_of m)) 0) as [E|E]; [tauto|]. do 2 eexists. split; [done|]. destruct (Z.eqb_spec (field_cmp f coll v (value_of m)) 0); [done|]. by split. }
  specialize (Ht E0). subst t. rewrite (proj2 (Z.eqb_eq _ _) (proj1 Hz E0)). pose proof (stype_range fmt v Hv) as Hty. rewrite content_length by done.
  apply drop_tail in Em, Ef, Ec. replace (Z.of_nat k + 1) with (Z.of_nat (S k)) by lia. destruct (Z.eqb_spec (Z.of_nat (S k)) (nField p)) as [Elast|Emore].
  - assert (ms = []) as -> by (rewrite <- Em; apply drop_ge; rewrite length_take; lia). assert (fields_cmp fs colls vs [] = 0) as E by (by destruct fs, colls, vs). cbn [map]. rewrite E. do 2 eexists. split; [done|]. cbn. by split.
  - rewrite u32_id by lia. destruct (Z.ltb_spec nKey1 (d1 + zlen (body fmt v))); [lia|]. rewrite VarintLen_len by lia. rewrite u32_id by lia.
    destruct vs as [|v' vs'].
    + destruct (Z.leb_spec szHdr1 (idx1 + zlen (sqlite3PutVarint (stype fmt v)))); [|cbn in Hhdr; lia]. assert (fields_cmp fs colls [] (map value_of ms) = 0) as -> by (by destruct fs, colls, (map value_of ms)).
      do 2 eexists. split; [done|]. destruct ms as [|m2 ms]; [exfalso; apply (f_equal length) in Em; rewrite length_drop, length_take in Em; cbn in Em; lia|]. by split.
    + assert (Hty2 : 1 ≤ zlen (types fmt (v' :: vs'))). { apply Forall_cons in Hwf as (Hv' & _). unfold types. cbn [map concat]. rewrite length_app. pose proof (stype_range fmt v' Hv'). pose proof (VarintLen_correct (stype fmt v') ltac:(lia)). lia. }
      destruct (Z.leb_spec szHdr1 (idx1 + zlen (sqlite3PutVarint (stype fmt v)))); [lia|].
      destruct (IH fuel (S k) (d1 + zlen (body fmt v)) (idx1 + zlen (sqlite3PutVarint (stype fmt v))) R P) as (rc' & p' & -> & HO); try done; try lia.
      { by apply ptr_app with (1 := Hidx). } { by apply ptr_app with (1 := Hd). }
      do 2 eexists. split; [done|]. rewrite Em, Ef, Ec in HO. unfold outcome in HO. exact HO.
Qed.

(** ** The routines on a record *)

(** A key and its description. *)
Record key_ok (p : UnpackedRecord) : Prop := KeyOk {
  ko_colls : Forall (coll_ok (key_enc (pKeyInfo p))) (aColl (pKeyInfo p)); ko_flags : Forall (λ f, 0 ≤ f < 4) (aSortFlags (pKeyInfo p));
  ko_mem : Forall comparable (aMem p); ko_field : 0 < nField p ≤ zlen (aMem p); ko_all : nField p ≤ nAllField (pKeyInfo p);
  ko_len : nAllField (pKeyInfo p) ≤ zlen (aColl (pKeyInfo p)) ∧ nAllField (pKeyInfo p) ≤ zlen (aSortFlags (pKeyInfo p)) }.

Definition key_values (p : UnpackedRecord) : list val := map value_of (take (Z.to_nat (nField p)) (aMem p)).
Definition compares (vs : list val) (p : UnpackedRecord) (r : option (Z * UnpackedRecord)) : Prop :=
  ∃ rc p', r = Some (rc, p') ∧ outcome (aSortFlags (pKeyInfo p)) (aColl (pKeyInfo p)) vs (key_values p) p rc p'.

Section record.
Context (vs : list val) (rest : list Z) (Hvs : vs ≠ []) (Hwf : Forall wf_val vs) (Hlen : zlen vs ≤ 2 ^ 16) (Hrest : bytes rest) (Hsize : zlen (record fmt vs) < 2 ^ 31).
Let aKey1 : list Z := record fmt vs ++ rest.
Let nKey1 : Z := zlen (record fmt vs).

Lemma record_compare_made p : key_ok p → compares vs p (sqlite3VdbeRecordCompare nKey1 aKey1 p).
Proof.
  intros [K1 K2 K3 K4 K5 K6]. destruct (record_parts fmt vs rest Hwf Hlen Hrest Hsize) as (Hb & Hg & H1 & Hhs & Ht & Hbd & HL). fold aKey1 in Hb, Hg, Ht, Hbd. fold nKey1 in HL.
  unfold sqlite3VdbeRecordCompare, sqlite3VdbeRecordCompareWithSkip. unfold getVarint32 in Hg. destruct (aKey1.[0]) as [b0|]; [|done]. cbn [mbind option_bind] in *.
  rewrite Hg. cbn [mbind option_bind]. destruct (Z.ltb_spec nKey1 (zlen (header fmt vs) + zlen (types fmt vs))); [lia|].
  destruct (compare_loop_made aKey1 nKey1 (zlen (header fmt vs) + zlen (types fmt vs)) p Hb ltac:(lia) ltac:(lia) K1 K2 K3 ltac:(lia) K5 (proj1 K6) (proj2 K6) vs (length (aMem p)) 0%nat (zlen (header fmt vs) + zlen (types fmt vs)) (zlen (header fmt vs)) (bodies fmt vs ++ rest) rest)
    as (rc & p' & E & HO); try done; try lia. exists rc, p'. split; [exact E|]. by rewrite !drop_0 in HO.
Qed.

(** The fast routines: short headers, and no field is missing. *)
Context (Hshort : zlen vs ≤ 13).

Lemma short_parts v vs' : vs = v :: vs' → ∃ h b l, aKey1.[0] = Some h ∧ h < 128 ∧ h = 1 + zlen (types fmt vs) ∧ aKey1.[1] = Some b ∧ sqlite3PutVarint (stype fmt v) = b :: l ∧ (stype fmt v < 128 → b = stype fmt v) ∧ (128 ≤ stype fmt v → 128 ≤ b < 256) ∧
  ptr aKey1 1 = sqlite3PutVarint (stype fmt v) ++ types fmt vs' ++ bodies fmt vs ++ rest ∧ ptr aKey1 h = body fmt v ++ bodies fmt vs' ++ rest ∧ bytes aKey1 ∧ (stype fmt v < 128 → h ≤ 62) ∧ nKey1 = h + zlen (bodies fmt vs) ∧
  bytes (bodies fmt vs' ++ rest).
Proof.
  intros E. destruct (record_parts fmt vs rest Hwf Hlen Hrest Hsize) as (Hb & Hg & H1 & Hhs & Ht & Hbd & HL). fold aKey1 in Hb, Hg, Ht, Hbd. fold nKey1 in HL. pose proof (types_length fmt vs Hwf) as HT.
  assert (Hv : wf_val v) by (rewrite E in Hwf; by apply Forall_cons in Hwf as (? & _)). assert (Hwf' : Forall wf_val vs') by (rewrite E in Hwf; by apply Forall_cons in Hwf as (_ & ?)). pose proof (stype_range fmt v Hv) as Hty. destruct (varint_head _ Hty) as (b & l & Eb & Hb1 & Hb2).
  assert (Etypes : types fmt vs = sqlite3PutVarint (stype fmt v) ++ types fmt vs') by by rewrite E. assert (Ebodies : bodies fmt vs = body fmt v ++ bodies fmt vs') by by rewrite E.
  destruct (header_size_len (zlen (types fmt vs)) ltac:(lia)) as (Hh & _). assert (H128 : header_size (zlen (types fmt vs)) < 128) by (unfold header_size; destruct (Z.leb_spec (zlen (types fmt vs)) 126); lia).
  assert (Ehdr : header fmt vs = [header_size (zlen (types fmt vs))]) by (unfold header; rewrite small_varint by lia; done). rewrite Ehdr in *. cbn [length] in *. change (Z.of_nat 1) with 1 in *.
  assert (E0 : aKey1.[0] = Some (1 + zlen (types fmt vs))) by (unfold aKey1, record; rewrite Ehdr, Hhs; done).
  assert (E1 : aKey1.[1] = Some b) by (rewrite rd_ptr, Ht, Etypes, Eb by done; done). exists (1 + zlen (types fmt vs)), b, l. split_and!; try done.
  - lia.
  - intros H. split; [by apply Hb2|]. pose proof (bytes_rd _ _ _ Hb E1). lia.
  - rewrite Ht, Etypes. by rewrite <- app_assoc.
  - rewrite Hbd, Ebodies. by rewrite <- app_assoc.
  - intros Hs. rewrite Etypes, length_app, small_varint by lia. pose proof (types_length fmt vs' Hwf'). rewrite E in Hshort. cbn [length] in *. lia.
  - pose proof (ptr_bytes aKey1 (1 + zlen (types fmt vs)) Hb) as HH. rewrite Hbd, Ebodies, <- app_assoc in HH. by apply bytes_app in HH as (_ & ?).
Qed.

(** The first fields are equal; the others are compared by the general routine. *)
Lemma skip_made p v vs' : key_ok p → vs = v :: vs' → nField p ≤ zlen vs → 1 < nField p →
  ∃ rc p', sqlite3VdbeRecordCompareWithSkip nKey1 aKey1 p true = Some (rc, p') ∧
    outcome (drop 1 (aSortFlags (pKeyInfo p))) (drop 1 (aColl (pKeyInfo p))) vs' (map value_of (drop 1 (take (Z.to_nat (nField p)) (aMem p)))) p rc p'.
Proof.
  intros [K1 K2 K3 K4 K5 K6] E Hfew H1. destruct (short_parts v vs' E) as (h & b & l & E0 & H128 & Eh & E1 & Eb & Hb1 & Hb2 & P1 & Ph & Hb & _ & HL & HB).
  assert (Hv : wf_val v) by (rewrite E in Hwf; by apply Forall_cons in Hwf as (? & _)). assert (Hwf' : Forall wf_val vs') by (rewrite E in Hwf; by apply Forall_cons in Hwf as (_ & ?)). pose proof (stype_range fmt v Hv) as Hty.
  unfold sqlite3VdbeRecordCompareWithSkip. rewrite E1. cbn [mbind option_bind]. pose proof (ptr_bytes aKey1 1 Hb) as Hb1'. rewrite P1 in Hb1'. apply bytes_app in Hb1' as (_ & Hb1').
  assert (Hs1 : (if b <? 128 then Some (b, 2) else '(s1, m) ← sqlite3GetVarint32 (ptr aKey1 1); Some (s1, 1 + m)) = Some (stype fmt v, 1 + zlen (sqlite3PutVarint (stype fmt v)))).
  { pose proof (getVarint32_PutVarint (stype fmt v) _ Hty Hb1') as HG. rewrite <- P1 in HG. unfold getVarint32 in HG. rewrite <- rd_ptr, E1 in HG by done. cbn [mbind option_bind] in HG. destruct (b <? 128); [by injection HG as <- <-|]. rewrite HG. done. }
  rewrite Hs1. cbn [mbind option_bind]. rewrite E0. cbn [mbind option_bind]. rewrite content_length by done. assert (Ebodies : bodies fmt vs = body fmt v ++ bodies fmt vs') by by rewrite E. rewrite Ebodies, length_app in HL. rewrite u32_id by lia.
  destruct (Z.ltb_spec nKey1 (h + zlen (body fmt v))); [lia|]. assert (Etypes : types fmt vs = sqlite3PutVarint (stype fmt v) ++ types fmt vs') by by rewrite E. rewrite Etypes, length_app in Eh.
  destruct (compare_loop_made aKey1 nKey1 h p Hb ltac:(lia) ltac:(lia) K1 K2 K3 ltac:(lia) K5 (proj1 K6) (proj2 K6) vs' (length (aMem p)) 1%nat (h + zlen (body fmt v)) (1 + zlen (sqlite3PutVarint (stype fmt v))) (bodies fmt vs ++ rest) rest) as (rc & p' & EC & HO); try done; try lia.
  { destruct vs'; [|done]. rewrite E in Hfew. cbn in Hfew. lia. } { by apply (ptr_app _ 1) in P1; [|lia]. } { by apply (ptr_app _ h) in Ph; [|lia]. }
  exists rc, p'. split; [exact EC|exact HO].
Qed.

Lemma outcome_differs f fs c cs v vs' k ks p rc : field_cmp f c v k ≠ 0 → Z.sgn rc = field_cmp f c v k → outcome (f :: fs) (c :: cs) (v :: vs') (k :: ks) p rc p.
Proof. intros Hd Hs. unfold outcome. cbn [fields_cmp]. destruct (Z.eqb_spec (field_cmp f c v k) 0); [done|]. destruct (Z.eqb_spec (field_cmp f c v k) 0); [done|]. by split. Qed.

Lemma outcome_same f fs c cs v vs' k ks p rc p' : field_cmp f c v k = 0 → outcome fs cs vs' ks p rc p' → outcome (f :: fs) (c :: cs) (v :: vs') (k :: ks) p rc p'.
Proof. intros Hd HO. unfold outcome in *. cbn [fields_cmp]. rewrite Hd. exact HO. Qed.

(** What [sqlite3VdbeFindCompare] prepares, with [k0] the first value of the key. *)
Lemma key_head p : key_ok p → ∃ m ms f fs c cs, aMem p = m :: ms ∧ aSortFlags (pKeyInfo p) = f :: fs ∧ aColl (pKeyInfo p) = c :: cs ∧ comparable m ∧ 0 ≤ f < 4 ∧
  key_values p = value_of m :: map value_of (drop 1 (take (Z.to_nat (nField p)) (aMem p))).
Proof.
  intros [K1 K2 K3 K4 K5 K6]. unfold key_values. destruct (aMem p) as [|m ms]; [cbn in K4; lia|]. destruct (aSortFlags (pKeyInfo p)) as [|f fs]; [cbn in K6; lia|]. destruct (aColl (pKeyInfo p)) as [|c cs]; [cbn in K6; lia|].
  apply Forall_cons in K3 as (Hm & _). apply Forall_cons in K2 as (Hf & _). do 6 eexists. split; [done|]. split; [done|]. split; [done|]. split; [done|]. split; [done|].
  destruct (Z.to_nat (nField p)) as [|k] eqn:E; [lia|]. done.
Qed.

(** The values to return for a first field that is smaller or greater. *)
Lemma first_differs f c v k res : f = 0 ∨ f = 1 → val_cmp c v k ≠ 0 → res = (if val_cmp c v k <? 0 then (if f =? 0 then -1 else 1) else (if f =? 0 then 1 else -1)) →
  field_cmp f c v k ≠ 0 ∧ Z.sgn res = field_cmp f c v k.
Proof.
  intros Hf Hd ->. pose proof (val_cmp_sign c v k) as Hs. unfold field_cmp. destruct Hf as [-> | ->]; cbn; destruct (Z.ltb_spec (val_cmp c v k) 0); cbn; lia.
Qed.

(** The first fields are equal. *)
Lemma first_equal p v vs' f : key_ok p → vs = v :: vs' → nField p ≤ zlen vs → (∃ fs, aSortFlags (pKeyInfo p) = f :: fs) → f = 0 ∨ f = 1 →
  (∀ c cs m ms, aColl (pKeyInfo p) = c :: cs → aMem p = m :: ms → val_cmp c v (value_of m) = 0) →
  compares vs p (if 1 <? nField p then sqlite3VdbeRecordCompareWithSkip nKey1 aKey1 p true else Some (default_rc p, with_eqSeen p)).
Proof.
  intros HK E Hfew (fs & Ef) Hf Heq. destruct (key_head p HK) as (m & ms & f' & fs' & c & cs & Em & Ef' & Ec & Hm & Hf' & Ek). rewrite Ef in Ef'. injection Ef' as <- <-. specialize (Heq _ _ _ _ Ec Em).
  assert (H0 : field_cmp f c v (value_of m) = 0) by (unfold field_cmp; rewrite Heq; destruct (_ && _), (Z.testbit f 0); lia). unfold compares. rewrite Ek, Ef, Ec, E. destruct (Z.ltb_spec 1 (nField p)) as [H1|H1].
  - destruct (skip_made p v vs' HK E Hfew H1) as (rc & p' & ES & HO). exists rc, p'. split; [exact ES|]. rewrite Ef, Ec in HO. by apply outcome_same.
  - do 2 eexists. split; [done|]. apply outcome_same; [done|]. rewrite drop_ge by (rewrite length_take; lia). unfold outcome. cbn [map]. assert (fields_cmp fs cs vs' [] = 0) as -> by (by destruct fs, cs, vs'). cbn. done.
Qed.

Lemma compare_int_made p i : key_ok p → nField p ≤ zlen vs → cache p = inl i → (∃ m ms, aMem p = m :: ms ∧ value_of m = VInt i) →
  (∃ f fs, aSortFlags (pKeyInfo p) = f :: fs ∧ (f = 0 ∨ f = 1) ∧ r1 p = (if f =? 0 then -1 else 1) ∧ r2 p = (if f =? 0 then 1 else -1)) → compares vs p (vdbeRecordCompareInt nKey1 aKey1 p).
Proof.
  intros HK Hfew Hcache (m & ms & Em & Hvm) (f & fs & Ef & Hf & Hr1 & Hr2). assert (∃ v vs', vs = v :: vs') as (v & vs' & Evs) by (destruct vs; [done|eauto]). destruct (short_parts v vs' Evs) as (h & b & l & E0 & H128 & Eh & E1 & Eb & Hb1 & Hb2 & P1 & Ph & Hb & H62 & HL & HB).
  assert (Hv : wf_val v) by (rewrite Evs in Hwf; by apply Forall_cons in Hwf as (? & _)). pose proof (types_length fmt vs Hwf) as HT. pose proof (stype_range fmt v Hv) as Hty.
  assert (Hother : (∀ j, v ≠ VInt j) → ¬ (1 ≤ b ≤ 6 ∨ b = 8 ∨ b = 9)).
  { intros Hno Hc. destruct (Z.ltb_spec (stype fmt v) 128); [rewrite Hb1 in Hc by done|specialize (Hb2 ltac:(done)); lia]. destruct v as [|j|r|s|s]; cbn [stype] in Hc; try lia. by destruct (Hno j). }
  unfold vdbeRecordCompareInt. rewrite E0, E1. cbn [mbind option_bind]. destruct v as [|j|r|s|s].
  2: { (* an integer *)
    destruct (decode_int j (bodies fmt vs' ++ rest) Hv) as (Hdec & Ht & Ht7). set (t := stype fmt (VInt j)) in *. rewrite (Hb1 ltac:(lia)) in *. assert (Hland : Z.land h 0x3f = h) by (change 0x3f with (Z.ones 6); rewrite Z.land_ones by done; apply Z.mod_small; specialize (H62 ltac:(lia)); lia).
    rewrite Hland, Ph. set (q := body fmt (VInt j) ++ bodies fmt vs' ++ rest) in *. unfold vdbeRecordDecodeInt in Hdec.
    match goal with |- compares vs p (lhs ← ?X; _) => assert (HX : X = Some (Some j)) end.
    { assert (t = 1 ∨ t = 2 ∨ t = 3 ∨ t = 4 ∨ t = 5 ∨ t = 6 ∨ t = 8 ∨ t = 9) as Hc by lia. destruct Hc as [Hc|[Hc|[Hc|[Hc|[Hc|[Hc|[Hc|Hc]]]]]]]; rewrite Hc in *; cbn [Z.eqb Pos.eqb orb] in *.
      - by rewrite Hdec. - by rewrite Hdec. - by rewrite Hdec.
      - apply bind_Some in Hdec as (y & -> & Hdec). cbn [mbind option_bind]. by injection Hdec as ->.
      - apply bind_Some in Hdec as (x & -> & Hdec). apply bind_Some in Hdec as (y & -> & Hdec). cbn [mbind option_bind]. by injection Hdec as ->.
      - apply bind_Some in Hdec as (x & -> & Hdec). apply bind_Some in Hdec as (y & -> & Hdec). cbn [mbind option_bind]. by injection Hdec as ->.
      - injection Hdec as <-. done. - injection Hdec as <-. done. }
    rewrite HX. cbn [mbind option_bind]. rewrite Hcache. destruct (key_head p HK) as (m' & ms' & f' & fs' & c & cs & Em' & Ef' & Ec & Hm & Hf' & Ek). rewrite Em in Em'. injection Em' as <- <-. rewrite Ef in Ef'. injection Ef' as <- <-.
    assert (Hcmp : val_cmp c (VInt j) (value_of m) = Z.sgn (j - i)) by by rewrite Hvm.
    destruct (Z.ltb_spec j i); [|destruct (Z.ltb_spec i j)].
    - destruct (first_differs f c (VInt j) (value_of m) (r1 p) Hf) as (Hd & Hs); [rewrite Hcmp; lia|rewrite Hr1, Hcmp; destruct (Z.ltb_spec (Z.sgn (j - i)) 0); [done|lia]|].
      do 2 eexists. split; [done|]. rewrite Ek, Ef, Ec, Evs. by apply outcome_differs.
    - destruct (first_differs f c (VInt j) (value_of m) (r2 p) Hf) as (Hd & Hs); [rewrite Hcmp; lia|rewrite Hr2, Hcmp; destruct (Z.ltb_spec (Z.sgn (j - i)) 0); [lia|done]|].
      do 2 eexists. split; [done|]. rewrite Ek, Ef, Ec, Evs. by apply outcome_differs.
    - apply (first_equal p (VInt j) vs' f HK Evs Hfew); [by exists fs|done|]. intros c' cs' m' ms' _ E'. rewrite Em in E'. injection E' as <- <-. rewrite Hvm. cbn. lia. }
  all: specialize (Hother ltac:(done)); repeat (case_cmp; [lia|]); cbn [mbind option_bind]; by apply record_compare_made.
Qed.

Lemma compare_string_made p s n0 : key_ok p → nField p ≤ zlen vs → cache p = inr s → cache_n p = n0 → 0 ≤ n0 ≤ zlen s → (∃ m ms, aMem p = m :: ms ∧ value_of m = VText (take (Z.to_nat n0) s)) → (∃ cs, aColl (pKeyInfo p) = None :: cs) →
  (∃ f fs, aSortFlags (pKeyInfo p) = f :: fs ∧ (f = 0 ∨ f = 1) ∧ r1 p = (if f =? 0 then -1 else 1) ∧ r2 p = (if f =? 0 then 1 else -1)) → compares vs p (vdbeRecordCompareString nKey1 aKey1 p).
Proof.
  intros HK Hfew Hcache Hcn Hn0 (m & ms & Em & Hvm) (cs & Ec) (f & fs & Ef & Hf & Hr1 & Hr2). assert (∃ v vs', vs = v :: vs') as (v & vs' & Evs) by (destruct vs; [done|eauto]).
  destruct (short_parts v vs' Evs) as (h & b & l & E0 & H128 & Eh & E1 & Eb & Hb1 & Hb2 & P1 & Ph & Hb & H62 & HL & HB).
  assert (Hv : wf_val v) by (rewrite Evs in Hwf; by apply Forall_cons in Hwf as (? & _)). pose proof (types_length fmt vs Hwf) as HT. pose proof (stype_range fmt v Hv) as Hty.
  assert (H31 : stype fmt v < 2 ^ 31). { destruct v as [|j|r|q|q]; cbn [stype wf_val] in *; [lia| |lia|lia|lia]. destruct (decode_int j [] Hv) as (_ & ? & _). cbn [stype] in *. lia. }
  destruct (key_head p HK) as (m' & ms' & f' & fs' & c & cs' & Em' & Ef' & Ec' & Hm & Hf' & Ek). rewrite Em in Em'. injection Em' as <- <-. rewrite Ef in Ef'. injection Ef' as <- <-. rewrite Ec in Ec'. injection Ec' as <- <-.
  unfold vdbeRecordCompareString. rewrite E1. cbn [mbind option_bind]. pose proof (ptr_bytes aKey1 1 Hb) as Hb1'. rewrite P1 in Hb1'. apply bytes_app in Hb1' as (_ & Hb1').
  assert (Hs : (if i8 b <? 0 then '(s, _) ← sqlite3GetVarint32 (ptr aKey1 1); Some (i32 s) else Some (i8 b)) = Some (stype fmt v)).
  { pose proof (getVarint32_PutVarint (stype fmt v) _ Hty Hb1') as HG. rewrite <- P1 in HG. unfold getVarint32 in HG. rewrite <- rd_ptr, E1 in HG by done. cbn [mbind option_bind] in HG. pose proof (bytes_rd _ _ _ Hb E1) as Hbr.
    rewrite i8_byte by done. destruct (Z.ltb_spec b 128) as [Hs|Hs].
    - destruct (Z.ltb_spec b 0); [lia|]. by injection HG as <- _.
    - destruct (Z.ltb_spec (b - 256) 0); [|lia]. rewrite HG. cbn [mbind option_bind]. by rewrite i32_id by lia. }
  rewrite Hs. cbn [mbind option_bind]. unfold compares. rewrite Ek, Ef, Ec.
  assert (Hless : val_cmp None v (value_of m) < 0 → ∃ rc p', Some (r1 p, p) = Some (rc, p') ∧ outcome (f :: fs) (None :: cs) vs (value_of m :: map value_of (drop 1 (take (Z.to_nat (nField p)) (aMem p)))) p rc p').
  { intros Hlt. destruct (first_differs f None v (value_of m) (r1 p) Hf) as (Hd & Hsg); [lia|rewrite Hr1; by destruct (Z.ltb_spec (val_cmp None v (value_of m)) 0); [|lia]|]. do 2 eexists. split; [done|]. rewrite Evs. by apply outcome_differs. }
  assert (Hmore : 0 < val_cmp None v (value_of m) → ∃ rc p', Some (r2 p, p) = Some (rc, p') ∧ outcome (f :: fs) (None :: cs) vs (value_of m :: map value_of (drop 1 (take (Z.to_nat (nField p)) (aMem p)))) p rc p').
  { intros Hlt. destruct (first_differs f None v (value_of m) (r2 p) Hf) as (Hd & Hsg); [lia|rewrite Hr2; by destruct (Z.ltb_spec (val_cmp None v (value_of m)) 0); [lia|]|]. do 2 eexists. split; [done|]. rewrite Evs. by apply outcome_differs. }
  assert (Hsmall : (∃ i, v = VInt i) ∨ (∃ r, v = VReal r) ∨ v = VNull → stype fmt v <? 12 = true ∧ val_cmp None v (value_of m) < 0).
  { rewrite Hvm. intros [(j & ->)|[(r & ->)| ->]]; (split; [|done]); [|done|done]. destruct (decode_int j [] Hv) as (_ & ? & _). apply Z.ltb_lt. lia. }
  destruct v as [|j|r|q|q].
  - destruct (Hsmall ltac:(auto)) as (-> & ?). by apply Hless.
  - destruct (Hsmall ltac:(eauto)) as (-> & ?). by apply Hless.
  - destruct (Hsmall ltac:(eauto)) as (-> & ?). by apply Hless.
  - cbn [stype body] in *. destruct (Z.ltb_spec (13 + 2 * zlen q) 12); [lia|]. rewrite Z.odd_add_mul_2. change (negb (Z.odd 13)) with false. cbv iota. rewrite E0. cbn [mbind option_bind].
    assert ((13 + 2 * zlen q - 12) / 2 = zlen q) as -> by zdm. assert (Ebodies : bodies fmt vs = q ++ bodies fmt vs') by by rewrite Evs. rewrite Ebodies, length_app in HL. destruct (Z.ltb_spec nKey1 (h + zlen q)); [lia|].
    rewrite Hcache, Hcn, Ph. destruct (memcmp_texts (q ++ bodies fmt vs' ++ rest) s (zlen q) n0) as (c & Emc & Hc); [rewrite length_app; lia|done|]. rewrite Z.min_comm, Emc. cbn [mbind option_bind]. rewrite Nat2Z.id, take_app_length in Hc.
    assert (Hcmp : val_cmp None (VText q) (value_of m) = Z.sgn (if c =? 0 then zlen q - n0 else c)) by (rewrite Hvm; cbn [val_cmp]; by rewrite Hc).
    destruct (Z.ltb_spec 0 c); [apply Hmore; rewrite Hcmp; destruct (Z.eqb_spec c 0); lia|]. destruct (Z.ltb_spec c 0); [apply Hless; rewrite Hcmp; destruct (Z.eqb_spec c 0); lia|]. assert (c = 0) as -> by lia. cbn [Z.eqb] in Hcmp.
    destruct (Z.eqb_spec (zlen q - n0) 0) as [E|E].
    + pose proof (first_equal p (VText q) vs' f HK Evs Hfew ltac:(by exists fs) Hf) as HE. unfold compares in HE. rewrite Ek, Ef, Ec in HE. apply HE. intros c' cs' m' ms' Ec' Em'. injection Ec' as <- <-. rewrite Em in Em'. injection Em' as <- <-. rewrite Hcmp, E. done.
    + destruct (Z.ltb_spec 0 (zlen q - n0)); [apply Hmore|apply Hless]; rewrite Hcmp; lia.
  - cbn [stype] in *. destruct (Z.ltb_spec (12 + 2 * zlen q) 12); [lia|]. rewrite Z.odd_add_mul_2. change (negb (Z.odd 12)) with true. cbv iota. apply Hmore. by rewrite Hvm.
Qed.

Lemma find_compare_made p : key_ok p → nField p ≤ zlen vs → zlen vs ≤ nAllField (pKeyInfo p) → nAllField (pKeyInfo p) ≤ 13 →
  ∃ f p1, sqlite3VdbeFindCompare p = Some (f, p1) ∧ key_ok p1 ∧ key_values p1 = key_values p ∧ pKeyInfo p1 = pKeyInfo p ∧ default_rc p1 = default_rc p ∧ compares vs p1 (call f nKey1 aKey1 p1).
Proof.
  intros HK Hfew Hmany H13. unfold sqlite3VdbeFindCompare. destruct (Z.leb_spec (nAllField (pKeyInfo p)) 13); [|lia]. destruct (key_head p HK) as (m & ms & f & fs & c & cs & Em & Ef & Ec & Hm & Hf & Ek).
  rewrite Em, Ef. change ((m :: ms).[0]) with (Some m). change ((f :: fs).[0]) with (Some f). cbn [mbind option_bind].
  assert (HUSE : ∀ q, key_ok q → key_values q = key_values p → pKeyInfo q = pKeyInfo p → default_rc q = default_rc p → ∃ f p1, Some (UseCompare, q) = Some (f, p1) ∧ key_ok p1 ∧ key_values p1 = key_values p ∧ pKeyInfo p1 = pKeyInfo p ∧ default_rc p1 = default_rc p ∧ compares vs p1 (call f nKey1 aKey1 p1)).
  { intros q Hq E1 E2 E3. do 2 eexists. split; [done|]. split; [done|]. split; [done|]. split; [done|]. split; [done|]. cbn [call]. by apply record_compare_made. }
  destruct (negb (f =? 0) && negb (Z.land f KEYINFO_ORDER_BIGNULL =? 0)) eqn:Ebig; [by apply HUSE|].
  assert (Hf01 : f = 0 ∨ f = 1) by (assert (f = 0 ∨ f = 1 ∨ f = 2 ∨ f = 3) as [->|[->|[->| ->]]] by lia; [by left|by right|done|done]).
  set (q := if negb (f =? 0) then with_r 1 (-1) p else with_r (-1) 1 p). assert (Hq : pKeyInfo q = pKeyInfo p ∧ aMem q = aMem p ∧ nField q = nField p ∧ default_rc q = default_rc p ∧ r1 q = (if f =? 0 then -1 else 1) ∧ r2 q = (if f =? 0 then 1 else -1)) by (unfold q; by destruct (f =? 0)).
  clearbody q. destruct Hq as (Q1 & Q2 & Q3 & Q4 & Q5 & Q6). assert (HKq : ∀ x k, key_ok (with_cache x k q)) by (intros x k; destruct HK; split; cbn [pKeyInfo aMem nField with_cache]; by rewrite ?Q1, ?Q2, ?Q3).
  assert (HKq0 : key_ok q) by (destruct HK; split; by rewrite ?Q1, ?Q2, ?Q3). assert (HVq : key_values q = key_values p) by (unfold key_values; by rewrite Q2, Q3).
  destruct Hm as (Hm1 & Hm2 & Hm3 & Hm4 & Hm5). destruct (has m MEM_Int) eqn:HI.
  { do 2 eexists. split; [done|]. split; [apply HKq|]. split; [exact HVq|]. split; [exact Q1|]. split; [exact Q4|]. cbn [call]. apply (compare_int_made _ (u_i m)); [apply HKq|cbn [nField with_cache]; lia|done| |].
    - exists m, ms. cbn [aMem with_cache]. split; [by rewrite Q2|]. unfold value_of. rewrite HI. destruct (has m MEM_Null); [|done]. destruct (Hm3 eq_refl) as (HH & _). rewrite has_lor, HI in HH. done.
    - exists f, fs. cbn [pKeyInfo r1 r2 with_cache]. by rewrite Q1. }
  destruct (negb (has m _)) eqn:Hno; [|by apply HUSE]. rewrite Q1, Ec. change ((c :: cs).[0]) with (Some c). cbn [mbind option_bind]. destruct c as [c|]; [by apply HUSE|].
  rewrite !has_lor in Hno. apply negb_true_iff, orb_false_iff in Hno as (HR & (HIR & (HN & HB)%orb_false_iff)%orb_false_iff).
  assert (HS : has m MEM_Str = true). { destruct Hm1 as (_ & Hm1). rewrite HN, HI, HIR, HR in Hm1. cbn [orb] in Hm1. destruct Hm1 as (Hsb & _). destruct (has m MEM_Str); [done|]. by rewrite Hsb in HB. }
  destruct (text_value m Hm1 HN ltac:(by rewrite has_lor, HI, HIR) HR) as (Hnz & _).
  do 2 eexists. split; [done|]. split; [apply HKq|]. split; [exact HVq|]. split; [exact Q1|]. split; [exact Q4|]. cbn [call]. apply (compare_string_made _ (z m) (n m)); [apply HKq|cbn [nField with_cache]; lia|done|done|done| | |].
  - exists m, ms. cbn [aMem with_cache]. split; [by rewrite Q2|]. unfold value_of. by rewrite HN, HI, HIR, HR, HS.
  - exists cs. cbn [pKeyInfo with_cache]. by rewrite Q1.
  - exists f, fs. cbn [pKeyInfo r1 r2 with_cache]. by rewrite Q1.
Qed.
End record.
End format.

(** ** Values in memory *)

Lemma has_land a b f : f = 2 ^ Z.log2 f → 0 < f → negb (Z.land (Z.land (flags a) (flags b)) f =? 0) = has a f && has b f.
Proof.
  intros Hf H0. unfold has. assert (HB : ∀ x, negb (Z.land x f =? 0) = Z.testbit x (Z.log2 f)).
  { intros x. rewrite Hf at 1. pose proof (Z.log2_nonneg f) as Hl. assert (E : Z.land x (2 ^ Z.log2 f) = if Z.testbit x (Z.log2 f) then 2 ^ Z.log2 f else 0).
    { apply Z.bits_inj'. intros i Hi. rewrite Z.land_spec. rewrite Z.pow2_bits_eqb by done. destruct (Z.eqb_spec (Z.log2 f) i) as [<-|Hne].
      - destruct (Z.testbit x (Z.log2 f)); [by rewrite Z.pow2_bits_true|by rewrite Z.bits_0].
      - rewrite andb_false_r. destruct (Z.testbit x (Z.log2 f)); [by rewrite Z.pow2_bits_false|by rewrite Z.bits_0]. }
    rewrite E. destruct (Z.testbit x (Z.log2 f)); [|done]. rewrite <- Hf. by destruct (Z.eqb_spec f 0); [lia|]. }
  rewrite !HB. apply Z.land_spec.
Qed.

Inductive shape (m : sqlite3_value) : val → Prop :=
| ShNull : has m MEM_Null = true → shape m VNull
| ShInt : has m MEM_Null = false → has m (Z.lor MEM_Int MEM_IntReal) = true → has m MEM_Real = false → shape m (VInt (u_i m))
| ShReal : has m MEM_Null = false → has m (Z.lor MEM_Int MEM_IntReal) = false → has m MEM_Real = true → wf_val (VReal (u m)) → shape m (VReal (u m))
| ShText : has m MEM_Null = false → has m (Z.lor MEM_Int MEM_IntReal) = false → has m MEM_Real = false → has m MEM_Str = true → has m MEM_Zero = false → 0 ≤ n m ≤ zlen (z m) → shape m (VText (text_of m))
| ShBlob : has m MEM_Null = false → has m (Z.lor MEM_Int MEM_IntReal) = false → has m MEM_Real = false → has m MEM_Str = false → has m MEM_Zero = false → 0 ≤ n m ≤ zlen (z m) → bytes (text_of m) → shape m (VBlob (text_of m))
| ShZeros : has m MEM_Null = false → has m (Z.lor MEM_Int MEM_IntReal) = false → has m MEM_Real = false → has m MEM_Str = false → has m MEM_Zero = true → 0 ≤ u_nZero m → shape m (VBlob (replicate (Z.to_nat (u_nZero m)) 0)).

Lemma comparable_shape m : comparable m → shape m (value_of m).
Proof.
  intros (HV & HZ & HN & HR & _). unfold value_of. destruct (has m MEM_Null) eqn:EN; [by constructor|]. rewrite <- has_lor. destruct (has m (Z.lor MEM_Int MEM_IntReal)) eqn:EI.
  { constructor; try done. destruct (has m MEM_Real) eqn:ER; [by specialize (HR eq_refl)|done]. }
  pose proof EI as EI'. rewrite has_lor in EI'. destruct (has m MEM_Real) eqn:ER.
  - constructor; try done. destruct HV as (Hu & HV). rewrite EN, EI', ER in HV. by split.
  - destruct (text_value m HV EN EI ER) as (Hn & _). destruct HV as (_ & HV). rewrite EN, EI', ER in HV. destruct HV as (_ & _ & Hb & Hz). destruct (has m MEM_Str) eqn:ES.
    + constructor; try done. destruct (has m MEM_Zero); [by destruct Hz|done].
    + destruct (has m MEM_Zero) eqn:EZ; [|rewrite app_nil_r; by constructor]. assert (text_of m = []) as -> by (unfold text_of; by rewrite (HZ eq_refl)). constructor; (done || lia).
Qed.

Lemma both_int a b : negb (Z.land (Z.land (flags a) (flags b)) (Z.lor MEM_Int MEM_IntReal) =? 0) = true → has a (Z.lor MEM_Int MEM_IntReal) = true ∧ has b (Z.lor MEM_Int MEM_IntReal) = true.
Proof.
  change (negb _) with (has (with_flags (Z.land (flags a) (flags b)) a) (Z.lor MEM_Int MEM_IntReal)). rewrite !has_lor. unfold has at 1 2. cbn [flags with_flags]. rewrite !has_land by done.
  intros [[-> ->]%andb_true_iff|[-> ->]%andb_true_iff]%orb_true_iff; by rewrite ?orb_true_r.
Qed.

Lemma blob_compare_made m1 m2 s1 s2 : shape m1 (VBlob s1) → shape m2 (VBlob s2) → ∃ c, sqlite3BlobCompare m1 m2 = Some c ∧ Z.sgn c = bytes_cmp s1 s2.
Proof.
  assert (HZZ : ∀ a b, bytes_cmp (replicate a 0) (replicate b 0) = Z.sgn (Z.of_nat a - Z.of_nat b)) by (induction a as [|a IH]; intros [|b]; cbn; try done; rewrite IH; f_equal; lia).
  assert (HA : ∀ m, 0 ≤ n m ≤ zlen (z m) → bytes (text_of m) → ∃ b, isAllZero (Z.to_nat (n m)) (z m) = Some b ∧ ∀ k, bytes_cmp (text_of m) (replicate k 0) = (if b then Z.sgn (n m - Z.of_nat k) else 1)).
  { intros m Hn Hb. destruct (isAllZero_made (text_of m) (drop (Z.to_nat (n m)) (z m))) as (b & E & HE). unfold text_of in E. rewrite take_drop, length_take in E. exists b. split; [rewrite <- E; f_equal; lia|].
    intros k. rewrite (HE Hb). by rewrite (text_of_length m Hn). }
  intros S1 S2. unfold sqlite3BlobCompare. inversion S1; inversion S2; subst; repeat match goal with H : has _ MEM_Zero = _ |- _ => rewrite H; clear H end; cbn [orb andb].
  - destruct (memcmp_texts (z m1) (z m2) (n m1) (n m2)) as (c & E & Hc); [done|done|]. replace (if n m2 <? n m1 then n m2 else n m1) with (Z.min (n m1) (n m2)) by (destruct (Z.ltb_spec (n m2) (n m1)); lia).
    rewrite E. cbn [mbind option_bind]. eexists. split; [done|]. unfold text_of. rewrite <- Hc. by destruct (c =? 0).
  - destruct (HA m1) as (b & -> & Hb); [done|done|]. cbn [mbind option_bind]. eexists. split; [done|]. rewrite Hb. destruct b; cbn [negb]; [f_equal; lia|done].
  - destruct (HA m2) as (b & -> & Hb); [done|done|]. cbn [mbind option_bind]. eexists. split; [done|]. rewrite bytes_cmp_flip, Hb. destruct b; cbn [negb]; [lia|done].
  - eexists. split; [done|]. rewrite HZZ. f_equal. lia.
Qed.

Lemma mem_compare_made m1 m2 coll : comparable m1 → comparable m2 → coll_ok (enc m1) coll → ∃ c, sqlite3MemCompare m1 m2 coll = Some c ∧ Z.sgn c = val_cmp coll (value_of m1) (value_of m2).
Proof.
  intros C1 C2 Hok. pose proof (i64_range (u m1)) as Hi1. change (i64 (u m1)) with (u_i m1) in Hi1. pose proof (i64_range (u m2)) as Hi2. change (i64 (u m2)) with (u_i m2) in Hi2.
  pose proof (comparable_shape m1 C1) as S1. pose proof (comparable_shape m2 C2) as S2. set (v1 := value_of m1) in *. set (v2 := value_of m2) in *. clearbody v1 v2.
  pose proof (both_int m1 m2) as HB. unfold sqlite3MemCompare. set (t := negb (Z.land (Z.land (flags m1) (flags m2)) (Z.lor MEM_Int MEM_IntReal) =? 0)) in *. clearbody t.
  assert (HBLOB : ∀ s1 s2, shape m1 (VBlob s1) → shape m2 (VBlob s2) → has m1 MEM_Str = false → has m2 MEM_Str = false → ∃ c, sqlite3BlobCompare m1 m2 = Some c ∧ Z.sgn c = bytes_cmp s1 s2) by (intros; by apply blob_compare_made).
  assert (Hint : Some (if u_i m1 <? u_i m2 then -1 else if u_i m2 <? u_i m1 then 1 else 0) = Some (Z.sgn (u_i m1 - u_i m2))) by (f_equal; destruct (Z.ltb_spec (u_i m1) (u_i m2)), (Z.ltb_spec (u_i m2) (u_i m1)); lia).
  inversion S1; subst; inversion S2; subst; cbn zeta; rewrite ?Hint;
    repeat match goal with H : has ?m ?f = _ |- context [has ?m ?f] => rewrite H end; cbn [orb andb b2z]; cbn [val_cmp];
    try (eexists; split; [done|done]);
    try (destruct t; [exfalso; destruct (HB eq_refl); congruence|]); try (eexists; split; [done|done]); try by apply HBLOB.
  - exists (Z.sgn (u_i m1 - u_i m2)). split; [by destruct t|]. apply Z.sgn_sgn.
  - unfold u_r. match goal with H : wf_val (VReal (u m2)) |- _ => destruct H as (Hr & HN) end. rewrite IntFloatCompare_sgn by done. rewrite HN. eexists. split; [done|]. lia.
  - unfold u_r. match goal with H : wf_val (VReal (u m1)) |- _ => destruct H as (Hr & HN) end. rewrite IntFloatCompare_sgn by done. cbn [mbind option_bind]. rewrite HN. eexists. split; [done|]. lia.
  - eexists. split; [done|]. repeat match goal with H : wf_val (VReal _) |- _ => destruct H as (? & ?HN) end. unfold double_lt, u_r. rewrite HN, HN0. cbn [negb andb]. apply sgn_if.
  - destruct (text_value m1) as (_ & T1); [apply C1|done..|]. destruct (text_value m2) as (_ & T2); [apply C2|done..|]. destruct coll as [c|].
    + unfold vdbeCompareMemString. cbn [coll_ok] in Hok. rewrite Hok, Z.eqb_refl, T1, T2. cbn [mbind option_bind]. by eexists.
    + unfold sqlite3BlobCompare. repeat match goal with H : has ?m MEM_Zero = _ |- _ => rewrite H; clear H end. cbn [orb]. destruct (memcmp_texts (z m1) (z m2) (n m1) (n m2)) as (c & E & Hc); [done|done|].
      replace (if n m2 <? n m1 then n m2 else n m1) with (Z.min (n m1) (n m2)) by (destruct (Z.ltb_spec (n m2) (n m1)); lia). rewrite E. cbn [mbind option_bind]. eexists. split; [done|]. unfold text_of. rewrite <- Hc. by destruct (c =? 0).
Qed.

(** ** The order *)

Definition coll_order (coll : option CollSeq) : Prop :=
  match coll with
  | Some c => (∀ s t, Z.sgn (xCmp c t s) = - Z.sgn (xCmp c s t)) ∧ (∀ s t r, xCmp c s t ≤ 0 → xCmp c t r ≤ 0 → xCmp c s r ≤ 0)
  | None => True
  end.

Lemma bytes_cmp_trans a : ∀ b c, bytes_cmp a b ≤ 0 → bytes_cmp b c ≤ 0 → bytes_cmp a c ≤ 0.
Proof.
  induction a as [|x a IH]; intros [|y b] [|w c]; cbn; try lia. intros H1 H2. destruct (Z.eqb_spec x y), (Z.eqb_spec y w), (Z.eqb_spec x w); subst; try lia; eauto.
Qed.

Lemma val_cmp_flip coll a b : coll_order coll → val_cmp coll b a = - val_cmp coll a b.
Proof.
  intros HC. destruct a as [|i|r|s|s], b as [|j|q|t|t]; cbn [val_cmp]; try done; try lia; [|apply bytes_cmp_flip]. destruct coll as [c|]; [apply HC|apply bytes_cmp_flip].
Qed.

Lemma val_cmp_trans coll a b c : coll_order coll → val_cmp coll a b ≤ 0 → val_cmp coll b c ≤ 0 → val_cmp coll a c ≤ 0.
Proof.
  intros HC. assert (HS : ∀ x y, Z.sgn (x - y) ≤ 0 ↔ x ≤ y) by lia. assert (HM : ∀ x y, x ≤ y ↔ x * UNIT ≤ y * UNIT) by (intros; apply Z.mul_le_mono_pos_r, UNIT_pos).
  destruct a as [|i|r|s|s], b as [|j|q|t|t], c as [|k|w|e|e]; cbn [val_cmp]; rewrite ?HS; revert HM; generalize UNIT; intros Q HM;
    try pose proof (HM i j); try pose proof (HM j k); try pose proof (HM i k); try lia; [|apply bytes_cmp_trans].
  destruct coll as [f|]; [|apply bytes_cmp_trans]. intros H1 H2. pose proof (proj2 HC s t e). lia.
Qed.

(** C22: the comparison of two values is the order of the values that they hold: NULL before numbers before text before blobs, integers and doubles by their exact
    values even where the conversion to a double would round, text by the collating sequence or its bytes, blobs by their bytes with the zeros behind them.  The
    values are such as registers hold ([comparable]: one representation, no NaN, and bytes or zeros in a blob but not both), and a collating sequence works in the
    encoding of the values.  The comparison then always has a result; it changes its sign when the values are exchanged and is transitive, provided that the
    collating sequence is antisymmetric and transitive. *)
Theorem MemCompare_order m1 m2 m3 coll : comparable m1 → comparable m2 → comparable m3 → coll_ok (enc m1) coll → coll_ok (enc m2) coll → coll_order coll →
  ∃ c12 c21 c23 c13, sqlite3MemCompare m1 m2 coll = Some c12 ∧ sqlite3MemCompare m2 m1 coll = Some c21 ∧ sqlite3MemCompare m2 m3 coll = Some c23 ∧ sqlite3MemCompare m1 m3 coll = Some c13 ∧
    Z.sgn c12 = val_cmp coll (value_of m1) (value_of m2) ∧ Z.sgn c21 = - Z.sgn c12 ∧ (c12 ≤ 0 → c23 ≤ 0 → c13 ≤ 0).
Proof.
  intros C1 C2 C3 K1 K2 HC. destruct (mem_compare_made m1 m2 coll C1 C2 K1) as (c12 & E12 & H12). destruct (mem_compare_made m2 m1 coll C2 C1 K2) as (c21 & E21 & H21).
  destruct (mem_compare_made m2 m3 coll C2 C3 K2) as (c23 & E23 & H23). destruct (mem_compare_made m1 m3 coll C1 C3 K1) as (c13 & E13 & H13). exists c12, c21, c23, c13. split_and!; try done.
  - by rewrite H12, H21, val_cmp_flip.
  - intros L1 L2. pose proof (val_cmp_trans coll (value_of m1) (value_of m2) (value_of m3) HC) as HT. lia.
Qed.

(** C21: a record that OP_MakeRecord made of one or more registers (as in the round trip of records) compares with an unpacked key by its fields one after the
    other, each by the order of values with DESC and BIGNULL of its sort flags.  When all fields of the key are equal the result is [default_rc] and [eqSeen] is
    set; a record with fewer fields than the key, equal so far, is corrupt.  This is so for [sqlite3VdbeRecordCompare], and, when the record has at least the
    fields of the key and no more than the index, for the routine that [sqlite3VdbeFindCompare] chooses for the key, with what it caches.  The key has one to
    all fields of its description, values that may be compared, and collating sequences that work in the encoding of the database ([key_ok]). *)
Theorem record_compare_correct fmt limit junk ms own a r a' R rest p : ms ≠ [] → Forall valid ms → zlen ms ≤ 2 ^ 16 → limit ≤ 10 ^ 9 → zlen own ≤ 10 ^ 9 →
  OP_MakeRecord fmt limit junk ms own a = Some (SQLITE_OK, Some r, a') → value_of r = VBlob R → bytes rest → key_ok p →
  compares (map stored ms) p (sqlite3VdbeRecordCompare (zlen R) (R ++ rest) p) ∧
  (nField p ≤ zlen ms ≤ nAllField (pKeyInfo p) → ∃ f p1, sqlite3VdbeFindCompare p = Some (f, p1) ∧
     key_values p1 = key_values p ∧ pKeyInfo p1 = pKeyInfo p ∧ default_rc p1 = default_rc p ∧ compares (map stored ms) p1 (call f (zlen R) (R ++ rest) p1)).
Proof.
  intros Hne HV Hlen Hlim Hown HM HR Hrest HK. destruct (make_record_made fmt limit junk ms own a HV Hlen Hlim Hown) as (rc & out & a1 & E & H). rewrite HM in E. injection E as <- <- <-.
  destruct H as [(_ & (r' & k & Er & Hval & _) & Hmax)|[H|H]]; [|by destruct H|by destruct H]. injection Er as <-. rewrite HR in Hval. injection Hval as ->.
  assert (Hwf : Forall wf_val (map stored ms)) by (apply Forall_map; eapply Forall_impl; [exact HV|]; intros; by apply stored_wf). assert (Hne' : map stored ms ≠ []) by by destruct ms.
  assert (HC : ∀ q, key_ok q → compares (map stored ms) q (sqlite3VdbeRecordCompare (zlen (record fmt (map stored ms))) (record fmt (map stored ms) ++ rest) q)) by (intros; apply record_compare_made; try done; [by rewrite length_map|lia]).
  split; [by apply HC|]. intros (Hfew & Hmany). destruct (Z.leb_spec (nAllField (pKeyInfo p)) 13) as [H13|H13].
  - destruct (find_compare_made fmt (map stored ms) rest) with (p := p) as (f & p1 & F1 & F2 & F3 & F4 & F5 & F6); try done; rewrite ?length_map; try lia. by exists f, p1.
  - exists UseCompare, p. unfold sqlite3VdbeFindCompare. destruct (Z.leb_spec (nAllField (pKeyInfo p)) 13); [lia|]. split_and!; try done. by apply HC.
Qed.

Definition real_ex r := Value MEM_Real r 0 [] 1 0.

Lemma MemCompare_order_witness : (sqlite3MemCompare (int_ex (2 ^ 53 + 1)) (real_ex 0x4340000000000000) None = Some 1 ∧ sqlite3MemCompare (real_ex 0x4340000000000000) (text_ex [49]) None = Some (-1)) ∧
  ∃ c12 c21 c23 c13, sqlite3MemCompare (real_ex 0x4340000000000000) (int_ex (2 ^ 53 + 1)) None = Some c12 ∧ sqlite3MemCompare (int_ex (2 ^ 53 + 1)) (real_ex 0x4340000000000000) None = Some c21 ∧
    sqlite3MemCompare (int_ex (2 ^ 53 + 1)) (text_ex [49]) None = Some c23 ∧ sqlite3MemCompare (real_ex 0x4340000000000000) (text_ex [49]) None = Some c13 ∧
    Z.sgn c12 = val_cmp None (value_of (real_ex 0x4340000000000000)) (value_of (int_ex (2 ^ 53 + 1))) ∧ Z.sgn c21 = - Z.sgn c12 ∧ (c12 ≤ 0 → c23 ≤ 0 → c13 ≤ 0).
Proof.
  split; [split; vm_compute; reflexivity|].
  apply (MemCompare_order (real_ex 0x4340000000000000) (int_ex (2 ^ 53 + 1)) (text_ex [49]) None); [..|exact I|exact I|exact I]; vm_compute; intuition (congruence || (repeat constructor; congruence)).
Defined.

(** Two fields of at most three, the first one descending. *)
Definition key_ex (m1 m2 : sqlite3_value) : UnpackedRecord := Unpacked (Key 1 3 [1; 2; 0] [None; None; None]) [m1; m2] (inl 0) 0 2 7 0 0 0 false.

Lemma record_compare_correct_witness : let p := key_ex (text_ex [97; 98]) (int_ex 5) in let ms := [text_ex [97; 98]; null_ex] in
  ∃ r a' R, OP_MakeRecord 4 1000 (λ _, 255) ms [] {| oom := []; live := 0 |} = Some (SQLITE_OK, Some r, a') ∧ value_of r = VBlob R ∧
    (compares (map stored ms) p (sqlite3VdbeRecordCompare (zlen R) (R ++ [0]) p) ∧
    (nField p ≤ zlen ms ≤ nAllField (pKeyInfo p) → ∃ f p1, sqlite3VdbeFindCompare p = Some (f, p1) ∧
       key_values p1 = key_values p ∧ pKeyInfo p1 = pKeyInfo p ∧ default_rc p1 = default_rc p ∧ compares (map stored ms) p1 (call f (zlen R) (R ++ [0]) p1))).
Proof.
  intros p ms. assert (HM : OP_MakeRecord 4 1000 (λ _, 255) ms [] {| oom := []; live := 0 |} = Some (SQLITE_OK, Some (Value MEM_Blob 0 5 [3; 17; 0; 97; 98] 0 0), {| oom := []; live := 1 |})) by (vm_compute; reflexivity).
  eexists _, _, [3; 17; 0; 97; 98]. split; [exact HM|]. split; [vm_compute; reflexivity|].
  apply (record_compare_correct 4 1000 (λ _, 255) ms [] {| oom := []; live := 0 |} (Value MEM_Blob 0 5 [3; 17; 0; 97; 98] 0 0) {| oom := []; live := 1 |} [3; 17; 0; 97; 98] [0] p); try done; try exact HM.
  - repeat apply Forall_cons_2; [..|apply Forall_nil_2]; vm_compute; intuition (congruence || (repeat constructor; congruence)).
  - repeat constructor; done.
  - split; repeat constructor; done.
Defined.

Example compare_ex : match OP_MakeRecord 4 1000 (λ _, 255) [text_ex [97; 98]; null_ex] [] {| oom := []; live := 0 |} with
  | Some (0, Some r, _) =>
      map (λ p, match sqlite3VdbeFindCompare p with Some (f, p) => (f, option_map fst (call f (n r) (z r) p)) | None => (UseCompare, None) end)
        [key_ex (text_ex [97; 98]) null_ex; key_ex (text_ex [97; 99]) null_ex; key_ex (text_ex [97]) null_ex; key_ex (text_ex [97; 98]) (int_ex 5); key_ex (int_ex 3) null_ex; key_ex (real_ex 0) null_ex]
  | _ => [] end = [(UseCompareString, Some 7); (UseCompareString, Some 1); (UseCompareString, Some (-1)); (UseCompareString, Some 1); (UseCompareInt, Some (-1)); (UseCompare, Some (-1))].
Proof. vm_compute. reflexivity. Qed.
